(* ===== verification/_CoqProject ===== *)
-Q . S2P
Prelude.v
Simple8b.v
Simple8bStream.v
Codec.v
IntCodec.v
TimeCodec.v
IntStream.v
TimeStream.v
BoolCodec.v
StringCodec.v
Platform.v
Authz.v
Tenant.v
TenantSvc.v
Passwords.v
AuthSvc.v
TempDB.v
Values.v
ArrayValues.v
Bits.v
FloatCodec.v
FloatBatch.v
Block.v
Ring.v
Cache.v
Wal.v
WalLog.v
WalRecovery.v
MetaData.v
MetaShards.v
MetaWire.v
MetaClient.v
DQueue.v
DQueueSegs.v
DQueueSpec.v
DQueueOpen.v
Replication.v
TsmIndex.v
TsmIndexSpec.v
TsmDelete.v
TsmDeleteRange.v
TsmOpen.v
TsmFile.v
TsmFileSpec.v
Tombstone.v
TombstoneSpec.v
TsmReader.v
TsmReaderSpec.v
Points.v
PointsScan.v
PointsKey.v
PointsSafe.v
PointsOrder.v
PointsText.v
PointsWalk.v
PointsPrint.v
PointsRound.v
