(* ===== verification/Prelude.v ===== *)
(** * Verification of the InfluxDB backend

    The repository holds the Go backend of InfluxDB ([src/backend]), a
    TypeScript front end, and a small module of its own for temporary
    databases ([noSQL_module]).  This library models parts of the backend as
    Rocq functions, translated from the source, and proves what makes them
    correct.

    ** Parts and files

    - [Prelude]: results of Go calls ([outcome]: a value, an error or a panic),
      machine integers, byte order, varints, list and arithmetic lemmas, and
      the tactics the other files share.
    - Compression of time series, [pkg/encoding/simple8b] and
      [tsdb/engine/tsm1].  [Simple8b] packs up to 240 integers into a word
      ([EncodeAll], [DecodeAll]); [Simple8bStream] holds the streaming
      [Encoder] and [Decoder] of the same package, whose buffers are part of
      the state.  [Codec] has the zig-zag functions and the loops the codecs
      share; [IntCodec] and [TimeCodec] the batch codecs of integers and
      timestamps ([batch_integer.go], [batch_timestamp.go]); [IntStream] and
      [TimeStream] the streaming ones ([int.go], [timestamp.go]);
      [BoolCodec] and [StringCodec] both forms for booleans and strings.
      [Bits] has the bit reader ([bit_reader.go]), [FloatCodec] the streaming
      float codec ([float.go]) and [FloatBatch] the batch one, which writes
      and reads the same stream with shifts and masks ([batch_float.go]).
      Third-party packages (snappy, jwilder's simple8b, go-bitstream) are type
      classes with their documented laws, each with an instance.
    - Values and blocks.  [Values] holds the slices of time-stamped values
      ([encoding.gen.go]): ordering, deduplication, ranges and merging;
      [ArrayValues] the same operations on parallel arrays
      ([tsdb/cursors/arrayvalues.gen.go]); [Block] the blocks of a TSM file
      ([encoding.go], [array_encoding.go]), written against the interfaces
      [ValueCodec] and [ArrayCodec] that the codecs implement.
    - Unflushed data.  [Ring] is the sharded map of entries ([ring.go]) and
      [Cache] the cache over it ([cache.go]) with its snapshots and its size
      counter.  [Wal] has the encodings of log entries, [WalLog] the segment
      files, their writer and reader and the loader ([wal.go], [CacheLoader]),
      and [WalRecovery] what [Engine.Open] does with them after a crash.
    - TSM files.  [TsmIndex] has the index of a file: the writers that collect
      its entries ([writer.go]), the index over the mapped bytes with its
      offsets and tombstones ([indirectIndex] of [reader.go]) and the searches
      of [pkg/bytesutil].  [TsmIndexSpec] relates its bytes to a list of
      series, [TsmDelete] and [TsmDeleteRange] prove what deletions do to it,
      and [TsmOpen] writing, opening and runs of deletions.  [TsmFile] has the
      file writer, the mapped file with its reads and the block iterator,
      against the interface [BlockCodec] that [Block] implements;
      [TsmFileSpec] its proofs.  [Tombstone] is the tombstone file in its four
      formats over the interface [Gzip] ([tombstone.go]), [TombstoneSpec] its
      proofs.  [TsmReader] ties file and tombstones together ([TSMReader],
      [batchDelete]), and [TsmReaderSpec] proves the whole.
    - Line protocol, [models/points.go] and [pkg/escape].  [Points] has the
      scanners of a line, the parser, points with their tags, fields and
      iterator, and their text and binary forms; floats are read and printed
      through the interface [FloatText], times in binary through
      [TimeBinary].  [PointsScan] says where each scanner stops, [PointsKey]
      what becomes of a series key, [PointsSafe] that parsing returns,
      [PointsOrder] that the order of tags does not matter; [PointsText],
      [PointsWalk] and [PointsPrint] follow the scanners over printed text,
      and [PointsRound] has the round trip and the examples of lines that are
      not read as they were written.
    - Access control.  [Platform] has identifiers and errors
      ([kit/platform]); [Authz] the permissions, user resource mappings,
      authorizers and the checks of [authorizer] ([authz.go], [auth.go],
      [session.go], [user_resource_mapping.go], [authorize.go],
      [authorize_find.go]).
    - Tenants.  [Tenant] is the transactional store of organizations, users,
      buckets, mappings and passwords ([tenant/storage*.go]) with its name
      indexes; [TenantSvc] the services over it ([tenant/service_*.go]);
      [Passwords] the password operations; [AuthSvc] the store and service of
      authorization tokens ([authorization]); [TempDB] the temporary
      databases, which call all of them.
    - Metadata of the storage engine, [v1/services/meta].  [MetaData] holds
      databases, retention policies, shard groups, users and leases
      ([data.go]), [MetaShards] their invariants, [MetaWire] the stored form
      ([marshal], [unmarshal]) and [MetaClient] the client that caches and
      stores them ([client.go]).
    - Replication, [pkg/durablequeue] and [replications].  [DQueue] is the
      queue of byte blocks in segment files, with its scanners, over a state
      and error monad whose state survives errors; segments are objects in a
      store, so that a scanner and the queue share them.  [DQueueSegs] proves
      what the operations do on one segment file, [DQueueSpec] on the queue,
      and [DQueueOpen] has restarts and the refinement of a list.
      [Replication] sends the blocks to a remote server
      ([queue_management.go], [writer.go]) and cuts points into batches
      ([service.go]).

    ** How the models correspond to the code

    A Go function is a Rocq function of the same name; a method takes its
    receiver as an argument.  A slice is a list; where the code relies on
    capacity or on stale contents of a reused buffer, the buffer is part of
    the state, and where a clone shares an array with the original, what happens
    to the original is written out ([MetaClient.shift_subscriptions]).  Fixed-width integers are [Z] with the wrap-around written out
    ([u64], [i64]).  Functions that can panic return [outcome]; the tenant
    stack uses a state and error monad over the key-value store
    ([Tenant.M]), where [Update] rolls back on error as the store does.
    Identifier and token generators, random bytes, clocks, bcrypt, URL
    parsing and the Unicode tables are parameters.  A store or file whose
    writes can fail takes the outcome of each write as an argument.

    ** What the theorems show

    - Round trips of every codec, batch and streaming, from any state of a
      reused buffer; agreement of the batch and streaming forms; the errors
      and panics on inputs they refuse.
    - Values: merging and deduplication refine maps from times to values, and
      the array form agrees with the slice form.  Blocks: encoding with any
      pooled encoder and decoding with any sound pooled decoder is the
      identity; what unpacking does with any length.
    - The ring is a map whatever the hash; the cache refines a pair of maps,
      the live data and the snapshot, for clients that write values of known
      types and clear only snapshots they asked for ([Cache.client_ok]); its
      size counter bounds what it holds.
      What was written to the log is what a restart reads, also when a crash
      tore the last write.
    - A TSM file gives back what was written, less what was deleted, for any
      run of deletions, and still does when it is opened again with the
      tombstones left behind; opening damaged bytes ends.  Tombstone files of
      older formats lose or change what they held.
    - Parsing any bytes as lines returns, and every point it returns is well
      formed; tags may come in any order, but for which of several reserved keys
      an error names; what a point prints is parsed back to the same series,
      fields and time, as long as its names have no backslash or newline and the
      tags are sorted by their escaped keys ([PointsRound.printable] has the
      conditions in full).
    - The permission sets of owners, members and operators, the isolation of
      organizations, and what the authorization checks let through.
    - The tenant store stays consistent under any sequence of service calls
      with trimmed names of organizations, except that the resource of a mapping
      may not exist, which the code does not check; deletions cascade to exactly what they own; permission listings cover
      all pages.
    - Shard groups divide the time line whatever is created, truncated,
      deleted or imported ([MetaShards.op_ok] says which arguments are
      allowed); a new group takes the largest free range; the client stores
      what it acknowledges and a restart finds it, and a failed write costs
      nothing but the subscriptions that a drop has moved in the cache; cached
      passwords do not outlive the password, as long as no user is dropped, the
      data is not replaced, calls do not overlap and SHA-256 does not collide.
    - The replication queue is a first-in first-out list across segments,
      scans and restarts; repairing a damaged segment keeps its complete
      blocks when a whole length follows them that leads behind the file, while
      a shorter tail costs a block and a negative length can make it run
      forever.  As long as the ticker of the sender does not fire, sending
      removes only what the server took, and drains the queue if nothing is
      added; the examples show the tick that breaks this.
    - Creating a token or a temporary database and deleting it restores the
      store; failures are undone; a temporary database is also removed when
      other calls have changed the store while its goroutine slept.

    Theorems that state defects of the code are listed with the others; each
    says what the code does.

    ** Fuel

    Loops over lists are structural.  The others take fuel that their callers
    set to a bound of the number of rounds: the words left for the simple8b
    loops, ten bytes for a varint, the number of mappings for the pages of
    [FindPermissionForUser], the length of the slice for binary searches, the
    bits left for the batch float decoder, the bytes left for the readers of
    log entries and segments and for the walks over segments of a queue, the bytes of an
    index for the scan that opens it and of a tombstone file for its walk, the
    length of the buffer for the scanners of lines, one
    hundred attempts for identifiers (the bound of the code).  The theorems are about the callers, so the bounds are part
    of what is proved.

    ** Not modelled

    The set of open TSM files and their compaction; advice to memory mapping, failing files, goroutines and locks of the storage
    engine; the HTTP layer, command line and start-up; query compilation and execution,
    which work over the third-party flux and influxql packages; the front
    end.  The Unicode checks of tokens are left out of the line protocol.
    The tenant models store records instead of their JSON text, so names are
    taken to be valid UTF-8, and they leave out creation times and the errors of
    an unavailable key-value store.  Contexts, which services and stores use for
    tracing, are left out. *)

From stdpp Require Export base list numbers option strings.
From Stdlib Require Export ZArith Lia.

#[global] Open Scope Z_scope.

(** ** Results of Go calls

    A Go call either returns normally, returns a non-nil [error] (the text
    of the error is kept, formatted arguments dropped), or panics. *)

Inductive outcome (A : Type) : Type :=
| Ret (a : A)
| Fail (e : string)
| Panic.
Arguments Ret {A} a.
Arguments Fail {A} e.
Arguments Panic {A}.

Definition obind {A B} (m : outcome A) (k : A -> outcome B) : outcome B :=
  match m with
  | Ret a => k a
  | Fail e => Fail e
  | Panic => Panic
  end.

Declare Scope go_scope.
Delimit Scope go_scope with go.
Notation "'let!' x := m 'in' k" := (obind m (fun x => k))
  (at level 10, x pattern, m at level 100, k at level 200) : go_scope.
#[global] Open Scope go_scope.

(** An [option] read as a slice access: [None] is an index out of range. *)
Definition or_panic {A} (o : option A) : outcome A :=
  match o with Some a => Ret a | None => Panic end.

(** ** Machine integers

    [uint64] and [int64] values are integers kept in range by [u64] and
    [i64], the conversions Go applies after every arithmetic operation. *)

Definition u64 (x : Z) : Z := x mod 2 ^ 64.
Definition i64 (x : Z) : Z :=
  let y := x mod 2 ^ 64 in if y <? 2 ^ 63 then y else y - 2 ^ 64.

Definition is_u64 (x : Z) : Prop := 0 <= x < 2 ^ 64.
Definition is_i64 (x : Z) : Prop := - 2 ^ 63 <= x < 2 ^ 63.
Definition is_byte (x : Z) : Prop := 0 <= x < 256.

Ltac zcase :=
  match goal with
  | |- context [?a <? ?b] => destruct (Z.ltb_spec a b)
  | |- context [?a <=? ?b] => destruct (Z.leb_spec a b)
  | |- context [?a =? ?b] => destruct (Z.eqb_spec a b)
  | H : context [?a <? ?b] |- _ => destruct (Z.ltb_spec a b)
  | H : context [?a <=? ?b] |- _ => destruct (Z.leb_spec a b)
  | H : context [?a =? ?b] |- _ => destruct (Z.eqb_spec a b)
  end.

Ltac ncase :=
  match goal with
  | |- context [(?a <? ?b)%nat] => destruct (Nat.ltb_spec a b)
  | |- context [(?a <=? ?b)%nat] => destruct (Nat.leb_spec a b)
  | |- context [(?a =? ?b)%nat] => destruct (Nat.eqb_spec a b)
  end.

Ltac unint := unfold is_u64, is_i64, is_byte, u64, i64 in *.

Lemma u64_range x : is_u64 (u64 x).
Proof. unint. apply Z.mod_pos_bound. lia. Qed.

Lemma u64_id x : is_u64 x -> u64 x = x.
Proof. unint. intros. apply Z.mod_small. lia. Qed.

Lemma i64_range x : is_i64 (i64 x).
Proof.
  unint. pose proof (Z.mod_pos_bound x (2 ^ 64) ltac:(lia)). zcase; lia.
Qed.

Lemma i64_id x : is_i64 x -> i64 x = x.
Proof.
  unint. intros H. destruct (Z.ltb_spec x 0).
  - rewrite <- (Z.mod_unique x (2 ^ 64) (-1) (x + 2 ^ 64)) by lia.
    zcase; lia.
  - rewrite Z.mod_small by lia. zcase; lia.
Qed.

(** [i64] and [u64] only look at the residue modulo 2^64. *)
Lemma i64_u64 x : i64 (u64 x) = i64 x.
Proof. unint. rewrite Z.mod_mod by lia. done. Qed.

Lemma u64_i64 x : u64 (i64 x) = u64 x.
Proof.
  unint. zcase; rewrite ?Z.mod_mod by lia; [done|].
  rewrite <- (Z.mod_add _ 1) by lia.
  replace (x mod 2 ^ 64 - 2 ^ 64 + 1 * 2 ^ 64) with (x mod 2 ^ 64) by lia.
  apply Z.mod_mod. lia.
Qed.

Lemma u64_add_l x y : u64 (u64 x + y) = u64 (x + y).
Proof. unint. apply Zplus_mod_idemp_l. Qed.
Lemma u64_add_r x y : u64 (x + u64 y) = u64 (x + y).
Proof. unint. apply Zplus_mod_idemp_r. Qed.
Lemma u64_sub_l x y : u64 (u64 x - y) = u64 (x - y).
Proof. unint. apply Zminus_mod_idemp_l. Qed.
Lemma u64_sub_r x y : u64 (x - u64 y) = u64 (x - y).
Proof. unint. apply Zminus_mod_idemp_r. Qed.
Lemma u64_mul_l x y : u64 (u64 x * y) = u64 (x * y).
Proof. unint. apply Zmult_mod_idemp_l. Qed.
Lemma u64_mul_r x y : u64 (x * u64 y) = u64 (x * y).
Proof. unint. apply Zmult_mod_idemp_r. Qed.

(** An [int64] operand only matters modulo 2^64. *)
Lemma u64_add_i64_l x y : u64 (i64 x + y) = u64 (x + y).
Proof. by rewrite <- u64_add_l, u64_i64, u64_add_l. Qed.
Lemma u64_add_i64_r x y : u64 (x + i64 y) = u64 (x + y).
Proof. by rewrite <- u64_add_r, u64_i64, u64_add_r. Qed.
Lemma u64_sub_i64_l x y : u64 (i64 x - y) = u64 (x - y).
Proof. by rewrite <- u64_sub_l, u64_i64, u64_sub_l. Qed.
Lemma u64_sub_i64_r x y : u64 (x - i64 y) = u64 (x - y).
Proof. by rewrite <- u64_sub_r, u64_i64, u64_sub_r. Qed.
Lemma u64_mul_i64_l x y : u64 (i64 x * y) = u64 (x * y).
Proof. by rewrite <- u64_mul_l, u64_i64, u64_mul_l. Qed.
Lemma u64_mul_i64_r x y : u64 (x * i64 y) = u64 (x * y).
Proof. by rewrite <- u64_mul_r, u64_i64, u64_mul_r. Qed.
Lemma u64_u64 x : u64 (u64 x) = u64 x.
Proof. apply u64_id, u64_range. Qed.

Lemma i64_congr x y : u64 x = u64 y -> i64 x = i64 y.
Proof. intros H. by rewrite <- (i64_u64 x), H, i64_u64. Qed.

Create Rewrite HintDb word.
Create HintDb words.
#[export] Hint Rewrite u64_add_l u64_add_r u64_sub_l u64_sub_r u64_mul_l u64_mul_r
  u64_i64 i64_u64 u64_u64 u64_add_i64_l u64_add_i64_r u64_sub_i64_l u64_sub_i64_r
  u64_mul_i64_l u64_mul_i64_r : word.
#[export] Hint Resolve u64_range i64_range : words.

(** Equality of [i64] expressions: reduce to a congruence modulo 2^64. *)
Ltac i64_ring :=
  apply i64_congr; autorewrite with word; try (f_equal; ring).

(** ** Bit operations *)

Lemma land_ones_mod x n : 0 <= n -> Z.land x (2 ^ n - 1) = x mod 2 ^ n.
Proof. intros. rewrite <- Z.land_ones by done. f_equal. rewrite Z.ones_equiv. lia. Qed.

(** The or of a value with a word shifted above it is their sum. *)
Lemma lor_shiftl_add x y n :
  0 <= n -> 0 <= x < 2 ^ n -> Z.lor x (Z.shiftl y n) = x + y * 2 ^ n.
Proof.
  intros Hn Hx. rewrite Z.shiftl_mul_pow2 by done.
  rewrite <- (Z.add_lor_land x (y * 2 ^ n)).
  enough (Z.land x (y * 2 ^ n) = 0) by lia.
  apply Z.bits_inj'. intros i Hi.
  rewrite Z.land_spec, Z.bits_0.
  destruct (Z.ltb_spec i n).
  - rewrite (Z.mul_pow2_bits_low y n i) by lia. apply andb_false_r.
  - rewrite <- (Z.mod_small x (2 ^ n)) by lia.
    by rewrite Z.mod_pow2_bits_high by lia.
Qed.

(** ** encoding/binary *)

(** [binary.BigEndian.PutUint64] and its 16 and 32 bit versions, at [n] bytes. *)
Fixpoint be_put (n : nat) (v : Z) : list Z :=
  match n with
  | O => []
  | S n' => be_put n' (Z.shiftr v 8) ++ [Z.land v 255]
  end.

(** [binary.BigEndian.Uint64] and its 16 and 32 bit versions. *)
Definition be_get (b : list Z) : Z :=
  fold_left (fun acc x => Z.lor (Z.shiftl acc 8) x) b 0.

Lemma be_put_length n v : length (be_put n v) = n.
Proof. revert v; induction n; intros; simpl; rewrite ?length_app, ?IHn; simpl; lia. Qed.

Lemma land255_byte v : is_byte (Z.land v 255).
Proof.
  change 255 with (2 ^ 8 - 1). rewrite land_ones_mod by lia.
  apply (Z.mod_pos_bound v 256). lia.
Qed.

Lemma be_put_bytes n v : Forall is_byte (be_put n v).
Proof.
  revert v; induction n; intros; simpl; [constructor|].
  apply Forall_app; split; [apply IHn|]. repeat constructor; apply land255_byte.
Qed.

Lemma be_get_put n v : be_get (be_put n v) = v mod 2 ^ (8 * Z.of_nat n).
Proof.
  revert v; induction n; intros; simpl be_put.
  - unfold be_get. simpl. by rewrite Z.mod_1_r.
  - unfold be_get in *. rewrite fold_left_app, IHn. simpl.
    rewrite Z.lor_comm, lor_shiftl_add by (try lia; apply land255_byte).
    change 255 with (2 ^ 8 - 1). rewrite land_ones_mod by lia.
    rewrite Z.shiftr_div_pow2 by lia.
    replace (8 * Z.of_nat (S n)) with (8 + 8 * Z.of_nat n) by lia.
    rewrite Z.pow_add_r by lia.
    rewrite Z.rem_mul_r by lia. lia.
Qed.

Lemma be64_roundtrip v : is_u64 v -> be_get (be_put 8 v) = v.
Proof. intros. rewrite be_get_put. apply u64_id. done. Qed.

Lemma be_get_snoc b x :
  is_byte x -> be_get (b ++ [x]) = be_get b * 256 + x.
Proof.
  intros. unfold be_get. rewrite fold_left_app. simpl.
  rewrite Z.lor_comm, lor_shiftl_add by (unint; simpl; lia). simpl. lia.
Qed.

Lemma be_get_cons x b :
  Forall is_byte (x :: b) -> be_get (x :: b) = x * 256 ^ Z.of_nat (length b) + be_get b.
Proof.
  induction b as [|y b IH] using rev_ind; intros H.
  - apply Forall_cons_1 in H as [Hx _]. rewrite <- (app_nil_l [x]), be_get_snoc by done. unfold be_get. simpl. lia.
  - rewrite app_comm_cons in H. apply Forall_app in H as [H Hy]. apply Forall_cons_1 in Hy as [Hy _].
    rewrite app_comm_cons, !be_get_snoc, IH, length_app by done. cbn [length].
    rewrite Nat2Z.inj_add, Z.pow_add_r by lia. change (256 ^ Z.of_nat 1) with 256. lia.
Qed.

Lemma be_get_bound b : Forall is_byte b -> 0 <= be_get b < 2 ^ (8 * Z.of_nat (length b)).
Proof.
  induction b as [|x b IH] using rev_ind; intros H; [done|].
  apply Forall_app in H as [Hb Hx]. apply Forall_cons_1 in Hx as [Hx _].
  rewrite be_get_snoc, length_app by done. cbn [length]. specialize (IH Hb).
  replace (8 * Z.of_nat (length b + 1)) with (8 * Z.of_nat (length b) + 8) by lia.
  rewrite Z.pow_add_r by lia. unint. lia.
Qed.

(** Every byte string is the big-endian form of the integer it denotes. *)
Lemma be_put_get b : Forall is_byte b -> be_put (length b) (be_get b) = b.
Proof.
  induction b as [|x b IH] using rev_ind; intros H; [done|].
  apply Forall_app in H as [Hb Hx]. apply Forall_cons_1 in Hx as [Hx _].
  rewrite be_get_snoc, length_app, Nat.add_comm by done. cbn [length Nat.add be_put].
  change 255 with (2 ^ 8 - 1). rewrite land_ones_mod, Z.shiftr_div_pow2 by lia. change (2 ^ 8) with 256.
  unint. rewrite Z.div_add_l, Z.div_small, Z.add_0_r, (IH Hb) by lia.
  do 2 f_equal. rewrite Z.add_comm, Z.mod_add by lia. apply Z.mod_small. lia.
Qed.

(** [binary.PutUvarint]: the bytes written; ten rounds cover 70 bits. *)
Fixpoint put_uvarint_fuel (fuel : nat) (x : Z) : list Z :=
  match fuel with
  | O => []
  | S f =>
      if 128 <=? x
      then Z.lor (Z.land x 127) 128 :: put_uvarint_fuel f (Z.shiftr x 7)
      else [x]
  end.
Definition put_uvarint (x : Z) : list Z := put_uvarint_fuel 10 x.

(** [binary.Uvarint]: the value and the number of bytes read (0: the buffer
    is too small, negative: overflow). *)
Fixpoint uvarint_loop (buf : list Z) (i x s : Z) : Z * Z :=
  match buf with
  | [] => (0, 0)
  | b :: buf' =>
      if i =? 10 then (0, - (i + 1))
      else if b <? 128 then
        if (i =? 9) && (1 <? b) then (0, - (i + 1))
        else (Z.lor x (u64 (Z.shiftl b s)), i + 1)
      else uvarint_loop buf' (i + 1) (Z.lor x (u64 (Z.shiftl (Z.land b 127) s))) (s + 7)
  end.
Definition uvarint (buf : list Z) : Z * Z := uvarint_loop buf 0 0 0.

Lemma land127_or_128 x :
  Z.land (Z.lor (Z.land x 127) 128) 127 = x mod 128 /\
  128 <= Z.lor (Z.land x 127) 128 < 256.
Proof.
  pose proof (land_ones_mod x 7 ltac:(lia)) as E. change (2 ^ 7 - 1) with 127 in E; change (2 ^ 7) with 128 in E.
  pose proof (Z.mod_pos_bound x 128 ltac:(lia)) as B.
  pose proof (lor_shiftl_add (x mod 128) 1 7 ltac:(lia) B) as L.
  change (Z.shiftl 1 7) with 128 in L. change (2 ^ 7) with 128 in L.
  rewrite E, L. split; [|lia].
  change 127 with (2 ^ 7 - 1). rewrite land_ones_mod by lia. change (2 ^ 7) with 128.
  rewrite Z.mod_add by lia. apply Z.mod_small. lia.
Qed.

Lemma uvarint_loop_put fuel v i x s rest :
  0 <= i -> i + Z.of_nat fuel = 10 -> s = 7 * i ->
  0 <= x < 2 ^ s -> 0 <= v < 2 ^ (64 - s) ->
  uvarint_loop (put_uvarint_fuel fuel v ++ rest) i x s =
    (x + v * 2 ^ s, i + Z.of_nat (length (put_uvarint_fuel fuel v))).
Proof.
  revert v i x s. induction fuel as [|f IH]; intros v i x s Hi Hf -> Hx Hv.
  { replace i with 10 in * by lia. simpl in Hv. lia. }
  cbn [put_uvarint_fuel].
  assert (Hp : 2 ^ (64 - 7 * i) * 2 ^ (7 * i) = 2 ^ 64).
  { rewrite <- Z.pow_add_r by lia. f_equal. lia. }
  assert (0 < 2 ^ (7 * i)) by (apply Z.pow_pos_nonneg; lia).
  assert (Hfit : forall w, 0 <= w <= v -> u64 (Z.shiftl w (7 * i)) = Z.shiftl w (7 * i)).
  { intros w Hw. apply u64_id. unint. rewrite Z.shiftl_mul_pow2 by lia. nia. }
  destruct (Z.leb_spec 128 v) as [Hbig|Hsmall].
  - cbn [app uvarint_loop]. destruct (land127_or_128 v) as [E B].
    destruct (Z.eqb_spec i 10); [lia|].
    destruct (Z.ltb_spec (Z.lor (Z.land v 127) 128) 128); [lia|].
    pose proof (Z.mod_pos_bound v 128 ltac:(lia)) as Bm.
    pose proof (Z.mod_le v 128 ltac:(lia) ltac:(lia)).
    rewrite E, Hfit, lor_shiftl_add by lia.
    assert (i < 9).
    { destruct (Z.eq_dec i 9); [subst; simpl in Hv; lia|lia]. }
    replace (7 * i + 7) with (7 * (i + 1)) by lia.
    assert (E7 : 2 ^ (7 * (i + 1)) = 128 * 2 ^ (7 * i)).
    { replace (7 * (i + 1)) with (7 + 7 * i) by lia. by rewrite Z.pow_add_r by lia. }
    assert (E64 : 2 ^ (64 - 7 * i) = 128 * 2 ^ (64 - 7 * (i + 1))).
    { replace (64 - 7 * i) with (7 + (64 - 7 * (i + 1))) by lia. by rewrite Z.pow_add_r by lia. }
    pose proof (Z.div_mod v 128 ltac:(lia)).
    rewrite IH.
    + rewrite Z.shiftr_div_pow2 by lia. change (2 ^ 7) with 128. f_equal; [nia|].
      cbn [length]. lia.
    + lia.
    + lia.
    + done.
    + nia.
    + rewrite Z.shiftr_div_pow2 by lia. change (2 ^ 7) with 128.
      split; [apply Z.div_pos; lia | apply Z.div_lt_upper_bound; lia].
  - cbn [app uvarint_loop].
    destruct (Z.eqb_spec i 10); [subst; simpl in Hv; lia|].
    destruct (Z.ltb_spec v 128); [|lia].
    destruct (Z.eqb_spec i 9) as [->|]; simpl andb.
    + simpl in Hv. destruct (Z.ltb_spec 1 v); [lia|].
      by rewrite Hfit, lor_shiftl_add by lia.
    + by rewrite Hfit, lor_shiftl_add by lia.
Qed.

(** Reading back what [PutUvarint] wrote, whatever follows it. *)
Lemma uvarint_put v rest :
  is_u64 v -> uvarint (put_uvarint v ++ rest) = (v, Z.of_nat (length (put_uvarint v))).
Proof.
  intros Hv. unfold uvarint, put_uvarint.
  rewrite uvarint_loop_put by (exact Hv || done).
  by rewrite Z.pow_0_r, Z.mul_1_r, !Z.add_0_l.
Qed.

Lemma put_uvarint_fuel_pos f v : (0 < length (put_uvarint_fuel (S f) v))%nat.
Proof. simpl. destruct (128 <=? v); simpl; lia. Qed.

Lemma put_uvarint_pos v : (0 < length (put_uvarint v))%nat.
Proof. apply put_uvarint_fuel_pos. Qed.

Lemma put_uvarint_fuel_length f v : (length (put_uvarint_fuel f v) <= f)%nat.
Proof.
  revert v. induction f as [|f IH]; intros v; simpl; [lia|].
  destruct (128 <=? v); simpl; [specialize (IH (Z.shiftr v 7))|]; lia.
Qed.

Lemma put_uvarint_fuel_bound f k v :
  v < 2 ^ (7 * Z.of_nat (S k)) -> (length (put_uvarint_fuel f v) <= S k)%nat.
Proof.
  revert k v. induction f as [|f IH]; intros k v Hv; cbn [put_uvarint_fuel]; [simpl; lia|].
  destruct (Z.leb_spec 128 v); [|simpl; lia]. destruct k as [|k]; [simpl in Hv; lia|].
  cbn [length]. apply le_n_S, IH. rewrite Z.shiftr_div_pow2 by lia.
  apply Z.div_lt_upper_bound; [lia|]. rewrite <- Z.pow_add_r by lia.
  replace (7 + 7 * Z.of_nat (S k)) with (7 * Z.of_nat (S (S k))) by lia. done.
Qed.

Lemma put_uvarint_bound k v :
  v < 2 ^ (7 * Z.of_nat (S k)) -> (length (put_uvarint v) <= S k)%nat.
Proof. apply put_uvarint_fuel_bound. Qed.

Lemma put_uvarint_fuel_bytes f v : 0 <= v -> Forall is_byte (put_uvarint_fuel f v).
Proof.
  revert v. induction f as [|f IH]; intros v Hv; cbn [put_uvarint_fuel]; [done|].
  destruct (Z.leb_spec 128 v).
  - constructor; [|apply IH, Z.shiftr_nonneg, Hv]. pose proof (land127_or_128 v).
    unint. lia.
  - constructor; [unint; lia|done].
Qed.

Lemma put_uvarint_bytes v : 0 <= v -> Forall is_byte (put_uvarint v).
Proof. apply put_uvarint_fuel_bytes. Qed.

Lemma uvarint_loop_len buf : forall i x s, 0 <= i -> (uvarint_loop buf i x s).2 <= i + Z.of_nat (length buf).
Proof.
  induction buf as [|b buf IH]; intros i x s Hi; cbn [uvarint_loop length]; [simpl; lia|].
  destruct (i =? 10); [simpl; lia|]. destruct (b <? 128); [destruct (_ && _); simpl; lia|].
  etrans; [apply IH; lia|lia].
Qed.

(** [Uvarint] does not read past its buffer. *)
Lemma uvarint_len buf v n : uvarint buf = (v, n) -> n <= Z.of_nat (length buf).
Proof. intros E. pose proof (uvarint_loop_len buf 0 0 0 ltac:(lia)) as H. unfold uvarint in E. rewrite E in H. simpl in H. lia. Qed.

(** ** Slices

    A byte slice seen by a callee: the backing array from the slice's offset
    to its capacity, and the slice's length. *)

Record slice := Slice { s_arr : list Z; s_len : nat }.

Definition s_cap (b : slice) : nat := length (s_arr b).
Definition s_bytes (b : slice) : list Z := take (s_len b) (s_arr b).
Definition slice_ok (b : slice) : Prop := (s_len b <= s_cap b)%nat.

(** [b[:n]] for [n <= cap b]. *)
Definition s_to (b : slice) (n : nat) : slice := Slice (s_arr b) n.

(** The idiom [if len(b) < sz && cap(b) >= sz { b = b[:sz] } else if len(b) <
    sz { b = append(b, make([]byte, sz-len(b))...) }]. *)
Definition s_grow (b : slice) (sz : nat) : slice :=
  if (s_len b <? sz)%nat && (sz <=? s_cap b)%nat then s_to b sz
  else if (s_len b <? sz)%nat
       then Slice (s_bytes b ++ replicate (sz - s_len b) 0) sz
       else b.

(** Overwrite the bytes from offset 0. *)
Definition s_put (b : slice) (bytes : list Z) : slice :=
  Slice (bytes ++ drop (length bytes) (s_arr b)) (s_len b).

Lemma s_put_to b bytes n :
  length bytes = n -> s_bytes (s_to (s_put b bytes) n) = bytes.
Proof. intros <-. unfold s_bytes. simpl. apply take_app_length. Qed.

Lemma s_grow_len b sz : (sz <= s_len (s_grow b sz))%nat.
Proof.
  unfold s_grow. destruct (Nat.ltb_spec (s_len b) sz); simpl; [|lia].
  destruct (Nat.leb_spec sz (s_cap b)); simpl; lia.
Qed.

Lemma s_put_grow_exact b bytes :
  (s_len b <= length bytes)%nat ->
  s_bytes (s_put (s_grow b (length bytes)) bytes) = bytes.
Proof.
  intros H. assert (E : s_len (s_grow b (length bytes)) = length bytes).
  { unfold s_grow. destruct (Nat.ltb_spec (s_len b) (length bytes)); simpl; [|lia].
    destruct (Nat.leb_spec (length bytes) (s_cap b)); simpl; lia. }
  unfold s_bytes. simpl. rewrite E. apply take_app_length.
Qed.

(** ** Lists *)

Lemma forallb_Forall {A} (f : A -> bool) l : forallb f l = true <-> Forall (fun x => f x = true) l.
Proof.
  induction l as [|x l IH]; simpl; [by split; [constructor|]|].
  rewrite andb_true_iff, IH. split; [intros []; by constructor | by inversion 1].
Qed.

(** [for i := range s { ... }] chunks of eight bytes. *)
Lemma drop_add {A} n m (l : list A) : drop n (drop m l) = drop (m + n) l.
Proof. apply drop_drop. Qed.

(** Reinterpreting a slice of [int64] as [uint64] and back. *)
Lemma i64_u64_list l : Forall is_i64 l -> i64 <$> (u64 <$> l) = l.
Proof.
  induction 1 as [|x l Hx _ IH]; [done|]. cbn [fmap list_fmap]. rewrite i64_u64, i64_id by done.
  by f_equal.
Qed.

Lemma u64_i64_list l : Forall is_u64 l -> u64 <$> (i64 <$> l) = l.
Proof.
  induction 1 as [|x l Hx _ IH]; [done|]. cbn [fmap list_fmap]. rewrite u64_i64, u64_id by done.
  by f_equal.
Qed.
