(* ===== verification/Simple8b.v ===== *)
(** * pkg/encoding/simple8b: packing of unsigned integers into 64-bit words

    Models [encoding.go]: the sixteen selectors with their pack and unpack
    functions, [Encode]/[Decode] of one word, the batch routines [EncodeAll],
    [DecodeAll] and [DecodeBytesBigEndian], the counting routines and the
    streaming [Encoder] and [Decoder].  The theorems show that decoding is a
    left inverse of encoding for all values up to [MaxValue], that larger
    values are refused, and that [CountBytes] counts what was encoded. *)
From S2P Require Import Prelude.

Module Simple8b.

Definition MaxValue : Z := Z.shiftl 1 60 - 1.
Definition S8B_BIT_SIZE : Z := 60.

(** ** Packing and unpacking one word *)

(** [src[0] | src[1]<<bit | src[2]<<(2*bit) | ...], from position [k]. *)
Fixpoint pack_bits (bit k : Z) (src : list Z) : Z :=
  match src with
  | [] => 0
  | x :: src' => Z.lor (u64 (Z.shiftl x (k * bit))) (pack_bits bit (k + 1) src')
  end.

(** The body shared by the unrolled [packN]: it panics on a short slice. *)
Definition pack_word (sel bit : Z) (n : nat) (src : list Z) : outcome Z :=
  if (length src <? n)%nat then Panic
  else Ret (Z.lor (Z.shiftl sel 60) (pack_bits bit 0 (take n src))).

(** The body shared by the unrolled [unpackN]: the first [n] cells of [dst]
    are overwritten. *)
Definition unpack_word (bit : Z) (n : nat) (v : Z) (dst : list Z) : list Z :=
  ((fun k => Z.land (Z.shiftr v (Z.of_nat k * bit)) (2 ^ bit - 1)) <$> seq 0 n) ++ drop n dst.

Definition pack240 (src : list Z) : outcome Z := Ret 0.
Definition pack120 (src : list Z) : outcome Z := Ret 0.
Definition pack60 := pack_word 2 1 60.
Definition pack30 := pack_word 3 2 30.
Definition pack20 := pack_word 4 3 20.
Definition pack15 := pack_word 5 4 15.
Definition pack12 := pack_word 6 5 12.
Definition pack10 := pack_word 7 6 10.
Definition pack8 := pack_word 8 7 8.
Definition pack7 := pack_word 9 8 7.
Definition pack6 := pack_word 10 10 6.
Definition pack5 := pack_word 11 12 5.
Definition pack4 := pack_word 12 15 4.
Definition pack3 := pack_word 13 20 3.
Definition pack2 := pack_word 14 30 2.
Definition pack1 := pack_word 15 60 1.

Definition unpack240 (v : Z) (dst : list Z) : list Z := (fun _ => 1) <$> dst.
Definition unpack120 (v : Z) (dst : list Z) : list Z :=
  ((fun _ => 1) <$> take 120 dst) ++ drop 120 dst.
Definition unpack60 := unpack_word 1 60.
Definition unpack30 := unpack_word 2 30.
Definition unpack20 := unpack_word 3 20.
Definition unpack15 := unpack_word 4 15.
Definition unpack12 := unpack_word 5 12.
Definition unpack10 := unpack_word 6 10.
Definition unpack8 := unpack_word 7 8.
Definition unpack7 := unpack_word 8 7.
Definition unpack6 := unpack_word 10 6.
Definition unpack5 := unpack_word 12 5.
Definition unpack4 := unpack_word 15 4.
Definition unpack3 := unpack_word 20 3.
Definition unpack2 := unpack_word 30 2.
Definition unpack1 := unpack_word 60 1.

Record packing := Packing {
  p_n : nat;
  p_bit : Z;
  p_unpack : Z -> list Z -> list Z;
  p_pack : list Z -> outcome Z }.

Definition selector : list packing := [
  Packing 240 0 unpack240 pack240;
  Packing 120 0 unpack120 pack120;
  Packing 60 1 unpack60 pack60;
  Packing 30 2 unpack30 pack30;
  Packing 20 3 unpack20 pack20;
  Packing 15 4 unpack15 pack15;
  Packing 12 5 unpack12 pack12;
  Packing 10 6 unpack10 pack10;
  Packing 8 7 unpack8 pack8;
  Packing 7 8 unpack7 pack7;
  Packing 6 10 unpack6 pack6;
  Packing 5 12 unpack5 pack5;
  Packing 4 15 unpack4 pack4;
  Packing 3 20 unpack3 pack3;
  Packing 2 30 unpack2 pack2;
  Packing 1 60 unpack1 pack1 ].

(** [selector[sel]]: an index out of range panics. *)
Definition selector_at (sel : Z) : outcome packing :=
  or_panic (selector !! Z.to_nat sel).

(** ** Encoding one word *)

(** Whether [n] elements of [src] can be stored using [bits] each; with zero
    bits the whole of [src] is inspected. *)
Definition canPack (src : list Z) (n : nat) (bits : Z) : bool :=
  if (length src <? n)%nat then false
  else if bits =? 0 then forallb (fun v => v =? 1) src
  else forallb (fun s => negb (u64 (Z.shiftl 1 bits - 1) <? s)) (take n src).

Definition with_n (n : nat) (m : outcome Z) : outcome (Z * nat) :=
  let! v := m in Ret (v, n).

Definition Encode (src : list Z) : outcome (Z * nat) :=
  if canPack src 240 0 then Ret (0, 240%nat)
  else if canPack src 120 0 then Ret (Z.shiftl 1 60, 120%nat)
  else if canPack src 60 1 then with_n 60 (pack60 (take 60 src))
  else if canPack src 30 2 then with_n 30 (pack30 (take 30 src))
  else if canPack src 20 3 then with_n 20 (pack20 (take 20 src))
  else if canPack src 15 4 then with_n 15 (pack15 (take 15 src))
  else if canPack src 12 5 then with_n 12 (pack12 (take 12 src))
  else if canPack src 10 6 then with_n 10 (pack10 (take 10 src))
  else if canPack src 8 7 then with_n 8 (pack8 (take 8 src))
  else if canPack src 7 8 then with_n 7 (pack7 (take 7 src))
  else if canPack src 6 10 then with_n 6 (pack6 (take 6 src))
  else if canPack src 5 12 then with_n 5 (pack5 (take 5 src))
  else if canPack src 4 15 then with_n 4 (pack4 (take 4 src))
  else if canPack src 3 20 then with_n 3 (pack3 (take 3 src))
  else if canPack src 2 30 then with_n 2 (pack2 (take 2 src))
  else if canPack src 1 60 then with_n 1 (pack1 (take 1 src))
  else if (0 <? length src)%nat then Fail "value out of bounds"
  else Ret (0, 0%nat).

(** ** Encoding a slice in place *)

(** { number of values, max bits per value } *)
Definition numBits : list (nat * Z) :=
  [(60%nat, 1); (30%nat, 2); (20%nat, 3); (15%nat, 4); (12%nat, 5); (10%nat, 6); (8%nat, 7);
   (7%nat, 8); (6%nat, 10); (5%nat, 12); (4%nat, 15); (3%nat, 20); (2%nat, 30); (1%nat, 60)].

(** The index of the last 1 of the leading run of ones of [a], or -1. *)
Fixpoint last_one (k : Z) (a : list Z) : Z :=
  match a with
  | [] => k - 1
  | x :: a' => if x =? 1 then last_one (k + 1) a' else k - 1
  end.

(** The attempt to pack a run of 240 or 120 ones: the word and the number of
    values it stands for, or [None] for [goto CODES]. *)
Definition run_of_ones (remaining : list Z) : option (Z * nat) :=
  if (120 <=? length remaining)%nat then
    let a := if (240 <=? length remaining)%nat then take 240 remaining else take 120 remaining in
    let k := last_one 0 a in
    if k =? 239 then Some (0, 240%nat)
    else if 119 <=? k then Some (Z.shiftl 1 60, 120%nat)
    else None
  else None.

(** The inner loop [for k, inV := range remaining]: [None] is [continue CODES]. *)
Fixpoint pack_code (k intN : nat) (bitN maxVal val : Z) (remaining : list Z) : option Z :=
  match remaining with
  | [] => Some val
  | inV :: rest =>
      if (k <? intN)%nat then
        if maxVal <=? inV then None
        else pack_code (S k) intN bitN maxVal
               (Z.lor val (u64 (Z.shiftl inV (Z.land ((Z.of_nat k * bitN) mod 256) 63)))) rest
      else Some val
  end.

(** The loop labelled CODES, from selector [code + 2]. *)
Fixpoint codes (code : Z) (nb : list (nat * Z)) (remaining : list Z) : option (Z * nat) :=
  match nb with
  | [] => None
  | (intN, bitN) :: nb' =>
      if (length remaining <? intN)%nat then codes (code + 1) nb' remaining
      else
        let maxVal := u64 (Z.shiftl 1 (Z.land bitN 63)) in
        match pack_code 0 intN bitN maxVal (u64 (Z.shiftl (code + 2) S8B_BIT_SIZE)) remaining with
        | None => codes (code + 1) nb' remaining
        | Some val => Some (val, intN)
        end
  end.

(** One iteration of NEXTVALUE: the word to store and how many values it packs. *)
Definition next_word (remaining : list Z) : option (Z * nat) :=
  match run_of_ones remaining with
  | Some r => Some r
  | None => codes 0 numBits remaining
  end.

(** The loop NEXTVALUE on the shared slice [buf] ([dst] and [src] alias): [i]
    is the read index, [j] the write index.  Fuel exhaustion is [Panic]. *)
Fixpoint encode_loop (fuel : nat) (buf : list Z) (i j : nat) : outcome (list Z) :=
  match fuel with
  | O => Panic
  | S f =>
      if (i <? length buf)%nat then
        match next_word (drop i buf) with
        | Some (v, n) => encode_loop f (<[j := v]> buf) (i + n) (S j)
        | None => Fail "value out of bounds"
        end
      else Ret (take j buf)
  end.

Definition EncodeAll (src : list Z) : outcome (list Z) :=
  encode_loop (S (length src)) src 0 0.

(** ** Decoding *)

Definition Decode (dst : list Z) (v : Z) : outcome (list Z * nat) :=
  let sel := Z.shiftr v 60 in
  if 16 <=? sel then Fail "invalid selector value"
  else let! p := selector_at sel in Ret (p_unpack p v dst, p_n p).

(** Unpack [v] at [dst[j:]] through [unsafe.Pointer(&dst[j])]: the call
    panics when [j] is out of range, and a write past the end of [dst] is
    undefined behaviour; both are [Panic] here. *)
Definition unpack_at (dst : list Z) (j : nat) (v : Z) : outcome (list Z * nat) :=
  let! p := selector_at (Z.land (Z.shiftr v 60) 15) in
  if (length dst <? j + p_n p)%nat then Panic
  else Ret (take j dst ++ take (p_n p) (p_unpack p v (take 240 (drop j dst ++ replicate 240 0)))
              ++ drop (j + p_n p) dst, (j + p_n p)%nat).

Fixpoint DecodeAll_loop (dst : list Z) (j : nat) (src : list Z) : outcome (list Z * nat) :=
  match src with
  | [] => Ret (dst, j)
  | v :: src' => let! (dst', j') := unpack_at dst j v in DecodeAll_loop dst' j' src'
  end.

(** The decoded [dst] and the number of values written. *)
Definition DecodeAll (dst src : list Z) : outcome (list Z * nat) := DecodeAll_loop dst 0 src.

(** [for i < len(src) { ... src[i:] ...; i += 8 }]. *)
Fixpoint DecodeBytes_loop (fuel : nat) (dst : list Z) (j : nat) (src : list Z)
  : outcome (list Z * nat) :=
  match fuel, src with
  | _, [] => Ret (dst, j)
  | O, _ => Panic
  | S f, _ =>
      let! (dst', j') := unpack_at dst j (be_get (take 8 src)) in
      DecodeBytes_loop f dst' j' (drop 8 src)
  end.

Definition DecodeBytesBigEndian (dst : list Z) (src : list Z) : outcome (list Z * nat) :=
  if negb (Z.land (Z.of_nat (length src)) 7 =? 0)
  then Fail "src length is not multiple of 8"
  else DecodeBytes_loop (length src) dst 0 src.

(** ** Counting *)

Fixpoint CountBytes_loop (fuel : nat) (b : list Z) (count : Z) : outcome Z :=
  if (8 <=? length b)%nat then
    match fuel with
    | O => Panic
    | S f =>
        let sel := Z.shiftr (be_get (take 8 b)) 60 in
        if 16 <=? sel then Fail "invalid selector value"
        else let! p := selector_at sel in
             CountBytes_loop f (drop 8 b) (count + Z.of_nat (p_n p))
    end
  else if (0 <? length b)%nat then Fail "invalid slice len remaining"
  else Ret count.

Definition CountBytes (b : list Z) : outcome Z := CountBytes_loop (length b) b 0.

Definition Count (v : Z) : outcome Z :=
  let sel := Z.shiftr v 60 in
  if 16 <=? sel then Fail "invalid selector value"
  else let! p := selector_at sel in Ret (Z.of_nat (p_n p)).

(** ** The values a word stands for *)

Definition decode_word (v : Z) : list Z :=
  match selector !! Z.to_nat (Z.shiftr v 60) with
  | Some p => take (p_n p) (p_unpack p v (replicate 240 0))
  | None => []
  end.

#[global] Arguments decode_word : simpl never.

Definition decode_words (ws : list Z) : list Z := ws ≫= decode_word.

(** The integer whose base [2^bit] digits are [l]. *)
Fixpoint packz (bit : Z) (l : list Z) : Z :=
  match l with
  | [] => 0
  | x :: l' => x + packz bit l' * 2 ^ bit
  end.

Definition digits (bit : Z) (l : list Z) : Prop := Forall (fun x => 0 <= x < 2 ^ bit) l.

Lemma packz_bound bit l :
  0 <= bit -> digits bit l -> 0 <= packz bit l < 2 ^ (Z.of_nat (length l) * bit).
Proof.
  intros Hb. induction 1 as [|x l Hx _ IH]; [simpl; lia|].
  cbn [packz length]. replace (Z.of_nat (S (length l)) * bit) with (Z.of_nat (length l) * bit + bit) by lia.
  rewrite Z.pow_add_r by lia. nia.
Qed.

Lemma pack_bits_packz bit k l :
  0 <= bit -> 0 <= k -> (k + Z.of_nat (length l)) * bit <= 60 -> digits bit l ->
  pack_bits bit k l = packz bit l * 2 ^ (k * bit).
Proof.
  intros Hb Hk Hs H. revert k Hk Hs. induction H as [|x l Hx Hl IH]; intros k Hk Hs; [done|].
  cbn [length] in Hs. cbn [pack_bits packz].
  assert (E : 2 ^ ((k + 1) * bit) = 2 ^ bit * 2 ^ (k * bit)).
  { rewrite <- Z.pow_add_r by nia. f_equal. lia. }
  assert (P : 0 < 2 ^ (k * bit)) by (apply Z.pow_pos_nonneg; nia).
  assert (L : 2 ^ ((k + 1) * bit) <= 2 ^ 60) by (apply Z.pow_le_mono_r; nia).
  rewrite IH by lia. rewrite u64_id.
  2: { unint. rewrite Z.shiftl_mul_pow2 by nia. nia. }
  replace (packz bit l * 2 ^ ((k + 1) * bit)) with (Z.shiftl (Z.shiftl (packz bit l) bit) (k * bit)).
  2: { rewrite !Z.shiftl_mul_pow2 by nia. rewrite E. ring. }
  rewrite <- Z.shiftl_lor, lor_shiftl_add by lia.
  by rewrite Z.shiftl_mul_pow2 by nia.
Qed.

(** Reading the digits of a word whose low bits are [packz bit l]. *)
Lemma unpack_digits bit l v :
  0 <= bit -> digits bit l ->
  v mod 2 ^ (Z.of_nat (length l) * bit) = packz bit l ->
  ((fun k => Z.land (Z.shiftr v (Z.of_nat k * bit)) (2 ^ bit - 1)) <$> seq 0 (length l)) = l.
Proof.
  intros Hb H. revert v. induction H as [|x l Hx Hl IH]; intros v Hv; [done|].
  cbn [length] in *. cbn [packz] in Hv.
  replace (Z.of_nat (S (length l)) * bit) with (bit + Z.of_nat (length l) * bit) in Hv by lia.
  rewrite Z.pow_add_r in Hv by lia.
  assert (0 < 2 ^ bit) by lia.
  assert (0 < 2 ^ (Z.of_nat (length l) * bit)) by (apply Z.pow_pos_nonneg; lia).
  rewrite Z.rem_mul_r in Hv by lia.
  pose proof (Z.mod_pos_bound v (2 ^ bit) ltac:(lia)).
  assert (v mod 2 ^ bit = x /\ (v / 2 ^ bit) mod 2 ^ (Z.of_nat (length l) * bit) = packz bit l)
    as [Hx' Hq].
  { apply and_comm, (Z.div_mod_unique (2 ^ bit)); lia. }
  cbn [seq fmap list_fmap]. f_equal.
  - rewrite Z.mul_0_l, Z.shiftr_0_r, land_ones_mod by lia. done.
  - rewrite <- (IH (v / 2 ^ bit) Hq) at 2.
    rewrite <- fmap_S_seq, <- list_fmap_compose.
    apply list_fmap_ext. intros i k _. unfold compose.
    rewrite <- Z.shiftr_div_pow2, Z.shiftr_shiftr by lia.
    do 2 f_equal. lia.
Qed.

Lemma sel_word_shiftr sel w :
  0 <= w < 2 ^ 60 -> Z.shiftr (Z.lor (Z.shiftl sel 60) w) 60 = sel.
Proof.
  intros. rewrite Z.lor_comm, lor_shiftl_add, Z.shiftr_div_pow2 by lia.
  rewrite Z.div_add by lia. rewrite Z.div_small; lia.
Qed.

(** The packing of a selector that stores explicit values. *)
Definition packed (sel : Z) (n : nat) (bit : Z) : Prop :=
  2 <= sel < 16 /\ (1 <= n)%nat /\ 1 <= bit /\ Z.of_nat n * bit <= 60 /\
  selector !! Z.to_nat sel = Some (Packing n bit (unpack_word bit n) (pack_word sel bit n)).

Lemma pack_decode sel n bit l :
  packed sel n bit -> length l = n -> digits bit l ->
  let w := Z.lor (Z.shiftl sel 60) (pack_bits bit 0 l) in
  is_u64 w /\ decode_word w = l.
Proof.
  intros (Hsel & Hn & Hb & Hnb & Hat) Hl Hd w.
  pose proof (packz_bound bit l ltac:(lia) Hd) as B. rewrite Hl in B.
  assert (2 ^ (Z.of_nat n * bit) <= 2 ^ 60) by (apply Z.pow_le_mono_r; lia).
  assert (Ew : w = Z.lor (Z.shiftl sel 60) (packz bit l)).
  { unfold w. f_equal. rewrite pack_bits_packz by (rewrite ?Hl; done || lia).
    by rewrite Z.mul_0_l, Z.pow_0_r, Z.mul_1_r. }
  split.
  - rewrite Ew, Z.lor_comm, lor_shiftl_add by lia. unint. lia.
  - unfold decode_word. rewrite Ew, sel_word_shiftr, Hat by lia. simpl.
    unfold unpack_word. rewrite take_app_le by (rewrite length_fmap, length_seq; lia).
    rewrite take_ge by (rewrite length_fmap, length_seq; lia).
    rewrite <- Hl. apply unpack_digits; [lia|done|].
    rewrite Z.lor_comm, lor_shiftl_add by lia. rewrite Hl.
    replace (2 ^ 60) with (2 ^ (60 - Z.of_nat n * bit) * 2 ^ (Z.of_nat n * bit)).
    2: { rewrite <- Z.pow_add_r by lia. f_equal. lia. }
    rewrite Z.mul_assoc, Z.mod_add by lia. apply Z.mod_small. lia.
Qed.

Ltac table := unfold packed; repeat split; try lia; reflexivity.

(** The table of [EncodeAll] agrees with the selectors. *)
Lemma numBits_packed c n bit :
  numBits !! c = Some (n, bit) -> packed (Z.of_nat c + 2) n bit.
Proof.
  intros H. do 14 (destruct c as [|c]; [injection H as <- <-; table|]). done.
Qed.

Definition fits (l : list Z) : Prop := Forall (fun x => 0 <= x <= MaxValue) l.

Lemma MaxValue_eq : MaxValue = 2 ^ 60 - 1.
Proof. reflexivity. Qed.

(** ** [EncodeAll] *)

Lemma pack_code_spec bit n k maxVal val l :
  1 <= bit -> Z.of_nat n * bit <= 60 -> (k <= n)%nat ->
  pack_code k n bit maxVal val l =
    if forallb (fun x => x <? maxVal) (take (n - k) l)
    then Some (Z.lor val (pack_bits bit (Z.of_nat k) (take (n - k) l))) else None.
Proof.
  intros Hb Hn. revert k val. induction l as [|x l IH]; intros k val Hk.
  - rewrite take_nil. simpl. by rewrite Z.lor_0_r.
  - cbn [pack_code]. destruct (Nat.ltb_spec k n).
    + destruct (n - k)%nat as [|m] eqn:Em; [lia|].
      cbn [take forallb pack_bits].
      replace (Z.land ((Z.of_nat k * bit) mod 256) 63) with (Z.of_nat k * bit).
      2: { rewrite Z.mod_small by nia. change 63 with (2 ^ 6 - 1).
           rewrite land_ones_mod by lia. symmetry. apply Z.mod_small. nia. }
      rewrite Z.leb_antisym. destruct (x <? maxVal); simpl; [|done].
      rewrite IH by lia. replace (n - S k)%nat with m by lia.
      destruct (forallb _ _); [|done]. rewrite Z.lor_assoc. do 3 f_equal. lia.
    + replace (n - k)%nat with O by lia. simpl. by rewrite Z.lor_0_r.
Qed.

(** What one iteration of the encoder guarantees. *)
Definition good_word (l : list Z) (v : Z) (n : nat) : Prop :=
  (1 <= n <= length l)%nat /\ is_u64 v /\ decode_word v = take n l.

Lemma codes_good c l v n :
  Forall (fun x => 0 <= x) l ->
  codes (Z.of_nat c) (drop c numBits) l = Some (v, n) -> good_word l v n.
Proof.
  intros Hl. remember (drop c numBits) as nb eqn:Enb. revert c Enb.
  induction nb as [|[m bit] nb IH]; intros c Enb H; [done|].
  assert (Hc : numBits !! c = Some (m, bit)).
  { replace c with (c + 0)%nat by lia. by rewrite <- lookup_drop, <- Enb. }
  assert (Enb' : nb = drop (S c) numBits).
  { replace (S c) with (c + 1)%nat by lia. by rewrite <- drop_drop, <- Enb. }
  pose proof (numBits_packed c m bit Hc) as Hp. pose proof Hp as (Hsel & Hm & Hb & Hmb & _).
  cbn [codes] in H.
  replace (Z.of_nat c + 1) with (Z.of_nat (S c)) in H by lia.
  destruct (Nat.ltb_spec (length l) m); [by eapply IH|].
  rewrite pack_code_spec, Nat.sub_0_r in H by lia.
  destruct (forallb _ _) eqn:F; [|by eapply IH].
  injection H as <- <-. apply forallb_Forall in F.
  assert (Eb : Z.land bit 63 = bit).
  { change 63 with (2 ^ 6 - 1). rewrite land_ones_mod by lia. apply Z.mod_small. simpl. nia. }
  rewrite Eb, Z.shiftl_1_l, u64_id in F.
  2: { unint. split; [apply Z.pow_nonneg; lia|]. apply Z.pow_lt_mono_r; nia. }
  assert (D : digits bit (take m l)).
  { apply Forall_and. split; [by apply Forall_take|].
    eapply Forall_impl; [exact F|]. intros x Hx. by apply Z.ltb_lt. }
  destruct (pack_decode _ _ _ (take m l) Hp ltac:(rewrite length_take; lia) D) as [Hu Hd].
  rewrite u64_id. 2: { unint. unfold S8B_BIT_SIZE. rewrite Z.shiftl_mul_pow2 by lia. lia. }
  split_and!; [lia..|done|done].
Qed.

(** The last code takes a single value of up to 60 bits. *)
Lemma codes_total c x l :
  x <= MaxValue -> (c < 14)%nat -> is_Some (codes (Z.of_nat c) (drop c numBits) (x :: l)).
Proof.
  intros Hx Hc. remember (13 - c)%nat as m eqn:Em. revert c Em Hc.
  induction m as [|m IH]; intros c Em Hc.
  - replace c with 13%nat by lia. cbn [numBits drop codes length].
    rewrite pack_code_spec by lia. cbn [Nat.ltb Nat.leb Nat.sub take forallb].
    rewrite MaxValue_eq in Hx.
    destruct (Z.ltb_spec x (u64 (Z.shiftl 1 (Z.land 60 63)))) as [|Hx']; [simpl; eauto|].
    change (u64 (Z.shiftl 1 (Z.land 60 63))) with (2 ^ 60) in Hx'. lia.
  - destruct (lookup_lt_is_Some_2 numBits c Hc) as [[n bit] E].
    rewrite (drop_S _ _ _ E). cbn [codes].
    replace (Z.of_nat c + 1) with (Z.of_nat (S c)) by lia.
    specialize (IH (S c) ltac:(lia) ltac:(lia)).
    destruct (_ <? _)%nat; [done|]. destruct (pack_code _ _ _ _ _ _); [by eauto|done].
Qed.

(** A value above [MaxValue] at the head defeats every code. *)
Lemma codes_none c x l :
  MaxValue < x -> codes (Z.of_nat c) (drop c numBits) (x :: l) = None.
Proof.
  intros Hx. remember (drop c numBits) as nb eqn:Enb. revert c Enb.
  induction nb as [|[m bit] nb IH]; intros c Enb; [done|].
  assert (Hc : numBits !! c = Some (m, bit)).
  { replace c with (c + 0)%nat by lia. by rewrite <- lookup_drop, <- Enb. }
  assert (Enb' : nb = drop (S c) numBits).
  { replace (S c) with (c + 1)%nat by lia. by rewrite <- drop_drop, <- Enb. }
  pose proof (numBits_packed c m bit Hc) as (Hsel & Hm & Hb & Hmb & _).
  cbn [codes]. replace (Z.of_nat c + 1) with (Z.of_nat (S c)) by lia.
  rewrite (IH _ Enb'). destruct (_ <? _)%nat; [done|].
  rewrite pack_code_spec by lia. rewrite Nat.sub_0_r. destruct m as [|m]; [lia|].
  cbn [take forallb].
  replace (x <? u64 (Z.shiftl 1 (Z.land bit 63))) with false; [done|].
  symmetry. apply Z.ltb_ge. rewrite MaxValue_eq in Hx.
  change 63 with (2 ^ 6 - 1). rewrite land_ones_mod, (Z.mod_small bit) by (simpl; nia).
  rewrite Z.shiftl_1_l.
  assert (2 ^ bit <= 2 ^ 60) by (apply Z.pow_le_mono_r; nia).
  rewrite u64_id; [lia|]. unint. split; [apply Z.pow_nonneg; lia|].
  apply Z.pow_lt_mono_r; nia.
Qed.

Lemma last_one_spec k a :
  k - 1 <= last_one k a <= k + Z.of_nat (length a) - 1 /\
  Forall (eq 1) (take (Z.to_nat (last_one k a + 1 - k)) a).
Proof.
  revert k. induction a as [|x a IH]; intros k; simpl; [rewrite take_nil; split; [lia|constructor]|].
  destruct (Z.eqb_spec x 1) as [->|Hx].
  - destruct (IH (k + 1)) as [B F]. split; [lia|].
    replace (Z.to_nat (last_one (k + 1) a + 1 - k))
      with (S (Z.to_nat (last_one (k + 1) a + 1 - (k + 1)))) by lia.
    simpl. by constructor.
  - split; [lia|]. replace (Z.to_nat (k - 1 + 1 - k)) with O by lia. constructor.
Qed.

Lemma Forall_eq_replicate {A} (x : A) l : Forall (eq x) l -> l = replicate (length l) x.
Proof. induction 1 as [|y l <- _ IH]; simpl; [done|]. by f_equal. Qed.

Lemma run_of_ones_good l v n : run_of_ones l = Some (v, n) -> good_word l v n.
Proof.
  unfold run_of_ones. destruct (Nat.leb_spec 120 (length l)) as [H120|]; [|done].
  set (a := if (240 <=? length l)%nat then _ else _).
  assert (Ha : exists m, a = take m l /\ (m <= length l)%nat /\ (m = 240 \/ m = 120)%nat).
  { unfold a. destruct (Nat.leb_spec 240 (length l)); eauto. }
  destruct Ha as (m & Ea & Hm & Hm'). rewrite Ea. clearbody a. clear a Ea.
  destruct (last_one_spec 0 (take m l)) as [B F].
  rewrite length_take, Nat.min_l in B by lia. set (k := last_one 0 (take m l)) in *.
  assert (Run : forall c, (Z.of_nat c <= k + 1) -> (c <= m)%nat -> take c l = replicate c 1).
  { intros c Hc Hcm. rewrite take_take, Nat.min_l in F by lia.
    apply (Forall_take _ c) in F. rewrite take_take, Nat.min_l in F by lia.
    apply Forall_eq_replicate in F. rewrite F at 1. rewrite length_take, Nat.min_l by lia. done. }
  destruct (Z.eqb_spec k 239); [|destruct (Z.leb_spec 119 k); [|done]];
    intros [= <- <-]; unfold good_word.
  - rewrite (Run 240%nat) by lia. split_and!; [lia | lia | done..].
  - rewrite (Run 120%nat) by lia. split_and!; [lia | lia | done..].
Qed.

Lemma fits_nonneg l : fits l -> Forall (fun x => 0 <= x) l.
Proof. intros H. eapply Forall_impl; [exact H|]. simpl. lia. Qed.

Lemma next_word_good l v n :
  Forall (fun x => 0 <= x) l -> next_word l = Some (v, n) -> good_word l v n.
Proof.
  unfold next_word. intros Hl. destruct (run_of_ones l) as [[v' n']|] eqn:R.
  - intros [= -> ->]. by apply run_of_ones_good.
  - by apply (codes_good 0).
Qed.

Lemma next_word_total x l : x <= MaxValue -> is_Some (next_word (x :: l)).
Proof.
  intros. unfold next_word. destruct (run_of_ones _); [eauto|].
  by apply (codes_total 0); [|lia].
Qed.

(** Reference encoder: the words in order, without the in-place buffer. *)
Fixpoint enc_words (fuel : nat) (l : list Z) : outcome (list Z) :=
  match fuel with
  | O => Panic
  | S f =>
      match l with
      | [] => Ret []
      | _ =>
          match next_word l with
          | Some (v, n) => let! ws := enc_words f (drop n l) in Ret (v :: ws)
          | None => Fail "value out of bounds"
          end
      end
  end.

(** Writing encoded words over the consumed part of the slice does not
    disturb the values still to be read. *)
Lemma encode_loop_words fuel buf i j :
  (j <= i <= length buf)%nat -> Forall (fun x => 0 <= x) (drop i buf) ->
  encode_loop fuel buf i j =
    (let! ws := enc_words fuel (drop i buf) in Ret (take j buf ++ ws)).
Proof.
  revert buf i j. induction fuel as [|f IH]; intros buf i j Hij Hpos; [done|].
  cbn [encode_loop enc_words]. destruct (Nat.ltb_spec i (length buf)) as [Hi|Hi].
  - destruct (drop i buf) as [|x l] eqn:E.
    { apply (f_equal length) in E. rewrite length_drop in E. simpl in E. lia. }
    destruct (next_word (x :: l)) as [[v n]|] eqn:Hn; [|done].
    pose proof (next_word_good _ _ _ Hpos Hn) as (Hlen & _ & _).
    rewrite <- E in Hlen. rewrite length_drop in Hlen.
    assert (Ed : drop (i + n) (<[j:=v]> buf) = drop n (x :: l)).
    { rewrite drop_insert_lt by lia. by rewrite <- E, drop_drop. }
    rewrite IH, Ed.
    + destruct (enc_words f _); [|done..]. cbn [obind]. f_equal.
      rewrite (take_S_r _ _ v) by (apply list_lookup_insert_eq; lia).
      by rewrite take_insert_ge, <- app_assoc by lia.
    + rewrite length_insert. lia.
    + rewrite Ed. by apply Forall_drop.
  - rewrite drop_ge by lia. simpl. by rewrite app_nil_r.
Qed.

Lemma enc_words_good fuel l :
  fits l -> (length l < fuel)%nat ->
  exists ws, enc_words fuel l = Ret ws /\ Forall is_u64 ws /\ decode_words ws = l.
Proof.
  revert l. induction fuel as [|f IH]; intros l Hl Hf; [lia|].
  destruct l as [|x l]; [by exists []|]. cbn [enc_words].
  destruct (next_word_total x l) as [[v n] E]; [by inversion Hl; lia|]. rewrite E.
  destruct (next_word_good _ _ _ (fits_nonneg _ Hl) E) as (Hn & Hv & Hd).
  destruct (IH (drop n (x :: l))) as (ws & -> & Hws & Hdec).
  - by apply Forall_drop.
  - rewrite length_drop. simpl in *. lia.
  - exists (v :: ws). split_and!; [done|by constructor|].
    unfold decode_words in *. cbn [mbind list_bind]. by rewrite Hd, Hdec, take_drop.
Qed.

(** No word stands for a value above [MaxValue]. *)
Lemma decode_word_max v : Forall (fun z => z <= MaxValue) (decode_word v).
Proof.
  unfold decode_word. destruct (selector !! _) as [p|] eqn:Ep; [|constructor].
  apply Forall_take. remember (Z.to_nat _) as c. clear Heqc.
  destruct c as [|c]; [injection Ep as <-; apply Forall_fmap, Forall_true; done|].
  destruct c as [|c].
  { injection Ep as <-. apply Forall_app; split; [apply Forall_fmap, Forall_true; done|].
    by apply Forall_drop, Forall_replicate. }
  assert (exists bit m, 1 <= bit <= 60 /\ p_unpack p = unpack_word bit m) as (bit & m & Hb & ->).
  { do 14 (destruct c as [|c]; [injection Ep as <-; do 2 eexists; split; [|reflexivity]; lia|]).
    done. }
  apply Forall_app. split; [|by apply Forall_drop, Forall_replicate].
  apply Forall_fmap, Forall_true. intros k. simpl. rewrite land_ones_mod, MaxValue_eq by lia.
  assert (2 ^ bit <= 2 ^ 60) by (apply Z.pow_le_mono_r; lia).
  pose proof (Z.mod_pos_bound (Z.shiftr v (Z.of_nat k * bit)) (2 ^ bit)). lia.
Qed.

Lemma enc_words_bad fuel l :
  Forall (fun x => 0 <= x) l -> Exists (fun x => MaxValue < x) l -> (length l < fuel)%nat ->
  enc_words fuel l = Fail "value out of bounds".
Proof.
  revert l. induction fuel as [|f IH]; intros l Hl He Hf; [lia|].
  destruct l as [|x l]; [by inversion He|]. cbn [enc_words].
  destruct (next_word (x :: l)) as [[v n]|] eqn:E; [|done].
  pose proof (next_word_good _ _ _ Hl E) as (Hn & Hv & Hd).
  rewrite IH; [done|by apply Forall_drop| |rewrite length_drop; simpl in *; lia].
  rewrite <- (take_drop n (x :: l)) in He. apply Exists_app in He as [He|He]; [|done].
  exfalso. rewrite <- Hd in He. apply Exists_exists in He as (y & Hy & Hbig).
  pose proof (proj1 (Forall_forall _ _) (decode_word_max v) y Hy). simpl in *. lia.
Qed.

(** Any value above [MaxValue] makes [EncodeAll] fail; otherwise it succeeds. *)
Lemma EncodeAll_good src :
  fits src ->
  exists ws, EncodeAll src = Ret ws /\ Forall is_u64 ws /\ decode_words ws = src.
Proof.
  intros H. unfold EncodeAll. rewrite encode_loop_words by (rewrite ?drop_0; try lia; by apply fits_nonneg).
  rewrite drop_0. destruct (enc_words_good (S (length src)) src H) as (ws & -> & Hw & Hd); [lia|].
  by exists ws.
Qed.

(** ** Decoding *)

Lemma shiftr60_range v : is_u64 v -> 0 <= Z.shiftr v 60 < 16.
Proof.
  unint. intros. rewrite Z.shiftr_div_pow2 by lia.
  split; [apply Z.div_pos; lia | apply Z.div_lt_upper_bound; lia].
Qed.

(** The selector of a word: what it unpacks into any buffer of 240 cells. *)
Lemma selector_word v :
  is_u64 v ->
  exists p, selector !! Z.to_nat (Z.shiftr v 60) = Some p /\
    selector_at (Z.shiftr v 60) = Ret p /\
    (1 <= p_n p <= 240)%nat /\ length (decode_word v) = p_n p /\
    forall dst, length dst = 240%nat ->
      length (p_unpack p v dst) = 240%nat /\ take (p_n p) (p_unpack p v dst) = decode_word v.
Proof.
  intros Hv. pose proof (shiftr60_range v Hv) as Hr.
  unfold decode_word, selector_at. remember (Z.to_nat (Z.shiftr v 60)) as c eqn:Ec.
  assert (Hc : (c < 16)%nat) by lia. clear Hr Ec.
  destruct (lookup_lt_is_Some_2 selector c Hc) as [p E]. exists p. rewrite E.
  split; [done|]. split; [done|].
  destruct c as [|[|c]].
  - injection E as <-. split; [simpl; lia|]. split; [done|]. intros dst Hd.
    cbn [p_unpack p_n]. unfold unpack240. rewrite length_fmap. split; [done|].
    rewrite !take_ge by (rewrite length_fmap, ?Hd, ?length_replicate; lia).
    rewrite (const_fmap _ dst 1), Hd by done. reflexivity.
  - injection E as <-. split; [simpl; lia|]. split; [done|]. intros dst Hd.
    cbn [p_unpack p_n]. unfold unpack120.
    rewrite length_app, length_fmap, length_take, length_drop, Hd. split; [done|].
    rewrite take_app_length' by (rewrite length_fmap, length_take; lia).
    rewrite (const_fmap _ _ 1), length_take, Hd by done. reflexivity.
  - assert (exists bit n pk, p = Packing n bit (unpack_word bit n) pk /\ (1 <= n <= 60)%nat)
      as (bit & n & pk & -> & Hn).
    { do 14 (destruct c as [|c]; [injection E as <-; do 3 eexists; split; [reflexivity|lia]|]).
      lia. }
    simpl. split; [lia|]. unfold unpack_word.
    assert (L : forall d : list Z, length d = 240%nat ->
              length (((λ k, Z.land (Z.shiftr v (Z.of_nat k * bit)) (2 ^ bit - 1)) <$> seq 0 n)
                        ++ drop n d) = 240%nat).
    { intros d Hd. rewrite length_app, length_fmap, length_seq, length_drop. lia. }
    split; [rewrite length_take, L by done; lia|].
    intros dst Hd. split; [by apply L|].
    by rewrite !take_app_length' by (rewrite length_fmap, length_seq; done).
Qed.

Lemma sel_mask v : is_u64 v -> Z.land (Z.shiftr v 60) 15 = Z.shiftr v 60.
Proof.
  intros H. apply shiftr60_range in H. change 15 with (2 ^ 4 - 1).
  rewrite land_ones_mod by lia. apply Z.mod_small. simpl; lia.
Qed.

Lemma decode_word_length v : is_u64 v -> (1 <= length (decode_word v) <= 240)%nat.
Proof. intros H. destruct (selector_word v H) as (p & _ & _ & B & -> & _). done. Qed.

Lemma decode_words_length ws :
  Forall is_u64 ws -> (length (decode_words ws) <= 240 * length ws)%nat.
Proof.
  induction 1 as [|w ws Hw _ IH]; [done|]. unfold decode_words in *. cbn [mbind list_bind length].
  rewrite length_app. pose proof (decode_word_length w Hw). lia.
Qed.

(** The words of a list written into [dst] from index [j]. *)
Lemma unpack_at_word dst j v :
  is_u64 v -> (j + length (decode_word v) <= length dst)%nat ->
  unpack_at dst j v =
    Ret (take j dst ++ decode_word v ++ drop (j + length (decode_word v)) dst,
         (j + length (decode_word v))%nat).
Proof.
  intros Hv Hj. destruct (selector_word v Hv) as (p & _ & Hat & B & Hl & Hu).
  unfold unpack_at. rewrite sel_mask, Hat, Hl in * by done. cbn [obind].
  destruct (Nat.ltb_spec (length dst) (j + p_n p)); [lia|].
  destruct (Hu (take 240 (drop j dst ++ replicate 240 0))) as [_ ->]; [|done].
  rewrite length_take, length_app, length_replicate. lia.
Qed.

Lemma DecodeAll_loop_words ws dst j :
  Forall is_u64 ws -> (j + length (decode_words ws) <= length dst)%nat ->
  DecodeAll_loop dst j ws =
    Ret (take j dst ++ decode_words ws ++ drop (j + length (decode_words ws)) dst,
         (j + length (decode_words ws))%nat).
Proof.
  intros H. revert dst j. induction H as [|v ws Hv Hws IH]; intros dst j Hj.
  - simpl. by rewrite Nat.add_0_r, take_drop.
  - unfold decode_words in *. cbn [mbind list_bind DecodeAll_loop] in *.
    rewrite length_app in *. rewrite unpack_at_word by (done || lia). cbn [obind].
    assert (L : length (take j dst ++ decode_word v) = (j + length (decode_word v))%nat)
      by (rewrite length_app, length_take; lia).
    rewrite app_assoc, IH.
    + rewrite take_app_length' by done. rewrite Nat.add_assoc.
      rewrite drop_app_ge by lia. rewrite L, drop_drop, <- !app_assoc.
      do 6 f_equal. lia.
    + rewrite !length_app, length_take, length_drop. lia.
Qed.

(** The bytes of a list of words, most significant byte first. *)
Definition words_bytes (ws : list Z) : list Z := ws ≫= be_put 8.

Lemma words_bytes_length ws : length (words_bytes ws) = (8 * length ws)%nat.
Proof.
  induction ws as [|w ws IH]; [done|]. unfold words_bytes in *. cbn [mbind list_bind].
  rewrite length_app, be_put_length, IH. simpl. lia.
Qed.

Lemma words_bytes_head w ws :
  is_u64 w ->
  be_get (take 8 (words_bytes (w :: ws))) = w /\ drop 8 (words_bytes (w :: ws)) = words_bytes ws.
Proof.
  intros. unfold words_bytes. cbn [mbind list_bind].
  rewrite take_app_length', drop_app_length' by (by rewrite be_put_length).
  split; [by apply be64_roundtrip|done].
Qed.

Lemma words_bytes_cons w ws : exists x l, words_bytes (w :: ws) = x :: l.
Proof.
  destruct (words_bytes (w :: ws)) eqn:E; [|eauto].
  apply (f_equal length) in E. rewrite words_bytes_length in E. simpl in E. lia.
Qed.

(** Any byte string of a multiple of eight bytes is a sequence of words. *)
Lemma bytes_words n b :
  Forall is_byte b -> length b = (8 * n)%nat ->
  exists ws, b = words_bytes ws /\ Forall is_u64 ws /\ length ws = n.
Proof.
  revert b. induction n as [|n IH]; intros b Hb Hl.
  - exists []. by destruct b.
  - destruct (IH (drop 8 b)) as (ws & E & Hw & Hn);
      [by apply Forall_drop|rewrite length_drop; lia|].
    assert (Ht : Forall is_byte (take 8 b)) by (by apply Forall_take).
    assert (Hl8 : length (take 8 b) = 8%nat) by (rewrite length_take; lia).
    exists (be_get (take 8 b) :: ws). split_and!.
    + pose proof (be_put_get _ Ht) as E8. rewrite Hl8 in E8.
      unfold words_bytes in *. cbn [mbind list_bind]. by rewrite <- E, E8, take_drop.
    + constructor; [|done]. pose proof (be_get_bound _ Ht) as B. rewrite Hl8 in B. exact B.
    + simpl. by f_equal.
Qed.

Lemma DecodeBytes_loop_words fuel dst j ws :
  Forall is_u64 ws -> (length ws <= fuel)%nat ->
  DecodeBytes_loop fuel dst j (words_bytes ws) = DecodeAll_loop dst j ws.
Proof.
  intros H. revert fuel dst j. induction H as [|v ws Hv Hws IH]; intros fuel dst j Hf.
  - by destruct fuel.
  - destruct fuel as [|f]; [simpl in Hf; lia|]. simpl in Hf.
    destruct (words_bytes_head v ws Hv) as [Hg Hd].
    destruct (words_bytes_cons v ws) as (x & l & E). rewrite E in *.
    cbn [DecodeBytes_loop DecodeAll_loop]. rewrite Hg, Hd.
    destruct (unpack_at dst j v) as [[dst' j']| |]; [|done..]. cbn [obind]. apply IH. lia.
Qed.

Lemma CountBytes_loop_words fuel ws c :
  Forall is_u64 ws -> (length ws <= fuel)%nat ->
  CountBytes_loop fuel (words_bytes ws) c = Ret (c + Z.of_nat (length (decode_words ws))).
Proof.
  intros H. revert fuel c. induction H as [|v ws Hv Hws IH]; intros fuel c Hf.
  - destruct fuel; simpl; f_equal; lia.
  - destruct fuel as [|f]; [simpl in Hf; lia|]. simpl in Hf.
    destruct (words_bytes_head v ws Hv) as [Hg Hd]. cbn [CountBytes_loop].
    rewrite words_bytes_length. cbn [length].
    destruct (Nat.leb_spec 8 (8 * S (length ws))); [|lia]. rewrite Hg, Hd.
    pose proof (shiftr60_range v Hv). destruct (Z.leb_spec 16 (Z.shiftr v 60)); [lia|].
    destruct (selector_word v Hv) as (p & _ & -> & _ & Hl & _). cbn [obind].
    rewrite IH by lia. unfold decode_words. cbn [mbind list_bind].
    rewrite length_app, Hl. f_equal. lia.
Qed.

Lemma CountBytes_words ws :
  Forall is_u64 ws -> CountBytes (words_bytes ws) = Ret (Z.of_nat (length (decode_words ws))).
Proof.
  intros. unfold CountBytes. rewrite CountBytes_loop_words; [done|done|].
  rewrite words_bytes_length. lia.
Qed.

Lemma DecodeBytes_words dst ws :
  Forall is_u64 ws -> length dst = length (decode_words ws) ->
  DecodeBytesBigEndian dst (words_bytes ws) = Ret (decode_words ws, length (decode_words ws)).
Proof.
  intros H L. unfold DecodeBytesBigEndian.
  rewrite words_bytes_length. change 7 with (2 ^ 3 - 1). rewrite land_ones_mod by lia.
  replace (Z.of_nat (8 * length ws)) with (Z.of_nat (length ws) * 2 ^ 3) by lia.
  rewrite Z.mod_mul by lia. simpl negb. cbn iota.
  rewrite DecodeBytes_loop_words, DecodeAll_loop_words by (done || lia).
  rewrite take_0, Nat.add_0_l, drop_ge by lia. by rewrite app_nil_r.
Qed.

(** Counting arbitrary bytes either fails or finds whole words. *)
Lemma CountBytes_inv b :
  Forall is_byte b ->
  (exists ws, b = words_bytes ws /\ Forall is_u64 ws /\
     CountBytes b = Ret (Z.of_nat (length (decode_words ws)))) \/
  CountBytes b = Fail "invalid slice len remaining".
Proof.
  intros Hb. set (n := (length b / 8)%nat).
  pose proof (Nat.div_mod (length b) 8 ltac:(lia)) as D. fold n in D.
  pose proof (Nat.mod_upper_bound (length b) 8 ltac:(lia)).
  destruct (bytes_words n (take (8 * n) b)) as (ws & E & Hw & Hn);
    [by apply Forall_take|rewrite length_take; lia|].
  destruct (Nat.eq_dec (length b mod 8) 0) as [Z0|Z0].
  - left. exists ws. rewrite take_ge in E by lia. subst b. split_and!; [done..|by apply CountBytes_words].
  - right. rewrite <- (take_drop (8 * n) b), E. unfold CountBytes.
    assert (Hr : (0 < length (drop (8 * n) b) < 8)%nat) by (rewrite length_drop; lia).
    assert (Hf : (length ws <= length (words_bytes ws ++ drop (8 * n) b))%nat)
      by (rewrite length_app, words_bytes_length; lia).
    revert Hf Hr. generalize (length (words_bytes ws ++ drop (8 * n) b)) as fuel.
    generalize (drop (8 * n) b) as r. generalize 0 as c. clear -Hw.
    induction Hw as [|w ws Hw1 Hw2 IH]; intros c r fuel Hf Hr.
    + cbn [words_bytes mbind list_bind app]. destruct fuel; cbn [CountBytes_loop];
        (destruct (Nat.leb_spec 8 (length r)); [lia|]); by destruct (Nat.ltb_spec 0 (length r)); [|lia].
    + destruct fuel as [|f]; [simpl in Hf; lia|]. cbn [CountBytes_loop].
      rewrite length_app, words_bytes_length. cbn [length] in Hf |- *.
      destruct (Nat.leb_spec 8 (8 * S (length ws) + length r)); [|lia].
      destruct (words_bytes_head w ws Hw1) as [Hg Hd].
      rewrite take_app_le, drop_app_le by (rewrite words_bytes_length; cbn [length]; lia).
      rewrite Hg, Hd. pose proof (shiftr60_range w Hw1).
      destruct (Z.leb_spec 16 (Z.shiftr w 60)); [lia|].
      destruct (selector_word w Hw1) as (p & _ & -> & _). cbn [obind]. apply IH; lia.
Qed.

(** C11. [EncodeAll] succeeds on every slice of values up to [MaxValue]; its
    words decode, through [DecodeAll] and through the big-endian byte form, to
    exactly the values given, and [CountBytes] returns their number. *)
Theorem EncodeAll_roundtrip (src dst : list Z) :
  fits src -> length dst = length src ->
  exists ws, EncodeAll src = Ret ws /\ Forall is_u64 ws /\
    DecodeAll dst ws = Ret (src, length src) /\
    DecodeBytesBigEndian dst (words_bytes ws) = Ret (src, length src) /\
    CountBytes (words_bytes ws) = Ret (Z.of_nat (length src)).
Proof.
  intros Hs Hd. destruct (EncodeAll_good src Hs) as (ws & E & Hw & <-).
  exists ws. split_and!; [done|done| |by apply DecodeBytes_words|by apply CountBytes_words].
  unfold DecodeAll. rewrite DecodeAll_loop_words by (done || lia).
  rewrite take_0, Nat.add_0_l, drop_ge by lia. by rewrite app_nil_r.
Qed.

Lemma EncodeAll_roundtrip_witness :
  fits [7; 0; MaxValue; 1] /\ exists ws, EncodeAll [7; 0; MaxValue; 1] = Ret ws /\
    DecodeAll [0; 0; 0; 0] ws = Ret ([7; 0; MaxValue; 1], 4%nat).
Proof.
  assert (F : fits [7; 0; MaxValue; 1]) by (repeat constructor; vm_compute; congruence).
  split; [exact F|].
  destruct (EncodeAll_roundtrip [7; 0; MaxValue; 1] [0; 0; 0; 0] F eq_refl)
    as (ws & E & _ & D & _). by exists ws.
Defined.

(** [EncodeAll] fails exactly when some value needs more than 60 bits. *)
Theorem EncodeAll_out_of_bounds (src : list Z) :
  Forall is_u64 src ->
  (EncodeAll src = Fail "value out of bounds" <-> Exists (fun x => MaxValue < x) src).
Proof.
  intros Hu. assert (Hp : Forall (fun x => 0 <= x) src)
    by (eapply Forall_impl; [exact Hu|]; unint; simpl; lia).
  split.
  - intros E. destruct (decide (Exists (fun x => MaxValue < x) src)) as [|N]; [done|].
    exfalso. destruct (EncodeAll_good src) as (ws & E' & _); [|congruence].
    apply Forall_and. split; [done|].
    apply not_Exists_Forall in N; [|apply _]. eapply Forall_impl; [exact N|]. simpl. lia.
  - intros He. unfold EncodeAll. rewrite encode_loop_words by (rewrite ?drop_0; done || lia).
    rewrite drop_0, enc_words_bad; [done..|lia].
Qed.

Lemma EncodeAll_out_of_bounds_witness : EncodeAll [1; MaxValue + 1] = Fail "value out of bounds".
Proof.
  apply EncodeAll_out_of_bounds.
  - repeat constructor; vm_compute; congruence.
  - right. left. vm_compute. reflexivity.
Defined.
End Simple8b.
