(* ===== verification/Simple8bStream.v ===== *)
(** * pkg/encoding/simple8b: the streaming encoder and decoder

    Models the state machines [Encoder] (a buffer of up to 240 pending values
    between [h] and [t], and the bytes flushed so far up to [bp]) and
    [Decoder] (the remaining bytes and the 240-cell buffer of the current
    word), and the visitors [ForEach] and [CountBytesBetween]. *)
From S2P Require Import Prelude Simple8b.
Import Simple8b.

Module Simple8bStream.

(** ** Encoder *)

Record Encoder := MkEncoder {
  e_buf : slice;    (** most recently written integers not yet flushed *)
  e_h : nat;        (** index in [e_buf] of its head *)
  e_t : nat;        (** index in [e_buf] of its tail *)
  e_bp : nat;       (** index into [e_bytes] of written bytes *)
  e_bytes : slice;  (** bytes written and flushed *)
  e_b : list Z }.   (** scratch word *)

Definition NewEncoder : Encoder :=
  MkEncoder (Slice (replicate 240 0) 240) 0 0 0 (Slice (replicate 128 0) 128) (replicate 8 0).

Definition SetValues (e : Encoder) (v : slice) : Encoder :=
  MkEncoder v 0 (s_len v) (e_bp e) (s_to (e_bytes e) 0) (e_b e).

(** Reslicing beyond the capacity panics. *)
Definition Reset (e : Encoder) : outcome Encoder :=
  if (s_cap (e_buf e) <? 240)%nat || (s_cap (e_bytes e) <? 128)%nat then Panic
  else Ret (MkEncoder (s_to (e_buf e) 240) 0 0 0 (s_to (e_bytes e) 128) (take 8 (e_b e))).

(** [append(b, xs...)]: in place when the capacity allows it. *)
Definition s_append (b : slice) (xs : list Z) : slice :=
  if (s_len b + length xs <=? s_cap b)%nat
  then Slice (s_bytes b ++ xs ++ drop (s_len b + length xs) (s_arr b)) (s_len b + length xs)
  else Slice (s_bytes b ++ xs) (s_len b + length xs).

(** [copy(b[off:], xs)] with [xs] inside the slice. *)
Definition s_write (b : slice) (off : nat) (xs : list Z) : slice :=
  Slice (take off (s_arr b) ++ xs ++ drop (off + length xs) (s_arr b)) (s_len b).

(** The flushed word appended to, or copied into, the output bytes. *)
Definition put_word (e : Encoder) (b : list Z) : slice * nat :=
  if (s_len (e_bytes e) <? e_bp e + 8)%nat
  then let bytes := s_append (e_bytes e) b in (bytes, s_len bytes)
  else (s_write (e_bytes e) (e_bp e) b, (e_bp e + 8)%nat).

Definition flush (e : Encoder) : outcome Encoder :=
  if (e_t e =? 0)%nat then Ret e
  else
    let! (encoded, n) := Encode (drop (e_h e) (take (e_t e) (s_bytes (e_buf e)))) in
    let b := be_put 8 encoded in
    let '(bytes, bp) := put_word e b in
    let h := (e_h e + n)%nat in
    if (h =? e_t e)%nat
    then Ret (MkEncoder (e_buf e) 0 0 bp bytes b)
    else Ret (MkEncoder (e_buf e) h (e_t e) bp bytes b).

(** [copy(e.buf, e.buf[e.h:])]. *)
Definition shift_down (e : Encoder) : Encoder :=
  let cur := s_bytes (e_buf e) in
  let moved := drop (e_h e) cur in
  MkEncoder (Slice (moved ++ drop (length moved) (s_arr (e_buf e))) (s_len (e_buf e)))
    0 (e_t e - e_h e) (e_bp e) (e_bytes e) (e_b e).

Definition Write (e : Encoder) (v : Z) : outcome Encoder :=
  let! e1 := if (s_len (e_buf e) <=? e_t e)%nat then flush e else Ret e in
  let e2 := if (s_len (e_buf e1) <=? e_t e1)%nat then shift_down e1 else e1 in
  if (e_t e2 <? s_len (e_buf e2))%nat
  then Ret (MkEncoder (Slice (<[e_t e2 := v]> (s_arr (e_buf e2))) (s_len (e_buf e2)))
              (e_h e2) (S (e_t e2)) (e_bp e2) (e_bytes e2) (e_b e2))
  else Panic.

(** [for e.t > 0 { flush }]: the bytes and the flushed encoder; fuel
    exhaustion is [Panic]. *)
Fixpoint Bytes_loop (fuel : nat) (e : Encoder) : outcome (list Z * Encoder) :=
  if (e_t e =? 0)%nat then
    if (s_cap (e_bytes e) <? e_bp e)%nat then Panic
    else Ret (s_bytes (s_to (e_bytes e) (e_bp e)), e)
  else match fuel with
       | O => Panic
       | S f => let! e' := flush e in Bytes_loop f e'
       end.

(** Each flush moves [h] towards [t]. *)
Definition Bytes (e : Encoder) : outcome (list Z * Encoder) := Bytes_loop (e_t e - e_h e) e.

Fixpoint WriteAll (e : Encoder) (vs : list Z) : outcome Encoder :=
  match vs with
  | [] => Ret e
  | v :: vs' => let! e' := Write e v in WriteAll e' vs'
  end.

(** ** Decoder *)

Record Decoder := MkDecoder {
  d_bytes : list Z;
  d_buf : list Z;
  d_i : Z;
  d_n : Z }.

Definition NewDecoder (b : list Z) : Decoder := MkDecoder b (replicate 240 0) 0 0.

Definition SetBytes (d : Decoder) (b : list Z) : Decoder := MkDecoder b (d_buf d) 0 0.

(** [d.n, _ = Decode(&d.buf, v)]: the error is dropped. *)
Definition read (d : Decoder) : Decoder :=
  if (length (d_bytes d) <? 8)%nat then d
  else
    let v := be_get (take 8 (d_bytes d)) in
    match Decode (d_buf d) v with
    | Ret (buf, n) => MkDecoder (drop 8 (d_bytes d)) buf 0 (Z.of_nat n)
    | _ => MkDecoder (drop 8 (d_bytes d)) (d_buf d) 0 0
    end.

Definition Next (d : Decoder) : Decoder * bool :=
  let d1 := MkDecoder (d_bytes d) (d_buf d) (d_i d + 1) (d_n d) in
  let d2 := if d_n d1 <=? d_i d1 then read d1 else d1 in
  (d2, (8 <=? length (d_bytes d2))%nat || ((0 <=? d_i d2) && (d_i d2 <? d_n d2))).

Definition Read (d : Decoder) : outcome Z := or_panic (d_buf d !! Z.to_nat (d_i d)).

(** The client loop [for d.Next() { vs = append(vs, d.Read()) }]. *)
Fixpoint drain (fuel : nat) (d : Decoder) : outcome (list Z) :=
  match fuel with
  | O => Panic
  | S f =>
      let '(d', ok) := Next d in
      if ok then let! v := Read d' in let! vs := drain f d' in Ret (v :: vs)
      else Ret []
  end.

(** ** Visitors *)

Definition mask_of (bits : Z) : Z := u64 (Z.lnot (Z.shiftl (-1) bits)).

Section ForEach.
Context {S : Type} (fn : S -> Z -> S * bool).

(** The inner loop: the callback threads a state and may stop the walk. *)
Fixpoint ForEach_word (n : nat) (bits mask : Z) (s : S) (v : Z) : S * bool :=
  match n with
  | O => (s, true)
  | Datatypes.S n' =>
      let '(s', go) := fn s (Z.land v mask) in
      if go then ForEach_word n' bits mask s' (Z.shiftr v bits) else (s', false)
  end.

Fixpoint ForEach_loop (fuel : nat) (s : S) (b : list Z) : outcome S :=
  match fuel with
  | O => Ret s
  | Datatypes.S f =>
      if (length b <? 8)%nat then Ret s
      else
        let v := be_get (take 8 b) in
        let sel := Z.shiftr v 60 in
        if 16 <=? sel then Fail "invalid selector value"
        else let! p := selector_at sel in
             let '(s', go) := ForEach_word (p_n p) (p_bit p) (mask_of (p_bit p)) s v in
             if go then ForEach_loop f s' (drop 8 b) else Ret s'
  end.

Definition ForEach (s : S) (b : list Z) : outcome S := ForEach_loop (length b) s b.
End ForEach.

(** The inner loop of [CountBytesBetween], with its early [break]. *)
Fixpoint CountBetween_word (n : nat) (bits mask min max : Z) (v count : Z) : Z :=
  match n with
  | O => count
  | Datatypes.S n' =>
      let val := Z.land v mask in
      if (min <=? val) && (val <? max)
      then CountBetween_word n' bits mask min max (Z.shiftr v bits) (count + 1)
      else if max <? val then count
      else CountBetween_word n' bits mask min max (Z.shiftr v bits) count
  end.

Fixpoint CountBytesBetween_loop (fuel : nat) (b : list Z) (min max count : Z) : outcome Z :=
  if (8 <=? length b)%nat then
    match fuel with
    | O => Panic
    | Datatypes.S f =>
        let v := be_get (take 8 b) in
        let sel := Z.shiftr v 60 in
        if 16 <=? sel then Fail "invalid selector value"
        else let! p := selector_at sel in
             let maxValue := u64 (Z.shiftl 1 (p_bit p) - 1) in
             let count' :=
               if maxValue <? min then count
               else CountBetween_word (p_n p) (p_bit p) (mask_of (p_bit p)) min max v count in
             CountBytesBetween_loop f (drop 8 b) min max count'
    end
  else if (0 <? length b)%nat then Fail "invalid slice len remaining"
  else Ret count.

Definition CountBytesBetween (b : list Z) (min max : Z) : outcome Z :=
  CountBytesBetween_loop (length b) b min max 0.

(** ** Encoding one word *)

Lemma canPack_digits src n bit :
  0 < bit < 64 -> fits src -> canPack src n bit = true ->
  (n <= length src)%nat /\ digits bit (take n src).
Proof.
  intros Hb Hf. unfold canPack. destruct (Nat.ltb_spec (length src) n); [done|].
  destruct (Z.eqb_spec bit 0); [lia|]. intros H'. split; [done|].
  apply forallb_Forall in H'. apply Forall_and. split.
  - apply Forall_take. by apply fits_nonneg.
  - eapply Forall_impl; [exact H'|]. intros x Hx. simpl in Hx.
    apply negb_true_iff, Z.ltb_ge in Hx. rewrite Z.shiftl_1_l, u64_id in Hx; [lia|].
    unint. assert (0 < 2 ^ bit < 2 ^ 64); [|lia].
    split; [apply Z.pow_pos_nonneg; lia|apply Z.pow_lt_mono_r; lia].
Qed.

Lemma pack_word_good src sel n bit :
  packed sel n bit -> fits src -> canPack src n bit = true ->
  exists v, with_n n (pack_word sel bit n (take n src)) = Ret (v, n) /\ good_word src v n.
Proof.
  intros Hp Hf Hc. pose proof Hp as (Hs & Hn & Hb & Hnb & _).
  destruct (canPack_digits src n bit ltac:(nia) Hf Hc) as [Hl Hd].
  unfold pack_word. rewrite length_take, Nat.min_l, Nat.ltb_irrefl by done. simpl.
  eexists. split; [reflexivity|]. rewrite take_take, Nat.min_id.
  destruct (pack_decode sel n bit (take n src) Hp) as [Hu Hw];
    [rewrite length_take; lia|done|]. split_and!; [lia..|done|done].
Qed.

Lemma ones_good src v n :
  canPack src n 0 = true -> (1 <= n)%nat -> is_u64 v -> decode_word v = replicate n 1 ->
  good_word src v n.
Proof.
  unfold canPack. destruct (Nat.ltb_spec (length src) n); [done|]. simpl.
  intros H' Hn Hu Hd. split_and!; [lia..|done|]. rewrite Hd. apply forallb_Forall in H'.
  assert (E : src = replicate (length src) 1).
  { apply Forall_eq_replicate. eapply Forall_impl; [exact H'|]. intros x Hx.
    apply Z.eqb_eq in Hx. done. }
  rewrite E, take_replicate. f_equal. lia.
Qed.

(** [Encode] packs at least one value of any non-empty slice that fits. *)
Lemma Encode_good src :
  fits src -> src <> [] -> exists v n, Encode src = Ret (v, n) /\ good_word src v n.
Proof.
  intros Hf Hne. unfold Encode.
  destruct (canPack src 240 0) eqn:E240.
  { do 2 eexists. split; [reflexivity|]. by apply ones_good; [|lia|..]. }
  destruct (canPack src 120 0) eqn:E120.
  { do 2 eexists. split; [reflexivity|]. by apply ones_good; [|lia|..]. }
  unfold pack60, pack30, pack20, pack15, pack12, pack10, pack8, pack7, pack6, pack5, pack4,
    pack3, pack2, pack1.
  do 14 (match goal with
         | |- exists _ _, (if canPack src ?n ?b then with_n _ (pack_word ?s _ _ _) else _) = _ /\ _ =>
             let E := fresh "E" in
             destruct (canPack src n b) eqn:E;
             [destruct (pack_word_good src s n b ltac:(table) Hf E) as (v & -> & G);
              by do 2 eexists|]
         end).
  exfalso. destruct src as [|x src]; [done|]. unfold canPack in E12.
  cbn [length Nat.ltb Nat.leb take forallb] in E12. apply Forall_cons_1 in Hf as [Hx _].
  change (60 =? 0) with false in E12. change (u64 (Z.shiftl 1 60 - 1)) with MaxValue in E12.
  rewrite andb_true_r in E12. apply negb_false_iff, Z.ltb_lt in E12. lia.
Qed.

(** ** Invariant of the encoder *)

Definition pending (e : Encoder) : list Z := drop (e_h e) (take (e_t e) (s_bytes (e_buf e))).

(** [vs] is what has been written to [e]: the flushed words decode to a prefix
    of it and the rest is pending.  Both byte counts are multiples of eight,
    so that an append lands at [e_bp]. *)
Record enc_inv (e : Encoder) (vs : list Z) : Prop := {
  inv_len : s_len (e_buf e) = 240%nat;
  inv_buf : slice_ok (e_buf e);
  inv_bytes : slice_ok (e_bytes e);
  inv_ht : (e_h e = 0 /\ e_t e = 0 \/ e_h e < e_t e <= 240)%nat;
  inv_bp : (e_bp e <= s_len (e_bytes e))%nat;
  inv_mod : exists m, s_len (e_bytes e) = (8 * m)%nat;
  inv_vs : exists ws, Forall is_u64 ws /\ take (e_bp e) (s_arr (e_bytes e)) = words_bytes ws /\
             vs = decode_words ws ++ pending e }.

Lemma pending_length e vs : enc_inv e vs -> length (pending e) = (e_t e - e_h e)%nat.
Proof.
  intros [L B _ HT _ _ _]. unfold pending, s_bytes, slice_ok in *.
  rewrite length_drop, !length_take. unfold s_cap in B. lia.
Qed.

Lemma NewEncoder_inv : enc_inv NewEncoder [].
Proof.
  split; simpl; try done; try lia.
  - unfold slice_ok, s_cap. simpl. lia.
  - unfold slice_ok, s_cap. simpl. lia.
  - by exists 16%nat.
  - exists []. by split_and!.
Qed.

(** Where a flush stores the encoded word. *)
Lemma store_word e vs b :
  enc_inv e vs -> length b = 8%nat ->
  exists bytes bp,
    put_word e b = (bytes, bp) /\
    slice_ok bytes /\ (bp <= s_len bytes)%nat /\ (exists m, s_len bytes = (8 * m)%nat) /\
    take bp (s_arr bytes) = take (e_bp e) (s_arr (e_bytes e)) ++ b.
Proof.
  intros [_ _ B _ BP [m M] (ws & _ & W & _)] Hb. unfold put_word. unfold slice_ok, s_cap in B.
  assert (E : e_bp e = (8 * length ws)%nat).
  { apply (f_equal length) in W. rewrite length_take, words_bytes_length in W. lia. }
  destruct (Nat.ltb_spec (s_len (e_bytes e)) (e_bp e + 8)) as [H|H].
  - assert (Ebp : e_bp e = s_len (e_bytes e)) by lia.
    do 2 eexists. split; [reflexivity|]. unfold s_append, slice_ok, s_cap, s_bytes.
    destruct (Nat.leb_spec (s_len (e_bytes e) + length b) (length (s_arr (e_bytes e))));
      cbn [s_len s_arr]; rewrite ?length_app, ?length_take, ?length_drop, Hb, Ebp;
      (split_and!; [lia|lia|exists (S m); lia|]).
    + rewrite app_assoc. apply take_app_length'. rewrite length_app, length_take, Hb. lia.
    + apply take_ge. rewrite length_app, length_take, Hb. lia.
  - do 2 eexists. split; [reflexivity|]. unfold s_write, slice_ok, s_cap. cbn [s_len s_arr].
    rewrite !length_app, length_take, length_drop, Hb. split_and!; [lia|lia|by exists m|].
    rewrite app_assoc. apply take_app_length'. rewrite length_app, length_take, Hb. lia.
Qed.

Lemma pending_fits e vs : enc_inv e vs -> fits vs -> fits (pending e).
Proof. intros [_ _ _ _ _ _ (ws & _ & _ & ->)] H. by apply Forall_app in H as [_ H]. Qed.

(** A flush of a non-empty buffer writes one word and consumes some values. *)
Lemma flush_inv e vs :
  enc_inv e vs -> fits vs -> (0 < e_t e)%nat ->
  exists e', flush e = Ret e' /\ enc_inv e' vs /\
    (length (pending e') < length (pending e))%nat /\
    (e_t e' = 0 \/ e_t e' = e_t e /\ 0 < e_h e')%nat.
Proof.
  intros I Hf Ht. pose proof (pending_fits e vs I Hf) as Pf.
  pose proof (pending_length e vs I) as Pl. pose proof I as [L B Bb HT BP M (ws & Wu & W & V)].
  destruct (Encode_good (pending e) Pf) as (v & n & En & Hn & Hv & Hd).
  { intros E. rewrite E in Pl. simpl in Pl. lia. }
  destruct (store_word e vs (be_put 8 v) I (be_put_length 8 v)) as (bytes & bp & Es & S1 & S2 & S3 & S4).
  unfold flush. destruct (Nat.eqb_spec (e_t e) 0); [lia|]. fold (pending e). rewrite En. cbn [obind].
  rewrite Es.
  assert (V' : exists ws', Forall is_u64 ws' /\ take bp (s_arr bytes) = words_bytes ws' /\
                 vs = decode_words ws' ++ drop n (pending e)).
  { exists (ws ++ [v]). split_and!.
    - apply Forall_app_2; [done|]. by apply Forall_singleton.
    - rewrite S4, W. unfold words_bytes. by rewrite bind_app, bind_singleton.
    - unfold decode_words. rewrite bind_app, bind_singleton, Hd, <- app_assoc, take_drop. done. }
  destruct (Nat.eqb_spec (e_h e + n) (e_t e)) as [Eh|Eh]; eexists; (split; [reflexivity|]).
  - rewrite drop_ge in V' by lia. split_and!; [|unfold pending at 1; simpl; lia|by left].
    split; simpl; try done. by left.
  - split_and!; [|unfold pending at 1; cbn [e_h e_t e_buf]; rewrite <- drop_drop; fold (pending e);
      rewrite length_drop; lia|right; simpl; lia].
    split; simpl; try done; [lia|]. unfold pending at 1. cbn [e_h e_t e_buf].
    rewrite <- drop_drop. exact V'.
Qed.

Lemma shift_down_inv e vs :
  enc_inv e vs -> e_t e = 240%nat -> (0 < e_h e)%nat ->
  enc_inv (shift_down e) vs /\ (e_t (shift_down e) < 240)%nat.
Proof.
  intros [L B Bb HT BP M V] Ht Hh. unfold shift_down. simpl. split; [|lia].
  unfold slice_ok, s_cap in B.
  assert (Lm : length (drop (e_h e) (s_bytes (e_buf e))) = (240 - e_h e)%nat).
  { unfold s_bytes. rewrite length_drop, length_take. lia. }
  split; cbn [e_buf e_h e_t e_bp e_bytes e_b s_len s_arr]; try done; [|lia|].
  - unfold slice_ok, s_cap. cbn [s_arr s_len]. rewrite length_app, Lm, length_drop. lia.
  - destruct V as (ws & Wu & W & ->). exists ws. split_and!; [done..|]. f_equal.
    unfold pending. cbn [e_buf e_h e_t]. unfold s_bytes at 2. cbn [s_arr s_len].
    rewrite take_take, drop_0, Ht, Nat.min_l by lia.
    rewrite take_app_length' by (by rewrite Lm). f_equal.
    apply take_ge. unfold s_bytes. rewrite length_take. lia.
Qed.

Lemma push_inv e vs v :
  enc_inv e vs -> (e_t e < 240)%nat ->
  enc_inv (MkEncoder (Slice (<[e_t e := v]> (s_arr (e_buf e))) (s_len (e_buf e)))
             (e_h e) (S (e_t e)) (e_bp e) (e_bytes e) (e_b e)) (vs ++ [v]).
Proof.
  intros [L B Bb HT BP M V] Ht. unfold slice_ok, s_cap in B.
  split; cbn [e_buf e_h e_t e_bp e_bytes e_b s_len s_arr]; try done; [|lia|].
  - unfold slice_ok, s_cap. cbn [s_arr s_len]. rewrite length_insert. lia.
  - destruct V as (ws & Wu & W & ->). exists ws. split_and!; [done..|].
    rewrite <- app_assoc. f_equal. unfold pending, s_bytes. cbn [e_buf e_h e_t s_arr s_len].
    rewrite !take_take, !Nat.min_l by lia.
    rewrite (take_S_r _ _ v) by (apply list_lookup_insert_eq; lia).
    rewrite take_insert_ge by lia. rewrite drop_app_le; [done|]. rewrite length_take. lia.
Qed.

Lemma Write_inv e vs v :
  enc_inv e vs -> fits vs -> exists e', Write e v = Ret e' /\ enc_inv e' (vs ++ [v]).
Proof.
  intros I Hf. unfold Write. pose proof I as [L _ _ HT _ _ _]. rewrite L.
  destruct (Nat.leb_spec 240 (e_t e)) as [Hfull|Hroom].
  - destruct (flush_inv e vs I Hf ltac:(lia)) as (e1 & -> & I1 & _ & Ht1). cbn [obind].
    pose proof (inv_len _ _ I1) as L1. rewrite L1.
    destruct (Nat.leb_spec 240 (e_t e1)).
    + destruct (shift_down_inv e1 vs I1 ltac:(lia) ltac:(lia)) as [I2 H2].
      pose proof (inv_len _ _ I2) as L2. rewrite L2. destruct (Nat.ltb_spec (e_t (shift_down e1)) 240); [|lia].
      rewrite <- L2. eexists. split; [reflexivity|]. by apply push_inv.
    + rewrite L1. destruct (Nat.ltb_spec (e_t e1) 240); [|lia]. rewrite <- L1.
      eexists. split; [reflexivity|]. by apply push_inv.
  - cbn [obind]. rewrite L. destruct (Nat.leb_spec 240 (e_t e)); [lia|]. rewrite L.
    destruct (Nat.ltb_spec (e_t e) 240); [|lia]. rewrite <- L.
    eexists. split; [reflexivity|]. by apply push_inv.
Qed.

Lemma WriteAll_inv e vs vs' :
  enc_inv e vs -> fits (vs ++ vs') -> exists e', WriteAll e vs' = Ret e' /\ enc_inv e' (vs ++ vs').
Proof.
  revert e vs. induction vs' as [|v vs' IH]; intros e vs I Hf.
  - rewrite app_nil_r. by exists e.
  - cbn [WriteAll]. pose proof Hf as Hf'. apply Forall_app in Hf' as [Hvs _].
    destruct (Write_inv e vs v I Hvs) as (e' & -> & I'). cbn [obind].
    rewrite cons_middle, app_assoc in Hf |- *. by apply IH.
Qed.

(** [Bytes] drains the buffer and returns the words of everything written. *)
Lemma Bytes_loop_inv fuel e vs :
  enc_inv e vs -> fits vs -> (length (pending e) <= fuel)%nat ->
  exists ws e', Bytes_loop fuel e = Ret (words_bytes ws, e') /\ Forall is_u64 ws /\ decode_words ws = vs.
Proof.
  revert e. induction fuel as [|f IH]; intros e I Hf Hfuel;
    pose proof (pending_length e vs I) as Pl; pose proof I as [L B Bb HT BP M (ws & Wu & W & V)];
    cbn [Bytes_loop]; destruct (Nat.eqb_spec (e_t e) 0) as [E|E].
  1,3: unfold slice_ok in Bb; destruct (Nat.ltb_spec (s_cap (e_bytes e)) (e_bp e)); [lia|];
    exists ws, e; unfold s_bytes, s_to; cbn [s_arr s_len]; rewrite W; split_and!; [done..|];
    rewrite V; unfold pending; rewrite E, take_0, drop_nil; by rewrite app_nil_r.
  - lia.
  - destruct (flush_inv e vs I Hf ltac:(lia)) as (e' & -> & I' & Hlt & _). cbn [obind].
    apply IH; [done..|lia].
Qed.

Lemma Encoder_bytes e0 vs :
  enc_inv e0 [] -> fits vs ->
  exists e ws e', WriteAll e0 vs = Ret e /\ Bytes e = Ret (words_bytes ws, e') /\
    Forall is_u64 ws /\ decode_words ws = vs.
Proof.
  intros I0 Hf. destruct (WriteAll_inv e0 [] vs I0 Hf) as (e & E & I).
  destruct (Bytes_loop_inv (e_t e - e_h e) e vs I Hf) as (ws & e' & B & H).
  { by rewrite (pending_length e vs I). }
  by exists e, ws, e'.
Qed.

(** [Reset] makes any encoder as good as new. *)
Lemma Reset_inv e e' : Reset e = Ret e' -> enc_inv e' [].
Proof.
  unfold Reset. destruct (Nat.ltb_spec (s_cap (e_buf e)) 240); [done|].
  destruct (Nat.ltb_spec (s_cap (e_bytes e)) 128); [done|]. intros [= <-].
  split; cbn [e_buf e_h e_t e_bp e_bytes s_to s_len s_arr]; unfold slice_ok, s_cap in *;
    cbn [s_len s_arr s_to]; try done; try lia.
  - by exists 16%nat.
  - exists []. by split_and!.
Qed.

(** ** The decoder reads back the words *)

(** The values still to be read when the remaining bytes are [words_bytes ws]. *)
Definition unread (d : Decoder) (ws : list Z) : list Z :=
  drop (Z.to_nat (d_i d + 1)) (take (Z.to_nat (d_n d)) (d_buf d)) ++ decode_words ws.

Record dec_ok (d : Decoder) (ws : list Z) : Prop := {
  ok_bytes : d_bytes d = words_bytes ws;
  ok_words : Forall is_u64 ws;
  ok_buf : length (d_buf d) = 240%nat;
  ok_i : 0 <= d_i d;
  ok_n : 0 <= d_n d <= 240 }.

Lemma Next_end d ws : dec_ok d ws -> unread d ws = [] -> exists d', Next d = (d', false).
Proof.
  intros [Hb Hw Hl Hi Hn] Hu. unfold unread in Hu. apply app_nil in Hu as [Hu Hd].
  assert (ws = []) as ->.
  { destruct ws as [|w ws]; [done|]. inversion Hw; subst. unfold decode_words in Hd.
    apply (f_equal length) in Hd. cbn [mbind list_bind] in Hd. rewrite length_app in Hd.
    pose proof (decode_word_length w ltac:(done)). cbn [length] in Hd. lia. }
  apply (f_equal length) in Hu. rewrite length_drop, length_take in Hu. simpl in Hu.
  unfold Next. cbn [d_bytes d_buf d_i d_n]. destruct (Z.leb_spec (d_n d) (d_i d + 1)); [|lia].
  unfold read. cbn [d_bytes d_buf d_i d_n]. rewrite Hb.
  change (length (words_bytes []) <? 8)%nat with true. cbn iota. cbn [d_bytes d_buf d_i d_n].
  eexists. f_equal. apply andb_false_iff. right. apply Z.ltb_ge. lia.
Qed.

(** [Decode] of a word: its values in the first cells of the buffer. *)
Lemma Decode_word v :
  is_u64 v ->
  exists n, (1 <= n <= 240)%nat /\ length (decode_word v) = n /\
    forall dst, length dst = 240%nat ->
      exists buf, Decode dst v = Ret (buf, n) /\ length buf = 240%nat /\ take n buf = decode_word v.
Proof.
  intros Hv. destruct (selector_word v Hv) as (p & _ & Hat & Hpn & Hlen & Hun).
  exists (p_n p). split_and!; [lia..|done|]. intros dst Hd. exists (p_unpack p v dst).
  destruct (Hun dst Hd) as [H1 H2]. split_and!; [|done..]. unfold Decode.
  pose proof (shiftr60_range v Hv). destruct (Z.leb_spec 16 (Z.shiftr v 60)); [lia|].
  by rewrite Hat.
Qed.

Lemma decode_words_count ws : Forall is_u64 ws -> (length ws <= length (decode_words ws))%nat.
Proof.
  induction 1 as [|w ws Hw _ IH]; [done|]. unfold decode_words in *. cbn [mbind list_bind length]. rewrite length_app.
  destruct (Decode_word w Hw) as (n & Hn & Hl & _). lia.
Qed.

Lemma Next_value d ws x r :
  dec_ok d ws -> unread d ws = x :: r ->
  exists d' ws', Next d = (d', true) /\ Read d' = Ret x /\ dec_ok d' ws' /\ unread d' ws' = r.
Proof.
  intros [Hb Hw Hl Hi Hn] Hu. unfold Next. cbn [d_bytes d_buf d_i d_n].
  destruct (Z.leb_spec (d_n d) (d_i d + 1)) as [Hend|Hin].
  - unfold unread in Hu. rewrite drop_ge in Hu by (rewrite length_take; lia). simpl in Hu.
    destruct ws as [|w ws]; [done|]. inversion Hw as [|? ? Hw1 Hw2]; subst.
    destruct (words_bytes_head w ws Hw1) as [Hg Hd].
    destruct (Decode_word w Hw1) as (n & Hpn & Hlen & Hdec).
    destruct (Hdec _ Hl) as (buf & Ed & Hl' & Ht').
    unfold decode_words in Hu. cbn [mbind list_bind] in Hu. rewrite <- Ht' in Hu.
    destruct buf as [|y buf]; [simpl in Hl'; lia|]. destruct n as [|n]; [lia|].
    injection Hu as -> <-.
    unfold read. cbn [d_bytes d_buf d_i d_n]. rewrite Hb, words_bytes_length. cbn [length].
    destruct (Nat.ltb_spec (8 * S (length ws)) 8); [lia|]. rewrite Hg, Hd, Ed.
    eexists _, ws. split; [|split; [|split]].
    + f_equal. apply orb_true_iff. right. cbn [d_i d_n]. apply Z.ltb_lt. lia.
    + done.
    + split; cbn [d_bytes d_buf d_i d_n]; [done..|lia|lia].
    + unfold unread. cbn [d_i d_n d_buf]. rewrite Nat2Z.id. done.
  - assert (Hx : d_buf d !! Z.to_nat (d_i d + 1) = Some x /\
                 drop (Z.to_nat (d_i d + 1 + 1)) (take (Z.to_nat (d_n d)) (d_buf d)) ++ decode_words ws = r).
    { unfold unread in Hu.
      assert (is_Some (take (Z.to_nat (d_n d)) (d_buf d) !! Z.to_nat (d_i d + 1))) as [y Hy].
      { apply lookup_lt_is_Some_2. rewrite length_take. lia. }
      rewrite (drop_S _ _ _ Hy) in Hu. simpl in Hu. injection Hu as -> Hr.
      split; [by eapply lookup_take_Some in Hy as [Hy _]|].
      replace (Z.to_nat (d_i d + 1 + 1)) with (S (Z.to_nat (d_i d + 1))) by lia. done. }
    destruct Hx as [Hx Hr]. eexists _, ws. split; [|split; [|split]].
    + f_equal. apply orb_true_iff. right. cbn [d_bytes d_buf d_i d_n].
      apply andb_true_iff. split; [apply Z.leb_le|apply Z.ltb_lt]; lia.
    + unfold Read. simpl. by rewrite Hx.
    + split; simpl; [done..|lia|lia].
    + exact Hr.
Qed.

(** [Next] keeps the buffer at 240 cells. *)
Lemma Next_buf_length d ws : dec_ok d ws -> length (d_buf (Next d).1) = 240%nat.
Proof.
  intros [Hb Hw Hl Hi Hn]. unfold Next. cbn [d_bytes d_buf d_i d_n fst].
  destruct (_ <=? _); [|done]. unfold read. cbn [d_bytes d_buf]. rewrite Hb.
  destruct ws as [|w ws]; [done|]. apply Forall_cons_1 in Hw as [Hw _].
  rewrite words_bytes_length. destruct (_ <? _)%nat; [done|].
  destruct (words_bytes_head w ws Hw) as [-> _].
  destruct (Decode_word w Hw) as (n & _ & _ & H). by destruct (H _ Hl) as (buf & -> & L & _).
Qed.

Lemma drain_unread fuel d ws :
  dec_ok d ws -> (length (unread d ws) < fuel)%nat -> drain fuel d = Ret (unread d ws).
Proof.
  revert d ws. induction fuel as [|f IH]; intros d ws Hok Hf; [lia|]. cbn [drain].
  destruct (unread d ws) as [|x r] eqn:E.
  - destruct (Next_end d ws Hok E) as [d' ->]. done.
  - destruct (Next_value d ws x r Hok E) as (d' & ws' & -> & -> & Hok' & Hr). cbn [obind].
    rewrite (IH d' ws') by (done || (rewrite Hr; simpl in Hf; lia)). cbn [obind]. by rewrite Hr.
Qed.

(** A decoder reset on the bytes of some words reads their values and stops,
    whatever word it had been decoding before. *)
Lemma drain_SetBytes d ws fuel :
  Forall is_u64 ws -> length (d_buf d) = 240%nat -> (length (decode_words ws) < fuel)%nat ->
  drain fuel (SetBytes d (words_bytes ws)) = Ret (decode_words ws).
Proof.
  intros Hw Hl Hf. set (d' := SetBytes d (words_bytes ws)).
  change (decode_words ws) with (unread d' ws). apply drain_unread; [|done].
  split; unfold d', SetBytes; cbn [d_bytes d_buf d_i d_n]; done || lia.
Qed.

(** The streaming codec: writing any values up to [MaxValue] to a new
    [Encoder] succeeds, [Bytes] flushes them all, and a [Decoder] on those
    bytes returns exactly the values written, in order, then stops. *)
Theorem Encoder_Decoder_roundtrip (vs : list Z) :
  fits vs ->
  exists e bs e', WriteAll NewEncoder vs = Ret e /\ Bytes e = Ret (bs, e') /\
    drain (S (length vs)) (NewDecoder bs) = Ret vs.
Proof.
  intros Hf. destruct (Encoder_bytes NewEncoder vs NewEncoder_inv Hf) as (e & ws & e' & E & B & Hw & <-).
  exists e, (words_bytes ws), e'. split_and!; [done..|].
  change (NewDecoder (words_bytes ws)) with (SetBytes (NewDecoder []) (words_bytes ws)).
  apply drain_SetBytes; [done..|lia].
Qed.

Lemma Encoder_Decoder_roundtrip_witness :
  exists e bs e', WriteAll NewEncoder [5; 1; 900] = Ret e /\ Bytes e = Ret (bs, e') /\
    drain 4 (NewDecoder bs) = Ret [5; 1; 900].
Proof.
  apply (Encoder_Decoder_roundtrip [5; 1; 900]). repeat constructor; vm_compute; congruence.
Defined.

(** ** Visitors *)

Lemma mask_of_eq bits : 0 <= bits < 64 -> mask_of bits = 2 ^ bits - 1.
Proof.
  intros H. unfold mask_of, Z.lnot. rewrite Z.shiftl_mul_pow2 by lia.
  assert (0 < 2 ^ bits < 2 ^ 64).
  { split; [apply Z.pow_pos_nonneg; lia|apply Z.pow_lt_mono_r; lia]. }
  rewrite u64_id by (unint; lia). lia.
Qed.

(** A word that stores explicit values, read off its selector. *)
Lemma explicit_word w :
  is_u64 w -> 2 ^ 61 <= w ->
  exists n bit pk, selector_at (Z.shiftr w 60) = Ret (Packing n bit (unpack_word bit n) pk) /\
    0 <= bit < 64 /\
    decode_word w = (fun k => Z.land (Z.shiftr w (Z.of_nat k * bit)) (2 ^ bit - 1)) <$> seq 0 n.
Proof.
  intros Hw Hbig. pose proof (shiftr60_range w Hw) as Hr.
  assert (2 <= Z.shiftr w 60) by (rewrite Z.shiftr_div_pow2 by lia; apply Z.div_le_lower_bound; lia).
  unfold decode_word, selector_at. remember (Z.to_nat (Z.shiftr w 60)) as c eqn:Ec.
  destruct c as [|[|c]]; [lia..|]. assert (Hc : (c < 14)%nat) by lia. clear Ec.
  assert (exists n bit pk, selector !! S (S c) = Some (Packing n bit (unpack_word bit n) pk) /\
            0 <= bit < 64) as (n & bit & pk & -> & Hb).
  { do 14 (destruct c as [|c]; [do 3 eexists; split; [reflexivity|lia]|]). lia. }
  exists n, bit, pk. split_and!; [done|lia..|]. simpl. unfold unpack_word.
  apply take_app_length'. by rewrite length_fmap, length_seq.
Qed.

Section ForEachProofs.
Context {S : Type} (fn : S -> Z -> S * bool) (never_stops : forall s v, (fn s v).2 = true).

Lemma ForEach_word_fold n bits mask s v :
  0 <= bits ->
  ForEach_word fn n bits mask s v =
    (fold_left (fun s x => (fn s x).1)
       ((fun k => Z.land (Z.shiftr v (Z.of_nat k * bits)) mask) <$> seq 0 n) s, true).
Proof.
  intros Hb. revert s v. induction n as [|n IH]; intros s v; [done|].
  cbn [ForEach_word seq fmap list_fmap fold_left]. rewrite Z.mul_0_l, Z.shiftr_0_r.
  pose proof (never_stops s (Z.land v mask)) as E. destruct (fn s (Z.land v mask)) as [s' go].
  simpl in E. subst go. rewrite IH. f_equal. simpl. f_equal.
  rewrite <- fmap_S_seq, <- list_fmap_compose. apply list_fmap_ext. intros i k _. simpl.
  rewrite Z.shiftr_shiftr by lia. do 2 f_equal. lia.
Qed.

Lemma ForEach_loop_words fuel s ws :
  Forall is_u64 ws -> Forall (fun w => 2 ^ 61 <= w) ws -> (length ws <= fuel)%nat ->
  ForEach_loop fn fuel s (words_bytes ws) =
    Ret (fold_left (fun s x => (fn s x).1) (decode_words ws) s).
Proof.
  revert s ws. induction fuel as [|f IH]; intros s ws Hu Hb Hf.
  { destruct ws; [done|simpl in Hf; lia]. }
  destruct ws as [|w ws]; [done|]. cbn [ForEach_loop].
  apply Forall_cons_1 in Hu as [Hw Hu]. apply Forall_cons_1 in Hb as [Hw' Hb].
  rewrite words_bytes_length. cbn [length] in Hf |- *.
  destruct (Nat.ltb_spec (8 * Datatypes.S (length ws)) 8); [lia|].
  destruct (words_bytes_head w ws Hw) as [-> ->].
  pose proof (shiftr60_range w Hw). destruct (Z.leb_spec 16 (Z.shiftr w 60)); [lia|].
  destruct (explicit_word w Hw Hw') as (n & bit & pk & -> & Hbit & Hd). cbn [obind p_n p_bit].
  rewrite ForEach_word_fold, mask_of_eq by lia. rewrite IH by (done || lia).
  unfold decode_words. cbn [mbind list_bind]. by rewrite fold_left_app, Hd.
Qed.
End ForEachProofs.

(** On words that store explicit values (selectors 2 to 15) [ForEach]
    passes the callback exactly the decoded values, in order. *)
Theorem ForEach_visits {S : Type} (fn : S -> Z -> S * bool) (s : S) (ws : list Z) :
  (forall s v, (fn s v).2 = true) -> Forall is_u64 ws -> Forall (fun w => 2 ^ 61 <= w) ws ->
  ForEach fn s (words_bytes ws) = Ret (fold_left (fun s x => (fn s x).1) (decode_words ws) s).
Proof.
  intros Hn Hu Hb. apply ForEach_loop_words; [done..|]. rewrite words_bytes_length. lia.
Qed.

Definition collect (s : list Z) (v : Z) : list Z * bool := (s ++ [v], true).

Lemma ForEach_visits_witness :
  ForEach collect [] (words_bytes [Z.lor (Z.shiftl 14 60) (Z.lor 5 (Z.shiftl 9 30))]) = Ret [5; 9].
Proof.
  rewrite ForEach_visits.
  - vm_compute. reflexivity.
  - reflexivity.
  - repeat constructor; vm_compute; congruence.
  - repeat constructor; vm_compute; congruence.
Defined.

(** The run selectors are not handled by the visitors: on the encoding of
    120 ones [ForEach] reports 120 zeros, and [CountBytesBetween] finds no
    value in the range [1, 2). *)
Theorem run_of_ones_visited_as_zeros :
  exists ws, EncodeAll (replicate 120 1) = Ret ws /\ decode_words ws = replicate 120 1 /\
    ForEach collect [] (words_bytes ws) = Ret (replicate 120 0) /\
    CountBytesBetween (words_bytes ws) 1 2 = Ret 0.
Proof. exists [2 ^ 60]. vm_compute. auto. Qed.
End Simple8bStream.
