(* ===== verification/Codec.v ===== *)
(** * Shared parts of the TSM column codecs (tsdb/engine/tsm1)

    Zig-zag coding ([encoding.go]), the sizing of a destination slice, and the
    theory of in-place delta encoding against prefix sums that the integer
    and timestamp codecs share. *)
From S2P Require Import Prelude Simple8b.
Import Simple8b.

Module Codec.

(** ** Zig-zag coding *)

Definition ZigZagEncode (x : Z) : Z :=
  Z.lxor (u64 (i64 (Z.shiftl x 1))) (u64 (Z.shiftr x 63)).

Definition ZigZagDecode (v : Z) : Z :=
  i64 (Z.lxor (Z.shiftr v 1) (u64 (Z.shiftr (i64 (Z.shiftl (Z.land v 1) 63)) 63))).

(** The idiom [if cap(dst) < count { make } else { dst[:count] }]: slicing
    beyond the capacity panics (running out of memory is not modelled). *)
Definition make_dst (dst : slice) (count : Z) : outcome (list Z) :=
  if Z.of_nat (s_cap dst) <? i64 count then Ret (replicate (Z.to_nat count) 0)
  else if count <=? Z.of_nat (s_cap dst) then Ret (take (Z.to_nat count) (s_arr dst))
  else Panic.

(** [for i := 2; i < len(deltas); i++ { if deltas[1] != deltas[i] ... }]. *)
Definition all_equal_second (deltas : list Z) : bool :=
  forallb (fun d => deltas !!! 1%nat =? d) (drop 2 deltas).

(** [for i := range dst { ... binary.BigEndian.Uint64(b[i*8:]) ... }]. *)
Fixpoint read_words (count : nat) (b : list Z) : list Z :=
  match count with
  | O => []
  | S c => be_get (take 8 b) :: read_words c (drop 8 b)
  end.

(** [acc := first; for i := range dst { dst[i] = acc; acc += delta }]. *)
Fixpoint progression (f : Z -> Z) (n : nat) (acc : Z) : list Z :=
  match n with
  | O => []
  | S m => acc :: progression f m (f acc)
  end.

(** ** Zig-zag lemmas *)

Lemma lxor_ones_compl n a : 0 <= n -> 0 <= a < 2 ^ n -> Z.lxor a (2 ^ n - 1) = 2 ^ n - 1 - a.
Proof.
  intros Hn Ha. replace (2 ^ n - 1) with (Z.ones n) by (rewrite Z.ones_equiv; lia).
  rewrite Z.sub_nocarry_ldiff.
  - apply Z.bits_inj'. intros i Hi. rewrite Z.lxor_spec, Z.ldiff_spec.
    destruct (Z.ltb_spec i n).
    + rewrite Z.ones_spec_low by lia. by destruct (Z.testbit a i).
    + rewrite Z.ones_spec_high by lia.
      rewrite <- (Z.mod_small a (2 ^ n)), Z.mod_pow2_bits_high by lia. done.
  - rewrite Z.ldiff_ones_r by lia. rewrite Z.shiftr_div_pow2, Z.div_small by lia.
    apply Z.shiftl_0_l.
Qed.

Lemma ZigZagEncode_eq x :
  is_i64 x -> ZigZagEncode x = if x <? 0 then - 2 * x - 1 else 2 * x.
Proof.
  intros Hx. unfold ZigZagEncode. rewrite u64_i64, Z.shiftl_mul_pow2, Z.shiftr_div_pow2 by lia.
  change (2 ^ 1) with 2. unint. destruct (Z.ltb_spec x 0).
  - rewrite <- (Z.div_unique x (2 ^ 63) (-1) (x + 2 ^ 63)) by lia.
    change ((-1) mod 2 ^ 64) with (2 ^ 64 - 1).
    rewrite <- (Z.mod_unique (x * 2) (2 ^ 64) (-1) (x * 2 + 2 ^ 64)) by lia.
    rewrite lxor_ones_compl by lia. lia.
  - rewrite (Z.div_small x) by lia. rewrite (Z.mod_small (x * 2)) by lia.
    change (0 mod 2 ^ 64) with 0. rewrite Z.lxor_0_r. lia.
Qed.

Lemma ZigZagEncode_range x : is_i64 x -> is_u64 (ZigZagEncode x).
Proof. intros H. rewrite ZigZagEncode_eq by done. unint. zcase; lia. Qed.

Lemma ZigZagDecode_eq v :
  is_u64 v -> ZigZagDecode v = if Z.even v then v / 2 else - (v / 2) - 1.
Proof.
  intros Hv. unfold ZigZagDecode.
  change 1 with (2 ^ 1 - 1) at 2. rewrite land_ones_mod by lia. change (2 ^ 1) with 2.
  rewrite (Z.shiftr_div_pow2 v) by lia. change (2 ^ 1) with 2.
  assert (Hd : 0 <= v / 2 < 2 ^ 63).
  { unint. split; [apply Z.div_pos; lia|apply Z.div_lt_upper_bound; lia]. }
  rewrite Zmod_even. destruct (Z.even v).
  - change (u64 (Z.shiftr (i64 (Z.shiftl 0 63)) 63)) with 0. rewrite Z.lxor_0_r.
    apply i64_id. unint. lia.
  - change (u64 (Z.shiftr (i64 (Z.shiftl 1 63)) 63)) with (2 ^ 64 - 1).
    rewrite lxor_ones_compl by lia.
    replace (2 ^ 64 - 1 - v / 2) with (- (v / 2) - 1 + 1 * 2 ^ 64) by lia.
    unfold i64. rewrite Z.mod_add by lia. apply (i64_id (- (v / 2) - 1)). unint. lia.
Qed.

Lemma ZigZagDecode_Encode x : is_i64 x -> ZigZagDecode (ZigZagEncode x) = x.
Proof.
  intros Hx. rewrite ZigZagDecode_eq by (by apply ZigZagEncode_range).
  rewrite ZigZagEncode_eq by done. destruct (Z.ltb_spec x 0).
  - replace (-2 * x - 1) with (1 + 2 * (- x - 1)) by lia.
    rewrite Z.even_add_mul_2. change (Z.even 1) with false. cbn iota.
    rewrite Z.mul_comm, Z.div_add by lia. change (1 / 2) with 0. lia.
  - rewrite Z.even_mul. simpl. rewrite Z.mul_comm, Z.div_mul by lia. done.
Qed.

Lemma ZigZagDecode_range v : is_i64 (ZigZagDecode v).
Proof. apply i64_range. Qed.

Lemma ZigZagEncode_Decode v : is_u64 v -> ZigZagEncode (ZigZagDecode v) = v.
Proof.
  intros Hv. rewrite ZigZagEncode_eq by apply ZigZagDecode_range.
  rewrite ZigZagDecode_eq by done. pose proof (Zmod_even v) as E.
  pose proof (Z.div_mod v 2 ltac:(lia)). assert (0 <= v / 2) by (apply Z.div_pos; unint; lia).
  destruct (Z.even v); zcase; lia.
Qed.

(** ** Destination slices *)

Lemma make_dst_len dst count :
  0 <= count < 2 ^ 63 ->
  exists l, make_dst dst count = Ret l /\ length l = Z.to_nat count.
Proof.
  intros H. unfold make_dst. rewrite i64_id by (unint; lia).
  destruct (Z.ltb_spec (Z.of_nat (s_cap dst)) count).
  - eexists. split; [done|]. apply length_replicate.
  - destruct (Z.leb_spec count (Z.of_nat (s_cap dst))); [|lia].
    eexists. split; [done|]. rewrite length_take. unfold s_cap in *. lia.
Qed.

(** ** Differences and prefix sums *)

(** The differences of consecutive elements of [l], starting from [prev], each
    passed through [f] (the element codec of the column). *)
Fixpoint diffs (f : Z -> Z) (prev : Z) (l : list Z) : list Z :=
  match l with
  | [] => []
  | x :: l' => f (x - prev) :: diffs f x l'
  end.

(** The running sums of [l] under the step [g], starting from [prev]. *)
Fixpoint sums (g : Z -> Z -> Z) (prev : Z) (l : list Z) : list Z :=
  match l with
  | [] => []
  | d :: l' => let prev' := g prev d in prev' :: sums g prev' l'
  end.

Lemma diffs_length f p l : length (diffs f p l) = length l.
Proof. revert p; induction l; intros; simpl; auto. Qed.

Lemma sums_length g p l : length (sums g p l) = length l.
Proof. revert p; induction l; intros; simpl; auto. Qed.

Lemma diffs_app f p l x :
  diffs f p (l ++ [x]) = diffs f p l ++ [f (x - default p (last l))].
Proof.
  revert p. induction l as [|y l IH]; intros p; [done|].
  cbn [app diffs]. rewrite IH, last_cons. by destruct (last l).
Qed.

(** Summing the differences restores the elements when each step does. *)
Lemma sums_diffs (P : Z -> Prop) f g p l :
  P p -> Forall P l ->
  (forall x y, P x -> P y -> g x (f (y - x)) = y) ->
  sums g p (diffs f p l) = l.
Proof.
  intros Hp Hl Hg. revert p Hp. induction Hl as [|x l Hx Hl IH]; intros p Hp; [done|].
  simpl. rewrite Hg by done. by rewrite IH.
Qed.

(** The in-place loop [for i := len-1; i > 0; i-- { d[i] = f(d[i]-d[i-1]) }],
    where [f] also keeps the running maximum. *)
Fixpoint delta_loop (f : Z -> Z) (i : nat) (deltas : list Z) (max : Z) : list Z * Z :=
  match i with
  | O => (deltas, max)
  | S i' =>
      let d := f (deltas !!! i - deltas !!! i') in
      delta_loop f i' (<[i := d]> deltas) (if max <? d then d else max)
  end.

Definition max_list (m : Z) (l : list Z) : Z := fold_right Z.max m l.

(** The last element of a prefix and the one before it. *)
Lemma snoc_lookups (x : Z) l y rest :
  (x :: (l ++ [y]) ++ rest) !!! S (length l) = y /\
  (x :: (l ++ [y]) ++ rest) !!! length l = default x (last l).
Proof.
  split; apply list_lookup_total_correct; rewrite <- app_assoc.
  - simpl. by rewrite lookup_app_r, Nat.sub_diag by lia.
  - destruct l as [|z l _] using rev_ind; [done|].
    rewrite length_app, Nat.add_comm, last_snoc, <- app_assoc. simpl.
    by rewrite lookup_app_r, Nat.sub_diag by lia.
Qed.

Lemma snoc_insert (x : Z) l y rest d :
  <[S (length l) := d]> (x :: (l ++ [y]) ++ rest) = x :: l ++ d :: rest.
Proof.
  rewrite <- app_assoc. simpl. f_equal. by rewrite insert_app_r_alt, Nat.sub_diag by lia.
Qed.

(** Iterating downwards, each difference is taken between original elements. *)
Lemma delta_loop_spec f x l rest m :
  delta_loop f (length l) (x :: l ++ rest) m = (x :: diffs f x l ++ rest, max_list m (diffs f x l)).
Proof.
  revert rest m. induction l as [|y l IH] using rev_ind; intros rest m; [done|].
  rewrite length_app, Nat.add_comm. cbn [length Nat.add delta_loop].
  destruct (snoc_lookups x l y rest) as [-> ->].
  set (d := f _).
  rewrite snoc_insert, IH, diffs_app. fold d. rewrite <- app_assoc. f_equal.
  unfold max_list. rewrite fold_right_app. simpl.
  f_equal. destruct (Z.ltb_spec m d); lia.
Qed.

Lemma max_list_bound m l b : max_list m l <= b <-> m <= b /\ Forall (fun x => x <= b) l.
Proof.
  induction l as [|x l IH]; simpl; [split; [by intros|by intros []]|].
  unfold max_list in *. simpl. rewrite Z.max_lub_iff, IH, Forall_cons. tauto.
Qed.

(** Constant differences: the elements in arithmetic progression. *)
Lemma sums_replicate g p d n :
  sums g p (replicate n d) = sums (fun a _ => g a d) p (replicate n 0).
Proof. revert p; induction n; intros; simpl; [done|]. by rewrite IHn. Qed.

(** ** Reading words and progressions *)

Lemma diffs_u64 f p l :
  (forall d d', u64 d = u64 d' -> f d = f d') ->
  diffs f (u64 p) (u64 <$> l) = diffs f p l.
Proof.
  intros Hf. revert p. induction l as [|x l IH]; intros p; [done|].
  cbn [fmap list_fmap diffs]. rewrite IH. f_equal. apply Hf. by autorewrite with word.
Qed.

Lemma diffs_range f p l : (forall d, is_u64 (f d)) -> Forall is_u64 (diffs f p l).
Proof. intros Hf. revert p; induction l; intros; simpl; constructor; auto. Qed.

Lemma read_words_bytes ws rest :
  Forall is_u64 ws -> read_words (length ws) (words_bytes ws ++ rest) = ws.
Proof.
  induction 1 as [|w ws Hw _ IH]; [done|]. cbn [length read_words].
  unfold words_bytes in *. cbn [mbind list_bind]. rewrite <- app_assoc.
  rewrite take_app_length', drop_app_length' by (by rewrite be_put_length).
  by rewrite IH, be64_roundtrip.
Qed.

Lemma words_bytes_mod8 ws : (Z.land (Z.of_nat (length (words_bytes ws))) 7 =? 0) = true.
Proof.
  rewrite words_bytes_length. change 7 with (2 ^ 3 - 1). rewrite land_ones_mod by lia.
  replace (Z.of_nat (8 * length ws)) with (Z.of_nat (length ws) * 2 ^ 3) by lia.
  by rewrite Z.mod_mul by lia.
Qed.

Lemma progression_length f n acc : length (progression f n acc) = n.
Proof. revert acc; induction n; intros; simpl; auto. Qed.

Lemma progression_sums f n acc :
  progression f (S n) acc = acc :: sums (fun a _ => f a) acc (replicate n 0).
Proof.
  revert acc. induction n as [|n IH]; intros acc; [done|].
  change (progression f (S (S n)) acc) with (acc :: progression f (S n) (f acc)).
  by rewrite IH.
Qed.

Lemma progression_const f n acc : f acc = acc -> progression f n acc = replicate n acc.
Proof. intros H. induction n as [|n IH]; [done|]. simpl. rewrite H. by f_equal. Qed.

Lemma all_equal_replicate (x d : Z) l :
  all_equal_second (x :: d :: l) = true -> d :: l = replicate (S (length l)) d.
Proof.
  unfold all_equal_second. cbn [skipn]. rewrite ?drop_0. intros H. apply forallb_Forall in H.
  simpl. f_equal. apply Forall_eq_replicate. eapply Forall_impl; [exact H|].
  intros y Hy. simpl in Hy. by apply Z.eqb_eq in Hy.
Qed.

Lemma deltas_fit l : Forall is_u64 l -> max_list 0 l <= MaxValue -> fits l.
Proof.
  intros Hu Hm. apply max_list_bound in Hm as [_ Hm]. apply Forall_and. split; [|done].
  eapply Forall_impl; [exact Hu|]. unint. simpl. lia.
Qed.

End Codec.
