(* ===== verification/IntCodec.v ===== *)
(** * tsdb/engine/tsm1/batch_integer.go: the integer column codec

    [IntegerArrayEncodeAll] delta- and zig-zag-encodes a block of [int64]
    values and stores it run-length encoded, packed with simple8b or
    uncompressed; [IntegerArrayDecodeAll] reads it back.  The unsigned
    variants reinterpret the bits. *)
From S2P Require Import Prelude Simple8b Codec.
Import Simple8b Codec.

Module IntCodec.

Definition intUncompressed : Z := 0.
Definition intCompressedSimple : Z := 1.
Definition intCompressedRLE : Z := 2.

(** ** Encoding *)

(** [deltas[i] = ZigZagEncode(int64(deltas[i] - deltas[i-1]))]. *)
Definition int_delta (d : Z) : Z := ZigZagEncode (i64 (u64 d)).

Definition rle_bytes (enc : Z) (first delta count : Z) : list Z :=
  Z.shiftl enc 4 :: be_put 8 first ++ put_uvarint delta ++ put_uvarint count.

Definition IntegerArrayEncodeAll (src : list Z) (b : slice) : outcome slice :=
  if (length src =? 0)%nat then Ret (Slice [] 0)
  else
    (* reinterpretInt64ToUint64Slice *)
    let deltas := u64 <$> src in
    let '(deltas, max) := delta_loop int_delta (length deltas - 1) deltas 0 in
    let deltas := <[0%nat := ZigZagEncode (i64 (deltas !!! 0%nat))]> deltas in
    if (2 <? length deltas)%nat && all_equal_second deltas then
      let b := s_grow b 31 in
      let bytes := rle_bytes intCompressedRLE (deltas !!! 0%nat) (deltas !!! 1%nat)
                     (u64 (Z.of_nat (length deltas) - 1)) in
      Ret (s_to (s_put b bytes) (length bytes))
    else if MaxValue <? max then
      let sz := (1 + length deltas * 8)%nat in
      let b := s_grow b sz in
      Ret (s_to (s_put b (Z.shiftl intUncompressed 4 :: words_bytes deltas)) sz)
    else
      let! encoded := EncodeAll (drop 1 deltas) in
      let sz := (1 + (length encoded + 1) * 8)%nat in
      let b := s_grow b sz in
      (* b is returned without b[:sz] *)
      Ret (s_put b (Z.shiftl intCompressedSimple 4 :: be_put 8 (deltas !!! 0%nat) ++ words_bytes encoded)).

Definition UnsignedArrayEncodeAll (src : list Z) (b : slice) : outcome slice :=
  IntegerArrayEncodeAll (i64 <$> src) b.

(** ** Decoding *)

(** [prev += ZigZagDecode(v)]. *)
Definition int_step (prev v : Z) : Z := i64 (prev + ZigZagDecode v).

Definition integerBatchDecodeAllUncompressed (b0 : list Z) (dst : slice) : outcome (list Z) :=
  let b := drop 1 b0 in
  if negb (Z.land (Z.of_nat (length b)) 7 =? 0)
  then Fail "IntegerArrayDecodeAll: expected multiple of 8 bytes"
  else
    let count := (length b / 8)%nat in
    let! dst := make_dst dst (Z.of_nat count) in
    Ret (sums int_step 0 (read_words (length dst) b)).

Definition integerBatchDecodeAllSimple (b0 : list Z) (dst : slice) : outcome (list Z) :=
  let b := drop 1 b0 in
  if (length b <? 8)%nat then Fail "IntegerArrayDecodeAll: not enough data to decode packed value"
  else
    let! count := CountBytes (drop 8 b) in
    let count := count + 1 in
    let! dst := make_dst dst count in
    let first := ZigZagDecode (be_get (take 8 b)) in
    let! (buf, n) := DecodeBytesBigEndian (drop 1 dst) (drop 8 b) in
    if negb (Z.of_nat n =? count - 1)
    then Fail "IntegerArrayDecodeAll: unexpected number of values decoded"
    else Ret (first :: sums int_step first buf).

Definition integerBatchDecodeAllRLE (b0 : list Z) (dst : slice) : outcome (list Z) :=
  let b := drop 1 b0 in
  if (length b <? 8)%nat then Fail "IntegerArrayDecodeAll: not enough data to decode RLE starting value"
  else
    let first := ZigZagDecode (be_get (take 8 b)) in
    let '(value, n) := uvarint (drop 8 b) in
    if n <=? 0 then Fail "IntegerArrayDecodeAll: invalid RLE delta value"
    else
      let k := (8 + Z.to_nat n)%nat in
      let delta := ZigZagDecode value in
      let '(count, n) := uvarint (drop k b) in
      if n <=? 0 then Fail "IntegerArrayDecodeAll: invalid RLE repeat value"
      else
        let count := u64 (count + 1) in
        let! dst := make_dst dst count in
        if delta =? 0 then Ret ((fun _ => first) <$> dst)
        else Ret (progression (fun acc => i64 (acc + delta)) (length dst) first).

Definition integerBatchDecodeAllInvalid (b : list Z) (dst : slice) : outcome (list Z) :=
  Fail "unknown encoding".

Definition integerBatchDecoderFunc : list (list Z -> slice -> outcome (list Z)) :=
  [integerBatchDecodeAllUncompressed; integerBatchDecodeAllSimple;
   integerBatchDecodeAllRLE; integerBatchDecodeAllInvalid].

Definition IntegerArrayDecodeAll (b : list Z) (dst : slice) : outcome (list Z) :=
  match b with
  | [] => Ret []
  | b0 :: _ =>
      let encoding := Z.shiftr b0 4 in
      let encoding := if intCompressedRLE <? encoding then 3 else encoding in
      match integerBatchDecoderFunc !! Z.to_nat (Z.land encoding 3) with
      | Some f => f b dst
      | None => Panic
      end
  end.

Definition UnsignedArrayDecodeAll (b : list Z) (dst : slice) : outcome (list Z) :=
  let! res := IntegerArrayDecodeAll b dst in Ret (u64 <$> res).

(** ** The deltas of a block *)

(** The delta-encoded form of a block: the first value and the differences. *)
Definition int_deltas (src : list Z) : list Z :=
  match src with
  | [] => []
  | x :: l => ZigZagEncode x :: diffs int_delta x l
  end.

Lemma int_delta_congr d d' : u64 d = u64 d' -> int_delta d = int_delta d'.
Proof. unfold int_delta. by intros ->. Qed.

Lemma int_delta_range d : is_u64 (int_delta d).
Proof. apply ZigZagEncode_range, i64_range. Qed.

Lemma int_delta_loop x l :
  is_i64 x ->
  (let '(deltas, max) := delta_loop int_delta (length (u64 <$> (x :: l)) - 1) (u64 <$> (x :: l)) 0 in
   (<[0%nat := ZigZagEncode (i64 (deltas !!! 0%nat))]> deltas, max))
  = (int_deltas (x :: l), max_list 0 (diffs int_delta x l)).
Proof.
  intros Hx. rewrite fmap_cons.
  replace (length (u64 x :: (u64 <$> l)) - 1)%nat with (length (u64 <$> l)) by (simpl; lia).
  pose proof (delta_loop_spec int_delta (u64 x) (u64 <$> l) [] 0) as E.
  rewrite !app_nil_r in E. rewrite E.
  rewrite (diffs_u64 int_delta x l int_delta_congr). simpl.
  by rewrite i64_u64, i64_id.
Qed.

Lemma int_step_delta x y : is_i64 x -> is_i64 y -> int_step x (int_delta (y - x)) = y.
Proof.
  intros Hx Hy. unfold int_step, int_delta.
  rewrite ZigZagDecode_Encode by apply i64_range.
  rewrite <- (i64_id y) at 2 by done. i64_ring.
Qed.

Lemma int_deltas_sums x l :
  Forall is_i64 (x :: l) -> x :: sums int_step x (diffs int_delta x l) = x :: l.
Proof.
  intros H. apply Forall_cons_1 in H as [Hx Hl]. f_equal.
  apply (sums_diffs is_i64); [done..|]. intros. by apply int_step_delta.
Qed.

Lemma int_deltas_range src : Forall is_i64 src -> Forall is_u64 (int_deltas src).
Proof.
  destruct 1; [constructor|]. constructor; [by apply ZigZagEncode_range|].
  apply diffs_range, int_delta_range.
Qed.

(** ** Round trips of the three layouts *)

Lemma header_shift enc : 0 <= enc < 3 ->
  Z.shiftr (Z.shiftl enc 4) 4 = enc /\ Z.land enc 3 = enc.
Proof.
  intros. split; [by rewrite Z.shiftr_shiftl_l, Z.shiftl_0_r by lia|].
  change 3 with (2 ^ 2 - 1). rewrite land_ones_mod by lia. apply Z.mod_small. simpl; lia.
Qed.

(** The decoder dispatches on the high nibble of the first byte. *)
Lemma IntegerArrayDecodeAll_dispatch enc f l dst :
  0 <= enc < 3 -> integerBatchDecoderFunc !! Z.to_nat enc = Some f ->
  IntegerArrayDecodeAll (Z.shiftl enc 4 :: l) dst = f (Z.shiftl enc 4 :: l) dst.
Proof.
  intros He Hf. unfold IntegerArrayDecodeAll. destruct (header_shift enc He) as [-> E].
  unfold intCompressedRLE. destruct (Z.ltb_spec 2 enc); [lia|]. by rewrite E, Hf.
Qed.

Lemma decode_uncompressed h ws dst :
  Forall is_u64 ws -> Z.of_nat (length ws) < 2 ^ 62 ->
  integerBatchDecodeAllUncompressed (h :: words_bytes ws) dst = Ret (sums int_step 0 ws).
Proof.
  intros Hw Hl. unfold integerBatchDecodeAllUncompressed. cbn [skipn]. rewrite ?drop_0. rewrite words_bytes_mod8. cbn [negb].
  rewrite words_bytes_length, (Nat.mul_comm 8), Nat.div_mul by lia.
  destruct (make_dst_len dst (Z.of_nat (length ws)) ltac:(lia)) as (d & -> & Hd). cbn [obind].
  rewrite Hd, Nat2Z.id, <- (app_nil_r (words_bytes ws)), read_words_bytes by done. done.
Qed.

Lemma decode_simple h v ws dst :
  is_u64 v -> Forall is_u64 ws -> Z.of_nat (length (decode_words ws)) < 2 ^ 62 ->
  integerBatchDecodeAllSimple (h :: be_put 8 v ++ words_bytes ws) dst =
    Ret (ZigZagDecode v :: sums int_step (ZigZagDecode v) (decode_words ws)).
Proof.
  intros Hv Hw Hl. unfold integerBatchDecodeAllSimple. cbn [skipn]. rewrite ?drop_0.
  rewrite length_app, be_put_length. destruct (Nat.ltb_spec (8 + length (words_bytes ws)) 8); [lia|].
  rewrite take_app_length', drop_app_length' by (by rewrite be_put_length).
  rewrite CountBytes_words, be64_roundtrip by done. cbn [obind].
  destruct (make_dst_len dst (Z.of_nat (length (decode_words ws)) + 1) ltac:(lia)) as (d & -> & Hd).
  cbn [obind]. rewrite DecodeBytes_words by (done || (rewrite length_drop, Hd; lia)). cbn [obind].
  destruct (Z.eqb_spec (Z.of_nat (length (decode_words ws))) (Z.of_nat (length (decode_words ws)) + 1 - 1));
    [done|lia].
Qed.

Lemma rle_bytes_split enc first delta count :
  rle_bytes enc first delta count =
    Z.shiftl enc 4 :: (be_put 8 first ++ (put_uvarint delta ++ put_uvarint count)).
Proof. done. Qed.

Lemma decode_rle v d n dst :
  is_i64 (ZigZagDecode v) -> is_u64 v -> is_u64 d -> 0 <= n < 2 ^ 62 ->
  integerBatchDecodeAllRLE (rle_bytes intCompressedRLE v d n) dst =
    Ret (ZigZagDecode v :: sums int_step (ZigZagDecode v) (replicate (Z.to_nat n) d)).
Proof.
  intros Hf Hv Hd Hn. unfold integerBatchDecodeAllRLE. rewrite rle_bytes_split. cbn [skipn]. rewrite ?drop_0.
  rewrite length_app, be_put_length.
  destruct (Nat.ltb_spec (8 + length (put_uvarint d ++ put_uvarint n)) 8); [lia|].
  rewrite take_app_length', drop_app_length' by (by rewrite be_put_length).
  rewrite uvarint_put by done. pose proof (put_uvarint_pos d).
  destruct (Z.leb_spec (Z.of_nat (length (put_uvarint d))) 0); [lia|]. cbv zeta.
  rewrite Nat2Z.id, <- drop_drop, drop_app_length' by (by rewrite be_put_length).
  rewrite drop_app_length, <- (app_nil_r (put_uvarint n)), uvarint_put by (unint; lia).
  pose proof (put_uvarint_pos n).
  destruct (Z.leb_spec (Z.of_nat (length (put_uvarint n))) 0); [lia|].
  rewrite u64_id by (unint; lia). rewrite be64_roundtrip by done.
  destruct (make_dst_len dst (n + 1) ltac:(lia)) as (l & -> & Hl). cbn [obind].
  replace (Z.to_nat (n + 1)) with (S (Z.to_nat n)) in Hl by lia. rewrite sums_replicate.
  rewrite <- (progression_sums (fun a => int_step a d)).
  destruct (Z.eqb_spec (ZigZagDecode d) 0) as [E|E].
  - rewrite (const_fmap _ l (ZigZagDecode v)) by done.
    rewrite Hl. f_equal. rewrite progression_const; [done|].
    unfold int_step. rewrite E, Z.add_0_r. by apply i64_id.
  - by rewrite Hl.
Qed.

(** What a layout of the deltas [d0 :: ds] must decode to. *)
Definition decodes_to (bytes : list Z) (d0 : Z) (ds : list Z) : Prop :=
  forall dst, IntegerArrayDecodeAll bytes dst =
    Ret (ZigZagDecode d0 :: sums int_step (ZigZagDecode d0) ds).

Lemma int_layout_rle d0 ds :
  Forall is_u64 (d0 :: ds) -> Z.of_nat (length ds) < 2 ^ 62 ->
  (2 < length (d0 :: ds))%nat -> all_equal_second (d0 :: ds) = true ->
  decodes_to (rle_bytes intCompressedRLE d0 ((d0 :: ds) !!! 1%nat)
                (u64 (Z.of_nat (length (d0 :: ds)) - 1))) d0 ds.
Proof.
  intros Hu Hl H2 Ha dst. destruct ds as [|d ds]; [simpl in H2; lia|].
  apply Forall_cons_1 in Hu as [Hd0 Hu]. apply Forall_cons_1 in Hu as [Hd _].
  pose proof (all_equal_replicate _ _ _ Ha) as Erep. cbn [length] in *.
  rewrite u64_id by (unint; lia). unfold rle_bytes.
  rewrite IntegerArrayDecodeAll_dispatch with (f := integerBatchDecodeAllRLE) by done.
  fold (rle_bytes intCompressedRLE d0 ((d0 :: d :: ds) !!! 1%nat) (Z.of_nat (S (S (length ds))) - 1)).
  rewrite decode_rle; [|apply ZigZagDecode_range|done|done|lia].
  replace (Z.to_nat (Z.of_nat (S (S (length ds))) - 1)) with (S (length ds)) by lia.
  change ((d0 :: d :: ds) !!! 1%nat) with d. by rewrite <- Erep.
Qed.

Lemma int_layout_uncompressed d0 ds :
  Forall is_u64 (d0 :: ds) -> Z.of_nat (length ds) < 2 ^ 61 ->
  decodes_to (Z.shiftl intUncompressed 4 :: words_bytes (d0 :: ds)) d0 ds.
Proof.
  intros Hu Hl dst.
  rewrite IntegerArrayDecodeAll_dispatch with (f := integerBatchDecodeAllUncompressed) by done.
  rewrite decode_uncompressed by (done || (cbn [length]; lia)). cbn [sums].
  assert (E : int_step 0 d0 = ZigZagDecode d0).
  { unfold int_step. rewrite Z.add_0_l. apply i64_id, ZigZagDecode_range. }
  by rewrite E.
Qed.

Lemma int_layout_simple d0 ws :
  is_u64 d0 -> Forall is_u64 ws -> Z.of_nat (length (decode_words ws)) < 2 ^ 62 ->
  decodes_to (Z.shiftl intCompressedSimple 4 :: be_put 8 d0 ++ words_bytes ws) d0 (decode_words ws).
Proof.
  intros Hd Hw Hl dst.
  rewrite IntegerArrayDecodeAll_dispatch with (f := integerBatchDecodeAllSimple) by done.
  by apply decode_simple.
Qed.

(** The encoder picks one of the three layouts of the deltas. *)
Lemma IntegerArrayEncodeAll_layout x l b :
  Forall is_i64 (x :: l) -> Z.of_nat (length l) < 2 ^ 61 -> (s_len b <= 9)%nat ->
  exists out, IntegerArrayEncodeAll (x :: l) b = Ret out /\
    decodes_to (s_bytes out) (ZigZagEncode x) (diffs int_delta x l).
Proof.
  intros Hs Hlen Hb. pose proof (int_delta_loop x l ltac:(by inversion Hs)) as E.
  pose proof (int_deltas_range _ Hs) as Hr. unfold IntegerArrayEncodeAll. cbn [length Nat.eqb].
  destruct (delta_loop _ _ _ _) as [dl mx]. injection E as -> ->. cbn [int_deltas] in *.
  rewrite <- (diffs_length int_delta x l) in Hlen.
  set (d0 := ZigZagEncode x) in *. set (ds := diffs int_delta x l) in *.
  change ((d0 :: ds) !!! 0%nat) with d0.
  destruct ((2 <? length (d0 :: ds))%nat && all_equal_second (d0 :: ds)) eqn:R.
  - apply andb_true_iff in R as [R1 R2]. apply Nat.ltb_lt in R1.
    eexists. split; [reflexivity|]. rewrite s_put_to by done. apply int_layout_rle; [done|lia|done..].
  - destruct (Z.ltb_spec MaxValue (max_list 0 ds)).
    + eexists. split; [reflexivity|]. rewrite s_put_to; [by apply int_layout_uncompressed|].
      cbn [length]. rewrite words_bytes_length. cbn [length]. lia.
    + cbn [skipn]. rewrite drop_0. apply Forall_cons_1 in Hr as [Hd0 Hds].
      destruct (EncodeAll_good ds (deltas_fit ds Hds ltac:(lia))) as (ws & -> & Hw & Hdec).
      cbn [obind]. eexists. split; [reflexivity|].
      assert (L : (1 + (length ws + 1) * 8)%nat =
                  length (Z.shiftl intCompressedSimple 4 :: be_put 8 d0 ++ words_bytes ws)).
      { cbn [length]. rewrite length_app, be_put_length, words_bytes_length. lia. }
      rewrite L, s_put_grow_exact by lia. rewrite <- Hdec in Hlen |- *.
      apply int_layout_simple; [done..|lia].
Qed.

Lemma IntegerArray_decodes (src : list Z) (b dst : slice) :
  Forall is_i64 src -> Z.of_nat (length src) < 2 ^ 61 -> (s_len b <= 9)%nat ->
  exists out, IntegerArrayEncodeAll src b = Ret out /\
    IntegerArrayDecodeAll (s_bytes out) dst = Ret src.
Proof.
  intros Hs Hlen Hb. destruct src as [|x l]; [by eexists|]. cbn [length] in Hlen.
  destruct (IntegerArrayEncodeAll_layout x l b Hs ltac:(lia) Hb) as (out & E & D).
  exists out. split; [done|]. rewrite D, ZigZagDecode_Encode by (by inversion Hs).
  by rewrite int_deltas_sums.
Qed.

(** Whatever layout the encoder chooses (run-length, simple8b or
    uncompressed), decoding an encoded block of [int64] values returns the
    values, provided the scratch slice passed in is no longer than the
    shortest packed block (nine bytes). *)
Theorem IntegerArray_roundtrip (src : list Z) (b dst : slice) :
  Forall is_i64 src -> Z.of_nat (length src) < 2 ^ 61 -> (s_len b <= 9)%nat ->
  exists out, IntegerArrayEncodeAll src b = Ret out /\
    IntegerArrayDecodeAll (s_bytes out) dst = Ret src.
Proof. apply IntegerArray_decodes. Qed.

Lemma IntegerArray_roundtrip_witness :
  exists out, IntegerArrayEncodeAll [10; -3; 2 ^ 62; 7] (Slice [] 0) = Ret out /\
    IntegerArrayDecodeAll (s_bytes out) (Slice [0; 0] 2) = Ret [10; -3; 2 ^ 62; 7].
Proof.
  apply IntegerArray_roundtrip; [|vm_compute; reflexivity|vm_compute; lia].
  repeat constructor; vm_compute; congruence.
Defined.

(** The unsigned codec returns the values encoded, over all of [uint64]. *)
Theorem UnsignedArray_roundtrip (src : list Z) (b dst : slice) :
  Forall is_u64 src -> Z.of_nat (length src) < 2 ^ 61 -> (s_len b <= 9)%nat ->
  exists out, UnsignedArrayEncodeAll src b = Ret out /\
    UnsignedArrayDecodeAll (s_bytes out) dst = Ret src.
Proof.
  intros Hs Hlen Hb. unfold UnsignedArrayEncodeAll, UnsignedArrayDecodeAll.
  pose proof (u64_i64_list src Hs) as Hback.
  assert (Hi : Forall is_i64 (i64 <$> src)) by (apply Forall_fmap, Forall_true; intros; apply i64_range).
  rewrite <- (length_fmap i64) in Hlen. destruct (i64 <$> src) as [|x l] eqn:Ei.
  { exists (Slice [] 0). by rewrite <- Hback. }
  cbn [length] in Hlen.
  destruct (IntegerArrayEncodeAll_layout x l b Hi ltac:(lia) Hb) as (out & E & D).
  exists out. split; [done|]. rewrite D, ZigZagDecode_Encode by (by inversion Hi).
  rewrite int_deltas_sums by done. cbn [obind]. by rewrite Hback.
Qed.

Lemma UnsignedArray_roundtrip_witness :
  exists out, UnsignedArrayEncodeAll [2 ^ 64 - 1; 0; 5] (Slice [] 0) = Ret out /\
    UnsignedArrayDecodeAll (s_bytes out) (Slice [] 0) = Ret [2 ^ 64 - 1; 0; 5].
Proof.
  apply UnsignedArray_roundtrip; [|vm_compute; reflexivity|vm_compute; lia].
  repeat constructor; vm_compute; congruence.
Defined.

(** ** Corrupt and oversized inputs *)

(** The decoder never panics on arbitrary bytes whose header does not
    select the run-length layout: it returns values or an error. *)
Theorem IntegerArrayDecodeAll_no_panic (b : list Z) (dst : slice) :
  Forall is_byte b -> Z.of_nat (length b) < 2 ^ 50 ->
  (forall b0 l, b = b0 :: l -> Z.shiftr b0 4 <> intCompressedRLE) ->
  IntegerArrayDecodeAll b dst <> Panic.
Proof.
  intros Hb Hl Hh. destruct b as [|b0 l]; [done|]. specialize (Hh b0 l eq_refl).
  unfold IntegerArrayDecodeAll. apply Forall_cons_1 in Hb as [Hb0 Hb]. cbn [length] in Hl.
  assert (H16 : 0 <= Z.shiftr b0 4 < 16).
  { unint. rewrite Z.shiftr_div_pow2 by lia.
    split; [apply Z.div_pos; lia|apply Z.div_lt_upper_bound; lia]. }
  unfold intCompressedRLE in *. destruct (Z.ltb_spec 2 (Z.shiftr b0 4)); [done|].
  assert (Z.shiftr b0 4 = 0 \/ Z.shiftr b0 4 = 1) as [->| ->] by lia; cbn [lookup list_lookup].
  - change (integerBatchDecodeAllUncompressed (b0 :: l) dst <> Panic).
    unfold integerBatchDecodeAllUncompressed. destruct (negb _); [done|].
    cbn [skipn]. rewrite drop_0.
    destruct (make_dst_len dst (Z.of_nat (length l / 8))) as (d & -> & _); [|done].
    pose proof (Nat.Div0.div_le_upper_bound (length l) 8 (length l) ltac:(lia)). lia.
  - change (integerBatchDecodeAllSimple (b0 :: l) dst <> Panic).
    unfold integerBatchDecodeAllSimple. cbn [skipn]. rewrite drop_0.
    destruct (Nat.ltb_spec (length l) 8); [done|].
    destruct (CountBytes_inv (drop 8 l)) as [(ws & E & Hw & ->)| ->];
      [by apply Forall_drop| |done]. cbn [obind]. rewrite E.
    assert (Hc : (length (decode_words ws) <= 240 * length ws)%nat) by (by apply decode_words_length).
    apply (f_equal length) in E. rewrite length_drop, words_bytes_length in E.
    destruct (make_dst_len dst (Z.of_nat (length (decode_words ws)) + 1)) as (d & -> & Hd); [lia|].
    cbn [obind]. rewrite DecodeBytes_words by (done || (rewrite length_drop, Hd; lia)).
    cbn [obind]. by destruct (negb _).
Qed.

Lemma IntegerArrayDecodeAll_no_panic_witness :
  IntegerArrayDecodeAll [16; 1; 2; 3] (Slice [] 0) <> Panic.
Proof.
  apply IntegerArrayDecodeAll_no_panic; [|vm_compute; reflexivity|].
  - repeat constructor; vm_compute; congruence.
  - intros b0 l [= <- <-]. vm_compute. discriminate.
Defined.

(** A corrupt run-length block whose repeat count does not fit in an
    [int] panics instead of returning an error. *)
Theorem IntegerArrayDecodeAll_rle_panic (first delta : Z) (dst : slice) :
  is_u64 first -> is_u64 delta -> Z.of_nat (s_cap dst) < 2 ^ 63 ->
  IntegerArrayDecodeAll (rle_bytes intCompressedRLE first delta (2 ^ 63)) dst = Panic.
Proof.
  intros Hf Hd Hc. unfold rle_bytes.
  rewrite IntegerArrayDecodeAll_dispatch with (f := integerBatchDecodeAllRLE) by done.
  unfold integerBatchDecodeAllRLE. cbn [skipn]. rewrite drop_0, length_app, be_put_length.
  destruct (Nat.ltb_spec (8 + length (put_uvarint delta ++ put_uvarint (2 ^ 63))) 8); [lia|].
  rewrite drop_app_length' by (by rewrite be_put_length). rewrite uvarint_put by done.
  pose proof (put_uvarint_pos delta).
  destruct (Z.leb_spec (Z.of_nat (length (put_uvarint delta))) 0); [lia|]. cbv zeta.
  rewrite Nat2Z.id, <- drop_drop, drop_app_length' by (by rewrite be_put_length).
  rewrite drop_app_length. change (uvarint (put_uvarint (2 ^ 63))) with (2 ^ 63, 10). cbn iota.
  change (10 <=? 0) with false. cbn iota. unfold make_dst.
  change (i64 (u64 (2 ^ 63 + 1))) with (- 2 ^ 63 + 1). change (u64 (2 ^ 63 + 1)) with (2 ^ 63 + 1).
  destruct (Z.ltb_spec (Z.of_nat (s_cap dst)) (- 2 ^ 63 + 1)); [lia|].
  by destruct (Z.leb_spec (2 ^ 63 + 1) (Z.of_nat (s_cap dst))); [lia|].
Qed.

Lemma IntegerArrayDecodeAll_rle_panic_witness :
  IntegerArrayDecodeAll (rle_bytes intCompressedRLE 0 2 (2 ^ 63)) (Slice [] 0) = Panic.
Proof.
  apply IntegerArrayDecodeAll_rle_panic; vm_compute; try reflexivity; split; congruence.
Defined.

(** With a scratch slice longer than the packed block, the encoder returns
    stale trailing bytes: here two encoded values decode to 242. *)
Theorem IntegerArrayEncodeAll_stale_tail :
  exists out l, IntegerArrayEncodeAll [1; 5] (Slice (replicate 25 0) 25) = Ret out /\
    IntegerArrayDecodeAll (s_bytes out) (Slice [] 0) = Ret l /\ length l = 242%nat.
Proof. do 2 eexists. split; [vm_compute; reflexivity|]. split; vm_compute; reflexivity. Qed.
End IntCodec.
