(* ===== verification/TimeCodec.v ===== *)
(** * tsdb/engine/tsm1/batch_timestamp.go: the timestamp column codec

    [TimeArrayEncodeAll] delta-encodes a block of timestamps, scales the
    deltas by the largest power of ten (up to 10^12) dividing them all, and
    stores them run-length encoded, packed with simple8b or uncompressed. *)
From S2P Require Import Prelude Simple8b Simple8bStream Codec.
Import Simple8b Codec.

Module TimeCodec.

Definition timeUncompressed : Z := 0.
Definition timeCompressedPackedSimple : Z := 1.
Definition timeCompressedRLE : Z := 2.

(** ** Scaling *)

(** [byte(math.Log10(float64(div)))] and [uint64(math.Pow10(n))]; exact on the
    powers of ten the codec uses (0 to 10^15). *)
Fixpoint log10_fuel (fuel : nat) (d : Z) : Z :=
  match fuel with
  | O => 0
  | S f => if d <? 10 then 0 else 1 + log10_fuel f (d / 10)
  end.
Definition Log10 (d : Z) : Z := log10_fuel 20 d.
Definition Pow10 (n : Z) : Z := 10 ^ n.

(** [for div > 1 && v%div != 0 { div /= 10 }]; from 10^12 twelve rounds reach 1. *)
Fixpoint reduce_div (fuel : nat) (v div : Z) : Z :=
  match fuel with
  | O => div
  | S f => if (1 <? div) && negb (v mod div =? 0) then reduce_div f v (div / 10) else div
  end.

(** [for i := 1; i < len(deltas) && div > 1; i++ { ... }]. *)
Fixpoint find_div (deltas : list Z) (div : Z) : Z :=
  match deltas with
  | [] => div
  | v :: deltas' => if 1 <? div then find_div deltas' (reduce_div 13 v div) else div
  end.

Definition time_header (enc div : Z) : Z := Z.lor (Z.shiftl enc 4) (Log10 div).

(** ** Encoding *)

Definition time_rle_bytes (header first delta count : Z) : list Z :=
  header :: be_put 8 first ++ put_uvarint delta ++ put_uvarint count.

(** The branch taken when all the deltas are the same. *)
Definition encode_rle (deltas : list Z) (b : slice) : slice :=
  let b := s_grow b 31 in
  let v := deltas !!! 1%nat in
  let div := reduce_div 13 v (10 ^ 12) in
  let header := if 1 <? div then time_header timeCompressedRLE div else Z.shiftl timeCompressedRLE 4 in
  let delta := if 1 <? div then v / div else v in
  let bytes := time_rle_bytes header (deltas !!! 0%nat) delta (u64 (Z.of_nat (length deltas))) in
  s_to (s_put b bytes) (length bytes).

Definition TimeArrayEncodeAll (src : list Z) (b : slice) : outcome slice :=
  if (length src =? 0)%nat then Ret (Slice [] 0)
  else
    (* reinterpretInt64ToUint64Slice; the loops run for len(deltas) > 1 *)
    let deltas := u64 <$> src in
    let '(deltas, max) := delta_loop u64 (length deltas - 1) deltas 0 in
    if (1 <? length deltas)%nat && all_equal_second deltas then Ret (encode_rle deltas b)
    else if MaxValue <? max then
      let sz := (1 + length deltas * 8)%nat in
      let b := s_grow b sz in
      Ret (s_to (s_put b (Z.shiftl timeUncompressed 4 :: words_bytes deltas)) sz)
    else
      let div := find_div (drop 1 deltas) (10 ^ 12) in
      let scaled := if 1 <? div then (fun d => d / div) <$> drop 1 deltas else drop 1 deltas in
      let! encoded := EncodeAll scaled in
      let sz := (1 + (length encoded + 1) * 8)%nat in
      let b := s_grow b sz in
      Ret (s_to (s_put b (time_header timeCompressedPackedSimple div
                            :: be_put 8 (deltas !!! 0%nat) ++ words_bytes encoded)) sz).

(** ** Decoding *)

(** [prev += delta] on [uint64]. *)
Definition time_step (prev d : Z) : Z := u64 (prev + d).

Definition timeBatchDecodeAllUncompressed (b0 : list Z) (dst : slice) : outcome (list Z) :=
  let b := drop 1 b0 in
  if negb (Z.land (Z.of_nat (length b)) 7 =? 0)
  then Fail "TimeArrayDecodeAll: expected multiple of 8 bytes"
  else
    let count := (length b / 8)%nat in
    let! dst := make_dst dst (Z.of_nat count) in
    Ret (i64 <$> sums time_step 0 (read_words (length dst) b)).

Definition timeBatchDecodeAllSimple (b : list Z) (dst : slice) : outcome (list Z) :=
  if (length b <? 9)%nat
  then Fail "TimeArrayDecodeAll: not enough data to decode packed timestamps"
  else
    let div := Pow10 (Z.land (b !!! 0%nat) 15) in
    let! count := CountBytes (drop 9 b) in
    let count := count + 1 in
    let! dst := make_dst dst count in
    let first := be_get (take 8 (drop 1 b)) in
    let! (buf, n) := DecodeBytesBigEndian (drop 1 dst) (drop 9 b) in
    if negb (Z.of_nat n =? count - 1)
    then Fail "TimeArrayDecodeAll: unexpected number of values decoded"
    else
      let step := if 1 <? div then fun last d => time_step last (u64 (d * div)) else time_step in
      Ret (i64 <$> first :: sums step first buf).

Definition timeBatchDecodeAllRLE (b : list Z) (dst : slice) : outcome (list Z) :=
  if (length b <? 9)%nat
  then Fail "TimeArrayDecodeAll: not enough data to decode RLE starting value"
  else
    let mod_ := Pow10 (Z.land (b !!! 0%nat) 15) in
    let first := be_get (take 8 (drop 1 b)) in
    let '(delta, n) := uvarint (drop 9 b) in
    if n <=? 0 then Fail "TimeArrayDecodeAll: invalid run length in decodeRLE"
    else
      let k := (9 + Z.to_nat n)%nat in
      let delta := u64 (delta * u64 mod_) in
      let '(count, n) := uvarint (drop k b) in
      if n <=? 0 then Fail "TimeDecoder: invalid repeat value in decodeRLE"
      else
        let! dst := make_dst dst count in
        Ret (i64 <$> progression (fun acc => u64 (acc + delta)) (length dst) first).

Definition timeBatchDecodeAllInvalid (b : list Z) (dst : slice) : outcome (list Z) :=
  Fail "unknown encoding".

Definition timeBatchDecoderFunc : list (list Z -> slice -> outcome (list Z)) :=
  [timeBatchDecodeAllUncompressed; timeBatchDecodeAllSimple;
   timeBatchDecodeAllRLE; timeBatchDecodeAllInvalid].

Definition TimeArrayDecodeAll (b : list Z) (dst : slice) : outcome (list Z) :=
  match b with
  | [] => Ret []
  | b0 :: _ =>
      let encoding := Z.shiftr b0 4 in
      let encoding := if timeCompressedRLE <? encoding then 3 else encoding in
      match timeBatchDecoderFunc !! Z.to_nat (Z.land encoding 3) with
      | Some f => f b dst
      | None => Panic
      end
  end.

(** ** The divisor *)

(** A divisor the codec may use for the deltas [l]. *)
Definition scale (div : Z) (l : list Z) : Prop :=
  exists k, 0 <= k <= 12 /\ div = 10 ^ k /\ Forall (fun v => v mod div = 0) l.

Lemma reduce_div_spec fuel v k :
  0 <= k -> k < Z.of_nat fuel ->
  exists k', 0 <= k' <= k /\ reduce_div fuel v (10 ^ k) = 10 ^ k' /\ v mod 10 ^ k' = 0.
Proof.
  revert k. induction fuel as [|f IH]; intros k Hk Hf; [lia|]. cbn [reduce_div].
  destruct (Z.ltb_spec 1 (10 ^ k)) as [H1|H1].
  - destruct (Z.eqb_spec (v mod 10 ^ k) 0) as [H0|H0]; [by exists k|]. cbn [andb negb].
    assert (k <> 0) by (intros ->; simpl in H1; lia).
    replace (10 ^ k / 10) with (10 ^ (k - 1)).
    2: { replace k with (1 + (k - 1)) at 2 by lia. rewrite Z.pow_add_r, Z.mul_comm by lia.
         change (10 ^ 1) with 10. by rewrite Z.div_mul by lia. }
    destruct (IH (k - 1)) as (k' & Hk' & E & H'); [lia..|]. exists k'. split_and!; [lia..|done|done].
  - assert (k = 0) as ->.
    { destruct (Z.eq_dec k 0) as [|Hn]; [done|]. pose proof (Z.pow_le_mono_r 10 1 k). lia. }
    exists 0. split_and!; [lia..|done|]. simpl. apply Z.mod_1_r.
Qed.

Lemma mod_pow10_weaken v k k' : 0 <= k' <= k -> v mod 10 ^ k = 0 -> v mod 10 ^ k' = 0.
Proof.
  intros Hk H. apply Z.mod_divide in H; [|apply Z.pow_nonzero; lia].
  apply Z.mod_divide; [apply Z.pow_nonzero; lia|]. etrans; [|exact H].
  exists (10 ^ (k - k')). rewrite <- Z.pow_add_r by lia. f_equal. lia.
Qed.

Lemma find_div_spec l k :
  0 <= k <= 12 ->
  exists k', 0 <= k' <= k /\ find_div l (10 ^ k) = 10 ^ k' /\ Forall (fun v => v mod 10 ^ k' = 0) l.
Proof.
  revert k. induction l as [|v l IH]; intros k Hk; cbn [find_div].
  - exists k. split_and!; [lia..|done|constructor].
  - destruct (Z.ltb_spec 1 (10 ^ k)) as [H1|H1].
    + destruct (reduce_div_spec 13 v k ltac:(lia) ltac:(lia)) as (k1 & Hk1 & -> & Hv).
      destruct (IH k1 ltac:(lia)) as (k2 & Hk2 & E & Hl). exists k2. split_and!; [lia..|done|].
      constructor; [by apply (mod_pow10_weaken v k1 k2)|done].
    + exists k. assert (k = 0) as ->.
      { destruct (Z.eq_dec k 0) as [|Hn]; [done|]. pose proof (Z.pow_le_mono_r 10 1 k). lia. }
      split_and!; [lia..|done|]. apply Forall_true. intros x. apply Z.mod_1_r.
Qed.

Lemma find_div_scale l : scale (find_div l (10 ^ 12)) l.
Proof.
  destruct (find_div_spec l 12 ltac:(lia)) as (k & Hk & E & H).
  exists k. rewrite E. by split_and!; [lia..| |].
Qed.

Lemma Log10_Pow10 k : 0 <= k <= 12 -> Pow10 (Log10 (10 ^ k)) = 10 ^ k /\ 0 <= Log10 (10 ^ k) < 16.
Proof.
  intros Hk. assert (exists n, (n < 13)%nat /\ k = Z.of_nat n) as (n & Hn & ->).
  { exists (Z.to_nat k). lia. }
  do 13 (destruct n as [|n]; [vm_compute; split; [done|by split]|]). lia.
Qed.

(** Header bytes split back into the encoding and the exponent. *)
Lemma time_header_split enc k :
  0 <= k < 16 -> Z.shiftr (Z.lor (Z.shiftl enc 4) k) 4 = enc /\ Z.land (Z.lor (Z.shiftl enc 4) k) 15 = k.
Proof.
  intros Hk. rewrite Z.lor_comm, lor_shiftl_add by (simpl; lia). change (2 ^ 4) with 16. split.
  - rewrite Z.shiftr_div_pow2, Z.div_add, Z.div_small by (simpl; lia). done.
  - change 15 with (2 ^ 4 - 1). rewrite land_ones_mod, Z.mod_add, Z.mod_small by (simpl; lia). done.
Qed.

(** Scaling the deltas down and back up is exact. *)
Lemma sums_scaled div p l :
  scale div l -> Forall is_u64 l ->
  sums (fun last d => time_step last (u64 (d * div))) p ((fun d => d / div) <$> l) = sums time_step p l.
Proof.
  intros (k & Hk & -> & Hd) Hu. revert p. induction l as [|d l IH]; intros p; [done|].
  apply Forall_cons_1 in Hd as [Hd Hds]. apply Forall_cons_1 in Hu as [Hu Hus].
  assert (0 < 10 ^ k) by (apply Z.pow_pos_nonneg; lia).
  cbn [fmap list_fmap sums]. rewrite (Z.mul_comm (d / 10 ^ k)).
  rewrite <- (Z_div_exact_full_2 d (10 ^ k)) by lia. rewrite (u64_id d) by done.
  by rewrite IH.
Qed.

Lemma scaled_fits div l : scale div l -> fits l -> fits ((fun d => d / div) <$> l).
Proof.
  intros (k & Hk & -> & _) Hf. apply Forall_fmap. eapply Forall_impl; [exact Hf|].
  intros x Hx. simpl in *. assert (0 < 10 ^ k) by (apply Z.pow_pos_nonneg; lia).
  split; [apply Z.div_pos; lia|]. pose proof (Z.div_le_upper_bound x (10 ^ k) x). nia.
Qed.

(** ** Round trip of each layout *)

Definition decodes_to (bytes : list Z) (d0 : Z) (ds : list Z) : Prop :=
  forall dst, TimeArrayDecodeAll bytes dst = Ret (i64 <$> d0 :: sums time_step d0 ds).

Lemma TimeArrayDecodeAll_dispatch enc k f l dst :
  0 <= enc < 3 -> 0 <= k < 16 -> timeBatchDecoderFunc !! Z.to_nat enc = Some f ->
  TimeArrayDecodeAll (Z.lor (Z.shiftl enc 4) k :: l) dst = f (Z.lor (Z.shiftl enc 4) k :: l) dst.
Proof.
  intros He Hk Hf. unfold TimeArrayDecodeAll. destruct (time_header_split enc k Hk) as [-> _].
  unfold timeCompressedRLE. destruct (Z.ltb_spec 2 enc); [lia|].
  replace (Z.land enc 3) with enc; [by rewrite Hf|].
  change 3 with (2 ^ 2 - 1). rewrite land_ones_mod by lia. symmetry. apply Z.mod_small. simpl; lia.
Qed.

Lemma time_layout_uncompressed d0 ds :
  Forall is_u64 (d0 :: ds) -> Z.of_nat (length ds) < 2 ^ 61 ->
  decodes_to (Z.shiftl timeUncompressed 4 :: words_bytes (d0 :: ds)) d0 ds.
Proof.
  intros Hu Hl dst. change (Z.shiftl timeUncompressed 4) with (Z.lor (Z.shiftl 0 4) 0).
  rewrite TimeArrayDecodeAll_dispatch with (f := timeBatchDecodeAllUncompressed) by (done || lia).
  unfold timeBatchDecodeAllUncompressed. cbn [skipn]. rewrite drop_0, words_bytes_mod8. cbn [negb].
  rewrite words_bytes_length, (Nat.mul_comm 8), Nat.div_mul by lia.
  destruct (make_dst_len dst (Z.of_nat (length (d0 :: ds)))) as (d & -> & Hd); [cbn [length]; lia|].
  cbn [obind]. rewrite Hd, Nat2Z.id, <- (app_nil_r (words_bytes _)), read_words_bytes by done.
  assert (S0 : time_step 0 d0 = d0) by (unfold time_step; rewrite Z.add_0_l; apply u64_id; by inversion Hu).
  cbn [sums]. by rewrite S0.
Qed.

(** The first byte and the first eight data bytes of a packed block. *)
Lemma block_prefix h v rest :
  is_u64 v ->
  (h :: be_put 8 v ++ rest) !!! 0%nat = h /\
  be_get (take 8 (drop 1 (h :: be_put 8 v ++ rest))) = v /\
  drop 9 (h :: be_put 8 v ++ rest) = rest /\ (9 <= length (h :: be_put 8 v ++ rest))%nat.
Proof.
  intros Hv. split_and!; [done|..].
  - change (drop 1 (h :: be_put 8 v ++ rest)) with (drop 0 (be_put 8 v ++ rest)). rewrite drop_0.
    rewrite take_app_length' by (by rewrite be_put_length). by apply be64_roundtrip.
  - change (drop 9 (h :: be_put 8 v ++ rest)) with (drop 8 (be_put 8 v ++ rest)).
    apply drop_app_length'. by rewrite be_put_length.
  - cbn [length]. rewrite length_app, be_put_length. lia.
Qed.

Lemma time_layout_simple d0 ds div ws :
  is_u64 d0 -> Forall is_u64 ds -> scale div ds -> Forall is_u64 ws ->
  decode_words ws = (if 1 <? div then (fun d => d / div) <$> ds else ds) ->
  Z.of_nat (length ds) < 2 ^ 61 ->
  decodes_to (time_header timeCompressedPackedSimple div :: be_put 8 d0 ++ words_bytes ws) d0 ds.
Proof.
  intros Hd Hds Hs Hw Hdec Hl dst. pose proof Hs as (k & Hk & Ediv & _).
  destruct (Log10_Pow10 k Hk) as [Hpow Hlog]. rewrite <- Ediv in Hpow, Hlog.
  destruct (block_prefix (time_header timeCompressedPackedSimple div) d0 (words_bytes ws) Hd)
    as (H0 & H1 & H9 & HL).
  unfold time_header in *.
  rewrite TimeArrayDecodeAll_dispatch with (f := timeBatchDecodeAllSimple) by (done || lia).
  unfold timeBatchDecodeAllSimple. rewrite H0, H1, H9.
  destruct (time_header_split timeCompressedPackedSimple (Log10 div) Hlog) as [_ ->].
  destruct (Nat.ltb_spec (length (Z.lor (Z.shiftl timeCompressedPackedSimple 4) (Log10 div)
                                    :: be_put 8 d0 ++ words_bytes ws)) 9); [lia|].
  rewrite CountBytes_words by done. cbn [obind].
  assert (L : length (decode_words ws) = length ds).
  { rewrite Hdec. destruct (1 <? div); [apply length_fmap|done]. }
  destruct (make_dst_len dst (Z.of_nat (length (decode_words ws)) + 1)) as (d & -> & Hd'); [lia|].
  cbn [obind]. rewrite DecodeBytes_words by (done || (rewrite length_drop, Hd'; lia)). cbn [obind].
  rewrite L, Z.add_simpl_r, Z.eqb_refl. cbn [negb]. rewrite Hpow, Hdec.
  destruct (1 <? div); [|done]. by rewrite sums_scaled.
Qed.

(** The header and the scaled delta of a run-length block multiply back to
    the delta. *)
Lemma rle_scale d :
  is_u64 d ->
  let div := reduce_div 13 d (10 ^ 12) in
  exists h q,
    (if 1 <? div then time_header timeCompressedRLE div else Z.shiftl timeCompressedRLE 4)
      = Z.lor (Z.shiftl timeCompressedRLE 4) h /\
    0 <= h < 16 /\ (if 1 <? div then d / div else d) = q /\ is_u64 q /\
    u64 (q * u64 (Pow10 h)) = d.
Proof.
  intros Hd div. unfold div.
  destruct (reduce_div_spec 13 d 12 ltac:(lia) ltac:(lia)) as (k & Hk & -> & Hm).
  destruct (Log10_Pow10 k Hk) as [Hpow Hlog]. assert (0 < 10 ^ k) by (apply Z.pow_pos_nonneg; lia).
  destruct (Z.ltb_spec 1 (10 ^ k)).
  - exists (Log10 (10 ^ k)), (d / 10 ^ k). split_and!; [done|lia|lia|done| |].
    + unint. split; [apply Z.div_pos; lia|]. pose proof (Z.div_le_upper_bound d (10 ^ k) d). nia.
    + rewrite Hpow, u64_mul_r, Z.mul_comm, <- Z_div_exact_full_2 by lia. by apply u64_id.
  - exists 0, d. split_and!; [by rewrite Z.lor_0_r|lia|lia|done|done|].
    change (u64 (Pow10 0)) with 1. rewrite Z.mul_1_r. by apply u64_id.
Qed.

Lemma time_layout_rle d0 ds b :
  Forall is_u64 (d0 :: ds) -> Z.of_nat (length ds) < 2 ^ 61 ->
  (1 < length (d0 :: ds))%nat -> all_equal_second (d0 :: ds) = true ->
  decodes_to (s_bytes (encode_rle (d0 :: ds) b)) d0 ds.
Proof.
  intros Hu Hl H2 Ha dst. destruct ds as [|d ds]; [simpl in H2; lia|].
  apply Forall_cons_1 in Hu as [Hd0 Hu]. apply Forall_cons_1 in Hu as [Hd _].
  pose proof (all_equal_replicate _ _ _ Ha) as Erep.
  unfold encode_rle. change ((d0 :: d :: ds) !!! 0%nat) with d0. change ((d0 :: d :: ds) !!! 1%nat) with d.
  rewrite s_put_to by done. cbn [length] in *. rewrite (u64_id (Z.of_nat _)) by (unint; lia).
  destruct (rle_scale d Hd) as (h & q & -> & Hh & -> & Hq & Eq).
  unfold time_rle_bytes. rewrite TimeArrayDecodeAll_dispatch with (f := timeBatchDecodeAllRLE) by done.
  destruct (block_prefix (Z.lor (Z.shiftl timeCompressedRLE 4) h) d0
              (put_uvarint q ++ put_uvarint (Z.of_nat (S (S (length ds))))) Hd0) as (H0 & H1 & H9 & HL).
  unfold timeBatchDecodeAllRLE. rewrite H0, H1.
  destruct (Nat.ltb_spec (length (Z.lor (Z.shiftl timeCompressedRLE 4) h :: be_put 8 d0 ++
              put_uvarint q ++ put_uvarint (Z.of_nat (S (S (length ds)))))) 9); [lia|].
  rewrite H9. destruct (time_header_split timeCompressedRLE h Hh) as [_ ->].
  rewrite uvarint_put by done. pose proof (put_uvarint_pos q).
  destruct (Z.leb_spec (Z.of_nat (length (put_uvarint q))) 0); [lia|].
  cbv zeta. rewrite Nat2Z.id, <- drop_drop, H9, drop_app_length.
  rewrite <- (app_nil_r (put_uvarint (Z.of_nat _))), uvarint_put by (unint; lia).
  pose proof (put_uvarint_pos (Z.of_nat (S (S (length ds))))).
  destruct (Z.leb_spec (Z.of_nat (length (put_uvarint (Z.of_nat (S (S (length ds))))))) 0); [lia|].
  destruct (make_dst_len dst (Z.of_nat (S (S (length ds))))) as (l & -> & Hl'); [lia|].
  cbn [obind]. rewrite Hl', Nat2Z.id, Eq, progression_sums, Erep, (sums_replicate time_step). done.
Qed.

Lemma time_deltas_sums x l : is_u64 x -> Forall is_u64 l -> sums time_step x (diffs u64 x l) = l.
Proof.
  intros Hx Hl. apply (sums_diffs is_u64); [done..|]. intros a c Ha Hc. unfold time_step.
  rewrite <- (u64_id c) at 2 by done. autorewrite with word. f_equal. ring.
Qed.

(** The encoder picks one of the three layouts of the deltas. *)
Lemma TimeArrayEncodeAll_layout x l b :
  Z.of_nat (length l) < 2 ^ 60 ->
  exists out, TimeArrayEncodeAll (x :: l) b = Ret out /\
    decodes_to (s_bytes out) (u64 x) (diffs u64 (u64 x) (u64 <$> l)).
Proof.
  intros Hlen. unfold TimeArrayEncodeAll. cbn [length Nat.eqb]. rewrite fmap_cons.
  replace (length (u64 x :: (u64 <$> l)) - 1)%nat with (length (u64 <$> l)) by (simpl; lia).
  pose proof (delta_loop_spec u64 (u64 x) (u64 <$> l) [] 0) as E. rewrite !app_nil_r in E. rewrite E.
  pose proof (diffs_range u64 (u64 x) (u64 <$> l) u64_range) as Hr.
  assert (Hl : Z.of_nat (length (diffs u64 (u64 x) (u64 <$> l))) < 2 ^ 61)
    by (rewrite diffs_length, length_fmap; lia).
  set (d0 := u64 x) in *. set (ds := diffs u64 d0 (u64 <$> l)) in *.
  assert (Hd0 : is_u64 d0) by apply u64_range. change ((d0 :: ds) !!! 0%nat) with d0.
  destruct ((1 <? length (d0 :: ds))%nat && all_equal_second (d0 :: ds)) eqn:R.
  - apply andb_true_iff in R as [R1 R2]. apply Nat.ltb_lt in R1.
    eexists. split; [reflexivity|]. apply time_layout_rle; [by constructor|done..].
  - destruct (Z.ltb_spec MaxValue (max_list 0 ds)).
    + eexists. split; [reflexivity|]. rewrite s_put_to; [apply time_layout_uncompressed; [by constructor|done]|].
      cbn [length]. rewrite words_bytes_length. cbn [length]. lia.
    + cbn [skipn]. rewrite drop_0. pose proof (deltas_fit ds Hr ltac:(lia)) as Hf.
      pose proof (find_div_scale ds) as Hsc. set (div := find_div ds (10 ^ 12)) in *.
      destruct (EncodeAll_good (if 1 <? div then (fun d => d / div) <$> ds else ds))
        as (ws & -> & Hw & Hdec).
      { destruct (1 <? div); [by apply scaled_fits|done]. }
      cbn [obind]. eexists. split; [reflexivity|]. rewrite s_put_to; [by apply time_layout_simple|].
      cbn [length]. rewrite length_app, be_put_length, words_bytes_length. lia.
Qed.

(** The size of an encoded block: at most one word per timestamp. *)
Lemma TimeArrayEncodeAll_size x l b out :
  TimeArrayEncodeAll (x :: l) b = Ret out -> (length (s_bytes out) <= 31 + 8 * S (length l))%nat.
Proof.
  unfold TimeArrayEncodeAll. cbn [length Nat.eqb]. rewrite fmap_cons.
  replace (length (u64 x :: (u64 <$> l)) - 1)%nat with (length (u64 <$> l)) by (simpl; lia).
  pose proof (delta_loop_spec u64 (u64 x) (u64 <$> l) [] 0) as E. rewrite !app_nil_r in E. rewrite E. clear E.
  assert (Hl : length (diffs u64 (u64 x) (u64 <$> l)) = length l) by (by rewrite diffs_length, length_fmap).
  pose proof (diffs_range u64 (u64 x) (u64 <$> l) u64_range) as Hr.
  set (d0 := u64 x) in *. set (ds := diffs u64 d0 (u64 <$> l)) in *.
  assert (Hto : forall b n, (length (s_bytes (s_to b n)) <= n)%nat) by (intros; unfold s_bytes; cbn; rewrite length_take; lia).
  destruct (_ && _); [|destruct (Z.ltb_spec MaxValue (max_list 0 ds)) as [Hm|Hm]].
  - intros [= <-]. unfold encode_rle. etransitivity; [apply Hto|]. unfold time_rle_bytes, put_uvarint. cbn [length].
    rewrite !length_app, be_put_length.
    match goal with |- context [(length (put_uvarint_fuel 10 ?x) + length (put_uvarint_fuel 10 ?y))%nat] =>
      pose proof (put_uvarint_fuel_length 10 x); pose proof (put_uvarint_fuel_length 10 y) end. lia.
  - intros [= <-]. etransitivity; [apply Hto|]. cbn [length]. lia.
  - cbn [skipn]. rewrite drop_0. pose proof (deltas_fit ds Hr Hm) as Hf. pose proof (find_div_scale ds) as Hsc.
    set (div := find_div ds (10 ^ 12)) in *.
    destruct (EncodeAll_good (if 1 <? div then (fun d => d / div) <$> ds else ds)) as (ws & -> & Hw & Hdec).
    { destruct (1 <? div); [by apply scaled_fits|done]. }
    cbn [obind]. intros [= <-]. etransitivity; [apply Hto|]. pose proof (Simple8bStream.decode_words_count ws Hw) as Hc.
    rewrite Hdec in Hc. destruct (1 <? div); rewrite ?length_fmap in Hc; lia.
Qed.

Lemma TimeArray_decodes (src : list Z) (b dst : slice) :
  Forall is_i64 src -> Z.of_nat (length src) < 2 ^ 60 ->
  exists out, TimeArrayEncodeAll src b = Ret out /\ TimeArrayDecodeAll (s_bytes out) dst = Ret src.
Proof.
  intros Hs Hlen. destruct src as [|x l]; [by eexists|]. cbn [length] in Hlen.
  destruct (TimeArrayEncodeAll_layout x l b ltac:(lia)) as (out & E & D).
  exists out. split; [done|]. rewrite D, time_deltas_sums.
  - change (u64 x :: (u64 <$> l)) with (u64 <$> x :: l). by rewrite i64_u64_list.
  - apply u64_range.
  - apply Forall_fmap, Forall_true. intros. apply u64_range.
Qed.

(** C12. Decoding an encoded block of timestamps returns the timestamps, sorted
    or not, for every [int64] value and whatever layout and scale the encoder
    chooses; the scratch slices do not matter. *)
Theorem TimeArray_roundtrip (src : list Z) (b dst : slice) :
  Forall is_i64 src -> Z.of_nat (length src) < 2 ^ 60 ->
  exists out, TimeArrayEncodeAll src b = Ret out /\ TimeArrayDecodeAll (s_bytes out) dst = Ret src.
Proof. apply TimeArray_decodes. Qed.

Lemma TimeArray_roundtrip_witness :
  exists out, TimeArrayEncodeAll [1000; 3000; 4000; - 5] (Slice [] 0) = Ret out /\
    TimeArrayDecodeAll (s_bytes out) (Slice [] 0) = Ret [1000; 3000; 4000; - 5].
Proof.
  apply TimeArray_roundtrip; [|vm_compute; reflexivity].
  repeat constructor; vm_compute; congruence.
Defined.
End TimeCodec.
