(* ===== verification/IntStream.v ===== *)
(** * tsdb/engine/tsm1/int.go: the streaming integer encoder and decoder

    [IntegerEncoder] accumulates zig-zag deltas as values are written and
    chooses the layout in [Bytes]; [IntegerDecoder] walks a block with [Next]
    and [Read].  The package github.com/jwilder/encoding/simple8b that the
    source imports is a parameter: the class [JwSimple8b] has its operations
    and [JwSimple8bOk] what the codec relies on.  The copy of that package in
    pkg/encoding/simple8b is an instance. *)
From S2P Require Import Prelude Simple8b Simple8bStream Codec IntCodec.
Import Simple8b Codec IntCodec.

(** ** The third-party packer *)

Class JwSimple8b := {
  jw_MaxValue : Z;
  jw_EncodeAll : list Z -> outcome (list Z);
  jw_Decode : list Z -> Z -> outcome (list Z * nat) }.

Class JwSimple8bOk (J : JwSimple8b) := {
  jw_max : jw_MaxValue = 2 ^ 60 - 1;
  jw_word : Z -> list Z;  (** the values a packed word stands for *)
  jw_encode_ok : forall src, Forall (fun x => 0 <= x <= jw_MaxValue) src ->
    exists ws, jw_EncodeAll src = Ret ws /\ Forall is_u64 ws /\ (ws ≫= jw_word) = src;
  jw_decode_ok : forall dst v, is_u64 v -> length dst = 240%nat ->
    exists dst' n, jw_Decode dst v = Ret (dst', n) /\ length dst' = 240%nat /\
      (1 <= n <= 240)%nat /\ take n dst' = jw_word v }.

#[export] Instance pkg_simple8b : JwSimple8b :=
  { jw_MaxValue := MaxValue; jw_EncodeAll := EncodeAll; jw_Decode := Decode }.

#[export] Instance pkg_simple8b_ok : JwSimple8bOk pkg_simple8b.
Proof.
  refine {| jw_word := decode_word |}; simpl; [done|exact EncodeAll_good|].
  intros dst v Hv Hd. destruct (Simple8bStream.Decode_word v Hv) as (n & Hn & Hl & H).
  destruct (H dst Hd) as (buf & E & Hb & Ht). by exists buf, n.
Defined.

Module IntStream.

(** ** IntegerEncoder *)

Record IntegerEncoder := MkIntegerEncoder {
  ie_prev : Z;
  ie_rle : bool;
  ie_values : list Z }.

Definition NewIntegerEncoder : IntegerEncoder := MkIntegerEncoder 0 true [].

Definition Reset (e : IntegerEncoder) : IntegerEncoder := MkIntegerEncoder 0 true [].

Definition Write (e : IntegerEncoder) (v : Z) : IntegerEncoder :=
  let delta := i64 (v - ie_prev e) in
  let enc := ZigZagEncode delta in
  let rle :=
    if (1 <? length (ie_values e))%nat
    then ie_rle e && (ie_values e !!! (length (ie_values e) - 1)%nat =? enc)
    else ie_rle e in
  MkIntegerEncoder v rle (ie_values e ++ [enc]).

Definition encodeRLE (e : IntegerEncoder) : list Z :=
  rle_bytes intCompressedRLE (ie_values e !!! 0%nat) (ie_values e !!! 1%nat)
    (u64 (Z.of_nat (length (ie_values e)) - 1)).

Definition encodeUncompressed (e : IntegerEncoder) : list Z :=
  if (length (ie_values e) =? 0)%nat then []
  else Z.shiftl intUncompressed 4 :: words_bytes (ie_values e).

Section WithSimple8b.
Context `{J : JwSimple8b}.

Definition encodePacked (e : IntegerEncoder) : outcome (list Z) :=
  if (length (ie_values e) =? 0)%nat then Ret []
  else
    let! encoded := jw_EncodeAll (drop 1 (ie_values e)) in
    Ret (Z.shiftl intCompressedSimple 4 :: be_put 8 (ie_values e !!! 0%nat) ++ words_bytes encoded).

Definition Bytes (e : IntegerEncoder) : outcome (list Z) :=
  if ie_rle e && (2 <? length (ie_values e))%nat then Ret (encodeRLE e)
  else if existsb (fun v => jw_MaxValue <? v) (ie_values e) then Ret (encodeUncompressed e)
  else encodePacked e.

(** ** IntegerDecoder *)

Record IntegerDecoder := MkIntegerDecoder {
  id_values : list Z;
  id_bytes : list Z;
  id_i : Z;
  id_n : Z;
  id_prev : Z;
  id_first : bool;
  id_rleFirst : Z;
  id_rleDelta : Z;
  id_encoding : Z;
  id_err : option string }.

Definition zeroDecoder : IntegerDecoder :=
  MkIntegerDecoder (replicate 240 0) [] 0 0 0 false 0 0 0 None.

Definition SetBytes (d : IntegerDecoder) (b : list Z) : IntegerDecoder :=
  let '(enc, rest) := match b with b0 :: b' => (Z.shiftr b0 4, b') | [] => (0, []) end in
  MkIntegerDecoder (id_values d) rest 0 0 0 true 0 0 enc None.

Definition set_err (d : IntegerDecoder) (e : string) : IntegerDecoder :=
  MkIntegerDecoder (id_values d) (id_bytes d) (id_i d) (id_n d) (id_prev d) (id_first d)
    (id_rleFirst d) (id_rleDelta d) (id_encoding d) (Some e).

(** The buffer, position and remaining bytes after loading a word. *)
Definition load (d : IntegerDecoder) (values : list Z) (n : Z) (first : bool) (bytes : list Z)
  : IntegerDecoder :=
  MkIntegerDecoder values bytes 0 n (id_prev d) first
    (id_rleFirst d) (id_rleDelta d) (id_encoding d) (id_err d).

Definition decodeRLE (d : IntegerDecoder) : IntegerDecoder :=
  if (length (id_bytes d) =? 0)%nat then d
  else if (length (id_bytes d) <? 8)%nat
       then set_err d "IntegerDecoder: not enough data to decode RLE starting value"
  else
    let first := be_get (take 8 (id_bytes d)) in
    let '(value, n) := uvarint (drop 8 (id_bytes d)) in
    if n <=? 0 then set_err d "IntegerDecoder: invalid RLE delta value"
    else
      let '(count, n') := uvarint (drop (8 + Z.to_nat n) (id_bytes d)) in
      if n' <=? 0 then set_err d "IntegerDecoder: invalid RLE repeat value"
      else MkIntegerDecoder (id_values d) [] 0 (i64 (i64 count + 1)) (id_prev d) (id_first d)
             first value (id_encoding d) (id_err d).

Definition decodePacked (d : IntegerDecoder) : IntegerDecoder :=
  if (length (id_bytes d) =? 0)%nat then d
  else if (length (id_bytes d) <? 8)%nat
       then set_err d "IntegerDecoder: not enough data to decode packed value"
  else
    let v := be_get (take 8 (id_bytes d)) in
    let rest := drop 8 (id_bytes d) in
    if id_first d then load d (<[0%nat := v]> (id_values d)) 1 false rest
    else match jw_Decode (id_values d) v with
         | Ret (values, n) => load d values (Z.of_nat n) false rest
         | _ => load (set_err d "failed to decode value") (id_values d) 0 false rest
         end.

Definition decodeUncompressed (d : IntegerDecoder) : IntegerDecoder :=
  if (length (id_bytes d) =? 0)%nat then d
  else if (length (id_bytes d) <? 8)%nat
       then set_err d "IntegerDecoder: not enough data to decode uncompressed value"
  else load d (<[0%nat := be_get (take 8 (id_bytes d))]> (id_values d)) 1 (id_first d)
         (drop 8 (id_bytes d)).

Definition advance (d : IntegerDecoder) : IntegerDecoder :=
  MkIntegerDecoder (id_values d) (id_bytes d) (id_i d + 1) (id_n d) (id_prev d) (id_first d)
    (id_rleFirst d) (id_rleDelta d) (id_encoding d) (id_err d).

Definition Next (d : IntegerDecoder) : IntegerDecoder * bool :=
  if (id_n d <=? id_i d) && (length (id_bytes d) =? 0)%nat then (d, false)
  else
    let d1 := advance d in
    let d2 :=
      if id_n d1 <=? id_i d1 then
        if id_encoding d1 =? intUncompressed then decodeUncompressed d1
        else if id_encoding d1 =? intCompressedSimple then decodePacked d1
        else if id_encoding d1 =? intCompressedRLE then decodeRLE d1
        else set_err d1 "unknown encoding"
      else d1 in
    (d2, match id_err d2 with None => id_i d2 <? id_n d2 | Some _ => false end).

(** [Read] adds the delta to [prev]: it also changes the state. *)
Definition Read (d : IntegerDecoder) : outcome (Z * IntegerDecoder) :=
  if id_encoding d =? intCompressedRLE
  then Ret (i64 (ZigZagDecode (id_rleFirst d) + i64 (id_i d * ZigZagDecode (id_rleDelta d))), d)
  else
    let! x := or_panic (id_values d !! Z.to_nat (id_i d)) in
    let v := i64 (ZigZagDecode x + id_prev d) in
    Ret (v, MkIntegerDecoder (id_values d) (id_bytes d) (id_i d) (id_n d) v (id_first d)
              (id_rleFirst d) (id_rleDelta d) (id_encoding d) (id_err d)).

Definition Error (d : IntegerDecoder) : option string := id_err d.

(** The client loop [for d.Next() { vs = append(vs, d.Read()) }]. *)
Fixpoint drain (fuel : nat) (d : IntegerDecoder) : outcome (list Z * option string) :=
  match fuel with
  | O => Panic
  | S f =>
      let '(d1, ok) := Next d in
      if ok then
        let! (v, d2) := Read d1 in
        let! (vs, err) := drain f d2 in Ret (v :: vs, err)
      else Ret ([], Error d1)
  end.

Lemma int_drain_S f d :
  drain (S f) d =
    (let '(d1, ok) := Next d in
     if ok then let! (v, d2) := Read d1 in let! (vs, err) := drain f d2 in Ret (v :: vs, err)
     else Ret ([], Error d1)).
Proof. done. Qed.

(** ** The encoder accumulates the deltas *)

Definition WriteAll (e : IntegerEncoder) (vs : list Z) : IntegerEncoder := fold_left Write vs e.

(** After writing [x :: l] the encoder holds the deltas of the batch codec. *)
Lemma int_deltas_app x l v :
  is_i64 v -> int_deltas ((x :: l) ++ [v]) =
    int_deltas (x :: l) ++ [ZigZagEncode (i64 (v - default x (last l)))].
Proof.
  intros Hv. cbn [app int_deltas]. rewrite diffs_app. cbn [app]. do 3 f_equal.
  unfold int_delta. by rewrite i64_u64.
Qed.

Definition same_deltas (ds : list Z) : bool :=
  match ds with
  | _ :: d :: ds' => forallb (fun x => d =? x) ds'
  | _ => true
  end.

Lemma same_deltas_snoc ds y :
  same_deltas (ds ++ [y]) =
    if (1 <? length ds)%nat then same_deltas ds && (ds !!! (length ds - 1)%nat =? y)
    else same_deltas ds.
Proof.
  destruct ds as [|a [|d ds]]; [done..|]. cbn [app length Nat.ltb Nat.leb same_deltas].
  rewrite forallb_app. cbn [forallb]. rewrite andb_true_r.
  destruct (forallb (fun x => d =? x) ds) eqn:F; [|done]. cbn [andb]. f_equal.
  apply forallb_Forall in F. replace (S (S (length ds)) - 1)%nat with (S (length ds)) by lia.
  destruct ds as [|z ds _] using rev_ind; [done|].
  rewrite length_app, Nat.add_comm. cbn [length Nat.add].
  apply Forall_app in F as [_ F]. apply Forall_cons_1 in F as [F _]. apply Z.eqb_eq in F. subst z.
  rewrite (list_lookup_total_correct _ _ d); [done|].
  change ((a :: d :: ds ++ [d]) !! S (S (length ds))) with ((ds ++ [d]) !! length ds).
  by rewrite lookup_app_r, Nat.sub_diag by lia.
Qed.

Lemma WriteAll_state vs :
  Forall is_i64 vs ->
  WriteAll NewIntegerEncoder vs =
    MkIntegerEncoder (default 0 (last vs)) (same_deltas (int_deltas vs)) (int_deltas vs).
Proof.
  induction vs as [|v vs IH] using rev_ind; intros H; [done|].
  apply Forall_app in H as [Hvs Hv]. apply Forall_cons_1 in Hv as [Hv _].
  unfold WriteAll in *. rewrite fold_left_app, (IH Hvs). cbn [fold_left].
  rewrite last_snoc. unfold Write. cbn [ie_prev ie_rle ie_values default].
  destruct vs as [|x l].
  - simpl. by rewrite Z.sub_0_r, i64_id.
  - rewrite int_deltas_app, same_deltas_snoc by done.
    assert (E : default 0 (last (x :: l)) = default x (last l)) by (rewrite last_cons; by destruct (last l)).
    by rewrite E.
Qed.

(** ** Walking a packed or uncompressed block *)

Context {JO : JwSimple8bOk J}.

(** The deltas stored in the words [ws] still to be loaded. *)
Definition stored (enc : Z) (first : bool) (ws : list Z) : list Z :=
  if enc =? intUncompressed then ws
  else match first, ws with
       | true, w :: ws' => w :: (ws' ≫= jw_word)
       | true, [] => []
       | false, _ => ws ≫= jw_word
       end.

Record walking (d : IntegerDecoder) (ws : list Z) : Prop := {
  wk_enc : id_encoding d = intUncompressed \/ id_encoding d = intCompressedSimple;
  wk_err : id_err d = None;
  wk_bytes : id_bytes d = words_bytes ws;
  wk_words : Forall is_u64 ws;
  wk_values : length (id_values d) = 240%nat;
  wk_i : 0 <= id_i d;
  wk_n : 0 <= id_n d <= 240 }.

Definition unread (d : IntegerDecoder) (ws : list Z) : list Z :=
  drop (Z.to_nat (id_i d + 1)) (take (Z.to_nat (id_n d)) (id_values d))
    ++ stored (id_encoding d) (id_first d) ws.

Definition load_word (d : IntegerDecoder) : IntegerDecoder :=
  if id_encoding d =? intUncompressed then decodeUncompressed d else decodePacked d.

Lemma insert0_take (v : Z) l : (0 < length l)%nat -> take 1 (<[0%nat := v]> l) = [v].
Proof. destruct l; simpl; [lia|done]. Qed.

(** Loading the next word brings its deltas into the buffer. *)
Lemma load_word_ok d w ws :
  walking d (w :: ws) ->
  exists values n first, load_word d = load d values (Z.of_nat n) first (words_bytes ws) /\
    length values = 240%nat /\ (1 <= n <= 240)%nat /\
    take n values ++ stored (id_encoding d) first ws = stored (id_encoding d) (id_first d) (w :: ws).
Proof.
  intros [He Herr Hb Hw Hl Hi Hn]. apply Forall_cons_1 in Hw as [Hw Hws].
  destruct (words_bytes_head w ws Hw) as [Hg Hd].
  assert (L : length (id_bytes d) = (8 * S (length ws))%nat) by (rewrite Hb; apply words_bytes_length).
  unfold load_word, stored, decodeUncompressed, decodePacked. rewrite L, Hb, Hg, Hd.
  destruct (Nat.eqb_spec (8 * S (length ws)) 0); [lia|].
  destruct (Nat.ltb_spec (8 * S (length ws)) 8); [lia|].
  assert (HI : forall v, length (<[0%nat := v]> (id_values d)) = 240%nat)
    by (intros; by rewrite length_insert).
  assert (H1 : forall v, take 1 (<[0%nat := v]> (id_values d)) = [v])
    by (intros; apply insert0_take; lia).
  destruct He as [-> | ->]; cbn [Z.eqb intUncompressed intCompressedSimple].
  - exists (<[0%nat := w]> (id_values d)), 1%nat, (id_first d). rewrite H1. by split_and!; [..|lia|lia|].
  - destruct (id_first d).
    + exists (<[0%nat := w]> (id_values d)), 1%nat, false. rewrite H1. by split_and!; [..|lia|lia|].
    + destruct (jw_decode_ok (id_values d) w Hw Hl) as (v' & m & -> & Hl' & Hn' & Ht).
      exists v', m, false. rewrite Ht. by split_and!; [..|lia|lia|].
Qed.

Lemma stored_nonempty enc first w ws : is_u64 w -> stored enc first (w :: ws) <> [].
Proof.
  intros Hw. unfold stored. destruct (enc =? intUncompressed); [done|]. destruct first; [done|].
  cbn [mbind list_bind].
  destruct (jw_decode_ok (replicate 240 0) w Hw) as (v' & n & _ & Hl & Hn & <-);
    [apply length_replicate|].
  destruct v'; [simpl in Hl; lia|]. destruct n; [lia|]. done.
Qed.

Lemma Next_load d : (id_encoding d = intUncompressed \/ id_encoding d = intCompressedSimple) ->
  (if id_encoding d =? intUncompressed then decodeUncompressed d
   else if id_encoding d =? intCompressedSimple then decodePacked d
   else if id_encoding d =? intCompressedRLE then decodeRLE d
   else set_err d "unknown encoding") = load_word d.
Proof. unfold load_word. by intros [-> | ->]. Qed.

Lemma int_Next_end d ws : walking d ws -> unread d ws = [] ->
  exists d', Next d = (d', false) /\ id_err d' = None.
Proof.
  intros [He Herr Hb Hw Hl Hi Hn] Hu. unfold unread in Hu. apply app_nil in Hu as [Hu Hs].
  destruct ws as [|w ws]; [|exfalso; eapply stored_nonempty; [|exact Hs]; by inversion Hw].
  apply (f_equal length) in Hu. rewrite length_drop, length_take in Hu. cbn [length] in Hu.
  unfold Next. rewrite Hb. cbn [words_bytes mbind list_bind length Nat.eqb]. rewrite andb_true_r.
  destruct (Z.leb_spec (id_n d) (id_i d)); [by exists d|].
  cbn [advance id_n id_i]. destruct (Z.leb_spec (id_n d) (id_i d + 1)); [|lia].
  rewrite Next_load by done.
  assert (E : load_word (advance d) = advance d).
  { unfold load_word, decodeUncompressed, decodePacked. cbn [advance id_encoding id_bytes].
    rewrite Hb. by destruct He as [-> | ->]. }
  rewrite E. exists (advance d). split; [|done]. cbn [advance id_err id_i id_n]. rewrite Herr. f_equal.
  apply Z.ltb_ge. lia.
Qed.

Lemma int_Next_value d ws x r :
  walking d ws -> unread d ws = x :: r ->
  exists d' ws', Next d = (d', true) /\ id_values d' !! Z.to_nat (id_i d') = Some x /\
    id_prev d' = id_prev d /\ walking d' ws' /\ unread d' ws' = r.
Proof.
  intros W Hu. pose proof W as [He Herr Hb Hw Hl Hi Hn]. unfold Next.
  destruct (Z.leb_spec (id_n d) (id_i d + 1)) as [Hend|Hin].
  - unfold unread in Hu. rewrite drop_ge in Hu by (rewrite length_take; lia). cbn [app] in Hu.
    destruct ws as [|w ws].
    { unfold stored in Hu. destruct (_ =? _); [done|]. by destruct (id_first d). }
    rewrite Hb, words_bytes_length, andb_false_r. cbn [advance id_n id_i].
    destruct (Z.leb_spec (id_n d) (id_i d + 1)); [|lia]. rewrite Next_load by done.
    assert (W' : walking (advance d) (w :: ws)) by (split; cbn [advance id_encoding id_err id_bytes
       id_values id_i id_n]; done || lia).
    destruct (load_word_ok (advance d) w ws W') as (v & n & f & E & Hv & Hn' & Es).
    cbn [advance id_encoding id_first] in Es. rewrite Hu in Es. rewrite E. cbn [load id_err id_i id_n].
    cbn [advance id_err]. rewrite Herr. destruct v as [|y v]; [simpl in Hv; lia|].
    destruct n as [|n]; [lia|]. injection Es as -> Er.
    eexists _, ws. split; [f_equal; apply Z.ltb_lt; lia|]. cbn [load id_values id_i id_prev].
    split_and!; [done..| |].
    + split; cbn [load advance id_encoding id_err id_bytes id_values id_i id_n];
        try done; try lia. by inversion Hw.
    + unfold unread. cbn [load advance id_i id_n id_values id_encoding id_first]. by rewrite Nat2Z.id.
  - unfold unread in Hu. destruct (Z.leb_spec (id_n d) (id_i d)); [lia|]. cbn [andb advance id_n id_i].
    destruct (Z.leb_spec (id_n d) (id_i d + 1)); [lia|]. cbn [advance id_err id_i id_n]. rewrite Herr.
    assert (is_Some (take (Z.to_nat (id_n d)) (id_values d) !! Z.to_nat (id_i d + 1))) as [y Hy].
    { apply lookup_lt_is_Some_2. rewrite length_take. lia. }
    rewrite (drop_S _ _ _ Hy) in Hu. cbn [app] in Hu. injection Hu as -> Hr.
    apply lookup_take_Some in Hy as [Hy _].
    eexists _, ws. split; [f_equal; apply Z.ltb_lt; lia|]. cbn [advance id_values id_i id_prev].
    split_and!; [done..| |].
    + split; cbn [advance id_encoding id_err id_bytes id_values id_i id_n]; done || lia.
    + unfold unread. cbn [advance id_i id_n id_values id_encoding id_first].
      replace (Z.to_nat (id_i d + 1 + 1)) with (S (Z.to_nat (id_i d + 1))) by lia. done.
Qed.

(** The loop returns the running sums of the stored deltas, without error. *)
Lemma drain_walking fuel d ws :
  walking d ws -> (length (unread d ws) < fuel)%nat ->
  drain fuel d = Ret (sums int_step (id_prev d) (unread d ws), None).
Proof.
  revert d ws. induction fuel as [|f IH]; intros d ws W Hf; [lia|]. cbn [drain].
  destruct (unread d ws) as [|x r] eqn:E.
  - destruct (int_Next_end d ws W E) as (d' & -> & He). cbn [sums]. unfold Error. by rewrite He.
  - destruct (int_Next_value d ws x r W E) as (d' & ws' & -> & Hx & Hp & W' & Hr).
    unfold Read. pose proof W' as [He' _ _ _ _ _ _].
    replace (id_encoding d' =? intCompressedRLE) with false by (by destruct He' as [-> | ->]).
    rewrite Hx. cbn [or_panic obind]. rewrite Hp, (Z.add_comm (ZigZagDecode x)).
    fold (int_step (id_prev d) x).
    erewrite (IH _ ws'); [|split; apply W'|].
    + cbn [obind sums id_prev]. unfold unread in Hr |- *. cbn [id_i id_n id_values id_encoding id_first].
      by rewrite Hr.
    + unfold unread in Hr |- *. cbn [id_i id_n id_values id_encoding id_first]. rewrite Hr.
      cbn [length] in Hf. lia.
Qed.

(** ** Walking a run-length block *)

Definition rle_value (first delta i : Z) : Z :=
  i64 (ZigZagDecode first + i64 (i * ZigZagDecode delta)).

Lemma rle_value_step first delta i :
  rle_value first delta (i + 1) = int_step (rle_value first delta i) delta.
Proof.
  unfold rle_value, int_step. apply i64_congr. rewrite u64_add_i64_r, u64_add_i64_l.
  rewrite (Z.add_comm _ (i64 _)), <- Z.add_assoc, u64_add_i64_l. f_equal. ring.
Qed.

Definition rle_state (v : list Z) (i n prev : Z) (f : bool) (first delta : Z) : IntegerDecoder :=
  MkIntegerDecoder v [] i n prev f first delta intCompressedRLE None.

Lemma int_Next_rle v i n prev f first delta :
  i < n ->
  Next (rle_state v i n prev f first delta) = (rle_state v (i + 1) n prev f first delta, i + 1 <? n).
Proof.
  intros H. unfold Next, rle_state. cbn [id_n id_i id_bytes length Nat.eqb].
  destruct (Z.leb_spec n i); [lia|]. cbn [andb]. by destruct (_ <=? _).
Qed.

Lemma Read_rle v i n prev f first delta :
  Read (rle_state v i n prev f first delta) =
    Ret (rle_value first delta i, rle_state v i n prev f first delta).
Proof. done. Qed.

Lemma drain_rle_state m v i prev f first delta :
  0 <= i ->
  drain (S m) (rle_state v i (i + 1 + Z.of_nat m) prev f first delta) =
    Ret (sums int_step (rle_value first delta i) (replicate m delta), None).
Proof.
  revert i. induction m as [|m IH]; intros i Hi; rewrite int_drain_S, int_Next_rle by lia.
  - by destruct (Z.ltb_spec (i + 1) (i + 1 + Z.of_nat 0)); [lia|].
  - destruct (Z.ltb_spec (i + 1) (i + 1 + Z.of_nat (S m))); [|lia]. rewrite Read_rle. cbn [obind].
    replace (i + 1 + Z.of_nat (S m)) with (i + 1 + 1 + Z.of_nat m) by lia.
    rewrite IH by lia. cbn [obind replicate sums]. by rewrite rle_value_step.
Qed.

Lemma decodeRLE_block v i n0 prev f f0 d0 first delta n :
  is_u64 first -> is_u64 delta -> 0 <= n < 2 ^ 61 ->
  decodeRLE (MkIntegerDecoder v (be_put 8 first ++ put_uvarint delta ++ put_uvarint n) i n0 prev f f0 d0
               intCompressedRLE None) = rle_state v 0 (n + 1) prev f first delta.
Proof.
  intros Hf Hd Hn. unfold decodeRLE. cbn [id_bytes id_values id_prev id_first id_encoding id_err].
  rewrite length_app, be_put_length.
  destruct (Nat.eqb_spec (8 + length (put_uvarint delta ++ put_uvarint n)) 0); [lia|].
  destruct (Nat.ltb_spec (8 + length (put_uvarint delta ++ put_uvarint n)) 8); [lia|].
  rewrite take_app_length', drop_app_length' by (by rewrite be_put_length).
  rewrite uvarint_put, be64_roundtrip by done. pose proof (put_uvarint_pos delta).
  destruct (Z.leb_spec (Z.of_nat (length (put_uvarint delta))) 0); [lia|].
  rewrite Nat2Z.id, <- drop_drop, drop_app_length' by (by rewrite be_put_length).
  rewrite drop_app_length, <- (app_nil_r (put_uvarint n)), uvarint_put by (unint; lia).
  pose proof (put_uvarint_pos n). destruct (Z.leb_spec (Z.of_nat (length (put_uvarint n))) 0); [lia|].
  by rewrite (i64_id n), i64_id by (unint; lia).
Qed.

Lemma drain_rle_block d first delta n :
  is_u64 first -> is_u64 delta -> 0 <= n < 2 ^ 61 ->
  drain (S (S (Z.to_nat n))) (SetBytes d (rle_bytes intCompressedRLE first delta n)) =
    Ret (ZigZagDecode first :: sums int_step (ZigZagDecode first) (replicate (Z.to_nat n) delta), None).
Proof.
  intros Hf Hd Hn. unfold rle_bytes, SetBytes.
  replace (Z.shiftr (Z.shiftl intCompressedRLE 4) 4) with intCompressedRLE by done.
  set (b := be_put 8 first ++ put_uvarint delta ++ put_uvarint n).
  assert (Lb : (8 < length b)%nat).
  { unfold b. rewrite !length_app, be_put_length. pose proof (put_uvarint_pos delta). lia. }
  rewrite int_drain_S.
  assert (E : Next (MkIntegerDecoder (id_values d) b 0 0 0 true 0 0 intCompressedRLE None) =
              (rle_state (id_values d) 0 (n + 1) 0 true first delta, true)).
  { unfold Next. cbn [id_n id_i id_bytes]. destruct (Nat.eqb_spec (length b) 0); [lia|].
    cbn [andb Z.leb Z.compare]. unfold advance. cbn [id_n id_i id_encoding].
    change (0 <=? 0 + 1) with true.
    change (intCompressedRLE =? intUncompressed) with false.
    change (intCompressedRLE =? intCompressedSimple) with false.
    change (intCompressedRLE =? intCompressedRLE) with true. cbn iota.
    cbn [id_values id_bytes id_prev id_first id_rleFirst id_rleDelta id_err]. unfold b.
    rewrite decodeRLE_block by (done || lia).
    unfold rle_state. cbn [id_err id_i id_n]. by destruct (Z.ltb_spec 0 (n + 1)); [|lia]. }
  rewrite E, Read_rle. cbn [obind].
  replace (n + 1) with (0 + 1 + Z.of_nat (Z.to_nat n)) by lia.
  rewrite drain_rle_state by lia. cbn [obind].
  assert (V : rle_value first delta 0 = ZigZagDecode first).
  { unfold rle_value. rewrite Z.mul_0_l. change (i64 0) with 0. rewrite Z.add_0_r.
    apply i64_id, ZigZagDecode_range. }
  by rewrite V.
Qed.

(** ** The streaming codec round trip *)

Lemma same_deltas_rle d0 ds : same_deltas (d0 :: ds) = all_equal_second (d0 :: ds).
Proof. destruct ds as [|d ds]; [done|]. by unfold all_equal_second. Qed.

Lemma existsb_big_none l : existsb (fun v => jw_MaxValue <? v) l = false ->
  Forall is_u64 l -> Forall (fun x => 0 <= x <= jw_MaxValue) l.
Proof.
  intros H Hu. apply Forall_and. split.
  - eapply Forall_impl; [exact Hu|]. unint. simpl. lia.
  - clear Hu. induction l as [|x l IH]; [constructor|]. cbn [existsb] in H.
    apply orb_false_iff in H as [H1 H2]. apply Z.ltb_ge in H1. constructor; [done|by apply IH].
Qed.

Lemma walking_start d b0 ws :
  length (id_values d) = 240%nat ->
  (Z.shiftr b0 4 = intUncompressed \/ Z.shiftr b0 4 = intCompressedSimple) -> Forall is_u64 ws ->
  walking (SetBytes d (b0 :: words_bytes ws)) ws.
Proof.
  intros Hd He Hw. split; cbn [SetBytes id_encoding id_err id_bytes id_values id_i id_n];
    try done; try lia.
Qed.

(** What the deltas [d0 :: ds] of a block decode to. *)
Definition streams_to (bs : list Z) (d0 : Z) (ds : list Z) : Prop :=
  forall d, length (id_values d) = 240%nat ->
  drain (S (S (length ds))) (SetBytes d bs) =
    Ret (ZigZagDecode d0 :: sums int_step (ZigZagDecode d0) ds, None).

Lemma sums_int_step_0 d0 ds :
  sums int_step 0 (d0 :: ds) = ZigZagDecode d0 :: sums int_step (ZigZagDecode d0) ds.
Proof.
  cbn [sums]. assert (int_step 0 d0 = ZigZagDecode d0) as ->; [|done].
  unfold int_step. apply i64_id, ZigZagDecode_range.
Qed.

Lemma stream_uncompressed d0 ds :
  Forall is_u64 (d0 :: ds) -> streams_to (Z.shiftl intUncompressed 4 :: words_bytes (d0 :: ds)) d0 ds.
Proof.
  intros Hr d Hd. rewrite <- sums_int_step_0.
  pose proof (walking_start d (Z.shiftl intUncompressed 4) (d0 :: ds) Hd (or_introl eq_refl) Hr) as W.
  assert (U : unread (SetBytes d (Z.shiftl intUncompressed 4 :: words_bytes (d0 :: ds)))
                (d0 :: ds) = d0 :: ds) by done.
  rewrite (drain_walking _ _ _ W), U; [done|rewrite U; cbn [length]; lia].
Qed.

Lemma int_stream_packed d0 ws :
  Forall is_u64 (d0 :: ws) ->
  streams_to (Z.shiftl intCompressedSimple 4 :: be_put 8 d0 ++ words_bytes ws) d0 (ws ≫= jw_word).
Proof.
  intros Hr d Hd. rewrite <- sums_int_step_0.
  change (be_put 8 d0 ++ words_bytes ws) with (words_bytes (d0 :: ws)).
  pose proof (walking_start d (Z.shiftl intCompressedSimple 4) (d0 :: ws) Hd (or_intror eq_refl) Hr) as W.
  assert (U : unread (SetBytes d (Z.shiftl intCompressedSimple 4 :: words_bytes (d0 :: ws)))
                (d0 :: ws) = d0 :: (ws ≫= jw_word)) by done.
  rewrite (drain_walking _ _ _ W), U; [done|rewrite U; cbn [length]; lia].
Qed.

Lemma int_stream_rle d0 ds :
  Forall is_u64 (d0 :: ds) -> Z.of_nat (length ds) < 2 ^ 61 -> (2 < length (d0 :: ds))%nat ->
  all_equal_second (d0 :: ds) = true ->
  streams_to (rle_bytes intCompressedRLE d0 ((d0 :: ds) !!! 1%nat)
                (u64 (Z.of_nat (length (d0 :: ds)) - 1))) d0 ds.
Proof.
  intros Hu Hl H2 Ha dec _. destruct ds as [|d ds]; [simpl in H2; lia|].
  pose proof (all_equal_replicate _ _ _ Ha) as Er. change ((d0 :: d :: ds) !!! 1%nat) with d.
  apply Forall_cons_1 in Hu as [Hd0 Hu]. apply Forall_cons_1 in Hu as [Hd _].
  cbn [length] in *. rewrite u64_id by (unint; lia).
  assert (exists n, Z.of_nat (S (S (length ds))) - 1 = n /\ S (length ds) = Z.to_nat n /\ 0 <= n < 2 ^ 61)
    as (n & -> & En & Hn) by (eexists; split; [reflexivity|lia]).
  rewrite En in Er |- *. rewrite drain_rle_block by done. by rewrite Er.
Qed.

(** [Bytes] lays the deltas out as the decoder reads them. *)
Lemma int_Bytes_layout x l :
  Forall is_i64 (x :: l) -> Z.of_nat (length l) < 2 ^ 61 ->
  exists bs, Bytes (WriteAll NewIntegerEncoder (x :: l)) = Ret bs /\
    streams_to bs (ZigZagEncode x) (diffs int_delta x l).
Proof.
  intros Hv Hlen. rewrite WriteAll_state by done. unfold Bytes. cbn [ie_rle ie_values].
  pose proof (int_deltas_range _ Hv) as Hr. rewrite <- (diffs_length int_delta x l) in Hlen.
  cbn [int_deltas] in *. rewrite same_deltas_rle.
  set (d0 := ZigZagEncode x) in *. set (ds := diffs int_delta x l) in *.
  destruct (all_equal_second (d0 :: ds) && (2 <? length (d0 :: ds))%nat) eqn:R.
  - apply andb_true_iff in R as [R1 R2]. apply Nat.ltb_lt in R2.
    eexists. split; [reflexivity|]. unfold encodeRLE. cbn [ie_values].
    change ((d0 :: ds) !!! 0%nat) with d0. apply int_stream_rle; assumption.
  - destruct (existsb _ _) eqn:B.
    + eexists. split; [reflexivity|]. unfold encodeUncompressed. cbn [ie_values length Nat.eqb].
      apply stream_uncompressed. assumption.
    + unfold encodePacked. cbn [ie_values length Nat.eqb skipn]. rewrite drop_0.
      pose proof (existsb_big_none _ B Hr) as Hfit. apply Forall_cons_1 in Hfit as [_ Hfit].
      destruct (jw_encode_ok ds Hfit) as (ws & -> & Hw & Hdec). cbn [obind].
      eexists. split; [reflexivity|]. rewrite <- Hdec. apply int_stream_packed.
      constructor; [by inversion Hr|done].
Qed.

Lemma IntegerEncoder_decodes (d : IntegerDecoder) (vs : list Z) :
  length (id_values d) = 240%nat -> Forall is_i64 vs -> Z.of_nat (length vs) < 2 ^ 61 ->
  exists bs, Bytes (WriteAll NewIntegerEncoder vs) = Ret bs /\
    drain (S (length vs)) (SetBytes d bs) = Ret (vs, None).
Proof.
  intros Hd Hv Hlen. destruct vs as [|x l]; [by eexists|]. cbn [length] in Hlen.
  destruct (int_Bytes_layout x l Hv ltac:(lia)) as (bs & E & D). exists bs. split; [done|].
  specialize (D d Hd). rewrite diffs_length in D. cbn [length]. rewrite D.
  rewrite ZigZagDecode_Encode by (by inversion Hv). by rewrite int_deltas_sums.
Qed.

(** Whatever values are written to an [IntegerEncoder], an
    [IntegerDecoder] on its [Bytes], new or reused from an earlier block,
    yields exactly those values and no error, for any simple8b package that
    packs and unpacks faithfully. *)
Theorem IntegerEncoder_Decoder_roundtrip (d : IntegerDecoder) (vs : list Z) :
  length (id_values d) = 240%nat -> Forall is_i64 vs -> Z.of_nat (length vs) < 2 ^ 61 ->
  exists bs, Bytes (WriteAll NewIntegerEncoder vs) = Ret bs /\
    drain (S (length vs)) (SetBytes d bs) = Ret (vs, None).
Proof. apply IntegerEncoder_decodes. Qed.
End WithSimple8b.

Lemma IntegerEncoder_Decoder_roundtrip_witness :
  exists bs, Bytes (J := pkg_simple8b) (WriteAll NewIntegerEncoder [4; 4; -9; 100]) = Ret bs /\
    drain 5 (SetBytes zeroDecoder bs) = Ret ([4; 4; -9; 100], None).
Proof.
  apply (@IntegerEncoder_Decoder_roundtrip pkg_simple8b pkg_simple8b_ok zeroDecoder [4; 4; -9; 100]).
  - reflexivity.
  - repeat constructor; vm_compute; congruence.
  - vm_compute. reflexivity.
Defined.

(** The streaming and the batch encoder produce the same block (with the
    same simple8b package) whenever the first value itself fits a packed
    word; otherwise the streaming encoder stores the block uncompressed. *)
Theorem IntegerEncoder_batch_equiv (x : Z) (l : list Z) :
  Forall is_i64 (x :: l) -> ZigZagEncode x <= MaxValue ->
  Bytes (J := pkg_simple8b) (WriteAll NewIntegerEncoder (x :: l)) =
    (let! out := IntegerArrayEncodeAll (x :: l) (Slice [] 0) in Ret (s_bytes out)).
Proof.
  intros Hv Hx. rewrite WriteAll_state by done. unfold Bytes, IntegerArrayEncodeAll.
  pose proof (int_delta_loop x l ltac:(by inversion Hv)) as E.
  cbn [ie_rle ie_values length Nat.eqb]. destruct (delta_loop _ _ _ _) as [dl mx].
  injection E as -> ->. pose proof (int_deltas_range _ Hv) as Hr.
  cbn [int_deltas] in *. rewrite same_deltas_rle, andb_comm.
  set (d0 := ZigZagEncode x) in *. set (ds := diffs int_delta x l) in *.
  destruct ((2 <? length (d0 :: ds))%nat && all_equal_second (d0 :: ds)).
  { cbn [obind]. rewrite s_put_to by done. done. }
  assert (B : existsb (fun v => MaxValue <? v) (d0 :: ds) = (MaxValue <? max_list 0 ds)).
  { apply eq_true_iff_eq. rewrite existsb_exists, Z.ltb_lt. split.
    - intros (v & Hin & Hv'). apply Z.ltb_lt in Hv'. destruct (Z.lt_ge_cases MaxValue (max_list 0 ds)) as [|G];
        [done|]. apply max_list_bound in G as [_ G]. destruct Hin as [<-|Hin]; [lia|].
      rewrite List.Forall_forall in G. specialize (G v Hin). lia.
    - intros Hm. destruct (existsb (fun v => MaxValue <? v) ds) eqn:X.
      + apply existsb_exists in X as (v & Hin & Hv'). exists v. split; [by right|done].
      + exfalso. pose proof (existsb_big_none (J := pkg_simple8b) ds X ltac:(by inversion Hr)) as F.
        assert (max_list 0 ds <= MaxValue); [|lia]. apply max_list_bound. split; [vm_compute; discriminate|].
        eapply Forall_impl; [exact F|]. simpl. lia. }
  cbn [jw_MaxValue pkg_simple8b]. rewrite B. destruct (MaxValue <? max_list 0 ds).
  - cbn [obind]. unfold encodeUncompressed. cbn [ie_values length Nat.eqb].
    rewrite s_put_to; [done|]. cbn [length]. rewrite words_bytes_length. cbn [length]. lia.
  - unfold encodePacked. cbn [ie_values length Nat.eqb jw_EncodeAll pkg_simple8b].
    destruct (EncodeAll (drop 1 (d0 :: ds))) as [ws| |]; [|done..]. cbn [obind].
    assert (L : (1 + (length ws + 1) * 8)%nat =
                length (Z.shiftl intCompressedSimple 4 :: be_put 8 ((d0 :: ds) !!! 0%nat) ++ words_bytes ws)).
    { cbn [length]. rewrite length_app, be_put_length, words_bytes_length. lia. }
    rewrite L, s_put_grow_exact; [done|simpl; lia].
Qed.

Lemma IntegerEncoder_batch_equiv_witness :
  Bytes (J := pkg_simple8b) (WriteAll NewIntegerEncoder [4; 4; -9; 100]) =
    (let! out := IntegerArrayEncodeAll [4; 4; -9; 100] (Slice [] 0) in Ret (s_bytes out)).
Proof.
  apply IntegerEncoder_batch_equiv.
  - repeat constructor; vm_compute; congruence.
  - vm_compute. congruence.
Defined.
End IntStream.
