(* ===== verification/TimeStream.v ===== *)
(** * tsdb/engine/tsm1/timestamp.go: the streaming timestamp encoder and decoder

    [encoder] collects timestamps and picks a layout in [Bytes]; [TimeDecoder]
    decodes a block in [Init] and walks it with [Next] and [Read];
    [CountTimestamps] reads the number of timestamps off a block.  The
    streaming encoder and decoder of github.com/jwilder/encoding/simple8b are
    parameters ([JwStream]) with the laws the code relies on ([JwStreamOk]);
    the copy in pkg/encoding/simple8b is an instance. *)
From S2P Require Import Prelude Simple8b Simple8bStream Codec TimeCodec.
Import Simple8b Codec TimeCodec.

(** ** The third-party streaming packer *)

Class JwStream := {
  jws_MaxValue : Z;
  jws_Encoder : Type;
  jws_NewEncoder : jws_Encoder;
  jws_Reset : jws_Encoder -> outcome jws_Encoder;
  jws_Write : jws_Encoder -> Z -> outcome jws_Encoder;
  jws_Bytes : jws_Encoder -> outcome (list Z * jws_Encoder);
  jws_Decoder : Type;
  jws_zeroDecoder : jws_Decoder;
  jws_SetBytes : jws_Decoder -> list Z -> jws_Decoder;
  jws_Next : jws_Decoder -> jws_Decoder * bool;
  jws_Read : jws_Decoder -> outcome Z;
  jws_CountBytes : list Z -> outcome Z }.

Section Loops.
Context `{J : JwStream}.

(** [for _, v := range vs { if err := e.enc.Write(f(v)); ... }]. *)
Fixpoint jws_WriteAll (e : jws_Encoder) (vs : list Z) : outcome jws_Encoder :=
  match vs with
  | [] => Ret e
  | v :: vs' => let! e' := jws_Write e v in jws_WriteAll e' vs'
  end.

(** [for d.dec.Next() { deltas = append(deltas, d.dec.Read()) }]. *)
Fixpoint jws_drain (fuel : nat) (d : jws_Decoder) : outcome (list Z * jws_Decoder) :=
  match fuel with
  | O => Panic
  | S f =>
      let '(d', ok) := jws_Next d in
      if ok then
        let! v := jws_Read d' in
        let! (vs, d'') := jws_drain f d' in Ret (v :: vs, d'')
      else Ret ([], d')
  end.
End Loops.

Class JwStreamOk (J : JwStream) := {
  jws_max : jws_MaxValue = 2 ^ 60 - 1;
  jws_fresh : jws_Encoder -> Prop;      (** encoders with nothing pending *)
  jws_dec_ok : jws_Decoder -> Prop;
  jws_fresh_new : jws_fresh jws_NewEncoder;
  jws_fresh_reset : forall e e', jws_Reset e = Ret e' -> jws_fresh e';
  jws_dec_zero : jws_dec_ok jws_zeroDecoder;
  jws_codec : forall e vs, jws_fresh e -> Forall (fun x => 0 <= x <= jws_MaxValue) vs ->
    exists e1 bs e2, jws_WriteAll e vs = Ret e1 /\ jws_Bytes e1 = Ret (bs, e2) /\
      (length vs <= 240 * length bs)%nat /\ (length bs <= 8 * length vs)%nat /\
      jws_CountBytes bs = Ret (Z.of_nat (length vs)) /\
      forall d fuel, jws_dec_ok d -> (length vs < fuel)%nat ->
        exists d', jws_drain fuel (jws_SetBytes d bs) = Ret (vs, d') /\ jws_dec_ok d' }.

(** ** The copy of the package in this repository *)

#[export] Instance pkg_stream : JwStream := {
  jws_MaxValue := MaxValue;
  jws_NewEncoder := Simple8bStream.NewEncoder;
  jws_Reset := Simple8bStream.Reset;
  jws_Write := Simple8bStream.Write;
  jws_Bytes := Simple8bStream.Bytes;
  jws_zeroDecoder := Simple8bStream.NewDecoder [];
  jws_SetBytes := Simple8bStream.SetBytes;
  jws_Next := Simple8bStream.Next;
  jws_Read := Simple8bStream.Read;
  jws_CountBytes := CountBytes }.

Lemma pkg_WriteAll e vs : jws_WriteAll (J := pkg_stream) e vs = Simple8bStream.WriteAll e vs.
Proof.
  revert e. induction vs as [|v vs IH]; intros e; [done|]. cbn [jws_WriteAll Simple8bStream.WriteAll].
  change (@jws_Write pkg_stream e v) with (Simple8bStream.Write e v).
  destruct (Simple8bStream.Write e v); [apply IH|done..].
Qed.

Lemma pkg_drain_unread fuel d ws :
  Simple8bStream.dec_ok d ws -> (length (Simple8bStream.unread d ws) < fuel)%nat ->
  exists d', jws_drain (J := pkg_stream) fuel d = Ret (Simple8bStream.unread d ws, d') /\
    length (Simple8bStream.d_buf d') = 240%nat.
Proof.
  revert d ws. induction fuel as [|f IH]; intros d ws Hok Hf; [lia|]. cbn [jws_drain].
  change (@jws_Next pkg_stream d) with (Simple8bStream.Next d).
  destruct (Simple8bStream.unread d ws) as [|x r] eqn:E.
  - destruct (Simple8bStream.Next_end d ws Hok E) as [d' N]. rewrite N. exists d'. split; [done|].
    apply (f_equal (fun p => length (Simple8bStream.d_buf (fst p)))) in N. simpl fst in N. rewrite <- N.
    exact (Simple8bStream.Next_buf_length d ws Hok).
  - destruct (Simple8bStream.Next_value d ws x r Hok E) as (d1 & ws' & -> & R & Hok' & Hr).
    change (@jws_Read pkg_stream d1) with (Simple8bStream.Read d1). rewrite R. cbn [obind].
    destruct (IH d1 ws' Hok') as (d' & E' & Hb); [rewrite Hr; cbn [length] in Hf; lia|].
    rewrite E'. cbn [obind]. exists d'. by rewrite Hr.
Qed.

#[export] Instance pkg_stream_ok : JwStreamOk pkg_stream.
Proof.
  refine {| jws_fresh := fun e : @jws_Encoder pkg_stream => Simple8bStream.enc_inv e [];
            jws_dec_ok := fun d : @jws_Decoder pkg_stream =>
                            length (Simple8bStream.d_buf d) = 240%nat |}.
  - done.
  - exact Simple8bStream.NewEncoder_inv.
  - exact Simple8bStream.Reset_inv.
  - done.
  - intros e vs Hf Hv. destruct (Simple8bStream.Encoder_bytes e vs Hf Hv) as (e1 & ws & e2 & E & B & Hw & <-).
    exists e1, (words_bytes ws), e2. rewrite pkg_WriteAll. split_and!; [done..| | | |].
    + rewrite words_bytes_length. pose proof (decode_words_length ws Hw). lia.
    + rewrite words_bytes_length. pose proof (Simple8bStream.decode_words_count ws Hw). lia.
    + by apply CountBytes_words.
    + intros d fuel Hd Hfuel.
      apply (pkg_drain_unread fuel (Simple8bStream.SetBytes d (words_bytes ws)) ws); [|exact Hfuel].
      split; cbn [Simple8bStream.SetBytes Simple8bStream.d_bytes Simple8bStream.d_buf
        Simple8bStream.d_i Simple8bStream.d_n]; done || lia.
Defined.

Module TimeStream.
Section WithStream.
Context `{J : JwStream}.

(** ** The encoder *)

Record encoder := MkEncoder {
  te_ts : list Z;
  te_bytes : slice;
  te_enc : jws_Encoder }.

Definition NewTimeEncoder : encoder := MkEncoder [] (Slice [] 0) jws_NewEncoder.

Definition Reset (e : encoder) : outcome encoder :=
  let! enc := jws_Reset (te_enc e) in Ret (MkEncoder [] (s_to (te_bytes e) 0) enc).

Definition Write (e : encoder) (t : Z) : encoder :=
  MkEncoder (te_ts e ++ [u64 t]) (te_bytes e) (te_enc e).

(** The loop of [reduce]: the deltas in place, the maximum, the divisor and
    whether all the deltas are equal; [len] is the number of timestamps. *)
Fixpoint reduce_loop (i len : nat) (deltas : list Z) (max divisor : Z) (rle : bool)
  : list Z * Z * Z * bool :=
  match i with
  | O => (deltas, max, divisor, rle)
  | S i' =>
      let v := u64 (deltas !!! i - deltas !!! i') in
      let deltas := <[i := v]> deltas in
      let max := if max <? v then v else max in
      let divisor := reduce_div 13 v divisor in
      let rle := (i =? len - 1)%nat || (rle && (deltas !!! S i =? deltas !!! i)) in
      reduce_loop i' len deltas max divisor rle
  end.

Definition reduce (ts : list Z) : list Z * Z * Z * bool :=
  reduce_loop (length ts - 1) (length ts) ts 0 (10 ^ 12) true.

(** [if cap(e.bytes) < sz { e.bytes = make([]byte, sz) }; b := e.bytes[:sz]],
    then the bytes written into [b]. *)
Definition fill (b : slice) (sz : nat) (bytes : list Z) : slice :=
  s_put (if (s_cap b <? sz)%nat then Slice (replicate sz 0) sz else b) bytes.

(** The header byte carries the encoding and the exponent of the divisor. *)
Definition encodePacked (e : encoder) (div : Z) (dts : list Z) : outcome (list Z * encoder) :=
  let! enc := if 1 <? div
              then jws_WriteAll (te_enc e) ((fun v => v / div) <$> drop 1 dts)
              else jws_WriteAll (te_enc e) (drop 1 dts) in
  let! (deltas, enc) := jws_Bytes enc in
  let bytes := time_header timeCompressedPackedSimple div :: be_put 8 (dts !!! 0%nat) ++ deltas in
  Ret (bytes, MkEncoder (te_ts e) (fill (te_bytes e) (8 + 1 + length deltas) bytes) enc).

Definition encodeRaw (e : encoder) : list Z * encoder :=
  let bytes := Z.shiftl timeUncompressed 4 :: words_bytes (te_ts e) in
  (bytes, MkEncoder (te_ts e) (fill (te_bytes e) (1 + length (te_ts e) * 8) bytes) (te_enc e)).

Definition encodeRLE (e : encoder) (first delta div : Z) (n : nat) : list Z * encoder :=
  let bytes := time_rle_bytes (time_header timeCompressedRLE div) first (delta / div) (u64 (Z.of_nat n)) in
  (bytes, MkEncoder (te_ts e) (fill (te_bytes e) 31 bytes) (te_enc e)).

(** [reduce] overwrites the timestamps, so [te_ts] holds the deltas after. *)
Definition Bytes (e : encoder) : outcome (list Z * encoder) :=
  if (length (te_ts e) =? 0)%nat then Ret ([], e)
  else
    let '(dts, max, div, rle) := reduce (te_ts e) in
    let e := MkEncoder dts (te_bytes e) (te_enc e) in
    if rle && (1 <? length (te_ts e))%nat
    then Ret (encodeRLE e (te_ts e !!! 0%nat) (te_ts e !!! 1%nat) div (length (te_ts e)))
    else if jws_MaxValue <? max then Ret (encodeRaw e)
    else encodePacked e div dts.

(** ** The decoder *)

Record TimeDecoder := MkTimeDecoder {
  td_v : Z;
  td_i : Z;
  td_n : Z;
  td_ts : list Z;
  td_dec : jws_Decoder;
  td_err : option string;
  td_rleDelta : Z;
  td_encoding : Z }.

Definition zeroTimeDecoder : TimeDecoder := MkTimeDecoder 0 0 0 [] jws_zeroDecoder None 0 0.

Definition set_err (d : TimeDecoder) (e : string) : TimeDecoder :=
  MkTimeDecoder (td_v d) (td_i d) (td_n d) (td_ts d) (td_dec d) (Some e) (td_rleDelta d) (td_encoding d).

Definition decodePacked (d : TimeDecoder) (b : list Z) : outcome TimeDecoder :=
  if (length b <? 9)%nat
  then Ret (set_err d "TimeDecoder: not enough data to decode packed timestamps")
  else
    let div := Pow10 (Z.land (b !!! 0%nat) 15) in
    let first := be_get (take 8 (drop 1 b)) in
    (* the fuel covers 240 values per byte *)
    let! (deltas, dec) := jws_drain (S (240 * length (drop 9 b))) (jws_SetBytes (td_dec d) (drop 9 b)) in
    let step := if 1 <? div then fun last x => time_step last (u64 (x * div)) else time_step in
    Ret (MkTimeDecoder (td_v d) 0 (td_n d) (first :: sums step first deltas) dec (td_err d)
           (td_rleDelta d) (td_encoding d)).

Definition decodeRLE (d : TimeDecoder) (b : list Z) : TimeDecoder :=
  if (length b <? 9)%nat
  then set_err d "TimeDecoder: not enough data for initial RLE timestamp"
  else
    let mod_ := Pow10 (Z.land (b !!! 0%nat) 15) in
    let first := be_get (take 8 (drop 1 b)) in
    let '(value, n) := uvarint (drop 9 b) in
    if n <=? 0 then set_err d "TimeDecoder: invalid run length in decodeRLE"
    else
      let value := u64 (value * u64 mod_) in
      let '(count, n') := uvarint (drop (9 + Z.to_nat n) b) in
      if n' <=? 0 then set_err d "TimeDecoder: invalid repeat value in decodeRLE"
      else MkTimeDecoder (i64 (first - value)) (-1) (i64 count) (td_ts d) (td_dec d) (td_err d)
             (i64 value) (td_encoding d).

Definition decodeRaw (d : TimeDecoder) (b : list Z) : TimeDecoder :=
  let ds := read_words (length b / 8) b in
  MkTimeDecoder (td_v d) 0 (td_n d) (match ds with [] => [] | x :: l => x :: sums time_step x l end)
    (td_dec d) (td_err d) (td_rleDelta d) (td_encoding d).

Definition decode (d : TimeDecoder) (b : list Z) : outcome TimeDecoder :=
  if (length b =? 0)%nat then Ret d
  else if td_encoding d =? timeUncompressed then Ret (decodeRaw d (drop 1 b))
  else if td_encoding d =? timeCompressedRLE then Ret (decodeRLE d b)
  else if td_encoding d =? timeCompressedPackedSimple then decodePacked d b
  else Ret (set_err d "unknown encoding").

(** The encoding is only replaced when there is a first byte. *)
Definition Init (d : TimeDecoder) (b : list Z) : outcome TimeDecoder :=
  let enc := match b with b0 :: _ => Z.shiftr b0 4 | [] => td_encoding d end in
  decode (MkTimeDecoder 0 0 (td_n d) [] (td_dec d) None (td_rleDelta d) enc) b.

Definition Next (d : TimeDecoder) : TimeDecoder * bool :=
  match td_err d with
  | Some _ => (d, false)
  | None =>
      if td_encoding d =? timeCompressedRLE then
        if td_n d <=? td_i d then (d, false)
        else (MkTimeDecoder (i64 (td_v d + td_rleDelta d)) (td_i d + 1) (td_n d) (td_ts d) (td_dec d)
                (td_err d) (td_rleDelta d) (td_encoding d), td_i d + 1 <? td_n d)
      else
        match td_ts d !! Z.to_nat (td_i d) with
        | None => (d, false)
        | Some x => (MkTimeDecoder (i64 x) (td_i d + 1) (td_n d) (td_ts d) (td_dec d)
                       (td_err d) (td_rleDelta d) (td_encoding d), true)
        end
  end.

Definition Read (d : TimeDecoder) : Z := td_v d.
Definition Error (d : TimeDecoder) : option string := td_err d.

(** The client loop [for d.Next() { ts = append(ts, d.Read()) }]. *)
Fixpoint drain (fuel : nat) (d : TimeDecoder) : option (list Z * option string) :=
  match fuel with
  | O => None
  | S f =>
      let '(d', ok) := Next d in
      if ok then '(ts, err) ← drain f d'; Some (Read d' :: ts, err)
      else Some ([], Error d')
  end.

Lemma time_drain_S f d :
  drain (S f) d =
    (let '(d', ok) := Next d in
     if ok then '(ts, err) ← drain f d'; Some (Read d' :: ts, err) else Some ([], Error d')).
Proof. done. Qed.

(** ** CountTimestamps *)

(** Errors of [CountBytes] are dropped, leaving a count of 0. *)
Definition CountTimestamps (b : list Z) : outcome Z :=
  match b with
  | [] => Ret 0
  | b0 :: rest =>
      let encoding := Z.shiftr b0 4 in
      if encoding =? timeUncompressed then Ret (Z.of_nat (length rest / 8))
      else if encoding =? timeCompressedRLE then
        if (length b <? 9)%nat then Panic
        else
          let n := (uvarint (drop 9 b)).2 in
          if (9 + n <? 0) || (Z.of_nat (length b) <? 9 + n) then Panic
          else Ret (i64 (uvarint (drop (Z.to_nat (9 + n)) b)).1)
      else if encoding =? timeCompressedPackedSimple then
        if (length b <? 9)%nat then Panic
        else match jws_CountBytes (drop 9 b) with
             | Ret count => Ret (count + 1)
             | Fail _ => Ret 1
             | Panic => Panic
             end
      else Ret 0
  end.

(** ** The deltas computed by [reduce] *)

Definition all_same (l : list Z) : Prop := exists d, Forall (eq d) l.

Lemma reduce_loop_spec x l rest len mx k rle :
  0 <= k <= 12 -> len = S (length l + length rest) ->
  exists k' rle',
    reduce_loop (length l) len (x :: l ++ rest) mx (10 ^ k) rle =
      (x :: diffs u64 x l ++ rest, max_list mx (diffs u64 x l), 10 ^ k', rle') /\
    0 <= k' <= k /\ Forall (fun v => v mod 10 ^ k' = 0) (diffs u64 x l) /\
    (rle' = true -> (rle = true -> all_same rest) -> all_same (diffs u64 x l ++ rest)).
Proof.
  intros Hk Hlen. revert rest mx k rle Hk Hlen.
  induction l as [|y l IH] using rev_ind; intros rest mx k rle Hk Hlen.
  { exists k, rle. simpl. split_and!; [done|lia..|constructor|auto]. }
  rewrite length_app in Hlen. cbn [length] in Hlen.
  rewrite length_app, Nat.add_comm. cbn [length Nat.add reduce_loop].
  destruct (snoc_lookups x l y rest) as [-> ->]. rewrite snoc_insert.
  set (d := u64 _). destruct (reduce_div_spec 13 d k ltac:(lia) ltac:(lia)) as (k1 & Hk1 & -> & Hd).
  assert (Li : (x :: l ++ d :: rest) !!! S (length l) = d).
  { apply list_lookup_total_correct. simpl. by rewrite lookup_app_r, Nat.sub_diag by lia. }
  rewrite Li. set (rle1 := _ || _).
  destruct (IH (d :: rest) (if mx <? d then d else mx) k1 rle1 ltac:(lia)) as (k2 & rle2 & E & Hk2 & Hall & Hr).
  { cbn [length]. lia. }
  exists k2, rle2. rewrite E, diffs_app. fold d. rewrite <- app_assoc. cbn [app]. split_and!; [|lia..| |].
  - do 3 f_equal. unfold max_list. rewrite fold_right_app. simpl. f_equal.
    destruct (Z.ltb_spec mx d); lia.
  - apply Forall_app_2; [done|]. apply Forall_singleton. by apply (mod_pow10_weaken d k1 k2).
  - intros H2 Hrest. apply Hr; [done|]. intros H1. unfold rle1 in H1. destruct rest as [|r rest].
    { exists d. by apply Forall_singleton. }
    destruct (Nat.eqb_spec (S (length l)) (len - 1)); [cbn [length] in *; lia|].
    cbn [orb] in H1. apply andb_true_iff in H1 as [H1 He]. destruct (Hrest H1) as (d' & Hd').
    exists d'. constructor; [|done]. apply Forall_cons_1 in Hd' as [-> _]. apply Z.eqb_eq in He.
    rewrite <- He. symmetry. apply list_lookup_total_correct. simpl.
    rewrite lookup_app_r by lia. by replace (S (length l) - length l)%nat with 1%nat by lia.
Qed.

(** [reduce] on a non-empty list of timestamps. *)
Lemma reduce_spec x l :
  exists div rle, reduce (x :: l) = (x :: diffs u64 x l, max_list 0 (diffs u64 x l), div, rle) /\
    scale div (diffs u64 x l) /\ (rle = true -> all_same (diffs u64 x l)).
Proof.
  unfold reduce. cbn [length]. replace (S (length l) - 1)%nat with (length l) by lia.
  destruct (reduce_loop_spec x l [] (S (length l)) 0 12 true ltac:(lia)) as (k & rle & E & Hk & Hd & Hr).
  { simpl. lia. }
  rewrite !app_nil_r in *. exists (10 ^ k), rle. rewrite E. split_and!; [done| |].
  - by exists k.
  - intros H. apply Hr; [done|]. intros _. by exists 0.
Qed.

(** ** Walking a decoded block *)

Lemma drain_ts fuel d i :
  td_err d = None -> td_encoding d <> timeCompressedRLE -> td_i d = Z.of_nat i ->
  (length (td_ts d) - i < fuel)%nat ->
  drain fuel d = Some (i64 <$> drop i (td_ts d), None).
Proof.
  revert d i. induction fuel as [|f IH]; intros d i He Hc Hi Hf; [lia|]. cbn [drain]. unfold Next.
  rewrite He. destruct (Z.eqb_spec (td_encoding d) timeCompressedRLE); [done|].
  rewrite Hi, Nat2Z.id. destruct (td_ts d !! i) as [x|] eqn:Ex.
  - pose proof (lookup_lt_Some _ _ _ Ex). rewrite (drop_S _ _ _ Ex).
    rewrite (IH _ (S i)); cbn [td_err td_encoding td_i td_ts]; [done|done|done|lia|lia].
  - apply lookup_ge_None in Ex. rewrite drop_ge by done. unfold Error. by rewrite He.
Qed.

Lemma time_Next_rle v i n ts dec D :
  i < n ->
  Next (MkTimeDecoder v i n ts dec None D timeCompressedRLE) =
    (MkTimeDecoder (i64 (v + D)) (i + 1) n ts dec None D timeCompressedRLE, i + 1 <? n).
Proof.
  intros H. unfold Next. cbn [td_err td_encoding td_n td_i].
  change (timeCompressedRLE =? timeCompressedRLE) with true. cbn iota.
  by destruct (Z.leb_spec n i); [lia|].
Qed.

Lemma drain_rle m v i ts dec D :
  drain (S m) (MkTimeDecoder v i (i + 1 + Z.of_nat m) ts dec None D timeCompressedRLE) =
    Some (sums (fun a _ => i64 (a + D)) v (replicate m 0), None).
Proof.
  revert v i. induction m as [|m IH]; intros v i; rewrite time_drain_S, time_Next_rle by lia.
  - by destruct (Z.ltb_spec (i + 1) (i + 1 + Z.of_nat 0)); [lia|].
  - destruct (Z.ltb_spec (i + 1) (i + 1 + Z.of_nat (S m))); [|lia].
    replace (i + 1 + Z.of_nat (S m)) with (i + 1 + 1 + Z.of_nat m) by lia. by rewrite IH.
Qed.

Lemma sums_i64 value p m :
  sums (fun a _ => i64 (a + i64 value)) (i64 p) (replicate m 0) =
    i64 <$> sums time_step p (replicate m value).
Proof.
  revert p. induction m as [|m IH]; intros p; [done|]. cbn [replicate sums fmap list_fmap].
  assert (E : i64 (i64 p + i64 value) = i64 (time_step p value)).
  { unfold time_step. rewrite i64_u64. apply i64_congr. by autorewrite with word. }
  rewrite E. by rewrite IH.
Qed.

(** What [Init] and the client loop return for the deltas [d0 :: ds], on any
    decoder, including one that was used before. *)
Context {JO : JwStreamOk J}.

Definition streams_to (bs : list Z) (d0 : Z) (ds : list Z) : Prop :=
  forall d, jws_dec_ok (td_dec d) ->
    exists d', Init d bs = Ret d' /\
      drain (S (S (length ds))) d' = Some (i64 <$> d0 :: sums time_step d0 ds, None) /\
      jws_dec_ok (td_dec d').

Lemma stream_raw d0 ds :
  Forall is_u64 (d0 :: ds) -> streams_to (Z.shiftl timeUncompressed 4 :: words_bytes (d0 :: ds)) d0 ds.
Proof.
  intros Hu d Hd. unfold Init, decode. change (Z.shiftr (Z.shiftl timeUncompressed 4) 4) with timeUncompressed.
  cbn [length Nat.eqb td_encoding]. change (timeUncompressed =? timeUncompressed) with true. cbn iota.
  eexists. split; [reflexivity|]. split; [|done]. cbn [skipn]. rewrite drop_0. unfold decodeRaw.
  rewrite words_bytes_length, (Nat.mul_comm 8), Nat.div_mul by lia.
  rewrite <- (app_nil_r (words_bytes _)), read_words_bytes by done.
  rewrite (drain_ts _ _ 0); cbn [td_err td_encoding td_i td_ts length]; rewrite ?sums_length; done || lia.
Qed.

Lemma time_stream_packed (enc : jws_Encoder) d0 ds div e1 bs e2 :
  is_u64 d0 -> Forall is_u64 ds -> scale div ds -> jws_fresh enc -> max_list 0 ds <= jws_MaxValue ->
  (if 1 <? div then jws_WriteAll enc ((fun v => v / div) <$> ds) else jws_WriteAll enc ds) = Ret e1 ->
  jws_Bytes e1 = Ret (bs, e2) ->
  streams_to (time_header timeCompressedPackedSimple div :: be_put 8 d0 ++ bs) d0 ds.
Proof.
  intros Hd0 Hds Hs Hfr Hmax Hw Hb d Hd. pose proof Hs as (k & Hk & Ediv & _).
  destruct (Log10_Pow10 k Hk) as [Hpow Hlog]. rewrite <- Ediv in Hpow, Hlog.
  set (vs := if 1 <? div then (fun v => v / div) <$> ds else ds).
  assert (Hfit : Forall (fun x => 0 <= x <= jws_MaxValue) vs).
  { rewrite jws_max in *. rewrite <- MaxValue_eq in *. pose proof (deltas_fit ds Hds Hmax).
    unfold vs. destruct (1 <? div); [by apply scaled_fits|done]. }
  destruct (jws_codec enc vs Hfr Hfit) as (e1' & bs' & e2' & Hw' & Hb' & Hbound & _ & _ & Hdec).
  assert (e1' = e1) as ->.
  { unfold vs in Hw'. destruct (1 <? div); rewrite Hw in Hw'; by injection Hw'. }
  rewrite Hb in Hb'. injection Hb' as <- <-.
  destruct (block_prefix (time_header timeCompressedPackedSimple div) d0 bs Hd0) as (H0 & H1 & H9 & HL).
  destruct (time_header_split timeCompressedPackedSimple (Log10 div) Hlog) as [Hsh Hla].
  fold (time_header timeCompressedPackedSimple div) in Hsh, Hla.
  unfold Init, decode. rewrite Hsh. cbn [td_encoding].
  change (timeCompressedPackedSimple =? timeUncompressed) with false.
  change (timeCompressedPackedSimple =? timeCompressedRLE) with false.
  change (timeCompressedPackedSimple =? timeCompressedPackedSimple) with true. cbn iota.
  cbn [length Nat.eqb]. unfold decodePacked. rewrite H0, H1, H9, Hla, Hpow.
  destruct (Nat.ltb_spec (length (time_header timeCompressedPackedSimple div :: be_put 8 d0 ++ bs)) 9); [lia|].
  destruct (Hdec (td_dec d) (S (240 * length bs)) Hd ltac:(lia)) as (dec' & E & Hok).
  cbn [td_dec]. rewrite E. cbn [obind]. eexists. split; [reflexivity|]. split; [|done].
  assert (Esum : sums (if 1 <? div then fun last x => time_step last (u64 (x * div)) else time_step) d0 vs =
                 sums time_step d0 ds).
  { unfold vs. destruct (1 <? div); [by apply sums_scaled|done]. }
  rewrite Esum, (drain_ts _ _ 0); cbn [td_err td_encoding td_i td_ts length]; rewrite ?sums_length; done || lia.
Qed.

Lemma time_stream_rle d0 ds div :
  is_u64 d0 -> Forall is_u64 ds -> scale div ds -> all_same ds -> (0 < length ds)%nat ->
  Z.of_nat (length ds) < 2 ^ 61 ->
  streams_to (time_rle_bytes (time_header timeCompressedRLE div) d0 ((d0 :: ds) !!! 1%nat / div)
                (u64 (Z.of_nat (length (d0 :: ds))))) d0 ds.
Proof.
  intros Hd0 Hds Hs [v Hv] Hne Hl d Hd. pose proof Hs as (k & Hk & Ediv & Hm).
  destruct (Log10_Pow10 k Hk) as [Hpow Hlog]. rewrite <- Ediv in Hpow, Hlog.
  assert (Hdiv : 0 < div) by (subst div; apply Z.pow_pos_nonneg; lia).
  destruct ds as [|v' ds]; [simpl in Hne; lia|]. change ((d0 :: v' :: ds) !!! 1%nat) with v'.
  pose proof (Forall_eq_replicate _ _ Hv) as Erep. apply Forall_cons_1 in Hv as [<- _].
  apply Forall_cons_1 in Hds as [Hvu _]. apply Forall_cons_1 in Hm as [Hm _]. cbn [length] in *.
  rewrite u64_id by (unint; lia). set (q := v / div).
  assert (is_u64 q /\ u64 (q * u64 div) = v) as [Hqu Hqv].
  { split.
    - unfold q. unint. split; [apply Z.div_pos; lia|]. pose proof (Z.div_le_upper_bound v div v). nia.
    - unfold q. rewrite u64_mul_r, Z.mul_comm, <- Z_div_exact_full_2 by lia. by apply u64_id. }
  unfold time_rle_bytes. destruct (block_prefix (time_header timeCompressedRLE div) d0
    (put_uvarint q ++ put_uvarint (Z.of_nat (S (S (length ds))))) Hd0) as (H0 & H1 & H9 & HL).
  destruct (time_header_split timeCompressedRLE (Log10 div) Hlog) as [Hsh Hla].
  fold (time_header timeCompressedRLE div) in Hsh, Hla.
  unfold Init, decode. rewrite Hsh. cbn [td_encoding].
  change (timeCompressedRLE =? timeUncompressed) with false.
  change (timeCompressedRLE =? timeCompressedRLE) with true. cbn iota. cbn [length Nat.eqb].
  eexists. split; [reflexivity|]. unfold decodeRLE. rewrite H0, H1, H9, Hla, Hpow.
  destruct (Nat.ltb_spec (length (time_header timeCompressedRLE div :: be_put 8 d0 ++
    put_uvarint q ++ put_uvarint (Z.of_nat (S (S (length ds)))))) 9); [lia|].
  rewrite uvarint_put by done. pose proof (put_uvarint_pos q).
  destruct (Z.leb_spec (Z.of_nat (length (put_uvarint q))) 0); [lia|].
  cbv zeta. rewrite Nat2Z.id, <- drop_drop, H9, drop_app_length.
  rewrite <- (app_nil_r (put_uvarint (Z.of_nat _))), uvarint_put by (unint; lia).
  pose proof (put_uvarint_pos (Z.of_nat (S (S (length ds))))).
  destruct (Z.leb_spec (Z.of_nat (length (put_uvarint (Z.of_nat (S (S (length ds))))))) 0); [lia|].
  split; [|done]. cbn [td_ts td_dec td_err td_encoding]. rewrite Hqv, (i64_id (Z.of_nat _)) by (unint; lia).
  rewrite <- (Z.add_0_l (Z.of_nat (S (S (length ds))))). change 0 with (-1 + 1) at 1.
  rewrite drain_rle, sums_i64, Erep. cbn [replicate sums fmap list_fmap].
  assert (E : time_step (d0 - v) v = d0).
  { unfold time_step. replace (d0 - v + v) with d0 by lia. by apply u64_id. }
  by rewrite E.
Qed.

(** ** Counting *)

Lemma count_raw ws : CountTimestamps (Z.shiftl timeUncompressed 4 :: words_bytes ws) = Ret (Z.of_nat (length ws)).
Proof.
  unfold CountTimestamps. change (Z.shiftr (Z.shiftl timeUncompressed 4) 4) with timeUncompressed.
  change (timeUncompressed =? timeUncompressed) with true. cbn iota.
  by rewrite words_bytes_length, (Nat.mul_comm 8), Nat.div_mul by lia.
Qed.

Lemma count_packed h d0 bs n :
  is_u64 d0 -> Z.shiftr h 4 = timeCompressedPackedSimple -> jws_CountBytes bs = Ret n ->
  CountTimestamps (h :: be_put 8 d0 ++ bs) = Ret (n + 1).
Proof.
  intros Hd Hh Hc. destruct (block_prefix h d0 bs Hd) as (_ & _ & H9 & HL).
  unfold CountTimestamps. rewrite Hh, H9, Hc.
  change (timeCompressedPackedSimple =? timeUncompressed) with false.
  change (timeCompressedPackedSimple =? timeCompressedRLE) with false.
  change (timeCompressedPackedSimple =? timeCompressedPackedSimple) with true. cbn iota.
  by destruct (Nat.ltb_spec (length (h :: be_put 8 d0 ++ bs)) 9); [lia|].
Qed.

Lemma count_rle h d0 q n :
  is_u64 d0 -> is_u64 q -> 0 <= n < 2 ^ 63 -> Z.shiftr h 4 = timeCompressedRLE ->
  CountTimestamps (time_rle_bytes h d0 q n) = Ret n.
Proof.
  intros Hd Hq Hn Hh. unfold time_rle_bytes.
  destruct (block_prefix h d0 (put_uvarint q ++ put_uvarint n) Hd) as (_ & _ & H9 & HL).
  unfold CountTimestamps. rewrite Hh, H9, uvarint_put by done.
  change (timeCompressedRLE =? timeUncompressed) with false.
  change (timeCompressedRLE =? timeCompressedRLE) with true. cbn iota. cbn [snd].
  destruct (Nat.ltb_spec (length (h :: be_put 8 d0 ++ put_uvarint q ++ put_uvarint n)) 9); [lia|].
  destruct (Z.ltb_spec (9 + Z.of_nat (length (put_uvarint q))) 0); [lia|].
  destruct (Z.ltb_spec (Z.of_nat (length (h :: be_put 8 d0 ++ put_uvarint q ++ put_uvarint n)))
              (9 + Z.of_nat (length (put_uvarint q)))) as [Hs|Hs].
  { cbn [length] in Hs. rewrite !length_app, be_put_length in Hs. lia. }
  cbn [orb]. replace (Z.to_nat (9 + Z.of_nat (length (put_uvarint q))))
    with (9 + length (put_uvarint q))%nat by lia.
  rewrite <- drop_drop, H9, drop_app_length, <- (app_nil_r (put_uvarint n)), uvarint_put by (unint; lia).
  cbn [fst]. by rewrite i64_id by (unint; lia).
Qed.

(** ** The streaming codec *)

Definition WriteAll (e : encoder) (ts : list Z) : encoder := fold_left Write ts e.

Lemma WriteAll_ts e ts :
  WriteAll e ts = MkEncoder (te_ts e ++ (u64 <$> ts)) (te_bytes e) (te_enc e).
Proof.
  revert e. induction ts as [|t ts IH]; intros e; [by rewrite app_nil_r; destruct e|].
  cbn [WriteAll fold_left]. fold (WriteAll (Write e t) ts). rewrite IH.
  cbn [Write te_ts te_bytes te_enc fmap list_fmap]. by rewrite <- app_assoc.
Qed.

(** [Bytes] lays out the deltas so that the decoder reads them back and
    [CountTimestamps] counts them. *)
Lemma time_Bytes_layout e x l :
  te_ts e = [] -> jws_fresh (te_enc e) -> Z.of_nat (length l) < 2 ^ 60 ->
  exists bs e', Bytes (WriteAll e (x :: l)) = Ret (bs, e') /\
    streams_to bs (u64 x) (diffs u64 (u64 x) (u64 <$> l)) /\
    CountTimestamps bs = Ret (Z.of_nat (S (length l))) /\ (length bs <= 31 + 8 * S (length l))%nat.
Proof.
  intros Hts Hfr Hlen. rewrite WriteAll_ts, Hts. cbn [app]. rewrite fmap_cons. unfold Bytes.
  cbn [te_ts length Nat.eqb te_bytes te_enc].
  destruct (reduce_spec (u64 x) (u64 <$> l)) as (div & rle & -> & Hs & Hr).
  assert (Hl : length (diffs u64 (u64 x) (u64 <$> l)) = length l) by (by rewrite diffs_length, length_fmap).
  pose proof (diffs_range u64 (u64 x) (u64 <$> l) u64_range) as Hds.
  pose proof (u64_range x) as Hd0. set (d0 := u64 x) in *. set (ds := diffs u64 d0 (u64 <$> l)) in *.
  pose proof Hs as (k & Hk & Ediv & Hm). destruct (Log10_Pow10 k Hk) as [_ Hlog]. rewrite <- Ediv in Hlog.
  cbn [te_ts length]. change ((d0 :: ds) !!! 0%nat) with d0.
  destruct (rle && (1 <? S (length ds))%nat) eqn:R.
  - apply andb_true_iff in R as [-> R2]. apply Nat.ltb_lt in R2.
    unfold encodeRLE. do 2 eexists. split; [reflexivity|]. split_and!.
    + apply time_stream_rle; try done; try lia. by apply Hr.
    + rewrite Hl, u64_id by (unint; lia). apply count_rle; [done| |lia|by apply time_header_split].
      destruct ds as [|v ds']; [simpl in R2; lia|]. change ((d0 :: v :: ds') !!! 1%nat) with v.
      apply Forall_cons_1 in Hds as [Hv _]. assert (0 < div) by (subst div; apply Z.pow_pos_nonneg; lia).
      unint. split; [apply Z.div_pos; lia|]. pose proof (Z.div_le_upper_bound v div v). nia.
    + unfold time_rle_bytes, put_uvarint. cbn [length]. rewrite !length_app, be_put_length.
      match goal with |- context [put_uvarint_fuel 10 ?x] => pose proof (put_uvarint_fuel_length 10 x) end.
      pose proof (put_uvarint_fuel_length 10 (u64 (Z.of_nat (S (length ds))))). lia.
  - destruct (Z.ltb_spec jws_MaxValue (max_list 0 ds)).
    + unfold encodeRaw. do 2 eexists. split; [reflexivity|]. split_and!.
      * apply stream_raw. by constructor.
      * rewrite count_raw. cbn [te_ts length]. by rewrite Hl.
      * cbn [te_ts length]. rewrite words_bytes_length. cbn [length]. lia.
    + unfold encodePacked. cbn [skipn te_enc]. rewrite !drop_0. change ((d0 :: ds) !!! 0%nat) with d0.
      set (vs := if 1 <? div then (fun v => v / div) <$> ds else ds).
      assert (Hfit : Forall (fun x => 0 <= x <= jws_MaxValue) vs).
      { rewrite jws_max in *. rewrite <- MaxValue_eq in *. pose proof (deltas_fit ds Hds ltac:(lia)).
        unfold vs. destruct (1 <? div); [by apply scaled_fits|done]. }
      assert (Hvs : length vs = length ds) by (unfold vs; by destruct (1 <? div); rewrite ?length_fmap).
      destruct (jws_codec (te_enc e) vs Hfr Hfit) as (e1 & bs & e2 & Hw & Hb & _ & Hlb & Hc & _).
      assert (Hw' : (if 1 <? div then jws_WriteAll (te_enc e) ((fun v => v / div) <$> ds)
                     else jws_WriteAll (te_enc e) ds) = Ret e1) by (unfold vs in Hw; by destruct (1 <? div)).
      rewrite Hw'. cbn [obind]. rewrite Hb. cbn [obind]. do 2 eexists. split; [reflexivity|]. split_and!.
      * eapply time_stream_packed; [done..|lia|exact Hw'|exact Hb].
      * fold (time_header timeCompressedPackedSimple div).
        rewrite (count_packed (time_header timeCompressedPackedSimple div) _ _ _ Hd0
          (proj1 (time_header_split _ _ Hlog)) Hc).
        rewrite Hvs. f_equal. lia.
      * cbn [length]. rewrite length_app, be_put_length. lia.
Qed.

Lemma TimeEncoder_decodes (e : encoder) (d : TimeDecoder) (ts : list Z) :
  te_ts e = [] -> jws_fresh (te_enc e) -> jws_dec_ok (td_dec d) ->
  Forall is_i64 ts -> ts <> [] -> Z.of_nat (length ts) < 2 ^ 60 ->
  exists bs e' d', Bytes (WriteAll e ts) = Ret (bs, e') /\ Init d bs = Ret d' /\
    drain (S (length ts)) d' = Some (ts, None) /\
    CountTimestamps bs = Ret (Z.of_nat (length ts)) /\ (length bs <= 31 + 8 * length ts)%nat.
Proof.
  intros Hts Hfr Hd Hi Hne Hlen. destruct ts as [|x l]; [done|]. cbn [length] in *.
  destruct (time_Bytes_layout e x l Hts Hfr ltac:(lia)) as (bs & e' & E & S & C & L).
  destruct (S d Hd) as (d' & Ei & Ed & _). exists bs, e', d'. split_and!; [done|done| |done|done].
  rewrite diffs_length, length_fmap in Ed. rewrite Ed, time_deltas_sums.
  - change (u64 x :: (u64 <$> l)) with (u64 <$> x :: l). by rewrite i64_u64_list.
  - apply u64_range.
  - apply Forall_fmap, Forall_true. intros. apply u64_range.
Qed.

(** Timestamps written to a reset [TimeEncoder] are returned, in order and
    without error, by a [TimeDecoder] initialised on its [Bytes], even one
    reused from an earlier block; [CountTimestamps] returns their number. *)
Theorem TimeEncoder_Decoder_roundtrip (e : encoder) (d : TimeDecoder) (ts : list Z) :
  te_ts e = [] -> jws_fresh (te_enc e) -> jws_dec_ok (td_dec d) ->
  Forall is_i64 ts -> ts <> [] -> Z.of_nat (length ts) < 2 ^ 60 ->
  exists bs e' d', Bytes (WriteAll e ts) = Ret (bs, e') /\ Init d bs = Ret d' /\
    drain (S (length ts)) d' = Some (ts, None) /\
    CountTimestamps bs = Ret (Z.of_nat (length ts)).
Proof.
  intros. destruct (TimeEncoder_decodes e d ts) as (bs & e' & d' & ? & ? & ? & ? & _); [done..|]. by exists bs, e', d'.
Qed.
End WithStream.

Lemma TimeEncoder_Decoder_roundtrip_witness :
  exists bs e' d', Bytes (WriteAll (NewTimeEncoder (J := pkg_stream)) [10; 20; 50]) = Ret (bs, e') /\
    Init zeroTimeDecoder bs = Ret d' /\ drain 4 d' = Some ([10; 20; 50], None) /\
    CountTimestamps (J := pkg_stream) bs = Ret 3.
Proof.
  apply (@TimeEncoder_Decoder_roundtrip pkg_stream pkg_stream_ok).
  - reflexivity.
  - exact Simple8bStream.NewEncoder_inv.
  - reflexivity.
  - repeat constructor; vm_compute; congruence.
  - discriminate.
  - vm_compute. reflexivity.
Defined.

(** [Init] keeps the old encoding when the block is empty, so a decoder
    that has read a run-length block of [n >= 2] timestamps yields values for
    an empty block. *)
Theorem TimeDecoder_stale_encoding `{J : JwStream} (d : TimeDecoder) :
  td_encoding d = timeCompressedRLE -> 2 <= td_n d ->
  exists d', Init d [] = Ret d' /\ (Next d').2 = true /\ CountTimestamps [] = Ret 0.
Proof.
  intros He Hn. eexists. split; [reflexivity|]. split; [|done].
  unfold Next. cbn [td_err td_encoding td_n td_i]. rewrite He.
  change (timeCompressedRLE =? timeCompressedRLE) with true. cbn iota.
  destruct (Z.leb_spec (td_n d) 0); [lia|]. cbn [snd]. apply Z.ltb_lt. lia.
Qed.

Lemma TimeDecoder_stale_encoding_witness :
  exists d', Init (MkTimeDecoder (J := pkg_stream) 7 3 3 [] (Simple8bStream.NewDecoder []) None 1
                     timeCompressedRLE) [] = Ret d' /\ (Next d').2 = true /\
    CountTimestamps (J := pkg_stream) [] = Ret 0.
Proof. apply TimeDecoder_stale_encoding; vm_compute; congruence. Defined.
End TimeStream.
