(* ===== verification/BoolCodec.v ===== *)
(** * tsdb/engine/tsm1: the boolean codecs

    Models [bool.go] (the streaming [BooleanEncoder] and [BooleanDecoder]) and
    [batch_boolean.go] ([BooleanArrayEncodeAll], [BooleanArrayDecodeAll]): one
    bit per value, most significant bit first, after a header byte and a
    varint count.  The theorems show that the batch pair round trips into any
    reused buffer, that the two encoders agree, that the two decoders agree
    on every block, and exactly when the batch decoder panics. *)
From S2P Require Import Prelude.

Module BoolCodec.

Definition booleanCompressedBitPacked : Z := 1.

(** ** The streaming encoder *)

Record BooleanEncoder := MkBooleanEncoder {
  be_bytes : list Z;  (* the encoded bytes *)
  be_b : Z;           (* the current byte *)
  be_i : nat;         (* bools packed into [be_b] *)
  be_n : nat }.       (* bools written *)

Definition NewBooleanEncoder : BooleanEncoder := MkBooleanEncoder [] 0 0 0.

Definition Reset (e : BooleanEncoder) : BooleanEncoder := MkBooleanEncoder [] 0 0 0.

(** [b << 1] on a byte. *)
Definition shl1 (b : Z) : Z := Z.shiftl b 1 mod 256.

(** [for e.i < 8 { e.b = e.b << 1; e.i++ }]; eight rounds are enough. *)
Fixpoint pad (fuel : nat) (b : Z) (i : nat) : Z * nat :=
  match fuel with
  | O => (b, i)
  | S f => if (i <? 8)%nat then pad f (shl1 b) (S i) else (b, i)
  end.

Definition flush (e : BooleanEncoder) : BooleanEncoder :=
  let '(b, i) := pad 8 (be_b e) (be_i e) in
  if (0 <? i)%nat then MkBooleanEncoder (be_bytes e ++ [b]) 0 0 (be_n e)
  else MkBooleanEncoder (be_bytes e) b i (be_n e).

Definition Write (e : BooleanEncoder) (v : bool) : BooleanEncoder :=
  let e := if (8 <=? be_i e)%nat then flush e else e in
  let b := shl1 (be_b e) in
  MkBooleanEncoder (be_bytes e) (if v then Z.lor b 1 else b) (S (be_i e)) (S (be_n e)).

Definition Bytes (e : BooleanEncoder) : list Z * BooleanEncoder :=
  let e := flush e in
  (Z.shiftl booleanCompressedBitPacked 4 :: put_uvarint (u64 (Z.of_nat (be_n e))) ++ be_bytes e, e).

Definition WriteAll (e : BooleanEncoder) (vs : list bool) : BooleanEncoder := fold_left Write vs e.

(** ** The streaming decoder *)

Record BooleanDecoder := MkBooleanDecoder {
  bd_b : list Z;
  bd_i : Z;
  bd_n : Z;
  bd_err : option string }.

Definition zeroBooleanDecoder : BooleanDecoder := MkBooleanDecoder [] 0 0 None.

Definition SetBytes (d : BooleanDecoder) (b : list Z) : BooleanDecoder :=
  match b with
  | [] => d
  | _ :: b =>
    let '(count, n) := uvarint b in
    if n <=? 0 then MkBooleanDecoder (bd_b d) (bd_i d) (bd_n d) (Some "BooleanDecoder: invalid count"%string)
    else
      let rest := drop (Z.to_nat n) b in
      let c := i64 count in
      let min := Z.of_nat (length rest) * 8 in
      MkBooleanDecoder rest (-1) (if min <? c then min else c) (bd_err d)
  end.

Definition Next (d : BooleanDecoder) : BooleanDecoder * bool :=
  match bd_err d with
  | Some _ => (d, false)
  | None =>
    let i := bd_i d + 1 in
    (MkBooleanDecoder (bd_b d) i (bd_n d) (bd_err d), i <? bd_n d)
  end.

Definition Read (d : BooleanDecoder) : outcome bool :=
  let idx := Z.shiftr (bd_i d) 3 in
  let pos := 7 - Z.land (bd_i d) 7 in
  let mask := Z.shiftl 1 pos in
  if idx <? 0 then Panic
  else let! v := or_panic (bd_b d !! Z.to_nat idx) in Ret (Z.land v mask =? mask).

Definition Error (d : BooleanDecoder) : option string := bd_err d.

(** [for d.Next() { values = append(values, d.Read()) }; d.Error()]. *)
Fixpoint drain (fuel : nat) (d : BooleanDecoder) : outcome (list bool * option string) :=
  match fuel with
  | O => Panic
  | S f =>
    let '(d, more) := Next d in
    if more then
      let! v := Read d in
      let! (vs, err) := drain f d in
      Ret (v :: vs, err)
    else Ret ([], Error d)
  end.

(** ** The batch encoder *)

(** [b[n>>3] |= 128 >> (n & 7)] and [b[n>>3] &^= 128 >> (n & 7)]. *)
Definition set_bit (b : list Z) (n : Z) (v : bool) : outcome (list Z) :=
  let idx := Z.to_nat (Z.shiftr n 3) in
  let mask := Z.shiftr 128 (Z.land n 7) in
  let! old := or_panic (b !! idx) in
  Ret (<[idx := if v then Z.lor old mask else Z.ldiff old mask]> b).

Fixpoint set_bits (b : list Z) (n : Z) (src : list bool) : outcome (list Z * Z) :=
  match src with
  | [] => Ret (b, n)
  | v :: src => let! b := set_bit b n v in set_bits b (n + 1) src
  end.

(** [if len(b) < sz && cap(b) > sz { b = b[:sz] } else if len(b) < sz
    { b = append(b, make([]byte, sz)...) }]: the appended slice is longer than
    needed. *)
Definition bool_grow (b : slice) (sz : nat) : slice :=
  if (s_len b <? sz)%nat && (sz <? s_cap b)%nat then s_to b sz
  else if (s_len b <? sz)%nat
       then Slice (s_bytes b ++ replicate sz 0) (s_len b + sz)
       else b.

Definition BooleanArrayEncodeAll (src : list bool) (b : slice) : outcome slice :=
  let sz := (1 + 8 + (length src + 7) / 8)%nat in
  let b := bool_grow b sz in
  let count := put_uvarint (Z.of_nat (length src)) in
  if (s_len b <? 1 + length count)%nat then Panic
  else
    let b := s_put b (Z.shiftl booleanCompressedBitPacked 4 :: count) in
    let n := 8 + Z.of_nat (length count) * 8 in
    let! (bytes, n) := set_bits (s_bytes b) n src in
    let len := Z.shiftr n 3 + (if 0 <? Z.land n 7 then 1 else 0) in
    Ret (s_to (s_put b bytes) (Z.to_nat len)).

(** ** The batch decoder *)

(** [for i := byte(128); i > 0 && j < len(dst); i >>= 1 { dst[j] = v&i != 0;
    j++ }]; eight rounds take the mask to zero. *)
Fixpoint unpack_byte (fuel : nat) (i v : Z) (dst : list bool) (j : nat) : list bool * nat :=
  match fuel with
  | O => (dst, j)
  | S f =>
    if (0 <? i) && (j <? length dst)%nat
    then unpack_byte f (Z.shiftr i 1) v (<[j := negb (Z.land v i =? 0)]> dst) (S j)
    else (dst, j)
  end.

Fixpoint unpack_bytes (b : list Z) (dst : list bool) (j : nat) : list bool :=
  match b with
  | [] => dst
  | v :: b => let '(dst, j) := unpack_byte 9 128 v dst j in unpack_bytes b dst j
  end.

(** [dst] is given by its backing array. *)
Definition BooleanArrayDecodeAll (b : list Z) (dst : list bool) : outcome (list bool) :=
  match b with
  | [] => Ret []
  | _ :: b =>
    let '(val, n) := uvarint b in
    if n <=? 0 then Fail "BooleanBatchDecoder: invalid count"
    else
      let count := i64 val in
      let b := drop (Z.to_nat n) b in
      let min := Z.of_nat (length b) * 8 in
      let count := if min <? count then min else count in
      let! dst :=
        (if Z.of_nat (length dst) <? count then Ret (replicate (Z.to_nat count) false)
         else if count <? 0 then Panic
         else Ret (take (Z.to_nat count) dst)) in
      Ret (unpack_bytes b dst 0)
  end.

(** ** The bits of a byte string *)

Definition bits_of (v : Z) : list bool := (fun k => Z.testbit v (7 - Z.of_nat k)) <$> seq 0 8.
Definition bools_of (bs : list Z) : list bool := bs ≫= bits_of.

Lemma bits_of_lookup v k : (k < 8)%nat -> bits_of v !! k = Some (Z.testbit v (7 - Z.of_nat k)).
Proof.
  intros H. unfold bits_of. rewrite list_lookup_fmap, lookup_seq_lt by done. done.
Qed.

Lemma bools_of_length bs : length (bools_of bs) = (8 * length bs)%nat.
Proof.
  induction bs as [|v bs IH]; [done|]. unfold bools_of in *. cbn [mbind list_bind].
  rewrite length_app, IH. cbn [length]. change (length (bits_of v)) with 8%nat. lia.
Qed.

Lemma bools_of_cons v bs : bools_of (v :: bs) = bits_of v ++ bools_of bs.
Proof. done. Qed.

Lemma bools_of_app l k : bools_of (l ++ k) = bools_of l ++ bools_of k.
Proof. apply bind_app. Qed.

Lemma bools_of_lookup bs i :
  bools_of bs !! i = (fun v => Z.testbit v (7 - Z.of_nat (i mod 8))) <$> bs !! (i / 8)%nat.
Proof.
  revert i. induction bs as [|v bs IH]; intros i; [by rewrite lookup_nil|].
  rewrite bools_of_cons. destruct (decide (i < 8)%nat) as [Hi|Hi].
  - rewrite lookup_app_l by (change (length (bits_of v)) with 8%nat; lia).
    by rewrite bits_of_lookup, Nat.div_small, Nat.mod_small by lia.
  - rewrite lookup_app_r by (change (length (bits_of v)) with 8%nat; lia).
    change (length (bits_of v)) with 8%nat. rewrite IH. destruct (Nat.le_exists_sub 8 i) as (j & -> & _); [lia|].
    replace (j + 8 - 8)%nat with j by lia. replace (j + 8)%nat with (j + 1 * 8)%nat by lia.
    rewrite Nat.Div0.mod_add, Nat.div_add by lia. by rewrite Nat.add_1_r.
Qed.

Lemma bools_of_take k bs : bools_of (take k bs) = take (8 * k) (bools_of bs).
Proof.
  revert k. induction bs as [|v bs IH]; intros [|k]; [done..|].
  replace (8 * S k)%nat with (length (bits_of v) + 8 * k)%nat by (change (length (bits_of v)) with 8%nat; lia).
  cbn [take]. by rewrite !bools_of_cons, IH, take_app_add.
Qed.

Lemma bools_of_drop k bs : bools_of (drop k bs) = drop (8 * k) (bools_of bs).
Proof.
  revert k. induction bs as [|v bs IH]; intros [|k]; [done..|].
  replace (8 * S k)%nat with (length (bits_of v) + 8 * k)%nat by (change (length (bits_of v)) with 8%nat; lia).
  cbn [drop]. by rewrite !bools_of_cons, IH, drop_app_add.
Qed.

(** Cell [n>>3], bit [7 - (n&7)]: the machine form of [n / 8] and [n mod 8]. *)
Lemma bit_index n : 0 <= n -> Z.to_nat (Z.shiftr n 3) = (Z.to_nat n / 8)%nat /\
  Z.land n 7 = Z.of_nat (Z.to_nat n mod 8) /\ 0 <= Z.land n 7 < 8.
Proof.
  intros H. change 7 with (2 ^ 3 - 1). rewrite land_ones_mod by lia. rewrite Z.shiftr_div_pow2 by lia.
  change (2 ^ 3) with (Z.of_nat 8). destruct (Z_of_nat_complete n H) as [m ->].
  rewrite <- Nat2Z.inj_div, <- Nat2Z.inj_mod, !Nat2Z.id.
  pose proof (Nat.mod_upper_bound m 8). split_and!; [done|done|lia|lia].
Qed.

Lemma mask_pow m : 0 <= m < 8 -> Z.shiftr 128 m = 2 ^ (7 - m) /\ Z.shiftl 1 m = 2 ^ m.
Proof.
  intros H. split; [|by rewrite Z.shiftl_1_l]. rewrite Z.shiftr_div_pow2 by lia.
  change 128 with (2 ^ 7). by rewrite <- Z.pow_sub_r by lia.
Qed.

Lemma land_pow_eqb v p : 0 <= p -> (Z.land v (2 ^ p) =? 2 ^ p) = Z.testbit v p /\
  negb (Z.land v (2 ^ p) =? 0) = Z.testbit v p.
Proof.
  intros Hp. assert (E : Z.land v (2 ^ p) = if Z.testbit v p then 2 ^ p else 0).
  { apply Z.bits_inj'. intros j Hj. rewrite Z.land_spec, Z.pow2_bits_eqb by done.
    destruct (Z.eqb_spec p j) as [->|Hn].
    - destruct (Z.testbit v j); [by rewrite Z.pow2_bits_true|by rewrite Z.bits_0].
    - rewrite andb_false_r. destruct (Z.testbit v p); [by rewrite Z.pow2_bits_false|by rewrite Z.bits_0]. }
  rewrite E. pose proof (Z.pow_pos_nonneg 2 p). destruct (Z.testbit v p).
  - split; [apply Z.eqb_refl|]. destruct (Z.eqb_spec (2 ^ p) 0); [lia|done].
  - split; [apply Z.eqb_neq; lia|done].
Qed.

(** ** Setting bits in place *)

Lemma set_bit_spec b n v :
  0 <= n < 8 * Z.of_nat (length b) ->
  exists b', set_bit b n v = Ret b' /\ length b' = length b /\
    bools_of b' = <[Z.to_nat n := v]> (bools_of b).
Proof.
  intros Hn. destruct (bit_index n) as (Hi & Hm & Hm8); [lia|]. unfold set_bit. rewrite Hi.
  assert (Hlt : (Z.to_nat n / 8 < length b)%nat) by (apply Nat.Div0.div_lt_upper_bound; lia).
  destruct (lookup_lt_is_Some_2 _ _ Hlt) as [old Ho]. rewrite Ho. cbn [or_panic obind].
  eexists. split; [reflexivity|]. rewrite length_insert. split; [done|].
  rewrite (proj1 (mask_pow _ Hm8)). apply list_eq. intros i.
  rewrite bools_of_lookup. set (w := if v then _ else _).
  assert (Hw : forall j, 0 <= j -> Z.testbit w j = if 7 - Z.land n 7 =? j then v else Z.testbit old j).
  { intros j Hj. unfold w. destruct v; [rewrite Z.lor_spec|rewrite Z.ldiff_spec];
      rewrite Z.pow2_bits_eqb by lia; destruct (_ =? j); by rewrite ?orb_true_r, ?orb_false_r, ?andb_false_r, ?andb_true_r. }
  pose proof (Nat.mod_upper_bound i 8 ltac:(lia)).
  destruct (decide (i / 8 = Z.to_nat n / 8)%nat) as [E|E].
  - rewrite E, list_lookup_insert_eq by done. cbn [fmap option_fmap option_map]. rewrite Hw by lia.
    pose proof (Nat.div_mod i 8). pose proof (Nat.div_mod (Z.to_nat n) 8).
    destruct (Z.eqb_spec (7 - Z.land n 7) (7 - Z.of_nat (i mod 8))) as [E2|E2].
    + replace (Z.to_nat n) with i by lia. rewrite list_lookup_insert_eq; [done|]. rewrite bools_of_length. lia.
    + rewrite list_lookup_insert_ne by (intros ?; subst i; lia). by rewrite bools_of_lookup, E, Ho.
  - rewrite list_lookup_insert_ne by done. rewrite list_lookup_insert_ne by congruence.
    by rewrite bools_of_lookup.
Qed.

Lemma set_bits_spec src : forall b n,
  0 <= n -> n + Z.of_nat (length src) <= 8 * Z.of_nat (length b) ->
  exists b', set_bits b n src = Ret (b', n + Z.of_nat (length src)) /\ length b' = length b /\
    bools_of b' = take (Z.to_nat n) (bools_of b) ++ src ++ drop (Z.to_nat n + length src) (bools_of b).
Proof.
  induction src as [|v src IH]; intros b n Hn Hl.
  - exists b. cbn [set_bits length app]. split_and!; [f_equal; f_equal; lia|done|].
    by rewrite Nat.add_0_r, take_drop.
  - cbn [length] in Hl. destruct (set_bit_spec b n v ltac:(lia)) as (b1 & E1 & L1 & B1).
    destruct (IH b1 (n + 1)) as (b2 & E2 & L2 & B2); [lia..|].
    exists b2. cbn [set_bits]. rewrite E1. cbn [obind]. rewrite E2. split_and!; [do 2 f_equal; cbn [length]; lia|congruence|].
    rewrite B2, B1. replace (Z.to_nat (n + 1)) with (S (Z.to_nat n)) by lia.
    rewrite insert_take_drop by (rewrite bools_of_length; lia).
    rewrite take_app_ge; rewrite length_take_le by (rewrite bools_of_length; lia); [|lia].
    rewrite Nat.sub_succ_l, Nat.sub_diag by lia. cbn [take]. rewrite take_0, <- app_assoc. cbn [app]. do 3 f_equal.
    cbn [length]. rewrite drop_app_ge; rewrite length_take_le by (rewrite bools_of_length; lia); [|lia].
    replace (S (Z.to_nat n) + length src - Z.to_nat n)%nat with (S (length src)) by lia. cbn [drop].
    rewrite drop_drop. f_equal. lia.
Qed.

(** ** Reading the bits back *)

(** The low [m] bits of a byte, most significant first. *)
Fixpoint low_bits (m : nat) (v : Z) : list bool :=
  match m with
  | O => []
  | S m => Z.testbit v (Z.of_nat m) :: low_bits m v
  end.

Lemma low_bits_length m v : length (low_bits m v) = m.
Proof. induction m as [|m IH]; [done|]. cbn [low_bits length]. by rewrite IH. Qed.

Lemma low_bits_8 v : low_bits 8 v = bits_of v.
Proof. reflexivity. Qed.

Lemma unpack_byte_spec m v : forall dn rest,
  unpack_byte (S m) (2 ^ Z.of_nat m / 2) v (dn ++ rest) (length dn) =
    (dn ++ take (length rest) (low_bits m v) ++ drop m rest, (length dn + min m (length rest))%nat).
Proof.
  induction m as [|m IH]; intros dn rest.
  - cbn [unpack_byte low_bits]. change (2 ^ Z.of_nat 0 / 2) with 0. cbn [Z.ltb Z.compare andb].
    rewrite take_nil, drop_0, app_nil_l. f_equal. lia.
  - assert (E : 2 ^ Z.of_nat (S m) / 2 = 2 ^ Z.of_nat m).
    { rewrite Nat2Z.inj_succ, Z.pow_succ_r, Z.mul_comm, Z.div_mul by lia. done. }
    rewrite E. set (sm := S m). cbn [unpack_byte]. unfold sm.
    pose proof (Z.pow_pos_nonneg 2 (Z.of_nat m)). destruct (Z.ltb_spec 0 (2 ^ Z.of_nat m)); [|lia].
    rewrite length_app. cbn [andb]. destruct rest as [|x rest].
    + destruct (Nat.ltb_spec (length dn) (length dn + length (@nil bool))); [simpl in *; lia|].
      rewrite drop_nil. cbn [length take]. rewrite !app_nil_r. f_equal. lia.
    + destruct (Nat.ltb_spec (length dn) (length dn + length (x :: rest))); [|simpl in *; lia].
      rewrite (proj2 (land_pow_eqb v (Z.of_nat m) ltac:(lia))).
      rewrite insert_app_r_alt, Nat.sub_diag by lia. cbn [insert list_insert].
      set (t := Z.testbit v (Z.of_nat m)). specialize (IH (dn ++ [t]) rest).
      rewrite length_app, <- app_assoc in IH. cbn [length app] in IH. rewrite Nat.add_1_r in IH.
      rewrite Z.shiftr_div_pow2 by lia. change (2 ^ 1) with 2. rewrite IH.
      cbn [length take low_bits drop]. fold t. rewrite <- app_assoc. cbn [app]. f_equal. lia.
Qed.

Lemma unpack_bytes_spec b : forall dn rest,
  unpack_bytes b (dn ++ rest) (length dn) =
    dn ++ take (length rest) (bools_of b) ++ drop (8 * length b) rest.
Proof.
  induction b as [|v b IH]; intros dn rest; cbn [unpack_bytes].
  - change (bools_of []) with (@nil bool). by rewrite take_nil.
  - change 128 with (2 ^ Z.of_nat 8 / 2). rewrite unpack_byte_spec, low_bits_8.
    assert (L : (length dn + min 8 (length rest))%nat = length (dn ++ take (length rest) (bits_of v))).
    { rewrite length_app, length_take. change (length (bits_of v)) with 8%nat. lia. }
    rewrite L, app_assoc, IH, <- app_assoc, bools_of_cons, take_app.
    change (length (bits_of v)) with 8%nat. rewrite length_drop, drop_drop, <- !app_assoc.
    repeat f_equal. cbn [length]. lia.
Qed.

(** The batch decoder returns the first [count] bits after the count. *)
Lemma DecodeAll_bits h bs val n dst :
  uvarint bs = (val, n) -> 0 < n -> 0 <= i64 val ->
  BooleanArrayDecodeAll (h :: bs) dst =
    Ret (take (Z.to_nat (i64 val)) (bools_of (drop (Z.to_nat n) bs))).
Proof.
  intros E Hn Hv. unfold BooleanArrayDecodeAll. rewrite E.
  destruct (Z.leb_spec n 0); [lia|]. set (cnt := i64 val) in *.
  set (b := drop (Z.to_nat n) bs). set (c := if _ <? cnt then _ else _).
  assert (Hc : 0 <= c /\ c <= cnt /\ c <= Z.of_nat (length b) * 8 /\
    take (Z.to_nat c) (bools_of b) = take (Z.to_nat cnt) (bools_of b)).
  { unfold c. destruct (Z.ltb_spec (Z.of_nat (length b) * 8) cnt); split_and!; try lia.
    - rewrite !take_ge; [done|rewrite bools_of_length; lia..].
    - done. }
  clearbody c. destruct Hc as (Hc0 & _ & Hcb & <-).
  assert (Hd : forall d, length d = Z.to_nat c -> unpack_bytes b d 0 = take (Z.to_nat c) (bools_of b)).
  { intros d Hd. change 0%nat with (length (@nil bool)). rewrite <- (app_nil_l d), unpack_bytes_spec, Hd.
    cbn [app]. by rewrite drop_ge, app_nil_r by lia. }
  destruct (Z.ltb_spec (Z.of_nat (length dst)) c); cbn [obind].
  - by rewrite Hd by apply length_replicate.
  - destruct (Z.ltb_spec c 0); [lia|]. cbn [obind]. rewrite Hd; [done|]. rewrite length_take. lia.
Qed.

(** ** The batch round trip *)

Lemma bool_grow_len b sz : slice_ok b -> (sz <= s_len (bool_grow b sz))%nat /\ slice_ok (bool_grow b sz).
Proof.
  unfold slice_ok, bool_grow, s_cap, s_bytes, s_to. intros H. destruct (Nat.ltb_spec (s_len b) sz); cbn [andb].
  - destruct (Nat.ltb_spec sz (length (s_arr b))); cbn [s_len s_arr]; [lia|].
    rewrite length_app, length_replicate, length_take. lia.
  - lia.
Qed.

Lemma set_bits_prefix src : forall b n k b' n',
  set_bits b n src = Ret (b', n') -> 8 * Z.of_nat k <= n -> take k b' = take k b.
Proof.
  induction src as [|v src IH]; intros b n k b' n' E Hk; cbn [set_bits] in E; [congruence|].
  unfold set_bit in E. destruct (or_panic _) as [old| |]; [|done..]. cbn [obind] in E.
  rewrite (IH _ _ k _ _ E) by lia. apply take_insert_ge.
  destruct (bit_index n) as (-> & _); [lia|]. apply Nat.div_le_lower_bound; lia.
Qed.

Lemma ceil8 k m : Z.to_nat (Z.shiftr (8 * Z.of_nat k + Z.of_nat m) 3 +
    (if 0 <? Z.land (8 * Z.of_nat k + Z.of_nat m) 7 then 1 else 0)) = (k + (m + 7) / 8)%nat.
Proof.
  destruct (bit_index (8 * Z.of_nat k + Z.of_nat m)) as (_ & -> & _); [lia|].
  rewrite Z.shiftr_div_pow2 by lia. change (2 ^ 3) with 8.
  replace (Z.to_nat (8 * Z.of_nat k + Z.of_nat m)) with (m + k * 8)%nat by lia.
  rewrite Nat.Div0.mod_add. pose proof (Nat.div_mod m 8). pose proof (Nat.mod_upper_bound m 8).
  set (q := (m / 8)%nat) in *. set (r := (m mod 8)%nat) in *.
  replace ((8 * Z.of_nat k + Z.of_nat m) / 8) with (Z.of_nat k + Z.of_nat q)
    by (apply (Z.div_unique _ 8 _ (Z.of_nat r)); lia).
  destruct (Z.ltb_spec 0 (Z.of_nat r)).
  - rewrite <- (Nat.div_unique (m + 7) 8 (q + 1) (r - 1)); lia.
  - rewrite <- (Nat.div_unique (m + 7) 8 q 7); lia.
Qed.

(** Bytes and their bits: a byte has no bit beyond the seventh, and is
    determined by its eight bits. *)
Lemma byte_high x j : is_byte x -> 8 <= j -> Z.testbit x j = false.
Proof.
  intros Hx Hj. unint. destruct (Z.eq_dec x 0) as [->|]; [apply Z.bits_0|].
  apply Z.bits_above_log2; [lia|]. apply Z.log2_lt_pow2; [lia|].
  apply (Z.lt_le_trans _ (2 ^ 8)); [lia|]. by apply Z.pow_le_mono_r.
Qed.

Lemma byte_intro x : (forall j, 8 <= j -> Z.testbit x j = false) -> is_byte x.
Proof.
  intros H. assert (E : x = x mod 2 ^ 8).
  { apply Z.bits_inj'. intros j Hj. destruct (Z.lt_ge_cases j 8).
    - by rewrite Z.mod_pow2_bits_low.
    - rewrite Z.mod_pow2_bits_high by lia. by apply H. }
  rewrite E. unint. apply (Z.mod_pos_bound x (2 ^ 8)). lia.
Qed.

Lemma bits_of_inj x y : is_byte x -> is_byte y -> bits_of x = bits_of y -> x = y.
Proof.
  intros Hx Hy E. apply Z.bits_inj'. intros j Hj. destruct (Z.lt_ge_cases j 8).
  - assert (L : bits_of x !! Z.to_nat (7 - j) = bits_of y !! Z.to_nat (7 - j)) by (by rewrite E).
    rewrite !bits_of_lookup in L by lia. injection L as L.
    by replace (7 - Z.of_nat (Z.to_nat (7 - j))) with j in L by lia.
  - by rewrite !byte_high.
Qed.

Lemma bools_of_inj l k : Forall is_byte l -> Forall is_byte k -> bools_of l = bools_of k -> l = k.
Proof.
  intros Hl. revert k. induction Hl as [|x l Hx Hl IH]; intros k Hk E.
  - destruct k; [done|]. apply (f_equal length) in E. rewrite !bools_of_length in E. simpl in E. lia.
  - destruct Hk as [|y k Hy Hk].
    { apply (f_equal length) in E. rewrite !bools_of_length in E. simpl in E. lia. }
    rewrite !bools_of_cons in E. apply app_inj_1 in E as [E1 E2]; [|done].
    f_equal; [by apply bits_of_inj|by apply IH].
Qed.

Lemma set_bits_bytes src : forall b n b' n',
  0 <= n -> set_bits b n src = Ret (b', n') -> Forall is_byte b -> Forall is_byte b'.
Proof.
  induction src as [|v src IH]; intros b n b' n' Hn E Hb; cbn [set_bits] in E; [congruence|].
  unfold set_bit in E. destruct (b !! _) as [old|] eqn:Ho; [|done]. cbn [or_panic obind] in E.
  refine (IH _ (n + 1) _ _ ltac:(lia) E _). apply Forall_insert; [done|]. pose proof (Forall_lookup_1 _ _ _ _ Hb Ho).
  destruct (bit_index n Hn) as (_ & _ & H7). rewrite (proj1 (mask_pow _ H7)).
  apply byte_intro. intros j Hj. destruct v; [rewrite Z.lor_spec|rewrite Z.ldiff_spec];
    rewrite byte_high by done; [|done]. rewrite Z.pow2_bits_false by lia. done.
Qed.

Lemma zero_bools l : Forall (eq 0) l -> Forall (eq false) (bools_of l) /\ Forall is_byte l.
Proof.
  induction 1 as [|x l <- _ [IH1 IH2]]; [done|]. split; [|by constructor].
  rewrite bools_of_cons. apply Forall_app. split; [by repeat constructor|done].
Qed.

Lemma bool_grow_zero b sz : Forall (eq 0) (s_arr b) -> Forall (eq 0) (s_arr (bool_grow b sz)).
Proof.
  intros H. unfold bool_grow, s_to, s_bytes. destruct (_ && _); [done|]. destruct (_ <? _)%nat; [|done].
  cbn [s_arr]. apply Forall_app. split; [by apply Forall_take|by apply Forall_replicate].
Qed.

(** The bytes after the header when the bits are written over [tail]. *)
Lemma set_bits_body pre tail src n :
  n = 8 * Z.of_nat (length pre) -> ((length src + 7) / 8 <= length tail)%nat ->
  exists body, set_bits (pre ++ tail) n src = Ret (pre ++ body, n + Z.of_nat (length src)) /\
    length body = length tail /\
    bools_of body = src ++ drop (length src) (bools_of tail) /\
    (Forall is_byte (pre ++ tail) -> Forall is_byte body).
Proof.
  intros -> Hl. pose proof (Nat.div_mod (length src + 7) 8). pose proof (Nat.mod_upper_bound (length src + 7) 8).
  destruct (set_bits_spec src (pre ++ tail) (8 * Z.of_nat (length pre))) as (bs & E & Lb & B);
    [lia|rewrite length_app; lia|].
  exists (drop (length pre) bs).
  assert (Hp : pre ++ drop (length pre) bs = bs).
  { rewrite <- (take_drop (length pre) bs) at 2. f_equal.
    by rewrite (set_bits_prefix _ _ _ (length pre) _ _ E), take_app_length by lia. }
  rewrite Hp. split_and!; [done|rewrite length_drop, Lb, length_app; lia| |].
  - rewrite bools_of_drop, B. replace (Z.to_nat (8 * Z.of_nat (length pre))) with (8 * length pre)%nat by lia.
    rewrite <- (bools_of_length pre), bools_of_app, take_app_length, drop_app_length, drop_app_add. done.
  - intros Hf. apply Forall_drop. eapply set_bits_bytes; [|exact E|done]. lia.
Qed.

(** The block [BooleanArrayEncodeAll] writes: header, count, and as many body
    bytes as the bits need; the spare bits of the last byte are those the
    buffer held. *)
Lemma EncodeAll_layout src b :
  slice_ok b -> Z.of_nat (length src) < 2 ^ 56 ->
  exists b' body stale, BooleanArrayEncodeAll src b = Ret b' /\
    s_bytes b' = Z.shiftl booleanCompressedBitPacked 4 :: put_uvarint (Z.of_nat (length src)) ++ body /\
    length body = ((length src + 7) / 8)%nat /\ bools_of body = src ++ stale /\
    (Forall (eq 0) (s_arr b) -> Forall (eq false) stale /\ Forall is_byte body).
Proof.
  intros Hok Hlen. unfold BooleanArrayEncodeAll.
  destruct (bool_grow_len b (1 + 8 + (length src + 7) / 8) Hok) as [Hg Hok1].
  pose proof (bool_grow_zero b (1 + 8 + (length src + 7) / 8)) as Hz.
  set (b1 := bool_grow b _) in *. set (cnt := put_uvarint _). set (hd := Z.shiftl _ 4).
  assert (Hc : (length cnt <= 8)%nat) by (by apply (put_uvarint_bound 7)).
  destruct (Nat.ltb_spec (s_len b1) (1 + length cnt)); [lia|].
  set (tail := take (s_len b1 - length (hd :: cnt)) (drop (length (hd :: cnt)) (s_arr b1))).
  assert (L1 : s_bytes (s_put b1 (hd :: cnt)) = (hd :: cnt) ++ tail).
  { unfold s_bytes. cbn [s_put s_len s_arr]. by rewrite take_app_ge by (cbn [length]; lia). }
  assert (Lt : ((length src + 7) / 8 <= length tail)%nat).
  { unfold tail. rewrite length_take, length_drop. unfold slice_ok, s_cap in Hok1. cbn [length]. lia. }
  pose proof (Nat.div_mod (length src + 7) 8). pose proof (Nat.mod_upper_bound (length src + 7) 8).
  set (k := ((length src + 7) / 8)%nat) in *.
  rewrite L1. replace (8 + Z.of_nat (length cnt) * 8) with (8 * Z.of_nat (length (hd :: cnt))) by (cbn [length]; lia).
  destruct (set_bits_body (hd :: cnt) tail src _ eq_refl Lt) as (body & -> & Lb & B & Hb).
  cbn [obind]. rewrite ceil8. fold k.
  eexists _, (take k body), (drop (length src) (bools_of (take k tail))). split; [reflexivity|]. split_and!.
  - unfold s_bytes. cbn [s_to s_put s_len s_arr]. rewrite take_app_le by (rewrite length_app; lia).
    by rewrite take_app_add.
  - rewrite length_take. lia.
  - rewrite !bools_of_take, B, take_app_ge, skipn_firstn_comm by lia. done.
  - intros Hzero. specialize (Hz Hzero). assert (Ht : Forall (eq 0) tail) by (apply Forall_take, Forall_drop, Hz).
    destruct (zero_bools tail Ht) as [_ Htb]. destruct (zero_bools (take k tail)) as [Hk _]; [by apply Forall_take|].
    split; [by apply Forall_drop|]. apply Forall_take, Hb, Forall_app. split; [|done].
    constructor; [by vm_compute|]. apply put_uvarint_bytes. lia.
Qed.

Lemma BooleanArray_decodes (src : list bool) (b : slice) (dst : list bool) :
  slice_ok b -> Z.of_nat (length src) < 2 ^ 56 ->
  exists b', BooleanArrayEncodeAll src b = Ret b' /\
    BooleanArrayDecodeAll (s_bytes b') dst = Ret src /\
    length (s_bytes b') = (1 + length (put_uvarint (Z.of_nat (length src))) + (length src + 7) / 8)%nat.
Proof.
  intros Hok Hlen. destruct (EncodeAll_layout src b Hok Hlen) as (b' & body & stale & E & Es & Lb & Hb & _).
  exists b'. split; [done|]. rewrite Es. split.
  - rewrite (DecodeAll_bits _ _ _ _ _ (uvarint_put (Z.of_nat (length src)) body ltac:(unint; lia)));
      rewrite ?i64_id by (unint; lia); try lia.
    + by rewrite !Nat2Z.id, drop_app_length, Hb, take_app_length.
    + pose proof (put_uvarint_pos (Z.of_nat (length src))). lia.
  - cbn [length]. rewrite length_app. lia.
Qed.

(** Booleans encoded with [BooleanArrayEncodeAll] into any buffer,
    whatever its length, capacity and stale contents, are decoded by
    [BooleanArrayDecodeAll] into any destination, and the block has the minimal
    number of body bytes. *)
Theorem BooleanArray_roundtrip (src : list bool) (b : slice) (dst : list bool) :
  slice_ok b -> Z.of_nat (length src) < 2 ^ 56 ->
  exists b', BooleanArrayEncodeAll src b = Ret b' /\
    BooleanArrayDecodeAll (s_bytes b') dst = Ret src /\
    length (s_bytes b') = (1 + length (put_uvarint (Z.of_nat (length src))) + (length src + 7) / 8)%nat.
Proof. apply BooleanArray_decodes. Qed.

Lemma BooleanArray_roundtrip_witness :
  exists b', BooleanArrayEncodeAll [true; false; true] (Slice [255; 255; 255] 2) = Ret b' /\
    BooleanArrayDecodeAll (s_bytes b') [] = Ret [true; false; true] /\
    length (s_bytes b') = (1 + length (put_uvarint (Z.of_nat 3)) + (3 + 7) / 8)%nat.
Proof.
  apply (BooleanArray_roundtrip [true; false; true] (Slice [255; 255; 255] 2) []).
  - unfold slice_ok, s_cap. simpl. lia.
  - reflexivity.
Defined.

(** ** The streaming encoder *)

Definition push (b : Z) (v : bool) : Z := if v then Z.lor (shl1 b) 1 else shl1 b.
Definition byte_of (l : list bool) : Z := fold_left push l 0.

Lemma byte_of_bits l : length l = 8%nat -> bits_of (byte_of l) = l /\ is_byte (byte_of l).
Proof.
  intros H. do 8 (destruct l as [|[] l]; [discriminate H| |]); (destruct l; [|discriminate H]);
    by vm_compute.
Qed.

Lemma bools_of_chunks chunks :
  Forall (fun c => length c = 8%nat) chunks ->
  bools_of (byte_of <$> chunks) = concat chunks /\ Forall is_byte (byte_of <$> chunks).
Proof.
  induction 1 as [|c chunks Hc _ [IH1 IH2]]; [done|]. cbn [fmap list_fmap concat].
  destruct (byte_of_bits c Hc) as [E Hb]. split; [by rewrite bools_of_cons, E, IH1|by constructor].
Qed.

Lemma concat_chunks_length (chunks : list (list bool)) :
  Forall (fun c => length c = 8%nat) chunks -> length (concat chunks) = (8 * length chunks)%nat.
Proof.
  induction 1 as [|c chunks Hc _ IH]; [done|]. cbn [concat length]. rewrite length_app. lia.
Qed.

Lemma pad_spec fuel b i :
  (i <= 8)%nat -> (8 <= i + fuel)%nat -> pad fuel b i = (fold_left push (replicate (8 - i) false) b, 8%nat).
Proof.
  revert b i. induction fuel as [|f IH]; intros b i Hi Hf; cbn [pad].
  - replace i with 8%nat by lia. done.
  - destruct (Nat.ltb_spec i 8).
    + rewrite IH by lia. replace (8 - i)%nat with (S (8 - S i))%nat by lia. done.
    + replace i with 8%nat by lia. done.
Qed.

(** What an encoder holds after writing [vs]: full bytes, then a non-empty
    partial byte unless nothing was written. *)
Record enc_inv (e : BooleanEncoder) (vs : list bool) (chunks : list (list bool)) (part : list bool) : Prop := {
  inv_vs : vs = concat chunks ++ part;
  inv_chunks : Forall (fun c => length c = 8%nat) chunks;
  inv_bytes : be_bytes e = byte_of <$> chunks;
  inv_b : be_b e = byte_of part;
  inv_i : be_i e = length part;
  inv_part : (length part <= 8)%nat;
  inv_n : be_n e = length vs;
  inv_empty : part = [] -> vs = [] }.

Lemma flush_spec e vs chunks part :
  enc_inv e vs chunks part ->
  flush e = MkBooleanEncoder (byte_of <$> chunks ++ [part ++ replicate (8 - length part) false]) 0 0 (length vs).
Proof.
  intros [? ? Hbs Hb Hi ? Hn _]. unfold flush. rewrite Hi, Hb, Hbs, Hn, pad_spec by lia.
  cbn [Nat.ltb Nat.leb]. rewrite fmap_app. unfold byte_of at 3 4. cbn [fmap list_fmap].
  by rewrite fold_left_app.
Qed.

Lemma Write_spec e vs chunks part v :
  enc_inv e vs chunks part -> exists chunks' part', enc_inv (Write e v) (vs ++ [v]) chunks' part'.
Proof.
  intros Hinv. pose proof Hinv as [Hvs Hch Hbs Hb Hi Hp Hn He]. unfold Write. rewrite Hi.
  destruct (Nat.leb_spec 8 (length part)).
  - rewrite (flush_spec _ _ _ _ Hinv). exists (chunks ++ [part]), [v].
    replace (8 - length part)%nat with 0%nat by lia. cbn [replicate]. rewrite app_nil_r.
    split; cbn [be_bytes be_b be_i be_n length]; [|apply Forall_app; split; [done|repeat constructor; lia]|done..|lia| |done].
    + rewrite concat_app, Hvs. cbn [concat]. by rewrite app_nil_r.
    + rewrite length_app. simpl. lia.
  - exists chunks, (part ++ [v]). split; cbn [be_bytes be_b be_i be_n]; [|done|done| | | | |].
    + by rewrite Hvs, app_assoc.
    + rewrite Hb. unfold byte_of. by rewrite fold_left_app.
    + rewrite Hi, length_app. simpl. lia.
    + rewrite length_app. simpl. lia.
    + rewrite Hn, length_app. simpl. lia.
    + by destruct part.
Qed.

Lemma WriteAll_spec ws : forall e vs chunks part,
  enc_inv e vs chunks part -> exists chunks' part', enc_inv (WriteAll e ws) (vs ++ ws) chunks' part'.
Proof.
  induction ws as [|w ws IH]; intros e vs chunks part H.
  - exists chunks, part. by rewrite app_nil_r.
  - destruct (Write_spec e vs chunks part w H) as (c & p & H1).
    destruct (IH _ _ _ _ H1) as (c' & p' & H2). exists c', p'. by rewrite <- app_assoc in H2.
Qed.

Lemma bool_Reset_inv e : enc_inv (Reset e) [] [] [].
Proof. constructor; (done || (simpl; lia)). Qed.

(** The block [Bytes] returns: header, count, and the bits padded with zeros;
    an encoder that wrote nothing still emits one padding byte. *)
Lemma bool_Bytes_layout e vs :
  Z.of_nat (length vs) < 2 ^ 63 ->
  exists body k, (Bytes (WriteAll (Reset e) vs)).1 =
      Z.shiftl booleanCompressedBitPacked 4 :: put_uvarint (Z.of_nat (length vs)) ++ body /\
    bools_of body = vs ++ replicate k false /\ Forall is_byte body /\
    (k < 8 \/ vs = [])%nat.
Proof.
  intros Hl. destruct (WriteAll_spec vs _ _ _ _ (bool_Reset_inv e)) as (chunks & part & H). cbn [app] in H.
  unfold Bytes. rewrite (flush_spec _ _ _ _ H). destruct H as [Hvs Hch _ _ _ Hp _ He].
  cbn [be_n be_bytes fst]. rewrite u64_id by (unint; lia).
  set (full := chunks ++ _). assert (Hf : Forall (fun c => length c = 8%nat) full).
  { apply Forall_app. split; [done|]. constructor; [|done]. rewrite length_app, length_replicate. lia. }
  destruct (bools_of_chunks full Hf) as [Eb Hb].
  exists (byte_of <$> full), (8 - length part)%nat. split_and!; [done| |done|].
  - rewrite Eb. unfold full. rewrite concat_app. cbn [concat]. by rewrite app_nil_r, Hvs, app_assoc.
  - destruct part; [by right; apply He|]. left. cbn [length]. lia.
Qed.

Lemma bool_Bytes_decodes e vs dst :
  Z.of_nat (length vs) < 2 ^ 63 ->
  exists bs e', Bytes (WriteAll (Reset e) vs) = (bs, e') /\ bs <> [] /\ BooleanArrayDecodeAll bs dst = Ret vs.
Proof.
  intros Hl. destruct (bool_Bytes_layout e vs Hl) as (body & k & E & Hb & _ & _).
  destruct (Bytes (WriteAll (Reset e) vs)) as [bs e']. cbn [fst] in E. subst bs. eexists _, e'. split; [done|]. split; [done|].
  rewrite (DecodeAll_bits _ _ _ _ _ (uvarint_put (Z.of_nat (length vs)) body ltac:(unint; lia)));
    rewrite ?i64_id by (unint; lia); try lia.
  - by rewrite !Nat2Z.id, drop_app_length, Hb, take_app_length.
  - pose proof (put_uvarint_pos (Z.of_nat (length vs))). lia.
Qed.

Lemma all_false l : Forall (eq false) l -> l = replicate (length l) false.
Proof. induction 1 as [|x l <- _ IH]; [done|]. cbn [length replicate]. by f_equal. Qed.

(** On a zeroed buffer [BooleanArrayEncodeAll] returns, byte for byte, the
    block the streaming [BooleanEncoder] builds for the same values. *)
Theorem BooleanEncoder_batch_equiv (e : BooleanEncoder) (src : list bool) (b : slice) :
  src <> [] -> slice_ok b -> Forall (eq 0) (s_arr b) -> Z.of_nat (length src) < 2 ^ 56 ->
  exists b', BooleanArrayEncodeAll src b = Ret b' /\
    s_bytes b' = (Bytes (WriteAll (Reset e) src)).1.
Proof.
  intros Hne Hok Hz Hl. destruct (EncodeAll_layout src b Hok Hl) as (b' & body & stale & E & Es & Lb & Hb & Hs).
  destruct (Hs Hz) as [Hs1 Hs2]. destruct (bool_Bytes_layout e src ltac:(lia)) as (body2 & k & Eb & Hb2 & Hy2 & Hk).
  exists b'. split; [done|]. rewrite Es, Eb. do 2 f_equal. apply bools_of_inj; [done..|]. rewrite Hb, Hb2. f_equal.
  rewrite (all_false stale Hs1). f_equal. destruct Hk as [Hk|]; [|done].
  apply (f_equal length) in Hb, Hb2. rewrite bools_of_length, length_app in Hb, Hb2.
  rewrite length_replicate in Hb2. pose proof (Nat.div_mod (length src + 7) 8).
  pose proof (Nat.mod_upper_bound (length src + 7) 8). lia.
Qed.

Lemma BooleanEncoder_batch_equiv_witness :
  exists b', BooleanArrayEncodeAll [true; true; false] (Slice [0; 0] 1) = Ret b' /\
    s_bytes b' = (Bytes (WriteAll (Reset NewBooleanEncoder) [true; true; false])).1.
Proof.
  apply (BooleanEncoder_batch_equiv NewBooleanEncoder [true; true; false] (Slice [0; 0] 1)).
  - discriminate.
  - unfold slice_ok, s_cap. simpl. lia.
  - repeat constructor.
  - reflexivity.
Defined.

(** ** The streaming decoder *)

Lemma Read_bit b i n err :
  0 <= i < 8 * Z.of_nat (length b) ->
  exists v, Read (MkBooleanDecoder b i n err) = Ret v /\ bools_of b !! Z.to_nat i = Some v.
Proof.
  intros Hi. destruct (bit_index i) as (E & Hm & H8); [lia|]. unfold Read. cbn [bd_i bd_b].
  assert (0 <= Z.shiftr i 3) by (apply Z.shiftr_nonneg; lia).
  destruct (Z.ltb_spec (Z.shiftr i 3) 0); [lia|]. rewrite E.
  assert (Hlt : (Z.to_nat i / 8 < length b)%nat) by (apply Nat.Div0.div_lt_upper_bound; lia).
  destruct (lookup_lt_is_Some_2 _ _ Hlt) as [v Hv]. rewrite Hv. cbn [or_panic obind].
  eexists. split; [reflexivity|]. rewrite bools_of_lookup, Hv. cbn [fmap option_fmap option_map].
  rewrite (proj2 (mask_pow (7 - Z.land i 7) ltac:(lia))), (proj1 (land_pow_eqb v (7 - Z.land i 7) ltac:(lia))), Hm.
  done.
Qed.

Lemma drain_bits b m : forall i n,
  n = i + 1 + Z.of_nat m -> -1 <= i -> n <= 8 * Z.of_nat (length b) ->
  drain (S m) (MkBooleanDecoder b i n None) = Ret (take m (drop (Z.to_nat (i + 1)) (bools_of b)), None).
Proof.
  induction m as [|m IH]; intros i n -> Hi Hb.
  - cbn [drain Next bd_err bd_i bd_b bd_n]. destruct (Z.ltb_spec (i + 1) (i + 1 + Z.of_nat 0)); [lia|]. by rewrite take_0.
  - set (sm := S m). cbn [drain Next bd_err bd_i bd_b bd_n]. unfold sm.
    destruct (Z.ltb_spec (i + 1) (i + 1 + Z.of_nat (S m))); [|lia].
    destruct (Read_bit b (i + 1) (i + 1 + Z.of_nat (S m)) None) as (v & -> & Hv); [lia|].
    cbn [obind]. rewrite (IH (i + 1)) by lia. cbn [obind].
    rewrite (drop_S (bools_of b) v (Z.to_nat (i + 1)) Hv). cbn [take].
    by replace (Z.to_nat (i + 1 + 1)) with (S (Z.to_nat (i + 1))) by lia.
Qed.

Lemma BooleanDecoder_agrees (d : BooleanDecoder) (b : list Z) (dst : list bool) :
  bd_err d = None -> b <> [] ->
  match BooleanArrayDecodeAll b dst with
  | Ret l => drain (S (length l)) (SetBytes d b) = Ret (l, None)
  | Fail _ => exists msg, drain 1 (SetBytes d b) = Ret ([], Some msg)
  | Panic => drain 1 (SetBytes d b) = Ret ([], None)
  end.
Proof.
  intros Hd Hne. destruct b as [|h bs]; [done|]. destruct (uvarint bs) as [val n] eqn:E.
  destruct (Z.leb_spec n 0) as [Hn|Hn].
  { unfold BooleanArrayDecodeAll, SetBytes. rewrite E. destruct (Z.leb_spec n 0); [|lia]. by eexists. }
  unfold SetBytes. rewrite E. destruct (Z.leb_spec n 0); [lia|]. rewrite Hd.
  destruct (Z.lt_ge_cases (i64 val) 0) as [Hc|Hc].
  - assert (BooleanArrayDecodeAll (h :: bs) dst = Panic) as ->.
    { unfold BooleanArrayDecodeAll. rewrite E. repeat (zcase; try lia). done. }
    cbn [drain Next bd_err bd_i bd_n]. repeat (zcase; try lia). done.
  - rewrite (DecodeAll_bits h bs val n dst E Hn Hc). set (rest := drop (Z.to_nat n) bs).
    rewrite (drain_bits rest _ (-1)); [|rewrite length_take, bools_of_length|lia|].
    + rewrite drop_0. do 2 f_equal. rewrite length_take. rewrite <- (firstn_all (bools_of rest)) at 3.
      rewrite take_take. done.
    + zcase; lia.
    + zcase; lia.
Qed.

(** On every non-empty block, well formed or not, the streaming decoder
    and [BooleanArrayDecodeAll] agree: they yield the same values, or both
    report an error; where the batch decoder panics the streaming one yields
    nothing. *)
Theorem BooleanDecoder_batch_equiv (d : BooleanDecoder) (b : list Z) (dst : list bool) :
  bd_err d = None -> b <> [] ->
  match BooleanArrayDecodeAll b dst with
  | Ret l => drain (S (length l)) (SetBytes d b) = Ret (l, None)
  | Fail _ => exists msg, drain 1 (SetBytes d b) = Ret ([], Some msg)
  | Panic => drain 1 (SetBytes d b) = Ret ([], None)
  end.
Proof. apply BooleanDecoder_agrees. Qed.

Lemma BooleanDecoder_batch_equiv_witness :
  drain 3 (SetBytes zeroBooleanDecoder [16; 2; 128]) = Ret ([true; false], None).
Proof.
  exact (BooleanDecoder_batch_equiv zeroBooleanDecoder [16; 2; 128] [] eq_refl ltac:(discriminate)).
Defined.

(** [BooleanArrayDecodeAll] panics exactly on the blocks whose encoded
    count is a negative [int]: [count >= 2^63] slips past the truncation check
    and [dst[:count]] is out of range. *)
Theorem BooleanArrayDecodeAll_panics (b : list Z) (dst : list bool) :
  BooleanArrayDecodeAll b dst = Panic <->
  exists h bs val n, b = h :: bs /\ uvarint bs = (val, n) /\ 0 < n /\ i64 val < 0.
Proof.
  split.
  - destruct b as [|h bs]; [done|]. destruct (uvarint bs) as [val n] eqn:E. intros H.
    assert (Hn : 0 < n).
    { unfold BooleanArrayDecodeAll in H. rewrite E in H. by destruct (Z.leb_spec n 0). }
    exists h, bs, val, n. split_and!; [done..|].
    destruct (Z.lt_ge_cases (i64 val) 0) as [|Hc]; [done|].
    by rewrite (DecodeAll_bits h bs val n dst E Hn Hc) in H.
  - intros (h & bs & val & n & -> & E & Hn & Hc). unfold BooleanArrayDecodeAll. rewrite E.
    repeat (zcase; try lia). done.
Qed.
End BoolCodec.
