(* ===== verification/StringCodec.v ===== *)
(** * tsdb/engine/tsm1: the string codecs

    Models [string.go] (the streaming [StringEncoder] and [StringDecoder]) and
    [batch_string.go] ([StringArrayEncodeAll], [StringArrayDecodeAll]).  A
    block is a header byte followed by the snappy compression of the strings,
    each preceded by its varint length.  The compressor
    (github.com/golang/snappy) is the parameter [Snappy], with its documented
    contract [SnappyOk].  The theorems show the round trips, that the two
    decoders agree on every block and never panic, and how an oversized or an
    empty input is encoded. *)
From S2P Require Import Prelude.

(** ** The compressor

    [sn_Encode dst src] is [snappy.Encode(dst, src)]: the contents of [dst]
    after the call and the slice returned. *)
Class Snappy := {
  sn_MaxEncodedLen : Z -> Z;
  sn_Encode : list Z -> list Z -> outcome (list Z * list Z);
  sn_Decode : list Z -> option (list Z) }.

(** The documented contract: [MaxEncodedLen] is negative when the source is
    too long and otherwise bounds the encoded length; the result is a prefix
    of [dst] when [dst] is at least that long; [Decode] inverts [Encode]; one
    zero byte is the encoding of nothing. *)
Class SnappyOk (N : Snappy) := {
  sn_neg n : sn_MaxEncodedLen n < 0 -> sn_MaxEncodedLen n = -1;
  sn_mono m n : 0 <= m <= n -> 0 <= sn_MaxEncodedLen n ->
    0 <= sn_MaxEncodedLen m <= sn_MaxEncodedLen n;
  sn_encode dst src : 0 <= sn_MaxEncodedLen (Z.of_nat (length src)) ->
    exists dst' res, sn_Encode dst src = Ret (dst', res) /\ sn_Decode res = Some src /\
      length dst' = length dst /\
      (sn_MaxEncodedLen (Z.of_nat (length src)) <= Z.of_nat (length dst) ->
        (length res <= length dst)%nat /\ take (length res) dst' = res);
  sn_empty : sn_Decode [0] = Some [] }.

(** A store-only instance: a zero byte and the source itself. *)
#[export] Instance store_snappy : Snappy := {
  sn_MaxEncodedLen n :=
    if (n <? 0) || (4294967295 <? 32 + n + n / 6) then -1 else 32 + n + n / 6;
  sn_Encode dst src :=
    let res := 0 :: src in
    if (length res <=? length dst)%nat then Ret (res ++ drop (length res) dst, res) else Ret (dst, res);
  sn_Decode b := match b with 0 :: b => Some b | _ => None end }.

#[export] Instance store_snappy_ok : SnappyOk store_snappy.
Proof.
  split; cbn [sn_MaxEncodedLen sn_Encode sn_Decode store_snappy].
  - intros n. destruct (Z.ltb_spec n 0); [done|]. cbn [orb]. destruct (_ <? _); [done|].
    pose proof (Z.div_pos n 6). lia.
  - intros m n Hm. destruct (Z.ltb_spec n 0); [lia|]. destruct (Z.ltb_spec m 0); [lia|]. cbn [orb].
    pose proof (Z.div_pos m 6). pose proof (Z.div_le_mono m n 6).
    destruct (Z.ltb_spec 4294967295 (32 + n + n / 6)), (Z.ltb_spec 4294967295 (32 + m + m / 6)); lia.
  - intros dst src H. destruct (Nat.leb_spec (length (0 :: src)) (length dst)) as [Hl|Hl];
      do 2 eexists; (split; [reflexivity|]); (split; [reflexivity|]).
    + split; [rewrite length_app, length_drop; lia|]. intros _. split; [done|]. apply take_app_length.
    + split; [done|]. intros Hd. exfalso. cbn [length] in Hl. pose proof (Z.div_pos (Z.of_nat (length src)) 6).
      destruct (Z.ltb_spec (Z.of_nat (length src)) 0); [lia|]. cbn [orb] in *.
      destruct (_ <? _); lia.
  - done.
Qed.

Module StringCodec.
Section WithSnappy.
Context `{N : Snappy}.

Definition stringCompressedSnappy : Z := 1.

(** ** The streaming encoder: strings are byte sequences *)

Record StringEncoder := MkStringEncoder { se_bytes : list Z }.

Definition NewStringEncoder : StringEncoder := MkStringEncoder [].
Definition Reset (e : StringEncoder) : StringEncoder := MkStringEncoder [].

Definition Write (e : StringEncoder) (s : list Z) : StringEncoder :=
  MkStringEncoder ((se_bytes e ++ put_uvarint (Z.of_nat (length s))) ++ s).

Definition Bytes (e : StringEncoder) : outcome (list Z) :=
  let! (_, data) := sn_Encode [] (se_bytes e) in
  Ret (Z.shiftl stringCompressedSnappy 4 :: data).

Definition WriteAll (e : StringEncoder) (ss : list (list Z)) : StringEncoder := fold_left Write ss e.

(** ** The streaming decoder *)

Record StringDecoder := MkStringDecoder {
  sd_b : list Z;
  sd_l : Z;
  sd_i : Z;
  sd_err : option string }.

Definition zeroStringDecoder : StringDecoder := MkStringDecoder [] 0 0 None.

(** The decoder is unchanged when decompression fails. *)
Definition SetBytes (d : StringDecoder) (b : list Z) : StringDecoder * option string :=
  match b with
  | [] => (MkStringDecoder [] 0 0 None, None)
  | _ :: b' =>
    match sn_Decode b' with
    | None => (d, Some "failed to decode string block"%string)
    | Some data => (MkStringDecoder data 0 0 None, None)
    end
  end.

Definition Next (d : StringDecoder) : StringDecoder * bool :=
  match sd_err d with
  | Some _ => (d, false)
  | None =>
    let i := i64 (sd_i d + sd_l d) in
    (MkStringDecoder (sd_b d) (sd_l d) i (sd_err d), i <? Z.of_nat (length (sd_b d)))
  end.

(** [b[i:]] and [b[lower:upper]]: out of range panics. *)
Definition slice_from (b : list Z) (i : Z) : outcome (list Z) :=
  if (i <? 0) || (Z.of_nat (length b) <? i) then Panic else Ret (drop (Z.to_nat i) b).
Definition slice_of (b : list Z) (lower upper : Z) : outcome (list Z) :=
  if (lower <? 0) || (upper <? lower) || (Z.of_nat (length b) <? upper) then Panic
  else Ret (take (Z.to_nat (upper - lower)) (drop (Z.to_nat lower) b)).

Definition Read (d : StringDecoder) : outcome (list Z * StringDecoder) :=
  let b := sd_b d in
  let! rest := slice_from b (sd_i d) in
  let '(length, n) := uvarint rest in
  if n <=? 0 then
    Ret ([], MkStringDecoder b (sd_l d) (sd_i d) (Some "StringDecoder: invalid encoded string length"%string))
  else
    let l := i64 (i64 length + n) in
    let lower := i64 (sd_i d + n) in
    let upper := i64 (lower + i64 length) in
    if upper <? lower then
      Ret ([], MkStringDecoder b l (sd_i d) (Some "StringDecoder: length overflow"%string))
    else if Z.of_nat (List.length b) <? upper then
      Ret ([], MkStringDecoder b l (sd_i d)
                 (Some "StringDecoder: not enough data to represent encoded string"%string))
    else
      let! s := slice_of b lower upper in
      Ret (s, MkStringDecoder b l (sd_i d) (sd_err d)).

Definition Error (d : StringDecoder) : option string := sd_err d.

(** [for d.Next() { values = append(values, d.Read()) }; d.Error()]. *)
Fixpoint drain (fuel : nat) (d : StringDecoder) : outcome (list (list Z) * option string) :=
  match fuel with
  | O => Panic
  | S f =>
    let '(d, more) := Next d in
    if more then
      let! (v, d) := Read d in
      let! (vs, err) := drain f d in
      Ret (v :: vs, err)
    else Ret ([], Error d)
  end.

(** ** The batch encoder *)

Definition ErrStringArrayEncodeTooLarge : string := "StringArrayEncodeAll: source length too large".

(** [srcSz64]: two bytes, five for each length, and the strings. *)
Definition srcSz64 (src : list (list Z)) : Z :=
  fold_left (fun acc s => i64 (acc + Z.of_nat (length s))) src (i64 (2 + Z.of_nat (length src) * 5)).

(** Overwrite [dta[n:]] with [xs], which fits. *)
Definition put_at (dta : list Z) (n : nat) (xs : list Z) : list Z :=
  take n dta ++ xs ++ drop (n + length xs) dta.

(** [for i := range src { n += binary.PutUvarint(dta[n:], uint64(len(src[i])));
    n += copy(dta[n:], src[i]) }]: [PutUvarint] panics on a short buffer, [copy]
    truncates. *)
Fixpoint write_strings (dta : list Z) (n : nat) (src : list (list Z)) : outcome (list Z * nat) :=
  match src with
  | [] => Ret (dta, n)
  | s :: src =>
    let v := put_uvarint (Z.of_nat (length s)) in
    if (length dta <? n + length v)%nat then Panic
    else
      let dta := put_at dta n v in
      let n := (n + length v)%nat in
      let c := take (length dta - n) s in
      write_strings (put_at dta n c) (n + length c) src
  end.

(** The bytes of the returned slice; [b] is given by its backing array. *)
Definition StringArrayEncodeAll (src : list (list Z)) (b : list Z) : outcome (list Z) :=
  let srcSz := srcSz64 src in
  if 4294967295 <? srcSz then Fail ErrStringArrayEncodeTooLarge
  else
    let mle := sn_MaxEncodedLen srcSz in
    if (0 <? length src)%nat && (mle =? -1) then Fail ErrStringArrayEncodeTooLarge
    else
      let compressedSz := if (0 <? length src)%nat then mle + 1 else 0 in
      let totSz := Z.to_nat (srcSz + compressedSz) in
      let b := if (length b <? totSz)%nat then replicate totSz 0 else b in
      if (length src =? 0)%nat then
        Ret (take 2 (<[0%nat := Z.shiftl stringCompressedSnappy 4]> b))
      else
        let c := Z.to_nat compressedSz in
        let! (dta, n) := write_strings (drop c (take totSz b)) 0 src in
        let! (dst, res) := sn_Encode (drop 1 (take c b)) (take n dta) in
        let b := Z.shiftl stringCompressedSnappy 4 :: dst ++ dta ++ drop totSz b in
        if (length b <? length res + 1)%nat then Panic
        else Ret (take (length res + 1) b).

(** ** The batch decoder

    [slack n] is the number of spare cells the runtime leaves when [append]
    reallocates a full slice of [n] cells. *)
Context (slack : nat -> nat).

Fixpoint decode_loop (fuel : nat) (b : list Z) (i : Z) (dst : list (list Z)) (j : nat)
  : outcome (list (list Z)) :=
  match fuel with
  | O => Panic
  | S f =>
    if i <? Z.of_nat (length b) then
      let! rest := slice_from b i in
      let '(length, n) := uvarint rest in
      if n <=? 0 then Fail "StringArrayDecodeAll: invalid encoded string length"
      else
        let l := i64 (i64 length + n) in
        let lower := i64 (i + n) in
        let upper := i64 (lower + i64 length) in
        if upper <? lower then Fail "StringArrayDecodeAll: length overflow"
        else if Z.of_nat (List.length b) <? upper then Fail "StringArrayDecodeAll: short buffer"
        else
          let! val := slice_of b lower upper in
          let dst :=
            if (j <? List.length dst)%nat then <[j := val]> dst
            else (dst ++ [val]) ++ replicate (slack (List.length dst)) [] in
          decode_loop f b (i64 (i + l)) dst (S j)
    else if (length dst <? j)%nat then Panic else Ret (take j dst)
  end.

Definition StringArrayDecodeAll (b : list Z) (dst : list (list Z)) : outcome (list (list Z)) :=
  match b with
  | [] => Ret []
  | _ :: b =>
    match sn_Decode b with
    | None => Fail "failed to decode string block"
    | Some b =>
      let dst := if (length dst =? 0)%nat then replicate 64 [] else dst in
      decode_loop (S (length b)) b 0 dst 0
    end
  end.

(** ** The uncompressed layout *)

Definition str_bytes (s : list Z) : list Z := put_uvarint (Z.of_nat (length s)) ++ s.
Definition strs_bytes (ss : list (list Z)) : list Z := ss ≫= str_bytes.

(** The strings of a decompressed block, or [None] when it is malformed. *)
Fixpoint split_strings (fuel : nat) (b : list Z) : option (list (list Z)) :=
  match fuel, b with
  | _, [] => Some []
  | O, _ => None
  | S f, _ =>
    let '(len, n) := uvarint b in
    if n <=? 0 then None
    else if (i64 len <? 0) || (Z.of_nat (length b) <? n + i64 len) then None
    else cons (take (Z.to_nat (i64 len)) (drop (Z.to_nat n) b)) <$>
           split_strings f (drop (Z.to_nat (n + i64 len)) b)
  end.

Lemma split_strings_roundtrip ss : forall fuel,
  Forall (fun s => Z.of_nat (length s) < 2 ^ 63) ss -> (length (strs_bytes ss) <= fuel)%nat ->
  split_strings fuel (strs_bytes ss) = Some ss.
Proof.
  induction ss as [|s ss IH]; intros fuel Hs Hf; [by destruct fuel|].
  apply Forall_cons_1 in Hs as [Hs Hss]. pose proof (put_uvarint_pos (Z.of_nat (length s))) as Hp.
  change (strs_bytes (s :: ss)) with (str_bytes s ++ strs_bytes ss) in *. unfold str_bytes in *.
  rewrite !length_app in Hf. rewrite <- app_assoc. set (v := put_uvarint (Z.of_nat (length s))) in *.
  destruct fuel as [|fuel]; [lia|]. destruct (v ++ s ++ strs_bytes ss) eqn:E.
  { destruct v; [simpl in Hp; lia|done]. }
  rewrite <- E. cbn [split_strings]. rewrite E, <- E. unfold v at 1. rewrite uvarint_put by (unint; lia).
  fold v. destruct (Z.leb_spec (Z.of_nat (length v)) 0); [lia|]. rewrite i64_id by (unint; lia).
  destruct (Z.ltb_spec (Z.of_nat (length s)) 0); [lia|].
  destruct (Z.ltb_spec (Z.of_nat (length (v ++ s ++ strs_bytes ss))) (Z.of_nat (length v) + Z.of_nat (length s)));
    [rewrite !length_app in *; lia|]. cbn [orb].
  replace (Z.to_nat (Z.of_nat (length v) + Z.of_nat (length s))) with (length (v ++ s)) by (rewrite length_app; lia).
  rewrite !Nat2Z.id, drop_app_length, take_app_length, app_assoc, drop_app_length, IH by (done || lia). done.
Qed.

(** The bounds computations of [Read] and of the batch loop: either one of the
    two checks fires, or the string lies inside the buffer. *)
Lemma string_bounds b i len n :
  0 <= i < Z.of_nat (length b) -> Z.of_nat (length b) < 2 ^ 62 ->
  uvarint (drop (Z.to_nat i) b) = (len, n) -> 0 < n ->
  let lower := i64 (i + n) in
  let upper := i64 (lower + i64 len) in
  if (i64 len <? 0) || (Z.of_nat (length (drop (Z.to_nat i) b)) <? n + i64 len)
  then (upper <? lower) || (Z.of_nat (length b) <? upper) = true
  else (upper <? lower) = false /\ (Z.of_nat (length b) <? upper) = false /\
    slice_of b lower upper =
      Ret (take (Z.to_nat (i64 len)) (drop (Z.to_nat n) (drop (Z.to_nat i) b))) /\
    0 <= i64 len /\ i64 (i + i64 (i64 len + n)) = i + (n + i64 len) /\
    i + (n + i64 len) <= Z.of_nat (length b).
Proof.
  intros Hi Hb E Hn. pose proof (uvarint_len _ _ _ E) as Hle. rewrite length_drop in *.
  pose proof (i64_range len) as Hr. set (k := i64 len) in *. clearbody k. cbv zeta.
  rewrite (i64_id (i + n)) by (unint; lia).
  destruct (Z.ltb_spec k 0) as [Hk|Hk]; cbn [orb].
  { rewrite (i64_id (i + n + k)) by (unint; lia). destruct (Z.ltb_spec (i + n + k) (i + n)); [done|lia]. }
  destruct (Z.ltb_spec (Z.of_nat (length b - Z.to_nat i)) (n + k)) as [Hs|Hs].
  - destruct (Z.lt_ge_cases (i + n + k) (2 ^ 63)).
    + rewrite (i64_id (i + n + k)) by (unint; lia). apply orb_true_iff. right. apply Z.ltb_lt. lia.
    + apply orb_true_iff. left. apply Z.ltb_lt.
      assert (i64 (i + n + k) = i + n + k - 2 ^ 64) as ->; [|unint; lia].
      rewrite <- (i64_id (i + n + k - 2 ^ 64)) by (unint; lia). apply i64_congr. unfold u64.
      replace (i + n + k - 2 ^ 64) with (i + n + k + (-1) * 2 ^ 64) by lia. by rewrite Z.mod_add by lia.
  - rewrite (i64_id (i + n + k)) by (unint; lia). rewrite (i64_id (k + n)), (i64_id (i + (k + n))) by (unint; lia).
    unfold slice_of. repeat (zcase; try lia). cbn [orb]. split_and!; try done; try lia.
    do 2 f_equal; [lia|]. rewrite drop_drop. f_equal. lia.
Qed.

(** ** The decoders compute [split_strings] *)

Lemma slice_from_ok b i : 0 <= i <= Z.of_nat (length b) -> slice_from b i = Ret (drop (Z.to_nat i) b).
Proof. intros H. unfold slice_from. repeat (zcase; try lia). done. Qed.

Lemma drop_nonempty {A} (b : list A) i :
  0 <= i < Z.of_nat (length b) -> exists x l, drop (Z.to_nat i) b = x :: l.
Proof.
  intros H. destruct (drop (Z.to_nat i) b) as [|x l] eqn:E; [|eauto].
  apply (f_equal length) in E. rewrite length_drop in E. simpl in E. lia.
Qed.

Lemma store_spec (dst : list (list Z)) j v :
  (j <= length dst)%nat ->
  let dst' := if (j <? length dst)%nat then <[j := v]> dst
              else (dst ++ [v]) ++ replicate (slack (length dst)) [] in
  (S j <= length dst')%nat /\ take (S j) dst' = take j dst ++ [v].
Proof.
  intros Hj. cbv zeta. destruct (Nat.ltb_spec j (length dst)) as [Hl|Hl].
  - rewrite length_insert. split; [lia|]. rewrite (take_S_r _ _ v) by (by apply list_lookup_insert_eq).
    by rewrite take_insert_ge by lia.
  - assert (j = length dst) as -> by lia. rewrite !length_app. simpl. split; [lia|].
    rewrite firstn_all. replace (S (length dst)) with (length (dst ++ [v])) by (rewrite length_app; simpl; lia).
    apply take_app_length.
Qed.

Lemma decode_loop_spec b : Z.of_nat (length b) < 2 ^ 62 -> forall fuel i dst j,
  0 <= i <= Z.of_nat (length b) -> (j <= length dst)%nat -> (length b - Z.to_nat i < fuel)%nat ->
  match split_strings (fuel - 1) (drop (Z.to_nat i) b) with
  | Some l => decode_loop fuel b i dst j = Ret (take j dst ++ l)
  | None => exists e, decode_loop fuel b i dst j = Fail e
  end.
Proof.
  intros Hb fuel. induction fuel as [|fuel IH]; intros i dst j Hi Hj Hf; [lia|].
  replace (S fuel - 1)%nat with fuel by lia. cbn [decode_loop].
  destruct (Z.ltb_spec i (Z.of_nat (length b))) as [Hlt|Hge].
  2: { rewrite drop_ge by lia. destruct (Nat.ltb_spec (length dst) j); [lia|]. destruct fuel; cbn [split_strings]; by rewrite app_nil_r. }
  rewrite slice_from_ok by lia. cbn [obind].
  destruct (drop_nonempty b i ltac:(lia)) as (x & l & E).
  destruct (uvarint (drop (Z.to_nat i) b)) as [len n] eqn:Eu.
  destruct fuel as [|f]; [lia|]. cbn [split_strings]. rewrite E, <- E, Eu.
  destruct (Z.leb_spec n 0) as [Hn|Hn]; [by eexists|].
  pose proof (string_bounds b i len n ltac:(lia) Hb Eu Hn) as S. cbv zeta in S.
  destruct ((i64 len <? 0) || _).
  - destruct (_ <? i64 (i + n)); [by eexists|]. cbn [orb] in S. rewrite S. by eexists.
  - destruct S as (-> & -> & -> & Hk & -> & Hup). cbn [obind].
    destruct (store_spec dst j (take (Z.to_nat (i64 len)) (drop (Z.to_nat n) (drop (Z.to_nat i) b))) Hj) as [Hj' Ht].
    specialize (IH (i + (n + i64 len)) _ _ ltac:(lia) Hj' ltac:(lia)).
    replace (S f - 1)%nat with f in IH by lia.
    rewrite (drop_drop b (Z.to_nat (n + i64 len))).
    replace (Z.to_nat i + Z.to_nat (n + i64 len))%nat with (Z.to_nat (i + (n + i64 len))) by lia.
    destruct (split_strings f _); cbn [fmap option_fmap option_map]; [|exact IH].
    rewrite IH, Ht, <- app_assoc. done.
Qed.

Lemma string_drain_S f d : drain (S f) d =
  let '(d, more) := Next d in
  if more then let! (v, d) := Read d in let! (vs, err) := drain f d in Ret (v :: vs, err)
  else Ret ([], Error d).
Proof. reflexivity. Qed.

(** A decoder about to read the string at offset [i]. *)
Lemma drain_spec b : Z.of_nat (length b) < 2 ^ 62 -> forall fuel l i,
  0 <= i64 (i + l) <= Z.of_nat (length b) -> (length b - Z.to_nat (i64 (i + l)) < fuel)%nat ->
  match split_strings (fuel - 1) (drop (Z.to_nat (i64 (i + l))) b) with
  | Some ss => drain fuel (MkStringDecoder b l i None) = Ret (ss, None)
  | None => exists ss e, drain (S fuel) (MkStringDecoder b l i None) = Ret (ss, Some e)
  end.
Proof.
  intros Hb fuel. induction fuel as [|fuel IH]; intros l0 i0 Hi Hf; [lia|].
  replace (S fuel - 1)%nat with fuel by lia. rewrite (string_drain_S fuel), (string_drain_S (S fuel)).
  set (rec := drain (S fuel)). cbn [Next sd_err sd_i sd_l sd_b].
  set (i := i64 (i0 + l0)) in *.
  destruct (Z.ltb_spec i (Z.of_nat (length b))) as [Hlt|Hge].
  2: { rewrite drop_ge by lia. by destruct fuel. }
  unfold Read. cbn [sd_b sd_i sd_l sd_err]. rewrite slice_from_ok by lia. cbn [obind].
  destruct (drop_nonempty b i ltac:(lia)) as (x & l & E).
  destruct (uvarint (drop (Z.to_nat i) b)) as [len n] eqn:Eu.
  destruct fuel as [|f]; [lia|]. cbn [split_strings]. rewrite E, <- E, Eu.
  assert (Herr : forall l e, exists ss e', (let! (vs, err) := rec (MkStringDecoder b l i (Some e)) in
                   Ret ([] :: vs, err)) = Ret (ss, Some e')) by (intros; do 2 eexists; reflexivity).
  destruct (Z.leb_spec n 0) as [Hn|Hn]; [apply Herr|].
  pose proof (string_bounds b i len n ltac:(lia) Hb Eu Hn) as S. cbv zeta in S.
  destruct ((i64 len <? 0) || _).
  - destruct (_ <? i64 (i + n)); [apply Herr|]. cbn [orb] in S. rewrite S. apply Herr.
  - destruct S as (-> & -> & -> & Hk & Ei & Hup). cbn [obind].
    specialize (IH (i64 (i64 len + n)) i). rewrite Ei in IH. specialize (IH ltac:(lia) ltac:(lia)).
    replace (S f - 1)%nat with f in IH by lia.
    rewrite (drop_drop b (Z.to_nat (n + i64 len))).
    replace (Z.to_nat i + Z.to_nat (n + i64 len))%nat with (Z.to_nat (i + (n + i64 len))) by lia.
    destruct (split_strings f _); cbn [fmap option_fmap option_map].
    + by rewrite IH.
    + destruct IH as (ss & e & IH). unfold rec. rewrite IH. by do 2 eexists.
Qed.

Lemma StringDecoder_agrees (d : StringDecoder) (b : list Z) (dst : list (list Z)) :
  (forall h bs data, b = h :: bs -> sn_Decode bs = Some data -> Z.of_nat (length data) < 2 ^ 62) ->
  match StringArrayDecodeAll b dst with
  | Ret ss => exists d' fuel, SetBytes d b = (d', None) /\ drain fuel d' = Ret (ss, None)
  | Fail _ => exists d' err, SetBytes d b = (d', err) /\
      (err <> None \/ exists fuel ss e, drain fuel d' = Ret (ss, Some e))
  | Panic => False
  end.
Proof.
  intros Hb. destruct b as [|h bs].
  { eexists _, 1%nat. split; reflexivity. }
  unfold StringArrayDecodeAll, SetBytes. destruct (sn_Decode bs) as [data|] eqn:E.
  2: { do 2 eexists. split; [reflexivity|]. by left. }
  specialize (Hb h bs data eq_refl E). set (ds := if (_ =? 0)%nat then _ else _).
  pose proof (decode_loop_spec data Hb (S (length data)) 0 ds 0 ltac:(lia) ltac:(lia) ltac:(lia)) as H1.
  pose proof (drain_spec data Hb (S (length data)) 0 0) as H2.
  change (i64 (0 + 0)) with 0 in H2. specialize (H2 ltac:(lia) ltac:(lia)).
  destruct (split_strings _ _) as [ss|].
  - rewrite H1. eexists _, _. split; [reflexivity|]. exact H2.
  - destruct H1 as [e ->]. do 2 eexists. split; [reflexivity|]. right. destruct H2 as (ss & e' & H2). eauto.
Qed.

(** On every block the batch and the streaming string decoders agree, and
    neither panics: they return the same strings, or both report an error. *)
Theorem StringDecoder_batch_equiv (d : StringDecoder) (b : list Z) (dst : list (list Z)) :
  (forall h bs data, b = h :: bs -> sn_Decode bs = Some data -> Z.of_nat (length data) < 2 ^ 62) ->
  match StringArrayDecodeAll b dst with
  | Ret ss => exists d' fuel, SetBytes d b = (d', None) /\ drain fuel d' = Ret (ss, None)
  | Fail _ => exists d' err, SetBytes d b = (d', err) /\
      (err <> None \/ exists fuel ss e, drain fuel d' = Ret (ss, Some e))
  | Panic => False
  end.
Proof. apply StringDecoder_agrees. Qed.

(** ** Encoding *)

(** The size the batch encoder reserves for the uncompressed strings. *)
Definition block_size (src : list (list Z)) : Z :=
  2 + Z.of_nat (length src) * 5 + Z.of_nat (length (concat src)).

Lemma srcSz64_eq src : block_size src < 2 ^ 63 -> srcSz64 src = block_size src.
Proof.
  unfold block_size, srcSz64. set (z := 2 + Z.of_nat (length src) * 5). assert (Hz : 0 <= z) by lia.
  clearbody z. revert z Hz. induction src as [|s src IH]; intros z Hz H; cbn [fold_left concat length] in *.
  - rewrite i64_id by (unint; lia). lia.
  - rewrite length_app in H. rewrite (i64_id z) by (unint; lia). rewrite IH by lia.
    rewrite length_app. lia.
Qed.

Lemma strs_bytes_length src :
  block_size src <= 4294967295 -> Z.of_nat (length (strs_bytes src)) <= block_size src - 2 /\
  Forall (fun s => Z.of_nat (length s) < 2 ^ 35) src.
Proof.
  unfold block_size. induction src as [|s src IH]; intros H; [done|].
  change (strs_bytes (s :: src)) with (str_bytes s ++ strs_bytes src).
  cbn [length concat] in *. unfold str_bytes. rewrite !length_app in *.
  assert (Hv : (length (put_uvarint (Z.of_nat (length s))) <= 5)%nat) by (apply (put_uvarint_bound 4); simpl; lia).
  destruct IH as [IH1 IH2]; [lia|]. split; [lia|]. constructor; [lia|done].
Qed.

Lemma put_at_spec dta n xs :
  (n + length xs <= length dta)%nat ->
  length (put_at dta n xs) = length dta /\ take (n + length xs) (put_at dta n xs) = take n dta ++ xs.
Proof.
  intros H. unfold put_at. split.
  - rewrite !length_app, length_take, length_drop. lia.
  - rewrite app_assoc. apply take_app_length'. rewrite length_app, length_take. lia.
Qed.

Lemma write_strings_spec src : forall dta n,
  (n + length (strs_bytes src) <= length dta)%nat ->
  exists dta', write_strings dta n src = Ret (dta', n + length (strs_bytes src))%nat /\
    length dta' = length dta /\ take (n + length (strs_bytes src)) dta' = take n dta ++ strs_bytes src.
Proof.
  induction src as [|s src IH]; intros dta n H.
  - exists dta. cbn [write_strings]. unfold strs_bytes. cbn [mbind list_bind length].
    by rewrite Nat.add_0_r, app_nil_r.
  - change (strs_bytes (s :: src)) with (str_bytes s ++ strs_bytes src) in *.
    unfold str_bytes in *. cbn [write_strings]. set (v := put_uvarint (Z.of_nat (length s))) in *.
    rewrite !length_app in *. destruct (Nat.ltb_spec (length dta) (n + length v)); [lia|].
    destruct (put_at_spec dta n v) as [L1 T1]; [lia|]. set (d1 := put_at dta n v) in *.
    rewrite (take_ge s) by lia. destruct (put_at_spec d1 (n + length v) s) as [L2 T2]; [lia|].
    set (d2 := put_at d1 (n + length v) s) in *.
    destruct (IH d2 (n + length v + length s)%nat) as (d' & E & L & T); [lia|].
    exists d'. replace (n + (length v + length s + length (strs_bytes src)))%nat
      with (n + length v + length s + length (strs_bytes src))%nat by lia.
    split_and!; [done|congruence|]. by rewrite T, T2, T1, <- !app_assoc.
Qed.

Context {NO : SnappyOk N}.

(** A compressed block of strings decodes to them. *)
Lemma DecodeAll_block h res ss dst :
  sn_Decode res = Some (strs_bytes ss) -> Forall (fun s => Z.of_nat (length s) < 2 ^ 35) ss ->
  Z.of_nat (length (strs_bytes ss)) < 2 ^ 62 ->
  StringArrayDecodeAll (h :: res) dst = Ret ss.
Proof.
  intros E Hs Hl. unfold StringArrayDecodeAll. rewrite E. set (ds := if (_ =? 0)%nat then _ else _).
  pose proof (decode_loop_spec (strs_bytes ss) Hl (S (length (strs_bytes ss))) 0 ds 0 ltac:(lia) ltac:(lia) ltac:(lia)) as H.
  change (Z.to_nat 0) with 0%nat in H. rewrite drop_0, split_strings_roundtrip in H; [done| |lia].
  eapply Forall_impl; [exact Hs|]. cbv beta. lia.
Qed.

Lemma StringArray_decodes (src : list (list Z)) (b : list Z) (dst : list (list Z)) :
  src <> [] -> block_size src < 2 ^ 63 ->
  if (4294967295 <? block_size src) || (sn_MaxEncodedLen (block_size src) <? 0)
  then StringArrayEncodeAll src b = Fail ErrStringArrayEncodeTooLarge
  else exists bytes, StringArrayEncodeAll src b = Ret bytes /\ StringArrayDecodeAll bytes dst = Ret src.
Proof.
  intros Hne Hsz. unfold StringArrayEncodeAll. rewrite srcSz64_eq by done.
  set (sz := block_size src) in *. destruct (Z.ltb_spec 4294967295 sz) as [|Hmax]; [done|]. cbn [orb].
  assert (Hpos : (0 <? length src)%nat = true) by (destruct src; [done|reflexivity]).
  assert (Hz : (length src =? 0)%nat = false) by (destruct src; [done|reflexivity]).
  rewrite Hpos, Hz. cbn [andb].
  destruct (Z.ltb_spec (sn_MaxEncodedLen sz) 0) as [Hneg|Hmle]; [by rewrite (sn_neg _ Hneg)|].
  destruct (Z.eqb_spec (sn_MaxEncodedLen sz) (-1)); [lia|]. set (mle := sn_MaxEncodedLen sz) in *.
  destruct (strs_bytes_length src Hmax) as [Hlen Hs]. fold sz in Hlen.
  set (tot := Z.to_nat (sz + (mle + 1))). set (c := Z.to_nat (mle + 1)).
  set (b1 := if (_ <? tot)%nat then _ else b).
  assert (Hb1 : (tot <= length b1)%nat).
  { unfold b1. destruct (Nat.ltb_spec (length b) tot); [by rewrite length_replicate|lia]. }
  destruct (write_strings_spec src (drop c (take tot b1)) 0) as (dta & -> & Ld & T).
  { rewrite length_drop, length_take. unfold tot, c in *. lia. }
  cbn [obind]. rewrite Nat.add_0_l in *. rewrite take_0 in T. cbn [app] in T. rewrite T.
  destruct (sn_mono (Z.of_nat (length (strs_bytes src))) sz ltac:(lia) Hmle) as [Hm0 Hm1]. fold mle in Hm1.
  destruct (sn_encode (drop 1 (take c b1)) (strs_bytes src) Hm0) as (dst' & res & -> & Hdec & Ld' & Hin).
  cbn [obind]. destruct Hin as [Hr1 Hr2].
  { rewrite length_drop, length_take. unfold tot, c in *. lia. }
  set (blk := Z.shiftl stringCompressedSnappy 4 :: _).
  destruct (Nat.ltb_spec (length blk) (length res + 1)) as [Hbad|_].
  { unfold blk in Hbad. cbn [length] in Hbad. rewrite length_app in Hbad. lia. }
  eexists. split; [reflexivity|]. unfold blk. rewrite Nat.add_1_r. cbn [take].
  rewrite take_app_le by lia. rewrite Hr2. apply DecodeAll_block; [done|done|unfold sz in *; lia].
Qed.

(** [StringArrayEncodeAll] refuses exactly the inputs whose reserved size
    exceeds [math.MaxUint32] or the compressor's limit, without panicking on
    either path; any other non-empty input is decoded by
    [StringArrayDecodeAll], whatever the buffers held. *)
Theorem StringArray_roundtrip (src : list (list Z)) (b : list Z) (dst : list (list Z)) :
  src <> [] -> block_size src < 2 ^ 63 ->
  if (4294967295 <? block_size src) || (sn_MaxEncodedLen (block_size src) <? 0)
  then StringArrayEncodeAll src b = Fail ErrStringArrayEncodeTooLarge
  else exists bytes, StringArrayEncodeAll src b = Ret bytes /\ StringArrayDecodeAll bytes dst = Ret src.
Proof. apply StringArray_decodes. Qed.

Lemma WriteAll_bytes e ss : se_bytes (WriteAll e ss) = se_bytes e ++ strs_bytes ss.
Proof.
  revert e. induction ss as [|s ss IH]; intros e; [by rewrite app_nil_r|].
  cbn [WriteAll fold_left]. fold (WriteAll (Write e s) ss). rewrite IH. cbn [Write se_bytes].
  change (strs_bytes (s :: ss)) with (str_bytes s ++ strs_bytes ss). unfold str_bytes. by rewrite <- !app_assoc.
Qed.

Lemma StringEncoder_layout e ss :
  0 <= sn_MaxEncodedLen (Z.of_nat (length (strs_bytes ss))) ->
  exists res, Bytes (WriteAll (Reset e) ss) = Ret (Z.shiftl stringCompressedSnappy 4 :: res) /\
    sn_Decode res = Some (strs_bytes ss).
Proof.
  intros Hm. unfold Bytes. rewrite WriteAll_bytes. cbn [Reset se_bytes app].
  destruct (sn_encode [] (strs_bytes ss) Hm) as (dst' & res & -> & Hdec & _). by exists res.
Qed.

(** Strings written to a reset [StringEncoder] are returned by the batch
    decoder from its [Bytes]. *)
Theorem StringEncoder_roundtrip (e : StringEncoder) (ss dst : list (list Z)) :
  block_size ss <= 4294967295 -> 0 <= sn_MaxEncodedLen (Z.of_nat (length (strs_bytes ss))) ->
  exists bytes, Bytes (WriteAll (Reset e) ss) = Ret bytes /\ StringArrayDecodeAll bytes dst = Ret ss.
Proof.
  intros Hsz Hm. destruct (strs_bytes_length ss Hsz) as [Hl Hs].
  destruct (StringEncoder_layout e ss Hm) as (res & -> & Hdec). eexists. split; [reflexivity|].
  apply DecodeAll_block; [done|done|lia].
Qed.

(** The shortcut for an empty input writes only the header byte: the second
    byte of the block is whatever the reused buffer held, so the block is the
    encoding of nothing only when that byte is zero. *)
Theorem StringArrayEncodeAll_empty (b : list Z) :
  StringArrayEncodeAll [] b = Ret [Z.shiftl stringCompressedSnappy 4; default 0 (b !! 1%nat)].
Proof.
  unfold StringArrayEncodeAll, srcSz64. cbn [length fold_left]. change (i64 (2 + Z.of_nat 0 * 5)) with 2.
  cbn [Z.ltb Z.compare Pos.compare Pos.compare_cont Nat.ltb Nat.leb andb Nat.eqb].
  change (Z.to_nat (2 + 0)) with 2%nat.
  destruct b as [|x [|y b]]; reflexivity.
Qed.
End WithSnappy.

Lemma StringDecoder_batch_equiv_witness :
  exists d' fuel, SetBytes zeroStringDecoder [16; 0; 1; 65; 2; 66; 67] = (d', None) /\
    drain fuel d' = Ret ([[65]; [66; 67]], None).
Proof.
  assert (H : forall h bs data, [16; 0; 1; 65; 2; 66; 67] = h :: bs -> sn_Decode bs = Some data ->
                Z.of_nat (length data) < 2 ^ 62).
  { intros h bs data E. injection E as <- <-. intros E. injection E as <-. reflexivity. }
  pose proof (StringDecoder_batch_equiv (fun n => n) zeroStringDecoder [16; 0; 1; 65; 2; 66; 67] [] H) as W.
  assert (E : StringArrayDecodeAll (fun n => n) [16; 0; 1; 65; 2; 66; 67] [] = Ret [[65]; [66; 67]])
    by (vm_compute; reflexivity).
  rewrite E in W. exact W.
Defined.

Lemma StringArray_roundtrip_witness :
  exists bytes, StringArrayEncodeAll [[65]; [66; 67]] [1; 2; 3] = Ret bytes /\
    StringArrayDecodeAll (fun n => n) bytes [] = Ret [[65]; [66; 67]].
Proof.
  assert (H : block_size [[65]; [66; 67]] < 2 ^ 63) by reflexivity.
  exact (StringArray_roundtrip (fun n => n) [[65]; [66; 67]] [1; 2; 3] [] ltac:(discriminate) H).
Defined.

Lemma StringEncoder_roundtrip_witness :
  exists bytes, Bytes (WriteAll (Reset NewStringEncoder) [[65]; []]) = Ret bytes /\
    StringArrayDecodeAll (fun n => n) bytes [] = Ret [[65]; []].
Proof.
  apply (StringEncoder_roundtrip (fun n => n) NewStringEncoder [[65]; []] []); vm_compute; discriminate.
Defined.
End StringCodec.
