(* ===== verification/Platform.v ===== *)
(** * kit/platform: identifiers and errors

    Models [kit/platform/errors] as far as error codes go ([Error],
    [ErrorCode]) and [kit/platform/id.go] ([ID] with [Encode], [Decode],
    [String], [Scan]): an identifier is a non-zero 64-bit number written as
    sixteen hexadecimal digits.  The theorems show the text round trip in both
    directions. *)
From S2P Require Import Prelude.
From Stdlib Require Import Ascii.
#[global] Open Scope Z_scope.

Module Errors.
Definition EInternal : string := "internal error".
Definition ENotFound : string := "not found".
Definition EConflict : string := "conflict".
Definition EInvalid : string := "invalid".
Definition EForbidden : string := "forbidden".
Definition EUnauthorized : string := "unauthorized".

(** An [error]: one from the standard [errors] package, or a platform
    [*errors.Error] with its code and message, wrapping another error or not. *)
Inductive error : Type :=
| Plain (msg : string)
| Platform (code msg : string)
| Wrap (code msg : string) (err : error).

Fixpoint ErrorCode_of (e : error) : string :=
  match e with
  | Plain _ => EInternal
  | Platform c _ => if bool_decide (c <> ""%string) then c else EInternal
  | Wrap c _ err => if bool_decide (c <> ""%string) then c else ErrorCode_of err
  end.

(** [ErrorCode(err)]; [None] is the nil error. *)
Definition ErrorCode (err : option error) : string :=
  match err with None => ""%string | Some e => ErrorCode_of e end.

(** A non-nil error always has a code. *)
Lemma ErrorCode_of_nonempty (e : error) : ErrorCode_of e <> ""%string.
Proof. induction e; cbn [ErrorCode_of]; [done|by case_bool_decide..]. Qed.
End Errors.

Module PlatformID.
Import Errors.

Definition IDLength : nat := 16.
Definition ErrInvalidID : error := Platform EInvalid "invalid ID".
Definition ErrInvalidIDLength : error := Platform EInvalid "id must have a length of 16 bytes".

Definition ID := Z.
Definition InvalidID : ID := 0.
Definition Valid (i : ID) : bool := negb (i =? 0).

(** Texts are byte lists.  [hex.Encode] writes lower-case digits. *)
Definition hex_digit (d : Z) : Z := if d <? 10 then 48 + d else 87 + d.

Fixpoint hex_Encode (b : list Z) : list Z :=
  match b with
  | [] => []
  | x :: b => hex_digit (Z.shiftr x 4) :: hex_digit (Z.land x 15) :: hex_Encode b
  end.

Definition Encode (i : ID) : list Z + error :=
  if negb (Valid i) then inr ErrInvalidID
  else inl (hex_Encode (be_put 8 i)).

(** [strconv.ParseUint(s, 16, 64)] on one digit: both cases are accepted, any
    other character is a syntax error. *)
Definition digit_value (c : Z) : option Z :=
  if (48 <=? c) && (c <=? 57) then Some (c - 48)
  else if (97 <=? c) && (c <=? 102) then Some (c - 97 + 10)
  else if (65 <=? c) && (c <=? 70) then Some (c - 65 + 10)
  else None.

(** [ParseUint] in base 16: [None] is a syntax or a range error. *)
Fixpoint parse_hex (s : list Z) (n : Z) : option Z :=
  match s with
  | [] => Some n
  | c :: s =>
    match digit_value c with
    | None => None
    | Some d => if 2 ^ 60 <=? n then None else parse_hex s (n * 16 + d)
    end
  end.
Definition ParseUint16 (s : list Z) : option Z :=
  match s with [] => None | _ => parse_hex s 0 end.

(** The new value of [*i] and the error returned. *)
Definition Decode (i : ID) (b : list Z) : ID * option error :=
  if negb (length b =? IDLength)%nat then (i, Some ErrInvalidIDLength)
  else
    match ParseUint16 b with
    | None => (i, Some ErrInvalidID)
    | Some res => (res, if negb (Valid res) then Some ErrInvalidID else None)
    end.

Definition DecodeFromString (i : ID) (s : list Z) : ID * option error := Decode i s.
Definition MarshalText (i : ID) : list Z + error := Encode i.
Definition UnmarshalText (i : ID) (b : list Z) : ID * option error := Decode i b.

Definition IDFromString (s : list Z) : ID + error :=
  match DecodeFromString 0 s with
  | (id, None) => inl id
  | (_, Some err) => inr err
  end.

(** [String]: empty for an invalid identifier. *)
Definition String (i : ID) : list Z :=
  match Encode i with inl enc => enc | inr _ => [] end.

(** Lower-casing of the hexadecimal digits. *)
Definition lower (c : Z) : Z := if (65 <=? c) && (c <=? 70) then c + 32 else c.

(** ** Round trips *)

Lemma digit_value_hex d : 0 <= d < 16 -> digit_value (hex_digit d) = Some d.
Proof.
  intros H. unfold hex_digit, digit_value. destruct (Z.ltb_spec d 10).
  - destruct (Z.leb_spec 48 (48 + d)), (Z.leb_spec (48 + d) 57); try lia. cbn [andb]. f_equal. lia.
  - destruct (Z.leb_spec 48 (87 + d)), (Z.leb_spec (87 + d) 57), (Z.leb_spec 97 (87 + d)),
      (Z.leb_spec (87 + d) 102); try lia. cbn [andb]. f_equal. lia.
Qed.

Lemma hex_digit_value c d : digit_value c = Some d -> 0 <= d < 16 /\ hex_digit d = lower c.
Proof.
  unfold digit_value, hex_digit, lower. intros E.
  destruct (Z.leb_spec 48 c), (Z.leb_spec c 57), (Z.leb_spec 97 c), (Z.leb_spec c 102),
    (Z.leb_spec 65 c), (Z.leb_spec c 70); cbn [andb] in E; try discriminate E; try lia;
    injection E as <-; (split; [lia|]); destruct (Z.ltb_spec (c - 48) 10), (Z.ltb_spec (c - 97 + 10) 10),
      (Z.ltb_spec (c - 65 + 10) 10); cbn [andb]; lia.
Qed.

(** Reading the two digits of a byte. *)
Lemma parse_hex_byte x s acc :
  is_byte x -> 0 <= acc < 2 ^ 56 ->
  parse_hex (hex_digit (Z.shiftr x 4) :: hex_digit (Z.land x 15) :: s) acc = parse_hex s (acc * 256 + x).
Proof.
  intros Hx Ha. change 15 with (2 ^ 4 - 1). rewrite land_ones_mod by lia.
  rewrite Z.shiftr_div_pow2 by lia. change (2 ^ 4) with 16. unint.
  pose proof (Z.div_mod x 16 ltac:(lia)). pose proof (Z.mod_pos_bound x 16 ltac:(lia)).
  assert (0 <= x / 16 < 16) by (split; [apply Z.div_pos|apply Z.div_lt_upper_bound]; lia).
  cbn [parse_hex]. rewrite !digit_value_hex by lia.
  destruct (Z.leb_spec (2 ^ 60) acc); [lia|]. destruct (Z.leb_spec (2 ^ 60) (acc * 16 + x / 16)); [lia|].
  f_equal. lia.
Qed.

Lemma parse_hex_Encode b : forall acc,
  Forall is_byte b -> 0 <= acc -> (acc + 1) * 256 ^ Z.of_nat (length b) <= 2 ^ 64 ->
  parse_hex (hex_Encode b) acc = Some (acc * 256 ^ Z.of_nat (length b) + be_get b).
Proof.
  induction b as [|x b IH]; intros acc Hb Ha Hl.
  - cbn [hex_Encode parse_hex]. unfold be_get. f_equal. simpl. lia.
  - apply Forall_cons_1 in Hb as [Hx Hb]. cbn [length] in *. rewrite Nat2Z.inj_succ, Z.pow_succ_r in * by lia.
    set (P := 256 ^ Z.of_nat (length b)) in *. assert (0 < P) by (apply Z.pow_pos_nonneg; lia).
    pose proof Hx as Hx'. unint. cbn [hex_Encode]. rewrite parse_hex_byte by (unint; nia). rewrite IH by (done || nia).
    fold P. f_equal. rewrite be_get_cons by (by constructor). fold P. lia.
Qed.

Lemma hex_Encode_length b : length (hex_Encode b) = (2 * length b)%nat.
Proof. induction b as [|x b IH]; [done|]. cbn [hex_Encode length]. lia. Qed.

Lemma ParseUint16_Encode i : is_u64 i -> ParseUint16 (hex_Encode (be_put 8 i)) = Some i.
Proof.
  intros Hi. pose proof (parse_hex_Encode (be_put 8 i) 0 (be_put_bytes 8 i) ltac:(lia)) as H.
  rewrite be_put_length, be64_roundtrip in H by done. unfold ParseUint16.
  destruct (hex_Encode (be_put 8 i)) eqn:E; [|apply H; vm_compute; discriminate].
  apply (f_equal length) in E. rewrite hex_Encode_length, be_put_length in E. discriminate.
Qed.

(** An even number of digits is the encoding of bytes, up to case. *)
Lemma parse_hex_bytes k : forall s acc r,
  length s = (2 * k)%nat -> 0 <= acc -> parse_hex s acc = Some r ->
  exists b, length b = k /\ Forall is_byte b /\ hex_Encode b = lower <$> s /\
    r = acc * 256 ^ Z.of_nat k + be_get b.
Proof.
  induction k as [|k IH]; intros s acc r Hl Ha E.
  - destruct s; [|discriminate]. injection E as <-. exists []. split_and!; [done..|]. unfold be_get. simpl. lia.
  - destruct s as [|c1 [|c2 s]]; [discriminate|simpl in Hl; lia|]. cbn [parse_hex] in E.
    destruct (digit_value c1) as [d1|] eqn:E1; [|done]. destruct (2 ^ 60 <=? acc); [done|].
    destruct (digit_value c2) as [d2|] eqn:E2; [|done]. destruct (2 ^ 60 <=? _); [done|].
    apply hex_digit_value in E1 as [H1 L1]. apply hex_digit_value in E2 as [H2 L2].
    destruct (IH s ((acc * 16 + d1) * 16 + d2) r ltac:(simpl in Hl; lia) ltac:(lia) E) as (b & Lb & Hb & Eb & ->).
    exists (d1 * 16 + d2 :: b). split_and!; [simpl; lia|constructor; [unint; lia|done]| |].
    + cbn [hex_Encode fmap list_fmap]. rewrite Eb, <- L1, <- L2. change 15 with (2 ^ 4 - 1).
      rewrite land_ones_mod, Z.shiftr_div_pow2 by lia. change (2 ^ 4) with 16.
      rewrite Z.div_add_l, (Z.div_small d2), Z.add_0_r by lia.
      rewrite Z.add_comm, Z.mod_add, Z.mod_small by lia. done.
    + rewrite be_get_cons by (constructor; [unint; lia|done]). rewrite Lb, Nat2Z.inj_succ, Z.pow_succ_r by lia. lia.
Qed.

(** The text form of a valid identifier has sixteen bytes and is decoded to
    it, whatever the receiver held. *)
Theorem ID_text_roundtrip (i j : ID) :
  is_u64 i -> i <> 0 ->
  exists s, Encode i = inl s /\ length s = IDLength /\ Decode j s = (i, None) /\ IDFromString s = inl i.
Proof.
  intros Hi Hz. assert (V : Valid i = true) by (unfold Valid; destruct (Z.eqb_spec i 0); done).
  exists (hex_Encode (be_put 8 i)).
  assert (L : length (hex_Encode (be_put 8 i)) = IDLength) by (by rewrite hex_Encode_length, be_put_length).
  assert (D : forall j, Decode j (hex_Encode (be_put 8 i)) = (i, None)).
  { intros j'. unfold Decode. rewrite L, Nat.eqb_refl, ParseUint16_Encode, V by done. done. }
  unfold Encode, IDFromString, DecodeFromString. rewrite V, !D. done.
Qed.

Lemma ID_text_roundtrip_witness :
  exists s, Encode 171 = inl s /\ length s = IDLength /\ Decode 0 s = (171, None) /\ IDFromString s = inl 171.
Proof. apply (ID_text_roundtrip 171 0); [unint; lia|discriminate]. Defined.

(** A text that decodes without error has sixteen digits and is the text
    form of the identifier it decodes to, up to the case of the digits; so
    distinct identifiers never share a text. *)
Theorem ID_Decode_canonical (i j : ID) (b : list Z) :
  Decode j b = (i, None) -> length b = IDLength /\ Valid i = true /\ Encode i = inl (lower <$> b).
Proof.
  unfold Decode. destruct (Nat.eqb_spec (length b) IDLength) as [L|]; [|done]. cbn [negb].
  destruct (ParseUint16 b) as [res|] eqn:E; [|done]. destruct (Valid res) eqn:V; [|done]. cbn [negb].
  intros H. injection H as ->. split_and!; [done|done|]. unfold Encode. rewrite V. cbn [negb]. f_equal.
  destruct b as [|c b]; [done|]. destruct (parse_hex_bytes 8 (c :: b) 0 i L ltac:(lia) E) as (bs & Lb & Hb & <- & ->).
  rewrite Z.mul_0_l, Z.add_0_l, <- Lb, be_put_get by done. done.
Qed.

Lemma ID_Decode_canonical_witness :
  length ([48; 48; 48; 48; 48; 48; 48; 48; 48; 48; 48; 48; 48; 48; 65; 98] : list Z) = IDLength /\
  Valid 171 = true /\
  Encode 171 = inl (lower <$> [48; 48; 48; 48; 48; 48; 48; 48; 48; 48; 48; 48; 48; 48; 65; 98]).
Proof.
  apply (ID_Decode_canonical 171 0 [48; 48; 48; 48; 48; 48; 48; 48; 48; 48; 48; 48; 48; 48; 65; 98]).
  vm_compute. reflexivity.
Defined.
End PlatformID.
