(* ===== verification/Authz.v ===== *)
(** * Permissions and authorization

    Models [authz.go] (actions, resource types, permissions, [matchesV1], the
    default permission sets), [user_resource_mapping.go] (mappings and the
    permissions they grant), the authorizers of [auth.go] and [session.go],
    and the checks of [authorizer/authorize.go] and [authorizer/authorize_find.go].  The theorems
    characterise exactly what each default permission set allows, that members
    never write, that an organization's permissions do not reach another one,
    and that the find filters return precisely the readable items. *)
From S2P Require Import Prelude Platform.

Module Authz.
Import Errors.
Abbreviation ID := PlatformID.ID.
Abbreviation ErrInvalidID := PlatformID.ErrInvalidID.

(** ** Actions and resources *)

Definition Action := string.
Definition ReadAction : Action := "read".
Definition WriteAction : Action := "write".
Definition actions : list Action := [ReadAction; WriteAction].

Definition Action_Valid (a : Action) : option error :=
  if bool_decide (a = ReadAction) then None
  else if bool_decide (a = WriteAction) then None
  else Some (Plain "unknown action for permission").

Definition ResourceType := string.
Definition AuthorizationsResourceType : ResourceType := "authorizations".
Definition BucketsResourceType : ResourceType := "buckets".
Definition DashboardsResourceType : ResourceType := "dashboards".
Definition OrgsResourceType : ResourceType := "orgs".
Definition SourcesResourceType : ResourceType := "sources".
Definition TasksResourceType : ResourceType := "tasks".
Definition TelegrafsResourceType : ResourceType := "telegrafs".
Definition UsersResourceType : ResourceType := "users".
Definition VariablesResourceType : ResourceType := "variables".
Definition ScraperResourceType : ResourceType := "scrapers".
Definition SecretsResourceType : ResourceType := "secrets".
Definition LabelsResourceType : ResourceType := "labels".
Definition ViewsResourceType : ResourceType := "views".
Definition DocumentsResourceType : ResourceType := "documents".
Definition NotificationRuleResourceType : ResourceType := "notificationRules".
Definition NotificationEndpointResourceType : ResourceType := "notificationEndpoints".
Definition ChecksResourceType : ResourceType := "checks".
Definition DBRPResourceType : ResourceType := "dbrp".
Definition NotebooksResourceType : ResourceType := "notebooks".
Definition AnnotationsResourceType : ResourceType := "annotations".
Definition RemotesResourceType : ResourceType := "remotes".
Definition ReplicationsResourceType : ResourceType := "replications".
Definition InstanceResourceType : ResourceType := "instance".

Definition AllResourceTypes : list ResourceType := [
  AuthorizationsResourceType; BucketsResourceType; DashboardsResourceType; OrgsResourceType;
  SourcesResourceType; TasksResourceType; TelegrafsResourceType; UsersResourceType;
  VariablesResourceType; ScraperResourceType; SecretsResourceType; LabelsResourceType;
  ViewsResourceType; DocumentsResourceType; NotificationRuleResourceType;
  NotificationEndpointResourceType; ChecksResourceType; DBRPResourceType; NotebooksResourceType;
  AnnotationsResourceType; RemotesResourceType; ReplicationsResourceType; InstanceResourceType ].

(** The [switch] of [ResourceType.Valid], in its own order. *)
Definition valid_cases : list ResourceType := [
  AuthorizationsResourceType; BucketsResourceType; DashboardsResourceType; OrgsResourceType;
  TasksResourceType; TelegrafsResourceType; SourcesResourceType; UsersResourceType;
  VariablesResourceType; ScraperResourceType; SecretsResourceType; LabelsResourceType;
  ViewsResourceType; DocumentsResourceType; NotificationRuleResourceType;
  NotificationEndpointResourceType; ChecksResourceType; DBRPResourceType; NotebooksResourceType;
  AnnotationsResourceType; RemotesResourceType; ReplicationsResourceType; InstanceResourceType ].

Definition ResourceType_Valid (t : ResourceType) : option error :=
  if bool_decide (t ∈ valid_cases) then None else Some (Plain "unknown resource type for permission").

(** Nil pointers are [None]. *)
Record Resource := MkResource {
  r_Type : ResourceType;
  r_ID : option ID;
  r_OrgID : option ID }.

Record Permission := MkPermission {
  p_Action : Action;
  p_Resource : Resource }.

Definition PermissionSet := list Permission.

#[export] Instance Resource_eq_dec : EqDecision Resource.
Proof. solve_decision. Defined.
#[export] Instance Permission_eq_dec : EqDecision Permission.
Proof. solve_decision. Defined.

Definition Resource_Valid (r : Resource) : option error := ResourceType_Valid (r_Type r).

(** ** Matching *)

(** The branch that only prints a warning has no effect on the result. *)
Definition matchesV1 (p perm : Permission) : bool :=
  if bool_decide (p_Action p <> p_Action perm) then false
  else if bool_decide (r_Type (p_Resource p) = InstanceResourceType) then true
  else if bool_decide (r_Type (p_Resource p) <> r_Type (p_Resource perm)) then false
  else
    match r_OrgID (p_Resource p), r_ID (p_Resource p) with
    | None, None => true
    | Some pOrgID, None =>
      match r_OrgID (p_Resource perm) with
      | Some permOrgID => pOrgID =? permOrgID
      | None => false
      end
    | _, Some pID =>
      match r_ID (p_Resource perm) with
      | Some permID => pID =? permID
      | None => false
      end
    end.

Definition Matches (p perm : Permission) : bool := matchesV1 p perm.

Fixpoint PermissionAllowed (perm : Permission) (ps : list Permission) : bool :=
  match ps with
  | [] => false
  | p :: ps => if Matches p perm then true else PermissionAllowed perm ps
  end.

Definition Allowed (ps : PermissionSet) (p : Permission) : bool := PermissionAllowed p ps.

(** ** Validity and constructors *)

Definition Permission_Valid (p : Permission) : option error :=
  match Resource_Valid (p_Resource p) with
  | Some err => Some (Wrap EInvalid "invalid resource type for permission" err)
  | None =>
    match Action_Valid (p_Action p) with
    | Some err => Some (Wrap EInvalid "invalid action type for permission" err)
    | None =>
      if match r_OrgID (p_Resource p) with Some o => negb (PlatformID.Valid o) | None => false end
      then Some (Wrap EInvalid "invalid org id for permission" ErrInvalidID)
      else if match r_ID (p_Resource p) with Some i => negb (PlatformID.Valid i) | None => false end
      then Some (Wrap EInvalid "invalid id for permission" ErrInvalidID)
      else None
    end
  end.

Definition NewPermission (a : Action) (rt : ResourceType) (orgID : ID) : Permission * option error :=
  let p := MkPermission a (MkResource rt None (Some orgID)) in (p, Permission_Valid p).
Definition NewResourcePermission (a : Action) (rt : ResourceType) (rid : ID) : Permission * option error :=
  let p := MkPermission a (MkResource rt (Some rid) None) in (p, Permission_Valid p).
Definition NewGlobalPermission (a : Action) (rt : ResourceType) : Permission * option error :=
  let p := MkPermission a (MkResource rt None None) in (p, Permission_Valid p).
Definition NewPermissionAtID (id : ID) (a : Action) (rt : ResourceType) (orgID : ID)
  : Permission * option error :=
  let p := MkPermission a (MkResource rt (Some id) (Some orgID)) in (p, Permission_Valid p).

(** ** Default permission sets *)

Definition OperPermissions : list Permission :=
  AllResourceTypes ≫= fun r =>
    if bool_decide (r = InstanceResourceType) then []
    else (fun a => MkPermission a (MkResource r None None)) <$> actions.

(** The slice is made with one zero [Permission] per resource type, and the
    entry of the instance type is left at zero. *)
Definition zeroPermission : Permission := MkPermission "" (MkResource "" None None).

Definition ReadAllPermissions : list Permission :=
  (fun t => if bool_decide (t = InstanceResourceType) then zeroPermission
            else MkPermission ReadAction (MkResource t None None)) <$> AllResourceTypes.

Definition OwnerPermissions (orgID : ID) : list Permission :=
  AllResourceTypes ≫= fun r =>
    if bool_decide (r = InstanceResourceType) then []
    else (fun a => if bool_decide (r = OrgsResourceType)
                   then MkPermission a (MkResource r (Some orgID) None)
                   else MkPermission a (MkResource r None (Some orgID))) <$> actions.

Definition MePermissions (userID : ID) : list Permission :=
  (fun a => MkPermission a (MkResource UsersResourceType (Some userID) None)) <$> actions.

Definition MemberPermissions (orgID : ID) : list Permission :=
  AllResourceTypes ≫= fun r =>
    if bool_decide (r = InstanceResourceType) then []
    else if bool_decide (r = OrgsResourceType)
         then [MkPermission ReadAction (MkResource r (Some orgID) None)]
         else [MkPermission ReadAction (MkResource r None (Some orgID))].

Definition MemberBucketPermission (bucketID : ID) : Permission :=
  MkPermission ReadAction (MkResource BucketsResourceType (Some bucketID) None).

(** ** User resource mappings *)

Definition UserType := string.
Definition Owner : UserType := "owner".
Definition Member : UserType := "member".

Definition ErrInvalidUserType : error := Plain "unknown user type".
Definition UserType_Valid (ut : UserType) : option error :=
  if bool_decide (ut = Owner) then None
  else if bool_decide (ut = Member) then None
  else Some ErrInvalidUserType.

(** A [uint8]. *)
Definition MappingType := Z.
Definition UserMappingType : MappingType := 0.
Definition OrgMappingType : MappingType := 1.
Definition ErrInvalidMappingType : error := Plain "unknown mapping type".

Definition MappingType_Valid (mt : MappingType) : option error :=
  if (mt =? UserMappingType) || (mt =? OrgMappingType) then None else Some ErrInvalidMappingType.

Definition MappingType_String (mt : MappingType) : string :=
  if mt =? UserMappingType then "user"
  else if mt =? OrgMappingType then "org"
  else "unknown".

(** [UnmarshalJSON] after the JSON string has been read. *)
Definition MappingType_Unmarshal (mt : MappingType) (s : string) : MappingType * option error :=
  if bool_decide (s = "user"%string) then (UserMappingType, None)
  else if bool_decide (s = "org"%string) then (OrgMappingType, None)
  else (mt, Some ErrInvalidMappingType).

Record UserResourceMapping := MkURM {
  m_UserID : ID;
  m_UserType : UserType;
  m_MappingType : MappingType;
  m_ResourceType : ResourceType;
  m_ResourceID : ID }.

Definition Validate (m : UserResourceMapping) : option error :=
  if negb (PlatformID.Valid (m_ResourceID m)) then Some (Plain "resource id is required")
  else if negb (PlatformID.Valid (m_UserID m)) then Some (Plain "user id is required")
  else match UserType_Valid (m_UserType m) with
  | Some err => Some err
  | None =>
    match MappingType_Valid (m_MappingType m) with
    | Some err => Some err
    | None => ResourceType_Valid (m_ResourceType m)
    end
  end.

Definition ownerPerms (m : UserResourceMapping) : list Permission :=
  if bool_decide (m_ResourceType m = OrgsResourceType) then OwnerPermissions (m_ResourceID m)
  else if bool_decide (m_ResourceType m = InstanceResourceType)
       then [MkPermission ReadAction (MkResource InstanceResourceType None None);
             MkPermission WriteAction (MkResource InstanceResourceType None None)]
       else [].

Definition memberPerms (m : UserResourceMapping) : list Permission :=
  if bool_decide (m_ResourceType m = OrgsResourceType) then MemberPermissions (m_ResourceID m)
  else if bool_decide (m_ResourceType m = BucketsResourceType)
       then [MemberBucketPermission (m_ResourceID m)]
       else [].

Definition ToPermissions (m : UserResourceMapping) : list Permission + error :=
  if bool_decide (m_UserType m = Owner) then inl (ownerPerms m)
  else if bool_decide (m_UserType m = Member) then inl (memberPerms m)
  else inr ErrInvalidUserType.

(** ** Authorizers: tokens and sessions *)

Definition Status := string.
Definition Active : Status := "active".
Definition Inactive : Status := "inactive".

Record Authorization := MkAuthorization {
  a_ID : ID;
  a_Token : string;
  a_Status : Status;
  a_Description : string;
  a_OrgID : ID;
  a_UserID : ID;
  a_Permissions : list Permission }.

Fixpoint perms_for_org (orgID : ID) (ps : list Permission) : option error :=
  match ps with
  | [] => None
  | p :: ps =>
    match r_OrgID (p_Resource p) with
    | Some o => if negb (o =? orgID) then Some (Platform EInvalid "permission is not for org id")
                else perms_for_org orgID ps
    | None => perms_for_org orgID ps
    end
  end.
Definition Authorization_Valid (a : Authorization) : option error :=
  perms_for_org (a_OrgID a) (a_Permissions a).

Definition IsActive (a : Authorization) : bool := bool_decide (a_Status a = Active).

Definition Authorization_PermissionSet (a : Authorization) : PermissionSet + error :=
  if negb (IsActive a) then inr (Platform EUnauthorized "token is inactive")
  else inl (a_Permissions a).

(** Times are instants in nanoseconds. *)
Record Session := MkSession {
  s_ID : ID;
  s_Key : string;
  s_CreatedAt : Z;
  s_ExpiresAt : Z;
  s_UserID : ID;
  s_Permissions : list Permission }.

Definition Expired (now : Z) (s : Session) : option error :=
  if s_ExpiresAt s <? now then Some (Platform EForbidden "session has expired") else None.

Definition Session_PermissionSet (now : Z) (s : Session) : PermissionSet + error :=
  match Expired now s with
  | Some err => inr (Wrap EUnauthorized "" err)
  | None => inl (s_Permissions s)
  end.

Definition EphemeralAuth (s : Session) (orgID : ID) : Authorization :=
  MkAuthorization (s_ID s) "" Active "" orgID (s_UserID s) (s_Permissions s).

(** The [Authorizer] interface. *)
Record Authorizer := MkAuthorizer {
  az_PermissionSet : PermissionSet + error;
  az_Identifier : ID;
  az_UserID : ID;
  az_Kind : string }.

Definition token_authorizer (a : Authorization) : Authorizer :=
  MkAuthorizer (Authorization_PermissionSet a) (a_ID a) (a_UserID a) "authorization".
Definition session_authorizer (now : Z) (s : Session) : Authorizer :=
  MkAuthorizer (Session_PermissionSet now s) (s_ID s) (s_UserID s) "session".

(** ** The checks of the authorizer package

    The context carries an authorizer or none. *)

Definition context := option Authorizer.

Definition GetAuthorizer (ctx : context) : Authorizer + error :=
  match ctx with
  | Some a => inl a
  | None => inr (Platform EInternal "authorizer not found on context")
  end.

Fixpoint all_allowed (pset : PermissionSet) (permissions : list Permission) : option error :=
  match permissions with
  | [] => None
  | p :: ps =>
    if negb (Allowed pset p) then Some (Platform EUnauthorized "permission is unauthorized")
    else all_allowed pset ps
  end.

Definition isAllowedAll (a : Authorizer) (permissions : list Permission) : option error :=
  match az_PermissionSet a with
  | inr err => Some err
  | inl pset => all_allowed pset permissions
  end.

Definition isAllowed (a : Authorizer) (p : Permission) : option error := isAllowedAll a [p].

Definition IsAllowedAll (ctx : context) (permissions : list Permission) : option error :=
  match GetAuthorizer ctx with
  | inr err => Some err
  | inl a => isAllowedAll a permissions
  end.

Definition IsAllowed (ctx : context) (p : Permission) : option error := IsAllowedAll ctx [p].

Fixpoint any_allowed (pset : PermissionSet) (permissions : list Permission) : option error :=
  match permissions with
  | [] => Some (Platform EUnauthorized "none of the permissions is authorized")
  | p :: ps => if Allowed pset p then None else any_allowed pset ps
  end.

Definition IsAllowedAny (ctx : context) (permissions : list Permission) : option error :=
  match GetAuthorizer ctx with
  | inr err => Some err
  | inl a =>
    match az_PermissionSet a with
    | inr err => Some err
    | inl pset => any_allowed pset permissions
    end
  end.

(** The error [authorize] returns; on success also the authorizer and the
    permission. *)
Definition authorize (ctx : context) (a : Action) (rt : ResourceType) (rid oid : option ID)
  : option (Authorizer * Permission) * option error :=
  let '(p, err) :=
    match rid, oid with
    | Some rid, Some oid => NewPermissionAtID rid a rt oid
    | Some rid, None => NewResourcePermission a rt rid
    | None, Some oid => NewPermission a rt oid
    | None, None => NewGlobalPermission a rt
    end in
  match err with
  | Some err => (None, Some err)
  | None =>
    match GetAuthorizer ctx with
    | inr err => (None, Some err)
    | inl auth => (Some (auth, p), isAllowed auth p)
    end
  end.

Definition AuthorizeRead (ctx : context) (rt : ResourceType) (rid oid : ID) :=
  authorize ctx ReadAction rt (Some rid) (Some oid).
Definition AuthorizeWrite (ctx : context) (rt : ResourceType) (rid oid : ID) :=
  authorize ctx WriteAction rt (Some rid) (Some oid).
Definition AuthorizeReadResource (ctx : context) (rt : ResourceType) (rid : ID) :=
  authorize ctx ReadAction rt (Some rid) None.
Definition AuthorizeWriteResource (ctx : context) (rt : ResourceType) (rid : ID) :=
  authorize ctx WriteAction rt (Some rid) None.
Definition AuthorizeOrgReadResource (ctx : context) (rt : ResourceType) (oid : ID) :=
  authorize ctx ReadAction rt None (Some oid).
Definition AuthorizeOrgWriteResource (ctx : context) (rt : ResourceType) (oid : ID) :=
  authorize ctx WriteAction rt None (Some oid).
Definition AuthorizeCreate (ctx : context) (rt : ResourceType) (oid : ID) :=
  AuthorizeOrgWriteResource ctx rt oid.
Definition AuthorizeReadOrg (ctx : context) (oid : ID) :=
  authorize ctx ReadAction OrgsResourceType (Some oid) None.
Definition AuthorizeWriteOrg (ctx : context) (oid : ID) :=
  authorize ctx WriteAction OrgsResourceType (Some oid) None.
Definition AuthorizeReadGlobal (ctx : context) (rt : ResourceType) := authorize ctx ReadAction rt None None.
Definition AuthorizeWriteGlobal (ctx : context) (rt : ResourceType) := authorize ctx WriteAction rt None None.

Definition BucketType := Z.
Definition BucketTypeUser : BucketType := 0.
Definition BucketTypeSystem : BucketType := 1.

Definition authorizeReadSystemBucket (ctx : context) (bid oid : ID) := AuthorizeReadOrg ctx oid.
Definition AuthorizeReadBucket (ctx : context) (bt : BucketType) (bid oid : ID) :=
  if bt =? BucketTypeSystem then authorizeReadSystemBucket ctx bid oid
  else AuthorizeRead ctx BucketsResourceType bid oid.

(** ** Filtering what a find returns

    Each [AuthorizeFind*] filters [rs] in place: [rrs := rs[:0]] shares the
    backing array, so an appended item overwrites a cell of [rs] while the
    loop still reads it. *)

Inductive verdict : Type := Keep | Skip | Abort (err : error).

(** [if err != nil && ErrorCode(err) != EUnauthorized { return nil, 0, err };
    if ErrorCode(err) == EUnauthorized { continue }]. *)
Definition verdict_of (err : option error) : verdict :=
  match err with
  | Some e =>
    if bool_decide (ErrorCode (Some e) <> EUnauthorized) then Abort e else Skip
  | None => Keep
  end.

Section Find.
Context {A : Type} (check : A -> verdict).

(** [arr] is the backing array, [i] the range index, [n] the length of [rrs]. *)
Fixpoint find_loop (fuel : nat) (arr : list A) (i n : nat) : list A * (nat + error) :=
  match fuel with
  | O => (arr, inl n)
  | S f =>
    match arr !! i with
    | None => (arr, inl n)
    | Some r =>
      match check r with
      | Abort err => (arr, inr err)
      | Skip => find_loop f arr (S i) n
      | Keep => find_loop f (<[n := r]> arr) (S i) (S n)
      end
    end
  end.

(** The slice returned and its length, or the error. *)
Definition find_all (rs : list A) : list A * Z + error :=
  match find_loop (length rs) rs 0 0 with
  | (arr, inl n) => inl (take n arr, Z.of_nat n)
  | (_, inr err) => inr err
  end.

(** Projections of the resource structs the checks read. *)
Context (get_ID get_OrgID : A -> ID).

Definition read_check (ctx : context) (rt : ResourceType) (r : A) : verdict :=
  verdict_of (AuthorizeRead ctx rt (get_ID r) (get_OrgID r)).2.
End Find.

Section FindResources.
Context {A : Type} (get_ID get_OrgID : A -> ID) (ctx : context).

Definition AuthorizeFindDBRPs (get_BucketID : A -> ID) (rs : list A) :=
  find_all (read_check get_BucketID get_OrgID ctx BucketsResourceType) rs.

Definition AuthorizeFindAuthorizations (get_UserID : A -> ID) (rs : list A) :=
  find_all (fun r =>
    match read_check get_ID get_OrgID ctx AuthorizationsResourceType r with
    | Keep => verdict_of (AuthorizeReadResource ctx UsersResourceType (get_UserID r)).2
    | v => v
    end) rs.

Definition AuthorizeFindBuckets (get_Type : A -> BucketType) (rs : list A) :=
  find_all (fun r => verdict_of (AuthorizeReadBucket ctx (get_Type r) (get_ID r) (get_OrgID r)).2) rs.

Definition AuthorizeFindDashboards (rs : list A) := find_all (read_check get_ID get_OrgID ctx DashboardsResourceType) rs.
Definition AuthorizeFindAnnotations (rs : list A) := find_all (read_check get_ID get_OrgID ctx AnnotationsResourceType) rs.
Definition AuthorizeFindStreams (rs : list A) := find_all (read_check get_ID get_OrgID ctx AnnotationsResourceType) rs.
Definition AuthorizeFindNotebooks (rs : list A) := find_all (read_check get_ID get_OrgID ctx NotebooksResourceType) rs.

Definition AuthorizeFindOrganizations (rs : list A) :=
  find_all (fun r => verdict_of (AuthorizeReadOrg ctx (get_ID r)).2) rs.

Definition AuthorizeFindSources (rs : list A) := find_all (read_check get_ID get_OrgID ctx SourcesResourceType) rs.
Definition AuthorizeFindTasks (rs : list A) := find_all (read_check get_ID get_OrgID ctx TasksResourceType) rs.
Definition AuthorizeFindTelegrafs (rs : list A) := find_all (read_check get_ID get_OrgID ctx TelegrafsResourceType) rs.

Definition AuthorizeFindUsers (rs : list A) :=
  find_all (fun r => verdict_of (AuthorizeReadResource ctx UsersResourceType (get_ID r)).2) rs.

Definition AuthorizeFindVariables (rs : list A) := find_all (read_check get_ID get_OrgID ctx VariablesResourceType) rs.
Definition AuthorizeFindScrapers (rs : list A) := find_all (read_check get_ID get_OrgID ctx ScraperResourceType) rs.
Definition AuthorizeFindLabels (rs : list A) := find_all (read_check get_ID get_OrgID ctx LabelsResourceType) rs.
Definition AuthorizeFindNotificationRules (rs : list A) :=
  find_all (read_check get_ID get_OrgID ctx NotificationRuleResourceType) rs.
Definition AuthorizeFindNotificationEndpoints (rs : list A) :=
  find_all (read_check get_ID get_OrgID ctx NotificationEndpointResourceType) rs.
Definition AuthorizeFindChecks (rs : list A) := find_all (read_check get_ID get_OrgID ctx ChecksResourceType) rs.
End FindResources.

(** [os.FindResourceOrganizationID] is an argument; here every refusal skips
    the item, whatever its code. *)
Definition AuthorizeFindUserResourceMappings (ctx : context)
  (FindResourceOrganizationID : ResourceType -> ID -> ID + error) (rs : list UserResourceMapping) :=
  find_all (fun r =>
    match FindResourceOrganizationID (m_ResourceType r) (m_ResourceID r) with
    | inr err => Abort err
    | inl orgID =>
      match (AuthorizeRead ctx (m_ResourceType r) (m_ResourceID r) orgID).2 with
      | Some _ => Skip
      | None => Keep
      end
    end) rs.

(** ** What a permission set allows *)

Lemma allowed_exists ps q : PermissionAllowed q ps = true <-> exists p, p ∈ ps /\ Matches p q = true.
Proof.
  induction ps as [|p ps IH]; cbn [PermissionAllowed].
  - split; [done|]. intros (p & Hp & _). by apply elem_of_nil in Hp.
  - destruct (Matches p q) eqn:E.
    + split; [|done]. intros _. exists p. split; [apply list_elem_of_here|done].
    + rewrite IH. split.
      * intros (r & Hr & Hm). exists r. split; [by apply list_elem_of_further|done].
      * intros (r & Hr & Hm). apply elem_of_cons in Hr as [->|Hr]; [congruence|]. by exists r.
Qed.

(** [q] falls in the scope [p] names. *)
Definition in_scope (p q : Resource) : Prop :=
  match r_OrgID p, r_ID p with
  | None, None => True
  | Some o, None => r_OrgID q = Some o
  | _, Some i => r_ID q = Some i
  end.

Lemma Matches_spec p q :
  Matches p q = true <->
  p_Action p = p_Action q /\
  (r_Type (p_Resource p) = InstanceResourceType \/
   r_Type (p_Resource p) = r_Type (p_Resource q) /\ in_scope (p_Resource p) (p_Resource q)).
Proof.
  unfold Matches, matchesV1, in_scope. destruct p as [a [t i o]], q as [a' [t' i' o']]. cbn.
  case_bool_decide as Ha; [naive_solver|]. case_bool_decide as Ht; [naive_solver|].
  case_bool_decide as Htt; [naive_solver|]. subst.
  destruct o as [o|], i as [i|]; [| | |naive_solver].
  - destruct i' as [i'|]; [|naive_solver]. rewrite Z.eqb_eq. naive_solver.
  - destruct o' as [o'|]; [|naive_solver]. rewrite Z.eqb_eq. naive_solver.
  - destruct i' as [i'|]; [|naive_solver]. rewrite Z.eqb_eq. naive_solver.
Qed.

Lemma allowed_app ps qs q :
  PermissionAllowed q (ps ++ qs) = PermissionAllowed q ps || PermissionAllowed q qs.
Proof. induction ps as [|p ps IH]; [done|]. cbn [app PermissionAllowed]. by destruct (Matches p q). Qed.

(** The resource types with default permissions. *)
Definition granted (t : ResourceType) : Prop := t ∈ AllResourceTypes /\ t <> InstanceResourceType.

(** [q] addresses organization [o]: the organization itself, or something
    inside it. *)
Definition of_org (o : ID) (q : Resource) : Prop :=
  if bool_decide (r_Type q = OrgsResourceType) then r_ID q = Some o else r_OrgID q = Some o.

(** A set built with one permission per granted type and action. *)
Lemma allowed_per_type (f : Action -> ResourceType -> Resource) (acts : list Action) q :
  (forall a r, r_Type (f a r) = r) ->
  PermissionAllowed q (AllResourceTypes ≫= fun r =>
    if bool_decide (r = InstanceResourceType) then []
    else (fun a => MkPermission a (f a r)) <$> acts) = true <->
  p_Action q ∈ acts /\ granted (r_Type (p_Resource q)) /\
  in_scope (f (p_Action q) (r_Type (p_Resource q))) (p_Resource q).
Proof.
  intros Hf. rewrite allowed_exists. unfold granted. split.
  - intros (p & Hp & Hm). apply list_elem_of_bind in Hp as (r & Hp & Hr). case_bool_decide as Hi.
    { by apply elem_of_nil in Hp. }
    apply list_elem_of_fmap in Hp as (a & -> & Ha). apply Matches_spec in Hm as [Ea [Et|[Et Hs]]];
      cbn [p_Action p_Resource] in *; rewrite Hf in Et; [done|]. subst. done.
  - intros (Ha & (Ht & Hi) & Hs). eexists. split.
    + apply list_elem_of_bind. exists (r_Type (p_Resource q)). rewrite bool_decide_false by done.
      split; [|done]. apply list_elem_of_fmap. eexists. split; [reflexivity|exact Ha].
    + apply Matches_spec. cbn [p_Action p_Resource]. rewrite Hf. auto.
Qed.

Lemma OwnerPermissions_iff o q :
  PermissionAllowed q (OwnerPermissions o) = true <->
  p_Action q ∈ actions /\ granted (r_Type (p_Resource q)) /\ of_org o (p_Resource q).
Proof.
  pose proof (allowed_per_type (fun _ r => if bool_decide (r = OrgsResourceType) then MkResource r (Some o) None
    else MkResource r None (Some o)) actions q) as H.
  assert (E : OwnerPermissions o = AllResourceTypes ≫= fun r =>
    if bool_decide (r = InstanceResourceType) then []
    else (fun a => MkPermission a (if bool_decide (r = OrgsResourceType) then MkResource r (Some o) None
           else MkResource r None (Some o))) <$> actions) by reflexivity.
  rewrite E, H by (intros; by case_bool_decide). unfold of_org, in_scope.
  by case_bool_decide.
Qed.

Lemma MemberPermissions_iff o q :
  PermissionAllowed q (MemberPermissions o) = true <->
  p_Action q = ReadAction /\ granted (r_Type (p_Resource q)) /\ of_org o (p_Resource q).
Proof.
  pose proof (allowed_per_type (fun _ r => if bool_decide (r = OrgsResourceType) then MkResource r (Some o) None
    else MkResource r None (Some o)) [ReadAction] q) as H.
  assert (E : MemberPermissions o = AllResourceTypes ≫= fun r =>
    if bool_decide (r = InstanceResourceType) then []
    else (fun a => MkPermission a (if bool_decide (r = OrgsResourceType) then MkResource r (Some o) None
           else MkResource r None (Some o))) <$> [ReadAction]) by reflexivity.
  rewrite E, H, list_elem_of_singleton by (intros; by case_bool_decide). unfold of_org, in_scope.
  by case_bool_decide.
Qed.

Lemma OperPermissions_iff q :
  PermissionAllowed q OperPermissions = true <->
  p_Action q ∈ actions /\ granted (r_Type (p_Resource q)).
Proof.
  pose proof (allowed_per_type (fun _ r => MkResource r None None) actions q) as H.
  change OperPermissions with (AllResourceTypes ≫= fun r =>
    if bool_decide (r = InstanceResourceType) then []
    else (fun a => MkPermission a (MkResource r None None)) <$> actions).
  rewrite H by done. unfold in_scope. naive_solver.
Qed.

(** C21. The default permission sets allow exactly what their roles say: an
    owner reads and writes, and a member only reads, the organization itself
    and whatever belongs to it; the operator reads and writes every resource
    type; none of them reaches instance-level permissions. *)
Theorem default_permissions_exact (o : ID) (q : Permission) :
  (PermissionAllowed q (OwnerPermissions o) = true <->
     p_Action q ∈ actions /\ granted (r_Type (p_Resource q)) /\ of_org o (p_Resource q)) /\
  (PermissionAllowed q (MemberPermissions o) = true <->
     p_Action q = ReadAction /\ granted (r_Type (p_Resource q)) /\ of_org o (p_Resource q)) /\
  (PermissionAllowed q OperPermissions = true <->
     p_Action q ∈ actions /\ granted (r_Type (p_Resource q))).
Proof.
  split_and!; [apply OwnerPermissions_iff|apply MemberPermissions_iff|apply OperPermissions_iff].
Qed.

Lemma instance_listed : InstanceResourceType ∈ AllResourceTypes.
Proof. apply (bool_decide_eq_true_1 _). reflexivity. Qed.

(** [ReadAllPermissions] allows reading every resource type and nothing
    else that is valid; but the slot of the instance type holds the zero
    permission, which is not a valid permission and allows the request with
    an empty action and an empty type. *)
Theorem ReadAllPermissions_zero_entry (q : Permission) :
  (PermissionAllowed q ReadAllPermissions = true <->
     (p_Action q = ReadAction /\ granted (r_Type (p_Resource q))) \/
     (p_Action q = ""%string /\ r_Type (p_Resource q) = ""%string)) /\
  zeroPermission ∈ ReadAllPermissions /\ Permission_Valid zeroPermission <> None.
Proof.
  split; [|split; [|done]].
  - rewrite allowed_exists. unfold ReadAllPermissions, granted. split.
    + intros (p & Hp & Hm). apply list_elem_of_fmap in Hp as (t & -> & Ht).
      apply Matches_spec in Hm as [Ea Hm]. case_bool_decide as Hi; cbn in *; [naive_solver|].
      left. destruct Hm as [|[<- _]]; [done|]. auto.
    + intros [[Ha [Ht Hi]]|[Ha Ht]].
      * eexists. split; [apply list_elem_of_fmap; eexists; split; [reflexivity|exact Ht]|].
        rewrite bool_decide_false by done. apply Matches_spec. cbn. auto.
      * exists zeroPermission. split; [apply list_elem_of_fmap; exists InstanceResourceType; split; [done|]|].
        { apply instance_listed. }
        apply Matches_spec. cbn. auto.
  - apply list_elem_of_fmap. exists InstanceResourceType. split; [done|apply instance_listed].
Qed.

(** ** What a mapping grants *)

(** A member mapping is never refused and never lets its user write or
    act on the instance; on an organization it lets the user read that
    organization only, on a bucket that bucket only, and on any other
    resource nothing. *)
Theorem member_mapping_reads_only (m : UserResourceMapping) :
  m_UserType m = Member ->
  exists ps, ToPermissions m = inl ps /\
    forall q, PermissionAllowed q ps = true ->
      p_Action q = ReadAction /\ r_Type (p_Resource q) <> InstanceResourceType /\
      ((m_ResourceType m = OrgsResourceType /\ of_org (m_ResourceID m) (p_Resource q)) \/
       (m_ResourceType m = BucketsResourceType /\ r_Type (p_Resource q) = BucketsResourceType /\
        r_ID (p_Resource q) = Some (m_ResourceID m))).
Proof.
  intros Hm. exists (memberPerms m). split.
  { unfold ToPermissions. rewrite Hm. done. }
  intros q. unfold memberPerms. case_bool_decide as Ho.
  - rewrite MemberPermissions_iff. intros (? & [? ?] & ?). auto.
  - case_bool_decide as Hb; [|done]. rewrite allowed_exists. intros (p & Hp & Hq).
    apply list_elem_of_singleton in Hp as ->. apply Matches_spec in Hq as [Ea [Et|[Et Hs]]]; [done|].
    cbn in *. rewrite <- Et. split_and!; [done|done|right; auto].
Qed.

Lemma member_mapping_reads_only_witness :
  exists ps, ToPermissions (MkURM 5 Member 0 OrgsResourceType 9) = inl ps /\
    forall q, PermissionAllowed q ps = true ->
      p_Action q = ReadAction /\ r_Type (p_Resource q) <> InstanceResourceType /\
      ((OrgsResourceType = OrgsResourceType /\ of_org 9 (p_Resource q)) \/
       (OrgsResourceType = BucketsResourceType /\ r_Type (p_Resource q) = BucketsResourceType /\
        r_ID (p_Resource q) = Some 9)).
Proof. apply (member_mapping_reads_only (MkURM 5 Member 0 OrgsResourceType 9)). reflexivity. Defined.

(** ** The checks *)

(** The permission [authorize] asks for. *)
Definition requested (a : Action) (rt : ResourceType) (rid oid : option ID) : Permission :=
  MkPermission a (MkResource rt rid oid).

Lemma authorize_error ctx a rt rid oid :
  (authorize ctx a rt rid oid).2 =
  match Permission_Valid (requested a rt rid oid) with
  | Some err => Some err
  | None =>
    match ctx with
    | None => Some (Platform EInternal "authorizer not found on context")
    | Some auth => isAllowed auth (requested a rt rid oid)
    end
  end.
Proof.
  unfold authorize, requested, NewPermissionAtID, NewResourcePermission, NewPermission, NewGlobalPermission.
  destruct rid, oid; cbn beta iota zeta; destruct (Permission_Valid _); try done; by destruct ctx.
Qed.

(** [authorize] succeeds exactly when the requested permission is valid, the
    context carries an authorizer, and its permission set, available only while
    the token is active or the session has not expired, allows the request. *)
Theorem authorize_exact (ctx : context) (a : Action) (rt : ResourceType) (rid oid : option ID) :
  (authorize ctx a rt rid oid).2 = None <->
  Permission_Valid (requested a rt rid oid) = None /\
  exists auth ps, ctx = Some auth /\ az_PermissionSet auth = inl ps /\
    PermissionAllowed (requested a rt rid oid) ps = true.
Proof.
  rewrite authorize_error. destruct (Permission_Valid _) as [e|].
  { split; [done|]. by intros [? _]. }
  destruct ctx as [auth|].
  2: { split; [done|]. by intros (_ & auth & ps & ? & _). }
  unfold isAllowed, isAllowedAll. destruct (az_PermissionSet auth) as [ps|err] eqn:E.
  2: { split; [done|]. intros (_ & auth' & ps & [= <-] & Hp & _). congruence. }
  cbn [all_allowed]. unfold Allowed. destruct (PermissionAllowed _ ps) eqn:Ep; cbn [negb].
  - split; [|done]. intros _. split; [done|]. by exists auth, ps.
  - split; [done|]. intros (_ & auth' & ps' & [= <-] & Hp & Ha). congruence.
Qed.

(** C22. A session or token whose permissions all come from mappings on
    organizations [os] is authorized for no resource outside them: a
    successful check of a resource other than an organization names an
    organization of [os]. *)
Theorem org_isolation (auth : Authorizer) (ms : list UserResourceMapping) (a : Action)
    (rt : ResourceType) (rid oid : ID) :
  Forall (fun m => m_ResourceType m = OrgsResourceType) ms ->
  (forall ps, az_PermissionSet auth = inl ps ->
     forall p, p ∈ ps -> exists m ps', m ∈ ms /\ ToPermissions m = inl ps' /\ p ∈ ps') ->
  rt <> OrgsResourceType ->
  (authorize (Some auth) a rt (Some rid) (Some oid)).2 = None ->
  exists m, m ∈ ms /\ m_ResourceID m = oid.
Proof.
  intros Hms Hps Hrt Hok. rewrite authorize_error in Hok.
  destruct (Permission_Valid _); [done|]. unfold isAllowed, isAllowedAll in Hok.
  destruct (az_PermissionSet auth) as [ps|err]; [|done]. cbn [all_allowed] in Hok. unfold Allowed in Hok.
  destruct (PermissionAllowed _ ps) eqn:Ep; [|done]. apply allowed_exists in Ep as (p & Hp & Hm).
  destruct (Hps ps eq_refl p Hp) as (m & ps' & Hin & Hto & Hp'). exists m. split; [done|].
  pose proof (proj1 (list.Forall_forall _ _) Hms m Hin) as Ht. cbv beta in Ht.
  assert (Hal : PermissionAllowed (requested a rt (Some rid) (Some oid)) ps' = true)
    by (apply allowed_exists; eauto).
  assert (Hof : of_org (m_ResourceID m) (p_Resource (requested a rt (Some rid) (Some oid)))).
  { unfold ToPermissions, ownerPerms, memberPerms in Hto. rewrite Ht in Hto.
    repeat case_bool_decide; try done; injection Hto as <-;
      [apply OwnerPermissions_iff in Hal|apply MemberPermissions_iff in Hal]; tauto. }
  unfold of_org in Hof. cbn in Hof. rewrite bool_decide_false in Hof by done. congruence.
Qed.

Lemma org_isolation_witness :
  exists m, m ∈ [MkURM 5 Owner 0 OrgsResourceType 9] /\ m_ResourceID m = 9.
Proof.
  apply (org_isolation (token_authorizer (MkAuthorization 1 "t" Active "" 9 5 (OwnerPermissions 9)))
           [MkURM 5 Owner 0 OrgsResourceType 9] WriteAction BucketsResourceType 3 9).
  - repeat constructor.
  - intros ps E p Hp. injection E as <-. exists (MkURM 5 Owner 0 OrgsResourceType 9), (OwnerPermissions 9).
    split_and!; [apply list_elem_of_here|reflexivity|exact Hp].
  - discriminate.
  - vm_compute. reflexivity.
Defined.

Section FindSpec.
Context {A : Type} (check : A -> verdict).

Definition kept (r : A) : bool := match check r with Keep => true | _ => false end.
Definition aborts (r : A) : Prop := exists err, check r = Abort err.

(** The in-place loop: what is already kept, and the cells not read yet. *)
Lemma find_loop_spec fuel : forall arr i n,
  (n <= i)%nat -> (length arr - i <= fuel)%nat ->
  match find_loop check fuel arr i n with
  | (arr', inl n') => Forall (fun r => ~ aborts r) (drop i arr) /\
      n' = (n + length (List.filter kept (drop i arr)))%nat /\
      take n' arr' = take n arr ++ List.filter kept (drop i arr)
  | (_, inr err) => exists r, r ∈ drop i arr /\ check r = Abort err
  end.
Proof.
  induction fuel as [|f IH]; intros arr i n Hn Hf; cbn [find_loop].
  - rewrite drop_ge by lia. cbn. rewrite Nat.add_0_r, app_nil_r. done.
  - destruct (arr !! i) as [r|] eqn:E.
    2: { apply lookup_ge_None in E. rewrite drop_ge by lia. cbn. rewrite Nat.add_0_r, app_nil_r. done. }
    pose proof (lookup_lt_Some _ _ _ E) as Hi. rewrite (drop_S arr r i E). cbn [List.filter].
    assert (Hk : kept r = match check r with Keep => true | _ => false end) by done.
    destruct (check r) as [| |err] eqn:Ec; rewrite ?Hk.
    + specialize (IH (<[n := r]> arr) (S i) (S n) ltac:(lia) ltac:(rewrite length_insert; lia)).
      rewrite drop_insert_lt in IH by lia.
      destruct (find_loop check f _ _ _) as [arr' [n'|err]].
      * destruct IH as (Ha & -> & ->). split_and!; [constructor; [intros [err He]; congruence|done]|cbn [length]; lia|].
        rewrite (take_S_r _ _ r) by (apply list_lookup_insert_eq; lia).
        rewrite take_insert_ge by lia. by rewrite <- app_assoc.
      * destruct IH as (x & Hx & Hc). exists x. split; [by apply list_elem_of_further|done].
    + specialize (IH arr (S i) n ltac:(lia) ltac:(lia)). destruct (find_loop check f _ _ _) as [arr' [n'|err]].
      * destruct IH as (Ha & IH). split; [constructor; [intros [err He]; congruence|done]|done].
      * destruct IH as (x & Hx & Hc). exists x. split; [by apply list_elem_of_further|done].
    + exists r. split; [apply list_elem_of_here|done].
Qed.

Lemma find_all_spec rs :
  match find_all check rs with
  | inl (out, n) => Forall (fun r => ~ aborts r) rs /\
      out = List.filter kept rs /\ n = Z.of_nat (length out)
  | inr err => exists r, r ∈ rs /\ check r = Abort err
  end.
Proof.
  unfold find_all. pose proof (find_loop_spec (length rs) rs 0 0 ltac:(lia) ltac:(lia)) as H.
  rewrite drop_0, take_0 in H. destruct (find_loop check _ _ _ _) as [arr [n|err]]; [|done].
  destruct H as (Ha & -> & ->). done.
Qed.
End FindSpec.

(** The find filters return, in their order, exactly the items the context
    may read, although they overwrite the slice they range over; they fail
    only when a check fails for a reason other than being unauthorized. *)
Theorem AuthorizeFind_exact {A : Type} (get_ID get_OrgID : A -> ID) (ctx : context)
    (rt : ResourceType) (rs : list A) :
  match find_all (read_check get_ID get_OrgID ctx rt) rs with
  | inl (out, n) =>
      out = List.filter (fun r => bool_decide (ErrorCode (AuthorizeRead ctx rt (get_ID r) (get_OrgID r)).2 = ""%string)) rs /\
      n = Z.of_nat (length out)
  | inr err => exists r, r ∈ rs /\ (AuthorizeRead ctx rt (get_ID r) (get_OrgID r)).2 = Some err /\
      ErrorCode (Some err) <> EUnauthorized
  end.
Proof.
  pose proof (find_all_spec (read_check get_ID get_OrgID ctx rt) rs) as H.
  destruct (find_all _ rs) as [[out n]|err].
  - destruct H as (_ & -> & Hn). split; [|done]. apply List.filter_ext. intros r. unfold kept, read_check, verdict_of.
    destruct (AuthorizeRead _ _ _ _).2 as [e|]; [|done]. pose proof (ErrorCode_of_nonempty e).
    rewrite (bool_decide_false (ErrorCode (Some e) = _)) by done. by case_bool_decide.
  - destruct H as (r & Hr & Hc). exists r. split; [done|]. unfold read_check, verdict_of in Hc.
    destruct (AuthorizeRead _ _ _ _).2 as [e|]; [|done]. case_bool_decide; [|done]. by injection Hc as ->.
Qed.
End Authz.
