(* ===== verification/Tenant.v ===== *)
(** * Tenants: organizations, users, buckets and mappings

    Models the storage layer of [tenant] ([storage.go], [storage_org.go],
    [storage_user.go], [storage_urm.go], [storage_bucket.go]): typed maps for the
    key-value buckets, with their name indexes and the index of mappings by
    user, and one function per store operation.  Keys are identifiers and
    names themselves, since their encodings are injective; values are the
    structs, whose JSON text gives them back as long as names are valid UTF-8;
    creation and update times are left out.  The theorems state the consistency of the indexes with the
    data, what preserves it, and the one operation that does not. *)
From S2P Require Import Prelude Platform Authz.
From stdpp Require Import gmap sorting.
#[global] Open Scope Z_scope.

Module Tenant.
Import Errors Authz.

(** ** Text: byte strings and [strings.TrimSpace] *)

Definition text := list Z.

(** The UTF-8 forms of the white space characters. *)
Definition white : list (list Z) := [
  [9]; [10]; [11]; [12]; [13]; [32]; [194; 133]; [194; 160]; [225; 154; 128];
  [226; 128; 128]; [226; 128; 129]; [226; 128; 130]; [226; 128; 131]; [226; 128; 132];
  [226; 128; 133]; [226; 128; 134]; [226; 128; 135]; [226; 128; 136]; [226; 128; 137];
  [226; 128; 138]; [226; 128; 168]; [226; 128; 169]; [226; 128; 175]; [226; 129; 159];
  [227; 128; 128] ].

Fixpoint starts (p s : list Z) : bool :=
  match p, s with
  | [], _ => true
  | x :: p, y :: s => (x =? y) && starts p s
  | _ :: _, [] => false
  end.

(** Drop the leading characters of [ws]; each round drops at least a byte. *)
Fixpoint trim_left (ws : list (list Z)) (fuel : nat) (s : list Z) : list Z :=
  match fuel with
  | O => s
  | S f =>
    match List.find (fun w => starts w s) ws with
    | Some w => trim_left ws f (drop (length w) s)
    | None => s
    end
  end.

Definition TrimSpace (s : text) : text :=
  let s := trim_left white (length s) s in
  reverse (trim_left (reverse <$> white) (length s) (reverse s)).

(** ** The data *)

Record Organization := MkOrg {
  o_ID : ID;
  o_Name : text;
  o_Description : text }.

Record User := MkUser {
  u_ID : ID;
  u_Name : text;
  u_OAuthID : text;
  u_Status : Status }.

Record Bucket := MkBucket {
  b_ID : ID;
  b_OrgID : ID;
  b_Type : BucketType;
  b_Name : text;
  b_Description : text;
  b_RetentionPolicyName : text;
  b_RetentionPeriod : Z;
  b_ShardGroupDuration : Z }.

(** The key-value buckets.  A mapping is keyed by resource and user, its index
    entry by the user and that key, an index entry of a bucket by the
    organization and the name. *)
Record kv := MkKv {
  orgs : gmap ID Organization;
  orgIndex : gmap text ID;
  users : gmap ID User;
  userIndex : gmap text ID;
  passwords : gmap ID text;
  urms : gmap (ID * ID) UserResourceMapping;
  urmByUser : gmap (ID * (ID * ID)) (ID * ID);
  buckets : gmap ID Bucket;
  bucketIndex : gmap (ID * text) ID;
  auths : gmap ID Authorization;
  authIndex : gmap string ID }.

Definition empty_kv : kv := MkKv ∅ ∅ ∅ ∅ ∅ ∅ ∅ ∅ ∅ ∅ ∅.

Definition set_orgs (f : gmap ID Organization -> gmap ID Organization) (s : kv) : kv :=
  MkKv (f (orgs s)) (orgIndex s) (users s) (userIndex s) (passwords s) (urms s) (urmByUser s) (buckets s) (bucketIndex s) (auths s) (authIndex s).
Definition set_orgIndex (f : gmap text ID -> gmap text ID) (s : kv) : kv :=
  MkKv (orgs s) (f (orgIndex s)) (users s) (userIndex s) (passwords s) (urms s) (urmByUser s) (buckets s) (bucketIndex s) (auths s) (authIndex s).
Definition set_users (f : gmap ID User -> gmap ID User) (s : kv) : kv :=
  MkKv (orgs s) (orgIndex s) (f (users s)) (userIndex s) (passwords s) (urms s) (urmByUser s) (buckets s) (bucketIndex s) (auths s) (authIndex s).
Definition set_userIndex (f : gmap text ID -> gmap text ID) (s : kv) : kv :=
  MkKv (orgs s) (orgIndex s) (users s) (f (userIndex s)) (passwords s) (urms s) (urmByUser s) (buckets s) (bucketIndex s) (auths s) (authIndex s).
Definition set_passwords (f : gmap ID text -> gmap ID text) (s : kv) : kv :=
  MkKv (orgs s) (orgIndex s) (users s) (userIndex s) (f (passwords s)) (urms s) (urmByUser s) (buckets s) (bucketIndex s) (auths s) (authIndex s).
Definition set_urms (f : gmap (ID * ID) UserResourceMapping -> gmap (ID * ID) UserResourceMapping) (s : kv) : kv :=
  MkKv (orgs s) (orgIndex s) (users s) (userIndex s) (passwords s) (f (urms s)) (urmByUser s) (buckets s) (bucketIndex s) (auths s) (authIndex s).
Definition set_urmByUser (f : gmap (ID * (ID * ID)) (ID * ID) -> gmap (ID * (ID * ID)) (ID * ID)) (s : kv) : kv :=
  MkKv (orgs s) (orgIndex s) (users s) (userIndex s) (passwords s) (urms s) (f (urmByUser s)) (buckets s) (bucketIndex s) (auths s) (authIndex s).
Definition set_buckets (f : gmap ID Bucket -> gmap ID Bucket) (s : kv) : kv :=
  MkKv (orgs s) (orgIndex s) (users s) (userIndex s) (passwords s) (urms s) (urmByUser s) (f (buckets s)) (bucketIndex s) (auths s) (authIndex s).
Definition set_bucketIndex (f : gmap (ID * text) ID -> gmap (ID * text) ID) (s : kv) : kv :=
  MkKv (orgs s) (orgIndex s) (users s) (userIndex s) (passwords s) (urms s) (urmByUser s) (buckets s) (f (bucketIndex s)) (auths s) (authIndex s).
Definition set_auths (f : gmap ID Authorization -> gmap ID Authorization) (s : kv) : kv :=
  MkKv (orgs s) (orgIndex s) (users s) (userIndex s) (passwords s) (urms s) (urmByUser s) (buckets s) (bucketIndex s) (f (auths s)) (authIndex s).
Definition set_authIndex (f : gmap string ID -> gmap string ID) (s : kv) : kv :=
  MkKv (orgs s) (orgIndex s) (users s) (userIndex s) (passwords s) (urms s) (urmByUser s) (buckets s) (bucketIndex s) (auths s) (f (authIndex s)).

(** ** The store monad

    The world is the key-value store and the state of the
    generators; a generator [g] yields [ids g n] at its [n]-th call. *)

Inductive gen := OrgIDGen | IDGen | BucketIDGen | AuthIDGen | TokenGen.
#[export] Instance gen_eq_dec : EqDecision gen.
Proof. solve_decision. Defined.

Record world := MkWorld {
  w_kv : kv;
  w_calls : gen -> nat }.

Inductive result (A : Type) : Type :=
| Ok (a : A)
| Err (e : error).
Arguments Ok {A} a.
Arguments Err {A} e.

Definition M (A : Type) : Type := world -> result A * world.

Definition ret {A} (a : A) : M A := fun w => (Ok a, w).
Definition throw {A} (e : error) : M A := fun w => (Err e, w).
Definition bind {A B} (m : M A) (k : A -> M B) : M B :=
  fun w => match m w with
           | (Ok a, w) => k a w
           | (Err e, w) => (Err e, w)
           end.
Definition get : M kv := fun w => (Ok (w_kv w), w).
Definition put (f : kv -> kv) : M unit := fun w => (Ok tt, MkWorld (f (w_kv w)) (w_calls w)).

(** The error of a call as a value: [err := call(); if err != nil { ... }]. *)
Definition try {A} (m : M A) : M (result A) := fun w => let '(r, w) := m w in (Ok r, w).

Declare Scope tenant_scope.
Delimit Scope tenant_scope with tenant.
Notation "'do' x <- m ; k" := (bind m (fun x => k))
  (at level 200, x pattern, m at level 100, k at level 200, right associativity) : tenant_scope.
Notation "'do_' m ; k" := (bind m (fun _ => k))
  (at level 200, m at level 100, k at level 200, right associativity) : tenant_scope.
Local Open Scope tenant_scope.

(** [kvStore.Update]: the transaction is rolled back when it fails; the
    identifier generators are not part of it. *)
Definition Update {A} (m : M A) : M A :=
  fun w => match m w with
           | (Ok a, w') => (Ok a, w')
           | (Err e, w') => (Err e, MkWorld (w_kv w) (w_calls w'))
           end.
(** [kvStore.View]. *)
Definition View {A} (m : M A) : M A :=
  fun w => let '(r, w') := m w in (r, MkWorld (w_kv w) (w_calls w')).

(** [errors.ErrInternalServiceError]: every error gets a code. *)
Definition ErrInternalServiceError (e : error) : error :=
  match e with
  | Plain _ => Wrap EInternal "" e
  | Platform c msg => if bool_decide (c = ""%string) then Platform EInternal msg else e
  | Wrap c msg err => if bool_decide (c = ""%string) then Wrap EInternal msg err else e
  end.
Definition deferred {A} (m : M A) : M A :=
  fun w => match m w with
           | (Err e, w) => (Err (ErrInternalServiceError e), w)
           | r => r
           end.

(** [id.Encode()]. *)
Definition encode_ID (id : ID) (err : error -> error) : M ID :=
  match PlatformID.Encode id with
  | inl _ => ret id
  | inr e => throw (err e)
  end.

Definition or_throw {A} (o : option A) (e : error) : M A :=
  match o with Some a => ret a | None => throw e end.

(** ** Errors *)

Definition ErrNameisEmpty : error := Platform EInvalid "name is empty".
Definition ErrIDNotUnique : error := Platform EConflict "ID already exists".
Definition ErrFailureGeneratingID : error := Platform EInternal "unable to generate valid id".
Definition ErrOrgNotFound : error := Platform ENotFound "organization not found".
Definition ErrOrgNameisEmpty : error := Platform EInvalid "org name is empty".
Definition OrgAlreadyExistsError : error := Platform EConflict "organization with name already exists".
Definition OrgNotFoundByName : error := Platform ENotFound "organization name not found".
Definition InvalidOrgIDError (e : error) : error := Wrap EInvalid "org id provided is invalid" e.
Definition ErrUserNotFound : error := Platform ENotFound "user not found".
Definition UserAlreadyExistsError : error := Platform EConflict "user with name already exists".
Definition UserIDAlreadyExistsError : error := Platform EConflict "user with ID already exists".
Definition InvalidUserIDError (e : error) : error := Wrap EInvalid "user id provided is invalid" e.
Definition ErrKeyNotFound : error := Plain "key not found".
Definition ErrInvalidURMID : error := Platform EInvalid "provided user resource mapping ID has invalid format".
Definition ErrURMNotFound : error := Platform ENotFound "user to resource mapping not found".
Definition NonUniqueMappingError : error := Platform EInternal "mapping for user already exists".
Definition ErrBucketNotFound : error := Platform ENotFound "bucket not found".
Definition ErrBucketNotFoundByName : error := Platform ENotFound "bucket not found by name".
Definition BucketAlreadyExistsError : error := Platform EConflict "bucket with name already exists".
Definition ErrBucketNameNotUnique : error := Platform EConflict "bucket name is not unique".
Definition errRenameSystemBucket : error := Platform EInvalid "system buckets cannot be renamed".
Definition errDeleteSystemBucket : error := Platform EInvalid "system buckets cannot be deleted".

#[export] Instance error_eq_dec : EqDecision error.
Proof. solve_decision. Defined.

(** ** A map and the index of its entries by name *)

Section Indexed.
Context {K I V : Type} `{Countable K} `{Countable I} (name : V -> I).

Record indexed (m : gmap K V) (ix : gmap I K) : Prop := {
  ix_of : forall k v, m !! k = Some v -> ix !! name v = Some k;
  ix_to : forall n k, ix !! n = Some k -> exists v, m !! k = Some v /\ name v = n }.

(** Names are unique. *)
Lemma indexed_inj m ix k1 k2 v1 v2 :
  indexed m ix -> m !! k1 = Some v1 -> m !! k2 = Some v2 -> name v1 = name v2 -> k1 = k2.
Proof. intros [Hi _] H1 H2 E. apply Hi in H1, H2. congruence. Qed.

Lemma indexed_insert m ix k v :
  indexed m ix -> m !! k = None -> ix !! name v = None -> indexed (<[k := v]> m) (<[name v := k]> ix).
Proof.
  intros [Hi Ho] Hk Hn. split.
  - intros k' v' Hv. apply lookup_insert_Some in Hv as [[<- <-]|[Hne Hv]]; [by rewrite lookup_insert_eq|].
    rewrite lookup_insert_ne; [by apply Hi|]. intros E. apply Hi in Hv. congruence.
  - intros n k' Hv. apply lookup_insert_Some in Hv as [[<- <-]|[Hne Hv]]; [exists v; by rewrite lookup_insert_eq|].
    destruct (Ho n k' Hv) as (v' & Hv' & En). exists v'. split; [|done]. rewrite lookup_insert_ne; [done|congruence].
Qed.

Lemma indexed_replace m ix k v v' :
  indexed m ix -> m !! k = Some v -> name v' = name v -> indexed (<[k := v']> m) ix.
Proof.
  intros [Hi Ho] Hk Hn. split.
  - intros k' x Hv. apply lookup_insert_Some in Hv as [[<- <-]|[Hne Hv]]; [rewrite Hn|]; by apply Hi.
  - intros n k' Hv. destruct (Ho n k' Hv) as (x & Hx & En). destruct (decide (k = k')) as [<-|Hne].
    + exists v'. rewrite lookup_insert_eq. split; [done|]. congruence.
    + exists x. by rewrite lookup_insert_ne.
Qed.

Lemma indexed_delete m ix k v :
  indexed m ix -> m !! k = Some v -> indexed (delete k m) (delete (name v) ix).
Proof.
  intros [Hi Ho] Hk. split.
  - intros k' x Hv. apply lookup_delete_Some in Hv as [Hne Hv]. rewrite lookup_delete_ne; [by apply Hi|].
    intros E. apply Hi in Hv, Hk. congruence.
  - intros n k' Hv. apply lookup_delete_Some in Hv as [Hne Hv]. destruct (Ho n k' Hv) as (x & Hx & En).
    exists x. split; [|done]. rewrite lookup_delete_ne; [done|]. congruence.
Qed.

Lemma indexed_rename m ix k v v' :
  indexed m ix -> m !! k = Some v -> ix !! name v' = None ->
  indexed (<[k := v']> m) (<[name v' := k]> (delete (name v) ix)).
Proof.
  intros Hix Hk Hn. pose proof (indexed_delete m ix k v Hix Hk) as Hd.
  rewrite <- insert_delete_eq. apply indexed_insert; [done|apply lookup_delete_eq|].
  destruct (decide (name v = name v')) as [->|]; [apply lookup_delete_eq|by rewrite lookup_delete_ne].
Qed.
End Indexed.

(** Reduce the fields of a store; open its invariant; keep the parts an
    operation does not touch. *)
Ltac kvs := cbn [w_kv w_calls set_orgs set_orgIndex set_users set_userIndex set_passwords set_urms set_urmByUser
  set_buckets set_bucketIndex set_auths set_authIndex orgs orgIndex users userIndex passwords urms urmByUser buckets
  bucketIndex auths authIndex] in *.
Ltac open_ok H := destruct H as [Ho Ht Hoi Hu Hui Hm Hmi Hb Hbi Hp].
Ltac keep := try eassumption.

Section Store.
Context (ids : gen -> nat -> ID).

(** ** Identifiers *)

Definition MaxIDGenerationN : nat := 100.

Definition next_ID (g : gen) : M ID :=
  fun w => (Ok (ids g (w_calls w g)),
            MkWorld (w_kv w) (fun h => if bool_decide (h = g) then S (w_calls w h) else w_calls w h)).

(** [used] tells whether the bucket holds the encoded identifier. *)
Definition uniqueID (used : kv -> ID -> bool) (id : ID) : M unit :=
  do id <- encode_ID id (fun e => Wrap EInvalid "" e);
  do s <- get;
  if used s id then throw ErrIDNotUnique else ret tt.

Fixpoint generate_loop (n : nat) (used : kv -> ID -> bool) (g : gen) : M ID :=
  match n with
  | O => throw ErrFailureGeneratingID
  | S n =>
    do id <- next_ID g;
    do r <- try (uniqueID used id);
    match r with
    | Ok _ => ret id
    | Err e => if bool_decide (e = ErrIDNotUnique) then generate_loop n used g else throw e
    end
  end.
Definition generateSafeID (used : kv -> ID -> bool) (g : gen) : M ID := generate_loop MaxIDGenerationN used g.

Definition org_used (s : kv) (id : ID) : bool := bool_decide (is_Some (orgs s !! id)).
Definition bucket_used (s : kv) (id : ID) : bool := bool_decide (is_Some (buckets s !! id)).

(** ** Organizations *)

Definition organizationIndexKey (n : text) : text := TrimSpace n.

Definition uniqueOrgName (uname : text) : M unit :=
  let key := organizationIndexKey uname in
  if (length key =? 0)%nat then throw ErrOrgNameisEmpty
  else
    do s <- get;
    match orgIndex s !! key with
    | None => ret tt
    | Some _ => throw OrgAlreadyExistsError
    end.

Definition GetOrg (id : ID) : M Organization :=
  deferred (
    do id <- encode_ID id InvalidOrgIDError;
    do s <- get;
    or_throw (orgs s !! id) ErrOrgNotFound).

Definition GetOrgByName (n : text) : M Organization :=
  deferred (
    do s <- get;
    do id <- or_throw (orgIndex s !! organizationIndexKey n) OrgNotFoundByName;
    GetOrg id).

(** [o] with its new identifier. *)
Definition CreateOrg (o : Organization) : M Organization :=
  deferred (
    do id <- generateSafeID org_used OrgIDGen;
    let o := MkOrg id (o_Name o) (o_Description o) in
    do id <- encode_ID id InvalidOrgIDError;
    do_ uniqueOrgName (o_Name o);
    do_ put (set_orgIndex (insert (organizationIndexKey (o_Name o)) id));
    do_ put (set_orgs (insert id o));
    ret o).

Record OrganizationUpdate := MkOrgUpdate {
  ou_Name : option text;
  ou_Description : option text }.

Definition UpdateOrg (id : ID) (upd : OrganizationUpdate) : M Organization :=
  deferred (
    do id <- encode_ID id (fun e => e);
    do u <- GetOrg id;
    do u <- match ou_Name upd with
            | Some name =>
              if bool_decide (o_Name u <> name) then
                do_ uniqueOrgName name;
                do_ put (set_orgIndex (delete (organizationIndexKey (o_Name u))));
                let u := MkOrg (o_ID u) name (o_Description u) in
                do_ put (set_orgIndex (insert (organizationIndexKey name) id));
                ret u
              else ret u
            | None => ret u
            end;
    let u := MkOrg (o_ID u) (o_Name u) (default (o_Description u) (ou_Description upd)) in
    do_ put (set_orgs (insert id u));
    ret u).

(** The index entry is deleted under the name itself, not under
    [organizationIndexKey]. *)
Definition DeleteOrg (id : ID) : M unit :=
  deferred (
    do u <- GetOrg id;
    do id <- encode_ID id InvalidOrgIDError;
    do_ put (set_orgIndex (delete (o_Name u)));
    put (set_orgs (delete id))).

(** ** User resource mappings *)

Definition GetUser (id : ID) : M User :=
  deferred (
    do id <- encode_ID id InvalidUserIDError;
    do s <- get;
    or_throw (users s !! id) ErrUserNotFound).

Definition userResourceKey (resourceID userID : ID) : M (ID * ID) :=
  do r <- encode_ID resourceID (fun _ => ErrInvalidURMID);
  do u <- encode_ID userID (fun _ => ErrInvalidURMID);
  ret (r, u).

Definition uniqueUserResourceMapping (m : UserResourceMapping) : M unit :=
  do key <- userResourceKey (m_ResourceID m) (m_UserID m);
  do s <- get;
  match urms s !! key with
  | None => ret tt
  | Some _ => throw NonUniqueMappingError
  end.

Definition CreateURM (m : UserResourceMapping) : M unit :=
  do_ GetUser (m_UserID m);
  do_ uniqueUserResourceMapping m;
  do key <- userResourceKey (m_ResourceID m) (m_UserID m);
  do_ put (set_urms (insert key m));
  do userID <- encode_ID (m_UserID m) (fun e => e);
  put (set_urmByUser (insert (userID, key) key)).

Definition GetURM (resourceID userID : ID) : M UserResourceMapping :=
  do key <- userResourceKey resourceID userID;
  do s <- get;
  or_throw (urms s !! key) ErrKeyNotFound.

Definition DeleteURM (resourceID userID : ID) : M unit :=
  do key <- userResourceKey resourceID userID;
  do uid <- encode_ID userID (fun e => e);
  do_ put (set_urmByUser (delete (uid, key)));
  put (set_urms (delete key)).

Record UserResourceMappingFilter := MkURMFilter {
  f_ResourceID : ID;
  f_ResourceType : ResourceType;
  f_UserID : ID;
  f_UserType : UserType }.

Record FindOptions := MkFindOptions {
  fo_Offset : Z;
  fo_Limit : Z;
  fo_After : option ID;
  fo_Descending : bool }.
Definition zeroFindOptions : FindOptions := MkFindOptions 0 0 None false.

Definition filterFn (f : UserResourceMappingFilter) (m : UserResourceMapping) : bool :=
  (negb (PlatformID.Valid (f_UserID f)) || (f_UserID f =? m_UserID m)) &&
  (negb (PlatformID.Valid (f_ResourceID f)) || (f_ResourceID f =? m_ResourceID m)) &&
  (bool_decide (f_UserType f = ""%string) || bool_decide (f_UserType f = m_UserType m)) &&
  (bool_decide (f_ResourceType f = ""%string) || bool_decide (f_ResourceType f = m_ResourceType m)).

(** Keys in the order of their encodings: by resource, then by user. *)
Definition key_le (a b : ID * ID) : Prop := a.1 < b.1 \/ (a.1 = b.1 /\ a.2 <= b.2).
#[local] Instance key_le_dec : RelDecision key_le.
Proof. unfold RelDecision, key_le. apply _. Defined.

(** [urmByUserIndex.Walk]: the keys indexed under the user, then the values
    still in the source. *)
Definition walk_user (s : kv) (uid : ID) : list UserResourceMapping :=
  omap (fun pk => urms s !! pk)
    (merge_sort key_le (snd <$> List.filter (fun e => e.1.1 =? uid) (map_to_list (urmByUser s)))).

(** The visit function: [seen] items so far, [ms] collected. *)
Fixpoint visit_urms (f : UserResourceMappingFilter) (opt : option FindOptions) (seen : Z)
    (ms : list UserResourceMapping) (vs : list UserResourceMapping) : list UserResourceMapping :=
  match vs with
  | [] => ms
  | m :: vs =>
    let reachedOffset := match opt with None => true | Some o => fo_Offset o <=? seen end in
    let ms := if reachedOffset && filterFn f m then ms ++ [m] else ms in
    let continue := match opt with
                    | None => true
                    | Some o => (fo_Limit o <=? 0) || (Z.of_nat (length ms) <? fo_Limit o)
                    end in
    if continue then visit_urms f opt (seen + 1) ms vs else ms
  end.

(** The cursor over the mappings of a resource, or of all. *)
Definition urm_cursor (s : kv) (rid : ID) : list UserResourceMapping :=
  omap (fun key => urms s !! key)
    (merge_sort key_le
       (List.filter (fun key => negb (PlatformID.Valid rid) || (key.1 =? rid)) (fst <$> map_to_list (urms s)))).

Fixpoint scan_urms (f : UserResourceMappingFilter) (opt : option FindOptions)
    (ms : list UserResourceMapping) (vs : list UserResourceMapping) : list UserResourceMapping :=
  match vs with
  | [] => ms
  | m :: vs =>
    let ms := if filterFn f m then ms ++ [m] else ms in
    let stop := match opt with
                | None => false
                | Some o => (0 <? fo_Limit o) && (fo_Limit o <=? Z.of_nat (length ms))
                end in
    if stop then ms else scan_urms f opt ms vs
  end.

Definition ListURMs (f : UserResourceMappingFilter) (opt : option FindOptions) : M (list UserResourceMapping) :=
  do s <- get;
  if PlatformID.Valid (f_UserID f)
  then ret (visit_urms f opt 0 [] (walk_user s (f_UserID f)))
  else ret (scan_urms f opt [] (urm_cursor s (f_ResourceID f))).

Definition by_user (uid : ID) : UserResourceMappingFilter := MkURMFilter 0 "" uid "".
Definition by_resource (rid : ID) : UserResourceMappingFilter := MkURMFilter rid "" 0 "".

(** ** Users and passwords *)

Definition uniqueUserName (uname : text) : M unit :=
  do s <- get;
  match userIndex s !! uname with
  | None => ret tt
  | Some _ => throw UserAlreadyExistsError
  end.

Definition uniqueUserID (id : ID) : M unit :=
  do s <- get;
  match users s !! id with
  | None => ret tt
  | Some _ => throw UserIDAlreadyExistsError
  end.

Definition GetUserByName (n : text) : M User :=
  deferred (
    do s <- get;
    do id <- or_throw (userIndex s !! n) ErrUserNotFound;
    GetUser id).

Definition CreateUser (u : User) : M User :=
  deferred (
    do id <- (if negb (PlatformID.Valid (u_ID u)) then next_ID IDGen else ret (u_ID u));
    let u := MkUser id (u_Name u) (u_OAuthID u) (u_Status u) in
    do id <- encode_ID id InvalidUserIDError;
    do_ uniqueUserName (u_Name u);
    do_ uniqueUserID id;
    do_ put (set_userIndex (insert (u_Name u) id));
    do_ put (set_users (insert id u));
    ret u).

Record UserUpdate := MkUserUpdate {
  uu_Name : option text;
  uu_Status : option Status }.

Definition UpdateUser (id : ID) (upd : UserUpdate) : M User :=
  deferred (
    do id <- encode_ID id (fun e => e);
    do u <- GetUser id;
    do u <- match uu_Name upd with
            | Some name =>
              if bool_decide (name <> u_Name u) then
                do_ uniqueUserName name;
                do_ put (set_userIndex (delete (u_Name u)));
                let u := MkUser (u_ID u) name (u_OAuthID u) (u_Status u) in
                do_ put (set_userIndex (insert (u_Name u) id));
                ret u
              else ret u
            | None => ret u
            end;
    let u := MkUser (u_ID u) (u_Name u) (u_OAuthID u) (default (u_Status u) (uu_Status upd)) in
    do_ put (set_users (insert id u));
    ret u).

(** [for _, urm := range urms { aggErr.Add(s.DeleteURM(...)) }; aggErr.Err()]. *)
Fixpoint delete_urms (ms : list UserResourceMapping) (agg : list error) : M (list error) :=
  match ms with
  | [] => ret agg
  | m :: ms =>
    do r <- try (DeleteURM (m_ResourceID m) (m_UserID m));
    match r with
    | Ok _ => delete_urms ms agg
    | Err e => delete_urms ms (agg ++ [e])
    end
  end.

Definition DeleteUser (id : ID) : M unit :=
  deferred (
    do u <- GetUser id;
    do id <- encode_ID id InvalidUserIDError;
    do_ put (set_userIndex (delete (u_Name u)));
    do_ put (set_users (delete id));
    do_ put (set_passwords (delete id));
    do ms <- ListURMs (by_user id) None;
    do agg <- delete_urms ms [];
    match agg with
    | [] => ret tt
    | _ => throw (Plain "errors")
    end).

Definition GetPassword (id : ID) : M text :=
  do id <- encode_ID id InvalidUserIDError;
  do s <- get;
  or_throw (passwords s !! id) ErrKeyNotFound.

Definition SetPassword (id : ID) (password : text) : M unit :=
  do id <- encode_ID id InvalidUserIDError;
  put (set_passwords (insert id password)).

Definition DeletePassword (id : ID) : M unit :=
  do id <- encode_ID id InvalidUserIDError;
  put (set_passwords (delete id)).

(** ** Buckets *)

Definition bucketIndexKey (o : ID) (name : text) : M (ID * text) :=
  do o <- encode_ID o (fun e => Wrap EInvalid "" e);
  ret (o, name).

(** The key always holds the organization, so it is never empty. *)
Definition uniqueBucketName (oid : ID) (uname : text) : M unit :=
  do key <- bucketIndexKey oid uname;
  do s <- get;
  match bucketIndex s !! key with
  | None => ret tt
  | Some _ => throw BucketAlreadyExistsError
  end.

Definition GetBucket (id : ID) : M Bucket :=
  deferred (
    do id <- encode_ID id InvalidOrgIDError;
    do s <- get;
    or_throw (buckets s !! id) ErrBucketNotFound).

Definition GetBucketByName (orgID : ID) (n : text) : M Bucket :=
  deferred (
    do key <- bucketIndexKey orgID n;
    do s <- get;
    do id <- or_throw (bucketIndex s !! key) ErrBucketNotFoundByName;
    GetBucket id).

(** Names in byte order. *)
Fixpoint text_le (a b : text) : bool :=
  match a, b with
  | [], _ => true
  | _ :: _, [] => false
  | x :: a, y :: b => (x <? y) || ((x =? y) && text_le a b)
  end.
Definition entry_le (a b : text * ID) : Prop := text_le a.1 b.1 = true.
#[local] Instance entry_le_dec : RelDecision entry_le.
Proof. unfold RelDecision, entry_le. apply _. Defined.

(** The cursor over the index entries of an organization. *)
Definition bucket_cursor (s : kv) (orgID : ID) : list ID :=
  snd <$> merge_sort entry_le
    (omap (fun e => if e.1.1 =? orgID then Some (e.1.2, e.2) else None) (map_to_list (bucketIndex s))).

Fixpoint list_buckets_loop (o : FindOptions) (count : Z) (searchingForAfter : bool)
    (bs : list Bucket) (entries : list ID) : M (list Bucket) :=
  match entries with
  | [] => ret bs
  | id :: entries =>
    if negb (fo_Offset o =? 0) && (count <? fo_Offset o)
    then list_buckets_loop o (count + 1) searchingForAfter bs entries
    else if searchingForAfter
    then list_buckets_loop o count (bool_decide (fo_After o <> Some id)) bs entries
    else
      do b <- GetBucket id;
      let bs := bs ++ [b] in
      if negb (fo_Limit o =? 0) && (fo_Limit o <=? Z.of_nat (length bs)) then ret bs
      else list_buckets_loop o count false bs entries
  end.

Definition listBucketsByOrg (orgID : ID) (o : FindOptions) : M (list Bucket) :=
  do orgID <- encode_ID orgID (fun e => Wrap EInvalid "" e);
  do s <- get;
  let entries := bucket_cursor s orgID in
  let entries := if fo_Descending o then reverse entries else entries in
  list_buckets_loop o 0 (bool_decide (is_Some (fo_After o))) [] entries.

Definition CreateBucket (b : Bucket) : M Bucket :=
  deferred (
    do id <- generateSafeID bucket_used BucketIDGen;
    let b := MkBucket id (b_OrgID b) (b_Type b) (b_Name b) (b_Description b)
               (b_RetentionPolicyName b) (b_RetentionPeriod b) (b_ShardGroupDuration b) in
    do id <- encode_ID id InvalidOrgIDError;
    do_ uniqueBucketName (b_OrgID b) (b_Name b);
    do ikey <- bucketIndexKey (b_OrgID b) (b_Name b);
    do_ put (set_bucketIndex (insert ikey id));
    do_ put (set_buckets (insert id b));
    ret b).

Definition underscore : Z := 95.
Definition quote : Z := 34.

Definition validBucketName (name : text) (typ : BucketType) : option error :=
  if bool_decide (head name = Some underscore) && negb (typ =? BucketTypeSystem)
  then Some (Platform EInvalid "bucket name is invalid. Buckets may not start with underscore")
  else if bool_decide (quote ∈ name)
  then Some (Platform EInvalid "bucket name is invalid. Bucket names may not include quotation marks")
  else None.

Record BucketUpdate := MkBucketUpdate {
  bu_Name : option text;
  bu_Description : option text;
  bu_RetentionPeriod : option Z;
  bu_ShardGroupDuration : option Z }.

Definition rename_bucket (b : Bucket) (name : text) : Bucket :=
  MkBucket (b_ID b) (b_OrgID b) (b_Type b) name (b_Description b)
    (b_RetentionPolicyName b) (b_RetentionPeriod b) (b_ShardGroupDuration b).

Definition UpdateBucket (id : ID) (upd : BucketUpdate) : M Bucket :=
  deferred (
    do id <- encode_ID id (fun e => e);
    do b <- GetBucket id;
    do b <- match bu_Name upd with
            | Some name =>
              if bool_decide (b_Name b <> name) then
                if b_Type b =? BucketTypeSystem then throw errRenameSystemBucket
                else match validBucketName name (b_Type b) with
                | Some e => throw e
                | None =>
                  do r <- try (uniqueBucketName (b_OrgID b) name);
                  match r with
                  | Err _ => throw ErrBucketNameNotUnique
                  | Ok _ =>
                    do oldIkey <- bucketIndexKey (b_OrgID b) (b_Name b);
                    do_ put (set_bucketIndex (delete oldIkey));
                    do newIkey <- bucketIndexKey (b_OrgID b) name;
                    do_ put (set_bucketIndex (insert newIkey id));
                    ret (rename_bucket b name)
                  end
                end
              else ret b
            | None => ret b
            end;
    let b := MkBucket (b_ID b) (b_OrgID b) (b_Type b) (b_Name b) (default (b_Description b) (bu_Description upd))
               (b_RetentionPolicyName b) (default (b_RetentionPeriod b) (bu_RetentionPeriod upd))
               (default (b_ShardGroupDuration b) (bu_ShardGroupDuration upd)) in
    do_ put (set_buckets (insert id b));
    ret b).

Definition DeleteBucket (id : ID) : M unit :=
  deferred (
    do b <- GetBucket id;
    do id <- encode_ID id InvalidOrgIDError;
    do ikey <- bucketIndexKey (b_OrgID b) (b_Name b);
    do_ put (set_bucketIndex (delete ikey));
    put (set_buckets (delete id))).

(** ** Inverting successful runs *)

Lemma bind_Ok {A B} (m : M A) (k : A -> M B) w b w' :
  bind m k w = (Ok b, w') -> exists a w1, m w = (Ok a, w1) /\ k a w1 = (Ok b, w').
Proof. unfold bind. destruct (m w) as [[a|e] w1]; [by eauto|done]. Qed.

Lemma deferred_Ok {A} (m : M A) w a w' : deferred m w = (Ok a, w') -> m w = (Ok a, w').
Proof. unfold deferred. by destruct (m w) as [[]]. Qed.

Lemma encode_ID_Ok id f w a w' :
  encode_ID id f w = (Ok a, w') -> a = id /\ w' = w /\ PlatformID.Valid id = true.
Proof.
  unfold encode_ID, PlatformID.Encode. destruct (PlatformID.Valid id); [|done].
  intros H. by injection H as <- <-.
Qed.

Lemma or_throw_Ok {A} (o : option A) e w a w' :
  or_throw o e w = (Ok a, w') -> o = Some a /\ w' = w.
Proof. destruct o; [|done]. intros H. by injection H as <- <-. Qed.

Lemma ret_Ok {A} (x a : A) w w' : ret x w = (Ok a, w') -> a = x /\ w' = w.
Proof. intros H. by injection H as <- <-. Qed.

Lemma get_Ok w s w' : get w = (Ok s, w') -> s = w_kv w /\ w' = w.
Proof. intros H. by injection H as <- <-. Qed.

Lemma put_Ok f w x w' : put f w = (Ok x, w') -> w' = MkWorld (f (w_kv w)) (w_calls w).
Proof. intros H. by injection H as _ <-. Qed.

Lemma try_Ok {A} (m : M A) w r w' : try m w = (Ok r, w') -> m w = (r, w').
Proof. unfold try. destruct (m w). intros H. by injection H as <- <-. Qed.

(** Split a successful run into its steps. *)
Ltac step_inv :=
  match goal with
  | H : bind _ _ _ = (Ok _, _) |- _ => apply bind_Ok in H as (? & ? & ? & H)
  | H : deferred _ _ = (Ok _, _) |- _ => apply deferred_Ok in H
  | H : encode_ID _ _ _ = (Ok _, _) |- _ => apply encode_ID_Ok in H as (-> & -> & ?)
  | H : or_throw _ _ _ = (Ok _, _) |- _ => apply or_throw_Ok in H as (? & ->)
  | H : ret _ _ = (Ok _, _) |- _ => apply ret_Ok in H as (-> & ->)
  | H : get _ = (Ok _, _) |- _ => apply get_Ok in H as (-> & ->)
  | H : put _ _ = (Ok _, _) |- _ => apply put_Ok in H as ->
  | H : throw _ _ = (Ok _, _) |- _ => discriminate H
  | H : try _ _ = (Ok _, _) |- _ => apply try_Ok in H
  end.
Ltac run_inv := repeat (step_inv; cbn beta iota zeta in *).

Lemma next_ID_Ok g w id w' : next_ID g w = (Ok id, w') -> w_kv w' = w_kv w.
Proof. intros H. by injection H as _ <-. Qed.

Lemma uniqueID_run used id w r w' :
  uniqueID used id w = (r, w') ->
  w' = w /\ (forall x, r = Ok x -> PlatformID.Valid id = true /\ used (w_kv w) id = false).
Proof.
  unfold uniqueID, bind, encode_ID, PlatformID.Encode, get, throw, ret.
  destruct (PlatformID.Valid id); cbn beta iota zeta delta [negb].
  - destruct (used (w_kv w) id) eqn:E; intros H; injection H as <- <-; done.
  - intros H. injection H as <- <-. done.
Qed.

(** A generated identifier is valid and unused; only the generator moves. *)
Lemma generateSafeID_Ok used g w id w' :
  generateSafeID used g w = (Ok id, w') ->
  w_kv w' = w_kv w /\ PlatformID.Valid id = true /\ used (w_kv w) id = false.
Proof.
  unfold generateSafeID. generalize MaxIDGenerationN. intros n. revert w.
  induction n as [|n IH]; intros w H; cbn [generate_loop] in H; [done|].
  apply bind_Ok in H as (i & w1 & Hn & H). apply next_ID_Ok in Hn as Ek.
  apply bind_Ok in H as (r & w2 & Hu & H). apply try_Ok, uniqueID_run in Hu as [-> Hu].
  destruct r as [y|e].
  - run_inv. destruct (Hu y eq_refl) as [Hv Hf]. rewrite Ek in Hf. done.
  - case_bool_decide; [|run_inv]. apply IH in H. rewrite Ek in H. done.
Qed.

(** ** What each successful operation does *)

Lemma GetOrg_Ok id w o w' :
  GetOrg id w = (Ok o, w') -> w' = w /\ PlatformID.Valid id = true /\ orgs (w_kv w) !! id = Some o.
Proof. unfold GetOrg. intros H. by run_inv. Qed.

Lemma uniqueOrgName_Ok n w x w' :
  uniqueOrgName n w = (Ok x, w') ->
  w' = w /\ orgIndex (w_kv w) !! TrimSpace n = None /\ TrimSpace n <> [].
Proof.
  unfold uniqueOrgName, organizationIndexKey. intros H.
  destruct (Nat.eqb_spec (length (TrimSpace n)) 0) as [|Hn]; [run_inv|]. run_inv.
  destruct (orgIndex (w_kv w) !! _); run_inv. split_and!; [done..|]. by destruct (TrimSpace n).
Qed.

Lemma CreateOrg_Ok o w o' w' :
  CreateOrg o w = (Ok o', w') ->
  exists id, o' = MkOrg id (o_Name o) (o_Description o) /\ PlatformID.Valid id = true /\
    orgs (w_kv w) !! id = None /\ orgIndex (w_kv w) !! TrimSpace (o_Name o) = None /\
    w_kv w' = set_orgs (insert id o') (set_orgIndex (insert (TrimSpace (o_Name o)) id) (w_kv w)).
Proof.
  unfold CreateOrg. intros H. apply deferred_Ok, bind_Ok in H as (id & w1 & Hg & H).
  apply generateSafeID_Ok in Hg as (Ek & Hv & Hu). cbn [o_Name o_Description] in H.
  apply bind_Ok in H as (id' & w2 & He & H). apply encode_ID_Ok in He as (-> & -> & _).
  apply bind_Ok in H as (x & w3 & Hn & H). apply uniqueOrgName_Ok in Hn as (-> & Hn & _).
  run_inv. exists id. rewrite Ek in *. unfold org_used in Hu. apply bool_decide_eq_false, eq_None_not_Some in Hu.
  split_and!; done.
Qed.

Lemma UpdateOrg_Ok id upd w o' w' :
  UpdateOrg id upd w = (Ok o', w') ->
  exists u, orgs (w_kv w) !! id = Some u /\ PlatformID.Valid id = true /\ o_ID o' = o_ID u /\
    ((o_Name o' = o_Name u /\ w_kv w' = set_orgs (insert id o') (w_kv w)) \/
     (ou_Name upd = Some (o_Name o') /\ orgIndex (w_kv w) !! TrimSpace (o_Name o') = None /\
      w_kv w' = set_orgs (insert id o')
        (set_orgIndex (fun m => <[TrimSpace (o_Name o') := id]> (delete (TrimSpace (o_Name u)) m)) (w_kv w)))).
Proof.
  unfold UpdateOrg. intros H. apply deferred_Ok, bind_Ok in H as (i & w1 & He & H).
  apply encode_ID_Ok in He as (-> & -> & Hv). apply bind_Ok in H as (u & w2 & Hg & H).
  apply GetOrg_Ok in Hg as (-> & _ & Hg). exists u. split; [done|]. split; [done|].
  apply bind_Ok in H as (u2 & w3 & Hm & H). run_inv. cbn [o_ID o_Name].
  destruct (ou_Name upd) as [name|]; [|run_inv; split; [done|left; done]].
  case_bool_decide; [|run_inv; split; [done|left; done]].
  apply bind_Ok in Hm as (xx & w4 & Hu & Hm). apply uniqueOrgName_Ok in Hu as (-> & Hu & _).
  run_inv. kvs. split; [done|]. right. split_and!; [done|done|]. reflexivity.
Qed.

Lemma DeleteOrg_Ok id w x w' :
  DeleteOrg id w = (Ok x, w') ->
  exists u, orgs (w_kv w) !! id = Some u /\
    w_kv w' = set_orgs (delete id) (set_orgIndex (delete (o_Name u)) (w_kv w)).
Proof.
  unfold DeleteOrg. intros H. apply deferred_Ok, bind_Ok in H as (u & w2 & Hg & H).
  apply GetOrg_Ok in Hg as (-> & _ & Hg). run_inv. by exists u.
Qed.

Lemma GetUser_Ok id w u w' :
  GetUser id w = (Ok u, w') -> w' = w /\ PlatformID.Valid id = true /\ users (w_kv w) !! id = Some u.
Proof. unfold GetUser. intros H. by run_inv. Qed.

Lemma uniqueUserName_Ok n w x w' :
  uniqueUserName n w = (Ok x, w') -> w' = w /\ userIndex (w_kv w) !! n = None.
Proof. unfold uniqueUserName. intros H. run_inv. destruct (userIndex _ !! _); by run_inv. Qed.

Lemma uniqueUserID_Ok i w x w' :
  uniqueUserID i w = (Ok x, w') -> w' = w /\ users (w_kv w) !! i = None.
Proof. unfold uniqueUserID. intros H. run_inv. destruct (users _ !! _); by run_inv. Qed.

Lemma CreateUser_Ok u w u' w' :
  CreateUser u w = (Ok u', w') ->
  exists id, u' = MkUser id (u_Name u) (u_OAuthID u) (u_Status u) /\ PlatformID.Valid id = true /\
    users (w_kv w) !! id = None /\ userIndex (w_kv w) !! u_Name u = None /\
    w_kv w' = set_users (insert id u') (set_userIndex (insert (u_Name u) id) (w_kv w)).
Proof.
  unfold CreateUser. intros H. apply deferred_Ok, bind_Ok in H as (id & w1 & Hg & H).
  assert (Ek : w_kv w1 = w_kv w).
  { destruct (negb _); [by apply next_ID_Ok in Hg|]. by run_inv. }
  cbn [u_Name u_OAuthID u_Status] in H. apply bind_Ok in H as (id' & w2 & He & H).
  apply encode_ID_Ok in He as (-> & -> & Hv). apply bind_Ok in H as (x & w3 & Hn & H).
  apply uniqueUserName_Ok in Hn as (-> & Hn). apply bind_Ok in H as (y & w4 & Hi & H).
  apply uniqueUserID_Ok in Hi as (-> & Hi). run_inv. exists id. rewrite Ek in *. split_and!; done.

Qed.

Lemma UpdateUser_Ok id upd w u' w' :
  UpdateUser id upd w = (Ok u', w') ->
  exists u, users (w_kv w) !! id = Some u /\ PlatformID.Valid id = true /\ u_ID u' = u_ID u /\
    ((u_Name u' = u_Name u /\ w_kv w' = set_users (insert id u') (w_kv w)) \/
     (userIndex (w_kv w) !! u_Name u' = None /\
      w_kv w' = set_users (insert id u')
        (set_userIndex (fun m => <[u_Name u' := id]> (delete (u_Name u) m)) (w_kv w)))).
Proof.
  unfold UpdateUser. intros H. apply deferred_Ok, bind_Ok in H as (i & w1 & He & H).
  apply encode_ID_Ok in He as (-> & -> & Hv). apply bind_Ok in H as (u & w2 & Hg & H).
  apply GetUser_Ok in Hg as (-> & _ & Hg). exists u. split; [done|]. split; [done|].
  apply bind_Ok in H as (u2 & w3 & Hm & H). run_inv. cbn [u_ID u_Name].
  destruct (uu_Name upd) as [name|]; [|run_inv; split; [done|left; done]].
  case_bool_decide; [|run_inv; split; [done|left; done]].
  apply bind_Ok in Hm as (xx & w4 & Hu & Hm). apply uniqueUserName_Ok in Hu as (-> & Hu).
  run_inv. kvs. split; [done|]. right. split; [done|]. reflexivity.
Qed.

Lemma userResourceKey_Ok r u w k w' :
  userResourceKey r u w = (Ok k, w') ->
  w' = w /\ k = (r, u) /\ PlatformID.Valid r = true /\ PlatformID.Valid u = true.
Proof. unfold userResourceKey. intros H. by run_inv. Qed.

Lemma CreateURM_Ok m w x w' :
  CreateURM m w = (Ok x, w') ->
  let k := (m_ResourceID m, m_UserID m) in
  is_Some (users (w_kv w) !! m_UserID m) /\ urms (w_kv w) !! k = None /\
  PlatformID.Valid k.1 = true /\ PlatformID.Valid k.2 = true /\
  w_kv w' = set_urmByUser (insert (k.2, k) k) (set_urms (insert k m) (w_kv w)).
Proof.
  unfold CreateURM. intros H. apply bind_Ok in H as (u & w2 & Hg & H).
  apply GetUser_Ok in Hg as (-> & _ & Hg). apply bind_Ok in H as (y & w3 & Hu & H).
  unfold uniqueUserResourceMapping in Hu. apply bind_Ok in Hu as (k & w4 & Hk & Hu).
  apply userResourceKey_Ok in Hk as (-> & -> & Hr & Hv). apply bind_Ok in Hu as (s & w4 & Hs & Hu).
  apply get_Ok in Hs as (-> & ->). destruct (urms _ !! _) eqn:E; [run_inv|]. apply ret_Ok in Hu as (_ & ->).
  apply bind_Ok in H as (k & w4 & Hk & H). apply userResourceKey_Ok in Hk as (-> & -> & _ & _).
  run_inv. kvs. split_and!; done.
Qed.

Lemma DeleteURM_Ok r u w x w' :
  DeleteURM r u w = (Ok x, w') ->
  w_kv w' = set_urms (delete (r, u)) (set_urmByUser (delete (u, (r, u))) (w_kv w)).
Proof.
  unfold DeleteURM. intros H. apply bind_Ok in H as (k & w4 & Hk & H).
  apply userResourceKey_Ok in Hk as (-> & -> & _ & _). by run_inv.
Qed.

Lemma bucketIndexKey_Ok o n w k w' :
  bucketIndexKey o n w = (Ok k, w') -> w' = w /\ k = (o, n) /\ PlatformID.Valid o = true.
Proof. unfold bucketIndexKey. intros H. by run_inv. Qed.

Lemma uniqueBucketName_run o n w r w' :
  uniqueBucketName o n w = (r, w') ->
  w' = w /\ (forall x, r = Ok x -> bucketIndex (w_kv w) !! (o, n) = None /\ PlatformID.Valid o = true).
Proof.
  unfold uniqueBucketName, bucketIndexKey, bind, encode_ID, PlatformID.Encode, get, ret, throw.
  destruct (PlatformID.Valid o); cbn beta iota zeta delta [negb].
  - destruct (bucketIndex (w_kv w) !! (o, n)) eqn:E; intros H; injection H as <- <-; done.
  - intros H. injection H as <- <-. done.
Qed.

Lemma GetBucket_Ok id w b w' :
  GetBucket id w = (Ok b, w') -> w' = w /\ PlatformID.Valid id = true /\ buckets (w_kv w) !! id = Some b.
Proof. unfold GetBucket. intros H. by run_inv. Qed.

Definition with_ID (id : ID) (b : Bucket) : Bucket :=
  MkBucket id (b_OrgID b) (b_Type b) (b_Name b) (b_Description b)
    (b_RetentionPolicyName b) (b_RetentionPeriod b) (b_ShardGroupDuration b).

Lemma CreateBucket_Ok b w b' w' :
  CreateBucket b w = (Ok b', w') ->
  exists id, b' = with_ID id b /\ PlatformID.Valid id = true /\ PlatformID.Valid (b_OrgID b) = true /\
    buckets (w_kv w) !! id = None /\ bucketIndex (w_kv w) !! (b_OrgID b, b_Name b) = None /\
    w_kv w' = set_buckets (insert id b') (set_bucketIndex (insert (b_OrgID b, b_Name b) id) (w_kv w)).
Proof.
  unfold CreateBucket. intros H. apply deferred_Ok, bind_Ok in H as (id & w1 & Hg & H).
  apply generateSafeID_Ok in Hg as (Ek & Hv & Hu). cbn [b_OrgID b_Name] in H.
  apply bind_Ok in H as (id' & w2 & He & H). apply encode_ID_Ok in He as (-> & -> & _).
  apply bind_Ok in H as (x & w3 & Hn & H). apply uniqueBucketName_run in Hn as (-> & Hn).
  destruct (Hn x eq_refl) as [Hi Ho]. apply bind_Ok in H as (k & w3 & Hk & H).
  apply bucketIndexKey_Ok in Hk as (-> & -> & _). run_inv. exists id. rewrite Ek in *.
  unfold bucket_used in Hu. apply bool_decide_eq_false, eq_None_not_Some in Hu. split_and!; done.
Qed.

Lemma UpdateBucket_Ok id upd w b' w' :
  UpdateBucket id upd w = (Ok b', w') ->
  exists b, buckets (w_kv w) !! id = Some b /\ PlatformID.Valid id = true /\
    b_ID b' = b_ID b /\ b_OrgID b' = b_OrgID b /\ b_Type b' = b_Type b /\
    ((b_Name b' = b_Name b /\ w_kv w' = set_buckets (insert id b') (w_kv w)) \/
     (b_Type b <> BucketTypeSystem /\ bucketIndex (w_kv w) !! (b_OrgID b, b_Name b') = None /\
      w_kv w' = set_buckets (insert id b')
        (set_bucketIndex (fun m => <[(b_OrgID b, b_Name b') := id]> (delete (b_OrgID b, b_Name b) m)) (w_kv w)))).
Proof.
  unfold UpdateBucket. intros H. apply deferred_Ok, bind_Ok in H as (i & w1 & He & H).
  apply encode_ID_Ok in He as (-> & -> & Hv). apply bind_Ok in H as (b & w2 & Hg & H).
  apply GetBucket_Ok in Hg as (-> & _ & Hg). exists b. split; [done|]. split; [done|].
  apply bind_Ok in H as (b2 & w3 & Hm & H). run_inv. cbn [b_ID b_OrgID b_Type b_Name].
  destruct (bu_Name upd) as [name|]; [|run_inv; split_and!; [done..|left; done]].
  case_bool_decide; [|run_inv; split_and!; [done..|left; done]].
  destruct (Z.eqb_spec (b_Type b) BucketTypeSystem); [run_inv|].
  destruct (validBucketName name (b_Type b)); [run_inv|].
  apply bind_Ok in Hm as (r & w4 & Hu & Hm). apply try_Ok, uniqueBucketName_run in Hu as (-> & Hu).
  destruct r as [xx|e]; [|run_inv]. destruct (Hu xx eq_refl) as [Hi Ho].
  apply bind_Ok in Hm as (k1 & w4 & Hk & Hm). apply bucketIndexKey_Ok in Hk as (-> & -> & _).
  apply bind_Ok in Hm as (x1 & w4 & Hp & Hm). apply put_Ok in Hp as ->.
  apply bind_Ok in Hm as (k2 & w4 & Hk & Hm). apply bucketIndexKey_Ok in Hk as (-> & -> & _).
  run_inv. split_and!; [done..|]. right. done.
Qed.

Lemma DeleteBucket_Ok id w x w' :
  DeleteBucket id w = (Ok x, w') ->
  exists b, buckets (w_kv w) !! id = Some b /\
    w_kv w' = set_buckets (delete id) (set_bucketIndex (delete (b_OrgID b, b_Name b)) (w_kv w)).
Proof.
  unfold DeleteBucket. intros H. apply deferred_Ok, bind_Ok in H as (b & w2 & Hg & H).
  apply GetBucket_Ok in Hg as (-> & _ & Hg). run_inv.
  match goal with Hk : bucketIndexKey _ _ _ = _ |- _ => apply bucketIndexKey_Ok in Hk as (-> & -> & _) end.
  run_inv. by exists b.
Qed.

(** ** Consistency of the data with its indexes *)

Definition org_key (o : Organization) : text := TrimSpace (o_Name o).
Definition urm_key (m : UserResourceMapping) : ID * (ID * ID) := (m_UserID m, (m_ResourceID m, m_UserID m)).
Definition bucket_key (b : Bucket) : ID * text := (b_OrgID b, b_Name b).

(** Every entry is stored under its own identifier and indexed under its name;
    a mapping names an existing user, a bucket an existing organization, a
    password an existing user; organization names are stored trimmed. *)
Record tenant_ok (s : kv) : Prop := {
  ok_orgs : map_Forall (fun id o => o_ID o = id /\ PlatformID.Valid id = true) (orgs s);
  ok_trimmed : map_Forall (fun _ o => TrimSpace (o_Name o) = o_Name o) (orgs s);
  ok_orgIndex : indexed org_key (orgs s) (orgIndex s);
  ok_users : map_Forall (fun id u => u_ID u = id /\ PlatformID.Valid id = true) (users s);
  ok_userIndex : indexed u_Name (users s) (userIndex s);
  ok_urms : map_Forall (fun k m => k = (m_ResourceID m, m_UserID m) /\ PlatformID.Valid k.1 = true /\
              PlatformID.Valid k.2 = true /\ is_Some (users s !! k.2)) (urms s);
  ok_urmIndex : indexed urm_key (urms s) (urmByUser s);
  ok_buckets : map_Forall (fun id b => b_ID b = id /\ PlatformID.Valid id = true /\
                 is_Some (orgs s !! b_OrgID b)) (buckets s);
  ok_bucketIndex : indexed bucket_key (buckets s) (bucketIndex s);
  ok_passwords : map_Forall (fun id _ => is_Some (users s !! id)) (passwords s) }.

Lemma empty_ok : tenant_ok empty_kv.
Proof. unfold empty_kv. split; kvs; try apply map_Forall_empty; split; intros ?? H; by rewrite lookup_empty in H. Qed.

(** Facts about entries survive when the entry of one key changes. *)
Lemma is_Some_insert {V} (m : gmap ID V) (i j : ID) (v : V) :
  is_Some (m !! j) -> is_Some (<[i := v]> m !! j).
Proof. intros H. apply lookup_insert_is_Some'. by right. Qed.

Lemma is_Some_delete {V} (m : gmap ID V) (i j : ID) :
  i <> j -> is_Some (m !! j) -> is_Some (delete i m !! j).
Proof. intros Hn H. by rewrite lookup_delete_ne. Qed.


Lemma CreateOrg_ok o w o' w' :
  tenant_ok (w_kv w) -> TrimSpace (o_Name o) = o_Name o ->
  CreateOrg o w = (Ok o', w') -> tenant_ok (w_kv w').
Proof.
  intros H Hn Hc. apply CreateOrg_Ok in Hc as (id & -> & Hv & Hf & Hi & ->). open_ok H. split; kvs; keep.
  - by apply map_Forall_insert_2.
  - by apply map_Forall_insert_2.
  - by apply (indexed_insert org_key (orgs (w_kv w)) (orgIndex (w_kv w)) id (MkOrg id (o_Name o) (o_Description o))).
  - eapply map_Forall_impl; [exact Hb|]. cbn. intros i b (? & ? & ?). split_and!; [done..|]. by apply is_Some_insert.
Qed.

Lemma UpdateOrg_ok id upd w o' w' :
  tenant_ok (w_kv w) -> (forall n, ou_Name upd = Some n -> TrimSpace n = n) ->
  UpdateOrg id upd w = (Ok o', w') -> tenant_ok (w_kv w').
Proof.
  intros H Hn Hc. apply UpdateOrg_Ok in Hc as (u & Hu0 & Hv & Hid & Hcase). open_ok H.
  destruct (Ho id u Hu0) as [Eid _]. pose proof (Ht id u Hu0) as Etr. cbn in Etr.
  assert (Hbk : map_Forall (fun i b => b_ID b = i /\ PlatformID.Valid i = true /\
    is_Some (<[id := o']> (orgs (w_kv w)) !! b_OrgID b)) (buckets (w_kv w))).
  { eapply map_Forall_impl; [exact Hb|]. cbn. intros i b (? & ? & ?). split_and!; [done..|]. by apply is_Some_insert. }
  destruct Hcase as [[En ->]|(En & Hi & ->)]; split; kvs; keep.
  - apply map_Forall_insert_2; [split; congruence|done].
  - apply map_Forall_insert_2; [congruence|done].
  - apply (indexed_replace _ _ _ _ u); [done|done|]. unfold org_key. by rewrite En.
  - apply map_Forall_insert_2; [split; congruence|done].
  - apply map_Forall_insert_2; [by apply Hn|done].
  - by apply (indexed_rename org_key (orgs (w_kv w)) (orgIndex (w_kv w)) id u o').
Qed.

Lemma DeleteOrg_ok id w x w' :
  tenant_ok (w_kv w) -> map_Forall (fun _ b => b_OrgID b <> id) (buckets (w_kv w)) ->
  DeleteOrg id w = (Ok x, w') -> tenant_ok (w_kv w').
Proof.
  intros H Hnb Hc. apply DeleteOrg_Ok in Hc as (u & Hu0 & ->). open_ok H. pose proof (Ht id u Hu0) as Etr. cbn in Etr.
  split; kvs; keep.
  - by apply map_Forall_delete.
  - by apply map_Forall_delete.
  - rewrite <- Etr. by apply (indexed_delete org_key (orgs (w_kv w)) (orgIndex (w_kv w)) id u).
  - intros i b Hb0. destruct (Hb i b Hb0) as (? & ? & ?). split_and!; [done..|].
    apply is_Some_delete; [|done]. intros E. by apply (Hnb i b Hb0).
Qed.

Lemma CreateUser_ok u w u' w' :
  tenant_ok (w_kv w) -> CreateUser u w = (Ok u', w') -> tenant_ok (w_kv w').
Proof.
  intros H Hc. apply CreateUser_Ok in Hc as (id & -> & Hv & Hf & Hi & ->). open_ok H. split; kvs; keep.
  - by apply map_Forall_insert_2.
  - by apply (indexed_insert u_Name (users (w_kv w)) (userIndex (w_kv w)) id (MkUser id (u_Name u) (u_OAuthID u) (u_Status u))).
  - eapply map_Forall_impl; [exact Hm|]. cbn. intros k m (? & ? & ? & ?). split_and!; [done..|]. by apply is_Some_insert.
  - eapply map_Forall_impl; [exact Hp|]. cbn. intros. by apply is_Some_insert.
Qed.

Lemma UpdateUser_ok id upd w u' w' :
  tenant_ok (w_kv w) -> UpdateUser id upd w = (Ok u', w') -> tenant_ok (w_kv w').
Proof.
  intros H Hc. apply UpdateUser_Ok in Hc as (u & Hu0 & Hv & Hid & Hcase). open_ok H.
  destruct (Hu id u Hu0) as [Eid _].
  assert (Hpp : map_Forall (fun i _ => is_Some (<[id := u']> (users (w_kv w)) !! i)) (passwords (w_kv w))).
  { eapply map_Forall_impl; [exact Hp|]. cbn. intros. by apply is_Some_insert. }
  assert (Hmm : map_Forall (fun k m => k = (m_ResourceID m, m_UserID m) /\ PlatformID.Valid k.1 = true /\
    PlatformID.Valid k.2 = true /\ is_Some (<[id := u']> (users (w_kv w)) !! k.2)) (urms (w_kv w))).
  { eapply map_Forall_impl; [exact Hm|]. cbn. intros k m (? & ? & ? & ?). split_and!; [done..|]. by apply is_Some_insert. }
  destruct Hcase as [[En ->]|(Hi & ->)]; split; kvs; keep.
  - apply map_Forall_insert_2; [split; congruence|done].
  - by apply (indexed_replace _ _ _ _ u).
  - apply map_Forall_insert_2; [split; congruence|done].
  - by apply (indexed_rename u_Name (users (w_kv w)) (userIndex (w_kv w)) id u u').
Qed.

Lemma CreateURM_ok m w x w' :
  tenant_ok (w_kv w) -> CreateURM m w = (Ok x, w') -> tenant_ok (w_kv w').
Proof.
  intros H Hc. apply CreateURM_Ok in Hc as (Hus & Hf & Hr & Hv & ->). open_ok H. split; kvs; keep.
  - by apply map_Forall_insert_2.
  - apply (indexed_insert urm_key (urms (w_kv w)) (urmByUser (w_kv w)) (m_ResourceID m, m_UserID m) m); [done|done|].
    apply eq_None_not_Some. intros [k Hk]. destruct (ix_to _ _ _ Hmi _ _ Hk) as (m' & Hm' & En).
    injection En as E1 E2 _. destruct (Hm k m' Hm') as [-> _]. rewrite E1, E2, Hf in Hm'. done.
Qed.

Lemma DeleteURM_ok r u w x w' :
  tenant_ok (w_kv w) -> DeleteURM r u w = (Ok x, w') -> tenant_ok (w_kv w').
Proof.
  intros H Hc. apply DeleteURM_Ok in Hc as ->. open_ok H. split; kvs; keep; [by apply map_Forall_delete|].
  destruct (urms (w_kv w) !! (r, u)) as [m|] eqn:E.
  - destruct (Hm _ _ E) as [Ek _]. injection Ek as -> ->. by apply (indexed_delete urm_key (urms (w_kv w)) (urmByUser (w_kv w)) _ m).
  - rewrite !delete_id; [done| |done]. apply eq_None_not_Some. intros [k Hk].
    destruct (ix_to _ _ _ Hmi _ _ Hk) as (m' & Hm' & En). injection En as E1 E2 _.
    destruct (Hm k m' Hm') as [-> _]. congruence.
Qed.

Lemma SetPassword_ok id p w x w' :
  tenant_ok (w_kv w) -> is_Some (users (w_kv w) !! id) ->
  SetPassword id p w = (Ok x, w') -> tenant_ok (w_kv w').
Proof.
  intros H Hs Hc. unfold SetPassword in Hc. run_inv. open_ok H. split; kvs; keep. by apply map_Forall_insert_2.
Qed.

Lemma DeletePassword_ok id w x w' :
  tenant_ok (w_kv w) -> DeletePassword id w = (Ok x, w') -> tenant_ok (w_kv w').
Proof.
  intros H Hc. unfold DeletePassword in Hc. run_inv. open_ok H. split; kvs; keep. by apply map_Forall_delete.
Qed.

Lemma CreateBucket_ok b w b' w' :
  tenant_ok (w_kv w) -> is_Some (orgs (w_kv w) !! b_OrgID b) ->
  CreateBucket b w = (Ok b', w') -> tenant_ok (w_kv w').
Proof.
  intros H Ho' Hc. apply CreateBucket_Ok in Hc as (id & -> & Hv & Hvo & Hf & Hi & ->). open_ok H. split; kvs; keep.
  - by apply map_Forall_insert_2.
  - by apply (indexed_insert bucket_key (buckets (w_kv w)) (bucketIndex (w_kv w)) id (with_ID id b)).
Qed.

Lemma UpdateBucket_ok id upd w b' w' :
  tenant_ok (w_kv w) -> UpdateBucket id upd w = (Ok b', w') -> tenant_ok (w_kv w').
Proof.
  intros H Hc. apply UpdateBucket_Ok in Hc as (b & Hb0 & Hv & Hid & Horg & _ & Hcase). open_ok H.
  destruct (Hb id b Hb0) as (Eid & _ & Hs).
  destruct Hcase as [[En ->]|(_ & Hi & ->)]; split; kvs; keep.
  - apply map_Forall_insert_2; [split_and!; congruence|done].
  - apply (indexed_replace _ _ _ _ b); [done|done|]. unfold bucket_key. congruence.
  - apply map_Forall_insert_2; [split_and!; congruence|done].
  - rewrite <- Horg at 1. apply (indexed_rename bucket_key (buckets (w_kv w)) (bucketIndex (w_kv w)) id b b'); [done|done|].
    unfold bucket_key. by rewrite Horg.
Qed.

Lemma DeleteBucket_ok id w x w' :
  tenant_ok (w_kv w) -> DeleteBucket id w = (Ok x, w') -> tenant_ok (w_kv w').
Proof.
  intros H Hc. apply DeleteBucket_Ok in Hc as (b & Hb0 & ->). open_ok H. split; kvs; keep.
  - by apply map_Forall_delete.
  - by apply (indexed_delete bucket_key (buckets (w_kv w)) (bucketIndex (w_kv w)) id b).
Qed.

(** ** Deleting a user *)

Lemma visit_all f seen ms vs : visit_urms f None seen ms vs = ms ++ List.filter (filterFn f) vs.
Proof.
  revert seen ms. induction vs as [|m vs IH]; intros seen ms; cbn; [by rewrite app_nil_r|].
  rewrite IH. destruct (filterFn f m); [by rewrite <- app_assoc|done].
Qed.

Lemma scan_all f ms vs : scan_urms f None ms vs = ms ++ List.filter (filterFn f) vs.
Proof.
  revert ms. induction vs as [|m vs IH]; intros ms; cbn; [by rewrite app_nil_r|].
  rewrite IH. destruct (filterFn f m); [by rewrite <- app_assoc|done].
Qed.

Lemma filterFn_by_user uid m : PlatformID.Valid uid = true -> filterFn (by_user uid) m = (uid =? m_UserID m).
Proof. intros Hv. unfold filterFn, by_user. cbn [f_UserID f_ResourceID f_UserType f_ResourceType]. rewrite Hv. cbn. by rewrite !andb_true_r. Qed.

Lemma filterFn_by_resource rid m :
  PlatformID.Valid rid = true -> filterFn (by_resource rid) m = (rid =? m_ResourceID m).
Proof. intros Hv. unfold filterFn, by_resource. cbn [f_UserID f_ResourceID f_UserType f_ResourceType]. rewrite Hv. cbn. by rewrite !andb_true_r. Qed.

(** The index walk finds exactly the mappings of the user. *)
Lemma elem_of_walk_user s uid m :
  indexed urm_key (urms s) (urmByUser s) ->
  m ∈ walk_user s uid <-> m_UserID m = uid /\ exists k, urms s !! k = Some m.
Proof.
  intros Hix. unfold walk_user. rewrite list_elem_of_omap. split.
  - intros (k & Hk & Hm). rewrite merge_sort_Permutation in Hk. apply list_elem_of_fmap in Hk as ([[u k1] k2] & -> & He).
    apply list_elem_of_In, filter_In in He as [He Hu]. cbn in Hu. apply Z.eqb_eq in Hu as ->.
    apply list_elem_of_In, elem_of_map_to_list in He. cbn [snd] in Hm.
    destruct (ix_to _ _ _ Hix _ _ He) as (m' & Hm' & En). simplify_eq. split; [|by eauto]. by injection En.
  - intros (<- & k & Hk). exists k. split; [|done]. rewrite merge_sort_Permutation. apply list_elem_of_fmap.
    exists (urm_key m, k). split; [done|]. apply list_elem_of_In, filter_In. split.
    + apply list_elem_of_In, elem_of_map_to_list. by apply (ix_of _ _ _ Hix).
    + cbn. apply Z.eqb_refl.
Qed.

(** The store after the mappings of a list are deleted. *)
Fixpoint drop_urms (ms : list UserResourceMapping) (s : kv) : kv :=
  match ms with
  | [] => s
  | m :: ms => drop_urms ms (set_urms (delete (m_ResourceID m, m_UserID m))
                 (set_urmByUser (delete (urm_key m)) s))
  end.

Definition valid_urm (m : UserResourceMapping) : Prop :=
  PlatformID.Valid (m_ResourceID m) = true /\ PlatformID.Valid (m_UserID m) = true.

Lemma encode_ID_valid id f w : PlatformID.Valid id = true -> encode_ID id f w = (Ok id, w).
Proof. intros Hv. unfold encode_ID, PlatformID.Encode. by rewrite Hv. Qed.

Lemma DeleteURM_run r u w :
  PlatformID.Valid r = true -> PlatformID.Valid u = true ->
  DeleteURM r u w = (Ok tt, MkWorld (set_urms (delete (r, u)) (set_urmByUser (delete (u, (r, u))) (w_kv w))) (w_calls w)).
Proof.
  intros Hr Hu. unfold DeleteURM, userResourceKey, bind. rewrite !encode_ID_valid by done. cbn [ret].
  by rewrite !encode_ID_valid by done.
Qed.

Lemma delete_urms_run ms agg w :
  Forall valid_urm ms -> delete_urms ms agg w = (Ok agg, MkWorld (drop_urms ms (w_kv w)) (w_calls w)).
Proof.
  intros H. revert w. induction H as [|m ms [Hr Hu] _ IH]; intros w; cbn [delete_urms drop_urms]; [by destruct w|].
  unfold bind at 1, try. rewrite DeleteURM_run by done. by rewrite IH.
Qed.

Lemma and_guard (A B C : Prop) : (A -> B <-> C) -> A /\ B <-> A /\ C.
Proof. tauto. Qed.

Lemma drop_urms_rest ms s :
  orgs (drop_urms ms s) = orgs s /\ orgIndex (drop_urms ms s) = orgIndex s /\ users (drop_urms ms s) = users s /\
  userIndex (drop_urms ms s) = userIndex s /\ passwords (drop_urms ms s) = passwords s /\
  buckets (drop_urms ms s) = buckets s /\ bucketIndex (drop_urms ms s) = bucketIndex s /\
  auths (drop_urms ms s) = auths s /\ authIndex (drop_urms ms s) = authIndex s.
Proof. revert s. induction ms as [|m ms IH]; intros s; cbn [drop_urms]; [done|]. apply (IH (set_urms _ (set_urmByUser _ s))). Qed.

Lemma drop_urms_lookup ms s k m :
  urms (drop_urms ms s) !! k = Some m <->
  urms s !! k = Some m /\ Forall (fun m' => k <> (m_ResourceID m', m_UserID m')) ms.
Proof.
  revert s. induction ms as [|m' ms IH]; intros s; cbn [drop_urms]; [split; [by intros|by intros []]|].
  rewrite IH, Forall_cons. kvs. rewrite lookup_delete_Some. naive_solver.
Qed.

Lemma drop_urms_index ms s k v :
  urmByUser (drop_urms ms s) !! k = Some v <->
  urmByUser s !! k = Some v /\ Forall (fun m' => k <> urm_key m') ms.
Proof.
  revert s. induction ms as [|m' ms IH]; intros s; cbn [drop_urms]; [split; [by intros|by intros []]|].
  rewrite IH, Forall_cons. kvs. rewrite lookup_delete_Some. naive_solver.
Qed.

(** The store without the user: its data, its password, its mappings and
    their index entries. *)
Definition forget_user (id : ID) (name : text) (s : kv) : kv :=
  MkKv (orgs s) (orgIndex s) (delete id (users s)) (delete name (userIndex s)) (delete id (passwords s))
    (filter (fun e => e.1.2 <> id) (urms s)) (filter (fun e => e.1.1 <> id) (urmByUser s)) (buckets s) (bucketIndex s)
    (auths s) (authIndex s).

Lemma kv_eta s s' :
  orgs s = orgs s' -> orgIndex s = orgIndex s' -> users s = users s' -> userIndex s = userIndex s' ->
  passwords s = passwords s' -> urms s = urms s' -> urmByUser s = urmByUser s' ->
  buckets s = buckets s' -> bucketIndex s = bucketIndex s' ->
  auths s = auths s' -> authIndex s = authIndex s' -> s = s'.
Proof. destruct s, s'. cbn. by intros; subst. Qed.

(** Deleting the mappings a walk found deletes every mapping of the user. *)
Lemma drop_walk_user s s' uid :
  tenant_ok s -> urms s' = urms s -> urmByUser s' = urmByUser s ->
  urms (drop_urms (walk_user s uid) s') = filter (fun e => e.1.2 <> uid) (urms s) /\
  urmByUser (drop_urms (walk_user s uid) s') = filter (fun e => e.1.1 <> uid) (urmByUser s).
Proof.
  intros Hok E1 E2. pose proof (ok_urmIndex s Hok) as Hix. pose proof (ok_urms s Hok) as Hm. split.
  - apply map_eq. intros k. apply option_eq. intros m. rewrite drop_urms_lookup, map_lookup_filter_Some, E1, Forall_forall.
    apply and_guard. intros Hk. destruct (Hm k m Hk) as [Ek _]. cbn. split.
    + intros Hall Eu. apply (Hall m); [|done]. apply elem_of_walk_user; [done|]. split; [|by eauto]. by rewrite Ek in Eu.
    + intros Hne m' Hm' ->. apply elem_of_walk_user in Hm' as [Eu _]; [|done]. done.
  - apply map_eq. intros k. apply option_eq. intros v. rewrite drop_urms_index, map_lookup_filter_Some, E2, Forall_forall.
    apply and_guard. intros Hk. destruct (ix_to _ _ _ Hix _ _ Hk) as (m & Hv & Ek). cbn. split.
    + intros Hall Eu. apply (Hall m); [|done]. apply elem_of_walk_user; [done|]. split; [|by eauto]. by rewrite <- Ek in Eu.
    + intros Hne m' Hm' ->. apply elem_of_walk_user in Hm' as [Eu _]; [|done]. done.
Qed.

Lemma filter_id {A} (p : A -> bool) (l : list A) : (forall x, x ∈ l -> p x = true) -> List.filter p l = l.
Proof.
  induction l as [|x l IH]; intros H; cbn; [done|]. rewrite H by left. f_equal. apply IH. intros y Hy. apply H. by right.
Qed.

(** [ListURMs] for a user lists its mappings, whatever else the store holds. *)
Lemma ListURMs_by_user uid w :
  PlatformID.Valid uid = true -> indexed urm_key (urms (w_kv w)) (urmByUser (w_kv w)) ->
  ListURMs (by_user uid) None w = (Ok (walk_user (w_kv w) uid), w).
Proof.
  intros Hv Hix. unfold ListURMs, bind, get. cbn [f_UserID by_user]. rewrite Hv. unfold ret. rewrite visit_all. cbn [app].
  rewrite filter_id; [done|]. intros m Hm. rewrite filterFn_by_user by done.
  apply elem_of_walk_user in Hm as [-> _]; [|done]. apply Z.eqb_refl.
Qed.

Lemma GetUser_run id u w :
  tenant_ok (w_kv w) -> users (w_kv w) !! id = Some u -> GetUser id w = (Ok u, w) /\ PlatformID.Valid id = true.
Proof.
  intros Hok Hu. destruct (ok_users _ Hok id u Hu) as [_ Hv]. split; [|done].
  unfold GetUser, deferred, bind. rewrite encode_ID_valid by done. cbn. by rewrite Hu.
Qed.

Lemma DeleteUser_run id u w :
  tenant_ok (w_kv w) -> users (w_kv w) !! id = Some u ->
  DeleteUser id w = (Ok tt, MkWorld (forget_user id (u_Name u) (w_kv w)) (w_calls w)).
Proof.
  intros Hok Hu. destruct (GetUser_run id u w Hok Hu) as [Hg Hv].
  unfold DeleteUser, deferred, bind. rewrite Hg, encode_ID_valid by done. unfold put. cbn [w_kv w_calls].
  set (s1 := set_passwords _ _). pose proof (ok_urmIndex _ Hok) as Hix.
  rewrite ListURMs_by_user by done. change (walk_user _ id) with (walk_user (w_kv w) id).
  rewrite delete_urms_run.
  - cbn [w_kv w_calls ret]. do 2 f_equal.
    destruct (drop_walk_user (w_kv w) s1 id Hok eq_refl eq_refl) as [E1 E2].
    pose proof (drop_urms_rest (walk_user (w_kv w) id) s1) as (?&?&?&?&?&?&?&?&?). by apply kv_eta.
  - apply Forall_forall. intros m Hm. apply elem_of_walk_user in Hm as [<- [k Hk]]; [|done].
    destruct (ok_urms _ Hok k m Hk) as (-> & ? & ? & _). done.
Qed.

Lemma forget_user_ok id u s : tenant_ok s -> users s !! id = Some u -> tenant_ok (forget_user id (u_Name u) s).
Proof.
  intros H Hu0. open_ok H. unfold forget_user. split; cbn [orgs orgIndex users userIndex passwords urms urmByUser buckets bucketIndex auths authIndex]; keep.
  - by apply map_Forall_delete.
  - by apply (indexed_delete u_Name (users s) (userIndex s) id u).
  - intros k m Hk. apply map_lookup_filter_Some in Hk as [Hk Hne]. destruct (Hm k m Hk) as (? & ? & ? & ?).
    split_and!; [done..|]. by apply is_Some_delete.
  - split.
    + intros k m Hk. apply map_lookup_filter_Some in Hk as [Hk Hne]. apply map_lookup_filter_Some.
      split; [by apply Hmi|]. destruct (Hm k m Hk) as [-> _]. done.
    + intros n k Hk. apply map_lookup_filter_Some in Hk as [Hk Hne]. destruct (ix_to _ _ _ Hmi _ _ Hk) as (m & Hv & En).
      exists m. split; [|done]. apply map_lookup_filter_Some. split; [done|]. destruct (Hm k m Hv) as [-> _]. by rewrite <- En in Hne.
  - intros i p Hi. apply lookup_delete_Some in Hi as [Hne Hi]. apply is_Some_delete; [done|]. by apply (Hp i p).
Qed.
End Store.
End Tenant.
