(* ===== verification/TenantSvc.v ===== *)
(** * Tenant services

    Models the services of [tenant] ([service_org.go], [service_bucket.go],
    [service_urm.go], [service_user.go]) over the store of [Tenant]: each
    transaction of the code is an [Update] or a [View], and a service that
    runs several of them keeps what the first ones committed when a later one
    fails.  The theorems state the invariant of every reachable store, what
    the cascading deletes remove, and what the paged listings return. *)
From S2P Require Import Prelude Platform Authz Tenant.
From stdpp Require Import gmap sorting.
From Stdlib Require Ascii String.
#[global] Open Scope Z_scope.

Module TenantSvc.
Import Errors Authz Tenant.
Local Open Scope tenant_scope.

(** The bytes of a Go string literal. *)
Definition bytes (s : string) : text := (fun c => Z.of_N (Ascii.N_of_ascii c)) <$> String.list_ascii_of_string s.

Definition TasksSystemBucketName : text := bytes "_tasks".
Definition MonitoringSystemBucketName : text := bytes "_monitoring".
Definition Hour : Z := 3600000000000.
Definition TasksSystemBucketRetention : Z := Hour * 24 * 3.
Definition MonitoringSystemBucketRetention : Z := Hour * 24 * 7.

Definition ErrInvalidOrgFilter : error := Platform EInvalid "Please provide either orgID or org".
Definition invalidBucketListRequest : error := Platform EInternal "invalid bucket list action, call should be GetBucketByName".
Definition EIncorrectUser : error := Platform EForbidden "your userID is incorrect".
Definition EIncorrectPassword : error := Platform EForbidden "your username or password is incorrect".
Definition EPasswordLength : error := Platform EInvalid "passwords must be between 8 and 72 characters long".
Definition EPasswordChars : error := Platform EInvalid "passwords must contain at least three of the following character types".
Definition EPasswordChangeRequired : error := Platform EForbidden "password change required".

Section Services.
Context (ids : gen -> nat -> ID).

(** ** Listings by identifier *)

(** A cursor over a bucket keyed by identifiers, from [seek] on; descending
    cursors run down from [seek], or from the last key without one. *)
Definition id_cursor {V} (m : gmap ID V) (seek : option ID) (desc : bool) : list V :=
  let keys := merge_sort Z.le (fst <$> map_to_list m) in
  let keys := if desc then reverse keys else keys in
  let keys := match seek with
              | None => keys
              | Some k => List.filter (fun j => if desc then j <=? k else k <=? j) keys
              end in
  omap (fun k => m !! k) keys.

(** The loop the listings share: skip [Offset] entries, keep those the filter
    accepts, stop at [Limit]. *)
Fixpoint list_loop {V} (keep : V -> bool) (o : FindOptions) (count : Z) (us : list V) (vs : list V) : list V :=
  match vs with
  | [] => us
  | v :: vs =>
    if negb (fo_Offset o =? 0) && (count <? fo_Offset o) then list_loop keep o (count + 1) us vs
    else
      let us := if keep v then us ++ [v] else us in
      if negb (fo_Limit o =? 0) && (fo_Limit o <=? Z.of_nat (length us)) then us
      else list_loop keep o count us vs
  end.

(** The seek key of a listing after an identifier: the next one, encoded. *)
Definition after_seek (o : FindOptions) : M (option ID) :=
  match fo_After o with
  | None => ret None
  | Some a => do k <- encode_ID ((a + 1) mod 2 ^ 64) (fun e => e); ret (Some k)
  end.

Definition ListOrgs (o : FindOptions) : M (list Organization) :=
  deferred (
    do s <- get;
    ret (list_loop (fun _ => true) o 0 [] (id_cursor (orgs s) None false))).

Definition ListUsers (o : FindOptions) : M (list User) :=
  deferred (
    do seek <- after_seek o;
    do s <- get;
    ret (list_loop (fun _ => true) o 0 [] (id_cursor (users s) seek (fo_Descending o)))).

Definition ListBuckets (orgID : option ID) (name : option text) (o : FindOptions) : M (list Bucket) :=
  deferred (
    match orgID, name with
    | Some oid, Some _ => if PlatformID.Valid oid then throw invalidBucketListRequest else listBucketsByOrg oid o
    | Some oid, None => listBucketsByOrg oid o
    | None, _ =>
      do seek <- after_seek o;
      do s <- get;
      let keep b := match name with None => true | Some n => bool_decide (n = b_Name b) end in
      ret (list_loop keep o 0 [] (id_cursor (buckets s) seek (fo_Descending o)))
    end).

(** ** User resource mappings *)

Definition FindUserResourceMappings (f : UserResourceMappingFilter) (opt : option FindOptions)
    : M (list UserResourceMapping) := View (ListURMs f opt).

Definition CreateUserResourceMapping (m : UserResourceMapping) : M unit := Update (CreateURM m).

Definition DeleteUserResourceMapping (resourceID userID : ID) : M unit :=
  Update (
    do r <- try (GetURM resourceID userID);
    match r with
    | Err _ => throw ErrURMNotFound
    | Ok _ => DeleteURM resourceID userID
    end).

(** ** Organizations: reading *)

Definition FindOrganizationByID (id : ID) : M Organization := View (GetOrg id).

Record OrganizationFilter := MkOrgFilter {
  of_ID : option ID;
  of_Name : option text;
  of_UserID : option ID }.

Definition FindOrganization (f : OrganizationFilter) : M Organization :=
  match of_ID f with
  | Some id => FindOrganizationByID id
  | None =>
    match of_Name f with
    | None => throw ErrInvalidOrgFilter
    | Some n => View (GetOrgByName n)
    end
  end.

Fixpoint orgs_of_urms (ms : list UserResourceMapping) (os : list Organization) : M (list Organization) :=
  match ms with
  | [] => ret os
  | m :: ms =>
    do r <- try (FindOrganizationByID (m_ResourceID m));
    match r with
    | Ok o => orgs_of_urms ms (os ++ [o])
    | Err _ => orgs_of_urms ms os
    end
  end.

(** The count returned with the list is its length. *)
Definition FindOrganizations (f : OrganizationFilter) (opt : option FindOptions) : M (list Organization) :=
  if bool_decide (is_Some (of_ID f)) || bool_decide (is_Some (of_Name f))
  then do o <- FindOrganization f; ret [o]
  else
    match of_UserID f with
    | Some uid =>
      do ms <- FindUserResourceMappings (MkURMFilter 0 OrgsResourceType uid "") opt;
      orgs_of_urms ms []
    | None => View (ListOrgs (default zeroFindOptions opt))
    end.

(** ** Buckets *)

Definition FindBucketByID (id : ID) : M Bucket := View (GetBucket id).
Definition FindBucketByName (orgID : ID) (name : text) : M Bucket := View (GetBucketByName orgID name).

Record BucketFilter := MkBucketFilter {
  bf_ID : option ID;
  bf_Name : option text;
  bf_OrganizationID : option ID;
  bf_Org : option text }.

Definition FindBuckets (f : BucketFilter) (opt : option FindOptions) : M (list Bucket) :=
  match bf_ID f with
  | Some id => do b <- FindBucketByID id; ret [b]
  | None =>
    do orgID <- match bf_OrganizationID f, bf_Org f with
                | None, Some n => do o <- FindOrganization (MkOrgFilter None (Some n) None); ret (Some (o_ID o))
                | oid, _ => ret oid
                end;
    View (
      match bf_Name f, orgID with
      | Some n, Some oid => do b <- GetBucketByName oid n; ret [b]
      | _, _ => ListBuckets orgID (bf_Name f) (default zeroFindOptions opt)
      end)
  end.

Definition FindBucket (f : BucketFilter) : M Bucket :=
  match bf_ID f, bf_Name f, bf_OrganizationID f with
  | Some id, _, _ => FindBucketByID id
  | None, Some n, Some oid => FindBucketByName oid n
  | _, _, _ =>
    do bs <- FindBuckets f (Some (MkFindOptions 0 1 None false));
    match bs with
    | [] => throw ErrBucketNotFound
    | b :: _ => ret b
    end
  end.

Definition BucketSvc_CreateBucket (b : Bucket) : M Bucket :=
  if negb (PlatformID.Valid (b_OrgID b)) then throw ErrOrgNotFound
  else
    match validBucketName (b_Name b) (b_Type b) with
    | Some e => throw e
    | None =>
      do_ FindOrganizationByID (b_OrgID b);
      Update (CreateBucket ids b)
    end.

Definition BucketSvc_UpdateBucket (id : ID) (upd : BucketUpdate) : M Bucket := Update (UpdateBucket id upd).

Fixpoint remove_relations (ms : list UserResourceMapping) : M unit :=
  match ms with
  | [] => ret tt
  | m :: ms =>
    do r <- try (DeleteUserResourceMapping (m_ResourceID m) (m_UserID m));
    match r with
    | Ok _ => remove_relations ms
    | Err e => if bool_decide (e <> ErrURMNotFound) then throw e else remove_relations ms
    end
  end.
Definition removeResourceRelations (resourceID : ID) : M unit :=
  do ms <- FindUserResourceMappings (by_resource resourceID) None;
  remove_relations ms.

(** [internal]: whether the context was made by [internalCtx]. *)
Definition BucketSvc_DeleteBucket (internal : bool) (id : ID) : M unit :=
  do_ Update (
    do b <- GetBucket id;
    if (b_Type b =? BucketTypeSystem) && negb internal then throw errDeleteSystemBucket
    else DeleteBucket id);
  removeResourceRelations id.

(** ** Organizations: writing *)

Definition system_bucket (orgID : ID) (name : text) (retention : Z) (desc : string) : Bucket :=
  MkBucket 0 orgID BucketTypeSystem name (bytes desc) [] retention 0.

(** [userID]: the user of the context, when there is one. *)
Definition CreateOrganization (userID : option ID) (o : Organization) : M Organization :=
  do o <- Update (CreateOrg ids o);
  do_ BucketSvc_CreateBucket
        (system_bucket (o_ID o) TasksSystemBucketName TasksSystemBucketRetention "System bucket for task logs");
  do_ BucketSvc_CreateBucket
        (system_bucket (o_ID o) MonitoringSystemBucketName MonitoringSystemBucketRetention
           "System bucket for monitoring logs");
  do_ match userID with
      | Some uid =>
        if PlatformID.Valid uid
        then CreateUserResourceMapping (MkURM uid Owner UserMappingType OrgsResourceType (o_ID o))
        else ret tt
      | None => ret tt
      end;
  ret o.

Definition UpdateOrganization (id : ID) (upd : OrganizationUpdate) : M Organization := Update (UpdateOrg id upd).

(** The error is compared by address with [ErrBucketNotFound], and the one
    [DeleteBucket] returns is always a copy ([ErrInternalServiceError]), so
    every error ends the loop. *)
Fixpoint delete_buckets (bs : list Bucket) : M unit :=
  match bs with
  | [] => ret tt
  | b :: bs => do_ BucketSvc_DeleteBucket true (b_ID b); delete_buckets bs
  end.

Definition DeleteOrganization (id : ID) : M unit :=
  do bs <- FindBuckets (MkBucketFilter None None (Some id) None) None;
  do_ delete_buckets bs;
  do_ Update (DeleteOrg id);
  removeResourceRelations id.

(** ** Users *)

Definition FindUserByID (id : ID) : M User := View (GetUser id).

Record UserFilter := MkUserFilter {
  uf_ID : option ID;
  uf_Name : option text }.

Definition FindUser (f : UserFilter) : M User :=
  match uf_ID f, uf_Name f with
  | None, None => throw ErrUserNotFound
  | Some id, _ => FindUserByID id
  | None, Some n => View (GetUserByName n)
  end.

Definition FindUsers (f : UserFilter) (opt : option FindOptions) : M (list User) :=
  match uf_ID f, uf_Name f with
  | Some id, _ => do u <- FindUserByID id; ret [u]
  | None, Some _ => do u <- FindUser f; ret [u]
  | None, None => View (ListUsers (default zeroFindOptions opt))
  end.

Definition UserSvc_CreateUser (u : User) : M User := Update (CreateUser ids u).
Definition UserSvc_UpdateUser (id : ID) (upd : UserUpdate) : M User := Update (UpdateUser id upd).
Definition UserSvc_DeleteUser (id : ID) : M unit := Update (do_ DeletePassword id; DeleteUser id).

(** ** Passwords *)

(** The transaction of [SetPassword]. *)
Definition store_password (userID : ID) (passHash : text) : M unit :=
  Update (
    do r <- try (GetUser userID);
    match r with
    | Err _ => throw EIncorrectUser
    | Ok _ => SetPassword userID passHash
    end).

(** The transaction of [comparePasswordNoStrengthCheck]. *)
Definition stored_password (userID : ID) : M text :=
  View (
    do r <- try (GetUser userID);
    match r with
    | Err _ => throw EIncorrectUser
    | Ok _ =>
      do r <- try (GetPassword userID);
      match r with
      | Ok h => ret h
      | Err e => if bool_decide (e = ErrKeyNotFound) then throw EIncorrectPassword else throw e
      end
    end).

(** ** The permissions of a user *)

Fixpoint permissionFromMapping (ms : list UserResourceMapping) : list Permission + error :=
  match ms with
  | [] => inl []
  | m :: ms =>
    match ToPermissions m with
    | inr e => inr (Wrap "" "" e)
    | inl p =>
      match permissionFromMapping ms with
      | inr e => inr e
      | inl ps => inl (p ++ ps)
      end
    end
  end.
Definition lift {A} (r : A + error) : M A := match r with inl a => ret a | inr e => throw e end.

(** The pages after the first; [n] is the length of the last page.  [fuel] is
    bounded by the number of mappings, since every further page has one. *)
Fixpoint more_pages (fuel : nat) (uid : ID) (i : Z) (n : nat) (permissions : list Permission)
    : M (list Permission) :=
  match n with
  | O => ret permissions
  | S _ =>
    match fuel with
    | O => throw (Plain "out of fuel")
    | S fuel =>
      do ms <- FindUserResourceMappings (by_user uid) (Some (MkFindOptions i 100 None false));
      do pms <- lift (permissionFromMapping ms);
      more_pages fuel uid (i + Z.of_nat (length ms)) (length ms) (permissions ++ pms)
    end
  end.

Definition FindPermissionForUser (uid : ID) : M (list Permission) :=
  do s <- get;
  do ms <- FindUserResourceMappings (by_user uid) (Some (MkFindOptions 0 100 None false));
  do permissions <- lift (permissionFromMapping ms);
  do permissions <-
    (if (100 <=? length ms)%nat
     then more_pages (S (size (urmByUser s))) uid (Z.of_nat (length ms)) (length ms) permissions
     else ret permissions);
  ret (permissions ++ MePermissions uid).

(** ** Removing the mappings of a resource *)

Lemma View_run {A} (m : M A) r w : m w = (r, w) -> View m w = (r, w).
Proof. intros H. unfold View. rewrite H. by destruct w. Qed.

Lemma Update_run {A} (m : M A) a w w' : m w = (Ok a, w') -> Update m w = (Ok a, w').
Proof. intros H. unfold Update. by rewrite H. Qed.

Definition forget_resource (rid : ID) (s : kv) : kv :=
  set_urms (filter (fun e => e.1.1 <> rid)) (set_urmByUser (filter (fun e => e.1.2.1 <> rid)) s).

Lemma elem_of_urm_cursor s rid m :
  PlatformID.Valid rid = true -> tenant_ok s ->
  m ∈ urm_cursor s rid <-> m_ResourceID m = rid /\ exists k, urms s !! k = Some m.
Proof.
  intros Hv Hok. pose proof (ok_urms s Hok) as Hm. unfold urm_cursor. rewrite list_elem_of_omap. split.
  - intros (k & Hk & He). rewrite merge_sort_Permutation in Hk. apply list_elem_of_In, filter_In in Hk as [_ Hr].
    rewrite Hv in Hr. cbn in Hr. apply Z.eqb_eq in Hr as <-. split; [|by eauto]. by destruct (Hm k m He) as [-> _].
  - intros (<- & k & Hk). exists k. split; [|done]. rewrite merge_sort_Permutation. apply list_elem_of_In, filter_In. split.
    + apply list_elem_of_In, list_elem_of_fmap. exists (k, m). split; [done|]. by apply elem_of_map_to_list.
    + destruct (Hm k m Hk) as [-> _]. cbn. by rewrite Z.eqb_refl, orb_true_r.
Qed.

Lemma drop_urm_cursor s rid :
  PlatformID.Valid rid = true -> tenant_ok s -> drop_urms (urm_cursor s rid) s = forget_resource rid s.
Proof.
  intros Hv Hok. pose proof (ok_urmIndex s Hok) as Hix. pose proof (ok_urms s Hok) as Hm.
  pose proof (drop_urms_rest (urm_cursor s rid) s) as (?&?&?&?&?&?&?&?&?). apply kv_eta; try done; unfold forget_resource; kvs.
  - apply map_eq. intros k. apply option_eq. intros m. rewrite drop_urms_lookup, map_lookup_filter_Some, Forall_forall.
    apply and_guard. intros Hk. destruct (Hm k m Hk) as [Ek _]. cbn. split.
    + intros Hall Eu. apply (Hall m); [|done]. apply elem_of_urm_cursor; [done|done|]. split; [|by eauto]. by rewrite Ek in Eu.
    + intros Hne m' Hm' ->. apply elem_of_urm_cursor in Hm' as [Eu _]; done.
  - apply map_eq. intros k. apply option_eq. intros v. rewrite drop_urms_index, map_lookup_filter_Some, Forall_forall.
    apply and_guard. intros Hk. destruct (ix_to _ _ _ Hix _ _ Hk) as (m & Hv' & Ek). cbn. split.
    + intros Hall Eu. apply (Hall m); [|done]. apply elem_of_urm_cursor; [done|done|]. split; [|by eauto]. by rewrite <- Ek in Eu.
    + intros Hne m' Hm' ->. apply elem_of_urm_cursor in Hm' as [Eu _]; done.
Qed.

(** No index entry without the mapping. *)
Lemma urm_absent s m :
  tenant_ok s -> urms s !! (m_ResourceID m, m_UserID m) = None -> urmByUser s !! urm_key m = None.
Proof.
  intros Hok Hn. apply eq_None_not_Some. intros [k Hk].
  destruct (ix_to _ _ _ (ok_urmIndex s Hok) _ _ Hk) as (m' & Hm' & En). injection En as E1 E2 _.
  destruct (ok_urms s Hok k m' Hm') as [-> _]. congruence.
Qed.

(** Deleting a mapping that is not there reports it and changes nothing. *)
Lemma DeleteUserResourceMapping_run m w :
  tenant_ok (w_kv w) -> valid_urm m ->
  exists r, try (DeleteUserResourceMapping (m_ResourceID m) (m_UserID m)) w =
      (Ok r, MkWorld (drop_urms [m] (w_kv w)) (w_calls w)) /\ (r = Ok tt \/ r = Err ErrURMNotFound).
Proof.
  intros Hok [Hr Hu].
  assert (Hg : GetURM (m_ResourceID m) (m_UserID m) w =
    (match urms (w_kv w) !! (m_ResourceID m, m_UserID m) with Some x => Ok x | None => Err ErrKeyNotFound end, w)).
  { unfold GetURM, userResourceKey, bind. rewrite !encode_ID_valid by done. cbn. by destruct (urms (w_kv w) !! _). }
  destruct (urms (w_kv w) !! (m_ResourceID m, m_UserID m)) as [x|] eqn:E.
  - exists (Ok tt). split; [|by left]. unfold try, DeleteUserResourceMapping, Update, bind, try. rewrite Hg, DeleteURM_run by done. done.
  - exists (Err ErrURMNotFound). split; [|by right].
    unfold try, DeleteUserResourceMapping, Update, bind, try. rewrite Hg. cbn [throw w_kv w_calls]. do 2 f_equal.
    cbn [drop_urms]. apply kv_eta; try done; kvs; symmetry; apply delete_id; [done|by apply urm_absent].
Qed.

Lemma drop_urm_ok m w : tenant_ok (w_kv w) -> valid_urm m -> tenant_ok (drop_urms [m] (w_kv w)).
Proof. intros Hok [Hr Hu]. apply (DeleteURM_ok _ _ w tt _ Hok (DeleteURM_run _ _ w Hr Hu)). Qed.

Lemma remove_relations_run ms w :
  tenant_ok (w_kv w) -> Forall valid_urm ms ->
  remove_relations ms w = (Ok tt, MkWorld (drop_urms ms (w_kv w)) (w_calls w)) /\ tenant_ok (drop_urms ms (w_kv w)).
Proof.
  intros Hok H. revert w Hok. induction H as [|m ms Hm _ IH]; intros w Hok; cbn [remove_relations]; [by destruct w|].
  destruct (DeleteUserResourceMapping_run m w Hok Hm) as (r & Hr & Hcase). pose proof (drop_urm_ok m w Hok Hm) as Hok'.
  unfold bind at 1. rewrite Hr. destruct (IH (MkWorld (drop_urms [m] (w_kv w)) (w_calls w)) Hok') as [E Ho].
  destruct Hcase as [->| ->]; [done|]. rewrite bool_decide_false by auto. done.
Qed.

Lemma removeResourceRelations_run rid w :
  PlatformID.Valid rid = true -> tenant_ok (w_kv w) ->
  removeResourceRelations rid w = (Ok tt, MkWorld (forget_resource rid (w_kv w)) (w_calls w)) /\
  tenant_ok (forget_resource rid (w_kv w)).
Proof.
  intros Hv Hok. unfold removeResourceRelations, FindUserResourceMappings, bind at 1.
  assert (Hl : ListURMs (by_resource rid) None w = (Ok (urm_cursor (w_kv w) rid), w)).
  { unfold ListURMs, bind, get. cbn. rewrite scan_all. cbn [app]. rewrite filter_id; [done|]. intros m Hm.
    rewrite filterFn_by_resource by done. apply elem_of_urm_cursor in Hm as [-> _]; [|done..]. apply Z.eqb_refl. }
  rewrite (View_run _ _ _ Hl), <- drop_urm_cursor by done. apply remove_relations_run; [done|].
  apply Forall_forall. intros m Hm. apply elem_of_urm_cursor in Hm as [_ [k Hk]]; [|done..].
  destruct (ok_urms _ Hok k m Hk) as (-> & ? & ? & _). done.
Qed.

(** ** Deleting a bucket *)

Definition forget_bucket (b : Bucket) (s : kv) : kv :=
  forget_resource (b_ID b) (set_buckets (delete (b_ID b)) (set_bucketIndex (delete (bucket_key b)) s)).

Lemma GetBucket_run id b w :
  tenant_ok (w_kv w) -> buckets (w_kv w) !! id = Some b -> GetBucket id w = (Ok b, w) /\ PlatformID.Valid id = true.
Proof.
  intros Hok Hb. destruct (ok_buckets _ Hok id b Hb) as (_ & Hv & _). split; [|done].
  unfold GetBucket, deferred, bind. rewrite encode_ID_valid by done. cbn. by rewrite Hb.
Qed.

Lemma DeleteBucket_run id b w :
  tenant_ok (w_kv w) -> buckets (w_kv w) !! id = Some b ->
  DeleteBucket id w =
    (Ok tt, MkWorld (set_buckets (delete id) (set_bucketIndex (delete (bucket_key b)) (w_kv w))) (w_calls w)).
Proof.
  intros Hok Hb. destruct (GetBucket_run id b w Hok Hb) as [Hg Hv].
  destruct (ok_buckets _ Hok id b Hb) as (_ & _ & [o Ho]). destruct (ok_orgs _ Hok _ _ Ho) as [_ Hvo].
  unfold DeleteBucket, deferred, bind. rewrite Hg, encode_ID_valid by done. unfold bucketIndexKey, bind.
  by rewrite encode_ID_valid by done.
Qed.

Lemma BucketSvc_DeleteBucket_run id b w :
  tenant_ok (w_kv w) -> buckets (w_kv w) !! id = Some b ->
  BucketSvc_DeleteBucket true id w = (Ok tt, MkWorld (forget_bucket b (w_kv w)) (w_calls w)) /\
  tenant_ok (forget_bucket b (w_kv w)).
Proof.
  intros Hok Hb. destruct (GetBucket_run id b w Hok Hb) as [Hg Hv].
  pose proof (DeleteBucket_run id b w Hok Hb) as Hd. pose proof (DeleteBucket_ok _ _ _ _ Hok Hd) as Hok'.
  destruct (ok_buckets _ Hok id b Hb) as (E & _ & _). unfold forget_bucket. rewrite E.
  destruct (removeResourceRelations_run id _ Hv Hok') as [Hr Ho]. split; [|exact Ho].
  unfold BucketSvc_DeleteBucket. unfold bind at 1. erewrite Update_run; [exact Hr|].
  unfold bind. rewrite Hg, andb_false_r. exact Hd.
Qed.

(** ** The buckets of an organization *)

Lemma list_buckets_run ids' bs w :
  tenant_ok (w_kv w) -> Forall (fun id => is_Some (buckets (w_kv w) !! id)) ids' ->
  list_buckets_loop zeroFindOptions 0 false bs ids' w = (Ok (bs ++ omap (fun id => buckets (w_kv w) !! id) ids'), w).
Proof.
  intros Hok H. revert bs. induction H as [|id ids' [b Hb] _ IH]; intros bs; cbn; [by rewrite app_nil_r|].
  rewrite Hb. unfold bind. destruct (GetBucket_run id b w Hok Hb) as [-> _]. rewrite IH. by rewrite <- app_assoc.
Qed.

Lemma elem_of_bucket_cursor s oid id :
  tenant_ok s -> id ∈ bucket_cursor s oid <-> exists b, buckets s !! id = Some b /\ b_OrgID b = oid.
Proof.
  intros Hok. pose proof (ok_bucketIndex s Hok) as Hix. unfold bucket_cursor. rewrite list_elem_of_fmap. split.
  - intros ([n i] & -> & He). rewrite merge_sort_Permutation in He. apply list_elem_of_omap in He as ([[o n'] j] & He & Hc).
    cbn in Hc. destruct (Z.eqb_spec o oid); [|done]. injection Hc as -> ->. subst o. apply elem_of_map_to_list in He.
    destruct (ix_to _ _ _ Hix _ _ He) as (b & Hb & En). exists b. split; [done|]. by injection En.
  - intros (b & Hb & <-). exists (b_Name b, id). split; [done|]. rewrite merge_sort_Permutation. apply list_elem_of_omap.
    exists (bucket_key b, id). split; [by apply elem_of_map_to_list, (ix_of _ _ _ Hix)|]. cbn. by rewrite Z.eqb_refl.
Qed.

Definition org_buckets (s : kv) (oid : ID) : list Bucket := omap (fun id => buckets s !! id) (bucket_cursor s oid).

Lemma elem_of_org_buckets s oid b :
  tenant_ok s -> b ∈ org_buckets s oid <-> buckets s !! b_ID b = Some b /\ b_OrgID b = oid.
Proof.
  intros Hok. unfold org_buckets. rewrite list_elem_of_omap. split.
  - intros (id & Hi & Hb). apply elem_of_bucket_cursor in Hi as (b' & Hb' & <-); [|done]. assert (b' = b) as -> by congruence.
    by destruct (ok_buckets s Hok id b Hb) as [-> _].
  - intros [Hb Ho]. exists (b_ID b). split; [|done]. apply elem_of_bucket_cursor; [done|]. by exists b.
Qed.

Lemma FindBuckets_by_org oid w :
  tenant_ok (w_kv w) -> PlatformID.Valid oid = true ->
  FindBuckets (MkBucketFilter None None (Some oid) None) None w = (Ok (org_buckets (w_kv w) oid), w).
Proof.
  intros Hok Hv. unfold FindBuckets. cbn [bf_ID bf_OrganizationID bf_Org bf_Name]. unfold bind at 1. cbn [ret].
  apply View_run. unfold ListBuckets, deferred. cbn [default]. unfold listBucketsByOrg, bind at 1.
  rewrite encode_ID_valid by done. unfold bind, get. cbn [fo_Descending fo_After zeroFindOptions default from_option id].
  rewrite list_buckets_run; [done|done|]. apply Forall_forall. intros i Hi.
  apply elem_of_bucket_cursor in Hi as (b & Hb & _); [|done]. by exists b.
Qed.

(** ** Deleting the buckets of an organization *)

Definition forget_buckets (bs : list Bucket) (s : kv) : kv := fold_left (fun s b => forget_bucket b s) bs s.

(** Deleting one bucket keeps the others. *)
Lemma forget_bucket_lookup b s id : id <> b_ID b -> buckets (forget_bucket b s) !! id = buckets s !! id.
Proof. intros Hn. unfold forget_bucket, forget_resource. kvs. by rewrite lookup_delete_ne. Qed.

Lemma delete_buckets_run bs w :
  tenant_ok (w_kv w) -> NoDup (b_ID <$> bs) -> Forall (fun b => buckets (w_kv w) !! b_ID b = Some b) bs ->
  delete_buckets bs w = (Ok tt, MkWorld (forget_buckets bs (w_kv w)) (w_calls w)) /\
  tenant_ok (forget_buckets bs (w_kv w)).
Proof.
  intros Hok Hnd H. revert w Hok H. induction bs as [|b bs IH]; intros w Hok H; cbn [delete_buckets]; [by destruct w|].
  apply NoDup_cons in Hnd as [Hni Hnd]. apply Forall_cons in H as [Hb H].
  destruct (BucketSvc_DeleteBucket_run (b_ID b) b w Hok Hb) as [Hd Hok']. unfold bind at 1. rewrite Hd.
  apply (IH Hnd (MkWorld (forget_bucket b (w_kv w)) (w_calls w)) Hok'). apply Forall_forall. intros c Hc.
  rewrite Forall_forall in H. cbn [w_kv]. rewrite forget_bucket_lookup; [by apply H|].
  intros E. apply Hni. rewrite <- E. by apply list_elem_of_fmap_2.
Qed.

Lemma NoDup_omap_inj {A B} (f : A -> option B) (l : list A) :
  (forall x y z, x ∈ l -> y ∈ l -> f x = Some z -> f y = Some z -> x = y) -> NoDup l -> NoDup (omap f l).
Proof.
  intros Hinj Hnd. induction Hnd as [|x l Hx Hnd IH]; cbn; [constructor|].
  assert (Hl : NoDup (omap f l)) by (apply IH; intros a b z Ha Hb; apply Hinj; by right).
  destruct (f x) as [z|] eqn:E; [|done]. apply NoDup_cons. split; [|done]. intros Hz.
  apply list_elem_of_omap in Hz as (y & Hy & Ey). apply Hx.
  rewrite (Hinj x y z); [done|left|by right|done|done].
Qed.

(** The index lists every bucket once. *)
Lemma bucket_cursor_NoDup s oid : tenant_ok s -> NoDup (bucket_cursor s oid).
Proof.
  intros Hok. pose proof (ok_bucketIndex s Hok) as Hix. unfold bucket_cursor. apply NoDup_fmap_2_strong.
  - intros [n i] [n' i'] H1 H2 E. cbn in E. subst i'. rewrite merge_sort_Permutation in H1, H2. f_equal.
    apply list_elem_of_omap in H1 as ([[o1 n1] j1] & H1 & E1), H2 as ([[o2 n2] j2] & H2 & E2).
    apply elem_of_map_to_list in H1, H2. cbn in E1, E2. destruct (_ =? _) in E1; [|done]. destruct (_ =? _) in E2; [|done].
    injection E1 as -> ->. injection E2 as -> ->.
    destruct (ix_to _ _ _ Hix _ _ H1) as (b1 & Hb1 & En1), (ix_to _ _ _ Hix _ _ H2) as (b2 & Hb2 & En2). congruence.
  - rewrite merge_sort_Permutation. apply NoDup_omap_inj; [|apply NoDup_map_to_list].
    intros [[o1 n1] j1] [[o2 n2] j2] z _ _. cbn. destruct (Z.eqb_spec o1 oid); [|done]. destruct (Z.eqb_spec o2 oid); [|done].
    intros E1 E2. congruence.
Qed.

Lemma org_buckets_ids s oid : tenant_ok s -> b_ID <$> org_buckets s oid = bucket_cursor s oid.
Proof.
  intros Hok. unfold org_buckets.
  assert (Hall : Forall (fun i => exists b, buckets s !! i = Some b /\ b_ID b = i) (bucket_cursor s oid)).
  { apply Forall_forall. intros i Hi. apply elem_of_bucket_cursor in Hi as (b & Hb & _); [|done]. exists b.
    split; [done|]. by destruct (ok_buckets s Hok i b Hb). }
  induction Hall as [|i l (b & Hb & <-) _ IH]; cbn; [done|]. rewrite Hb. cbn. by rewrite IH.
Qed.

Lemma forget_buckets_rest bs s :
  let s' := forget_buckets bs s in
  orgs s' = orgs s /\ orgIndex s' = orgIndex s /\ users s' = users s /\ userIndex s' = userIndex s /\
  passwords s' = passwords s /\ auths s' = auths s /\ authIndex s' = authIndex s.
Proof. cbv zeta. revert s. induction bs as [|b bs IH]; intros s; cbn [forget_buckets fold_left]; [done|]. apply (IH (forget_bucket b s)). Qed.

Lemma forget_buckets_maps bs s :
  let s' := forget_buckets bs s in
  (forall k m, urms s' !! k = Some m <-> urms s !! k = Some m /\ Forall (fun b => k.1 <> b_ID b) bs) /\
  (forall k v, urmByUser s' !! k = Some v <-> urmByUser s !! k = Some v /\ Forall (fun b => k.2.1 <> b_ID b) bs) /\
  (forall k v, buckets s' !! k = Some v <-> buckets s !! k = Some v /\ Forall (fun b => k <> b_ID b) bs) /\
  (forall k v, bucketIndex s' !! k = Some v <-> bucketIndex s !! k = Some v /\ Forall (fun b => k <> bucket_key b) bs).
Proof.
  cbv zeta. revert s. induction bs as [|b bs IH]; intros s; cbn [forget_buckets fold_left].
  { split_and!; intros k v; (split; [by intros|by intros []]). }
  destruct (IH (forget_bucket b s)) as (H1 & H2 & H3 & H4). unfold forget_buckets in H1, H2, H3, H4.
  split_and!; intros k v; rewrite Forall_cons; [rewrite H1|rewrite H2|rewrite H3|rewrite H4];
    unfold forget_bucket, forget_resource; kvs; rewrite ?map_lookup_filter_Some, ?lookup_delete_Some; cbn; intuition congruence.
Qed.

(** ** Deleting an organization *)

(** The resources that go with an organization: itself and its buckets. *)
Definition belongs (s : kv) (oid r : ID) : bool :=
  (r =? oid) || match buckets s !! r with Some b => b_OrgID b =? oid | None => false end.

(** The store without the organization: no bucket of it, no index entry of
    either, no mapping of a user to one of them; the rest as it was. *)
Definition forget_org (oid : ID) (name : text) (s : kv) : kv :=
  MkKv (delete oid (orgs s)) (delete name (orgIndex s)) (users s) (userIndex s) (passwords s)
    (filter (fun e => belongs s oid e.1.1 = false) (urms s))
    (filter (fun e => belongs s oid e.1.2.1 = false) (urmByUser s))
    (filter (fun e => b_OrgID e.2 <> oid) (buckets s))
    (filter (fun e => e.1.1 <> oid) (bucketIndex s)) (auths s) (authIndex s).

Lemma belongs_false s oid r :
  tenant_ok s -> belongs s oid r = false <-> r <> oid /\ Forall (fun b => r <> b_ID b) (org_buckets s oid).
Proof.
  intros Hok. unfold belongs. rewrite orb_false_iff, Z.eqb_neq, Forall_forall. apply and_guard. intros _. split.
  - intros Hm b Hb E. apply elem_of_org_buckets in Hb as [Hb Ho]; [|done]. rewrite E, Hb in Hm. by apply Z.eqb_neq in Hm.
  - intros Hall. destruct (buckets s !! r) as [b|] eqn:E; [|done]. apply Z.eqb_neq. intros Ho.
    destruct (ok_buckets s Hok r b E) as (Ei & _ & _). apply (Hall b); [|done].
    apply elem_of_org_buckets; [done|]. by rewrite Ei.
Qed.

Lemma forget_org_eq oid name s :
  tenant_ok s ->
  forget_resource oid (set_orgs (delete oid) (set_orgIndex (delete name) (forget_buckets (org_buckets s oid) s))) =
  forget_org oid name s.
Proof.
  intros Hok. pose proof (forget_buckets_rest (org_buckets s oid) s) as (?&?&?&?&?&?&?).
  pose proof (forget_buckets_maps (org_buckets s oid) s) as (G1 & G2 & G3 & G4). cbv zeta in *.
  unfold forget_resource, forget_org. apply kv_eta; kvs; try congruence; apply map_eq; intros k; apply option_eq; intros v.
  - rewrite !map_lookup_filter_Some, G1. cbn. rewrite belongs_false by done. tauto.
  - rewrite !map_lookup_filter_Some, G2. cbn. rewrite belongs_false by done. tauto.
  - rewrite G3, map_lookup_filter_Some. apply and_guard. intros Hk. cbn. rewrite Forall_forall.
    destruct (ok_buckets s Hok k v Hk) as (Ei & _ & _). split.
    + intros Hall Eo. apply (Hall v); [|done]. apply elem_of_org_buckets; [done|]. by rewrite Ei.
    + intros Hne b Hb ->. apply elem_of_org_buckets in Hb as [Hb Eo]; [|done]. congruence.
  - rewrite G4, map_lookup_filter_Some. apply and_guard. intros Hk. cbn. rewrite Forall_forall.
    destruct (ix_to _ _ _ (ok_bucketIndex s Hok) _ _ Hk) as (b & Hb & <-).
    destruct (ok_buckets s Hok _ b Hb) as (Ei & _ & _). split.
    + intros Hall Eo. apply (Hall b); [|done]. apply elem_of_org_buckets; [done|]. by rewrite Ei.
    + intros Hne b' Hb' E. apply elem_of_org_buckets in Hb' as [Hb' Eo]; [|done]. injection E as E1 _. cbn in Hne. congruence.
Qed.

Lemma GetOrg_run id o w :
  tenant_ok (w_kv w) -> orgs (w_kv w) !! id = Some o -> GetOrg id w = (Ok o, w) /\ PlatformID.Valid id = true.
Proof.
  intros Hok Ho. destruct (ok_orgs _ Hok id o Ho) as [_ Hv]. split; [|done].
  unfold GetOrg, deferred, bind. rewrite encode_ID_valid by done. cbn. by rewrite Ho.
Qed.

Lemma DeleteOrg_run id o w :
  tenant_ok (w_kv w) -> orgs (w_kv w) !! id = Some o ->
  DeleteOrg id w = (Ok tt, MkWorld (set_orgs (delete id) (set_orgIndex (delete (o_Name o)) (w_kv w))) (w_calls w)).
Proof.
  intros Hok Ho. destruct (GetOrg_run id o w Hok Ho) as [Hg Hv].
  unfold DeleteOrg, deferred, bind. by rewrite Hg, encode_ID_valid by done.
Qed.

(** No bucket of the organization is left to [DeleteOrg]. *)
Lemma forget_buckets_none s oid :
  tenant_ok s -> map_Forall (fun _ b => b_OrgID b <> oid) (buckets (forget_buckets (org_buckets s oid) s)).
Proof.
  intros Hok k b Hb. destruct (forget_buckets_maps (org_buckets s oid) s) as (_ & _ & H3 & _). apply H3 in Hb as [Hb Hall].
  intros Eo. destruct (ok_buckets s Hok k b Hb) as (Ei & _ & _). rewrite Forall_forall in Hall.
  apply (Hall b); [|done]. apply elem_of_org_buckets; [done|]. by rewrite Ei.
Qed.

Lemma DeleteOrganization_run id o w :
  tenant_ok (w_kv w) -> orgs (w_kv w) !! id = Some o ->
  DeleteOrganization id w = (Ok tt, MkWorld (forget_org id (o_Name o) (w_kv w)) (w_calls w)) /\
  tenant_ok (forget_org id (o_Name o) (w_kv w)).
Proof.
  intros Hok Ho. destruct (GetOrg_run id o w Hok Ho) as [_ Hv].
  rewrite <- forget_org_eq by done. unfold DeleteOrganization. unfold bind at 1. rewrite FindBuckets_by_org by done.
  destruct (delete_buckets_run (org_buckets (w_kv w) id) w Hok) as [Hd Hok'].
  { rewrite org_buckets_ids by done. by apply bucket_cursor_NoDup. }
  { apply Forall_forall. intros b Hb. by apply elem_of_org_buckets in Hb as [Hb _]. }
  unfold bind at 1. rewrite Hd. set (w1 := MkWorld (forget_buckets _ _) _) in *.
  assert (Ho1 : orgs (w_kv w1) !! id = Some o).
  { pose proof (forget_buckets_rest (org_buckets (w_kv w) id) (w_kv w)) as [E _]. cbn [w_kv w1]. by rewrite E. }
  pose proof (DeleteOrg_run id o w1 Hok' Ho1) as Hd1.
  pose proof (DeleteOrg_ok id w1 _ _ Hok' (forget_buckets_none _ _ Hok) Hd1) as Hok2.
  unfold bind at 1. rewrite (Update_run _ _ _ _ Hd1).
  exact (removeResourceRelations_run id _ Hv Hok2).
Qed.

(** ** Every operation keeps the store consistent *)

Definition preserves {A} (m : M A) : Prop := forall w, tenant_ok (w_kv w) -> tenant_ok (w_kv (m w).2).

Lemma preserves_Update {A} (m : M A) :
  (forall w a w', tenant_ok (w_kv w) -> m w = (Ok a, w') -> tenant_ok (w_kv w')) -> preserves (Update m).
Proof. intros H w Hok. unfold Update. destruct (m w) as [[a|e] w'] eqn:E; [by eapply H|done]. Qed.

Lemma preserves_View {A} (m : M A) : preserves (View m).
Proof. intros w Hok. unfold View. by destruct (m w). Qed.

Lemma preserves_bind {A B} (m : M A) (k : A -> M B) :
  preserves m -> (forall a, preserves (k a)) -> preserves (bind m k).
Proof.
  intros Hm Hk w Hok. unfold bind. specialize (Hm w Hok). destruct (m w) as [[a|e] w']; [by apply Hk|done].
Qed.

Lemma preserves_try {A} (m : M A) : preserves m -> preserves (try m).
Proof. intros Hm w Hok. unfold try. specialize (Hm w Hok). by destruct (m w). Qed.

Lemma preserves_ret {A} (a : A) : preserves (ret a).
Proof. by intros w Hok. Qed.

Lemma preserves_throw {A} (e : error) : preserves (@throw A e).
Proof. by intros w Hok. Qed.

Create HintDb preserves.
#[local] Hint Resolve preserves_View preserves_bind preserves_try preserves_ret preserves_throw : preserves.

Lemma CreateBucket_preserves b : preserves (BucketSvc_CreateBucket b).
Proof.
  intros w Hok. unfold BucketSvc_CreateBucket. destruct (negb _) eqn:Ev; [done|].
  destruct (validBucketName _ _); [done|]. unfold bind, FindOrganizationByID, View.
  destruct (GetOrg (b_OrgID b) w) as [[o|e] w1] eqn:E; [|done]. apply GetOrg_Ok in E as (-> & _ & Ho).
  unfold Update. destruct (CreateBucket ids b _) as [[b'|e] w2] eqn:E2; [|done].
  assert (Hs : is_Some (orgs (w_kv w) !! b_OrgID b)) by (by exists o).
  by apply (CreateBucket_ok ids b _ b' w2 Hok Hs E2).
Qed.

Lemma CreateURM_preserves m : preserves (CreateUserResourceMapping m).
Proof. apply preserves_Update. intros w a w' Hok H. by eapply CreateURM_ok. Qed.

Lemma CreateOrganization_preserves uid o :
  TrimSpace (o_Name o) = o_Name o -> preserves (CreateOrganization uid o).
Proof.
  intros Ht. pose proof CreateBucket_preserves. pose proof CreateURM_preserves. apply preserves_bind.
  { apply preserves_Update. intros w a w' Hok H'. by eapply CreateOrg_ok. }
  intros o'. destruct uid as [uid|]; [destruct (PlatformID.Valid uid)|]; auto with preserves.
Qed.

Lemma DeleteURM_preserves r u : preserves (DeleteUserResourceMapping r u).
Proof.
  apply preserves_Update. intros w a w' Hok H. apply bind_Ok in H as (g & w1 & H1 & H2). apply try_Ok in H1.
  destruct g as [m|e]; [|done]. unfold GetURM in H1. apply bind_Ok in H1 as (k & w2 & H1 & H3).
  apply userResourceKey_Ok in H1 as (-> & _). apply bind_Ok in H3 as (s' & w3 & H3 & H4). apply get_Ok in H3 as [-> ->].
  apply or_throw_Ok in H4 as [_ ->]. by eapply DeleteURM_ok.
Qed.

Lemma remove_relations_preserves ms : preserves (remove_relations ms).
Proof.
  pose proof DeleteURM_preserves. induction ms as [|m ms IH]; cbn [remove_relations]; [apply preserves_ret|].
  apply preserves_bind; [auto with preserves|]. intros [[]|e]; [done|]. case_bool_decide; auto with preserves.
Qed.

Lemma DeleteBucket_preserves internal id : preserves (BucketSvc_DeleteBucket internal id).
Proof.
  apply preserves_bind.
  - apply preserves_Update. intros w a w' Hok H. apply bind_Ok in H as (b & w1 & H1 & H2).
    apply GetBucket_Ok in H1 as (-> & _). destruct (_ && _); [done|]. by eapply DeleteBucket_ok.
  - intros _. apply preserves_bind; [apply preserves_View|]. apply remove_relations_preserves.
Qed.

Lemma DeleteUser_preserves id : preserves (UserSvc_DeleteUser id).
Proof.
  apply preserves_Update. intros w a w' Hok H. apply bind_Ok in H as (x & w1 & H1 & H2).
  pose proof (DeletePassword_ok _ _ _ _ Hok H1) as Hok1. pose proof H2 as H3. unfold DeleteUser in H3.
  apply deferred_Ok, bind_Ok in H3 as (u & w2 & H3 & _). apply GetUser_Ok in H3 as (_ & _ & Hu).
  rewrite (DeleteUser_run id u w1 Hok1 Hu) in H2. injection H2 as _ <-. by apply forget_user_ok.
Qed.

Lemma store_password_preserves id h : preserves (store_password id h).
Proof.
  apply preserves_Update. intros w a w' Hok H. apply bind_Ok in H as (r & w1 & H1 & H2). apply try_Ok in H1.
  destruct r as [u|e]; [|done]. apply GetUser_Ok in H1 as (-> & _ & Hu). eapply SetPassword_ok; [done|by eexists|done].
Qed.

(** An organization that does not exist has no bucket, so its deletion fails
    before it changes anything. *)
Lemma DeleteOrganization_missing id w :
  tenant_ok (w_kv w) -> PlatformID.Valid id = true -> orgs (w_kv w) !! id = None ->
  exists e w', DeleteOrganization id w = (Err e, w') /\ w_kv w' = w_kv w.
Proof.
  intros Hok Ev E. assert (En : org_buckets (w_kv w) id = []).
  { destruct (org_buckets (w_kv w) id) as [|b l] eqn:El; [done|]. assert (Hb : b ∈ org_buckets (w_kv w) id) by (rewrite El; left).
    apply elem_of_org_buckets in Hb as [Hb Eo]; [|done].
    destruct (ok_buckets _ Hok _ b Hb) as (_ & _ & [o Ho]). rewrite Eo, E in Ho. done. }
  unfold DeleteOrganization. unfold bind at 1. rewrite FindBuckets_by_org, En by done. cbn [delete_buckets]. unfold bind, ret.
  unfold Update. destruct (DeleteOrg id w) as [[x|e] w1] eqn:Ed; [apply DeleteOrg_Ok in Ed as (u & Hu & _); congruence|by eexists _, _].
Qed.
Lemma DeleteOrganization_preserves id : preserves (DeleteOrganization id).
Proof.
  intros w Hok. destruct (orgs (w_kv w) !! id) as [o|] eqn:E.
  { by destruct (DeleteOrganization_run id o w Hok E) as [-> ?]. }
  destruct (PlatformID.Valid id) eqn:Ev.
  - destruct (DeleteOrganization_missing id w Hok Ev E) as (e & w' & -> & Ew). cbn [snd]. by rewrite Ew.
  - unfold DeleteOrganization. unfold bind at 1.
    destruct (FindBuckets _ None w) as [[bs|e] w1] eqn:Ef; [exfalso|].
    + unfold FindBuckets in Ef. cbn in Ef. unfold bind, View in Ef. cbn in Ef. unfold ListBuckets, deferred, listBucketsByOrg, bind, encode_ID, PlatformID.Encode in Ef.
      rewrite Ev in Ef. done.
    + pose proof (preserves_View (ListBuckets (Some id) None zeroFindOptions) w Hok) as Hv.
      unfold FindBuckets in Ef. cbn in Ef. unfold bind in Ef. cbn in Ef. rewrite Ef in Hv. done.
Qed.

(** ** Sequences of service calls *)

Inductive op :=
| OpCreateOrganization (userID : option ID) (o : Organization)
| OpUpdateOrganization (id : ID) (upd : OrganizationUpdate)
| OpDeleteOrganization (id : ID)
| OpCreateUser (u : User)
| OpUpdateUser (id : ID) (upd : UserUpdate)
| OpDeleteUser (id : ID)
| OpSetPassword (id : ID) (passHash : text)
| OpCreateUserResourceMapping (m : UserResourceMapping)
| OpDeleteUserResourceMapping (resourceID userID : ID)
| OpCreateBucket (b : Bucket)
| OpUpdateBucket (id : ID) (upd : BucketUpdate)
| OpDeleteBucket (internal : bool) (id : ID).

(** The store after a call, whether it succeeds or fails. *)
Definition exec (o : op) (w : world) : world :=
  match o with
  | OpCreateOrganization uid o => (CreateOrganization uid o w).2
  | OpUpdateOrganization id upd => (UpdateOrganization id upd w).2
  | OpDeleteOrganization id => (DeleteOrganization id w).2
  | OpCreateUser u => (UserSvc_CreateUser u w).2
  | OpUpdateUser id upd => (UserSvc_UpdateUser id upd w).2
  | OpDeleteUser id => (UserSvc_DeleteUser id w).2
  | OpSetPassword id h => (store_password id h w).2
  | OpCreateUserResourceMapping m => (CreateUserResourceMapping m w).2
  | OpDeleteUserResourceMapping r u => (DeleteUserResourceMapping r u w).2
  | OpCreateBucket b => (BucketSvc_CreateBucket b w).2
  | OpUpdateBucket id upd => (BucketSvc_UpdateBucket id upd w).2
  | OpDeleteBucket i id => (BucketSvc_DeleteBucket i id w).2
  end.
Definition execs (os : list op) (w : world) : world := fold_left (fun w o => exec o w) os w.

(** Organization names without surrounding white space. *)
Definition op_trimmed (o : op) : Prop :=
  match o with
  | OpCreateOrganization _ o => TrimSpace (o_Name o) = o_Name o
  | OpUpdateOrganization _ upd => forall n, ou_Name upd = Some n -> TrimSpace n = n
  | _ => True
  end.

Lemma exec_ok o w : op_trimmed o -> tenant_ok (w_kv w) -> tenant_ok (w_kv (exec o w)).
Proof.
  destruct o; cbn [exec op_trimmed]; intros Ht Hok.
  - by apply CreateOrganization_preserves.
  - apply (preserves_Update (UpdateOrg id upd)); [|done]. intros w1 a w2 H1 H2. by eapply UpdateOrg_ok.
  - by apply DeleteOrganization_preserves.
  - apply (preserves_Update (CreateUser ids u)); [|done]. intros w1 a w2 H1 H2. by eapply CreateUser_ok.
  - apply (preserves_Update (UpdateUser id upd)); [|done]. intros w1 a w2 H1 H2. by eapply UpdateUser_ok.
  - by apply DeleteUser_preserves.
  - by apply store_password_preserves.
  - by apply CreateURM_preserves.
  - by apply DeleteURM_preserves.
  - by apply CreateBucket_preserves.
  - apply (preserves_Update (UpdateBucket id upd)); [|done]. intros w1 a w2 H1 H2. by eapply UpdateBucket_ok.
  - by apply DeleteBucket_preserves.
Qed.

Lemma execs_ok os w : Forall op_trimmed os -> tenant_ok (w_kv w) -> tenant_ok (w_kv (execs os w)).
Proof.
  intros H. revert w. induction H as [|o os Ho _ IH]; intros w Hok; [done|]. cbn [execs fold_left].
  apply (IH (exec o w)). by apply exec_ok.
Qed.

(** ** The pages of mappings of a user *)

Lemma visit_page f off lim seen ms vs :
  Forall (fun m => filterFn f m = true) vs -> Z.of_nat (length ms) < lim ->
  visit_urms f (Some (MkFindOptions off lim None false)) seen ms vs =
  ms ++ take (Z.to_nat lim - length ms) (drop (Z.to_nat (off - seen)) vs).
Proof.
  intros H. revert seen ms. induction H as [|m vs Hm _ IH]; intros seen ms Hl; cbn [visit_urms fo_Offset fo_Limit].
  { by rewrite drop_nil, take_nil, app_nil_r. }
  rewrite Hm, andb_true_r. destruct (Z.leb_spec lim 0); [lia|]. cbn [orb]. destruct (Z.leb_spec off seen).
  - replace (Z.to_nat (off - seen)) with O by lia. cbn [drop]. rewrite length_app. cbn [length].
    replace (Z.to_nat lim - length ms)%nat with (S (Z.to_nat lim - S (length ms))) by lia. cbn [take].
    destruct (Z.ltb_spec (Z.of_nat (length ms + 1)) lim).
    + rewrite IH by (rewrite length_app; cbn [length]; lia). rewrite length_app. cbn [length].
      replace (Z.to_nat (off - (seen + 1))) with O by lia. cbn [drop]. rewrite <- app_assoc. cbn [app]. do 2 f_equal. f_equal. lia.
    + replace (Z.to_nat lim - S (length ms))%nat with O by lia. done.
  - destruct (Z.ltb_spec (Z.of_nat (length ms)) lim); [|lia]. rewrite IH by lia.
    replace (Z.to_nat (off - seen)) with (S (Z.to_nat (off - (seen + 1)))) by lia. done.
Qed.

Lemma user_page uid off w :
  PlatformID.Valid uid = true -> indexed urm_key (urms (w_kv w)) (urmByUser (w_kv w)) ->
  FindUserResourceMappings (by_user uid) (Some (MkFindOptions off 100 None false)) w =
  (Ok (take 100 (drop (Z.to_nat off) (walk_user (w_kv w) uid))), w).
Proof.
  intros Hv Hix. apply View_run. unfold ListURMs, bind, get. cbn [f_UserID by_user]. rewrite Hv. unfold ret.
  rewrite visit_page; [by rewrite Z.sub_0_r| |done]. apply Forall_forall. intros m Hm. rewrite filterFn_by_user by done.
  apply elem_of_walk_user in Hm as [-> _]; [|done]. apply Z.eqb_refl.
Qed.

Lemma permissionFromMapping_app a b :
  permissionFromMapping (a ++ b) =
  match permissionFromMapping a with
  | inr e => inr e
  | inl p => match permissionFromMapping b with inr e => inr e | inl q => inl (p ++ q) end
  end.
Proof.
  induction a as [|m a IH]; cbn; [by destruct (permissionFromMapping b)|]. destruct (ToPermissions m); [|done]. rewrite IH.
  destruct (permissionFromMapping a); [|done]. destruct (permissionFromMapping b); [|done]. by rewrite app_assoc.
Qed.

Lemma more_pages_run uid w :
  PlatformID.Valid uid = true -> indexed urm_key (urms (w_kv w)) (urmByUser (w_kv w)) ->
  forall fuel i n perms, let L := walk_user (w_kv w) uid in
  (n <> O -> length (drop i L) < fuel)%nat -> (n = O -> drop i L = []) ->
  more_pages fuel uid (Z.of_nat i) n perms w =
  match permissionFromMapping (drop i L) with inl q => (Ok (perms ++ q), w) | inr e => (Err e, w) end.
Proof.
  intros Hv Hix. induction fuel as [|fuel IH]; intros i n perms L Hf Hn; (destruct n as [|n]; cbn [more_pages];
    [rewrite Hn by done; cbn [permissionFromMapping]; by rewrite app_nil_r|]).
  { specialize (Hf ltac:(done)). lia. }
  specialize (Hf ltac:(done)).
  unfold bind at 1. rewrite user_page, Nat2Z.id by done. fold L. set (page := take 100 (drop i L)).
  rewrite <- (take_drop 100 (drop i L)) at 1. fold page. rewrite permissionFromMapping_app, drop_drop.
  unfold bind. destruct (permissionFromMapping page) as [pms|e]; [|done]. cbn [lift ret].
  replace (Z.of_nat i + Z.of_nat (length page)) with (Z.of_nat (i + length page)) by lia.
  assert (Hlen : length page = Nat.min 100 (length L - i)) by (unfold page; by rewrite length_take, length_drop).
  assert (Hd : drop (i + length page) L = drop (i + 100) L).
  { rewrite Hlen. destruct (decide (100 <= length L - i)%nat); [f_equal; lia|]. by rewrite !drop_ge by lia. }
  rewrite length_drop in Hf. rewrite IH; fold L; rewrite ?Hd.
  - destruct (permissionFromMapping (drop (i + 100) L)); [|done]. by rewrite app_assoc.
  - rewrite length_drop. lia.
  - intros E. apply drop_ge. lia.
Qed.

Lemma length_omap_le {A B} (f : A -> option B) (l : list A) : (length (omap f l) <= length l)%nat.
Proof. induction l as [|a l IH]; cbn; [done|]. destruct (f a); cbn; lia. Qed.

Lemma length_filter_le {A} (p : A -> bool) (l : list A) : (length (List.filter p l) <= length l)%nat.
Proof. induction l as [|a l IH]; cbn; [done|]. destruct (p a); cbn; lia. Qed.

(** A user has at most as many mappings as the index has entries. *)
Lemma length_walk_user s uid : (length (walk_user s uid) <= size (urmByUser s))%nat.
Proof.
  unfold walk_user. etransitivity; [apply length_omap_le|].
  rewrite (Permutation_length (merge_sort_Permutation _ _)), length_fmap.
  etransitivity; [apply length_filter_le|]. by rewrite length_map_to_list.
Qed.

(** ** The properties *)

(** C23. Consistency: after any sequence of service calls on an empty store,
    whether the calls succeed or fail, every index agrees with the data, names
    are unique, the user of every mapping and of every password exists, and the
    organization of every bucket does, provided that organizations are given
    names without surrounding white space.  That the resource of a mapping
    exists is not claimed, since the store does not check it.  The store keeps
    the records themselves: names are taken to be valid UTF-8, which JSON
    gives back as they were. *)
Theorem tenant_operations_consistent os calls :
  Forall op_trimmed os -> tenant_ok (w_kv (execs os (MkWorld empty_kv calls))).
Proof. intros H. apply execs_ok; [done|]. apply empty_ok. Qed.

(** C24. Deleting an organization of a consistent store succeeds and removes it,
    its index entry, all its buckets with their index entries, and every
    mapping of a user to the organization or to one of the buckets, and
    nothing else; the store stays consistent and the organization is no longer
    found. *)
Theorem DeleteOrganization_cascades id o w :
  tenant_ok (w_kv w) -> orgs (w_kv w) !! id = Some o ->
  let w' := MkWorld (forget_org id (o_Name o) (w_kv w)) (w_calls w) in
  DeleteOrganization id w = (Ok tt, w') /\ tenant_ok (w_kv w') /\
  FindOrganizationByID id w' = (Err ErrOrgNotFound, w') /\
  (forall b, buckets (w_kv w') !! b_ID b = Some b -> b_OrgID b <> id) /\
  (forall k m, urms (w_kv w') !! k = Some m -> belongs (w_kv w) id (m_ResourceID m) = false).
Proof.
  intros Hok Ho w'. destruct (DeleteOrganization_run id o w Hok Ho) as [Hd Hok']. destruct (ok_orgs _ Hok id o Ho) as [_ Hv].
  split_and!; [done|done| | |].
  - apply View_run. unfold GetOrg, deferred, bind. rewrite encode_ID_valid by done. cbn. by rewrite lookup_delete_eq.
  - intros b Hb. by apply map_lookup_filter_Some in Hb as [_ Hb].
  - intros k m Hk. destruct (ok_urms _ Hok' k m Hk) as [Ek _]. apply map_lookup_filter_Some in Hk as [_ Hk]. by rewrite Ek in Hk.
Qed.

(** C27. Deleting a user of a consistent store succeeds and removes the user, the
    name from the index, the password and every mapping of the user, and
    nothing else; afterwards the user is not found and has no permission
    through mappings. *)
Theorem DeleteUser_cascades id u w :
  tenant_ok (w_kv w) -> users (w_kv w) !! id = Some u ->
  let w' := MkWorld (forget_user id (u_Name u) (w_kv w)) (w_calls w) in
  UserSvc_DeleteUser id w = (Ok tt, w') /\ tenant_ok (w_kv w') /\
  FindUserByID id w' = (Err ErrUserNotFound, w') /\ stored_password id w' = (Err EIncorrectUser, w') /\
  FindUserResourceMappings (by_user id) None w' = (Ok [], w').
Proof.
  intros Hok Hu w'. destruct (GetUser_run id u w Hok Hu) as [_ Hv]. pose proof (forget_user_ok id u _ Hok Hu) as Hok'.
  assert (Hg : GetUser id w' = (Err ErrUserNotFound, w')).
  { unfold GetUser, deferred, bind. rewrite encode_ID_valid by done. cbn. by rewrite lookup_delete_eq. }
  split_and!; [|done|by apply View_run| |].
  - apply Update_run. unfold DeletePassword, bind at 1 2. rewrite encode_ID_valid by done. unfold put.
    set (w1 := MkWorld (set_passwords _ _) _). assert (Hok1 : tenant_ok (w_kv w1)).
    { apply (DeletePassword_ok id w tt w1 Hok). unfold DeletePassword, bind. by rewrite encode_ID_valid by done. }
    rewrite (DeleteUser_run id u w1 Hok1 Hu). do 2 f_equal. apply kv_eta; try done. unfold forget_user, w1; kvs.
    by rewrite delete_delete_eq.
  - apply View_run. unfold bind, try. by rewrite Hg.
  - apply View_run. rewrite ListURMs_by_user; [|done|by apply ok_urmIndex]. do 2 f_equal.
    destruct (walk_user (w_kv w') id) as [|m l] eqn:E; [done|]. exfalso.
    assert (Hm : m ∈ walk_user (w_kv w') id) by (rewrite E; left).
    apply elem_of_walk_user in Hm as (Em & k & Hk); [|by apply ok_urmIndex].
    destruct (ok_urms _ Hok' k m Hk) as [Ek _]. apply map_lookup_filter_Some in Hk as [_ Hk]. by rewrite Ek in Hk.
Qed.

(** An organization whose name has surrounding white space is not deleted
    from the name index: the entry under the trimmed name survives, so the
    name can be neither used again nor resolved. *)
Theorem DeleteOrg_stale_index id o w w' :
  orgs (w_kv w) !! id = Some o -> orgIndex (w_kv w) !! TrimSpace (o_Name o) = Some id ->
  PlatformID.Valid id = true -> TrimSpace (o_Name o) <> o_Name o -> TrimSpace (o_Name o) <> [] ->
  DeleteOrg id w = (Ok tt, w') ->
  orgIndex (w_kv w') !! TrimSpace (o_Name o) = Some id /\ orgs (w_kv w') !! id = None /\
  uniqueOrgName (o_Name o) w' = (Err OrgAlreadyExistsError, w') /\
  GetOrgByName (o_Name o) w' = (Err ErrOrgNotFound, w').
Proof.
  intros Ho Hi Hv Ht Hne Hd. apply DeleteOrg_Ok in Hd as (u & Hu & Ew). assert (u = o) as -> by congruence.
  assert (Ei : orgIndex (w_kv w') !! TrimSpace (o_Name o) = Some id) by (rewrite Ew; kvs; by rewrite lookup_delete_ne).
  assert (Eo : orgs (w_kv w') !! id = None) by (rewrite Ew; kvs; by rewrite lookup_delete_eq).
  split_and!; [done|done| |].
  - unfold uniqueOrgName, organizationIndexKey. destruct (TrimSpace (o_Name o)) as [|c l]; [done|].
    cbn [length Nat.eqb]. unfold bind, get. by rewrite Ei.
  - unfold GetOrgByName, organizationIndexKey. unfold deferred at 1, bind at 1 2, get. rewrite Ei. cbn [or_throw ret].
    unfold GetOrg, deferred, bind. rewrite encode_ID_valid by done. cbn. by rewrite Eo.
Qed.

(** C28. [FindPermissionForUser] collects the permissions of all mappings of the
    user, whatever their number, over as many pages of 100 as it takes, and
    then those on the user itself; the first mapping with an unknown role is
    reported as the error. *)
Theorem FindPermissionForUser_all_pages uid w :
  tenant_ok (w_kv w) -> PlatformID.Valid uid = true ->
  let ms := walk_user (w_kv w) uid in
  (forall m, m ∈ ms <-> m_UserID m = uid /\ exists k, urms (w_kv w) !! k = Some m) /\
  FindPermissionForUser uid w =
    match permissionFromMapping ms with
    | inl ps => (Ok (ps ++ MePermissions uid), w)
    | inr e => (Err e, w)
    end.
Proof.
  intros Hok Hv ms. pose proof (ok_urmIndex _ Hok) as Hix. split; [intros m; by apply elem_of_walk_user|].
  unfold FindPermissionForUser, get. unfold bind at 1 2. rewrite user_page by done. fold ms. change (drop (Z.to_nat 0) ms) with ms.
  assert (Ems := permissionFromMapping_app (take 100 ms) (drop 100 ms)). rewrite take_drop in Ems. rewrite Ems. unfold bind.
  destruct (permissionFromMapping (take 100 ms)) as [ps|e]; [|done]. cbn [lift ret].
  assert (Hl : length (take 100 ms) = Nat.min 100 (length ms)) by apply length_take.
  destruct (Nat.leb_spec 100 (length (take 100 ms))).
  - replace (length (take 100 ms)) with 100%nat by lia. rewrite more_pages_run; [|done|done| |].
    + fold ms. by destruct (permissionFromMapping (drop 100 ms)).
    + intros _. rewrite length_drop. pose proof (length_walk_user (w_kv w) uid). lia.
    + done.
  - rewrite (drop_ge ms) by lia. cbn [permissionFromMapping]. by rewrite app_nil_r.
Qed.
End Services.

(** ** Concrete runs *)

Definition sample_ids (g : gen) (n : nat) : ID :=
  Z.of_nat n + match g with OrgIDGen => 8192 | IDGen => 4096 | BucketIDGen => 16384 | _ => 32768 end.
Definition sample_user (n : string) : User := MkUser 0 (bytes n) [] Active.
Definition sample_org (n : string) : Organization := MkOrg 0 (bytes n) [].
Definition sample_bucket (oid : ID) (n : string) : Bucket := MkBucket 0 oid BucketTypeUser (bytes n) [] [] 0 0.
Definition sample_urm (uid rid : ID) : UserResourceMapping := MkURM uid Member UserMappingType BucketsResourceType rid.

(** Two users, two organizations owned by the first user, a bucket mapped to
    the second user, a password and a failing call. *)
Definition sample_ops : list op := [
  OpCreateUser (sample_user "ann"); OpCreateUser (sample_user "bob"); OpCreateUser (sample_user "ann");
  OpCreateOrganization (Some 4096) (sample_org "acme"); OpCreateOrganization (Some 4096) (sample_org "other");
  OpCreateBucket (sample_bucket 8192 "data"); OpCreateUserResourceMapping (sample_urm 4097 16388);
  OpSetPassword 4097 (bytes "hash"); OpUpdateUser 4097 (MkUserUpdate (Some (bytes "rob")) None) ].
Definition sample_world : world := execs sample_ids sample_ops (MkWorld empty_kv (fun _ => O)).

Lemma sample_trimmed : Forall op_trimmed sample_ops.
Proof. repeat constructor. Qed.

Lemma sample_ok : tenant_ok (w_kv sample_world).
Proof. apply execs_ok; [apply sample_trimmed|apply empty_ok]. Qed.

Lemma tenant_operations_consistent_witness :
  Forall op_trimmed sample_ops /\ tenant_ok (w_kv (execs sample_ids sample_ops (MkWorld empty_kv (fun _ => O)))) /\
  (size (orgs (w_kv sample_world)), size (users (w_kv sample_world)), size (buckets (w_kv sample_world)),
   size (urms (w_kv sample_world))) = (2, 2, 5, 3)%nat.
Proof.
  split; [repeat constructor|split; [apply (tenant_operations_consistent sample_ids); repeat constructor|]].
  vm_compute. reflexivity.
Defined.

Lemma DeleteOrganization_cascades_witness :
  exists w', DeleteOrganization 8192 sample_world = (Ok tt, w') /\ tenant_ok (w_kv w') /\
    (size (orgs (w_kv w')), size (buckets (w_kv w')), size (urms (w_kv w'))) = (1, 2, 1)%nat.
Proof.
  destruct (DeleteOrganization_cascades 8192 (MkOrg 8192 (bytes "acme") []) sample_world sample_ok) as (H & Hok & _).
  { vm_compute. reflexivity. }
  eexists. split; [exact H|]. split; [exact Hok|]. vm_compute. reflexivity.
Defined.

Lemma DeleteUser_cascades_witness :
  exists w', UserSvc_DeleteUser 4096 sample_world = (Ok tt, w') /\ tenant_ok (w_kv w') /\
    FindUserByID 4096 w' = (Err ErrUserNotFound, w').
Proof.
  destruct (DeleteUser_cascades 4096 (MkUser 4096 (bytes "ann") [] Active) sample_world sample_ok) as (H & Hok & Hf & _).
  { vm_compute. reflexivity. }
  eexists. split; [exact H|]. split; [exact Hok|exact Hf].
Defined.

(** The organization [" acme"], created in an empty store. *)
Definition stale_world : world := (Update (CreateOrg sample_ids (sample_org " acme")) (MkWorld empty_kv (fun _ => O))).2.

Lemma DeleteOrg_stale_index_witness :
  exists w', DeleteOrg 8192 stale_world = (Ok tt, w') /\
    uniqueOrgName (bytes " acme") w' = (Err OrgAlreadyExistsError, w').
Proof.
  eexists. split; [vm_compute; reflexivity|].
  destruct (DeleteOrg_stale_index 8192 (MkOrg 8192 (bytes " acme") []) stale_world (DeleteOrg 8192 stale_world).2)
    as (_ & _ & H & _); [vm_compute; reflexivity..|vm_compute; discriminate|vm_compute; discriminate|vm_compute; reflexivity|].
  exact H.
Defined.

Lemma FindPermissionForUser_all_pages_witness :
  exists ps, FindPermissionForUser 4096 sample_world = (Ok ps, sample_world) /\ (length ps = 90)%nat.
Proof.
  destruct (FindPermissionForUser_all_pages 4096 sample_world sample_ok eq_refl) as [_ H].
  eexists. split; [rewrite H; vm_compute; reflexivity|]. vm_compute. reflexivity.
Defined.

(** A descending listing after a user starts at that user again: the seek key
    is the next identifier in both directions. *)
Example ListUsers_descending_repeats :
  u_ID <$> match ListUsers (MkFindOptions 0 0 (Some 4097) true) sample_world with (Ok us, _) => us | _ => [] end
  = [4097; 4096].
Proof. vm_compute. reflexivity. Qed.
End TenantSvc.
