(* ===== verification/Passwords.v ===== *)
(** * Passwords

    Models the password operations of [tenant/service_user.go]: the strength
    check over the runes of a string, and setting and comparing passwords.
    The tables behind [unicode.IsNumber], [unicode.IsUpper] and
    [unicode.IsLower] and the hash of [golang.org/x/crypto/bcrypt] are
    parameters. *)
From S2P Require Import Prelude Platform Authz Tenant TenantSvc.
From stdpp Require Import gmap.
#[global] Open Scope Z_scope.

Module Passwords.
Import Errors Authz Tenant TenantSvc.
Local Open Scope tenant_scope.

(** ** The runes of a string *)

Definition RuneError : Z := 65533.
Definition cont (lo hi b : Z) : bool := (lo <=? b) && (b <=? hi).

(** [utf8.DecodeRuneInString]: the rune and its width. *)
Definition DecodeRune (s : text) : Z * nat :=
  match s with
  | [] => (RuneError, 0%nat)
  | b0 :: s =>
    if b0 <? 128 then (b0, 1%nat)
    else match s with
    | b1 :: s =>
      if cont 194 223 b0 then
        if cont 128 191 b1 then (Z.land b0 31 * 64 + Z.land b1 63, 2%nat) else (RuneError, 1%nat)
      else match s with
      | b2 :: s =>
        let lo := if b0 =? 224 then 160 else 128 in
        let hi := if b0 =? 237 then 159 else 191 in
        if cont 224 239 b0 then
          if cont lo hi b1 && cont 128 191 b2
          then (Z.land b0 15 * 4096 + Z.land b1 63 * 64 + Z.land b2 63, 3%nat) else (RuneError, 1%nat)
        else match s with
        | b3 :: _ =>
          let lo := if b0 =? 240 then 144 else 128 in
          let hi := if b0 =? 244 then 143 else 191 in
          if cont 240 244 b0 && cont lo hi b1 && cont 128 191 b2 && cont 128 191 b3
          then (Z.land b0 7 * 262144 + Z.land b1 63 * 4096 + Z.land b2 63 * 64 + Z.land b3 63, 4%nat)
          else (RuneError, 1%nat)
        | [] => (RuneError, 1%nat)
        end
      | [] => (RuneError, 1%nat)
      end
    | [] => (RuneError, 1%nat)
    end
  end.

(** [for _, r := range s]; every round consumes a byte. *)
Fixpoint runes_loop (fuel : nat) (s : text) : list Z :=
  match fuel, s with
  | S f, _ :: _ => let '(r, n) := DecodeRune s in r :: runes_loop f (drop n s)
  | _, _ => []
  end.
Definition runes (s : text) : list Z := runes_loop (length s) s.

(** ** Strength *)

Definition MinPasswordLen : nat := 8.
Definition MaxPasswordLen : nat := 72.
Definition SpecialChars : text := bytes "!@#$%^&*()_+".

(** [errors.Join]: none when the list is empty; otherwise the first error
    stands for the joined one, as it does for [errors.As]. *)
Definition Join (es : list error) : option error := head es.

Fixpoint Repeat (s : text) (n : nat) : text := match n with O => [] | S n => s ++ Repeat s n end.

Section Strength.
Context (IsNumber IsUpper IsLower : Z -> bool).

Definition classes : list (Z -> bool) :=
  [IsNumber; IsUpper; IsLower; fun r => List.existsb (fun s => s =? r) SpecialChars].

(** The number of classes with a rune in the string. *)
Definition count_classes (s : text) : nat :=
  length (List.filter (fun f => List.existsb f (runes s)) classes).

(** The division by the length of the password panics on an empty one. *)
Definition IsPasswordStrong (password : text) (doCheck : bool) : outcome (option error) :=
  let l := length password in
  let eSlice := if ((l <? MinPasswordLen) || (MaxPasswordLen <? l))%nat then [EPasswordLength] else [] in
  if doCheck then
    if (l =? 0)%nat then Panic
    else
      let constLenPassword := take MaxPasswordLen (Repeat password (1 + MaxPasswordLen / l)) in
      let eSlice := if (count_classes constLenPassword <? 3)%nat then eSlice ++ [EPasswordChars] else eSlice in
      Ret (Join eSlice)
  else Ret (Join eSlice).

(** ** Setting and comparing *)

(** [strongPasswords] of the service; bcrypt's hash and comparison. *)
Context (strongPasswords : bool) (GenerateFromPassword : text -> text + error)
  (CompareHashAndPassword : text -> text -> bool).

(** A panic ends the request before it has changed anything. *)
Definition panic : error := Plain "panic".

Definition UserSvc_SetPassword (userID : ID) (password : text) : M unit :=
  match IsPasswordStrong password strongPasswords with
  | Ret (Some e) => throw e
  | Fail msg => throw (Plain msg)
  | Panic => throw panic
  | Ret None =>
    do passHash <- lift (GenerateFromPassword password);
    store_password userID passHash
  end.

Definition comparePasswordNoStrengthCheck (userID : ID) (password : text) : M unit :=
  do hash <- stored_password userID;
  if CompareHashAndPassword hash password then ret tt else throw EIncorrectPassword.

Definition ComparePassword (userID : ID) (password : text) : M unit :=
  do err <- try (comparePasswordNoStrengthCheck userID password);
  match IsPasswordStrong password strongPasswords, err with
  | Panic, _ => throw panic
  | Ret (Some e), Ok _ => throw (default e (Join [EPasswordChangeRequired; e]))
  | _, Ok _ => ret tt
  | _, Err e => throw e
  end.

Definition CompareAndSetPassword (userID : ID) (old new : text) : M unit :=
  do_ comparePasswordNoStrengthCheck userID old;
  UserSvc_SetPassword userID new.

(** ** Properties *)

Lemma IsPasswordStrong_weak_check password :
  IsPasswordStrong password false = Ret None <-> (8 <= length password <= 72)%nat.
Proof.
  unfold IsPasswordStrong, Join, MinPasswordLen, MaxPasswordLen.
  destruct (Nat.ltb_spec (length password) 8), (Nat.ltb_spec 72 (length password)); cbn; split; intros; try done; lia.
Qed.

(** Checking the strength of an empty password panics: the repetition count is
    a division by its length. *)
Lemma IsPasswordStrong_panics password doCheck :
  IsPasswordStrong password doCheck = Panic <-> password = [] /\ doCheck = true.
Proof.
  unfold IsPasswordStrong. destruct doCheck; [destruct password as [|c p]; cbn [length Nat.eqb]|]; split; intros H;
    first [discriminate H|destruct H; discriminate|split; reflexivity|reflexivity].
Qed.

Lemma store_password_run id u h w :
  tenant_ok (w_kv w) -> users (w_kv w) !! id = Some u ->
  store_password id h w = (Ok tt, MkWorld (set_passwords (insert id h) (w_kv w)) (w_calls w)).
Proof.
  intros Hok Hu. destruct (GetUser_run id u w Hok Hu) as [Hg Hv]. apply Update_run. unfold bind at 1, try. rewrite Hg.
  unfold SetPassword, bind. by rewrite encode_ID_valid by done.
Qed.

Lemma stored_password_run id u h w :
  tenant_ok (w_kv w) -> users (w_kv w) !! id = Some u -> passwords (w_kv w) !! id = Some h ->
  stored_password id w = (Ok h, w).
Proof.
  intros Hok Hu Hp. destruct (GetUser_run id u w Hok Hu) as [Hg Hv]. apply View_run. unfold bind at 1, try at 1. rewrite Hg.
  unfold bind, try, GetPassword, bind. rewrite encode_ID_valid by done. cbn. by rewrite Hp.
Qed.

(** A password that passes the strength check and is hashed is stored for an
    existing user; comparing accepts exactly the passwords that bcrypt matches
    with the hash, so the password itself, and [CompareAndSetPassword] with a
    wrong old password changes nothing. *)
Theorem SetPassword_compares id u password h w :
  tenant_ok (w_kv w) -> users (w_kv w) !! id = Some u ->
  (forall p q, GenerateFromPassword p = inl q -> CompareHashAndPassword q p = true) ->
  IsPasswordStrong password strongPasswords = Ret None -> GenerateFromPassword password = inl h ->
  let w' := MkWorld (set_passwords (insert id h) (w_kv w)) (w_calls w) in
  UserSvc_SetPassword id password w = (Ok tt, w') /\ tenant_ok (w_kv w') /\
  ComparePassword id password w' = (Ok tt, w') /\
  forall p new, CompareHashAndPassword h p = false -> CompareAndSetPassword id p new w' = (Err EIncorrectPassword, w').
Proof.
  intros Hok Hu Hb Hs Hh w'. pose proof (store_password_run id u h w Hok Hu) as Hst.
  pose proof (store_password_preserves id h w Hok) as Hok'. rewrite Hst in Hok'. cbn [snd] in Hok'.
  assert (Hget : stored_password id w' = (Ok h, w')).
  { apply (stored_password_run id u); [done|done|]. cbn. by rewrite lookup_insert_eq. }
  split_and!; [|done| |].
  - unfold UserSvc_SetPassword. rewrite Hs, Hh. exact Hst.
  - unfold ComparePassword, bind at 1, try, comparePasswordNoStrengthCheck, bind. rewrite Hget, (Hb _ _ Hh), Hs. done.
  - intros p new Hp. unfold CompareAndSetPassword, comparePasswordNoStrengthCheck, bind. by rewrite Hget, Hp.
Qed.
End Strength.

(** A hash that marks its input, and ASCII letters. *)
Lemma SetPassword_compares_witness :
  exists w', UserSvc_SetPassword (cont 48 57) (cont 65 90) (cont 97 122) true (fun p => inl (1 :: p)) 4097 (bytes "Secret42!") sample_world
      = (Ok tt, w') /\
    ComparePassword (cont 48 57) (cont 65 90) (cont 97 122) true (fun h p => bool_decide (h = 1 :: p)) 4097 (bytes "Secret42!") w' = (Ok tt, w').
Proof.
  destruct (SetPassword_compares (cont 48 57) (cont 65 90) (cont 97 122) true (fun p => inl (1 :: p))
    (fun h p => bool_decide (h = 1 :: p)) 4097 (MkUser 4097 (bytes "rob") [] Active) (bytes "Secret42!")
    (1 :: bytes "Secret42!") sample_world sample_ok) as (H1 & _ & H2 & _).
  - vm_compute. reflexivity.
  - intros p q E. apply bool_decide_eq_true_2. congruence.
  - vm_compute. reflexivity.
  - reflexivity.
  - eexists. split; [exact H1|exact H2].
Defined.
End Passwords.
