(* ===== verification/AuthSvc.v ===== *)
(** * Authorization tokens

    Models [authorization] ([storage.go], [storage_authorization.go],
    [service.go]): the store of authorizations with its index by token, and
    the service over it.  The store shares the key-value store of [Tenant], and
    the service asks the tenant service for the user and the organization.
    JSON text is the encoding of the records and creation times are left out.
    The theorems state that the index agrees with the data and what a created
    token resolves to. *)
From S2P Require Import Prelude Platform Authz Tenant TenantSvc.
From stdpp Require Import gmap sorting.
#[global] Open Scope Z_scope.

Module AuthSvc.
Import Errors Authz Tenant TenantSvc.
Local Open Scope tenant_scope.

Definition ErrInvalidAuthID : error := Platform EInvalid "authorization ID is invalid".
Definition ErrAuthNotFound : error := Platform ENotFound "authorization not found".
Definition NotUniqueIDError : error := Platform EConflict "ID already exists".
Definition ErrTokenAlreadyExistsError : error := Platform EConflict "token already exists".
Definition ErrInvalidAuthIDError (e : error) : error := Wrap EInvalid "auth id provided is invalid" e.
Definition ErrUnableToCreateToken : error := Platform EInvalid "unable to create token".
Definition NotUniqueError : error := Platform EConflict "name already exists".

(** [ErrInternalServiceError] with [WithErrorCode]. *)
Definition with_code (c : string) (e : error) : error :=
  match e with
  | Plain _ => Wrap c "" e
  | Platform _ msg => Platform c msg
  | Wrap _ msg err => Wrap c msg err
  end.

Definition ReservedIDs : Z := 1000.

Section Service.
(** The identifier generators and the token generator, [rand.TokenGenerator]. *)
Context (ids : gen -> nat -> ID) (tokens : nat -> string + error).

(** ** The store *)

Definition auth_uniqueID (id : ID) : M unit :=
  do id <- encode_ID id (fun e => Wrap EInvalid "" e);
  do s <- get;
  match auths s !! id with
  | None => ret tt
  | Some _ => throw NotUniqueIDError
  end.

Fixpoint auth_generate_loop (n : nat) : M ID :=
  match n with
  | O => throw ErrFailureGeneratingID
  | S n =>
    do id <- next_ID ids AuthIDGen;
    if id <? ReservedIDs then auth_generate_loop n
    else
      do r <- try (auth_uniqueID id);
      match r with
      | Ok _ => ret id
      | Err e => if bool_decide (e = NotUniqueIDError) then auth_generate_loop n else throw e
      end
  end.
Definition auth_generateSafeID : M ID := auth_generate_loop MaxIDGenerationN.

(** [uniqueID] of [storage_authorization.go]. *)
Definition store_uniqueID (id : ID) : M unit :=
  do id <- encode_ID id (fun _ => ErrInvalidAuthID);
  do s <- get;
  match auths s !! id with
  | None => ret tt
  | Some _ => throw NotUniqueError
  end.

Definition uniqueAuthToken (a : Authorization) : M unit :=
  do s <- get;
  match authIndex s !! a_Token a with
  | None => ret tt
  | Some _ => throw ErrUnableToCreateToken
  end.

Definition with_status (st : Status) (a : Authorization) : Authorization :=
  MkAuthorization (a_ID a) (a_Token a) st (a_Description a) (a_OrgID a) (a_UserID a) (a_Permissions a).
Definition with_id (id : ID) (a : Authorization) : Authorization :=
  MkAuthorization id (a_Token a) (a_Status a) (a_Description a) (a_OrgID a) (a_UserID a) (a_Permissions a).
Definition with_token (t : string) (a : Authorization) : Authorization :=
  MkAuthorization (a_ID a) t (a_Status a) (a_Description a) (a_OrgID a) (a_UserID a) (a_Permissions a).

(** The authorization with its status filled in, as it is marshalled. *)
Definition encodeAuthorization (a : Authorization) : Authorization + error :=
  if bool_decide (a_Status a = Active) || bool_decide (a_Status a = Inactive) then inl a
  else if bool_decide (a_Status a = ""%string) then inl (with_status Active a)
  else inr (Platform EInvalid "unknown authorization status").

Definition decodeAuthorization (a : Authorization) : Authorization :=
  if bool_decide (a_Status a = ""%string) then with_status Active a else a.

(** The identifier [CreateAuthorization] gives: [None] when none could be
    generated, which the code reports as success. *)
Definition choose_ID (a : Authorization) : M (option ID) :=
  do fresh <- (if PlatformID.Valid (a_ID a)
               then do r <- try (store_uniqueID (a_ID a)); ret match r with Ok _ => false | Err _ => true end
               else ret true);
  if fresh then
    do r <- try auth_generateSafeID;
    match r with
    | Ok id => ret (Some id)
    | Err _ => ret None
    end
  else ret (Some (a_ID a)).

(** The value is the authorization as the caller's pointer has it afterwards. *)
Definition store_CreateAuthorization (a : Authorization) : M Authorization :=
  deferred (
    do oid <- choose_ID a;
    match oid with
    | None => ret a
    | Some id =>
      let a := with_id id a in
      do r <- try (uniqueAuthToken a);
      match r with
      | Err _ => throw ErrTokenAlreadyExistsError
      | Ok _ =>
        match encodeAuthorization a with
        | inr e => throw (Wrap EInvalid "" e)
        | inl a =>
          do id <- encode_ID (a_ID a) ErrInvalidAuthIDError;
          do_ put (set_authIndex (insert (a_Token a) id));
          do_ put (set_auths (insert id a));
          ret a
        end
      end
    end).

Definition GetAuthorizationByID (id : ID) : M Authorization :=
  deferred (
    do id <- encode_ID id (fun _ => ErrInvalidAuthID);
    do s <- get;
    do a <- or_throw (auths s !! id) ErrAuthNotFound;
    ret (decodeAuthorization a)).

Definition GetAuthorizationByToken (token : string) : M Authorization :=
  deferred (
    do s <- get;
    do id <- or_throw (authIndex s !! token) (Platform ENotFound "authorization not found");
    GetAuthorizationByID id).

Record AuthorizationFilter := MkAuthFilter {
  af_ID : option ID;
  af_Token : option string;
  af_OrgID : option ID;
  af_UserID : option ID }.

Definition filterAuthorizationsFn (f : AuthorizationFilter) (a : Authorization) : bool :=
  match af_ID f, af_Token f, af_OrgID f, af_UserID f with
  | Some id, _, _, _ => a_ID a =? id
  | None, Some t, _, _ => bool_decide (a_Token a = t)
  | None, None, Some o, Some u => (a_OrgID a =? o) && (a_UserID a =? u)
  | None, None, Some o, None => a_OrgID a =? o
  | None, None, None, Some u => a_UserID a =? u
  | None, None, None, None => true
  end.

(** The cursor's predicate is a hint: the filter decides. *)
Definition ListAuthorizations (f : AuthorizationFilter) : M (list Authorization) :=
  deferred (
    do s <- get;
    ret (List.filter (filterAuthorizationsFn f) (decodeAuthorization <$> id_cursor (auths s) None false))).

Definition store_UpdateAuthorization (id : ID) (a : Authorization) : M Authorization :=
  deferred (
    match encodeAuthorization a with
    | inr e => throw (with_code EInvalid e)
    | inl a =>
      do id <- encode_ID (a_ID a) (with_code ENotFound);
      do_ put (set_authIndex (insert (a_Token a) id));
      do_ put (set_auths (insert id a));
      ret a
    end).

Definition store_DeleteAuthorization (id : ID) : M unit :=
  deferred (
    do a <- GetAuthorizationByID id;
    do id <- encode_ID id (fun _ => ErrInvalidAuthID);
    do_ put (set_authIndex (delete (a_Token a)));
    put (set_auths (delete id))).

(** ** The service *)

Definition next_token : M string :=
  fun w => (match tokens (w_calls w TokenGen) with inl t => Ok t | inr e => Err (Wrap "" "" e) end,
            MkWorld (w_kv w) (fun h => if bool_decide (h = TokenGen) then S (w_calls w h) else w_calls w h)).

Definition CreateAuthorization (a : Authorization) : M Authorization :=
  match Authorization_Valid a with
  | Some e => throw (Wrap "" "" e)
  | None =>
    do r <- try (FindUserByID (a_UserID a));
    match r with
    | Err _ => throw ErrUnableToCreateToken
    | Ok _ =>
      do r <- try (FindOrganizationByID (a_OrgID a));
      match r with
      | Err _ => throw ErrUnableToCreateToken
      | Ok _ =>
        do r <- try (View (uniqueAuthToken a));
        match r with
        | Err _ => throw ErrTokenAlreadyExistsError
        | Ok _ =>
          do a <- (if bool_decide (a_Token a = ""%string)
                   then do t <- next_token; ret (with_token t a)
                   else ret a);
          Update (store_CreateAuthorization a)
        end
      end
    end
  end.

Definition FindAuthorizationByID (id : ID) : M Authorization := View (GetAuthorizationByID id).
Definition FindAuthorizationByToken (t : string) : M Authorization := View (GetAuthorizationByToken t).

Definition wrap_error {A} (m : M A) : M A :=
  fun w => match m w with (Err e, w) => (Err (Wrap "" "" e), w) | r => r end.

Definition FindAuthorizations (f : AuthorizationFilter) : M (list Authorization) :=
  match af_ID f, af_Token f with
  | Some id, _ => do a <- wrap_error (View (GetAuthorizationByID id)); ret [a]
  | None, Some t => do a <- wrap_error (View (GetAuthorizationByToken t)); ret [a]
  | None, None => wrap_error (View (ListAuthorizations f))
  end.

Record AuthorizationUpdate := MkAuthUpdate {
  au_Status : option Status;
  au_Description : option string }.

Definition UpdateAuthorization (id : ID) (upd : AuthorizationUpdate) : M Authorization :=
  do r <- try (View (GetAuthorizationByID id));
  match r with
  | Err e => throw (Wrap ENotFound "" e)
  | Ok auth =>
    let auth := MkAuthorization (a_ID auth) (a_Token auth) (default (a_Status auth) (au_Status upd))
                  (default (a_Description auth) (au_Description upd)) (a_OrgID auth) (a_UserID auth)
                  (a_Permissions auth) in
    Update (store_UpdateAuthorization id auth)
  end.

Definition DeleteAuthorization (id : ID) : M unit := Update (store_DeleteAuthorization id).

(** ** The invariant of the store *)

Record auth_ok (s : kv) : Prop := {
  ok_auths : map_Forall (fun id a => a_ID a = id /\ PlatformID.Valid id = true /\
               (a_Status a = Active \/ a_Status a = Inactive)) (auths s);
  ok_authIndex : indexed a_Token (auths s) (authIndex s) }.

Lemma empty_auth_ok : auth_ok empty_kv.
Proof. split; cbn; [apply map_Forall_empty|]. split; intros ?? H; by rewrite lookup_empty in H. Qed.

(** ** What the operations do *)

Lemma auth_uniqueID_run id w r w' :
  auth_uniqueID id w = (r, w') -> w' = w /\ (r = Ok tt -> PlatformID.Valid id = true /\ auths (w_kv w) !! id = None) /\
    (forall e, r = Err e -> PlatformID.Valid id = true -> e = NotUniqueIDError /\ is_Some (auths (w_kv w) !! id)).
Proof.
  unfold auth_uniqueID, bind, encode_ID, PlatformID.Encode, get, ret, throw. intros H.
  destruct (PlatformID.Valid id) eqn:Ev; cbn in H; [|by simplify_eq].
  destruct (auths (w_kv w) !! id) eqn:E; simplify_eq; (split_and!; [done|done|]); [|done]. intros e [= <-] _. split; [done|by eexists].
Qed.

(** The next [n] identifiers of the generator are reserved or taken. *)
Definition no_identifier_in (n : nat) (w : world) : Prop := forall k, (k < n)%nat ->
  let id := ids AuthIDGen (w_calls w AuthIDGen + k)%nat in id < ReservedIDs \/ is_Some (auths (w_kv w) !! id).
Definition no_identifier : world -> Prop := no_identifier_in MaxIDGenerationN.

Lemma auth_generate_run n w r w' :
  auth_generate_loop n w = (r, w') ->
  w_kv w' = w_kv w /\ (forall id, r = Ok id -> PlatformID.Valid id = true /\ auths (w_kv w) !! id = None) /\
  (forall e, r = Err e -> no_identifier_in n w).
Proof.
  revert w. induction n as [|n IH]; intros w; cbn [auth_generate_loop]; [intros [= <- <-]; split_and!; try done; intros e _ k Hk; lia|].
  unfold bind at 1, next_ID. set (w1 := MkWorld (w_kv w) _). set (id := ids AuthIDGen _).
  assert (Hgo : (id < ReservedIDs \/ is_Some (auths (w_kv w) !! id)) -> auth_generate_loop n w1 = (r, w') ->
    w_kv w' = w_kv w /\ (forall id, r = Ok id -> PlatformID.Valid id = true /\ auths (w_kv w) !! id = None) /\ (forall e, r = Err e -> no_identifier_in (S n) w)).
  { intros Hid H. apply IH in H as (H1 & H2 & H3). split_and!; [done|done|]. intros e He [|k] Hk; cbv zeta; [by rewrite Nat.add_0_r|].
    specialize (H3 e He k ltac:(lia)). cbn in H3. by rewrite Nat.add_succ_r. }
  destruct (Z.ltb_spec id ReservedIDs) as [Hr|Hr]; [by apply Hgo; left|].
  assert (Hv : PlatformID.Valid id = true) by (unfold PlatformID.Valid; unfold ReservedIDs in Hr; destruct (Z.eqb_spec id 0); [lia|done]).
  unfold bind, try. destruct (auth_uniqueID id w1) as [u w2] eqn:E. apply auth_uniqueID_run in E as (-> & Hu & Hn).
  destruct u as [[]|e]; [intros [= <- <-]|].
  - split_and!; [done| |done]. intros i [= <-]. by apply Hu.
  - destruct (Hn e eq_refl Hv) as [-> Hs]. rewrite bool_decide_true by done. apply Hgo. by right.
Qed.

Lemma generate_choice n w :
  exists oid w',
    bind (try (auth_generate_loop n)) (fun r => match r with Ok id => ret (Some id) | Err _ => ret None end) w = (Ok oid, w') /\
    w_kv w' = w_kv w /\ (forall id, oid = Some id -> PlatformID.Valid id = true /\ auths (w_kv w) !! id = None) /\
    (oid = None -> no_identifier_in n w).
Proof.
  unfold bind, try. destruct (auth_generate_loop n w) as [r w2] eqn:E.
  apply auth_generate_run in E as (E2 & Hr & Hn). unfold ret.
  destruct r as [id|e]; [exists (Some id), w2|exists None, w2]; split_and!; try done; [intros i [= <-]; by apply Hr|intros _; by apply (Hn e)].
Qed.

Lemma choose_ID_run a w :
  exists oid w', choose_ID a w = (Ok oid, w') /\ w_kv w' = w_kv w /\
    (forall id, oid = Some id -> PlatformID.Valid id = true /\ auths (w_kv w) !! id = None) /\ (oid = None -> no_identifier w).
Proof.
  unfold choose_ID, auth_generateSafeID, no_identifier. generalize MaxIDGenerationN as n. intros n. unfold bind at 1. destruct (PlatformID.Valid (a_ID a)) eqn:Ev; [|exact (generate_choice n w)].
  unfold bind at 1, try, store_uniqueID, bind at 1 2. rewrite encode_ID_valid by done. unfold get.
  destruct (auths (w_kv w) !! a_ID a) eqn:E; [exact (generate_choice n w)|]. unfold ret. exists (Some (a_ID a)), w.
  split_and!; [done|done| |done]. by intros id [= <-].
Qed.

(** The store with a new authorization. *)
Definition add_auth (id : ID) (a : Authorization) (s : kv) : kv :=
  set_auths (insert id a) (set_authIndex (insert (a_Token a) id) s).

Lemma encodeAuthorization_inl a a' :
  encodeAuthorization a = inl a' ->
  a' = with_status (a_Status a') a /\ (a_Status a' = Active \/ a_Status a' = Inactive).
Proof.
  unfold encodeAuthorization. intros H. destruct a as [i t st d o u ps]. cbn in *.
  do 2 (case_bool_decide; [cbn in H; injection H as <-; cbn; auto|]). case_bool_decide; [|done].
  cbn in H. injection H as <-. cbn. auto.
Qed.

(** An authorization is stored under a fresh identifier, or, when no identifier
    could be generated, nothing is stored and no error reported. *)
Lemma store_CreateAuthorization_Ok a w a' w' :
  store_CreateAuthorization a w = (Ok a', w') ->
  (no_identifier w /\ a' = a /\ w_kv w' = w_kv w) \/
  exists id st, PlatformID.Valid id = true /\ auths (w_kv w) !! id = None /\ authIndex (w_kv w) !! a_Token a = None /\
    (st = Active \/ st = Inactive) /\ a' = with_status st (with_id id a) /\ w_kv w' = add_auth id a' (w_kv w).
Proof.
  intros H. apply deferred_Ok, bind_Ok in H as (oid & w1 & H1 & H).
  destruct (choose_ID_run a w) as (oid' & w1' & E & Ew & Hid & Hno). rewrite E in H1. injection H1 as -> ->.
  destruct oid as [id|]; [right|injection H as <- <-; left; auto]. destruct (Hid id eq_refl) as [Hv Hf].
  unfold bind at 1, try, uniqueAuthToken, bind at 1, get in H. rewrite Ew in H. cbn [with_id a_Token] in H.
  destruct (authIndex (w_kv w) !! a_Token a) eqn:Et; [done|]. cbn [ret] in H.
  destruct (encodeAuthorization (with_id id a)) as [a2|e] eqn:Ee; [|done].
  apply encodeAuthorization_inl in Ee as [Ea Hst]. assert (a_ID a2 = id) as Ei by (by rewrite Ea).
  assert (a_Token a2 = a_Token a) as Etok by (by rewrite Ea).
  unfold bind at 1 in H. rewrite Ei, encode_ID_valid in H by done. unfold bind, put, ret in H. injection H as <- <-.
  exists id, (a_Status a2). split_and!; try done. cbn [w_kv]. by rewrite Ew.
Qed.

Lemma add_auth_ok id a s :
  auth_ok s -> PlatformID.Valid id = true -> a_ID a = id -> auths s !! id = None -> authIndex s !! a_Token a = None ->
  (a_Status a = Active \/ a_Status a = Inactive) -> auth_ok (add_auth id a s).
Proof.
  intros [Hk Hix] Hv Hid Hf Ht Hst. unfold add_auth. split; kvs; [by apply map_Forall_insert_2|by apply indexed_insert].
Qed.

(** The authorization the service returns is the one stored, with a token. *)
Lemma CreateAuthorization_Ok a w a' w' :
  CreateAuthorization a w = (Ok a', w') ->
  is_Some (users (w_kv w) !! a_UserID a) /\ is_Some (orgs (w_kv w) !! a_OrgID a) /\ Authorization_Valid a = None /\
  exists t, (a_Token a <> ""%string -> t = a_Token a) /\
  ((no_identifier w /\ a' = with_token t a /\ w_kv w' = w_kv w) \/
   exists id st, PlatformID.Valid id = true /\ auths (w_kv w) !! id = None /\ authIndex (w_kv w) !! t = None /\
     (st = Active \/ st = Inactive) /\ a' = with_status st (with_id id (with_token t a)) /\
     w_kv w' = add_auth id a' (w_kv w)).
Proof.
  unfold CreateAuthorization. destruct (Authorization_Valid a); [done|]. intros H.
  apply bind_Ok in H as (ru & w1 & H1 & H). apply try_Ok in H1. destruct ru as [u|]; [|done]. unfold FindUserByID, View in H1.
  destruct (GetUser (a_UserID a) w) as [ru w1'] eqn:E. injection H1 as -> <-. apply GetUser_Ok in E as (-> & _ & Hu).
  apply bind_Ok in H as (ro & w2 & H1 & H). apply try_Ok in H1. destruct ro as [o|]; [|done]. unfold FindOrganizationByID, View in H1.
  destruct (GetOrg (a_OrgID a) _) as [ro w2'] eqn:E. injection H1 as -> <-. apply GetOrg_Ok in E as (-> & _ & Ho). cbn [w_kv w_calls] in *.
  apply bind_Ok in H as (rt & w3 & H1 & H). apply try_Ok in H1. destruct rt as [x|]; [|done]. unfold View in H1.
  destruct (uniqueAuthToken a _) as [rt w3'] eqn:E. injection H1 as -> <-.
  assert (w3' = MkWorld (w_kv w) (w_calls w)) as -> by (unfold uniqueAuthToken, bind, get in E; destruct (authIndex _ !! _); [done|by injection E]). clear E. cbn [w_kv w_calls] in H.
  apply bind_Ok in H as (a2 & w4 & H1 & H).
  assert (Ht : exists t, (a_Token a <> ""%string -> t = a_Token a) /\ a2 = with_token t a /\ w_kv w4 = w_kv w /\ w_calls w4 AuthIDGen = w_calls w AuthIDGen).
  { case_bool_decide as Et.
    - apply bind_Ok in H1 as (t & w5 & H1 & H2). unfold next_token in H1. destruct (tokens _); [|done]. injection H1 as -> <-.
      injection H2 as <- <-. by exists t.
    - injection H1 as <- <-. exists (a_Token a). split; [done|]. split_and!; [by destruct a|done|done]. }
  destruct Ht as (t & Htok & -> & Ew & Ec). split; [by eexists|]. split; [by eexists|]. split; [done|]. exists t. split; [done|].
  unfold Update in H. destruct (store_CreateAuthorization (with_token t a) w4) as [[a3|e] w5] eqn:E; [|done]. injection H as -> ->.
  apply store_CreateAuthorization_Ok in E. unfold no_identifier, no_identifier_in in *. rewrite Ew, Ec in E. exact E.
Qed.

Lemma GetAuthorizationByID_run id a w :
  auth_ok (w_kv w) -> auths (w_kv w) !! id = Some a -> GetAuthorizationByID id w = (Ok a, w) /\ PlatformID.Valid id = true.
Proof.
  intros Hok Ha. destruct (ok_auths _ Hok id a Ha) as (_ & Hv & Hst). split; [|done].
  unfold GetAuthorizationByID, deferred, bind. rewrite encode_ID_valid by done. cbn. rewrite Ha. cbn.
  unfold decodeAuthorization. rewrite bool_decide_false; [done|]. by destruct Hst as [->| ->].
Qed.

Lemma FindAuthorizationByToken_run id a w :
  auth_ok (w_kv w) -> auths (w_kv w) !! id = Some a -> FindAuthorizationByToken (a_Token a) w = (Ok a, w).
Proof.
  intros Hok Ha. apply View_run. unfold GetAuthorizationByToken. unfold deferred at 1, bind at 1 2, get.
  rewrite (ix_of _ _ _ (ok_authIndex _ Hok) id a Ha). cbn [or_throw ret].
  by destruct (GetAuthorizationByID_run id a w Hok Ha) as [-> _].
Qed.

Lemma DeleteAuthorization_run id a w :
  auth_ok (w_kv w) -> auths (w_kv w) !! id = Some a ->
  DeleteAuthorization id w =
    (Ok tt, MkWorld (set_auths (delete id) (set_authIndex (delete (a_Token a)) (w_kv w))) (w_calls w)) /\
  auth_ok (set_auths (delete id) (set_authIndex (delete (a_Token a)) (w_kv w))).
Proof.
  intros Hok Ha. destruct (GetAuthorizationByID_run id a w Hok Ha) as [Hg Hv]. split.
  - apply Update_run. unfold store_DeleteAuthorization, deferred, bind. by rewrite Hg, encode_ID_valid by done.
  - destruct Hok as [Hk Hix]. split; kvs; [by apply map_Forall_delete|by apply indexed_delete].
Qed.

Lemma add_auth_delete id a s :
  auths s !! id = None -> authIndex s !! a_Token a = None ->
  set_auths (delete id) (set_authIndex (delete (a_Token a)) (add_auth id a s)) = s.
Proof. intros H1 H2. unfold add_auth. apply kv_eta; kvs; try done; by apply delete_insert_id. Qed.

(** C29. A created authorization belongs to an existing user and an existing
    organization and grants nothing outside it.  Either it is stored, under an
    identifier and a token nobody had, and its token then resolves to it until
    it is deleted, which restores the store; or nothing is stored, although
    the call reports success, and then the identifiers the generator yielded
    in one hundred attempts were all reserved or taken. *)
Theorem CreateAuthorization_outcome a w a' w' :
  auth_ok (w_kv w) -> CreateAuthorization a w = (Ok a', w') ->
  is_Some (users (w_kv w) !! a_UserID a') /\ is_Some (orgs (w_kv w) !! a_OrgID a') /\
  a_Permissions a' = a_Permissions a /\ Authorization_Valid a' = None /\
  (no_identifier w /\ w_kv w' = w_kv w \/
   auths (w_kv w) !! a_ID a' = None /\ authIndex (w_kv w) !! a_Token a' = None /\ auth_ok (w_kv w') /\
   FindAuthorizationByToken (a_Token a') w' = (Ok a', w') /\
   DeleteAuthorization (a_ID a') w' = (Ok tt, MkWorld (w_kv w) (w_calls w'))).
Proof.
  intros Hok H. apply CreateAuthorization_Ok in H as (Hu & Ho & Hv & t & _ & [(Hno & -> & E)|(id & st & Hid & Hf & Ht & Hst & -> & E)]).
  - split_and!; try done. by left.
  - split_and!; try done. right. set (a' := with_status st (with_id id (with_token t a))) in *.
    assert (Hok' : auth_ok (w_kv w')) by (rewrite E; by apply add_auth_ok).
    assert (Ha : auths (w_kv w') !! id = Some a') by (rewrite E; unfold add_auth; kvs; by rewrite lookup_insert_eq).
    split_and!; [done|done|done|by apply (FindAuthorizationByToken_run id)|].
    change (a_ID a') with id. destruct (DeleteAuthorization_run id a' w' Hok' Ha) as [-> _]. rewrite E. by rewrite add_auth_delete.
Qed.
End Service.

(** ** Concrete runs *)

Definition sample_tokens (n : nat) : string + error := inl "t0ken".
Definition sample_auth : Authorization :=
  MkAuthorization 0 "" "" "a token" 8192 4096 [MkPermission ReadAction (MkResource BucketsResourceType None (Some 8192))].

Lemma sample_auth_ok : auth_ok (w_kv sample_world).
Proof.
  assert (E1 : auths (w_kv sample_world) = ∅) by (vm_compute; reflexivity).
  assert (E2 : authIndex (w_kv sample_world) = ∅) by (vm_compute; reflexivity).
  split; rewrite E1; [apply map_Forall_empty|]. rewrite E2. split; intros ?? H; by rewrite lookup_empty in H.
Qed.

Abbreviation sample_run := (CreateAuthorization sample_ids sample_tokens sample_auth sample_world).
Definition sample_created : Authorization :=
  MkAuthorization 32768 "t0ken" Active "a token" 8192 4096 (a_Permissions sample_auth).

Lemma pair_Ok {A} (p : result A * world) a : p.1 = Ok a -> p = (Ok a, p.2).
Proof. destruct p. cbn. by intros ->. Qed.

Lemma sample_run_fst : sample_run.1 = Ok sample_created.
Proof. vm_compute. reflexivity. Qed.

Lemma sample_stored : auths (w_kv sample_run.2) !! 32768 = Some sample_created.
Proof. vm_compute. reflexivity. Qed.

Lemma sample_before : auths (w_kv sample_world) !! 32768 = None.
Proof. vm_compute. reflexivity. Qed.

Lemma sample_run_eq :
  CreateAuthorization sample_ids sample_tokens sample_auth sample_world = (Ok sample_created, sample_run.2).
Proof. exact (pair_Ok sample_run _ sample_run_fst). Qed.

Lemma CreateAuthorization_outcome_witness :
  FindAuthorizationByToken (a_Token sample_created) sample_run.2 = (Ok sample_created, sample_run.2).
Proof.
  destruct (CreateAuthorization_outcome sample_ids sample_tokens sample_auth sample_world sample_created sample_run.2
    sample_auth_ok sample_run_eq) as (_ & _ & _ & _ & [[_ Hn]|(_ & _ & _ & Hs & _)]); [|exact Hs].
  pose proof sample_stored as H. rewrite Hn, sample_before in H. discriminate H.
Defined.

(** With a generator that only yields reserved identifiers the call succeeds
    and stores nothing. *)
Example CreateAuthorization_unreported_failure :
  match CreateAuthorization (fun _ _ => 1) sample_tokens sample_auth sample_world with
  | (Ok _, w') => bool_decide (auths (w_kv w') = ∅)
  | _ => false
  end = true.
Proof. vm_compute. reflexivity. Qed.
End AuthSvc.
