(* ===== verification/TempDB.v ===== *)
(** * Temporary databases

    Models [noSQL_module/tempdb.go]: [CreateTempDB] creates an organization, a
    user with a random password, a membership and a token over the tenant and
    authorization services, undoes its work when a step fails, and leaves
    behind a goroutine that removes everything after ten minutes.  The
    goroutine is the second component of the result.  The passwords service is
    an interface, which [Passwords] implements.  The theorems state that
    failure and expiry restore the store, and what the token grants. *)
From S2P Require Import Prelude Platform Authz Tenant TenantSvc Passwords AuthSvc.
From stdpp Require Import gmap.
From Stdlib Require Ascii String.
#[global] Open Scope Z_scope.

(** What [CreateTempDB] uses of [influxdb.PasswordsService]: setting the
    password of an existing user stores some hash, or fails and changes
    nothing. *)
Class PasswordsService := set_password : PlatformID.ID -> Tenant.text -> Tenant.M unit.
Class PasswordsServiceOk `{PasswordsService} : Prop := set_password_spec : forall id p w,
  let '(r, w') := set_password id p w in
  Tenant.w_calls w' = Tenant.w_calls w /\
  match r with
  | Tenant.Ok _ => is_Some (Tenant.users (Tenant.w_kv w) !! id) /\
      exists h, Tenant.w_kv w' = Tenant.set_passwords (insert id h) (Tenant.w_kv w)
  | Tenant.Err _ => Tenant.w_kv w' = Tenant.w_kv w
  end.

Module TempDB.
Import Errors Authz Tenant TenantSvc AuthSvc.
Local Open Scope tenant_scope.

(** ** Names and passwords *)

(** [%d] of a non-negative number; an [int64] has at most 19 digits. *)
Fixpoint decimal_loop (fuel : nat) (n : Z) (acc : text) : text :=
  match fuel with
  | O => acc
  | S f => let acc := 48 + n mod 10 :: acc in if n <? 10 then acc else decimal_loop f (n / 10) acc
  end.
Definition decimal (n : Z) : text := decimal_loop 20 n [].

Definition b64_char (d : Z) : Z :=
  if d <? 26 then 65 + d else if d <? 52 then 71 + d else if d <? 62 then d - 4 else if d =? 62 then 45 else 95.

(** [base64.RawURLEncoding.EncodeToString]. *)
Fixpoint b64 (bs : list Z) : text :=
  match bs with
  | a :: b :: c :: bs =>
    b64_char (a / 4) :: b64_char (a mod 4 * 16 + b / 16) :: b64_char (b mod 16 * 4 + c / 64) :: b64_char (c mod 64) :: b64 bs
  | [a; b] => [b64_char (a / 4); b64_char (a mod 4 * 16 + b / 16); b64_char (b mod 16 * 4)]
  | [a] => [b64_char (a / 4); b64_char (a mod 4 * 16)]
  | [] => []
  end.

Definition to_string (t : text) : string := String.string_of_list_ascii ((fun c => Ascii.ascii_of_N (Z.to_N c)) <$> t).

(** [rand_Read]: the bytes [crypto/rand] delivers. *)
Definition generateRandomString (rand_Read : nat -> list Z + error) (n : nat) : text + error :=
  match rand_Read n with
  | inl b => inl (take n (b64 b))
  | inr e => inr e
  end.

(** ** Creating and expiring *)

Record TempDBResponse := MkResponse {
  r_OrgID : ID;
  r_OrgName : text;
  r_UserName : text;
  r_Password : text;
  r_Token : string;
  r_ExpiresAt : Z }.

Definition temp_permissions (orgID : ID) : list Permission := [
  MkPermission ReadAction (MkResource OrgsResourceType (Some orgID) None);
  MkPermission WriteAction (MkResource OrgsResourceType (Some orgID) None);
  MkPermission ReadAction (MkResource BucketsResourceType None (Some orgID));
  MkPermission WriteAction (MkResource BucketsResourceType None (Some orgID)) ].

(** A call whose error is dropped. *)
Definition ignore {A} (m : M A) : M unit := do_ try m; ret tt.

Definition Minute : Z := 60000000000.

Section Service.
Context (ids : gen -> nat -> ID) (tokens : nat -> string + error) {PS : PasswordsService}.

(** The calls of the goroutine, after its sleep of ten minutes: it runs on the
    store of that time, which other calls may have changed.  It uses the
    context of the request, which has ended by then; the services and stores
    take it for tracing only, so it has no part here.
    [DeleteUserResourceMapping] takes the resource first, and is given the
    user. *)
Definition expire (authID userID orgID : ID) : M unit :=
  do_ ignore (DeleteAuthorization authID);
  do_ ignore (DeleteUserResourceMapping userID orgID);
  do_ ignore (UserSvc_DeleteUser userID);
  ignore (DeleteOrganization orgID).

(** [userID]: the user of the context; [t1], [t2], [t3]: the readings of the
    clock. *)
Definition CreateTempDB (userID : option ID) (t1 t2 t3 : Z) (rand_Read : nat -> list Z + error)
    : M (TempDBResponse * M unit) :=
  let orgName := bytes "temp_org_" ++ decimal t1 in
  let userName := bytes "temp_user_" ++ decimal t2 in
  match generateRandomString rand_Read 10 with
  | inr e => throw (Wrap EInternal "failed to generate password" e)
  | inl password =>
    do r <- try (CreateOrganization ids userID (MkOrg 0 orgName []));
    match r with
    | Err e => throw (Wrap EInternal "failed to create temporary organization" e)
    | Ok org =>
      do r <- try (UserSvc_CreateUser ids (MkUser 0 userName [] ""));
      match r with
      | Err e =>
        do_ ignore (DeleteOrganization (o_ID org));
        throw (Wrap EInternal "failed to create temporary user" e)
      | Ok user =>
        do r <- try (set_password (u_ID user) password);
        match r with
        | Err e =>
          do_ ignore (UserSvc_DeleteUser (u_ID user));
          do_ ignore (DeleteOrganization (o_ID org));
          throw (Wrap EInternal "failed to set password for user" e)
        | Ok _ =>
          do r <- try (CreateUserResourceMapping
                         (MkURM (u_ID user) Member UserMappingType OrgsResourceType (o_ID org)));
          match r with
          | Err e =>
            do_ ignore (UserSvc_DeleteUser (u_ID user));
            do_ ignore (DeleteOrganization (o_ID org));
            throw (Wrap EInternal "failed to add user as member of organization" e)
          | Ok _ =>
            do r <- try (CreateAuthorization ids tokens
                           (MkAuthorization 0 "" "" (String.append "Temporary admin token for " (to_string orgName)) (o_ID org) (u_ID user) (temp_permissions (o_ID org))));
            match r with
            | Err e =>
              do_ ignore (DeleteUserResourceMapping (u_ID user) (o_ID org));
              do_ ignore (UserSvc_DeleteUser (u_ID user));
              do_ ignore (DeleteOrganization (o_ID org));
              throw (Wrap EInternal "failed to create temporary authorization" e)
            | Ok auth =>
              ret (MkResponse (o_ID org) orgName userName password (a_Token auth) (t3 + 10 * Minute),
                   expire (a_ID auth) (u_ID user) (o_ID org))
            end
          end
        end
      end
    end
  end.

(** [TempDBHandler.ServeHTTP]: the response it encodes, or the error it hands
    to the error handler. *)
Definition ServeHTTP (method : string) (userID : option ID) (t1 t2 t3 : Z) (rand_Read : nat -> list Z + error)
    : M (TempDBResponse * M unit) :=
  if bool_decide (method <> "GET"%string) then throw (Platform EInvalid "method not allowed")
  else CreateTempDB userID t1 t2 t3 rand_Read.

(** ** The names *)

Lemma decimal_loop_app f n acc : exists l, decimal_loop f n acc = l ++ acc.
Proof.
  revert n acc. induction f as [|f IH]; intros n acc; cbn [decimal_loop]; [by exists []|].
  destruct (n <? 10); [by exists [48 + n mod 10]|]. destruct (IH (n / 10) (48 + n mod 10 :: acc)) as [l ->].
  exists (l ++ [48 + n mod 10]). by rewrite <- app_assoc.
Qed.

Lemma decimal_last n : exists l, decimal n = l ++ [48 + n mod 10].
Proof.
  unfold decimal. change (decimal_loop 20 n []) with (if n <? 10 then [48 + n mod 10] else decimal_loop 19 (n / 10) [48 + n mod 10]).
  destruct (n <? 10); [by exists []|]. apply decimal_loop_app.
Qed.

Lemma trim_left_first ws f c s :
  Forall (fun w => match w with [] => False | b :: _ => b <> c end) ws -> trim_left ws f (c :: s) = c :: s.
Proof.
  intros H. destruct f; [done|]. cbn [trim_left].
  replace (List.find (fun w => starts w (c :: s)) ws) with (@None (list Z)); [done|].
  induction H as [|w ws Hw _ IH]; [done|]. cbn [List.find]. destruct w as [|b w]; [done|]. cbn [starts].
  destruct (Z.eqb_spec b c); [done|]. exact IH.
Qed.

(** A text that starts with a letter and ends with a digit has nothing to
    trim. *)
Lemma TrimSpace_id c s d :
  (97 <= c <= 122) -> (48 <= d <= 57) -> TrimSpace (c :: s ++ [d]) = c :: s ++ [d].
Proof.
  intros Hc Hd. unfold TrimSpace. rewrite (trim_left_first white) by (unfold white; repeat constructor; lia).
  assert (E : reverse (c :: s ++ [d]) = d :: reverse (c :: s)).
  { change (c :: s ++ [d]) with ((c :: s) ++ [d]). by rewrite reverse_app. }
  rewrite E, trim_left_first; [by rewrite <- E, reverse_involutive|]. cbn. repeat constructor; lia.
Qed.

Lemma temp_name_trimmed c s n :
  (97 <= c <= 122) -> TrimSpace ((c :: s) ++ decimal n) = (c :: s) ++ decimal n.
Proof.
  intros Hc. destruct (decimal_last n) as [l ->]. cbn [app]. rewrite app_assoc. apply TrimSpace_id; [done|].
  pose proof (Z.mod_pos_bound n 10). lia.
Qed.

(** ** Undoing the creation of an organization *)

Definition add_org (oid : ID) (o : Organization) (s : kv) : kv :=
  set_orgs (insert oid o) (set_orgIndex (insert (TrimSpace (o_Name o)) oid) s).
Definition add_bucket (id : ID) (b : Bucket) (s : kv) : kv :=
  set_buckets (insert id b) (set_bucketIndex (insert (bucket_key b) id) s).
Definition add_urm (m : UserResourceMapping) (s : kv) : kv :=
  set_urmByUser (insert (urm_key m) (m_ResourceID m, m_UserID m)) (set_urms (insert (m_ResourceID m, m_UserID m) m) s).
Definition add_urms (ms : list UserResourceMapping) (s : kv) : kv := fold_right add_urm s ms.

Definition unmapped (s : kv) (r : ID) : Prop := forall u, urms s !! (r, u) = None.

Lemma add_urms_rest ms s :
  let s' := add_urms ms s in
  orgs s' = orgs s /\ orgIndex s' = orgIndex s /\ users s' = users s /\ userIndex s' = userIndex s /\
  passwords s' = passwords s /\ buckets s' = buckets s /\ bucketIndex s' = bucketIndex s /\ auths s' = auths s /\
  authIndex s' = authIndex s.
Proof. cbv zeta. induction ms as [|m ms IH]; cbn [add_urms fold_right]; [done|]. exact IH. Qed.

Lemma add_urms_eq ms s T :
  urms s = urms T -> urmByUser s = urmByUser T ->
  urms (add_urms ms s) = urms (add_urms ms T) /\ urmByUser (add_urms ms s) = urmByUser (add_urms ms T).
Proof.
  intros E1 E2. induction ms as [|m ms [IH1 IH2]]; cbn [add_urms fold_right]; [done|]. unfold add_urm at 1 3 5 7. kvs.
  unfold add_urms in IH1, IH2. by rewrite IH1, IH2.
Qed.

(** Filtering mappings that all go away leaves the old ones. *)
Lemma add_urms_filter (P : ID -> ID -> Prop) `{forall e : ID * ID * UserResourceMapping, Decision (P e.1.1 e.1.2)}
    `{forall e : ID * (ID * ID) * (ID * ID), Decision (P e.1.2.1 e.1.1)} ms s :
  tenant_ok s -> Forall (fun m => ~ P (m_ResourceID m) (m_UserID m)) ms ->
  map_Forall (fun k _ => P k.1 k.2) (urms s) ->
  filter (fun e => P e.1.1 e.1.2) (urms (add_urms ms s)) = urms s /\
  filter (fun e => P e.1.2.1 e.1.1) (urmByUser (add_urms ms s)) = urmByUser s.
Proof.
  intros Hok Hms Hs. induction Hms as [|m ms Hm _ [IH1 IH2]]; cbn [add_urms fold_right].
  - split; apply map_filter_id; intros k v Hk; [by apply (Hs k v)|].
    destruct (ix_to _ _ _ (ok_urmIndex s Hok) _ _ Hk) as (m & Hv & <-). specialize (Hs v m Hv).
    destruct (ok_urms s Hok v m Hv) as [-> _]. done.
  - unfold add_urm at 1 3. kvs. rewrite !map_filter_insert_False by done.
    unfold add_urms in *. rewrite !map_filter_delete, IH1, IH2. split.
    + apply delete_id. apply eq_None_not_Some. intros [x Hx]. by apply (Hs _ x) in Hx.
    + apply delete_id. apply eq_None_not_Some. intros [x Hx].
      destruct (ix_to _ _ _ (ok_urmIndex s Hok) _ _ Hx) as (m' & Hv & Ek). injection Ek as E1 E2.
      specialize (Hs x m' Hv). destruct (ok_urms s Hok x m' Hv) as [-> _]. cbn in Hs. rewrite E1, E2 in Hs. done.
Qed.

(** Deleting an organization right after its creation, with its two buckets
    and any mappings to it, restores the store. *)
Lemma forget_new_org oid o i1 b1 i2 b2 ms s :
  tenant_ok s -> orgs s !! oid = None -> orgIndex s !! o_Name o = None -> TrimSpace (o_Name o) = o_Name o ->
  buckets s !! i1 = None -> <[i1 := b1]> (buckets s) !! i2 = None -> b_OrgID b1 = oid -> b_OrgID b2 = oid ->
  unmapped s oid -> unmapped s i1 -> unmapped s i2 -> Forall (fun m => m_ResourceID m = oid) ms ->
  forget_org oid (o_Name o) (add_urms ms (add_bucket i2 b2 (add_bucket i1 b1 (add_org oid o s)))) = s.
Proof.
  intros Hok Ho Hn Ht H1 H2 E1 E2 Hu0 Hu1 Hu2 Hms.
  set (T := add_bucket i2 b2 (add_bucket i1 b1 (add_org oid o s))).
  pose proof (add_urms_rest ms T) as (R1 & R2 & R3 & R4 & R5 & R6 & R7 & R8 & R9).
  assert (Hnb : forall k b, buckets s !! k = Some b -> b_OrgID b <> oid).
  { intros k b Hb E. destruct (ok_buckets s Hok k b Hb) as (_ & _ & [x Hx]). congruence. }
  assert (Hni : forall n, bucketIndex s !! (oid, n) = None).
  { intros n. apply eq_None_not_Some. intros [k Hk]. destruct (ix_to _ _ _ (ok_bucketIndex s Hok) _ _ Hk) as (b & Hb & Eb).
    injection Eb as Eb _. by apply (Hnb k b). }
  assert (Hbel : forall r, r <> oid -> r <> i1 -> r <> i2 -> belongs (add_urms ms T) oid r = false).
  { intros r N0 N1 N2. unfold belongs. apply Z.eqb_neq in N0 as ->. rewrite R6. unfold T, add_bucket, add_org. kvs.
    rewrite !lookup_insert_ne by done. destruct (buckets s !! r) as [b|] eqn:E; [|done]. apply Z.eqb_neq. by apply (Hnb r). }
  assert (Hboid : belongs (add_urms ms T) oid oid = true) by (unfold belongs; by rewrite Z.eqb_refl).
  assert (HokT : forall k m, urms s !! k = Some m -> belongs (add_urms ms T) oid k.1 = false).
  { intros [r u] m Hk. apply Hbel; intros E; cbn in E; subst r; [by rewrite (Hu0 u) in Hk|by rewrite (Hu1 u) in Hk|by rewrite (Hu2 u) in Hk]. }
  assert (Hf : filter (fun e => belongs (add_urms ms T) oid e.1.1 = false) (urms (add_urms ms T)) = urms s /\
               filter (fun e => belongs (add_urms ms T) oid e.1.2.1 = false) (urmByUser (add_urms ms T)) = urmByUser s).
  { generalize dependent (belongs (add_urms ms T) oid). intros bel Hbel Hboid HokT.
    destruct (add_urms_eq ms T s eq_refl eq_refl) as [-> ->]. apply (add_urms_filter (fun r u => bel r = false)); [done| |done].
    eapply Forall_impl; [exact Hms|]. cbn. intros m ->. by rewrite Hboid. }
  destruct Hf as [Hf1 Hf2]. unfold forget_org. apply kv_eta; cbn [orgs orgIndex users userIndex passwords urms urmByUser buckets bucketIndex auths authIndex];
    rewrite ?R1, ?R2, ?R3, ?R4, ?R5, ?R6, ?R7, ?R8, ?R9; try done; unfold T, add_bucket, add_org; kvs.
  - by apply delete_insert_id.
  - rewrite Ht. by apply delete_insert_id.
  - rewrite !map_filter_insert_False by (cbn; by intros []). rewrite map_filter_delete, map_filter_insert_False by (cbn; by intros []).
    rewrite map_filter_delete, map_filter_id by (intros k b Hb; by apply (Hnb k b)).
    rewrite (delete_id (buckets s) i1) by done. apply delete_id. by apply lookup_insert_None in H2 as [? _].
  - unfold bucket_key. rewrite !map_filter_insert_False by (cbn; by intros []). rewrite map_filter_delete, map_filter_insert_False by (cbn; by intros []).
    rewrite map_filter_delete, map_filter_id.
    + rewrite E1, E2, (delete_id (bucketIndex s)) by done. by apply delete_id.
    + intros [o' n] k Hk E. cbn in E. subst o'. by rewrite Hni in Hk.
Qed.

(** ** Undoing the creation of a user *)

Definition add_user (uid : ID) (u : User) (s : kv) : kv :=
  set_users (insert uid u) (set_userIndex (insert (u_Name u) uid) s).
Definition add_password (uid : ID) (pw : option text) (s : kv) : kv :=
  match pw with Some h => set_passwords (insert uid h) s | None => s end.

Lemma forget_new_user uid u pw ms T :
  tenant_ok T -> users T !! uid = None -> userIndex T !! u_Name u = None -> Forall (fun m => m_UserID m = uid) ms ->
  forget_user uid (u_Name u) (add_urms ms (add_password uid pw (add_user uid u T))) = T.
Proof.
  intros Hok Hu Hn Hms. set (S' := add_password uid pw (add_user uid u T)).
  pose proof (add_urms_rest ms S') as (R1 & R2 & R3 & R4 & R5 & R6 & R7 & R8 & R9).
  assert (EU : urms S' = urms T /\ urmByUser S' = urmByUser T) by (unfold S', add_password; by destruct pw).
  destruct (add_urms_eq ms S' T (proj1 EU) (proj2 EU)) as [U1 U2].
  assert (Hf : filter (fun e => e.1.2 <> uid) (urms (add_urms ms S')) = urms T /\
               filter (fun e => e.1.1 <> uid) (urmByUser (add_urms ms S')) = urmByUser T).
  { rewrite U1, U2. apply (add_urms_filter (fun r u => u <> uid)); [done| |].
    - eapply Forall_impl; [exact Hms|]. cbn. intros m ->. auto.
    - intros k m Hk. destruct (ok_urms T Hok k m Hk) as (_ & _ & _ & [x Hx]). congruence. }
  destruct Hf as [Hf1 Hf2]. unfold forget_user.
  assert (Hp : passwords T !! uid = None).
  { apply eq_None_not_Some. intros [h Hh]. destruct (ok_passwords T Hok uid h Hh). congruence. }
  apply kv_eta; cbn [orgs orgIndex users userIndex passwords urms urmByUser buckets bucketIndex auths authIndex];
    rewrite ?R1, ?R2, ?R3, ?R4, ?R5, ?R6, ?R7, ?R8, ?R9; try done; unfold S', add_password, add_user; destruct pw; kvs; try done.
  all: rewrite ?delete_insert_eq; by apply delete_id.
Qed.

(** ** Identifiers still to come *)

(** An identifier that a generator has not yielded before the world [w]. *)
Definition issued (w : world) (id : ID) : Prop := exists g n, (w_calls w g <= n)%nat /\ id = ids g n.
Definition calls_le (w w' : world) : Prop := forall g, (w_calls w g <= w_calls w' g)%nat.

Lemma issued_le w w' id : calls_le w w' -> issued w' id -> issued w id.
Proof. intros Hle (g & n & Hn & ->). exists g, n. split; [|done]. specialize (Hle g). lia. Qed.

Lemma calls_le_eq w w' w'' : calls_le w w' -> w_calls w'' = w_calls w' -> calls_le w w''.
Proof. intros Hle E g. by rewrite E. Qed.

Lemma calls_le_trans w1 w2 w3 : calls_le w1 w2 -> calls_le w2 w3 -> calls_le w1 w3.
Proof. intros H1 H2 g. specialize (H1 g). specialize (H2 g). lia. Qed.

Lemma next_ID_issued g w id w' : next_ID ids g w = (Ok id, w') -> issued w id /\ calls_le w w'.
Proof.
  intros H. injection H as <- <-. split; [by exists g, (w_calls w g)|]. intros h. cbn. case_bool_decide; lia.
Qed.

Lemma generate_issued n used g w id w' :
  generate_loop ids n used g w = (Ok id, w') -> issued w id /\ calls_le w w'.
Proof.
  revert w. induction n as [|n IH]; intros w H; cbn [generate_loop] in H; [done|].
  apply bind_Ok in H as (i & w1 & Hn & H). apply next_ID_issued in Hn as [Hi Hle].
  apply bind_Ok in H as (r & w2 & Hu & H). apply try_Ok, uniqueID_run in Hu as [-> _].
  destruct r as [y|e]; [by injection H as <- <-|]. case_bool_decide; [|done]. apply IH in H as [Hi' Hle'].
  split; [by apply (issued_le w w1)|by apply (calls_le_trans w w1)].
Qed.

Lemma CreateOrg_issued o w o' w' : CreateOrg ids o w = (Ok o', w') -> issued w (o_ID o') /\ calls_le w w'.
Proof.
  intros H. apply deferred_Ok, bind_Ok in H as (id & w1 & Hg & H). apply generate_issued in Hg as [Hi Hle].
  cbn [o_Name o_Description] in H. apply bind_Ok in H as (id' & w2 & He & H). apply encode_ID_Ok in He as (-> & -> & _).
  apply bind_Ok in H as (x & w3 & Hn & H). apply uniqueOrgName_Ok in Hn as (-> & _).
  injection H as <- <-. done.
Qed.

Lemma CreateBucket_issued b w b' w' : CreateBucket ids b w = (Ok b', w') -> issued w (b_ID b') /\ calls_le w w'.
Proof.
  intros H. apply deferred_Ok, bind_Ok in H as (id & w1 & Hg & H). apply generate_issued in Hg as [Hi Hle].
  cbn [b_OrgID b_Name] in H. apply bind_Ok in H as (id' & w2 & He & H). apply encode_ID_Ok in He as (-> & -> & _).
  apply bind_Ok in H as (x & w3 & Hn & H). apply uniqueBucketName_run in Hn as [-> _].
  apply bind_Ok in H as (k & w4 & Hk & H). apply bucketIndexKey_Ok in Hk as (-> & _). injection H as <- <-. done.
Qed.

Lemma CreateUser_issued u w u' w' :
  PlatformID.Valid (u_ID u) = false -> CreateUser ids u w = (Ok u', w') -> issued w (u_ID u').
Proof.
  intros Hv H. apply deferred_Ok, bind_Ok in H as (id & w1 & Hg & H). rewrite Hv in Hg. apply next_ID_issued in Hg as [Hi _].
  apply bind_Ok in H as (id' & w2 & He & H). apply encode_ID_Ok in He as (-> & -> & _).
  apply bind_Ok in H as (x & w3 & Hn & H). apply uniqueUserName_Ok in Hn as (-> & _).
  apply bind_Ok in H as (y & w4 & Hn & H). apply uniqueUserID_Ok in Hn as (-> & _). injection H as <- <-. done.
Qed.

Lemma CreateURM_calls m w x w' : CreateURM m w = (Ok x, w') -> w_calls w' = w_calls w.
Proof.
  intros H. apply bind_Ok in H as (u & w1 & H1 & H). apply GetUser_Ok in H1 as (-> & _).
  apply bind_Ok in H as (y & w2 & H2 & H). assert (w2 = w) as ->.
  { apply bind_Ok in H2 as (k & w3 & H3 & H2). apply userResourceKey_Ok in H3 as (-> & _).
    unfold bind, get in H2. destruct (urms _ !! _); [done|]. by injection H2 as _ <-. }
  apply bind_Ok in H as (k & w3 & H3 & H). apply userResourceKey_Ok in H3 as (-> & _).
  apply bind_Ok in H as (z & w4 & H3 & H). injection H3 as _ <-.
  apply bind_Ok in H as (i & w5 & H3 & H). apply encode_ID_Ok in H3 as (_ & -> & _). by injection H as _ <-.
Qed.

(** ** What creating an organization does *)

Lemma Update_Ok {A} (m : M A) w a w' : Update m w = (Ok a, w') -> m w = (Ok a, w').
Proof. unfold Update. by destruct (m w) as [[x|e] w1]. Qed.

Lemma BucketSvc_CreateBucket_Ok b w b' w' :
  BucketSvc_CreateBucket ids b w = (Ok b', w') ->
  exists id, b' = with_ID id b /\ issued w id /\ calls_le w w' /\ buckets (w_kv w) !! id = None /\
    w_kv w' = add_bucket id b' (w_kv w).
Proof.
  unfold BucketSvc_CreateBucket. destruct (negb _); [done|]. destruct (validBucketName _ _); [done|].
  intros H. apply bind_Ok in H as (o & w1 & H1 & H). unfold FindOrganizationByID, View in H1.
  destruct (GetOrg (b_OrgID b) w) as [r w2] eqn:E. injection H1 as -> <-. apply GetOrg_Ok in E as (-> & _).
  apply Update_Ok in H. pose proof (CreateBucket_issued _ _ _ _ H) as [Hi Hle].
  apply CreateBucket_Ok in H as (id & -> & _ & _ & Hf & _ & E). exists id. split_and!; done.
Qed.

(** The stores that differ from [s] by one new organization. *)
Definition new_org (s : kv) (oid : ID) (o : Organization) (T : kv) : Prop :=
  exists i1 b1 i2 b2 ms, T = add_urms ms (add_bucket i2 b2 (add_bucket i1 b1 (add_org oid o s))) /\
    orgs s !! oid = None /\ orgIndex s !! o_Name o = None /\ TrimSpace (o_Name o) = o_Name o /\
    buckets s !! i1 = None /\ <[i1 := b1]> (buckets s) !! i2 = None /\ b_OrgID b1 = oid /\ b_OrgID b2 = oid /\
    unmapped s oid /\ unmapped s i1 /\ unmapped s i2 /\
    Forall (fun m => m_ResourceID m = oid /\ is_Some (users s !! m_UserID m)) ms.

Lemma CreateOrganization_Ok uid o w o' w' :
  tenant_ok (w_kv w) -> (forall id, issued w id -> unmapped (w_kv w) id) -> TrimSpace (o_Name o) = o_Name o ->
  CreateOrganization ids uid o w = (Ok o', w') ->
  new_org (w_kv w) (o_ID o') o' (w_kv w') /\ calls_le w w' /\ orgs (w_kv w') !! o_ID o' = Some o'.
Proof.
  intros Hok Hfresh Ht H. apply bind_Ok in H as (o1 & w1 & H1 & H). apply Update_Ok in H1.
  pose proof (CreateOrg_issued _ _ _ _ H1) as [Hi0 Hle0]. apply CreateOrg_Ok in H1 as (oid & -> & _ & Ho & Hn & E0).
  cbn [o_ID] in *. apply bind_Ok in H as (b1 & w2 & H2 & H). apply BucketSvc_CreateBucket_Ok in H2 as (i1 & -> & Hi1 & Hle1 & Hf1 & E1).
  apply bind_Ok in H as (b2 & w3 & H3 & H). apply BucketSvc_CreateBucket_Ok in H3 as (i2 & -> & Hi2 & Hle2 & Hf2 & E2).
  set (b1 := with_ID i1 _) in *. set (b2 := with_ID i2 _) in *. set (o1 := MkOrg oid _ _) in *.
  apply bind_Ok in H as (x & w4 & H4 & H). injection H as <- <-. rewrite Ht in *.
  assert (Hms : exists ms, w_kv w4 = add_urms ms (w_kv w3) /\ w_calls w4 = w_calls w3 /\
    Forall (fun m => m_ResourceID m = oid /\ is_Some (users (w_kv w3) !! m_UserID m)) ms).
  { destruct uid as [uid|]; [|injection H4 as _ <-; by exists []]. destruct (PlatformID.Valid uid); [|injection H4 as _ <-; by exists []].
    apply Update_Ok in H4. pose proof (CreateURM_calls _ _ _ _ H4) as Hc. apply CreateURM_Ok in H4 as (Hs & _ & _ & _ & E4).
    exists [MkURM uid Owner UserMappingType OrgsResourceType oid]. split_and!; [exact E4|done|]. by constructor. }
  destruct Hms as (ms & E3 & Hc & Hms). rewrite E1, E0 in E2. rewrite E2 in E3, Hms. rewrite E1, E0 in Hf2. rewrite E0 in Hf1.
  pose proof (issued_le _ _ _ Hle0 Hi1). pose proof (issued_le _ _ _ (calls_le_trans _ _ _ Hle0 Hle1) Hi2).
  assert (ET : w_kv w4 = add_urms ms (add_bucket i2 b2 (add_bucket i1 b1 (add_org oid o1 (w_kv w))))).
  { rewrite E3. unfold add_org. cbn [o1 o_Name]. by rewrite Ht. }
  split_and!.
  - exists i1, b1, i2, b2, ms. split_and!; try done; auto.
  - eapply calls_le_eq; [|exact Hc]. eauto using calls_le_trans.
  - rewrite ET. destruct (add_urms_rest ms (add_bucket i2 b2 (add_bucket i1 b1 (add_org oid o1 (w_kv w))))) as [-> _].
    unfold add_bucket, add_org. kvs. by rewrite lookup_insert_eq.
Qed.

(** ** Removing what was created *)

Lemma new_org_users s oid o T : new_org s oid o T -> users T = users s.
Proof.
  intros (i1 & b1 & i2 & b2 & ms & -> & _).
  by destruct (add_urms_rest ms (add_bucket i2 b2 (add_bucket i1 b1 (add_org oid o s)))) as (_ & _ & -> & _).
Qed.

Lemma DeleteOrganization_restores s oid o w :
  tenant_ok s -> tenant_ok (w_kv w) -> new_org s oid o (w_kv w) -> orgs (w_kv w) !! oid = Some o ->
  exists w', ignore (DeleteOrganization oid) w = (Ok tt, w') /\ w_kv w' = s.
Proof.
  intros Hs Hok Hnew Ho. destruct (DeleteOrganization_run oid o w Hok Ho) as [Hd _].
  exists (MkWorld (forget_org oid (o_Name o) (w_kv w)) (w_calls w)). split.
  - unfold ignore, bind, try. by rewrite Hd.
  - cbn [w_kv]. destruct Hnew as (i1 & b1 & i2 & b2 & ms & -> & Hc). destruct_and! Hc. apply forget_new_org; try done.
    eapply Forall_impl; [eassumption|]. by intros m [? _].
Qed.

(** The stores that differ from [T] by what belongs to the user [u]. *)
Definition new_user (T : kv) (uid : ID) (u : User) (S' : kv) : Prop :=
  users S' !! uid = Some u /\ forget_user uid (u_Name u) S' = T.

Lemma new_user_intro T uid u pw ms :
  tenant_ok T -> users T !! uid = None -> userIndex T !! u_Name u = None -> Forall (fun m => m_UserID m = uid) ms ->
  new_user T uid u (add_urms ms (add_password uid pw (add_user uid u T))).
Proof.
  intros HT Hf Hn Hms. split; [|by apply forget_new_user].
  destruct (add_urms_rest ms (add_password uid pw (add_user uid u T))) as (_ & _ & -> & _).
  unfold add_password, add_user. destruct pw; kvs; by rewrite lookup_insert_eq.
Qed.

Lemma UserSvc_DeleteUser_restores T uid u w :
  tenant_ok (w_kv w) -> new_user T uid u (w_kv w) ->
  exists w', ignore (UserSvc_DeleteUser uid) w = (Ok tt, w') /\ w_kv w' = T.
Proof.
  intros Hok [Hu HT]. destruct (GetUser_run uid u w Hok Hu) as [_ Hv].
  set (w1 := MkWorld (set_passwords (delete uid) (w_kv w)) (w_calls w)).
  assert (Hp : DeletePassword uid w = (Ok tt, w1)) by (unfold DeletePassword, bind; by rewrite encode_ID_valid by done).
  pose proof (DeletePassword_ok _ _ _ _ Hok Hp) as Hok1.
  exists (MkWorld (forget_user uid (u_Name u) (w_kv w1)) (w_calls w)). split.
  - unfold ignore, bind at 1, try, UserSvc_DeleteUser, Update, bind at 1. rewrite Hp, (DeleteUser_run uid u w1 Hok1 Hu). done.
  - cbn [w_kv w1]. rewrite <- HT. apply kv_eta; try done. unfold forget_user. kvs. apply delete_delete_eq.
Qed.

(** The mapping deleted under swapped identifiers is not there, or, if the
    organization has the identifier of the user, is a mapping of the user. *)
Lemma swapped_delete_keeps T uid oid u w :
  tenant_ok (w_kv w) -> new_user T uid u (w_kv w) -> PlatformID.Valid oid = true ->
  (uid <> oid -> urms (w_kv w) !! (uid, oid) = None) ->
  exists w', ignore (DeleteUserResourceMapping uid oid) w = (Ok tt, w') /\ tenant_ok (w_kv w') /\
    new_user T uid u (w_kv w') /\ auths (w_kv w') = auths (w_kv w) /\ authIndex (w_kv w') = authIndex (w_kv w).
Proof.
  intros Hok [Hu HT] Hvo Hno. destruct (GetUser_run uid u w Hok Hu) as [_ Hv].
  set (m := MkURM oid "" 0 "" uid). assert (Hm : valid_urm m) by done.
  destruct (DeleteUserResourceMapping_run m w Hok Hm) as (r & Hr & _).
  exists (MkWorld (drop_urms [m] (w_kv w)) (w_calls w)). split_and!.
  - unfold ignore, bind. cbn [m_ResourceID m_UserID m] in Hr. by rewrite Hr.
  - by apply drop_urm_ok.
  - split; [exact Hu|]. rewrite <- HT. destruct (decide (uid = oid)) as [E|Hne].
    + cbn [drop_urms w_kv]. apply kv_eta; try done; unfold forget_user; kvs; apply map_filter_delete_not; intros y _; cbn; subst oid; auto.
    + f_equal. cbn [drop_urms w_kv]. apply kv_eta; try done; kvs; apply delete_id; [by apply Hno|].
      apply urm_absent; [done|by apply Hno].
  - done.
  - done.
Qed.

Lemma undo_all s oid o T uid u w :
  tenant_ok s -> tenant_ok T -> tenant_ok (w_kv w) -> new_org s oid o T -> orgs T !! oid = Some o -> new_user T uid u (w_kv w) ->
  exists w1 w', ignore (UserSvc_DeleteUser uid) w = (Ok tt, w1) /\ ignore (DeleteOrganization oid) w1 = (Ok tt, w') /\ w_kv w' = s.
Proof.
  intros Hs HT Hok Hnew Ho Hu. destruct (UserSvc_DeleteUser_restores T uid u w Hok Hu) as (w1 & H1 & E1). rewrite <- E1 in HT, Hnew, Ho.
  destruct (DeleteOrganization_restores s oid o w1 Hs HT Hnew Ho) as (w' & H2 & E2). by exists w1, w'.
Qed.

(** ** Failing calls *)

Lemma Update_Err {A} (m : M A) w e w' : Update m w = (Err e, w') -> w_kv w' = w_kv w.
Proof. unfold Update. destruct (m w) as [[a|e'] w1]; [done|]. by intros [= _ <-]. Qed.

Lemma View_kv {A} (m : M A) w r w' : View m w = (r, w') -> w_kv w' = w_kv w.
Proof. unfold View. destruct (m w). by intros [= _ <-]. Qed.

Lemma CreateAuthorization_Err a w e w' : CreateAuthorization ids tokens a w = (Err e, w') -> w_kv w' = w_kv w.
Proof.
  unfold CreateAuthorization. destruct (Authorization_Valid a); [by intros [= _ <-]|]. unfold bind at 1, try at 1.
  destruct (FindUserByID (a_UserID a) w) as [r1 w1] eqn:E1. apply View_kv in E1. destruct r1; [|by intros [= _ <-]].
  unfold bind at 1, try at 1. destruct (FindOrganizationByID (a_OrgID a) w1) as [r2 w2] eqn:E2. apply View_kv in E2.
  destruct r2; [|intros [= _ <-]; congruence]. unfold bind at 1, try at 1.
  destruct (View (uniqueAuthToken a) w2) as [r3 w3] eqn:E3. apply View_kv in E3. destruct r3; [|intros [= _ <-]; congruence].
  unfold bind at 1. case_bool_decide as Ht.
  - unfold bind at 1, next_token. destruct (tokens _); [|intros [= _ <-]; cbn; congruence]. cbn [ret]. intros H. apply Update_Err in H.
    cbn [w_kv] in H. congruence.
  - cbn [ret]. intros H. apply Update_Err in H. congruence.
Qed.

(** ** The store between the steps *)

(** [S'] is [s] with a new organization, and a new user on top of it. *)
Record created (s : kv) (oid : ID) (o : Organization) (uid : ID) (u : User) (T S' : kv) : Prop := {
  cr_org : new_org s oid o T;
  cr_lookup : orgs T !! oid = Some o;
  cr_T : tenant_ok T;
  cr_ok : tenant_ok S';
  cr_user : new_user T uid u S' }.

Lemma new_org_auths s oid o T : new_org s oid o T -> auths T = auths s /\ authIndex T = authIndex s.
Proof.
  intros (i1 & b1 & i2 & b2 & ms & -> & _).
  by destruct (add_urms_rest ms (add_bucket i2 b2 (add_bucket i1 b1 (add_org oid o s)))) as (_&_&_&_&_&_&_& -> & ->).
Qed.

Lemma created_auths s oid o uid u T S' : created s oid o uid u T S' -> auths S' = auths s /\ authIndex S' = authIndex s.
Proof.
  intros [Hnew _ _ _ [_ HT]]. destruct (new_org_auths _ _ _ _ Hnew) as [<- <-]. rewrite <- HT. done.
Qed.

Lemma created_unmapped s oid o uid u T S' :
  created s oid o uid u T S' -> unmapped s uid -> uid <> oid -> urms S' !! (uid, oid) = None.
Proof.
  intros [Hnew _ _ _ [_ HT]] Hun Hne.
  assert (E : urms T !! (uid, oid) = None).
  { clear HT. destruct Hnew as (i1 & b1 & i2 & b2 & ms & -> & Hc). destruct_and! Hc.
    match goal with HF : Forall _ ms |- _ => induction HF as [|m ms [Hm _] _ IH] end; [exact (Hun oid)|].
    cbn [add_urms fold_right]. unfold add_urm at 1. kvs. rewrite lookup_insert_ne; [exact IH|]. intros E. congruence. }
  rewrite <- HT in E. unfold forget_user in E. cbn [urms] in E. apply map_lookup_filter_None in E as [E|E]; [done|].
  destruct (urms S' !! (uid, oid)) as [m|]; [|done]. exfalso. apply (E m eq_refl). cbn. congruence.
Qed.

Lemma created_CreateUser s oid o w1 u w2 user :
  tenant_ok (w_kv w1) -> new_org s oid o (w_kv w1) -> orgs (w_kv w1) !! oid = Some o ->
  PlatformID.Valid (u_ID u) = false ->
  UserSvc_CreateUser ids u w1 = (Ok user, w2) ->
  created s oid o (u_ID user) user (w_kv w1) (w_kv w2) /\ issued w1 (u_ID user) /\
  user = MkUser (u_ID user) (u_Name u) (u_OAuthID u) (u_Status u) /\
  users (w_kv w1) !! u_ID user = None /\ userIndex (w_kv w1) !! u_Name user = None /\
  w_kv w2 = add_user (u_ID user) user (w_kv w1).
Proof.
  intros Hok Hnew Ho Hv H. apply Update_Ok in H. pose proof (CreateUser_issued _ _ _ _ Hv H) as Hi.
  pose proof (CreateUser_ok _ _ _ _ _ Hok H) as Hok2. apply CreateUser_Ok in H as (uid & E & Hvu & Hf & Hn & E2).
  assert (u_ID user = uid) as Eu by (by rewrite E). rewrite Eu in *. assert (u_Name user = u_Name u) as En by (by rewrite E).
  assert (E2' : w_kv w2 = add_user uid user (w_kv w1)) by (unfold add_user; by rewrite En).
  rewrite En. split_and!; try done. split; try done. rewrite E2'.
  apply (new_user_intro (w_kv w1) uid user None []); [done|done|by rewrite En|done].
Qed.

Lemma created_SetPassword s oid o uid u w1 w2 w3 h :
  created s oid o uid u (w_kv w1) (w_kv w2) -> users (w_kv w1) !! uid = None -> userIndex (w_kv w1) !! u_Name u = None ->
  w_kv w2 = add_user uid u (w_kv w1) -> w_kv w3 = set_passwords (insert uid h) (w_kv w2) ->
  created s oid o uid u (w_kv w1) (w_kv w3).
Proof.
  intros [Hnew Ho HT Hok [Hu _]] Hf Hn E2 E3. destruct (GetUser_run uid u w2 Hok Hu) as [_ Hv]. split; try done.
  - assert (Hp : Tenant.SetPassword uid h w2 = (Ok tt, MkWorld (w_kv w3) (w_calls w2))).
    { unfold Tenant.SetPassword, bind. rewrite encode_ID_valid by done. by rewrite E3. }
    by apply (SetPassword_ok uid h w2 tt _ Hok (mk_is_Some _ _ Hu) Hp).
  - rewrite E3, E2. by apply (new_user_intro (w_kv w1) uid u (Some h) []).
Qed.

Lemma created_CreateURM s oid o uid u w1 w2 w3 w4 h m :
  created s oid o uid u (w_kv w1) (w_kv w3) -> users (w_kv w1) !! uid = None -> userIndex (w_kv w1) !! u_Name u = None ->
  w_kv w2 = add_user uid u (w_kv w1) -> w_kv w3 = set_passwords (insert uid h) (w_kv w2) -> m_UserID m = uid ->
  CreateUserResourceMapping m w3 = (Ok tt, w4) ->
  created s oid o uid u (w_kv w1) (w_kv w4) /\ urms (w_kv w4) !! (m_ResourceID m, m_UserID m) = Some m.
Proof.
  intros [Hnew Ho HT Hok [Hu _]] Hf Hn E2 E3 Em H. pose proof (CreateURM_preserves m w3 Hok) as Hok4. rewrite H in Hok4.
  apply Update_Ok, CreateURM_Ok in H as (_ & _ & _ & _ & E4). cbv zeta in E4. cbn [fst snd] in E4. split.
  - split; try done. rewrite E4, E3, E2. apply (new_user_intro (w_kv w1) uid u (Some h) [m]); [done|done|done|]. by constructor.
  - rewrite E4. kvs. by rewrite lookup_insert_eq.
Qed.

(** Undoing all of it: the steps the failing branches and the goroutine run. *)
Lemma created_undo s oid o uid u T w :
  tenant_ok s -> created s oid o uid u T (w_kv w) ->
  exists w1 w', ignore (UserSvc_DeleteUser uid) w = (Ok tt, w1) /\ ignore (DeleteOrganization oid) w1 = (Ok tt, w') /\ w_kv w' = s.
Proof. intros Hs [Hnew Ho HT Hok Hu]. by apply (undo_all s oid o T uid u). Qed.

Lemma created_swapped s oid o uid u T w :
  created s oid o uid u T (w_kv w) -> unmapped s uid ->
  exists w1, ignore (DeleteUserResourceMapping uid oid) w = (Ok tt, w1) /\ created s oid o uid u T (w_kv w1).
Proof.
  intros Hc Hun. pose proof (created_unmapped _ _ _ _ _ _ _ Hc Hun) as Hno. destruct Hc as [Hnew Ho HT Hok Hu].
  destruct (ok_orgs _ HT oid o Ho) as [_ Hv].
  destruct (swapped_delete_keeps T uid oid u w Hok Hu Hv Hno) as (w1 & H1 & Hok1 & Hu1 & _). exists w1. by split.
Qed.

(** ** The two outcomes *)

Context {PSok : PasswordsServiceOk}.

Lemma set_password_run id p w r w' :
  set_password id p w = (r, w') ->
  match r with
  | Ok _ => exists h, w_kv w' = set_passwords (insert id h) (w_kv w)
  | Err _ => w_kv w' = w_kv w
  end.
Proof. intros E. pose proof (set_password_spec id p w) as Hs. rewrite E in Hs. destruct Hs as [_ Hs]. destruct r; [by destruct Hs|done]. Qed.

(** What the successful run has built when it creates the authorization. *)
Definition temp_user (uid : ID) (name : text) : User := MkUser uid name [] "".
Definition temp_mapping (uid oid : ID) : UserResourceMapping := MkURM uid Member UserMappingType OrgsResourceType oid.
Definition temp_auth (orgName : text) (uid oid : ID) : Authorization :=
  MkAuthorization 0 "" "" (String.append "Temporary admin token for " (to_string orgName)) oid uid (temp_permissions oid).

Lemma CreateTempDB_cases userID t1 t2 t3 rand_Read w :
  tenant_ok (w_kv w) -> (forall id, issued w id -> unmapped (w_kv w) id) ->
  let orgName := bytes "temp_org_" ++ decimal t1 in
  let userName := bytes "temp_user_" ++ decimal t2 in
  match CreateTempDB userID t1 t2 t3 rand_Read w with
  | (Err e, w') => w_kv w' = w_kv w \/ exists e', e = Wrap EInternal "failed to create temporary organization" e'
  | (Ok (resp, ex), w') => exists oid uid T w4 auth password,
      created (w_kv w) oid (MkOrg oid orgName []) uid (temp_user uid userName) T (w_kv w4) /\ issued w uid /\
      urms (w_kv w4) !! (oid, uid) = Some (temp_mapping uid oid) /\
      CreateAuthorization ids tokens (temp_auth orgName uid oid) w4 = (Ok auth, w') /\
      generateRandomString rand_Read 10 = inl password /\
      resp = MkResponse oid orgName userName password (a_Token auth) (t3 + 10 * Minute) /\
      ex = expire (a_ID auth) uid oid
  end.
Proof.
  intros Hok Hfresh orgName userName. unfold CreateTempDB. fold orgName userName.
  destruct (generateRandomString rand_Read 10) as [password|e] eqn:Ep; [|by left].
  assert (Ht : TrimSpace orgName = orgName) by (apply (temp_name_trimmed 116); lia).
  unfold bind at 1, try. pose proof (CreateOrganization_preserves ids userID (MkOrg 0 orgName []) Ht w Hok) as Hok1.
  destruct (CreateOrganization ids userID _ w) as [[org|e] w1] eqn:E1; [|right; by eexists]. cbn [snd] in Hok1.
  pose proof (CreateOrganization_Ok userID (MkOrg 0 orgName []) w org w1 Hok Hfresh Ht E1) as (Hnew & Hle & Ho).
  assert (Eo : org = MkOrg (o_ID org) orgName []).
  { apply bind_Ok in E1 as (o1 & w0 & E0 & E1). apply Update_Ok, CreateOrg_Ok in E0 as (i & -> & _).
    apply bind_Ok in E1 as (? & ? & _ & E1). apply bind_Ok in E1 as (? & ? & _ & E1). apply bind_Ok in E1 as (? & ? & _ & E1).
    by injection E1 as <- <-. }
  set (oid := o_ID org) in *. unfold bind at 1, try.
  destruct (UserSvc_CreateUser ids _ w1) as [[user|e] w2] eqn:E2.
  2:{ apply Update_Err in E2. rewrite <- E2 in Hok1, Hnew, Ho.
      destruct (DeleteOrganization_restores _ _ _ _ Hok Hok1 Hnew Ho) as (w' & Hd & Ew). unfold bind. rewrite Hd. by left. }
  destruct (created_CreateUser _ _ _ _ (MkUser 0 userName [] "") _ _ Hok1 Hnew Ho eq_refl E2) as (Hc2 & Hi & Eu & Hf & Hn & Ew2).
  cbn [u_Name u_OAuthID u_Status] in Eu. set (uid := u_ID user) in *. pose proof (issued_le _ _ _ Hle Hi) as Hiu.
  unfold bind at 1, try. destruct (set_password uid password w2) as [[x|e] w3] eqn:E3; apply set_password_run in E3.
  2:{ rewrite <- E3 in Hc2. destruct (created_undo _ _ _ _ _ _ _ Hok Hc2) as (wa & wb & Ha & Hb & Ew).
      unfold bind. rewrite Ha, Hb. by left. }
  destruct E3 as [h Ew3]. pose proof (created_SetPassword _ _ _ _ _ _ _ _ _ Hc2 Hf Hn Ew2 Ew3) as Hc3.
  unfold bind at 1, try. destruct (CreateUserResourceMapping _ w3) as [[[]|e] w4] eqn:E4.
  2:{ apply Update_Err in E4. rewrite <- E4 in Hc3. destruct (created_undo _ _ _ _ _ _ _ Hok Hc3) as (wa & wb & Ha & Hb & Ew).
      unfold bind. rewrite Ha, Hb. by left. }
  destruct (created_CreateURM _ _ _ _ _ _ _ _ _ _ (temp_mapping uid oid) Hc3 Hf Hn Ew2 Ew3 eq_refl E4) as [Hc4 Hm].
  unfold bind at 1, try. destruct (CreateAuthorization ids tokens _ w4) as [[auth|e] w5] eqn:E5.
  - exists oid, uid, (w_kv w1), w4, auth, password. rewrite Eo, Eu in Hc4. split_and!; done.
  - apply CreateAuthorization_Err in E5. rewrite <- E5 in Hc4.
    destruct (created_swapped _ _ _ _ _ _ _ Hc4 (Hfresh uid Hiu)) as (wz & Hz & Hc5).
    destruct (created_undo _ _ _ _ _ _ _ Hok Hc5) as (wa & wb & Ha & Hb & Ew). unfold bind. rewrite Hz, Ha, Hb. by left.
Qed.

Lemma created_orgs s oid o uid u T S' : created s oid o uid u T S' -> orgs S' !! oid = Some o.
Proof. intros [_ Ho _ _ [_ HT]]. rewrite <- HT in Ho. exact Ho. Qed.

Lemma ignore_DeleteAuthorization_zero w :
  exists w1, ignore (DeleteAuthorization 0) w = (Ok tt, w1) /\ w_kv w1 = w_kv w.
Proof. eexists. split; [reflexivity|done]. Qed.

(** Deleting the authorization just created, stored or not, gives back the
    store it was created in. *)
Lemma created_auth_delete a w a' w' :
  auth_ok (w_kv w) -> a_ID a = 0 -> CreateAuthorization ids tokens a w = (Ok a', w') ->
  (exists w1, ignore (DeleteAuthorization (a_ID a')) w' = (Ok tt, w1) /\ w_kv w1 = w_kv w) /\
  (FindAuthorizationByToken (a_Token a') w' = (Ok a', w') \/ no_identifier ids w) /\
  a_Permissions a' = a_Permissions a /\
  orgs (w_kv w') = orgs (w_kv w) /\ users (w_kv w') = users (w_kv w) /\ urms (w_kv w') = urms (w_kv w).
Proof.
  intros Hok Hz H. apply CreateAuthorization_Ok in H as (_ & _ & _ & t & _ & [(Hno & -> & E)|(id & st & Hid & Hf & Ht & Hst & -> & E)]).
  - change (a_ID (with_token t a)) with (a_ID a). rewrite Hz. rewrite <- E. split_and!; try done; [|by right].
    apply ignore_DeleteAuthorization_zero.
  - set (a' := with_status st (with_id id (with_token t a))) in *.
    assert (Hok' : auth_ok (w_kv w')) by (rewrite E; by apply add_auth_ok).
    assert (Ha : auths (w_kv w') !! id = Some a') by (rewrite E; unfold add_auth; kvs; by rewrite lookup_insert_eq).
    split_and!; try (by rewrite E); [|left; by apply (FindAuthorizationByToken_run id)|done].
    destruct (DeleteAuthorization_run id a' w' Hok' Ha) as [Hd _]. change (a_ID a') with id.
    eexists. split; [unfold ignore, bind, try; by rewrite Hd|]. cbn [w_kv]. rewrite E. by rewrite add_auth_delete.
Qed.

(** C26. A failing [CreateTempDB] undoes what it did: the store is the one it
    started from, unless it is the creation of the organization that failed.
    The identifiers still to be generated are assumed to be mentioned by no
    existing mapping. *)
Theorem CreateTempDB_failure_restores userID t1 t2 t3 rand_Read w e w' :
  tenant_ok (w_kv w) -> (forall id, issued w id -> unmapped (w_kv w) id) ->
  CreateTempDB userID t1 t2 t3 rand_Read w = (Err e, w') ->
  w_kv w' = w_kv w \/ exists e', e = Wrap EInternal "failed to create temporary organization" e'.
Proof. intros Hok Hf H. pose proof (CreateTempDB_cases userID t1 t2 t3 rand_Read w Hok Hf) as Hc. by rewrite H in Hc. Qed.

(** The deletions of the goroutine on a store that may have changed since. *)

Lemma expire_auth aid w : tenant_ok (w_kv w) -> auth_ok (w_kv w) ->
  exists w1, ignore (DeleteAuthorization aid) w = (Ok tt, w1) /\ tenant_ok (w_kv w1) /\ auth_ok (w_kv w1) /\
    auths (w_kv w1) = delete aid (auths (w_kv w)) /\ orgs (w_kv w1) = orgs (w_kv w) /\ users (w_kv w1) = users (w_kv w).
Proof.
  intros Hok Ha. destruct (auths (w_kv w) !! aid) as [a|] eqn:E.
  - destruct (DeleteAuthorization_run aid a w Ha E) as [Hd Ha']. eexists. split; [unfold ignore, bind, try; by rewrite Hd|]. cbn [w_kv].
    split_and!; try done. by destruct Hok; split.
  - destruct (DeleteAuthorization aid w) as [[x|e] w1] eqn:Ed.
    + apply Update_Ok, deferred_Ok, bind_Ok in Ed as (a & w2 & Hg & _). apply deferred_Ok, bind_Ok in Hg as (i & w3 & He & Hg).
      apply encode_ID_Ok in He as (-> & -> & _). unfold bind, get in Hg. by rewrite E in Hg.
    + apply Update_Err in Ed as Ew. exists w1. split; [unfold ignore, bind, try; by rewrite Ed|]. rewrite Ew. split_and!; try done. by rewrite delete_id.
Qed.

Lemma expire_mapping uid oid w : tenant_ok (w_kv w) -> PlatformID.Valid uid = true -> PlatformID.Valid oid = true ->
  exists w1, ignore (DeleteUserResourceMapping uid oid) w = (Ok tt, w1) /\ tenant_ok (w_kv w1) /\
    auths (w_kv w1) = auths (w_kv w) /\ authIndex (w_kv w1) = authIndex (w_kv w) /\ orgs (w_kv w1) = orgs (w_kv w) /\ users (w_kv w1) = users (w_kv w).
Proof.
  intros Hok Hu Ho. set (m := MkURM oid "" 0 "" uid). assert (Hm : valid_urm m) by done.
  destruct (DeleteUserResourceMapping_run m w Hok Hm) as (r & Hr & _). cbn [m_ResourceID m_UserID m] in Hr.
  exists (MkWorld (drop_urms [m] (w_kv w)) (w_calls w)). split_and!; try done; [unfold ignore, bind; by rewrite Hr|by apply drop_urm_ok].
Qed.

Lemma expire_user uid w : tenant_ok (w_kv w) ->
  exists w1, ignore (UserSvc_DeleteUser uid) w = (Ok tt, w1) /\ tenant_ok (w_kv w1) /\
    auths (w_kv w1) = auths (w_kv w) /\ authIndex (w_kv w1) = authIndex (w_kv w) /\ orgs (w_kv w1) = orgs (w_kv w) /\ users (w_kv w1) = delete uid (users (w_kv w)).
Proof.
  intros Hok. pose proof (DeleteUser_preserves uid w Hok) as Hok'. destruct (users (w_kv w) !! uid) as [u|] eqn:E.
  - destruct (UserSvc_DeleteUser_restores (forget_user uid (u_Name u) (w_kv w)) uid u w Hok (conj E eq_refl)) as (w1 & H1 & E1).
    exists w1. split; [done|]. rewrite E1. split_and!; try done. by apply forget_user_ok.
  - destruct (UserSvc_DeleteUser uid w) as [[x|e] w1] eqn:Ed.
    + apply Update_Ok, bind_Ok in Ed as (y & w2 & Hp & Ed). apply bind_Ok in Hp as (i & w3 & He & Hp). apply encode_ID_Ok in He as (-> & -> & _). injection Hp as _ <-.
      apply deferred_Ok, bind_Ok in Ed as (u & w4 & Hg & _). apply GetUser_Ok in Hg as (_ & _ & Hu). cbn in Hu. congruence.
    + apply Update_Err in Ed as Ew. exists w1. split; [unfold ignore, bind, try; by rewrite Ed|]. rewrite Ew. split_and!; try done. by rewrite delete_id.
Qed.

Lemma expire_org oid w : tenant_ok (w_kv w) -> PlatformID.Valid oid = true ->
  exists w1, ignore (DeleteOrganization oid) w = (Ok tt, w1) /\ tenant_ok (w_kv w1) /\
    auths (w_kv w1) = auths (w_kv w) /\ authIndex (w_kv w1) = authIndex (w_kv w) /\ orgs (w_kv w1) = delete oid (orgs (w_kv w)) /\ users (w_kv w1) = users (w_kv w).
Proof.
  intros Hok Hv. destruct (orgs (w_kv w) !! oid) as [o|] eqn:E.
  - destruct (DeleteOrganization_run oid o w Hok E) as [Hd Hok']. eexists. split; [unfold ignore, bind, try; by rewrite Hd|]. done.
  - destruct (DeleteOrganization_missing oid w Hok Hv E) as (e & w1 & Hd & Ew). exists w1. split; [unfold ignore, bind, try; by rewrite Hd|]. rewrite Ew. split_and!; try done. by rewrite delete_id.
Qed.

(** What the goroutine removes, and that the rest stays. *)
Definition removed (aid uid oid : ID) (s s' : kv) : Prop :=
  orgs s' = delete oid (orgs s) /\ users s' = delete uid (users s) /\ auths s' = delete aid (auths s) /\
  forall r, urms s' !! (r, uid) = None.

Lemma expire_later aid uid oid w :
  tenant_ok (w_kv w) -> auth_ok (w_kv w) -> PlatformID.Valid uid = true -> PlatformID.Valid oid = true ->
  exists w', expire aid uid oid w = (Ok tt, w') /\ tenant_ok (w_kv w') /\ auth_ok (w_kv w') /\ removed aid uid oid (w_kv w) (w_kv w').
Proof.
  intros Hok Ha Hu Ho. destruct (expire_auth aid w Hok Ha) as (w1 & E1 & Hok1 & [A1 A2] & Ea & Eo & Eu).
  destruct (expire_mapping uid oid w1 Hok1 Hu Ho) as (w2 & E2 & Hok2 & Ea2 & Ei2 & Eo2 & Eu2).
  destruct (expire_user uid w2 Hok2) as (w3 & E3 & Hok3 & Ea3 & Ei3 & Eo3 & Eu3).
  destruct (expire_org oid w3 Hok3 Ho) as (w4 & E4 & Hok4 & Ea4 & Ei4 & Eo4 & Eu4).
  exists w4. split; [unfold expire, bind; by rewrite E1, E2, E3, E4|]. split; [done|]. split; [split; rewrite Ea4, Ea3, Ea2; [done|by rewrite Ei4, Ei3, Ei2]|].
  split_and!; [congruence..|]. intros r. apply eq_None_not_Some. intros [m Hm]. destruct (ok_urms _ Hok4 _ m Hm) as (_ & _ & _ & Hs).
  cbn [snd] in Hs. rewrite Eu4, Eu3, lookup_delete_eq in Hs. by destruct Hs.
Qed.

(** C25. A successful [CreateTempDB] leaves an organization, a user that is a
    member of it and a token with the permissions of the database; only when
    one hundred identifiers in a row of the generator were reserved or taken is
    there no token.  The goroutine it starts, when its sleep is over, finds a
    store that other calls may have changed; as long as that store is
    consistent, its calls leave a consistent store without the organization,
    the user, the token and the mappings of the user, with all other
    organizations, users and tokens, although it deletes the membership under
    swapped identifiers.  When nothing else changed the store meanwhile, it is
    again the one [CreateTempDB] started from.  No other call runs between the
    calls of the goroutine, and the identifiers still to be generated when the
    database is created are mentioned by no mapping. *)
Theorem CreateTempDB_expiry_restores userID t1 t2 t3 rand_Read w resp ex w' :
  tenant_ok (w_kv w) -> auth_ok (w_kv w) -> (forall id, issued w id -> unmapped (w_kv w) id) ->
  CreateTempDB userID t1 t2 t3 rand_Read w = (Ok (resp, ex), w') ->
  (exists uid aid, orgs (w_kv w') !! r_OrgID resp = Some (MkOrg (r_OrgID resp) (r_OrgName resp) []) /\
     users (w_kv w') !! uid = Some (temp_user uid (r_UserName resp)) /\
     urms (w_kv w') !! (r_OrgID resp, uid) = Some (temp_mapping uid (r_OrgID resp)) /\
     ((exists a, FindAuthorizationByToken (r_Token resp) w' = (Ok a, w') /\ a_ID a = aid /\
         a_Permissions a = temp_permissions (r_OrgID resp)) \/
      exists n, forall k, (k < MaxIDGenerationN)%nat -> ids AuthIDGen (n + k)%nat < ReservedIDs \/ is_Some (auths (w_kv w) !! ids AuthIDGen (n + k)%nat)) /\
     forall w1, tenant_ok (w_kv w1) -> auth_ok (w_kv w1) ->
       exists w2, ex w1 = (Ok tt, w2) /\ tenant_ok (w_kv w2) /\ auth_ok (w_kv w2) /\ removed aid uid (r_OrgID resp) (w_kv w1) (w_kv w2)) /\
  exists w'', ex w' = (Ok tt, w'') /\ w_kv w'' = w_kv w.
Proof.
  intros Hok Ha Hf H. pose proof (CreateTempDB_cases userID t1 t2 t3 rand_Read w Hok Hf) as Hcs. cbv zeta in Hcs. rewrite H in Hcs.
  destruct Hcs as (oid & uid & T & w4 & auth & password & Hc & Hi & Hm & Hca & _ & -> & ->). cbn [r_OrgID r_OrgName r_UserName r_Token].
  destruct (created_auths _ _ _ _ _ _ _ Hc) as [Ea1 Ea2].
  assert (Ha4 : auth_ok (w_kv w4)) by (destruct Ha as [? ?]; split; rewrite Ea1; [done|by rewrite Ea2]).
  destruct (created_auth_delete (temp_auth (bytes "temp_org_" ++ decimal t1) uid oid) w4 auth w' Ha4 eq_refl Hca) as ((w5 & Hd & E5) & Htok & Hps & Eo & Eu & Em).
  pose proof (created_orgs _ _ _ _ _ _ _ Hc) as Hoid. assert (Huid : users (w_kv w4) !! uid = Some (temp_user uid (bytes "temp_user_" ++ decimal t2))) by (by destruct Hc as [_ _ _ _ [? _]]).
  split.
  - exists uid, (a_ID auth). rewrite Eo, Eu, Em. split_and!; [done|done|done| |].
    + destruct Htok as [Htok|Hno]; [left; by exists auth|right]. exists (w_calls w4 AuthIDGen). intros k Hk. rewrite <- Ea1. exact (Hno k Hk).
    + destruct Hc as [_ _ _ Hok4 _]. intros w1 Hok1 Ha1. apply expire_later; [done|done|exact (proj2 (GetUser_run _ _ _ Hok4 Huid))|exact (proj2 (ok_orgs _ Hok4 oid _ Hoid))].
  - rewrite <- E5 in Hc. destruct (created_swapped _ _ _ _ _ _ _ Hc (Hf uid Hi)) as (w6 & Hz & Hc6).
    destruct (created_undo _ _ _ _ _ _ _ Hok Hc6) as (wa & wb & Hda & Hdb & Ew).
    exists wb. split; [|done]. unfold expire, bind. by rewrite Hd, Hz, Hda, Hdb.
Qed.
End Service.

(** The token of a temporary database allows exactly reading and writing its
    own organization and the buckets of that organization. *)
Theorem temp_token_scope oid q :
  PermissionAllowed q (temp_permissions oid) = true <->
  p_Action q ∈ actions /\
  (r_Type (p_Resource q) = OrgsResourceType /\ r_ID (p_Resource q) = Some oid \/
   r_Type (p_Resource q) = BucketsResourceType /\ Authz.r_OrgID (p_Resource q) = Some oid).
Proof.
  rewrite allowed_exists. unfold temp_permissions, actions. split.
  - intros (p & Hp & Hm). apply Matches_spec in Hm as [Ea Hm]. rewrite !elem_of_cons, !elem_of_nil in *.
    destruct Hp as [->|[->|[->|[->|[]]]]]; cbn in *; (destruct Hm as [Hm|[<- Hs]]; [discriminate Hm|]); rewrite <- Ea; auto 6.
  - intros [Ha Hq]. rewrite !elem_of_cons, elem_of_nil in Ha. destruct Hq as [[Et Hs]|[Et Hs]];
      [exists (MkPermission (p_Action q) (MkResource OrgsResourceType (Some oid) None))
      |exists (MkPermission (p_Action q) (MkResource BucketsResourceType None (Some oid)))];
      (split; [|apply Matches_spec; cbn; auto]); rewrite !elem_of_cons; destruct Ha as [->|[->|[]]]; auto 6.
Qed.

(** ** The user service implements the passwords interface *)

Section Implementation.
Context (IsNumber IsUpper IsLower : Z -> bool) (strongPasswords : bool) (GenerateFromPassword : text -> text + error).

#[local] Instance user_svc : PasswordsService :=
  Passwords.UserSvc_SetPassword IsNumber IsUpper IsLower strongPasswords GenerateFromPassword.

Lemma store_password_outcome id h w :
  let '(r, w') := store_password id h w in
  w_calls w' = w_calls w /\
  match r with
  | Ok _ => is_Some (users (w_kv w) !! id) /\ exists h', w_kv w' = set_passwords (insert id h') (w_kv w)
  | Err _ => w_kv w' = w_kv w
  end.
Proof.
  unfold store_password, GetUser, SetPassword, Update, deferred, bind, try, encode_ID, PlatformID.Encode, get, or_throw, ret, throw, put.
  destruct (PlatformID.Valid id); cbn; [|done]. destruct (users (w_kv w) !! id) as [u|] eqn:E; cbn; [|done].
  split; [done|]. split; [by exists u|by exists h].
Qed.

#[local] Instance user_svc_ok : PasswordsServiceOk.
Proof.
  intros id p w. unfold set_password, user_svc, Passwords.UserSvc_SetPassword.
  destruct (Passwords.IsPasswordStrong IsNumber IsUpper IsLower p strongPasswords) as [[e|]|msg|]; [done| |done|done].
  unfold bind. destruct (GenerateFromPassword p) as [h|e]; [|done]. cbn [lift ret]. apply store_password_outcome.
Qed.
End Implementation.

(** ** Concrete runs *)

Definition sample_rand (n : nat) : list Z + error := inl (repeat 77 n).
Definition empty_world : world := MkWorld empty_kv (fun _ => O).
Definition ascii_service (hash : text -> text + error) : PasswordsService :=
  user_svc (Passwords.cont 48 57) (Passwords.cont 65 90) (Passwords.cont 97 122) false hash.
Definition ascii_service_ok hash : @PasswordsServiceOk (ascii_service hash) :=
  user_svc_ok (Passwords.cont 48 57) (Passwords.cont 65 90) (Passwords.cont 97 122) false hash.

Abbreviation temp_run hash :=
  (CreateTempDB sample_ids sample_tokens (PS := ascii_service hash) None 1700000000123456789 1700000000123456999 0
     sample_rand empty_world).

Lemma empty_unmapped id : issued sample_ids empty_world id -> unmapped (w_kv empty_world) id.
Proof. intros _ u. done. Qed.

Lemma temp_run_ok : match (temp_run (fun p => inl (1 :: p))).1 with Ok _ => true | Err _ => false end = true.
Proof. vm_compute. reflexivity. Qed.

Lemma temp_run_err :
  (temp_run (fun p => inr (Plain "no hash"))).1 = Err (Wrap EInternal "failed to set password for user" (Plain "no hash")).
Proof. vm_compute. reflexivity. Qed.

Lemma CreateTempDB_expiry_restores_witness :
  exists resp ex w' w'', temp_run (fun p => inl (1 :: p)) = (Ok (resp, ex), w') /\
    ex w' = (Ok tt, w'') /\ w_kv w'' = empty_kv.
Proof.
  pose proof temp_run_ok as Hs. destruct (temp_run (fun p => inl (1 :: p))) as [[[resp ex]|e] w'] eqn:E; [|discriminate Hs].
  destruct (CreateTempDB_expiry_restores sample_ids sample_tokens (PSok := ascii_service_ok _) _ _ _ _ _ empty_world resp ex w'
    empty_ok empty_auth_ok empty_unmapped E) as (_ & w'' & He & Hw).
  exists resp, ex, w', w''. split; [reflexivity|]. split; [exact He|exact Hw].
Defined.

Lemma CreateTempDB_failure_restores_witness :
  exists e w', temp_run (fun p => inr (Plain "no hash")) = (Err e, w') /\ w_kv w' = empty_kv.
Proof.
  pose proof temp_run_err as Hs. destruct (temp_run (fun p => inr (Plain "no hash"))) as [r w'] eqn:E. cbn [fst] in Hs. subst r.
  destruct (CreateTempDB_failure_restores sample_ids sample_tokens (PSok := ascii_service_ok _) _ _ _ _ _ empty_world _ w'
    empty_ok empty_unmapped E) as [Hw|[e' He]]; [|discriminate He].
  eexists _, w'. split; [reflexivity|exact Hw].
Defined.

(** When the organization is committed and its buckets cannot be created, the
    call fails and the organization stays. *)
Definition no_bucket_ids (g : gen) (n : nat) : ID := match g with BucketIDGen => 0 | _ => sample_ids g n end.
Example CreateTempDB_leaves_organization :
  match CreateTempDB no_bucket_ids sample_tokens (PS := ascii_service (fun p => inl p)) None 1 2 3 sample_rand empty_world with
  | (Err _, w') => size (orgs (w_kv w'))
  | _ => O
  end = 1%nat.
Proof. vm_compute. reflexivity. Qed.
End TempDB.
