(* ===== verification/Values.v ===== *)
(** * Time-ordered values

    Models the value slices of the storage engine: the methods that
    [encoding.gen.go] generates for [Values] and for each typed slice
    ([FloatValues], [IntegerValues], ...), and those that
    [tsdb/cursors/arrayvalues.gen.go] generates for the arrays of timestamps
    and values.  The code is one template per file; the model is one section
    per template, and the typed slices are its instances.  The abstract view
    of a slice is the finite map from timestamps to values in which the later
    entry wins; the theorems show that the operations implement unions and
    restrictions of such maps and keep slices strictly ordered. *)
From S2P Require Import Prelude.
From stdpp Require Import gmap sorting.
#[global] Open Scope Z_scope.

Module Values.

Section Slice.
Context {A : Type} (UnixNano : A -> Z).
Implicit Types a b out : list A.

Definition MinTime (a : list A) : outcome Z := let! v := or_panic (head a) in Ret (UnixNano v).
Definition MaxTime (a : list A) : outcome Z := let! v := or_panic (last a) in Ret (UnixNano v).

(** The loop over adjacent pairs of [ordered] and [Deduplicate]. *)
Fixpoint ordered_loop (prev : A) (a : list A) : bool :=
  match a with
  | [] => true
  | v :: a => if UnixNano v <=? UnixNano prev then false else ordered_loop v a
  end.
Definition ordered (a : list A) : bool :=
  match a with [] => true | v :: a => ordered_loop v a end.

Definition assertOrdered (a : list A) : outcome unit := if ordered a then Ret tt else Panic.

(** [sort.Stable]: insertion before the first element that is not less. *)
Fixpoint insert_stable (v : A) (a : list A) : list A :=
  match a with
  | [] => [v]
  | w :: a => if UnixNano w <? UnixNano v then w :: insert_stable v a else v :: w :: a
  end.
Definition Stable (a : list A) : list A := foldr insert_stable [] a.

(** The loop of [Deduplicate] on the sorted slice: [i] is the last index
    written, [j] the next one read; [n] entries are left. *)
Fixpoint dedup_loop (n : nat) (i j : nat) (a : list A) : outcome (nat * list A) :=
  match n with
  | O => Ret (i, a)
  | S n =>
    let! v := or_panic (a !! j) in
    let! w := or_panic (a !! i) in
    let i := if UnixNano v =? UnixNano w then i else S i in
    dedup_loop n i (S j) (<[i := v]> a)
  end.

Definition Deduplicate (a : list A) : outcome (list A) :=
  if (length a <=? 1)%nat then Ret a
  else if ordered a then Ret a
  else
    let a := Stable a in
    let! (i, a) := dedup_loop (length a - 1) 0 1 a in
    Ret (take (S i) a).

(** The binary search: [hi - lo] halves in every round. *)
Fixpoint search_loop (fuel : nat) (a : list A) (v : Z) (lo hi : nat) : outcome nat :=
  match fuel with
  | O => Panic
  | S f =>
    if (lo <? hi)%nat then
      let mid := ((lo + hi) / 2)%nat in
      let! x := or_panic (a !! mid) in
      if UnixNano x <? v then search_loop f a v (S mid) hi else search_loop f a v lo mid
    else Ret lo
  end.
Definition search (a : list A) (v : Z) : outcome nat := search_loop (S (length a)) a v 0 (length a).

(** [None] is (-1, -1). *)
Definition FindRange (a : list A) (min max : Z) : outcome (option (nat * nat)) :=
  if (length a =? 0)%nat || (max <? min) then Ret None
  else
    let! minVal := MinTime a in
    let! maxVal := MaxTime a in
    if (maxVal <? min) || (max <? minVal) then Ret None
    else
      let! rmin := search a min in
      let! rmax := search a max in
      Ret (Some (rmin, rmax)).

(** [copy(b[rmin:], a[rmax:])] moves the tail down within the same array. *)
Definition Exclude (a : list A) (min max : Z) : outcome (list A) :=
  let! r := FindRange a min max in
  match r with
  | None => Ret a
  | Some (rmin, rmax) =>
    if (rmax <? length a)%nat then
      let! x := or_panic (a !! rmax) in
      let rmax := if UnixNano x =? max then S rmax else rmax in
      let rest := (length a - rmax)%nat in
      if (0 <? rest)%nat then Ret (take rmin a ++ drop rmax a) else Ret (take rmin a)
    else Ret (take rmin a)
  end.

Definition Include (a : list A) (min max : Z) : outcome (list A) :=
  let! r := FindRange a min max in
  match r with
  | None => Ret []
  | Some (rmin, rmax) =>
    let! rmax :=
      (if (rmax <? length a)%nat then
         let! x := or_panic (a !! rmax) in Ret (if UnixNano x =? max then S rmax else rmax)
       else Ret rmax) in
    if (rmax <? rmin)%nat then Panic else Ret (take (rmax - rmin) (drop rmin a))
  end.

(** The loop of [Merge]; the rest of the longer slice is appended at its end. *)
Fixpoint merge_loop (a : list A) : list A -> list A :=
  fix go (b : list A) : list A :=
    match a, b with
    | [], _ => b
    | _ :: _, [] => a
    | x :: a', y :: b' =>
      if UnixNano x <? UnixNano y then x :: merge_loop a' b
      else if UnixNano x =? UnixNano y then merge_loop a' b
      else y :: go b'
    end.

Definition Merge (a b : list A) : outcome (list A) :=
  if (length a =? 0)%nat then Ret b
  else if (length b =? 0)%nat then Ret a
  else
    let! a := Deduplicate a in
    let! b := Deduplicate b in
    let! amax := MaxTime a in
    let! bmin := MinTime b in
    if amax <? bmin then Ret (a ++ b)
    else
      let! bmax := MaxTime b in
      let! amin := MinTime a in
      if bmax <? amin then Ret (b ++ a)
      else Ret (merge_loop a b).

(** ** Ordered slices and the maps they stand for *)

Definition before (x y : A) : Prop := UnixNano x < UnixNano y.
Abbreviation Sorted := (StronglySorted before).

(** The later of two entries with the same timestamp wins. *)
Definition values_map (a : list A) : gmap Z A := foldl (fun m x => <[UnixNano x := x]> m) ∅ a.

Lemma foldl_insert (m : gmap Z A) a :
  foldl (fun m x => <[UnixNano x := x]> m) m a = values_map a ∪ m.
Proof.
  unfold values_map. revert m. induction a as [|x a IH] using rev_ind; intros m; [cbn; by rewrite (left_id_L ∅ (∪))|].
  rewrite !foldl_app. cbn. rewrite IH. by rewrite insert_union_l.
Qed.

Lemma values_map_nil : values_map [] = ∅.
Proof. done. Qed.

Lemma values_map_app a b : values_map (a ++ b) = values_map b ∪ values_map a.
Proof. unfold values_map at 1. rewrite foldl_app. fold (values_map a). apply foldl_insert. Qed.

Lemma values_map_cons x a : values_map (x :: a) = values_map a ∪ {[UnixNano x := x]}.
Proof. apply (values_map_app [x] a). Qed.

Lemma values_map_time a k x : values_map a !! k = Some x -> UnixNano x = k /\ x ∈ a.
Proof.
  induction a as [|y a IH] using rev_ind; [done|]. rewrite values_map_app, lookup_union_Some_raw.
  unfold values_map at 1 2. cbn. intros [H|[_ H]].
  - apply lookup_insert_Some in H as [[<- <-]|[_ H]]; [|by rewrite lookup_empty in H]. split; [done|]. apply elem_of_app. right. left.
  - apply IH in H as [? ?]. split; [done|]. apply elem_of_app. by left.
Qed.

Lemma values_map_None a k : values_map a !! k = None <-> Forall (fun x => UnixNano x <> k) a.
Proof.
  induction a as [|y a IH]; [by rewrite Forall_nil|]. rewrite values_map_cons, lookup_union_None, Forall_cons, IH.
  rewrite lookup_singleton_None. tauto.
Qed.

Lemma sorted_cons x a : Sorted (x :: a) <-> Forall (before x) a /\ Sorted a.
Proof. split; [by inversion 1|intros [? ?]; by constructor]. Qed.

Lemma sorted_app a b :
  Sorted (a ++ b) <-> Sorted a /\ Sorted b /\ Forall (fun x => Forall (before x) b) a.
Proof.
  induction a as [|x a IH]; cbn [app].
  - split; [intros H; split_and!; [constructor|done|constructor]|by intros (_ & ? & _)].
  - rewrite !sorted_cons, IH, Forall_app, Forall_cons. tauto.
Qed.

(** A sorted slice is determined by its map. *)
Lemma sorted_lookup a x : Sorted a -> x ∈ a -> values_map a !! UnixNano x = Some x.
Proof.
  induction 1 as [|y a Hs IH Hf]; [by rewrite elem_of_nil|]. rewrite elem_of_cons, values_map_cons. intros [->|Hx].
  - rewrite lookup_union_r; [apply lookup_singleton_eq|]. apply values_map_None. eapply Forall_impl; [exact Hf|].
    cbn. unfold before. intros z Hz E. lia.
  - apply lookup_union_Some_l. by apply IH.
Qed.

Lemma sorted_ext a b : Sorted a -> Sorted b -> values_map a = values_map b -> a = b.
Proof.
  intros Ha. revert b. induction Ha as [|x a Ha IH Hx]; intros b Hb E.
  - destruct b as [|y b]; [done|]. pose proof (sorted_lookup _ y Hb ltac:(left)) as H. rewrite <- E in H.
    apply values_map_time in H as [_ H]. by apply elem_of_nil in H.
  - assert (Hxb : x ∈ b).
    { assert (H : values_map b !! UnixNano x = Some x).
      { rewrite <- E. apply sorted_lookup; [by constructor|left]. }
      by destruct (values_map_time _ _ _ H). }
    destruct b as [|y b]; [by apply elem_of_nil in Hxb|]. apply sorted_cons in Hb as [Hy Hb].
    assert (Hya : y ∈ x :: a).
    { assert (H : values_map (x :: a) !! UnixNano y = Some y).
      { rewrite E. apply sorted_lookup; [by apply sorted_cons|left]. }
      by destruct (values_map_time _ _ _ H). }
    assert (x = y) as <-.
    { apply elem_of_cons in Hxb as [?|Hxb]; [done|]. apply elem_of_cons in Hya as [?|Hya]; [done|].
      rewrite Forall_forall in Hy, Hx. specialize (Hy x Hxb). specialize (Hx y Hya). unfold before in *. lia. }
    f_equal. apply IH; [done|]. apply map_eq. intros k. rewrite !values_map_cons in E.
    assert (Ek := f_equal (lookup k) E). cbn in Ek.
    destruct (decide (k = UnixNano x)) as [->|Hk].
    + assert (H1 : values_map a !! UnixNano x = None)
        by (apply values_map_None; eapply Forall_impl; [exact Hx|]; cbn; unfold before; intros; lia).
      assert (H2 : values_map b !! UnixNano x = None)
        by (apply values_map_None; eapply Forall_impl; [exact Hy|]; cbn; unfold before; intros; lia).
      congruence.
    + rewrite !lookup_union_l in Ek by (by apply lookup_singleton_ne). exact Ek.
Qed.

(** ** Sorting and deduplication *)

Lemma ordered_loop_spec x a : ordered_loop x a = true <-> Sorted (x :: a).
Proof.
  revert x. induction a as [|y a IH]; intros x; cbn [ordered_loop].
  - split; [intros _; repeat constructor|done].
  - rewrite (sorted_cons x), Forall_cons. destruct (Z.leb_spec (UnixNano y) (UnixNano x)).
    + split; [done|]. intros [[H' _] _]. unfold before in H'. lia.
    + rewrite IH. split; [|tauto]. intros Hs. split; [|done]. split; [done|]. apply sorted_cons in Hs as [Hf _].
      eapply Forall_impl; [exact Hf|]. unfold before. cbn. intros; lia.
Qed.

Lemma ordered_spec a : ordered a = true <-> Sorted a.
Proof. destruct a as [|x a]; [split; [intros _; constructor|done]|apply ordered_loop_spec]. Qed.

Definition not_after (x y : A) : Prop := UnixNano x <= UnixNano y.

Lemma values_map_swap x y a :
  UnixNano x <> UnixNano y -> values_map (x :: y :: a) = values_map (y :: x :: a).
Proof.
  intros Hne. rewrite !values_map_cons, <- !(assoc_L (∪)). f_equal. apply map_union_comm.
  by apply map_disjoint_singleton_l, lookup_singleton_None.
Qed.

Lemma insert_stable_map v a : values_map (insert_stable v a) = values_map (v :: a).
Proof.
  induction a as [|w a IH]; [done|]. cbn [insert_stable]. destruct (Z.ltb_spec (UnixNano w) (UnixNano v)); [|done].
  rewrite (values_map_swap v w) by lia. rewrite (values_map_cons w), IH. by rewrite (values_map_cons w).
Qed.

Lemma insert_stable_elem v a x : x ∈ insert_stable v a <-> x = v \/ x ∈ a.
Proof.
  induction a as [|w a IH]; cbn [insert_stable]; [by rewrite elem_of_cons|]. destruct (_ <? _); rewrite !elem_of_cons, ?IH; tauto.
Qed.

Lemma insert_stable_sorted v a : StronglySorted not_after a -> StronglySorted not_after (insert_stable v a).
Proof.
  induction 1 as [|w a Hs IH Hf]; cbn [insert_stable]; [repeat constructor|]. unfold not_after in *.
  destruct (Z.ltb_spec (UnixNano w) (UnixNano v)).
  - constructor; [done|]. apply Forall_forall. intros x Hx. apply insert_stable_elem in Hx as [->|Hx]; [lia|].
    rewrite Forall_forall in Hf. by apply Hf.
  - constructor; [by constructor|]. constructor; [done|]. eapply Forall_impl; [exact Hf|]. cbn. intros; lia.
Qed.

Lemma insert_stable_length v a : length (insert_stable v a) = S (length a).
Proof. induction a as [|w a IH]; cbn; [done|]. destruct (_ <? _); cbn; by rewrite ?IH. Qed.

Lemma Stable_map a : values_map (Stable a) = values_map a.
Proof.
  induction a as [|v a IH]; [done|]. cbn [Stable foldr]. rewrite insert_stable_map, !(values_map_cons v). by f_equal.
Qed.

Lemma Stable_sorted a : StronglySorted not_after (Stable a).
Proof. induction a as [|v a IH]; [constructor|]. by apply insert_stable_sorted. Qed.

Lemma Stable_length a : length (Stable a) = length a.
Proof. induction a as [|v a IH]; [done|]. cbn [Stable foldr length]. rewrite insert_stable_length. by f_equal. Qed.

(** The last entry of every run of equal timestamps. *)
Fixpoint compress (x : A) (a : list A) : list A :=
  match a with
  | [] => [x]
  | y :: a => if UnixNano y =? UnixNano x then compress y a else x :: compress y a
  end.

Lemma compress_map x a : values_map (compress x a) = values_map (x :: a).
Proof.
  revert x. induction a as [|y a IH]; intros x; [done|]. cbn [compress]. destruct (Z.eqb_spec (UnixNano y) (UnixNano x)) as [E|E].
  - rewrite IH, !values_map_cons, <- (assoc_L (∪)). f_equal. rewrite E. symmetry. apply map_eq. intros k.
    rewrite lookup_union, !lookup_singleton. by case_decide.
  - by rewrite values_map_cons, IH, (values_map_cons x).
Qed.

Lemma compress_elem x a z : z ∈ compress x a -> z ∈ x :: a.
Proof.
  revert x. induction a as [|y a IH]; intros x; cbn [compress]; [done|]. destruct (_ =? _).
  - intros H%IH. set_solver.
  - rewrite elem_of_cons. intros [->|H%IH]; set_solver.
Qed.

Lemma compress_sorted x a : StronglySorted not_after (x :: a) -> Sorted (compress x a).
Proof.
  revert x. induction a as [|y a IH]; intros x Hs; cbn [compress]; [repeat constructor|].
  inversion Hs as [|? ? Hs' Hf]; subst. destruct (Z.eqb_spec (UnixNano y) (UnixNano x)) as [E|E]; [by apply IH|].
  apply sorted_cons. split; [|by apply IH]. apply Forall_forall. intros z Hz. apply compress_elem in Hz.
  inversion Hs' as [|? ? _ Hf']; subst. apply Forall_cons in Hf as [Hxy Hf]. rewrite Forall_forall in Hf'.
  unfold before, not_after in *. apply elem_of_cons in Hz as [->|Hz]; [lia|]. specialize (Hf' z Hz). cbn in Hf'. lia.
Qed.

(** The in-place loop computes [compress]: the entries up to [i] are final, and
    those from [j] on are still the sorted ones. *)
Lemma dedup_loop_run n i j a x rest :
  (i < j)%nat -> a !! i = Some x -> drop j a = rest -> length rest = n ->
  exists i' a', dedup_loop n i j a = Ret (i', a') /\ take (S i') a' = take i a ++ compress x rest.
Proof.
  revert i j a x rest. induction n as [|n IH]; intros i j a x rest Hij Hi Hd Hl; cbn [dedup_loop].
  - destruct rest; [|done]. exists i, a. split; [done|]. cbn. by apply take_S_r.
  - destruct rest as [|v rest]; [done|]. injection Hl as Hl.
    assert (Hj : a !! j = Some v) by (rewrite <- (Nat.add_0_r j), <- lookup_drop, Hd; done).
    rewrite Hj, Hi. cbn [or_panic obind compress]. pose proof (lookup_lt_Some _ _ _ Hj) as Hlt.
    assert (Hd' : forall k, (k <= j)%nat -> drop (S j) (<[k := v]> a) = rest).
    { intros k Hk. rewrite drop_insert_lt by lia. replace (S j) with (j + 1)%nat by lia. by rewrite <- drop_drop, Hd. }
    destruct (UnixNano v =? UnixNano x).
    + destruct (IH i (S j) (<[i := v]> a) v rest) as (i' & a' & E & Et); [lia|apply list_lookup_insert_eq; lia|apply Hd'; lia|done|].
      exists i', a'. split; [exact E|]. rewrite Et. by rewrite take_insert_ge by lia.
    + destruct (IH (S i) (S j) (<[S i := v]> a) v rest) as (i' & a' & E & Et); [lia|apply list_lookup_insert_eq; lia|apply Hd'; lia|done|].
      exists i', a'. split; [exact E|]. rewrite Et, take_insert_ge by lia. rewrite (take_S_r a i x Hi).
      by rewrite <- app_assoc.
Qed.

Lemma Deduplicate_run a :
  exists a', Deduplicate a = Ret a' /\ Sorted a' /\ values_map a' = values_map a /\ (a <> [] -> a' <> []).
Proof.
  unfold Deduplicate. destruct (Nat.leb_spec (length a) 1) as [Hl|Hl].
  { exists a. split_and!; try done. destruct a as [|x [|y a]]; [constructor|repeat constructor|cbn in Hl; lia]. }
  destruct (ordered a) eqn:Eo; [exists a; split_and!; try done; by apply ordered_spec|].
  pose proof (Stable_map a) as Em. pose proof (Stable_sorted a) as Hs. pose proof (Stable_length a) as El.
  destruct (Stable a) as [|x s]; [cbn in El; lia|].
  destruct (dedup_loop_run (length (x :: s) - 1) 0 1 (x :: s) x s) as (i & a' & E & Et); [lia|done|done|cbn; lia|].
  rewrite E. cbn [obind]. exists (take (S i) a'). rewrite Et. cbn [take app].
  split_and!; [done|by apply compress_sorted|by rewrite compress_map|].
  intros _. clear. revert x. induction s as [|y s IH]; intros x; cbn; [done|]. destruct (_ =? _); [apply IH|done].
Qed.

(** ** Searching *)

(** [k] is the position where a value with timestamp [v] would be inserted. *)
Definition position (a : list A) (v : Z) (k : nat) : Prop :=
  (k <= length a)%nat /\ Forall (fun x => UnixNano x < v) (take k a) /\ Forall (fun x => v <= UnixNano x) (drop k a).

Lemma sorted_split a k x :
  Sorted a -> a !! k = Some x ->
  Forall (fun y => UnixNano y <= UnixNano x) (take (S k) a) /\ Forall (fun y => UnixNano x <= UnixNano y) (drop k a).
Proof.
  intros Hs Hx. pose proof (take_drop_middle a k x Hx) as E. rewrite <- E in Hs.
  apply sorted_app in Hs as (_ & H2 & H3). apply sorted_cons in H2 as [H2 _]. split.
  - rewrite (take_S_r a k x Hx), Forall_app. split; [|constructor; [lia|constructor]].
    eapply Forall_impl; [exact H3|]. cbn. intros y Hy. apply Forall_cons in Hy as [Hy _]. unfold before in Hy. lia.
  - rewrite (drop_S a x k Hx). constructor; [lia|]. eapply Forall_impl; [exact H2|]. unfold before. cbn. intros; lia.
Qed.

Lemma search_loop_run fuel a v lo hi :
  Sorted a -> (lo <= hi <= length a)%nat -> (hi - lo < fuel)%nat ->
  Forall (fun x => UnixNano x < v) (take lo a) -> Forall (fun x => v <= UnixNano x) (drop hi a) ->
  exists k, search_loop fuel a v lo hi = Ret k /\ position a v k.
Proof.
  intros Hs. revert lo hi. induction fuel as [|f IH]; intros lo hi Hb Hf Hlo Hhi; [lia|]. cbn [search_loop].
  destruct (Nat.ltb_spec lo hi) as [Hlt|Hge].
  - set (mid := ((lo + hi) / 2)%nat).
    assert (Hm : (lo <= mid < hi)%nat).
    { unfold mid. split; [apply Nat.div_le_lower_bound; lia|apply Nat.Div0.div_lt_upper_bound; lia]. }
    destruct (lookup_lt_is_Some_2 a mid ltac:(lia)) as [x Hx]. rewrite Hx. cbn [or_panic obind].
    destruct (sorted_split a mid x Hs Hx) as [Hl Hr]. destruct (Z.ltb_spec (UnixNano x) v).
    + apply IH; [lia|lia| |done]. eapply Forall_impl; [exact Hl|]. cbn. intros; lia.
    + apply IH; [lia|lia|done|]. eapply Forall_impl; [exact Hr|]. cbn. intros; lia.
  - exists lo. split; [done|]. replace hi with lo in * by lia. split_and!; [lia|done|done].
Qed.

Lemma search_run a v : Sorted a -> exists k, search a v = Ret k /\ position a v k.
Proof.
  intros Hs. apply search_loop_run; [done|lia|lia|constructor|]. by rewrite drop_all.
Qed.

(** Splitting a slice around a range. *)
Lemma filter_none {B} (p : B -> bool) (l : list B) : Forall (fun x => p x = false) l -> List.filter p l = [].
Proof. induction 1 as [|x l Hx _ IH]; cbn; [done|]. by rewrite Hx. Qed.

Lemma filter_all {B} (p : B -> bool) (l : list B) : Forall (fun x => p x = true) l -> List.filter p l = l.
Proof. induction 1 as [|x l Hx _ IH]; cbn; [done|]. by rewrite Hx, IH. Qed.

Definition in_range (min max : Z) (x : A) : bool := (min <=? UnixNano x) && (UnixNano x <=? max).

(** The two positions cut a sorted slice into the values below, inside and above
    the range, once an entry at the upper bound is counted in. *)
Definition upper (a : list A) (max : Z) (k : nat) : nat :=
  match a !! k with Some x => if UnixNano x =? max then S k else k | None => k end.

Lemma upper_spec a max k :
  Sorted a -> position a max k ->
  let k' := upper a max k in
  (k <= k' <= length a)%nat /\ Forall (fun x => UnixNano x <= max) (take k' a) /\ Forall (fun x => max < UnixNano x) (drop k' a).
Proof.
  intros Hs (Hk & Hlo & Hhi) k'. unfold k', upper. destruct (a !! k) as [x|] eqn:E.
  - pose proof (lookup_lt_Some _ _ _ E). destruct (sorted_split a k x Hs E) as [Hl Hr]. destruct (Z.eqb_spec (UnixNano x) max) as [Em|Em].
    + split_and!; [lia|lia| |].
      * eapply Forall_impl; [exact Hl|]. cbn. intros; lia.
      * rewrite <- (take_drop_middle a k x E) in Hs. apply sorted_app in Hs as (_ & Hs & _). apply sorted_cons in Hs as [Hs _].
        eapply Forall_impl; [exact Hs|]. unfold before. cbn. intros; lia.
    + split_and!; [lia|lia| |].
      * eapply Forall_impl; [exact Hlo|]. cbn. intros; lia.
      * assert (max < UnixNano x) by (rewrite (drop_S a x k E) in Hhi; apply Forall_cons in Hhi as [Hx _]; lia).
        eapply Forall_impl; [exact Hr|]. cbn. intros; lia.
  - apply lookup_ge_None in E. assert (k = length a) as -> by lia. split_and!; [lia|lia| |by rewrite drop_all].
    eapply Forall_impl; [exact Hlo|]. cbn. intros; lia.
Qed.

Lemma position_le a v1 v2 k1 k2 : v1 <= v2 -> position a v1 k1 -> position a v2 k2 -> (k1 <= k2)%nat.
Proof.
  intros Hv (H1 & Hlo & _) (H2 & _ & Hhi). destruct (decide (k1 <= k2)%nat) as [|Hn]; [done|]. exfalso.
  destruct (lookup_lt_is_Some_2 a k2 ltac:(lia)) as [x Hx].
  rewrite Forall_lookup in Hlo. specialize (Hlo k2 x ltac:(rewrite lookup_take_lt by lia; done)).
  rewrite (drop_S a x k2 Hx) in Hhi. apply Forall_cons in Hhi as [Hhi _]. cbn in Hlo. lia.
Qed.

Lemma range_cut a min max k1 k2 :
  Sorted a -> min <= max -> position a min k1 -> position a max k2 ->
  let k' := upper a max k2 in
  (k1 <= k')%nat /\
  List.filter (in_range min max) a = take (k' - k1) (drop k1 a) /\
  List.filter (fun x => negb (in_range min max x)) a = take k1 a ++ drop k' a.
Proof.
  intros Hs Hle Hp1 Hp2 k'. pose proof (position_le _ _ _ _ _ Hle Hp1 Hp2) as Hk.
  destruct (upper_spec a max k2 Hs Hp2) as (Hk' & Hlo' & Hhi'). fold k' in Hk', Hlo', Hhi'. destruct Hp1 as (_ & Hlo & Hhi).
  assert (Ea : a = take k1 a ++ take (k' - k1) (drop k1 a) ++ drop k' a).
  { rewrite <- (take_drop k1 a) at 1. f_equal. rewrite <- (take_drop (k' - k1) (drop k1 a)) at 1. f_equal.
    rewrite drop_drop. f_equal. lia. }
  assert (F1 : Forall (fun x => in_range min max x = false) (take k1 a)).
  { eapply Forall_impl; [exact Hlo|]. unfold in_range. cbn. intros x Hx. apply andb_false_iff. left. apply Z.leb_gt. lia. }
  assert (F3 : Forall (fun x => in_range min max x = false) (drop k' a)).
  { eapply Forall_impl; [exact Hhi'|]. unfold in_range. cbn. intros x Hx. apply andb_false_iff. right. apply Z.leb_gt. lia. }
  assert (F2 : Forall (fun x => in_range min max x = true) (take (k' - k1) (drop k1 a))).
  { apply Forall_forall. intros x Hx. unfold in_range. rewrite andb_true_iff, !Z.leb_le. split.
    - rewrite Forall_forall in Hhi. apply Hhi. rewrite <- (take_drop (k' - k1) (drop k1 a)). apply elem_of_app. by left.
    - rewrite take_drop_commute in Hx. replace (k1 + (k' - k1))%nat with k' in Hx by lia. rewrite Forall_forall in Hlo'.
      apply Hlo'. rewrite <- (take_drop k1 (take k' a)). apply elem_of_app. by right. }
  split_and!; [lia| |].
  - rewrite Ea at 1. rewrite !List.filter_app, (filter_none _ _ F1), (filter_none _ _ F3), (filter_all _ _ F2). by rewrite app_nil_r.
  - rewrite Ea at 1. rewrite !List.filter_app. rewrite (filter_all _ (take k1 a)), (filter_none _ (take (k' - k1) _)), (filter_all _ (drop k' a)); [done| | |].
    + eapply Forall_impl; [exact F3|]. by intros x ->.
    + eapply Forall_impl; [exact F2|]. by intros x ->.
    + eapply Forall_impl; [exact F1|]. by intros x ->.
Qed.

(** ** Ranges *)

Lemma sorted_bounds a x y :
  Sorted a -> head a = Some x -> last a = Some y -> Forall (fun z => UnixNano x <= UnixNano z <= UnixNano y) a.
Proof.
  intros Hs Hh Hl. apply Forall_lookup. intros k z Hz. destruct (sorted_split a k z Hs Hz) as [H1 H2]. split.
  - rewrite Forall_forall in H1. apply H1. destruct a; [done|]. injection Hh as ->. left.
  - rewrite Forall_forall in H2. apply H2. rewrite last_lookup in Hl. pose proof (lookup_lt_Some _ _ _ Hz).
    apply list_elem_of_lookup. exists (pred (length a) - k)%nat. rewrite lookup_drop.
    replace (k + (pred (length a) - k))%nat with (pred (length a)) by lia. done.
Qed.

Lemma FindRange_run a min max :
  Sorted a ->
  (FindRange a min max = Ret None /\ Forall (fun x => in_range min max x = false) a) \/
  exists k1 k2, FindRange a min max = Ret (Some (k1, k2)) /\ min <= max /\ position a min k1 /\ position a max k2.
Proof.
  intros Hs. unfold FindRange. destruct (Nat.eqb_spec (length a) 0) as [E|E].
  { left. destruct a; [split; [done|constructor]|done]. }
  destruct (Z.ltb_spec max min) as [Hm|Hm]; cbn [orb].
  { left. split; [done|]. apply Forall_forall. intros x _. unfold in_range. apply andb_false_iff. rewrite !Z.leb_gt. lia. }
  destruct a as [|x a']; [done|]. set (a := x :: a') in *. unfold MinTime, MaxTime. cbn [head a or_panic obind].
  destruct (last a) as [y|] eqn:El; [|by apply last_None in El]. cbn [or_panic obind].
  pose proof (sorted_bounds a x y Hs eq_refl El) as Hb.
  destruct (Z.ltb_spec (UnixNano y) min); [left|destruct (Z.ltb_spec max (UnixNano x)); [left|right]]; cbn [orb].
  - split; [done|]. eapply Forall_impl; [exact Hb|]. cbn. intros z Hz. apply andb_false_iff. rewrite !Z.leb_gt. lia.
  - split; [done|]. eapply Forall_impl; [exact Hb|]. cbn. intros z Hz. apply andb_false_iff. rewrite !Z.leb_gt. lia.
  - destruct (search_run a min Hs) as (k1 & -> & H1), (search_run a max Hs) as (k2 & -> & H2). cbn [obind]. by exists k1, k2.
Qed.

Lemma Include_run a min max : Sorted a -> Include a min max = Ret (List.filter (in_range min max) a).
Proof.
  intros Hs. unfold Include. destruct (FindRange_run a min max Hs) as [[-> Hf]|(k1 & k2 & -> & Hle & H1 & H2)]; cbn [obind].
  { by rewrite filter_none. }
  destruct (range_cut a min max k1 k2 Hs Hle H1 H2) as (Hk & -> & _). unfold upper in *.
  destruct (Nat.ltb_spec k2 (length a)) as [Hlt|Hge].
  - destruct (lookup_lt_is_Some_2 a k2 Hlt) as [x Hx]. rewrite Hx in *. cbn [or_panic obind].
    destruct (Nat.ltb_spec (if UnixNano x =? max then S k2 else k2) k1); [lia|done].
  - rewrite (lookup_ge_None_2 a k2) in * by done. cbn [obind]. destruct (Nat.ltb_spec k2 k1); [lia|done].
Qed.

Lemma Exclude_run a min max :
  Sorted a -> Exclude a min max = Ret (List.filter (fun x => negb (in_range min max x)) a).
Proof.
  intros Hs. unfold Exclude. destruct (FindRange_run a min max Hs) as [[-> Hf]|(k1 & k2 & -> & Hle & H1 & H2)]; cbn [obind].
  { rewrite filter_all; [done|]. eapply Forall_impl; [exact Hf|]. by intros x ->. }
  destruct (range_cut a min max k1 k2 Hs Hle H1 H2) as (Hk & _ & ->). unfold upper in *.
  destruct (Nat.ltb_spec k2 (length a)) as [Hlt|Hge].
  - destruct (lookup_lt_is_Some_2 a k2 Hlt) as [x Hx]. rewrite Hx in *. cbn [or_panic obind].
    set (k := if UnixNano x =? max then S k2 else k2) in *. destruct (Nat.ltb_spec 0 (length a - k)); [done|].
    rewrite (drop_ge a) by lia. by rewrite app_nil_r.
  - rewrite (lookup_ge_None_2 a k2) in * by done. rewrite (drop_ge a k2) by done. by rewrite app_nil_r.
Qed.

Lemma filter_sorted (p : A -> bool) a : Sorted a -> Sorted (List.filter p a).
Proof.
  induction 1 as [|x a Hs IH Hf]; cbn; [constructor|]. destruct (p x); [|done]. apply sorted_cons. split; [|done].
  apply Forall_forall. intros y Hy. apply list_elem_of_In, filter_In in Hy as [Hy _]. rewrite Forall_forall in Hf.
  by apply Hf, list_elem_of_In.
Qed.

(** Filtering by a property of the timestamp restricts the map. *)
Lemma values_map_filter (p : Z -> bool) a :
  values_map (List.filter (fun x => p (UnixNano x)) a) = filter (fun e => p e.1 = true) (values_map a).
Proof.
  apply map_eq. intros k. apply option_eq. intros z. rewrite map_lookup_filter_Some. cbn.
  induction a as [|x a IH]; [by split; [|intros []]|]. cbn [List.filter].
  assert (E : values_map a !! k = None -> p k = true -> values_map (List.filter (fun x => p (UnixNano x)) a) !! k = None).
  { intros Hn _. apply values_map_None. apply values_map_None in Hn. apply Forall_forall. intros y Hy.
    apply list_elem_of_In, filter_In in Hy as [Hy _]. rewrite Forall_forall in Hn. by apply Hn, list_elem_of_In. }
  rewrite (values_map_cons x a), lookup_union_Some_raw.
  destruct (p (UnixNano x)) eqn:Ep; [rewrite values_map_cons, lookup_union_Some_raw|]; rewrite IH, ?lookup_singleton_Some.
  - split; [|intuition congruence].
    intros [?|(Hn & <- & <-)]; [tauto|]. split; [right|done]. split; [|done].
    destruct (values_map a !! UnixNano x) as [y|] eqn:Ey; [|done]. exfalso.
    apply values_map_None in Hn. apply values_map_time in Ey as [Ey Hy]. rewrite Forall_forall in Hn.
    apply (Hn y); [|done]. apply list_elem_of_In, filter_In. split; [by apply list_elem_of_In|]. by rewrite Ey.
  - split; [tauto|]. intros [[?|(_ & <- & <-)] Hp]; [done|congruence].
Qed.

(** ** Merging *)

Lemma merge_loop_nil_l b : merge_loop [] b = b.
Proof. by destruct b. Qed.

Lemma merge_loop_nil_r a : merge_loop a [] = a.
Proof. by destruct a. Qed.

Lemma merge_loop_cons x a y b :
  merge_loop (x :: a) (y :: b) =
  if UnixNano x <? UnixNano y then x :: merge_loop a (y :: b)
  else if UnixNano x =? UnixNano y then merge_loop a (y :: b) else y :: merge_loop (x :: a) b.
Proof. done. Qed.

Lemma merge_loop_elem a b z : z ∈ merge_loop a b -> z ∈ a \/ z ∈ b.
Proof.
  revert b. induction a as [|x a IHa]; [intros b; rewrite merge_loop_nil_l; by right|]. induction b as [|y b IHb]; [intros Hz; by left|].
  rewrite merge_loop_cons. destruct (_ <? _); [|destruct (_ =? _)]; rewrite ?elem_of_cons.
  - intros [->|[Hz|Hz%elem_of_cons]%IHa]; tauto.
  - intros [Hz|Hz%elem_of_cons]%IHa; tauto.
  - intros [->|[Hz%elem_of_cons|Hz]%IHb]; tauto.
Qed.

Lemma merge_loop_spec a b :
  Sorted a -> Sorted b -> Sorted (merge_loop a b) /\ values_map (merge_loop a b) = values_map b ∪ values_map a.
Proof.
  intros Ha. revert b. induction Ha as [|x a Ha IHa Hx]; intros b Hb.
  { rewrite merge_loop_nil_l. split; [done|]. by rewrite values_map_nil, (right_id_L ∅ (∪)). }
  induction Hb as [|y b Hb IHb Hy]; [split; [by constructor|]; by rewrite merge_loop_nil_r, values_map_nil, (left_id_L ∅ (∪))|].
  rewrite merge_loop_cons.
  assert (Hyb : Sorted (y :: b)) by (by constructor). destruct (IHa (y :: b) Hyb) as [S1 M1]. destruct IHb as [S2 M2].
  destruct (Z.ltb_spec (UnixNano x) (UnixNano y)); [|destruct (Z.eqb_spec (UnixNano x) (UnixNano y)) as [E|E]].
  - split.
    + apply sorted_cons. split; [|done]. apply Forall_forall. intros z Hz. apply merge_loop_elem in Hz as [Hz|Hz].
      * rewrite Forall_forall in Hx. by apply Hx.
      * apply elem_of_cons in Hz as [->|Hz]; [done|]. rewrite Forall_forall in Hy. specialize (Hy z Hz). unfold before in *. lia.
    + rewrite values_map_cons, M1, (values_map_cons x a). by rewrite (assoc_L (∪)).
  - split; [done|]. rewrite M1, (values_map_cons x a), (assoc_L (∪)). symmetry. apply map_eq. intros k.
    rewrite lookup_union. destruct ((values_map (y :: b) ∪ values_map a) !! k) eqn:Ek; [by destruct ({[UnixNano x := x]} !! k)|].
    destruct ({[UnixNano x := x]} !! k) as [z|] eqn:Ez; [|done]. apply lookup_singleton_Some in Ez as [Ez _]. subst k.
    apply lookup_union_None in Ek as [Ek _]. rewrite E in Ek.
    rewrite (sorted_lookup (y :: b) y Hyb ltac:(left)) in Ek. done.
  - split.
    + apply sorted_cons. split; [|done]. apply Forall_forall. intros z Hz. apply merge_loop_elem in Hz as [Hz|Hz].
      * apply elem_of_cons in Hz as [->|Hz]; [unfold before; lia|]. rewrite Forall_forall in Hx. specialize (Hx z Hz). unfold before in *. lia.
      * rewrite Forall_forall in Hy. by apply Hy.
    + rewrite values_map_cons, M2, (values_map_cons y b), <- !(assoc_L (∪)). f_equal. apply map_union_comm.
      apply map_disjoint_singleton_r, values_map_None. apply Forall_cons. split; [done|].
      eapply Forall_impl; [exact Hx|]. unfold before. cbn. intros; lia.
Qed.

Lemma ends_nonempty a : a <> [] -> exists x y, head a = Some x /\ last a = Some y.
Proof.
  intros Hn. destruct a as [|x a]; [done|]. destruct (last (x :: a)) as [y|] eqn:E; [by exists x, y|].
  by apply last_None in E.
Qed.

Lemma sorted_append a b x y :
  Sorted a -> Sorted b -> last a = Some x -> head b = Some y -> UnixNano x < UnixNano y -> Sorted (a ++ b).
Proof.
  intros Ha Hb Hx Hy Hlt. apply sorted_app. split_and!; [done|done|].
  destruct (ends_nonempty a) as (x0 & ? & Hx0 & ?); [by intros ->|].
  destruct (ends_nonempty b) as (? & y1 & ? & Hy1); [by intros ->|].
  pose proof (sorted_bounds a x0 x Ha Hx0 Hx) as Fa. pose proof (sorted_bounds b y y1 Hb Hy Hy1) as Fb.
  eapply Forall_impl; [exact Fa|]. cbn. intros z Hz. eapply Forall_impl; [exact Fb|]. cbn. unfold before. intros; lia.
Qed.

Lemma sorted_disjoint a b x y :
  Sorted a -> Sorted b -> last a = Some x -> head b = Some y -> UnixNano x < UnixNano y ->
  values_map a ##ₘ values_map b.
Proof.
  intros Ha Hb Hx Hy Hlt. pose proof (sorted_append a b x y Ha Hb Hx Hy Hlt) as (_ & _ & Hf)%sorted_app.
  apply map_disjoint_spec. intros k u v Hu%values_map_time Hv%values_map_time.
  rewrite Forall_forall in Hf. destruct Hu as [Eu Hu], Hv as [Ev Hv]. specialize (Hf u Hu).
  rewrite Forall_forall in Hf. specialize (Hf v Hv). unfold before in Hf. lia.
Qed.

(** The three ways [Merge] combines two non-empty ordered slices. *)
Definition merge_cases (a b : list A) : outcome (list A) :=
  let! amax := MaxTime a in
  let! bmin := MinTime b in
  if amax <? bmin then Ret (a ++ b)
  else
    let! bmax := MaxTime b in
    let! amin := MinTime a in
    if bmax <? amin then Ret (b ++ a) else Ret (merge_loop a b).

Lemma merge_cases_run a b :
  Sorted a -> Sorted b -> a <> [] -> b <> [] ->
  exists c, merge_cases a b = Ret c /\ Sorted c /\ values_map c = values_map b ∪ values_map a.
Proof.
  intros Ha Hb Na Nb. unfold merge_cases, MaxTime, MinTime.
  destruct (ends_nonempty a Na) as (a0 & a1 & Ea0 & Ea1), (ends_nonempty b Nb) as (b0 & b1 & Eb0 & Eb1).
  rewrite Ea0, Ea1, Eb0, Eb1. cbn [or_panic obind].
  destruct (Z.ltb_spec (UnixNano a1) (UnixNano b0)).
  { eexists; split_and!; [done|by eapply sorted_append|apply values_map_app]. }
  destruct (Z.ltb_spec (UnixNano b1) (UnixNano a0)).
  { eexists; split_and!; [done|by eapply sorted_append|]. rewrite values_map_app. symmetry. apply map_union_comm.
    by eapply sorted_disjoint. }
  destruct (merge_loop_spec a b Ha Hb). by eexists; split_and!.
Qed.

Lemma Merge_run a b :
  exists c, Merge a b = Ret c /\ values_map c = values_map b ∪ values_map a /\ (a <> [] -> b <> [] -> Sorted c).
Proof.
  unfold Merge. destruct a as [|x a]; [exists b; split_and!; try done; by rewrite values_map_nil, (right_id_L ∅ (∪))|].
  destruct b as [|y b]; [eexists; split_and!; try done; by rewrite values_map_nil, (left_id_L ∅ (∪))|].
  cbn [length Nat.eqb].
  destruct (Deduplicate_run (x :: a)) as (a' & -> & Sa & Ma & Na), (Deduplicate_run (y :: b)) as (b' & -> & Sb & Mb & Nb).
  cbn [obind]. destruct (merge_cases_run a' b' Sa Sb (Na ltac:(done)) (Nb ltac:(done))) as (c & E & Sc & Mc).
  unfold merge_cases in E. rewrite E. exists c. by rewrite Mc, Ma, Mb.
Qed.

Lemma sorted_NoDup a : Sorted a -> NoDup a.
Proof.
  induction 1 as [|x a Hs IH Hf]; constructor; [|done]. intros Hx. rewrite Forall_forall in Hf.
  specialize (Hf x Hx). unfold before in Hf. lia.
Qed.

(** Deduplication only drops values. *)
Lemma Deduplicate_submseteq a a' : Deduplicate a = Ret a' -> a' ⊆+ a.
Proof.
  intros E. destruct (Deduplicate_run a) as (c & Ec & Hs & Hm & _). rewrite E in Ec. injection Ec as <-.
  apply NoDup_submseteq; [by apply sorted_NoDup|]. intros x Hx. apply sorted_lookup in Hx; [|done]. rewrite Hm in Hx.
  by apply values_map_time in Hx as [_ Hx].
Qed.

Lemma Deduplicate_sorted a : Sorted a -> Deduplicate a = Ret a.
Proof.
  intros Hs. unfold Deduplicate. destruct (length a <=? 1)%nat; [done|]. by rewrite (proj2 (ordered_spec a) Hs).
Qed.

Lemma Merge_sorted a b : Sorted a -> Sorted b -> a <> [] -> b <> [] -> Merge a b = merge_cases a b.
Proof.
  intros Ha Hb Na Nb. unfold Merge. destruct a; [done|]. destruct b; [done|]. cbn [length Nat.eqb].
  by rewrite (Deduplicate_sorted _ Ha), (Deduplicate_sorted _ Hb).
Qed.

(** Equal timestamps: the entry of [b] is kept and both slices advance. *)
Lemma merge_loop_eq x a y b :
  Sorted (x :: a) -> UnixNano x = UnixNano y -> merge_loop (x :: a) (y :: b) = y :: merge_loop a b.
Proof.
  intros [Hf _]%sorted_cons E. rewrite merge_loop_cons, E, Z.ltb_irrefl, Z.eqb_refl.
  destruct a as [|x' a]; [by rewrite !merge_loop_nil_l|]. rewrite merge_loop_cons.
  apply Forall_cons in Hf as [Hx _]. unfold before in Hx.
  destruct (Z.ltb_spec (UnixNano x') (UnixNano y)); [lia|]. by destruct (Z.eqb_spec (UnixNano x') (UnixNano y)); [lia|].
Qed.

(** Deduplication computes the canonical form of a slice: it always
    returns a strictly ordered slice that stands for the same map from
    timestamps to values (the last entry for a timestamp wins), and two slices
    that stand for the same map, however ordered and with whatever superseded
    entries, deduplicate to the same slice. *)
Theorem Deduplicate_canonical a b :
  (exists c, Deduplicate a = Ret c /\ Sorted c /\ values_map c = values_map a) /\
  (values_map a = values_map b <-> Deduplicate a = Deduplicate b).
Proof.
  destruct (Deduplicate_run a) as (c & Ea & Sa & Ma & _), (Deduplicate_run b) as (d & Eb & Sb & Mb & _).
  split; [by exists c|]. rewrite Ea, Eb. split.
  - intros E. f_equal. apply sorted_ext; [done|done|congruence].
  - intros [= ->]. congruence.
Qed.

(** C13. [Merge] implements the union of finite maps in which [b] takes
    precedence: it returns on every pair of slices, ordered or not, and the
    result stands for [b]'s entries together with those of [a] at other
    timestamps; the result of merging two non-empty slices is strictly
    ordered. *)
Theorem Merge_refines_union a b :
  exists c, Merge a b = Ret c /\ values_map c = values_map b ∪ values_map a /\ (a <> [] -> b <> [] -> Sorted c).
Proof. apply Merge_run. Qed.

(** On a strictly ordered slice [Include] and [Exclude] split the map at
    the range \[min, max\]: each returns an ordered slice that stands for the
    entries inside (outside) the range, and merging the two parts gives the
    slice back. *)
Theorem Include_Exclude_split a min max :
  Sorted a ->
  exists i e, Include a min max = Ret i /\ Exclude a min max = Ret e /\ Sorted i /\ Sorted e /\
    values_map i = filter (fun kv => (min <=? kv.1) && (kv.1 <=? max) = true) (values_map a) /\
    values_map e = filter (fun kv => negb ((min <=? kv.1) && (kv.1 <=? max)) = true) (values_map a) /\
    Merge e i = Ret a.
Proof.
  intros Hs. rewrite Include_run, Exclude_run by done.
  set (p t := (min <=? t) && (t <=? max)). set (i := List.filter (in_range min max) a).
  set (e := List.filter (fun x => negb (in_range min max x)) a). exists i, e.
  assert (Mi : values_map i = filter (fun kv => p kv.1 = true) (values_map a)) by apply (values_map_filter p).
  assert (Me : values_map e = filter (fun kv => negb (p kv.1) = true) (values_map a))
    by apply (values_map_filter (fun t => negb (p t))).
  assert (Si : Sorted i) by (by apply filter_sorted). assert (Se : Sorted e) by (by apply filter_sorted).
  split_and!; try done. destruct (Merge_run e i) as (c & E & Mc & Sc). rewrite E. f_equal. apply sorted_ext; [|done|].
  - unfold Merge in E. destruct (decide (e = [])) as [He|He]; [rewrite He in E; cbn in E; by injection E as <-|].
    destruct (decide (i = [])) as [Hi|Hi]; [|by apply Sc]. rewrite Hi in E. destruct e; [done|]. cbn in E. by injection E as <-.
  - rewrite Mc, Mi, Me. apply map_eq. intros k. apply option_eq. intros z.
    rewrite lookup_union_Some_raw, !map_lookup_filter_Some, map_lookup_filter_None. cbn.
    destruct (p k) eqn:Ep; cbn; [|naive_solver congruence].
    split; [intros [[? _]|(_ & _ & ?)]; [done|discriminate]|tauto].
Qed.

End Slice.

(** ** The value types of [encoding.go]

    A float64 is kept as its 64-bit pattern and a string as its bytes. *)
Record TValue (V : Type) : Type := MkValue { unixnano : Z; value : V }.
Arguments MkValue {V} _ _.
Arguments unixnano {V} _.
Arguments value {V} _.

Definition FloatValue : Type := TValue Z.
Definition IntegerValue : Type := TValue Z.
Definition UnsignedValue : Type := TValue Z.
Definition BooleanValue : Type := TValue bool.
Definition StringValue : Type := TValue (list Z).

(** [tsdb.EOF] *)
Definition EOF : Z := - 2 ^ 63.

(** The implementations of the interface [Value]. *)
Inductive Value : Type :=
| VFloat (v : FloatValue)
| VInteger (v : IntegerValue)
| VUnsigned (v : UnsignedValue)
| VBoolean (v : BooleanValue)
| VString (v : StringValue)
| VEmpty.

Definition UnixNano (v : Value) : Z :=
  match v with
  | VFloat v | VInteger v | VUnsigned v => unixnano v
  | VBoolean v => unixnano v
  | VString v => unixnano v
  | VEmpty => EOF
  end.

Definition StringValue_Size (v : StringValue) : Z := 8 + Z.of_nat (length (value v)).
Definition Value_Size (v : Value) : Z :=
  match v with
  | VFloat _ | VInteger _ | VUnsigned _ => 16
  | VBoolean _ => 9
  | VString v => StringValue_Size v
  | VEmpty => 0
  end.

(** The argument of [NewValue]: the types its switch distinguishes. *)
Inductive dynamic : Type :=
| DInt64 (v : Z) | DUint64 (v : Z) | DFloat64 (v : Z) | DBool (v : bool) | DString (v : list Z) | DOther.

Definition NewValue (t : Z) (x : dynamic) : Value :=
  match x with
  | DInt64 v => VInteger (MkValue t v)
  | DUint64 v => VUnsigned (MkValue t v)
  | DFloat64 v => VFloat (MkValue t v)
  | DBool v => VBoolean (MkValue t v)
  | DString v => VString (MkValue t v)
  | DOther => VEmpty
  end.

(** [Values.Size] *)
Definition Size {A} (sz : A -> Z) (a : list A) : Z := foldl (fun n v => n + sz v) 0 a.

Lemma Size_acc {A} (sz : A -> Z) a n : foldl (fun n v => n + sz v) n a = n + Size sz a.
Proof.
  unfold Size. revert n. induction a as [|x a IH]; intros n; cbn [foldl]; [lia|]. rewrite IH, (IH (0 + sz x)). lia.
Qed.

Lemma Size_app {A} (sz : A -> Z) a b : Size sz (a ++ b) = Size sz a + Size sz b.
Proof. unfold Size at 1. rewrite foldl_app. apply Size_acc. Qed.

Lemma Size_cons {A} (sz : A -> Z) x a : Size sz (x :: a) = sz x + Size sz a.
Proof. unfold Size at 1. cbn [foldl]. rewrite Size_acc. lia. Qed.

Lemma Size_submseteq {A} (sz : A -> Z) a b : (forall x, 0 <= sz x) -> a ⊆+ b -> Size sz a <= Size sz b.
Proof.
  intros Hsz. induction 1; rewrite ?Size_cons; try lia; specialize (Hsz x); lia.
Qed.

Lemma Value_Size_nonneg v : 0 <= Value_Size v.
Proof. destruct v; cbn; unfold StringValue_Size; lia. Qed.

(** The methods the template generates for a slice type. *)
Record SliceMethods (A : Type) : Type := {
  sm_MinTime : list A -> outcome Z;
  sm_MaxTime : list A -> outcome Z;
  sm_Size : list A -> Z;
  sm_ordered : list A -> bool;
  sm_assertOrdered : list A -> outcome unit;
  sm_Deduplicate : list A -> outcome (list A);
  sm_Exclude : list A -> Z -> Z -> outcome (list A);
  sm_Include : list A -> Z -> Z -> outcome (list A);
  sm_search : list A -> Z -> outcome nat;
  sm_FindRange : list A -> Z -> Z -> outcome (option (nat * nat));
  sm_Merge : list A -> list A -> outcome (list A) }.

Definition slice_methods {A} (time : A -> Z) (sz : A -> Z) : SliceMethods A := {|
  sm_MinTime := MinTime time;
  sm_MaxTime := MaxTime time;
  sm_Size := Size sz;
  sm_ordered := ordered time;
  sm_assertOrdered := assertOrdered time;
  sm_Deduplicate := Deduplicate time;
  sm_Exclude := Exclude time;
  sm_Include := Include time;
  sm_search := search time;
  sm_FindRange := FindRange time;
  sm_Merge := Merge time |}.

Definition FloatValues : SliceMethods FloatValue := slice_methods unixnano (fun _ => 16).
Definition IntegerValues : SliceMethods IntegerValue := slice_methods unixnano (fun _ => 16).
Definition UnsignedValues : SliceMethods UnsignedValue := slice_methods unixnano (fun _ => 16).
Definition BooleanValues : SliceMethods BooleanValue := slice_methods unixnano (fun _ => 9).
Definition StringValues : SliceMethods StringValue := slice_methods unixnano StringValue_Size.

(** The boxed slice [Values] has the same methods. *)
Definition Values_methods : SliceMethods Value := slice_methods UnixNano Value_Size.

(** Two writes of one series: the second overlays the first. *)
Definition sample_old : list IntegerValue := [MkValue 10 1; MkValue 20 2; MkValue 30 3].
Definition sample_new : list IntegerValue := [MkValue 40 9; MkValue 20 7; MkValue 5 8; MkValue 20 6].

Example Merge_sample :
  sm_Merge _ IntegerValues sample_old sample_new
  = Ret [MkValue 5 8; MkValue 10 1; MkValue 20 6; MkValue 30 3; MkValue 40 9].
Proof. reflexivity. Qed.

Example Exclude_sample : sm_Exclude _ IntegerValues sample_old 15 30 = Ret [MkValue 10 1].
Proof. reflexivity. Qed.

Lemma Include_Exclude_split_witness :
  exists i e, Include unixnano sample_old 15 30 = Ret i /\ Exclude unixnano sample_old 15 30 = Ret e /\
    Merge unixnano e i = Ret sample_old.
Proof.
  destruct (Include_Exclude_split unixnano sample_old 15 30) as (i & e & Hi & He & _ & _ & _ & _ & Hm).
  { repeat constructor. }
  by exists i, e.
Defined.
End Values.
