(* ===== verification/ArrayValues.v ===== *)
(** * Arrays of timestamps and values

    Models [tsdb/cursors/arrayvalues.gen.go]: the array form of a series'
    values, two slices indexed in step.  The code is one template, generated
    for five value types; [Section Array] is the template and the typed arrays
    are its instances.  The theorems show that an array computes what the
    slice of its (timestamp, value) pairs computes with the operations of
    [Values.v]. *)
From S2P Require Import Prelude Values.
From stdpp Require Import gmap sorting.
Import Values.
#[global] Open Scope Z_scope.

Module ArrayValues.

Record Arr (V : Type) : Type := MkArr { Timestamps : list Z; Vals : list V }.
Arguments MkArr {V} _ _.
Arguments Timestamps {V} _.
Arguments Vals {V} _.

(** [l\[lo:hi\]]; capacities equal lengths. *)
Definition subslice {A} (lo hi : nat) (l : list A) : outcome (list A) :=
  if (lo <=? hi)%nat && (hi <=? length l)%nat then Ret (take (hi - lo) (drop lo l)) else Panic.

(** [l\[k\] = x] *)
Definition store {A} (k : nat) (x : A) (l : list A) : outcome (list A) :=
  if (k <? length l)%nat then Ret (<[k := x]> l) else Panic.

(** [copy(dst\[k:\], src)]: the overlapping part of [src] is written. *)
Definition copy_at {A} (k : nat) (src dst : list A) : list A :=
  take k dst ++ take (length dst - k) src ++ drop (k + length src) dst.

Section Array.
Context {V : Type} (zero : V).
Implicit Types a b out : Arr V.

Definition NewArrayLen (sz : nat) : Arr V := MkArr (replicate sz 0) (replicate sz zero).

Definition MinTime (a : Arr V) : outcome Z := or_panic (head (Timestamps a)).
Definition MaxTime (a : Arr V) : outcome Z := or_panic (last (Timestamps a)).

(** [Len] is called on pointers that may be nil. *)
Definition Len (a : option (Arr V)) : nat :=
  match a with Some a => length (Timestamps a) | None => 0%nat end.

Fixpoint search_loop (fuel : nat) (a : Arr V) (v : Z) (lo hi : nat) : outcome nat :=
  match fuel with
  | O => Panic
  | S f =>
    if (lo <? hi)%nat then
      let mid := ((lo + hi) / 2)%nat in
      let! t := or_panic (Timestamps a !! mid) in
      if t <? v then search_loop f a v (S mid) hi else search_loop f a v lo mid
    else Ret lo
  end.
Definition search (a : Arr V) (v : Z) : outcome nat :=
  search_loop (S (Len (Some a))) a v 0 (Len (Some a)).

Definition FindRange (a : Arr V) (min max : Z) : outcome (option (nat * nat)) :=
  if (Len (Some a) =? 0)%nat || (max <? min) then Ret None
  else
    let! minVal := MinTime a in
    let! maxVal := MaxTime a in
    if (maxVal <? min) || (max <? minVal) then Ret None
    else
      let! rmin := search a min in
      let! rmax := search a max in
      Ret (Some (rmin, rmax)).

(** [ts := l\[:rmin+rest\]; copy(ts\[rmin:\], l\[rmax:\])] *)
Definition close_gap {A} (rmin rmax rest : nat) (l : list A) : outcome (list A) :=
  let! ts := subslice 0 (rmin + rest) l in
  let! tail := subslice rmax (length l) l in
  Ret (copy_at rmin tail ts).

Definition Exclude (a : Arr V) (min max : Z) : outcome (Arr V) :=
  let! r := FindRange a min max in
  match r with
  | None => Ret a
  | Some (rmin, rmax) =>
    let cut :=
      let! ts := subslice 0 rmin (Timestamps a) in
      let! vs := subslice 0 rmin (Vals a) in
      Ret (MkArr ts vs) in
    if (rmax <? Len (Some a))%nat then
      let! t := or_panic (Timestamps a !! rmax) in
      let rmax := if t =? max then S rmax else rmax in
      let rest := (Len (Some a) - rmax)%nat in
      if (0 <? rest)%nat then
        let! ts := close_gap rmin rmax rest (Timestamps a) in
        let! vs := close_gap rmin rmax rest (Vals a) in
        Ret (MkArr ts vs)
      else cut
    else cut
  end.

Definition Include (a : Arr V) (min max : Z) : outcome (Arr V) :=
  let! r := FindRange a min max in
  match r with
  | None => Ret (MkArr [] [])
  | Some (rmin, rmax) =>
    let! rmax :=
      (if (rmax <? Len (Some a))%nat then
         let! t := or_panic (Timestamps a !! rmax) in Ret (if t =? max then S rmax else rmax)
       else Ret rmax) in
    let! ts := subslice rmin rmax (Timestamps a) in
    let! vs := subslice rmin rmax (Vals a) in
    Ret (MkArr ts vs)
  end.

(** The loop of [Merge]: one round reads [a\[i\]] and [b\[j\]] and writes
    [out\[k\]]. *)
Fixpoint merge_loop (fuel : nat) (a b : Arr V) (i j k : nat) (out : Arr V) : outcome (nat * nat * nat * Arr V) :=
  if (i <? length (Timestamps a))%nat && (j <? length (Timestamps b))%nat then
    match fuel with
    | O => Panic
    | S f =>
      let! s := or_panic (Timestamps a !! i) in
      let! t := or_panic (Timestamps b !! j) in
      if s <? t then
        let! v := or_panic (Vals a !! i) in
        let! ts := store k s (Timestamps out) in
        let! vs := store k v (Vals out) in
        merge_loop f a b (S i) j (S k) (MkArr ts vs)
      else
        let! v := or_panic (Vals b !! j) in
        let! ts := store k t (Timestamps out) in
        let! vs := store k v (Vals out) in
        merge_loop f a b (if s =? t then S i else i) (S j) (S k) (MkArr ts vs)
    end
  else Ret (i, j, k, out).

(** The rest of the array that is not exhausted, copied behind [k]. *)
Definition copy_rest (a : Arr V) (i k : nat) (out : Arr V) : outcome (nat * Arr V) :=
  let! ts := subslice i (length (Timestamps a)) (Timestamps a) in
  let! vs := subslice i (length (Vals a)) (Vals a) in
  let n := Nat.min (length (Timestamps out) - k) (length ts) in
  Ret ((k + n)%nat, MkArr (copy_at k ts (Timestamps out)) (copy_at k vs (Vals out))).

Definition Merge (a b : Arr V) : outcome (Arr V) :=
  if (Len (Some a) =? 0)%nat then Ret b
  else if (Len (Some b) =? 0)%nat then Ret a
  else
    let! amax := MaxTime a in
    let! bmin := MinTime b in
    if amax <? bmin then Ret (MkArr (Timestamps a ++ Timestamps b) (Vals a ++ Vals b))
    else
      let! bmax := MaxTime b in
      let! amin := MinTime a in
      if bmax <? amin then Ret (MkArr (Timestamps b ++ Timestamps a) (Vals b ++ Vals a))
      else
        let n := (Len (Some a) + Len (Some b))%nat in
        let! (((i, j), k), out) := merge_loop n a b 0 0 0 (NewArrayLen n) in
        let! (k, out) :=
          (if (i <? length (Timestamps a))%nat then copy_rest a i k out
           else if (j <? length (Timestamps b))%nat then copy_rest b j k out
           else Ret (k, out)) in
        let! ts := subslice 0 k (Timestamps out) in
        let! vs := subslice 0 k (Vals out) in
        Ret (MkArr ts vs).

(** ** The array of a slice of pairs *)

Definition of_pairs (l : list (Z * V)) : Arr V := MkArr l.*1 l.*2.
Implicit Types l : list (Z * V).

Lemma of_pairs_len l : Len (Some (of_pairs l)) = length l.
Proof. cbn. apply length_fmap. Qed.

Lemma subslice_run {B} lo hi (l : list B) :
  (lo <= hi <= length l)%nat -> subslice lo hi l = Ret (take (hi - lo) (drop lo l)).
Proof.
  intros H. unfold subslice. by rewrite (proj2 (Nat.leb_le lo hi)), (proj2 (Nat.leb_le hi (length l))) by lia.
Qed.

Lemma subslice_to {B} hi (l : list B) : (hi <= length l)%nat -> subslice 0 hi l = Ret (take hi l).
Proof. intros H. rewrite subslice_run by lia. by rewrite Nat.sub_0_r, drop_0. Qed.

Lemma subslice_from {B} lo (l : list B) : (lo <= length l)%nat -> subslice lo (length l) l = Ret (drop lo l).
Proof. intros H. rewrite subslice_run by lia. rewrite take_ge; [done|rewrite length_drop; lia]. Qed.

Lemma copy_at_all {B} k (src dst : list B) :
  (k + length src <= length dst)%nat -> copy_at k src dst = take k dst ++ src ++ drop (k + length src) dst.
Proof. intros H. unfold copy_at. by rewrite (take_ge src) by lia. Qed.

Lemma close_gap_run {B} k m (l : list B) :
  (k <= m <= length l)%nat -> close_gap k m (length l - m) l = Ret (take k l ++ drop m l).
Proof.
  intros H. unfold close_gap. rewrite subslice_to, subslice_from by lia. cbn [obind]. f_equal.
  rewrite copy_at_all by (rewrite length_take, length_drop; lia).
  rewrite take_take, length_drop, (drop_ge (take _ _)) by (rewrite length_take; lia).
  by rewrite app_nil_r, Nat.min_l by lia.
Qed.

Lemma search_pairs fuel l v lo hi :
  search_loop fuel (of_pairs l) v lo hi = Values.search_loop fst fuel l v lo hi.
Proof.
  revert lo hi. induction fuel as [|f IH]; intros lo hi; [done|]. cbn [search_loop Values.search_loop].
  destruct (_ <? _)%nat; [|done]. cbn [Timestamps of_pairs]. rewrite list_lookup_fmap.
  destruct (l !! _) as [x|]; [|done]. cbn [fmap option_fmap option_map or_panic obind]. destruct (_ <? _); apply IH.
Qed.

Lemma MinTime_pairs l : MinTime (of_pairs l) = Values.MinTime fst l.
Proof. by destruct l. Qed.

Lemma MaxTime_pairs l : MaxTime (of_pairs l) = Values.MaxTime fst l.
Proof. unfold MaxTime, Values.MaxTime. cbn. rewrite fmap_last. by destruct (last l). Qed.

Lemma FindRange_pairs l min max : FindRange (of_pairs l) min max = Values.FindRange fst l min max.
Proof.
  unfold FindRange, Values.FindRange, search, Values.search.
  by rewrite of_pairs_len, MinTime_pairs, MaxTime_pairs, !search_pairs.
Qed.

Lemma time_lookup l k : Timestamps (of_pairs l) !! k = fst <$> l !! k.
Proof. apply list_lookup_fmap. Qed.

Lemma Include_pairs l min max :
  StronglySorted (before fst) l ->
  Include (of_pairs l) min max = (let! c := Values.Include fst l min max in Ret (of_pairs c)).
Proof.
  intros Hs. unfold Include, Values.Include. rewrite FindRange_pairs.
  destruct (FindRange_run fst l min max Hs) as [[-> _]|(k1 & k2 & -> & Hle & H1 & H2)]; [done|]. cbn [obind].
  rewrite of_pairs_len, time_lookup. destruct (range_cut fst l min max k1 k2 Hs Hle H1 H2) as (Hk & _ & _).
  destruct H2 as [H2 _]. unfold upper in Hk.
  assert (E : forall k, (k1 <= k <= length l)%nat ->
    (let! ts := subslice k1 k (Timestamps (of_pairs l)) in
     let! vs := subslice k1 k (Vals (of_pairs l)) in Ret (MkArr ts vs)) =
    (let! c := (if (k <? k1)%nat then Panic else Ret (take (k - k1) (drop k1 l))) in Ret (of_pairs c))).
  { intros k Hr. cbn [Timestamps Vals of_pairs]. rewrite !subslice_run by (rewrite length_fmap; lia).
    rewrite (proj2 (Nat.ltb_ge k k1)) by lia. cbn [obind]. unfold of_pairs. by rewrite !fmap_take, !fmap_drop. }
  destruct (Nat.ltb_spec k2 (length l)) as [Hlt|Hge]; [|apply E; rewrite (lookup_ge_None_2 l k2) in Hk by done; lia].
  destruct (lookup_lt_is_Some_2 l k2 Hlt) as [x Hx]. rewrite Hx in *.
  cbn [fmap option_fmap option_map or_panic obind]. apply E. destruct (_ =? _); lia.
Qed.

Lemma Exclude_pairs l min max :
  StronglySorted (before fst) l ->
  Exclude (of_pairs l) min max = (let! c := Values.Exclude fst l min max in Ret (of_pairs c)).
Proof.
  intros Hs. unfold Exclude, Values.Exclude. rewrite FindRange_pairs.
  destruct (FindRange_run fst l min max Hs) as [[-> _]|(k1 & k2 & -> & Hle & H1 & H2)]; [done|]. cbn [obind].
  rewrite of_pairs_len, time_lookup. destruct (range_cut fst l min max k1 k2 Hs Hle H1 H2) as (Hk & _ & _).
  destruct H1 as [H1 _], H2 as [H2 _]. unfold upper in Hk.
  assert (E : (let! ts := subslice 0 k1 (Timestamps (of_pairs l)) in
     let! vs := subslice 0 k1 (Vals (of_pairs l)) in Ret (MkArr ts vs)) = Ret (of_pairs (take k1 l))).
  { cbn [Timestamps Vals of_pairs]. rewrite !subslice_to by (rewrite length_fmap; lia). unfold of_pairs. by rewrite !fmap_take. }
  rewrite E. destruct (Nat.ltb_spec k2 (length l)) as [Hlt|Hge]; [|done].
  destruct (lookup_lt_is_Some_2 l k2 Hlt) as [x Hx]. rewrite Hx in *. cbn [fmap option_fmap option_map or_panic obind].
  set (k := if x.1 =? max then S k2 else k2) in *.
  assert (Hkl : (k <= length l)%nat) by (subst k; destruct (_ =? _); lia).
  destruct (0 <? length l - k)%nat; [|done]. cbn [Timestamps Vals of_pairs].
  replace (length l - k)%nat with (length l.*1 - k)%nat at 1 by (by rewrite length_fmap).
  replace (length l - k)%nat with (length l.*2 - k)%nat by (by rewrite length_fmap).
  rewrite !close_gap_run by (rewrite length_fmap; lia). cbn [obind]. unfold of_pairs.
  by rewrite !fmap_app, !fmap_take, !fmap_drop.
Qed.

(** *** Merging *)

Lemma vals_lookup l k : Vals (of_pairs l) !! k = snd <$> l !! k.
Proof. apply list_lookup_fmap. Qed.

Lemma store_bind {B} o k x (f : Arr V -> outcome B) :
  (k < length o)%nat ->
  (let! ts := store k x.1 (Timestamps (of_pairs o)) in let! vs := store k x.2 (Vals (of_pairs o)) in f (MkArr ts vs))
  = f (of_pairs (<[k := x]> o)).
Proof.
  intros H. unfold store. cbn [Timestamps Vals of_pairs]. rewrite !length_fmap, (proj2 (Nat.ltb_lt k (length o))) by done.
  cbn [obind]. unfold of_pairs. by rewrite !list_fmap_insert.
Qed.

Lemma take_S_insert {B} k (x : B) o : (k < length o)%nat -> take (S k) (<[k := x]> o) = take k o ++ [x].
Proof.
  intros H. rewrite (take_S_r _ k x) by (by apply list_lookup_insert_eq). by rewrite take_insert_ge.
Qed.

(** What the loop of [Merge] has written, followed by what is left to merge,
    does not change from round to round. *)
Lemma merge_loop_pairs fuel la lb i j k o :
  StronglySorted (before fst) la ->
  (i <= length la)%nat -> (j <= length lb)%nat ->
  (k + (length la - i) + (length lb - j) <= length o)%nat -> ((length la - i) + (length lb - j) <= fuel)%nat ->
  exists i' j' k' o',
    merge_loop fuel (of_pairs la) (of_pairs lb) i j k (of_pairs o) = Ret (i', j', k', of_pairs o') /\
    (i' <= length la)%nat /\ (j' <= length lb)%nat /\ (i' = length la \/ j' = length lb) /\
    (k' + (length la - i') + (length lb - j') <= length o')%nat /\
    take k' o' ++ Values.merge_loop fst (drop i' la) (drop j' lb) =
    take k o ++ Values.merge_loop fst (drop i la) (drop j lb).
Proof.
  intros Hs. revert i j k o. induction fuel as [|f IH]; intros i j k o Hi Hj Hk Hf; cbn [merge_loop];
    cbn [Timestamps Vals of_pairs]; rewrite !length_fmap; destruct (Nat.ltb_spec i (length la)) as [Hil|Hil]; cbn [andb];
    try (exists i, j, k, o; split_and!; try done; lia).
  destruct (Nat.ltb_spec j (length lb)) as [Hjl|Hjl]; [|exists i, j, k, o; split_and!; try done; lia].
  destruct (lookup_lt_is_Some_2 la i Hil) as [x Hx], (lookup_lt_is_Some_2 lb j Hjl) as [y Hy].
  rewrite !list_lookup_fmap, Hx, Hy. cbn [fmap option_fmap option_map or_panic obind].
  fold (of_pairs la) (of_pairs lb). change (o.*1) with (Timestamps (of_pairs o)). change (o.*2) with (Vals (of_pairs o)).
  assert (Hso : StronglySorted (before fst) (x :: drop (S i) la)).
  { rewrite <- (drop_S la x i Hx). rewrite <- (take_drop i la) in Hs. by apply sorted_app in Hs as (_ & ? & _). }
  destruct (Z.ltb_spec x.1 y.1) as [Hlt|Hge].
  - rewrite (store_bind o k x) by lia.
    destruct (IH (S i) j (S k) (<[k := x]> o)) as (i' & j' & k' & o' & -> & ? & ? & ? & ? & E);
      rewrite ?length_insert; [lia..|]. eexists _, _, _, _. split_and!; try done.
    rewrite E, take_S_insert, <- app_assoc by lia. rewrite (drop_S la x i Hx), (drop_S lb y j Hy), merge_loop_cons.
    by rewrite (proj2 (Z.ltb_lt x.1 y.1)).
  - rewrite (store_bind o k y) by lia. destruct (Z.eqb_spec x.1 y.1) as [E|E].
    + destruct (IH (S i) (S j) (S k) (<[k := y]> o)) as (i' & j' & k' & o' & -> & ? & ? & ? & ? & E');
        rewrite ?length_insert; [lia..|]. eexists _, _, _, _. split_and!; try done.
      rewrite E', take_S_insert, <- app_assoc by lia. rewrite (drop_S la x i Hx), (drop_S lb y j Hy).
      by rewrite merge_loop_eq.
    + destruct (IH i (S j) (S k) (<[k := y]> o)) as (i' & j' & k' & o' & -> & ? & ? & ? & ? & E');
        rewrite ?length_insert; [lia..|]. eexists _, _, _, _. split_and!; try done.
      rewrite E', take_S_insert, <- app_assoc by lia. rewrite (drop_S la x i Hx), (drop_S lb y j Hy), merge_loop_cons.
      rewrite (proj2 (Z.ltb_ge x.1 y.1)), (proj2 (Z.eqb_neq x.1 y.1)) by lia. by rewrite <- (drop_S la x i Hx).
Qed.

Lemma copy_rest_pairs l i k o :
  (i <= length l)%nat -> (k + (length l - i) <= length o)%nat ->
  exists o', copy_rest (of_pairs l) i k (of_pairs o) = Ret ((k + (length l - i))%nat, of_pairs o') /\
    length o' = length o /\ take (k + (length l - i)) o' = take k o ++ drop i l.
Proof.
  intros Hi Hk. unfold copy_rest. cbn [Timestamps Vals of_pairs]. rewrite !subslice_from by (rewrite length_fmap; lia).
  cbn [obind]. rewrite <- !fmap_drop, !copy_at_all by (rewrite !length_fmap, length_drop; lia).
  rewrite !length_fmap, !length_drop, Nat.min_r by lia.
  exists (take k o ++ drop i l ++ drop (k + (length l - i)) o). split_and!.
  - unfold of_pairs. by rewrite !fmap_app, !fmap_take, !fmap_drop.
  - rewrite !length_app, length_take, !length_drop. lia.
  - rewrite app_assoc, take_app_le by (rewrite length_app, length_take, length_drop; lia).
    by rewrite take_ge by (rewrite length_app, length_take, length_drop; lia).
Qed.

Lemma NewArrayLen_pairs n : NewArrayLen n = of_pairs (replicate n (0, zero)).
Proof. unfold NewArrayLen, of_pairs. by rewrite !fmap_replicate. Qed.

Lemma cut_pairs k o :
  (k <= length o)%nat ->
  (let! ts := subslice 0 k (Timestamps (of_pairs o)) in let! vs := subslice 0 k (Vals (of_pairs o)) in Ret (MkArr ts vs))
  = Ret (of_pairs (take k o)).
Proof.
  intros H. cbn [Timestamps Vals of_pairs]. rewrite !subslice_to by (by rewrite length_fmap). unfold of_pairs. by rewrite !fmap_take.
Qed.

Lemma Merge_pairs la lb :
  StronglySorted (before fst) la -> StronglySorted (before fst) lb ->
  Merge (of_pairs la) (of_pairs lb) = (let! c := Values.Merge fst la lb in Ret (of_pairs c)).
Proof.
  intros Ha Hb. destruct (decide (la = [])) as [->|Na]; [done|]. destruct (decide (lb = [])) as [->|Nb].
  { by destruct la. }
  rewrite Merge_sorted by done. unfold Merge, merge_cases. rewrite !of_pairs_len, !MinTime_pairs, !MaxTime_pairs.
  unfold Values.MinTime, Values.MaxTime.
  destruct (ends_nonempty la Na) as (a0 & a1 & Ea0 & Ea1), (ends_nonempty lb Nb) as (b0 & b1 & Eb0 & Eb1).
  rewrite Ea0, Ea1, Eb0, Eb1. cbn [or_panic obind].
  rewrite !(proj2 (Nat.eqb_neq _ 0)) by (by intros ?%nil_length_inv).
  destruct (_ <? _); [cbn [obind Timestamps Vals of_pairs]; unfold of_pairs; by rewrite !fmap_app|]. destruct (_ <? _); [cbn [obind Timestamps Vals of_pairs]; unfold of_pairs; by rewrite !fmap_app|].
  cbn [obind]. rewrite NewArrayLen_pairs.
  destruct (merge_loop_pairs (length la + length lb) la lb 0 0 0 (replicate (length la + length lb) (0, zero)))
    as (i & j & k & o & -> & Hi & Hj & He & Hk & E); [done|lia|lia|rewrite length_replicate; lia|lia|].
  cbn [obind]. rewrite !drop_0 in E. change (take 0 _) with (@nil (Z * V)) in E. cbn [app] in E. rewrite <- E. clear E.
  change (length (Timestamps (of_pairs la))) with (Len (Some (of_pairs la))).
  change (length (Timestamps (of_pairs lb))) with (Len (Some (of_pairs lb))). rewrite !of_pairs_len.
  destruct (Nat.ltb_spec i (length la)) as [Hil|Hil].
  - destruct (copy_rest_pairs la i k o) as (o' & -> & Ho & Et); [lia|lia|]. cbn [obind]. rewrite cut_pairs by lia.
    rewrite (drop_ge lb j) by lia. by rewrite merge_loop_nil_r, Et.
  - rewrite (drop_ge la i), merge_loop_nil_l by lia. destruct (Nat.ltb_spec j (length lb)) as [Hjl|Hjl].
    + destruct (copy_rest_pairs lb j k o) as (o' & -> & Ho & Et); [lia|lia|]. cbn [obind]. rewrite cut_pairs by lia. by rewrite Et.
    + cbn [obind]. rewrite cut_pairs, (drop_ge lb j) by lia. by rewrite app_nil_r.
Qed.

(** C16. The array form computes what the slice form computes: on the arrays
    of strictly ordered slices of pairs, [FindRange], [Include], [Exclude] and
    [Merge] return the arrays of what the slice operations return on the
    pairs; in particular they never panic and never let timestamps and values
    get out of step. *)
Theorem array_operations_agree la lb min max :
  StronglySorted (before fst) la -> StronglySorted (before fst) lb ->
  FindRange (of_pairs la) min max = Values.FindRange fst la min max /\
  Include (of_pairs la) min max = (let! c := Values.Include fst la min max in Ret (of_pairs c)) /\
  Exclude (of_pairs la) min max = (let! c := Values.Exclude fst la min max in Ret (of_pairs c)) /\
  Merge (of_pairs la) (of_pairs lb) = (let! c := Values.Merge fst la lb in Ret (of_pairs c)).
Proof.
  intros Ha Hb. split_and!; [apply FindRange_pairs|by apply Include_pairs|by apply Exclude_pairs|by apply Merge_pairs].
Qed.

End Array.

(** ** The typed arrays *)

Record ArrayMethods (V : Type) : Type := {
  am_NewArrayLen : nat -> Arr V;
  am_MinTime : Arr V -> outcome Z;
  am_MaxTime : Arr V -> outcome Z;
  am_Len : option (Arr V) -> nat;
  am_search : Arr V -> Z -> outcome nat;
  am_FindRange : Arr V -> Z -> Z -> outcome (option (nat * nat));
  am_Exclude : Arr V -> Z -> Z -> outcome (Arr V);
  am_Include : Arr V -> Z -> Z -> outcome (Arr V);
  am_Merge : Arr V -> Arr V -> outcome (Arr V) }.

Definition array_methods {V} (zero : V) : ArrayMethods V := {|
  am_NewArrayLen := NewArrayLen zero;
  am_MinTime := MinTime;
  am_MaxTime := MaxTime;
  am_Len := Len;
  am_search := search;
  am_FindRange := FindRange;
  am_Exclude := Exclude;
  am_Include := Include;
  am_Merge := Merge zero |}.

Definition FloatArray : ArrayMethods Z := array_methods 0.
Definition IntegerArray : ArrayMethods Z := array_methods 0.
Definition UnsignedArray : ArrayMethods Z := array_methods 0.
Definition StringArray : ArrayMethods (list Z) := array_methods [].
Definition BooleanArray : ArrayMethods bool := array_methods false.

(** [NewFloatArrayFromValues] and its copies: entry by entry. *)
Fixpoint fill {V} (i : nat) (v : list (TValue V)) (a : Arr V) : outcome (Arr V) :=
  match v with
  | [] => Ret a
  | val :: v =>
    let! ts := store i (unixnano val) (Timestamps a) in
    let! vs := store i (value val) (Vals a) in
    fill (S i) v (MkArr ts vs)
  end.
Definition NewArrayFromValues {V} (zero : V) (v : list (TValue V)) : outcome (Arr V) :=
  fill 0 v (NewArrayLen zero (length v)).

Lemma fill_run {V} (v : list (TValue V)) i a :
  length (Timestamps a) = (i + length v)%nat -> length (Vals a) = (i + length v)%nat ->
  fill i v a = Ret (MkArr (take i (Timestamps a) ++ (unixnano <$> v)) (take i (Vals a) ++ (value <$> v))).
Proof.
  revert i a. induction v as [|x v IH]; intros i [ts vs]; cbn [length fill Timestamps Vals]; intros Ht Hv.
  { rewrite !take_ge, !app_nil_r by lia. done. }
  unfold store. rewrite Ht, Hv, !(proj2 (Nat.ltb_lt i _)) by lia. cbn [obind].
  rewrite IH by (cbn; rewrite length_insert; lia). cbn [Timestamps Vals].
  rewrite !take_S_insert, <- !app_assoc by lia. done.
Qed.

Lemma NewArrayFromValues_run {V} (zero : V) v :
  NewArrayFromValues zero v = Ret (of_pairs ((fun x => (unixnano x, value x)) <$> v)).
Proof.
  unfold NewArrayFromValues. rewrite fill_run by (cbn; by rewrite length_replicate).
  cbn. unfold of_pairs. by rewrite <- !list_fmap_compose.
Qed.

(** ** Timestamps without values *)

Definition TimestampArray_FindRange (a : list Z) (min max : Z) : outcome (option (nat * nat)) :=
  Values.FindRange id a min max.
Definition TimestampArray_Exclude (a : list Z) (min max : Z) : outcome (list Z) :=
  Values.Exclude id a min max.

Definition Contains (a : list Z) (min max : Z) : outcome bool :=
  let! r := TimestampArray_FindRange a min max in
  match r with
  | None => Ret false
  | Some (rmin, rmax) =>
    let! t := or_panic (a !! rmin) in
    if t =? min then Ret true
    else
      let! hit :=
        (if (rmax <? length a)%nat then let! u := or_panic (a !! rmax) in Ret (u =? max) else Ret false) in
      if hit then Ret true else Ret (0 <? Z.of_nat rmax - Z.of_nat rmin)
  end.

Lemma FindRange_inside {A} (time : A -> Z) (a : list A) min max k1 k2 :
  StronglySorted (before time) a -> Values.FindRange time a min max = Ret (Some (k1, k2)) -> (k1 < length a)%nat.
Proof.
  intros Hs E. destruct (FindRange_run time a min max Hs) as [[E' _]|(k1' & k2' & E' & _ & (Hk & Hb & _) & _)];
    rewrite E' in E; [done|injection E as -> ->]. destruct (decide (k1 = length a)) as [->|]; [exfalso|lia].
  unfold Values.FindRange, Values.MinTime, Values.MaxTime in E'.
  destruct (_ || _); [done|]. destruct (head a); [|done]. destruct (last a) as [y|] eqn:El; [|done]. cbn in E'.
  rewrite firstn_all in Hb. apply last_Some_elem_of in El. rewrite Forall_forall in Hb. specialize (Hb y El).
  by rewrite (proj2 (Z.ltb_lt (time y) min)) in E'.
Qed.

(** On ordered timestamps [Contains] answers, without panicking, whether
    some timestamp lies in \[min, max\]. *)
Theorem Contains_exact a min max :
  StronglySorted Z.lt a -> Contains a min max = Ret (existsb (fun t => (min <=? t) && (t <=? max)) a).
Proof.
  intros Hs. change (StronglySorted (before id) a) in Hs. unfold Contains, TimestampArray_FindRange.
  assert (Hin : forall t, t ∈ a -> min <= t <= max -> existsb (fun t => (min <=? t) && (t <=? max)) a = true).
  { intros t Ht Hr. apply existsb_exists. exists t. split; [by apply list_elem_of_In|]. rewrite !andb_true_iff, !Z.leb_le. lia. }
  destruct (FindRange_run id a min max Hs) as [[-> Hf]|(k1 & k2 & E & Hle & H1 & H2)]; cbn [obind].
  { f_equal. symmetry. apply not_true_iff_false. intros (t & Ht & Er)%existsb_exists. rewrite Forall_forall in Hf.
    specialize (Hf t (proj2 (list_elem_of_In _ _) Ht)). unfold in_range, id in Hf. congruence. }
  pose proof (FindRange_inside id a min max k1 k2 Hs E) as Hk1. rewrite E. cbn [obind].
  destruct (lookup_lt_is_Some_2 a k1 Hk1) as [t Ht]. rewrite Ht. cbn [or_panic obind].
  destruct (Z.eqb_spec t min) as [->|Hne]; [f_equal; symmetry; apply (Hin min); [by eapply list_elem_of_lookup_2|lia]|].
  destruct (range_cut id a min max k1 k2 Hs Hle H1 H2) as (Hk & Ef & _). unfold upper, id in *.
  assert (Hend : forall b : bool, (b = true <-> (k1 < k2)%nat) ->
    List.filter (in_range id min max) a = take (k2 - k1) (drop k1 a) ->
    b = existsb (fun t => (min <=? t) && (t <=? max)) a).
  { clear Ef Hk. intros b Hb Ef. apply eq_true_iff_eq. rewrite Hb. split.
    - intros Hlt. apply (Hin t); [by eapply list_elem_of_lookup_2|].
      assert (Hti : In t (List.filter (in_range id min max) a)).
      { rewrite Ef, (drop_S a t k1 Ht). destruct (k2 - k1)%nat eqn:E2; [lia|]. by left. }
      apply filter_In in Hti as [_ Hti]. unfold in_range in Hti. rewrite andb_true_iff, !Z.leb_le in Hti. done.
    - intros (u & Hu & Er)%existsb_exists.
      assert (Hui : In u (List.filter (in_range id min max) a)) by (by apply filter_In). rewrite Ef in Hui.
      destruct (k2 - k1)%nat eqn:E2; [done|lia]. }
  destruct (Nat.ltb_spec k2 (length a)) as [Hk2|Hk2].
  - destruct (lookup_lt_is_Some_2 a k2 Hk2) as [u Hu]. rewrite Hu in *. cbn [or_panic obind].
    destruct (Z.eqb_spec u max) as [Em|Hm]; [f_equal; symmetry; apply (Hin u); [by eapply list_elem_of_lookup_2|lia]|].
    f_equal. apply Hend; [rewrite Z.ltb_lt; lia|done].
  - rewrite (lookup_ge_None_2 a k2) in * by done. cbn [obind]. f_equal. apply Hend; [rewrite Z.ltb_lt; lia|done].
Qed.

Definition sample_a : list (Z * Z) := [(10, 1); (20, 2); (30, 3)].
Definition sample_b : list (Z * Z) := [(5, 8); (20, 6); (40, 9)].

Lemma array_operations_agree_witness :
  am_Merge _ IntegerArray (of_pairs sample_a) (of_pairs sample_b)
  = Ret (MkArr [5; 10; 20; 30; 40] [8; 1; 6; 3; 9]).
Proof.
  destruct (array_operations_agree 0 sample_a sample_b 0 0) as (_ & _ & _ & E); [repeat constructor..|].
  cbn [am_Merge IntegerArray array_methods]. rewrite E. reflexivity.
Defined.

Lemma Contains_exact_witness : Contains [10; 20; 30] 21 29 = Ret false /\ Contains [10; 20; 30] 21 30 = Ret true.
Proof. split; rewrite Contains_exact by (repeat constructor); reflexivity. Defined.
End ArrayValues.
