(* ===== verification/Bits.v ===== *)
(** * Bit sequences

    Bits in the order in which bit streams carry them, most significant
    first: conversion between integers, bytes and bit lists, the counts of
    leading and trailing zeros of [math/bits], and the [BitReader] of
    [tsdb/engine/tsm1/bit_reader.go] with the proof that it reads the bits of
    its data in order. *)
From S2P Require Import Prelude BoolCodec.
#[global] Open Scope Z_scope.

Module Bits.
Import BoolCodec (bits_of, bools_of, bools_of_app, bools_of_length).

(** ** Integers as bits *)

Fixpoint to_bits (n : nat) (v : Z) : list bool :=
  match n with
  | O => []
  | S n => Z.testbit v (Z.of_nat n) :: to_bits n v
  end.

Definition of_bits (l : list bool) : Z := fold_left (fun a b => 2 * a + Z.b2z b) l 0.

Lemma to_bits_length n v : length (to_bits n v) = n.
Proof. induction n as [|n IH]; [done|]. cbn. by rewrite IH. Qed.

Lemma to_bits_ext n a b :
  (forall i, 0 <= i < Z.of_nat n -> Z.testbit a i = Z.testbit b i) -> to_bits n a = to_bits n b.
Proof.
  intros H. induction n as [|n IH]; [done|]. cbn. rewrite H by lia. f_equal. apply IH. intros i Hi. apply H. lia.
Qed.

Lemma to_bits_app n m v : to_bits (n + m) v = to_bits n (Z.shiftr v (Z.of_nat m)) ++ to_bits m v.
Proof.
  induction n as [|n IH]; [done|]. cbn. rewrite IH. f_equal. rewrite Z.shiftr_spec by lia. f_equal. lia.
Qed.

Lemma to_bits_take k n v : (k <= n)%nat -> take k (to_bits n v) = to_bits k (Z.shiftr v (Z.of_nat (n - k))).
Proof.
  intros H. replace n with (k + (n - k))%nat at 1 by lia. rewrite to_bits_app. apply take_app_length'. by rewrite to_bits_length.
Qed.

Lemma to_bits_drop k n v : (k <= n)%nat -> drop k (to_bits n v) = to_bits (n - k) v.
Proof.
  intros H. replace n with (k + (n - k))%nat at 1 by lia. rewrite to_bits_app. apply drop_app_length'. by rewrite to_bits_length.
Qed.

Lemma of_bits_acc l a : fold_left (fun a b => 2 * a + Z.b2z b) l a = a * 2 ^ Z.of_nat (length l) + of_bits l.
Proof.
  unfold of_bits. revert a. induction l as [|b l IH]; intros a; cbn [fold_left length]; [lia|].
  rewrite IH, (IH (2 * 0 + _)), Nat2Z.inj_succ, Z.pow_succ_r by lia. lia.
Qed.

Lemma of_bits_app a b : of_bits (a ++ b) = of_bits a * 2 ^ Z.of_nat (length b) + of_bits b.
Proof. unfold of_bits at 1. rewrite fold_left_app. apply of_bits_acc. Qed.

Lemma of_bits_cons b l : of_bits (b :: l) = Z.b2z b * 2 ^ Z.of_nat (length l) + of_bits l.
Proof. apply (of_bits_app [b] l). Qed.

Lemma of_bits_bound l : 0 <= of_bits l < 2 ^ Z.of_nat (length l).
Proof.
  induction l as [|b l IH]; [cbn; lia|]. rewrite of_bits_cons. cbn [length]. rewrite Nat2Z.inj_succ, Z.pow_succ_r by lia.
  destruct b; cbn [Z.b2z]; lia.
Qed.

Lemma of_to_bits n v : of_bits (to_bits n v) = v mod 2 ^ Z.of_nat n.
Proof.
  induction n as [|n IH]; [cbn; by rewrite Z.mod_1_r|]. cbn [to_bits]. rewrite of_bits_cons, to_bits_length, IH.
  rewrite Nat2Z.inj_succ, <- Z.add_1_r, Z.pow_add_r, Z.rem_mul_r by lia. rewrite Z.testbit_spec' by lia.
  change (2 ^ 1) with 2. lia.
Qed.

Lemma of_to_bits_id n v : 0 <= v < 2 ^ Z.of_nat n -> of_bits (to_bits n v) = v.
Proof. intros H. rewrite of_to_bits. by apply Z.mod_small. Qed.

Lemma to_bits_mod n m v : (n <= m)%nat -> to_bits n (v mod 2 ^ Z.of_nat m) = to_bits n v.
Proof. intros H. apply to_bits_ext. intros i Hi. apply Z.mod_pow2_bits_low. lia. Qed.

Lemma to_of_bits l : to_bits (length l) (of_bits l) = l.
Proof.
  induction l as [|b l IH]; [done|]. cbn [length to_bits]. rewrite of_bits_cons. pose proof (of_bits_bound l) as Hb. f_equal.
  - rewrite Z.testbit_eqb, Z.add_comm, Z.div_add, (Z.div_small (of_bits l)) by lia. by destruct b.
  - rewrite <- (to_bits_mod (length l) (length l)) by lia. rewrite Z.add_comm, Z.mod_add by lia.
    rewrite Z.mod_small by done. exact IH.
Qed.

Lemma bits_of_to_bits v : bits_of v = to_bits 8 v.
Proof. reflexivity. Qed.

Lemma bools_of_bytes x l : bools_of (x :: l) = to_bits 8 x ++ bools_of l.
Proof. reflexivity. Qed.

Lemma of_bools_of l : Forall is_byte l -> of_bits (bools_of l) = be_get l.
Proof.
  induction l as [|x l IH] using rev_ind; [done|]. rewrite Forall_app. intros [Hl Hx]. apply Forall_cons_1 in Hx as [Hx _].
  rewrite be_get_snoc by done. rewrite bools_of_app, of_bits_app, (IH Hl). change (bools_of [x]) with (to_bits 8 x).
  rewrite to_bits_length, of_to_bits_id by (unint; cbn; lia). change (2 ^ Z.of_nat 8) with 256. lia.
Qed.

Lemma be_get_bits l : Forall is_byte l -> to_bits (8 * length l) (be_get l) = bools_of l.
Proof. intros H. rewrite <- (of_bools_of l H), <- bools_of_length. apply to_of_bits. Qed.

(** ** Leading and trailing zeros *)

(** [bits.LeadingZeros64] *)
Definition LeadingZeros64 (x : Z) : Z := if x =? 0 then 64 else 63 - Z.log2 x.

Fixpoint trailing_loop (fuel : nat) (x : Z) : Z :=
  match fuel with
  | O => 0
  | S f => if Z.odd x then 0 else 1 + trailing_loop f (x / 2)
  end.
(** [bits.TrailingZeros64] *)
Definition TrailingZeros64 (x : Z) : Z := trailing_loop 64 x.

Lemma trailing_loop_spec f x :
  0 < x < 2 ^ Z.of_nat f -> 0 <= trailing_loop f x <= Z.log2 x /\ x mod 2 ^ trailing_loop f x = 0.
Proof.
  revert x. induction f as [|f IH]; intros x Hx; [cbn in Hx; lia|]. cbn [trailing_loop].
  destruct (Z.odd x) eqn:Eo.
  { split; [|by rewrite Z.mod_1_r]. pose proof (Z.log2_nonneg x). lia. }
  assert (Ex : x = 2 * (x / 2)).
  { rewrite (Z.div_mod x 2) at 1 by lia. rewrite Zmod_odd, Eo. lia. }
  rewrite Nat2Z.inj_succ, Z.pow_succ_r in Hx by lia. destruct (IH (x / 2)) as [H1 H2]; [lia|].
  set (t := trailing_loop f (x / 2)) in *. split.
  - rewrite Ex, Z.log2_double by lia. lia.
  - rewrite Ex, Z.pow_add_r by lia. change (2 ^ 1) with 2. rewrite Z.mul_mod_distr_l by lia. rewrite H2. lia.
Qed.

Lemma zeros_spec x :
  0 < x < 2 ^ 64 ->
  0 <= LeadingZeros64 x /\ 0 <= TrailingZeros64 x /\ LeadingZeros64 x + TrailingZeros64 x <= 63 /\
  x < 2 ^ (64 - LeadingZeros64 x) /\ x mod 2 ^ TrailingZeros64 x = 0.
Proof.
  intros Hx. destruct (trailing_loop_spec 64 x Hx) as [H1 H2]. fold (TrailingZeros64 x) in H1, H2.
  unfold LeadingZeros64. destruct (Z.eqb_spec x 0); [lia|]. assert (Z.log2 x < 64) by (apply Z.log2_lt_pow2; lia).
  split_and!; try done; try lia. replace (64 - (63 - Z.log2 x)) with (Z.succ (Z.log2 x)) by lia. apply Z.log2_spec. lia.
Qed.

(** ** BitReader *)

(** Machine shifts of a [uint64]: a shift by 64 or more gives 0. *)
Definition shl64 (x k : Z) : Z := if 64 <=? k then 0 else u64 (Z.shiftl x k).
Definition shr64 (x k : Z) : Z := if 64 <=? k then 0 else Z.shiftr x k.

Record BitReader := MkBitReader { br_data : list Z; br_v : Z; br_n : Z }.

(** [for i := 0; i < byteN; i++ { n += 8; v |= uint64(data\[i\]) << (64 - n) }] *)
Fixpoint readBuf_loop (bytes : list Z) (v n : Z) : Z * Z :=
  match bytes with
  | [] => (v, n)
  | x :: bytes => readBuf_loop bytes (Z.lor v (shl64 x (64 - (n + 8)))) (n + 8)
  end.

Definition readBuf (r : BitReader) : BitReader :=
  let byteN := 8 - br_n r / 8 in
  let byteN := if Z.of_nat (length (br_data r)) <? byteN then Z.of_nat (length (br_data r)) else byteN in
  if byteN =? 8 then MkBitReader (drop 8 (br_data r)) (be_get (take 8 (br_data r))) 64
  else
    let '(v, n) := readBuf_loop (take (Z.to_nat byteN) (br_data r)) (br_v r) (br_n r) in
    MkBitReader (drop (Z.to_nat byteN) (br_data r)) v n.

Definition Reset (data : list Z) : BitReader := readBuf (MkBitReader data 0 0).

Definition CanReadBitFast (r : BitReader) : bool := 1 <? br_n r.
Definition ReadBitFast (r : BitReader) : bool * BitReader :=
  (Z.testbit (br_v r) 63, MkBitReader (br_data r) (shl64 (br_v r) 1) (br_n r - 1)).

(** [None] is io.EOF. *)
Definition ReadBits (nbits : Z) (r : BitReader) : option Z * BitReader :=
  if br_n r =? 0 then (None, r)
  else if nbits <=? br_n r then
    if nbits =? 64 then (Some (br_v r), readBuf (MkBitReader (br_data r) 0 0))
    else
      let r' := MkBitReader (br_data r) (shl64 (br_v r) nbits) (br_n r - nbits) in
      (Some (shr64 (br_v r) (64 - nbits)), if br_n r' =? 0 then readBuf r' else r')
  else
    let v := br_v r in
    let n := br_n r in
    let r := readBuf (MkBitReader (br_data r) 0 0) in
    let v := shr64 (Z.lor v (shr64 (br_v r) n)) (64 - nbits) in
    let bufN := if br_n r <? nbits - n then br_n r else nbits - n in
    let r := MkBitReader (br_data r) (shl64 (br_v r) bufN) (br_n r - bufN) in
    (Some v, if br_n r =? 0 then readBuf r else r).

Definition ReadBit (r : BitReader) : option bool * BitReader :=
  let '(v, r) := ReadBits 1 r in (match v with Some v => Some (negb (v =? 0)) | None => None end, r).

(** The bits still to be read. *)
Definition unread (r : BitReader) : list bool :=
  to_bits (Z.to_nat (br_n r)) (Z.shiftr (br_v r) (64 - br_n r)) ++ bools_of (br_data r).

Record reader_ok (r : BitReader) : Prop := {
  ro_n : 0 <= br_n r <= 64;
  ro_v : is_u64 (br_v r);
  ro_low : forall i, 0 <= i < 64 - br_n r -> Z.testbit (br_v r) i = false;
  ro_data : Forall is_byte (br_data r);
  ro_end : br_n r = 0 -> br_data r = [] }.

Lemma be_get_cons_lor x l :
  is_byte x -> Forall is_byte l -> be_get (x :: l) = Z.lor (Z.shiftl x (8 * Z.of_nat (length l))) (be_get l).
Proof.
  intros Hx Hl. rewrite be_get_cons by (by constructor). pose proof (be_get_bound l Hl) as Hb.
  rewrite Z.lor_comm, lor_shiftl_add by lia. rewrite Z.pow_mul_r by lia. change (2 ^ 8) with 256. lia.
Qed.

Lemma shl64_small x k : 0 <= k < 64 -> 0 <= x -> x * 2 ^ k < 2 ^ 64 -> shl64 x k = Z.shiftl x k.
Proof.
  intros Hk Hx Hb. unfold shl64. destruct (Z.leb_spec 64 k); [lia|]. apply u64_id. rewrite Z.shiftl_mul_pow2 by lia. unint. nia.
Qed.

Lemma readBuf_loop_run bytes : forall v n, Forall is_byte bytes -> 0 <= n -> n + 8 * Z.of_nat (length bytes) <= 64 ->
  readBuf_loop bytes v n =
    (Z.lor v (Z.shiftl (be_get bytes) (64 - n - 8 * Z.of_nat (length bytes))), n + 8 * Z.of_nat (length bytes)).
Proof.
  induction bytes as [|x bytes IH]; intros v n Hb Hn Hl; cbn [readBuf_loop].
  { change (be_get []) with 0. by rewrite Z.shiftl_0_l, Z.lor_0_r, Z.add_0_r. }
  apply Forall_cons_1 in Hb as [Hx Hb]. cbn [length] in *. rewrite IH by (done || lia). f_equal; [|lia].
  assert (Hp : 2 ^ (64 - (n + 8)) * 2 ^ (n + 8) = 2 ^ 64) by (rewrite <- Z.pow_add_r by lia; f_equal; lia).
  assert (256 <= 2 ^ (n + 8)) by (change 256 with (2 ^ 8); apply Z.pow_le_mono_r; lia).
  rewrite shl64_small by (unint; try lia; nia).
  rewrite <- Z.lor_assoc. f_equal. rewrite be_get_cons_lor by done. rewrite Z.shiftl_lor, Z.shiftl_shiftl by lia.
  f_equal; f_equal; lia.
Qed.

(** A full or a last partial buffer. *)
Lemma readBuf_run data :
  Forall is_byte data ->
  let r := readBuf (MkBitReader data 0 0) in
  reader_ok r /\ unread r = bools_of data /\ br_n r = Z.min 64 (8 * Z.of_nat (length data)).
Proof.
  intros Hd. unfold readBuf. cbn [br_n br_data br_v]. change (8 - 0 / 8) with 8.
  destruct (Z.ltb_spec (Z.of_nat (length data)) 8) as [Hlt|Hge].
  - destruct (Z.eqb_spec (Z.of_nat (length data)) 8); [lia|]. rewrite Nat2Z.id, firstn_all, drop_all.
    rewrite readBuf_loop_run by (done || lia). rewrite Z.lor_0_l, Z.add_0_l, Z.sub_0_r. cbn [br_n br_data br_v].
    pose proof (be_get_bound data Hd) as Hb. set (k := 8 * Z.of_nat (length data)) in *. split_and!.
    + split; cbn [br_n br_data br_v].
      * lia.
      * rewrite Z.shiftl_mul_pow2 by lia. assert (2 ^ (64 - k) * 2 ^ k = 2 ^ 64) by (rewrite <- Z.pow_add_r by lia; f_equal; lia).
        unint. nia.
      * intros i Hi. apply Z.shiftl_spec_low. lia.
      * constructor.
      * done.
    + unfold unread. cbn [br_n br_data br_v]. rewrite Z.shiftr_shiftl_l by lia. replace (64 - k - (64 - k)) with 0 by lia.
      rewrite Z.shiftl_0_r. replace (Z.to_nat k) with (8 * length data)%nat by lia. rewrite be_get_bits by done.
      apply app_nil_r.
    + lia.
  - rewrite Z.eqb_refl. assert (Hl : length (take 8 data) = 8%nat) by (rewrite length_take; lia).
    assert (Hb : Forall is_byte (take 8 data)) by (by apply Forall_take).
    pose proof (be_get_bound _ Hb) as Hv. rewrite Hl in Hv. change (8 * Z.of_nat 8) with 64 in Hv. split_and!.
    + split; cbn [br_n br_data br_v]; [lia|done| |by apply Forall_drop|lia]. intros i Hi. lia.
    + unfold unread. cbn [br_n br_data br_v]. change (64 - 64) with 0. rewrite Z.shiftr_0_r.
      change (Z.to_nat 64) with (8 * 8)%nat. rewrite <- Hl at 2. rewrite be_get_bits by done.
      rewrite <- bools_of_app. by rewrite take_drop.
    + cbn [br_n]. lia.
Qed.

Lemma u64_bits x i : is_u64 x -> 64 <= i -> Z.testbit x i = false.
Proof.
  intros Hx Hi. destruct (Z.eq_dec x 0) as [->|]; [apply Z.bits_0|]. unfold is_u64 in Hx. apply Z.bits_above_log2; [lia|].
  apply Z.lt_le_trans with 64; [apply Z.log2_lt_pow2; lia|lia].
Qed.

Lemma shl64_bits x k i : 0 <= k -> 0 <= i < 64 -> Z.testbit (shl64 x k) i = if k <=? i then Z.testbit x (i - k) else false.
Proof.
  intros Hk Hi. unfold shl64. destruct (Z.leb_spec 64 k).
  { rewrite Z.bits_0. destruct (Z.leb_spec k i); [lia|done]. }
  unfold u64. rewrite Z.mod_pow2_bits_low by lia. destruct (Z.leb_spec k i).
  - by rewrite Z.shiftl_spec by lia.
  - by rewrite Z.shiftl_spec_low by lia.
Qed.

Lemma shl64_range x k : is_u64 (shl64 x k).
Proof. unfold shl64. destruct (_ <=? _); [unint; lia|apply u64_range]. Qed.

Lemma shr64_range x k : 0 <= k -> is_u64 x -> is_u64 (shr64 x k).
Proof.
  intros Hk Hx. unfold shr64. destruct (_ <=? _); [unint; lia|]. rewrite Z.shiftr_div_pow2 by lia. unint.
  assert (0 < 2 ^ k) by (apply Z.pow_pos_nonneg; lia). split; [apply Z.div_pos; lia|].
  apply Z.div_lt_upper_bound; nia.
Qed.

Lemma shr64_bits x k i : 0 <= k -> 0 <= i -> is_u64 x -> Z.testbit (shr64 x k) i = Z.testbit x (i + k).
Proof.
  intros Hk Hi Hx. unfold shr64. destruct (Z.leb_spec 64 k); [|by rewrite Z.shiftr_spec by lia].
  rewrite Z.bits_0, u64_bits; [done|done|lia].
Qed.

Lemma lor_u64 a b : is_u64 a -> is_u64 b -> is_u64 (Z.lor a b).
Proof.
  intros Ha Hb. rewrite <- (u64_id a Ha), <- (u64_id b Hb). unfold u64.
  rewrite <- !Z.land_ones, <- Z.land_lor_distr_l, Z.land_ones by lia. apply u64_range.
Qed.

Lemma shr64_top x n : is_u64 x -> 1 <= n <= 64 -> 0 <= shr64 x (64 - n) < 2 ^ n.
Proof.
  intros Hx Hn. unfold shr64. destruct (Z.leb_spec 64 (64 - n)); [lia|]. rewrite Z.shiftr_div_pow2 by lia. unfold is_u64 in Hx.
  assert (0 < 2 ^ (64 - n)) by (apply Z.pow_pos_nonneg; lia).
  split; [apply Z.div_pos; lia|]. apply Z.div_lt_upper_bound; [lia|]. rewrite <- Z.pow_add_r by lia.
  replace (64 - n + n) with 64 by lia. lia.
Qed.

(** The buffer without its first [k] bits. *)
Lemma consume v n k :
  0 <= n <= 64 -> 0 <= k <= n -> (forall i, 0 <= i < 64 - n -> Z.testbit v i = false) ->
  to_bits (Z.to_nat (n - k)) (Z.shiftr (shl64 v k) (64 - (n - k))) =
    drop (Z.to_nat k) (to_bits (Z.to_nat n) (Z.shiftr v (64 - n))) /\
  (forall i, 0 <= i < 64 - (n - k) -> Z.testbit (shl64 v k) i = false).
Proof.
  intros Hn Hk Hlow. split.
  - rewrite to_bits_drop by lia. replace (Z.to_nat n - Z.to_nat k)%nat with (Z.to_nat (n - k)) by lia.
    apply to_bits_ext. intros i Hi. rewrite !Z.shiftr_spec, shl64_bits by lia.
    destruct (Z.leb_spec k (i + (64 - (n - k)))); [|lia]. f_equal. lia.
  - intros i Hi. rewrite shl64_bits by lia. destruct (Z.leb_spec k i); [|done]. apply Hlow. lia.
Qed.

(** Refilling an exhausted buffer. *)
Lemma settle data v n :
  0 <= n <= 64 -> is_u64 v -> (forall i, 0 <= i < 64 - n -> Z.testbit v i = false) -> Forall is_byte data ->
  let r := MkBitReader data v n in
  let r' := if br_n r =? 0 then readBuf r else r in
  reader_ok r' /\ unread r' = to_bits (Z.to_nat n) (Z.shiftr v (64 - n)) ++ bools_of data.
Proof.
  intros Hn Hv Hlow Hd. cbn [br_n]. destruct (Z.eqb_spec n 0) as [->|Hne].
  - assert (v = 0) as ->.
    { apply Z.bits_inj'. intros i Hi. rewrite Z.bits_0. destruct (Z.lt_ge_cases i 64); [apply Hlow; lia|by apply u64_bits]. }
    destruct (readBuf_run data Hd) as (H1 & H2 & _). split; [done|]. rewrite H2. done.
  - split; [|done]. split; cbn [br_n br_v br_data]; (done || lia).
Qed.

Lemma ReadBits_run nbits r :
  reader_ok r -> 1 <= nbits <= 64 -> (Z.to_nat nbits <= length (unread r))%nat ->
  exists r', ReadBits nbits r = (Some (of_bits (take (Z.to_nat nbits) (unread r))), r') /\
    reader_ok r' /\ unread r' = drop (Z.to_nat nbits) (unread r).
Proof.
  intros [Hn Hv Hlow Hd He] Hb Hlen. destruct r as [data v n]. cbn [br_n br_v br_data] in *. unfold ReadBits, unread in *.
  cbn [br_n br_v br_data] in *.
  destruct (Z.eqb_spec n 0) as [->|Hn0].
  { rewrite length_app, to_bits_length, (He eq_refl) in Hlen. change (length (bools_of [])) with 0%nat in Hlen. lia. }
  set (h := to_bits (Z.to_nat n) (Z.shiftr v (64 - n))) in *.
  assert (Hh : length h = Z.to_nat n) by apply to_bits_length.
  destruct (Z.leb_spec nbits n) as [Hle|Hgt].
  - rewrite take_app_le, drop_app_le by lia.
    assert (Ev : of_bits (take (Z.to_nat nbits) h) = shr64 v (64 - nbits)).
    { unfold h. rewrite to_bits_take, Z.shiftr_shiftr by lia.
      replace (64 - n + Z.of_nat (Z.to_nat n - Z.to_nat nbits)) with (64 - nbits) by lia.
      replace (Z.shiftr v (64 - nbits)) with (shr64 v (64 - nbits)) by (unfold shr64; destruct (Z.leb_spec 64 (64 - nbits)); [lia|done]).
      apply of_to_bits_id. rewrite Z2Nat.id by lia. apply shr64_top; (done || lia). }
    rewrite Ev. destruct (Z.eqb_spec nbits 64) as [->|Hne].
    + assert (n = 64) as -> by lia. destruct (readBuf_run data Hd) as (H1 & H2 & _). eexists. split; [reflexivity|].
      split; [done|]. fold (unread (readBuf (MkBitReader data 0 0))). rewrite H2, drop_ge by (rewrite Hh; lia). done.
    + destruct (consume v n nbits Hn ltac:(lia) Hlow) as [E1 E2].
      destruct (settle data (shl64 v nbits) (n - nbits)) as [H1 H2]; [lia|apply shl64_range|done|done|].
      eexists. split; [reflexivity|]. split; [done|]. etransitivity; [exact H2|]. by rewrite E1.
  - rewrite take_app_ge, drop_app_ge by lia. rewrite Hh.
    destruct (readBuf_run data Hd) as (H1 & H2 & Hn2). set (r2 := readBuf (MkBitReader data 0 0)) in *.
    destruct H1 as [Hn2' Hv2 Hlow2 Hd2 _]. rewrite length_app, Hh, bools_of_length in Hlen.
    destruct (Z.ltb_spec (br_n r2) (nbits - n)) as [|_]; [lia|].
    destruct (consume (br_v r2) (br_n r2) (nbits - n) Hn2' ltac:(lia) Hlow2) as [E1 E2].
    destruct (settle (br_data r2) (shl64 (br_v r2) (nbits - n)) (br_n r2 - (nbits - n))) as [H3 H4];
      [lia|apply shl64_range|done|done|].
    eexists. split; [|split; [exact H3|]].
    + f_equal. f_equal. replace (Z.to_nat nbits - Z.to_nat n)%nat with (Z.to_nat (nbits - n)) by lia.
      rewrite <- H2. unfold unread. rewrite take_app_le by (rewrite to_bits_length; lia). rewrite to_bits_take, Z.shiftr_shiftr by lia.
      replace (64 - br_n r2 + Z.of_nat (Z.to_nat (br_n r2) - Z.to_nat (nbits - n))) with (64 - (nbits - n)) by lia.
      assert (Hr : is_u64 (Z.lor v (shr64 (br_v r2) n))).
      { apply lor_u64; [done|apply shr64_range; (done || lia)]. }
      assert (Hx : is_u64 (shr64 (br_v r2) n)) by (apply shr64_range; (done || lia)).
      set (x := shr64 (Z.lor v (shr64 (br_v r2) n)) (64 - nbits)).
      assert (Hbx : 0 <= x < 2 ^ nbits).
      { apply shr64_top; (done || lia). }
      rewrite <- (of_to_bits_id (Z.to_nat nbits) x) by (by rewrite Z2Nat.id by lia). f_equal.
      replace (Z.to_nat nbits) with (Z.to_nat n + Z.to_nat (nbits - n))%nat at 1 by lia. rewrite to_bits_app. unfold h. f_equal;
        apply to_bits_ext; intros i Hi; rewrite !Z.shiftr_spec by lia; unfold x; rewrite shr64_bits, Z.lor_spec, shr64_bits by (done || lia).
      * rewrite (u64_bits (br_v r2)), orb_false_r by (done || lia). f_equal. lia.
      * rewrite Hlow by lia. cbn [orb]. f_equal. lia.
    + etransitivity; [exact H4|]. rewrite E1. replace (Z.to_nat nbits - Z.to_nat n)%nat with (Z.to_nat (nbits - n)) by lia.
      rewrite <- H2. unfold unread. rewrite drop_app_le; [done|]. rewrite to_bits_length. lia.
Qed.

(** One bit, read the fast way when the buffer holds two, as the decoders do. *)
Definition next_bit (r : BitReader) : option bool * BitReader :=
  if CanReadBitFast r then let '(b, r) := ReadBitFast r in (Some b, r) else ReadBit r.

Lemma next_bit_run r b rest :
  reader_ok r -> unread r = b :: rest -> exists r', next_bit r = (Some b, r') /\ reader_ok r' /\ unread r' = rest.
Proof.
  intros Hr E. unfold next_bit, CanReadBitFast. destruct (Z.ltb_spec 1 (br_n r)) as [Hfast|Hslow].
  - destruct Hr as [Hn Hv Hlow Hd He]. destruct r as [data v n]. cbn [br_n br_v br_data] in *. unfold ReadBitFast.
    cbn [br_n br_v br_data]. destruct (consume v n 1 Hn ltac:(lia) Hlow) as [E1 E2].
    unfold unread in E. cbn [br_n br_v br_data] in E. destruct (Z.to_nat n) as [|m] eqn:Em; [lia|]. cbn [to_bits app] in E.
    injection E as Eb Er. eexists. split; [|split].
    + rewrite <- Eb, Z.shiftr_spec by lia. do 3 f_equal. lia.
    + split; cbn [br_n br_v br_data]; [lia|apply shl64_range|done|done|lia].
    + unfold unread. cbn [br_n br_v br_data]. rewrite E1. exact Er.
  - unfold ReadBit. destruct (ReadBits_run 1 r Hr ltac:(lia)) as (r' & -> & H1 & H2); [rewrite E; cbn; lia|].
    rewrite E in *. exists r'. split_and!; [|done|done]. by destruct b.
Qed.

Lemma read_field r n bits rest :
  reader_ok r -> unread r = bits ++ rest -> length bits = Z.to_nat n -> 1 <= n <= 64 ->
  exists r', ReadBits n r = (Some (of_bits bits), r') /\ reader_ok r' /\ unread r' = rest.
Proof.
  intros Hr E Hl Hn. destruct (ReadBits_run n r Hr Hn) as (r' & E1 & H1 & H2); [rewrite E, length_app; lia|].
  exists r'. rewrite E, take_app_length' in E1 by done. rewrite E, drop_app_length' in H2 by done. done.
Qed.
End Bits.
