(* ===== verification/FloatCodec.v ===== *)
(** * tsdb/engine/tsm1: the float codec

    Models [float.go]: the streaming [FloatEncoder] and [FloatDecoder] of the
    Gorilla compression.  A float64 is its 64-bit pattern.  A stream is a
    header byte, the first value in full, then for each value the difference
    to the one before it: one bit when they are equal, otherwise the
    significant bits of their exclusive or, in the window of the previous
    difference or in a new one; a NaN ends the stream.  The bit writer
    (github.com/dgryski/go-bitstream) is the parameter [BitWriter] with the
    contract [BitWriterOk].  The theorems show that the decoder returns the
    values written, whatever their bit patterns. *)
From S2P Require Import Prelude BoolCodec Bits.
Import BoolCodec (bools_of, bools_of_app, bools_of_length, byte_high).
Import Bits.
#[global] Open Scope Z_scope.

(** ** The bit writer

    The writer appends full bytes to the buffer it was created on; the
    operations return it with the buffer.  Errors of the buffer, a
    [bytes.Buffer], do not occur. *)
Class BitWriter := {
  bw : Type;
  bw_New : bw;
  bw_Resume : bw -> Z -> Z -> bw;
  bw_WriteBit : bw -> list Z -> bool -> bw * list Z;
  bw_WriteBits : bw -> list Z -> Z -> Z -> bw * list Z;
  bw_Flush : bw -> list Z -> bool -> bw * list Z }.

(** Bits are written in order, the [n] low bits of [u] most significant
    first; fewer than eight are pending; [Flush] completes the last byte;
    [Resume] with eight free bits drops the pending ones. *)
Class BitWriterOk (W : BitWriter) := {
  bw_pending : bw -> list bool;
  bw_new : bw_pending bw_New = [];
  bw_resume w : bw_pending (bw_Resume w 0 8) = [];
  bw_writeBit w buf b : Forall is_byte buf ->
    let '(w', buf') := bw_WriteBit w buf b in
    Forall is_byte buf' /\ bools_of buf' ++ bw_pending w' = bools_of buf ++ bw_pending w ++ [b];
  bw_writeBits w buf u n : Forall is_byte buf -> 0 <= n <= 64 ->
    let '(w', buf') := bw_WriteBits w buf u n in
    Forall is_byte buf' /\ bools_of buf' ++ bw_pending w' = bools_of buf ++ bw_pending w ++ to_bits (Z.to_nat n) u;
  bw_flush w buf b : Forall is_byte buf ->
    let '(w', buf') := bw_Flush w buf b in
    Forall is_byte buf' /\ exists k, (k < 8)%nat /\ bools_of buf' = bools_of buf ++ bw_pending w ++ replicate k b }.

(** An instance: the pending bits as a list. *)
Fixpoint emit (fuel : nat) (l : list bool) : list bool * list Z :=
  match fuel with
  | O => (l, [])
  | S f => if (length l <? 8)%nat then (l, [])
           else let '(rest, bytes) := emit f (drop 8 l) in (rest, of_bits (take 8 l) :: bytes)
  end.

Definition put_bits (w : list bool) (buf : list Z) (l : list bool) : list bool * list Z :=
  let '(rest, bytes) := emit (length (w ++ l)) (w ++ l) in (rest, buf ++ bytes).

#[export] Instance list_writer : BitWriter := {|
  bw := list bool;
  bw_New := [];
  bw_Resume := fun _ _ _ => [];
  bw_WriteBit := fun w buf b => put_bits w buf [b];
  bw_WriteBits := fun w buf u n => put_bits w buf (to_bits (Z.to_nat n) u);
  bw_Flush := fun w buf b => if (length w mod 8 =? 0)%nat then put_bits w buf []
                             else put_bits w buf (replicate (8 - length w mod 8) b) |}.

Lemma emit_run f l : Forall is_byte (emit f l).2 /\ bools_of (emit f l).2 ++ (emit f l).1 = l.
Proof.
  revert l. induction f as [|f IH]; intros l; [done|]. cbn [emit]. destruct (Nat.ltb_spec (length l) 8) as [|H8]; [done|].
  destruct (IH (drop 8 l)) as [H1 H2]. destruct (emit f (drop 8 l)) as [rest bytes]. cbn [fst snd] in *.
  assert (Hl : length (take 8 l) = 8%nat) by (rewrite length_take; lia).
  pose proof (of_bits_bound (take 8 l)) as Hb. rewrite Hl in Hb. split; [constructor; [exact Hb|done]|].
  rewrite bools_of_bytes, <- app_assoc, H2. rewrite <- Hl at 1. rewrite to_of_bits. apply take_drop.
Qed.

Lemma emit_rest f l : (length l <= f)%nat -> length (emit f l).1 = (length l mod 8)%nat.
Proof.
  revert l. induction f as [|f IH]; intros l Hl; [destruct l; [done|cbn in Hl; lia]|]. cbn [emit].
  destruct (Nat.ltb_spec (length l) 8); [by rewrite Nat.mod_small|].
  specialize (IH (drop 8 l)). rewrite length_drop in IH. destruct (emit f (drop 8 l)) as [rest bytes]. cbn [fst] in *.
  rewrite IH by lia. rewrite <- (Nat.Div0.mod_add (length l - 8) 1 8). f_equal. lia.
Qed.

Lemma put_bits_run w buf l :
  Forall is_byte buf ->
  let '(w', buf') := put_bits w buf l in
  Forall is_byte buf' /\ bools_of buf' ++ w' = bools_of buf ++ w ++ l.
Proof.
  intros Hb. unfold put_bits. pose proof (emit_run (length (w ++ l)) (w ++ l)) as [H1 H2].
  destruct (emit _ _) as [rest bytes]. cbn [fst snd] in *. split; [by apply Forall_app|].
  by rewrite bools_of_app, <- app_assoc, H2.
Qed.

#[export] Instance list_writer_ok : BitWriterOk list_writer.
Proof.
  refine {| bw_pending := fun w : @bw list_writer => (w : list bool) |}.
  - done.
  - done.
  - intros w buf b Hb. exact (put_bits_run w buf [b] Hb).
  - intros w buf u n Hb _. exact (put_bits_run w buf (to_bits (Z.to_nat n) u) Hb).
  - intros w buf b Hb. cbn [bw_Flush list_writer].
    set (k := if (length w mod 8 =? 0)%nat then 0%nat else (8 - length w mod 8)%nat).
    assert (Hk : (k < 8)%nat /\ ((length w + k) mod 8 = 0)%nat).
    { unfold k. pose proof (Nat.mod_upper_bound (length w) 8). destruct (Nat.eqb_spec (length w mod 8) 0) as [E|E]; [split; [lia|by rewrite Nat.add_0_r]|].
      split; [lia|]. rewrite <- Nat.Div0.add_mod_idemp_l. replace (length w mod 8 + (8 - length w mod 8))%nat with 8%nat by lia. done. }
    replace (if (length w mod 8 =? 0)%nat then _ else _) with (put_bits w buf (replicate k b))
      by (unfold k; by destruct (_ =? _)%nat).
    pose proof (put_bits_run w buf (replicate k b) Hb) as H. unfold put_bits in *.
    pose proof (emit_rest (length (w ++ replicate k b)) (w ++ replicate k b) ltac:(lia)) as He.
    destruct (emit _ _) as [rest bytes]. cbn [fst] in He. rewrite length_app, length_replicate, (proj2 Hk) in He.
    destruct rest; [|done]. rewrite app_nil_r in H. split; [tauto|]. exists k. tauto.
Defined.

Module FloatCodec.

Definition floatCompressedGorilla : Z := 1.
Definition uvnan : Z := 9221120237041090561.
Definition noLeading : Z := 2 ^ 64 - 1.

(** [math.IsNaN] on the bits of a float64. *)
Definition IsNaN (v : Z) : bool := (Z.land (Z.shiftr v 52) 2047 =? 2047) && negb (Z.land v (2 ^ 52 - 1) =? 0).

Section WithWriter.
Context `{W : BitWriter}.

(** ** The encoder *)

Record FloatEncoder := MkFloatEncoder {
  fe_val : Z;
  fe_err : option string;
  fe_leading : Z;
  fe_trailing : Z;
  fe_buf : list Z;
  fe_bw : bw;
  fe_first : bool;
  fe_finished : bool }.

Definition NewFloatEncoder : FloatEncoder :=
  MkFloatEncoder 0 None noLeading 0 [Z.shiftl floatCompressedGorilla 4] bw_New true false.

Definition Reset (s : FloatEncoder) : FloatEncoder :=
  MkFloatEncoder 0 None noLeading 0 [Z.shiftl floatCompressedGorilla 4] (bw_Resume (fe_bw s) 0 8) true false.

Definition writeBit (s : FloatEncoder) (b : bool) : FloatEncoder :=
  let '(w, buf) := bw_WriteBit (fe_bw s) (fe_buf s) b in
  MkFloatEncoder (fe_val s) (fe_err s) (fe_leading s) (fe_trailing s) buf w (fe_first s) (fe_finished s).
Definition writeBits (s : FloatEncoder) (u n : Z) : FloatEncoder :=
  let '(w, buf) := bw_WriteBits (fe_bw s) (fe_buf s) u n in
  MkFloatEncoder (fe_val s) (fe_err s) (fe_leading s) (fe_trailing s) buf w (fe_first s) (fe_finished s).

Definition set_val (s : FloatEncoder) (v : Z) : FloatEncoder :=
  MkFloatEncoder v (fe_err s) (fe_leading s) (fe_trailing s) (fe_buf s) (fe_bw s) (fe_first s) (fe_finished s).
Definition set_window (s : FloatEncoder) (leading trailing : Z) : FloatEncoder :=
  MkFloatEncoder (fe_val s) (fe_err s) leading trailing (fe_buf s) (fe_bw s) (fe_first s) (fe_finished s).

(** The window of a difference: the mask makes the clamp that follows it
    idle, so 32 or more leading zeros count modulo 32. *)
Definition clampLeading (vDelta : Z) : Z :=
  let leading := Z.land (LeadingZeros64 vDelta) 31 in
  if 32 <=? leading then 31 else leading.

Definition Write (s : FloatEncoder) (v : Z) : FloatEncoder :=
  if IsNaN v && negb (fe_finished s) then
    MkFloatEncoder (fe_val s) (Some "unsupported value: NaN"%string) (fe_leading s) (fe_trailing s) (fe_buf s) (fe_bw s)
      (fe_first s) (fe_finished s)
  else if fe_first s then
    writeBits (MkFloatEncoder v (fe_err s) (fe_leading s) (fe_trailing s) (fe_buf s) (fe_bw s) false (fe_finished s)) v 64
  else
    let vDelta := Z.lxor v (fe_val s) in
    let s :=
      if vDelta =? 0 then writeBit s false
      else
        let s := writeBit s true in
        let leading := clampLeading vDelta in
        let trailing := TrailingZeros64 vDelta in
        if negb (fe_leading s =? noLeading) && (fe_leading s <=? leading) && (fe_trailing s <=? trailing) then
          let s := writeBit s false in
          writeBits s (shr64 vDelta (fe_trailing s)) (64 - fe_leading s - fe_trailing s)
        else
          let s := set_window s leading trailing in
          let s := writeBit s true in
          let s := writeBits s leading 5 in
          let sigbits := 64 - leading - trailing in
          let s := writeBits s sigbits 6 in
          writeBits s (shr64 vDelta trailing) sigbits in
    set_val s v.

Definition Flush (s : FloatEncoder) : FloatEncoder :=
  if fe_finished s then s
  else
    let s := MkFloatEncoder (fe_val s) (fe_err s) (fe_leading s) (fe_trailing s) (fe_buf s) (fe_bw s) (fe_first s) true in
    let s := Write s uvnan in
    let '(w, buf) := bw_Flush (fe_bw s) (fe_buf s) false in
    MkFloatEncoder (fe_val s) (fe_err s) (fe_leading s) (fe_trailing s) buf w (fe_first s) (fe_finished s).

Definition Bytes (s : FloatEncoder) : outcome (list Z) :=
  match fe_err s with Some e => Fail e | None => Ret (fe_buf s) end.
End WithWriter.

(** ** The decoder *)

Record FloatDecoder := MkFloatDecoder {
  fd_val : Z;
  fd_leading : Z;
  fd_trailing : Z;
  fd_br : BitReader;
  fd_b : list Z;
  fd_first : bool;
  fd_finished : bool;
  fd_err : option string }.

Definition zeroFloatDecoder : FloatDecoder := MkFloatDecoder 0 0 0 (MkBitReader [] 0 0) [] false false None.

(** When the first value cannot be read only the reader has changed. *)
Definition SetBytes (it : FloatDecoder) (b : list Z) : FloatDecoder * option string :=
  match b with
  | [] => (MkFloatDecoder uvnan 0 0 (fd_br it) b true false None, None)
  | _ :: b' =>
    let br := Bits.Reset b' in
    match ReadBits 64 br with
    | (None, br) =>
      (MkFloatDecoder (fd_val it) (fd_leading it) (fd_trailing it) br (fd_b it) (fd_first it) (fd_finished it) (fd_err it),
       Some "EOF"%string)
    | (Some v, br) => (MkFloatDecoder v 0 0 br b true false None, None)
    end
  end.

Definition set_br (it : FloatDecoder) (br : BitReader) : FloatDecoder :=
  MkFloatDecoder (fd_val it) (fd_leading it) (fd_trailing it) br (fd_b it) (fd_first it) (fd_finished it) (fd_err it).
Definition fail (it : FloatDecoder) : FloatDecoder :=
  MkFloatDecoder (fd_val it) (fd_leading it) (fd_trailing it) (fd_br it) (fd_b it) (fd_first it) (fd_finished it) (Some "EOF"%string).
Definition set_leading (it : FloatDecoder) (l : Z) : FloatDecoder :=
  MkFloatDecoder (fd_val it) l (fd_trailing it) (fd_br it) (fd_b it) (fd_first it) (fd_finished it) (fd_err it).
Definition set_trailing (it : FloatDecoder) (t : Z) : FloatDecoder :=
  MkFloatDecoder (fd_val it) (fd_leading it) t (fd_br it) (fd_b it) (fd_first it) (fd_finished it) (fd_err it).
Definition finish (it : FloatDecoder) : FloatDecoder :=
  MkFloatDecoder (fd_val it) (fd_leading it) (fd_trailing it) (fd_br it) (fd_b it) (fd_first it) true (fd_err it).

(** Reads of [Next]: the reader advances also when it fails. *)
Definition read_bit (it : FloatDecoder) : option bool * FloatDecoder :=
  let '(b, br) := next_bit (fd_br it) in (b, set_br it br).
Definition read_bits (n : Z) (it : FloatDecoder) : option Z * FloatDecoder :=
  let '(v, br) := ReadBits n (fd_br it) in (v, set_br it br).

(** The new window of a difference. *)
Definition read_window (it : FloatDecoder) : FloatDecoder * bool :=
  match read_bits 5 it with
  | (None, it) => (fail it, false)
  | (Some leading, it) =>
    let it := set_leading it leading in
    match read_bits 6 it with
    | (None, it) => (fail it, false)
    | (Some bits, it) =>
      let mbits := if bits =? 0 then 64 else bits in
      (set_trailing it (u64 (64 - fd_leading it - mbits)), true)
    end
  end.

(** The significant bits of a difference. *)
Definition read_delta (it : FloatDecoder) : FloatDecoder * bool :=
  let mbits := u64 (64 - fd_leading it - fd_trailing it) in
  match read_bits mbits it with
  | (None, it) => (fail it, false)
  | (Some bits, it) =>
    let vbits := Z.lxor (fd_val it) (shl64 bits (fd_trailing it)) in
    if vbits =? uvnan then (finish it, false)
    else (MkFloatDecoder vbits (fd_leading it) (fd_trailing it) (fd_br it) (fd_b it) (fd_first it) (fd_finished it) (fd_err it), true)
  end.

Definition Next (it : FloatDecoder) : FloatDecoder * bool :=
  match fd_err it with
  | Some _ => (it, false)
  | None =>
    if fd_finished it then (it, false)
    else if fd_first it then
      let it := MkFloatDecoder (fd_val it) (fd_leading it) (fd_trailing it) (fd_br it) (fd_b it) false (fd_finished it) (fd_err it) in
      if fd_val it =? uvnan then (finish it, false) else (it, true)
    else
      match read_bit it with
      | (None, it) => (fail it, false)
      | (Some false, it) => (it, true)
      | (Some true, it) =>
        match read_bit it with
        | (None, it) => (fail it, false)
        | (Some false, it) => read_delta it
        | (Some true, it) =>
          let '(it, ok) := read_window it in if ok then read_delta it else (it, false)
        end
      end
  end.

Definition Values (it : FloatDecoder) : Z := fd_val it.
Definition Error (it : FloatDecoder) : option string := fd_err it.

Fixpoint drain (fuel : nat) (it : FloatDecoder) : outcome (list Z * option string) :=
  match fuel with
  | O => Panic
  | S f =>
    let '(it, ok) := Next it in
    if ok then let! (vs, err) := drain f it in Ret (Values it :: vs, err)
    else Ret ([], Error it)
  end.

Example stream_sample :
  let vs := [4608308318706860032; 4608308318706860032; 4612811918334230528; 0; 9221120237041090560 - 2 ^ 51] in
  (let! b := Bytes (Flush (fold_left Write vs (NewFloatEncoder (W := list_writer)))) in
   drain 10 (SetBytes zeroFloatDecoder b).1) = Ret (vs, None).
Proof. vm_compute. reflexivity. Qed.

(** ** The stream as bits *)

(** The code of [v] after [val] in the window of [lead] leading and [trail]
    trailing zeros, and the window after it. *)
Definition reuses (d lead trail : Z) : bool :=
  negb (lead =? noLeading) && (lead <=? clampLeading d) && (trail <=? TrailingZeros64 d).

Definition window_bits (d lead trail : Z) : list bool :=
  to_bits (Z.to_nat (64 - lead - trail)) (shr64 d trail).

Definition code (val lead trail v : Z) : list bool * Z * Z :=
  let d := Z.lxor v val in
  if d =? 0 then ([false], lead, trail)
  else
    let l := clampLeading d in
    let t := TrailingZeros64 d in
    if reuses d lead trail then (true :: false :: window_bits d lead trail, lead, trail)
    else (true :: true :: to_bits 5 l ++ to_bits 6 (64 - l - t) ++ window_bits d l t, l, t).

Fixpoint codes (val lead trail : Z) (vs : list Z) : list bool :=
  match vs with
  | [] => []
  | v :: vs => let '(bits, lead, trail) := code val lead trail v in bits ++ codes v lead trail vs
  end.

Definition stream (vs : list Z) : list bool :=
  match vs ++ [uvnan] with
  | [] => []
  | v :: vs => to_bits 64 v ++ codes v noLeading 0 vs
  end.

Definition window (lead trail : Z) : Prop := 0 <= lead <= 31 /\ 0 <= trail /\ lead + trail <= 63.
Definition covers (d lead trail : Z) : Prop := window lead trail /\ d < 2 ^ (64 - lead) /\ d mod 2 ^ trail = 0.

Lemma lxor_u64 a b : is_u64 a -> is_u64 b -> is_u64 (Z.lxor a b).
Proof.
  intros Ha Hb. assert (H : Z.lxor a b = u64 (Z.lxor a b)); [|rewrite H; apply u64_range].
  apply Z.bits_inj'. intros i Hi. unfold u64. destruct (Z.lt_ge_cases i 64).
  - by rewrite Z.mod_pow2_bits_low.
  - rewrite Z.mod_pow2_bits_high, Z.lxor_spec, !u64_bits by (done || lia). done.
Qed.

Lemma clamp_spec d :
  0 < d < 2 ^ 64 -> covers d (clampLeading d) (TrailingZeros64 d).
Proof.
  intros Hd. destruct (zeros_spec d Hd) as (H1 & H2 & H3 & H4 & H5). unfold clampLeading.
  assert (Hl : Z.land (LeadingZeros64 d) 31 = LeadingZeros64 d mod 32).
  { change 31 with (2 ^ 5 - 1). by rewrite land_ones_mod. }
  rewrite Hl. pose proof (Z.mod_pos_bound (LeadingZeros64 d) 32 ltac:(lia)) as Hm.
  pose proof (Z.mod_le (LeadingZeros64 d) 32 H1 ltac:(lia)) as Hle.
  destruct (Z.leb_spec 32 (LeadingZeros64 d mod 32)); [lia|]. split_and!; try done; [split_and!; lia|].
  eapply Z.lt_le_trans; [exact H4|]. apply Z.pow_le_mono_r; lia.
Qed.

Lemma reuse_covers d lead trail :
  0 < d < 2 ^ 64 -> window lead trail -> reuses d lead trail = true -> covers d lead trail.
Proof.
  intros Hd Hw Hr. unfold reuses in Hr. apply andb_true_iff in Hr as [Hr H2]. apply andb_true_iff in Hr as [_ H1].
  apply Z.leb_le in H1, H2. destruct (clamp_spec d Hd) as ((W1 & W2 & W3) & Hlt & Hm). destruct Hw as (V1 & V2 & V3).
  split; [done|]. split.
  - eapply Z.lt_le_trans; [exact Hlt|]. apply Z.pow_le_mono_r; lia.
  - set (t := TrailingZeros64 d) in *. apply Z.mod_divide; [lia|]. apply Z.divide_trans with (2 ^ t); [|by apply Z.mod_divide; [lia|]].
    exists (2 ^ (t - trail)). rewrite <- Z.pow_add_r by lia. f_equal. lia.
Qed.

(** The bits of a covering window give the difference back. *)
Lemma window_bits_value d lead trail :
  0 < d < 2 ^ 64 -> covers d lead trail -> shl64 (of_bits (window_bits d lead trail)) trail = d.
Proof.
  intros Hd ((W1 & W2 & W3) & Hlt & Hm). unfold window_bits. assert (Hp : 0 < 2 ^ trail) by (apply Z.pow_pos_nonneg; lia).
  assert (Hs : shr64 d trail = d / 2 ^ trail).
  { unfold shr64. destruct (Z.leb_spec 64 trail); [lia|]. by rewrite Z.shiftr_div_pow2 by lia. }
  assert (Hb : 0 <= shr64 d trail < 2 ^ (64 - lead - trail)).
  { rewrite Hs. split; [apply Z.div_pos; lia|]. apply Z.div_lt_upper_bound; [lia|]. rewrite <- Z.pow_add_r by lia.
    replace (trail + (64 - lead - trail)) with (64 - lead) by lia. done. }
  rewrite of_to_bits_id by (rewrite Z2Nat.id by lia; done). rewrite Hs.
  assert (Ed : d / 2 ^ trail * 2 ^ trail = d) by (pose proof (Z.div_mod d (2 ^ trail)); lia).
  rewrite shl64_small; [|lia|apply Z.div_pos; lia|lia]. by rewrite Z.shiftl_mul_pow2 by lia.
Qed.

Lemma window_bits_length d lead trail : length (window_bits d lead trail) = Z.to_nat (64 - lead - trail).
Proof. apply to_bits_length. Qed.

(** The windows an encoder goes through. *)
Definition window_ok (lead trail : Z) : Prop := lead = noLeading \/ window lead trail.

Lemma code_window val lead trail v :
  is_u64 val -> is_u64 v -> window_ok lead trail -> let '(_, l, t) := code val lead trail v in window_ok l t.
Proof.
  intros Hval Hv Hw. unfold code. pose proof (lxor_u64 v val Hv Hval) as Hd. destruct (Z.eqb_spec (Z.lxor v val) 0); [done|].
  destruct (reuses _ _ _); [done|]. right. apply clamp_spec. unint. lia.
Qed.

(** ** The encoder writes the stream *)

Section Encoder.
Context `{W : BitWriter} {WO : BitWriterOk W}.

(** An encoder that has written [bits] behind the last value [val]. *)
Definition at_bits (s : FloatEncoder) (val lead trail : Z) (first fin : bool) (bits : list bool) : Prop :=
  exists buf w, s = MkFloatEncoder val None lead trail buf w first fin /\ Forall is_byte buf /\
    bools_of buf ++ bw_pending w = bits.

Lemma writeBit_at s val lead trail first fin bits b :
  at_bits s val lead trail first fin bits -> at_bits (writeBit s b) val lead trail first fin (bits ++ [b]).
Proof.
  intros (buf & w & -> & Hb & E). unfold writeBit. cbn. pose proof (bw_writeBit w buf b Hb) as H.
  destruct (bw_WriteBit w buf b) as [w' buf']. destruct H as [H1 H2]. exists buf', w'. split_and!; [done..|].
  by rewrite H2, app_assoc, E.
Qed.

Lemma writeBits_at s val lead trail first fin bits u n :
  0 <= n <= 64 -> at_bits s val lead trail first fin bits ->
  at_bits (writeBits s u n) val lead trail first fin (bits ++ to_bits (Z.to_nat n) u).
Proof.
  intros Hn (buf & w & -> & Hb & E). unfold writeBits. cbn. pose proof (bw_writeBits w buf u n Hb Hn) as H.
  destruct (bw_WriteBits w buf u n) as [w' buf']. destruct H as [H1 H2]. exists buf', w'. split_and!; [done..|].
  by rewrite H2, app_assoc, E.
Qed.

Lemma set_val_at s val lead trail first fin bits v :
  at_bits s val lead trail first fin bits -> at_bits (set_val s v) v lead trail first fin bits.
Proof. intros (buf & w & -> & H). by exists buf, w. Qed.

Lemma set_window_at s val lead trail first fin bits l t :
  at_bits s val lead trail first fin bits -> at_bits (set_window s l t) val l t first fin bits.
Proof. intros (buf & w & -> & H). by exists buf, w. Qed.

Lemma at_bits_fields s val lead trail first fin bits :
  at_bits s val lead trail first fin bits ->
  fe_val s = val /\ fe_leading s = lead /\ fe_trailing s = trail /\ fe_first s = first /\ fe_finished s = fin.
Proof. by intros (buf & w & -> & _). Qed.

Lemma Write_next s val lead trail fin bits v :
  at_bits s val lead trail false fin bits -> (IsNaN v = false \/ fin = true) -> is_u64 val -> is_u64 v -> window_ok lead trail ->
  let '(c, l, t) := code val lead trail v in at_bits (Write s v) v l t false fin (bits ++ c).
Proof.
  intros Hs Hnan Hval Hv Hw. pose proof Hs as (F1 & F2 & F3 & F4 & F5)%at_bits_fields. unfold Write, code.
  assert (En : IsNaN v && negb (fe_finished s) = false) by (rewrite F5; destruct Hnan as [-> | ->]; [done|by rewrite andb_false_r]).
  rewrite En, F4, F1. pose proof (lxor_u64 v val Hv Hval) as Hd. destruct (Z.eqb_spec (Z.lxor v val) 0) as [E|E].
  { by apply set_val_at with val, writeBit_at. }
  assert (Hd' : 0 < Z.lxor v val < 2 ^ 64) by (unint; lia). set (d := Z.lxor v val) in *.
  pose proof (clamp_spec d Hd') as ((W1 & W2 & W3) & _).
  apply (writeBit_at _ _ _ _ _ _ _ true) in Hs. pose proof Hs as (G1 & G2 & G3 & G4 & G5)%at_bits_fields.
  rewrite G2, G3. fold (reuses d lead trail). destruct (reuses d lead trail) eqn:Er.
  - assert (Hww : window lead trail).
    { destruct Hw as [->|]; [|done]. unfold reuses in Er. by rewrite Z.eqb_refl in Er. }
    apply (writeBit_at _ _ _ _ _ _ _ false) in Hs. pose proof Hs as (K1 & K2 & K3 & _)%at_bits_fields. rewrite K2, K3.
    apply set_val_at with val. destruct Hww as (V1 & V2 & V3).
    apply (writeBits_at _ _ _ _ _ _ _ (shr64 d trail) (64 - lead - trail)) in Hs; [|lia].
    rewrite <- !app_assoc in Hs. exact Hs.
  - apply set_val_at with val. apply (set_window_at _ _ _ _ _ _ _ (clampLeading d) (TrailingZeros64 d)) in Hs.
    apply (writeBit_at _ _ _ _ _ _ _ true) in Hs.
    apply (writeBits_at _ _ _ _ _ _ _ (clampLeading d) 5) in Hs; [|lia].
    apply (writeBits_at _ _ _ _ _ _ _ (64 - clampLeading d - TrailingZeros64 d) 6) in Hs; [|lia].
    apply (writeBits_at _ _ _ _ _ _ _ (shr64 d (TrailingZeros64 d)) (64 - clampLeading d - TrailingZeros64 d)) in Hs; [|lia].
    rewrite <- !app_assoc in Hs. exact Hs.
Qed.

Definition finite (v : Z) : Prop := is_u64 v /\ IsNaN v = false.

Lemma Write_all vs : forall s val lead trail fin bits,
  at_bits s val lead trail false fin bits -> Forall (fun v => is_u64 v /\ (IsNaN v = false \/ fin = true)) vs -> is_u64 val ->
  window_ok lead trail ->
  exists val' l t, at_bits (fold_left Write vs s) val' l t false fin (bits ++ codes val lead trail vs) /\ is_u64 val' /\ window_ok l t /\
    forall v, codes val lead trail (vs ++ [v]) = codes val lead trail vs ++ (code val' l t v).1.1.
Proof.
  induction vs as [|v vs IH]; intros s val lead trail fin bits Hs Hf Hval Hw.
  { exists val, lead, trail. rewrite app_nil_r. split_and!; try done. intros v. cbn. destruct (code _ _ _ v) as [[c l] t]. cbn.
    apply app_nil_r. }
  apply Forall_cons_1 in Hf as [[Hv Hn] Hf]. cbn [fold_left codes app].
  pose proof (Write_next s val lead trail fin bits v Hs Hn Hval Hv Hw) as Hs'. pose proof (code_window val lead trail v Hval Hv Hw) as Hw'.
  destruct (code val lead trail v) as [[c l] t].
  destruct (IH _ _ _ _ _ _ Hs' Hf Hv Hw') as (val' & l' & t' & H1 & H2 & H3 & H4). exists val', l', t'.
  split_and!; [by rewrite app_assoc|done|done|]. intros x. by rewrite H4, app_assoc.
Qed.

Lemma uvnan_u64 : is_u64 uvnan.
Proof. unfold is_u64, uvnan. lia. Qed.

(** What [Reset], writing finite values and [Flush] leave in the buffer. *)
Lemma encoder_stream e vs :
  Forall finite vs ->
  exists bs k, Bytes (Flush (fold_left Write vs (Reset e))) = Ret (Z.shiftl floatCompressedGorilla 4 :: bs) /\
    Forall is_byte bs /\ (k < 8)%nat /\ bools_of bs = stream vs ++ replicate k false.
Proof.
  intros Hf. set (h := Z.shiftl floatCompressedGorilla 4). assert (Hh : is_byte h) by (unfold h; vm_compute; split; congruence).
  assert (H0 : at_bits (Reset e) 0 noLeading 0 true false (bools_of [h])).
  { eexists _, _. split; [reflexivity|]. split; [repeat constructor; apply Hh|]. by rewrite bw_resume, app_nil_r. }
  assert (Hfirst : forall s fin v bits, at_bits s 0 noLeading 0 true fin bits -> (IsNaN v = false \/ fin = true) ->
    at_bits (Write s v) v noLeading 0 false fin (bits ++ to_bits 64 v)).
  { intros s fin v bits (buf & w & -> & Hb & E) Hn. unfold Write. cbn [fe_finished fe_first].
    assert (IsNaN v && negb fin = false) as -> by (destruct Hn as [-> | ->]; [done|by rewrite andb_false_r]).
    apply (writeBits_at _ _ _ _ _ _ _ v 64); [lia|]. by exists buf, w. }
  assert (Hflush : forall s, (exists s' v l t, s = s' /\ at_bits (Write (MkFloatEncoder (fe_val s) (fe_err s) (fe_leading s) (fe_trailing s)
      (fe_buf s) (fe_bw s) (fe_first s) true) uvnan) v l t false true (bools_of [h] ++ stream vs)) -> fe_finished s = false ->
    exists bs k, Bytes (Flush s) = Ret (h :: bs) /\ Forall is_byte bs /\ (k < 8)%nat /\ bools_of bs = stream vs ++ replicate k false).
  { intros s (_ & v & l & t & _ & Hat) Hfin. unfold Flush. rewrite Hfin. destruct Hat as (buf & w & -> & Hb & E).
    cbn [fe_bw fe_buf]. pose proof (bw_flush w buf false Hb) as Hfl. destruct (bw_Flush w buf false) as [w' buf'].
    destruct Hfl as (Hb' & k & Hk & Ek). rewrite app_assoc, E in Ek. unfold Bytes. cbn [fe_err fe_buf].
    destruct buf' as [|x bs]; [done|]. apply Forall_cons_1 in Hb' as [Hx Hb']. rewrite bools_of_bytes, <- app_assoc in Ek.
    change (bools_of [h]) with (to_bits 8 h) in Ek.
    apply app_inj_1 in Ek as [Ex Ebs]; [|by rewrite !to_bits_length].
    assert (x = h) as ->.
    { apply (f_equal of_bits) in Ex. by rewrite !of_to_bits_id in Ex by (unint; cbn; lia). }
    by exists bs, k. }
  destruct vs as [|v vs]; cbn [fold_left].
  - apply Hflush; [|done]. eexists _, _, _, _. split; [reflexivity|].
    assert (Ht : at_bits (MkFloatEncoder (fe_val (Reset e)) (fe_err (Reset e)) (fe_leading (Reset e)) (fe_trailing (Reset e))
      (fe_buf (Reset e)) (fe_bw (Reset e)) (fe_first (Reset e)) true) 0 noLeading 0 true true (bools_of [h])).
    { destruct H0 as (buf & w & E & H). exists buf, w. rewrite E. done. }
    pose proof (Hfirst _ true uvnan _ Ht (or_intror eq_refl)) as H. unfold stream. cbn [app codes]. rewrite app_nil_r. exact H.
  - apply Forall_cons_1 in Hf as [[Hv Hn] Hf]. pose proof (Hfirst _ false v _ H0 (or_introl Hn)) as H1.
    destruct (Write_all vs _ v noLeading 0 false _ H1) as (val' & l & t & Hat & Hval & Hw & Hcodes).
    { eapply Forall_impl; [exact Hf|]. intros x [? ?]. auto. } { done. } { by left. }
    pose proof Hat as (_ & _ & _ & _ & Hfin)%at_bits_fields.
    apply Hflush; [|done]. set (s := fold_left Write vs (Write (Reset e) v)) in *.
    assert (Ht : at_bits (MkFloatEncoder (fe_val s) (fe_err s) (fe_leading s) (fe_trailing s) (fe_buf s) (fe_bw s) (fe_first s) true)
      val' l t false true ((bools_of [h] ++ to_bits 64 v) ++ codes v noLeading 0 vs)).
    { destruct Hat as (buf & w & -> & H). exists buf, w. done. }
    pose proof (Write_next _ _ _ _ _ _ uvnan Ht (or_intror eq_refl) Hval uvnan_u64 Hw) as H.
    unfold stream. cbn [app]. rewrite Hcodes. destruct (code val' l t uvnan) as [[c l'] t']. eexists _, _, _, _. split; [reflexivity|].
    cbn [fst]. rewrite <- !app_assoc in H. exact H.
Qed.
End Encoder.

(** ** The decoder reads the stream *)

(** A decoder between two values, with [bits] to read. *)
Record reading (it : FloatDecoder) (val lead trail : Z) (bits : list bool) : Prop := {
  rd_val : fd_val it = val;
  rd_window : lead <> noLeading -> fd_leading it = lead /\ fd_trailing it = trail;
  rd_first : fd_first it = false;
  rd_finished : fd_finished it = false;
  rd_err : fd_err it = None;
  rd_reader : reader_ok (fd_br it);
  rd_bits : unread (fd_br it) = bits }.

Lemma read_bit_run it val lead trail b bits :
  reading it val lead trail (b :: bits) -> exists it', read_bit it = (Some b, it') /\ reading it' val lead trail bits.
Proof.
  intros [H1 H2 H3 H4 H5 H6 H7]. unfold read_bit. destruct (next_bit_run _ b bits H6 H7) as (r' & -> & Hr & Hu).
  eexists. split; [reflexivity|]. by split.
Qed.

Lemma read_bits_run it val lead trail n f bits :
  reading it val lead trail (f ++ bits) -> length f = Z.to_nat n -> 1 <= n <= 64 ->
  exists it', read_bits n it = (Some (of_bits f), it') /\ reading it' val lead trail bits.
Proof.
  intros [H1 H2 H3 H4 H5 H6 H7] Hl Hn. unfold read_bits. destruct (read_field _ n f bits H6 H7 Hl Hn) as (r' & -> & Hr & Hu).
  eexists. split; [reflexivity|]. by split.
Qed.

(** Reading the significant bits of the difference to [v] in a window that
    covers it. *)
Lemma read_delta_run it val lead trail v bits :
  let d := Z.lxor v val in
  0 < d < 2 ^ 64 -> covers d lead trail -> reading it val lead trail (window_bits d lead trail ++ bits) ->
  exists it', read_delta it = (it', negb (v =? uvnan)) /\ fd_err it' = None /\
    (v <> uvnan -> reading it' v lead trail bits).
Proof.
  intros d Hd Hc Hr. pose proof Hc as ((W1 & W2 & W3) & _). pose proof (rd_window _ _ _ _ _ Hr) as [El Et].
  { unfold noLeading. lia. }
  unfold read_delta. rewrite El, Et, u64_id by (unint; lia).
  destruct (read_bits_run it val lead trail _ _ _ Hr (window_bits_length d lead trail)) as (it1 & -> & Hr1); [lia|].
  destruct Hr1 as [H1 H2 H3 H4 H5 H6 H7]. destruct (H2 ltac:(unfold noLeading; lia)) as [E1 E2].
  rewrite E2, window_bits_value by done. rewrite H1. unfold d. rewrite (Z.lxor_comm v val), <- Z.lxor_assoc, Z.lxor_nilpotent, Z.lxor_0_l.
  destruct (Z.eqb_spec v uvnan) as [->|Hne]; eexists; (split; [reflexivity|]); (split; [exact H5|]); [done|].
  intros _. by split.
Qed.

Lemma read_window_run it val lead trail l t bits :
  window l t -> reading it val lead trail (to_bits 5 l ++ to_bits 6 (64 - l - t) ++ bits) ->
  exists it', read_window it = (it', true) /\ reading it' val l t bits.
Proof.
  intros (W1 & W2 & W3) Hr. unfold read_window.
  destruct (read_bits_run it val lead trail 5 _ _ Hr (to_bits_length 5 l)) as (it1 & -> & Hr1); [lia|].
  rewrite of_to_bits_id by (cbn; lia).
  assert (Hr1' : reading (set_leading it1 l) val noLeading 0 (to_bits 6 (64 - l - t) ++ bits)) by (destruct Hr1; by split).
  destruct (read_bits_run _ val noLeading 0 6 _ _ Hr1' (to_bits_length 6 (64 - l - t))) as (it2 & E2 & Hr2); [lia|].
  rewrite E2. assert (El : fd_leading it2 = l).
  { unfold read_bits in E2. destruct (ReadBits 6 _) as [o br]. by injection E2 as _ <-. }
  rewrite of_to_bits. change (2 ^ Z.of_nat 6) with 64. rewrite El.
  assert (Em : (if (64 - l - t) mod 64 =? 0 then 64 else (64 - l - t) mod 64) = 64 - l - t).
  { destruct (Z.eq_dec (64 - l - t) 64) as [->|]; [done|]. rewrite Z.mod_small by lia. by destruct (Z.eqb_spec (64 - l - t) 0); [lia|]. }
  rewrite Em. eexists. split; [reflexivity|]. destruct Hr2 as [H1 H2 H3 H4 H5 H6 H7]. split; try done.
  intros _. cbn [set_trailing fd_leading fd_trailing]. split; [done|]. replace (64 - l - (64 - l - t)) with t by lia.
  apply u64_id. unint. lia.
Qed.

Lemma Next_code it val lead trail v bits :
  is_u64 val -> is_u64 v -> val <> uvnan -> window_ok lead trail ->
  let '(c, l, t) := code val lead trail v in
  reading it val lead trail (c ++ bits) ->
  exists it', Next it = (it', negb (v =? uvnan)) /\ fd_err it' = None /\ (v <> uvnan -> reading it' v l t bits).
Proof.
  intros Hval Hv Hnn Hw. unfold code. pose proof (lxor_u64 v val Hv Hval) as Hd. set (d := Z.lxor v val) in *.
  destruct (Z.eqb_spec d 0) as [E|E].
  - intros Hr. assert (v = val) as ->.
    { apply Z.lxor_eq. exact E. }
    unfold Next. rewrite (rd_err _ _ _ _ _ Hr), (rd_finished _ _ _ _ _ Hr), (rd_first _ _ _ _ _ Hr).
    destruct (read_bit_run _ _ _ _ _ _ Hr) as (it1 & -> & Hr1). exists it1. destruct (Z.eqb_spec val uvnan); [done|].
    split_and!; [done|by destruct Hr1|done].
  - assert (Hd' : 0 < d < 2 ^ 64) by (unint; lia). destruct (reuses d lead trail) eqn:Er; intros Hr; cbn [app] in Hr; rewrite <- ?app_assoc in Hr.
    + assert (Hww : window lead trail).
      { destruct Hw as [->|]; [|done]. unfold reuses in Er. by rewrite Z.eqb_refl in Er. }
      unfold Next. rewrite (rd_err _ _ _ _ _ Hr), (rd_finished _ _ _ _ _ Hr), (rd_first _ _ _ _ _ Hr).
      destruct (read_bit_run _ _ _ _ _ _ Hr) as (it1 & -> & Hr1). destruct (read_bit_run _ _ _ _ _ _ Hr1) as (it2 & -> & Hr2).
      apply (read_delta_run it2 val lead trail v bits); [done|by apply reuse_covers|done].
    + unfold Next. rewrite (rd_err _ _ _ _ _ Hr), (rd_finished _ _ _ _ _ Hr), (rd_first _ _ _ _ _ Hr).
      destruct (read_bit_run _ _ _ _ _ _ Hr) as (it1 & -> & Hr1). destruct (read_bit_run _ _ _ _ _ _ Hr1) as (it2 & -> & Hr2).
      pose proof (clamp_spec d Hd') as Hc.
      destruct (read_window_run it2 val lead trail _ _ _ (proj1 Hc) Hr2) as (it3 & -> & Hr3).
      apply (read_delta_run it3 val _ _ v bits); done.
Qed.

Lemma drain_codes vs : forall it val lead trail bits,
  reading it val lead trail (codes val lead trail (vs ++ [uvnan]) ++ bits) ->
  is_u64 val -> val <> uvnan -> window_ok lead trail -> Forall (fun v => is_u64 v /\ v <> uvnan) vs ->
  drain (S (length vs)) it = Ret (vs, None).
Proof.
  induction vs as [|v vs IH]; intros it val lead trail bits Hr Hval Hnn Hw Hf; cbn [app length] in *.
  - cbn [codes drain] in *. pose proof (Next_code it val lead trail uvnan bits Hval uvnan_u64 Hnn Hw) as H.
    destruct (code val lead trail uvnan) as [[c l] t]. rewrite app_nil_r in Hr. destruct (H Hr) as (it' & -> & He & _).
    change (negb (uvnan =? uvnan)) with false. cbn iota. unfold Error. by rewrite He.
  - apply Forall_cons_1 in Hf as [[Hv Hvn] Hf]. cbn [codes] in Hr. pose proof (code_window val lead trail v Hval Hv Hw) as Hw'.
    remember (S (length vs)) as f eqn:Ef. cbn [drain].
    destruct (code val lead trail v) as [[c l] t] eqn:Ec. rewrite <- app_assoc in Hr.
    pose proof (Next_code it val lead trail v (codes v l t (vs ++ [uvnan]) ++ bits) Hval Hv Hnn Hw) as H. rewrite Ec in H.
    destruct (H Hr) as (it' & -> & _ & Hn). specialize (Hn Hvn). destruct (Z.eqb_spec v uvnan); [done|]. cbn [negb].
    subst f. rewrite (IH it' v l t bits Hn Hv Hvn Hw' Hf). cbn [obind]. unfold Values. by rewrite (rd_val _ _ _ _ _ Hn).
Qed.

Lemma finite_not_uvnan v : finite v -> v <> uvnan.
Proof. intros [_ Hn] ->. vm_compute in Hn. discriminate. Qed.

(** Any decoder, set to a block that holds the stream of [vs], reads [vs]. *)
Lemma decoder_stream it h bs vs k :
  Forall finite vs -> Forall is_byte bs -> bools_of bs = stream vs ++ replicate k false ->
  exists it', SetBytes it (h :: bs) = (it', None) /\ drain (S (length vs)) it' = Ret (vs, None).
Proof.
  intros Hf Hb Es. unfold SetBytes. destruct (readBuf_run bs Hb) as (Hr & Hu & _). fold (Bits.Reset bs) in Hr, Hu.
  assert (Hstream : exists v rest, stream vs = to_bits 64 v ++ rest /\ is_u64 v /\
    match vs with [] => v = uvnan | x :: vs' => v = x /\ rest = codes x noLeading 0 (vs' ++ [uvnan]) end).
  { unfold stream. destruct vs as [|x vs]; cbn [app].
    - eexists _, _. split; [reflexivity|]. split; [apply uvnan_u64|done].
    - eexists _, _. split; [reflexivity|]. split; [|done]. by apply Forall_cons_1 in Hf as [[? _] _]. }
  destruct Hstream as (v & rest & E & Hv & Hvs). rewrite Es, E, <- app_assoc in Hu.
  destruct (read_field _ 64 (to_bits 64 v) _ Hr Hu (to_bits_length 64 v)) as (br & -> & Hr' & Hu'); [lia|].
  rewrite of_to_bits_id by exact Hv. eexists. split; [reflexivity|]. destruct vs as [|x vs].
  - subst v. reflexivity.
  - destruct Hvs as [-> ->]. apply Forall_cons_1 in Hf as [Hx Hf]. pose proof (finite_not_uvnan x Hx) as Hxn.
    change (length (x :: vs)) with (S (length vs)). remember (S (length vs)) as f eqn:Ef.
    cbn [drain Next fd_err fd_finished fd_first fd_val]. destruct (Z.eqb_spec x uvnan); [done|]. subst f.
    assert (Hok : Forall (fun v => is_u64 v /\ v <> uvnan) vs).
    { eapply Forall_impl; [exact Hf|]. intros y Hy. split; [by destruct Hy|by apply finite_not_uvnan]. }
    match goal with |- context [drain _ ?i] => pose proof (drain_codes vs i x noLeading 0 (replicate k false)) as Hd end.
    rewrite Hd; [done| |by destruct Hx|done|by left|done].
    split; cbn [fd_val fd_first fd_finished fd_err fd_br]; try done.
Qed.

(** C17. Every sequence of float64 values other than NaN, written to a new or
    reused [FloatEncoder] and flushed, is returned bit for bit and without
    error by a [FloatDecoder], new or reused, on its [Bytes]: the windows of
    significant bits, the wrapped count of 64 bits and the NaN that ends the
    stream do not lose or add a value. *)
Theorem FloatEncoder_Decoder_roundtrip `{W : BitWriter} {WO : BitWriterOk W} (e : FloatEncoder) (it : FloatDecoder) (vs : list Z) :
  Forall (fun v => is_u64 v /\ IsNaN v = false) vs ->
  exists bs it', Bytes (Flush (fold_left Write vs (Reset e))) = Ret bs /\ SetBytes it bs = (it', None) /\
    drain (S (length vs)) it' = Ret (vs, None).
Proof.
  intros Hf. destruct (encoder_stream e vs Hf) as (bs & k & E & Hb & _ & Es).
  destruct (decoder_stream it (Z.shiftl floatCompressedGorilla 4) bs vs k Hf Hb Es) as (it' & E1 & E2).
  by eexists _, it'.
Qed.

Lemma FloatEncoder_Decoder_roundtrip_witness :
  exists bs it', Bytes (Flush (fold_left Write [4608308318706860032; 2 ^ 63; 0] (Reset (NewFloatEncoder (W := list_writer))))) = Ret bs /\
    SetBytes zeroFloatDecoder bs = (it', None) /\ drain 4 it' = Ret ([4608308318706860032; 2 ^ 63; 0], None).
Proof.
  apply (FloatEncoder_Decoder_roundtrip (WO := list_writer_ok) (NewFloatEncoder (W := list_writer)) zeroFloatDecoder).
  repeat constructor; vm_compute; congruence.
Defined.
End FloatCodec.
