(* ===== verification/FloatBatch.v ===== *)
(** * tsdb/engine/tsm1: the batch float codec

    Models [batch_float.go]: [FloatArrayEncodeAll], which writes the Gorilla
    stream of [FloatCodec.v] in place into a growing byte slice, and
    [FloatArrayDecodeAll], which reads it through a rotating 64-bit cache.
    The theorems show that the batch encoder writes the very block the
    streaming encoder writes, that the batch decoder returns the values of
    such a block, that it terminates without panicking on every input, and
    which finite inputs the encoder refuses. *)
From S2P Require Import Prelude BoolCodec Bits FloatCodec.
Import BoolCodec (bools_of, bools_of_app, bools_of_length, byte_high).
Import Bits.
From Stdlib Require Import SpecFloat.
#[global] Open Scope Z_scope.

Module FloatBatch.
Import FloatCodec (floatCompressedGorilla, uvnan, noLeading, IsNaN, clampLeading).

(** ** Decoding *)

(** [bits.RotateLeft64]; a negative count rotates right. *)
Definition RotateLeft64 (x k : Z) : Z :=
  let s := k mod 64 in Z.lor (shl64 x s) (shr64 x (64 - s)).

Definition u8 (x : Z) : Z := x mod 256.

(** The table of [init]: [v = v<<1 | 1] from 1, written at [i & 0x3f]. *)
Fixpoint bitMask_loop (fuel : nat) (i v : Z) (t : list Z) : list Z :=
  match fuel with
  | O => t
  | S f => bitMask_loop f (i + 1) (Z.lor (shl64 v 1) 1) (<[Z.to_nat (Z.land i 63) := v]> t)
  end.
Definition bitMask_table : list Z := Eval vm_compute in bitMask_loop 64 1 1 (replicate 64 0).
Definition bitMask (i : Z) : Z := bitMask_table !!! Z.to_nat i.

Record cache := MkCache { c_b : list Z; c_val : Z; c_valid : Z }.

(** Refill the cache with up to eight bytes; [None] is the jump to ERROR. *)
Definition refill (c : cache) : option cache :=
  if (8 <=? length (c_b c))%nat then Some (MkCache (drop 8 (c_b c)) (be_get (take 8 (c_b c))) 64)
  else if (0 <? length (c_b c))%nat then
    let valid := Z.of_nat (length (c_b c)) * 8 in
    let v := fold_left (fun v x => Z.lor (shl64 v 8) x) (c_b c) 0 in
    Some (MkCache [] (RotateLeft64 v (- valid)) valid)
  else None.

(** A control bit. *)
Definition read1 (c : cache) : option (bool * cache) :=
  c ← (if 0 <? c_valid c then Some c else refill c);
  let v := RotateLeft64 (c_val c) 1 in
  Some (Z.odd v, MkCache (c_b c) v (u8 (c_valid c - 1))).

(** [n] bits, to be masked by the caller; what is missing in the cache comes
    from the next one. *)
Definition readn (n : Z) (c : cache) : option (Z * cache) :=
  if n <=? c_valid c then
    let v := RotateLeft64 (c_val c) n in Some (v, MkCache (c_b c) v (u8 (c_valid c - n)))
  else
    let m := if 0 <? c_valid c then u8 (n - c_valid c) else n in
    let s := if 0 <? c_valid c then RotateLeft64 (c_val c) n else 0 in
    c ← refill c;
    let v := RotateLeft64 (c_val c) m in
    let mask := bitMask (Z.land m 63) in
    Some (Z.lor (Z.ldiff s mask) (Z.land v mask), MkCache (c_b c) v (u8 (c_valid c - m))).

(** One round of the loop: the next value and window, [Some None] at the end
    of the stream, [None] for the jump to ERROR. *)
Definition round (val trailingN meaningfulN : Z) (c : cache) : option (option (Z * Z * Z * cache)) :=
  '(b0, c) ← read1 c;
  if negb b0 then Some (Some (val, trailingN, meaningfulN, c))
  else
    '(b1, c) ← read1 c;
    '(trailingN, meaningfulN, c) ←
      (if (b1 : bool) then
         '(lm, c) ← readn 11 c;
         let lm := Z.land lm 2047 in
         let leadingN := Z.land (Z.shiftr lm 6) 31 in
         let meaningfulN := Z.land lm 63 in
         Some (if 0 <? meaningfulN then (u8 (64 - leadingN - meaningfulN), meaningfulN, c) else (0, 64, c))
       else Some (trailingN, meaningfulN, c));
    '(s, c) ← readn meaningfulN c;
    let s := Z.land s (bitMask (Z.land meaningfulN 63)) in
    let val := Z.lxor val (shl64 s (Z.land trailingN 63)) in
    if val =? uvnan then Some None else Some (Some (val, trailingN, meaningfulN, c)).

Fixpoint decode_loop (fuel : nat) (val trailingN meaningfulN : Z) (c : cache) (dst : list Z) : outcome (list Z) :=
  match fuel with
  | O => Panic
  | S f =>
    match round val trailingN meaningfulN c with
    | None => Fail "EOF"
    | Some None => Ret dst
    | Some (Some (val, trailingN, meaningfulN, c)) => decode_loop f val trailingN meaningfulN c (dst ++ [val])
    end
  end.

(** Each round shortens the cache, which holds fewer than 256 bits, or the
    bytes behind it, so [256 * (len b + 1)] rounds are enough. *)
Definition FloatArrayDecodeAll (b : list Z) : outcome (list Z) :=
  if (length b <? 9)%nat then Ret []
  else
    let b := drop 1 b in
    let val := be_get (take 8 b) in
    if val =? uvnan then Ret []
    else
      let b := drop 8 b in
      match refill (MkCache b 0 0) with
      | None => Fail "EOF"
      | Some c => decode_loop (256 * (length b + 1)) val 0 64 c [val]
      end.

(** ** Encoding *)

(** A byte slice and the number of bits written. *)
Definition buffer : Type := list Z * Z.

(** [for (n+k)>>3 >= len(b) { b = append(b, 0) }] *)
Definition grow_while (k : Z) (s : buffer) : buffer :=
  let '(b, n) := s in (b ++ replicate (S (Z.to_nat (Z.shiftr (n + k) 3)) - length b) 0, n).

(** [if (n+k)>>3 >= len(b) { b = append(b, 0) }] *)
Definition grow_once (k : Z) (s : buffer) : buffer :=
  let '(b, n) := s in ((if Z.of_nat (length b) <=? Z.shiftr (n + k) 3 then b ++ [0] else b), n).

(** [b\[n>>3\] |= byte(x); n += k] *)
Definition or_byte (x k : Z) (s : buffer) : outcome buffer :=
  let '(b, n) := s in
  let i := Z.to_nat (Z.shiftr n 3) in
  let! y := or_panic (b !! i) in
  Ret (<[i := Z.lor y (u8 x)]> b, n + k).

(** The [w] low bits of [x], for [w] of 5 or 6, which may straddle two bytes. *)
Definition write_small (x w : Z) (s : buffer) : outcome buffer :=
  let s := grow_once w s in
  let m := Z.land (snd s) 7 in
  let v := shl64 x (64 - w) in
  let mask := shr64 v 56 in
  if m <=? 8 - w then or_byte (shr64 mask m) w s
  else
    let written := 8 - m in
    let! s := or_byte (shr64 mask m) written s in
    let mask := shr64 (shl64 v written) 56 in
    let m := Z.land (snd s) 7 in
    or_byte (shr64 mask m) (w - written) s.

(** [binary.BigEndian.PutUint64(b\[n>>3:\], x); n += k], after making room. *)
Definition put_word (x k : Z) (s : buffer) : outcome buffer :=
  let '(b, n) := s in
  let i := Z.to_nat (Z.shiftr n 3) in
  let b := if Z.of_nat (length b) <=? Z.shiftr n 3 + 8 then b ++ replicate 8 0 else b in
  if (length b <? i + 8)%nat then Panic
  else Ret (take i b ++ be_put 8 x ++ drop (i + 8) b, n + k).

(** The [l] low bits of [x]: the rest of the current byte, then a word. *)
Definition write_large (x l : Z) (s : buffer) : outcome buffer :=
  let s := grow_while l s in
  let m := Z.land (snd s) 7 in
  let v := shl64 x (64 - l) in
  if 0 <? m then
    let written := Z.min (8 - m) l in
    let! s := or_byte (shr64 (shr64 v 56) m) written s in
    if l - written =? 0 then Ret s
    else put_word (shl64 v written) (l - written) s
  else put_word v l s.

(** [n++] for a zero bit. *)
Definition skip_bit (s : buffer) : buffer := (fst s, snd s + 1).

(** The body of the loop for the bits [cur] after [prev]. *)
Definition encode_value (prev prevLeading prevTrailing cur : Z) (s : buffer) : outcome (buffer * Z * Z) :=
  let vDelta := Z.lxor cur prev in
  if vDelta =? 0 then Ret (skip_bit s, prevLeading, prevTrailing)
  else
    let s := grow_while 0 s in
    let! s := or_byte (Z.shiftr 128 (Z.land (snd s) 7)) 1 s in
    let leading := clampLeading vDelta in
    let trailing := TrailingZeros64 vDelta in
    let s := grow_once 2 s in
    if negb (prevLeading =? noLeading) && (prevLeading <=? leading) && (prevTrailing <=? trailing) then
      let s := skip_bit s in
      let! s := write_large (shr64 vDelta prevTrailing) (64 - prevLeading - prevTrailing) s in
      Ret (s, prevLeading, prevTrailing)
    else
      let! s := or_byte (Z.shiftr 128 (Z.land (snd s) 7)) 1 s in
      let! s := write_small leading 5 s in
      let sigbits := 64 - leading - trailing in
      let! s := write_small sigbits 6 s in
      let! s := write_large (shr64 vDelta trailing) sigbits s in
      Ret (s, leading, trailing).

Fixpoint encode_loop (prev prevLeading prevTrailing : Z) (vs : list Z) (s : buffer) : outcome buffer :=
  match vs with
  | [] => Ret s
  | cur :: vs =>
    let! ((s, prevLeading), prevTrailing) := encode_value prev prevLeading prevTrailing cur s in
    encode_loop cur prevLeading prevTrailing vs s
  end.

(** The float64 with the given bits, and [sum += x]. *)
Definition float64frombits (v : Z) : spec_float :=
  let sign := Z.testbit v 63 in
  let e := Z.land (Z.shiftr v 52) 2047 in
  let m := Z.land v (2 ^ 52 - 1) in
  if e =? 2047 then (if m =? 0 then S754_infinity sign else S754_nan)
  else if e =? 0 then match m with Zpos p => S754_finite sign p (-1074) | _ => S754_zero sign end
  else match m + 2 ^ 52 with Zpos p => S754_finite sign p (e - 1075) | _ => S754_nan end.
Definition float_sum (vs : list Z) : spec_float :=
  fold_left (fun sum v => SFadd 53 1024 sum (float64frombits v)) vs (S754_zero false).
Definition is_nan (f : spec_float) : bool := match f with S754_nan => true | _ => false end.

(** The slice passed in is cut to one byte and everything behind it is
    appended or overwritten, so its contents do not matter.  [sum] skips the
    first value. *)
Definition FloatArrayEncodeAll (src : list Z) : outcome (list Z) :=
  let header := Z.shiftl floatCompressedGorilla 4 in
  match src with
  | first :: src =>
    if IsNaN first then Fail "unsupported value: NaN"
    else
      let! (b, n) := encode_loop first noLeading 0 (src ++ [uvnan]) (header :: be_put 8 first, 72) in
      if is_nan (float_sum src) then Fail "unsupported value: NaN"
      else
        let length := Z.to_nat (Z.shiftr n 3 + (if 0 <? Z.land n 7 then 1 else 0)) in
        if (List.length b <? length)%nat then Panic else Ret (take length b)
  | [] => Ret (header :: be_put 8 uvnan)
  end.

Example batch_sample :
  let vs := [4608308318706860032; 4608308318706860032; 4612811918334230528; 0; 9221120237041090560 - 2 ^ 51] in
  (let! b := FloatArrayEncodeAll vs in FloatArrayDecodeAll b) = Ret vs /\
  FloatArrayEncodeAll vs = FloatCodec.Bytes (FloatCodec.Flush (fold_left FloatCodec.Write vs (FloatCodec.NewFloatEncoder (W := list_writer)))).
Proof. vm_compute. by split. Qed.

(** ** The cache holds the bits to read *)

Lemma rotl_range x k : is_u64 x -> is_u64 (RotateLeft64 x k).
Proof.
  intros Hx. unfold RotateLeft64. pose proof (Z.mod_pos_bound k 64). apply lor_u64; [apply shl64_range|apply shr64_range; (done || lia)].
Qed.

Lemma rotl_bits x k i :
  is_u64 x -> 0 <= i < 64 -> Z.testbit (RotateLeft64 x k) i = Z.testbit x ((i - k) mod 64).
Proof.
  intros Hx Hi. unfold RotateLeft64. rewrite <- (Zminus_mod_idemp_r i k 64). pose proof (Z.mod_pos_bound k 64 ltac:(lia)) as Hs.
  set (s := k mod 64) in *. rewrite Z.lor_spec, shl64_bits, shr64_bits by (done || lia). destruct (Z.leb_spec s i).
  - rewrite (u64_bits x (i + (64 - s))), orb_false_r by (done || lia). f_equal. symmetry. apply Z.mod_small. lia.
  - cbn [orb]. f_equal. rewrite <- (Z.mod_add (i - s) 1 64), Z.mod_small by lia. lia.
Qed.

Lemma bitMask_eq n : 1 <= n <= 64 -> bitMask (Z.land n 63) = 2 ^ n - 1.
Proof.
  intros Hn. assert (H : forallb (fun k => bitMask (Z.land (Z.of_nat k) 63) =? 2 ^ Z.of_nat k - 1) (seq 1 64) = true) by (vm_compute; reflexivity).
  rewrite forallb_forall in H. specialize (H (Z.to_nat n)). rewrite Z2Nat.id in H by lia. apply Z.eqb_eq, H, in_seq. lia.
Qed.

Lemma bitMask_bits n i : 1 <= n <= 64 -> 0 <= i -> Z.testbit (bitMask (Z.land n 63)) i = (i <? n).
Proof.
  intros Hn Hi. rewrite bitMask_eq by done. replace (2 ^ n - 1) with (Z.ones n) by (rewrite Z.ones_equiv; lia). destruct (Z.ltb_spec i n).
  - apply Z.ones_spec_low. lia.
  - apply Z.ones_spec_high. lia.
Qed.

Lemma masked n x : 1 <= n <= 64 -> Z.land x (bitMask (Z.land n 63)) = of_bits (to_bits (Z.to_nat n) x).
Proof. intros Hn. rewrite bitMask_eq, land_ones_mod, of_to_bits, Z2Nat.id by lia. done. Qed.

Definition unread (c : cache) : list bool :=
  to_bits (Z.to_nat (c_valid c)) (Z.shiftr (c_val c) (64 - c_valid c)) ++ bools_of (c_b c).

Record cache_ok (c : cache) : Prop := {
  co_valid : 0 <= c_valid c <= 64;
  co_val : is_u64 (c_val c);
  co_b : Forall is_byte (c_b c) }.

Lemma rotl_low x n : is_u64 x -> 0 <= n <= 64 -> to_bits (Z.to_nat n) (RotateLeft64 x n) = to_bits (Z.to_nat n) (Z.shiftr x (64 - n)).
Proof.
  intros Hx Hn. apply to_bits_ext. intros i Hi. rewrite rotl_bits, Z.shiftr_spec by (done || lia). f_equal.
  destruct (Z.eq_dec n 64) as [->|]; [rewrite <- (Z.mod_add (i - 64) 1 64), Z.mod_small by lia; lia|].
  rewrite <- (Z.mod_add (i - n) 1 64), Z.mod_small by lia. lia.
Qed.

Lemma rotl_rest x n valid :
  is_u64 x -> 0 <= n <= valid -> valid <= 64 ->
  to_bits (Z.to_nat (valid - n)) (Z.shiftr (RotateLeft64 x n) (64 - (valid - n))) =
    drop (Z.to_nat n) (to_bits (Z.to_nat valid) (Z.shiftr x (64 - valid))).
Proof.
  intros Hx Hn Hv. rewrite to_bits_drop by lia. replace (Z.to_nat valid - Z.to_nat n)%nat with (Z.to_nat (valid - n)) by lia.
  apply to_bits_ext. intros i Hi. rewrite !Z.shiftr_spec, rotl_bits by (done || lia). f_equal. rewrite Z.mod_small by lia. lia.
Qed.

Lemma refill_fold l : Forall is_byte l -> (length l <= 7)%nat -> fold_left (fun v x => Z.lor (shl64 v 8) x) l 0 = be_get l.
Proof.
  intros Hl. induction l as [|x l IH] using rev_ind; intros Hn; [done|]. rewrite length_app in Hn. cbn in Hn.
  apply Forall_app in Hl as [Hl Hx]. rewrite fold_left_app, IH by (done || lia). unfold be_get. rewrite fold_left_app. cbn [fold_left].
  fold (be_get l). f_equal. pose proof (be_get_bound l Hl) as Hb.
  assert (2 ^ (8 * Z.of_nat (length l)) <= 2 ^ 48) by (apply Z.pow_le_mono_r; lia). apply shl64_small; lia.
Qed.

Lemma refill_run c :
  Forall is_byte (c_b c) -> c_b c <> [] ->
  exists c', refill c = Some c' /\ cache_ok c' /\ unread c' = bools_of (c_b c) /\
    c_valid c' = Z.min 64 (8 * Z.of_nat (length (c_b c))) /\ (length (c_b c') < length (c_b c))%nat.
Proof.
  intros Hb Hne. unfold refill. destruct (Nat.leb_spec 8 (length (c_b c))) as [H8|H8].
  - assert (Hl : length (take 8 (c_b c)) = 8%nat) by (rewrite length_take; lia).
    assert (Hb8 : Forall is_byte (take 8 (c_b c))) by (by apply Forall_take). pose proof (be_get_bound _ Hb8) as Hv. rewrite Hl in Hv.
    eexists. split; [reflexivity|]. split_and!.
    + split; cbn [c_valid c_val c_b]; [lia|exact Hv|by apply Forall_drop].
    + unfold unread. cbn [c_valid c_val c_b]. change (64 - 64) with 0. rewrite Z.shiftr_0_r. change (Z.to_nat 64) with (8 * 8)%nat.
      rewrite <- Hl at 2. rewrite be_get_bits by done. rewrite <- bools_of_app. by rewrite take_drop.
    + cbn. lia.
    + cbn [c_b]. rewrite length_drop. lia.
  - destruct (Nat.ltb_spec 0 (length (c_b c))) as [H0|H0]; [|destruct (c_b c); [done|cbn in H0; lia]].
    rewrite refill_fold by (done || lia). pose proof (be_get_bound _ Hb) as Hv. set (l := c_b c) in *. set (n := length l) in *.
    assert (Hu : is_u64 (be_get l)).
    { unfold is_u64. assert (2 ^ (8 * Z.of_nat n) <= 2 ^ 56) by (apply Z.pow_le_mono_r; lia). lia. }
    eexists. split; [reflexivity|]. split_and!.
    + split; cbn [c_valid c_val c_b]; [lia|by apply rotl_range|constructor].
    + unfold unread. cbn [c_valid c_val c_b]. rewrite app_nil_r, <- (be_get_bits l Hb). fold n.
      replace (Z.to_nat (Z.of_nat n * 8)) with (8 * n)%nat by lia. apply to_bits_ext. intros i Hi.
      rewrite Z.shiftr_spec, rotl_bits by (done || lia). f_equal.
      replace (i + (64 - Z.of_nat n * 8) - - (Z.of_nat n * 8)) with (i + 1 * 64) by lia. rewrite Z.mod_add, Z.mod_small by lia. done.
    + cbn [c_valid]. lia.
    + cbn [c_b length]. lia.
Qed.

Lemma u8_small x : 0 <= x < 256 -> u8 x = x.
Proof. apply Z.mod_small. Qed.

Lemma readn_run n c bits rest :
  cache_ok c -> 1 <= n <= 64 -> unread c = bits ++ rest -> length bits = Z.to_nat n ->
  exists x c', readn n c = Some (x, c') /\ cache_ok c' /\ unread c' = rest /\ to_bits (Z.to_nat n) x = bits.
Proof.
  intros [Hvalid Hval Hb] Hn Hu Hl. unfold readn. destruct c as [b val valid]. cbn [c_b c_val c_valid] in *.
  unfold unread in Hu. cbn [c_b c_val c_valid] in Hu.
  set (h := to_bits (Z.to_nat valid) (Z.shiftr val (64 - valid))) in *. assert (Hh : length h = Z.to_nat valid) by apply to_bits_length.
  destruct (Z.leb_spec n valid) as [Hle|Hgt].
  - rewrite u8_small by lia. eexists _, _. split; [reflexivity|]. split_and!.
    + split; cbn [c_valid c_val c_b]; [lia|by apply rotl_range|done].
    + unfold unread. cbn [c_valid c_val c_b]. rewrite rotl_rest by (done || lia). fold h.
      apply (f_equal (drop (Z.to_nat n))) in Hu. rewrite drop_app_le in Hu by lia. rewrite Hu. by apply drop_app_length'.
    + rewrite rotl_low by (done || lia). apply (f_equal (take (Z.to_nat n))) in Hu. rewrite take_app_le in Hu by lia.
      rewrite (take_app_length' bits) in Hu by done. rewrite <- Hu. unfold h. rewrite to_bits_take by lia. f_equal.
      rewrite Z.shiftr_shiftr by lia. f_equal. lia.
  - assert (Em : (if 0 <? valid then u8 (n - valid) else n) = n - valid).
    { destruct (Z.ltb_spec 0 valid); [apply u8_small; lia|lia]. }
    rewrite Em. set (m := n - valid) in *.
    assert (Hne : b <> []).
    { intros ->. apply (f_equal length) in Hu. rewrite !length_app, Hh in Hu. change (length (bools_of [])) with 0%nat in Hu. lia. }
    destruct (refill_run (MkCache b val valid) Hb Hne) as (c2 & -> & [Hv2 Hval2 Hb2] & Hu2 & Hvalid2 & _). cbn [c_b] in Hu2, Hvalid2.
    cbn [mbind option_bind].
    assert (Hlen : (Z.to_nat m <= 8 * length b)%nat).
    { apply (f_equal length) in Hu. rewrite !length_app, Hh, bools_of_length in Hu. lia. }
    rewrite u8_small by lia.
    set (s0 := if 0 <? valid then RotateLeft64 val n else 0).
    eexists _, _. split; [reflexivity|]. split_and!.
    + split; cbn [c_valid c_val c_b]; [lia|by apply rotl_range|done].
    + unfold unread. cbn [c_valid c_val c_b]. rewrite rotl_rest by (done || lia). rewrite <- (drop_app_le _ (bools_of (c_b c2)))
        by (rewrite to_bits_length; lia).
      fold (unread c2). rewrite Hu2. apply (f_equal (drop (Z.to_nat n))) in Hu. rewrite (drop_app_length' bits) in Hu by done.
      rewrite drop_app_ge in Hu by lia. rewrite <- Hu, Hh. f_equal. lia.
    + assert (E1 : to_bits (Z.to_nat m) (RotateLeft64 (c_val c2) m) = take (Z.to_nat m) (bools_of b)).
      { rewrite rotl_low by (done || lia). rewrite <- Hu2. unfold unread. rewrite take_app_le by (rewrite to_bits_length; lia).
        rewrite to_bits_take, Z.shiftr_shiftr by lia. f_equal. f_equal. lia. }
      apply (f_equal (take (Z.to_nat n))) in Hu. rewrite (take_app_length' bits) in Hu by done. rewrite take_app_ge in Hu by lia.
      rewrite <- Hu. replace (Z.to_nat n) with (Z.to_nat valid + Z.to_nat m)%nat at 1 by lia. rewrite to_bits_app.
      replace (Z.to_nat n - length h)%nat with (Z.to_nat m) by lia. f_equal.
      * unfold h. apply to_bits_ext. intros i Hi. rewrite !Z.shiftr_spec, Z.lor_spec, Z.ldiff_spec, Z.land_spec, bitMask_bits by lia.
        destruct (Z.ltb_spec (i + Z.of_nat (Z.to_nat m)) m); [lia|]. cbn [negb]. rewrite andb_true_r, andb_false_r, orb_false_r.
        unfold s0. destruct (Z.ltb_spec 0 valid); [|lia]. rewrite rotl_bits by (done || lia). f_equal.
        rewrite <- (Z.mod_add _ 1 64), Z.mod_small by lia. lia.
      * rewrite <- E1. apply to_bits_ext. intros i Hi. rewrite Z.lor_spec, Z.ldiff_spec, Z.land_spec, bitMask_bits by lia.
        destruct (Z.ltb_spec i m); [|lia]. cbn [negb]. by rewrite andb_false_r, andb_true_r.
Qed.

Lemma read1_run c b rest :
  cache_ok c -> unread c = b :: rest -> exists c', read1 c = Some (b, c') /\ cache_ok c' /\ unread c' = rest.
Proof.
  intros Hc Hu. assert (Hstart : exists c1, (if 0 <? c_valid c then Some c else refill c) = Some c1 /\ cache_ok c1 /\ unread c1 = b :: rest /\
    0 < c_valid c1).
  { destruct (Z.ltb_spec 0 (c_valid c)); [by exists c|]. destruct Hc as [Hv Hval Hb].
    assert (E0 : unread c = bools_of (c_b c)) by (unfold unread; by replace (c_valid c) with 0 by lia). rewrite E0 in Hu.
    destruct (refill_run c Hb) as (c1 & -> & Hok & Hu1 & Hv1 & Hl); [by intros E; rewrite E in Hu|].
    exists c1. split_and!; [done|done|congruence|]. assert (0 < length (c_b c))%nat by (destruct (c_b c); [done|cbn; lia]). lia. }
  destruct Hstart as (c1 & E1 & [Hv Hval Hb] & Hu1 & Hpos). unfold read1. rewrite E1. cbn [mbind option_bind].
  rewrite u8_small by lia. eexists. unfold unread in Hu1. destruct (Z.to_nat (c_valid c1)) as [|k] eqn:Ek; [lia|].
  cbn [to_bits app] in Hu1. injection Hu1 as Hb0 Hrest. split; [|split].
  - do 3 f_equal. rewrite <- Hb0, Z.shiftr_spec by lia. rewrite <- Z.bit0_odd, rotl_bits by (done || lia).
    change ((0 - 1) mod 64) with 63. f_equal. lia.
  - split; cbn [c_valid c_val c_b]; [lia|by apply rotl_range|done].
  - unfold unread. cbn [c_valid c_val c_b]. rewrite rotl_rest by (done || lia). rewrite Ek. change (Z.to_nat 1) with 1%nat.
    cbn [to_bits drop]. rewrite drop_0. exact Hrest.
Qed.

(** The window of the decoder agrees with that of the encoder. *)
Definition same_window (lead trail trailingN meaningfulN : Z) : Prop :=
  lead <> noLeading -> trailingN = trail /\ meaningfulN = 64 - lead - trail.

Lemma delta_step val lead trail v x :
  let d := Z.lxor v val in
  0 < d < 2 ^ 64 -> FloatCodec.covers d lead trail ->
  to_bits (Z.to_nat (64 - lead - trail)) x = FloatCodec.window_bits d lead trail ->
  Z.lxor val (shl64 (Z.land x (bitMask (Z.land (64 - lead - trail) 63))) (Z.land trail 63)) = v.
Proof.
  intros d Hd Hc Hx. pose proof Hc as ((W1 & W2 & W3) & _). rewrite masked, Hx by lia.
  replace (Z.land trail 63) with trail; [|change 63 with (2 ^ 6 - 1); rewrite land_ones_mod, Z.mod_small by lia; lia].
  rewrite FloatCodec.window_bits_value by done. unfold d.
  by rewrite (Z.lxor_comm v val), <- Z.lxor_assoc, Z.lxor_nilpotent, Z.lxor_0_l.
Qed.

(** The eleven bits of a new window. *)
Lemma window_fields l t x :
  FloatCodec.window l t -> to_bits 11 x = to_bits 5 l ++ to_bits 6 (64 - l - t) ->
  let lm := Z.land x 2047 in
  Z.land (Z.shiftr lm 6) 31 = l /\
  (if 0 <? Z.land lm 63 then (u8 (64 - l - Z.land lm 63), Z.land lm 63) else (0, 64)) = (t, 64 - l - t).
Proof.
  intros (W1 & W2 & W3) Hx lm.
  assert (El : lm = l * 64 + (64 - l - t) mod 64).
  { unfold lm. change 2047 with (2 ^ 11 - 1). rewrite land_ones_mod by lia. change (2 ^ 11) with (2 ^ Z.of_nat 11).
    rewrite <- of_to_bits, Hx, of_bits_app, of_to_bits_id, of_to_bits, to_bits_length by (cbn; lia). done. }
  pose proof (Z.mod_pos_bound (64 - l - t) 64 ltac:(lia)) as Hm.
  assert (E6 : Z.land lm 63 = (64 - l - t) mod 64).
  { change 63 with (2 ^ 6 - 1). rewrite land_ones_mod by lia. change (2 ^ 6) with 64. rewrite El, Z.add_comm, Z.mod_add, Z.mod_mod by lia. done. }
  rewrite E6. split.
  - rewrite Z.shiftr_div_pow2 by lia. change (2 ^ 6) with 64. rewrite El, Z.add_comm, Z.div_add, Z.div_small, Z.add_0_l by lia.
    change 31 with (2 ^ 5 - 1). rewrite land_ones_mod by lia. apply Z.mod_small. change (2 ^ 5) with 32. lia.
  - destruct (Z.eq_dec (64 - l - t) 64) as [E|E].
    + rewrite E. cbn. f_equal. lia.
    + rewrite Z.mod_small by lia. destruct (Z.ltb_spec 0 (64 - l - t)); [|lia]. f_equal. rewrite u8_small by lia. lia.
Qed.

Lemma round_code val lead trail trailingN meaningfulN v c bits :
  is_u64 val -> is_u64 v -> val <> uvnan -> FloatCodec.window_ok lead trail -> same_window lead trail trailingN meaningfulN -> cache_ok c ->
  let '(w, l, t) := FloatCodec.code val lead trail v in
  unread c = w ++ bits ->
  if v =? uvnan then round val trailingN meaningfulN c = Some None
  else exists tn mn c', round val trailingN meaningfulN c = Some (Some (v, tn, mn, c')) /\ same_window l t tn mn /\ cache_ok c' /\ unread c' = bits.
Proof.
  intros Hval Hv Hnn Hw Hsw Hc. unfold FloatCodec.code. pose proof (FloatCodec.lxor_u64 v val Hv Hval) as Hd. set (d := Z.lxor v val) in *.
  destruct (Z.eqb_spec d 0) as [E|E].
  { intros Hu. assert (v = val) as -> by (apply Z.lxor_eq; exact E). destruct (Z.eqb_spec val uvnan); [done|].
    unfold round. destruct (read1_run c false bits Hc Hu) as (c1 & -> & Hc1 & Hu1). cbn [mbind option_bind negb].
    by exists trailingN, meaningfulN, c1. }
  assert (Hd' : 0 < d < 2 ^ 64) by (unint; lia).
  assert (Hfin : forall lead trail c, FloatCodec.covers d lead trail -> cache_ok c -> unread c = FloatCodec.window_bits d lead trail ++ bits ->
    let r := ('(s, c) ← readn (64 - lead - trail) c;
      let s := Z.land s (bitMask (Z.land (64 - lead - trail) 63)) in
      let val := Z.lxor val (shl64 s (Z.land trail 63)) in
      if val =? uvnan then Some None else Some (Some (val, trail, 64 - lead - trail, c))) in
    if v =? uvnan then r = Some None
    else exists tn mn c', r = Some (Some (v, tn, mn, c')) /\ same_window lead trail tn mn /\ cache_ok c' /\ unread c' = bits).
  { clear Hc Hw Hsw. intros L T c0 Hcov Hc0 Hu0. pose proof Hcov as ((W1 & W2 & W3) & _). cbv zeta.
    destruct (readn_run (64 - L - T) c0 _ _ Hc0 ltac:(lia) Hu0 (FloatCodec.window_bits_length d L T)) as (x & c1 & -> & Hc1 & Hu1 & Hx).
    cbn [mbind option_bind]. rewrite (delta_step val L T v x Hd' Hcov Hx). destruct (Z.eqb_spec v uvnan); [done|].
    by eexists _, _, c1. }
  destruct (FloatCodec.reuses d lead trail) eqn:Er; intros Hu; cbn [app] in Hu; rewrite <- ?app_assoc in Hu.
  - assert (Hww : FloatCodec.window lead trail).
    { destruct Hw as [->|]; [|done]. unfold FloatCodec.reuses in Er. by rewrite Z.eqb_refl in Er. }
    destruct Hsw as [-> ->]; [destruct Hww; unfold noLeading; lia|].
    unfold round. destruct (read1_run c true _ Hc Hu) as (c1 & -> & Hc1 & Hu1). cbn [mbind option_bind negb].
    destruct (read1_run c1 false _ Hc1 Hu1) as (c2 & -> & Hc2 & Hu2). cbn [mbind option_bind].
    apply (Hfin lead trail c2); [by apply FloatCodec.reuse_covers|done|done].
  - pose proof (FloatCodec.clamp_spec d Hd') as Hcov. set (l := clampLeading d) in *. set (t := TrailingZeros64 d) in *.
    unfold round. destruct (read1_run c true _ Hc Hu) as (c1 & -> & Hc1 & Hu1). cbn [mbind option_bind negb].
    destruct (read1_run c1 true _ Hc1 Hu1) as (c2 & -> & Hc2 & Hu2). cbn [mbind option_bind].
    rewrite app_assoc in Hu2.
    destruct (readn_run 11 c2 _ _ Hc2 ltac:(lia) Hu2) as (x & c3 & -> & Hc3 & Hu3 & Hx); [by rewrite length_app, !to_bits_length|].
    cbn [mbind option_bind]. destruct (window_fields l t x (proj1 Hcov) Hx) as [E1 E2]. cbv zeta in E1, E2. rewrite E1.
    specialize (Hfin l t c3 Hcov Hc3 Hu3).
    assert (Ew : (if 0 <? Z.land (Z.land x 2047) 63
                  then (u8 (64 - l - Z.land (Z.land x 2047) 63), Z.land (Z.land x 2047) 63, c3) else (0, 64, c3)) = (t, 64 - l - t, c3)).
    { revert E2. destruct (0 <? _); intros [= E3 E4]; congruence. }
    rewrite Ew. exact Hfin.
Qed.

Lemma decode_codes vs : forall fuel val lead trail tn mn c bits dst,
  (length vs < fuel)%nat -> is_u64 val -> val <> uvnan -> FloatCodec.window_ok lead trail -> same_window lead trail tn mn -> cache_ok c ->
  Forall (fun v => is_u64 v /\ v <> uvnan) vs -> unread c = FloatCodec.codes val lead trail (vs ++ [uvnan]) ++ bits ->
  decode_loop fuel val tn mn c dst = Ret (dst ++ vs).
Proof.
  induction vs as [|v vs IH]; intros fuel val lead trail tn mn c bits dst Hf Hval Hnn Hw Hsw Hc Hvs Hu;
    (destruct fuel as [|f]; [cbn in Hf; lia|]); cbn [app decode_loop FloatCodec.codes length] in *.
  - pose proof (round_code val lead trail tn mn uvnan c bits Hval FloatCodec.uvnan_u64 Hnn Hw Hsw Hc) as H.
    destruct (FloatCodec.code val lead trail uvnan) as [[w l] t]. rewrite app_nil_r in Hu. specialize (H Hu).
    change (uvnan =? uvnan) with true in H. cbn iota in H. rewrite H. by rewrite app_nil_r.
  - apply Forall_cons_1 in Hvs as [[Hv Hvn] Hvs]. pose proof (FloatCodec.code_window val lead trail v Hval Hv Hw) as Hw'.
    pose proof (round_code val lead trail tn mn v c (FloatCodec.codes v (FloatCodec.code val lead trail v).1.2
      (FloatCodec.code val lead trail v).2 (vs ++ [uvnan]) ++ bits) Hval Hv Hnn Hw Hsw Hc) as H.
    destruct (FloatCodec.code val lead trail v) as [[w l] t]. cbn [fst snd] in H. rewrite <- app_assoc in Hu. specialize (H Hu).
    destruct (Z.eqb_spec v uvnan); [done|]. destruct H as (tn' & mn' & c' & -> & Hsw' & Hc' & Hu').
    rewrite (IH f v l t tn' mn' c' bits); [|lia|done..]. by rewrite <- app_assoc.
Qed.

Lemma codes_length vs : forall val lead trail, (length vs <= length (FloatCodec.codes val lead trail vs))%nat.
Proof.
  induction vs as [|v vs IH]; intros val lead trail; [done|]. cbn [FloatCodec.codes].
  assert (H : (1 <= length (FloatCodec.code val lead trail v).1.1)%nat).
  { unfold FloatCodec.code. destruct (_ =? 0); [done|]. destruct (FloatCodec.reuses _ _ _); cbn; lia. }
  destruct (FloatCodec.code val lead trail v) as [[w l] t]. cbn [fst] in H. rewrite length_app. cbn [length]. specialize (IH v l t). lia.
Qed.

(** Any block that holds the stream of [vs] decodes to [vs]. *)
Lemma FloatArrayDecodeAll_stream h bs vs k :
  Forall FloatCodec.finite vs -> Forall is_byte bs -> bools_of bs = FloatCodec.stream vs ++ replicate k false ->
  FloatArrayDecodeAll (h :: bs) = Ret vs.
Proof.
  intros Hf Hb Es. unfold FloatArrayDecodeAll.
  assert (Hlen : (64 <= length (FloatCodec.stream vs))%nat).
  { unfold FloatCodec.stream. destruct (vs ++ [uvnan]) eqn:E; [by destruct vs|]. rewrite length_app, to_bits_length. lia. }
  assert (Hl8 : (8 <= length bs)%nat).
  { apply (f_equal length) in Es. rewrite bools_of_length, length_app in Es. lia. }
  destruct (Nat.ltb_spec (length (h :: bs)) 9); [cbn in *; lia|]. cbn [drop]. rewrite drop_0.
  assert (Hfirst : forall v rest, bools_of bs = to_bits 64 v ++ rest -> is_u64 v ->
    be_get (take 8 bs) = v /\ bools_of (drop 8 bs) = rest).
  { intros v rest E Hv. rewrite <- (take_drop 8 bs), bools_of_app in E.
    assert (Hl : length (bools_of (take 8 bs)) = 64%nat) by (rewrite bools_of_length, length_take; lia).
    apply app_inj_1 in E as [E1 E2]; [|by rewrite Hl, to_bits_length]. split; [|done].
    rewrite <- of_bools_of by (by apply Forall_take). rewrite E1. apply of_to_bits_id. exact Hv. }
  unfold FloatCodec.stream in Es. destruct vs as [|v vs]; cbn [app] in Es; rewrite <- app_assoc in Es.
  - destruct (Hfirst _ _ Es FloatCodec.uvnan_u64) as [-> _]. by rewrite Z.eqb_refl.
  - apply Forall_cons_1 in Hf as [Hv Hf]. destruct (Hfirst _ _ Es (proj1 Hv)) as [-> Hrest].
    pose proof (FloatCodec.finite_not_uvnan v Hv) as Hvn. destruct (Z.eqb_spec v uvnan); [done|].
    pose proof (codes_length (vs ++ [uvnan]) v noLeading 0) as Hcl. rewrite length_app in Hcl. cbn [length] in Hcl.
    assert (Hne : drop 8 bs <> []).
    { intros E. rewrite E in Hrest. apply (f_equal length) in Hrest. rewrite length_app in Hrest. cbn in Hrest. lia. }
    destruct (refill_run (MkCache (drop 8 bs) 0 0)) as (c & -> & Hc & Hu & _); [by apply Forall_drop|done|].
    cbn [c_b] in Hu. rewrite Hrest in Hu.
    apply (f_equal length) in Hrest. rewrite bools_of_length, length_app in Hrest.
    rewrite (decode_codes vs _ v noLeading 0 0 64 c (replicate k false) [v]); [done|lia|apply Hv|done|by left| |done| |done].
    + intros Hnl. by exfalso.
    + eapply Forall_impl; [exact Hf|]. intros y Hy. split; [apply Hy|by apply FloatCodec.finite_not_uvnan].
Qed.

(** ** Termination on every input *)

(** The bits left, with room for a cache that wrapped. *)
Definition left (c : cache) : Z := c_valid c + 256 * Z.of_nat (length (c_b c)).
Definition bounded (c : cache) : Prop := 0 <= c_valid c < 256.

Lemma u8_range x : 0 <= u8 x < 256.
Proof. apply Z.mod_pos_bound. lia. Qed.

Lemma refill_left c c' : refill c = Some c' -> bounded c' /\ c_valid c' <= 64 /\ (length (c_b c') < length (c_b c))%nat.
Proof.
  unfold refill, bounded. destruct (Nat.leb_spec 8 (length (c_b c))).
  { intros [= <-]. cbn. rewrite length_drop. lia. }
  destruct (Nat.ltb_spec 0 (length (c_b c))); [|done]. intros [= <-]. cbn. lia.
Qed.

Lemma read1_left c b c' : bounded c -> read1 c = Some (b, c') -> bounded c' /\ left c' < left c.
Proof.
  unfold bounded, left. intros Hc. unfold read1. destruct (Z.ltb_spec 0 (c_valid c)).
  - cbn [mbind option_bind]. intros [= <- <-]. cbn [c_valid c_b]. rewrite u8_small by lia. lia.
  - destruct (refill c) as [c1|] eqn:E; [|done]. apply refill_left in E as (H1 & H2 & H3). cbn [mbind option_bind]. intros [= <- <-].
    cbn [c_valid c_b]. pose proof (u8_range (c_valid c1 - 1)). lia.
Qed.

Lemma readn_left n c x c' : 0 <= n -> bounded c -> readn n c = Some (x, c') -> bounded c' /\ left c' <= left c.
Proof.
  unfold bounded, left. intros Hn Hc. unfold readn. destruct (Z.leb_spec n (c_valid c)).
  - intros [= <- <-]. cbn [c_valid c_b]. rewrite u8_small by lia. lia.
  - set (m := if 0 <? c_valid c then u8 _ else _). destruct (refill c) as [c1|] eqn:E; [|done]. apply refill_left in E as (H1 & H2 & H3).
    cbn [mbind option_bind]. intros [= <- <-]. cbn [c_valid c_b]. pose proof (u8_range (c_valid c1 - m)). lia.
Qed.

Lemma round_left val tn mn c v' tn' mn' c' :
  0 <= mn -> bounded c -> round val tn mn c = Some (Some (v', tn', mn', c')) -> 0 <= mn' /\ bounded c' /\ left c' < left c.
Proof.
  intros Hm Hc. unfold round. destruct (read1 c) as [[b0 c1]|] eqn:E1; [|done]. cbn [mbind option_bind].
  apply read1_left in E1 as [B1 L1]; [|done]. destruct b0; cbn [negb]; [|intros [= <- <- <- <-]; done].
  destruct (read1 c1) as [[b1 c2]|] eqn:E2; [|done]. cbn [mbind option_bind]. apply read1_left in E2 as [B2 L2]; [|done].
  assert (Hfin : forall tn mn c2, 0 <= mn -> bounded c2 -> left c2 < left c ->
    ('(s, c) ← readn mn c2;
     let s := Z.land s (bitMask (Z.land mn 63)) in
     let val := Z.lxor val (shl64 s (Z.land tn 63)) in
     if val =? uvnan then Some None else Some (Some (val, tn, mn, c))) = Some (Some (v', tn', mn', c')) ->
    0 <= mn' /\ bounded c' /\ left c' < left c).
  { clear. intros tn mn c2 Hm Hb Hl. destruct (readn mn c2) as [[s c3]|] eqn:E3; [|done]. cbn [mbind option_bind].
    apply readn_left in E3 as [B3 L3]; [|done..]. destruct (_ =? uvnan); [done|]. intros [= <- <- <- <-]. split_and!; [done|done|lia]. }
  destruct b1.
  - destruct (readn 11 c2) as [[lm c3]|] eqn:E3; [|done]. cbn [mbind option_bind]. apply readn_left in E3 as [B3 L3]; [|lia|done].
    assert (H6 : 0 <= Z.land (Z.land lm 2047) 63) by (apply Z.land_nonneg; right; lia).
    destruct (0 <? _); apply Hfin; (done || lia).
  - cbn [mbind option_bind]. apply Hfin; (done || lia).
Qed.

Lemma decode_loop_ends fuel : forall val tn mn c dst,
  0 <= mn -> bounded c -> left c < Z.of_nat fuel -> decode_loop fuel val tn mn c dst <> Panic.
Proof.
  induction fuel as [|f IH]; intros val tn mn c dst Hm Hc Hl; [unfold left, bounded in *; lia|]. cbn [decode_loop].
  destruct (round val tn mn c) as [[[[[v tn'] mn'] c']|]|] eqn:E; [|done..].
  apply round_left in E as (H1 & H2 & H3); [|done..]. apply IH; [done|done|lia].
Qed.

(** C19. [FloatArrayDecodeAll] returns on every byte string, truncated or
    corrupt: its loop ends within the given number of rounds with values or
    with an end-of-file error, and no slice is indexed out of range, although
    the count of cached bits can wrap around on a truncated stream. *)
Theorem FloatArrayDecodeAll_terminates (b : list Z) : FloatArrayDecodeAll b <> Panic.
Proof.
  unfold FloatArrayDecodeAll. destruct (_ <? 9)%nat; [done|]. destruct (_ =? uvnan); [done|].
  destruct (refill _) as [c|] eqn:E; [|done]. apply refill_left in E as (H1 & H2 & H3). cbn [c_b] in H3.
  apply decode_loop_ends; [lia|done|]. unfold left. lia.
Qed.

(** ** The encoder writes the stream *)

(** [l] carries [bits], and only zeros behind them. *)
Definition agree (l bits : list bool) : Prop := forall i, default false (l !! i) = default false (bits !! i).

Lemma zeros_lookup k i : default false (replicate k false !! i) = false.
Proof. destruct (replicate k false !! i) as [b|] eqn:E; [|done]. apply lookup_replicate in E as [-> _]. done. Qed.

Lemma app_lookup (a b : list bool) i :
  default false ((a ++ b) !! i) = if (i <? length a)%nat then default false (a !! i) else default false (b !! (i - length a)%nat).
Proof. destruct (Nat.ltb_spec i (length a)); [by rewrite lookup_app_l|by rewrite lookup_app_r]. Qed.

Lemma agree_zeros_r l bits k : agree l (bits ++ replicate k false) <-> agree l bits.
Proof.
  unfold agree. split; intros H i; specialize (H i); rewrite app_lookup in *; rewrite zeros_lookup in *;
    (destruct (Nat.ltb_spec i (length bits)); [done|]); by rewrite (lookup_ge_None_2 bits i) in *.
Qed.

Lemma agree_sym l bits : agree l bits -> agree bits l.
Proof. intros H i. by rewrite H. Qed.

Lemma agree_trans a b c : agree a b -> agree b c -> agree a c.
Proof. intros H1 H2 i. by rewrite H1, H2. Qed.

Lemma agree_zeros_l l bits k : agree (l ++ replicate k false) bits <-> agree l bits.
Proof. split; intros H; apply agree_sym; [apply agree_sym, agree_zeros_r in H|apply agree_zeros_r, agree_sym]; done. Qed.

Lemma agree_exact l bits :
  agree l bits -> (length bits <= length l)%nat -> l = bits ++ replicate (length l - length bits) false.
Proof.
  intros H Hl. apply list_eq. intros i. specialize (H i). destruct (Nat.lt_ge_cases i (length l)) as [Hi|Hi].
  - destruct (lookup_lt_is_Some_2 l i Hi) as [x Hx]. rewrite Hx in *. cbn in H. rewrite H. clear x H Hx.
    destruct (Nat.lt_ge_cases i (length bits)) as [Hb|Hb].
    + rewrite lookup_app_l by done. by destruct (lookup_lt_is_Some_2 bits i Hb) as [y ->].
    + rewrite (lookup_ge_None_2 bits i), lookup_app_r, lookup_replicate_2 by lia. done.
  - rewrite !lookup_ge_None_2; [done| |done]. rewrite length_app, length_replicate. lia.
Qed.

Lemma bools_of_zeros k : bools_of (replicate k 0) = replicate (8 * k) false.
Proof.
  induction k as [|k IH]; [done|]. cbn [replicate]. rewrite bools_of_bytes, IH. replace (8 * S k)%nat with (8 + 8 * k)%nat by lia.
  by rewrite replicate_add.
Qed.

(** A buffer that has [bits] written, all its bytes in range. *)
Definition holds (s : buffer) (bits : list bool) : Prop :=
  Forall is_byte (fst s) /\ agree (bools_of (fst s)) bits /\ snd s = Z.of_nat (length bits).
Definition room (s : buffer) (k : Z) : Prop := snd s + k <= 8 * Z.of_nat (length (fst s)).

Lemma zeros_bytes k : Forall is_byte (replicate k 0).
Proof. apply Forall_replicate. unint. lia. Qed.

Lemma append_holds b n bits k : holds (b, n) bits -> holds (b ++ replicate k 0, n) bits.
Proof.
  intros (H1 & H2 & H3). split_and!; [apply Forall_app; split; [done|apply zeros_bytes]| |done].
  cbn [fst] in *. rewrite bools_of_app, bools_of_zeros. by apply agree_zeros_l.
Qed.

Lemma shiftr3 n : Z.shiftr n 3 = n / 8.
Proof. by rewrite Z.shiftr_div_pow2 by lia. Qed.

Lemma grow_while_holds k s bits :
  0 <= k -> holds s bits -> holds (grow_while k s) bits /\ room (grow_while k s) (k + 1).
Proof.
  intros Hk Hs. destruct s as [b n]. unfold grow_while. split; [by apply append_holds|]. destruct Hs as (_ & _ & Hn). cbn [snd] in Hn.
  unfold room. cbn [fst snd]. rewrite length_app, length_replicate, shiftr3. pose proof (Z.div_pos (n + k) 8 ltac:(lia) ltac:(lia)).
  pose proof (Z.div_mod (n + k) 8). pose proof (Z.mod_pos_bound (n + k) 8). lia.
Qed.

Lemma grow_once_holds k s bits :
  0 <= k <= 8 -> room s 0 -> holds s bits -> holds (grow_once k s) bits /\ room (grow_once k s) (Z.min 8 (k + 1)).
Proof.
  intros Hk Hr Hs. destruct s as [b n]. unfold grow_once, room in *. cbn [fst snd] in *. rewrite shiftr3.
  pose proof (Z.div_mod (n + k) 8). pose proof (Z.mod_pos_bound (n + k) 8).
  destruct (Z.leb_spec (Z.of_nat (length b)) ((n + k) / 8)).
  - split; [by apply (append_holds b n bits 1)|]. rewrite length_app. cbn [length]. lia.
  - split; [done|]. lia.
Qed.

Lemma skip_bit_holds s bits : holds s bits -> holds (skip_bit s) (bits ++ [false]).
Proof.
  intros (H1 & H2 & H3). split_and!; [done|by apply (agree_zeros_r _ _ 1)|]. unfold skip_bit. cbn [snd]. rewrite length_app. cbn. lia.
Qed.

Lemma to_bits_lookup n v i : (i < n)%nat -> to_bits n v !! i = Some (Z.testbit v (Z.of_nat n - 1 - Z.of_nat i)).
Proof.
  revert i. induction n as [|n IH]; intros i Hi; [lia|]. cbn [to_bits]. destruct i as [|i]; cbn [lookup list_lookup].
  - do 2 f_equal. lia.
  - rewrite IH by lia. do 2 f_equal. lia.
Qed.

Lemma land7 n : Z.land n 7 = n mod 8.
Proof. change 7 with (2 ^ 3 - 1). by rewrite land_ones_mod. Qed.

Lemma byte_shift_bits mask m i : is_byte mask -> 0 <= m < 8 -> 0 <= i -> Z.testbit (u8 (shr64 mask m)) i = Z.testbit mask (i + m).
Proof.
  intros Hk Hm Hi. assert (Hu : is_u64 mask) by (unint; lia).
  assert (Hs : 0 <= shr64 mask m < 256).
  { unfold shr64. destruct (Z.leb_spec 64 m); [lia|]. rewrite Z.shiftr_div_pow2 by lia. unfold is_byte in Hk.
    assert (0 < 2 ^ m) by (apply Z.pow_pos_nonneg; lia). split; [apply Z.div_pos; lia|]. apply Z.div_lt_upper_bound; nia. }
  rewrite u8_small by done. apply shr64_bits; (done || lia).
Qed.

Lemma lor_byte x y : is_byte x -> is_byte y -> is_byte (Z.lor x y).
Proof.
  intros Hx Hy. unfold is_byte. rewrite <- (Z.mod_small x (2 ^ 8)), <- (Z.mod_small y (2 ^ 8)) by assumption.
  rewrite <- !Z.land_ones, <- Z.land_lor_distr_l, Z.land_ones by lia. apply (Z.mod_pos_bound _ 256). lia.
Qed.

(** Or-ing a byte shifted to the current bit appends its leading bits. *)
Lemma or_byte_holds s bits mask f r :
  holds s bits -> room s 1 -> is_byte mask ->
  let m := Z.land (snd s) 7 in
  take (8 - Z.to_nat m) (to_bits 8 mask) = f ++ replicate r false ->
  exists s', or_byte (shr64 mask m) (Z.of_nat (length f)) s = Ret s' /\ holds s' (bits ++ f) /\ length (fst s') = length (fst s).
Proof.
  intros (Hb & Ha & Hn) Hr Hk m Hf. destruct s as [b n]. cbn [fst snd] in *. unfold room in Hr. cbn [fst snd] in Hr.
  unfold or_byte. rewrite shiftr3. set (i := Z.to_nat (n / 8)).
  assert (Hm : m = n mod 8) by apply land7. pose proof (Z.mod_pos_bound n 8 ltac:(lia)) as Hmb. pose proof (Z.div_mod n 8 ltac:(lia)) as Hdm.
  assert (Hid : Z.of_nat i = n / 8) by (unfold i; lia). clearbody i.
  assert (Hi : (i < length b)%nat) by lia. destruct (lookup_lt_is_Some_2 b i Hi) as [y Hy]. rewrite Hy. cbn [or_panic obind].
  assert (Hlf : (length f <= 8 - Z.to_nat m)%nat).
  { apply (f_equal length) in Hf. rewrite length_take, to_bits_length, length_app in Hf. lia. }
  assert (Hyb : is_byte y) by (rewrite Forall_forall in Hb; apply Hb; by eapply list_elem_of_lookup_2).
  eexists. split; [reflexivity|]. split; [|cbn; apply length_insert]. split_and!; cbn [fst snd].
  - apply Forall_insert; [done|]. apply lor_byte; [done|apply u8_range].
  - intros q. specialize (Ha q). rewrite app_lookup, BoolCodec.bools_of_lookup in *.
    pose proof (Nat.div_mod_eq q 8) as Hq. pose proof (Nat.mod_upper_bound q 8 ltac:(lia)) as Hqm.
    destruct (Nat.eq_dec (q / 8) i) as [Eq|Eq].
    + rewrite Eq in *. rewrite list_lookup_insert_eq by done. rewrite Hy in Ha. cbn [fmap option_fmap option_map default from_option] in Ha. unfold id in Ha. cbn [fmap option_fmap option_map default from_option].
      unfold id. rewrite Z.lor_spec, byte_shift_bits by (done || lia).
      destruct (Nat.ltb_spec q (length bits)) as [Hlt|Hge].
      * rewrite (byte_high mask), orb_false_r by (done || lia). exact Ha.
      * rewrite (lookup_ge_None_2 bits q) in Ha by done. cbn [default from_option] in Ha. rewrite Ha. cbn [orb].
        assert (Hp : (q - length bits < 8 - Z.to_nat m)%nat) by lia.
        apply (f_equal (fun l => default false (l !! (q - length bits)%nat))) in Hf.
        rewrite lookup_take_lt, to_bits_lookup, app_lookup, zeros_lookup in Hf by lia. cbn [default from_option] in Hf.
        replace (7 - Z.of_nat (q mod 8) + m) with (7 - Z.of_nat (q - length bits)) by lia.
        transitivity (Z.testbit mask (7 - Z.of_nat (q - length bits))); [done|]. etransitivity; [|etransitivity; [exact Hf|]].
        { reflexivity. }
        destruct (Nat.ltb_spec (q - length bits) (length f)); [done|]. by rewrite lookup_ge_None_2.
    + rewrite list_lookup_insert_ne by done. rewrite Ha. destruct (Nat.ltb_spec q (length bits)) as [Hlt|Hge]; [done|].
      rewrite (lookup_ge_None_2 bits q) by done. rewrite lookup_ge_None_2; [done|]. lia.
  - rewrite length_app. lia.
Qed.

Lemma to_bits_zero n x : (forall i, 0 <= i < Z.of_nat n -> Z.testbit x i = false) -> to_bits n x = replicate n false.
Proof.
  intros H. rewrite (to_bits_ext n x 0) by (intros i Hi; rewrite H, Z.bits_0; done). clear H.
  induction n as [|n IH]; [done|]. cbn [to_bits replicate]. by rewrite Z.bits_0, IH.
Qed.

Lemma shl64_to_bits x k : 0 <= k <= 64 -> to_bits 64 (shl64 x k) = drop (Z.to_nat k) (to_bits 64 x) ++ replicate (Z.to_nat k) false.
Proof.
  intros Hk. rewrite to_bits_drop by lia. replace 64%nat with ((64 - Z.to_nat k) + Z.to_nat k)%nat at 1 by lia. rewrite to_bits_app. f_equal.
  - apply to_bits_ext. intros i Hi. rewrite Z.shiftr_spec, shl64_bits by lia. destruct (Z.leb_spec k (i + Z.of_nat (Z.to_nat k))); [|lia].
    f_equal. lia.
  - apply to_bits_zero. intros i Hi. rewrite shl64_bits by lia. by destruct (Z.leb_spec k i); [lia|].
Qed.

Lemma field_top x w : 1 <= w <= 64 -> to_bits 64 (shl64 x (64 - w)) = to_bits (Z.to_nat w) x ++ replicate (Z.to_nat (64 - w)) false.
Proof. intros Hw. rewrite shl64_to_bits, to_bits_drop by lia. do 2 f_equal. lia. Qed.

Lemma top_byte v : is_u64 v -> is_byte (shr64 v 56) /\ to_bits 8 (shr64 v 56) = take 8 (to_bits 64 v).
Proof.
  intros Hv. pose proof (shr64_top v 8 Hv ltac:(lia)) as H. split; [exact H|].
  rewrite to_bits_take by lia. apply to_bits_ext. intros i Hi. rewrite shr64_bits, Z.shiftr_spec by (done || lia). done.
Qed.

Lemma be_put_bits x : bools_of (be_put 8 x) = to_bits 64 x.
Proof.
  rewrite <- be_get_bits by apply be_put_bytes. rewrite be_put_length, be_get_put. change (8 * 8)%nat with 64%nat.
  change (2 ^ (8 * Z.of_nat 8)) with (2 ^ Z.of_nat 64). by apply to_bits_mod.
Qed.

Lemma put_word_holds s bits x f r :
  holds s bits -> room s 0 -> snd s mod 8 = 0 -> to_bits 64 x = f ++ replicate r false ->
  exists s', put_word x (Z.of_nat (length f)) s = Ret s' /\ holds s' (bits ++ f) /\ room s' 0.
Proof.
  intros Hs Hr Hm Hx. destruct s as [b n]. unfold put_word. rewrite shiftr3.
  set (b' := if Z.of_nat (length b) <=? n / 8 + 8 then b ++ replicate 8 0 else b).
  unfold room in Hr. cbn [fst snd] in *. pose proof (Z.div_mod n 8 ltac:(lia)) as Hdm.
  assert (Hn : n = Z.of_nat (length bits)) by apply Hs.
  assert (Hs' : holds (b', n) bits) by (unfold b'; destruct (_ <=? _); [by apply append_holds|done]).
  set (i := Z.to_nat (n / 8)). assert (Hid : Z.of_nat i = n / 8) by (unfold i; lia). clearbody i.
  assert (Hl : (i + 8 <= length b')%nat).
  { unfold b'. destruct (Z.leb_spec (Z.of_nat (length b)) (n / 8 + 8)); rewrite ?length_app, ?length_replicate; lia. }
  clearbody b'. destruct (Nat.ltb_spec (length b') (i + 8)); [lia|]. destruct Hs' as (Hb & Ha & _). cbn [fst snd] in *.
  apply agree_exact in Ha; [|rewrite bools_of_length; lia]. set (z := (length (bools_of b') - length bits)%nat) in *.
  assert (Hlf : (length f <= 64)%nat) by (apply (f_equal length) in Hx; rewrite to_bits_length, length_app in Hx; lia).
  eexists. split; [reflexivity|]. split.
  - split_and!; cbn [fst snd].
    + apply Forall_app. split; [by apply Forall_take|]. apply Forall_app. split; [apply be_put_bytes|by apply Forall_drop].
    + assert (E1 : bools_of (take i b') = bits).
      { rewrite <- (take_drop i b'), bools_of_app in Ha. apply app_inj_1 in Ha as [Ha _]; [done|].
        rewrite bools_of_length, length_take. lia. }
      assert (E2 : exists k, bools_of (drop (i + 8) b') = replicate k false).
      { rewrite <- (take_drop (i + 8) b'), bools_of_app in Ha. apply (f_equal (drop (8 * (i + 8)))) in Ha.
        rewrite drop_app_length' in Ha by (rewrite bools_of_length, length_take; lia). rewrite Ha, drop_app_ge by lia.
        rewrite drop_replicate. by eexists. }
      destruct E2 as [k E2]. rewrite !bools_of_app, E1, E2, be_put_bits, Hx, <- app_assoc, app_assoc.
      rewrite <- replicate_add. apply agree_zeros_l. by intros j.
    + rewrite length_app. lia.
  - unfold room. cbn [fst snd]. rewrite !length_app, length_take, length_drop, be_put_length. lia.
Qed.

Lemma holds_n s bits : holds s bits -> snd s = Z.of_nat (length bits).
Proof. by intros (_ & _ & ?). Qed.

Lemma take_zeros (F : list bool) k z : (length F <= k <= length F + z)%nat -> take k (F ++ replicate z false) = F ++ replicate (k - length F) false.
Proof. intros H. rewrite take_app_ge by lia. rewrite take_replicate. do 2 f_equal. lia. Qed.

Lemma write_small_holds x w s bits :
  1 <= w <= 7 -> holds s bits -> room s 0 ->
  exists s', write_small x w s = Ret s' /\ holds s' (bits ++ to_bits (Z.to_nat w) x) /\ room s' 0.
Proof.
  intros Hw Hs Hr. unfold write_small. destruct (grow_once_holds w s bits ltac:(lia) Hr Hs) as [Hs1 Hr1].
  set (s1 := grow_once w s) in *. clearbody s1. clear s Hs Hr. rename s1 into s, Hs1 into Hs, Hr1 into Hr.
  rewrite Z.min_r in Hr by lia. unfold room in Hr. pose proof (holds_n s bits Hs) as Hn.
  set (v := shl64 x (64 - w)). assert (Hv : is_u64 v) by apply shl64_range.
  set (F := to_bits (Z.to_nat w) x). assert (HF : length F = Z.to_nat w) by apply to_bits_length.
  assert (HB : to_bits 64 v = F ++ replicate (Z.to_nat (64 - w)) false) by (apply field_top; lia).
  destruct (top_byte v Hv) as [Hmask Emask]. set (mask := shr64 v 56) in *.
  pose proof (land7 (snd s)) as Hm7. pose proof (Z.mod_pos_bound (snd s) 8 ltac:(lia)) as Hmb. pose proof (Z.div_mod (snd s) 8 ltac:(lia)) as Hdm.
  set (m := Z.land (snd s) 7) in *.
  destruct (Z.leb_spec m (8 - w)) as [Hfit|Hsplit].
  - destruct (or_byte_holds s bits mask F (8 - Z.to_nat m - length F) Hs) as (s' & E & Hs' & Hl); [unfold room; lia|done| |].
    { fold m. rewrite Emask, HB, take_take, Nat.min_l by lia. apply take_zeros. lia. }
    fold m in E. rewrite HF, Z2Nat.id in E by lia. exists s'. split; [exact E|]. split; [done|].
    unfold room. rewrite Hl, (holds_n _ _ Hs'), length_app. lia.
  - set (k := Z.to_nat (8 - m)).
    destruct (or_byte_holds s bits mask (take k F) 0 Hs) as (s2 & E & Hs2 & Hl); [unfold room; lia|done| |].
    { fold m. rewrite Emask, HB, take_take, Nat.min_l by lia. rewrite app_nil_r, take_app_le by lia. f_equal. unfold k. lia. }
    fold m in E. rewrite length_take, HF in E. replace (Z.of_nat (k `min` Z.to_nat w)) with (8 - m) in E by (unfold k; lia).
    rewrite E. cbn [obind]. pose proof (holds_n _ _ Hs2) as Hn2. rewrite length_app, length_take, HF in Hn2.
    assert (Hm2 : Z.land (snd s2) 7 = 0).
    { rewrite land7. replace (snd s2) with ((snd s / 8 + 1) * 8) by (unfold k in Hn2; lia). apply Z.mod_mul. lia. }
    assert (Hv2 : is_u64 (shl64 v (8 - m))) by apply shl64_range. destruct (top_byte _ Hv2) as [Hmask2 Emask2].
    destruct (or_byte_holds s2 (bits ++ take k F) (shr64 (shl64 v (8 - m)) 56) (drop k F) (8 - length (drop k F)) Hs2) as (s3 & E3 & Hs3 & Hl3);
      [unfold room; rewrite Hl, Hn2; unfold k; lia|done| |].
    { rewrite Hm2. change (8 - Z.to_nat 0)%nat with 8%nat. rewrite Emask2, take_take, Nat.min_id, shl64_to_bits, HB by lia.
      rewrite drop_app_le by (unfold k in *; lia). fold k. rewrite <- app_assoc, <- replicate_add. apply take_zeros.
      rewrite length_drop. lia. }
    rewrite Hm2 in E3. rewrite Hm2. rewrite length_drop, HF in E3.
    replace (Z.of_nat (Z.to_nat w - k)) with (w - (8 - m)) in E3 by (unfold k; lia). exists s3. split; [exact E3|].
    rewrite <- app_assoc, take_drop in Hs3. split; [done|]. unfold room. rewrite Hl3, Hl, (holds_n _ _ Hs3), length_app, HF. lia.
Qed.

Lemma write_large_holds x l s bits :
  1 <= l <= 64 -> holds s bits ->
  exists s', write_large x l s = Ret s' /\ holds s' (bits ++ to_bits (Z.to_nat l) x) /\ room s' 0.
Proof.
  intros Hl Hs. unfold write_large. destruct (grow_while_holds l s bits ltac:(lia) Hs) as [Hs1 Hr].
  set (s1 := grow_while l s) in *. clearbody s1. clear s Hs. rename s1 into s, Hs1 into Hs.
  unfold room in Hr. pose proof (holds_n s bits Hs) as Hn.
  set (v := shl64 x (64 - l)). assert (Hv : is_u64 v) by apply shl64_range.
  set (F := to_bits (Z.to_nat l) x). assert (HF : length F = Z.to_nat l) by apply to_bits_length.
  assert (HB : to_bits 64 v = F ++ replicate (Z.to_nat (64 - l)) false) by (apply field_top; lia).
  destruct (top_byte v Hv) as [Hmask Emask]. set (mask := shr64 v 56) in *.
  pose proof (land7 (snd s)) as Hm7. pose proof (Z.mod_pos_bound (snd s) 8 ltac:(lia)) as Hmb. pose proof (Z.div_mod (snd s) 8 ltac:(lia)) as Hdm.
  set (m := Z.land (snd s) 7) in *. destruct (Z.ltb_spec 0 m) as [Hpos|Hzero].
  - set (k := Z.to_nat (8 - m)). destruct (Z.le_gt_cases l (8 - m)) as [Hfit|Hsplit].
    + rewrite Z.min_r by lia.
      destruct (or_byte_holds s bits mask F (8 - Z.to_nat m - length F) Hs) as (s' & E & Hs' & Hl'); [unfold room; lia|done| |].
      { fold m. rewrite Emask, HB, take_take, Nat.min_l by lia. apply take_zeros. lia. }
      fold m in E. rewrite HF, Z2Nat.id in E by lia. rewrite E. cbn [obind]. rewrite Z.sub_diag. cbn. exists s'. split; [done|].
      split; [done|]. unfold room. rewrite Hl', (holds_n _ _ Hs'), length_app, HF. lia.
    + rewrite Z.min_l by lia.
      destruct (or_byte_holds s bits mask (take k F) 0 Hs) as (s2 & E & Hs2 & Hl2); [unfold room; lia|done| |].
      { fold m. rewrite Emask, HB, take_take, Nat.min_l by lia. rewrite app_nil_r, take_app_le by lia. f_equal. unfold k. lia. }
      fold m in E. rewrite length_take, HF in E. replace (Z.of_nat (k `min` Z.to_nat l)) with (8 - m) in E by (unfold k; lia).
      rewrite E. cbn [obind]. destruct (Z.eqb_spec (l - (8 - m)) 0); [lia|].
      pose proof (holds_n _ _ Hs2) as Hn2. rewrite length_app, length_take, HF in Hn2.
      destruct (put_word_holds s2 (bits ++ take k F) (shl64 v (8 - m)) (drop k F) (64 - length (drop k F)) Hs2) as (s3 & E3 & Hs3 & Hr3).
      { unfold room. rewrite Hl2, Hn2. unfold k. lia. }
      { replace (snd s2) with ((snd s / 8 + 1) * 8) by (unfold k in Hn2; lia). apply Z.mod_mul. lia. }
      { rewrite shl64_to_bits, HB by lia. rewrite drop_app_le by (unfold k in *; lia). fold k. rewrite <- app_assoc, <- replicate_add.
        do 2 f_equal. rewrite length_drop. unfold k. lia. }
      rewrite length_drop, HF in E3. replace (Z.of_nat (Z.to_nat l - k)) with (l - (8 - m)) in E3 by (unfold k; lia).
      exists s3. split; [exact E3|]. by rewrite <- app_assoc, take_drop in Hs3.
  - destruct (put_word_holds s bits v F (Z.to_nat (64 - l)) Hs) as (s3 & E3 & Hs3 & Hr3); [unfold room; lia|lia|exact HB|].
    rewrite HF, Z2Nat.id in E3 by lia. by exists s3.
Qed.

(** The leading bit of a byte. *)
Lemma one_bit_holds s bits :
  holds s bits -> room s 1 ->
  exists s', or_byte (Z.shiftr 128 (Z.land (snd s) 7)) 1 s = Ret s' /\ holds s' (bits ++ [true]) /\ room s' 0.
Proof.
  intros Hs Hr. pose proof (land7 (snd s)) as Hm7. pose proof (Z.mod_pos_bound (snd s) 8 ltac:(lia)) as Hmb.
  destruct (or_byte_holds s bits 128 [true] (7 - Z.to_nat (Z.land (snd s) 7)) Hs Hr) as (s' & E & Hs' & Hl); [unint; lia| |].
  { change (to_bits 8 128) with ([true] ++ replicate 7 false). rewrite take_zeros by (cbn; lia). do 2 f_equal. cbn. lia. }
  exists s'. split; [|split; [done|]].
  - unfold shr64 in E. destruct (Z.leb_spec 64 (Z.land (snd s) 7)); [lia|]. exact E.
  - unfold room in *. rewrite Hl, (holds_n _ _ Hs'), length_app, Nat2Z.inj_add, <- (holds_n _ _ Hs). cbn. lia.
Qed.

Lemma encode_value_holds prev lead trail cur s bits :
  is_u64 prev -> is_u64 cur -> FloatCodec.window_ok lead trail -> holds s bits ->
  let '(w, l, t) := FloatCodec.code prev lead trail cur in
  exists s', encode_value prev lead trail cur s = Ret (s', l, t) /\ holds s' (bits ++ w) /\ (cur <> prev -> room s' 0).
Proof.
  intros Hp Hc Hw Hs. unfold encode_value, FloatCodec.code. pose proof (FloatCodec.lxor_u64 cur prev Hc Hp) as Hd.
  set (d := Z.lxor cur prev) in *. destruct (Z.eqb_spec d 0) as [E|E].
  { exists (skip_bit s). split; [done|]. split; [by apply skip_bit_holds|]. intros []. by apply Z.lxor_eq. }
  assert (Hd' : 0 < d < 2 ^ 64) by (unint; lia). pose proof (FloatCodec.clamp_spec d Hd') as ((W1 & W2 & W3) & _).
  destruct (grow_while_holds 0 s bits ltac:(lia) Hs) as [Hs0 Hr0].
  destruct (one_bit_holds _ _ Hs0 Hr0) as (s1 & -> & Hs1 & Hr1). cbn [obind].
  destruct (grow_once_holds 2 s1 _ ltac:(lia) Hr1 Hs1) as [Hs2 Hr2]. change (Z.min 8 (2 + 1)) with 3 in Hr2.
  fold (FloatCodec.reuses d lead trail). destruct (FloatCodec.reuses d lead trail) eqn:Er.
  - assert (Hww : FloatCodec.window lead trail).
    { destruct Hw as [->|]; [|done]. unfold FloatCodec.reuses in Er. by rewrite Z.eqb_refl in Er. }
    destruct Hww as (V1 & V2 & V3). apply skip_bit_holds in Hs2.
    destruct (write_large_holds (shr64 d trail) (64 - lead - trail) _ _ ltac:(lia) Hs2) as (s3 & -> & Hs3 & Hr3). cbn [obind].
    exists s3. split; [done|]. rewrite <- !app_assoc in Hs3. done.
  - destruct (one_bit_holds _ _ Hs2) as (s3 & -> & Hs3 & Hr3); [unfold room in *; lia|]. cbn [obind].
    destruct (write_small_holds (clampLeading d) 5 s3 _ ltac:(lia) Hs3 Hr3) as (s4 & -> & Hs4 & Hr4). cbn [obind].
    destruct (write_small_holds (64 - clampLeading d - TrailingZeros64 d) 6 s4 _ ltac:(lia) Hs4 Hr4) as (s5 & -> & Hs5 & Hr5). cbn [obind].
    destruct (write_large_holds (shr64 d (TrailingZeros64 d)) (64 - clampLeading d - TrailingZeros64 d) s5 _ ltac:(lia) Hs5) as (s6 & -> & Hs6 & Hr6).
    cbn [obind]. exists s6. split; [done|]. rewrite <- !app_assoc in Hs6. done.
Qed.

Lemma encode_loop_holds vs : forall prev lead trail u s bits,
  is_u64 prev -> Forall is_u64 vs -> is_u64 u -> Forall (fun v => v <> u) (prev :: vs) -> FloatCodec.window_ok lead trail -> holds s bits ->
  exists s', encode_loop prev lead trail (vs ++ [u]) s = Ret s' /\ holds s' (bits ++ FloatCodec.codes prev lead trail (vs ++ [u])) /\ room s' 0.
Proof.
  induction vs as [|v vs IH]; intros prev lead trail u s bits Hp Hf Hu Hne Hw Hs; cbn [app encode_loop FloatCodec.codes];
    apply Forall_cons_1 in Hne as [Hpu Hne].
  - pose proof (encode_value_holds prev lead trail u s bits Hp Hu Hw Hs) as H.
    destruct (FloatCodec.code prev lead trail u) as [[w l] t]. destruct H as (s1 & -> & Hs1 & Hr1). cbn [obind].
    exists s1. rewrite app_nil_r. split_and!; [done|done|]. apply Hr1. congruence.
  - apply Forall_cons_1 in Hf as [Hv Hf]. pose proof (FloatCodec.code_window prev lead trail v Hp Hv Hw) as Hw'.
    pose proof (encode_value_holds prev lead trail v s bits Hp Hv Hw Hs) as H.
    destruct (FloatCodec.code prev lead trail v) as [[w l] t]. destruct H as (s1 & -> & Hs1 & _). cbn [obind].
    destruct (IH v l t u s1 _ Hv Hf Hu Hne Hw' Hs1) as (s2 & -> & Hs2 & Hr2). exists s2. rewrite <- app_assoc in Hs2. done.
Qed.

(** The block the encoder returns, whatever the sum of the values. *)
Lemma FloatArrayEncodeAll_stream vs :
  Forall FloatCodec.finite vs ->
  exists bs k, FloatArrayEncodeAll vs =
      (if is_nan (float_sum (tail vs)) then Fail "unsupported value: NaN" else Ret (Z.shiftl floatCompressedGorilla 4 :: bs)) /\
    Forall is_byte bs /\ (k < 8)%nat /\ bools_of bs = FloatCodec.stream vs ++ replicate k false.
Proof.
  intros Hf. unfold FloatArrayEncodeAll. set (h := Z.shiftl floatCompressedGorilla 4).
  assert (Hh : is_byte h) by (unfold h; vm_compute; split; congruence).
  destruct vs as [|v vs].
  { exists (be_put 8 uvnan), 0%nat. split_and!; [done|apply be_put_bytes|lia|]. rewrite be_put_bits. unfold FloatCodec.stream. cbn [app FloatCodec.codes].
    by rewrite !app_nil_r. }
  apply Forall_cons_1 in Hf as [Hv Hf]. rewrite (proj2 Hv). cbn [tail].
  assert (Hs : holds (h :: be_put 8 v, 72) (to_bits 8 h ++ to_bits 64 v)).
  { split_and!; cbn [fst snd].
    - constructor; [exact Hh|apply be_put_bytes].
    - rewrite bools_of_bytes, be_put_bits. by intros i.
    - rewrite length_app, !to_bits_length. done. }
  assert (Hu : Forall is_u64 vs) by (eapply Forall_impl; [exact Hf|]; by intros x []).
  assert (Hne : Forall (fun x => x <> uvnan) (v :: vs)).
  { constructor; [by apply FloatCodec.finite_not_uvnan|]. eapply Forall_impl; [exact Hf|]. apply FloatCodec.finite_not_uvnan. }
  destruct (encode_loop_holds vs v noLeading 0 uvnan _ _ (proj1 Hv) Hu FloatCodec.uvnan_u64 Hne (or_introl eq_refl) Hs)
    as ([b n] & -> & (Hb & Ha & Hn) & Hr). cbn [obind fst snd] in *.
  unfold room in Hr. cbn [fst snd] in Hr. rewrite shiftr3, land7.
  pose proof (Z.div_mod n 8 ltac:(lia)) as Hdm. pose proof (Z.mod_pos_bound n 8 ltac:(lia)) as Hmb.
  set (L := Z.to_nat (n / 8 + (if 0 <? n mod 8 then 1 else 0))).
  assert (HL : n <= 8 * Z.of_nat L < n + 8) by (unfold L; destruct (Z.ltb_spec 0 (n mod 8)); lia). clearbody L.
  assert (HLb : (L <= length b)%nat) by lia.
  apply agree_exact in Ha; [|rewrite bools_of_length; lia].
  rewrite <- (take_drop L b), bools_of_app in Ha.
  set (S0 := (to_bits 8 h ++ to_bits 64 v) ++ FloatCodec.codes v noLeading 0 (vs ++ [uvnan])) in *.
  set (z := (length _ - length S0)%nat) in Ha.
  assert (E : bools_of (take L b) = S0 ++ replicate (8 * L - length S0) false).
  { apply (f_equal (take (8 * L))) in Ha. rewrite take_app_length' in Ha by (rewrite bools_of_length, length_take; lia).
    rewrite Ha. apply take_zeros. split; [lia|]. unfold z. rewrite length_app, !bools_of_length, length_take, length_drop. lia. }
  destruct (take L b) as [|x bs] eqn:Eb.
  { apply (f_equal length) in E. unfold S0 in E. rewrite !length_app, to_bits_length in E. cbn in E. lia. }
  rewrite bools_of_bytes in E. unfold S0 in E at 1. rewrite <- !app_assoc in E.
  apply app_inj_1 in E as [Ex E]; [|by rewrite !to_bits_length].
  assert (Hbt : Forall is_byte (x :: bs)) by (rewrite <- Eb; by apply Forall_take). apply Forall_cons_1 in Hbt as [Hx Hbs].
  assert (x = h) as ->.
  { apply (f_equal of_bits) in Ex. by rewrite !of_to_bits_id in Ex by (unint; cbn; lia). }
  exists bs, (8 * L - length S0)%nat. split_and!; [|done|lia|].
  - destruct (is_nan _); [done|]. destruct (Nat.ltb_spec (length b) L); [lia|done].
  - rewrite E. unfold FloatCodec.stream. cbn [app]. by rewrite <- app_assoc.
Qed.

(** C18. The two encoders agree: on values other than NaN whose running sum
    is not NaN, [FloatArrayEncodeAll] returns, byte for byte, the block the
    streaming [FloatEncoder] builds, and [FloatArrayDecodeAll] returns the
    values of that block. *)
Theorem FloatArray_stream_equiv `{W : BitWriter} {WO : BitWriterOk W} (e : FloatCodec.FloatEncoder) (vs : list Z) :
  Forall (fun v => is_u64 v /\ IsNaN v = false) vs -> is_nan (float_sum (tail vs)) = false ->
  exists block, FloatArrayEncodeAll vs = Ret block /\
    FloatCodec.Bytes (FloatCodec.Flush (fold_left FloatCodec.Write vs (FloatCodec.Reset e))) = Ret block /\
    FloatArrayDecodeAll block = Ret vs.
Proof.
  intros Hf Hsum. destruct (FloatArrayEncodeAll_stream vs Hf) as (bs & k & E & Hb & Hk & Es). rewrite Hsum in E.
  destruct (FloatCodec.encoder_stream e vs Hf) as (bs' & k' & E' & Hb' & Hk' & Es').
  assert (bs' = bs) as ->.
  { apply BoolCodec.bools_of_inj; [done..|]. rewrite Es, Es'. do 2 f_equal.
    apply (f_equal length) in Es, Es'. rewrite bools_of_length, length_app, length_replicate in Es, Es'. lia. }
  exists (Z.shiftl floatCompressedGorilla 4 :: bs). split_and!; [done|done|]. by eapply FloatArrayDecodeAll_stream.
Qed.

Lemma FloatArray_stream_equiv_witness :
  exists block, FloatArrayEncodeAll [4608308318706860032; 2 ^ 63; 0] = Ret block /\
    FloatCodec.Bytes (FloatCodec.Flush (fold_left FloatCodec.Write [4608308318706860032; 2 ^ 63; 0]
      (FloatCodec.Reset (FloatCodec.NewFloatEncoder (W := list_writer))))) = Ret block /\
    FloatArrayDecodeAll block = Ret [4608308318706860032; 2 ^ 63; 0].
Proof.
  apply (FloatArray_stream_equiv (WO := list_writer_ok)).
  - repeat constructor; vm_compute; congruence.
  - vm_compute. reflexivity.
Defined.

(** ** The sum that stands in for the NaN check *)

Definition posInf : Z := 9218868437227405312.
Definition negInf : Z := 18442240474082181120.

(** A float64 that is neither NaN nor infinite. *)
Definition real (v : Z) : Prop := is_u64 v /\ Z.land (Z.shiftr v 52) 2047 <> 2047.

Lemma iter_shr_nonneg p : forall r, 0 <= shr_m r -> 0 <= shr_m (iter_pos shr_1 p r).
Proof.
  assert (H1 : forall r, 0 <= shr_m r -> 0 <= shr_m (shr_1 r)) by (intros [m r' s']; destruct m as [|[]|[]]; cbn; lia).
  induction p as [p IH|p IH|]; intros r Hr; cbn [iter_pos]; auto.
Qed.

Lemma shr_fexp_nonneg m e l : 0 <= m -> 0 <= shr_m (shr_fexp 53 1024 m e l).1.
Proof.
  intros Hm. unfold shr_fexp, shr. assert (Hr : 0 <= shr_m (shr_record_of_loc m l)) by (destruct l as [|[]]; done).
  destruct (_ - e); cbn [fst]; [done|by apply iter_shr_nonneg|done].
Qed.

Lemma round_not_nan sx m e l : 0 <= m -> is_nan (binary_round_aux 53 1024 sx m e l) = false.
Proof.
  intros Hm. unfold binary_round_aux. pose proof (shr_fexp_nonneg m e l Hm) as H1. destruct (shr_fexp 53 1024 m e l) as [r1 e1]. cbn [fst] in H1.
  set (m2 := round_nearest_even _ _). assert (Hm2 : 0 <= m2).
  { unfold m2, round_nearest_even. destruct (loc_of_shr_record r1) as [|[]]; try destruct (Z.even _); lia. }
  pose proof (shr_fexp_nonneg m2 e1 loc_Exact Hm2) as H2. destruct (shr_fexp 53 1024 m2 e1 loc_Exact) as [r2 e2]. cbn [fst] in H2.
  destruct (shr_m r2); [done|by destruct (_ <=? _)|lia].
Qed.

Lemma add_not_nan x v : is_nan x = false -> real v -> is_nan (SFadd 53 1024 x (float64frombits v)) = false.
Proof.
  intros Hx [Hv He]. unfold float64frombits. destruct (Z.eqb_spec (Z.land (Z.shiftr v 52) 2047) 2047); [done|].
  assert (Hm : 0 <= Z.land v (2 ^ 52 - 1)) by (apply Z.land_nonneg; right; lia).
  assert (Hnorm : forall m e s, is_nan (binary_normalize 53 1024 m e s) = false).
  { intros m e s. unfold binary_normalize, binary_round. destruct m; [done| |]; destruct (shl_align _ _ _); apply round_not_nan; lia. }
  assert (Hadd : forall sy my ey, is_nan (SFadd 53 1024 x (S754_finite sy my ey)) = false).
  { intros. destruct x; cbn [SFadd]; done. }
  assert (Hzero : forall sy, is_nan (SFadd 53 1024 x (S754_zero sy)) = false).
  { intros [|]; destruct x as [[|]| | |]; cbn [SFadd]; done. }
  destruct (_ =? 0); [destruct (Z.land v _); (apply Hadd || apply Hzero)|].
  destruct (Z.land v _ + 2 ^ 52) eqn:E; [lia|apply Hadd|lia].
Qed.

Lemma sum_not_nan vs : Forall real vs -> is_nan (float_sum vs) = false.
Proof.
  unfold float_sum. assert (H : forall x, is_nan x = false -> Forall real vs ->
    is_nan (fold_left (fun sum v => SFadd 53 1024 sum (float64frombits v)) vs x) = false).
  { induction vs as [|v vs IH]; intros x Hx Hv; [done|]. apply Forall_cons_1 in Hv as [Hv Hvs]. cbn [fold_left].
    apply IH; [by apply add_not_nan|done]. }
  by apply H.
Qed.

Lemma real_finite v : real v -> FloatCodec.finite v.
Proof. intros [Hv He]. split; [done|]. unfold IsNaN. by destruct (Z.eqb_spec (Z.land (Z.shiftr v 52) 2047) 2047). Qed.

Lemma FloatArray_decodes vs :
  Forall real vs -> exists block, FloatArrayEncodeAll vs = Ret block /\ FloatArrayDecodeAll block = Ret vs.
Proof.
  intros Hr. assert (Hf : Forall FloatCodec.finite vs) by (eapply Forall_impl; [exact Hr|]; apply real_finite).
  destruct (FloatArrayEncodeAll_stream vs Hf) as (bs & k & E & Hb & Hk & Es). rewrite sum_not_nan in E by (destruct Hr; [constructor|done]).
  eexists. split; [exact E|]. by eapply FloatArrayDecodeAll_stream.
Qed.

(** The batch encoder checks for NaN with a running sum, so it refuses
    values that are not NaN: after any first value, an infinity and its
    opposite are reported as an unsupported NaN, although the streaming
    encoder stores the same values and the batch decoder reads them back. *)
Theorem FloatArrayEncodeAll_infinities `{W : BitWriter} {WO : BitWriterOk W} (e : FloatCodec.FloatEncoder) (v : Z) :
  is_u64 v -> IsNaN v = false ->
  FloatArrayEncodeAll [v; posInf; negInf] = Fail "unsupported value: NaN" /\
  exists block, FloatCodec.Bytes (FloatCodec.Flush (fold_left FloatCodec.Write [v; posInf; negInf] (FloatCodec.Reset e))) = Ret block /\
    FloatArrayDecodeAll block = Ret [v; posInf; negInf].
Proof.
  intros Hv Hn. assert (Hf : Forall FloatCodec.finite [v; posInf; negInf]).
  { constructor; [by split|]. constructor; [vm_compute; intuition congruence|]. constructor; [vm_compute; intuition congruence|constructor]. }
  destruct (FloatArrayEncodeAll_stream _ Hf) as (bs & k & E & _). destruct (FloatCodec.encoder_stream e _ Hf) as (bs' & k' & E' & Hb' & Hk' & Es').
  split.
  - rewrite E. replace (is_nan (float_sum (tail [v; posInf; negInf]))) with true by (vm_compute; reflexivity). done.
  - eexists. split; [exact E'|]. by eapply FloatArrayDecodeAll_stream.
Qed.

Lemma FloatArrayEncodeAll_infinities_witness :
  FloatArrayEncodeAll [0; posInf; negInf] = Fail "unsupported value: NaN".
Proof.
  apply (FloatArrayEncodeAll_infinities (WO := list_writer_ok) (FloatCodec.NewFloatEncoder (W := list_writer)) 0); vm_compute; congruence || (split; congruence).
Defined.
End FloatBatch.
