(* ===== verification/Block.v ===== *)
(** * tsdb/engine/tsm1: blocks

    Models the block layer of [encoding.go], [encoding.gen.go] and
    [array_encoding.go]: a block is a type byte, the varint length of the
    encoded timestamps, the timestamps and the values.  The value codecs are
    used through the interface [ValueCodec] (the streaming encoders and
    decoders, driven in step with the timestamps) and [ArrayCodec] (the batch
    functions); the theorems are proved once against the laws of the interface
    and the float, integer, unsigned, boolean and string codecs discharge the
    laws. *)
From S2P Require Import Prelude Simple8b Simple8bStream Codec IntCodec TimeCodec IntStream TimeStream BoolCodec StringCodec Values ArrayValues Bits FloatCodec FloatBatch.
From stdpp Require Import gmap sorting.
Import Values.
Import ArrayValues (Arr, MkArr, Timestamps, Vals, Len).
#[global] Open Scope Z_scope.

Module Block.

Definition BlockFloat64 : Z := 0.
Definition BlockInteger : Z := 1.
Definition BlockBoolean : Z := 2.
Definition BlockString : Z := 3.
Definition BlockUnsigned : Z := 4.
Definition encodedBlockHeaderSize : nat := 1.

(** ** Framing *)

(** The pieces are written one behind the other from offset 0. *)
Definition packBlock (buf : slice) (typ : Z) (ts values : list Z) : slice :=
  let sz := (1 + 10 + length ts + length values)%nat in
  let buf := if (s_cap buf <? sz)%nat then Slice (replicate sz 0) sz else buf in
  let b := s_to buf sz in
  let head := typ :: put_uvarint (Z.of_nat (length ts)) in
  let b := s_put b (head ++ ts ++ values) in
  s_to b (length head + length ts + length values).

Definition unpackBlock (buf : list Z) : outcome (list Z * list Z) :=
  let '(tsLen, i) := uvarint buf in
  if i <=? 0 then Fail "unpackBlock: unable to read timestamp block length"
  else
    let tsIdx := i64 (i + i64 tsLen) in
    if Z.of_nat (length buf) <? tsIdx then Fail "unpackBlock: not enough data for timestamp"
    else if tsIdx <? i then Panic
    else Ret (take (Z.to_nat (tsIdx - i)) (drop (Z.to_nat i) buf), drop (Z.to_nat tsIdx) buf).

Definition BlockType (block : list Z) : outcome Z :=
  let! t := or_panic (head block) in
  if existsb (Z.eqb t) [BlockFloat64; BlockInteger; BlockUnsigned; BlockBoolean; BlockString] then Ret t
  else Fail "unknown block type".

Lemma packBlock_bytes buf typ ts values :
  s_bytes (packBlock buf typ ts values) = typ :: put_uvarint (Z.of_nat (length ts)) ++ ts ++ values.
Proof.
  unfold packBlock. apply s_put_to. cbn [length app]. rewrite !length_app. lia.
Qed.

Lemma unpackBlock_packed ts values :
  Z.of_nat (length ts) < 2 ^ 62 ->
  unpackBlock (put_uvarint (Z.of_nat (length ts)) ++ ts ++ values) = Ret (ts, values).
Proof.
  intros Hl. unfold unpackBlock. rewrite uvarint_put by (unint; lia).
  pose proof (put_uvarint_pos (Z.of_nat (length ts))) as Hp.
  pose proof (put_uvarint_fuel_length 10 (Z.of_nat (length ts))) as Hb. fold (put_uvarint (Z.of_nat (length ts))) in Hb.
  set (n := length (put_uvarint (Z.of_nat (length ts)))) in *.
  destruct (Z.leb_spec (Z.of_nat n) 0); [lia|]. rewrite (i64_id (Z.of_nat (length ts))), i64_id by (unint; lia).
  rewrite !length_app. fold n.
  destruct (Z.ltb_spec (Z.of_nat (n + (length ts + length values))) (Z.of_nat n + Z.of_nat (length ts))); [lia|].
  destruct (Z.ltb_spec (Z.of_nat n + Z.of_nat (length ts)) (Z.of_nat n)); [lia|].
  rewrite Nat2Z.id, drop_app_length' by done. f_equal. f_equal.
  - apply take_app_length'. lia.
  - rewrite app_assoc. apply drop_app_length'. rewrite length_app. fold n. lia.
Qed.

Lemma i64_wrap x : 2 ^ 63 <= x < 2 ^ 64 + 2 ^ 63 -> i64 x = x - 2 ^ 64.
Proof.
  intros H. rewrite (i64_congr x (x - 2 ^ 64)); [apply i64_id; unint; lia|].
  unfold u64. rewrite <- (Z.mod_add x (-1) (2 ^ 64)) by lia. reflexivity.
Qed.

(** What unpacking does with a timestamp length [n], whatever follows: a
    length up to the rest of the block splits it, a larger one is an error,
    but a length that overflows an int when the size of its varint is added
    makes the slicing panic. *)
Theorem unpackBlock_length (n : Z) (rest : list Z) :
  is_u64 n ->
  unpackBlock (put_uvarint n ++ rest) =
    if 2 ^ 63 <=? n + Z.of_nat (length (put_uvarint n)) then Panic
    else if Z.of_nat (length rest) <? n then Fail "unpackBlock: not enough data for timestamp"
    else Ret (take (Z.to_nat n) rest, drop (Z.to_nat n) rest).
Proof.
  intros Hn. unfold unpackBlock. rewrite uvarint_put by done. pose proof (put_uvarint_pos n) as Hp.
  pose proof (put_uvarint_fuel_length 10 n) as Hb. fold (put_uvarint n) in Hb.
  rewrite length_app. set (k := length (put_uvarint n)) in *. destruct (Z.leb_spec (Z.of_nat k) 0); [lia|].
  assert (Hpan : i64 (Z.of_nat k + i64 n) < Z.of_nat k ->
    (if Z.of_nat (k + length rest) <? i64 (Z.of_nat k + i64 n) then Fail "unpackBlock: not enough data for timestamp"
     else if i64 (Z.of_nat k + i64 n) <? Z.of_nat k then Panic
     else Ret (take (Z.to_nat (i64 (Z.of_nat k + i64 n) - Z.of_nat k)) (drop (Z.to_nat (Z.of_nat k)) (put_uvarint n ++ rest)),
               drop (Z.to_nat (i64 (Z.of_nat k + i64 n))) (put_uvarint n ++ rest))) = Panic).
  { intros Hlt. rewrite (proj2 (Z.ltb_ge _ _)) by lia. by rewrite (proj2 (Z.ltb_lt _ _) Hlt). }
  destruct (Z.leb_spec (2 ^ 63) (n + Z.of_nat k)) as [Hbig|Hsmall].
  { apply Hpan. clear Hpan. destruct (Z.lt_ge_cases n (2 ^ 63)) as [H63|H63].
    - rewrite (i64_id n), i64_wrap by (unint; lia). lia.
    - rewrite (i64_wrap n), i64_id by (unint; lia). unint. lia. }
  assert (Hnn : 0 <= n) by (unint; lia). clear Hpan. rewrite (i64_id n), i64_id by (unint; lia).
  destruct (Z.ltb_spec (Z.of_nat (length rest)) n), (Z.ltb_spec (Z.of_nat (k + length rest)) (Z.of_nat k + n)); try lia; [done|].
  destruct (Z.ltb_spec (Z.of_nat k + n) (Z.of_nat k)); [lia|].
  replace (Z.of_nat k + n - Z.of_nat k) with n by lia. replace (Z.to_nat (Z.of_nat k + n)) with (k + Z.to_nat n)%nat by lia.
  rewrite Nat2Z.id, <- drop_drop, !drop_app_length' by done. done.
Qed.

Lemma unpackBlock_length_witness :
  is_u64 (2 ^ 63) /\ unpackBlock (put_uvarint (2 ^ 63) ++ [1; 2]) = Panic.
Proof.
  split; [vm_compute; split; congruence|].
  rewrite (unpackBlock_length (2 ^ 63) [1; 2]); [reflexivity|]. vm_compute; split; congruence.
Defined.

(** ** The streaming codecs

    What the block functions use of a value codec: [vc_box] makes a typed
    value a [Value], [vc_assert] is the type assertion [v.(FloatValue)] and
    its like, [vc_SetBytes] also returns the
    error some codecs report. *)
Class ValueCodec (V : Type) := {
  vc_block : Z;
  vc_box : TValue V -> Value;
  vc_assert : Value -> option (TValue V);
  vc_Encoder : Type;
  vc_Reset : vc_Encoder -> vc_Encoder;
  vc_Write : vc_Encoder -> V -> vc_Encoder;
  vc_Flush : vc_Encoder -> vc_Encoder;
  vc_Bytes : vc_Encoder -> outcome (list Z * vc_Encoder);
  vc_Decoder : Type;
  vc_SetBytes : vc_Decoder -> list Z -> vc_Decoder * option string;
  vc_Next : vc_Decoder -> vc_Decoder * bool;
  vc_Read : vc_Decoder -> outcome (V * vc_Decoder);
  vc_Error : vc_Decoder -> option string }.

Section Drain.
Context {V : Type} {C : ValueCodec V}.

(** [for d.Next() { vs = append(vs, d.Read()) }] *)
Fixpoint vc_drain (fuel : nat) (d : vc_Decoder) : outcome (list V * option string) :=
  match fuel with
  | O => Panic
  | S f =>
    let '(d, ok) := vc_Next d in
    if ok then
      let! (v, d) := vc_Read d in
      let! (vs, err) := vc_drain f d in Ret (v :: vs, err)
    else Ret ([], vc_Error d)
  end.

Lemma vc_drain_fuel f d vs e : vc_drain f d = Ret (vs, e) -> vc_drain (S (length vs)) d = Ret (vs, e).
Proof.
  revert d vs. induction f as [|f IH]; intros d vs; [done|]. cbn [vc_drain]. destruct (vc_Next d) as [d1 ok].
  destruct ok; [|intros [= <- <-]; done]. destruct (vc_Read d1) as [[v d2]|?|]; [|done..]. cbn [obind].
  destruct (vc_drain f d2) as [[vs' e']|?|] eqn:Ed; [|done..]. cbn [obind]. intros [= <- <-]. cbn [length].
  by rewrite (IH _ _ Ed).
Qed.
End Drain.

(** What the block functions rely on: an encoder, fresh or reused, encodes
    the values written since [Reset] so that a decoder of the pool returns
    them; errors are sticky. *)
Class ValueCodecOk {V : Type} (C : ValueCodec V) := {
  vc_ok : list V -> Prop;
  vc_dec_ok : vc_Decoder -> Prop;
  vc_unbox : forall v, vc_assert (vc_box v) = Some v;
  vc_known : In vc_block [BlockFloat64; BlockInteger; BlockUnsigned; BlockBoolean; BlockString];
  vc_codec : forall e d vs, vs <> [] -> vc_ok vs -> vc_dec_ok d ->
    exists bs e' d', vc_Bytes (vc_Flush (fold_left vc_Write vs (vc_Reset e))) = Ret (bs, e') /\
      vc_SetBytes d bs = (d', None) /\ vc_drain (S (length vs)) d' = Ret (vs, None);
  vc_sticky : forall d, vc_Error d <> None -> (vc_Next d).2 = false /\ vc_Error (vc_Next d).1 <> None }.

Section Streaming.
Context `{J : JwStream} {V : Type} {C : ValueCodec V}.

(** [for _, v := range values { vv := v.(T); tenc.Write(vv.unixnano); venc.Write(vv.value) }] *)
Fixpoint write_values (values : list Value) (tenc : TimeStream.encoder) (venc : vc_Encoder)
  : outcome (TimeStream.encoder * vc_Encoder) :=
  match values with
  | [] => Ret (tenc, venc)
  | v :: values =>
    let! vv := or_panic (vc_assert v) in
    write_values values (TimeStream.Write tenc (unixnano vv)) (vc_Write venc (value vv))
  end.

(** The tail the encoding functions share. *)
Definition finish_block (buf : slice) (tenc : TimeStream.encoder) (venc : vc_Encoder) : outcome slice :=
  let! (tb, _) := TimeStream.Bytes tenc in
  let! (vb, _) := vc_Bytes venc in
  Ret (packBlock buf vc_block tb vb).

(** [encodeFloatBlockUsing] and its like; [Flush] does nothing but for floats,
    and only the float function calls it. *)
Definition encodeBlockUsing (buf : slice) (values : list Value) (tenc : TimeStream.encoder) (venc : vc_Encoder)
  : outcome slice :=
  let! tenc := TimeStream.Reset tenc in
  let venc := vc_Reset venc in
  let! (tenc, venc) := write_values values tenc venc in
  finish_block buf tenc (vc_Flush venc).

(** [encodeFloatValuesBlock] and its like, on a typed slice; the encoders
    have been reset by [getTimeEncoder] and [getFloatEncoder]. *)
Definition encodeValuesBlock (buf : slice) (values : list (TValue V)) (tenc : TimeStream.encoder) (venc : vc_Encoder)
  : outcome slice :=
  if (length values =? 0)%nat then Ret (Slice [] 0)
  else
    let! tenc := TimeStream.Reset tenc in
    let venc := vc_Reset venc in
    let tenc := fold_left TimeStream.Write (unixnano <$> values) tenc in
    let venc := vc_Flush (fold_left vc_Write (value <$> values) venc) in
    finish_block buf tenc venc.

(** [for j < len(a) && tdec.Next() && vdec.Next() { a\[j\] = ...; j++ }] *)
Fixpoint decode_loop (n : nat) (tdec : TimeStream.TimeDecoder) (vdec : vc_Decoder)
  : outcome (list (TValue V) * TimeStream.TimeDecoder * vc_Decoder) :=
  match n with
  | O => Ret ([], tdec, vdec)
  | S n =>
    let '(tdec, ok) := TimeStream.Next tdec in
    if negb ok then Ret ([], tdec, vdec)
    else
      let '(vdec, ok) := vc_Next vdec in
      if negb ok then Ret ([], tdec, vdec)
      else
        let! (v, vdec) := vc_Read vdec in
        let! ((rest, tdec'), vdec') := decode_loop n tdec vdec in
        Ret (MkValue (TimeStream.Read tdec) v :: rest, tdec', vdec')
  end.

(** The values decoded, the error, and the decoders as they return to their
    pools; an error before the decoders are fetched is [Fail]. *)
Definition decodeTypedBlock (block : list Z) (tdec : TimeStream.TimeDecoder) (vdec : vc_Decoder)
  : outcome (list (TValue V) * option string * TimeStream.TimeDecoder * vc_Decoder) :=
  let! blockType := or_panic (head block) in
  if negb (blockType =? vc_block) then Fail "invalid block type"
  else
    let! (tb, vb) := unpackBlock (drop 1 block) in
    let! sz := TimeStream.CountTimestamps tb in
    if sz <? 0 then Panic
    else
      let! tdec := TimeStream.Init tdec tb in
      let '(vdec, err) := vc_SetBytes vdec vb in
      match err with
      | Some e => Ret ([], Some e, tdec, vdec)
      | None =>
        let! ((vals, tdec), vdec) := decode_loop (Z.to_nat sz) tdec vdec in
        let err := match TimeStream.Error tdec with Some e => Some e | None => vc_Error vdec end in
        Ret (vals, err, tdec, vdec)
      end.

Definition BlockCount (block : list Z) : outcome Z :=
  if (length block <=? encodedBlockHeaderSize)%nat then Fail "count of short block"
  else
    match unpackBlock (drop 1 block) with
    | Ret (tb, _) => TimeStream.CountTimestamps tb
    | Fail _ => Fail "BlockCount: error unpacking block"
    | Panic => Panic
    end.

Context {JO : JwStreamOk J} {CO : ValueCodecOk C}.

Lemma time_quiet f d ts : TimeStream.drain (S f) d = Some (ts, None) -> TimeStream.Error d = None.
Proof.
  rewrite TimeStream.time_drain_S. unfold TimeStream.Next, TimeStream.Error.
  destruct (TimeStream.td_err d) eqn:E; [|done]. cbn. rewrite E. done.
Qed.

Lemma value_quiet f d vs : vc_drain (S f) d = Ret (vs, None) -> vc_Error d = None.
Proof.
  cbn [vc_drain]. intros H. destruct (vc_Error d) eqn:E; [exfalso|done].
  destruct (vc_sticky d) as [H1 H2]; [by rewrite E|]. destruct (vc_Next d) as [d' ok]. cbn in H1, H2. subst ok. congruence.
Qed.

Lemma decode_loop_run ts : forall vs tdec vdec, length vs = length ts ->
  TimeStream.drain (S (length ts)) tdec = Some (ts, None) -> vc_drain (S (length vs)) vdec = Ret (vs, None) ->
  exists tdec' vdec', decode_loop (length ts) tdec vdec = Ret (zip_with MkValue ts vs, tdec', vdec') /\
    TimeStream.Error tdec' = None /\ vc_Error vdec' = None.
Proof.
  induction ts as [|t ts IH]; intros vs tdec vdec Hl Ht Hv; cbn [length] in *.
  { apply time_quiet in Ht. apply value_quiet in Hv. by exists tdec, vdec. }
  destruct vs as [|v vs]; [done|]. cbn [length] in *. injection Hl as Hl.
  rewrite TimeStream.time_drain_S in Ht. destruct (TimeStream.Next tdec) as [tdec1 okt] eqn:En. destruct okt; [|done].
  destruct (TimeStream.drain (S (length ts)) tdec1) as [[ts' err]|] eqn:Et; [|done]. cbn in Ht. injection Ht as <- <- ->.
  remember (S (length vs)) as f eqn:Ef. cbn [vc_drain] in Hv. destruct (vc_Next vdec) as [vdec1 okv] eqn:Ev.
  destruct okv; [|done]. destruct (vc_Read vdec1) as [[v' vdec2]|?|] eqn:Er; [|done..]. cbn [obind] in Hv.
  destruct (vc_drain f vdec2) as [[vs' err']|?|] eqn:Ed; [|done..]. cbn [obind] in Hv. injection Hv as -> -> ->. subst f.
  destruct (IH vs tdec1 vdec2 Hl Et Ed) as (td & vd & E & H1 & H2). exists td, vd.
  cbn [decode_loop]. rewrite En. cbn [negb]. rewrite Ev. cbn [negb]. rewrite Er. cbn [obind]. rewrite E. by split_and!.
Qed.

(** A block of a non-empty series of timestamps and values, with all that is
    read from it. *)
Lemma typed_block_run (vals : list (TValue V)) buf tenc venc tdec vdec :
  vals <> [] -> Forall is_i64 (unixnano <$> vals) -> Z.of_nat (length vals) < 2 ^ 58 -> vc_ok (value <$> vals) ->
  TimeStream.te_ts tenc = [] -> jws_fresh (TimeStream.te_enc tenc) -> jws_dec_ok (TimeStream.td_dec tdec) -> vc_dec_ok vdec ->
  exists b tdec' vdec',
    finish_block buf (TimeStream.WriteAll tenc (unixnano <$> vals)) (vc_Flush (fold_left vc_Write (value <$> vals) (vc_Reset venc)))
      = Ret b /\
    decodeTypedBlock (s_bytes b) tdec vdec = Ret (vals, None, tdec', vdec') /\
    BlockType (s_bytes b) = Ret vc_block /\ BlockCount (s_bytes b) = Ret (Z.of_nat (length vals)).
Proof.
  intros Hne Hts Hl Hok Hte Hfr Htd Hvd.
  destruct (TimeStream.TimeEncoder_decodes tenc tdec (unixnano <$> vals)) as (tb & te' & td & Eb & Ei & Ed & Ec & Htb);
    [done..|by destruct vals|rewrite length_fmap; lia|].
  destruct (vc_codec venc vdec (value <$> vals)) as (vb & ve' & vd & Evb & Evi & Evd); [by destruct vals|done|done|].
  unfold finish_block. rewrite Eb. cbn [obind]. rewrite Evb. cbn [obind]. rewrite (length_fmap unixnano) in Htb.
  rewrite (length_fmap unixnano) in Ed, Ec. rewrite (length_fmap value) in Evd.
  destruct (decode_loop_run (unixnano <$> vals) (value <$> vals) td vd) as (td' & vd' & Edl & H1 & H2);
    rewrite ?length_fmap; [done..|].
  assert (Eu : unpackBlock (drop 1 (s_bytes (packBlock buf vc_block tb vb))) = Ret (tb, vb)).
  { rewrite packBlock_bytes. cbn [drop]. rewrite drop_0. apply unpackBlock_packed. lia. }
  eexists _, td', vd'. split; [reflexivity|]. split_and!.
  - unfold decodeTypedBlock. rewrite Eu, packBlock_bytes. cbn [head or_panic obind]. rewrite Z.eqb_refl. cbn [negb].
    rewrite Ec. cbn [obind]. destruct (Z.ltb_spec (Z.of_nat (length vals)) 0); [lia|]. rewrite Ei. cbn [obind].
    rewrite Evi, Nat2Z.id. rewrite length_fmap in Edl. rewrite Edl. cbn [obind]. rewrite H1, H2. do 4 f_equal.
    clear. induction vals as [|[t v] vals IH]; cbn; [done|by rewrite IH].
  - unfold BlockType. rewrite packBlock_bytes. cbn [head or_panic obind].
    rewrite (proj2 (existsb_exists _ _)); [done|]. exists vc_block. split; [apply vc_known|apply Z.eqb_refl].
  - unfold BlockCount. rewrite Eu, Ec. rewrite packBlock_bytes. cbn [length]. rewrite !length_app.
    pose proof (put_uvarint_pos (Z.of_nat (length tb))). unfold encodedBlockHeaderSize.
    destruct (Nat.leb_spec (S (length (put_uvarint (Z.of_nat (length tb))) + (length tb + length vb))) 1); [lia|done].
Qed.

Lemma write_values_run (vals : list (TValue V)) : forall tenc venc,
  write_values (vc_box <$> vals) tenc venc
  = Ret (TimeStream.WriteAll tenc (unixnano <$> vals), fold_left vc_Write (value <$> vals) venc).
Proof.
  induction vals as [|v vals IH]; intros tenc venc; [done|]. cbn [fmap list_fmap write_values]. rewrite vc_unbox.
  cbn [or_panic obind]. by rewrite IH.
Qed.

Lemma typed_run (vals : list (TValue V)) buf tenc tenc0 venc tdec vdec :
  vals <> [] -> Forall is_i64 (unixnano <$> vals) -> Z.of_nat (length vals) < 2 ^ 58 -> vc_ok (value <$> vals) ->
  TimeStream.Reset tenc = Ret tenc0 -> jws_dec_ok (TimeStream.td_dec tdec) -> vc_dec_ok vdec ->
  exists b tdec' vdec',
    encodeValuesBlock buf vals tenc venc = Ret b /\ encodeBlockUsing buf (vc_box <$> vals) tenc venc = Ret b /\
    decodeTypedBlock (s_bytes b) tdec vdec = Ret (vals, None, tdec', vdec') /\
    BlockType (s_bytes b) = Ret vc_block /\ BlockCount (s_bytes b) = Ret (Z.of_nat (length vals)).
Proof.
  intros Hne Hts Hl Hok Hr Htd Hvd. pose proof Hr as Hr'. unfold TimeStream.Reset in Hr'.
  destruct (jws_Reset (TimeStream.te_enc tenc)) as [enc|?|] eqn:Ee; [|done..]. cbn in Hr'. injection Hr' as Hr'.
  destruct (typed_block_run vals buf tenc0 venc tdec vdec) as (b & td & vd & E & H1 & H2 & H3);
    [done..|by subst tenc0|subst tenc0; by eapply jws_fresh_reset|done|done|].
  exists b, td, vd. split_and!; [| |done..].
  - unfold encodeValuesBlock. destruct (Nat.eqb_spec (length vals) 0) as [E0|_]; [by destruct vals|]. rewrite Hr. exact E.
  - unfold encodeBlockUsing. rewrite Hr. cbn [obind]. rewrite write_values_run. exact E.
Qed.

(** Whatever non-empty series of timestamped values is encoded, as a typed
    slice or as a slice of [Value]s, with encoders and a buffer reused from
    other blocks, the two encoding functions build the same block, and
    decoding it with decoders taken from the pools returns the values without
    error; the block reports its type and its number of values.  Proved once
    for every value codec that keeps the contract of the interface. *)
Theorem block_roundtrip (vals : list (TValue V)) buf tenc tenc0 venc tdec vdec :
  vals <> [] -> Forall is_i64 (unixnano <$> vals) -> Z.of_nat (length vals) < 2 ^ 58 -> vc_ok (value <$> vals) ->
  TimeStream.Reset tenc = Ret tenc0 -> jws_dec_ok (TimeStream.td_dec tdec) -> vc_dec_ok vdec ->
  exists b tdec' vdec',
    encodeValuesBlock buf vals tenc venc = Ret b /\ encodeBlockUsing buf (vc_box <$> vals) tenc venc = Ret b /\
    decodeTypedBlock (s_bytes b) tdec vdec = Ret (vals, None, tdec', vdec') /\
    BlockType (s_bytes b) = Ret vc_block /\ BlockCount (s_bytes b) = Ret (Z.of_nat (length vals)).
Proof. apply typed_run. Qed.
End Streaming.

(** ** The codecs of the engine *)

Section Codecs.
Context `{J8 : JwSimple8b} {JO8 : JwSimple8bOk J8}.

Definition integer_codec : ValueCodec Z := {|
  vc_block := BlockInteger;
  vc_box := VInteger;
  vc_assert := fun v => match v with VInteger v => Some v | _ => None end;
  vc_Encoder := IntStream.IntegerEncoder;
  vc_Reset := IntStream.Reset;
  vc_Write := IntStream.Write;
  vc_Flush := id;
  vc_Bytes := fun e => let! bs := IntStream.Bytes e in Ret (bs, e);
  vc_Decoder := IntStream.IntegerDecoder;
  vc_SetBytes := fun d b => (IntStream.SetBytes d b, None);
  vc_Next := IntStream.Next;
  vc_Read := IntStream.Read;
  vc_Error := IntStream.Error |}.

(** Unsigned values are converted to and from [int64]. *)
Definition unsigned_codec : ValueCodec Z := {|
  vc_block := BlockUnsigned;
  vc_box := VUnsigned;
  vc_assert := fun v => match v with VUnsigned v => Some v | _ => None end;
  vc_Encoder := IntStream.IntegerEncoder;
  vc_Reset := IntStream.Reset;
  vc_Write := fun e v => IntStream.Write e (i64 v);
  vc_Flush := id;
  vc_Bytes := fun e => let! bs := IntStream.Bytes e in Ret (bs, e);
  vc_Decoder := IntStream.IntegerDecoder;
  vc_SetBytes := fun d b => (IntStream.SetBytes d b, None);
  vc_Next := IntStream.Next;
  vc_Read := fun d => let! (v, d) := IntStream.Read d in Ret (u64 v, d);
  vc_Error := IntStream.Error |}.

Definition boolean_codec : ValueCodec bool := {|
  vc_block := BlockBoolean;
  vc_box := VBoolean;
  vc_assert := fun v => match v with VBoolean v => Some v | _ => None end;
  vc_Encoder := BoolCodec.BooleanEncoder;
  vc_Reset := BoolCodec.Reset;
  vc_Write := BoolCodec.Write;
  vc_Flush := id;
  vc_Bytes := fun e => Ret (BoolCodec.Bytes e);
  vc_Decoder := BoolCodec.BooleanDecoder;
  vc_SetBytes := fun d b => (BoolCodec.SetBytes d b, None);
  vc_Next := BoolCodec.Next;
  vc_Read := fun d => let! v := BoolCodec.Read d in Ret (v, d);
  vc_Error := BoolCodec.Error |}.

Context `{N : Snappy} {NO : SnappyOk N}.

Definition string_codec : ValueCodec (list Z) := {|
  vc_block := BlockString;
  vc_box := VString;
  vc_assert := fun v => match v with VString v => Some v | _ => None end;
  vc_Encoder := StringCodec.StringEncoder;
  vc_Reset := StringCodec.Reset;
  vc_Write := StringCodec.Write;
  vc_Flush := id;
  vc_Bytes := fun e => let! bs := StringCodec.Bytes e in Ret (bs, e);
  vc_Decoder := StringCodec.StringDecoder;
  vc_SetBytes := StringCodec.SetBytes;
  vc_Next := StringCodec.Next;
  vc_Read := StringCodec.Read;
  vc_Error := StringCodec.Error |}.

Context `{W : BitWriter} {WO : BitWriterOk W}.

Definition float_codec : ValueCodec Z := {|
  vc_block := BlockFloat64;
  vc_box := VFloat;
  vc_assert := fun v => match v with VFloat v => Some v | _ => None end;
  vc_Encoder := FloatCodec.FloatEncoder;
  vc_Reset := FloatCodec.Reset;
  vc_Write := FloatCodec.Write;
  vc_Flush := FloatCodec.Flush;
  vc_Bytes := fun e => let! bs := FloatCodec.Bytes e in Ret (bs, e);
  vc_Decoder := FloatCodec.FloatDecoder;
  vc_SetBytes := FloatCodec.SetBytes;
  vc_Next := FloatCodec.Next;
  vc_Read := fun d => Ret (FloatCodec.Values d, d);
  vc_Error := FloatCodec.Error |}.

Lemma int_sticky d : IntStream.Error d <> None -> (IntStream.Next d).2 = false /\ IntStream.Error (IntStream.Next d).1 <> None.
Proof.
  unfold IntStream.Error. intros He. unfold IntStream.Next. destruct (_ && _); [done|].
  set (d1 := IntStream.advance d). assert (He1 : IntStream.id_err d1 <> None) by done. clearbody d1.
  cbv zeta. match goal with |- context [match IntStream.id_err ?x with None => _ | Some _ => _ end] =>
    assert (Hx : IntStream.id_err x <> None); [|revert Hx; generalize x; intros x' Hx] end.
  { destruct (_ <=? _); [|done]. destruct (_ =? _).
    { unfold IntStream.decodeUncompressed. destruct (_ =? _)%nat; [done|]. by destruct (_ <? _)%nat. }
    destruct (_ =? _).
    { unfold IntStream.decodePacked. destruct (_ =? _)%nat; [done|]. destruct (_ <? _)%nat; [done|].
      destruct (IntStream.id_first _); [done|]. by destruct (jw_Decode _ _) as [[? ?]|?|]. }
    destruct (_ =? _); [|done]. unfold IntStream.decodeRLE. destruct (_ =? _)%nat; [done|]. destruct (_ <? _)%nat; [done|].
    destruct (uvarint _) as [? ?]. destruct (_ <=? _); [done|]. destruct (uvarint _) as [? ?]. by destruct (_ <=? _). }
  cbn [fst snd]. by destruct (IntStream.id_err x').
Qed.

Lemma int_vc_drain f d : vc_drain (C := integer_codec) f d = IntStream.drain f d.
Proof.
  revert d. induction f as [|f IH]; intros d; [done|]. rewrite IntStream.int_drain_S. cbn [vc_drain vc_Next vc_Read vc_Error integer_codec].
  destruct (IntStream.Next d) as [d1 ok]. destruct ok; [|done]. destruct (IntStream.Read d1) as [[v d2]|?|]; [|done..].
  cbn [obind]. by rewrite IH.
Qed.

Lemma unsigned_vc_drain f d :
  vc_drain (C := unsigned_codec) f d = (let! (vs, e) := IntStream.drain f d in Ret (u64 <$> vs, e)).
Proof.
  revert d. induction f as [|f IH]; intros d; [done|]. rewrite IntStream.int_drain_S. cbn [vc_drain vc_Next vc_Read vc_Error unsigned_codec].
  destruct (IntStream.Next d) as [d1 ok]. destruct ok; [|done]. destruct (IntStream.Read d1) as [[v d2]|?|]; [|done..].
  cbn [obind]. rewrite IH. by destruct (IntStream.drain f d2) as [[? ?]|?|].
Qed.

Lemma bool_vc_drain f d : vc_drain (C := boolean_codec) f d = BoolCodec.drain f d.
Proof.
  revert d. induction f as [|f IH]; intros d; [done|]. cbn [vc_drain vc_Next vc_Read vc_Error boolean_codec BoolCodec.drain].
  destruct (BoolCodec.Next d) as [d1 ok]. destruct ok; [|done]. destruct (BoolCodec.Read d1) as [v|?|]; [|done..].
  cbn [obind]. by rewrite IH.
Qed.

Lemma string_vc_drain f d : vc_drain (C := string_codec) f d = StringCodec.drain f d.
Proof.
  revert d. induction f as [|f IH]; intros d; [done|]. cbn [vc_drain vc_Next vc_Read vc_Error string_codec StringCodec.drain].
  destruct (StringCodec.Next d) as [d1 ok]. destruct ok; [|done]. destruct (StringCodec.Read d1) as [[v d2]|?|]; [|done..].
  cbn [obind]. by rewrite IH.
Qed.

Lemma float_vc_drain f d : vc_drain (C := float_codec) f d = FloatCodec.drain f d.
Proof.
  revert d. induction f as [|f IH]; intros d; [done|]. cbn [vc_drain vc_Next vc_Read vc_Error float_codec FloatCodec.drain].
  destruct (FloatCodec.Next d) as [d1 ok]. destruct ok; [|done]. cbn [obind]. by rewrite IH.
Qed.

#[export] Instance float_codec_ok : ValueCodecOk float_codec.
Proof.
  refine {| vc_ok := fun vs : list Z => Forall FloatCodec.finite vs; vc_dec_ok := fun _ : @vc_Decoder _ float_codec => True |}.
  - done.
  - cbn. tauto.
  - intros e d vs _ Hv _. destruct (FloatCodec.encoder_stream e vs Hv) as (bs & k & E & Hb & _ & Es).
    destruct (FloatCodec.decoder_stream d (Z.shiftl FloatCodec.floatCompressedGorilla 4) bs vs k Hv Hb Es) as (d' & E1 & E2).
    eexists _, _, d'. split; [|split; [exact E1|by rewrite float_vc_drain]].
    set (e1 := FloatCodec.Flush (fold_left FloatCodec.Write vs (FloatCodec.Reset e))) in E.
    transitivity (let! bs := FloatCodec.Bytes e1 in Ret (bs, e1)); [reflexivity|]. rewrite E. reflexivity.
  - intros d He. cbn [vc_Next vc_Error float_codec] in *. unfold FloatCodec.Next, FloatCodec.Error in *.
    destruct (FloatCodec.fd_err d) eqn:E; [|done]. cbn. by rewrite E.
Defined.

#[export] Instance integer_codec_ok : ValueCodecOk integer_codec.
Proof.
  refine {| vc_ok := fun vs : list Z => Forall is_i64 vs /\ Z.of_nat (length vs) < 2 ^ 61;
            vc_dec_ok := fun d : @vc_Decoder _ integer_codec => length (IntStream.id_values d) = 240%nat |}.
  - done.
  - cbn. tauto.
  - intros e d vs _ [Hv Hl] Hd. destruct (IntStream.IntegerEncoder_decodes d vs Hd Hv Hl) as (bs & E & Ed).
    cbn [vc_Bytes vc_Flush vc_Write vc_Reset integer_codec]. unfold id.
    change (fold_left IntStream.Write vs (IntStream.Reset e)) with (IntStream.WriteAll IntStream.NewIntegerEncoder vs).
    rewrite E. eexists _, _, _. split; [reflexivity|]. split; [reflexivity|]. by rewrite int_vc_drain.
  - apply int_sticky.
Defined.

#[export] Instance unsigned_codec_ok : ValueCodecOk unsigned_codec.
Proof.
  refine {| vc_ok := fun vs : list Z => Forall is_u64 vs /\ Z.of_nat (length vs) < 2 ^ 61;
            vc_dec_ok := fun d : @vc_Decoder _ unsigned_codec => length (IntStream.id_values d) = 240%nat |}.
  - done.
  - cbn. tauto.
  - intros e d vs _ [Hv Hl] Hd.
    destruct (IntStream.IntegerEncoder_decodes d (i64 <$> vs) Hd) as (bs & E & Ed);
      [apply Forall_fmap, Forall_true; intros; apply i64_range|by rewrite length_fmap|].
    assert (Ew : fold_left (fun e v => IntStream.Write e (i64 v)) vs (IntStream.Reset e)
                 = IntStream.WriteAll IntStream.NewIntegerEncoder (i64 <$> vs)).
    { change (IntStream.Reset e) with IntStream.NewIntegerEncoder. clear. generalize IntStream.NewIntegerEncoder.
      induction vs as [|v vs IH]; intros e; [done|]. cbn [fold_left]. apply IH. }
    eexists bs, _, _. split; [cbn; unfold id; etransitivity; [apply (f_equal (fun x => obind (IntStream.Bytes x) (fun bs => Ret (bs, x)))); exact Ew|]; cbn beta; rewrite E; reflexivity|]. split; [reflexivity|].
    rewrite unsigned_vc_drain. rewrite length_fmap in Ed. rewrite Ed. cbn [obind]. by rewrite u64_i64_list.
  - apply int_sticky.
Defined.

#[export] Instance boolean_codec_ok : ValueCodecOk boolean_codec.
Proof.
  refine {| vc_ok := fun vs : list bool => Z.of_nat (length vs) < 2 ^ 63;
            vc_dec_ok := fun d : @vc_Decoder _ boolean_codec => BoolCodec.bd_err d = None |}.
  - done.
  - cbn. tauto.
  - intros e d vs _ Hl Hd. destruct (BoolCodec.bool_Bytes_decodes e vs [] Hl) as (bs & e' & E & Hne & Edec).
    cbn [vc_Bytes vc_Flush vc_Write vc_Reset boolean_codec]. unfold id.
    change (fold_left BoolCodec.Write vs (BoolCodec.Reset e)) with (BoolCodec.WriteAll (BoolCodec.Reset e) vs).
    rewrite E. eexists _, _, _. split; [reflexivity|]. split; [reflexivity|]. rewrite bool_vc_drain.
    pose proof (BoolCodec.BooleanDecoder_agrees d bs [] Hd Hne) as Hg. by rewrite Edec in Hg.
  - intros d He. cbn [vc_Next vc_Error boolean_codec] in *. unfold BoolCodec.Next, BoolCodec.Error in *.
    destruct (BoolCodec.bd_err d) eqn:E; [|done]. cbn. by rewrite E.
Defined.

#[export] Instance string_codec_ok : ValueCodecOk string_codec.
Proof.
  refine {| vc_ok := fun ss : list (list Z) => StringCodec.block_size ss <= 4294967295 /\
              0 <= sn_MaxEncodedLen (Z.of_nat (length (StringCodec.strs_bytes ss)));
            vc_dec_ok := fun _ : @vc_Decoder _ string_codec => True |}.
  - done.
  - cbn. tauto.
  - intros e d ss _ [Hsz Hm] _.
    destruct (StringCodec.StringEncoder_layout e ss Hm) as (res & E & Hdec).
    destruct (StringCodec.strs_bytes_length ss Hsz) as [Hl Hs].
    assert (Hlim : Z.of_nat (length (StringCodec.strs_bytes ss)) < 2 ^ 62) by lia.
    pose proof (StringCodec.DecodeAll_block (fun _ => O) (Z.shiftl StringCodec.stringCompressedSnappy 4) res ss [] Hdec Hs Hlim) as Ed.
    pose proof (StringCodec.StringDecoder_agrees (fun _ => O) d (Z.shiftl StringCodec.stringCompressedSnappy 4 :: res) []) as Hg.
    rewrite Ed in Hg. destruct Hg as (d' & fuel & Es & Edr).
    { intros h bs data [= <- <-] E'. rewrite Hdec in E'. by injection E' as <-. }
    eexists _, _, d'. split; [|split; [exact Es|]].
    + cbn. unfold id. change (fold_left StringCodec.Write ss (StringCodec.Reset e)) with (StringCodec.WriteAll (StringCodec.Reset e) ss).
      rewrite E. reflexivity.
    + apply (vc_drain_fuel fuel). by rewrite string_vc_drain.
  - intros d He. cbn [vc_Next vc_Error string_codec] in *. unfold StringCodec.Next, StringCodec.Error in *.
    destruct (StringCodec.sd_err d) eqn:E; [|done]. cbn. by rewrite E.
Defined.
End Codecs.

(** ** Blocks of arrays

    What the array functions use of a batch codec: the encoder is called with
    a nil buffer, the decoder with the destination of the caller. *)
Class ArrayCodec (V : Type) := {
  ac_block : Z;
  ac_dst : Type;
  ac_EncodeAll : list V -> outcome (list Z);
  ac_DecodeAll : list Z -> ac_dst -> outcome (list V) }.

Class ArrayCodecOk {V : Type} (C : ArrayCodec V) := {
  ac_ok : list V -> Prop;
  ac_codec : forall vs dst, vs <> [] -> ac_ok vs ->
    exists bs, ac_EncodeAll vs = Ret bs /\ ac_DecodeAll bs dst = Ret vs }.

Section Arrays.
Context {V : Type} {C : ArrayCodec V}.

(** [EncodeIntegerArrayBlock] and its like. *)
Definition EncodeArrayBlock (a : Arr V) (b : slice) : outcome slice :=
  if (Len (Some a) =? 0)%nat then Ret (Slice [] 0)
  else
    let! vb := ac_EncodeAll (Vals a) in
    let! tb := TimeCodec.TimeArrayEncodeAll (Timestamps a) (Slice [] 0) in
    Ret (packBlock b ac_block (s_bytes tb) vb).

(** [DecodeIntegerArrayBlock] and its like; [a] is left half decoded when the
    values fail to decode. *)
Definition DecodeArrayBlock (block : list Z) (ts : slice) (vs : ac_dst) : outcome (Arr V) :=
  let! blockType := or_panic (head block) in
  if negb (blockType =? ac_block) then Fail "invalid block type"
  else
    let! (tb, vb) := unpackBlock (drop 1 block) in
    let! ts := TimeCodec.TimeArrayDecodeAll tb ts in
    let! vs := ac_DecodeAll vb vs in
    Ret (MkArr ts vs).

Context {CO : ArrayCodecOk C}.

(** An array of timestamps and values encoded as a block into any buffer
    is decoded to the same array, whatever the destination slices hold.
    Proved once for every batch codec that keeps the contract of the
    interface. *)
Theorem array_block_roundtrip (a : Arr V) (b ts : slice) (vs : ac_dst) :
  Timestamps a <> [] -> Vals a <> [] -> Forall is_i64 (Timestamps a) -> Z.of_nat (length (Timestamps a)) < 2 ^ 58 ->
  ac_ok (Vals a) ->
  exists out, EncodeArrayBlock a b = Ret out /\ DecodeArrayBlock (s_bytes out) ts vs = Ret a.
Proof.
  intros Nt Nv Ht Hl Hok. destruct a as [[|t tl] vals]; [done|]. cbn [Timestamps Vals] in *.
  destruct (ac_codec vals vs Nv Hok) as (vb & Ev & Dv).
  destruct (TimeCodec.TimeArray_decodes (t :: tl) (Slice [] 0) ts Ht ltac:(lia)) as (tb & Et & Dt).
  pose proof (TimeCodec.TimeArrayEncodeAll_size t tl (Slice [] 0) tb Et) as Hsz. cbn [length] in Hl.
  unfold EncodeArrayBlock. cbn [Len Timestamps Vals length Nat.eqb]. rewrite Ev. cbn [obind]. rewrite Et. cbn [obind].
  eexists. split; [reflexivity|]. unfold DecodeArrayBlock. rewrite packBlock_bytes. cbn [head or_panic obind].
  rewrite Z.eqb_refl. cbn [negb drop]. rewrite drop_0, unpackBlock_packed by lia. cbn [obind]. rewrite Dt. cbn [obind].
  by rewrite Dv.
Qed.
End Arrays.

Definition FloatArrayCodec : ArrayCodec Z := {|
  ac_block := BlockFloat64;
  ac_dst := unit;
  ac_EncodeAll := FloatBatch.FloatArrayEncodeAll;
  ac_DecodeAll := fun b _ => FloatBatch.FloatArrayDecodeAll b |}.

Definition IntegerArrayCodec : ArrayCodec Z := {|
  ac_block := BlockInteger;
  ac_dst := slice;
  ac_EncodeAll := fun vs => let! out := IntCodec.IntegerArrayEncodeAll vs (Slice [] 0) in Ret (s_bytes out);
  ac_DecodeAll := IntCodec.IntegerArrayDecodeAll |}.

Definition UnsignedArrayCodec : ArrayCodec Z := {|
  ac_block := BlockUnsigned;
  ac_dst := slice;
  ac_EncodeAll := fun vs => let! out := IntCodec.UnsignedArrayEncodeAll vs (Slice [] 0) in Ret (s_bytes out);
  ac_DecodeAll := IntCodec.UnsignedArrayDecodeAll |}.

Definition BooleanArrayCodec : ArrayCodec bool := {|
  ac_block := BlockBoolean;
  ac_dst := list bool;
  ac_EncodeAll := fun vs => let! out := BoolCodec.BooleanArrayEncodeAll vs (Slice [] 0) in Ret (s_bytes out);
  ac_DecodeAll := BoolCodec.BooleanArrayDecodeAll |}.

(** [slack] is the spare room the runtime leaves when a slice grows. *)
Definition StringArrayCodec `{N : Snappy} (slack : nat -> nat) : ArrayCodec (list Z) := {|
  ac_block := BlockString;
  ac_dst := list (list Z);
  ac_EncodeAll := fun vs => StringCodec.StringArrayEncodeAll vs [];
  ac_DecodeAll := StringCodec.StringArrayDecodeAll slack |}.

#[export] Instance FloatArrayCodec_ok : ArrayCodecOk FloatArrayCodec.
Proof.
  refine {| ac_ok := fun vs : list Z => Forall FloatBatch.real vs |}. intros vs dst _ Hv. exact (FloatBatch.FloatArray_decodes vs Hv).
Defined.

#[export] Instance IntegerArrayCodec_ok : ArrayCodecOk IntegerArrayCodec.
Proof.
  refine {| ac_ok := fun vs : list Z => Forall is_i64 vs /\ Z.of_nat (length vs) < 2 ^ 61 |}.
  intros vs dst _ [Hv Hl]. destruct (IntCodec.IntegerArray_decodes vs (Slice [] 0) dst Hv Hl) as (out & E & D); [cbn; lia|].
  exists (s_bytes out). cbn [ac_EncodeAll ac_DecodeAll IntegerArrayCodec]. by rewrite E.
Defined.

#[export] Instance UnsignedArrayCodec_ok : ArrayCodecOk UnsignedArrayCodec.
Proof.
  refine {| ac_ok := fun vs : list Z => Forall is_u64 vs /\ Z.of_nat (length vs) < 2 ^ 61 |}.
  intros vs dst _ [Hv Hl]. destruct (IntCodec.UnsignedArray_roundtrip vs (Slice [] 0) dst Hv Hl) as (out & E & D); [cbn; lia|].
  exists (s_bytes out). cbn [ac_EncodeAll ac_DecodeAll UnsignedArrayCodec]. by rewrite E.
Defined.

#[export] Instance BooleanArrayCodec_ok : ArrayCodecOk BooleanArrayCodec.
Proof.
  refine {| ac_ok := fun vs : list bool => Z.of_nat (length vs) < 2 ^ 56 |}.
  intros vs dst _ Hl. destruct (BoolCodec.BooleanArray_decodes vs (Slice [] 0) dst) as (out & E & D & _); [unfold slice_ok; cbn; lia|done|].
  exists (s_bytes out). cbn [ac_EncodeAll ac_DecodeAll BooleanArrayCodec]. by rewrite E.
Defined.

#[export] Instance StringArrayCodec_ok `{N : Snappy} {NO : SnappyOk N} slack : ArrayCodecOk (StringArrayCodec slack).
Proof.
  refine {| ac_ok := fun vs : list (list Z) => StringCodec.block_size vs <= 4294967295 /\
              0 <= sn_MaxEncodedLen (StringCodec.block_size vs) |}.
  intros vs dst Hne [Hb Hm]. pose proof (StringCodec.StringArray_decodes slack vs [] dst Hne ltac:(lia)) as H.
  rewrite (proj2 (Z.ltb_ge _ _) Hb), (proj2 (Z.ltb_ge _ _) Hm) in H. exact H.
Defined.

(** ** Blocks of any type *)

Section Dispatch.
Context `{J : JwStream} {JO : JwStreamOk J} `{J8 : JwSimple8b} {JO8 : JwSimple8bOk J8}
  `{N : Snappy} {NO : SnappyOk N} `{W : BitWriter} {WO : BitWriterOk W}.

(** The encoders and decoders taken from the pools. *)
Record encoders := MkEncoders {
  p_time : TimeStream.encoder;
  p_float : FloatCodec.FloatEncoder;
  p_integer : IntStream.IntegerEncoder;
  p_boolean : BoolCodec.BooleanEncoder;
  p_string : StringCodec.StringEncoder }.

Record decoders := MkDecoders {
  q_time : TimeStream.TimeDecoder;
  q_float : FloatCodec.FloatDecoder;
  q_integer : IntStream.IntegerDecoder;
  q_boolean : BoolCodec.BooleanDecoder;
  q_string : StringCodec.StringDecoder }.

(** The first value selects the block type; the type assertions on the others
    panic when they differ. *)
Definition Encode (a : list Value) (buf : slice) (p : encoders) : outcome slice :=
  match a with
  | [] => Panic
  | VFloat _ :: _ => encodeBlockUsing (C := float_codec) buf a (p_time p) (p_float p)
  | VInteger _ :: _ => encodeBlockUsing (C := integer_codec) buf a (p_time p) (p_integer p)
  | VUnsigned _ :: _ => encodeBlockUsing (C := unsigned_codec) buf a (p_time p) (p_integer p)
  | VBoolean _ :: _ => encodeBlockUsing (C := boolean_codec) buf a (p_time p) (p_boolean p)
  | VString _ :: _ => encodeBlockUsing (C := string_codec) buf a (p_time p) (p_string p)
  | VEmpty :: _ => Fail "unsupported value type"
  end.

(** The type a slice of values maps to, by its first value. *)
Inductive DataType := Unknown | Float | Integer | Unsigned | Boolean | String.
Definition InfluxQLType (a : list Value) : outcome DataType :=
  match a with
  | [] => Fail "no values to infer type"
  | VFloat _ :: _ => Ret Float
  | VInteger _ :: _ => Ret Integer
  | VUnsigned _ :: _ => Ret Unsigned
  | VBoolean _ :: _ => Ret Boolean
  | VString _ :: _ => Ret String
  | VEmpty :: _ => Fail "unsupported value type"
  end.

(** The decoded values boxed, with the error reported with them. *)
Definition boxed {V} {C : ValueCodec V} (o : outcome (list (TValue V) * option string * TimeStream.TimeDecoder * vc_Decoder))
  : outcome (list Value * option string) :=
  let! (((vals, err), _), _) := o in Ret (vc_box <$> vals, err).

Definition DecodeBlock (block : list Z) (q : decoders) : outcome (list Value * option string) :=
  if (length block <=? encodedBlockHeaderSize)%nat then Fail "decode of short block"
  else
    match BlockType block with
    | Fail _ => Fail "error decoding block type"
    | Panic => Panic
    | Ret t =>
      if t =? BlockFloat64 then boxed (decodeTypedBlock (C := float_codec) block (q_time q) (q_float q))
      else if t =? BlockInteger then boxed (decodeTypedBlock (C := integer_codec) block (q_time q) (q_integer q))
      else if t =? BlockUnsigned then boxed (decodeTypedBlock (C := unsigned_codec) block (q_time q) (q_integer q))
      else if t =? BlockBoolean then boxed (decodeTypedBlock (C := boolean_codec) block (q_time q) (q_boolean q))
      else if t =? BlockString then boxed (decodeTypedBlock (C := string_codec) block (q_time q) (q_string q))
      else Fail "unknown block type"
    end.

(** A series of values of one type within the limits of its codec. *)
Definition series_of {V} (C : ValueCodec V) {CO : ValueCodecOk C} (a : list Value) : Prop :=
  exists vals : list (TValue V), a = vc_box <$> vals /\ vals <> [] /\ Forall is_i64 (unixnano <$> vals) /\
    Z.of_nat (length vals) < 2 ^ 58 /\ vc_ok (value <$> vals).
Definition series (a : list Value) : Prop :=
  series_of float_codec a \/ series_of integer_codec a \/ series_of unsigned_codec a \/ series_of boolean_codec a \/
  series_of string_codec a.

(** Decoders of the pools that have not failed. *)
Definition decoders_ok (q : decoders) : Prop :=
  jws_dec_ok (TimeStream.td_dec (q_time q)) /\ length (IntStream.id_values (q_integer q)) = 240%nat /\
  BoolCodec.bd_err (q_boolean q) = None.

Lemma dispatch_run {V} (C : ValueCodec V) {CO : ValueCodecOk C} a buf tenc tenc0 venc tdec vdec :
  series_of C a -> TimeStream.Reset tenc = Ret tenc0 -> jws_dec_ok (TimeStream.td_dec tdec) -> vc_dec_ok vdec ->
  exists b, encodeBlockUsing buf a tenc venc = Ret b /\ boxed (decodeTypedBlock (s_bytes b) tdec vdec) = Ret (a, None) /\
    BlockType (s_bytes b) = Ret vc_block /\ (1 < length (s_bytes b))%nat /\ exists v a', a = vc_box v :: a'.
Proof.
  intros (vals & -> & Hne & Hts & Hl & Hok) Hr Htd Hvd.
  destruct (typed_run vals buf tenc tenc0 venc tdec vdec Hne Hts Hl Hok Hr Htd Hvd) as (b & td & vd & E1 & E2 & E3 & E4 & E5).
  exists b. split_and!; [done|by unfold boxed; rewrite E3|done| |].
  - unfold BlockCount, encodedBlockHeaderSize in E5. destruct (Nat.leb_spec (length (s_bytes b)) 1); [done|lia].
  - destruct vals as [|v vals]; [done|]. by exists v, (vc_box <$> vals).
Qed.

(** One codec of the two dispatches. *)
Ltac by_codec run :=
  let b := fresh "b" in let v := fresh "v" in let a' := fresh "a'" in
  let E1 := fresh in let E2 := fresh in let E3 := fresh in let E4 := fresh in let Ea := fresh in
  destruct run as (b & E1 & E2 & E3 & E4 & v & a' & Ea);
  exists b; split; [rewrite Ea in *; exact E1|]; split; [|by eexists];
  unfold DecodeBlock, encodedBlockHeaderSize; destruct (Nat.leb_spec (length (s_bytes b)) 1); [lia|]; rewrite E3; exact E2.

Lemma Encode_decodes (a : list Value) (buf : slice) (p : encoders) (q : decoders) tenc0 :
  series a -> TimeStream.Reset (p_time p) = Ret tenc0 -> decoders_ok q ->
  exists b, Encode a buf p = Ret b /\ DecodeBlock (s_bytes b) q = Ret (a, None) /\ exists t, BlockType (s_bytes b) = Ret t.
Proof.
  intros Ha Hr (Q1 & Q2 & Q3). destruct Ha as [Ha|[Ha|[Ha|[Ha|Ha]]]].
  - by_codec (dispatch_run float_codec a buf (p_time p) tenc0 (p_float p) (q_time q) (q_float q) Ha Hr Q1 I).
  - by_codec (dispatch_run integer_codec a buf (p_time p) tenc0 (p_integer p) (q_time q) (q_integer q) Ha Hr Q1 Q2).
  - by_codec (dispatch_run unsigned_codec a buf (p_time p) tenc0 (p_integer p) (q_time q) (q_integer q) Ha Hr Q1 Q2).
  - by_codec (dispatch_run boolean_codec a buf (p_time p) tenc0 (p_boolean p) (q_time q) (q_boolean q) Ha Hr Q1 Q3).
  - by_codec (dispatch_run string_codec a buf (p_time p) tenc0 (p_string p) (q_time q) (q_string q) Ha Hr Q1 I).
Qed.

(** C20. Encoding and decoding compose: a series of values of one type, with
    whatever encoders the pools hold, is encoded by [Encode] into a block that
    [DecodeBlock] turns back into the same values without error; the type
    byte of the block selects the decoder that matches the encoder. *)
Theorem Encode_DecodeBlock (a : list Value) (buf : slice) (p : encoders) (q : decoders) tenc0 :
  series a -> TimeStream.Reset (p_time p) = Ret tenc0 -> decoders_ok q ->
  exists b, Encode a buf p = Ret b /\ DecodeBlock (s_bytes b) q = Ret (a, None).
Proof.
  intros Ha Hr Hq. destruct (Encode_decodes a buf p q tenc0 Ha Hr Hq) as (b & E & D & _). by exists b.
Qed.
End Dispatch.

(** ** A boolean decoder in error *)

Lemma bool_error_set d e b :
  BoolCodec.bd_err d = Some e -> BoolCodec.bd_err (BoolCodec.SetBytes d b) <> None.
Proof.
  intros He. unfold BoolCodec.SetBytes. destruct b as [|h b]; [by rewrite He|]. destruct (uvarint b) as [c n].
  destruct (n <=? 0); cbn; by rewrite ?He.
Qed.

Lemma bool_error_loop `{J : JwStream} n : forall tdec vdec e,
  BoolCodec.bd_err vdec = Some e ->
  exists tdec', decode_loop (C := boolean_codec) n tdec vdec = Ret ([], tdec', vdec).
Proof.
  intros tdec vdec e He. destruct n as [|n]; [by eexists|]. cbn [decode_loop].
  destruct (TimeStream.Next tdec) as [td ok]. destruct ok; cbn [negb]; [|by eexists].
  cbn [vc_Next boolean_codec]. unfold BoolCodec.Next. rewrite He. cbn [negb]. by eexists.
Qed.

(** [BooleanDecoder.SetBytes] does not clear the error of an earlier
    block: once a pooled decoder has failed, whatever block it is given, well
    formed or not, [DecodeBooleanBlock] decodes no value, reports an error
    and returns the decoder to the pool still failed. *)
Theorem boolean_decoder_error_persists `{J : JwStream} (block : list Z) tdec vdec e vals err tdec' vdec' :
  BoolCodec.bd_err vdec = Some e ->
  decodeTypedBlock (C := boolean_codec) block tdec vdec = Ret (vals, err, tdec', vdec') ->
  vals = [] /\ err <> None /\ BoolCodec.bd_err vdec' <> None.
Proof.
  intros He. unfold decodeTypedBlock. destruct (head block); [|done]. cbn [or_panic obind]. destruct (negb _); [done|].
  destruct (unpackBlock _) as [[tb vb]|?|]; [|done..]. cbn [obind]. destruct (TimeStream.CountTimestamps tb) as [sz|?|]; [|done..].
  cbn [obind]. destruct (sz <? 0); [done|]. destruct (TimeStream.Init tdec tb) as [td|?|]; [|done..].
  cbn [obind vc_SetBytes boolean_codec]. pose proof (bool_error_set vdec e vb He) as Hs.
  destruct (BoolCodec.bd_err (BoolCodec.SetBytes vdec vb)) as [e'|] eqn:Ee; [|done].
  destruct (bool_error_loop (Z.to_nat sz) td (BoolCodec.SetBytes vdec vb) e' Ee) as (td2 & ->). cbn [obind].
  intros [= <- <- <- <-]. split; [done|]. cbn [vc_Error boolean_codec]. unfold BoolCodec.Error. rewrite Ee.
  split; [|done]. by destruct (TimeStream.Error td2).
Qed.

(** A block of one boolean whose count is missing, and a well-formed one. *)
Definition short_boolean_block : list Z := [2; 9; 0; 0; 0; 0; 0; 0; 0; 0; 7; 16].
Definition good_boolean_block : list Z := [2; 9; 0; 0; 0; 0; 0; 0; 0; 0; 7; 16; 1; 128].

Abbreviation decode_boolean block vdec :=
  (decodeTypedBlock (J := pkg_stream) (C := boolean_codec) block TimeStream.zeroTimeDecoder vdec).

Example good_boolean_block_decodes :
  match decode_boolean good_boolean_block BoolCodec.zeroBooleanDecoder with
  | Ret (vals, err, _, _) => vals = [MkValue 7 true] /\ err = None
  | _ => False
  end.
Proof. vm_compute. by split. Qed.

Example short_boolean_block_fails :
  match decode_boolean short_boolean_block BoolCodec.zeroBooleanDecoder with
  | Ret (vals, err, _, vdec) => vals = [] /\ vdec = BoolCodec.MkBooleanDecoder [] 0 0 (Some "BooleanDecoder: invalid count"%string)
  | _ => False
  end.
Proof. vm_compute. by split. Qed.

Lemma boolean_decoder_error_persists_witness :
  let vdec := BoolCodec.MkBooleanDecoder [] 0 0 (Some "BooleanDecoder: invalid count"%string) in
  match decode_boolean good_boolean_block vdec with
  | Ret (vals, err, _, vdec) => vals = [] /\ err <> None /\ BoolCodec.bd_err vdec <> None
  | _ => False
  end.
Proof.
  intros vdec. assert (Hr : match decode_boolean good_boolean_block vdec with Ret _ => true | _ => false end = true)
    by (vm_compute; reflexivity).
  destruct (decode_boolean good_boolean_block vdec) as [[[[vals err] td] vd]|?|] eqn:E; [|discriminate..].
  apply (boolean_decoder_error_persists (J := pkg_stream) good_boolean_block TimeStream.zeroTimeDecoder vdec
           "BooleanDecoder: invalid count" vals err td vd eq_refl E).
Defined.

Definition sample_series : list (TValue Z) := [MkValue 10 4; MkValue 20 4; MkValue 50 (-9)].

Lemma block_roundtrip_witness :
  exists b tdec' vdec',
    encodeValuesBlock (J := pkg_stream) (C := integer_codec) (Slice [7; 7] 2) sample_series TimeStream.NewTimeEncoder
      IntStream.NewIntegerEncoder = Ret b /\
    decodeTypedBlock (J := pkg_stream) (C := integer_codec) (s_bytes b) TimeStream.zeroTimeDecoder IntStream.zeroDecoder
      = Ret (sample_series, None, tdec', vdec') /\
    BlockCount (J := pkg_stream) (s_bytes b) = Ret 3.
Proof.
  destruct (block_roundtrip (JO := pkg_stream_ok) (CO := integer_codec_ok) sample_series (Slice [7; 7] 2)
    TimeStream.NewTimeEncoder TimeStream.NewTimeEncoder IntStream.NewIntegerEncoder TimeStream.zeroTimeDecoder IntStream.zeroDecoder)
    as (b & td & vd & E1 & _ & E2 & _ & E3).
  - discriminate.
  - repeat constructor; vm_compute; congruence.
  - vm_compute. reflexivity.
  - split; [repeat constructor; vm_compute; congruence|vm_compute; reflexivity].
  - reflexivity.
  - reflexivity.
  - reflexivity.
  - exists b, td, vd. exact (conj E1 (conj E2 E3)).
Defined.

Lemma array_block_roundtrip_witness :
  exists out, EncodeArrayBlock (C := BooleanArrayCodec) (MkArr [10; 25] [true; false]) (Slice [] 0) = Ret out /\
    DecodeArrayBlock (C := BooleanArrayCodec) (s_bytes out) (Slice [] 0) [] = Ret (MkArr [10; 25] [true; false]).
Proof.
  apply (array_block_roundtrip (CO := BooleanArrayCodec_ok) (MkArr [10; 25] [true; false]) (Slice [] 0) (Slice [] 0)).
  - discriminate.
  - discriminate.
  - repeat constructor; vm_compute; congruence.
  - vm_compute. reflexivity.
  - vm_compute. reflexivity.
Defined.

Definition sample_encoders : encoders (J := pkg_stream) (W := list_writer) :=
  MkEncoders TimeStream.NewTimeEncoder (FloatCodec.NewFloatEncoder (W := list_writer)) IntStream.NewIntegerEncoder
    BoolCodec.NewBooleanEncoder StringCodec.NewStringEncoder.
Definition sample_decoders : decoders (J := pkg_stream) :=
  MkDecoders TimeStream.zeroTimeDecoder FloatCodec.zeroFloatDecoder IntStream.zeroDecoder BoolCodec.zeroBooleanDecoder
    StringCodec.zeroStringDecoder.
Definition sample_values : list Value :=
  [VFloat (MkValue 10 4608308318706860032); VFloat (MkValue 20 0); VFloat (MkValue 21 4612811918334230528)].

Lemma sample_series_float : series (J8 := pkg_simple8b) (JO8 := pkg_simple8b_ok) (NO := store_snappy_ok) (WO := list_writer_ok) sample_values.
Proof.
  left. exists [MkValue 10 4608308318706860032; MkValue 20 0; MkValue 21 4612811918334230528]. split_and!.
  - reflexivity.
  - discriminate.
  - repeat constructor; vm_compute; congruence.
  - vm_compute. reflexivity.
  - repeat constructor; vm_compute; congruence.
Qed.

Lemma Encode_DecodeBlock_witness :
  exists b, Encode (J := pkg_stream) (J8 := pkg_simple8b) (N := store_snappy) (W := list_writer) sample_values (Slice [] 0) sample_encoders = Ret b /\
    DecodeBlock (J := pkg_stream) (J8 := pkg_simple8b) (N := store_snappy) (W := list_writer) (s_bytes b) sample_decoders = Ret (sample_values, None).
Proof.
  apply (Encode_DecodeBlock (JO := pkg_stream_ok) (JO8 := pkg_simple8b_ok) (NO := store_snappy_ok) (WO := list_writer_ok)
    sample_values (Slice [] 0) sample_encoders sample_decoders TimeStream.NewTimeEncoder).
  - exact sample_series_float.
  - reflexivity.
  - split; [reflexivity|]. split; reflexivity.
Defined.
End Block.
