(* ===== verification/Ring.v ===== *)
(** * tsdb/engine/tsm1: the hash ring of the cache

    Models [ring.go] and the entries of [cache.go]: an entry holds the values
    written for one key in the order they came, a partition maps keys to
    entries, and a ring spreads the keys over its partitions by their hash.
    The theorems show that a ring behaves as one map, so that the partitioning
    is invisible, and that splitting a ring divides its keys.  The hash
    function is [github.com/cespare/xxhash], a parameter; [Sum64String] is
    [Sum64] on the bytes of the string. *)
From S2P Require Import Prelude Values Block.
From stdpp Require Import gmap sorting.
Import Values.
#[global] Open Scope Z_scope.

Module Ring.

Abbreviation key := (list Z).

(** ** Entries *)

Definition valueTypeUndefined : Z := 0.
Definition valueTypeFloat64 : Z := 1.
Definition valueTypeInteger : Z := 2.
Definition valueTypeString : Z := 3.
Definition valueTypeBoolean : Z := 4.
Definition valueTypeUnsigned : Z := 5.

Definition valueType (v : Value) : Z :=
  match v with
  | VFloat _ => valueTypeFloat64
  | VInteger _ => valueTypeInteger
  | VString _ => valueTypeString
  | VBoolean _ => valueTypeBoolean
  | VUnsigned _ => valueTypeUnsigned
  | VEmpty => valueTypeUndefined
  end.

Definition ErrFieldTypeConflict : string := "field type conflict".

Record entry := MkEntry { e_values : list Value; e_vtype : Z }.

Definition newEntryValues (values : list Value) : outcome entry :=
  match values with
  | [] => Ret (MkEntry [] 0)
  | v :: _ =>
    let et := valueType v in
    if forallb (fun v => et =? valueType v) values then Ret (MkEntry values et)
    else Fail ErrFieldTypeConflict
  end.

Definition add (e : entry) (values : list Value) : outcome entry :=
  match values with
  | [] => Ret e
  | v :: _ =>
    if negb (e_vtype e =? 0) && negb (forallb (fun v => e_vtype e =? valueType v) values)
    then Fail ErrFieldTypeConflict
    else if (length (e_values e) =? 0)%nat then Ret (MkEntry values (valueType v))
    else Ret (MkEntry (e_values e ++ values) (e_vtype e))
  end.

Definition deduplicate (e : entry) : outcome entry :=
  if (length (e_values e) <=? 1)%nat then Ret e
  else let! vs := Deduplicate UnixNano (e_values e) in Ret (MkEntry vs (e_vtype e)).

Definition count (e : entry) : nat := length (e_values e).

Definition filter_range (e : entry) (min max : Z) : outcome entry :=
  let! vs := (if (1 <? length (e_values e))%nat then Deduplicate UnixNano (e_values e) else Ret (e_values e)) in
  let! vs := Exclude UnixNano vs min max in
  Ret (MkEntry vs (e_vtype e)).

Definition size (e : entry) : Z := Size Value_Size (e_values e).

Definition InfluxQLType (e : entry) : outcome Block.DataType := Block.InfluxQLType (e_values e).

(** ** Partitions *)

Abbreviation partition := (gmap key entry).

(** The new-key flag; an error leaves the partition as it was.  The check for
    the entry is repeated under the write lock, to the same effect. *)
Definition partition_write (p : partition) (k : key) (values : list Value) : outcome (bool * partition) :=
  match p !! k with
  | Some e => let! e := add e values in Ret (false, <[k := e]> p)
  | None => let! e := newEntryValues values in Ret (true, <[k := e]> p)
  end.

(** Entries without values are passed over. *)
Definition holding (p : list (key * entry)) : list (key * entry) := filter (fun x => count x.2 <> 0%nat) p.
Definition partition_keys (p : partition) : list key := (holding (map_to_list p)).*1.
Definition partition_count (p : partition) : nat := length (holding (map_to_list p)).

(** ** The ring *)

Definition partitions : Z := 16.

Record ring := MkRing { r_partitions : list partition }.

Definition newring (n : Z) : outcome ring :=
  if (n <=? 0) || (partitions <? n) then Fail "invalid number of partitions"
  else if negb (Z.land n (n - 1) =? 0) then Fail "not a power of two"
  else Ret (MkRing (replicate (Z.to_nat n) ∅)).

(** [bytes.Compare] and the order [bytesutil.Sort] sorts by. *)
Fixpoint Compare (a b : list Z) : comparison :=
  match a, b with
  | [], [] => Eq
  | [], _ :: _ => Lt
  | _ :: _, [] => Gt
  | x :: a, y :: b => match x ?= y with Eq => Compare a b | c => c end
  end.
Definition bytes_le (a b : list Z) : Prop := Compare a b <> Gt.
#[global] Instance bytes_le_dec : RelDecision bytes_le.
Proof. intros a b. unfold bytes_le. destruct (Compare a b); [left|left|right]; congruence. Defined.
Definition Sort (l : list key) : list key := merge_sort bytes_le l.

Lemma bytes_le_cons x a y b : bytes_le (x :: a) (y :: b) <-> x < y \/ x = y /\ bytes_le a b.
Proof. unfold bytes_le. cbn. destruct (Z.compare_spec x y); split; intros; try done; try lia; naive_solver lia. Qed.

#[local] Instance bytes_le_total : Total bytes_le.
Proof.
  intros a. induction a as [|x a IH]; intros [|y b]; [by left|by left|by right|]. rewrite !bytes_le_cons.
  destruct (Z.lt_trichotomy x y) as [?|[->|?]]; [auto| |auto]. destruct (IH b); auto.
Qed.

#[local] Instance bytes_le_trans : Transitive bytes_le.
Proof.
  intros a. induction a as [|x a IH]; intros [|y b] [|z c]; try done. rewrite !bytes_le_cons.
  intros [?|[-> Ha]] [?|[-> Hb]]; [left; lia..|]. right. split; [done|]. by eapply IH.
Qed.

Lemma Sort_sorted l : StronglySorted bytes_le (Sort l).
Proof. apply (StronglySorted_merge_sort bytes_le). Qed.

Section WithHash.
Context (Sum64 : list Z -> Z).

Definition slot (r : ring) (k : key) : nat := Z.to_nat (Sum64 k mod Z.of_nat (length (r_partitions r))).
Definition getPartition (r : ring) (k : key) : outcome partition := or_panic (r_partitions r !! slot r k).

(** The partition of a key replaced, as an update through its pointer. *)
Definition setPartition (r : ring) (k : key) (p : partition) : ring := MkRing (<[slot r k := p]> (r_partitions r)).

Definition reset (r : ring) : ring := MkRing ((fun _ => ∅) <$> r_partitions r).

Definition ring_entry (r : ring) (k : key) : outcome (option entry) :=
  let! p := getPartition r k in Ret (p !! k).

Definition write (r : ring) (k : key) (values : list Value) : outcome (bool * ring) :=
  let! p := getPartition r k in
  let! (isNew, p) := partition_write p k values in
  Ret (isNew, setPartition r k p).

Definition remove (r : ring) (k : key) : outcome ring :=
  let! p := getPartition r k in Ret (setPartition r k (delete k p)).

(** An entry of the map changed through its pointer. *)
Definition set_entry (r : ring) (k : key) (e : entry) : outcome ring :=
  let! p := getPartition r k in Ret (setPartition r k (<[k := e]> p)).

Definition keys (r : ring) (sorted : bool) : list key :=
  let ks := concat (partition_keys <$> r_partitions r) in
  if sorted then Sort ks else ks.

Definition ring_count (r : ring) : nat := sum_list (partition_count <$> r_partitions r).

(** [f] applied to every entry of a map, one after the other. *)
Fixpoint apply_entries (f : key -> entry -> outcome entry) (l : list (key * entry)) (p : partition) : outcome partition :=
  match l with
  | [] => Ret p
  | (k, e) :: l => let! e := f k e in apply_entries f l (<[k := e]> p)
  end.
Fixpoint apply_partitions (f : key -> entry -> outcome entry) (ps : list partition) : outcome (list partition) :=
  match ps with
  | [] => Ret []
  | p :: ps => let! p := apply_entries f (map_to_list p) p in let! ps := apply_partitions f ps in Ret (p :: ps)
  end.

(** For a function that changes the entry it is given and does not fail, the
    goroutines of the partitions work on disjoint entries. *)
Definition apply (f : key -> entry -> outcome entry) (r : ring) : outcome ring :=
  let! ps := apply_partitions f (r_partitions r) in Ret (MkRing ps).

(** [f] called on the entries that hold values, in the order of the maps,
    until it returns an error. *)
Fixpoint apply_calls {S} (f : S -> key -> entry -> outcome S) (l : list (key * entry)) (s : S) : outcome S :=
  match l with
  | [] => Ret s
  | (k, e) :: l => if (count e =? 0)%nat then apply_calls f l s else let! s := f s k e in apply_calls f l s
  end.
Definition applySerial {S} (f : S -> key -> entry -> outcome S) (r : ring) (s : S) : outcome S :=
  apply_calls f (concat (map_to_list <$> r_partitions r)) s.

(** [storers\[i%n\].partitions\[i\] = p] *)
Fixpoint split_loop (n : nat) (i : nat) (ps : list partition) (storers : list ring) : outcome (list ring) :=
  match ps with
  | [] => Ret storers
  | p :: ps =>
    let! r := or_panic (storers !! (i mod n)%nat) in
    if (i <? length (r_partitions r))%nat then
      split_loop n (S i) ps (<[(i mod n)%nat := MkRing (<[i := p]> (r_partitions r))]> storers)
    else Panic
  end.
Definition split (r : ring) (n : Z) : outcome (list ring) :=
  if n <=? 0 then Panic
  else
    match newring (Z.of_nat (length (r_partitions r))) with
    | Ret r0 => split_loop (Z.to_nat n) 0 (r_partitions r) (replicate (Z.to_nat n) r0)
    | _ => Panic
    end.

(** ** A ring as one map *)

(** The key-to-entry map the partitions make up together. *)
Definition contents (r : ring) : partition := ⋃ r_partitions r.

(** A ring as [newring] makes it, with every key in the partition of its hash. *)
Record ring_ok (r : ring) : Prop := {
  ok_size : exists r0, newring (Z.of_nat (length (r_partitions r))) = Ret r0;
  ok_placed : forall i p k, r_partitions r !! i = Some p -> is_Some (p !! k) -> slot r k = i }.

Lemma union_list_lookup (ps : list partition) i k :
  (forall j p, ps !! j = Some p -> is_Some (p !! k) -> j = i) -> (⋃ ps) !! k = ps !! i ≫= (fun p => p !! k).
Proof.
  revert i. induction ps as [|p ps IH]; intros i H; [done|]. change (⋃ (p :: ps)) with (p ∪ ⋃ ps). rewrite lookup_union.
  destruct i as [|i]; cbn.
  - rewrite (IH (length ps)).
    + rewrite lookup_ge_None_2 by lia. apply option_union_right_id.
    + intros j q Hj Hq. by specialize (H (S j) q Hj Hq).
  - destruct (p !! k) eqn:Ep; [by specialize (H 0%nat p eq_refl ltac:(by rewrite Ep))|].
    rewrite option_union_left_id. apply IH. intros j q Hj Hq. specialize (H (S j) q Hj Hq). lia.
Qed.

Lemma newring_ok n r0 : newring n = Ret r0 -> 0 < n <= 16 /\ r0 = MkRing (replicate (Z.to_nat n) ∅).
Proof.
  unfold newring, partitions. repeat zcase; cbn; try done; intros [= <-]; split; try done; lia.
Qed.

Lemma ring_length r : ring_ok r -> (0 < length (r_partitions r) <= 16)%nat.
Proof. intros [[r0 H] _]. apply newring_ok in H as [H _]. lia. Qed.

Lemma slot_lt r k : ring_ok r -> (slot r k < length (r_partitions r))%nat.
Proof. intros H%ring_length. unfold slot. pose proof (Z.mod_pos_bound (Sum64 k) (Z.of_nat (length (r_partitions r)))). lia. Qed.

Lemma getPartition_run r k :
  ring_ok r -> exists p, getPartition r k = Ret p /\ r_partitions r !! slot r k = Some p /\ contents r !! k = p !! k.
Proof.
  intros Hr. destruct (lookup_lt_is_Some_2 _ _ (slot_lt r k Hr)) as [p Hp]. exists p. unfold getPartition. rewrite Hp. cbn.
  split_and!; [done..|]. unfold contents. rewrite (union_list_lookup _ (slot r k)); [by rewrite Hp|].
  intros j q Hj Hq. symmetry. by eapply ok_placed.
Qed.

Lemma setPartition_run r k p p' :
  ring_ok r -> getPartition r k = Ret p -> (forall k', k' <> k -> p' !! k' = p !! k') ->
  ring_ok (setPartition r k p') /\
  forall k', contents (setPartition r k p') !! k' = if decide (k' = k) then p' !! k else contents r !! k'.
Proof.
  intros Hr Hg Hp. assert (Hs : forall k', slot (setPartition r k p') k' = slot r k') by (intros; unfold slot; cbn; by rewrite length_insert).
  destruct (getPartition_run r k Hr) as (q & Hg' & Hq & _). rewrite Hg in Hg'. injection Hg' as <-.
  assert (Hok : ring_ok (setPartition r k p')).
  { split; [cbn; rewrite length_insert; apply Hr|]. intros i x k' Hi Hx. rewrite Hs. cbn in Hi.
    apply list_lookup_insert_Some in Hi as [(<- & <- & _)|[_ Hi]]; [|by eapply ok_placed].
    destruct (decide (k' = k)) as [->|Hn]; [done|]. rewrite Hp in Hx by done. by eapply ok_placed. }
  split; [done|]. intros k'. destruct (getPartition_run _ k' Hok) as (x & _ & Hx & ->). rewrite Hs in Hx. cbn in Hx.
  apply list_lookup_insert_Some in Hx as [(E & -> & _)|[E Hx]].
  - case_decide as Hk; [by rewrite Hk|]. rewrite Hp by done. destruct (getPartition_run _ k' Hr) as (y & _ & Hy & ->).
    rewrite <- E, Hq in Hy. by injection Hy as ->.
  - case_decide as Hk; [by rewrite Hk in E|]. destruct (getPartition_run _ k' Hr) as (y & _ & Hy & ->).
    rewrite Hx in Hy. by injection Hy as ->.
Qed.

Lemma contents_insert r k p e :
  ring_ok r -> getPartition r k = Ret p ->
  ring_ok (setPartition r k (<[k := e]> p)) /\ contents (setPartition r k (<[k := e]> p)) = <[k := e]> (contents r).
Proof.
  intros Hr Hg. destruct (setPartition_run r k p (<[k := e]> p) Hr Hg) as [Hok Hc].
  { intros k' Hk. by rewrite lookup_insert_ne. }
  split; [done|]. apply map_eq. intros k'. rewrite Hc. case_decide as Hk.
  - subst. by rewrite !lookup_insert_eq.
  - by rewrite lookup_insert_ne.
Qed.

Lemma entry_run r k : ring_ok r -> ring_entry r k = Ret (contents r !! k).
Proof. intros Hr. unfold ring_entry. destruct (getPartition_run r k Hr) as (p & -> & _ & ->). done. Qed.

(** An operation on the ring and what it does to the map. *)
Definition same_write (o : outcome (bool * ring)) (m : outcome (bool * partition)) : Prop :=
  match m with
  | Ret (b, m) => exists r', o = Ret (b, r') /\ ring_ok r' /\ contents r' = m
  | Fail e => o = Fail e
  | Panic => False
  end.

Lemma write_run r k vs : ring_ok r -> same_write (write r k vs) (partition_write (contents r) k vs).
Proof.
  intros Hr. unfold write. destruct (getPartition_run r k Hr) as (p & Hg & _ & Hc). rewrite Hg. cbn [obind].
  unfold partition_write. rewrite Hc.
  destruct (p !! k) as [e|].
  - destruct (add e vs) as [e'|x|] eqn:E; cbn; [|done|].
    + eexists. split; [reflexivity|]. by apply contents_insert.
    + unfold add in E. destruct vs; [done|]. by repeat (destruct (_ && _) || destruct (_ =? _)%nat).
  - destruct (newEntryValues vs) as [e'|x|] eqn:E; cbn; [|done|].
    + eexists. split; [reflexivity|]. by apply contents_insert.
    + unfold newEntryValues in E. destruct vs; [done|]. by destruct (forallb _ _).
Qed.

Lemma set_entry_run r k e :
  ring_ok r -> exists r', set_entry r k e = Ret r' /\ ring_ok r' /\ contents r' = <[k := e]> (contents r).
Proof.
  intros Hr. unfold set_entry. destruct (getPartition_run r k Hr) as (p & Hg & _ & _). rewrite Hg. cbn.
  eexists. split; [reflexivity|]. by apply contents_insert.
Qed.

Lemma remove_run r k :
  ring_ok r -> exists r', remove r k = Ret r' /\ ring_ok r' /\ contents r' = delete k (contents r).
Proof.
  intros Hr. unfold remove. destruct (getPartition_run r k Hr) as (p & Hg & _ & _). rewrite Hg. cbn.
  eexists. split; [reflexivity|]. destruct (setPartition_run r k p (delete k p) Hr Hg) as [Hok Hc].
  { intros k' Hk. by rewrite lookup_delete_ne. }
  split; [done|]. apply map_eq. intros k'. rewrite Hc. case_decide as Hk.
  - subst. by rewrite !lookup_delete_eq.
  - by rewrite lookup_delete_ne.
Qed.

Lemma empty_ring_ok n r0 : newring n = Ret r0 -> ring_ok r0 /\ contents r0 = ∅.
Proof.
  intros H. pose proof (newring_ok _ _ H) as [Hn ->]. assert (Hok : ring_ok (MkRing (replicate (Z.to_nat n) ∅))).
  { split.
    - cbn. rewrite length_replicate, Z2Nat.id by lia. by eexists.
    - cbn. intros i p k [-> _]%lookup_replicate_1 [? Hx]. by rewrite lookup_empty in Hx. }
  split; [done|]. apply map_eq. intros k. destruct (getPartition_run _ k Hok) as (p & _ & Hp & ->). cbn in Hp.
  apply lookup_replicate_1 in Hp as [-> _]. by rewrite !lookup_empty.
Qed.

Lemma reset_run r : ring_ok r -> ring_ok (reset r) /\ contents (reset r) = ∅.
Proof.
  intros Hr. destruct (ok_size r Hr) as [r0 H]. pose proof (newring_ok _ _ H) as [Hn ->].
  replace (reset r) with (MkRing (replicate (Z.to_nat (Z.of_nat (length (r_partitions r)))) (∅ : partition))).
  - by eapply empty_ring_ok.
  - unfold reset. f_equal. rewrite Nat2Z.id. symmetry. by apply const_fmap.
Qed.

(** ** Enumeration *)

Definition entries (r : ring) : list (key * entry) := concat (map_to_list <$> r_partitions r).

Lemma entries_elem r k e : ring_ok r -> (k, e) ∈ entries r <-> contents r !! k = Some e.
Proof.
  intros Hr. unfold entries. rewrite list_elem_of_In, in_concat. split.
  - intros (l & Hl & Hx). apply list_elem_of_In, list_elem_of_fmap in Hl as (p & -> & Hp). apply list_elem_of_In, elem_of_map_to_list in Hx.
    apply list_elem_of_lookup_1 in Hp as [i Hi]. pose proof (ok_placed r Hr i p k Hi ltac:(by eexists)) as E.
    destruct (getPartition_run r k Hr) as (q & _ & Hq & ->). rewrite E, Hi in Hq. by injection Hq as <-.
  - destruct (getPartition_run r k Hr) as (q & _ & Hq & ->). intros Hx. exists (map_to_list q).
    split; apply list_elem_of_In; [apply list_elem_of_fmap_2; by eapply list_elem_of_lookup_2|by apply elem_of_map_to_list].
Qed.

Lemma entries_NoDup_list (ps : list partition) :
  (forall i j p q k, ps !! i = Some p -> ps !! j = Some q -> is_Some (p !! k) -> is_Some (q !! k) -> i = j) ->
  NoDup (concat (map_to_list <$> ps)).
Proof.
  induction ps as [|p ps IH]; intros H; [constructor|]. cbn. apply NoDup_app. split_and!.
  - apply NoDup_map_to_list.
  - intros [k e] Hp Hc. apply elem_of_map_to_list in Hp. apply list_elem_of_In, in_concat in Hc as (l & Hl & Hx).
    apply list_elem_of_In, list_elem_of_fmap in Hl as (q & -> & Hq). apply list_elem_of_In, elem_of_map_to_list in Hx.
    apply list_elem_of_lookup_1 in Hq as [j Hj].
    by specialize (H 0%nat (S j) p q k eq_refl Hj ltac:(by eexists) ltac:(by eexists)).
  - apply IH. intros i j p' q k Hi Hj Hp Hq. specialize (H (S i) (S j) p' q k Hi Hj Hp Hq). lia.
Qed.

Lemma entries_perm r : ring_ok r -> entries r ≡ₚ map_to_list (contents r).
Proof.
  intros Hr. apply NoDup_Permutation.
  - apply entries_NoDup_list. intros i j p q k Hi Hj Hp Hq.
    by rewrite <- (ok_placed r Hr i p k Hi Hp), <- (ok_placed r Hr j q k Hj Hq).
  - apply NoDup_map_to_list.
  - intros [k e]. by rewrite entries_elem, elem_of_map_to_list.
Qed.

Lemma keys_entries r : keys r false = (holding (entries r)).*1.
Proof.
  unfold keys, entries, holding. induction (r_partitions r) as [|p ps IH]; [done|]. cbn.
  by rewrite filter_app, fmap_app, IH.
Qed.

Lemma count_entries r : ring_count r = length (holding (entries r)).
Proof.
  unfold ring_count, entries, holding. induction (r_partitions r) as [|p ps IH]; [done|]. cbn.
  by rewrite filter_app, length_app, IH.
Qed.

(** A ring behaves as one map from keys to entries: looking up, writing
    with its type checks and its new-key flag, removing and resetting do to
    the map of all partitions what the same operation does to a single
    partition, the sorted keys are the keys of the entries that hold values,
    each once, and the count is their number; the hash, whatever it is, only
    decides where an entry lives. *)
Theorem ring_refines_map (r : ring) (k : key) (vs : list Value) :
  ring_ok r ->
  ring_entry r k = Ret (contents r !! k) /\
  same_write (write r k vs) (partition_write (contents r) k vs) /\
  (exists r', remove r k = Ret r' /\ ring_ok r' /\ contents r' = delete k (contents r)) /\
  (ring_ok (reset r) /\ contents (reset r) = ∅) /\
  (StronglySorted bytes_le (keys r true) /\ NoDup (keys r true) /\ ring_count r = length (keys r true) /\
   forall k, k ∈ keys r true <-> exists e, contents r !! k = Some e /\ e_values e <> []).
Proof.
  intros Hr. pose proof (merge_sort_Permutation bytes_le (keys r false)) as Hp. split_and!.
  - by apply entry_run.
  - by apply write_run.
  - by apply remove_run.
  - by apply reset_run.
  - by apply reset_run.
  - apply (StronglySorted_merge_sort bytes_le).
  - change (keys r true) with (merge_sort bytes_le (keys r false)). rewrite Hp, keys_entries. unfold holding.
    rewrite (entries_perm r Hr). apply (sublist_NoDup _ _ (NoDup_fst_map_to_list (contents r))), fmap_sublist, sublist_filter.
  - change (keys r true) with (merge_sort bytes_le (keys r false)). by rewrite Hp, count_entries, keys_entries, length_fmap.
  - intros k'. change (keys r true) with (merge_sort bytes_le (keys r false)). rewrite Hp, keys_entries, list_elem_of_fmap.
    unfold holding, count. split.
    + intros ([k0 e] & -> & [Hne He]%list_elem_of_filter). exists e. rewrite <- entries_elem by done. split; [done|].
      intros E. cbn in Hne. by rewrite E in Hne.
    + intros (e & He & Hne). exists (k', e). split; [done|]. apply list_elem_of_filter. split; [|by apply entries_elem].
      cbn. by destruct (e_values e).
Qed.

(** ** Changing all entries *)

Lemma apply_entries_run f g l p :
  (forall k e, f k e = Ret (g k e)) -> NoDup l.*1 ->
  exists p', apply_entries f l p = Ret p' /\
    forall k, p' !! k = match (list_to_map l : partition) !! k with Some e => Some (g k e) | None => p !! k end.
Proof.
  intros Hf. revert p. induction l as [|[k0 e0] l IH]; intros p Hl; [by exists p|]. cbn [apply_entries].
  apply NoDup_cons in Hl as [Hn Hl]. rewrite Hf. cbn [obind]. destruct (IH (<[k0 := g k0 e0]> p) Hl) as (p' & -> & Hp).
  exists p'. split; [done|]. intros k. rewrite Hp. cbn [list_to_map fst snd]. apply (not_elem_of_list_to_map (M := gmap key) l) in Hn. cbn in Hn.
  destruct (decide (k = k0)) as [->|Hk].
  - cbn. by rewrite Hn, !lookup_insert_eq.
  - cbn. by rewrite !lookup_insert_ne by done.
Qed.

Lemma apply_partitions_run f g ps :
  (forall k e, f k e = Ret (g k e)) ->
  exists ps', apply_partitions f ps = Ret ps' /\ length ps' = length ps /\
    forall i p', ps' !! i = Some p' -> exists p, ps !! i = Some p /\ forall k, p' !! k = g k <$> p !! k.
Proof.
  intros Hf. induction ps as [|p ps IH]; [by exists []|]. cbn [apply_partitions].
  destruct (apply_entries_run f g (map_to_list p) p Hf (NoDup_fst_map_to_list p)) as (p' & -> & Hp).
  destruct IH as (ps' & -> & Hl & Hps). cbn [obind]. exists (p' :: ps'). split_and!; [done|cbn; lia|].
  intros [|i] q Hq; [|by apply Hps]. injection Hq as <-. exists p. split; [done|]. intros k. rewrite Hp, list_to_map_to_list.
  by destruct (p !! k).
Qed.

Lemma apply_run f g r :
  (forall k e, f k e = Ret (g k e)) -> ring_ok r ->
  exists r', apply f r = Ret r' /\ ring_ok r' /\ forall k, contents r' !! k = g k <$> contents r !! k.
Proof.
  intros Hf Hr. unfold apply. destruct (apply_partitions_run f g (r_partitions r) Hf) as (ps' & -> & Hl & Hps). cbn [obind].
  assert (Hs : forall k, slot (MkRing ps') k = slot r k) by (intros k; unfold slot; cbn; by rewrite Hl).
  assert (Hok : ring_ok (MkRing ps')).
  { split; [cbn; rewrite Hl; apply Hr|]. cbn. intros i p k Hi Hk. rewrite Hs. destruct (Hps i p Hi) as (q & Hq & Hg).
    eapply ok_placed; [done..|]. rewrite Hg in Hk. by apply fmap_is_Some in Hk. }
  eexists. split_and!; [reflexivity|done|]. intros k. destruct (getPartition_run _ k Hok) as (p & _ & Hp & ->).
  cbn in Hp. destruct (Hps _ _ Hp) as (q & Hq & ->). rewrite Hs in Hq. destruct (getPartition_run _ k Hr) as (q' & _ & Hq' & ->).
  rewrite Hq in Hq'. by injection Hq' as ->.
Qed.

(** ** Splitting *)

(** What the storer [j] of [n] has after the partitions below [i]. *)
Definition shard (n j i : nat) (ps : list partition) : list partition :=
  imap (fun x p => if (x <? i)%nat && (x mod n =? j)%nat then p else ∅) ps.

Lemma shard_step n j i ps p :
  ps !! i = Some p ->
  shard n j (S i) ps = if (i mod n =? j)%nat then <[i := p]> (shard n j i ps) else shard n j i ps.
Proof.
  intros Hp. pose proof (lookup_lt_Some _ _ _ Hp). unfold shard. apply list_eq. intros x. rewrite list_lookup_imap.
  destruct (Nat.eqb_spec (i mod n) j) as [E|E].
  - destruct (decide (x = i)) as [->|Hx].
    + rewrite list_lookup_insert_eq by (by rewrite length_imap). rewrite Hp. cbn [fmap option_fmap option_map]. rewrite E, Nat.eqb_refl.
      by rewrite (proj2 (Nat.ltb_lt i (S i))) by lia.
    + rewrite list_lookup_insert_ne, list_lookup_imap by done. destruct (ps !! x); [|done]. cbn [fmap option_fmap option_map].
      by replace (x <? S i)%nat with (x <? i)%nat by (repeat ncase; lia || done).
  - rewrite list_lookup_imap. destruct (ps !! x) eqn:Ex; [|done]. cbn [fmap option_fmap option_map]. destruct (decide (x = i)) as [->|Hx].
    + by rewrite (proj2 (Nat.eqb_neq (i mod n) j) E), !andb_false_r.
    + by replace (x <? S i)%nat with (x <? i)%nat by (repeat ncase; lia || done).
Qed.

Lemma split_loop_run n ps rest i storers :
  (0 < n)%nat -> drop i ps = rest -> (forall j, (j < n)%nat -> storers !! j = Some (MkRing (shard n j i ps))) ->
  exists out, split_loop n i rest storers = Ret out /\
    length out = length storers /\ forall j, (j < n)%nat -> out !! j = Some (MkRing (shard n j (i + length rest) ps)).
Proof.
  intros Hn. revert i storers. induction rest as [|p rest IH]; intros i storers Hd Hs.
  { exists storers. rewrite Nat.add_0_r. done. }
  assert (Hi : ps !! i = Some p) by (rewrite <- (Nat.add_0_r i), <- lookup_drop; by rewrite Hd).
  pose proof (lookup_lt_Some _ _ _ Hi) as Hl. pose proof (Nat.mod_upper_bound i n ltac:(lia)) as Hm. cbn [split_loop].
  rewrite (Hs _ Hm). cbn [or_panic obind r_partitions]. unfold shard at 1. rewrite length_imap, (proj2 (Nat.ltb_lt _ _) Hl).
  edestruct (IH (S i)) as (out & Ho & Hlo & Hout); [| |exists out; split_and!; [exact Ho|by rewrite Hlo, length_insert|]].
  - replace (S i) with (i + 1)%nat by lia. by rewrite <- drop_drop, Hd.
  - intros j Hj. rewrite (shard_step n j i ps p Hi). destruct (Nat.eqb_spec (i mod n) j) as [<-|E].
    + rewrite list_lookup_insert_eq; [done|]. by eapply lookup_lt_Some, Hs.
    + rewrite list_lookup_insert_ne by done. by apply Hs.
  - intros j Hj. cbn [length]. rewrite Nat.add_succ_r, <- Nat.add_succ_l. by apply Hout.
Qed.

(** Splitting a ring into [n] storers divides its keys: every storer is
    itself a ring of the same shape, and each entry is found, unchanged, in
    exactly the storer its partition falls to, so that concurrent users of the
    storers see every entry once. *)
Theorem split_divides (r : ring) (n : Z) :
  ring_ok r -> 0 < n ->
  exists out, split r n = Ret out /\ length out = Z.to_nat n /\
    forall j s, out !! j = Some s -> ring_ok s /\
      forall k, contents s !! k = if (slot r k mod Z.to_nat n =? j)%nat then contents r !! k else None.
Proof.
  intros Hr Hn. unfold split. rewrite (proj2 (Z.leb_gt n 0)) by lia. destruct (ok_size r Hr) as [r0 H0]. rewrite H0.
  apply newring_ok in H0 as [Hb ->]. rewrite Nat2Z.id.
  edestruct (split_loop_run (Z.to_nat n) (r_partitions r) (r_partitions r) 0) as (out & -> & Hl & Hout); [lia|done| |].
  { intros j Hj. apply lookup_replicate. split; [|done]. f_equal. apply list_eq. intros x. unfold shard.
    rewrite list_lookup_imap. destruct (decide (x < length (r_partitions r))%nat) as [Hx|Hx].
    - rewrite (proj2 (lookup_replicate _ _ _ _) (conj eq_refl Hx)).
      destruct (lookup_lt_is_Some_2 _ _ Hx) as [p ->]. done.
    - rewrite !lookup_ge_None_2 by (rewrite ?length_replicate; lia). done. }
  rewrite length_replicate in Hl. exists out. split_and!; [done..|]. intros j s Hj.
  pose proof (lookup_lt_Some _ _ _ Hj) as Hjn. rewrite Hout in Hj by lia. injection Hj as <-. cbn [Nat.add].
  set (s := MkRing _). assert (Hs : forall k, slot s k = slot r k) by (intros k; unfold slot, s, shard; cbn; by rewrite length_imap).
  assert (Hat : forall i, r_partitions s !! i = (fun p => if (i mod Z.to_nat n =? j)%nat then p else ∅) <$> r_partitions r !! i).
  { intros i. unfold s, shard. cbn [r_partitions]. rewrite list_lookup_imap. destruct (r_partitions r !! i) eqn:Ei; [|done]. cbn [fmap option_fmap option_map].
    apply lookup_lt_Some in Ei. by rewrite (proj2 (Nat.ltb_lt _ _) Ei). }
  assert (Hok : ring_ok s).
  { split; [unfold s, shard; cbn; rewrite length_imap; apply Hr|]. intros i p k Hi Hk. rewrite Hs, Hat in *.
    apply fmap_Some in Hi as (q & Hq & ->). destruct (_ =? _)%nat; [by eapply ok_placed|].
    destruct Hk as [? Hk]. by rewrite lookup_empty in Hk. }
  split; [done|]. intros k. destruct (getPartition_run s k Hok) as (p & _ & Hp & ->).
  destruct (getPartition_run r k Hr) as (q & _ & Hq & ->). rewrite Hs, Hat, Hq in Hp. injection Hp as <-.
  by destruct (_ =? _)%nat.
Qed.

Lemma write_ok r k vs b r' : ring_ok r -> write r k vs = Ret (b, r') -> ring_ok r'.
Proof.
  intros Hr E. pose proof (write_run r k vs Hr) as H. rewrite E in H. destruct (partition_write _ _ _) as [[? ?]|?|]; [|done..].
  destruct H as (x & [= _ <-] & H & _). done.
Qed.
End WithHash.

(** Four partitions and two keys of one of them. *)
Definition sample_hash (k : key) : Z := fold_left Z.add k 0.
Definition sample_run : outcome ring :=
  let! r := newring 4 in
  let! (_, r) := write sample_hash r [1; 2] [VInteger (MkValue 10 1)] in
  let! (_, r) := write sample_hash r [7] [VFloat (MkValue 10 2); VFloat (MkValue 5 2)] in
  Ret r.
Definition sample_ring : ring := match sample_run with Ret r => r | _ => MkRing [] end.

Lemma sample_ring_ok : ring_ok sample_hash sample_ring.
Proof.
  unfold sample_ring, sample_run. destruct (newring 4) as [r0|?|] eqn:E0; [|vm_compute in E0; done..]. cbn [obind].
  apply (empty_ring_ok sample_hash) in E0 as H0. destruct H0 as [H0 _].
  destruct (write sample_hash r0 [1; 2] _) as [[b1 r1]|?|] eqn:E1; [|vm_compute in E0; injection E0 as <-; vm_compute in E1; done..].
  apply (write_ok _ _ _ _ _ _ H0) in E1 as H1. cbn [obind].
  destruct (write sample_hash r1 [7] _) as [[b2 r2]|?|] eqn:E2;
    [|vm_compute in E0; injection E0 as <-; vm_compute in E1; injection E1 as <- <-; vm_compute in E2; done..].
  by apply (write_ok _ _ _ _ _ _ H1) in E2.
Qed.

Lemma ring_refines_map_witness :
  ring_entry sample_hash sample_ring [7] = Ret (contents sample_ring !! [7]) /\
  keys sample_ring true = [[1; 2]; [7]].
Proof.
  split; [apply (ring_refines_map sample_hash sample_ring [7] [VFloat (MkValue 5 2)] sample_ring_ok)|vm_compute; reflexivity].
Defined.

Lemma split_divides_witness :
  exists out, split sample_ring 3 = Ret out /\ length out = 3%nat.
Proof.
  destruct (split_divides sample_hash sample_ring 3 sample_ring_ok ltac:(lia)) as (out & E & L & _). by exists out.
Defined.
End Ring.
