(* ===== verification/Cache.v ===== *)
(** * tsdb/engine/tsm1: the write cache

    Models [cache.go]: the in-memory store of values not yet written to TSM
    files, its size accounting in [uint64] counters, the snapshot that is kept
    while a flush is running, range deletion and reads that merge the snapshot
    with newer values.  The operations run one at a time, as the cache's mutex
    makes them; metrics are left out.  The theorems show that any sequence of
    operations implements an abstract cache of maps from times to values, that
    the size counter never wraps and bounds the bytes held, and that entries
    stay of one type. *)
From S2P Require Import Prelude Values Block Ring.
From stdpp Require Import gmap sorting.
Import Values.
Import Ring.
#[global] Open Scope Z_scope.

Module Cache.

Definition ringShards : Z := 16.
Definition ErrSnapshotInProgress : string := "snapshot in progress".
Definition ErrCacheMemorySizeLimitExceeded : string := "cache-max-memory-size exceeded".
Definition ErrUnknownFieldType : string := "unknown field type".

(** ** Stores *)

(** The two implementations of [storer]. *)
Inductive storer : Type :=
| emptyStore
| theRing (r : ring).

Section WithHash.
Context (Sum64 : list Z -> Z).

Definition store_entry (s : storer) (k : key) : outcome (option entry) :=
  match s with emptyStore => Ret None | theRing r => ring_entry Sum64 r k end.
Definition store_write (s : storer) (k : key) (values : list Value) : outcome (bool * storer) :=
  match s with
  | emptyStore => Ret (false, emptyStore)
  | theRing r => let! (isNew, r) := Ring.write Sum64 r k values in Ret (isNew, theRing r)
  end.
Definition store_remove (s : storer) (k : key) : outcome storer :=
  match s with emptyStore => Ret emptyStore | theRing r => let! r := Ring.remove Sum64 r k in Ret (theRing r) end.
Definition store_keys (s : storer) (sorted : bool) : list key :=
  match s with emptyStore => [] | theRing r => Ring.keys r sorted end.
Definition store_apply (f : key -> entry -> outcome entry) (s : storer) : outcome storer :=
  match s with emptyStore => Ret emptyStore | theRing r => let! r := Ring.apply f r in Ret (theRing r) end.
Definition store_applySerial {S} (f : S -> key -> entry -> outcome S) (s : storer) (x : S) : outcome S :=
  match s with emptyStore => Ret x | theRing r => Ring.applySerial f r x end.
Definition store_reset (s : storer) : storer :=
  match s with emptyStore => emptyStore | theRing r => theRing (Ring.reset r) end.
Definition store_split (s : storer) (n : Z) : outcome (list storer) :=
  match s with emptyStore => Ret [] | theRing r => let! rs := Ring.split r n in Ret (theRing <$> rs) end.
Definition store_count (s : storer) : nat :=
  match s with emptyStore => 0%nat | theRing r => Ring.ring_count r end.

(** An entry changed through the pointer [store_entry] returned. *)
Definition store_set (s : storer) (k : key) (e : entry) : outcome storer :=
  match s with emptyStore => Ret emptyStore | theRing r => let! r := Ring.set_entry Sum64 r k e in Ret (theRing r) end.

(** ** The cache *)

Inductive Cache : Type := MkCache {
  c_size : Z;
  c_snapshotSize : Z;
  c_store : storer;
  c_maxSize : Z;
  c_snapshot : option Cache;
  c_snapshotting : bool;
  c_snapshotAttempts : Z;
  c_lastWriteTime : Z;
  c_initialized : bool }.

(** [&Cache{store: s}] *)
Definition bare (s : storer) : Cache := MkCache 0 0 s 0 None false 0 0 false.
Definition NewCache (maxSize : Z) : Cache := MkCache 0 0 emptyStore maxSize None false 0 0 false.

(** Field updates. *)
Definition set_size (c : Cache) (n : Z) : Cache :=
  MkCache n (c_snapshotSize c) (c_store c) (c_maxSize c) (c_snapshot c) (c_snapshotting c) (c_snapshotAttempts c) (c_lastWriteTime c) (c_initialized c).
Definition set_snapshotSize (c : Cache) (n : Z) : Cache :=
  MkCache (c_size c) n (c_store c) (c_maxSize c) (c_snapshot c) (c_snapshotting c) (c_snapshotAttempts c) (c_lastWriteTime c) (c_initialized c).
Definition set_store (c : Cache) (s : storer) : Cache :=
  MkCache (c_size c) (c_snapshotSize c) s (c_maxSize c) (c_snapshot c) (c_snapshotting c) (c_snapshotAttempts c) (c_lastWriteTime c) (c_initialized c).
Definition set_snapshot (c : Cache) (s : option Cache) : Cache :=
  MkCache (c_size c) (c_snapshotSize c) (c_store c) (c_maxSize c) s (c_snapshotting c) (c_snapshotAttempts c) (c_lastWriteTime c) (c_initialized c).
Definition set_snapshotting (c : Cache) (b : bool) (attempts : Z) : Cache :=
  MkCache (c_size c) (c_snapshotSize c) (c_store c) (c_maxSize c) (c_snapshot c) b attempts (c_lastWriteTime c) (c_initialized c).
Definition set_lastWriteTime (c : Cache) (t : Z) : Cache :=
  MkCache (c_size c) (c_snapshotSize c) (c_store c) (c_maxSize c) (c_snapshot c) (c_snapshotting c) (c_snapshotAttempts c) t (c_initialized c).
Definition set_initialized (c : Cache) (b : bool) (s : storer) : Cache :=
  MkCache (c_size c) (c_snapshotSize c) s (c_maxSize c) (c_snapshot c) (c_snapshotting c) (c_snapshotAttempts c) (c_lastWriteTime c) b.
Definition SetMaxSize (c : Cache) (n : Z) : Cache :=
  MkCache (c_size c) (c_snapshotSize c) (c_store c) n (c_snapshot c) (c_snapshotting c) (c_snapshotAttempts c) (c_lastWriteTime c) (c_initialized c).

Definition init (c : Cache) : outcome Cache :=
  if c_initialized c then Ret c
  else match newring ringShards with Ret r => Ret (set_initialized c true (theRing r)) | _ => Panic end.

Definition Free (c : Cache) : Cache := if c_initialized c then set_initialized c false emptyStore else c.

(** [Cache.Size] *)
Definition TotalSize (c : Cache) : Z := u64 (c_size c + c_snapshotSize c).
Definition increaseSize (c : Cache) (delta : Z) : Cache := set_size c (u64 (c_size c + delta)).
(** [atomic.AddUint64(&c.size, ^(delta - 1))] *)
Definition decreaseSize (c : Cache) (delta : Z) : Cache :=
  set_size c (u64 (c_size c + (2 ^ 64 - 1 - u64 (delta - 1)))).

Definition values_size (vs : list Value) : Z := u64 (Size Value_Size vs).

(** The loop over the map of values, in the order the runtime visits it. *)
Fixpoint write_loop (values : list (key * list Value)) (c : Cache) (werr : option string) : outcome (Cache * option string) :=
  match values with
  | [] => Ret (c, werr)
  | (k, v) :: values =>
    match store_write (c_store c) k v with
    | Panic => Panic
    | Fail err => write_loop values (decreaseSize c (values_size v)) (Some err)
    | Ret (newKey, s) =>
      let c := set_store c s in
      write_loop values (if newKey then increaseSize c (Z.of_nat (length k)) else c) werr
    end
  end.

Definition WriteMulti (now : Z) (values : list (key * list Value)) (c : Cache) : outcome (Cache * option string) :=
  let! c := init c in
  let addedSize := fold_left (fun n x => u64 (n + values_size x.2)) values 0 in
  let limit := c_maxSize c in
  let n := u64 (TotalSize c + addedSize) in
  if (0 <? limit) && (limit <? n) then Ret (c, Some ErrCacheMemorySizeLimitExceeded)
  else
    let! (c, werr) := write_loop values (increaseSize c addedSize) None in
    Ret (set_lastWriteTime c now, werr).

(** The snapshot returned is the [c_snapshot] of the new state. *)
Definition Snapshot (c : Cache) : outcome (Cache * option string) :=
  let! c := init c in
  if c_snapshotting c then Ret (c, Some ErrSnapshotInProgress)
  else
    let c := set_snapshotting c true (c_snapshotAttempts c + 1) in
    let! snap := match c_snapshot c with
                 | Some s => Ret s
                 | None => let! r := newring ringShards in Ret (bare (theRing r))
                 end in
    if 0 <? TotalSize snap then Ret (set_snapshot c (Some snap), None)
    else
      let s := c_store c in
      let c := set_store c (c_store snap) in
      let snap := set_store snap s in
      let snapshotSize := TotalSize c in
      let snap := set_size snap snapshotSize in
      let c := set_snapshotSize c snapshotSize in
      let c := set_store c (store_reset (c_store c)) in
      let c := set_size c 0 in
      Ret (set_snapshot c (Some snap), None).

Definition Deduplicate (c : Cache) : outcome Cache :=
  let! s := store_apply (fun _ e => deduplicate e) (c_store c) in Ret (set_store c s).

Definition ClearSnapshot (success : bool) (c : Cache) : outcome Cache :=
  let! c := init c in
  let! snap := or_panic (c_snapshot c) in
  let snapStore := if success then store_reset (c_store snap) else c_store snap in
  let snap := set_store snap snapStore in
  if success then
    let c := set_snapshotting c false 0 in
    let c := set_snapshot c (Some (bare (c_store snap))) in
    Ret (set_snapshotSize c 0)
  else Ret (set_snapshotting (set_snapshot c (Some snap)) false (c_snapshotAttempts c)).

Definition Count (c : Cache) : nat := store_count (c_store c).
Definition Keys (c : Cache) : list key := store_keys (c_store c) true.

Fixpoint split_caches (n : nat) (i : nat) (storers : list storer) : outcome (list Cache) :=
  match n with
  | O => Ret []
  | S n => let! s := or_panic (storers !! i) in let! cs := split_caches n (S i) storers in Ret (bare s :: cs)
  end.
Definition Split (n : Z) (c : Cache) : outcome (list Cache) :=
  if n =? 1 then Ret [c]
  else if n <? 0 then Panic
  else let! storers := store_split (c_store c) n in split_caches (Z.to_nat n) 0 storers.

Definition snapshot_entry (c : Cache) (k : key) : outcome (option entry) :=
  match c_snapshot c with None => Ret None | Some s => store_entry (c_store s) k end.

Definition Type_ (k : key) (c : Cache) : outcome Block.DataType :=
  let! e := store_entry (c_store c) k in
  let! e := match e with None => snapshot_entry c k | Some e => Ret (Some e) end in
  match e with
  | None => Fail ErrUnknownFieldType
  | Some e =>
    match InfluxQLType e with
    | Ret Block.Unknown => Fail ErrUnknownFieldType
    | Ret t => Ret t
    | Fail _ => Fail ErrUnknownFieldType
    | Panic => Panic
    end
  end.

(** [e.deduplicate()] on an entry of the live store or of the snapshot. *)
Definition dedup_live (c : Cache) (k : key) (e : entry) : outcome (entry * Cache) :=
  let! e := deduplicate e in let! s := store_set (c_store c) k e in Ret (e, set_store c s).
Definition dedup_snapshot (c : Cache) (k : key) (e : entry) : outcome (entry * Cache) :=
  let! e := deduplicate e in
  let! snap := or_panic (c_snapshot c) in
  let! s := store_set (c_store snap) k e in Ret (e, set_snapshot c (Some (set_store snap s))).

(** [Cache.Values]; nil is the empty list. *)
Definition ReadValues (k : key) (c : Cache) : outcome (list Value * Cache) :=
  let! e := store_entry (c_store c) k in
  let! snapshotEntries := snapshot_entry c k in
  match e, snapshotEntries with
  | None, None => Ret ([], c)
  | _, _ =>
    let! (hot, c) := match e with
                     | None => Ret ([], c)
                     | Some e => let! (e, c) := dedup_live c k e in Ret (e_values e, c)
                     end in
    let! (old, c) := match snapshotEntries with
                     | None => Ret ([], c)
                     | Some e => let! (e, c) := dedup_snapshot c k e in Ret (e_values e, c)
                     end in
    if (length old + length hot =? 0)%nat then Ret ([], c)
    else let! vs := Values.Deduplicate UnixNano (old ++ hot) in Ret (vs, c)
  end.

Definition MinInt64 : Z := - 2 ^ 63.
Definition MaxInt64 : Z := 2 ^ 63 - 1.

(** The body of the loop of [DeleteRange] for one key. *)
Definition delete_key (k : key) (min max : Z) (c : Cache) : outcome Cache :=
  let! e := store_entry (c_store c) k in
  match e with
  | None => Ret c
  | Some e =>
    let origSize := u64 (size e) in
    let whole := u64 (origSize + Z.of_nat (length k)) in
    if (min =? MinInt64) && (max =? MaxInt64) then
      let c := decreaseSize c whole in
      let! s := store_remove (c_store c) k in Ret (set_store c s)
    else
      let! e := filter_range e min max in
      let! s := store_set (c_store c) k e in
      let c := set_store c s in
      if (count e =? 0)%nat then
        let! s := store_remove (c_store c) k in Ret (decreaseSize (set_store c s) whole)
      else Ret (decreaseSize c (u64 (origSize - u64 (size e))))
  end.
Fixpoint delete_loop (keys : list key) (min max : Z) (c : Cache) : outcome Cache :=
  match keys with
  | [] => Ret c
  | k :: keys => let! c := delete_key k min max c in delete_loop keys min max c
  end.
Definition DeleteRange (keys : list key) (min max : Z) (c : Cache) : outcome Cache :=
  let! c := init c in delete_loop keys min max c.
Definition Delete (keys : list key) (c : Cache) : outcome Cache := DeleteRange keys MinInt64 MaxInt64 c.

(** [Cache.values] *)
Definition sorted_values (k : key) (c : Cache) : outcome (list Value) :=
  let! e := store_entry (c_store c) k in Ret (match e with None => [] | Some e => e_values e end).

Definition ApplyEntryFn {S} (f : S -> key -> entry -> outcome S) (c : Cache) (s : S) : outcome S :=
  store_applySerial f (c_store c) s.
End WithHash.

(** ** Entries as maps from times to values *)

Abbreviation vmap := (values_map UnixNano).

(** An entry as the write path keeps it: values of one type, at least one. *)
Record entry_ok (e : entry) : Prop := {
  eo_nonempty : e_values e <> [];
  eo_vtype : e_vtype e <> 0;
  eo_types : Forall (fun v => valueType v = e_vtype e) (e_values e);
  eo_times : Forall (fun v => is_i64 (UnixNano v)) (e_values e) }.
Abbreviation entries_ok := (map_Forall (fun (_ : key) => entry_ok)).

(** The values of a write: at least one, none of them the empty value. *)
Definition write_ok (vs : list Value) : Prop :=
  vs <> [] /\ Forall (fun v => valueType v <> 0) vs /\ Forall (fun v => is_i64 (UnixNano v)) vs.

(** New values fit the values already there when all have one type. *)
Definition conforms (cur : gmap Z Value) (vs : list Value) : Prop :=
  exists t, Forall (fun v => valueType v = t) vs /\ map_Forall (fun _ v => valueType v = t) cur.

Definition view (m : gmap key entry) (k : key) : gmap Z Value :=
  match m !! k with Some e => vmap (e_values e) | None => ∅ end.

Lemma same_type_dec t vs : forallb (fun v => t =? valueType v) vs = true <-> Forall (fun v => valueType v = t) vs.
Proof.
  rewrite forallb_forall, Forall_forall. setoid_rewrite Z.eqb_eq. setoid_rewrite list_elem_of_In. naive_solver.
Qed.

Lemma vmap_types t vs : Forall (fun v => valueType v = t) vs -> map_Forall (fun _ v => valueType v = t) (vmap vs).
Proof. intros H k v Hv. apply values_map_time in Hv as [_ Hv]. rewrite Forall_forall in H. by apply H. Qed.

Lemma conforms_typed e vs : entry_ok e -> conforms (vmap (e_values e)) vs <-> Forall (fun v => valueType v = e_vtype e) vs.
Proof.
  intros [Hn _ Ht _]. split.
  - intros (t & Hvs & Hm). enough (e_vtype e = t) as -> by done. destruct (e_values e) as [|x l] eqn:El; [done|].
    destruct (vmap (x :: l) !! UnixNano x) as [y|] eqn:E.
    + rewrite <- (Hm _ _ E). apply values_map_time in E as [_ E]. rewrite Forall_forall in Ht. symmetry. by apply Ht.
    + apply values_map_None in E. by apply Forall_cons_1 in E as [? _].
  - intros H. exists (e_vtype e). split; [done|]. by apply vmap_types.
Qed.

Lemma newEntryValues_run vs :
  write_ok vs ->
  (conforms ∅ vs /\ exists e, newEntryValues vs = Ret e /\ entry_ok e /\ e_values e = vs) \/
  (~ conforms ∅ vs /\ newEntryValues vs = Fail ErrFieldTypeConflict).
Proof.
  intros (Hn & Hv & Htm). destruct vs as [|v vs]; [done|]. cbn [newEntryValues].
  destruct (forallb _ _) eqn:E.
  - left. apply same_type_dec in E. split; [by exists (valueType v)|]. eexists. split; [reflexivity|].
    split; [|done]. apply Forall_cons_1 in Hv as [Hv _]. by split.
  - right. split; [|done]. intros (t & Ht & _). apply not_true_iff_false in E. apply E, same_type_dec.
    by apply Forall_cons_1 in Ht as [<- ?]; constructor.
Qed.

Lemma add_run e vs :
  entry_ok e -> write_ok vs ->
  (conforms (vmap (e_values e)) vs /\ exists e', add e vs = Ret e' /\ entry_ok e' /\ e_values e' = e_values e ++ vs) \/
  (~ conforms (vmap (e_values e)) vs /\ add e vs = Fail ErrFieldTypeConflict).
Proof.
  intros He (Hn & Hv & Htm). rewrite (conforms_typed e vs He). destruct vs as [|v vs]; [done|]. cbn [add].
  destruct He as [Hne Hvt Ht Het]. rewrite (proj2 (Z.eqb_neq _ _) Hvt). cbn [negb andb].
  destruct (forallb _ _) eqn:E; cbn [negb].
  - left. apply same_type_dec in E. split; [done|]. destruct (Nat.eqb_spec (length (e_values e)) 0); [by destruct (e_values e)|].
    eexists. split; [reflexivity|]. split; [|done]. split; cbn; [by destruct (e_values e)|done|by apply Forall_app..].
  - right. split; [|done]. by rewrite <- same_type_dec, E.
Qed.

Lemma Forall_submseteq {A} (P : A -> Prop) l k : l ⊆+ k -> Forall P k -> Forall P l.
Proof. rewrite !Forall_forall. intros Hs H x Hx. by eapply H, elem_of_submseteq. Qed.

Lemma Forall_List_filter {A} (P : A -> Prop) p l : Forall P l -> Forall P (List.filter p l).
Proof. induction 1; cbn; [constructor|]. destruct (p x); [by constructor|done]. Qed.

(** Deduplication keeps the map and drops bytes at most. *)
Lemma deduplicate_run e :
  exists e', deduplicate e = Ret e' /\ StronglySorted (before UnixNano) (e_values e') /\ vmap (e_values e') = vmap (e_values e) /\
    size e' <= size e /\ (entry_ok e -> entry_ok e').
Proof.
  unfold deduplicate, size. destruct (Nat.leb_spec (length (e_values e)) 1) as [Hl|Hl].
  - exists e. split_and!; try done. destruct (e_values e) as [|x [|y l]]; [constructor|repeat constructor|cbn in Hl; lia].
  - destruct (Deduplicate_run UnixNano (e_values e)) as (vs & E & Hs & Hm & Hn). rewrite E. cbn [obind].
    apply Deduplicate_submseteq in E as Hsub. eexists. split_and!; [reflexivity|done..| |].
    + apply Size_submseteq; [apply Value_Size_nonneg|done].
    + intros [H1 H2 H3 H4]. split; [by apply Hn|done|by eapply Forall_submseteq..].
Qed.

Lemma filter_size (p : Value -> bool) vs : Size Value_Size (List.filter p vs) <= Size Value_Size vs.
Proof.
  induction vs as [|x vs IH]; [done|]. cbn [List.filter]. rewrite Size_cons. pose proof (Value_Size_nonneg x).
  destruct (p x); rewrite ?Size_cons; lia.
Qed.

(** The values outside a range. *)
Definition outside (min max : Z) (m : gmap Z Value) : gmap Z Value :=
  filter (fun e => negb ((min <=? e.1) && (e.1 <=? max)) = true) m.

Lemma filter_range_run e min max :
  exists e', filter_range e min max = Ret e' /\ vmap (e_values e') = outside min max (vmap (e_values e)) /\ size e' <= size e /\
    (entry_ok e -> e_values e' <> [] -> entry_ok e').
Proof.
  unfold filter_range. assert (exists e0, (let! vs := (if (1 <? length (e_values e))%nat then Values.Deduplicate UnixNano (e_values e)
      else Ret (e_values e)) in Ret (MkEntry vs (e_vtype e))) = Ret e0 /\ StronglySorted (before UnixNano) (e_values e0) /\
      vmap (e_values e0) = vmap (e_values e) /\ size e0 <= size e /\ (entry_ok e -> entry_ok e0)) as (e0 & E0 & Hs & Hm & Hsz & Hok).
  { destruct (deduplicate_run e) as (e0 & E0 & H). exists e0. split; [|done]. unfold deduplicate in E0.
    destruct (Nat.leb_spec (length (e_values e)) 1), (Nat.ltb_spec 1 (length (e_values e))); try lia; [|done].
    injection E0 as <-. by destruct e. }
  destruct (if (1 <? length (e_values e))%nat then _ else _) as [vs|?|]; try done. cbn [obind] in *. injection E0 as <-.
  cbn [e_values e_vtype size] in *. rewrite (Exclude_run _ vs) by done. cbn [obind]. eexists. split_and!; [reflexivity|..].
  - cbn [e_values]. unfold outside. rewrite <- Hm. apply (values_map_filter UnixNano (fun t => negb ((min <=? t) && (t <=? max)))).
  - unfold size in *. cbn [e_values] in *. etransitivity; [apply filter_size|done].
  - intros He Hne. destruct (Hok He) as [H1 H2 H3 H4]. by split; [done|done|apply Forall_List_filter..].
Qed.

(** ** The bytes of a map *)

Definition entry_bytes (k : key) (e : entry) : Z := Z.of_nat (length k) + size e.
Definition bytes (m : gmap key entry) : Z := map_fold (fun k e n => entry_bytes k e + n) 0 m.

Lemma size_nonneg e : 0 <= size e.
Proof.
  unfold size. induction (e_values e) as [|x l IH]; [done|]. rewrite Size_cons. pose proof (Value_Size_nonneg x). lia.
Qed.

Lemma bytes_insert m k e : m !! k = None -> bytes (<[k := e]> m) = entry_bytes k e + bytes m.
Proof. intros H. unfold bytes. apply (map_fold_insert_L (fun k e n => entry_bytes k e + n)); [intros; lia|done]. Qed.

Lemma bytes_delete m k e : m !! k = Some e -> bytes m = entry_bytes k e + bytes (delete k m).
Proof. intros H. rewrite <- (insert_delete_id m k e H) at 1. apply bytes_insert, lookup_delete_eq. Qed.

Lemma bytes_replace m k e e' : m !! k = Some e -> bytes (<[k := e']> m) = bytes m - size e + size e'.
Proof.
  intros H. rewrite <- insert_delete_eq, bytes_insert by apply lookup_delete_eq. rewrite (bytes_delete m k e H).
  unfold entry_bytes. lia.
Qed.

Lemma bytes_nonneg m : 0 <= bytes m.
Proof.
  unfold bytes. apply (map_fold_weak_ind (fun b _ => 0 <= b)); [lia|]. intros k e m' n _ Hn. unfold entry_bytes.
  pose proof (size_nonneg e). lia.
Qed.

Lemma typed_size v : valueType v <> 0 -> 8 <= Value_Size v.
Proof. destruct v; cbn; unfold StringValue_Size; try lia; done. Qed.

Lemma bytes_zero m : entries_ok m -> bytes m <= 0 -> m = ∅.
Proof.
  intros Hok Hb. apply map_empty. intros k. destruct (m !! k) as [e|] eqn:E; [|done]. exfalso.
  pose proof (bytes_nonneg (delete k m)). rewrite (bytes_delete m k e E) in Hb. destruct (Hok k e E) as [Hn Hv Ht _].
  unfold entry_bytes, size in Hb. destruct (e_values e) as [|x l] eqn:El; [done|]. rewrite Size_cons in Hb.
  apply Forall_cons_1 in Ht as [Hx _]. pose proof (typed_size x ltac:(congruence)).
  pose proof (size_nonneg (MkEntry l 0)) as Hl. unfold size in Hl. cbn [e_values] in Hl. lia.
Qed.

(** ** Stores and the maps they hold *)

Section Invariant.
Context (Sum64 : list Z -> Z).

Definition holds (s : storer) (m : gmap key entry) : Prop :=
  exists r, s = theRing r /\ ring_ok Sum64 r /\ contents r = m.

Lemma holds_entry s m k : holds s m -> store_entry Sum64 s k = Ret (m !! k).
Proof. intros (r & -> & Hr & <-). by apply entry_run. Qed.

Lemma holds_set s m k e : holds s m -> exists s', store_set Sum64 s k e = Ret s' /\ holds s' (<[k := e]> m).
Proof.
  intros (r & -> & Hr & <-). cbn. destruct (set_entry_run Sum64 r k e Hr) as (r' & -> & Hr' & Hc). eexists. split; [reflexivity|].
  by exists r'.
Qed.

Lemma holds_remove s m k : holds s m -> exists s', store_remove Sum64 s k = Ret s' /\ holds s' (delete k m).
Proof.
  intros (r & -> & Hr & <-). cbn. destruct (remove_run Sum64 r k Hr) as (r' & -> & Hr' & Hc). eexists. split; [reflexivity|].
  by exists r'.
Qed.

Lemma holds_reset s m : holds s m -> holds (store_reset s) ∅.
Proof. intros (r & -> & Hr & <-). destruct (reset_run Sum64 r Hr). by exists (Ring.reset r). Qed.

Lemma holds_new : exists r, newring ringShards = Ret r /\ holds (theRing r) ∅.
Proof.
  eexists. split; [reflexivity|]. eexists. split; [reflexivity|]. by apply (empty_ring_ok Sum64 ringShards).
Qed.

Lemma view_insert m k e : view (<[k := e]> m) k = vmap (e_values e).
Proof. unfold view. by rewrite lookup_insert_eq. Qed.
Lemma view_insert_ne m k k' e : k <> k' -> view (<[k := e]> m) k' = view m k'.
Proof. intros. unfold view. by rewrite lookup_insert_ne. Qed.
Lemma view_delete m k : view (delete k m) k = ∅.
Proof. unfold view. by rewrite lookup_delete_eq. Qed.
Lemma view_delete_ne m k k' : k <> k' -> view (delete k m) k' = view m k'.
Proof. intros. unfold view. by rewrite lookup_delete_ne. Qed.

(** One key of a write. *)
Lemma holds_write s m k vs :
  holds s m -> entries_ok m -> write_ok vs ->
  (conforms (view m k) vs /\ exists b s' m', store_write Sum64 s k vs = Ret (b, s') /\ holds s' m' /\ entries_ok m' /\
     bytes m' = bytes m + Size Value_Size vs + (if b then Z.of_nat (length k) else 0) /\
     view m' k = vmap vs ∪ view m k /\ forall k', k' <> k -> view m' k' = view m k') \/
  (~ conforms (view m k) vs /\ store_write Sum64 s k vs = Fail ErrFieldTypeConflict).
Proof.
  intros (r & -> & Hr & Hc) Hm Hvs. pose proof (write_run Sum64 r k vs Hr) as Hw. rewrite Hc in Hw. clear Hc.
  unfold partition_write in Hw. unfold view. cbn [store_write]. destruct (m !! k) as [e|] eqn:E.
  - destruct (add_run e vs (Hm k e E) Hvs) as [(Hcf & e' & Ea & He' & Hv)|[Hcf Ea]]; rewrite Ea in Hw; cbn in Hw.
    + left. split; [done|]. destruct Hw as (r' & -> & Hr' & Hc'). cbn. exists false, (theRing r'), (<[k := e']> m).
      split_and!; [done|by exists r'|by apply map_Forall_insert_2| | |].
      * rewrite (bytes_replace m k e e' E). unfold size. rewrite Hv, Size_app. lia.
      * rewrite lookup_insert_eq, Hv. apply values_map_app.
      * intros k' Hk. by rewrite lookup_insert_ne.
    + right. by rewrite Hw.
  - destruct (newEntryValues_run vs Hvs) as [(Hcf & e' & Ea & He' & Hv)|[Hcf Ea]]; rewrite Ea in Hw; cbn in Hw.
    + left. split; [done|]. destruct Hw as (r' & -> & Hr' & Hc'). cbn. exists true, (theRing r'), (<[k := e']> m).
      split_and!; [done|by exists r'|by apply map_Forall_insert_2| | |].
      * rewrite bytes_insert by done. unfold entry_bytes, size. rewrite Hv. lia.
      * rewrite lookup_insert_eq, Hv. by rewrite (right_id_L ∅ (∪)).
      * intros k' Hk. by rewrite lookup_insert_ne.
    + right. by rewrite Hw.
Qed.

(** ** The invariant *)

(** [live] and [snap] are the maps the two stores hold; [W] bounds the bytes
    written so far; [pending] says that a snapshot was taken and not cleared. *)
Record inv (W : Z) (c : Cache) (live snap : gmap key entry) (pending : bool) : Prop := {
  i_store : if c_initialized c then holds (c_store c) live else c_store c = emptyStore /\ live = ∅;
  i_snapshot : match c_snapshot c with
               | None => snap = ∅ /\ c_snapshotSize c = 0 /\ c_snapshotting c = false
               | Some s => holds (c_store s) snap /\ c_size s = c_snapshotSize c /\ c_snapshotSize s = 0
               end;
  i_pending : pending = false -> c_snapshotSize c = 0;
  i_live_bytes : bytes live <= c_size c;
  i_snap_bytes : bytes snap <= c_snapshotSize c;
  i_total : c_size c + c_snapshotSize c <= W;
  i_live_ok : entries_ok live;
  i_snap_ok : entries_ok snap }.

Lemma NewCache_inv maxSize : inv 0 (NewCache maxSize) ∅ ∅ false.
Proof. split; cbn; try done; apply map_Forall_empty. Qed.

Lemma inv_nonneg W c live snap p : inv W c live snap p -> 0 <= c_size c /\ 0 <= c_snapshotSize c.
Proof. intros [_ _ _ H1 H2 _ _ _]. pose proof (bytes_nonneg live). pose proof (bytes_nonneg snap). lia. Qed.

(** The fields an operation on the live store leaves alone. *)
Definition same_flags (c c' : Cache) : Prop :=
  c_snapshotting c' = c_snapshotting c /\ c_snapshot c' = c_snapshot c /\ c_maxSize c' = c_maxSize c.

(** [init] makes the store a ring and touches nothing else. *)
Lemma init_run W c live snap p :
  inv W c live snap p ->
  exists c', init c = Ret c' /\ inv W c' live snap p /\ c_initialized c' = true /\
    c' = set_initialized c true (c_store c').
Proof.
  intros Hi. unfold init. destruct (c_initialized c) eqn:E.
  - exists c. split_and!; [done..|]. destruct c; cbn in *. by rewrite E.
  - destruct holds_new as (r & -> & Hh). eexists. split; [reflexivity|]. split_and!; [|done..].
    destruct Hi as [H1 H2 H3 H4 H5 H6 H7 H8]. rewrite E in H1. destruct H1 as [_ ->]. split; cbn; done.
Qed.

Lemma increase_run c d : 0 <= c_size c + d < 2 ^ 64 -> increaseSize c d = set_size c (c_size c + d).
Proof. intros H. unfold increaseSize. f_equal. by apply u64_id. Qed.

Lemma decrease_run c d : 0 <= d <= c_size c -> c_size c < 2 ^ 64 -> decreaseSize c d = set_size c (c_size c - d).
Proof.
  intros H1 H2. unfold decreaseSize. f_equal. replace (2 ^ 64 - 1 - u64 (d - 1)) with (u64 (- d)).
  - rewrite u64_add_r. replace (c_size c + - d) with (c_size c - d) by lia. apply u64_id. unint. lia.
  - unint. destruct (Z.eq_dec d 0) as [->|]; [done|].
    rewrite (Z.mod_small (d - 1)) by lia. rewrite <- (Z.mod_add (- d) 1), Z.mod_small by lia. lia.
Qed.

(** ** Writing *)

Abbreviation batch := (list (key * list Value)).
Definition batch_ok (kvs : batch) : Prop := NoDup kvs.*1 /\ Forall (fun x => write_ok x.2) kvs.
Definition batch_size (kvs : batch) : Z := foldr (fun x n => Size Value_Size x.2 + n) 0 kvs.
(** Bytes a batch can add: its values and its keys. *)
Definition batch_weight (kvs : batch) : Z := foldr (fun x n => Size Value_Size x.2 + Z.of_nat (length x.1) + n) 0 kvs.

(** What a batch does to the values of each key: a key whose values do not
    conform keeps what it had. *)
Definition overlay (kvs : gmap key (list Value)) (l l' : key -> gmap Z Value) : Prop :=
  forall k, match kvs !! k with
            | None => l' k = l k
            | Some vs => conforms (l k) vs /\ l' k = vmap vs ∪ l k \/ ~ conforms (l k) vs /\ l' k = l k
            end.
Definition all_conform (kvs : gmap key (list Value)) (l : key -> gmap Z Value) : Prop :=
  map_Forall (fun k vs => conforms (l k) vs) kvs.

Lemma Size_nonneg vs : 0 <= Size Value_Size vs.
Proof. apply (size_nonneg (MkEntry vs 0)). Qed.

Lemma batch_size_nonneg kvs : 0 <= batch_size kvs <= batch_weight kvs.
Proof.
  unfold batch_size, batch_weight. induction kvs as [|[k vs] kvs IH]; cbn [foldr fst snd]; [lia|]. pose proof (Size_nonneg vs). lia.
Qed.

Lemma all_conform_ext kvs l l' :
  (forall k, is_Some (kvs !! k) -> l k = l' k) -> all_conform kvs l <-> all_conform kvs l'.
Proof.
  intros H. unfold all_conform. split; intros Ha k vs Hk; specialize (Ha k vs Hk); specialize (H k ltac:(by eexists)); cbn in *; congruence.
Qed.

Lemma write_loop_run W kvs c live werr :
  holds (c_store c) live -> entries_ok live -> batch_ok kvs -> W < 2 ^ 64 -> 0 <= c_snapshotSize c ->
  bytes live + batch_size kvs <= c_size c -> c_size c + c_snapshotSize c + (batch_weight kvs - batch_size kvs) <= W ->
  exists c' live' err, write_loop Sum64 kvs c werr = Ret (c', err) /\ holds (c_store c') live' /\ entries_ok live' /\
    bytes live' <= c_size c' /\ c_size c' + c_snapshotSize c' <= W /\ c' = set_size (set_store c (c_store c')) (c_size c') /\
    overlay (list_to_map kvs) (view live) (view live') /\
    (all_conform (list_to_map kvs) (view live) /\ err = werr \/
     ~ all_conform (list_to_map kvs) (view live) /\ err = Some ErrFieldTypeConflict).
Proof.
  intros Hh Hok Hb HW. revert c live werr Hh Hok. induction kvs as [|[k vs] kvs IH]; intros c live werr Hh Hok Hs Hlo Hhi.
  { exists c, live, werr. cbn in *. split_and!; [done..|lia|lia|by destruct c|by intros k; rewrite lookup_empty|].
    left. split; [apply map_Forall_empty|done]. }
  destruct Hb as [Hnd Hvs]. apply NoDup_cons in Hnd as [Hk Hnd]. apply Forall_cons_1 in Hvs as [Hv Hvs].
  specialize (IH (conj Hnd Hvs)). cbn [batch_size batch_weight foldr snd fst] in Hlo, Hhi. fold (batch_size kvs) in *.
  fold (batch_weight kvs) in *. pose proof (Size_nonneg vs). pose proof (batch_size_nonneg kvs). pose proof (bytes_nonneg live).
  pose proof (not_elem_of_list_to_map_1 (M := gmap key) kvs k Hk) as Hk'. cbn [fst] in *.
  cbn [write_loop]. destruct (holds_write _ _ k vs Hh Hok Hv) as [(Hcf & b & s' & m' & -> & Hh' & Hok' & Hby & Hvk & Hvo)|[Hcf ->]].
  - set (c1 := if b then _ else _). assert (Hc1 : c1 = set_size (set_store c s') (c_size c + if b then Z.of_nat (length k) else 0)).
    { unfold c1. destruct b; [rewrite increase_run; [done|cbn; lia]|]. destruct c; cbn. by rewrite Z.add_0_r. }
    rewrite Hc1. destruct (IH (set_size (set_store c s') (c_size c + if b then Z.of_nat (length k) else 0)) m' werr)
      as (c' & live' & err & E & P1 & P2 & P3 & P4 & P5 & P6 & P7); [done..|cbn|cbn|].
    { destruct b; lia. }
    { destruct b; lia. }
    exists c', live', err. split_and!; [done..|by rewrite P5| |].
    + intros k'. specialize (P6 k'). cbn [list_to_map foldr fst snd]. destruct (decide (k' = k)) as [->|Hne].
      * rewrite lookup_insert_eq. rewrite Hk' in P6. left. by rewrite P6.
      * rewrite lookup_insert_ne by done. by rewrite !Hvo in P6.
    + cbn [list_to_map foldr fst snd]. unfold all_conform in *. rewrite map_Forall_insert by done.
      pose proof (all_conform_ext (list_to_map kvs) (view m') (view live)) as Heq. unfold all_conform in Heq.
      rewrite Heq in P7; [tauto|]. intros k' [? Hx]. apply Hvo. intros ->. by rewrite Hk' in Hx.
  - assert (Hsz : values_size vs = Size Value_Size vs) by (apply u64_id; unint; lia). rewrite Hsz, decrease_run by lia.
    destruct (IH (set_size c (c_size c - Size Value_Size vs)) live (Some ErrFieldTypeConflict))
      as (c' & live' & err & E & P1 & P2 & P3 & P4 & P5 & P6 & P7); [done..|cbn; lia|cbn; lia|].
    exists c', live', err. split_and!; [done..|by rewrite P5| |].
    + intros k'. specialize (P6 k'). cbn [list_to_map foldr fst snd]. destruct (decide (k' = k)) as [->|Hne].
      * rewrite lookup_insert_eq. rewrite Hk' in P6. by right.
      * by rewrite lookup_insert_ne.
    + right. cbn [list_to_map foldr fst snd]. unfold all_conform in *. rewrite map_Forall_insert by done. tauto.
Qed.

Lemma added_size kvs n :
  0 <= n -> n + batch_size kvs < 2 ^ 64 ->
  fold_left (fun n x => u64 (n + values_size x.2)) kvs n = n + batch_size kvs.
Proof.
  revert n. induction kvs as [|[k vs] kvs IH]; intros n Hn Hb; cbn [fold_left batch_size foldr snd] in *; [lia|].
  fold (batch_size kvs) in *. pose proof (Size_nonneg vs). pose proof (batch_size_nonneg kvs).
  unfold values_size. rewrite u64_add_r, u64_id by (unint; lia). rewrite IH; lia.
Qed.

Lemma TotalSize_run W c live snap p : inv W c live snap p -> W < 2 ^ 64 -> TotalSize c = c_size c + c_snapshotSize c.
Proof. intros Hi HW. apply inv_nonneg in Hi as Hn. apply u64_id. destruct Hi. unint. lia. Qed.

(** What a write returns and leaves: nothing changes when the limit would be
    exceeded; otherwise every key takes its values or reports a conflict. *)
Lemma WriteMulti_run W now kvs c live snap p :
  inv W c live snap p -> batch_ok kvs -> W + batch_weight kvs < 2 ^ 64 ->
  exists c' live' err, WriteMulti Sum64 now kvs c = Ret (c', err) /\ inv (W + batch_weight kvs) c' live' snap p /\
    same_flags c c' /\
    (err = Some ErrCacheMemorySizeLimitExceeded /\ live' = live /\ 0 < c_maxSize c < c_size c + c_snapshotSize c + batch_size kvs \/
     ~ 0 < c_maxSize c < c_size c + c_snapshotSize c + batch_size kvs /\ overlay (list_to_map kvs) (view live) (view live') /\
     (all_conform (list_to_map kvs) (view live) /\ err = None \/
      ~ all_conform (list_to_map kvs) (view live) /\ err = Some ErrFieldTypeConflict)).
Proof.
  intros Hi Hb HW. pose proof (batch_size_nonneg kvs) as Hs. unfold WriteMulti.
  destruct (init_run W c live snap p Hi) as (c1 & -> & Hi1 & Hin & Ec). cbn [obind].
  assert (Hf : c_maxSize c1 = c_maxSize c /\ c_size c1 = c_size c /\ c_snapshotSize c1 = c_snapshotSize c /\ same_flags c c1)
    by (by rewrite Ec). destruct Hf as (Fm & Fs & Fss & Fb). clear Ec Hi. pose proof (inv_nonneg _ _ _ _ _ Hi1) as Hn.
  rewrite (TotalSize_run _ _ _ _ _ Hi1) by lia. destruct Hi1 as [I1 I2 I3 I4 I5 I6 I7 I8]. rewrite Hin in I1.
  rewrite (added_size kvs 0), Z.add_0_l by lia. rewrite (u64_id (_ + batch_size kvs)) by (unint; lia). rewrite Fm.
  destruct ((0 <? c_maxSize c) && (c_maxSize c <? c_size c1 + c_snapshotSize c1 + batch_size kvs)) eqn:Elim.
  - exists c1, live, (Some ErrCacheMemorySizeLimitExceeded). split_and!; [done| |done|].
    + split; try done; [by rewrite Hin|lia].
    + left. split_and!; try done; lia.
  - rewrite increase_run by lia.
    destruct (write_loop_run (W + batch_weight kvs) kvs (set_size c1 (c_size c1 + batch_size kvs)) live None)
      as (c' & live' & err & -> & P1 & P2 & P3 & P4 & P5 & P6 & P7); [done..|cbn; lia|cbn; lia|cbn; lia|]. cbn [obind].
    assert (Q : c_initialized c' = true /\ c_snapshot c' = c_snapshot c1 /\ c_snapshotSize c' = c_snapshotSize c1 /\ c_snapshotting c' = c_snapshotting c1 /\
      c_maxSize c' = c_maxSize c1) by (rewrite P5; cbn; by rewrite Hin). destruct Q as (Q1 & Q2 & Q3 & Q4 & Q5). clear P5.
    destruct Fb as (Fb1 & Fb2 & Fb3).
    exists (set_lastWriteTime c' now), live', err. split_and!; [done| |unfold same_flags; cbn; split_and!; congruence|right; split_and!; [lia|done..]].
    split; cbn [c_initialized c_store c_snapshot c_size c_snapshotSize c_snapshotting set_lastWriteTime]; try done.
    + by rewrite Q1.
    + by rewrite Q2, Q3, Q4.
    + by rewrite Q3.
    + by rewrite Q3.
Qed.

(** ** Snapshots *)

Lemma Snapshot_run W c live snap p :
  inv W c live snap p -> W < 2 ^ 64 ->
  exists c' live' snap' p' err, Snapshot c = Ret (c', err) /\ inv W c' live' snap' p' /\ c_snapshot c' <> None /\
    c_maxSize c' = c_maxSize c /\ c_snapshotting c' = true /\
    (c_snapshotting c = true /\ err = Some ErrSnapshotInProgress /\ live' = live /\ snap' = snap /\ p' = p \/
     c_snapshotting c = false /\ err = None /\ p' = true /\
       (snap = ∅ /\ snap' = live /\ live' = ∅ \/ p = true /\ live' = live /\ snap' = snap)).
Proof.
  intros Hi HW. unfold Snapshot. destruct (init_run W c live snap p Hi) as (c1 & -> & Hi1 & Hin & Ec). cbn [obind].
  assert (Fb : c_snapshotting c1 = c_snapshotting c) by (by rewrite Ec). rewrite Fb.
  assert (Fm : c_maxSize c1 = c_maxSize c) by (by rewrite Ec). clear Ec Hi.
  pose proof (inv_nonneg _ _ _ _ _ Hi1) as Hn. destruct Hi1 as [I1 I2 I3 I4 I5 I6 I7 I8]. rewrite Hin in I1.
  destruct (c_snapshotting c) eqn:Eb.
  { exists c1, live, snap, p, (Some ErrSnapshotInProgress). split_and!; [done| | |done|done|left; split_and!; done].
    - split; try done; by rewrite Hin.
    - intros En. rewrite En in I2. destruct I2 as (_ & _ & I2). congruence. }
  set (c2 := set_snapshotting c1 true _).
  assert (exists s, match c_snapshot c2 with Some s => Ret s | None => let! r := newring ringShards in Ret (bare (theRing r)) end = Ret s /\
    holds (c_store s) snap /\ c_size s = c_snapshotSize c1 /\ c_snapshotSize s = 0) as (s & -> & Hs & Hss & Hs0).
  { change (c_snapshot c2) with (c_snapshot c1). destruct (c_snapshot c1) as [s|]; [by exists s|]. destruct I2 as (-> & I2 & _). destruct holds_new as (r & -> & Hr).
    by exists (bare (theRing r)). }
  cbn [obind]. unfold TotalSize at 1. rewrite Hss, Hs0, Z.add_0_r, u64_id by (unint; lia).
  destruct (Z.ltb_spec 0 (c_snapshotSize c1)) as [Hpos|Hz].
  - eexists _, live, snap, true, None. split; [reflexivity|]. split_and!; [|done|done|done|].
    + split; cbn; try done. by rewrite Hin.
    + right. split_and!; try done. right. split_and!; try done. destruct p; [done|]. specialize (I3 eq_refl). lia.
  - assert (snap = ∅) as -> by (apply bytes_zero; [done|lia]).
    eexists _, ∅, live, true, None. split; [reflexivity|]. split_and!; [|done|done|done|].
    + assert (Hu : u64 (c_size c1 + c_snapshotSize c1) = c_size c1) by (rewrite u64_id; unint; lia).
      unfold TotalSize. cbn. rewrite Hu. split; cbn; try done; try lia.
      rewrite Hin. by apply holds_reset in Hs.
    + right. split_and!; try done. by left.
Qed.

Lemma ClearSnapshot_run W b c live snap p :
  inv W c live snap p -> c_snapshot c <> None ->
  exists c', ClearSnapshot b c = Ret c' /\ c_snapshotting c' = false /\ c_snapshot c' <> None /\ c_maxSize c' = c_maxSize c /\
    inv W c' live (if b then ∅ else snap) (if b then false else p).
Proof.
  intros Hi Hsn. unfold ClearSnapshot. destruct (init_run W c live snap p Hi) as (c1 & -> & Hi1 & Hin & Ec). cbn [obind].
  assert (Fs : c_snapshot c1 = c_snapshot c) by (by rewrite Ec). assert (Fm : c_maxSize c1 = c_maxSize c) by (by rewrite Ec).
  clear Ec Hi. pose proof (inv_nonneg _ _ _ _ _ Hi1) as Hn.
  destruct Hi1 as [I1 I2 I3 I4 I5 I6 I7 I8]. rewrite Hin in I1. destruct (c_snapshot c1) as [s|]; [|congruence]. cbn [or_panic obind].
  destruct I2 as (Hs & Hss & Hs0). destruct b; eexists; (split_and!; [reflexivity|done|done|done|]); split; cbn; try done; try lia.
  - by rewrite Hin.
  - split_and!; try done. by apply holds_reset in Hs.
  - by rewrite Hin.
Qed.

(** ** Deletion *)

Lemma live_entry W c live snap p k : inv W c live snap p -> store_entry Sum64 (c_store c) k = Ret (live !! k).
Proof.
  intros [H _ _ _ _ _ _ _]. destruct (c_initialized c); [by apply holds_entry|]. destruct H as [-> ->]. cbn. by rewrite lookup_empty.
Qed.

Lemma snapshot_entry_run W c live snap p k : inv W c live snap p -> snapshot_entry Sum64 c k = Ret (snap !! k).
Proof.
  intros [_ H _ _ _ _ _ _]. unfold snapshot_entry. destruct (c_snapshot c); [by apply holds_entry, H|]. destruct H as [-> _]. by rewrite lookup_empty.
Qed.

(** A change of the live store and its size. *)
Lemma inv_live W c live snap p c' live' :
  inv W c live snap p -> c_initialized c' = true -> same_flags c c' -> c_snapshotSize c' = c_snapshotSize c ->
  holds (c_store c') live' -> bytes live' <= c_size c' <= c_size c -> entries_ok live' -> inv W c' live' snap p.
Proof.
  intros [I1 I2 I3 I4 I5 I6 I7 I8] Hin (F1 & F2 & F3) F4 Hh Hb Hok. split; try done; try lia.
  - by rewrite Hin.
  - by rewrite F2, F1, F4.
  - by rewrite F4.
Qed.

Lemma outside_empty min max : outside min max ∅ = ∅.
Proof. apply map_filter_empty. Qed.

Lemma outside_twice min max m : outside min max (outside min max m) = outside min max m.
Proof. unfold outside. rewrite map_filter_filter. apply map_filter_ext. naive_solver. Qed.

(** Every time is inside the range of all times. *)
Lemma outside_all vs : Forall (fun v => is_i64 (UnixNano v)) vs -> outside MinInt64 MaxInt64 (vmap vs) = ∅.
Proof.
  intros H. apply map_empty. intros t. apply map_lookup_filter_None. right. intros v Hv. cbn.
  apply values_map_time in Hv as [<- Hv]. rewrite Forall_forall in H. specialize (H v Hv). unfold MinInt64, MaxInt64. unint.
  intros E. apply negb_true_iff, andb_false_iff in E as [E|E]; lia.
Qed.

Lemma outside_nil min max e e' :
  vmap (e_values e') = outside min max (vmap (e_values e)) -> count e' = 0%nat -> outside min max (vmap (e_values e)) = ∅.
Proof. intros <- H. apply nil_length_inv in H. by rewrite H. Qed.

Lemma delete_key_run W k min max c live snap p :
  inv W c live snap p -> c_initialized c = true -> W < 2 ^ 64 ->
  exists c' live', delete_key Sum64 k min max c = Ret c' /\ inv W c' live' snap p /\ same_flags c c' /\ c_initialized c' = true /\
    forall k', view live' k' = if decide (k' = k) then outside min max (view live k') else view live k'.
Proof.
  intros Hi Hin HW. unfold delete_key. rewrite (live_entry _ _ _ _ _ k Hi). cbn [obind].
  destruct (live !! k) as [e|] eqn:E.
  2:{ exists c, live. split_and!; try done. intros k'. case_decide as Hk; [|done]. subst. unfold view. rewrite E. by rewrite outside_empty. }
  pose proof (inv_nonneg _ _ _ _ _ Hi) as Hn. pose proof Hi as [I1 I2 I3 I4 I5 I6 I7 I8]. rewrite Hin in I1. pose proof (I7 k e E) as He.
  pose proof (bytes_delete live k e E) as Hb. pose proof (bytes_nonneg (delete k live)). pose proof (size_nonneg e).
  unfold entry_bytes in Hb. rewrite (u64_id (size e)) by (unint; lia). rewrite (u64_id (size e + _)) by (unint; lia).
  assert (Hdel : forall k', view (delete k live) k' = if decide (k' = k) then ∅ else view live k').
  { intros k'. case_decide as Hk; [subst; apply view_delete|]. by apply view_delete_ne. }
  destruct ((min =? MinInt64) && (max =? MaxInt64)) eqn:Efull.
  - apply andb_true_iff in Efull as [->%Z.eqb_eq ->%Z.eqb_eq]. rewrite decrease_run by lia.
    destruct (holds_remove _ _ k I1) as (s & Es & Hs). cbn [c_store set_size]. rewrite Es. cbn [obind]. eexists _, (delete k live).
    split; [reflexivity|]. split_and!; [|done|done|].
    + eapply inv_live; try done; [cbn; lia|]. by apply map_Forall_delete.
    + intros k'. rewrite Hdel. case_decide as Hk; [|done]. subst. unfold view. rewrite E. by rewrite outside_all by apply He.
  - destruct (filter_range_run e min max) as (e' & -> & Hv & Hsz & Hok). cbn [obind].
    destruct (holds_set _ _ k e' I1) as (s & -> & Hs). cbn [obind]. pose proof (size_nonneg e').
    destruct (Nat.eqb_spec (count e') 0) as [E0|E0].
    + destruct (holds_remove _ _ k Hs) as (s' & Es & Hs'). cbn [c_store set_store]. rewrite Es. cbn [obind].
      rewrite delete_insert_eq in Hs'. rewrite decrease_run by (cbn; lia).
      eexists _, (delete k live). split; [reflexivity|]. split_and!; [|done|done|].
      * eapply inv_live; try done; [cbn; lia|]. by apply map_Forall_delete.
      * intros k'. rewrite Hdel. case_decide as Hk; [|done]. subst. unfold view. rewrite E. symmetry. by eapply outside_nil.
    + rewrite (u64_id (size e')) by (unint; lia). rewrite (u64_id (size e - size e')) by (unint; lia).
      rewrite decrease_run by (cbn; lia). eexists _, (<[k := e']> live). split; [reflexivity|]. split_and!; [|done|done|].
      * eapply inv_live; try done; [rewrite (bytes_replace live k e e' E); cbn; lia|]. apply map_Forall_insert_2; [|done].
        apply Hok; [done|]. intros E'. apply E0. unfold count. by rewrite E'.
      * intros k'. case_decide as Hk; [|by apply view_insert_ne]. subst. rewrite view_insert, Hv. unfold view. by rewrite E.
Qed.

Lemma delete_loop_run W keys min max c live snap p :
  inv W c live snap p -> c_initialized c = true -> W < 2 ^ 64 ->
  exists c' live', delete_loop Sum64 keys min max c = Ret c' /\ inv W c' live' snap p /\ same_flags c c' /\
    forall k, view live' k = if decide (k ∈ keys) then outside min max (view live k) else view live k.
Proof.
  revert c live. induction keys as [|k keys IH]; intros c live Hi Hin HW.
  { by exists c, live. }
  cbn [delete_loop]. destruct (delete_key_run W k min max c live snap p Hi Hin HW) as (c1 & l1 & -> & Hi1 & (F1 & F2 & F3) & Hin1 & Hv1). cbn [obind].
  destruct (IH c1 l1 Hi1 Hin1 HW) as (c2 & l2 & -> & Hi2 & (G1 & G2 & G3) & Hv2). exists c2, l2.
  split_and!; [done..|split_and!; congruence|]. intros k'. rewrite Hv2, Hv1. destruct (decide (k' = k)) as [->|Hk].
  - rewrite (decide_True (P := k ∈ k :: keys)) by set_solver. case_decide; [apply outside_twice|done].
  - destruct (decide (k' ∈ keys)) as [Hin'|Hni]; [by rewrite decide_True by set_solver|by rewrite decide_False by set_solver].
Qed.

Lemma DeleteRange_run W keys min max c live snap p :
  inv W c live snap p -> W < 2 ^ 64 ->
  exists c' live', DeleteRange Sum64 keys min max c = Ret c' /\ inv W c' live' snap p /\ same_flags c c' /\
    forall k, view live' k = if decide (k ∈ keys) then outside min max (view live k) else view live k.
Proof.
  intros Hi HW. unfold DeleteRange. destruct (init_run W c live snap p Hi) as (c1 & -> & Hi1 & Hin & Ec). cbn [obind].
  destruct (delete_loop_run W keys min max c1 live snap p Hi1 Hin HW) as (c' & l' & E & Hi' & (F1 & F2 & F3) & Hv).
  exists c', l'. split_and!; [done..| |done]. unfold same_flags. by rewrite F1, F2, F3, Ec.
Qed.

(** ** Reading *)

(** An entry replaced by an equivalent one that is not larger. *)
Lemma replace_equiv m k e e' :
  m !! k = Some e -> vmap (e_values e') = vmap (e_values e) -> size e' <= size e -> entry_ok e' -> entries_ok m ->
  bytes (<[k := e']> m) <= bytes m /\ entries_ok (<[k := e']> m) /\ forall k', view (<[k := e']> m) k' = view m k'.
Proof.
  intros E Hv Hs He Hm. split_and!; [rewrite (bytes_replace m k e e' E); lia|by apply map_Forall_insert_2|].
  intros k'. destruct (decide (k = k')) as [<-|Hk]; [|by apply view_insert_ne]. rewrite view_insert, Hv. unfold view. by rewrite E.
Qed.

Lemma dedup_live_run W c live snap p k e :
  inv W c live snap p -> live !! k = Some e ->
  exists e' c' live', dedup_live Sum64 c k e = Ret (e', c') /\ inv W c' live' snap p /\ same_flags c c' /\
    vmap (e_values e') = view live k /\ forall k', view live' k' = view live k'.
Proof.
  intros Hi E. pose proof Hi as [I1 I2 I3 I4 I5 I6 I7 I8]. unfold dedup_live.
  destruct (c_initialized c) eqn:Hin; [|destruct I1 as [_ ->]; by rewrite lookup_empty in E].
  destruct (deduplicate_run e) as (e' & -> & Hs & Hm & Hsz & Hok). cbn [obind]. specialize (Hok (I7 k e E)).
  destruct (holds_set _ _ k e' I1) as (s & -> & Hh). cbn [obind].
  destruct (replace_equiv live k e e' E Hm Hsz Hok I7) as (Hb & Hoks & Hv).
  eexists e', _, (<[k := e']> live). split; [reflexivity|]. split_and!; [|done| |done].
  - eapply inv_live; try done. cbn. lia.
  - rewrite Hm. unfold view. by rewrite E.
Qed.

Lemma dedup_snapshot_run W c live snap p k e :
  inv W c live snap p -> snap !! k = Some e ->
  exists e' c' snap', dedup_snapshot Sum64 c k e = Ret (e', c') /\ inv W c' live snap' p /\
    c_snapshotting c' = c_snapshotting c /\ c_maxSize c' = c_maxSize c /\ c_snapshot c' <> None /\
    vmap (e_values e') = view snap k /\ forall k', view snap' k' = view snap k'.
Proof.
  intros Hi E. pose proof Hi as [I1 I2 I3 I4 I5 I6 I7 I8]. unfold dedup_snapshot.
  destruct (c_snapshot c) as [s|] eqn:Es; [|destruct I2 as [-> _]; by rewrite lookup_empty in E].
  destruct (deduplicate_run e) as (e' & -> & Hs & Hm & Hsz & Hok). cbn [obind or_panic]. specialize (Hok (I8 k e E)).
  destruct I2 as (I2 & I2' & I2''). destruct (holds_set _ _ k e' I2) as (s' & -> & Hh). cbn [obind].
  destruct (replace_equiv snap k e e' E Hm Hsz Hok I8) as (Hb & Hoks & Hv).
  eexists e', _, (<[k := e']> snap). split; [reflexivity|]. split_and!; [|done|done|done| |done].
  - split; cbn; try done; lia.
  - rewrite Hm. unfold view. by rewrite E.
Qed.

Lemma vmap_nil vs : vmap vs = ∅ -> vs = [].
Proof.
  intros H. destruct vs as [|x vs]; [done|]. exfalso.
  assert (Hn : vmap (x :: vs) !! UnixNano x = None) by (by rewrite H, lookup_empty).
  apply values_map_None in Hn. by apply Forall_cons_1 in Hn as [? _].
Qed.

(** A read returns the values of the key sorted, newer ones over the
    snapshot's, and only reorders what is stored. *)
Lemma ReadValues_run W c live snap p k :
  inv W c live snap p ->
  exists vs c' live' snap', ReadValues Sum64 k c = Ret (vs, c') /\ inv W c' live' snap' p /\
    c_snapshotting c' = c_snapshotting c /\ c_maxSize c' = c_maxSize c /\ (c_snapshot c <> None -> c_snapshot c' <> None) /\
    StronglySorted (before UnixNano) vs /\ vmap vs = view live k ∪ view snap k /\
    (forall k', view live' k' = view live k') /\ (forall k', view snap' k' = view snap k').
Proof.
  intros Hi. unfold ReadValues. rewrite (live_entry _ _ _ _ _ k Hi). cbn [obind].
  rewrite (snapshot_entry_run _ _ _ _ _ k Hi). cbn [obind].
  assert (exists hot c1 live', match live !! k with None => Ret ([], c) | Some e => let! (e, c) := dedup_live Sum64 c k e in Ret (e_values e, c) end
    = Ret (hot, c1) /\ inv W c1 live' snap p /\ same_flags c c1 /\ vmap hot = view live k /\
    forall k', view live' k' = view live k') as (hot & c1 & live' & E1 & Hi1 & (F1 & F2 & F3) & Hh & Hv1).
  { destruct (live !! k) as [e|] eqn:E.
    - destruct (dedup_live_run _ _ _ _ _ k e Hi E) as (e' & c1 & l1 & -> & Hi1 & F & Hm & Hv). cbn. by exists (e_values e'), c1, l1.
    - exists [], c, live. split_and!; try done. unfold view. by rewrite E. }
  assert (exists old c2 snap', match snap !! k with None => Ret ([], c1) | Some e => let! (e, c) := dedup_snapshot Sum64 c1 k e in Ret (e_values e, c) end
    = Ret (old, c2) /\ inv W c2 live' snap' p /\ c_snapshotting c2 = c_snapshotting c /\ c_maxSize c2 = c_maxSize c /\
    (c_snapshot c <> None -> c_snapshot c2 <> None) /\
    vmap old = view snap k /\ forall k', view snap' k' = view snap k') as (old & c2 & snap' & E2 & Hi2 & G1 & G3 & G2 & Ho & Hv2).
  { destruct (snap !! k) as [e|] eqn:E.
    - destruct (dedup_snapshot_run _ _ _ _ _ k e Hi1 E) as (e' & c2 & l2 & -> & Hi2 & G1 & G3 & G2 & Hm & Hv). cbn.
      exists (e_values e'), c2, l2. split_and!; try done; congruence.
    - exists [], c1, snap. split_and!; try done; [congruence|]. unfold view. by rewrite E. }
  assert (Hgoal : forall o, o = (let! (old, c) := Ret (old, c2) in
      if (length old + length hot =? 0)%nat then Ret ([], c) else let! vs := Values.Deduplicate UnixNano (old ++ hot) in Ret (vs, c)) ->
    exists vs, o = Ret (vs, c2) /\ StronglySorted (before UnixNano) vs /\ vmap vs = view live k ∪ view snap k).
  { intros o ->. cbn [obind]. rewrite <- Hh, <- Ho. destruct (Nat.eqb_spec (length old + length hot) 0) as [E|E].
    - destruct old, hot; try done. exists []. split_and!; [done|apply SSorted_nil|by rewrite (values_map_nil UnixNano), (left_id_L ∅ (∪))].
    - destruct (Deduplicate_run UnixNano (old ++ hot)) as (vs & -> & Hs & Hm & _). exists vs. split_and!; [done..|].
      by rewrite Hm, values_map_app. }
  destruct (live !! k) as [e|] eqn:El, (snap !! k) as [e2|] eqn:Esn.
  4:{ exists [], c, live, snap. split_and!; try done; [apply SSorted_nil|]. unfold view. rewrite El, Esn. by rewrite (left_id_L ∅ (∪)). }
  all: destruct (Hgoal _ eq_refl) as (vs & E & Hs & Hm); exists vs, c2, live', snap'; split; [|done].
  - rewrite E1. cbn [obind]. rewrite E2. exact E.
  - injection E2 as <- <-. rewrite E1. exact E.
  - injection E1 as <- <-. cbn [obind]. rewrite E2. exact E.
Qed.

Lemma bytes_shrink (g : key -> entry -> entry) m m' :
  (forall k, m' !! k = g k <$> m !! k) -> (forall k e, size (g k e) <= size e) -> bytes m' <= bytes m.
Proof.
  intros H Hg. revert m' H. induction m as [|k e m Hk IH] using map_ind; intros m' H.
  - replace m' with (∅ : gmap key entry); [done|]. symmetry. apply map_empty. intros k. by rewrite H, lookup_empty.
  - rewrite bytes_insert by done. rewrite (bytes_delete m' k (g k e)) by (by rewrite H, lookup_insert_eq).
    specialize (Hg k e). enough (bytes (delete k m') <= bytes m) by (unfold entry_bytes; lia). apply IH. intros k'.
    destruct (decide (k = k')) as [<-|Hne]; [by rewrite lookup_delete_eq, Hk|]. by rewrite lookup_delete_ne, H, lookup_insert_ne.
Qed.

Lemma Deduplicate_cache_run W c live snap p :
  inv W c live snap p ->
  exists c' live', Deduplicate c = Ret c' /\ inv W c' live' snap p /\ same_flags c c' /\ forall k, view live' k = view live k.
Proof.
  intros Hi. pose proof Hi as [I1 I2 I3 I4 I5 I6 I7 I8]. unfold Deduplicate. destruct (c_initialized c) eqn:Hin.
  2:{ destruct I1 as [-> ->]. cbn. eexists _, ∅. split; [reflexivity|]. split_and!; [|done|done]. by split; cbn; rewrite ?Hin. }
  destruct I1 as (r & -> & Hr & <-). set (g := fun (_ : key) e => match deduplicate e with Ret e' => e' | _ => e end).
  destruct (apply_run Sum64 (fun _ e => deduplicate e) g r) as (r' & Er & Hr' & Hc).
  { intros k e. unfold g. by destruct (deduplicate_run e) as (e' & -> & _). }
  { done. }
  cbn. rewrite Er. cbn. eexists _, (contents r'). split; [reflexivity|]. split_and!; [|done|].
  - eapply inv_live; try done; [by exists r'| |].
    + cbn. split; [|done]. etransitivity; [|exact I4]. apply (bytes_shrink g); [done|]. intros k e. unfold g.
      by destruct (deduplicate_run e) as (e' & -> & _ & _ & ? & _).
    + intros k e He. rewrite Hc in He. apply fmap_Some in He as (e0 & He0 & ->). unfold g.
      destruct (deduplicate_run e0) as (e' & -> & _ & _ & _ & Hok). by apply Hok, (I7 k).
  - intros k. unfold view. rewrite Hc. destruct (contents r !! k) as [e|]; [|done]. cbn. unfold g.
    by destruct (deduplicate_run e) as (e' & -> & _ & -> & _).
Qed.

(** ** Operations in sequence *)

Inductive op : Type :=
| OWrite (now : Z) (kvs : batch)
| OSnapshot
| OClear (success : bool)
| ODelete (keys : list key) (min max : Z)
| ORead (k : key)
| ODeduplicate
| OSetMaxSize (n : Z)
| OFree.

Definition no_error (o : outcome Cache) : outcome (Cache * option string) := let! c := o in Ret (c, None).
Definition exec (o : op) (c : Cache) : outcome (Cache * option string) :=
  match o with
  | OWrite now kvs => WriteMulti Sum64 now kvs c
  | OSnapshot => Snapshot c
  | OClear b => no_error (ClearSnapshot b c)
  | ODelete keys min max => no_error (DeleteRange Sum64 keys min max c)
  | ORead k => let! (_, c) := ReadValues Sum64 k c in Ret (c, None)
  | ODeduplicate => no_error (Deduplicate c)
  | OSetMaxSize n => Ret (SetMaxSize c n, None)
  | OFree => Ret (Free c, None)
  end.

(** The errors of the operations, in order, with the final cache. *)
Fixpoint exec_all (ops : list op) (c : Cache) : outcome (Cache * list (option string)) :=
  match ops with
  | [] => Ret (c, [])
  | o :: ops => let! (c, err) := exec o c in let! (c, errs) := exec_all ops c in Ret (c, err :: errs)
  end.

(** What [Size] reports before each operation. *)
Fixpoint sizes_all (ops : list op) (c : Cache) : list Z :=
  match ops with
  | [] => []
  | o :: ops => TotalSize c :: match exec o c with Ret (c, _) => sizes_all ops c | _ => [] end
  end.

Definition op_ok (o : op) : Prop := match o with OWrite _ kvs => batch_ok kvs | _ => True end.
Definition op_weight (o : op) : Z := match o with OWrite _ kvs => batch_weight kvs | _ => 0 end.
Definition ops_weight (ops : list op) : Z := foldr (fun o n => op_weight o + n) 0 ops.

(** A snapshot is only cleared once one has been asked for. *)
Fixpoint clears_ok (started : bool) (ops : list op) : bool :=
  match ops with
  | [] => true
  | OSnapshot :: ops => clears_ok true ops
  | OClear _ :: ops => started && clears_ok started ops
  | _ :: ops => clears_ok started ops
  end.

(** ** The abstract cache

    For every key the values written since the last snapshot and those of the
    snapshot, as maps from times to values; whether a snapshot is being
    written, whether one has been taken since the last one that was written
    successfully, and the memory limit. *)
Record astate := MkA { a_live : key -> gmap Z Value; a_snap : key -> gmap Z Value; a_busy : bool; a_pending : bool; a_max : Z }.

Definition nothing : key -> gmap Z Value := fun _ => ∅.
Definition a_init (limit : Z) : astate := MkA nothing nothing false false limit.

(** A step of the abstract cache when the cache reports [size] bytes: a write
    fails for lack of memory exactly when its bytes and [size] exceed the
    limit. *)
Definition too_big (size : Z) (kvs : batch) (a : astate) : Prop := 0 < a_max a < size + batch_size kvs.

Inductive astep (size : Z) : op -> astate -> astate -> option string -> Prop :=
| A_write_full now kvs a : too_big size kvs a -> astep size (OWrite now kvs) a a (Some ErrCacheMemorySizeLimitExceeded)
| A_write now kvs a live' err :
    ~ too_big size kvs a -> overlay (list_to_map kvs) (a_live a) live' ->
    (all_conform (list_to_map kvs) (a_live a) /\ err = None \/
     ~ all_conform (list_to_map kvs) (a_live a) /\ err = Some ErrFieldTypeConflict) ->
    astep size (OWrite now kvs) a (MkA live' (a_snap a) (a_busy a) (a_pending a) (a_max a)) err
| A_snapshot_busy a : a_busy a = true -> astep size OSnapshot a a (Some ErrSnapshotInProgress)
| A_snapshot a live' snap' :
    a_busy a = false -> (forall k, a_snap a k = ∅) -> (forall k, snap' k = a_live a k) -> (forall k, live' k = ∅) ->
    astep size OSnapshot a (MkA live' snap' true true (a_max a)) None
| A_snapshot_retry a : a_busy a = false -> a_pending a = true -> astep size OSnapshot a (MkA (a_live a) (a_snap a) true true (a_max a)) None
| A_clear a snap' : (forall k, snap' k = ∅) -> astep size (OClear true) a (MkA (a_live a) snap' false false (a_max a)) None
| A_clear_failed a : astep size (OClear false) a (MkA (a_live a) (a_snap a) false (a_pending a) (a_max a)) None
| A_delete keys min max a live' :
    (forall k, live' k = if decide (k ∈ keys) then outside min max (a_live a k) else a_live a k) ->
    astep size (ODelete keys min max) a (MkA live' (a_snap a) (a_busy a) (a_pending a) (a_max a)) None
| A_read k a : astep size (ORead k) a a None
| A_deduplicate a : astep size ODeduplicate a a None
| A_max n a : astep size (OSetMaxSize n) a (MkA (a_live a) (a_snap a) (a_busy a) (a_pending a) n) None
| A_free a live' : (forall k, live' k = ∅) -> astep size OFree a (MkA live' (a_snap a) (a_busy a) (a_pending a) (a_max a)) None.

Inductive asteps : list Z -> list op -> astate -> astate -> list (option string) -> Prop :=
| AS_nil a : asteps [] [] a a []
| AS_cons size sizes o ops a a1 a2 err errs :
    astep size o a a1 err -> asteps sizes ops a1 a2 errs -> asteps (size :: sizes) (o :: ops) a a2 (err :: errs).

(** The abstract state of a cache. *)
Definition abstracts (a : astate) (c : Cache) (live snap : gmap key entry) (pending : bool) : Prop :=
  (forall k, a_live a k = view live k) /\ (forall k, a_snap a k = view snap k) /\ a_busy a = c_snapshotting c /\
  a_pending a = pending /\ a_max a = c_maxSize c.

Lemma overlay_ext kvs l1 l2 l' : (forall k, l1 k = l2 k) -> overlay kvs l2 l' -> overlay kvs l1 l'.
Proof. intros H Ho k. specialize (Ho k). rewrite H. done. Qed.

Lemma Free_run W c live snap p :
  inv W c live snap p -> exists live', inv W (Free c) live' snap p /\ same_flags c (Free c) /\ forall k, view live' k = ∅.
Proof.
  intros Hi. unfold Free. destruct Hi as [I1 I2 I3 I4 I5 I6 I7 I8]. exists ∅. pose proof (bytes_nonneg live).
  destruct (c_initialized c) eqn:Hin.
  - split_and!; [|done|]; [|intros k; unfold view; by rewrite lookup_empty]. split; cbn; try done. apply (Z.le_trans _ (bytes live)); done.
  - destruct I1 as [I1 ->]. split_and!; [|done|]; [|intros k; unfold view; by rewrite lookup_empty]. split; cbn; rewrite ?Hin; done.
Qed.

Definition clear_ready (o : op) (c : Cache) : Prop := match o with OClear _ => c_snapshot c <> None | _ => True end.
Definition starts (o : op) : bool := match o with OSnapshot => true | _ => false end.

(** One operation of the cache is one step of the abstract cache. *)
Lemma simulation W c live snap p a o :
  inv W c live snap p -> abstracts a c live snap p -> op_ok o -> W + op_weight o < 2 ^ 64 -> clear_ready o c ->
  exists c' err a' live' snap' p', exec o c = Ret (c', err) /\ astep (TotalSize c) o a a' err /\ inv (W + op_weight o) c' live' snap' p' /\
    abstracts a' c' live' snap' p' /\ (c_snapshot c <> None \/ starts o = true -> c_snapshot c' <> None).
Proof.
  intros Hi (A1 & A2 & A3 & A4 & A5) Hok HW Hc. destruct o as [now kvs| |b|keys min max|k| |n|]; cbn [op_ok op_weight starts clear_ready] in *;
    rewrite ?Z.add_0_r in *; cbn [exec].
  - destruct (WriteMulti_run W now kvs c live snap p Hi Hok HW) as (c' & live' & err & -> & Hi' & (F1 & F2 & F3) & [(-> & -> & Hl)|(Hl & Ho & He)]); pose proof (batch_size_nonneg kvs) as Hbs.
    + eexists c', _, a, live, snap, p. split_and!; [done| |done| |naive_solver congruence].
      * apply A_write_full. unfold too_big. rewrite (TotalSize_run _ _ _ _ _ Hi), A5 by lia. lia.
      * unfold abstracts. rewrite F1, F3. done.
    + eexists c', err, (MkA (view live') (a_snap a) (a_busy a) (a_pending a) (a_max a)), live', snap, p.
      split_and!; [done| |done| |naive_solver congruence].
      * apply A_write; [unfold too_big; rewrite (TotalSize_run _ _ _ _ _ Hi), A5 by lia; lia|by apply (overlay_ext _ _ (view live))|].
        by rewrite (all_conform_ext _ (a_live a) (view live)) by (intros; apply A1).
      * unfold abstracts. rewrite F1, F3. done.
  - destruct (Snapshot_run W c live snap p Hi HW) as (c' & live' & snap' & p' & err & -> & Hi' & Hs & Fm & Fb & Hcase).
    destruct Hcase as [(E1 & -> & -> & -> & ->)|(E1 & -> & -> & [(-> & -> & ->)|(-> & -> & ->)])].
    + eexists c', _, a, live, snap, p. split_and!; [done|apply A_snapshot_busy; congruence|done| |done].
      unfold abstracts. by rewrite Fb, Fm, A3, E1.
    + eexists c', _, (MkA (view ∅) (view live) true true (a_max a)), ∅, live, true. split_and!; [done| |done| |done].
      * apply A_snapshot; [congruence| |done|].
        -- intros k. rewrite A2. unfold view. by rewrite lookup_empty.
        -- intros k. unfold view. by rewrite lookup_empty.
      * unfold abstracts. by rewrite Fb, Fm.
    + eexists c', _, (MkA (a_live a) (a_snap a) true true (a_max a)), live, snap, true. split_and!; [done| |done| |done].
      * apply A_snapshot_retry; congruence.
      * unfold abstracts. by rewrite Fb, Fm.
  - destruct (ClearSnapshot_run W b c live snap p Hi Hc) as (c' & E & Fb & Hs & Fm & Hi'). rewrite E. cbn [no_error obind].
    destruct b.
    + eexists c', _, (MkA (a_live a) (view ∅) false false (a_max a)), live, ∅, false. split_and!; [done| |done| |done].
      * apply A_clear. intros k. unfold view. by rewrite lookup_empty.
      * unfold abstracts. by rewrite Fb, Fm.
    + eexists c', _, (MkA (a_live a) (a_snap a) false (a_pending a) (a_max a)), live, snap, p. split_and!; [done|apply A_clear_failed|done| |done].
      unfold abstracts. by rewrite Fb, Fm.
  - destruct (DeleteRange_run W keys min max c live snap p Hi HW) as (c' & live' & E & Hi' & (F1 & F2 & F3) & Hv). rewrite E. cbn [no_error obind].
    eexists c', _, (MkA (view live') (a_snap a) (a_busy a) (a_pending a) (a_max a)), live', snap, p.
    split_and!; [done| |done| |naive_solver congruence].
    + apply A_delete. intros k. by rewrite Hv, A1.
    + unfold abstracts. rewrite F1, F3. done.
  - destruct (ReadValues_run W c live snap p k Hi) as (vs & c' & live' & snap' & E & Hi' & F1 & F3 & F2 & _ & _ & Hl & Hsn). rewrite E. cbn [obind].
    eexists c', _, a, live', snap', p. split_and!; [done|apply A_read|done| |naive_solver].
    unfold abstracts. rewrite F1, F3. split_and!; try done; intros k'; rewrite ?Hl, ?Hsn; done.
  - destruct (Deduplicate_cache_run W c live snap p Hi) as (c' & live' & E & Hi' & (F1 & F2 & F3) & Hl). rewrite E. cbn [no_error obind].
    eexists c', _, a, live', snap, p. split_and!; [done|apply A_deduplicate|done| |naive_solver congruence].
    unfold abstracts. rewrite F1, F3. split_and!; try done. intros k'. by rewrite Hl.
  - eexists _, _, (MkA (a_live a) (a_snap a) (a_busy a) (a_pending a) n), live, snap, p. split_and!; [done|apply A_max| |done|naive_solver].
    by destruct Hi; split.
  - destruct (Free_run W c live snap p Hi) as (live' & Hi' & (F1 & F2 & F3) & Hl).
    eexists _, _, (MkA (view live') (a_snap a) (a_busy a) (a_pending a) (a_max a)), live', snap, p.
    split_and!; [done|by apply A_free|done| |naive_solver congruence]. unfold abstracts. rewrite F1, F3. done.
Qed.

Lemma clears_weaken ops : clears_ok false ops = true -> clears_ok true ops = true.
Proof. induction ops as [|o ops IH]; [done|]. destruct o; cbn; try done; auto. Qed.

(** Any sequence of operations, from any cache that keeps the invariant. *)
Lemma simulation_all ops W c live snap p a started :
  inv W c live snap p -> abstracts a c live snap p -> Forall op_ok ops -> W + ops_weight ops < 2 ^ 64 ->
  clears_ok started ops = true -> (started = true -> c_snapshot c <> None) ->
  exists c' errs a' live' snap' p', exec_all ops c = Ret (c', errs) /\ asteps (sizes_all ops c) ops a a' errs /\
    inv (W + ops_weight ops) c' live' snap' p' /\ abstracts a' c' live' snap' p'.
Proof.
  revert W c live snap p a started. induction ops as [|o ops IH]; intros W c live snap p a started Hi Ha Hok HW Hcl Hst.
  { cbn [ops_weight foldr] in *. rewrite Z.add_0_r in *. exists c, [], a, live, snap, p. by split_and!; [|constructor| |]. }
  apply Forall_cons_1 in Hok as [Ho Hok]. change (ops_weight (o :: ops)) with (op_weight o + ops_weight ops) in *.
  assert (Hw : 0 <= ops_weight ops).
  { clear. induction ops as [|o ops IH]; [done|]. change (ops_weight (o :: ops)) with (op_weight o + ops_weight ops).
    destruct o; cbn [op_weight]; try lia. pose proof (batch_size_nonneg kvs). lia. }
  destruct (simulation W c live snap p a o Hi Ha Ho ltac:(lia)) as (c1 & err & a1 & l1 & s1 & p1 & E & Hs & Hi1 & Ha1 & Hst1).
  { destruct o; cbn in *; try done. apply andb_true_iff in Hcl as [-> _]. by apply Hst. }
  destruct (IH (W + op_weight o) c1 l1 s1 p1 a1 (started || starts o) Hi1 Ha1 Hok ltac:(lia)) as (c2 & errs & a2 & l2 & s2 & p2 & E2 & Hs2 & Hi2 & Ha2).
  - destruct o; cbn in *; rewrite ?orb_true_r, ?orb_false_r; try done. by apply andb_true_iff in Hcl as [_ ?].
  - intros Hx. apply Hst1. apply orb_true_iff in Hx as [Hx|Hx]; [left; auto|by right].
  - exists c2, (err :: errs), a2, l2, s2, p2. cbn [exec_all sizes_all]. rewrite E. cbn [obind]. rewrite E2. cbn [obind].
    split_and!; [done|by econstructor| |done]. by rewrite Z.add_assoc.
Qed.

(** What the operations of a client have to respect: non-empty batches of
    values with distinct keys, fewer than 2^64 bytes written in all, and no
    clearing of a snapshot that was never asked for. *)
Record client_ok (ops : list op) : Prop := {
  co_ops : Forall op_ok ops;
  co_weight : ops_weight ops < 2 ^ 64;
  co_clears : clears_ok false ops = true }.

Lemma reachable limit ops :
  client_ok ops ->
  exists c errs a live snap p, exec_all ops (NewCache limit) = Ret (c, errs) /\ asteps (sizes_all ops (NewCache limit)) ops (a_init limit) a errs /\
    inv (ops_weight ops) c live snap p /\ abstracts a c live snap p.
Proof.
  intros [H1 H2 H3]. rewrite <- (Z.add_0_l (ops_weight ops)).
  apply (simulation_all ops 0 (NewCache limit) ∅ ∅ false (a_init limit) false); done.
Qed.

(** The entries of a store. *)
Definition stored (s : storer) : gmap key entry := match s with emptyStore => ∅ | theRing r => contents r end.

Lemma stored_live W c live snap p : inv W c live snap p -> stored (c_store c) = live.
Proof. intros [H _ _ _ _ _ _ _]. destruct (c_initialized c); [by destruct H as (r & -> & _ & <-)|by destruct H as [-> ->]]. Qed.

(** C10. The cache implements the abstract cache, for clients that write
    batches with distinct keys and at least one value of a known type and an
    [int64] time for each, fewer than 2^64 bytes in all, and that clear a
    snapshot only after asking for one: any such sequence of writes,
    snapshots, clearings, range deletions, reads, deduplications and frees
    runs without panic, each operation is a step of the abstract cache with
    the same error, and reading a key afterwards returns, in strict time
    order, the values written since the snapshot over those of the snapshot.
    A write is refused for lack of memory exactly when its bytes, added to
    what [Size] reports then, exceed the limit.  A failed snapshot loses
    nothing and is retried, a successful one removes exactly the values it
    took, and values that conflict with the type of a key leave the key as it
    was. *)
Theorem cache_refines_spec (limit : Z) (ops : list op) :
  client_ok ops ->
  exists c errs a, exec_all ops (NewCache limit) = Ret (c, errs) /\ asteps (sizes_all ops (NewCache limit)) ops (a_init limit) a errs /\
    forall k, exists vs c', ReadValues Sum64 k c = Ret (vs, c') /\ StronglySorted (before UnixNano) vs /\
      vmap vs = a_live a k ∪ a_snap a k.
Proof.
  intros H. destruct (reachable limit ops H) as (c & errs & a & live & snap & p & E & Hs & Hi & A1 & A2 & _).
  exists c, errs, a. split_and!; [done..|]. intros k.
  destruct (ReadValues_run _ c live snap p k Hi) as (vs & c' & live' & snap' & Er & _ & _ & _ & _ & Hso & Hv & _).
  exists vs, c'. by rewrite A1, A2.
Qed.

(** C30. The size counters never wrap: after any sequence of operations of the
    clients of the refinement the counter of the live store is at least the bytes of the keys and values it
    holds and, with the counter of the snapshot, at most the bytes ever
    written, so that [Size] is their sum and every decrease stayed above
    zero. *)
Theorem cache_size_bounds (limit : Z) (ops : list op) :
  client_ok ops ->
  exists c errs, exec_all ops (NewCache limit) = Ret (c, errs) /\
    bytes (stored (c_store c)) <= c_size c /\ 0 <= c_snapshotSize c /\
    c_size c + c_snapshotSize c <= ops_weight ops /\ TotalSize c = c_size c + c_snapshotSize c.
Proof.
  intros H. destruct (reachable limit ops H) as (c & errs & a & live & snap & p & E & _ & Hi & _).
  exists c, errs. rewrite (stored_live _ _ _ _ _ Hi), (TotalSize_run _ _ _ _ _ Hi) by apply H.
  apply inv_nonneg in Hi as Hn. destruct Hi. split_and!; [done..|lia|lia|done].
Qed.

(** The entries of the snapshot, if there is one. *)
Definition snapshotted (c : Cache) : gmap key entry := match c_snapshot c with Some s => stored (c_store s) | None => ∅ end.

Lemma snapshotted_snap W c live snap p : inv W c live snap p -> snapshotted c = snap.
Proof.
  intros [_ H _ _ _ _ _ _]. unfold snapshotted. destruct (c_snapshot c) as [s|]; [|by destruct H as [-> _]]. destruct H as [(r & -> & _ & <-) _]. done.
Qed.

(** C31. Every entry of the live store and of the snapshot holds values, all of
    one type, which is the type the entry records, whatever sequence of
    operations led to it, for the clients of the refinement: batches with
    distinct keys and at least one value of a known type for each, fewer than
    2^64 bytes in all, and no clearing of a snapshot that was never asked
    for. *)
Theorem cache_entries_typed (limit : Z) (ops : list op) :
  client_ok ops ->
  exists c errs, exec_all ops (NewCache limit) = Ret (c, errs) /\
    forall k e, stored (c_store c) !! k = Some e \/ snapshotted c !! k = Some e ->
      e_values e <> [] /\ Forall (fun v => valueType v = e_vtype e) (e_values e).
Proof.
  intros H. destruct (reachable limit ops H) as (c & errs & a & live & snap & p & E & _ & Hi & _).
  exists c, errs. split; [done|]. rewrite (stored_live _ _ _ _ _ Hi), (snapshotted_snap _ _ _ _ _ Hi).
  intros k e [He|He]; [by destruct (i_live_ok _ _ _ _ _ Hi k e He)|by destruct (i_snap_ok _ _ _ _ _ Hi k e He)].
Qed.
End Invariant.

(** ** Examples *)

Definition vf (t x : Z) : Value := VFloat (MkValue t x).
Definition vi (t x : Z) : Value := VInteger (MkValue t x).

Definition sample_ops : list op :=
  [OWrite 1 [([97], [vf 10 1; vf 20 2]); ([98], [vi 5 3])]; OSnapshot; OWrite 2 [([97], [vf 20 7]); ([98], [vf 6 1; vi 7 1])];
   OClear false; ODelete [[97]] 0 15; ORead [97]; OSnapshot; OClear true].

(** The side conditions of a concrete batch, decided by computation. *)
Definition batch_check (kvs : list (key * list Value)) : bool :=
  bool_decide (NoDup kvs.*1) &&
  forallb (fun x => negb (length x.2 =? 0)%nat &&
    forallb (fun v => negb (valueType v =? 0) && (- 2 ^ 63 <=? UnixNano v) && (UnixNano v <? 2 ^ 63)) x.2) kvs.

Lemma batch_check_ok kvs : batch_check kvs = true -> batch_ok kvs.
Proof.
  unfold batch_check, batch_ok, write_ok. rewrite andb_true_iff, bool_decide_eq_true, forallb_forall. intros [Hn Hv]. split; [done|].
  apply Forall_forall. intros x Hx. apply list_elem_of_In, Hv, andb_true_iff in Hx as [Hl Hx]. rewrite forallb_forall in Hx.
  split_and!; [by destruct (x.2)|..]; apply Forall_forall; intros v Hin; apply list_elem_of_In, Hx in Hin; unfold is_i64; lia.
Qed.

Lemma sample_ops_ok : client_ok sample_ops.
Proof.
  split; [|vm_compute; reflexivity|reflexivity].
  repeat (apply Forall_cons; split; [first [exact I|apply batch_check_ok; vm_compute; reflexivity]|]). apply Forall_nil. exact I.
Qed.

(** The second write of key 98 mixes types and is refused, the snapshot that
    failed is kept and returned again. *)
Example sample_errors :
  (let! (c, errs) := exec_all sample_hash sample_ops (NewCache 0) in
   let! (vs, _) := ReadValues sample_hash [97] c in
   Ret (vs, errs)) = Ret ([vf 20 7], [None; None; Some ErrFieldTypeConflict; None; None; None; None; None]).
Proof. vm_compute. reflexivity. Qed.

Lemma cache_refines_spec_witness :
  exists c errs a, exec_all sample_hash sample_ops (NewCache 0) = Ret (c, errs) /\ asteps (sizes_all sample_hash sample_ops (NewCache 0)) sample_ops (a_init 0) a errs.
Proof.
  destruct (cache_refines_spec sample_hash 0 sample_ops sample_ops_ok) as (c & errs & a & E & Hs & _). by exists c, errs, a.
Defined.

Lemma cache_size_bounds_witness :
  exists c errs, exec_all sample_hash sample_ops (NewCache 0) = Ret (c, errs) /\ c_size c + c_snapshotSize c <= 109.
Proof.
  destruct (cache_size_bounds sample_hash 0 sample_ops sample_ops_ok) as (c & errs & E & _ & _ & Hw & _). exists c, errs.
  split; [exact E|]. etransitivity; [exact Hw|]. vm_compute. done.
Defined.

Lemma cache_entries_typed_witness :
  exists c errs, exec_all sample_hash sample_ops (NewCache 0) = Ret (c, errs) /\
    forall k e, stored (c_store c) !! k = Some e -> e_values e <> [].
Proof.
  destruct (cache_entries_typed sample_hash 0 sample_ops sample_ops_ok) as (c & errs & E & Ht). exists c, errs.
  split; [exact E|]. intros k e He. apply (Ht k e (or_introl He)).
Defined.

(** A batch with no values for a key leaves an entry without a type, and the
    next batch for it is stored unchecked: a float and an integer. *)
Example empty_write_mixes_types :
  (let! (c, errs) := exec_all sample_hash [OWrite 1 [([97], [])]; OWrite 2 [([97], [vf 1 1; vi 2 2])]] (NewCache 0) in
   let! (vs, _) := ReadValues sample_hash [97] c in
   Ret (vs, errs)) = Ret ([vf 1 1; vi 2 2], [None; None]).
Proof. vm_compute. reflexivity. Qed.

(** Bytes of values dropped by deduplication stay counted: the cache is empty
    and its size is not zero. *)
Example deduplicated_bytes_stay_counted :
  (let! (c, _) := exec_all sample_hash [OWrite 1 [([97], [vf 1 1; vf 1 2])]; ORead [97]; ODelete [[97]] 0 9] (NewCache 0) in
   Ret (Count c, TotalSize c)) = Ret (0%nat, 16).
Proof. vm_compute. reflexivity. Qed.
End Cache.
