(* ===== verification/Wal.v ===== *)
(** * tsdb/engine/tsm1: entries of the write-ahead log

    Models the entry types of [wal.go]: the byte layout of write, delete and
    delete-range entries, written in place into a pooled buffer and parsed
    with explicit bounds checks, and the segment reader that frames and
    decompresses them.  The theorems show the round trips of the three entry
    types from any buffer, that parsing never panics on arbitrary bytes, and
    that reading a segment whose tail was torn returns exactly the entries
    written before the tear and their length. *)
From S2P Require Import Prelude StringCodec Values Ring Cache.
From stdpp Require Import gmap.
Import Values.
Import StringCodec (put_at).
#[global] Open Scope Z_scope.

Module Wal.

Abbreviation key := (list Z).

Definition float64EntryType : Z := 1.
Definition integerEntryType : Z := 2.
Definition booleanEntryType : Z := 3.
Definition stringEntryType : Z := 4.
Definition unsignedEntryType : Z := 5.

Definition WriteWALEntryType : Z := 1.
Definition DeleteWALEntryType : Z := 2.
Definition DeleteRangeWALEntryType : Z := 3.

Definition ErrWALCorrupt : string := "corrupted WAL entry".

(** ** Writing into a buffer *)

(** A buffer and the number of bytes written. *)
Definition cursor : Type := list Z * nat.

(** [binary.BigEndian.PutUint64(dst\[n:n+8\], x); n += 8] and its like: a slice
    expression past the end panics. *)
Definition put (bs : list Z) (st : cursor) : outcome cursor :=
  let '(dst, n) := st in
  if (n + length bs <=? length dst)%nat then Ret (put_at dst n bs, (n + length bs)%nat) else Panic.

(** [n += copy(dst\[n:\], bs)] *)
Definition copy_in (bs : list Z) (st : cursor) : outcome cursor :=
  let '(dst, n) := st in
  if (n <=? length dst)%nat then
    let c := take (length dst - n) bs in Ret (put_at dst n c, (n + length c)%nat)
  else Panic.

(** ** Write entries *)

(** The map of values, in the order the runtime visits it. *)
Record WriteWALEntry := MkWrite { w_Values : list (key * list Value); w_sz : nat }.

(** What a slice of values takes, or [None] where the code returns 0. *)
Fixpoint strings_size (v : list Value) : option nat :=
  match v with
  | [] => Some 0%nat
  | VString s :: v => n ← strings_size v; Some (4 + length (value s) + n)%nat
  | _ :: _ => None
  end.
Definition slice_size (v : list Value) : option nat :=
  match v with
  | [] => None
  | VFloat _ :: _ | VInteger _ :: _ | VUnsigned _ :: _ => Some (8 * length v)%nat
  | VBoolean _ :: _ => Some (1 * length v)%nat
  | VString _ :: _ => strings_size v
  | VEmpty :: _ => None
  end.
Fixpoint entry_size (kvs : list (key * list Value)) : option nat :=
  match kvs with
  | [] => Some 0%nat
  | (k, v) :: kvs => n ← slice_size v; m ← entry_size kvs; Some (length k + (8 * length v + n) + m)%nat
  end.

Definition MarshalSize (w : WriteWALEntry) : nat * WriteWALEntry :=
  if (0 <? w_sz w)%nat || (length (w_Values w) =? 0)%nat then (w_sz w, w)
  else
    match entry_size (w_Values w) with
    | None => (0%nat, w)
    | Some n => let sz := (7 * length (w_Values w) + n)%nat in (sz, MkWrite (w_Values w) sz)
    end.

Definition entry_type (v : Value) : option Z :=
  match v with
  | VFloat _ => Some float64EntryType
  | VInteger _ => Some integerEntryType
  | VUnsigned _ => Some unsignedEntryType
  | VBoolean _ => Some booleanEntryType
  | VString _ => Some stringEntryType
  | VEmpty => None
  end.

(** The time and the value of one point. *)
Definition encode_value (curType : Z) (vv : Value) (st : cursor) : outcome cursor :=
  let! st := put (be_put 8 (u64 (UnixNano vv))) st in
  match entry_type vv with
  | None => Fail "unsupported value found"
  | Some t =>
    if negb (curType =? t) then Fail "incorrect value found"
    else
      match vv with
      | VFloat x => put (be_put 8 (value x)) st
      | VInteger x => put (be_put 8 (u64 (value x))) st
      | VUnsigned x => put (be_put 8 (value x)) st
      | VBoolean x => put [if value x then 1 else 0] st
      | VString x => let! st := put (be_put 4 (Z.of_nat (length (value x)))) st in copy_in (value x) st
      | VEmpty => Panic
      end
  end.
Fixpoint encode_values (curType : Z) (v : list Value) (st : cursor) : outcome cursor :=
  match v with
  | [] => Ret st
  | vv :: v => let! st := encode_value curType vv st in encode_values curType v st
  end.

(** One key with its values. *)
Definition encode_key (k : key) (v : list Value) (st : cursor) : outcome cursor :=
  let! v0 := or_panic (head v) in
  match entry_type v0 with
  | None => Fail "unsupported value type"
  | Some curType =>
    let! st := put [curType] st in
    let! st := put (be_put 2 (Z.of_nat (length k))) st in
    let! st := copy_in k st in
    let! st := put (be_put 4 (Z.of_nat (length v))) st in
    encode_values curType v st
  end.
Fixpoint encode_keys (kvs : list (key * list Value)) (st : cursor) : outcome cursor :=
  match kvs with
  | [] => Ret st
  | (k, v) :: kvs => let! st := encode_key k v st in encode_keys kvs st
  end.

Definition Encode (w : WriteWALEntry) (dst : list Z) : outcome (list Z) :=
  let '(encLen, w) := MarshalSize w in
  let dst := if (length dst <? encLen)%nat then replicate encLen 0 else take encLen dst in
  let! (dst, n) := encode_keys (w_Values w) (dst, 0%nat) in
  Ret (take n dst).

Definition MarshalBinary (w : WriteWALEntry) : outcome (list Z) :=
  let '(sz, w) := MarshalSize w in Encode w (replicate sz 0).

(** ** Parsing write entries *)

(** [binary.BigEndian.Uint64(b\[i:i+8\]); i += 8], on the bytes from [i] on. *)
Definition take_be (n : nat) (rest : list Z) : outcome (Z * list Z) :=
  if (length rest <? n)%nat then Panic else Ret (be_get (take n rest), drop n rest).

(** [for j := 0; j < nvals; j++] *)
Fixpoint read_n {A} (step : list Z -> outcome (A * list Z)) (n : nat) (rest : list Z) : outcome (list A * list Z) :=
  match n with
  | O => Ret ([], rest)
  | S n =>
    let! (x, rest) := step rest in
    let! (xs, rest) := read_n step n rest in
    Ret (x :: xs, rest)
  end.

Definition read_time (rest : list Z) : outcome (Z * list Z) :=
  let! (un, rest) := take_be 8 rest in Ret (i64 un, rest).

Definition read_float (rest : list Z) : outcome (Value * list Z) :=
  let! (un, rest) := read_time rest in
  let! (v, rest) := take_be 8 rest in Ret (VFloat (MkValue un v), rest).
Definition read_integer (rest : list Z) : outcome (Value * list Z) :=
  let! (un, rest) := read_time rest in
  let! (v, rest) := take_be 8 rest in Ret (VInteger (MkValue un (i64 v)), rest).
Definition read_unsigned (rest : list Z) : outcome (Value * list Z) :=
  let! (un, rest) := read_time rest in
  let! (v, rest) := take_be 8 rest in Ret (VUnsigned (MkValue un v), rest).
Definition read_boolean (rest : list Z) : outcome (Value * list Z) :=
  let! (un, rest) := read_time rest in
  let! v := or_panic (head rest) in Ret (VBoolean (MkValue un (v =? 1)), drop 1 rest).
Definition read_string (rest : list Z) : outcome (Value * list Z) :=
  if (length rest <? 12)%nat then Fail ErrWALCorrupt
  else
    let! (un, rest) := read_time rest in
    let! (len, after) := take_be 4 rest in
    let n := Z.to_nat len in
    if (length rest <? n)%nat then Fail ErrWALCorrupt
    else if (length after <? n)%nat then Fail ErrWALCorrupt
    else Ret (VString (MkValue un (take n after)), drop n after).

Definition fixed (width nvals : nat) (step : list Z -> outcome (Value * list Z)) (rest : list Z) : outcome (list Value * list Z) :=
  if (length rest <? width * nvals)%nat then Fail ErrWALCorrupt else read_n step nvals rest.

Definition read_values (typ : Z) (nvals : nat) (rest : list Z) : outcome (list Value * list Z) :=
  if typ =? float64EntryType then fixed 16 nvals read_float rest
  else if typ =? integerEntryType then fixed 16 nvals read_integer rest
  else if typ =? unsignedEntryType then fixed 16 nvals read_unsigned rest
  else if typ =? booleanEntryType then fixed 9 nvals read_boolean rest
  else if typ =? stringEntryType then read_n read_string nvals rest
  else Fail "unsupported value type".

(** One key of the entry; [total] is [len(b)]. *)
Definition read_key (total : nat) (typ : Z) (rest : list Z) : outcome ((key * list Value) * list Z) :=
  if (length rest <? 2)%nat then Fail ErrWALCorrupt
  else
    let! (len, rest) := take_be 2 rest in
    let n := Z.to_nat len in
    if (length rest <? n)%nat then Fail ErrWALCorrupt
    else
      let k := take n rest in
      let rest := drop n rest in
      if (length rest <? 4)%nat then Fail ErrWALCorrupt
      else
        let! (nvals, rest) := take_be 4 rest in
        if (nvals <=? 0) || (Z.of_nat total <? nvals) then Fail ErrWALCorrupt
        else
          let! (values, rest) := read_values typ (Z.to_nat nvals) rest in
          Ret ((k, values), rest).

(** [for i < len(b)]: every round takes at least the type byte. *)
Fixpoint unmarshal_loop (fuel : nat) (total : nat) (rest : list Z) (m : gmap key (list Value)) : outcome (gmap key (list Value)) :=
  match fuel with
  | O => Panic
  | S f =>
    match rest with
    | [] => Ret m
    | typ :: rest =>
      let! ((k, values), rest) := read_key total typ rest in
      unmarshal_loop f total rest (<[k := values]> m)
    end
  end.

(** [Values] is the map of the receiver, which the reader makes empty. *)
Definition UnmarshalBinary (b : list Z) (m : gmap key (list Value)) : outcome (gmap key (list Value)) :=
  unmarshal_loop (S (length b)) (length b) b m.

(** ** Delete entries *)

Definition newline : Z := 10.

Definition Delete_MarshalSize (keys : list key) : nat :=
  match keys with [] => 0%nat | _ => (length keys + sum_list (length <$> keys))%nat end.

Fixpoint copy_keys (keys : list key) (st : cursor) : outcome cursor :=
  match keys with
  | [] => Ret st
  | k :: keys => let! st := copy_in k st in let! st := copy_in [newline] st in copy_keys keys st
  end.

Definition Delete_Encode (keys : list key) (dst : list Z) : outcome (list Z) :=
  let sz := Delete_MarshalSize keys in
  let dst := if (length dst <? sz)%nat then replicate sz 0 else dst in
  let! (dst, n) := copy_keys keys (dst, 0%nat) in
  if (n =? 0)%nat then Panic else Ret (take (n - 1) dst).

(** [bytes.Split(buf, \[\]byte("\n"))] *)
Fixpoint Split (b : list Z) : list (list Z) :=
  match b with
  | [] => [[]]
  | x :: b =>
    if x =? newline then [] :: Split b
    else match Split b with [] => [[x]] | k :: ks => (x :: k) :: ks end
  end.

Definition Delete_UnmarshalBinary (b : list Z) : outcome (list key) :=
  match b with [] => Ret [] | _ => Ret (Split b) end.

(** ** Delete-range entries *)

Definition DeleteRange_MarshalSize (keys : list key) : nat := (16 + length keys * 4 + sum_list (length <$> keys))%nat.

Fixpoint put_keys (keys : list key) (st : cursor) : outcome cursor :=
  match keys with
  | [] => Ret st
  | k :: keys => let! st := put (be_put 4 (Z.of_nat (length k))) st in let! st := copy_in k st in put_keys keys st
  end.

Definition DeleteRange_Encode (keys : list key) (min max : Z) (b : list Z) : outcome (list Z) :=
  let sz := DeleteRange_MarshalSize keys in
  let b := if (length b <? sz)%nat then replicate sz 0 else b in
  let! st := put (be_put 8 (u64 min)) (b, 0%nat) in
  let! st := put (be_put 8 (u64 max)) st in
  let! (b, i) := put_keys keys st in
  Ret (take i b).

Fixpoint read_keys (fuel : nat) (rest : list Z) : outcome (list key) :=
  match fuel with
  | O => Panic
  | S f =>
    if (length rest =? 0)%nat then Ret []
    else if (length rest <? 4)%nat then Fail ErrWALCorrupt
    else
      let! (sz, rest) := take_be 4 rest in
      let n := Z.to_nat sz in
      if (length rest <? n)%nat then Fail ErrWALCorrupt
      else let! ks := read_keys f (drop n rest) in Ret (take n rest :: ks)
  end.

(** The keys, [Min] and [Max]. *)
Definition DeleteRange_UnmarshalBinary (b : list Z) : outcome (list key * Z * Z) :=
  if (length b <? 16)%nat then Fail ErrWALCorrupt
  else
    let! (min, rest) := take_be 8 b in
    let! (max, rest) := take_be 8 rest in
    let! ks := read_keys (S (length rest)) rest in
    Ret (ks, i64 min, i64 max).

(** ** The layout of an entry *)

Definition payload (v : Value) : list Z :=
  match v with
  | VFloat x => be_put 8 (value x)
  | VInteger x => be_put 8 (u64 (value x))
  | VUnsigned x => be_put 8 (value x)
  | VBoolean x => [if value x then 1 else 0]
  | VString x => be_put 4 (Z.of_nat (length (value x))) ++ value x
  | VEmpty => []
  end.
Definition value_bytes (v : Value) : list Z := be_put 8 (u64 (UnixNano v)) ++ payload v.
Definition values_bytes (v : list Value) : list Z := concat (value_bytes <$> v).
Definition key_bytes (x : key * list Value) : list Z :=
  [default 0 (head x.2 ≫= entry_type)] ++ be_put 2 (Z.of_nat (length x.1)) ++ x.1 ++ be_put 4 (Z.of_nat (length x.2)) ++ values_bytes x.2.
Definition write_bytes (kvs : list (key * list Value)) : list Z := concat (key_bytes <$> kvs).

(** A value of the type [t] that Go can hold and the layout can represent. *)
Definition value_ok (t : Z) (v : Value) : Prop :=
  entry_type v = Some t /\ is_i64 (UnixNano v) /\
  match v with
  | VFloat x => is_u64 (value x)
  | VInteger x => is_i64 (value x)
  | VUnsigned x => is_u64 (value x)
  | VString x => Z.of_nat (length (value x)) < 2 ^ 32
  | _ => True
  end.
Record kv_ok (x : key * list Value) : Prop := {
  kv_nonempty : x.2 <> [];
  kv_values : exists t, Forall (value_ok t) x.2;
  kv_key : Z.of_nat (length x.1) < 2 ^ 16;
  kv_count : Z.of_nat (length x.2) < 2 ^ 32 }.

(** ** Sequential writing *)

(** A buffer of [L] bytes that begins with [out]. *)
Definition at_out (L : nat) (st : cursor) (out : list Z) : Prop :=
  length st.1 = L /\ st.2 = length out /\ take (length out) st.1 = out /\ (length out <= L)%nat.

Lemma put_run L st out bs :
  at_out L st out -> (length out + length bs <= L)%nat -> exists st', put bs st = Ret st' /\ at_out L st' (out ++ bs).
Proof.
  destruct st as [dst n]. intros (H1 & H2 & H3 & H4) Hl. cbn in H1, H2, H3. subst n. unfold put. rewrite H1, (proj2 (Nat.leb_le _ _) Hl).
  eexists. split; [reflexivity|]. destruct (StringCodec.put_at_spec dst (length out) bs ltac:(lia)) as [P1 P2].
  unfold at_out. cbn. rewrite length_app. split_and!; [lia|done| |lia]. by rewrite P2, H3.
Qed.

Lemma copy_in_run L st out bs :
  at_out L st out -> (length out + length bs <= L)%nat -> exists st', copy_in bs st = Ret st' /\ at_out L st' (out ++ bs).
Proof.
  destruct st as [dst n]. intros H Hl. pose proof (put_run L (dst, n) out bs H Hl) as Hp. destruct H as (H1 & H2 & H3 & H4). cbn in H1, H2. subst n.
  unfold copy_in. rewrite H1, (proj2 (Nat.leb_le _ _) H4), take_ge by lia. unfold put in Hp. rewrite H1, (proj2 (Nat.leb_le _ _) Hl) in Hp. done.
Qed.

(** The steps of an encoder, one after the other. *)
Ltac emit :=
  match goal with
  | H : at_out ?L ?st ?out |- context [put ?bs ?st] =>
    let st' := fresh "st" in let E := fresh "E" in let H' := fresh "H" in
    destruct (put_run L st out bs H) as (st' & E & H'); [|rewrite E; clear E H; cbn [obind]]
  | H : at_out ?L ?st ?out |- context [copy_in ?bs ?st] =>
    let st' := fresh "st" in let E := fresh "E" in let H' := fresh "H" in
    destruct (copy_in_run L st out bs H) as (st' & E & H'); [|rewrite E; clear E H; cbn [obind]]
  end.

Lemma values_bytes_cons v vs : values_bytes (v :: vs) = value_bytes v ++ values_bytes vs.
Proof. done. Qed.

Lemma encode_value_run L t v st out :
  value_ok t v -> at_out L st out -> (length out + length (value_bytes v) <= L)%nat ->
  exists st', encode_value t v st = Ret st' /\ at_out L st' (out ++ value_bytes v).
Proof.
  intros (Ht & _ & _) H Hl. unfold encode_value, value_bytes in *. rewrite length_app in Hl. emit; [rewrite be_put_length in *; lia|].
  rewrite Ht, Z.eqb_refl. cbn [negb]. rewrite app_assoc.
  destruct v; try done; cbn [payload] in *; try (apply put_run; [done|rewrite length_app; lia]).
  rewrite length_app in Hl. emit; [rewrite length_app; lia|]. rewrite app_assoc. apply copy_in_run; [done|]. rewrite !length_app. lia.
Qed.

Lemma encode_values_run L t vs st out :
  Forall (value_ok t) vs -> at_out L st out -> (length out + length (values_bytes vs) <= L)%nat ->
  exists st', encode_values t vs st = Ret st' /\ at_out L st' (out ++ values_bytes vs).
Proof.
  intros Hv. revert st out. induction Hv as [|v vs H0 Hv IH]; intros st out H Hl.
  - exists st. cbn. by rewrite app_nil_r.
  - rewrite values_bytes_cons in *. rewrite length_app in Hl. cbn [encode_values].
    destruct (encode_value_run L t v st out H0 H ltac:(lia)) as (st1 & -> & H1). cbn [obind].
    rewrite app_assoc. apply IH; [done|]. rewrite length_app. lia.
Qed.

Lemma encode_key_run L x st out :
  kv_ok x -> at_out L st out -> (length out + length (key_bytes x) <= L)%nat ->
  exists st', encode_key x.1 x.2 st = Ret st' /\ at_out L st' (out ++ key_bytes x).
Proof.
  destruct x as [k vs]. intros [Hne (t & Hv) _ _] H Hl. unfold encode_key, key_bytes in *. cbn [fst snd] in *.
  destruct vs as [|v vs]; [done|]. apply Forall_cons_1 in Hv as Hv0. destruct Hv0 as [(Ht & _) _].
  assert (Hd : default 0 (head (v :: vs) ≫= entry_type) = t) by (cbn; by rewrite Ht). rewrite Hd in *. rewrite !length_app in Hl.
  cbn [head or_panic obind]. rewrite Ht.
  emit; [lia|]. emit; [rewrite length_app; lia|]. emit; [rewrite !length_app; lia|]. emit; [rewrite !length_app; lia|].
  rewrite !app_assoc. apply encode_values_run; [done|eassumption|]. rewrite !length_app. lia.
Qed.

Lemma encode_keys_run L kvs st out :
  Forall kv_ok kvs -> at_out L st out -> (length out + length (write_bytes kvs) <= L)%nat ->
  exists st', encode_keys kvs st = Ret st' /\ at_out L st' (out ++ write_bytes kvs).
Proof.
  intros Hv. revert st out. induction Hv as [|[k v] kvs H0 Hv IH]; intros st out H Hl.
  - exists st. cbn. by rewrite app_nil_r.
  - change (write_bytes ((k, v) :: kvs)) with (key_bytes (k, v) ++ write_bytes kvs) in *. rewrite length_app in Hl. cbn [encode_keys].
    destruct (encode_key_run L (k, v) st out H0 H ltac:(lia)) as (st1 & E & H1). cbn [fst snd] in E. rewrite E. cbn [obind].
    rewrite app_assoc. apply IH; [done|]. rewrite length_app. lia.
Qed.

(** ** The size announced is the size written *)

Lemma slice_size_run t vs : vs <> [] -> Forall (value_ok t) vs -> exists n, slice_size vs = Some n /\ length (values_bytes vs) = (8 * length vs + n)%nat.
Proof.
  assert (Hfix : forall w, Forall (fun v => length (payload v) = w) vs -> length (values_bytes vs) = (8 * length vs + w * length vs)%nat).
  { intros w Hw. clear -Hw. induction Hw as [|v vs H Hw IH]; [cbn; lia|]. rewrite values_bytes_cons. unfold value_bytes.
    rewrite !length_app, be_put_length, H, IH. cbn [length]. lia. }
  intros Hne Hv. destruct vs as [|v vs]; [done|]. apply Forall_cons_1 in Hv as H0. destruct H0 as [(Ht & _) _].
  assert (Hty : Forall (fun x => entry_type x = entry_type v) (v :: vs)) by (eapply Forall_impl; [exact Hv|]; intros x (Hx & _); congruence).
  destruct v as [x|x|x|x|x|]; [| | | | |done]; cbn [slice_size].
  all: try (eexists; split; [reflexivity|]; rewrite (Hfix 8%nat) || rewrite (Hfix 1%nat); [lia|];
    eapply Forall_impl; [exact Hty|]; intros [] Hy; try done; cbn; apply be_put_length).
  - eexists. split; [reflexivity|]. rewrite (Hfix 1%nat); [lia|]. eapply Forall_impl; [exact Hty|]. by intros [] Hy.
  - clear -Hty. induction (VString x :: vs) as [|y l IH]; [by exists 0%nat|]. apply Forall_cons_1 in Hty as [Hy Hty].
    destruct y as [|?|?|?|y|]; try done. destruct (IH Hty) as (n & E & Hl). cbn [strings_size]. rewrite E. cbn [mbind option_bind].
    eexists. split; [reflexivity|]. rewrite values_bytes_cons. unfold value_bytes. cbn [payload].
    rewrite !length_app, !be_put_length, Hl. cbn [length]. lia.
Qed.

Lemma entry_size_run kvs :
  Forall kv_ok kvs -> exists n, entry_size kvs = Some n /\ length (write_bytes kvs) = (7 * length kvs + n)%nat.
Proof.
  induction 1 as [|[k vs] kvs [Hne [t Hv] _ _] Hk IH]; [by exists 0%nat|]. destruct IH as (m & E & Hl).
  destruct (slice_size_run t vs Hne Hv) as (n & En & Hn). cbn [entry_size]. cbn [snd] in *. rewrite En, E. cbn [mbind option_bind].
  eexists. split; [reflexivity|]. change (write_bytes ((k, vs) :: kvs)) with (key_bytes (k, vs) ++ write_bytes kvs).
  unfold key_bytes. cbn [fst snd]. rewrite !length_app, !be_put_length, Hn, Hl. cbn [length]. lia.
Qed.

Lemma MarshalSize_run w :
  Forall kv_ok (w_Values w) -> w_sz w = 0%nat \/ w_sz w = length (write_bytes (w_Values w)) ->
  MarshalSize w = (length (write_bytes (w_Values w)), MkWrite (w_Values w) (length (write_bytes (w_Values w)))).
Proof.
  intros Hk Hs. destruct w as [kvs sz]. cbn [w_Values w_sz] in *. unfold MarshalSize. cbn [w_Values w_sz].
  destruct (Nat.ltb_spec 0 sz); cbn [orb]; [by destruct Hs as [->| ->]; [lia|]|].
  assert (sz = 0%nat) as -> by lia. destruct (Nat.eqb_spec (length kvs) 0) as [E|E]; [by destruct kvs|].
  destruct (entry_size_run kvs Hk) as (n & -> & <-). done.
Qed.

Lemma Encode_run w dst :
  Forall kv_ok (w_Values w) -> w_sz w = 0%nat \/ w_sz w = length (write_bytes (w_Values w)) ->
  Encode w dst = Ret (write_bytes (w_Values w)).
Proof.
  intros Hk Hs. unfold Encode. rewrite MarshalSize_run by done. cbn [w_Values]. set (bs := write_bytes _).
  set (d := if (_ <? _)%nat then _ else _). assert (Hd : length d = length bs).
  { unfold d. destruct (Nat.ltb_spec (length dst) (length bs)); [apply length_replicate|rewrite length_take; lia]. }
  destruct (encode_keys_run (length bs) (w_Values w) (d, 0%nat) []) as ([d' n] & -> & H1 & H2 & H3 & _);
    [done|unfold at_out; cbn; split_and!; try done; lia|unfold bs; cbn; lia|]. cbn [obind app fst snd] in *. subst n. by rewrite H3.
Qed.

(** ** Parsing what was written *)

Lemma take_be_put n x rest : take_be n (be_put n x ++ rest) = Ret (x mod 2 ^ (8 * Z.of_nat n), rest).
Proof.
  unfold take_be. rewrite length_app, be_put_length, (proj2 (Nat.ltb_ge _ _)) by lia.
  rewrite take_app_length', drop_app_length' by (by rewrite be_put_length). by rewrite be_get_put.
Qed.

Lemma take_be_u64 x rest : is_u64 x -> take_be 8 (be_put 8 x ++ rest) = Ret (x, rest).
Proof. intros H. rewrite take_be_put. by rewrite (Z.mod_small x) by exact H. Qed.

Lemma read_time_run t rest : is_i64 t -> read_time (be_put 8 (u64 t) ++ rest) = Ret (t, rest).
Proof. intros H. unfold read_time. rewrite take_be_u64 by auto with words. cbn [obind]. by rewrite i64_u64, i64_id. Qed.

Lemma read_n_run {A} (step : list Z -> outcome (A * list Z)) (enc : A -> list Z) xs rest :
  Forall (fun x => forall rest, step (enc x ++ rest) = Ret (x, rest)) xs ->
  read_n step (length xs) (concat (enc <$> xs) ++ rest) = Ret (xs, rest).
Proof.
  induction 1 as [|x xs Hx _ IH]; [done|]. cbn [length read_n fmap list_fmap concat]. rewrite <- app_assoc, Hx. cbn [obind].
  change (list_fmap _ _ enc xs) with (enc <$> xs). by rewrite IH.
Qed.

(** How one value of each type is read back. *)
Definition step_of (t : Z) : list Z -> outcome (Value * list Z) :=
  if t =? float64EntryType then read_float
  else if t =? integerEntryType then read_integer
  else if t =? unsignedEntryType then read_unsigned
  else if t =? booleanEntryType then read_boolean
  else read_string.

Lemma step_run t v rest : value_ok t v -> step_of t (value_bytes v ++ rest) = Ret (v, rest).
Proof.
  intros (Ht & Hi & Hp). unfold value_bytes. rewrite <- app_assoc.
  destruct v as [[un x]|[un x]|[un x]|[un x]|[un x]|]; cbn in Ht, Hi, Hp; try done; injection Ht as <-; cbn [step_of payload];
    change (step_of _) with read_float || change (step_of _) with read_integer || change (step_of _) with read_unsigned ||
    change (step_of _) with read_boolean || change (step_of _) with read_string; cbn [UnixNano unixnano value].
  - unfold read_float. rewrite read_time_run by done. cbn [obind]. by rewrite take_be_u64.
  - unfold read_integer. rewrite read_time_run by done. cbn [obind]. rewrite take_be_u64 by auto with words. cbn [obind].
    by rewrite i64_u64, i64_id.
  - unfold read_unsigned. rewrite read_time_run by done. cbn [obind]. by rewrite take_be_u64.
  - unfold read_boolean. rewrite read_time_run by done. cbn [obind app head or_panic drop]. rewrite drop_0. by destruct x.
  - unfold read_string. rewrite !length_app, !be_put_length, (proj2 (Nat.ltb_ge _ 12)) by lia. rewrite read_time_run by done. cbn [obind].
    rewrite <- app_assoc, take_be_put. cbn [obind]. rewrite Z.mod_small by (cbn; lia). rewrite Nat2Z.id.
    rewrite !length_app, be_put_length, !(proj2 (Nat.ltb_ge _ _)) by lia.
    by rewrite take_app_length, drop_app_length.
Qed.

Lemma entry_type_range v t : entry_type v = Some t -> In t [1; 2; 3; 4; 5].
Proof. destruct v; cbn; intros [= <-]; cbn; auto 6. Qed.

Lemma value_bytes_min v : (8 <= length (value_bytes v))%nat.
Proof. unfold value_bytes. rewrite length_app, be_put_length. lia. Qed.

Lemma values_bytes_min vs : (8 * length vs <= length (values_bytes vs))%nat.
Proof.
  induction vs as [|v vs IH]; [done|]. rewrite values_bytes_cons, length_app. pose proof (value_bytes_min v). cbn [length]. lia.
Qed.

Lemma payload_width t v : value_ok t v -> t <> 4 -> length (value_bytes v) = (if t =? 3 then 9%nat else 16%nat).
Proof.
  intros (Ht & _ & _) Hn. unfold value_bytes. rewrite length_app, be_put_length.
  destruct v; cbn in Ht; try done; injection Ht as <-; cbn [payload]; rewrite ?be_put_length; done.
Qed.

Lemma values_width w vs : Forall (fun v => length (value_bytes v) = w) vs -> length (values_bytes vs) = (w * length vs)%nat.
Proof. induction 1 as [|v vs H _ IH]; [cbn; lia|]. rewrite values_bytes_cons, length_app, H, IH. cbn [length]. lia. Qed.

Lemma read_values_run t vs rest :
  Forall (value_ok t) vs -> vs <> [] -> read_values t (length vs) (values_bytes vs ++ rest) = Ret (vs, rest).
Proof.
  intros Hv Hne. assert (Hr : read_n (step_of t) (length vs) (values_bytes vs ++ rest) = Ret (vs, rest)).
  { apply read_n_run. eapply Forall_impl; [exact Hv|]. intros v Hx r. by apply step_run. }
  assert (Hin : In t [1; 2; 3; 4; 5]).
  { destruct vs as [|v vs]; [done|]. apply Forall_cons_1 in Hv as [(Ht & _) _]. by eapply entry_type_range. }
  assert (Hw : t <> 4 -> (length (values_bytes vs ++ rest) <? (if (t =? 3)%Z then 9 else 16) * length vs)%nat = false).
  { intros Hn. apply Nat.ltb_ge. rewrite length_app, (values_width (if t =? 3 then 9%nat else 16%nat)); [destruct (t =? 3); lia|].
    eapply Forall_impl; [exact Hv|]. intros v Hx. by apply payload_width. }
  unfold read_values, fixed. cbn in Hin. destruct Hin as [<-|[<-|[<-|[<-|[<-|[]]]]]]; cbn [Z.eqb Pos.eqb] in Hw; cbn [Z.eqb Pos.eqb] in *;
    try (specialize (Hw ltac:(done)); cbn [Nat.mul] in *); unfold float64EntryType, integerEntryType, unsignedEntryType, booleanEntryType, stringEntryType in *;
    cbn [Z.eqb Pos.eqb]; rewrite ?Hw; exact Hr.
Qed.

Lemma read_key_run total x rest :
  kv_ok x -> (length (key_bytes x) <= total)%nat ->
  exists t tl, key_bytes x ++ rest = t :: tl /\ read_key total t tl = Ret (x, rest).
Proof.
  destruct x as [k vs]. intros [Hne (t & Hv) Hk Hc] Hl. cbn [fst snd] in *. pose proof (values_bytes_min vs) as Hmin.
  assert (Hd : default 0 (head vs ≫= entry_type) = t).
  { destruct vs as [|v vs]; [done|]. apply Forall_cons_1 in Hv as [(Ht & _) _]. cbn. by rewrite Ht. }
  unfold key_bytes in *. cbn [fst snd] in *. rewrite Hd in *.
  exists t, (be_put 2 (Z.of_nat (length k)) ++ k ++ be_put 4 (Z.of_nat (length vs)) ++ values_bytes vs ++ rest).
  split; [by rewrite <- !app_assoc|]. unfold read_key.
  rewrite !length_app, !be_put_length in *. rewrite (proj2 (Nat.ltb_ge _ 2)) by lia. rewrite take_be_put. cbn [obind].
  rewrite (Z.mod_small _ (2 ^ (8 * Z.of_nat 2))) by (cbn; lia). rewrite Nat2Z.id, length_app, (proj2 (Nat.ltb_ge _ (length k))) by lia.
  rewrite take_app_length, drop_app_length. rewrite !length_app, be_put_length, (proj2 (Nat.ltb_ge _ 4)) by lia.
  rewrite take_be_put. cbn [obind]. rewrite (Z.mod_small _ (2 ^ (8 * Z.of_nat 4))) by (cbn; lia).
  assert (Hpos : (0 < length vs)%nat) by (destruct vs; [done|cbn; lia]). cbn [length] in Hl.
  rewrite (proj2 (Z.leb_gt _ 0)) by lia. rewrite (proj2 (Z.ltb_ge _ _)) by lia. cbn [orb]. rewrite Nat2Z.id.
  rewrite read_values_run by done. done.
Qed.

(** The map a list of keys and values stands for, later ones winning. *)
Definition insert_all (kvs : list (key * list Value)) (m : gmap key (list Value)) : gmap key (list Value) :=
  foldl (fun m x => <[x.1 := x.2]> m) m kvs.

Lemma insert_all_map kvs : NoDup kvs.*1 -> insert_all kvs ∅ = list_to_map kvs.
Proof.
  assert (H : forall m, NoDup kvs.*1 -> insert_all kvs m = list_to_map kvs ∪ m).
  { induction kvs as [|[k v] kvs IH]; intros m Hn; [cbn; by rewrite (left_id_L ∅ (∪))|]. cbn [insert_all foldl fst snd].
    apply NoDup_cons in Hn as [Hk Hn]. change (foldl _ ?m kvs) with (insert_all kvs m). rewrite IH by done.
    cbn [list_to_map foldr fst snd]. rewrite <- insert_union_r, insert_union_l; [done|].
    by apply (not_elem_of_list_to_map_1 (M := gmap key)). }
  intros Hn. rewrite H by done. apply (right_id_L ∅ (∪)).
Qed.

Lemma unmarshal_loop_run total kvs fuel m :
  Forall kv_ok kvs -> (length (write_bytes kvs) <= total)%nat -> (length (write_bytes kvs) < fuel)%nat ->
  unmarshal_loop fuel total (write_bytes kvs) m = Ret (insert_all kvs m).
Proof.
  intros Hk. revert fuel m. induction Hk as [|[k v] kvs H0 Hk IH]; intros fuel m Ht Hf; (destruct fuel as [|fuel]; [lia|]); [done|].
  change (write_bytes ((k, v) :: kvs)) with (key_bytes (k, v) ++ write_bytes kvs) in *. rewrite length_app in Ht, Hf.
  destruct (read_key_run total (k, v) (write_bytes kvs) H0 ltac:(lia)) as (t & tl & -> & E). cbn [unmarshal_loop]. rewrite E. cbn [obind].
  assert (1 <= length (key_bytes (k, v)))%nat by (unfold key_bytes; rewrite length_app; cbn [length]; lia).
  rewrite IH by lia. done.
Qed.

Lemma UnmarshalBinary_run kvs : Forall kv_ok kvs -> UnmarshalBinary (write_bytes kvs) ∅ = Ret (insert_all kvs ∅).
Proof. intros Hk. apply unmarshal_loop_run; [done|lia..]. Qed.

(** ** Delete entries *)

Definition keys_bytes (keys : list key) : list Z := concat ((fun k => k ++ [newline]) <$> keys).

Lemma copy_keys_run L keys st out :
  at_out L st out -> (length out + length (keys_bytes keys) <= L)%nat ->
  exists st', copy_keys keys st = Ret st' /\ at_out L st' (out ++ keys_bytes keys).
Proof.
  revert st out. induction keys as [|k keys IH]; intros st out H Hl; [exists st; cbn; by rewrite app_nil_r|].
  change (keys_bytes (k :: keys)) with ((k ++ [newline]) ++ keys_bytes keys) in *. rewrite !length_app in Hl. cbn [copy_keys].
  emit; [lia|]. emit; [rewrite length_app; lia|]. rewrite !app_assoc. apply IH; [done|]. rewrite !length_app. lia.
Qed.

Lemma keys_bytes_length keys : length (keys_bytes keys) = (length keys + sum_list (length <$> keys))%nat.
Proof.
  induction keys as [|k keys IH]; [done|]. change (keys_bytes (k :: keys)) with ((k ++ [newline]) ++ keys_bytes keys).
  rewrite !length_app, IH. cbn. lia.
Qed.

Lemma Split_key k rest : Forall (fun x => x <> newline) k -> Split (k ++ newline :: rest) = k :: Split rest.
Proof.
  induction 1 as [|x k Hx _ IH]; [done|]. cbn [app Split]. rewrite (proj2 (Z.eqb_neq _ _) Hx), IH. done.
Qed.

Lemma Split_last k : Forall (fun x => x <> newline) k -> Split k = [k].
Proof. induction 1 as [|x k Hx _ IH]; [done|]. cbn [Split]. by rewrite (proj2 (Z.eqb_neq _ _) Hx), IH. Qed.

Lemma Split_keys keys :
  keys <> [] -> Forall (Forall (fun x => x <> newline)) keys -> Split (take (length (keys_bytes keys) - 1) (keys_bytes keys)) = keys.
Proof.
  induction keys as [|k keys IH]; intros Hne H; [done|]. apply Forall_cons_1 in H as [Hk H].
  change (keys_bytes (k :: keys)) with ((k ++ [newline]) ++ keys_bytes keys). destruct keys as [|k2 keys].
  - cbn. rewrite app_nil_r, length_app. cbn [length]. rewrite Nat.add_sub, take_app_length. by apply Split_last.
  - rewrite !length_app, take_app_ge by (rewrite length_app; cbn [length]; pose proof (keys_bytes_length (k2 :: keys)); cbn in *; lia).
    rewrite length_app. cbn [length]. replace (length k + 1 + length (keys_bytes (k2 :: keys)) - 1 - (length k + 1))%nat
      with (length (keys_bytes (k2 :: keys)) - 1)%nat by lia.
    rewrite <- app_assoc. cbn [app]. rewrite Split_key by done. by rewrite IH.
Qed.

Lemma Delete_Encode_run keys dst :
  keys <> [] -> Delete_Encode keys dst = Ret (take (length (keys_bytes keys) - 1) (keys_bytes keys)).
Proof.
  intros Hne. unfold Delete_Encode. assert (Hsz : Delete_MarshalSize keys = length (keys_bytes keys)) by (rewrite keys_bytes_length; by destruct keys).
  rewrite Hsz. set (d := if (_ <? _)%nat then _ else _). assert (Hd : (length (keys_bytes keys) <= length d)%nat).
  { unfold d. destruct (Nat.ltb_spec (length dst) (length (keys_bytes keys))); [rewrite length_replicate|]; lia. }
  destruct (copy_keys_run (length d) keys (d, 0%nat) []) as ([d' n] & -> & H1 & H2 & H3 & _);
    [unfold at_out; cbn; split_and!; try done; lia|cbn; lia|]. cbn [obind app fst snd] in *. subst n.
  assert (0 < length (keys_bytes keys))%nat by (rewrite keys_bytes_length; destruct keys; [done|cbn; lia]).
  rewrite (proj2 (Nat.eqb_neq _ 0)) by lia. f_equal.
  transitivity (take (length (keys_bytes keys) - 1) (take (length (keys_bytes keys)) d')); [by rewrite take_take, Nat.min_l by lia|by rewrite H3].
Qed.

(** ** Delete-range entries *)

Definition range_bytes (keys : list key) : list Z := concat ((fun k => be_put 4 (Z.of_nat (length k)) ++ k) <$> keys).

Lemma put_keys_run L keys st out :
  at_out L st out -> (length out + length (range_bytes keys) <= L)%nat ->
  exists st', put_keys keys st = Ret st' /\ at_out L st' (out ++ range_bytes keys).
Proof.
  revert st out. induction keys as [|k keys IH]; intros st out H Hl; [exists st; cbn; by rewrite app_nil_r|].
  change (range_bytes (k :: keys)) with ((be_put 4 (Z.of_nat (length k)) ++ k) ++ range_bytes keys) in *. rewrite !length_app in Hl. cbn [put_keys].
  emit; [lia|]. emit; [rewrite length_app; lia|]. rewrite !app_assoc. apply IH; [done|]. rewrite !length_app. lia.
Qed.

Lemma range_bytes_length keys : length (range_bytes keys) = (length keys * 4 + sum_list (length <$> keys))%nat.
Proof.
  induction keys as [|k keys IH]; [done|]. change (range_bytes (k :: keys)) with ((be_put 4 (Z.of_nat (length k)) ++ k) ++ range_bytes keys).
  rewrite !length_app, be_put_length, IH. cbn. lia.
Qed.

Lemma read_keys_run keys fuel :
  Forall (fun k => Z.of_nat (length k) < 2 ^ 32) keys -> (length (range_bytes keys) < fuel)%nat ->
  read_keys fuel (range_bytes keys) = Ret keys.
Proof.
  intros H. revert fuel. induction H as [|k keys Hk H IH]; intros fuel Hf; (destruct fuel as [|fuel]; [lia|]); [done|].
  change (range_bytes (k :: keys)) with ((be_put 4 (Z.of_nat (length k)) ++ k) ++ range_bytes keys) in *. cbn [read_keys].
  rewrite !length_app, be_put_length in *. rewrite (proj2 (Nat.eqb_neq _ 0)) by lia. rewrite (proj2 (Nat.ltb_ge _ 4)) by lia.
  rewrite <- app_assoc, take_be_put. cbn [obind]. rewrite Z.mod_small by (cbn; lia). rewrite Nat2Z.id, length_app.
  rewrite (proj2 (Nat.ltb_ge _ (length k))) by lia. rewrite take_app_length, drop_app_length, IH by lia. done.
Qed.

Lemma DeleteRange_Encode_run keys min max b :
  DeleteRange_Encode keys min max b = Ret (be_put 8 (u64 min) ++ be_put 8 (u64 max) ++ range_bytes keys).
Proof.
  unfold DeleteRange_Encode. assert (Hsz : DeleteRange_MarshalSize keys = (16 + length (range_bytes keys))%nat)
    by (rewrite range_bytes_length; unfold DeleteRange_MarshalSize; lia).
  rewrite Hsz. set (d := if (_ <? _)%nat then _ else _). assert (Hd : (16 + length (range_bytes keys) <= length d)%nat).
  { unfold d. destruct (Nat.ltb_spec (length b) (16 + length (range_bytes keys))); [rewrite length_replicate|]; lia. }
  assert (H : at_out (length d) (d, 0%nat) []) by (unfold at_out; cbn; split_and!; try done; lia).
  emit; [rewrite be_put_length; cbn; lia|]. emit; [rewrite !length_app, !be_put_length; cbn; lia|].
  destruct (put_keys_run (length d) keys _ _ H) as ([d' n] & -> & H1 & H2 & H3 & _); [rewrite !length_app, !be_put_length; cbn; lia|].
  cbn [obind app fst snd] in *. subst n. by rewrite H3, <- app_assoc.
Qed.

Lemma DeleteRange_Unmarshal_run keys min max :
  Forall (fun k => Z.of_nat (length k) < 2 ^ 32) keys -> is_i64 min -> is_i64 max ->
  DeleteRange_UnmarshalBinary (be_put 8 (u64 min) ++ be_put 8 (u64 max) ++ range_bytes keys) = Ret (keys, min, max).
Proof.
  intros Hk Hmin Hmax. unfold DeleteRange_UnmarshalBinary. rewrite !length_app, !be_put_length, (proj2 (Nat.ltb_ge _ 16)) by lia.
  rewrite take_be_u64 by auto with words. cbn [obind]. rewrite take_be_u64 by auto with words. cbn [obind].
  rewrite read_keys_run by (done || lia). cbn [obind]. by rewrite !i64_u64, !i64_id.
Qed.

(** ** Entries of any type *)

(** An entry to be written, and what reading one gives. *)
Inductive WALEntry : Type :=
| WriteEntry (kvs : list (key * list Value))
| DeleteEntry (keys : list key)
| DeleteRangeEntry (keys : list key) (min max : Z).
Inductive ReadEntry : Type :=
| ReadWrite (m : gmap key (list Value))
| ReadDelete (keys : list key)
| ReadDeleteRange (keys : list key) (min max : Z).

Definition entry_Type (e : WALEntry) : Z :=
  match e with
  | WriteEntry _ => WriteWALEntryType
  | DeleteEntry _ => DeleteWALEntryType
  | DeleteRangeEntry _ _ _ => DeleteRangeWALEntryType
  end.
Definition entry_Encode (e : WALEntry) (dst : list Z) : outcome (list Z) :=
  match e with
  | WriteEntry kvs => Encode (MkWrite kvs 0) dst
  | DeleteEntry keys => Delete_Encode keys dst
  | DeleteRangeEntry keys min max => DeleteRange_Encode keys min max dst
  end.

(** The entry of the type read and its parsing. *)
Definition unmarshal (entryType : Z) (data : list Z) : outcome ReadEntry :=
  if entryType =? WriteWALEntryType then let! m := UnmarshalBinary data ∅ in Ret (ReadWrite m)
  else if entryType =? DeleteWALEntryType then let! ks := Delete_UnmarshalBinary data in Ret (ReadDelete ks)
  else if entryType =? DeleteRangeWALEntryType then
    let! ((ks, min), max) := DeleteRange_UnmarshalBinary data in Ret (ReadDeleteRange ks min max)
  else Fail "unknown wal entry type".

(** Entries the layout represents: keys of a delete entry are separated by
    newlines, and the entry of one empty key is empty. *)
Definition entry_ok (e : WALEntry) : Prop :=
  match e with
  | WriteEntry kvs => Forall kv_ok kvs /\ NoDup kvs.*1
  | DeleteEntry keys => keys <> [] /\ keys <> [[]] /\ Forall (Forall (fun x => x <> newline)) keys
  | DeleteRangeEntry keys min max => Forall (fun k => Z.of_nat (length k) < 2 ^ 32) keys /\ is_i64 min /\ is_i64 max
  end.
Definition read_of (e : WALEntry) : ReadEntry :=
  match e with
  | WriteEntry kvs => ReadWrite (list_to_map kvs)
  | DeleteEntry keys => ReadDelete keys
  | DeleteRangeEntry keys min max => ReadDeleteRange keys min max
  end.

Lemma Split_length b : (length (Split b) <= S (length b))%nat.
Proof. induction b as [|x b IH]; [done|]. cbn [Split]. destruct (_ =? _); [cbn; lia|]. destruct (Split b); cbn in *; lia. Qed.

Lemma entry_codec e dst : entry_ok e -> exists b, entry_Encode e dst = Ret b /\ unmarshal (entry_Type e) b = Ret (read_of e).
Proof.
  destruct e as [kvs|keys|keys min max]; cbn [entry_ok entry_Encode entry_Type read_of].
  - intros [Hk Hn]. eexists. split; [apply (Encode_run (MkWrite kvs 0)); [done|by left]|]. unfold unmarshal. cbn [Z.eqb Pos.eqb].
    change (WriteWALEntryType =? WriteWALEntryType) with true. cbn iota. cbn [w_Values]. rewrite UnmarshalBinary_run by done. cbn [obind].
    by rewrite insert_all_map.
  - intros (Hne & He & Hk). eexists. split; [by apply Delete_Encode_run|]. unfold unmarshal.
    change (DeleteWALEntryType =? WriteWALEntryType) with false. change (DeleteWALEntryType =? DeleteWALEntryType) with true. cbn iota.
    pose proof (Split_keys keys Hne Hk) as Hs. unfold Delete_UnmarshalBinary. destruct (take _ _); [cbn in Hs; congruence|]. by rewrite Hs.
  - intros (Hk & Hmin & Hmax). eexists. split; [apply DeleteRange_Encode_run|]. unfold unmarshal.
    change (DeleteRangeWALEntryType =? WriteWALEntryType) with false. change (DeleteRangeWALEntryType =? DeleteWALEntryType) with false.
    change (DeleteRangeWALEntryType =? DeleteRangeWALEntryType) with true. cbn iota. by rewrite DeleteRange_Unmarshal_run.
Qed.

(** Every entry the layout represents, encoded into any buffer of the pool
    whatever it holds, is parsed back to the same entry: a write entry to the
    same map of keys and typed values in whatever order the map was visited,
    the delete entries to the same keys and range. *)
Theorem entry_roundtrip (e : WALEntry) (dst : list Z) :
  entry_ok e -> exists b, entry_Encode e dst = Ret b /\ unmarshal (entry_Type e) b = Ret (read_of e).
Proof. apply entry_codec. Qed.

(** ** Parsing arbitrary bytes *)

(** No panic, and no byte is read twice. *)
Definition good {A} (o : outcome (A * list Z)) (n : nat) : Prop :=
  match o with Ret (_, r) => (length r <= n)%nat | Fail _ => True | Panic => False end.

Lemma good_bind {A B} (o : outcome (A * list Z)) (f : A * list Z -> outcome (B * list Z)) n :
  good o n -> (forall a r, (length r <= n)%nat -> good (f (a, r)) n) -> good (obind o f) n.
Proof. destruct o as [[a r]|?|]; cbn; auto. Qed.

Lemma good_weaken {A} (o : outcome (A * list Z)) n m : good o n -> (n <= m)%nat -> good o m.
Proof. destruct o as [[a r]|?|]; cbn; auto; lia. Qed.

Lemma take_be_good n rest : (n <= length rest)%nat -> good (take_be n rest) (length rest).
Proof. intros H. unfold take_be. rewrite (proj2 (Nat.ltb_ge _ _) H). cbn. rewrite length_drop. lia. Qed.

Lemma take_be_some n rest : (n <= length rest)%nat -> take_be n rest = Ret (be_get (take n rest), drop n rest).
Proof. intros H. unfold take_be. by rewrite (proj2 (Nat.ltb_ge _ _) H). Qed.

Lemma read_n_fixed step w n rest :
  (forall r, (w <= length r)%nat -> exists x : Value, step r = Ret (x, drop w r)) -> (w * n <= length rest)%nat ->
  good (read_n step n rest) (length rest).
Proof.
  intros Hs. revert rest. induction n as [|n IH]; intros rest Hl; [cbn; lia|]. cbn [read_n]. destruct (Hs rest ltac:(lia)) as (x & ->). cbn [obind].
  specialize (IH (drop w rest)). rewrite length_drop in IH. apply good_bind; [eapply good_weaken; [apply IH; lia|lia]|]. intros a r Hr. done.
Qed.

Lemma read_n_good step n rest :
  (forall r, good (step r : outcome (Value * list Z)) (length r)) -> good (read_n step n rest) (length rest).
Proof.
  intros Hs. revert rest. induction n as [|n IH]; intros rest; [cbn; lia|]. cbn [read_n]. apply good_bind; [apply Hs|]. intros a r Hr.
  apply good_bind; [eapply good_weaken; [apply IH|lia]|]. done.
Qed.

Lemma wide_steps r : (16 <= length r)%nat ->
  (exists x, read_float r = Ret (x, drop 16 r)) /\ (exists x, read_integer r = Ret (x, drop 16 r)) /\ (exists x, read_unsigned r = Ret (x, drop 16 r)).
Proof.
  intros H. assert (Ht : read_time r = Ret (i64 (be_get (take 8 r)), drop 8 r)) by (unfold read_time; by rewrite take_be_some by lia).
  assert (Hv : take_be 8 (drop 8 r) = Ret (be_get (take 8 (drop 8 r)), drop 16 r)) by (by rewrite take_be_some, drop_drop by (rewrite length_drop; lia)).
  unfold read_float, read_integer, read_unsigned. rewrite Ht. cbn [obind]. rewrite Hv. cbn [obind]. split_and!; by eexists.
Qed.

Lemma boolean_step r : (9 <= length r)%nat -> exists x, read_boolean r = Ret (x, drop 9 r).
Proof.
  intros H. unfold read_boolean, read_time. rewrite take_be_some by lia. cbn [obind]. destruct (drop 8 r) as [|b l] eqn:E.
  - apply (f_equal length) in E. rewrite length_drop in E. cbn in E. lia.
  - cbn [head or_panic obind]. eexists. rewrite <- E, drop_drop. done.
Qed.

Lemma string_step r : good (read_string r) (length r).
Proof.
  unfold read_string. destruct (Nat.ltb_spec (length r) 12); [done|]. unfold read_time. rewrite take_be_some by lia. cbn [obind].
  rewrite take_be_some by (rewrite length_drop; lia). cbn [obind]. destruct (_ <? _)%nat; [done|]. destruct (_ <? _)%nat; [done|]. cbn.
  rewrite !length_drop. lia.
Qed.

Lemma read_values_good t n rest : good (read_values t n rest) (length rest).
Proof.
  unfold read_values, fixed. repeat (destruct (_ =? _); [first
    [destruct (Nat.ltb_spec (length rest) (16 * n)); [done|apply (read_n_fixed _ 16); [intros r Hr; apply (wide_steps r Hr)|done]]
    |destruct (Nat.ltb_spec (length rest) (9 * n)); [done|apply (read_n_fixed _ 9); [apply boolean_step|done]]
    |apply read_n_good, string_step]|]). done.
Qed.

Lemma read_key_good total t rest : good (read_key total t rest) (length rest).
Proof.
  unfold read_key. destruct (Nat.ltb_spec (length rest) 2); [done|]. apply good_bind; [by apply take_be_good|]. intros len r Hr. cbv zeta.
  destruct (_ <? _)%nat; [done|]. destruct (Nat.ltb_spec (length (drop (Z.to_nat len) r)) 4) as [|H4]; [done|].
  pose proof (take_be_good 4 _ H4) as H5. rewrite length_drop in H5. apply good_bind; [eapply good_weaken; [exact H5|lia]|]. intros nv r2 Hr2. destruct (_ || _); [done|].
  apply good_bind; [eapply good_weaken; [apply read_values_good|lia]|]. done.
Qed.

Lemma unmarshal_loop_safe fuel total rest m : (length rest < fuel)%nat -> unmarshal_loop fuel total rest m <> Panic.
Proof.
  revert rest m. induction fuel as [|fuel IH]; intros rest m Hf; [lia|]. cbn [unmarshal_loop]. destruct rest as [|t rest]; [done|].
  pose proof (read_key_good total t rest) as Hg. cbn in Hf. destruct (read_key total t rest) as [[[k vs] r]|?|]; cbn in *; [|done..]. apply IH. lia.
Qed.

Lemma read_keys_safe fuel rest : (length rest < fuel)%nat -> read_keys fuel rest <> Panic.
Proof.
  revert rest. induction fuel as [|fuel IH]; intros rest Hf; [lia|]. cbn [read_keys]. destruct (_ =? _)%nat; [done|].
  destruct (Nat.ltb_spec (length rest) 4); [done|]. rewrite take_be_some by lia. cbn [obind]. destruct (_ <? _)%nat; [done|].
  match goal with |- context [read_keys fuel ?r] => specialize (IH r); destruct (read_keys fuel r) end; cbn in *; try done.
  exfalso. apply IH; [|done]. rewrite !length_drop. lia.
Qed.

Lemma unmarshal_safe t data : unmarshal t data <> Panic.
Proof.
  unfold unmarshal. destruct (_ =? _).
  { pose proof (unmarshal_loop_safe (S (length data)) (length data) data ∅ ltac:(lia)) as H. unfold UnmarshalBinary.
    by destruct (unmarshal_loop _ _ _ _). }
  destruct (_ =? _); [by destruct data|]. destruct (_ =? _); [|done]. unfold DeleteRange_UnmarshalBinary.
  destruct (Nat.ltb_spec (length data) 16); [done|]. rewrite take_be_some by lia. cbn [obind]. rewrite take_be_some by (rewrite length_drop; lia). cbn [obind].
  match goal with |- context [read_keys ?f ?r] => pose proof (read_keys_safe f r ltac:(lia)); by destruct (read_keys f r) end.
Qed.

(** C32. Parsing an entry returns a result or an error for every byte string
    and every type byte: no length or count read from a corrupt log makes a
    slice expression panic or a loop run on. *)
Theorem unmarshal_never_panics (entryType : Z) (data : list Z) : unmarshal entryType data <> Panic.
Proof. apply unmarshal_safe. Qed.

(** Values that start with a string and go on with another type are sized 0,
    so that the first store into the buffer panics before the type error the
    encoder has for them can be returned. *)
Example mixed_strings_panic :
  entry_Encode (WriteEntry [([97], [VString (MkValue 1 [98]); VFloat (MkValue 2 3)])]) (replicate 64 0) = Panic /\
  entry_Encode (WriteEntry [([97], [VFloat (MkValue 2 3); VString (MkValue 1 [98])])]) (replicate 64 0) = Fail "incorrect value found".
Proof. by vm_compute. Qed.

(** A key with a newline is read as two keys. *)
Example newline_splits_key :
  (let! b := entry_Encode (DeleteEntry [[97; newline; 98]]) [] in unmarshal DeleteWALEntryType b) = Ret (ReadDelete [[97]; [98]]).
Proof. by vm_compute. Qed.

Definition sample_entry : WALEntry :=
  WriteEntry [([97], [VString (MkValue 1 [98]); VString (MkValue 2 [])]); ([98; 99], [VFloat (MkValue (-5) 7)]); ([], [VBoolean (MkValue 3 true)])].

Lemma sample_entry_ok : entry_ok sample_entry.
Proof.
  assert (Hk : forall (x : key * list Value) t, x.2 <> [] -> Forall (value_ok t) x.2 -> (Z.of_nat (length x.1) <? 2 ^ 16) = true ->
    (Z.of_nat (length x.2) <? 2 ^ 32) = true -> kv_ok x) by (intros x t H1 H2 H3 H4; split; [done|by exists t|lia|lia]).
  split; [|apply (bool_decide_unpack _); vm_compute; exact I].
  repeat (apply Forall_cons; split; [eapply Hk; [done| |done|done]|]); [..|apply Forall_nil; exact I];
    repeat (apply Forall_cons; split; [unfold value_ok; cbn; unint; split_and!; [reflexivity|lia..]|]); apply Forall_nil; exact I.
Qed.

Lemma entry_roundtrip_witness :
  exists b, entry_Encode sample_entry [7; 7] = Ret b /\ unmarshal WriteWALEntryType b = Ret (read_of sample_entry).
Proof. apply (entry_roundtrip sample_entry [7; 7] sample_entry_ok). Defined.
End Wal.
