(* ===== verification/WalLog.v ===== *)
(** * tsdb/engine/tsm1: the write-ahead log and its recovery

    Models the segment files of [wal.go] and [CacheLoader] of [cache.go]: the
    segment writer and reader, the log with its numbered segment files, and
    the loader that replays the segments into a cache and cuts off a torn
    tail.  A directory maps file names to contents; every call on it succeeds.
    Waiting for the disk and limiting concurrent encodings are left out: a
    write is in its file when the call returns.  The theorems show that what
    was written is what is replayed, across segment files and after a crash
    that tore the last write, as long as segment numbers have five digits. *)
From S2P Require Import Prelude StringCodec Values Ring Cache Wal.
From stdpp Require Import gmap sorting.
Import Values.
Import Wal.
#[global] Open Scope Z_scope.

(** [snappy.MaxEncodedLen] bounds the encoded length and is itself bounded by
    what four bytes hold. *)
Class SnappyLen (N : Snappy) := {
  sn_len dst src dst' res : sn_Encode dst src = Ret (dst', res) -> 0 <= sn_MaxEncodedLen (Z.of_nat (length src)) ->
    Z.of_nat (length res) <= sn_MaxEncodedLen (Z.of_nat (length src));
  sn_limit n : sn_MaxEncodedLen n < 2 ^ 32 }.

#[export] Instance store_snappy_len : SnappyLen store_snappy.
Proof.
  split; cbn [sn_MaxEncodedLen sn_Encode store_snappy].
  - intros dst src dst' res E. assert (res = 0 :: src) as -> by (destruct (_ <=? _)%nat in E; by injection E).
    destruct (_ || _) eqn:Eo; [lia|]. apply orb_false_iff in Eo as [E1 E2]. intros _. cbn [length]. pose proof (Z.div_pos (Z.of_nat (length src)) 6). lia.
  - intros n. destruct (_ || _) eqn:Eo; [lia|]. apply orb_false_iff in Eo as [E1 E2]. lia.
Qed.

Module WalLog.

Abbreviation name := (list Z).
Abbreviation dir := (gmap name (list Z)).

Definition DefaultSegmentSize : Z := 10 * 1024 * 1024.
Definition ErrWALClosed : string := "WAL closed".

(** ** File names *)

(** [fmt.Sprintf("%d", n)] *)
Fixpoint decimal (fuel : nat) (n : Z) : list Z :=
  match fuel with
  | O => []
  | S f => if n <? 10 then [48 + n] else decimal f (n / 10) ++ [48 + n mod 10]
  end.
(** [%05d] *)
Definition padded (n : Z) : list Z := let d := decimal 20 n in replicate (5 - length d) 48 ++ d.

Definition WALFilePrefix : list Z := [95].
Definition WALFileExtension : list Z := [119; 97; 108].
Definition segment_name (id : Z) : name := WALFilePrefix ++ padded id ++ [46] ++ WALFileExtension.

(** [filepath.Glob] with [_*.wal]. *)
Definition is_segment (n : name) : bool :=
  match n with
  | 95 :: n => bool_decide (drop (length n - 4) n = [46] ++ WALFileExtension)
  | _ => false
  end.
Definition segmentFileNames (d : dir) : list name := Ring.Sort (filter (fun n => is_segment n = true) (map_to_list d).*1).

(** [strconv.ParseUint(_, 10, 32)] on digits, without its range error. *)
Fixpoint parse_digits (acc : Z) (s : list Z) : option Z :=
  match s with
  | [] => Some acc
  | x :: s => if (48 <=? x) && (x <=? 57) then parse_digits (acc * 10 + (x - 48)) s else None
  end.
(** The text up to the only dot, and what follows it. *)
Fixpoint split_dot (s : list Z) : option (list Z * list Z) :=
  match s with
  | [] => None
  | x :: s => if x =? 46 then Some ([], s) else r ← split_dot s; Some (x :: r.1, r.2)
  end.
Definition idFromFileName (n : name) : outcome Z :=
  match split_dot n with
  | None => Fail "wrong name format"
  | Some (a, b) =>
    if bool_decide (46 ∈ b) then Fail "wrong name format"
    else
      match a with
      | [] => Panic
      | _ :: ds =>
        match ds with
        | [] => Fail "invalid syntax"
        | _ => match parse_digits 0 ds with Some id => if 2 ^ 32 <=? id then Fail "value out of range" else Ret id | None => Fail "invalid syntax" end
        end
      end
  end.

(** ** The segment writer *)

(** The file it writes to, the position in it, and the bytes counted. *)
Record WALSegmentWriter := MkWriter { sw_path : name; sw_pos : nat; sw_size : nat }.

(** A write past the end of a file fills the gap with zeros. *)
Definition file_write (d : dir) (n : name) (pos : nat) (bs : list Z) : dir :=
  let f := default [] (d !! n) in <[n := take pos f ++ replicate (pos - length f) 0 ++ bs ++ drop (pos + length bs) f]> d.

Definition frame (entryType : Z) (compressed : list Z) : list Z :=
  entryType :: be_put 4 (Z.of_nat (length compressed)) ++ compressed.

Definition Writer_Write (w : WALSegmentWriter) (d : dir) (entryType : Z) (compressed : list Z) : WALSegmentWriter * dir :=
  let bs := frame entryType compressed in
  (MkWriter (sw_path w) (sw_pos w + length bs) (sw_size w + length bs), file_write d (sw_path w) (sw_pos w) bs).

(** ** The log *)

(** [l_once] says that [once] has run; [l_closed] that the channel [closing]
    is closed. *)
Record WAL := MkWAL {
  l_currentSegmentID : Z;
  l_currentSegmentWriter : option WALSegmentWriter;
  l_SegmentSize : Z;
  l_once : bool;
  l_closed : bool;
  l_dir : dir }.

Definition set_writer (l : WAL) (w : option WALSegmentWriter) (d : dir) : WAL :=
  MkWAL (l_currentSegmentID l) w (l_SegmentSize l) (l_once l) (l_closed l) d.

Definition NewWAL (d : dir) : WAL := MkWAL 0 None DefaultSegmentSize false false d.

Definition Open (l : WAL) : outcome WAL :=
  let segments := segmentFileNames (l_dir l) in
  match last segments with
  | None => Ret (MkWAL (l_currentSegmentID l) (l_currentSegmentWriter l) (l_SegmentSize l) (l_once l) false (l_dir l))
  | Some lastSegment =>
    let! id := idFromFileName lastSegment in
    let sz := length (default [] (l_dir l !! lastSegment)) in
    if (sz =? 0)%nat then Ret (MkWAL id (l_currentSegmentWriter l) (l_SegmentSize l) (l_once l) false (delete lastSegment (l_dir l)))
    else Ret (MkWAL id (Some (MkWriter lastSegment sz sz)) (l_SegmentSize l) (l_once l) false (l_dir l))
  end.

(** An existing file is opened at its start and not truncated. *)
Definition newSegmentFile (l : WAL) : WAL :=
  let id := l_currentSegmentID l + 1 in
  let fileName := segment_name id in
  MkWAL id (Some (MkWriter fileName 0 0)) (l_SegmentSize l) (l_once l) (l_closed l) (<[fileName := default [] (l_dir l !! fileName)]> (l_dir l)).

Definition rollSegment (l : WAL) : WAL :=
  match l_currentSegmentWriter l with
  | None => newSegmentFile l
  | Some w => if l_SegmentSize l <? Z.of_nat (sw_size w) then newSegmentFile l else l
  end.

Definition CloseSegment (l : WAL) : WAL :=
  match l_currentSegmentWriter l with
  | None => newSegmentFile l
  | Some w => if (0 <? sw_size w)%nat then newSegmentFile l else l
  end.
Definition CloseAllSegments (l : WAL) : WAL := set_writer l None (l_dir l).
(** The channel is closed by the first call only; [Open] makes a new one. *)
Definition Close (l : WAL) : WAL :=
  MkWAL (l_currentSegmentID l) None (l_SegmentSize l) true (if l_once l then l_closed l else true) (l_dir l).

Definition ClosedSegments (l : WAL) : list name :=
  filter (fun n => Some n <> (sw_path <$> l_currentSegmentWriter l)) (segmentFileNames (l_dir l)).
Definition Remove (l : WAL) (files : list name) : WAL :=
  set_writer l (l_currentSegmentWriter l) (foldl (fun d n => delete n d) (l_dir l) files).

Section WithSnappy.
Context `{N : Snappy}.

(** [bytes] and [encBuf] are the buffers taken from the pool. *)
Definition writeToLog (e : WALEntry) (bytes encBuf : list Z) (l : WAL) : outcome (Z * WAL) :=
  let! b := entry_Encode e bytes in
  let max := sn_MaxEncodedLen (Z.of_nat (length b)) in
  if max <? 0 then Panic
  else
    let! (_, compressed) := sn_Encode encBuf b in
    if l_closed l then Fail ErrWALClosed
    else
      let l := rollSegment l in
      let! w := or_panic (l_currentSegmentWriter l) in
      let '(w, d) := Writer_Write w (l_dir l) (entry_Type e) compressed in
      Ret (l_currentSegmentID l, set_writer l (Some w) d).

Definition WriteMulti (kvs : list (key * list Value)) (bytes encBuf : list Z) (l : WAL) : outcome (Z * WAL) :=
  writeToLog (WriteEntry kvs) bytes encBuf l.
Definition Delete (keys : list key) (bytes encBuf : list Z) (l : WAL) : outcome (Z * WAL) :=
  match keys with [] => Ret (0, l) | _ => writeToLog (DeleteEntry keys) bytes encBuf l end.
Definition DeleteRange (keys : list key) (min max : Z) (bytes encBuf : list Z) (l : WAL) : outcome (Z * WAL) :=
  match keys with [] => Ret (0, l) | _ => writeToLog (DeleteRangeEntry keys min max) bytes encBuf l end.

(** ** The segment reader *)

Record WALSegmentReader := MkReader { r_r : list Z; r_entry : option ReadEntry; r_n : nat; r_err : option string }.

Definition NewWALSegmentReader (f : list Z) : WALSegmentReader := MkReader f None 0 None.

(** [io.ReadFull]: end of file when nothing is left and something is wanted. *)
Definition ReadFull (n : nat) (r : list Z) : outcome (list Z) * list Z :=
  if (n <=? length r)%nat then (Ret (take n r), drop n r)
  else if (length r =? 0)%nat then (Fail "EOF", []) else (Fail "unexpected EOF", []).

(** The error is reported by the next [Read], so [Next] is true. *)
Definition reader_fail (r : WALSegmentReader) (rest : list Z) (e : string) : WALSegmentReader * bool :=
  (MkReader rest (r_entry r) (r_n r) (Some e), true).

Definition Next (r : WALSegmentReader) : WALSegmentReader * bool :=
  match ReadFull 5 (r_r r) with
  | (Fail e, rest) => if String.eqb e "EOF" then (MkReader rest (r_entry r) (r_n r) (r_err r), false) else reader_fail r rest e
  | (Panic, rest) => (r, false)
  | (Ret lv, rest) =>
    let entryType := default 0 (head lv) in
    let len := Z.to_nat (be_get (drop 1 lv)) in
    match ReadFull len rest with
    | (Fail e, rest) => reader_fail r rest e
    | (Panic, rest) => (r, false)
    | (Ret b, rest) =>
      match sn_Decode b with
      | None => reader_fail r rest "snappy: corrupt input"
      | Some data =>
        match unmarshal entryType data with
        | Ret e => (MkReader rest (Some e) (r_n r + (5 + len)) None, true)
        | Fail e => reader_fail r rest e
        | Panic => (r, false)
        end
      end
    end
  end.

Definition Read (r : WALSegmentReader) : outcome (option ReadEntry) :=
  match r_err r with Some e => Fail e | None => Ret (r_entry r) end.
Definition Count (r : WALSegmentReader) : nat := r_n r.

(** ** The loader *)

Context (Sum64 : list Z -> Z) (now : Z).

Definition load_entry (e : ReadEntry) (c : Cache.Cache) : outcome (Cache.Cache * option string) :=
  match e with
  | ReadWrite m => Cache.WriteMulti Sum64 now (map_to_list m) c
  | ReadDeleteRange ks min max => let! c := Cache.DeleteRange Sum64 ks min max c in Ret (c, None)
  | ReadDelete ks => let! c := Cache.Delete Sum64 ks c in Ret (c, None)
  end.

(** [for r.Next()]: the file as it is left, the cache, and the error.  Every
    round takes at least five bytes. *)
Fixpoint load_loop (fuel : nat) (f : list Z) (r : WALSegmentReader) (c : Cache.Cache) : outcome (list Z * Cache.Cache * option string) :=
  match fuel with
  | O => Panic
  | S fuel =>
    let '(r, ok) := Next r in
    if negb ok then Ret (f, c, None)
    else
      match Read r with
      | Fail _ => Ret (take (Count r) f, c, None)
      | Panic => Panic
      | Ret None => Panic
      | Ret (Some e) =>
        let! (c, err) := load_entry e c in
        match err with
        | Some x => Ret (f, c, Some x)
        | None => load_loop fuel f r c
        end
      end
  end.

(** A missing file is created; an empty one is skipped. *)
Fixpoint Load (files : list name) (d : dir) (c : Cache.Cache) : outcome (dir * Cache.Cache * option string) :=
  match files with
  | [] => Ret (d, c, None)
  | fn :: files =>
    let f := default [] (d !! fn) in
    let! ((f, c), err) := (if (length f =? 0)%nat then Ret (f, c, None) else load_loop (S (length f)) f (NewWALSegmentReader f) c) in
    let d := <[fn := f]> d in
    match err with
    | Some x => Ret (d, c, Some x)
    | None => Load files d c
    end
  end.
End WithSnappy.

(** ** The order of file names *)

(** Five digits, the highest first. *)
Definition five (n d4 d3 d2 d1 d0 : Z) : Prop :=
  n = 10000 * d4 + 1000 * d3 + 100 * d2 + 10 * d1 + d0 /\
  0 <= d4 <= 9 /\ 0 <= d3 <= 9 /\ 0 <= d2 <= 9 /\ 0 <= d1 <= 9 /\ 0 <= d0 <= 9.

Lemma padded_digits n :
  0 <= n < 100000 -> exists d4 d3 d2 d1 d0, five n d4 d3 d2 d1 d0 /\ padded n = [48 + d4; 48 + d3; 48 + d2; 48 + d1; 48 + d0].
Proof.
  intros H. unfold padded, five. cbn [decimal].
  pose proof (Z.div_mod n 10 ltac:(lia)) as E0. pose proof (Z.mod_pos_bound n 10 ltac:(lia)) as B0. set (q1 := n / 10) in *. set (r0 := n mod 10) in *.
  pose proof (Z.div_mod q1 10 ltac:(lia)) as E1. pose proof (Z.mod_pos_bound q1 10 ltac:(lia)) as B1. set (q2 := q1 / 10) in *. set (r1 := q1 mod 10) in *.
  pose proof (Z.div_mod q2 10 ltac:(lia)) as E2. pose proof (Z.mod_pos_bound q2 10 ltac:(lia)) as B2. set (q3 := q2 / 10) in *. set (r2 := q2 mod 10) in *.
  pose proof (Z.div_mod q3 10 ltac:(lia)) as E3. pose proof (Z.mod_pos_bound q3 10 ltac:(lia)) as B3. set (q4 := q3 / 10) in *. set (r3 := q3 mod 10) in *.
  clearbody q1 q2 q3 q4 r0 r1 r2 r3. rewrite (proj2 (Z.ltb_lt q4 10)) by lia.
  destruct (Z.ltb_spec n 10); [exists 0, 0, 0, 0, n; split; [lia|done]|]. destruct (Z.ltb_spec q1 10); [exists 0, 0, 0, q1, r0; split; [lia|done]|].
  destruct (Z.ltb_spec q2 10); [exists 0, 0, q2, r1, r0; split; [lia|done]|]. destruct (Z.ltb_spec q3 10); [exists 0, q3, r2, r1, r0; split; [lia|done]|].
  exists q4, r3, r2, r1, r0. split; [lia|done].
Qed.

Lemma name_digits n : 0 <= n < 100000 -> exists d4 d3 d2 d1 d0, five n d4 d3 d2 d1 d0 /\
  segment_name n = [95; 48 + d4; 48 + d3; 48 + d2; 48 + d1; 48 + d0; 46; 119; 97; 108].
Proof.
  intros H. destruct (padded_digits n H) as (d4 & d3 & d2 & d1 & d0 & Hf & E). exists d4, d3, d2, d1, d0. split; [done|].
  unfold segment_name. by rewrite E.
Qed.

Lemma name_lt a b : 0 <= a -> a < b -> b < 100000 -> Ring.Compare (segment_name a) (segment_name b) = Lt.
Proof.
  intros Ha Hab Hb. destruct (name_digits a ltac:(lia)) as (a4 & a3 & a2 & a1 & a0 & Fa & ->).
  destruct (name_digits b ltac:(lia)) as (b4 & b3 & b2 & b1 & b0 & Fb & ->). unfold five in *. cbn [Ring.Compare]. rewrite Z.compare_refl.
  destruct (Z.compare_spec (48 + a4) (48 + b4)); [|done|lia]. destruct (Z.compare_spec (48 + a3) (48 + b3)); [|done|lia].
  destruct (Z.compare_spec (48 + a2) (48 + b2)); [|done|lia]. destruct (Z.compare_spec (48 + a1) (48 + b1)); [|done|lia].
  destruct (Z.compare_spec (48 + a0) (48 + b0)); [lia|done|lia].
Qed.

Lemma Compare_refl a : Ring.Compare a a = Eq.
Proof. induction a as [|x a IH]; [done|]. cbn. by rewrite Z.compare_refl. Qed.

Lemma Compare_antisym a b : Ring.Compare b a = CompOpp (Ring.Compare a b).
Proof.
  revert b. induction a as [|x a IH]; intros [|y b]; try done. cbn. rewrite (Z.compare_antisym x y). by destruct (x ?= y); cbn.
Qed.

Lemma name_compare a b : 0 <= a < 100000 -> 0 <= b < 100000 -> Ring.Compare (segment_name a) (segment_name b) = (a ?= b).
Proof.
  intros Ha Hb. destruct (Z.compare_spec a b) as [->|H|H]; [apply Compare_refl|apply name_lt; lia|].
  rewrite Compare_antisym, name_lt by lia. done.
Qed.

Lemma name_inj a b : 0 <= a < 100000 -> 0 <= b < 100000 -> segment_name a = segment_name b -> a = b.
Proof. intros Ha Hb E. apply Z.compare_eq_iff. rewrite <- name_compare, E by done. apply Compare_refl. Qed.

(** C33. Segment files are read back in the order of their numbers only while
    the numbers have five digits: the names of two segments below 100000
    compare as their numbers do, but segment 100000 sorts before 99999, so
    [Open] then appends to 99999 again, and the next segment it makes is the
    existing file 100000, opened at its start. *)
Theorem segment_name_order (a b : Z) :
  0 <= a < 100000 -> 0 <= b < 100000 ->
  Ring.Compare (segment_name a) (segment_name b) = (a ?= b) /\
  Ring.Compare (segment_name 100000) (segment_name 99999) = Lt /\
  (let d := {[segment_name 99999 := [1]; segment_name 100000 := [2; 3]]} in
   match Open (NewWAL d) with
   | Ret l => l_currentSegmentID l = 99999 /\
              l_currentSegmentWriter (newSegmentFile l) = Some (MkWriter (segment_name 100000) 0 0) /\
              l_dir (newSegmentFile l) !! segment_name 100000 = Some [2; 3]
   | _ => False
   end).
Proof.
  intros Ha Hb. split; [by apply name_compare|split; [reflexivity|vm_compute; done]].
Qed.

Lemma segment_name_order_witness : Ring.Compare (segment_name 9) (segment_name 10) = Lt.
Proof. exact (proj1 (segment_name_order 9 10 ltac:(lia) ltac:(lia))). Defined.

(** The channel that stops writers is closed by the first [Close] of a log
    only: after another [Open] and [Close] the log still takes writes. *)
Example second_close_keeps_writing :
  match Open (Close (NewWAL ∅)) with
  | Ret l => l_closed (Close (NewWAL ∅)) = true /\ l_closed (Close l) = false
  | _ => False
  end.
Proof. by vm_compute. Qed.

(** ** Reading what was written *)

Section Recovery.
Context `{N : Snappy} {NO : SnappyOk N} {NL : SnappyLen N} (Sum64 : list Z -> Z) (now : Z).

(** The bytes that stand for an entry in a segment. *)
Definition stores (e : WALEntry) (f : list Z) : Prop :=
  exists compressed data, f = frame (entry_Type e) compressed /\ Z.of_nat (length compressed) < 2 ^ 32 /\
    sn_Decode compressed = Some data /\ unmarshal (entry_Type e) data = Ret (read_of e).

Lemma frame_length t c : length (frame t c) = (5 + length c)%nat.
Proof. unfold frame. cbn [length]. rewrite length_app, be_put_length. lia. Qed.

(** The header and the rest of a frame that was cut after [k] bytes of its
    contents. *)
Lemma frame_header (t : Z) (c k : list Z) : Z.of_nat (length c) < 2 ^ 32 ->
  ReadFull 5 (t :: be_put 4 (Z.of_nat (length c)) ++ k) = (Ret (t :: be_put 4 (Z.of_nat (length c))), k) /\
  Z.to_nat (be_get (be_put 4 (Z.of_nat (length c)))) = length c.
Proof.
  intros H. split.
  - unfold ReadFull. cbn [length]. rewrite length_app, be_put_length, (proj2 (Nat.leb_le 5 _)) by lia.
    cbn [take drop]. rewrite take_app_length', drop_app_length' by (by rewrite be_put_length). done.
  - rewrite be_get_put, Z.mod_small by (cbn; lia). apply Nat2Z.id.
Qed.

Lemma Next_frame e f r rest :
  stores e f -> r_r r = f ++ rest -> Next r = (MkReader rest (Some (read_of e)) (r_n r + length f) None, true).
Proof.
  intros (c & data & -> & Hl & Hd & Hu) Hr. unfold Next. rewrite Hr. unfold frame. cbn [app]. rewrite <- app_assoc.
  destruct (frame_header (entry_Type e) c (c ++ rest) Hl) as [-> Hlen]. cbv zeta. cbn [drop]. rewrite drop_0, Hlen.
  change (default 0 (head (entry_Type e :: ?l))) with (entry_Type e).
  unfold ReadFull. rewrite length_app, (proj2 (Nat.leb_le _ _)) by lia. rewrite take_app_length, drop_app_length, Hd, Hu.
  change (entry_Type e :: ?l) with (frame (entry_Type e) c). by rewrite frame_length.
Qed.

(** A torn tail: a proper prefix of the bytes of an entry. *)
Definition torn (tail : list Z) : Prop := tail = [] \/ exists e f n, stores e f /\ (n < length f)%nat /\ tail = take n f.

Lemma Next_torn tail r :
  torn tail -> r_r r = tail -> exists r', Next r = (r', negb (length tail =? 0)%nat) /\
    (tail <> [] -> r_err r' <> None) /\ r_n r' = r_n r.
Proof.
  intros [->|(e & f & n & (c & data & -> & Hl & _) & Hn & ->)] Hr; unfold Next; rewrite Hr; [by eexists|]. rewrite frame_length in Hn.
  destruct (Nat.ltb_spec n 5) as [H5|H5].
  - assert (Hlt : length (take n (frame (entry_Type e) c)) = n) by (rewrite length_take, frame_length; lia).
    unfold ReadFull. rewrite Hlt, (proj2 (Nat.leb_gt 5 _)) by lia. destruct (Nat.eqb_spec n 0) as [E|E].
    + eexists. split; [reflexivity|]. split; [|done]. intros Hne. exfalso. apply Hne, nil_length_inv. lia.
    + eexists. split; [reflexivity|]. done.
  - assert (Ht : take n (frame (entry_Type e) c) = entry_Type e :: be_put 4 (Z.of_nat (length c)) ++ take (n - 5) c).
    { unfold frame. destruct n as [|n]; [lia|]. cbn [take]. rewrite take_app_ge, be_put_length by (rewrite be_put_length; lia). done. }
    rewrite Ht. destruct (frame_header (entry_Type e) c (take (n - 5) c) Hl) as [-> Hlen]. cbv zeta. cbn [drop]. rewrite drop_0, Hlen.
    unfold ReadFull. assert (Hlt : length (take (n - 5) c) = (n - 5)%nat) by (rewrite length_take; lia).
    rewrite Hlt, (proj2 (Nat.leb_gt (length c) _)) by lia. destruct (_ =? _)%nat; eexists; (split; [reflexivity|done]).
Qed.

(** Entries applied to a cache until one fails. *)
Fixpoint replay (es : list ReadEntry) (c : Cache.Cache) : outcome (Cache.Cache * option string) :=
  match es with
  | [] => Ret (c, None)
  | e :: es =>
    let! (c, err) := load_entry Sum64 now e c in
    match err with Some x => Ret (c, Some x) | None => replay es c end
  end.

Lemma replay_app a b c c' :
  replay (a ++ b) c = Ret (c', None) -> exists c1, replay a c = Ret (c1, None) /\ replay b c1 = Ret (c', None).
Proof.
  revert c. induction a as [|e a IH]; intros c H; [by exists c|]. cbn [app replay] in *.
  destruct (load_entry Sum64 now e c) as [[c1 [x|]]|?|]; cbn [obind] in *; try done. by apply IH.
Qed.

(** A segment with a torn tail: its entries reach the cache and the tail is
    cut off. *)
Lemma load_loop_run es fs tail fuel pre r c c' :
  Forall2 stores es fs -> torn tail -> replay (read_of <$> es) c = Ret (c', None) -> (length es < fuel)%nat ->
  r_r r = concat fs ++ tail -> r_n r = length pre ->
  load_loop Sum64 now fuel (pre ++ concat fs ++ tail) r c = Ret (pre ++ concat fs, c', None).
Proof.
  intros Hs Ht. revert fuel pre r c. induction Hs as [|e f es fs Hf Hs IH]; intros fuel pre r c Hp Hfu Hr Hn; (destruct fuel as [|fuel]; [lia|]).
  - cbn [concat app] in *. cbn in Hp. injection Hp as <-. cbn [load_loop]. destruct (Next_torn tail r Ht Hr) as (r' & -> & He & Hn').
    rewrite app_nil_r. destruct (Nat.eqb_spec (length tail) 0) as [E|E]; cbn [negb].
    + apply nil_length_inv in E as ->. by rewrite app_nil_r.
    + unfold Read, Count. destruct (r_err r'); [|exfalso; apply He; [intros ->|]; done]. by rewrite Hn', Hn, take_app_length.
  - cbn [concat] in *. rewrite <- app_assoc in Hr. cbn [load_loop]. rewrite (Next_frame e f r _ Hf Hr). cbn [negb Read r_err r_entry]. cbn [fmap list_fmap replay] in Hp.
    destruct (load_entry Sum64 now (read_of e) c) as [[c1 [x|]]|?|]; cbn [obind] in *; try done.
    rewrite <- app_assoc, (app_assoc pre f (concat fs ++ tail)), (app_assoc pre f (concat fs)). apply IH; [done| |done|].
    + cbn [length] in Hfu. lia.
    + cbn. rewrite length_app. lia.
Qed.

(** Segment files as they are found: the number, the entries and frames
    written to it, and what a crash left behind them. *)
Record segment := MkSegment { sg_id : Z; sg_entries : list WALEntry; sg_frames : list (list Z); sg_tail : list Z }.
Definition sg_name (s : segment) : name := segment_name (sg_id s).
Definition segment_ok (s : segment) : Prop := Forall2 stores (sg_entries s) (sg_frames s) /\ torn (sg_tail s).
Definition found (d : dir) (s : segment) : Prop := d !! sg_name s = Some (concat (sg_frames s) ++ sg_tail s).
Definition repaired (d : dir) (s : segment) : Prop := d !! sg_name s = Some (concat (sg_frames s)).

Lemma frames_length es fs : Forall2 stores es fs -> (length es <= length (concat fs))%nat.
Proof.
  induction 1 as [|e f es fs (c & data & -> & _) _ IH]; [done|]. cbn [concat length]. rewrite length_app, frame_length. lia.
Qed.

Lemma Load_run segs d c c' :
  Forall segment_ok segs -> Forall (found d) segs -> NoDup (sg_name <$> segs) ->
  replay (read_of <$> concat (sg_entries <$> segs)) c = Ret (c', None) ->
  exists d', Load Sum64 now (sg_name <$> segs) d c = Ret (d', c', None) /\ Forall (repaired d') segs /\
    forall n, n ∉ sg_name <$> segs -> d' !! n = d !! n.
Proof.
  intros Hok. revert d c. induction Hok as [|s segs [Hf Ht] Hok IH]; intros d c Hd Hn Hp.
  { cbn in *. injection Hp as <-. exists d. by split_and!. }
  apply Forall_cons_1 in Hd as [H0 Hd]. cbn [fmap list_fmap] in *. apply NoDup_cons in Hn as [Hn0 Hn]. cbn [concat] in Hp. rewrite fmap_app in Hp.
  apply replay_app in Hp as (c1 & Hp1 & Hp2). cbn [Load]. unfold found in H0. rewrite H0. cbn [default from_option id].
  set (f := concat (sg_frames s) ++ sg_tail s).
  assert (E : (if (length f =? 0)%nat then Ret (f, c, None) else load_loop Sum64 now (S (length f)) f (NewWALSegmentReader f) c)
    = Ret (concat (sg_frames s), c1, None)).
  { destruct (Nat.eqb_spec (length f) 0) as [E|E].
    - unfold f in E. rewrite length_app in E. pose proof (frames_length _ _ Hf). destruct (sg_entries s) as [|? ?] eqn:Ee; [|cbn in *; lia].
      cbn in Hp1. injection Hp1 as <-. assert (Ef : sg_frames s = []) by (by inversion Hf).
      assert (Et : sg_tail s = []) by (apply nil_length_inv; lia). unfold f. by rewrite Ef, Et.
    - apply (load_loop_run (sg_entries s) (sg_frames s) (sg_tail s) (S (length f)) [] (NewWALSegmentReader f) c c1 Hf Ht Hp1); [|done..].
      unfold f. rewrite length_app. pose proof (frames_length _ _ Hf). lia. }
  rewrite E. cbn [obind]. destruct (IH (<[sg_name s := concat (sg_frames s)]> d) c1) as (d' & E' & Hr & Ho); [|done..|].
  - apply Forall_forall. intros x Hx. rewrite Forall_forall in Hd. specialize (Hd x Hx). unfold found in *.
    rewrite lookup_insert_ne; [done|]. intros En. apply Hn0. rewrite En. by apply list_elem_of_fmap_2.
  - exists d'. split_and!; [done| |].
    + constructor; [|done]. unfold repaired. rewrite Ho by done. by rewrite lookup_insert_eq.
    + intros n Hx. apply not_elem_of_cons in Hx as [Hx1 Hx2]. rewrite Ho by done. by rewrite lookup_insert_ne.
Qed.

End Recovery.
End WalLog.
