(* ===== verification/WalRecovery.v ===== *)
(** * tsdb/engine/tsm1: restarting on the write-ahead log

    The log across process lifetimes: [reloadCache] and the part of
    [Engine.Open] that opens the log, runs of the log's operations with clean
    restarts in between, and a crash that leaves part of the last write in
    the current segment.  The theorems show that a restart finds what was
    written, and what the order of opening the log and repairing its last
    segment does to the writes that follow. *)
From S2P Require Import Prelude StringCodec Values Ring Cache Wal WalLog.
From stdpp Require Import gmap sorting.
Import Values.
Import Wal.
Import WalLog.
#[global] Open Scope Z_scope.

Module WalRecovery.

Section Engine.
Context `{N : Snappy} (Sum64 : list Z -> Z) (now : Z).

(** The cache has no limit while it is loaded. *)
Definition reloadCache (l : WAL) (c : Cache.Cache) : outcome (WAL * Cache.Cache * option string) :=
  let limit := Cache.c_maxSize c in
  let! ((d, c), err) := Load Sum64 now (segmentFileNames (l_dir l)) (l_dir l) (Cache.SetMaxSize c 0) in
  Ret (set_writer l (l_currentSegmentWriter l) d, Cache.SetMaxSize c limit, err).

(** The steps of [Engine.Open] on the log and the cache. *)
Definition Engine_Open (l : WAL) (c : Cache.Cache) : outcome (WAL * Cache.Cache * option string) :=
  let! l := Open l in reloadCache l c.
End Engine.

(** ** Directories of segments *)

Section Directories.
Context `{N : Snappy} {NO : SnappyOk N} {NL : SnappyLen N} (Sum64 : list Z -> Z) (now : Z).

Record dir_holds (d : dir) (segs : list segment) : Prop := {
  dh_sorted : StronglySorted Z.lt (sg_id <$> segs);
  dh_range : Forall (fun s => 0 < sg_id s < 100000) segs;
  dh_ok : Forall segment_ok segs;
  dh_found : Forall (found d) segs;
  dh_only : forall n, is_Some (d !! n) -> n ∈ sg_name <$> segs }.

Lemma segment_name_is_segment n : 0 <= n < 100000 -> is_segment (segment_name n) = true.
Proof. intros H. destruct (name_digits n H) as (d4 & d3 & d2 & d1 & d0 & _ & ->). reflexivity. Qed.

Lemma idFromFileName_name n : 0 <= n < 100000 -> idFromFileName (segment_name n) = Ret n.
Proof.
  intros H. destruct (name_digits n H) as (d4 & d3 & d2 & d1 & d0 & Hf & ->). unfold five in Hf. unfold idFromFileName. cbn [split_dot].
  rewrite !(proj2 (Z.eqb_neq (48 + _) 46)) by lia. cbn [Z.eqb Pos.eqb mbind option_bind fst snd].
  rewrite bool_decide_eq_false_2 by (intros Hx; repeat (apply elem_of_cons in Hx as [Hx|Hx]; [done|]); by apply elem_of_nil in Hx).
  cbn [parse_digits]. rewrite !(proj2 (Z.leb_le 48 (48 + _))), !(proj2 (Z.leb_le (48 + _) 57)) by lia. cbn [andb].
  set (k := ((((0 * 10 + _) * 10 + _) * 10 + _) * 10 + _) * 10 + _). assert (k = n) as -> by (unfold k; lia).
  by rewrite (proj2 (Z.leb_gt (2 ^ 32) n)) by lia.
Qed.

Lemma ids_NoDup d segs : dir_holds d segs -> NoDup (sg_id <$> segs).
Proof.
  intros Hd. pose proof (dh_sorted d segs Hd) as Hs. induction Hs as [|x l Hs IH Hx]; [apply NoDup_nil_2|]. apply NoDup_cons. split; [|done].
  intros Hin. rewrite Forall_forall in Hx. specialize (Hx x Hin). lia.
Qed.

(** Distinct numbers are distinct names. *)
Lemma names_distinct (segs : list segment) :
  Forall (fun s => 0 < sg_id s < 100000) segs -> NoDup (sg_id <$> segs) -> NoDup (sg_name <$> segs).
Proof.
  induction segs as [|s segs IH]; intros Hr Hn; cbn [fmap list_fmap] in *; [apply NoDup_nil_2|].
  apply Forall_cons_1 in Hr as [Hs Hr]. apply NoDup_cons in Hn as [Hn0 Hn]. apply NoDup_cons. split; [|by apply IH].
  intros (t & E & Ht)%list_elem_of_fmap. rewrite Forall_forall in Hr. specialize (Hr t Ht). unfold sg_name in E. apply name_inj in E; [|lia..].
  apply Hn0. rewrite E. by apply list_elem_of_fmap_2.
Qed.

Lemma dir_names_NoDup d segs : dir_holds d segs -> NoDup (sg_name <$> segs).
Proof. intros Hd. apply names_distinct; [apply Hd|by eapply ids_NoDup]. Qed.

Lemma names_sorted (segs : list segment) :
  Forall (fun s => 0 < sg_id s < 100000) segs -> StronglySorted Z.lt (sg_id <$> segs) -> StronglySorted Ring.bytes_le (sg_name <$> segs).
Proof.
  induction segs as [|s segs IH]; intros Hr Hs; cbn [fmap list_fmap] in *; [apply SSorted_nil|].
  apply Forall_cons_1 in Hr as [H0 Hr]. apply StronglySorted_inv in Hs as [Hs Hx]. apply SSorted_cons; [by apply IH|].
  apply Forall_forall. intros n (t & -> & Ht)%list_elem_of_fmap. rewrite Forall_forall in Hr. rewrite Forall_forall in Hx. specialize (Hr t Ht).
  specialize (Hx _ (list_elem_of_fmap_2 sg_id segs t Ht)). unfold Ring.bytes_le, sg_name. rewrite name_lt by lia. done.
Qed.

(** The files are listed in the order of their numbers. *)
Lemma segmentFileNames_run d segs : dir_holds d segs -> segmentFileNames d = sg_name <$> segs.
Proof.
  intros Hd. unfold segmentFileNames. apply (StronglySorted_unique_strong Ring.bytes_le).
  - intros a b _ _. unfold Ring.bytes_le. rewrite (Compare_antisym a b). destruct (Ring.Compare a b) eqn:E; try done.
    intros _ _. revert b E. induction a as [|x a IH]; intros [|y b]; try done. cbn.
    destruct (Z.compare_spec x y) as [->|?|?]; try done. intros E. f_equal. by apply IH.
  - apply Ring.Sort_sorted.
  - apply names_sorted; apply Hd.
  - unfold Ring.Sort. rewrite merge_sort_Permutation. apply NoDup_Permutation.
    + apply NoDup_filter, NoDup_fst_map_to_list.
    + by eapply dir_names_NoDup.
    + intros n. rewrite list_elem_of_filter. split.
      * intros [_ ((m & f) & -> & Hin)%list_elem_of_fmap]. apply elem_of_map_to_list in Hin. apply (dh_only d segs Hd). by exists f.
      * intros (s & -> & Hs)%list_elem_of_fmap. pose proof (dh_range d segs Hd) as Hr. pose proof (dh_found d segs Hd) as Hf.
        rewrite Forall_forall in Hr. rewrite Forall_forall in Hf. specialize (Hr s Hs). specialize (Hf s Hs). split; [apply segment_name_is_segment; lia|].
        apply list_elem_of_fmap. eexists (_, _). split; [reflexivity|]. by apply elem_of_map_to_list.
Qed.

(** Replaying a directory. *)
Lemma reload_run l segs c c' :
  dir_holds (l_dir l) segs -> replay Sum64 now (read_of <$> concat (sg_entries <$> segs)) (Cache.SetMaxSize c 0) = Ret (c', None) ->
  exists d', reloadCache Sum64 now l c = Ret (set_writer l (l_currentSegmentWriter l) d', Cache.SetMaxSize c' (Cache.c_maxSize c), None) /\
    Forall (repaired d') segs /\ forall n, n ∉ sg_name <$> segs -> d' !! n = l_dir l !! n.
Proof.
  intros Hd Hp. unfold reloadCache. rewrite (segmentFileNames_run _ _ Hd).
  destruct (Load_run Sum64 now segs (l_dir l) (Cache.SetMaxSize c 0) c' (dh_ok _ _ Hd) (dh_found _ _ Hd) (dir_names_NoDup _ _ Hd) Hp) as (d' & E & Hr & Ho).
  rewrite E. cbn [obind]. by exists d'.
Qed.

(** Adding a last file, and taking the last file away. *)
Lemma dir_snoc d segs s :
  dir_holds d segs -> Forall (fun t => sg_id t < sg_id s) segs -> 0 < sg_id s < 100000 -> segment_ok s ->
  dir_holds (<[sg_name s := concat (sg_frames s) ++ sg_tail s]> d) (segs ++ [s]).
Proof.
  intros Hd Hlt Hr Hok. assert (Hne : forall t, t ∈ segs -> sg_name s <> sg_name t).
  { intros t Ht E. rewrite Forall_forall in Hlt. specialize (Hlt t Ht). pose proof (dh_range _ _ Hd) as Hx. rewrite Forall_forall in Hx.
    specialize (Hx t Ht). unfold sg_name in E. apply name_inj in E; lia. }
  split.
  - rewrite fmap_app. cbn [fmap list_fmap]. pose proof (dh_sorted _ _ Hd) as Hs. clear -Hs Hlt. induction segs as [|t segs IH]; cbn [fmap list_fmap app] in *.
    + apply SSorted_cons; [apply SSorted_nil|done].
    + apply StronglySorted_inv in Hs as [Hs Hx]. apply Forall_cons_1 in Hlt as [H0 Hlt]. apply SSorted_cons; [by apply IH|].
      apply Forall_app. split; [done|by apply Forall_singleton].
  - apply Forall_app. split; [apply Hd|by apply Forall_singleton].
  - apply Forall_app. split; [apply Hd|by apply Forall_singleton].
  - apply Forall_app. split; [|apply Forall_singleton; apply lookup_insert_eq].
    apply Forall_forall. intros t Ht. unfold found. rewrite lookup_insert_ne by (by apply Hne).
    pose proof (dh_found _ _ Hd) as Hf. rewrite Forall_forall in Hf. by apply Hf.
  - intros n Hn. rewrite fmap_app, elem_of_app. destruct (decide (n = sg_name s)) as [->|Hns]; [right; by apply list_elem_of_singleton|].
    left. apply (dh_only _ _ Hd). by rewrite lookup_insert_ne in Hn by done.
Qed.

Lemma dir_last d segs s :
  dir_holds d (segs ++ [s]) ->
  dir_holds (delete (sg_name s) d) segs /\ Forall (fun t => sg_id t < sg_id s) segs /\ 0 < sg_id s < 100000 /\ segment_ok s /\ found d s.
Proof.
  intros Hd. pose proof (dir_names_NoDup _ _ Hd) as Hn. rewrite fmap_app in Hn. apply NoDup_app in Hn as (_ & Hn & _). destruct Hd as [Hs Hr Ho Hf Hx].
  apply Forall_app in Hr as [Hr [Hrs _]%Forall_cons_1]. apply Forall_app in Ho as [Ho [Hos _]%Forall_cons_1]. apply Forall_app in Hf as [Hf [Hfs _]%Forall_cons_1].
  rewrite fmap_app in Hs. cbn [fmap list_fmap] in Hs.
  assert (Hss : StronglySorted Z.lt (sg_id <$> segs) /\ Forall (fun t => sg_id t < sg_id s) segs).
  { clear -Hs. induction segs as [|t segs IH]; cbn [fmap list_fmap app] in *; [split; [apply SSorted_nil|apply Forall_nil_2]|]. apply StronglySorted_inv in Hs as [Hs Hx].
    apply Forall_app in Hx as [Hx [Hxs _]%Forall_cons_1]. destruct (IH Hs) as [? ?]. split; [by apply SSorted_cons|constructor; done]. }
  destruct Hss as [Hss Hlt]. refine (conj _ (conj Hlt (conj Hrs (conj Hos Hfs)))). split; try done.
  - apply Forall_forall. intros t Ht. rewrite Forall_forall in Hf. unfold found. rewrite lookup_delete_ne; [by apply Hf|].
    intros E. apply (Hn (sg_name t)); [by apply list_elem_of_fmap_2|]. rewrite <- E. by apply list_elem_of_singleton.
  - intros n Hin. destruct (decide (n = sg_name s)) as [->|Hne]; [by rewrite lookup_delete_eq in Hin; destruct Hin|].
    rewrite lookup_delete_ne in Hin by done. specialize (Hx n Hin). rewrite fmap_app, elem_of_app in Hx. destruct Hx as [Hx|Hx]; [done|].
    by apply list_elem_of_singleton in Hx.
Qed.

Lemma dir_set_last d segs s s' :
  dir_holds d (segs ++ [s]) -> sg_id s' = sg_id s -> segment_ok s' ->
  dir_holds (<[sg_name s' := concat (sg_frames s') ++ sg_tail s']> d) (segs ++ [s']).
Proof.
  intros Hd E Hok. apply dir_last in Hd as (Hd & Hlt & Hr & _). assert (En : sg_name s' = sg_name s) by (unfold sg_name; by rewrite E).
  rewrite <- En in Hd. rewrite <- insert_delete_eq. apply dir_snoc; rewrite ?E; done.
Qed.

(** ** The log in operation *)

Record log_inv (l : WAL) (segs : list segment) : Prop := {
  li_open : l_closed l = false;
  li_dir : dir_holds (l_dir l) segs;
  li_tails : Forall (fun s => sg_tail s = []) segs;
  li_id : 0 <= l_currentSegmentID l;
  li_ids : Forall (fun s => sg_id s <= l_currentSegmentID l) segs;
  li_writer : match l_currentSegmentWriter l with
              | None => True
              | Some w => exists s, last segs = Some s /\ sw_path w = sg_name s /\ sw_pos w = length (concat (sg_frames s))
              end }.

Definition new_segment (l : WAL) : segment := MkSegment (l_currentSegmentID l + 1) [] [] [].

Lemma newSegmentFile_inv l segs :
  log_inv l segs -> l_currentSegmentID l < 99999 -> log_inv (newSegmentFile l) (segs ++ [new_segment l]).
Proof.
  intros [L1 L2 L3 L4 L5 L6] Hb. assert (Hlt : Forall (fun t => sg_id t < sg_id (new_segment l)) segs).
  { eapply Forall_impl; [exact L5|]. cbn. lia. }
  assert (Hnone : l_dir l !! sg_name (new_segment l) = None).
  { destruct (l_dir l !! _) as [f|] eqn:E; [|done]. exfalso.
    pose proof (dh_only _ _ L2 (sg_name (new_segment l)) (ex_intro _ f E)) as (t & Et & Ht)%list_elem_of_fmap.
    rewrite Forall_forall in Hlt. specialize (Hlt t Ht). pose proof (dh_range _ _ L2) as Hr. rewrite Forall_forall in Hr. specialize (Hr t Ht).
    unfold sg_name in Et. apply name_inj in Et; cbn in *; lia. }
  unfold newSegmentFile. change (segment_name (l_currentSegmentID l + 1)) with (sg_name (new_segment l)). rewrite Hnone. cbn [default from_option].
  split; cbn [l_closed l_currentSegmentID l_dir l_currentSegmentWriter].
  - done.
  - apply (dir_snoc (l_dir l) segs (new_segment l)); [done..|cbn; lia|]. split; [constructor|by left].
  - apply Forall_app. split; [done|by repeat constructor].
  - lia.
  - apply Forall_app. split; [|apply Forall_singleton; cbn; lia]. eapply Forall_impl; [exact L5|]. cbn. lia.
  - exists (new_segment l). by rewrite last_snoc.
Qed.

(** Appending a frame to the current segment. *)
Lemma append_inv l segs w e f :
  log_inv l segs -> l_currentSegmentWriter l = Some w -> stores e f ->
  exists segs', log_inv (set_writer l (Some (MkWriter (sw_path w) (sw_pos w + length f) (sw_size w + length f))) (file_write (l_dir l) (sw_path w) (sw_pos w) f)) segs' /\
    concat (sg_entries <$> segs') = concat (sg_entries <$> segs) ++ [e].
Proof.
  intros [L1 L2 L3 L4 L5 L6] Hw Hf. rewrite Hw in L6. destruct L6 as (s & Hs & Hp & Hpos).
  apply last_Some in Hs as [segs0 ->]. set (s' := MkSegment (sg_id s) (sg_entries s ++ [e]) (sg_frames s ++ [f]) []).
  pose proof (dir_last _ _ _ L2) as (_ & _ & _ & [Hst _] & Hfd). apply Forall_app in L3 as [L3 [Htl _]%Forall_cons_1]. apply Forall_app in L5 as [L5 [L5s _]%Forall_cons_1].
  unfold found in Hfd. rewrite Htl, app_nil_r in Hfd.
  assert (Hd : file_write (l_dir l) (sw_path w) (sw_pos w) f = <[sg_name s' := concat (sg_frames s') ++ sg_tail s']> (l_dir l)).
  { unfold file_write. rewrite Hp, Hfd. cbn [from_option id]. change (sg_name s') with (sg_name s). f_equal. unfold s'. cbn [sg_frames sg_tail].
    rewrite concat_app. cbn [concat]. rewrite Hpos, Nat.sub_diag, !app_nil_r, firstn_all, (drop_ge (concat _)), app_nil_r by lia. done. }
  rewrite Hd. exists (segs0 ++ [s']). split; [|by rewrite !fmap_app, !concat_app; cbn; rewrite !app_nil_r, app_assoc].
  split; cbn [set_writer l_closed l_currentSegmentID l_dir l_currentSegmentWriter].
  - done.
  - eapply dir_set_last; [exact L2|done|]. split; [|by left]. apply Forall2_app; [done|by constructor].
  - apply Forall_app. split; [done|by apply Forall_singleton].
  - done.
  - apply Forall_app. split; [done|by apply Forall_singleton].
  - exists s'. rewrite last_snoc. split_and!; [done..|]. cbn. rewrite concat_app, length_app. cbn. rewrite app_nil_r. lia.
Qed.

(** An entry that can be written: the layout represents it and the compressor
    takes it. *)
Definition writable (e : WALEntry) : Prop :=
  entry_ok e /\ forall bytes b, entry_Encode e bytes = Ret b -> 0 <= sn_MaxEncodedLen (Z.of_nat (length b)).

(** What an operation leaves: the invariant, more entries, and at most one
    more number used. *)
Definition extends (l : WAL) (segs : list segment) (es : list WALEntry) (l' : WAL) : Prop :=
  exists segs', log_inv l' segs' /\ concat (sg_entries <$> segs') = concat (sg_entries <$> segs) ++ es /\
    l_currentSegmentID l' <= l_currentSegmentID l + 1.

Lemma newSegmentFile_extends l segs : log_inv l segs -> l_currentSegmentID l < 99999 -> extends l segs [] (newSegmentFile l).
Proof.
  intros Hl Hb. eexists. split; [by apply newSegmentFile_inv|]. split; [|cbn; lia]. by rewrite fmap_app, concat_app.
Qed.

Lemma unchanged_extends l segs : log_inv l segs -> extends l segs [] l.
Proof. intros Hl. exists segs. split; [done|]. split; [by rewrite app_nil_r|lia]. Qed.

Lemma rollSegment_extends l segs : log_inv l segs -> l_currentSegmentID l < 99999 -> extends l segs [] (rollSegment l).
Proof.
  intros Hl Hb. unfold rollSegment. destruct (l_currentSegmentWriter l); [destruct (_ <? _)|]; eauto using newSegmentFile_extends, unchanged_extends.
Qed.

Lemma CloseSegment_extends l segs : log_inv l segs -> l_currentSegmentID l < 99999 -> extends l segs [] (CloseSegment l).
Proof.
  intros Hl Hb. unfold CloseSegment. destruct (l_currentSegmentWriter l); [destruct (_ <? _)%nat|]; eauto using newSegmentFile_extends, unchanged_extends.
Qed.

Lemma writeToLog_run e bytes encBuf l segs :
  log_inv l segs -> l_currentSegmentID l < 99999 -> writable e ->
  exists id l', writeToLog e bytes encBuf l = Ret (id, l') /\ extends l segs [e] l'.
Proof.
  intros Hl Hb [He Hm]. unfold writeToLog. destruct (entry_codec e bytes He) as (b & Eb & Hu). rewrite Eb. cbn [obind].
  specialize (Hm bytes b Eb). rewrite (proj2 (Z.ltb_ge _ 0)) by lia. destruct (sn_encode encBuf b Hm) as (dst' & res & Es & Hd & _).
  rewrite Es. cbn [obind]. rewrite (li_open l segs Hl).
  assert (Hst : stores e (frame (entry_Type e) res)).
  { exists res, b. split_and!; try done. pose proof (sn_len _ _ _ _ Es Hm). pose proof (sn_limit (Z.of_nat (length b))). lia. }
  destruct (rollSegment_extends l segs Hl Hb) as (segs1 & Hl1 & Ee & Hid). rewrite app_nil_r in Ee.
  assert (Hw : exists w, l_currentSegmentWriter (rollSegment l) = Some w).
  { unfold rollSegment. destruct (l_currentSegmentWriter l) eqn:Ew; [destruct (_ <? _)|]; eexists; done. }
  destruct Hw as [w Hw]. rewrite Hw. cbn [or_panic obind Writer_Write].
  destruct (append_inv (rollSegment l) segs1 w e _ Hl1 Hw Hst) as (segs2 & Hl2 & Ee2).
  eexists _, _. split; [reflexivity|]. exists segs2. split; [exact Hl2|]. split; [by rewrite Ee2, Ee|done].
Qed.

(** ** Restarts and crashes *)

Inductive lop := LWrite (e : WALEntry) (bytes encBuf : list Z) | LCloseSegment | LRestart.

Definition step (o : lop) (l : WAL) : outcome WAL :=
  match o with
  | LWrite e bytes encBuf => let! (_, l) := writeToLog e bytes encBuf l in Ret l
  | LCloseSegment => Ret (CloseSegment l)
  | LRestart => Open (NewWAL (l_dir (Close l)))
  end.
Fixpoint run (os : list lop) (l : WAL) : outcome WAL :=
  match os with [] => Ret l | o :: os => let! l := step o l in run os l end.

Fixpoint written (os : list lop) : list WALEntry :=
  match os with [] => [] | LWrite e _ _ :: os => e :: written os | _ :: os => written os end.

(** A process that dies leaves [tail] behind the current segment. *)
Definition crash (l : WAL) (tail : list Z) : dir :=
  match l_currentSegmentWriter l with
  | Some w => <[sw_path w := default [] (l_dir l !! sw_path w) ++ tail]> (l_dir l)
  | None => l_dir l
  end.

Definition file_of (s : segment) : list Z := concat (sg_frames s) ++ sg_tail s.

(** What [Open] makes of a directory: an empty last file is removed. *)
Lemma Open_run d segs : dir_holds d segs -> exists l segs', Open (NewWAL d) = Ret l /\ dir_holds (l_dir l) segs' /\
  (segs' = segs /\ l_dir l = d \/ exists s, segs = segs' ++ [s] /\ file_of s = [] /\ l_dir l = delete (sg_name s) d) /\
  l_closed l = false /\ match last segs with Some s => l_currentSegmentID l = sg_id s | None => l_currentSegmentID l = 0 end /\
  match l_currentSegmentWriter l with
  | None => forall s, last segs = Some s -> file_of s = []
  | Some w => exists s, last segs' = Some s /\ segs' = segs /\ sw_path w = sg_name s /\ sw_pos w = length (file_of s)
  end.
Proof.
  intros Hd. unfold Open. cbn [NewWAL l_dir]. rewrite (segmentFileNames_run d segs Hd), fmap_last.
  destruct (last segs) as [s|] eqn:El; cbn [fmap option_fmap option_map].
  - apply last_Some in El as [segs0 ->]. pose proof (dir_last _ _ _ Hd) as (Hd0 & _ & Hr & _ & Hf). unfold sg_name at 1. rewrite idFromFileName_name by lia.
    cbn [obind]. unfold found in Hf. rewrite Hf. cbn [from_option id]. fold (file_of s). destruct (Nat.eqb_spec (length (file_of s)) 0) as [E|E].
    + apply nil_length_inv in E. eexists _, segs0. split; [reflexivity|]. cbn. split_and!; try done; [right; by exists s|]. by intros t [= <-].
    + eexists _, (segs0 ++ [s]). split; [reflexivity|]. cbn. split_and!; try done; [by left|]. exists s. by rewrite last_snoc.
  - apply last_None in El as ->. eexists _, []. split; [reflexivity|]. cbn. split_and!; try done. by left.
Qed.

Lemma ids_le_last d segs s : dir_holds d segs -> last segs = Some s -> Forall (fun t => sg_id t <= sg_id s) segs.
Proof.
  intros Hd [segs0 ->]%last_Some. apply dir_last in Hd as (_ & Hlt & _). apply Forall_app. split; [|by apply Forall_singleton].
  eapply Forall_impl; [exact Hlt|]. cbn. lia.
Qed.

Lemma empty_file_entries s : segment_ok s -> file_of s = [] -> sg_entries s = [].
Proof.
  intros [Hs _] E. apply app_eq_nil in E as [E _]. pose proof (frames_length _ _ Hs). rewrite E in H. by destruct (sg_entries s); [|cbn in H; lia].
Qed.

Lemma Restart_extends l segs : log_inv l segs -> exists l', step LRestart l = Ret l' /\ extends l segs [] l'.
Proof.
  intros [L1 L2 L3 L4 L5 L6]. cbn [step]. change (l_dir (Close l)) with (l_dir l).
  destruct (Open_run _ _ L2) as (l' & segs' & -> & Hd & Hc & Hcl & Hid & Hw). exists l'. split; [done|]. exists segs'.
  assert (Hids : 0 <= l_currentSegmentID l' <= l_currentSegmentID l /\ Forall (fun s => sg_id s <= l_currentSegmentID l') segs).
  { destruct (last segs) as [s|] eqn:El.
    - rewrite Hid. pose proof (ids_le_last _ _ _ L2 El). apply last_Some in El as [segs0 ->]. pose proof (dir_last _ _ _ L2) as (_ & _ & Hr & _).
      apply Forall_app in L5 as [_ [L5 _]%Forall_cons_1]. split; [lia|done].
    - apply last_None in El as ->. rewrite Hid. split; [lia|done]. }
  destruct Hids as [Hi1 Hi2]. split_and!; [|rewrite app_nil_r|lia].
  - split; [done|done| |lia| |].
    + destruct Hc as [[-> _]|(s & -> & _)]; [done|]. by apply Forall_app in L3 as [L3 _].
    + destruct Hc as [[-> _]|(s & -> & _)]; [done|]. by apply Forall_app in Hi2 as [Hi2 _].
    + destruct (l_currentSegmentWriter l') as [w|]; [|done]. destruct Hw as (s & Hs & -> & Hp & Hq). exists s. split_and!; try done.
      apply last_Some in Hs as [segs0 ->]. apply Forall_app in L3 as [_ [Ht _]%Forall_cons_1]. unfold file_of in Hq. by rewrite Ht, app_nil_r in Hq.
  - destruct Hc as [[-> _]|(s & -> & Hf & _)]; [done|]. pose proof (dir_last _ _ _ L2) as (_ & _ & _ & Hok & _).
    rewrite fmap_app, concat_app. cbn. by rewrite (empty_file_entries s Hok Hf), !app_nil_r.
Qed.

Lemma lop_run o l segs :
  log_inv l segs -> l_currentSegmentID l < 99999 -> Forall writable (written [o]) ->
  exists l', step o l = Ret l' /\ extends l segs (written [o]) l'.
Proof.
  intros Hl Hb Hw. destruct o as [e bytes encBuf| |]; [|by eexists; split; [reflexivity|apply CloseSegment_extends]|by apply Restart_extends].
  apply Forall_cons_1 in Hw as [Hw _]. destruct (writeToLog_run e bytes encBuf l segs Hl Hb Hw) as (id & l' & E & He). cbn [step]. rewrite E. by exists l'.
Qed.

Lemma run_run os l segs :
  log_inv l segs -> l_currentSegmentID l + Z.of_nat (length os) <= 99999 -> Forall writable (written os) ->
  exists l' segs', run os l = Ret l' /\ log_inv l' segs' /\ concat (sg_entries <$> segs') = concat (sg_entries <$> segs) ++ written os.
Proof.
  revert l segs. induction os as [|o os IH]; intros l segs Hl Hb Hw; [exists l, segs; by rewrite app_nil_r|]. cbn [length] in Hb.
  assert (Ew : written (o :: os) = written [o] ++ written os) by (by destruct o). rewrite Ew in *. apply Forall_app in Hw as [Hw1 Hw2].
  destruct (lop_run o l segs Hl ltac:(lia) Hw1) as (l1 & E1 & segs1 & Hl1 & Ee & Hi). cbn [run]. rewrite E1. cbn [obind].
  destruct (IH l1 segs1 Hl1 ltac:(lia) Hw2) as (l' & segs' & -> & Hl' & Ee'). exists l', segs'. split_and!; try done. by rewrite Ee', Ee, app_assoc.
Qed.

Lemma NewWAL_inv : log_inv (NewWAL ∅) [].
Proof.
  split; try done. split; [apply SSorted_nil|by apply Forall_nil_2..|]. cbn. intros n Hn. rewrite lookup_empty in Hn. by destruct Hn.
Qed.

(** The directory a crash leaves: the same entries, a tail behind the last. *)
Lemma crash_holds l segs tail :
  log_inv l segs -> torn tail -> exists segs', dir_holds (crash l tail) segs' /\ sg_entries <$> segs' = sg_entries <$> segs /\
    (forall n f, l_dir l !! n = Some f -> exists s, s ∈ segs' /\ sg_name s = n /\ concat (sg_frames s) = f) /\
    (forall w, l_currentSegmentWriter l = Some w -> exists s, last segs' = Some s /\ sg_tail s = tail /\ sw_path w = sg_name s).
Proof.
  intros [L1 L2 L3 L4 L5 L6] Ht.
  assert (Hall : forall n f, l_dir l !! n = Some f -> exists s, s ∈ segs /\ sg_name s = n /\ concat (sg_frames s) = f).
  { intros n f Hn. pose proof (dh_only _ _ L2 n (ex_intro _ f Hn)) as (s & -> & Hs)%list_elem_of_fmap. exists s. split_and!; try done.
    pose proof (dh_found _ _ L2) as Hf. rewrite Forall_forall in Hf. specialize (Hf s Hs). rewrite Forall_forall in L3. specialize (L3 s Hs).
    unfold found in Hf. rewrite L3, app_nil_r in Hf. congruence. }
  unfold crash. destruct (l_currentSegmentWriter l) as [w|]; [|by exists segs; split_and!].
  destruct L6 as (s & Hs & Hp & _). apply last_Some in Hs as [segs0 ->]. set (s' := MkSegment (sg_id s) (sg_entries s) (sg_frames s) tail).
  pose proof (dir_last _ _ _ L2) as (_ & _ & _ & [Hst _] & Hfd). apply Forall_app in L3 as [L3 [Htl _]%Forall_cons_1].
  unfold found in Hfd. rewrite Htl, app_nil_r in Hfd. exists (segs0 ++ [s']). split_and!.
  - rewrite Hp, Hfd. cbn [from_option id]. by apply (dir_set_last _ _ _ s' L2).
  - by rewrite !fmap_app.
  - intros n f Hn. destruct (Hall n f Hn) as (t & Hin & <- & <-). apply elem_of_app in Hin as [Hin|Hin].
    + exists t. split_and!; try done. apply elem_of_app. by left.
    + apply list_elem_of_singleton in Hin as ->. exists s'. split_and!; try done. apply elem_of_app. right. by apply list_elem_of_singleton.
  - intros w' [= <-]. exists s'. by rewrite last_snoc.
Qed.

(** Opening the engine on such a directory. *)
Lemma Engine_Open_run d segs c c' :
  dir_holds d segs -> replay Sum64 now (read_of <$> concat (sg_entries <$> segs)) (Cache.SetMaxSize c 0) = Ret (c', None) ->
  exists l, Engine_Open Sum64 now (NewWAL d) c = Ret (l, Cache.SetMaxSize c' (Cache.c_maxSize c), None) /\
    (forall s, s ∈ segs -> concat (sg_frames s) <> [] -> repaired (l_dir l) s) /\
    (forall s, last segs = Some s -> file_of s <> [] -> exists w, l_currentSegmentWriter l = Some w /\
       sw_path w = sg_name s /\ sw_pos w = length (file_of s) /\ repaired (l_dir l) s).
Proof.
  intros Hd Hp. unfold Engine_Open. destruct (Open_run d segs Hd) as (l & segs' & -> & Hd' & Hc & _ & _ & Hw). cbn [obind].
  assert (Ee : concat (sg_entries <$> segs') = concat (sg_entries <$> segs)).
  { destruct Hc as [[-> _]|(s & -> & Hf & _)]; [done|]. pose proof (dir_last _ _ _ Hd) as (_ & _ & _ & Hok & _).
    rewrite fmap_app, concat_app. cbn. by rewrite (empty_file_entries s Hok Hf), !app_nil_r. }
  rewrite <- Ee in Hp. destruct (reload_run l segs' c c' Hd' Hp) as (d' & E & Hr & _). rewrite E. eexists. split; [reflexivity|].
  rewrite Forall_forall in Hr. cbn [set_writer l_dir l_currentSegmentWriter]. split.
  - intros s Hs Hne. apply Hr. destruct Hc as [[-> _]|(t & -> & Hf & _)]; [done|]. apply elem_of_app in Hs as [Hs|Hs]; [done|].
    apply list_elem_of_singleton in Hs as ->. by apply app_eq_nil in Hf as [Hf _].
  - intros s Hs Hne. destruct (l_currentSegmentWriter l) as [w|]; [|by destruct Hne; apply Hw]. destruct Hw as (t & Ht & -> & Hp1 & Hp2).
    rewrite Hs in Ht. injection Ht as <-. exists w. split_and!; try done. apply Hr. apply last_Some in Hs as [segs0 ->].
    apply elem_of_app. right. by apply list_elem_of_singleton.
Qed.

(** C1. What is written to the log survives: any sequence of writes, segment
    rolls and clean restarts that a new log can number with five digits
    succeeds, and if the process then dies in the middle of one more write,
    leaving any proper part of it behind the current segment, the engine that
    starts on what is left ends with the cache it would have from the written
    entries in their order, its limit restored, and every segment file is
    again exactly what the completed writes put there. *)
Theorem wal_durability (os : list lop) :
  Forall writable (written os) -> Z.of_nat (length os) <= 99999 ->
  exists l, run os (NewWAL ∅) = Ret l /\
    forall tail c c', torn tail -> replay Sum64 now (read_of <$> written os) (Cache.SetMaxSize c 0) = Ret (c', None) ->
    exists l', Engine_Open Sum64 now (NewWAL (crash l tail)) c = Ret (l', Cache.SetMaxSize c' (Cache.c_maxSize c), None) /\
      forall n f, l_dir l !! n = Some f -> f <> [] -> l_dir l' !! n = Some f.
Proof.
  intros Hw Hb. destruct (run_run os (NewWAL ∅) [] NewWAL_inv Hb Hw) as (l & segs & E & Hl & Ee). exists l. split; [done|].
  intros tail c c' Ht Hp. destruct (crash_holds l segs tail Hl Ht) as (segs' & Hd & Ee' & Hall & _). cbn in Ee. rewrite <- Ee, <- Ee' in Hp.
  destruct (Engine_Open_run _ _ c c' Hd Hp) as (l' & El & Hr & _). exists l'. split; [done|]. intros n f Hn Hne.
  destruct (Hall n f Hn) as (s & Hs & <- & <-). by apply Hr.
Qed.

(** The engine opens the log, with its writer at the end of the last
    segment, before the loader cuts the torn tail off, so the writer stays
    past the end of the file by the length of the tail and the next write
    leaves a gap of zeros in the segment. *)
Theorem reopened_writer_past_end (os : list lop) (l : WAL) (w : WALSegmentWriter) (tail : list Z) (c c' : Cache.Cache) :
  Forall writable (written os) -> Z.of_nat (length os) <= 99999 -> run os (NewWAL ∅) = Ret l ->
  l_currentSegmentWriter l = Some w -> torn tail -> tail <> [] ->
  replay Sum64 now (read_of <$> written os) (Cache.SetMaxSize c 0) = Ret (c', None) ->
  exists l' w' f, Engine_Open Sum64 now (NewWAL (crash l tail)) c = Ret (l', Cache.SetMaxSize c' (Cache.c_maxSize c), None) /\
    l_currentSegmentWriter l' = Some w' /\ sw_path w' = sw_path w /\ l_dir l' !! sw_path w' = Some f /\
    sw_pos w' = (length f + length tail)%nat.
Proof.
  intros Hw Hb E Hcw Ht Hne Hp. destruct (run_run os (NewWAL ∅) [] NewWAL_inv Hb Hw) as (l0 & segs & E0 & Hl & Ee).
  rewrite E in E0. injection E0 as <-. destruct (crash_holds l segs tail Hl Ht) as (segs' & Hd & Ee' & _ & Hlast). cbn in Ee.
  rewrite <- Ee, <- Ee' in Hp. destruct (Engine_Open_run _ _ c c' Hd Hp) as (l' & El & _ & Hw'). destruct (Hlast w Hcw) as (s & Hs & Hst & Hpath).
  destruct (Hw' s Hs) as (w' & Hw1 & Hw2 & Hw3 & Hw4); [unfold file_of; rewrite Hst; by intros [_ ?]%app_eq_nil|].
  exists l', w', (concat (sg_frames s)). split_and!; [done|done|by rewrite Hw2|by rewrite Hw2|]. rewrite Hw3. unfold file_of. by rewrite length_app, Hst.
Qed.
End Directories.

(** ** A sample history *)

#[local] Existing Instances store_snappy store_snappy_ok.

Definition sample_hash (k : list Z) : Z := Z.of_nat (length k).
Definition later_entry : WALEntry := WriteEntry [([100], [VFloat (MkValue 9 9)])].
Definition sample_history : list lop := [LWrite sample_entry [] []; LCloseSegment; LRestart; LCloseSegment; LWrite sample_entry [] []].
(** Three bytes of a write. *)
Definition sample_tail : list Z := [1; 0; 0].
Abbreviation sample_log := (run sample_history (NewWAL ∅)).

Lemma sample_writable : writable sample_entry.
Proof.
  split; [exact sample_entry_ok|]. intros bytes b E. destruct sample_entry_ok as [Hk _].
  change (entry_Encode sample_entry bytes) with (Encode (MkWrite [([97], [VString (MkValue 1 [98]); VString (MkValue 2 [])]); ([98; 99], [VFloat (MkValue (-5) 7)]); ([], [VBoolean (MkValue 3 true)])] 0) bytes) in E.
  rewrite Encode_run in E by (done || by left). injection E as <-. by vm_compute.
Qed.

Lemma sample_torn : torn sample_tail.
Proof.
  right. destruct (entry_codec sample_entry [] sample_entry_ok) as (b & Eb & Hu). exists sample_entry, (frame 1 (0 :: b)), 3%nat.
  assert (Hb : b = match entry_Encode sample_entry [] with Ret b => b | _ => [] end) by (by rewrite Eb). split_and!.
  - exists (0 :: b), b. split_and!; [done| |done|done]. rewrite Hb. by vm_compute.
  - rewrite frame_length. cbn. lia.
  - rewrite Hb. by vm_compute.
Qed.

Lemma sample_written : Forall writable (written sample_history) /\ Z.of_nat (length sample_history) <= 99999.
Proof. split; [cbn; repeat (apply Forall_cons; split; [exact sample_writable|]); apply Forall_nil; exact I|cbn; lia]. Qed.

Definition sample_cache : outcome (Cache.Cache * option string) :=
  replay sample_hash 0 (read_of <$> written sample_history) (Cache.SetMaxSize (Cache.NewCache 50) 0).

Lemma wal_durability_witness :
  exists l l' c, sample_log = Ret l /\ Engine_Open sample_hash 0 (NewWAL (crash l sample_tail)) (Cache.NewCache 50) = Ret (l', Cache.SetMaxSize c 50, None) /\
    sample_cache = Ret (c, None).
Proof.
  destruct sample_written as [Hw Hb]. destruct (wal_durability sample_hash 0 sample_history Hw Hb) as (l & El & H).
  assert (exists c, sample_cache = Ret (c, None)) as [c Ec] by (vm_compute; eexists; reflexivity).
  destruct (H sample_tail (Cache.NewCache 50) c sample_torn Ec) as (l' & E & _). exists l, l', c. exact (conj El (conj E Ec)).
Defined.

Lemma reopened_writer_past_end_witness :
  exists l l' w' f, sample_log = Ret l /\ l_currentSegmentWriter l' = Some w' /\ l_dir l' !! sw_path w' = Some f /\ sw_pos w' = (length f + 3)%nat.
Proof.
  destruct sample_written as [Hw Hb]. assert (exists l w, sample_log = Ret l /\ l_currentSegmentWriter l = Some w) as (l & w & El & Ew).
  { vm_compute. eexists _, _. split; reflexivity. }
  assert (exists c, sample_cache = Ret (c, None)) as [c Ec] by (vm_compute; eexists; reflexivity).
  destruct (reopened_writer_past_end sample_hash 0 sample_history l w sample_tail (Cache.NewCache 50) c Hw Hb El Ew sample_torn ltac:(discriminate) Ec)
    as (l' & w' & f & _ & Hw' & _ & Hf & Hp).
  exists l, l', w', f. exact (conj El (conj Hw' (conj Hf Hp))).
Defined.

(** A write after such a restart succeeds and is lost at the next one: the
    reader stops at the gap, and the loader cuts off everything behind it. *)
Example write_after_torn_tail_is_lost :
  match
    (let! l := run [LWrite sample_entry [] []] (NewWAL ∅) in
     let! ((l, c), _) := Engine_Open sample_hash 0 (NewWAL (crash l sample_tail)) (Cache.NewCache 0) in
     let! (_, l) := writeToLog later_entry [] [] l in
     let! ((_, c'), err) := Engine_Open sample_hash 0 (NewWAL (l_dir l)) (Cache.NewCache 0) in
     let! (vs, _) := Cache.ReadValues sample_hash [98; 99] c' in
     let! (lost, _) := Cache.ReadValues sample_hash [100] c' in
     Ret (err, vs, lost))
  with
  | Ret r => r = (None, [VFloat (MkValue (-5) 7)], [])
  | _ => False
  end.
Proof. vm_compute. reflexivity. Qed.
End WalRecovery.
