(* ===== verification/MetaData.v ===== *)
(** * v1/services/meta: databases, retention policies and shard groups

    Models [data.go]: the metadata of all databases with their retention
    policies, the shard groups that divide time, continuous queries,
    subscriptions, users and their privileges, and leases.  A time is its
    nanoseconds since 1970; the zero time of Go is the start of year 1.
    Clocks, the parsing of URLs and the Unicode lower case are arguments. *)
From S2P Require Import Prelude.
From stdpp Require Import gmap strings sorting.
#[global] Open Scope Z_scope.

Module Meta.

(** ** Times and durations *)

Definition Second : Z := 1000000000.
Definition Hour : Z := 3600 * Second.
(** [time.Time{}], and [MaxNanoTime] of [models]. *)
Definition zeroTime : Z := -62135596800 * Second.
Definition MaxNanoTime : Z := 2 ^ 63 - 2.
Definition IsZero (t : Z) : bool := t =? zeroTime.
Definition Truncate (t d : Z) : Z := if d <=? 0 then t else t - (t - zeroTime) mod d.

Definition DefaultRetentionPolicyReplicaN : Z := 1.
Definition DefaultRetentionPolicyDuration : Z := 0.
Definition DefaultRetentionPolicyName : string := "autogen".
Definition MinRetentionPolicyDuration : Z := Hour.
Definition MaxNameLen : nat := 255.

Definition shardGroupDuration (d : Z) : Z :=
  if (180 * 24 * Hour <=? d) || (d =? 0) then 7 * 24 * Hour
  else if 2 * 24 * Hour <=? d then 24 * Hour
  else Hour.

Definition NormalisedShardDuration (sgd d : Z) : Z :=
  if sgd =? 0 then shardGroupDuration d
  else if sgd <? MinRetentionPolicyDuration then shardGroupDuration MinRetentionPolicyDuration
  else sgd.

(** ** The data *)

Record ShardOwner := MkOwner { so_NodeID : Z }.
Record ShardInfo := MkShard { si_ID : Z; si_Owners : list ShardOwner }.
Record ShardGroupInfo := MkGroup {
  sg_ID : Z;
  sg_StartTime : Z;
  sg_EndTime : Z;
  sg_DeletedAt : Z;
  sg_Shards : list ShardInfo;
  sg_TruncatedAt : Z }.
Record SubscriptionInfo := MkSubscription { sub_Name : string; sub_Mode : string; sub_Destinations : list string }.
Record ContinuousQueryInfo := MkQuery { cq_Name : string; cq_Query : string }.
Record RetentionPolicyInfo := MkPolicy {
  rp_Name : string;
  rp_ReplicaN : Z;
  rp_Duration : Z;
  rp_ShardGroupDuration : Z;
  rp_ShardGroups : list ShardGroupInfo;
  rp_Subscriptions : list SubscriptionInfo }.
Record DatabaseInfo := MkDatabase {
  db_Name : string;
  db_DefaultRetentionPolicy : string;
  db_RetentionPolicies : list RetentionPolicyInfo;
  db_ContinuousQueries : list ContinuousQueryInfo }.

(** [influxql.Privilege]: an integer. *)
Abbreviation Privilege := Z (only parsing).
Record UserInfo := MkUser { u_Name : string; u_Hash : string; u_Admin : bool; u_Privileges : gmap string Privilege }.

Record Data := MkData {
  d_Term : Z;
  d_Index : Z;
  d_ClusterID : Z;
  d_Databases : list DatabaseInfo;
  d_Users : list UserInfo;
  d_adminUserExists : bool;
  d_MaxShardGroupID : Z;
  d_MaxShardID : Z }.

Definition set_databases (d : Data) (dbs : list DatabaseInfo) : Data :=
  MkData (d_Term d) (d_Index d) (d_ClusterID d) dbs (d_Users d) (d_adminUserExists d) (d_MaxShardGroupID d) (d_MaxShardID d).
Definition set_users (d : Data) (us : list UserInfo) (admin : bool) : Data :=
  MkData (d_Term d) (d_Index d) (d_ClusterID d) (d_Databases d) us admin (d_MaxShardGroupID d) (d_MaxShardID d).
Definition set_ids (d : Data) (group shard : Z) : Data :=
  MkData (d_Term d) (d_Index d) (d_ClusterID d) (d_Databases d) (d_Users d) (d_adminUserExists d) group shard.
Definition set_index (d : Data) (i : Z) : Data :=
  MkData (d_Term d) i (d_ClusterID d) (d_Databases d) (d_Users d) (d_adminUserExists d) (d_MaxShardGroupID d) (d_MaxShardID d).

Definition set_policies (di : DatabaseInfo) (rps : list RetentionPolicyInfo) : DatabaseInfo :=
  MkDatabase (db_Name di) (db_DefaultRetentionPolicy di) rps (db_ContinuousQueries di).
Definition set_default (di : DatabaseInfo) (n : string) : DatabaseInfo :=
  MkDatabase (db_Name di) n (db_RetentionPolicies di) (db_ContinuousQueries di).
Definition set_queries (di : DatabaseInfo) (qs : list ContinuousQueryInfo) : DatabaseInfo :=
  MkDatabase (db_Name di) (db_DefaultRetentionPolicy di) (db_RetentionPolicies di) qs.
Definition set_groups (rp : RetentionPolicyInfo) (gs : list ShardGroupInfo) : RetentionPolicyInfo :=
  MkPolicy (rp_Name rp) (rp_ReplicaN rp) (rp_Duration rp) (rp_ShardGroupDuration rp) gs (rp_Subscriptions rp).
Definition set_subscriptions (rp : RetentionPolicyInfo) (ss : list SubscriptionInfo) : RetentionPolicyInfo :=
  MkPolicy (rp_Name rp) (rp_ReplicaN rp) (rp_Duration rp) (rp_ShardGroupDuration rp) (rp_ShardGroups rp) ss.

(** The loops that look for the first element with a name: what they find,
    the slice with that element changed, and the slice without it. *)
Section First.
Context {A : Type} (p : A -> bool).

Fixpoint first (l : list A) : option A :=
  match l with [] => None | x :: l => if p x then Some x else first l end.
Fixpoint change (f : A -> A) (l : list A) : list A :=
  match l with [] => [] | x :: l => if p x then f x :: l else x :: change f l end.
Fixpoint drop_first (l : list A) : list A :=
  match l with [] => [] | x :: l => if p x then l else x :: drop_first l end.
End First.

Definition named_db (n : string) (di : DatabaseInfo) : bool := String.eqb (db_Name di) n.
Definition named_rp (n : string) (rp : RetentionPolicyInfo) : bool := String.eqb (rp_Name rp) n.
Definition named_user (n : string) (u : UserInfo) : bool := String.eqb (u_Name u) n.

(** ** Errors *)

Definition ErrDatabaseNameRequired : string := "database name required".
Definition ErrNameTooLong : string := "name too long".
Definition ErrRetentionPolicyExists : string := "retention policy already exists".
Definition ErrRetentionPolicyRequired : string := "retention policy required".
Definition ErrRetentionPolicyNameRequired : string := "retention policy name required".
Definition ErrRetentionPolicyNameExists : string := "retention policy name already exists".
Definition ErrRetentionPolicyDurationTooLow : string := "retention policy duration must be at least 1h0m0s".
Definition ErrRetentionPolicyConflict : string := "retention policy conflicts with an existing policy".
Definition ErrIncompatibleDurations : string := "retention policy duration must be greater than the shard duration".
Definition ErrReplicationFactorTooLow : string := "replication factor must be greater than 0".
Definition ErrShardGroupExists : string := "shard group already exists".
Definition ErrShardGroupNotFound : string := "shard group not found".
Definition ErrContinuousQueryExists : string := "continuous query already exists".
Definition ErrSubscriptionExists : string := "subscription already exists".
Definition ErrSubscriptionNotFound : string := "subscription not found".
Definition ErrInvalidSubscriptionURL (url : string) : string := "invalid subscription URL: " +:+ url.
Definition ErrUserExists : string := "user already exists".
Definition ErrUserNotFound : string := "user not found".
Definition ErrUsernameRequired : string := "username required".
Definition ErrAuthenticate : string := "authentication failed".
Definition ErrDatabaseNotFound (name : string) : string := "database not found: " +:+ name.
Definition ErrRetentionPolicyNotFound (name : string) : string := "retention policy not found: " +:+ name.

(** ** Shard groups *)

Definition Deleted (sgi : ShardGroupInfo) : bool := negb (IsZero (sg_DeletedAt sgi)).
Definition Truncated (sgi : ShardGroupInfo) : bool := negb (IsZero (sg_TruncatedAt sgi)).
Definition Contains (sgi : ShardGroupInfo) (t : Z) : bool := (sg_StartTime sgi <=? t) && (t <? sg_EndTime sgi).
Definition Overlaps (sgi : ShardGroupInfo) (min max : Z) : bool := (sg_StartTime sgi <=? max) && (min <? sg_EndTime sgi).
(** The end of the range that takes writes. *)
Definition open_end (sgi : ShardGroupInfo) : Z := if Truncated sgi then sg_TruncatedAt sgi else sg_EndTime sgi.

Definition Less (a b : ShardGroupInfo) : bool :=
  if open_end a =? open_end b then sg_StartTime a <? sg_StartTime b else open_end a <? open_end b.

(** [sort.Sort] on [ShardGroupInfos], as the insertion sort it is for short
    slices. *)
Fixpoint insert_group (g : ShardGroupInfo) (l : list ShardGroupInfo) : list ShardGroupInfo :=
  match l with [] => [g] | x :: l => if Less g x then g :: x :: l else x :: insert_group g l end.
Definition Sort (l : list ShardGroupInfo) : list ShardGroupInfo := foldl (fun acc g => insert_group g acc) [] l.

(** [HashID] is that of the point; the remainder by no shards panics. *)
Definition ShardFor (sgi : ShardGroupInfo) (HashID : Z) : outcome ShardInfo :=
  match sg_Shards sgi with
  | [] => Panic
  | [s] => Ret s
  | ss => or_panic (ss !! Z.to_nat (HashID mod Z.of_nat (length ss)))
  end.

Definition OwnedBy (si : ShardInfo) (nodeID : Z) : bool := existsb (fun so => so_NodeID so =? nodeID) (si_Owners si).

Definition takes (timestamp : Z) (sgi : ShardGroupInfo) : bool :=
  Contains sgi timestamp && negb (Deleted sgi) && (negb (Truncated sgi) || (timestamp <? sg_TruncatedAt sgi)).
(** [RetentionPolicyInfo.ShardGroupByTimestamp] *)
Definition GroupByTimestamp (rpi : RetentionPolicyInfo) (timestamp : Z) : option ShardGroupInfo :=
  first (takes timestamp) (rp_ShardGroups rpi).

Definition ExpiredShardGroups (rpi : RetentionPolicyInfo) (t : Z) : list ShardGroupInfo :=
  filter (fun g => negb (Deleted g) && negb (rp_Duration rpi =? 0) && (sg_EndTime g + rp_Duration rpi <? t) = true) (rp_ShardGroups rpi).
Definition DeletedShardGroups (rpi : RetentionPolicyInfo) : list ShardGroupInfo := filter (fun g => Deleted g = true) (rp_ShardGroups rpi).

(** ** Databases *)

Definition Database (data : Data) (name : string) : option DatabaseInfo := first (named_db name) (d_Databases data).
(** Changing the database a pointer returned by [Database] points to. *)
Definition set_database (data : Data) (name : string) (f : DatabaseInfo -> DatabaseInfo) : Data :=
  set_databases data (change (named_db name) f (d_Databases data)).

Definition CreateDatabase (data : Data) (name : string) : outcome Data :=
  if String.eqb name "" then Fail ErrDatabaseNameRequired
  else if (MaxNameLen <? String.length name)%nat then Fail ErrNameTooLong
  else
    match Database data name with
    | Some _ => Ret data
    | None => Ret (set_databases data (d_Databases data ++ [MkDatabase name "" [] []]))
    end.

Definition drop_privilege (name : string) (u : UserInfo) : UserInfo :=
  MkUser (u_Name u) (u_Hash u) (u_Admin u) (delete name (u_Privileges u)).
Definition DropDatabase (data : Data) (name : string) : Data :=
  match Database data name with
  | None => data
  | Some _ =>
    set_users (set_databases data (drop_first (named_db name) (d_Databases data))) (drop_privilege name <$> d_Users data) (d_adminUserExists data)
  end.

(** ** Retention policies *)

(** [DatabaseInfo.RetentionPolicy]: the empty name is the default policy. *)
Definition effective_name (di : DatabaseInfo) (name : string) : string :=
  if String.eqb name "" then db_DefaultRetentionPolicy di else name.
Definition DB_RetentionPolicy (di : DatabaseInfo) (name : string) : option RetentionPolicyInfo :=
  if String.eqb (effective_name di name) "" then None
  else first (named_rp (effective_name di name)) (db_RetentionPolicies di).

(** [Data.RetentionPolicy] has no default. *)
Definition RetentionPolicy (data : Data) (database name : string) : outcome (option RetentionPolicyInfo) :=
  match Database data database with
  | None => Fail (ErrDatabaseNotFound database)
  | Some di => Ret (first (named_rp name) (db_RetentionPolicies di))
  end.
(** The callers that report a missing policy. *)
Definition find_policy (data : Data) (database policy : string) : outcome RetentionPolicyInfo :=
  let! rpi := RetentionPolicy data database policy in
  match rpi with None => Fail (ErrRetentionPolicyNotFound policy) | Some rpi => Ret rpi end.
Definition set_policy (data : Data) (database policy : string) (f : RetentionPolicyInfo -> RetentionPolicyInfo) : Data :=
  set_database data database (fun di => set_policies di (change (named_rp policy) f (db_RetentionPolicies di))).

Definition CreateRetentionPolicy (data : Data) (database : string) (rpi : option RetentionPolicyInfo) (makeDefault : bool) : outcome Data :=
  match rpi with
  | None => Fail ErrRetentionPolicyRequired
  | Some rpi =>
    if String.eqb (rp_Name rpi) "" then Fail ErrRetentionPolicyNameRequired
    else if (MaxNameLen <? String.length (rp_Name rpi))%nat then Fail ErrNameTooLong
    else if rp_ReplicaN rpi <? 1 then Fail ErrReplicationFactorTooLow
    else
      let sgd := NormalisedShardDuration (rp_ShardGroupDuration rpi) (rp_Duration rpi) in
      let rpi := MkPolicy (rp_Name rpi) (rp_ReplicaN rpi) (rp_Duration rpi) sgd (rp_ShardGroups rpi) (rp_Subscriptions rpi) in
      if (0 <? rp_Duration rpi) && (rp_Duration rpi <? sgd) then Fail ErrIncompatibleDurations
      else
        match Database data database with
        | None => Fail (ErrDatabaseNotFound database)
        | Some di =>
          match DB_RetentionPolicy di (rp_Name rpi) with
          | Some rp =>
            if negb (rp_ReplicaN rp =? rp_ReplicaN rpi) || negb (rp_Duration rp =? rp_Duration rpi) || negb (rp_ShardGroupDuration rp =? sgd)
            then Fail ErrRetentionPolicyExists
            else if makeDefault && negb (String.eqb (db_DefaultRetentionPolicy di) (rp_Name rpi)) then Fail ErrRetentionPolicyConflict
            else Ret data
          | None =>
            Ret (set_database data database (fun di =>
              let di := set_policies di (db_RetentionPolicies di ++ [rpi]) in
              if makeDefault then set_default di (rp_Name rpi) else di))
          end
        end
  end.

Definition DropRetentionPolicy (data : Data) (database name : string) : Data :=
  set_database data database (fun di => set_policies di (drop_first (named_rp name) (db_RetentionPolicies di))).

Record RetentionPolicyUpdate := MkUpdate {
  rpu_Name : option string;
  rpu_Duration : option Z;
  rpu_ReplicaN : option Z;
  rpu_ShardGroupDuration : option Z }.

Definition too_low (d : option Z) : bool :=
  match d with Some d => (d <? MinRetentionPolicyDuration) && negb (d =? 0) | None => false end.
Definition incompatible (rpi : RetentionPolicyInfo) (rpu : RetentionPolicyUpdate) : bool :=
  match rpu_Duration rpu, rpu_ShardGroupDuration rpu with
  | Some d, Some sgd => (0 <? d) && (d <? sgd)
  | Some d, None => (0 <? d) && (d <? rp_ShardGroupDuration rpi)
  | None, Some sgd => (0 <? rp_Duration rpi) && (rp_Duration rpi <? sgd)
  | None, None => false
  end.
Definition update_policy (rpu : RetentionPolicyUpdate) (rpi : RetentionPolicyInfo) : RetentionPolicyInfo :=
  let d := default (rp_Duration rpi) (rpu_Duration rpu) in
  MkPolicy (default (rp_Name rpi) (rpu_Name rpu)) (default (rp_ReplicaN rpi) (rpu_ReplicaN rpu)) d
    (match rpu_ShardGroupDuration rpu with Some sgd => NormalisedShardDuration sgd d | None => rp_ShardGroupDuration rpi end)
    (rp_ShardGroups rpi) (rp_Subscriptions rpi).

Definition UpdateRetentionPolicy (data : Data) (database name : string) (rpu : RetentionPolicyUpdate) (makeDefault : bool) : outcome Data :=
  match Database data database with
  | None => Fail (ErrDatabaseNotFound database)
  | Some di =>
    match DB_RetentionPolicy di name with
    | None => Fail (ErrRetentionPolicyNotFound name)
    | Some rpi =>
      if match rpu_Name rpu with
         | Some n => negb (String.eqb n name) && bool_decide (is_Some (DB_RetentionPolicy di n))
         | None => false
         end then Fail ErrRetentionPolicyNameExists
      else if too_low (rpu_Duration rpu) then Fail ErrRetentionPolicyDurationTooLow
      else if incompatible rpi rpu then Fail ErrIncompatibleDurations
      else
        Ret (set_database data database (fun di =>
          let rp := update_policy rpu rpi in
          let di' := set_policies di (change (named_rp (effective_name di name)) (update_policy rpu) (db_RetentionPolicies di)) in
          if negb (String.eqb (db_DefaultRetentionPolicy di) (rp_Name rp)) && makeDefault then set_default di' (rp_Name rp) else di'))
    end
  end.

(** ** Operations on shards and shard groups *)

(** [DropShard]: the first group, in the order of databases, policies and
    groups, that has the shard loses it. *)
Definition is_shard (id : Z) (s : ShardInfo) : bool := si_ID s =? id.
Definition has_shard (id : Z) (sg : ShardGroupInfo) : bool := existsb (is_shard id) (sg_Shards sg).
Definition drop_shard (now id : Z) (sg : ShardGroupInfo) : ShardGroupInfo :=
  MkGroup (sg_ID sg) (sg_StartTime sg) (sg_EndTime sg)
    (if (length (sg_Shards sg) =? 1)%nat && negb (Deleted sg) then now else sg_DeletedAt sg)
    (drop_first (is_shard id) (sg_Shards sg)) (sg_TruncatedAt sg).
Definition rp_has_shard (id : Z) (rp : RetentionPolicyInfo) : bool := existsb (has_shard id) (rp_ShardGroups rp).
Definition db_has_shard (id : Z) (di : DatabaseInfo) : bool := existsb (rp_has_shard id) (db_RetentionPolicies di).
Definition DropShard (now : Z) (data : Data) (id : Z) : Data :=
  set_databases data (change (db_has_shard id) (fun di =>
    set_policies di (change (rp_has_shard id) (fun rp =>
      set_groups rp (change (has_shard id) (drop_shard now id) (rp_ShardGroups rp))) (db_RetentionPolicies di))) (d_Databases data)).

Definition ShardGroups (data : Data) (database policy : string) : outcome (list ShardGroupInfo) :=
  let! rpi := find_policy data database policy in
  Ret (filter (fun g => Deleted g = false) (rp_ShardGroups rpi)).

Definition ShardGroupsByTimeRange (data : Data) (database policy : string) (tmin tmax : Z) : outcome (list ShardGroupInfo) :=
  let! rpi := find_policy data database policy in
  Ret (filter (fun g => Deleted g || negb (Overlaps g tmin tmax) = false) (rp_ShardGroups rpi)).

Definition ShardGroupByTimestamp (data : Data) (database policy : string) (timestamp : Z) : outcome (option ShardGroupInfo) :=
  let! rpi := find_policy data database policy in Ret (GroupByTimestamp rpi timestamp).

(** The loop of [CreateShardGroup] over the groups that exist. *)
Definition narrow (timestamp : Z) (range : Z * Z) (g : ShardGroupInfo) : Z * Z :=
  if Deleted g then range
  else
    let startI := sg_StartTime g in
    let endI := open_end g in
    let startTime := if (endI <=? timestamp) && (range.1 <? endI) then endI else range.1 in
    let endTime := if (timestamp <? startI) && (startI <? range.2) then startI else range.2 in
    (startTime, endTime).
Definition whole_range (rpi : RetentionPolicyInfo) (timestamp : Z) : Z * Z :=
  let startTime := Truncate timestamp (rp_ShardGroupDuration rpi) in
  let endTime := startTime + rp_ShardGroupDuration rpi in
  (startTime, if MaxNanoTime <? endTime then MaxNanoTime + 1 else endTime).
Definition new_range (rpi : RetentionPolicyInfo) (timestamp : Z) : Z * Z :=
  foldl (narrow timestamp) (whole_range rpi timestamp) (rp_ShardGroups rpi).

Definition CreateShardGroup (data : Data) (database policy : string) (timestamp : Z) (shards : list ShardInfo) : outcome Data :=
  let! rpi := find_policy data database policy in
  match GroupByTimestamp rpi timestamp with
  | Some _ => Ret data
  | None =>
    let '(startTime, endTime) := new_range rpi timestamp in
    let MaxShardGroupID := u64 (d_MaxShardGroupID data + 1) in
    let '(shards, MaxShardID) :=
      match shards with
      | [] => let id := u64 (d_MaxShardID data + 1) in ([MkShard id []], id)
      | _ => (shards, foldl (fun m si => if m <? si_ID si then si_ID si else m) (d_MaxShardID data) shards)
      end in
    let sgi := MkGroup MaxShardGroupID startTime endTime zeroTime shards zeroTime in
    Ret (set_policy (set_ids data MaxShardGroupID MaxShardID) database policy (fun rpi => set_groups rpi (Sort (rp_ShardGroups rpi ++ [sgi]))))
  end.

Definition is_group (id : Z) (g : ShardGroupInfo) : bool := sg_ID g =? id.
Definition set_deleted (now : Z) (g : ShardGroupInfo) : ShardGroupInfo :=
  MkGroup (sg_ID g) (sg_StartTime g) (sg_EndTime g) now (sg_Shards g) (sg_TruncatedAt g).
Definition DeleteShardGroup (now : Z) (data : Data) (database policy : string) (id : Z) : outcome Data :=
  let! rpi := find_policy data database policy in
  match first (is_group id) (rp_ShardGroups rpi) with
  | None => Fail ErrShardGroupNotFound
  | Some _ => Ret (set_policy data database policy (fun rpi => set_groups rpi (change (is_group id) (set_deleted now) (rp_ShardGroups rpi))))
  end.

(** A loop over all groups of all policies of all databases. *)
Definition map_groups (f : list ShardGroupInfo -> list ShardGroupInfo) (data : Data) : Data :=
  set_databases data ((fun di => set_policies di ((fun rp => set_groups rp (f (rp_ShardGroups rp))) <$> db_RetentionPolicies di)) <$> d_Databases data).
Definition all_groups (data : Data) : list ShardGroupInfo :=
  di ← d_Databases data; rp ← db_RetentionPolicies di; rp_ShardGroups rp.

Definition remains (expiration : Z) (g : ShardGroupInfo) : bool :=
  IsZero (sg_DeletedAt g) || negb (sg_DeletedAt g <? expiration) || (0 <? length (sg_Shards g))%nat.
Definition PruneShardGroups (data : Data) (expiration : Z) : bool * Data :=
  (existsb (fun g => negb (remains expiration g)) (all_groups data), map_groups (filter (fun g => remains expiration g = true)) data).

Definition truncate_group (t : Z) (g : ShardGroupInfo) : ShardGroupInfo :=
  if negb (t <? sg_EndTime g) || Deleted g || (Truncated g && (sg_TruncatedAt g <? t)) then g
  else MkGroup (sg_ID g) (sg_StartTime g) (sg_EndTime g) (sg_DeletedAt g) (sg_Shards g) (if negb (sg_StartTime g <? t) then sg_StartTime g else t).
Definition TruncateShardGroups (data : Data) (t : Z) : Data := map_groups (fmap (truncate_group t)) data.

(** [DatabaseInfo.ShardInfos], in the order of the map. *)
Definition ShardInfos (di : DatabaseInfo) : list ShardInfo :=
  (map_to_list (foldl (fun m (si : ShardInfo) => <[si_ID si := si]> m) (∅ : gmap Z ShardInfo)
    (rp ← db_RetentionPolicies di; g ← filter (fun g => Deleted g = false) (rp_ShardGroups rp); sg_Shards g))).*2.

(** ** Continuous queries and subscriptions *)

Section Text.
(** [strings.ToLower]; [url.Parse] to a scheme and a host; [net.SplitHostPort]
    to a host and a port. *)
Context (ToLower : string -> string) (Parse SplitHostPort : string -> option (string * string)).

Definition named_cq (n : string) (q : ContinuousQueryInfo) : bool := String.eqb (cq_Name q) n.
Definition CreateContinuousQuery (data : Data) (database name query : string) : outcome Data :=
  match Database data database with
  | None => Fail (ErrDatabaseNotFound database)
  | Some di =>
    match first (named_cq name) (db_ContinuousQueries di) with
    | Some cq => if String.eqb (ToLower (cq_Query cq)) (ToLower query) then Ret data else Fail ErrContinuousQueryExists
    | None => Ret (set_database data database (fun di => set_queries di (db_ContinuousQueries di ++ [MkQuery name query])))
    end
  end.
Definition DropContinuousQuery (data : Data) (database name : string) : Data :=
  set_database data database (fun di => set_queries di (drop_first (named_cq name) (db_ContinuousQueries di))).

Definition validateURL (input : string) : outcome unit :=
  match Parse input with
  | None => Fail (ErrInvalidSubscriptionURL input)
  | Some (scheme, host) =>
    if negb (String.eqb scheme "udp") && negb (String.eqb scheme "http") && negb (String.eqb scheme "https") then Fail (ErrInvalidSubscriptionURL input)
    else
      match SplitHostPort host with
      | None => Fail (ErrInvalidSubscriptionURL input)
      | Some (_, port) => if String.eqb port "" then Fail (ErrInvalidSubscriptionURL input) else Ret tt
      end
  end.
Fixpoint validate_all (ds : list string) : outcome unit :=
  match ds with [] => Ret tt | d :: ds => let! _ := validateURL d in validate_all ds end.

Definition named_sub (n : string) (s : SubscriptionInfo) : bool := String.eqb (sub_Name s) n.
Definition CreateSubscription (data : Data) (database rp name mode : string) (destinations : list string) : outcome Data :=
  let! _ := validate_all destinations in
  let! rpi := find_policy data database rp in
  match first (named_sub name) (rp_Subscriptions rpi) with
  | Some _ => Fail ErrSubscriptionExists
  | None => Ret (set_policy data database rp (fun rpi => set_subscriptions rpi (rp_Subscriptions rpi ++ [MkSubscription name mode destinations])))
  end.
Definition DropSubscription (data : Data) (database rp name : string) : outcome Data :=
  let! rpi := find_policy data database rp in
  match first (named_sub name) (rp_Subscriptions rpi) with
  | None => Fail ErrSubscriptionNotFound
  | Some _ => Ret (set_policy data database rp (fun rpi => set_subscriptions rpi (drop_first (named_sub name) (rp_Subscriptions rpi))))
  end.
End Text.

(** ** Users *)

Definition user (data : Data) (username : string) : option UserInfo := first (named_user username) (d_Users data).
Definition hasAdminUser (us : list UserInfo) : bool := existsb u_Admin us.
Definition set_user (data : Data) (name : string) (f : UserInfo -> UserInfo) (admin : list UserInfo -> bool) : Data :=
  let us := change (named_user name) f (d_Users data) in set_users data us (admin us).

Definition CreateUser (data : Data) (name hash : string) (admin : bool) : outcome Data :=
  if String.eqb name "" then Fail ErrUsernameRequired
  else
    match user data name with
    | Some _ => Fail ErrUserExists
    | None => Ret (set_users data (d_Users data ++ [MkUser name hash admin ∅]) (if admin then true else d_adminUserExists data))
    end.

Definition DropUser (data : Data) (name : string) : outcome Data :=
  match user data name with
  | None => Fail ErrUserNotFound
  | Some u =>
    let us := drop_first (named_user name) (d_Users data) in
    Ret (set_users data us (if u_Admin u then hasAdminUser us else d_adminUserExists data))
  end.

Definition UpdateUser (data : Data) (name hash : string) : outcome Data :=
  match user data name with
  | None => Fail ErrUserNotFound
  | Some _ => Ret (set_user data name (fun u => MkUser (u_Name u) hash (u_Admin u) (u_Privileges u)) (fun _ => d_adminUserExists data))
  end.

Definition SetPrivilege (data : Data) (name database : string) (p : Privilege) : outcome Data :=
  match user data name with
  | None => Fail ErrUserNotFound
  | Some _ =>
    match Database data database with
    | None => Fail (ErrDatabaseNotFound database)
    | Some _ =>
      Ret (set_user data name (fun u => MkUser (u_Name u) (u_Hash u) (u_Admin u) (<[database := p]> (u_Privileges u))) (fun _ => d_adminUserExists data))
    end
  end.

Definition SetAdminPrivilege (data : Data) (name : string) (admin : bool) : outcome Data :=
  match user data name with
  | None => Fail ErrUserNotFound
  | Some _ => Ret (set_user data name (fun u => MkUser (u_Name u) (u_Hash u) admin (u_Privileges u)) hasAdminUser)
  end.

Definition AdminUserExists (data : Data) : bool := d_adminUserExists data.
Definition UserPrivileges (data : Data) (name : string) : outcome (gmap string Privilege) :=
  match user data name with None => Fail ErrUserNotFound | Some ui => Ret (u_Privileges ui) end.

Section Privileges.
(** The two constants of [influxql] the code compares with. *)
Context (NoPrivileges AllPrivileges : Privilege).

Definition UserPrivilege (data : Data) (name database : string) : outcome Privilege :=
  match user data name with None => Fail ErrUserNotFound | Some ui => Ret (default NoPrivileges (u_Privileges ui !! database)) end.

Definition AuthorizeDatabase (ui : UserInfo) (privilege : Privilege) (database : string) : bool :=
  if u_Admin ui || (privilege =? NoPrivileges) then true
  else match u_Privileges ui !! database with Some p => (p =? privilege) || (p =? AllPrivileges) | None => false end.
End Privileges.
Definition AuthorizeUnrestricted (u : UserInfo) : bool := u_Admin u.

(** ** Importing a backup *)

(** The renumbering of the shards of a group: the new shards, the largest
    number given out, and the map from old to new numbers. *)
Fixpoint renumber_shards (ss : list ShardInfo) (max : Z) (m : gmap Z Z) : list ShardInfo * Z * gmap Z Z :=
  match ss with
  | [] => ([], max, m)
  | s :: ss =>
    let max := u64 (max + 1) in
    let '(ss, max', m) := renumber_shards ss max (<[si_ID s := max]> m) in
    (MkShard max [] :: ss, max', m)
  end.
Fixpoint renumber_groups (gs : list ShardGroupInfo) (gmax smax : Z) (m : gmap Z Z) : list ShardGroupInfo * Z * Z * gmap Z Z :=
  match gs with
  | [] => ([], gmax, smax, m)
  | g :: gs =>
    let gmax := u64 (gmax + 1) in
    let '(ss, smax, m) := renumber_shards (sg_Shards g) smax m in
    let '(gs, gmax', smax, m) := renumber_groups gs gmax smax m in
    (MkGroup gmax (sg_StartTime g) (sg_EndTime g) (sg_DeletedAt g) ss (sg_TruncatedAt g) :: gs, gmax', smax, m)
  end.
Fixpoint renumber_policies (rps : list RetentionPolicyInfo) (gmax smax : Z) (m : gmap Z Z) : list RetentionPolicyInfo * Z * Z * gmap Z Z :=
  match rps with
  | [] => ([], gmax, smax, m)
  | rp :: rps =>
    let '(gs, gmax, smax, m) := renumber_groups (rp_ShardGroups rp) gmax smax m in
    let '(rps, gmax, smax, m) := renumber_policies rps gmax smax m in
    (set_groups rp gs :: rps, gmax, smax, m)
  end.

Definition renamed (rp : RetentionPolicyInfo) (n : string) : RetentionPolicyInfo :=
  MkPolicy n (rp_ReplicaN rp) (rp_Duration rp) (rp_ShardGroupDuration rp) (rp_ShardGroups rp) (rp_Subscriptions rp).

(** A failure after [CreateDatabase] leaves the new database behind. *)
Definition importOneDB (data other : Data) (backupDBName restoreDBName backupRPName restoreRPName : string) (m : gmap Z Z) :
    Data * gmap Z Z * outcome string :=
  match Database other backupDBName with
  | None => (data, m, Fail ("imported metadata does not have datbase named " +:+ backupDBName))
  | Some dbPtr =>
    let restoreDBName := if String.eqb restoreDBName "" then backupDBName else restoreDBName in
    match Database data restoreDBName with
    | Some _ => (data, m, Fail "database already exists")
    | None =>
      match CreateDatabase data restoreDBName with
      | Fail e => (data, m, Fail e)
      | Panic => (data, m, Panic)
      | Ret data =>
        let finish (rps : list RetentionPolicyInfo) (dflt : string) :=
          let '(rps, gmax, smax, m) := renumber_policies rps (d_MaxShardGroupID data) (d_MaxShardID data) m in
          (set_ids (set_database data restoreDBName (fun di => set_default (set_policies di rps) dflt)) gmax smax, m, Ret restoreDBName) in
        if negb (String.eqb backupRPName "") then
          match DB_RetentionPolicy dbPtr backupRPName with
          | Some rp =>
            let restoreRPName := if String.eqb restoreRPName "" then backupRPName else restoreRPName in
            finish [renamed rp restoreRPName] restoreRPName
          | None => (data, m, Fail ("retention Policy not found in meta backup: " +:+ backupDBName +:+ "." +:+ backupRPName))
          end
        else finish (db_RetentionPolicies dbPtr) (db_DefaultRetentionPolicy dbPtr)
      end
    end
  end.

Fixpoint import_all (data other : Data) (dbs : list DatabaseInfo) (m : gmap Z Z) (newDBs : list string) : Data * outcome (gmap Z Z * list string) :=
  match dbs with
  | [] => (data, Ret (m, newDBs))
  | dbi :: dbs =>
    if String.eqb (db_Name dbi) "_internal" then import_all data other dbs m newDBs
    else
      match importOneDB data other (db_Name dbi) "" "" "" m with
      | (data, m, Ret dbName) => import_all data other dbs m (newDBs ++ [dbName])
      | (data, _, Fail e) => (data, Fail e)
      | (data, _, Panic) => (data, Panic)
      end
  end.

Definition ImportData (data other : Data) (backupDBName restoreDBName backupRPName restoreRPName : string) : Data * outcome (gmap Z Z * list string) :=
  if negb (String.eqb backupDBName "") then
    match importOneDB data other backupDBName restoreDBName backupRPName restoreRPName ∅ with
    | (data, m, Ret dbName) => (data, Ret (m, [dbName]))
    | (data, _, Fail e) => (data, Fail e)
    | (data, _, Panic) => (data, Panic)
    end
  else import_all data other (d_Databases other) ∅ [].

(** ** Policy specifications *)

Record RetentionPolicySpec := MkSpec { sp_Name : string; sp_ReplicaN : option Z; sp_Duration : option Z; sp_ShardGroupDuration : Z }.

Definition NewRetentionPolicyInfo (name : string) : RetentionPolicyInfo :=
  MkPolicy name DefaultRetentionPolicyReplicaN DefaultRetentionPolicyDuration 0 [] [].
Definition DefaultRetentionPolicyInfo : RetentionPolicyInfo := NewRetentionPolicyInfo DefaultRetentionPolicyName.
Definition ToSpec (rpi : RetentionPolicyInfo) : RetentionPolicySpec :=
  MkSpec (rp_Name rpi) (Some (rp_ReplicaN rpi)) (Some (rp_Duration rpi)) (rp_ShardGroupDuration rpi).
Definition Apply (rpi : RetentionPolicyInfo) (spec : RetentionPolicySpec) : RetentionPolicyInfo :=
  let d := default (rp_Duration rpi) (sp_Duration spec) in
  MkPolicy (if String.eqb (sp_Name spec) "" then rp_Name rpi else sp_Name spec) (default (rp_ReplicaN rpi) (sp_ReplicaN spec)) d
    (NormalisedShardDuration (sp_ShardGroupDuration spec) d) [] [].
Definition spec_info (s : RetentionPolicySpec) : RetentionPolicyInfo := Apply DefaultRetentionPolicyInfo s.
Definition Matches (s : RetentionPolicySpec) (rpi : option RetentionPolicyInfo) : bool :=
  match rpi with
  | None => false
  | Some rpi =>
    if negb (String.eqb (sp_Name s) "") && negb (String.eqb (sp_Name s) (rp_Name rpi)) then false
    else if match sp_Duration s with Some d => negb (d =? rp_Duration rpi) | None => false end then false
    else if match sp_ReplicaN s with Some n => negb (n =? rp_ReplicaN rpi) | None => false end then false
    else NormalisedShardDuration (sp_ShardGroupDuration s) (rp_Duration rpi) =? rp_ShardGroupDuration rpi
  end.

(** ** Leases *)

Record Lease := MkLease { le_Name : string; le_Expiration : Z; le_Owner : Z }.
Record Leases := MkLeases { ls_m : gmap string Lease; ls_d : Z }.
Definition NewLeases (d : Z) : Leases := MkLeases ∅ d.
(** The clock is read twice: [now] for the check, [now'] for the expiration. *)
Definition Acquire (ls : Leases) (name : string) (nodeID now now' : Z) : Leases * Lease * option string :=
  let fresh := MkLease name (now' + ls_d ls) nodeID in
  match ls_m ls !! name with
  | Some l =>
    if (le_Expiration l <? now) || (le_Owner l =? nodeID) then (MkLeases (<[name := fresh]> (ls_m ls)) (ls_d ls), fresh, None)
    else (ls, l, Some "another node has the lease")
  | None => (MkLeases (<[name := fresh]> (ls_m ls)) (ls_d ls), fresh, None)
  end.
End Meta.
