(* ===== verification/MetaShards.v ===== *)
(** * v1/services/meta: the invariants of the metadata

    Proves for the operations of [MetaData] that shard groups divide the time
    line: within a policy the ranges that take writes never overlap and stay
    in order, a new group takes the largest free range around its timestamp,
    and the checks on names, durations, administrators and privileges hold
    after any sequence of operations. *)
From S2P Require Import Prelude MetaData.
From stdpp Require Import gmap strings sorting.
Import Meta.
#[global] Open Scope Z_scope.

Module MetaShards.

Lemma sublist_Forall {A} (P : A -> Prop) l k : l `sublist_of` k -> Forall P k -> Forall P l.
Proof. intros H. rewrite !Forall_forall. intros Hk x Hx. apply Hk. by eapply sublist_subseteq. Qed.

(** ** The first element *)

Section FirstLemmas.
Context {A : Type} (p : A -> bool).

Lemma first_Some l x : first p l = Some x -> x ∈ l /\ p x = true.
Proof.
  induction l as [|y l IH]; [done|]. cbn. destruct (p y) eqn:E; [intros [= <-]; split; [left|done]|].
  intros H. apply IH in H as [H1 H2]. split; [by right|done].
Qed.
Lemma first_None l : first p l = None -> Forall (fun x => p x = false) l.
Proof. induction l as [|y l IH]; [intros _; apply Forall_nil_2|]. cbn. destruct (p y) eqn:E; [done|]. intros H. constructor; auto. Qed.
Lemma first_exists l x : x ∈ l -> p x = true -> exists y, first p l = Some y.
Proof.
  intros Hx Hp. destruct (first p l) eqn:E; [by eexists|]. apply first_None in E. rewrite Forall_forall in E. specialize (E x Hx). congruence.
Qed.

Lemma change_Forall (P : A -> Prop) f l : Forall P l -> (forall x, P x -> p x = true -> P (f x)) -> Forall P (change p f l).
Proof.
  intros H Hf. induction H as [|x l Hx H IH]; [apply Forall_nil_2|]. cbn. destruct (p x) eqn:E; constructor; auto.
Qed.
Lemma change_fmap {B} (g : A -> B) f l : (forall x, p x = true -> g (f x) = g x) -> g <$> change p f l = g <$> l.
Proof. intros Hf. induction l as [|x l IH]; [done|]. cbn. destruct (p x) eqn:E; cbn; f_equal; auto. Qed.
Lemma change_elem f l y : y ∈ change p f l -> y ∈ l \/ exists x, x ∈ l /\ p x = true /\ y = f x.
Proof.
  induction l as [|x l IH]; [by left|]. cbn. destruct (p x) eqn:E; intros [->|H]%elem_of_cons.
  - right. exists x. split; [left|done].
  - left. by right.
  - left. left.
  - apply IH in H as [H|(z & Hz & Hpz & ->)]; [left; by right|]. right. exists z. split; [by right|done].
Qed.
Lemma change_none f l : Forall (fun x => p x = false) l -> change p f l = l.
Proof. induction 1 as [|x l E H IH]; [done|]. cbn. rewrite E. by f_equal. Qed.

Lemma drop_first_sublist l : drop_first p l `sublist_of` l.
Proof. induction l as [|x l IH]; [done|]. cbn. destruct (p x); [by apply sublist_cons|by apply sublist_skip]. Qed.
Lemma drop_first_Forall (P : A -> Prop) l : Forall P l -> Forall P (drop_first p l).
Proof. intros H. eapply sublist_Forall; [apply drop_first_sublist|done]. Qed.
End FirstLemmas.

Lemma sublist_StronglySorted {A} (R : A -> A -> Prop) l k : l `sublist_of` k -> StronglySorted R k -> StronglySorted R l.
Proof.
  induction 1 as [|x l k H IH|x l k H IH]; intros Hs; [done| |]; apply StronglySorted_inv in Hs as [Hs Hx].
  - apply SSorted_cons; [by apply IH|]. by eapply sublist_Forall.
  - by apply IH.
Qed.
Lemma change_sorted {A} (R : A -> A -> Prop) p f l :
  (forall x y, R x y -> R (f x) y) -> (forall x y, R x y -> R x (f y)) -> StronglySorted R l -> StronglySorted R (change p f l).
Proof.
  intros H1 H2 Hs. induction Hs as [|x l Hs IH Hx]; [apply SSorted_nil|]. cbn. destruct (p x).
  - apply SSorted_cons; [done|]. eapply Forall_impl; [exact Hx|]. intros y. apply H1.
  - apply SSorted_cons; [done|]. apply change_Forall; [done|]. intros y Hy _. by apply H2.
Qed.

(** ** Groups of a policy *)

(** Two groups of which both take writes do not overlap, and the first ends
    first. *)
Definition apart (a b : ShardGroupInfo) : Prop :=
  Deleted a = true \/ Deleted b = true \/ open_end a <= sg_StartTime b \/ open_end b <= sg_StartTime a.
Definition in_order (a b : ShardGroupInfo) : Prop := Deleted a = true \/ Deleted b = true \/ Less b a = false.
Record group_ok (g : ShardGroupInfo) : Prop := {
  go_start : zeroTime < sg_StartTime g;
  go_open : sg_StartTime g <= open_end g <= sg_EndTime g }.
Record groups_ok (gs : list ShardGroupInfo) : Prop := {
  gs_each : Forall group_ok gs;
  gs_apart : StronglySorted apart gs;
  gs_order : StronglySorted in_order gs }.

#[global] Instance apart_sym : Symmetric apart.
Proof. intros a b [H|[H|[H|H]]]; unfold apart; auto. Qed.

Lemma StronglySorted_perm {A} (R : A -> A -> Prop) `{!Symmetric R} l k : l ≡ₚ k -> StronglySorted R l -> StronglySorted R k.
Proof.
  induction 1 as [|x l k Hp IH|x y l|l k m H1 IH1 H2 IH2]; intros Hs; [done| | |auto].
  - apply StronglySorted_inv in Hs as [Hs Hx]. apply SSorted_cons; [auto|]. by rewrite <- Hp.
  - apply StronglySorted_inv in Hs as [Hs Hx]. apply StronglySorted_inv in Hs as [Hs Hy]. apply Forall_cons_1 in Hx as [Hxy Hx].
    apply SSorted_cons; [by apply SSorted_cons|]. constructor; [by symmetry|done].
Qed.

(** The order of [Less] is a total preorder, and [Sort] sorts by it. *)
Definition le (a b : ShardGroupInfo) : Prop := Less b a = false.
Lemma le_spec a b : le a b <-> open_end a < open_end b \/ open_end a = open_end b /\ sg_StartTime a <= sg_StartTime b.
Proof. unfold le, Less. destruct (Z.eqb_spec (open_end b) (open_end a)); lia. Qed.
Lemma Less_le a b : Less a b = true -> le a b.
Proof. intros H. apply le_spec. unfold Less in H. destruct (Z.eqb_spec (open_end a) (open_end b)); lia. Qed.
Lemma le_trans a b c : le a b -> le b c -> le a c.
Proof. rewrite !le_spec. lia. Qed.

Lemma insert_group_perm g l : insert_group g l ≡ₚ g :: l.
Proof. induction l as [|x l IH]; [done|]. cbn. destruct (Less g x); [done|]. rewrite IH. constructor. Qed.
Lemma insert_group_sorted g l : StronglySorted le l -> StronglySorted le (insert_group g l).
Proof.
  induction 1 as [|x l Hs IH Hx]; cbn; [repeat constructor|]. destruct (Less g x) eqn:E.
  - apply Less_le in E. apply SSorted_cons; [by apply SSorted_cons|]. constructor; [done|]. eapply Forall_impl; [exact Hx|]. intros y. by apply le_trans.
  - apply SSorted_cons; [done|]. rewrite insert_group_perm. by constructor.
Qed.
Lemma Sort_spec l : Sort l ≡ₚ l /\ StronglySorted le (Sort l).
Proof.
  unfold Sort. assert (H : forall acc, StronglySorted le acc -> foldl (fun acc g => insert_group g acc) acc l ≡ₚ acc ++ l /\
    StronglySorted le (foldl (fun acc g => insert_group g acc) acc l)).
  { induction l as [|g l IH]; intros acc Ha; [by rewrite app_nil_r|]. cbn [foldl]. destruct (IH (insert_group g acc) (insert_group_sorted g acc Ha)) as [Hp Hs].
    split; [|done]. rewrite Hp, insert_group_perm. cbn. by rewrite Permutation_middle. }
  destruct (H [] (SSorted_nil le)) as [Hp Hs]. done.
Qed.

Lemma groups_ok_nil : groups_ok [].
Proof. split; [apply Forall_nil_2|apply SSorted_nil|apply SSorted_nil]. Qed.
Lemma groups_ok_sublist l k : l `sublist_of` k -> groups_ok k -> groups_ok l.
Proof. intros H [H1 H2 H3]. split; [by eapply sublist_Forall|by eapply sublist_StronglySorted..]. Qed.

(** Deleting a group, or taking a shard from it. *)
Record closes (f : ShardGroupInfo -> ShardGroupInfo) : Prop := {
  cl_start g : sg_StartTime (f g) = sg_StartTime g;
  cl_end g : sg_EndTime (f g) = sg_EndTime g;
  cl_open g : open_end (f g) = open_end g;
  cl_deleted g : Deleted g = true -> Deleted (f g) = true }.

Lemma change_groups_ok p f gs : closes f -> groups_ok gs -> groups_ok (change p f gs).
Proof.
  intros [Hs He Ho Hd] [H1 H2 H3]. split.
  - apply change_Forall; [done|]. intros g [G1 G2] _. by split; rewrite ?Hs, ?He, ?Ho.
  - apply change_sorted; [..|done]; intros a b; unfold apart; rewrite ?Hs, ?Ho; naive_solver.
  - apply change_sorted; [..|done]; intros a b; unfold in_order, Less; rewrite ?Hs, ?Ho; naive_solver.
Qed.

Lemma set_deleted_closes now : now <> zeroTime -> closes (set_deleted now).
Proof. intros Hn. split; try done. intros g _. unfold Deleted, IsZero, set_deleted. cbn. by destruct (Z.eqb_spec now zeroTime). Qed.
Lemma drop_shard_closes now id : closes (drop_shard now id).
Proof. split; try done. intros g Hg. unfold drop_shard. rewrite Hg. cbn [negb]. by rewrite andb_false_r. Qed.

(** Truncating at a time. *)
Lemma truncate_spec t g :
  zeroTime < t -> group_ok g ->
  group_ok (truncate_group t g) /\ sg_StartTime (truncate_group t g) = sg_StartTime g /\ open_end (truncate_group t g) <= open_end g /\
  Deleted (truncate_group t g) = Deleted g.
Proof.
  intros Ht [G1 G2]. unfold truncate_group. destruct (_ || _) eqn:E; [split_and!; try done; lia|]. apply orb_false_iff in E as [E E3]. apply orb_false_iff in E as [E1 E2].
  set (t' := if negb (sg_StartTime g <? t) then sg_StartTime g else t).
  assert (Ht' : zeroTime < t' /\ sg_StartTime g <= t' <= sg_EndTime g /\ (t' = sg_StartTime g \/ t' = t /\ sg_StartTime g < t)).
  { unfold t'. destruct (Z.ltb_spec (sg_StartTime g) t); cbn; destruct (Z.ltb_spec t (sg_EndTime g)); cbn in *; lia. }
  assert (Ho : open_end (MkGroup (sg_ID g) (sg_StartTime g) (sg_EndTime g) (sg_DeletedAt g) (sg_Shards g) t') = t').
  { unfold open_end, Truncated, IsZero. cbn. destruct (Z.eqb_spec t' zeroTime); [lia|done]. }
  split_and!; [split; rewrite ?Ho; cbn; lia|done| |done]. rewrite Ho. clear Ho. unfold open_end, Truncated in *. destruct (IsZero (sg_TruncatedAt g)); cbn in *; lia.
Qed.

Lemma fmap_sorted {A} (R : A -> A -> Prop) (P : A -> Prop) f l :
  (forall x y, P x -> P y -> R x y -> R (f x) (f y)) -> Forall P l -> StronglySorted R l -> StronglySorted R (f <$> l).
Proof.
  intros Hf Hp Hs. induction Hs as [|x l Hs IH Hx]; [apply SSorted_nil|]. apply Forall_cons_1 in Hp as [Hpx Hp]. cbn. apply SSorted_cons; [by apply IH|].
  apply Forall_fmap. rewrite Forall_forall in *. intros y Hy. cbn. apply Hf; auto.
Qed.
Lemma sorted_and {A} (R S : A -> A -> Prop) l : StronglySorted R l -> StronglySorted S l -> StronglySorted (fun x y => R x y /\ S x y) l.
Proof.
  induction 1 as [|x l Hs IH Hx]; intros H; [apply SSorted_nil|]. apply StronglySorted_inv in H as [H Hy]. apply SSorted_cons; [auto|]. by apply Forall_and.
Qed.
Lemma sorted_impl {A} (R S : A -> A -> Prop) l : (forall x y, R x y -> S x y) -> StronglySorted R l -> StronglySorted S l.
Proof. intros H. induction 1 as [|x l Hs IH Hx]; [apply SSorted_nil|]. apply SSorted_cons; [done|]. eapply Forall_impl; [exact Hx|]. auto. Qed.

Lemma truncate_groups_ok t gs : zeroTime < t -> groups_ok gs -> groups_ok (truncate_group t <$> gs).
Proof.
  intros Ht [H1 H2 H3]. split.
  - apply Forall_fmap. eapply Forall_impl; [exact H1|]. intros g Hg. by apply truncate_spec.
  - apply (fmap_sorted apart group_ok); [|done..]. intros a b Ha Hb. destruct (truncate_spec t a Ht Ha) as (_ & E1 & E2 & E3).
    destruct (truncate_spec t b Ht Hb) as (_ & F1 & F2 & F3). unfold apart. rewrite E1, E3, F1, F3. intuition lia.
  - pose proof (sorted_and _ _ _ H2 H3) as H. apply (sorted_impl (fun x y => apart x y /\ in_order x y)); [by intros ? ? []|].
    apply (fmap_sorted _ group_ok); [|done..]. intros a b Ha Hb [Hap Hor]. destruct (truncate_spec t a Ht Ha) as ([_ E0] & E1 & E2 & E3).
    destruct (truncate_spec t b Ht Hb) as ([_ F0] & F1 & F2 & F3). unfold apart, in_order in *. rewrite E1, E3, F1, F3.
    destruct Ha as [_ Ha], Hb as [_ Hb]. rewrite E1 in E0. rewrite F1 in F0. fold (le a b) in Hor. fold (le (truncate_group t a) (truncate_group t b)).
    rewrite le_spec in *. rewrite E1, F1. intuition lia.
Qed.

(** ** A new group *)

(** A live group takes the times from its start to its open end. *)
Lemma takes_spec ts g : group_ok g -> takes ts g = true <-> Deleted g = false /\ sg_StartTime g <= ts < open_end g.
Proof.
  intros [G1 G2]. unfold takes, Contains, open_end in *. destruct (Deleted g), (Truncated g); cbn [negb andb orb];
    rewrite ?andb_true_r, ?andb_false_r, ?orb_true_r; (split; [intros H|intros [H1 H2]]); try done; try lia;
    (split; [done|]) || idtac; try lia.
Qed.

(** [narrow] keeps the largest range around the timestamp that the group does
    not overlap. *)
Definition free (r : Z * Z) (g : ShardGroupInfo) : Prop := Deleted g = true \/ r.2 <= sg_StartTime g \/ open_end g <= r.1.
Definition around (ts : Z) (r : Z * Z) : Prop := r.1 <= ts < r.2.
Definition within (r r' : Z * Z) : Prop := r'.1 <= r.1 /\ r.2 <= r'.2.

Lemma narrow_spec ts r g :
  group_ok g -> takes ts g = false -> around ts r ->
  around ts (narrow ts r g) /\ within (narrow ts r g) r /\ free (narrow ts r g) g /\
  forall r', around ts r' -> within r' r -> free r' g -> within r' (narrow ts r g).
Proof.
  intros Hg Ht Hr. assert (Hn : Deleted g = true \/ open_end g <= ts \/ ts < sg_StartTime g).
  { destruct (Deleted g) eqn:Ed; [by left|]. right. destruct (Z.leb_spec (sg_StartTime g) ts); [|lia]. destruct (Z.ltb_spec ts (open_end g)); [|lia].
    exfalso. assert (takes ts g = true) by (by apply takes_spec). congruence. }
  destruct Hg as [_ Hg]. unfold around, within, free, narrow in *. destruct (Deleted g); [split_and!; [lia..|by left|auto]|]. cbn [fst snd].
  destruct Hn as [?|Hn]; [done|].
  destruct (Z.leb_spec (open_end g) ts), (Z.ltb_spec ts (sg_StartTime g)), (Z.ltb_spec r.1 (open_end g)), (Z.ltb_spec (sg_StartTime g) r.2); cbn [andb];
    (split_and!; [lia..| |intros r' ? ? [?|?]; [done|lia]]); right; lia.
Qed.

Lemma narrow_all ts gs r :
  Forall group_ok gs -> Forall (fun g => takes ts g = false) gs -> around ts r ->
  let r' := foldl (narrow ts) r gs in
  around ts r' /\ within r' r /\ Forall (free r') gs /\
  forall r0, around ts r0 -> within r0 r -> Forall (free r0) gs -> within r0 r'.
Proof.
  revert r. induction gs as [|g gs IH]; intros r Hg Ht Hr; cbn [foldl]; cbv zeta.
  { split_and!; [done|unfold within; lia|apply Forall_nil_2|auto]. }
  apply Forall_cons_1 in Hg as [Hg0 Hg]. apply Forall_cons_1 in Ht as [Ht0 Ht]. destruct (narrow_spec ts r g Hg0 Ht0 Hr) as (N1 & N2 & N3 & N4).
  destruct (IH (narrow ts r g) Hg Ht N1) as (I1 & I2 & I3 & I4). split_and!; [done|unfold within in *; lia| |].
  - constructor; [|done]. unfold free, within in *. destruct N3 as [?|[?|?]]; [by left|right; lia|right; lia].
  - intros r0 R1 R2 R3. apply Forall_cons_1 in R3 as [R3 R4]. auto.
Qed.

Definition in_nano (t : Z) : Prop := - 2 ^ 63 + 2 <= t <= MaxNanoTime.
Definition sgd_ok (d : Z) : Prop := Hour <= d < 2 ^ 63.

Lemma whole_range_spec rp ts :
  in_nano ts -> sgd_ok (rp_ShardGroupDuration rp) -> around ts (whole_range rp ts) /\ zeroTime < (whole_range rp ts).1.
Proof.
  unfold in_nano, sgd_ok, Hour, MaxNanoTime, zeroTime, Second, around, whole_range, Truncate. intros Ht Hd. cbn [fst snd].
  set (d := rp_ShardGroupDuration rp) in *. rewrite (proj2 (Z.leb_gt d 0)) by lia.
  set (k := _ mod d). assert (Hk : 0 <= k < d) by (apply Z.mod_pos_bound; lia).
  destruct (Z.ltb_spec MaxNanoTime (ts - k + d)); unfold MaxNanoTime in *; lia.
Qed.

(** The group [CreateShardGroup] adds. *)
Definition fresh_group (rp : RetentionPolicyInfo) (ts id : Z) (ss : list ShardInfo) : ShardGroupInfo :=
  MkGroup id (new_range rp ts).1 (new_range rp ts).2 zeroTime ss zeroTime.

Lemma fresh_group_spec rp ts id ss :
  in_nano ts -> sgd_ok (rp_ShardGroupDuration rp) -> groups_ok (rp_ShardGroups rp) -> GroupByTimestamp rp ts = None ->
  let g := fresh_group rp ts id ss in
  takes ts g = true /\ within (sg_StartTime g, sg_EndTime g) (whole_range rp ts) /\
  Forall (apart g) (rp_ShardGroups rp) /\ group_ok g /\
  forall r, around ts r -> within r (whole_range rp ts) -> Forall (free r) (rp_ShardGroups rp) -> within r (sg_StartTime g, sg_EndTime g).
Proof.
  intros Ht Hd Hg Hn g. destruct (whole_range_spec rp ts Ht Hd) as [Hr Hz]. apply first_None in Hn.
  destruct (narrow_all ts (rp_ShardGroups rp) _ (gs_each _ Hg) Hn Hr) as (N1 & N2 & N3 & N4). fold (new_range rp ts) in *.
  assert (Ho : open_end g = sg_EndTime g) by done.
  assert (Hok : group_ok g). { split; rewrite ?Ho; unfold g, fresh_group, around, within in *; cbn [sg_StartTime sg_EndTime]; lia. }
  split_and!; [|by unfold g, fresh_group, within in *| |done|].
  - apply (takes_spec ts g Hok). split; [done|]. rewrite Ho. exact N1.
  - eapply Forall_impl; [exact N3|]. intros h [Hh|[Hh|Hh]]; unfold apart; [auto|right; right; left; exact Hh|right; right; right; exact Hh].
  - intros r R1 R2 R3. unfold g, fresh_group. cbn [sg_StartTime sg_EndTime]. destruct (N4 r R1 R2 R3). by split.
Qed.

Lemma first_unique {A} (p : A -> bool) l x : x ∈ l -> p x = true -> (forall y, y ∈ l -> p y = true -> y = x) -> first p l = Some x.
Proof.
  intros Hx Hp Hu. destruct (first_exists p l x Hx Hp) as [y Hy]. rewrite Hy. f_equal. apply first_Some in Hy as [H1 H2]. auto.
Qed.

Lemma add_group_ok gs g :
  groups_ok gs -> group_ok g -> Forall (apart g) gs -> groups_ok (Sort (gs ++ [g])).
Proof.
  intros [H1 H2 H3] Hg Ha. destruct (Sort_spec (gs ++ [g])) as [Hp Hs]. split.
  - rewrite Hp. apply Forall_app. split; [done|by apply Forall_singleton].
  - apply (StronglySorted_perm apart (g :: gs)); [rewrite Hp; by rewrite Permutation_app_comm|]. by apply SSorted_cons.
  - eapply sorted_impl; [|exact Hs]. intros a b. unfold in_order, le. auto.
Qed.

(** ** Policies, databases and users *)

Record policy_ok (rp : RetentionPolicyInfo) : Prop := {
  po_sgd : sgd_ok (rp_ShardGroupDuration rp);
  po_duration : 0 < rp_Duration rp -> rp_ShardGroupDuration rp <= rp_Duration rp;
  po_groups : groups_ok (rp_ShardGroups rp) }.
Record database_ok (di : DatabaseInfo) : Prop := {
  do_names : NoDup (rp_Name <$> db_RetentionPolicies di);
  do_policies : Forall policy_ok (db_RetentionPolicies di) }.
Definition db_names (d : Data) : list string := db_Name <$> d_Databases d.
Record data_ok (d : Data) : Prop := {
  ok_names : NoDup (db_names d);
  ok_databases : Forall database_ok (d_Databases d);
  ok_users : NoDup (u_Name <$> d_Users d);
  ok_admin : d_adminUserExists d = hasAdminUser (d_Users d);
  ok_privileges : Forall (fun u => forall db, is_Some (u_Privileges u !! db) -> db ∈ db_names d) (d_Users d) }.

Lemma set_databases_ok d dbs : data_ok d -> db_Name <$> dbs = db_names d -> Forall database_ok dbs -> data_ok (set_databases d dbs).
Proof. intros [O1 O2 O3 O4 O5] Hn Hd. split; unfold db_names in *; cbn; rewrite ?Hn; done. Qed.

Lemma set_database_ok d n f :
  data_ok d -> (forall di, db_Name (f di) = db_Name di) -> (forall di, Database d n = Some di -> database_ok di -> database_ok (f di)) ->
  data_ok (set_database d n f).
Proof.
  intros Hd Hn Hf. apply set_databases_ok; [done|by apply change_fmap|]. pose proof (ok_databases d Hd) as Ho. pose proof (ok_names d Hd) as Hu.
  unfold Database, db_names in *. induction (d_Databases d) as [|x l IH]; [apply Forall_nil_2|]. cbn [change first fmap list_fmap] in *.
  apply Forall_cons_1 in Ho as [Hx Ho]. apply NoDup_cons in Hu as [_ Hu]. destruct (named_db n x) eqn:E; constructor; auto.
Qed.

Lemma set_policy_ok d db n f :
  data_ok d -> (forall rp, rp_Name (f rp) = rp_Name rp) -> (forall rp, find_policy d db n = Ret rp -> policy_ok rp -> policy_ok (f rp)) ->
  data_ok (set_policy d db n f).
Proof.
  intros Hd Hn Hf. apply set_database_ok; [done|done|]. intros di Hdi [D1 D2]. split; cbn.
  - rewrite change_fmap by auto. done.
  - assert (Hf' : forall rp, first (named_rp n) (db_RetentionPolicies di) = Some rp -> policy_ok rp -> policy_ok (f rp)).
    { intros rp Hrp. apply Hf. unfold find_policy, RetentionPolicy. rewrite Hdi. cbn [obind]. by rewrite Hrp. }
    clear Hf D1. induction (db_RetentionPolicies di) as [|x l IH]; [apply Forall_nil_2|]. cbn [change first] in *. apply Forall_cons_1 in D2 as [Hx D2].
    destruct (named_rp n x) eqn:E; constructor; auto.
Qed.

Lemma set_groups_ok rp gs : policy_ok rp -> groups_ok gs -> policy_ok (set_groups rp gs).
Proof. intros [P1 P2 P3] H. by split. Qed.

Lemma map_groups_ok f d : data_ok d -> (forall gs, groups_ok gs -> groups_ok (f gs)) -> data_ok (map_groups f d).
Proof.
  intros Hd Hf. apply set_databases_ok; [done|by rewrite <- list_fmap_compose|]. apply Forall_fmap. eapply Forall_impl; [apply (ok_databases d Hd)|].
  intros di [D1 D2]. cbn. split; cbn; [by rewrite <- list_fmap_compose|]. apply Forall_fmap. eapply Forall_impl; [exact D2|].
  intros rp Hrp. apply set_groups_ok; [done|]. apply Hf, Hrp.
Qed.

(** ** Every operation keeps the invariant *)

Definition keep (d : Data) (o : outcome Data) : Data := match o with Ret d' => d' | _ => d end.

Lemma keep_ok d o : data_ok d -> (forall d', o = Ret d' -> data_ok d') -> data_ok (keep d o).
Proof. intros Hd Ho. unfold keep. destruct o; auto. Qed.

Lemma Database_name d n di : Database d n = Some di -> di ∈ d_Databases d /\ db_Name di = n.
Proof. intros H. apply first_Some in H as [H1 H2]. split; [done|by apply String.eqb_eq]. Qed.
Lemma Database_None d n : Database d n = None -> n ∉ db_names d.
Proof.
  intros H (di & -> & Hdi)%list_elem_of_fmap. apply first_None in H. rewrite Forall_forall in H. specialize (H di Hdi). unfold named_db in H.
  by rewrite String.eqb_refl in H.
Qed.

Lemma CreateDatabase_ok d n : data_ok d -> data_ok (keep d (CreateDatabase d n)).
Proof.
  intros Hd. apply keep_ok; [done|]. unfold CreateDatabase. intros d'. destruct (String.eqb n ""); [done|]. destruct (_ <? _)%nat; [done|].
  destruct (Database d n) eqn:E; intros [= <-]; [done|]. apply Database_None in E. destruct Hd as [O1 O2 O3 O4 O5]. split; unfold db_names in *; cbn; try done.
  - rewrite fmap_app. apply NoDup_app. split; [done|]. split; [|apply NoDup_singleton]. intros x Hx ->%list_elem_of_singleton. done.
  - apply Forall_app. split; [done|]. apply Forall_singleton. split; cbn; [apply NoDup_nil_2|apply Forall_nil_2].
  - eapply Forall_impl; [exact O5|]. cbn. intros u Hu db Hdb. rewrite fmap_app, elem_of_app. left. auto.
Qed.

Lemma drop_first_elem n dbs di : di ∈ dbs -> db_Name di <> n -> di ∈ drop_first (named_db n) dbs.
Proof.
  intros Hin Hne. induction dbs as [|x l IH]; [done|]. cbn. destruct (String.eqb_spec (db_Name x) n) as [E|E]; unfold named_db; rewrite ?E, ?String.eqb_refl;
    apply elem_of_cons in Hin as [->|Hin]; try done.
  - rewrite (proj2 (String.eqb_neq (db_Name x) n)) by done. left.
  - rewrite (proj2 (String.eqb_neq (db_Name x) n)) by done. right. auto.
Qed.

Lemma DropDatabase_ok d n : data_ok d -> data_ok (DropDatabase d n).
Proof.
  intros [O1 O2 O3 O4 O5]. unfold DropDatabase. destruct (Database d n) eqn:E; [|by split]. split; unfold db_names in *; cbn.
  - eapply sublist_NoDup; [exact O1|]. apply fmap_sublist, drop_first_sublist.
  - by apply drop_first_Forall.
  - by rewrite <- list_fmap_compose.
  - rewrite O4. unfold hasAdminUser. clear. induction (d_Users d) as [|u us IH]; [done|]. cbn. by rewrite IH.
  - apply Forall_fmap. eapply Forall_impl; [exact O5|]. intros u Hu db Hdb. cbn in Hdb. destruct (decide (db = n)) as [->|Hne].
    { rewrite lookup_delete_eq in Hdb. by destruct Hdb. }
    rewrite lookup_delete_ne in Hdb by done. apply Hu in Hdb as (di & -> & Hdi)%list_elem_of_fmap. apply list_elem_of_fmap_2. by apply drop_first_elem.
Qed.

Lemma NormalisedShardDuration_ok sgd d : sgd < 2 ^ 63 -> sgd_ok (NormalisedShardDuration sgd d).
Proof.
  unfold NormalisedShardDuration, shardGroupDuration, sgd_ok, MinRetentionPolicyDuration, Hour, Second. intros H.
  repeat (match goal with |- context [if ?b then _ else _] => destruct b eqn:? end); lia.
Qed.
Lemma NormalisedShardDuration_le sgd d : Hour <= d -> sgd <= d -> NormalisedShardDuration sgd d <= d.
Proof.
  unfold NormalisedShardDuration, shardGroupDuration, MinRetentionPolicyDuration, Hour, Second. intros H1 H2.
  repeat (match goal with |- context [if ?b then _ else _] => destruct b eqn:? end); lia.
Qed.

Lemma DB_RetentionPolicy_None di n : n <> "" -> DB_RetentionPolicy di n = None -> n ∉ rp_Name <$> db_RetentionPolicies di.
Proof.
  intros Hn. unfold DB_RetentionPolicy, effective_name. rewrite (proj2 (String.eqb_neq n "")), (proj2 (String.eqb_neq n "")) by done.
  intros H (rp & -> & Hrp)%list_elem_of_fmap. apply first_None in H. rewrite Forall_forall in H. specialize (H rp Hrp). unfold named_rp in H.
  by rewrite String.eqb_refl in H.
Qed.

Lemma CreateRetentionPolicy_ok d db rpi mk :
  data_ok d -> (forall r, rpi = Some r -> rp_ShardGroupDuration r < 2 ^ 63 /\ groups_ok (rp_ShardGroups r)) ->
  data_ok (keep d (CreateRetentionPolicy d db rpi mk)).
Proof.
  intros Hd Hr. apply keep_ok; [done|]. intros d'. unfold CreateRetentionPolicy. destruct rpi as [r|]; [|done]. destruct (Hr r eq_refl) as [R1 R2].
  destruct (String.eqb_spec (rp_Name r) "") as [|Hne]; [done|]. destruct (_ <? _)%nat; [done|]. destruct (_ <? 1); [done|].
  cbv zeta. cbn [rp_Name rp_Duration rp_ReplicaN]. set (sgd := NormalisedShardDuration _ _). destruct (_ && (_ <? sgd)) eqn:Ec; [done|].
  destruct (Database d db) as [di0|] eqn:Edb; [|done]. destruct (DB_RetentionPolicy di0 (rp_Name r)) eqn:Erp.
  { destruct (_ || _); [done|]. destruct (mk && _); [done|]. by intros [= <-]. }
  intros [= <-]. apply set_database_ok; [done|by intros di; destruct mk|]. intros di Hdi Hok. rewrite Hdi in Edb. injection Edb as <-.
  assert (Hok' : database_ok (set_policies di (db_RetentionPolicies di ++ [MkPolicy (rp_Name r) (rp_ReplicaN r) (rp_Duration r) sgd (rp_ShardGroups r) (rp_Subscriptions r)]))).
  { destruct Hok as [D1 D2]. split; cbn.
    - rewrite fmap_app. apply NoDup_app. split; [done|]. split; [|apply NoDup_singleton]. intros x Hx ->%list_elem_of_singleton.
      by apply DB_RetentionPolicy_None in Erp.
    - apply Forall_app. split; [done|]. apply Forall_singleton. split; cbn; [by apply NormalisedShardDuration_ok|lia|done]. }
  destruct mk; [|done]. destruct Hok' as [D1 D2]. by split.
Qed.

Lemma DropRetentionPolicy_ok d db n : data_ok d -> data_ok (DropRetentionPolicy d db n).
Proof.
  intros Hd. apply set_database_ok; [done|done|]. intros di _ [D1 D2]. split; cbn; [|by apply drop_first_Forall].
  eapply sublist_NoDup; [exact D1|]. apply fmap_sublist, drop_first_sublist.
Qed.

Lemma update_policy_ok rpu rp :
  policy_ok rp -> (forall s, rpu_ShardGroupDuration rpu = Some s -> s < 2 ^ 63) ->
  too_low (rpu_Duration rpu) = false -> incompatible rp rpu = false -> policy_ok (update_policy rpu rp).
Proof.
  intros [P1 P2 P3] Hs Hl Hi. unfold update_policy, incompatible, too_low, sgd_ok in *. destruct rpu as [n d r sgd]. cbn [rpu_Duration rpu_ShardGroupDuration rpu_ReplicaN rpu_Name] in *.
  assert (Hd : forall d', d = Some d' -> d' <> 0 -> 0 < d' -> Hour <= d').
  { intros d' ->. unfold MinRetentionPolicyDuration in Hl. lia. }
  destruct sgd as [s|]; (split; cbn; [| |done]).
  - by apply NormalisedShardDuration_ok, Hs.
  - intros Hpos. destruct d as [d|]; cbn in *.
    + apply NormalisedShardDuration_le; [apply (Hd d eq_refl); lia|lia].
    + apply NormalisedShardDuration_le; lia.
  - done.
  - intros Hpos. destruct d as [d|]; cbn in *; lia.
Qed.

Lemma first_name_unique di n rp :
  NoDup (rp_Name <$> db_RetentionPolicies di) -> first (named_rp n) (db_RetentionPolicies di) = Some rp ->
  forall x, x ∈ db_RetentionPolicies di -> named_rp n x = true -> x = rp.
Proof.
  intros Hn Hf x Hx Hp. apply first_Some in Hf as [Hr Hpr]. unfold named_rp in *. apply String.eqb_eq in Hp, Hpr.
  apply list_elem_of_lookup_1 in Hx as [i Hi]. apply list_elem_of_lookup_1 in Hr as [j Hj]. assert (i = j) as ->; [|congruence].
  eapply NoDup_lookup; [exact Hn|rewrite list_lookup_fmap, Hi; reflexivity|rewrite list_lookup_fmap, Hj; cbn; congruence].
Qed.

Lemma change_names (rps : list RetentionPolicyInfo) n f n' :
  NoDup (rp_Name <$> rps) -> (forall rp, rp_Name (f rp) = n' \/ rp_Name (f rp) = rp_Name rp) -> n' = n \/ n' ∉ rp_Name <$> rps ->
  NoDup (rp_Name <$> change (named_rp n) f rps).
Proof.
  intros Hn Hf Hx. induction rps as [|rp rps IH]; [apply NoDup_nil_2|]. cbn [fmap list_fmap change] in *. apply NoDup_cons in Hn as [Hn0 Hn].
  unfold named_rp at 1. destruct (String.eqb_spec (rp_Name rp) n) as [E|E]; cbn [fmap list_fmap]; apply NoDup_cons; split; try done.
  - intros Hin. destruct (Hf rp) as [E'|E']; rewrite E' in Hin; [|done]. destruct Hx as [->|Hx]; [congruence|]. set_solver.
  - intros (y & Ey & [Hy|(z & Hz & Hpz & ->)]%change_elem)%list_elem_of_fmap; [apply Hn0; rewrite Ey; by apply list_elem_of_fmap_2|].
    apply String.eqb_eq in Hpz. destruct (Hf z) as [E'|E'].
    + rewrite E' in Ey. destruct Hx as [->|Hx]; [congruence|]. apply Hx. rewrite Ey. left.
    + rewrite E', Hpz in Ey. congruence.
  - apply IH; [done|]. set_solver.
Qed.

Lemma UpdateRetentionPolicy_ok d db n rpu mk :
  data_ok d -> rpu_Name rpu <> Some "" -> (forall s, rpu_ShardGroupDuration rpu = Some s -> s < 2 ^ 63) ->
  data_ok (keep d (UpdateRetentionPolicy d db n rpu mk)).
Proof.
  intros Hd Hne Hs. apply keep_ok; [done|]. intros d'. unfold UpdateRetentionPolicy. destruct (Database d db) as [di0|] eqn:Edb; [|done].
  destruct (DB_RetentionPolicy di0 n) as [rp0|] eqn:Erp; [|done]. destruct (match rpu_Name rpu with Some _ => _ | None => _ end) eqn:En; [done|].
  destruct (too_low _) eqn:El; [done|]. destruct (incompatible _ _) eqn:Ei; [done|]. intros [= <-].
  apply set_database_ok; [done|by intros di; destruct (_ && _)|]. intros di Hdi [D1 D2]. rewrite Hdi in Edb. injection Edb as ->.
  unfold DB_RetentionPolicy in Erp. destruct (String.eqb_spec (effective_name di0 n) "") as [|Hen]; [done|].
  assert (Hok : database_ok (set_policies di0 (change (named_rp (effective_name di0 n)) (update_policy rpu) (db_RetentionPolicies di0)))).
  { split; cbn.
    - destruct (rpu_Name rpu) as [m|] eqn:Em.
      + apply (change_names _ _ _ m); [done|intros rp; left; cbn; by rewrite Em|]. destruct (String.eqb_spec m n) as [->|Hmn].
        * left. unfold effective_name. destruct (String.eqb_spec n "") as [->|]; [congruence|done].
        * right. cbn in En. apply bool_decide_eq_false in En. apply DB_RetentionPolicy_None; [congruence|]. destruct (DB_RetentionPolicy di0 m); [|done].
          exfalso. apply En. by eexists.
      + rewrite change_fmap; [done|]. intros rp _. cbn. by rewrite Em.
    - pose proof (first_name_unique di0 _ rp0 D1 Erp) as Hu. apply Forall_forall. intros y [Hy|(x & Hx & Hp & ->)]%change_elem; rewrite Forall_forall in D2; [auto|].
      apply update_policy_ok; auto. by rewrite (Hu x Hx Hp). }
  destruct (negb _ && _); [|done]. destruct Hok. by split.
Qed.

Lemma change_chosen {A} (P : A -> Prop) p f l : Forall P l -> (forall x, P x -> P (f x)) -> Forall P (change p f l).
Proof. intros H Hf. apply change_Forall; auto. Qed.

Lemma DropShard_ok now d id : data_ok d -> data_ok (DropShard now d id).
Proof.
  intros Hd. apply set_databases_ok; [done|by apply change_fmap|]. apply change_chosen; [apply (ok_databases d Hd)|]. intros di [D1 D2]. split; cbn.
  - rewrite change_fmap; done.
  - apply change_chosen; [done|]. intros rp Hrp. apply set_groups_ok; [done|]. apply change_groups_ok; [apply drop_shard_closes|apply Hrp].
Qed.

Lemma DeleteShardGroup_ok now d db rp id : now <> zeroTime -> data_ok d -> data_ok (keep d (DeleteShardGroup now d db rp id)).
Proof.
  intros Hn Hd. apply keep_ok; [done|]. intros d'. unfold DeleteShardGroup. destruct (find_policy d db rp) as [rpi|?|] eqn:Ep; cbn [obind]; try done.
  destruct (first _ _); [|done]. intros [= <-]. apply set_policy_ok; [done|done|]. intros r _ Hr. apply set_groups_ok; [done|].
  apply change_groups_ok; [by apply set_deleted_closes|apply Hr].
Qed.

Lemma find_policy_ok d db rp rpi : data_ok d -> find_policy d db rp = Ret rpi -> policy_ok rpi.
Proof.
  intros Hd. unfold find_policy, RetentionPolicy. destruct (Database d db) as [di|] eqn:E; [|done]. cbn [obind]. destruct (first _ _) as [r|] eqn:Er; [|done].
  intros [= <-]. apply Database_name in E as [Hin _]. pose proof (ok_databases d Hd) as Ho. rewrite Forall_forall in Ho. destruct (Ho di Hin) as [_ Hp].
  apply first_Some in Er as [Hr _]. rewrite Forall_forall in Hp. auto.
Qed.

Lemma find_policy_set_ids d g s db rp : find_policy (set_ids d g s) db rp = find_policy d db rp.
Proof. done. Qed.
Lemma set_ids_ok d g s : data_ok d -> data_ok (set_ids d g s).
Proof. intros [O1 O2 O3 O4 O5]. by split. Qed.

Lemma CreateShardGroup_ok d db rp ts ss : in_nano ts -> data_ok d -> data_ok (keep d (CreateShardGroup d db rp ts ss)).
Proof.
  intros Ht Hd. apply keep_ok; [done|]. intros d'. unfold CreateShardGroup. destruct (find_policy d db rp) as [rpi|?|] eqn:Ep; cbn [obind]; try done.
  pose proof (find_policy_ok _ _ _ _ Hd Ep) as Hok. destruct (GroupByTimestamp rpi ts) eqn:Eg; [by intros [= <-]|].
  destruct (new_range rpi ts) as [st en] eqn:Er. destruct (match ss with [] => _ | _ => _ end) as [ss' smax]. intros [= <-].
  apply set_policy_ok; [by apply set_ids_ok|done|]. intros r Hr _. rewrite find_policy_set_ids, Ep in Hr. injection Hr as <-.
  destruct (fresh_group_spec rpi ts (u64 (d_MaxShardGroupID d + 1)) ss' Ht (po_sgd _ Hok) (po_groups _ Hok) Eg) as (_ & _ & F3 & F4 & _).
  unfold fresh_group in *. rewrite Er in *. apply set_groups_ok; [done|]. apply add_group_ok; [apply Hok|done|done].
Qed.

Lemma PruneShardGroups_ok d t : data_ok d -> data_ok (PruneShardGroups d t).2.
Proof. intros Hd. apply map_groups_ok; [done|]. intros gs. apply groups_ok_sublist, sublist_filter. Qed.
Lemma TruncateShardGroups_ok d t : zeroTime < t -> data_ok d -> data_ok (TruncateShardGroups d t).
Proof. intros Ht Hd. apply map_groups_ok; [done|]. intros gs. by apply truncate_groups_ok. Qed.

Section Queries.
Context (ToLower : string -> string) (Parse SplitHostPort : string -> option (string * string)).

Lemma CreateContinuousQuery_ok d db n q : data_ok d -> data_ok (keep d (CreateContinuousQuery ToLower d db n q)).
Proof.
  intros Hd. apply keep_ok; [done|]. intros d'. unfold CreateContinuousQuery. destruct (Database d db); [|done]. destruct (first _ _).
  { destruct (String.eqb _ _); [by intros [= <-]|done]. }
  intros [= <-]. apply set_database_ok; [done|done|]. intros di _ [D1 D2]. by split.
Qed.
Lemma DropContinuousQuery_ok d db n : data_ok d -> data_ok (DropContinuousQuery d db n).
Proof. intros Hd. apply set_database_ok; [done|done|]. intros di _ [D1 D2]. by split. Qed.
Lemma CreateSubscription_ok d db rp n mode ds : data_ok d -> data_ok (keep d (CreateSubscription Parse SplitHostPort d db rp n mode ds)).
Proof.
  intros Hd. apply keep_ok; [done|]. intros d'. unfold CreateSubscription. destruct (validate_all _ _ _); cbn [obind]; try done.
  destruct (find_policy d db rp) as [rpi|?|] eqn:Ep; cbn [obind]; try done. destruct (first _ _); [done|]. intros [= <-].
  apply set_policy_ok; [done|done|]. intros r _ [P1 P2 P3]. by split.
Qed.
Lemma DropSubscription_ok d db rp n : data_ok d -> data_ok (keep d (DropSubscription d db rp n)).
Proof.
  intros Hd. apply keep_ok; [done|]. intros d'. unfold DropSubscription. destruct (find_policy d db rp) as [rpi|?|] eqn:Ep; cbn [obind]; try done.
  destruct (first _ _); [|done]. intros [= <-]. apply set_policy_ok; [done|done|]. intros r _ [P1 P2 P3]. by split.
Qed.
End Queries.

(** ** Users *)

Definition privileges_ok (d : Data) (u : UserInfo) : Prop := forall db, is_Some (u_Privileges u !! db) -> db ∈ db_names d.

Lemma set_users_ok d us admin :
  data_ok d -> NoDup (u_Name <$> us) -> Forall (privileges_ok d) us -> admin = hasAdminUser us -> data_ok (set_users d us admin).
Proof. intros [O1 O2 O3 O4 O5] Hn Hp Ha. by split. Qed.

Lemma set_user_ok d n f admin :
  data_ok d -> (forall u, u_Name (f u) = u_Name u) -> (forall u, privileges_ok d u -> privileges_ok d (f u)) ->
  (forall us, admin us = hasAdminUser us) \/ (forall us, admin us = d_adminUserExists d) /\ (forall u, u_Admin (f u) = u_Admin u) ->
  data_ok (set_user d n f admin).
Proof.
  intros Hd Hn Hp Ha. apply set_users_ok; [done| | |].
  - rewrite change_fmap by auto. apply Hd.
  - apply change_chosen; [apply Hd|done].
  - destruct Ha as [Ha|[Ha Hf]]; [done|]. rewrite Ha, (ok_admin d Hd). unfold hasAdminUser. clear -Hf.
    induction (d_Users d) as [|u us IH]; [done|]. cbn. destruct (named_user n u); cbn; [by rewrite Hf|by rewrite IH].
Qed.

Lemma hasAdmin_drop n us : (forall u, first (named_user n) us = Some u -> u_Admin u = false) ->
  hasAdminUser (drop_first (named_user n) us) = hasAdminUser us.
Proof.
  unfold hasAdminUser. intros Hu. induction us as [|u us IH]; [done|]. cbn in *. destruct (named_user n u) eqn:E; [by rewrite (Hu u eq_refl)|]. cbn. by rewrite IH.
Qed.

Lemma meta_CreateUser_ok d n h a : data_ok d -> data_ok (keep d (CreateUser d n h a)).
Proof.
  intros Hd. apply keep_ok; [done|]. intros d'. unfold CreateUser. destruct (String.eqb n ""); [done|]. destruct (user d n) eqn:E; [done|]. intros [= <-].
  apply set_users_ok; [done| | |].
  - rewrite fmap_app. apply NoDup_app. split; [apply Hd|]. split; [|apply NoDup_singleton]. intros x (u & -> & Hu)%list_elem_of_fmap Hx%list_elem_of_singleton.
    apply first_None in E. rewrite Forall_forall in E. specialize (E u Hu). unfold named_user in E. cbn in Hx. rewrite Hx, String.eqb_refl in E. done.
  - apply Forall_app. split; [apply Hd|]. apply Forall_singleton. intros db Hdb. cbn in Hdb. rewrite lookup_empty in Hdb. by destruct Hdb.
  - rewrite (ok_admin d Hd). unfold hasAdminUser. rewrite existsb_app. cbn. destruct a; cbn; [by rewrite orb_true_r|by rewrite orb_false_r].
Qed.

Lemma DropUser_ok d n : data_ok d -> data_ok (keep d (DropUser d n)).
Proof.
  intros Hd. apply keep_ok; [done|]. intros d'. unfold DropUser. destruct (user d n) as [u|] eqn:E; [|done]. intros [= <-]. apply set_users_ok; [done| | |].
  - eapply sublist_NoDup; [apply (ok_users d Hd)|]. apply fmap_sublist, drop_first_sublist.
  - apply drop_first_Forall, Hd.
  - destruct (u_Admin u) eqn:Ea; [done|]. rewrite (ok_admin d Hd), hasAdmin_drop; [done|]. unfold user in E. rewrite E. by intros ? [= <-].
Qed.

Lemma meta_UpdateUser_ok d n h : data_ok d -> data_ok (keep d (UpdateUser d n h)).
Proof.
  intros Hd. apply keep_ok; [done|]. intros d'. unfold UpdateUser. destruct (user d n) as [u0|]; [|done]. intros [= <-]. apply set_user_ok; auto.
Qed.
Lemma SetPrivilege_ok d n db p : data_ok d -> data_ok (keep d (SetPrivilege d n db p)).
Proof.
  intros Hd. apply keep_ok; [done|]. intros d'. unfold SetPrivilege. destruct (user d n) as [u0|]; [|done]. destruct (Database d db) as [di|] eqn:E; [|done]. intros [= <-].
  apply set_user_ok; auto. intros u Hu db'. cbn. destruct (decide (db' = db)) as [->|Hne].
  - intros _. apply Database_name in E as [Hin <-]. by apply list_elem_of_fmap_2.
  - rewrite lookup_insert_ne by done. apply Hu.
Qed.
Lemma SetAdminPrivilege_ok d n a : data_ok d -> data_ok (keep d (SetAdminPrivilege d n a)).
Proof.
  intros Hd. apply keep_ok; [done|]. intros d'. unfold SetAdminPrivilege. destruct (user d n); [|done]. intros [= <-]. apply set_user_ok; auto.
Qed.

(** ** Importing *)

(** Renumbering keeps the times of the groups. *)
Definition same_times (g h : ShardGroupInfo) : Prop :=
  sg_StartTime h = sg_StartTime g /\ sg_EndTime h = sg_EndTime g /\ sg_DeletedAt h = sg_DeletedAt g /\ sg_TruncatedAt h = sg_TruncatedAt g.

Lemma sorted_same (R : ShardGroupInfo -> ShardGroupInfo -> Prop) gs hs :
  (forall a b a' b', same_times a a' -> same_times b b' -> R a b -> R a' b') -> Forall2 same_times gs hs -> StronglySorted R gs -> StronglySorted R hs.
Proof.
  intros HR H. induction H as [|g h gs hs Hg H IH]; intros Hs; [apply SSorted_nil|]. apply StronglySorted_inv in Hs as [Hs Hx]. apply SSorted_cons; [auto|].
  clear IH Hs. induction H as [|a b gs hs Ha H IH]; [apply Forall_nil_2|]. apply Forall_cons_1 in Hx as [Hx0 Hx]. constructor; [by eapply HR|auto].
Qed.
Lemma same_open_end g h : same_times g h -> open_end h = open_end g /\ Deleted h = Deleted g.
Proof. intros (S1 & S2 & S3 & S4). unfold open_end, Truncated, Deleted. by rewrite S2, S3, S4. Qed.

Lemma same_groups_ok gs hs : Forall2 same_times gs hs -> groups_ok gs -> groups_ok hs.
Proof.
  intros H [H1 H2 H3]. split.
  - induction H as [|g h gs hs Hg H IH]; [apply Forall_nil_2|]. apply Forall_cons_1 in H1 as [[G1 G2] H1]. apply StronglySorted_inv in H2 as [H2 _].
    apply StronglySorted_inv in H3 as [H3 _]. constructor; [|auto]. destruct (same_open_end g h Hg) as [E _]. destruct Hg as (S1 & S2 & _). split; rewrite ?E, ?S1, ?S2; done.
  - eapply sorted_same; [|exact H|exact H2]. intros a b a' b' Ha Hb. destruct (same_open_end _ _ Ha) as [E1 E2], (same_open_end _ _ Hb) as [E3 E4].
    destruct Ha as (Ha & _), Hb as (Hb & _). unfold apart. by rewrite E1, E2, E3, E4, Ha, Hb.
  - eapply sorted_same; [|exact H|exact H3]. intros a b a' b' Ha Hb. destruct (same_open_end _ _ Ha) as [E1 E2], (same_open_end _ _ Hb) as [E3 E4].
    destruct Ha as (Ha & _), Hb as (Hb & _). unfold in_order, Less. by rewrite E1, E2, E3, E4, Ha, Hb.
Qed.

Lemma renumber_groups_same gs gmax smax m : Forall2 same_times gs (renumber_groups gs gmax smax m).1.1.1.
Proof.
  revert gmax smax m. induction gs as [|g gs IH]; intros gmax smax m; [by constructor|]. cbn. destruct (renumber_shards _ _ _) as [[ss smax1] m1].
  specialize (IH (u64 (gmax + 1)) smax1 m1). destruct (renumber_groups _ _ _ _) as [[[gs' gm] sm] m2]. cbn in *. by constructor.
Qed.
Lemma renumber_policies_ok rps gmax smax m :
  Forall policy_ok rps ->
  Forall policy_ok (renumber_policies rps gmax smax m).1.1.1 /\ rp_Name <$> (renumber_policies rps gmax smax m).1.1.1 = rp_Name <$> rps.
Proof.
  revert gmax smax m. induction rps as [|rp rps IH]; intros gmax smax m H; [by split; [apply Forall_nil_2|]|]. apply Forall_cons_1 in H as [H0 H]. cbn.
  pose proof (renumber_groups_same (rp_ShardGroups rp) gmax smax m) as Hs. destruct (renumber_groups _ _ _ _) as [[[gs gm] sm] m1].
  specialize (IH gm sm m1 H). destruct (renumber_policies _ _ _ _) as [[[rps' gm'] sm'] m2]. cbn in *. destruct IH as [I1 I2]. split.
  - constructor; [|done]. apply set_groups_ok; [done|]. eapply same_groups_ok; [exact Hs|apply H0].
  - by rewrite I2.
Qed.

Lemma importOneDB_ok d o bdb rdb brp rrp m :
  data_ok d -> data_ok o -> data_ok (importOneDB d o bdb rdb brp rrp m).1.1.
Proof.
  intros Hd Ho. unfold importOneDB. destruct (Database o bdb) as [di|] eqn:Eo; [|done]. set (n := if String.eqb rdb "" then bdb else rdb).
  destruct (Database d n); [done|]. pose proof (CreateDatabase_ok d n Hd) as Hc. destruct (CreateDatabase d n) as [d1|?|]; [|done..]. cbn [keep] in Hc.
  assert (Hfin : forall rps dflt, Forall policy_ok rps -> NoDup (rp_Name <$> rps) ->
    data_ok (let '(rps, gmax, smax, m) := renumber_policies rps (d_MaxShardGroupID d1) (d_MaxShardID d1) m in
      (set_ids (set_database d1 n (fun di => set_default (set_policies di rps) dflt)) gmax smax, m, Ret n)).1.1).
  { intros rps dflt Hp Hn. destruct (renumber_policies_ok rps (d_MaxShardGroupID d1) (d_MaxShardID d1) m Hp) as [R1 R2].
    destruct (renumber_policies _ _ _ _) as [[[rps' gm] sm] m1]. cbn in *. apply set_ids_ok, set_database_ok; [done|done|]. intros di' _ _. split; cbn; [by rewrite R2|done]. }
  apply Database_name in Eo as [Hin _]. pose proof (ok_databases o Ho) as Hod. rewrite Forall_forall in Hod. destruct (Hod di Hin) as [D1 D2].
  cbv zeta. destruct (negb _); [|by apply Hfin]. destruct (DB_RetentionPolicy di brp) as [rp|] eqn:Er; [|done]. apply Hfin; [|apply NoDup_singleton].
  apply Forall_singleton. unfold DB_RetentionPolicy in Er. destruct (String.eqb (effective_name di brp) ""); [done|]. apply first_Some in Er as [Hr _].
  rewrite Forall_forall in D2. destruct (D2 rp Hr). by split.
Qed.

Lemma ImportData_ok d o bdb rdb brp rrp : data_ok d -> data_ok o -> data_ok (ImportData d o bdb rdb brp rrp).1.
Proof.
  intros Hd Ho. unfold ImportData. destruct (negb _).
  - pose proof (importOneDB_ok d o bdb rdb brp rrp ∅ Hd Ho) as H. by destruct (importOneDB _ _ _ _ _ _ _) as [[d1 m] []].
  - generalize (∅ : gmap Z Z), (@nil string). generalize (d_Databases o). intros dbs. revert d Hd. induction dbs as [|di dbs IH]; intros d Hd m nd; [done|]. cbn [import_all].
    destruct (String.eqb _ _); [by apply IH|]. pose proof (importOneDB_ok d o (db_Name di) "" "" "" m Hd Ho) as H.
    destruct (importOneDB _ _ _ _ _ _ _) as [[d1 m1] []]; [by apply IH|done..].
Qed.

(** ** Sequences of operations *)

Inductive mop :=
  | OCreateDatabase (name : string)
  | ODropDatabase (name : string)
  | OCreateRetentionPolicy (db : string) (rpi : option RetentionPolicyInfo) (makeDefault : bool)
  | ODropRetentionPolicy (db name : string)
  | OUpdateRetentionPolicy (db name : string) (rpu : RetentionPolicyUpdate) (makeDefault : bool)
  | ODropShard (now id : Z)
  | OCreateShardGroup (db policy : string) (timestamp : Z) (shards : list ShardInfo)
  | ODeleteShardGroup (now : Z) (db policy : string) (id : Z)
  | OPruneShardGroups (expiration : Z)
  | OTruncateShardGroups (t : Z)
  | OCreateContinuousQuery (ToLower : string -> string) (db name query : string)
  | ODropContinuousQuery (db name : string)
  | OCreateSubscription (Parse SplitHostPort : string -> option (string * string)) (db rp name mode : string) (destinations : list string)
  | ODropSubscription (db rp name : string)
  | OCreateUser (name hash : string) (admin : bool)
  | ODropUser (name : string)
  | OUpdateUser (name hash : string)
  | OSetPrivilege (name db : string) (p : Z)
  | OSetAdminPrivilege (name : string) (admin : bool)
  | OImportData (other : Data) (backupDB restoreDB backupRP restoreRP : string).

(** What is left of the data, also after an error. *)
Definition exec (o : mop) (d : Data) : Data :=
  match o with
  | OCreateDatabase n => keep d (CreateDatabase d n)
  | ODropDatabase n => DropDatabase d n
  | OCreateRetentionPolicy db rpi mk => keep d (CreateRetentionPolicy d db rpi mk)
  | ODropRetentionPolicy db n => DropRetentionPolicy d db n
  | OUpdateRetentionPolicy db n rpu mk => keep d (UpdateRetentionPolicy d db n rpu mk)
  | ODropShard now id => DropShard now d id
  | OCreateShardGroup db rp ts ss => keep d (CreateShardGroup d db rp ts ss)
  | ODeleteShardGroup now db rp id => keep d (DeleteShardGroup now d db rp id)
  | OPruneShardGroups t => (PruneShardGroups d t).2
  | OTruncateShardGroups t => TruncateShardGroups d t
  | OCreateContinuousQuery tl db n q => keep d (CreateContinuousQuery tl d db n q)
  | ODropContinuousQuery db n => DropContinuousQuery d db n
  | OCreateSubscription ps sp db rp n mode ds => keep d (CreateSubscription ps sp d db rp n mode ds)
  | ODropSubscription db rp n => keep d (DropSubscription d db rp n)
  | OCreateUser n h a => keep d (CreateUser d n h a)
  | ODropUser n => keep d (DropUser d n)
  | OUpdateUser n h => keep d (UpdateUser d n h)
  | OSetPrivilege n db p => keep d (SetPrivilege d n db p)
  | OSetAdminPrivilege n a => keep d (SetAdminPrivilege d n a)
  | OImportData o bdb rdb brp rrp => (ImportData d o bdb rdb brp rrp).1
  end.
Definition exec_all (os : list mop) (d : Data) : Data := foldl (fun d o => exec o d) d os.

(** Durations and times are those an [int64] of nanoseconds holds, the clock
    is not at the zero time, and no policy is renamed to the empty name. *)
Definition op_ok (o : mop) : Prop :=
  match o with
  | OCreateRetentionPolicy _ (Some r) _ => rp_ShardGroupDuration r < 2 ^ 63 /\ rp_ShardGroups r = []
  | OUpdateRetentionPolicy _ _ rpu _ => rpu_Name rpu <> Some "" /\ forall s, rpu_ShardGroupDuration rpu = Some s -> s < 2 ^ 63
  | OCreateShardGroup _ _ ts _ => in_nano ts
  | ODeleteShardGroup now _ _ _ => now <> zeroTime
  | OTruncateShardGroups t => zeroTime < t
  | OImportData other _ _ _ _ => data_ok other
  | _ => True
  end.

Lemma mexec_ok o d : op_ok o -> data_ok d -> data_ok (exec o d).
Proof.
  intros Ho Hd. destruct o; cbn [exec op_ok] in *.
  - by apply CreateDatabase_ok.
  - by apply DropDatabase_ok.
  - apply CreateRetentionPolicy_ok; [done|]. intros r ->. destruct Ho as [H1 ->]. split; [done|apply groups_ok_nil].
  - by apply DropRetentionPolicy_ok.
  - destruct Ho. by apply UpdateRetentionPolicy_ok.
  - by apply DropShard_ok.
  - by apply CreateShardGroup_ok.
  - by apply DeleteShardGroup_ok.
  - by apply PruneShardGroups_ok.
  - by apply TruncateShardGroups_ok.
  - by apply CreateContinuousQuery_ok.
  - by apply DropContinuousQuery_ok.
  - by apply CreateSubscription_ok.
  - by apply DropSubscription_ok.
  - by apply meta_CreateUser_ok.
  - by apply DropUser_ok.
  - by apply meta_UpdateUser_ok.
  - by apply SetPrivilege_ok.
  - by apply SetAdminPrivilege_ok.
  - by apply ImportData_ok.
Qed.

Definition empty_data : Data := MkData 0 1 7 [] [] false 0 0.
Lemma empty_data_ok : data_ok empty_data.
Proof. split; cbn; try apply NoDup_nil_2; try apply Forall_nil_2. done. Qed.

Lemma exec_all_ok os d : Forall op_ok os -> data_ok d -> data_ok (exec_all os d).
Proof.
  intros H. revert d. induction H as [|o os Ho H IH]; intros d Hd; [done|]. cbn. apply IH. by apply mexec_ok.
Qed.

(** C2. The metadata stays consistent: after any sequence of operations,
    failing ones and imports included, database, policy and user names are
    unique; a policy's shard duration is at least an hour and no longer than
    its retention; the ranges in which the live shard groups of a policy take
    writes do not overlap and their groups are in the order of their ends; the
    administrator flag says whether there is an administrator; and privileges
    are only held on databases that exist.  The operations satisfy [op_ok]: a
    policy is created without shard groups, and it is not renamed to the empty
    name (the example [empty_names_collide] shows why); shard group durations
    are below 2^63; a new group is asked for a time in the range of the
    storage engine; groups are not deleted at the zero time, nor truncated at
    or before it; and imported metadata is itself consistent. *)
Theorem metadata_consistent (os : list mop) :
  Forall op_ok os -> data_ok (exec_all os empty_data).
Proof. intros H. by apply exec_all_ok, empty_data_ok. Qed.

(** C34. [CreateShardGroup] on a consistent policy that has no group for the
    timestamp adds the group with the largest range around it that lies in the
    timestamp's slot of the shard duration and overlaps no live group, and
    that group is the one found for the timestamp afterwards. *)
Theorem CreateShardGroup_largest (d : Data) (db policy : string) (rp : RetentionPolicyInfo) (ts : Z) :
  data_ok d -> in_nano ts -> find_policy d db policy = Ret rp -> GroupByTimestamp rp ts = None ->
  exists d' rp' g, CreateShardGroup d db policy ts [] = Ret d' /\ find_policy d' db policy = Ret rp' /\
    GroupByTimestamp rp' ts = Some g /\ rp_ShardGroups rp' ≡ₚ g :: rp_ShardGroups rp /\
    around ts (sg_StartTime g, sg_EndTime g) /\ within (sg_StartTime g, sg_EndTime g) (whole_range rp ts) /\
    Forall (free (sg_StartTime g, sg_EndTime g)) (rp_ShardGroups rp) /\
    forall r, around ts r -> within r (whole_range rp ts) -> Forall (free r) (rp_ShardGroups rp) -> within r (sg_StartTime g, sg_EndTime g).
Proof.
  intros Hd Ht Ep Eg. pose proof (find_policy_ok _ _ _ _ Hd Ep) as Hok. unfold CreateShardGroup. rewrite Ep. cbn [obind]. rewrite Eg.
  set (id := u64 (d_MaxShardGroupID d + 1)). set (sid := u64 (d_MaxShardID d + 1)).
  destruct (fresh_group_spec rp ts id [MkShard sid []] Ht (po_sgd _ Hok) (po_groups _ Hok) Eg) as (F1 & F2 & F3 & F4 & F5). cbv zeta in *.
  set (g := fresh_group rp ts id [MkShard sid []]) in *. destruct (new_range rp ts) as [st en] eqn:Er.
  assert (Eg' : g = MkGroup id st en zeroTime [MkShard sid []] zeroTime) by (unfold g, fresh_group; by rewrite Er). rewrite <- Eg'.
  eexists _, (set_groups rp (Sort (rp_ShardGroups rp ++ [g]))), g. split; [reflexivity|].
  destruct (Sort_spec (rp_ShardGroups rp ++ [g])) as [Hp _]. apply (takes_spec ts g F4) in F1 as [F1 F1']. assert (Ho : open_end g = sg_EndTime g) by done. rewrite Ho in F1'.
  split_and!; try done; try lia.
  - revert Ep. unfold find_policy, RetentionPolicy, Database, set_policy, set_database. cbn. clear. intros Ep.
    induction (d_Databases d) as [|x l IH]; [done|]. cbn in *. destruct (named_db db x) eqn:Ex; cbn; unfold named_db in *; cbn; rewrite Ex; [|by apply IH].
    cbn in *. clear IH. induction (db_RetentionPolicies x) as [|y k IH]; [done|]. cbn in *. destruct (named_rp policy y) eqn:Ey; cbn; unfold named_rp in *; cbn; rewrite Ey; [|by apply IH].
    by injection Ep as ->.
  - apply first_unique.
    + cbn. rewrite Hp. apply elem_of_app. right. by apply list_elem_of_singleton.
    + apply (takes_spec ts g F4). rewrite Ho. done.
    + cbn. intros y Hy Hty. rewrite Hp in Hy. apply elem_of_app in Hy as [Hy|Hy]; [|by apply list_elem_of_singleton in Hy].
      apply first_None in Eg. rewrite Forall_forall in Eg. rewrite (Eg y Hy) in Hty. done.
  - cbn. rewrite Hp. by rewrite Permutation_app_comm.
  - eapply Forall_impl; [exact F3|]. intros h. unfold apart, free. rewrite F1, Ho. cbn. naive_solver.
Qed.

(** ** Leases *)

(** One attempt, by a node at two readings of the clock. *)
Definition attempt (name : string) (s : Leases * list (option string)) (t : Z * Z * Z) : Leases * list (option string) :=
  let '(ls, _, err) := Acquire s.1 name t.1.1 t.1.2 t.2 in (ls, s.2 ++ [err]).

(** A lease excludes: while a node holds an unexpired lease, any attempts
    of other nodes fail and leave the lease as it is, and the owner can renew
    it; the clock is any sequence of readings. *)
Theorem lease_exclusive (ls : Leases) (name : string) (l : Lease) (tries : list (Z * Z * Z)) :
  ls_m ls !! name = Some l ->
  Forall (fun t => t.1.1 <> le_Owner l /\ t.1.2 <= le_Expiration l) tries ->
  foldl (attempt name) (ls, []) tries = (ls, replicate (length tries) (Some "another node has the lease"%string)) /\
  forall now now', (Acquire ls name (le_Owner l) now now').2 = None.
Proof.
  intros Hl Ht. split.
  - assert (H : forall acc, foldl (attempt name) (ls, acc) tries = (ls, acc ++ replicate (length tries) (Some "another node has the lease"%string))).
    { induction Ht as [|[[n now] now'] ts [H1 H2] Ht IH]; intros acc; [by rewrite app_nil_r|]. cbn [foldl fst snd length replicate] in *.
      assert (E : attempt name (ls, acc) (n, now, now') = (ls, acc ++ [Some "another node has the lease"%string])).
      { unfold attempt, Acquire. cbn [fst snd]. rewrite Hl. rewrite (proj2 (Z.ltb_ge _ _)), (proj2 (Z.eqb_neq _ _)) by (done || lia). done. }
      rewrite E, IH. by rewrite <- app_assoc. }
    apply (H []).
  - intros now now'. unfold Acquire. rewrite Hl, Z.eqb_refl, orb_true_r. done.
Qed.

(** ** Samples *)

Definition sample_policy : RetentionPolicyInfo := MkPolicy "rp" 1 (48 * Hour) 0 [] [].
Definition sample_ops : list mop :=
  [OCreateDatabase "db"; OCreateRetentionPolicy "db" (Some sample_policy) true; OCreateUser "u" "h" true; OSetPrivilege "u" "db" 1;
   OCreateShardGroup "db" "rp" 1000000000000000000 []; OTruncateShardGroups 1000000000000000005; OCreateShardGroup "db" "rp" 1000000000000000010 []].

Lemma sample_mops_ok : Forall op_ok sample_ops.
Proof. repeat (apply Forall_cons; split; [first [exact I|split; [reflexivity|reflexivity]|unfold op_ok, in_nano, MaxNanoTime, zeroTime, Second; lia]|]). apply Forall_nil; exact I. Qed.

Lemma metadata_consistent_witness : data_ok (exec_all sample_ops empty_data).
Proof. apply (metadata_consistent sample_ops sample_mops_ok). Defined.

(** The second group takes over where the first was truncated. *)
Example truncated_then_continued :
  (fun g => (sg_StartTime g, open_end g)) <$> all_groups (exec_all sample_ops empty_data) =
  [(999993600000000000, 1000000000000000005); (1000000000000000005, 1000080000000000000)].
Proof. vm_compute. reflexivity. Qed.

Lemma CreateShardGroup_largest_witness :
  exists d' rp' g, CreateShardGroup (exec_all (take 4 sample_ops) empty_data) "db" "rp" 1000000000000000000 [] = Ret d' /\
    find_policy d' "db" "rp" = Ret rp' /\ GroupByTimestamp rp' 1000000000000000000 = Some g.
Proof.
  assert (Hd : data_ok (exec_all (take 4 sample_ops) empty_data)).
  { apply exec_all_ok; [|apply empty_data_ok]. apply Forall_take, sample_mops_ok. }
  destruct (CreateShardGroup_largest (exec_all (take 4 sample_ops) empty_data) "db" "rp" (MkPolicy "rp" 1 (48 * Hour) (24 * Hour) [] []) 1000000000000000000 Hd)
    as (d' & rp' & g & E1 & E2 & E3 & _); [unfold in_nano, MaxNanoTime; lia|vm_compute; reflexivity|reflexivity|]. exists d', rp', g. exact (conj E1 (conj E2 E3)).
Defined.

Lemma lease_exclusive_witness :
  (Acquire (MkLeases {["x"%string := MkLease "x" 100 1]} 50) "x" 1 90 90).2 = None.
Proof.
  refine (proj2 (lease_exclusive (MkLeases {["x"%string := MkLease "x" 100 1]} 50) "x" (MkLease "x" 100 1) [(2, 100, 101)] _ _) 90 90).
  - reflexivity.
  - apply Forall_singleton. cbn. lia.
Defined.

(** Renaming the default policy of a database, or dropping it, leaves the
    database with a default that does not exist. *)
Example renamed_default_dangles :
  let d := exec_all [OCreateDatabase "db"; OCreateRetentionPolicy "db" (Some sample_policy) true;
                     OUpdateRetentionPolicy "db" "rp" (MkUpdate (Some "new"%string) None None None) false] empty_data in
  (fun di => (db_DefaultRetentionPolicy di, rp_Name <$> db_RetentionPolicies di, DB_RetentionPolicy di "")) <$> Database d "db" = Some ("rp"%string, ["new"%string], None).
Proof. reflexivity. Qed.
Example dropped_default_dangles :
  let d := exec_all [OCreateDatabase "db"; OCreateRetentionPolicy "db" (Some sample_policy) true; ODropRetentionPolicy "db" "rp"] empty_data in
  (fun di => (db_DefaultRetentionPolicy di, DB_RetentionPolicy di "")) <$> Database d "db" = Some ("rp"%string, None).
Proof. reflexivity. Qed.

(** [UpdateRetentionPolicy] does not refuse the empty name that
    [CreateRetentionPolicy] refuses, and two policies can get it. *)
Example empty_names_collide :
  let d := exec_all [OCreateDatabase "db"; OCreateRetentionPolicy "db" (Some sample_policy) false;
                     OCreateRetentionPolicy "db" (Some (MkPolicy "rp2" 1 (48 * Hour) 0 [] [])) false;
                     OUpdateRetentionPolicy "db" "rp" (MkUpdate (Some ""%string) None None None) false;
                     OUpdateRetentionPolicy "db" "rp2" (MkUpdate (Some ""%string) None None None) false] empty_data in
  (fun di => rp_Name <$> db_RetentionPolicies di) <$> Database d "db" = Some [""%string; ""%string].
Proof. reflexivity. Qed.

(** Truncation leaves deleted groups alone, so a live group that was truncated
    can come to stand behind a deleted one that ends later. *)
Example truncation_breaks_full_order :
  let d := exec_all [OCreateDatabase "db"; OCreateRetentionPolicy "db" (Some sample_policy) true;
                     OCreateShardGroup "db" "rp" 1000000000000000000 []; ODeleteShardGroup 1 "db" "rp" 1;
                     OCreateShardGroup "db" "rp" 1000000000000000000 []; OTruncateShardGroups 1000000000000000005] empty_data in
  (fun g => (Deleted g, open_end g)) <$> all_groups d = [(true, 1000080000000000000); (false, 1000000000000000005)].
Proof. vm_compute. reflexivity. Qed.
End MetaShards.
