(* ===== verification/MetaWire.v ===== *)
(** * v1/services/meta: the stored form of the metadata

    Models the [marshal] and [unmarshal] methods of [data.go], which convert
    the metadata to the protobuf messages of [meta.proto] and back.  A
    message is a record of optional fields, a missing one read as zero.  The
    theorem shows that metadata within the ranges of the messages is read
    back as it was; the example shows a time that is not. *)
From S2P Require Import Prelude MetaData.
From stdpp Require Import gmap strings.
Import Meta.
#[global] Open Scope Z_scope.

Module MetaWire.

(** ** Messages *)

Record pb_ShardOwner := PbOwner { pbo_NodeID : option Z }.
Record pb_ShardInfo := PbShard { pbs_ID : option Z; pbs_OwnerIDs : list Z; pbs_Owners : list pb_ShardOwner }.
Record pb_ShardGroupInfo := PbGroup {
  pbg_ID : option Z;
  pbg_StartTime : option Z;
  pbg_EndTime : option Z;
  pbg_DeletedAt : option Z;
  pbg_Shards : list pb_ShardInfo;
  pbg_TruncatedAt : option Z }.
Record pb_SubscriptionInfo := PbSubscription { pbu_Name : option string; pbu_Mode : option string; pbu_Destinations : list string }.
Record pb_ContinuousQueryInfo := PbQuery { pbq_Name : option string; pbq_Query : option string }.
Record pb_RetentionPolicyInfo := PbPolicy {
  pbr_Name : option string;
  pbr_Duration : option Z;
  pbr_ShardGroupDuration : option Z;
  pbr_ReplicaN : option Z;
  pbr_ShardGroups : list pb_ShardGroupInfo;
  pbr_Subscriptions : list pb_SubscriptionInfo }.
Record pb_DatabaseInfo := PbDatabase {
  pbd_Name : option string;
  pbd_DefaultRetentionPolicy : option string;
  pbd_RetentionPolicies : list pb_RetentionPolicyInfo;
  pbd_ContinuousQueries : list pb_ContinuousQueryInfo }.
Record pb_UserInfo := PbUser { pbi_Name : option string; pbi_Hash : option string; pbi_Admin : option bool; pbi_Privileges : list (option string * option Z) }.
Record pb_Data := PbData {
  pb_Term : option Z;
  pb_Index : option Z;
  pb_ClusterID : option Z;
  pb_Databases : list pb_DatabaseInfo;
  pb_Users : list pb_UserInfo;
  pb_MaxNodeID : option Z;
  pb_MaxShardGroupID : option Z;
  pb_MaxShardID : option Z }.

(** The getters of a message. *)
Definition get (o : option Z) : Z := default 0 o.
Definition gets (o : option string) : string := default ""%string o.

(** ** Times *)

Definition MarshalTime (t : Z) : Z := if IsZero t then 0 else i64 t.
Definition UnmarshalTime (v : Z) : Z := if v =? 0 then zeroTime else v.

(** ** Conversions *)

Definition Owner_marshal (so : ShardOwner) : pb_ShardOwner := PbOwner (Some (so_NodeID so)).
Definition Owner_unmarshal (pb : pb_ShardOwner) : ShardOwner := MkOwner (get (pbo_NodeID pb)).

Definition Shard_marshal (si : ShardInfo) : pb_ShardInfo := PbShard (Some (si_ID si)) [] (Owner_marshal <$> si_Owners si).
Definition Shard_unmarshal (pb : pb_ShardInfo) : ShardInfo :=
  MkShard (get (pbs_ID pb))
    (match pbs_OwnerIDs pb with
     | [] => Owner_unmarshal <$> pbs_Owners pb
     | ids => (fun x => Owner_unmarshal (PbOwner (Some x))) <$> ids
     end).

Definition Group_marshal (g : ShardGroupInfo) : pb_ShardGroupInfo :=
  PbGroup (Some (sg_ID g)) (Some (MarshalTime (sg_StartTime g))) (Some (MarshalTime (sg_EndTime g))) (Some (MarshalTime (sg_DeletedAt g)))
    (Shard_marshal <$> sg_Shards g) (if IsZero (sg_TruncatedAt g) then None else Some (MarshalTime (sg_TruncatedAt g))).
(** A start or end of 0 is 1970, not the zero time. *)
Definition Group_unmarshal (pb : pb_ShardGroupInfo) : ShardGroupInfo :=
  let bound i := if i =? 0 then 0 else UnmarshalTime i in
  MkGroup (get (pbg_ID pb)) (bound (get (pbg_StartTime pb))) (bound (get (pbg_EndTime pb))) (UnmarshalTime (get (pbg_DeletedAt pb)))
    (Shard_unmarshal <$> pbg_Shards pb) (match pbg_TruncatedAt pb with Some t => UnmarshalTime t | None => zeroTime end).

Definition Subscription_marshal (s : SubscriptionInfo) : pb_SubscriptionInfo := PbSubscription (Some (sub_Name s)) (Some (sub_Mode s)) (sub_Destinations s).
Definition Subscription_unmarshal (pb : pb_SubscriptionInfo) : SubscriptionInfo :=
  MkSubscription (gets (pbu_Name pb)) (gets (pbu_Mode pb)) (pbu_Destinations pb).
Definition Query_marshal (q : ContinuousQueryInfo) : pb_ContinuousQueryInfo := PbQuery (Some (cq_Name q)) (Some (cq_Query q)).
Definition Query_unmarshal (pb : pb_ContinuousQueryInfo) : ContinuousQueryInfo := MkQuery (gets (pbq_Name pb)) (gets (pbq_Query pb)).

Definition Policy_marshal (rp : RetentionPolicyInfo) : pb_RetentionPolicyInfo :=
  PbPolicy (Some (rp_Name rp)) (Some (rp_Duration rp)) (Some (rp_ShardGroupDuration rp)) (Some (rp_ReplicaN rp mod 2 ^ 32))
    (Group_marshal <$> rp_ShardGroups rp) (Subscription_marshal <$> rp_Subscriptions rp).
Definition Policy_unmarshal (pb : pb_RetentionPolicyInfo) : RetentionPolicyInfo :=
  MkPolicy (gets (pbr_Name pb)) (get (pbr_ReplicaN pb)) (get (pbr_Duration pb)) (get (pbr_ShardGroupDuration pb))
    (Group_unmarshal <$> pbr_ShardGroups pb) (Subscription_unmarshal <$> pbr_Subscriptions pb).

Definition Database_marshal (di : DatabaseInfo) : pb_DatabaseInfo :=
  PbDatabase (Some (db_Name di)) (Some (db_DefaultRetentionPolicy di)) (Policy_marshal <$> db_RetentionPolicies di) (Query_marshal <$> db_ContinuousQueries di).
Definition Database_unmarshal (pb : pb_DatabaseInfo) : DatabaseInfo :=
  MkDatabase (gets (pbd_Name pb)) (gets (pbd_DefaultRetentionPolicy pb)) (Policy_unmarshal <$> pbd_RetentionPolicies pb) (Query_unmarshal <$> pbd_ContinuousQueries pb).

(** The privileges are listed in the order of the map; [int32(privilege)]. *)
Definition i32 (z : Z) : Z := (z + 2 ^ 31) mod 2 ^ 32 - 2 ^ 31.
Definition User_marshal (u : UserInfo) : pb_UserInfo :=
  PbUser (Some (u_Name u)) (Some (u_Hash u)) (Some (u_Admin u)) ((fun p => (Some p.1, Some (i32 p.2))) <$> map_to_list (u_Privileges u)).
Definition User_unmarshal (pb : pb_UserInfo) : UserInfo :=
  MkUser (gets (pbi_Name pb)) (gets (pbi_Hash pb)) (default false (pbi_Admin pb))
    (foldl (fun m p => <[gets p.1 := get p.2]> m) ∅ (pbi_Privileges pb)).

Definition marshal (d : Data) : pb_Data :=
  PbData (Some (d_Term d)) (Some (d_Index d)) (Some (d_ClusterID d)) (Database_marshal <$> d_Databases d) (User_marshal <$> d_Users d)
    (Some 0) (Some (d_MaxShardGroupID d)) (Some (d_MaxShardID d)).
Definition unmarshal (pb : pb_Data) : Data :=
  let users := User_unmarshal <$> pb_Users pb in
  MkData (get (pb_Term pb)) (get (pb_Index pb)) (get (pb_ClusterID pb)) (Database_unmarshal <$> pb_Databases pb) users (hasAdminUser users)
    (get (pb_MaxShardGroupID pb)) (get (pb_MaxShardID pb)).

(** [RetentionPolicySpec] has messages of its own. *)
Record pb_RetentionPolicySpec := PbSpec { pbp_Name : option string; pbp_Duration : option Z; pbp_ShardGroupDuration : option Z; pbp_ReplicaN : option Z }.
Definition Spec_marshal (s : RetentionPolicySpec) : pb_RetentionPolicySpec :=
  PbSpec (if String.eqb (sp_Name s) "" then None else Some (sp_Name s)) (sp_Duration s)
    (if 0 <? sp_ShardGroupDuration s then Some (sp_ShardGroupDuration s) else None) ((fun n => n mod 2 ^ 32) <$> sp_ReplicaN s).
Definition Spec_unmarshal (pb : pb_RetentionPolicySpec) : RetentionPolicySpec :=
  MkSpec (gets (pbp_Name pb)) (pbp_ReplicaN pb) (pbp_Duration pb) (get (pbp_ShardGroupDuration pb)).

(** ** Round trips *)

Definition time_ok (t : Z) : Prop := - 2 ^ 63 <= t < 2 ^ 63.
(** A time that may be missing is the zero time or a nanosecond other than the
    first of 1970. *)
Definition mark_ok (t : Z) : Prop := t = zeroTime \/ time_ok t /\ t <> 0.
Record group_wire (g : ShardGroupInfo) : Prop := {
  gw_start : time_ok (sg_StartTime g);
  gw_end : time_ok (sg_EndTime g);
  gw_deleted : mark_ok (sg_DeletedAt g);
  gw_truncated : mark_ok (sg_TruncatedAt g) }.
Record policy_wire (rp : RetentionPolicyInfo) : Prop := {
  pw_replicas : 0 <= rp_ReplicaN rp < 2 ^ 32;
  pw_groups : Forall group_wire (rp_ShardGroups rp) }.
Definition user_wire (u : UserInfo) : Prop := map_Forall (fun _ p => - 2 ^ 31 <= p < 2 ^ 31) (u_Privileges u).
Record data_wire (d : Data) : Prop := {
  dw_databases : Forall (fun di => Forall policy_wire (db_RetentionPolicies di)) (d_Databases d);
  dw_users : Forall user_wire (d_Users d);
  dw_admin : d_adminUserExists d = hasAdminUser (d_Users d) }.

Lemma fmap_roundtrip {A B} (P : A -> Prop) (f : A -> B) (g : B -> A) (l : list A) : (forall x, P x -> g (f x) = x) -> Forall P l -> g <$> (f <$> l) = l.
Proof. intros H. induction 1 as [|x l Hx Hl IH]; [done|]. cbn. by rewrite H, IH. Qed.
Lemma fmap_roundtrip_all {A B} (f : A -> B) (g : B -> A) (l : list A) : (forall x, g (f x) = x) -> g <$> (f <$> l) = l.
Proof. intros H. apply (fmap_roundtrip (fun _ => True)); [auto|]. apply Forall_true. auto. Qed.

Lemma i64_time t : time_ok t -> i64 t = t.
Proof. unfold time_ok. intros H. apply i64_id. unfold is_i64. unint. lia. Qed.
Lemma zeroTime_far : zeroTime < - 2 ^ 63.
Proof. unfold zeroTime, Second. lia. Qed.

Lemma bound_roundtrip t : time_ok t -> (let i := MarshalTime t in if i =? 0 then 0 else UnmarshalTime i) = t.
Proof.
  intros Ht. pose proof zeroTime_far. unfold MarshalTime, IsZero, UnmarshalTime. destruct (Z.eqb_spec t zeroTime); [unfold time_ok in Ht; lia|].
  rewrite i64_time by done. cbv zeta. destruct (Z.eqb_spec t 0); [done|done].
Qed.
Lemma mark_roundtrip t : mark_ok t -> UnmarshalTime (MarshalTime t) = t.
Proof.
  intros [->|[Ht Hn]]; [done|]. pose proof zeroTime_far. unfold MarshalTime, IsZero, UnmarshalTime.
  destruct (Z.eqb_spec t zeroTime); [unfold time_ok in Ht; lia|]. rewrite i64_time by done. by destruct (Z.eqb_spec t 0).
Qed.

Lemma Shard_roundtrip si : Shard_unmarshal (Shard_marshal si) = si.
Proof. destruct si as [id os]. unfold Shard_unmarshal. cbn. f_equal. apply fmap_roundtrip_all. by intros []. Qed.
Lemma Group_roundtrip g : group_wire g -> Group_unmarshal (Group_marshal g) = g.
Proof.
  intros [G1 G2 G3 G4]. destruct g as [gid st en del ss tr]. unfold Group_unmarshal, Group_marshal. cbn [pbg_ID pbg_StartTime pbg_EndTime pbg_DeletedAt pbg_Shards pbg_TruncatedAt get from_option id] in *.
  cbn [sg_StartTime sg_EndTime sg_DeletedAt sg_TruncatedAt sg_Shards] in *. f_equal; [by apply bound_roundtrip..|by apply mark_roundtrip|apply fmap_roundtrip_all, Shard_roundtrip|].
  destruct (IsZero tr) eqn:E; [unfold IsZero in E; lia|]. by apply mark_roundtrip.
Qed.
Lemma Policy_roundtrip rp : policy_wire rp -> Policy_unmarshal (Policy_marshal rp) = rp.
Proof.
  intros [P1 P2]. destruct rp as [n r dur sgd gs ss]. unfold Policy_unmarshal, Policy_marshal. cbn in *. f_equal; [by apply Z.mod_small|by apply (fmap_roundtrip group_wire); [apply Group_roundtrip|]|].
  apply fmap_roundtrip_all. by intros [].
Qed.
Lemma Database_roundtrip di : Forall policy_wire (db_RetentionPolicies di) -> Database_unmarshal (Database_marshal di) = di.
Proof.
  intros H. destruct di as [n df rps qs]. unfold Database_unmarshal, Database_marshal. cbn in *. f_equal; [by apply (fmap_roundtrip policy_wire); [apply Policy_roundtrip|]|].
  apply fmap_roundtrip_all. by intros [].
Qed.

Lemma foldl_insert_map (l : list (string * Z)) (m : gmap string Z) : NoDup l.*1 -> foldl (fun m p => <[p.1 := p.2]> m) m l = list_to_map l ∪ m.
Proof.
  revert m. induction l as [|[k v] l IH]; intros m Hn; cbn; [by rewrite (left_id_L ∅ (∪))|]. cbn in Hn. apply NoDup_cons in Hn as [Hk Hn]. rewrite IH by done.
  rewrite <- insert_union_r by (by apply not_elem_of_list_to_map_1). by rewrite insert_union_l.
Qed.
Lemma i32_id z : - 2 ^ 31 <= z < 2 ^ 31 -> i32 z = z.
Proof. intros H. unfold i32. rewrite Z.mod_small; lia. Qed.

Lemma User_roundtrip u : user_wire u -> User_unmarshal (User_marshal u) = u.
Proof.
  intros H. destruct u as [n h a ps]. unfold User_unmarshal, User_marshal, user_wire in *. cbn in *. f_equal.
  assert (E : forall m : gmap string Z, foldl (fun m p => <[gets p.1 := get p.2]> m) m ((fun p => (Some p.1, Some (i32 p.2))) <$> map_to_list ps) =
    foldl (fun m (p : string * Z) => <[p.1 := p.2]> m) m (map_to_list ps)).
  { assert (Hl : Forall (fun p => - 2 ^ 31 <= p.2 < 2 ^ 31) (map_to_list ps)) by (apply map_Forall_to_list in H; eapply Forall_impl; [exact H|]; by intros [k v]).
    induction Hl as [|[k v] l Hv Hl IH]; intros m; [done|]. cbn in *. rewrite i32_id by lia. apply IH. }
  rewrite E, foldl_insert_map by apply NoDup_fst_map_to_list. by rewrite list_to_map_to_list, (right_id_L ∅ (∪)).
Qed.

Lemma data_roundtrip d : data_wire d -> unmarshal (marshal d) = d.
Proof.
  intros [D1 D2 D3]. destruct d as [term idx cl dbs us adm gm sm]. unfold unmarshal, marshal. cbn in *.
  assert (Hu : User_unmarshal <$> (User_marshal <$> us) = us) by (by apply (fmap_roundtrip user_wire); [apply User_roundtrip|]). rewrite Hu, D3. f_equal.
  eapply fmap_roundtrip; [|exact D1]. intros di. apply Database_roundtrip.
Qed.

(** C37. Metadata is read back as it was stored: whatever its databases,
    policies, shard groups, queries, subscriptions, users and privileges, as
    long as times, replica numbers and privileges fit the messages and no
    group was deleted or truncated at the first nanosecond of 1970. *)
Theorem metadata_roundtrip (d : Data) : data_wire d -> unmarshal (marshal d) = d.
Proof. apply data_roundtrip. Qed.

Definition sample_data : Data :=
  MkData 1 2 3
    [MkDatabase "db" "rp" [MkPolicy "rp" 1 0 (168 * Hour) [MkGroup 1 0 (168 * Hour) zeroTime [MkShard 1 [MkOwner 5]] 7] [MkSubscription "s" "ALL" ["udp://h:1"]]] [MkQuery "q" "SELECT"]]
    [MkUser "u" "h" true {["db"%string := 3]}] true 1 1.

Lemma metadata_roundtrip_witness : unmarshal (marshal sample_data) = sample_data.
Proof.
  apply (metadata_roundtrip sample_data). split; cbn; [|apply Forall_singleton, map_Forall_singleton; lia|done].
  apply Forall_singleton, Forall_singleton. split; cbn; [lia|]. apply Forall_singleton. split; cbn; unfold time_ok, mark_ok, Hour, Second; first [lia|left; reflexivity|right; unfold time_ok; lia].
Defined.

(** A group truncated at the first nanosecond of 1970 takes writes again after
    it was stored. *)
Example truncated_at_epoch_is_lost :
  Truncated (Group_unmarshal (Group_marshal (MkGroup 1 0 10 zeroTime [] 0))) = false /\ Truncated (MkGroup 1 0 10 zeroTime [] 0) = true.
Proof. by vm_compute. Qed.
End MetaWire.
