(* ===== verification/MetaClient.v ===== *)
(** * v1/services/meta: the client

    Models [client.go]: the cached metadata, the store it is written to before
    it is replaced, the cache of authenticated passwords, and the mutex.  The
    store holds the protobuf message last put into it; whether it takes a write
    is an argument of each operation, as are clocks and salts; bcrypt and
    SHA-256 are parameters.  [Clone] copies everything an operation changes in
    place but the array behind a policy's subscriptions, which the cached data
    and the clone share. *)
From S2P Require Import Prelude MetaData MetaShards MetaWire.
From stdpp Require Import gmap strings sorting.
Import Meta.
Import MetaShards.
Import MetaWire.
#[global] Open Scope Z_scope.

Module MetaClient.

Record authUser := MkAuth { au_bhash : string; au_salt : string; au_hash : string }.
Record Client := MkClient {
  c_cacheData : Data;
  c_authCache : gmap string authUser;
  c_store : option pb_Data;
  c_retentionAutoCreate : bool;
  c_mu : bool }.

Definition set_data (c : Client) (d : Data) (s : option pb_Data) : Client := MkClient d (c_authCache c) s (c_retentionAutoCreate c) (c_mu c).
Definition set_auth (c : Client) (m : gmap string authUser) : Client := MkClient (c_cacheData c) m (c_store c) (c_retentionAutoCreate c) (c_mu c).
Definition set_held (c : Client) (b : bool) : Client := MkClient (c_cacheData c) (c_authCache c) (c_store c) (c_retentionAutoCreate c) b.

(** [c.mu.Lock()] and [c.mu.RLock()] wait for as long as the mutex is held.
    Every operation gives it back when it returns, but for [SetData]. *)
Definition blocked : string := "waits for the mutex".
Definition locking {A} (c : Client) (r : Client * outcome A) : Client * outcome A :=
  if c_mu c then (c, Fail blocked) else r.

(** [ClusterID] is random. *)
Definition NewClient (clusterID : Z) (autoCreate : bool) (store : option pb_Data) : Client :=
  MkClient (MkData 0 1 clusterID [] [] false 0 0) ∅ store autoCreate false.

(** ** The store *)

Definition ErrStore : string := "store unavailable".
(** [ok] says that the store takes the write. *)
Definition snapshot (ok : bool) (d : Data) (s : option pb_Data) : outcome (option pb_Data) :=
  if ok then Ret (Some (marshal d)) else Fail ErrStore.
Definition load (c : Client) : Client :=
  match c_store c with Some pb => set_data c (unmarshal pb) (c_store c) | None => c end.
Definition Reload (c : Client) : Client * outcome unit := locking c (load c, Ret tt).

Definition Open (ok : bool) (c : Client) : Client * outcome unit := locking c (
  let c := load c in
  if d_Index (c_cacheData c) =? 1 then
    match snapshot ok (c_cacheData c) (c_store c) with
    | Ret s => (set_data c (c_cacheData c) s, Ret tt)
    | Fail e => (c, Fail e)
    | Panic => (c, Panic)
    end
  else (c, Ret tt)).

Definition commit (ok : bool) (c : Client) (data : Data) : Client * outcome unit :=
  let data := set_index data (u64 (d_Index data + 1)) in
  match snapshot ok data (c_store c) with
  | Ret s => (set_data c data s, Ret tt)
  | Fail e => (c, Fail e)
  | Panic => (c, Panic)
  end.

(** The operations that change a clone of the data and commit it. *)
Definition commit_result {A} (ok : bool) (c : Client) (o : outcome (Data * A)) : Client * outcome A :=
  match o with
  | Ret (d, a) => let '(c, r) := commit ok c d in (c, let! _ := r in Ret a)
  | Fail e => (c, Fail e)
  | Panic => (c, Panic)
  end.
Definition committing (ok : bool) (c : Client) (o : outcome Data) : Client * outcome unit :=
  commit_result ok c (let! d := o in Ret (d, tt)).

(** ** Databases and policies *)

Definition Client_Database (c : Client) (name : string) : option DatabaseInfo := Database (c_cacheData c) name.
Definition Databases (c : Client) : list DatabaseInfo := d_Databases (c_cacheData c).

Definition CreateDatabase (ok : bool) (c : Client) (name : string) : Client * outcome (option DatabaseInfo) := locking c (
  let data := c_cacheData c in
  match Database data name with
  | Some db => (c, Ret (Some db))
  | None =>
    commit_result ok c
      (let! data := Meta.CreateDatabase data name in
       let! data := (if c_retentionAutoCreate c then Meta.CreateRetentionPolicy data name (Some DefaultRetentionPolicyInfo) true else Ret data) in
       Ret (data, Database data name))
  end).

Definition CreateDatabaseWithRetentionPolicy (ok : bool) (c : Client) (name : string) (spec : option RetentionPolicySpec) : Client * outcome (option DatabaseInfo) :=
  match spec with
  | None => (c, Fail "CreateDatabaseWithRetentionPolicy called with nil spec")
  | Some spec =>
    locking c (commit_result ok c
      (if too_low (sp_Duration spec) then Fail ErrRetentionPolicyDurationTooLow
       else
         let data := c_cacheData c in
         let! data := match Database data name with None => Meta.CreateDatabase data name | Some _ => Ret data end in
         let! db := or_panic (Database data name) in
         let rpi := spec_info spec in
         let! data :=
           (if (length (db_RetentionPolicies db) =? 0)%nat then Meta.CreateRetentionPolicy data name (Some rpi) true
            else if negb (Matches spec (DB_RetentionPolicy db (rp_Name rpi))) then Fail ErrRetentionPolicyConflict
            else Ret data) in
         let! db := or_panic (Database data name) in
         if negb (String.eqb (db_DefaultRetentionPolicy db) (rp_Name rpi)) then Fail ErrRetentionPolicyConflict
         else Ret (data, Some db)))
  end.

Definition DropDatabase (ok : bool) (c : Client) (name : string) : Client * outcome unit := locking c (
  committing ok c (Ret (Meta.DropDatabase (c_cacheData c) name))).

Definition CreateRetentionPolicy (ok : bool) (c : Client) (database : string) (spec : RetentionPolicySpec) (makeDefault : bool) : Client * outcome RetentionPolicyInfo := locking c (
  commit_result ok c
    (if too_low (sp_Duration spec) then Fail ErrRetentionPolicyDurationTooLow
     else
       let rp := spec_info spec in
       let! data := Meta.CreateRetentionPolicy (c_cacheData c) database (Some rp) makeDefault in
       Ret (data, rp))).
Definition Client_RetentionPolicy (c : Client) (database name : string) : outcome (option RetentionPolicyInfo) :=
  match Database (c_cacheData c) database with
  | None => Fail (ErrDatabaseNotFound database)
  | Some db => Ret (DB_RetentionPolicy db name)
  end.
Definition DropRetentionPolicy (ok : bool) (c : Client) (database name : string) : Client * outcome unit := locking c (
  committing ok c (Ret (Meta.DropRetentionPolicy (c_cacheData c) database name))).
Definition UpdateRetentionPolicy (ok : bool) (c : Client) (database name : string) (rpu : RetentionPolicyUpdate) (makeDefault : bool) : Client * outcome unit := locking c (
  committing ok c (Meta.UpdateRetentionPolicy (c_cacheData c) database name rpu makeDefault)).

(** ** Shard groups *)

Definition ShardIDs (c : Client) : list Z := merge_sort Z.le (g ← all_groups (c_cacheData c); si_ID <$> sg_Shards g).
Definition Client_ShardGroupsByTimeRange (c : Client) (database policy : string) (min max : Z) : outcome (list ShardGroupInfo) :=
  ShardGroupsByTimeRange (c_cacheData c) database policy min max.

Definition DropShard (ok : bool) (now : Z) (c : Client) (id : Z) : Client * outcome unit := locking c (
  committing ok c (Ret (Meta.DropShard now (c_cacheData c) id))).
Definition TruncateShardGroups (ok : bool) (c : Client) (t : Z) : Client * outcome unit := locking c (
  committing ok c (Ret (Meta.TruncateShardGroups (c_cacheData c) t))).
Definition ShardGroupDeletedExpiration : Z := -2 * 7 * 24 * Hour.
Definition PruneShardGroups (ok : bool) (now : Z) (c : Client) : Client * outcome unit := locking c (
  let '(changed, data) := Meta.PruneShardGroups (c_cacheData c) (now + ShardGroupDeletedExpiration) in
  if changed then commit ok c data else (c, Ret tt)).

Definition createShardGroup (data : Data) (database policy : string) (timestamp : Z) (shards : list ShardInfo) : outcome (Data * option ShardGroupInfo) :=
  match ShardGroupByTimestamp data database policy timestamp with
  | Ret (Some _) => Fail ErrShardGroupExists
  | _ =>
    let! data := Meta.CreateShardGroup data database policy timestamp shards in
    let! rpi := RetentionPolicy data database policy in
    match rpi with
    | None => Fail "retention policy deleted after shard group created"
    | Some rpi => Ret (data, GroupByTimestamp rpi timestamp)
    end
  end.
(** The group is looked up again under the write lock; nothing changes in
    between here. *)
Definition CreateShardGroupWithShards (ok : bool) (c : Client) (database policy : string) (timestamp : Z) (shards : list ShardInfo) : Client * outcome (option ShardGroupInfo) := locking c (
  match ShardGroupByTimestamp (c_cacheData c) database policy timestamp with
  | Ret (Some sg) => (c, Ret (Some sg))
  | _ => commit_result ok c (createShardGroup (c_cacheData c) database policy timestamp shards)
  end).
Definition CreateShardGroup (ok : bool) (c : Client) (database policy : string) (timestamp : Z) : Client * outcome (option ShardGroupInfo) :=
  CreateShardGroupWithShards ok c database policy timestamp [].
Definition DeleteShardGroup (ok : bool) (now : Z) (c : Client) (database policy : string) (id : Z) : Client * outcome unit := locking c (
  committing ok c (Meta.DeleteShardGroup now (c_cacheData c) database policy id)).

(** One round of [PrecreateShardGroups]. *)
Definition precreate (from to : Z) (s : Data * bool) (p : string * RetentionPolicyInfo) : Data * bool :=
  match last (rp_ShardGroups p.2) with
  | None => s
  | Some g =>
    if negb (Deleted g) && (sg_EndTime g <? to) && (from <? sg_EndTime g) then
      let nextShardGroupTime := sg_EndTime g + 1 in
      match ShardGroupByTimestamp s.1 p.1 (rp_Name p.2) nextShardGroupTime with
      | Ret (Some _) => s
      | _ =>
        match createShardGroup s.1 p.1 (rp_Name p.2) nextShardGroupTime [] with
        | Ret (data, _) => (data, true)
        | _ => s
        end
      end
    else s
  end.
(** A policy is changed by its own round only, so the policies can be listed
    beforehand. *)
Definition policies (data : Data) : list (string * RetentionPolicyInfo) :=
  di ← d_Databases data; (fun rp => (db_Name di, rp)) <$> db_RetentionPolicies di.
Definition PrecreateShardGroups (ok : bool) (c : Client) (from to : Z) : Client * outcome unit := locking c (
  let '(data, changed) := foldl (precreate from to) (c_cacheData c, false) (policies (c_cacheData c)) in
  if changed then commit ok c data else (c, Ret tt)).

Fixpoint owner_of (id : Z) (ps : list (string * RetentionPolicyInfo)) : option (string * string * ShardGroupInfo) :=
  match ps with
  | [] => None
  | p :: ps =>
    match first (fun g => negb (Deleted g) && has_shard id g) (rp_ShardGroups p.2) with
    | Some g => Some (p.1, rp_Name p.2, g)
    | None => owner_of id ps
    end
  end.
Definition ShardOwner (c : Client) (shardID : Z) : option (string * string * ShardGroupInfo) := owner_of shardID (policies (c_cacheData c)).

(** When the commit fails it returns with the mutex held.  The clone shares the
    subscriptions with the data it is given, which is taken to be the client's
    from then on. *)
Definition SetData (ok : bool) (c : Client) (d : Data) : Client * outcome unit := locking c (
  match commit ok c d with
  | (c, Ret _) => (c, Ret tt)
  | (c, r) => (set_held c true, r)
  end).

(** ** Queries and subscriptions *)

Definition CreateContinuousQuery (ToLower : string -> string) (ok : bool) (c : Client) (database name query : string) : Client * outcome unit := locking c (
  committing ok c (Meta.CreateContinuousQuery ToLower (c_cacheData c) database name query)).
Definition DropContinuousQuery (ok : bool) (c : Client) (database name : string) : Client * outcome unit := locking c (
  committing ok c (Ret (Meta.DropContinuousQuery (c_cacheData c) database name))).
Definition CreateSubscription (Parse SplitHostPort : string -> option (string * string)) (ok : bool) (c : Client)
    (database rp name mode : string) (destinations : list string) : Client * outcome unit := locking c (
  committing ok c (Meta.CreateSubscription Parse SplitHostPort (c_cacheData c) database rp name mode destinations)).
(** [append(s[:i], s[i+1:]...)] moves the subscriptions behind the first of that
    name in the array that the cached policy shares: the cached slice keeps its
    length, and its last element is there twice. *)
Definition shifted (name : string) (ss : list SubscriptionInfo) : list SubscriptionInfo :=
  match first (named_sub name) ss, last ss with
  | Some _, Some l => drop_first (named_sub name) ss ++ [l]
  | _, _ => ss
  end.
Definition shift_subscriptions (data : Data) (database rp name : string) : Data :=
  set_policy data database rp (fun rpi => set_subscriptions rpi (shifted name (rp_Subscriptions rpi))).
(** The clone is committed after the cached data was changed. *)
Definition DropSubscription (ok : bool) (c : Client) (database rp name : string) : Client * outcome unit := locking c (
  match Meta.DropSubscription (c_cacheData c) database rp name with
  | Ret data => commit ok (set_data c (shift_subscriptions (c_cacheData c) database rp name) (c_store c)) data
  | Fail e => (c, Fail e)
  | Panic => (c, Panic)
  end).

(** ** Users *)

(** bcrypt and SHA-256 are not in the repository. *)
Class Hashing := {
  GenerateFromPassword : string -> outcome string;
  CompareHashAndPassword : string -> string -> bool;
  sha256 : string -> string }.

Section Users.
Context `{H : Hashing}.

Definition hashWithSalt (salt password : string) : string := sha256 (salt +:+ password).

Definition CreateUser (ok : bool) (c : Client) (name password : string) (admin : bool) : Client * outcome (option UserInfo) := locking c (
  let data := c_cacheData c in
  match user data name with
  | Some u =>
    if negb (CompareHashAndPassword (u_Hash u) password) || negb (Bool.eqb (u_Admin u) admin) then (c, Fail ErrUserExists) else (c, Ret (Some u))
  | None =>
    commit_result ok c
      (let! hash := GenerateFromPassword password in
       let! data := Meta.CreateUser data name hash admin in
       Ret (data, user data name))
  end).

(** The cached password is forgotten before the commit. *)
Definition UpdateUser (ok : bool) (c : Client) (name password : string) : Client * outcome unit := locking c (
  match (let! hash := GenerateFromPassword password in Meta.UpdateUser (c_cacheData c) name hash) with
  | Ret data => commit ok (set_auth c (delete name (c_authCache c))) data
  | Fail e => (c, Fail e)
  | Panic => (c, Panic)
  end).

Definition DropUser (ok : bool) (c : Client) (name : string) : Client * outcome unit := locking c (
  committing ok c (Meta.DropUser (c_cacheData c) name)).
Definition SetPrivilege (ok : bool) (c : Client) (username database : string) (p : Z) : Client * outcome unit := locking c (
  committing ok c (Meta.SetPrivilege (c_cacheData c) username database p)).
Definition SetAdminPrivilege (ok : bool) (c : Client) (username : string) (admin : bool) : Client * outcome unit := locking c (
  committing ok c (Meta.SetAdminPrivilege (c_cacheData c) username admin)).

(** [Authenticate] locks only for each access: what it reads first, and what
    it does with it later.  [salt] is what the random source delivers; that the
    source fails is left out. *)
Definition auth_read (c : Client) (username : string) : outcome (UserInfo * option authUser) :=
  match user (c_cacheData c) username with
  | None => Fail ErrUserNotFound
  | Some u => Ret (u, c_authCache c !! username)
  end.
Definition auth_check (salt : string) (username password : string) (r : UserInfo * option authUser) : outcome (option authUser) :=
  if match r.2 with Some au => String.eqb (hashWithSalt (au_salt au) password) (au_hash au) | None => false end then Ret None
  else if negb (CompareHashAndPassword (u_Hash r.1) password) then Fail ErrAuthenticate
  else Ret (Some (MkAuth (u_Hash r.1) salt (hashWithSalt salt password))).
Definition auth_store (c : Client) (username : string) (au : option authUser) : Client :=
  match au with Some au => set_auth c (<[username := au]> (c_authCache c)) | None => c end.
Definition Authenticate (salt : string) (c : Client) (username password : string) : Client * outcome UserInfo := locking c (
  match auth_read c username with
  | Ret r =>
    match auth_check salt username password r with
    | Ret au => (auth_store c username au, Ret r.1)
    | Fail e => (c, Fail e)
    | Panic => (c, Panic)
    end
  | Fail e => (c, Fail e)
  | Panic => (c, Panic)
  end).
End Users.

(** ** Sequences of operations *)

Section Runs.
Context `{H : Hashing}.

Inductive cop :=
  | KCreateDatabase (name : string)
  | KCreateDatabaseWithRetentionPolicy (name : string) (spec : option RetentionPolicySpec)
  | KDropDatabase (name : string)
  | KCreateRetentionPolicy (db : string) (spec : RetentionPolicySpec) (makeDefault : bool)
  | KDropRetentionPolicy (db name : string)
  | KUpdateRetentionPolicy (db name : string) (rpu : RetentionPolicyUpdate) (makeDefault : bool)
  | KDropShard (now id : Z)
  | KTruncateShardGroups (t : Z)
  | KPruneShardGroups (now : Z)
  | KCreateShardGroup (db rp : string) (timestamp : Z) (shards : list ShardInfo)
  | KDeleteShardGroup (now : Z) (db rp : string) (id : Z)
  | KPrecreateShardGroups (from to : Z)
  | KCreateContinuousQuery (ToLower : string -> string) (db name query : string)
  | KDropContinuousQuery (db name : string)
  | KCreateSubscription (Parse SplitHostPort : string -> option (string * string)) (db rp name mode : string) (ds : list string)
  | KDropSubscription (db rp name : string)
  | KCreateUser (name password : string) (admin : bool)
  | KUpdateUser (name password : string)
  | KDropUser (name : string)
  | KSetPrivilege (name db : string) (p : Z)
  | KSetAdminPrivilege (name : string) (admin : bool)
  | KAuthenticate (salt name password : string)
  | KSetData (d : Data).

(** The client afterwards, and whether the operation succeeded. *)
Definition ended {A} (r : Client * outcome A) : Client * bool := (r.1, match r.2 with Ret _ => true | _ => false end).

Definition kexec (ok : bool) (o : cop) (c : Client) : Client * bool :=
  match o with
  | KCreateDatabase n => ended (CreateDatabase ok c n)
  | KCreateDatabaseWithRetentionPolicy n spec => ended (CreateDatabaseWithRetentionPolicy ok c n spec)
  | KDropDatabase n => ended (DropDatabase ok c n)
  | KCreateRetentionPolicy db spec mk => ended (CreateRetentionPolicy ok c db spec mk)
  | KDropRetentionPolicy db n => ended (DropRetentionPolicy ok c db n)
  | KUpdateRetentionPolicy db n rpu mk => ended (UpdateRetentionPolicy ok c db n rpu mk)
  | KDropShard now id => ended (DropShard ok now c id)
  | KTruncateShardGroups t => ended (TruncateShardGroups ok c t)
  | KPruneShardGroups now => ended (PruneShardGroups ok now c)
  | KCreateShardGroup db rp ts ss => ended (CreateShardGroupWithShards ok c db rp ts ss)
  | KDeleteShardGroup now db rp id => ended (DeleteShardGroup ok now c db rp id)
  | KPrecreateShardGroups from to => ended (PrecreateShardGroups ok c from to)
  | KCreateContinuousQuery tl db n q => ended (CreateContinuousQuery tl ok c db n q)
  | KDropContinuousQuery db n => ended (DropContinuousQuery ok c db n)
  | KCreateSubscription ps sp db rp n m ds => ended (CreateSubscription ps sp ok c db rp n m ds)
  | KDropSubscription db rp n => ended (DropSubscription ok c db rp n)
  | KCreateUser n p a => ended (CreateUser ok c n p a)
  | KUpdateUser n p => ended (UpdateUser ok c n p)
  | KDropUser n => ended (DropUser ok c n)
  | KSetPrivilege n db p => ended (SetPrivilege ok c n db p)
  | KSetAdminPrivilege n a => ended (SetAdminPrivilege ok c n a)
  | KAuthenticate salt n p => ended (Authenticate salt c n p)
  | KSetData d => ended (SetData ok c d)
  end.
Definition kexec_all (os : list (bool * cop)) (c : Client) : Client := foldl (fun c o => (kexec o.1 o.2 c).1) c os.

(** What an operation may leave: nothing changed, or new data in the cache and
    in the store, whether or not cached passwords changed. *)
Inductive moved (P : Data -> Prop) (c c' : Client) (success : bool) : Prop :=
  | moved_not : c_cacheData c' = c_cacheData c -> c_store c' = c_store c -> moved P c c' success
  | moved_to d : P d -> success = true -> c_cacheData c' = set_index d (u64 (d_Index d + 1)) ->
      c_store c' = Some (marshal (c_cacheData c')) -> moved P c c' success.

Lemma commit_moved (P : Data -> Prop) ok c0 c d :
  c_cacheData c = c_cacheData c0 -> c_store c = c_store c0 -> P d -> moved P c0 (ended (commit ok c d)).1 (ended (commit ok c d)).2.
Proof.
  intros E1 E2 Hd. unfold commit, snapshot. destruct ok; cbn; [eapply moved_to; [exact Hd|done..]|by apply moved_not].
Qed.
Lemma commit_result_moved {A} (P : Data -> Prop) ok c (o : outcome (Data * A)) :
  (forall d a, o = Ret (d, a) -> P d) -> moved P c (ended (commit_result ok c o)).1 (ended (commit_result ok c o)).2.
Proof.
  intros Ho. unfold commit_result. destruct o as [[d a]|?|]; [|by apply moved_not..]. pose proof (commit_moved P ok c c d eq_refl eq_refl (Ho d a eq_refl)) as Hc.
  destruct (commit ok c d) as [c' []]; cbn in *; done.
Qed.
Lemma committing_moved (P : Data -> Prop) ok c o :
  (forall d, o = Ret d -> P d) -> moved P c (ended (committing ok c o)).1 (ended (committing ok c o)).2.
Proof. intros Ho. apply commit_result_moved. intros d a E. destruct o as [d'|?|]; [|done..]. injection E as <- <-. by apply Ho. Qed.

Lemma locking_moved {A} (P : Data -> Prop) c (r : Client * outcome A) :
  moved P c (ended r).1 (ended r).2 -> moved P c (ended (locking c r)).1 (ended (locking c r)).2.
Proof. intros Hr. unfold locking. destruct (c_mu c); [by apply moved_not|done]. Qed.
Lemma SetData_moved (P : Data -> Prop) ok c d : P d -> moved P c (ended (SetData ok c d)).1 (ended (SetData ok c d)).2.
Proof.
  intros Hd. apply locking_moved. unfold commit, snapshot. destruct ok; cbn; [eapply moved_to; [exact Hd|done..]|by apply moved_not].
Qed.
(** A dropped subscription is committed, or the cached array is left changed. *)
Lemma DropSubscription_moved (P : Data -> Prop) ok c db rp n :
  (forall d, Meta.DropSubscription (c_cacheData c) db rp n = Ret d -> P d) ->
  let r := ended (DropSubscription ok c db rp n) in
  moved P c r.1 r.2 \/ r.2 = false /\ ok = false /\ c_cacheData r.1 = shift_subscriptions (c_cacheData c) db rp n /\ c_store r.1 = c_store c.
Proof.
  intros Hd. unfold DropSubscription, locking. destruct (c_mu c); [left; by apply moved_not|].
  destruct (Meta.DropSubscription _ _ _ _) as [d|?|]; [|left; by apply moved_not..]. unfold commit, snapshot. destruct ok; cbn; [left|by right].
  eapply moved_to; [by apply Hd|done..].
Qed.

Definition not_drop (o : cop) : Prop := match o with KDropSubscription _ _ _ => False | _ => True end.
Definition kop_ok (o : cop) : Prop :=
  match o with
  | KCreateDatabaseWithRetentionPolicy _ (Some spec) => sp_ShardGroupDuration spec < 2 ^ 63
  | KCreateRetentionPolicy _ spec _ => sp_ShardGroupDuration spec < 2 ^ 63
  | KUpdateRetentionPolicy db n rpu mk => op_ok (OUpdateRetentionPolicy db n rpu mk)
  | KTruncateShardGroups t => op_ok (OTruncateShardGroups t)
  | KCreateShardGroup db rp ts ss => op_ok (OCreateShardGroup db rp ts ss)
  | KDeleteShardGroup now db rp id => op_ok (ODeleteShardGroup now db rp id)
  | KPrecreateShardGroups from to => in_nano from /\ in_nano to
  | KSetData d => data_ok d
  | _ => True
  end.

Lemma kept d o d' : data_ok (keep d o) -> o = Ret d' -> data_ok d'.
Proof. by intros Hk ->. Qed.

Lemma default_policy_ok d n : data_ok d -> data_ok (keep d (Meta.CreateRetentionPolicy d n (Some DefaultRetentionPolicyInfo) true)).
Proof. intros Hd. apply CreateRetentionPolicy_ok; [done|]. intros r [= <-]. split; [by vm_compute|apply groups_ok_nil]. Qed.
Lemma spec_policy_ok d n spec mk : sp_ShardGroupDuration spec < 2 ^ 63 -> data_ok d -> data_ok (keep d (Meta.CreateRetentionPolicy d n (Some (spec_info spec)) mk)).
Proof.
  intros Hs Hd. apply CreateRetentionPolicy_ok; [done|]. intros r [= <-]. split; [|apply groups_ok_nil]. cbn.
  by apply NormalisedShardDuration_ok.
Qed.

Lemma createShardGroup_ok d db rp ts ss d' g : in_nano ts -> data_ok d -> createShardGroup d db rp ts ss = Ret (d', g) -> data_ok d'.
Proof.
  intros Ht Hd. unfold createShardGroup. pose proof (CreateShardGroup_ok d db rp ts ss Ht Hd) as Hk.
  assert (Hmain : (let! data := Meta.CreateShardGroup d db rp ts ss in let! rpi := RetentionPolicy data db rp in
    match rpi with None => Fail "retention policy deleted after shard group created" | Some rpi => Ret (data, GroupByTimestamp rpi ts) end) = Ret (d', g) -> data_ok d').
  { destruct (Meta.CreateShardGroup d db rp ts ss) as [d1|?|]; cbn [obind keep] in *; try done. destruct (RetentionPolicy d1 db rp) as [[r|]|?|]; cbn [obind]; try done.
    by intros [= <- _]. }
  destruct (ShardGroupByTimestamp d db rp ts) as [[?|]|?|]; done.
Qed.

Lemma precreate_ok from to s p : in_nano from -> in_nano to -> data_ok s.1 -> data_ok (precreate from to s p).1.
Proof.
  intros Hf Ht Hs. unfold precreate. destruct (last _) as [g|]; [|done]. destruct (negb _ && _ && _) eqn:E; [|done]. cbv zeta.
  apply andb_true_iff in E as [E E3]. apply andb_true_iff in E as [E1 E2].
  assert (Hn : in_nano (sg_EndTime g + 1)) by (unfold in_nano in *; lia).
  destruct (createShardGroup _ _ _ _ _) as [[d' g']|?|] eqn:Ec; [|by destruct (ShardGroupByTimestamp _ _ _ _) as [[?|]|?|]..].
  pose proof (createShardGroup_ok _ _ _ _ _ _ _ Hn Hs Ec). by destruct (ShardGroupByTimestamp _ _ _ _) as [[?|]|?|].
Qed.

Lemma kexec_moved ok o c : not_drop o -> kop_ok o -> data_ok (c_cacheData c) -> moved data_ok c (kexec ok o c).1 (kexec ok o c).2.
Proof.
  intros Hn Ho Hd. destruct o; cbn [kexec kop_ok not_drop] in *; try done;
    try (apply locking_moved, committing_moved; intros d' E; first [injection E as <-|eapply kept; [|exact E]]).
  - apply locking_moved. cbv zeta. destruct (Database _ _); [by apply moved_not|]. apply commit_result_moved. intros d a.
    pose proof (CreateDatabase_ok _ name Hd) as Hk. destruct (Meta.CreateDatabase _ _) as [d1|?|]; cbn [obind keep] in *; try done.
    destruct (c_retentionAutoCreate c); [|by intros [= <- _]]. pose proof (default_policy_ok d1 name Hk) as Hp.
    destruct (Meta.CreateRetentionPolicy _ _ _ _); cbn [obind keep] in *; try done. by intros [= <- _].
  - unfold CreateDatabaseWithRetentionPolicy. destruct spec as [spec|]; [|by apply moved_not]. apply locking_moved, commit_result_moved. intros d a.
    destruct (too_low _); [done|]. cbv zeta.
    assert (Hd1 : forall d1, match Database (c_cacheData c) name with None => Meta.CreateDatabase (c_cacheData c) name | Some _ => Ret (c_cacheData c) end = Ret d1 -> data_ok d1).
    { intros d1. destruct (Database _ _); [by intros [= <-]|]. intros E. eapply kept; [|exact E]. by apply CreateDatabase_ok. }
    destruct (match Database (c_cacheData c) name with None => _ | Some _ => _ end) as [d1|?|]; cbn [obind]; try done. specialize (Hd1 d1 eq_refl).
    destruct (Database d1 name) as [db|]; cbn [obind or_panic]; [|done]. pose proof (spec_policy_ok d1 name spec true Ho Hd1) as Hp.
    assert (Hd2 : forall d2, (if (length (db_RetentionPolicies db) =? 0)%nat then Meta.CreateRetentionPolicy d1 name (Some (spec_info spec)) true
      else if negb (Matches spec (DB_RetentionPolicy db (rp_Name (spec_info spec)))) then Fail ErrRetentionPolicyConflict else Ret d1) = Ret d2 -> data_ok d2).
    { intros d2. destruct (_ =? 0)%nat; [intros E; rewrite E in Hp; done|]. destruct (negb _); [done|]. by intros [= <-]. }
    destruct (if (length (db_RetentionPolicies db) =? 0)%nat then _ else _) as [d2|?|]; cbn [obind]; try done. specialize (Hd2 d2 eq_refl).
    destruct (Database d2 name) as [db2|]; cbn [obind or_panic]; [|done]. destruct (negb _); [done|]. by intros [= <- _].
  - by apply DropDatabase_ok.
  - apply locking_moved, commit_result_moved. intros d a. destruct (too_low _); [done|]. cbv zeta. pose proof (spec_policy_ok _ db spec makeDefault Ho Hd) as Hp.
    destruct (Meta.CreateRetentionPolicy _ _ _ _); cbn [obind keep] in *; try done. by intros [= <- _].
  - by apply DropRetentionPolicy_ok.
  - destruct Ho. by apply UpdateRetentionPolicy_ok.
  - by apply DropShard_ok.
  - by apply TruncateShardGroups_ok.
  - apply locking_moved. cbv zeta. pose proof (PruneShardGroups_ok (c_cacheData c) (now + ShardGroupDeletedExpiration) Hd) as Hp.
    destruct (Meta.PruneShardGroups _ _) as [[] d']; [|by apply moved_not]. by apply commit_moved.
  - apply locking_moved. cbv zeta. assert (Hm : forall r, createShardGroup (c_cacheData c) db rp timestamp shards = r ->
      moved data_ok c (ended (commit_result ok c r)).1 (ended (commit_result ok c r)).2).
    { intros r Er. apply commit_result_moved. intros d a ->. by eapply createShardGroup_ok. }
    destruct (ShardGroupByTimestamp _ _ _ _) as [[?|]|?|]; [by apply moved_not|by apply Hm..].
  - by apply DeleteShardGroup_ok.
  - apply locking_moved. cbv zeta. assert (Hp : data_ok (foldl (precreate from to) (c_cacheData c, false) (policies (c_cacheData c))).1).
    { destruct Ho as [H1 H2]. assert (Hg : forall ps s, data_ok s.1 -> data_ok (foldl (precreate from to) s ps).1); [|by apply Hg].
      induction ps as [|p ps IH]; intros s Hs; [done|]. cbn. apply IH. by apply precreate_ok. }
    destruct (foldl _ _ _) as [d' []]; [by apply commit_moved|by apply moved_not].
  - by apply CreateContinuousQuery_ok.
  - by apply DropContinuousQuery_ok.
  - by apply CreateSubscription_ok.
  - apply locking_moved. cbv zeta. destruct (user _ _); [destruct (_ || _); by apply moved_not|]. apply commit_result_moved. intros d a.
    destruct (GenerateFromPassword password) as [h|?|]; cbn [obind]; try done. pose proof (meta_CreateUser_ok _ name h admin Hd) as Hk.
    destruct (Meta.CreateUser _ _ _ _); cbn [obind keep] in *; try done. by intros [= <- _].
  - apply locking_moved. cbv zeta. destruct (GenerateFromPassword password) as [h|?|]; cbn [obind]; [|by apply moved_not..]. pose proof (meta_UpdateUser_ok _ name h Hd) as Hk.
    destruct (Meta.UpdateUser _ _ _); cbn [keep] in *; [|by apply moved_not..]. by apply commit_moved.
  - by apply DropUser_ok.
  - by apply SetPrivilege_ok.
  - by apply SetAdminPrivilege_ok.
  - apply locking_moved. cbv zeta. destruct (auth_read _ _) as [r|?|]; [|by apply moved_not..]. destruct (auth_check _ _ _ _) as [[?|]|?|]; by apply moved_not.
  - by apply SetData_moved.
Qed.

(** The metadata without the subscriptions. *)
Definition unsubscribed (d : Data) : Data :=
  set_databases d ((fun di => set_policies di ((fun rp => set_subscriptions rp []) <$> db_RetentionPolicies di)) <$> d_Databases d).
Lemma shift_unsubscribed d db rp n : unsubscribed (shift_subscriptions d db rp n) = unsubscribed d.
Proof.
  unfold unsubscribed, shift_subscriptions, set_policy, set_database. f_equal. cbn [d_Databases set_databases].
  induction (d_Databases d) as [|di dbs IH]; [done|]. cbn [change]. destruct (named_db db di); cbn [fmap list_fmap]; [|by f_equal]. f_equal. unfold set_policies. cbn. f_equal.
  induction (db_RetentionPolicies di) as [|r rps IHr]; [done|]. cbn [change]. destruct (named_rp rp r); cbn [fmap list_fmap]; [done|by f_equal].
Qed.
Lemma shift_ok d db rp n : data_ok d -> data_ok (shift_subscriptions d db rp n).
Proof. intros Hd. apply set_policy_ok; [done|done|]. intros r _ [P1 P2 P3]. by split. Qed.

(** The store holds what was committed last: [d]. *)
Record client_inv (c : Client) (d : Data) : Prop := {
  ci_cache : data_ok (c_cacheData c);
  ci_data : data_ok d;
  ci_store : c_store c = Some (marshal d);
  ci_same : unsubscribed d = unsubscribed (c_cacheData c) }.
Definition no_failed_drop (os : list (bool * cop)) : Prop := Forall (fun o => o.1 = true \/ not_drop o.2) os.
Definition no_failed_SetData (os : list (bool * cop)) : Prop := Forall (fun o => match o with (false, KSetData _) => False | _ => True end) os.

Lemma set_index_ok d i : data_ok d -> data_ok (set_index d i).
Proof. intros [O1 O2 O3 O4 O5]. by split. Qed.
(** What an operation of any kind leaves. *)
Lemma kexec_cases ok o c : kop_ok o -> data_ok (c_cacheData c) ->
  moved data_ok c (kexec ok o c).1 (kexec ok o c).2 \/
  (kexec ok o c).2 = false /\ ok = false /\ c_store (kexec ok o c).1 = c_store c /\
  exists db rp n, o = KDropSubscription db rp n /\ c_cacheData (kexec ok o c).1 = shift_subscriptions (c_cacheData c) db rp n.
Proof.
  intros Ho Hd. destruct (match o with KDropSubscription _ _ _ => true | _ => false end) eqn:E; [|left; apply kexec_moved; [by destruct o|done..]].
  destruct o; try done. destruct (DropSubscription_moved data_ok ok c db rp name) as [Hm|(H1 & H2 & H3 & H4)]; [|by left|right; split_and!; [done..|by eauto]].
  intros d E'. eapply kept; [|exact E']. by apply DropSubscription_ok.
Qed.
Lemma kexec_inv ok o c d : kop_ok o -> client_inv c d ->
  exists d', client_inv (kexec ok o c).1 d' /\ (ok = true \/ not_drop o -> d = c_cacheData c -> d' = c_cacheData (kexec ok o c).1).
Proof.
  intros Ho [I1 I2 I3 I4]. destruct (kexec_cases ok o c Ho I1) as [[E1 E2|d' Hd' _ E1 E2]|(_ & -> & E2 & db & rp & n & -> & E1)].
  - exists d. split; [split; rewrite ?E1, ?E2; done|]. by rewrite E1.
  - exists (c_cacheData (kexec ok o c).1). assert (Hi : data_ok (c_cacheData (kexec ok o c).1)) by (rewrite E1; by apply set_index_ok). by split; [split|].
  - exists d. split; [split; rewrite ?E1, ?E2; [by apply shift_ok|done..|by rewrite shift_unsubscribed]|]. by intros [|[]].
Qed.
Lemma kexec_all_inv os c d : Forall (fun o => kop_ok o.2) os -> client_inv c d ->
  exists d', client_inv (kexec_all os c) d' /\ (no_failed_drop os -> d = c_cacheData c -> d' = c_cacheData (kexec_all os c)).
Proof.
  intros Ho. revert c d. induction Ho as [|o os Ho _ IH]; intros c d Hc; [by exists d|]. destruct (kexec_inv o.1 o.2 c d Ho Hc) as (d1 & H1 & E1).
  destruct (IH _ _ H1) as (d2 & H2 & E2). exists d2. split; [exact H2|]. intros Hn Hd. apply Forall_cons_1 in Hn as [Hn Hns]. by apply E2, E1.
Qed.

(** Only [SetData] changes the mutex. *)
Lemma commit_mu ok c d : c_mu (commit ok c d).1 = c_mu c.
Proof. unfold commit, snapshot. by destruct ok. Qed.
Lemma commit_result_mu {A} ok c (o : outcome (Data * A)) : c_mu (commit_result ok c o).1 = c_mu c.
Proof. unfold commit_result. destruct o as [[d a]|?|]; [|done..]. pose proof (commit_mu ok c d). by destruct (commit ok c d). Qed.
Lemma locking_mu {A} c (r : Client * outcome A) : (c_mu r.1 = c_mu c) -> c_mu (locking c r).1 = c_mu c.
Proof. unfold locking. by destruct (c_mu c) eqn:E. Qed.
Lemma kexec_mu ok o c : match ok, o with false, KSetData _ => False | _, _ => True end -> c_mu (kexec ok o c).1 = c_mu c.
Proof.
  intros Ho. destruct o; cbn [kexec ended fst]; try (apply locking_mu, commit_result_mu).
  - apply locking_mu. cbv zeta. destruct (Database _ _); [done|apply commit_result_mu].
  - unfold CreateDatabaseWithRetentionPolicy. destruct spec; [apply locking_mu, commit_result_mu|done].
  - apply locking_mu. cbv zeta. destruct (Meta.PruneShardGroups _ _) as [[] ?]; [apply commit_mu|done].
  - apply locking_mu. cbv zeta. destruct (ShardGroupByTimestamp _ _ _ _) as [[?|]|?|]; [done|apply commit_result_mu..].
  - apply locking_mu. cbv zeta. destruct (foldl _ _ _) as [? []]; [apply commit_mu|done].
  - apply locking_mu. cbv zeta. destruct (Meta.DropSubscription _ _ _ _); [etrans; [apply commit_mu|done]|done..].
  - apply locking_mu. cbv zeta. destruct (user _ _); [by destruct (_ || _)|apply commit_result_mu].
  - apply locking_mu. cbv zeta. destruct (obind _ _); [etrans; [apply commit_mu|done]|done..].
  - apply locking_mu. cbv zeta. destruct (auth_read _ _); [|done..]. destruct (auth_check _ _ _ _) as [[?|]|?|]; done.
  - apply locking_mu. cbv zeta. destruct ok; [|done]. done.
Qed.
Lemma kexec_all_mu os c : no_failed_SetData os -> c_mu (kexec_all os c) = c_mu c.
Proof.
  intros Ho. revert c. induction Ho as [|[ok o] os Ho _ IH]; intros c; [done|]. cbn. etrans; [apply IH|]. apply kexec_mu. by destruct ok, o.
Qed.

(** A client opened on an empty store. *)
Definition fresh_client (clusterID : Z) (autoCreate : bool) : Client := (Open true (NewClient clusterID autoCreate None)).1.
Lemma fresh_inv clusterID autoCreate : client_inv (fresh_client clusterID autoCreate) (c_cacheData (fresh_client clusterID autoCreate)).
Proof.
  assert (Hd : data_ok (c_cacheData (fresh_client clusterID autoCreate))) by (cbn; split; cbn; try apply NoDup_nil_2; try apply Forall_nil_2; done).
  by split.
Qed.

(** C35. The client never loses what it acknowledged.  After any operations,
    one at a time and with any of the writes to the store failing, the store
    holds consistent metadata [d], that of the last commit; the cached
    metadata is consistent too and equals [d], except that the lists of
    subscriptions may differ after a [DropSubscription] whose write failed.  A
    client opened on that store continues with [d], as long as [d] fits the
    messages.  An operation that succeeds leaves its result in the store, or
    changed nothing; one that fails leaves the store as it was, and the cached
    metadata too, except that a failed [DropSubscription] has moved the
    subscriptions in the cache.  Unless a write of [SetData] failed, the mutex
    is free.  The operations satisfy [kop_ok]: shard group durations are below
    2^63, policies are not renamed to the empty name, the times given for new,
    deleted and truncated groups are in range, and data given to [SetData] is
    consistent. *)
Theorem client_durable (clusterID : Z) (autoCreate : bool) (os : list (bool * cop)) :
  Forall (fun o => kop_ok o.2) os ->
  let c := kexec_all os (fresh_client clusterID autoCreate) in
  data_ok (c_cacheData c) /\
  (exists d, data_ok d /\ c_store c = Some (marshal d) /\
    unsubscribed d = unsubscribed (c_cacheData c) /\ (no_failed_drop os -> d = c_cacheData c) /\
    (data_wire d -> forall id auto ok, c_cacheData (Open ok (NewClient id auto (c_store c))).1 = d)) /\
  (forall ok o, kop_ok o -> let r := kexec ok o c in
    if r.2 then c_cacheData r.1 = c_cacheData c /\ c_store r.1 = c_store c \/ c_store r.1 = Some (marshal (c_cacheData r.1))
    else c_store r.1 = c_store c /\
      (c_cacheData r.1 = c_cacheData c \/
       exists db rp n, o = KDropSubscription db rp n /\ c_cacheData r.1 = shift_subscriptions (c_cacheData c) db rp n)) /\
  (no_failed_SetData os -> c_mu c = false).
Proof.
  intros Ho c. destruct (kexec_all_inv os _ _ Ho (fresh_inv clusterID autoCreate)) as (d & [I1 I2 I3 I4] & Hn). fold c in I1, I3, I4, Hn.
  split; [done|]. split; [exists d; split_and!; try done|split].
  - intros Hdrop. by apply Hn.
  - intros Hw id auto ok. rewrite I3. unfold Open, locking, load, NewClient, snapshot. cbn [c_mu c_store set_data c_cacheData]. rewrite (data_roundtrip _ Hw).
    destruct (_ =? 1); [|done]. by destruct ok.
  - intros ok o Hk. destruct (kexec_cases ok o c Hk I1) as [[E1 E2|d' _ Hsuc E1 E2]|(E0 & _ & E2 & Hx)]; cbv zeta.
    + destruct (kexec ok o c).2; auto.
    + rewrite Hsuc. by right.
    + rewrite E0. auto.
  - intros Hs. unfold c. by rewrite kexec_all_mu.
Qed.

(** ** Passwords *)

(** The hash of every user in one list of users is the hash in the other. *)
Definition keeps_hashes (d d' : Data) : Prop := forall n u, user d n = Some u -> exists u', user d' n = Some u' /\ u_Hash u' = u_Hash u.

Lemma same_users_keep d d' : d_Users d' = d_Users d -> keeps_hashes d d'.
Proof. intros E n u Hu. exists u. unfold user in *. by rewrite E. Qed.
Lemma keeps_trans d1 d2 d3 : keeps_hashes d1 d2 -> keeps_hashes d2 d3 -> keeps_hashes d1 d3.
Proof. intros H1 H2 n u Hu. destruct (H1 n u Hu) as (u1 & E1 & <-). destruct (H2 n u1 E1) as (u2 & E2 & <-). by exists u2. Qed.

(** Changing users without their names and hashes. *)
Lemma fmap_keeps d d' f : d_Users d' = f <$> d_Users d -> (forall u, u_Name (f u) = u_Name u /\ u_Hash (f u) = u_Hash u) -> keeps_hashes d d'.
Proof.
  intros E Hf n u. unfold user. rewrite E. clear E. induction (d_Users d) as [|x us IH]; [done|]. cbn. unfold named_user in *. destruct (Hf x) as [-> Hx].
  destruct (String.eqb _ _); [|done]. intros [= <-]. by eexists.
Qed.
Lemma change_keeps d d' m f : d_Users d' = change (named_user m) f (d_Users d) -> (forall u, u_Name (f u) = u_Name u /\ u_Hash (f u) = u_Hash u) -> keeps_hashes d d'.
Proof.
  intros E Hf n u. unfold user. rewrite E. clear E. induction (d_Users d) as [|x us IH]; [done|]. cbn. unfold named_user in *. destruct (Hf x) as [E1 E2].
  destruct (String.eqb_spec (u_Name x) m) as [_|Hm]; cbn; rewrite ?E1.
  - destruct (String.eqb _ _); [intros [= <-]; by eexists|]. intros Hu. by exists u.
  - destruct (String.eqb _ _); [|done]. intros [= <-]. by eexists.
Qed.
Lemma app_keeps d d' us : d_Users d' = d_Users d ++ us -> keeps_hashes d d'.
Proof.
  intros E n u. unfold user. rewrite E. clear E. induction (d_Users d) as [|x l IH]; [done|]. cbn. destruct (named_user n x); [|done]. intros [= <-]. by eexists.
Qed.

Lemma CreateShardGroup_users d db rp ts ss d' : Meta.CreateShardGroup d db rp ts ss = Ret d' -> d_Users d' = d_Users d.
Proof.
  unfold Meta.CreateShardGroup. destruct (find_policy d db rp); cbn [obind]; try done. destruct (GroupByTimestamp _ _); [by intros [= <-]|].
  destruct (new_range _ _) as [st en]. destruct (match ss with [] => _ | _ => _ end) as [ss' sm]. by intros [= <-].
Qed.
Lemma createShardGroup_users d db rp ts ss d' g : createShardGroup d db rp ts ss = Ret (d', g) -> d_Users d' = d_Users d.
Proof.
  unfold createShardGroup. destruct (Meta.CreateShardGroup d db rp ts ss) as [d1|?|] eqn:E; cbn [obind]; [|by destruct (ShardGroupByTimestamp d db rp ts) as [[?|]|?|]..].
  rewrite <- (CreateShardGroup_users _ _ _ _ _ _ E). destruct (RetentionPolicy d1 db rp) as [[r|]|?|]; cbn [obind];
    destruct (ShardGroupByTimestamp d db rp ts) as [[?|]|?|]; try done; by intros [= <- _].
Qed.
Lemma CreateDatabase_users d n d' : Meta.CreateDatabase d n = Ret d' -> d_Users d' = d_Users d.
Proof. unfold Meta.CreateDatabase. repeat case_match; by intros [= <-]. Qed.
Lemma CreateRetentionPolicy_users d db r mk d' : Meta.CreateRetentionPolicy d db r mk = Ret d' -> d_Users d' = d_Users d.
Proof. unfold Meta.CreateRetentionPolicy. repeat case_match; try done; by intros [= <-]. Qed.
Lemma UpdateRetentionPolicy_users d db n rpu mk d' : Meta.UpdateRetentionPolicy d db n rpu mk = Ret d' -> d_Users d' = d_Users d.
Proof.
  unfold Meta.UpdateRetentionPolicy. destruct (Database d db); [|done]. destruct (DB_RetentionPolicy _ _); [|done]. destruct (match rpu_Name rpu with Some _ => _ | None => _ end); [done|].
  destruct (too_low _); [done|]. destruct (incompatible _ _); [done|]. by intros [= <-].
Qed.
Lemma precreate_users from to s p : d_Users (precreate from to s p).1 = d_Users s.1.
Proof.
  unfold precreate. destruct (last _) as [g|]; [|done]. destruct (negb _ && _ && _); [|done]. cbv zeta.
  destruct (createShardGroup _ _ _ _ _) as [[d' g']|?|] eqn:Ec; [|by destruct (ShardGroupByTimestamp _ _ _ _) as [[?|]|?|]..].
  apply createShardGroup_users in Ec. by destruct (ShardGroupByTimestamp _ _ _ _) as [[?|]|?|].
Qed.

(** The operations that leave the passwords of existing users alone. *)
Definition no_removal (o : cop) : Prop := match o with KDropUser _ | KSetData _ => False | _ => True end.

Lemma kexec_hashes_moved ok o c :
  not_drop o -> no_removal o -> (forall n p, o <> KUpdateUser n p) -> moved (keeps_hashes (c_cacheData c)) c (kexec ok o c).1 (kexec ok o c).2.
Proof.
  intros Hn Ho Hu. destruct o; cbn [kexec no_removal not_drop] in *; try done;
    try (apply locking_moved, committing_moved; intros d' E; try (injection E as <-)).
  - apply locking_moved. cbv zeta. destruct (Database _ _); [by apply moved_not|]. apply commit_result_moved. intros d a.
    destruct (Meta.CreateDatabase _ _) as [d1|?|] eqn:E1; cbn [obind]; try done. apply CreateDatabase_users in E1.
    destruct (c_retentionAutoCreate c); [|intros [= <- _]; by apply same_users_keep].
    destruct (Meta.CreateRetentionPolicy _ _ _ _) eqn:E2; cbn [obind]; try done. apply CreateRetentionPolicy_users in E2. intros [= <- _]. apply same_users_keep. by rewrite E2.
  - unfold CreateDatabaseWithRetentionPolicy. destruct spec as [spec|]; [|by apply moved_not]. apply locking_moved, commit_result_moved. intros d a.
    destruct (too_low _); [done|]. cbv zeta.
    assert (Hd1 : forall d1, match Database (c_cacheData c) name with None => Meta.CreateDatabase (c_cacheData c) name | Some _ => Ret (c_cacheData c) end = Ret d1 -> d_Users d1 = d_Users (c_cacheData c)).
    { intros d1. destruct (Database _ _); [by intros [= <-]|]. apply CreateDatabase_users. }
    destruct (match Database (c_cacheData c) name with None => _ | Some _ => _ end) as [d1|?|]; cbn [obind]; try done. specialize (Hd1 d1 eq_refl).
    destruct (Database d1 name) as [db|]; cbn [obind or_panic]; [|done].
    assert (Hd2 : forall d2, (if (length (db_RetentionPolicies db) =? 0)%nat then Meta.CreateRetentionPolicy d1 name (Some (spec_info spec)) true
      else if negb (Matches spec (DB_RetentionPolicy db (rp_Name (spec_info spec)))) then Fail ErrRetentionPolicyConflict else Ret d1) = Ret d2 -> d_Users d2 = d_Users d1).
    { intros d2. destruct (_ =? 0)%nat; [apply CreateRetentionPolicy_users|]. destruct (negb _); [done|]. by intros [= <-]. }
    destruct (if (length (db_RetentionPolicies db) =? 0)%nat then _ else _) as [d2|?|]; cbn [obind]; try done. specialize (Hd2 d2 eq_refl).
    destruct (Database d2 name) as [db2|]; cbn [obind or_panic]; [|done]. destruct (negb _); [done|]. intros [= <- _]. apply same_users_keep. congruence.
  - unfold Meta.DropDatabase. destruct (Database _ _); [|by apply same_users_keep]. eapply fmap_keeps; [reflexivity|]. done.
  - apply locking_moved, commit_result_moved. intros d a. destruct (too_low _); [done|]. cbv zeta.
    destruct (Meta.CreateRetentionPolicy _ _ _ _) eqn:E2; cbn [obind]; try done. apply CreateRetentionPolicy_users in E2. intros [= <- _]. by apply same_users_keep.
  - by apply same_users_keep.
  - apply same_users_keep. by eapply UpdateRetentionPolicy_users.
  - by apply same_users_keep.
  - by apply same_users_keep.
  - apply locking_moved. unfold Meta.PruneShardGroups. destruct (existsb _ _); [|by apply moved_not]. apply commit_moved; [done..|]. by apply same_users_keep.
  - apply locking_moved. cbv zeta. assert (Hm : forall r, createShardGroup (c_cacheData c) db rp timestamp shards = r ->
      moved (keeps_hashes (c_cacheData c)) c (ended (commit_result ok c r)).1 (ended (commit_result ok c r)).2).
    { intros r Er. apply commit_result_moved. intros d a ->. apply same_users_keep. by eapply createShardGroup_users. }
    destruct (ShardGroupByTimestamp _ _ _ _) as [[?|]|?|]; [by apply moved_not|by apply Hm..].
  - revert E. unfold Meta.DeleteShardGroup. destruct (find_policy _ _ _); cbn [obind]; try done. destruct (first _ _); [|done]. intros [= <-]. by apply same_users_keep.
  - apply locking_moved. cbv zeta. assert (Hp : d_Users (foldl (precreate from to) (c_cacheData c, false) (policies (c_cacheData c))).1 = d_Users (c_cacheData c)).
    { assert (Hg : forall ps s, d_Users (foldl (precreate from to) s ps).1 = d_Users s.1); [|by apply Hg].
      induction ps as [|p ps IH]; intros s; [done|]. cbn. rewrite IH. by apply precreate_users. }
    destruct (foldl _ _ _) as [d' []]; [|by apply moved_not]. apply commit_moved; [done..|]. by apply same_users_keep.
  - revert E. unfold Meta.CreateContinuousQuery. destruct (Database _ _); [|done]. destruct (first _ _); [destruct (String.eqb _ _); [|done]|]; intros [= <-]; by apply same_users_keep.
  - by apply same_users_keep.
  - revert E. unfold Meta.CreateSubscription. destruct (validate_all _ _ _); cbn [obind]; try done. destruct (find_policy _ _ _); cbn [obind]; try done.
    destruct (first _ _); [done|]. intros [= <-]. by apply same_users_keep.
  - apply locking_moved. cbv zeta. destruct (user _ _); [destruct (_ || _); by apply moved_not|]. apply commit_result_moved. intros d a.
    destruct (GenerateFromPassword password) as [h|?|]; cbn [obind]; try done. destruct (Meta.CreateUser _ _ _ _) as [d1|?|] eqn:E; cbn [obind]; try done. intros [= <- _].
    revert E. unfold Meta.CreateUser. destruct (String.eqb _ _); [done|]. destruct (user _ _); [done|]. intros [= <-]. eapply app_keeps. reflexivity.
  - by destruct (Hu name password).
  - revert E. unfold Meta.SetPrivilege. destruct (user _ _); [|done]. destruct (Database _ _); [|done]. intros [= <-]. eapply change_keeps; [reflexivity|done].
  - revert E. unfold Meta.SetAdminPrivilege. destruct (user _ _); [|done]. intros [= <-]. eapply change_keeps; [reflexivity|done].
  - apply locking_moved. cbv zeta. destruct (auth_read _ _) as [r|?|]; [|by apply moved_not..]. destruct (auth_check _ _ _ _) as [[?|]|?|]; by apply moved_not.
Qed.

(** Every cached password is one the current hash of its user accepts. *)
Definition auth_inv (c : Client) : Prop := forall n au, c_authCache c !! n = Some au ->
  exists u q, user (c_cacheData c) n = Some u /\ au_hash au = hashWithSalt (au_salt au) q /\ CompareHashAndPassword (u_Hash u) q = true.

Lemma user_set_index d i n : user (set_index d i) n = user d n.
Proof. done. Qed.
Lemma auth_keep c c' :
  auth_inv c -> keeps_hashes (c_cacheData c) (c_cacheData c') -> (forall n au, c_authCache c' !! n = Some au -> c_authCache c !! n = Some au) -> auth_inv c'.
Proof.
  intros Hc Hk Ha n au Hn. destruct (Hc n au (Ha n au Hn)) as (u & q & Hu & E & Hq). destruct (Hk n u Hu) as (u' & Hu' & Eh). exists u', q. by rewrite Eh.
Qed.
Lemma moved_keeps c c' b : moved (keeps_hashes (c_cacheData c)) c c' b -> keeps_hashes (c_cacheData c) (c_cacheData c').
Proof. intros [E _|d Hd _ E _]; rewrite E; [by apply same_users_keep|]. eapply keeps_trans; [exact Hd|]. by apply same_users_keep. Qed.
Lemma kexec_hashes ok o c :
  no_removal o -> (forall n p, o <> KUpdateUser n p) -> keeps_hashes (c_cacheData c) (c_cacheData (kexec ok o c).1).
Proof.
  intros Ho Hu. destruct (match o with KDropSubscription _ _ _ => true | _ => false end) eqn:E; [|eapply moved_keeps, kexec_hashes_moved; [by destruct o|done..]].
  destruct o; try done. destruct (DropSubscription_moved (keeps_hashes (c_cacheData c)) ok c db rp name) as [Hm|(_ & _ & H3 & _)].
  - intros d. unfold Meta.DropSubscription. destruct (find_policy _ _ _); cbn [obind]; try done. destruct (first _ _); [|done]. intros [= <-]. by apply same_users_keep.
  - by eapply moved_keeps.
  - apply same_users_keep. cbn [kexec]. by rewrite H3.
Qed.

Lemma locking_auth {A} c (r : Client * outcome A) : c_authCache r.1 = c_authCache c -> c_authCache (locking c r).1 = c_authCache c.
Proof. unfold locking. by destruct (c_mu c). Qed.
Lemma commit_auth {A} ok c (o : outcome (Data * A)) : c_authCache (commit_result ok c o).1 = c_authCache c.
Proof. unfold commit_result, commit, snapshot. destruct o as [[d a]|?|]; [|done..]. by destruct ok. Qed.

(** Only [UpdateUser] and [Authenticate] change the cached passwords. *)
Lemma kexec_authCache ok o c :
  (forall n p, o <> KUpdateUser n p) -> (forall s n p, o <> KAuthenticate s n p) -> c_authCache (kexec ok o c).1 = c_authCache c.
Proof.
  intros H1 H2. destruct o; cbn [kexec ended fst]; try (apply locking_auth, commit_auth).
  - apply locking_auth. cbv zeta. destruct (Database _ _); [done|apply commit_auth].
  - unfold CreateDatabaseWithRetentionPolicy. destruct spec; [apply locking_auth, commit_auth|done].
  - apply locking_auth. unfold commit, snapshot. destruct (Meta.PruneShardGroups _ _) as [[] ?]; [by destruct ok|done].
  - apply locking_auth. destruct (ShardGroupByTimestamp _ _ _ _) as [[?|]|?|]; [done|apply commit_auth..].
  - apply locking_auth. unfold commit, snapshot. destruct (foldl _ _ _) as [? []]; [by destruct ok|done].
  - apply locking_auth. unfold commit, snapshot. destruct (Meta.DropSubscription _ _ _ _); [by destruct ok|done..].
  - apply locking_auth. cbv zeta. destruct (user _ _); [by destruct (_ || _)|apply commit_auth].
  - by destruct (H1 name password).
  - by destruct (H2 salt name password).
  - apply locking_auth. unfold commit, snapshot. by destruct ok.
Qed.

Lemma change_other d n m f : n <> m -> (forall u, u_Name (f u) = u_Name u) ->
  first (named_user n) (change (named_user m) f d) = first (named_user n) d.
Proof.
  intros Hne Hf. induction d as [|x us IH]; [done|]. cbn. unfold named_user in *. destruct (String.eqb_spec (u_Name x) m) as [Em|Em]; cbn.
  - rewrite Hf, Em. by rewrite (proj2 (String.eqb_neq m n)) by done.
  - by rewrite IH.
Qed.

Lemma UpdateUser_auth ok c n p : auth_inv c -> auth_inv (UpdateUser ok c n p).1.
Proof.
  intros Hc. unfold UpdateUser, locking. destruct (c_mu c); [done|]. destruct (GenerateFromPassword p) as [h|?|]; cbn [obind]; [|done..].
  destruct (Meta.UpdateUser _ _ _) as [d|?|] eqn:E; [|done..]. unfold Meta.UpdateUser in E. destruct (user _ n) as [u0|]; [|done]. injection E as <-.
  intros m au Hm. assert (Hne : m <> n /\ c_authCache c !! m = Some au).
  { unfold commit, snapshot in Hm. destruct ok; cbn in Hm; (destruct (decide (m = n)) as [->|Hmn]; [by rewrite lookup_delete_eq in Hm|by rewrite lookup_delete_ne in Hm]). }
  destruct Hne as [Hne Hm']. destruct (Hc m au Hm') as (u & q & Hu & E & Hq). exists u, q. split; [|done].
  unfold commit, snapshot. destruct ok; [|done]. cbn. unfold user. cbn. by rewrite change_other.
Qed.

Lemma Authenticate_auth salt c n p : auth_inv c -> auth_inv (Authenticate salt c n p).1.
Proof.
  intros Hc. unfold Authenticate, locking, auth_read. destruct (c_mu c); [done|]. destruct (user (c_cacheData c) n) as [u|] eqn:Eu; [|done]. unfold auth_check. cbn [fst snd].
  destruct (match c_authCache c !! n with Some _ => _ | None => _ end); [done|]. destruct (CompareHashAndPassword (u_Hash u) p) eqn:Ec; cbn [negb]; [|done].
  intros m au Hm. cbn in Hm. destruct (decide (m = n)) as [->|Hmn].
  - rewrite lookup_insert_eq in Hm. injection Hm as <-. by exists u, p.
  - rewrite lookup_insert_ne in Hm by done. by apply Hc.
Qed.

Lemma kexec_auth ok o c : no_removal o -> auth_inv c -> auth_inv (kexec ok o c).1.
Proof.
  intros Ho Hc. assert (Hgen : (forall n p, o <> KUpdateUser n p) -> (forall s n p, o <> KAuthenticate s n p) -> auth_inv (kexec ok o c).1).
  { intros H1 H2. eapply auth_keep; [exact Hc|by apply kexec_hashes|]. by rewrite kexec_authCache. }
  destruct o; try (by apply Hgen); [apply (UpdateUser_auth ok c name password Hc)|apply (Authenticate_auth salt c name password Hc)].
Qed.

(** C36. As long as no user is dropped and the data is not replaced by
    [SetData], and operations run one at a time, [Authenticate] follows the
    current hash of the user, whatever was cached before: after any other
    operations, password changes and failing writes included, and with random
    bytes at hand for the salt, it accepts every password the current hash
    accepts, and refuses every other password, unless that password and one the
    current hash accepts have the same SHA-256 after some salt. *)
Theorem Authenticate_exact (clusterID : Z) (autoCreate : bool) (os : list (bool * cop)) (salt name password : string) (u : UserInfo) :
  Forall (fun o => no_removal o.2) os ->
  let c := kexec_all os (fresh_client clusterID autoCreate) in
  user (c_cacheData c) name = Some u ->
  if CompareHashAndPassword (u_Hash u) password then (Authenticate salt c name password).2 = Ret u
  else (Authenticate salt c name password).2 = Fail ErrAuthenticate \/
       exists q s, CompareHashAndPassword (u_Hash u) q = true /\ q <> password /\ sha256 (s +:+ password) = sha256 (s +:+ q).
Proof.
  intros Ho c Hu. assert (Hc : auth_inv c).
  { unfold c. clear Hu c. assert (Hg : forall c, auth_inv c -> auth_inv (kexec_all os c)); [|apply Hg; intros n au Hn; cbn in Hn; by rewrite lookup_empty in Hn].
    induction Ho as [|o os Ho' _ IH]; intros c Hc; [done|]. cbn. apply IH. by apply kexec_auth. }
  assert (Hm : c_mu c = false).
  { unfold c. rewrite kexec_all_mu; [done|]. eapply Forall_impl; [exact Ho|]. intros [[] []] Hx; done. }
  unfold Authenticate, locking, auth_read, auth_check. rewrite Hu, Hm. cbn [fst snd]. destruct (c_authCache c !! name) as [au|] eqn:Ea.
  - destruct (String.eqb_spec (hashWithSalt (au_salt au) password) (au_hash au)) as [E|_]; [|by destruct (CompareHashAndPassword (u_Hash u) password); [|left]].
    destruct (CompareHashAndPassword (u_Hash u) password) eqn:Ec; [done|]. right. destruct (Hc name au Ea) as (u' & q & Hu' & Eh & Hq).
    rewrite Hu in Hu'. injection Hu' as <-. exists q, (au_salt au). split_and!; [done|intros ->; congruence|etrans; [exact E|exact Eh]].
  - by destruct (CompareHashAndPassword (u_Hash u) password); [|left].
Qed.
End Runs.

(** ** Samples *)

(** Hashes that show what they hash. *)
#[export] Instance plain_hashing : Hashing := {
  GenerateFromPassword p := Ret ("hash of " +:+ p);
  CompareHashAndPassword h p := String.eqb h ("hash of " +:+ p);
  sha256 s := s }.

Definition sample_client_ops : list (bool * cop) :=
  [(true, KCreateDatabase "db"); (true, KCreateUser "u" "old" true); (true, KAuthenticate "s" "u" "old"); (false, KDropDatabase "db");
   (true, KCreateShardGroup "db" "autogen" 1000000000000000000 []); (true, KPrecreateShardGroups 1000000000000000000 1100000000000000000);
   (true, KUpdateUser "u" "new")].

Lemma client_durable_witness : c_store (kexec_all sample_client_ops (fresh_client 1 true)) = Some (marshal (c_cacheData (kexec_all sample_client_ops (fresh_client 1 true)))).
Proof.
  destruct (client_durable 1 true sample_client_ops) as (_ & (d & _ & E & _ & Hn & _) & _).
  - repeat (apply Forall_cons; split; [first [exact I|cbn; unfold in_nano, MaxNanoTime; lia]|]). apply Forall_nil; exact I.
  - rewrite <- Hn; [exact E|]. repeat (apply Forall_cons_2; [first [left; reflexivity|right; exact I]|]). apply Forall_nil_2.
Defined.

Lemma Authenticate_exact_witness :
  (Authenticate "t" (kexec_all sample_client_ops (fresh_client 1 true)) "u" "old").2 = Fail ErrAuthenticate.
Proof.
  assert (exists u, user (c_cacheData (kexec_all sample_client_ops (fresh_client 1 true))) "u" = Some u /\ u_Hash u = "hash of new"%string) as (u & Hu & Eh)
    by (vm_compute; eexists; split; reflexivity).
  assert (Ha : Forall (fun o => no_removal o.2) sample_client_ops) by (repeat (apply Forall_cons; split; [exact I|]); apply Forall_nil; exact I).
  pose proof (Authenticate_exact 1 true sample_client_ops "t" "u" "old" u Ha Hu) as H. rewrite Eh in H. change (CompareHashAndPassword "hash of new" "old") with false in H.
  destruct H as [E|(q & s & Hq & _ & Es)]; [exact E|]. exfalso. apply String.eqb_eq in Hq.
  change ("hash of " +:+ "new" = "hash of " +:+ q) in Hq. apply (inj (String.append "hash of ")) in Hq. subst q.
  change (s +:+ "old" = s +:+ "new") in Es. apply (inj (String.append s)) in Es. discriminate Es.
Defined.

(** A failed [DropSubscription] is in the cache all the same, and the next write
    stores it: the dropped subscription is gone and another is there twice. *)
Example failed_drop_is_stored :
  let p := fun _ : string => Some ("udp"%string, "h:1"%string) in
  let os := [(true, KCreateDatabase "db"); (true, KCreateSubscription p p "db" "autogen" "a" "ALL" []); (true, KCreateSubscription p p "db" "autogen" "b" "ALL" []);
             (false, KDropSubscription "db" "autogen" "a"); (true, KCreateUser "u" "pw" false)] in
  let c := kexec_all os (fresh_client 1 true) in
  match c_store c with
  | Some pb => (di ← d_Databases (unmarshal pb); rp ← db_RetentionPolicies di; sub_Name <$> rp_Subscriptions rp) = ["b"; "b"]%string
  | None => False
  end.
Proof. by vm_compute. Qed.

(** After a failed [SetData] no operation returns any more. *)
Example SetData_keeps_mutex :
  let c := kexec_all [(true, KCreateUser "u" "pw" true); (false, KSetData empty_data)] (fresh_client 1 true) in
  (CreateDatabase true c "db").2 = Fail blocked /\ (Authenticate "t" c "u" "pw").2 = Fail blocked.
Proof. by vm_compute. Qed.

(** A removed user's cached password opens a new user of the same name. *)
Example old_password_after_recreation :
  let c := kexec_all [(true, KCreateUser "u" "old" true); (true, KAuthenticate "s" "u" "old"); (true, KDropUser "u"); (true, KCreateUser "u" "new" true)] (fresh_client 1 true) in
  match (Authenticate "t" c "u" "old").2 with Ret u => u_Hash u = "hash of new"%string | _ => False end.
Proof. by vm_compute. Qed.

(** A check that runs while the password is changed puts the old password back
    into the cache. *)
Example old_password_after_race :
  let c := kexec_all [(true, KCreateUser "u" "old" true)] (fresh_client 1 true) in
  match auth_read c "u" with
  | Ret r =>
    let c := (UpdateUser true c "u" "new").1 in
    match auth_check "s" "u" "old" r with
    | Ret au => match (Authenticate "t" (auth_store c "u" au) "u" "old").2 with Ret u => u_Hash u = "hash of new"%string | _ => False end
    | _ => False
    end
  | _ => False
  end.
Proof. by vm_compute. Qed.

(** The group of a point near the earliest time starts before the times an
    [int64] of nanoseconds holds; stored and read back it starts in 2262, and
    the point has no group any more. *)
Example earliest_group_is_lost :
  let c := kexec_all [(true, KCreateDatabase "db"); (true, KCreateShardGroup "db" "autogen" (- 2 ^ 63 + 2) [])] (fresh_client 1 true) in
  let found d := match ShardGroupByTimestamp d "db" "autogen" (- 2 ^ 63 + 2) with Ret (Some _) => true | _ => false end in
  found (c_cacheData c) = true /\ found (c_cacheData (Reload c).1) = false.
Proof. by vm_compute. Qed.
End MetaClient.
