(* ===== verification/DQueue.v ===== *)
(** * pkg/durablequeue: the disk-backed queue of byte blocks

    Models [queue.go] and [scanner.go]: the segment files with their blocks
    and footer, their repair, the queue over numbered segments and its
    scanner.  Segments are objects shared by the queue and its scanners, so
    they live in a store and are named by their path.  A directory maps file
    names to contents; calls on open files succeed except for seeks to
    negative offsets and reads at the end.  Sizes of buffers and metrics are
    left out. *)
From S2P Require Import Prelude Ring WalLog.
From stdpp Require Import gmap sorting.
#[global] Open Scope Z_scope.

(** A Go method with a receiver: the result and the state it leaves behind,
    which is kept when an error is returned. *)
Definition M (S A : Type) : Type := S -> outcome A * S.
#[export] Instance M_ret S : MRet (M S) := fun A a s => (Ret a, s).
#[export] Instance M_bind S : MBind (M S) := fun A B k m s =>
  match m s with
  | (Ret a, s) => k a s
  | (Fail e, s) => (Fail e, s)
  | (Panic, s) => (Panic, s)
  end.
Definition fail {S A} (e : string) : M S A := fun s => (Fail e, s).
Definition panic {S A} : M S A := fun s => (Panic, s).
Definition get {S} : M S S := fun s => (Ret s, s).
Definition modify {S} (f : S -> S) : M S unit := fun s => (Ret tt, f s).
(** The outcome as a value, for calls whose error is inspected. *)
Definition attempt {S A} (m : M S A) : M S (outcome A) := fun s => let '(r, s) := m s in (Ret r, s).
Definition lift {S A} (o : outcome A) : M S A := fun s => (o, s).

Definition is_err {A} (r : outcome A) (e : string) : bool := match r with Fail x => String.eqb x e | _ => false end.

Module DQueue.

Abbreviation name := (list Z).
Abbreviation dir := (gmap name (list Z)).

Definition ErrNotOpen : string := "queue not open".
Definition ErrQueueFull : string := "queue is full".
Definition ErrQueueBlocked : string := "queue is blocked".
Definition ErrSegmentFull : string := "segment is full".
Definition EOF : string := "EOF".
Definition ErrInvalid : string := "invalid argument".
Definition ErrRange : string := "record size out of range".
(** Stands for a call that does not return. *)
Definition hang : string := "does not return".

Definition DefaultSegmentSize : Z := 10 * 1024 * 1024.
Definition footerSize : Z := 8.
Definition MaxWritesPending : nat := 1024.

(** ** Segments *)

(** [g_file] is the offset of the open file, [None] once it is closed. *)
Record segment := MkSeg { g_size : Z; g_maxSize : Z; g_pos : Z; g_file : option Z; g_path : name; g_id : Z }.

(** A segment and the contents of its file. *)
Abbreviation fs := (prod segment (list Z)).
Abbreviation SM := (M fs).

Definition set_size (z : Z) (s : segment) : segment := MkSeg z (g_maxSize s) (g_pos s) (g_file s) (g_path s) (g_id s).
Definition set_maxSize (z : Z) (s : segment) : segment := MkSeg (g_size s) z (g_pos s) (g_file s) (g_path s) (g_id s).
Definition set_pos (z : Z) (s : segment) : segment := MkSeg (g_size s) (g_maxSize s) z (g_file s) (g_path s) (g_id s).
Definition set_file (o : option Z) (s : segment) : segment := MkSeg (g_size s) (g_maxSize s) (g_pos s) o (g_path s) (g_id s).

Definition upd (f : segment -> segment) : SM unit := modify (fun '(s, b) => (f s, b)).
Definition seg : SM segment := s ← get; mret s.1.

(** *** The file *)

Definition move_to (p : Z) : SM unit :=
  if (p <? 0) || (2 ^ 63 <=? p) then fail ErrInvalid else upd (set_file (Some p)).
Definition offset : SM Z := s ← seg; match g_file s with Some o => mret o | None => fail ErrInvalid end.

Definition seek (pos : Z) : SM unit := _ ← offset; move_to pos.
Definition seekEnd (pos : Z) : SM unit := _ ← offset; s ← get; move_to (Z.of_nat (length s.2) + pos).
Definition seekCurrent (d : Z) : SM unit := o ← offset; move_to (o + d).
(** The error of [Seek] is dropped. *)
Definition filePos : SM Z := s ← seg; mret (default 0 (g_file s)).
Definition seekToCurrent : SM unit := s ← seg; seek (g_pos s).

(** One [Read], which stops at the end of the file. *)
Definition readBytes (n : nat) : SM (list Z) :=
  o ← offset; s ← get;
  let b := take n (drop (Z.to_nat o) s.2) in
  if (n =? 0)%nat then mret []
  else if (length b =? 0)%nat then fail EOF
  else
    upd (set_file (Some (o + Z.of_nat (length b))));;
    if (length b =? n)%nat then mret b else fail "bad read".
Definition readUint64 : SM Z := b ← readBytes 8; mret (be_get b).

Definition overwrite (f : list Z) (pos : nat) (bs : list Z) : list Z :=
  take pos f ++ replicate (pos - length f) 0 ++ bs ++ drop (pos + length bs) f.
Definition writeBytes (bs : list Z) : SM unit :=
  o ← offset; modify (fun '(s, f) => (set_file (Some (o + Z.of_nat (length bs))) s, overwrite f (Z.to_nat o) bs)).
Definition writeUint64 (v : Z) : SM unit := writeBytes (be_put 8 (u64 v)).
Definition Truncate (p : Z) : SM unit :=
  _ ← offset; modify (fun '(s, f) => (s, take (Z.to_nat p) f ++ replicate (Z.to_nat p - length f) 0)).

(** *** Repair *)

(** The offset at which the walk ends, and whether the rest is to be cut off.
    A length is read as an [int64] and may be negative. *)
Fixpoint repair_loop (fuel : nat) : SM (Z * bool) :=
  match fuel with
  | O => fail hang
  | S fuel =>
    off ← filePos; s ← seg;
    if off =? g_size s - footerSize then mret (off, false)
    else
      r ← attempt readUint64;
      match r with
      | Ret recordSize =>
        r ← attempt (seekCurrent (i64 recordSize)); p ← filePos;
        match r with
        | Ret _ => if g_size s - footerSize <? p then mret (off, true) else repair_loop fuel
        | _ => mret (off, true)
        end
      | _ => mret (off, true)
      end
  end.

(** A round that moves forward takes at least eight bytes. *)
Definition repair : SM Z :=
  seek 0;; s ← get;
  r ← repair_loop (S (length s.2)); let '(off, truncate) := r : Z * bool in
  (if truncate then Truncate off else mret tt);;
  seek off;; writeUint64 0;; upd (set_size (off + 8));; mret 0.

Section Verify.
Context (verifyBlockFn : list Z -> option string).

(** *** Opening *)

Fixpoint open_fuel (fuel : nat) : SM unit :=
  match fuel with
  | O => fail hang
  | S fuel =>
    s ← seg;
    if g_size s =? 0 then upd (set_pos 0);; writeUint64 0;; upd (set_size footerSize)
    else
      seekEnd (- footerSize);;
      pos ← readUint64; s ← seg;
      pos ← (if u64 (g_size s - footerSize) <? pos then repair else mret pos);
      upd (set_pos (i64 pos));; seekToCurrent;; s ← seg;
      if g_size s - footerSize <=? g_pos s then mret tt
      else
        currentSize ← readUint64;
        if (g_size s - footerSize - g_pos s <? i64 currentSize) || (i64 currentSize <? 0) then repair;; open_fuel fuel
        else
          r ← attempt (readBytes (Z.to_nat (i64 currentSize)));
          match r with
          | Ret block =>
            seek (g_pos s + 8);;
            match verifyBlockFn block with
            | None => mret tt
            | Some _ =>
              Truncate (g_pos s);; seek (g_pos s);; writeUint64 0;; upd (set_size (g_pos s + footerSize));; open_fuel fuel
            end
          | _ => repair;; open_fuel fuel
          end
  end.
(** The second call starts at the first block, a further one follows a
    repair, a further one the removal of the first block. *)
Definition open : SM unit := open_fuel 5.

(** *** Reading and writing *)

Definition full (s : segment) : bool := g_maxSize s <=? g_size s.
Definition empty (s : segment) : bool := g_pos s =? g_size s - footerSize.
Definition totalBytes (s : segment) : Z := g_size s - g_pos s - footerSize.
Definition diskUsage (s : segment) : Z := g_size s.

Definition append (b : list Z) : SM Z :=
  s ← seg;
  match g_file s with
  | None => fail ErrNotOpen
  | Some _ =>
    if g_maxSize s <? g_size s then fail ErrSegmentFull
    else
      seekEnd (- footerSize);;
      let l64 := Z.of_nat (length b) in
      (if g_maxSize s <? l64 then upd (set_maxSize l64) else mret tt);;
      writeBytes (be_put 8 (u64 l64) ++ b ++ be_put 8 (u64 (g_pos s)));;
      upd (set_size (g_size s + (l64 + 8)));;
      mret (l64 + 8)
  end.

Definition current : SM (list Z) :=
  s ← seg;
  if empty s then fail EOF
  else
    seekToCurrent;;
    sz ← readUint64;
    if u64 (g_maxSize s) <? sz then fail ErrRange else readBytes (Z.to_nat sz).

Fixpoint peek_loop (n : nat) (pos : Z) (blocks : list (list Z)) : SM (list (list Z)) :=
  match n with
  | O => mret blocks
  | S n =>
    s ← seg;
    if pos =? g_size s - footerSize then mret blocks
    else
      r ← attempt readUint64;
      match r with
      | Fail e => if String.eqb e EOF then mret blocks else fail e
      | Panic => panic
      | Ret sz =>
        if sz =? 0 then peek_loop n (pos + 8) blocks
        else if u64 (g_maxSize s) <? sz then fail ErrRange
        else b ← readBytes (Z.to_nat sz); peek_loop n (i64 (pos + 8 + i64 sz)) (blocks ++ [b])
      end
  end.
Definition peek (n : Z) : SM (list (list Z)) :=
  s ← seg;
  if empty s then fail EOF else seekToCurrent;; peek_loop (Z.to_nat n) (g_pos s) [].

Definition advanceTo (pos : Z) : SM unit :=
  s ← seg;
  match g_file s with
  | None => fail ErrNotOpen
  | Some _ =>
    if pos <? g_pos s then fail "attempt to unread queue"
    else
      upd (set_pos pos);;
      if g_size s - footerSize <? pos then fail EOF
      else
        seekEnd (- footerSize);; writeUint64 pos;; seekToCurrent;; _ ← readUint64;
        if pos =? g_size s - footerSize then fail EOF else mret tt
  end.

Definition advance : SM unit :=
  seekToCurrent;; sz ← readUint64; s ← seg; advanceTo (i64 (g_pos s + i64 sz + 8)).

Definition close : SM unit := _ ← offset; upd (set_file None).

(** ** The queue *)

(** [q_appendCh] counts the tokens in the channel, [q_depth] its capacity.
    [q_total] is [queueTotalSize]; a closed queue has no segments. *)
Record Queue := MkQueue {
  q_dir : dir;
  q_heap : gmap name segment;
  q_head : option name;
  q_tail : option name;
  q_segments : list name;
  q_maxSegmentSize : Z;
  q_maxSize : Z;
  q_total : Z;
  q_depth : nat;
  q_appendCh : nat }.
Abbreviation QM := (M Queue).

Definition set_dir (d : dir) (q : Queue) : Queue :=
  MkQueue d (q_heap q) (q_head q) (q_tail q) (q_segments q) (q_maxSegmentSize q) (q_maxSize q) (q_total q) (q_depth q) (q_appendCh q).
Definition set_heap (h : gmap name segment) (q : Queue) : Queue :=
  MkQueue (q_dir q) h (q_head q) (q_tail q) (q_segments q) (q_maxSegmentSize q) (q_maxSize q) (q_total q) (q_depth q) (q_appendCh q).
Definition set_head (n : option name) (q : Queue) : Queue :=
  MkQueue (q_dir q) (q_heap q) n (q_tail q) (q_segments q) (q_maxSegmentSize q) (q_maxSize q) (q_total q) (q_depth q) (q_appendCh q).
Definition set_tail (n : option name) (q : Queue) : Queue :=
  MkQueue (q_dir q) (q_heap q) (q_head q) n (q_segments q) (q_maxSegmentSize q) (q_maxSize q) (q_total q) (q_depth q) (q_appendCh q).
Definition set_segments (l : list name) (q : Queue) : Queue :=
  MkQueue (q_dir q) (q_heap q) (q_head q) (q_tail q) l (q_maxSegmentSize q) (q_maxSize q) (q_total q) (q_depth q) (q_appendCh q).
Definition set_limits (ms m : Z) (q : Queue) : Queue :=
  MkQueue (q_dir q) (q_heap q) (q_head q) (q_tail q) (q_segments q) ms m (q_total q) (q_depth q) (q_appendCh q).
Definition add_total (z : Z) (q : Queue) : Queue :=
  MkQueue (q_dir q) (q_heap q) (q_head q) (q_tail q) (q_segments q) (q_maxSegmentSize q) (q_maxSize q) (i64 (q_total q + z)) (q_depth q) (q_appendCh q).

Definition NewQueue (d : dir) (maxSize maxSegmentSize total : Z) (depth : nat) : outcome Queue :=
  if maxSize <? i64 (2 * maxSegmentSize) then Fail "max queue size too small"
  else Ret (MkQueue d ∅ None None [] maxSegmentSize maxSize total depth 0).

(** A call on a segment object: a nil pointer panics. *)
Definition on_seg {A} (p : option name) (m : SM A) : QM A := fun q =>
  match p ≫= fun n => q_heap q !! n with
  | None => (Panic, q)
  | Some s =>
    let '(r, (s', f)) := m (s, default [] (q_dir q !! g_path s)) in
    (r, set_heap (<[g_path s := s']> (q_heap q)) (match g_file s with Some _ => set_dir (<[g_path s := f]> (q_dir q)) q | None => q end))
  end.
Definition the (p : option name) : QM segment := q ← get; match p ≫= fun n => q_heap q !! n with Some s => mret s | None => panic end.

(** [strconv.ParseUint(_, 10, 64)] *)
Definition ParseUint (n : name) : option Z :=
  match n with
  | [] => None
  | _ => id ← WalLog.parse_digits 0 n; if id <? 2 ^ 64 then Some id else None
  end.
Definition FormatUint (id : Z) : name := WalLog.decimal 20 id.

Definition newSegment (path : name) (maxSize : Z) : QM segment :=
  q ← get;
  let f := default [] (q_dir q !! path) in
  modify (set_dir (<[path := f]> (q_dir q)));;
  match ParseUint path with
  | None => fail "invalid syntax"
  | Some id =>
    let sz := Z.of_nat (length f) in
    let '(r, (s, f)) := open (MkSeg sz (Z.max maxSize sz) 0 (Some 0) path id, f) in
    q ← get; modify (set_dir (<[path := f]> (q_dir q)));; _ ← lift r; mret s
  end.

(** The names of a directory, sorted, and of them the segments. *)
Definition ReadDir (d : dir) : list name := Ring.Sort (map_to_list d).*1.
Definition nextSegmentID (d : dir) : Z := u64 (foldl (fun m n => match ParseUint n with Some id => Z.max m id | None => m end) 0 (ReadDir d) + 1).

Definition alloc (s : segment) : QM unit := q ← get; modify (set_heap (<[g_path s := s]> (q_heap q))).

Definition addSegment : QM unit :=
  q ← get; let nextID := nextSegmentID (q_dir q) in
  s ← newSegment (FormatUint nextID) (q_maxSegmentSize q);
  alloc s;; modify (set_tail (Some (g_path s)));; modify (set_segments (q_segments q ++ [g_path s])).

Definition Remove_file (n : name) : QM unit := q ← get; modify (set_dir (delete n (q_dir q))).

(** [sort.Sort] by identifier. *)
Definition by_id (a b : segment) : Prop := g_id a <= g_id b.
#[local] Instance by_id_dec : RelDecision by_id := fun a b => Z_le_dec (g_id a) (g_id b).

Fixpoint load_files (files : list name) (ss : list segment) : QM (list segment) :=
  match files with
  | [] => mret ss
  | n :: files =>
    match ParseUint n with
    | None => load_files files ss
    | Some _ =>
      q ← get; s ← newSegment n (q_maxSegmentSize q);
      if empty s then Remove_file (g_path s);; load_files files ss
      else alloc s;; load_files files (ss ++ [s])
    end
  end.
Definition loadSegments : QM (list name) :=
  q ← get; ss ← load_files (ReadDir (q_dir q)) []; mret (g_path <$> merge_sort by_id ss).

Definition total_of (f : segment -> Z) (q : Queue) : Z :=
  foldl (fun n p => match q_heap q !! p with Some s => i64 (n + f s) | None => n end) 0 (q_segments q).
Definition TotalBytes : Queue -> Z := total_of totalBytes.
Definition DiskUsage : Queue -> Z := total_of diskUsage.

(** The removal of the head segment, when another one follows it. *)
Definition drop_head : QM unit :=
  q ← get;
  if (1 <? length (q_segments q))%nat then
    modify (set_segments (drop 1 (q_segments q)));;
    h ← the (q_head q);
    _ ← attempt (on_seg (q_head q) close);
    Remove_file (g_path h);;
    modify (set_head (head (drop 1 (q_segments q))));;
    modify (add_total (- diskUsage h))
  else modify (add_total 0).
(** A full head that is the only segment gets a successor first. *)
Definition trimHead (force : bool) : QM unit :=
  q ← get;
  full_ ← (if bool_decide (length (q_segments q) = 1%nat) then h ← the (q_head q); mret (full h) else mret false);
  (if full_ || force then addSegment else mret tt);;
  drop_head.

Definition Open : QM unit :=
  segments ← loadSegments;
  modify (set_segments segments);;
  (match segments with [] => addSegment | _ => mret tt end);;
  q ← get;
  modify (set_head (head (q_segments q)));; modify (set_tail (last (q_segments q)));;
  r ← attempt (on_seg (head (q_segments q)) current);
  if is_err r EOF then trimHead false
  else q ← get; modify (add_total (DiskUsage q)).

Fixpoint close_all (l : list name) : QM unit :=
  match l with [] => mret tt | n :: l => on_seg (Some n) close;; close_all l end.
Definition Close : QM unit :=
  q ← get; close_all (q_segments q);;
  modify (set_head None);; modify (set_tail None);; modify (set_segments []).

(** [segments] is nil exactly when it is empty: [Open] adds one. *)
Definition is_open (q : Queue) : bool := negb (bool_decide (q_head q = None) && bool_decide (q_tail q = None) && bool_decide (q_segments q = [])).
Definition Remove : QM unit := q ← get; if is_open q then fail "queue is open" else modify (set_dir ∅).
Definition RemoveSegments : QM unit :=
  q ← get; if is_open q then fail "queue is open"
  else modify (set_dir (filter (fun kv => ParseUint kv.1 = None) (q_dir q))).

Definition SetMaxSize (maxSize : Z) : QM unit :=
  q ← get; if maxSize <? i64 (2 * q_maxSegmentSize q) then fail "queue size too small" else modify (set_limits (q_maxSegmentSize q) maxSize).

Fixpoint resize_all (size : Z) (l : list name) : QM unit :=
  match l with [] => mret tt | n :: l => on_seg (Some n) (upd (set_maxSize size));; resize_all size l end.
Definition SetMaxSegmentSize (size : Z) : QM unit :=
  q ← get;
  if q_maxSize q <? i64 (2 * size) then fail "segment size is too large"
  else
    modify (set_limits size (q_maxSize q));; resize_all size (q_segments q);;
    t ← the (q_tail q); if size <=? diskUsage t then addSegment else mret tt.

(** [modtime] answers [os.Stat] during the call, in nanoseconds. *)
Fixpoint purge_loop (fuel : nat) (modtime : name -> Z) (cutoff : Z) : QM unit :=
  match fuel with
  | O => fail hang
  | S fuel =>
    q ← get; h ← the (q_head q);
    match g_file h with
    | None => fail ErrNotOpen
    | Some _ =>
      if cutoff <=? modtime (g_path h) then mret tt
      else
        (if bool_decide (length (q_segments q) = 1%nat) then addSegment else mret tt);;
        trimHead false;; purge_loop fuel modtime cutoff
    end
  end.
Definition PurgeOlderThan (modtime : name -> Z) (when : Z) : QM unit :=
  q ← get;
  match q_segments q with
  | [] => mret tt
  | _ => purge_loop (S (S (length (q_segments q)))) modtime (when - when mod 1000000000)
  end.

Definition Empty : QM bool := q ← get; t ← the (q_tail q); mret (empty t).
Definition TotalSegments (q : Queue) : Z :=
  match last (q_segments q) ≫= fun n => q_heap q !! n with
  | Some s => Z.of_nat (length (q_segments q)) - (if empty s then 1 else 0)
  | None => Z.of_nat (length (q_segments q))
  end.

(** The token is taken before the lock and given back on return. *)
Definition Append (b : list Z) : QM unit :=
  q ← get;
  if (q_depth q <=? q_appendCh q)%nat then fail ErrQueueBlocked
  else
    match q_tail q with
    | None => fail ErrNotOpen
    | Some _ =>
      if q_maxSize q <? i64 (q_total q + Z.of_nat (length b)) then fail ErrQueueFull
      else
        r ← attempt (on_seg (q_tail q) (append b));
        n ← (if is_err r ErrSegmentFull then addSegment;; q ← get; on_seg (q_tail q) (append b) else lift r);
        modify (add_total n)
    end.

Definition Current : QM (list Z) :=
  q ← get; match q_head q with None => fail ErrNotOpen | Some _ => on_seg (q_head q) current end.
Definition PeekN (n : Z) : QM (list (list Z)) :=
  q ← get; match q_head q with None => fail ErrNotOpen | Some _ => on_seg (q_head q) (peek n) end.

(** Errors other than the end of the segment are dropped. *)
Definition Advance : QM unit :=
  q ← get;
  match q_head q with
  | None => fail ErrNotOpen
  | Some _ =>
    r ← attempt (on_seg (q_head q) advance);
    match r with
    | Panic => panic
    | Fail e => if String.eqb e EOF then trimHead false else mret tt
    | Ret _ => mret tt
    end
  end.

(** ** Scanners *)

Record segmentScanner := MkScan { c_s : name; c_pos : Z; c_n : Z; c_buf : list Z; c_err : option string; c_eof : bool }.

Definition newScanner : SM segmentScanner :=
  s ← seg; if empty s then fail EOF else seekToCurrent;; mret (MkScan (g_path s) (g_pos s) 0 [] None false).

Definition setErr (c : segmentScanner) (e : string) : segmentScanner := MkScan (c_s c) (c_pos c) (c_n c) [] (Some e) (c_eof c).

(** A block of no bytes is passed over.  A round takes at least eight bytes. *)
Fixpoint next_loop (fuel : nat) (c : segmentScanner) : SM (segmentScanner * bool) :=
  match fuel with
  | O => fail hang
  | S fuel =>
    s ← seg;
    if c_pos c =? g_size s - footerSize then mret (MkScan (c_s c) (c_pos c) (c_n c) (c_buf c) (c_err c) true, false)
    else
      let c := MkScan (c_s c) (c_pos c) (c_n c + 1) (c_buf c) (c_err c) (c_eof c) in
      r ← attempt readUint64;
      match r with
      | Fail e => mret (if String.eqb e EOF then c else setErr c e, false)
      | Panic => panic
      | Ret sz =>
        let c := MkScan (c_s c) (i64 (c_pos c + 8 + i64 sz)) (c_n c) (c_buf c) (c_err c) (c_eof c) in
        if sz =? 0 then next_loop fuel c
        else if u64 (g_maxSize s) <? sz then mret (setErr c ErrRange, false)
        else
          r ← attempt (readBytes (Z.to_nat sz));
          match r with
          | Ret b => mret (MkScan (c_s c) (c_pos c) (c_n c) b (c_err c) (c_eof c), true)
          | Fail e => mret (setErr c e, false)
          | Panic => panic
          end
      end
  end.
Definition seg_Next (c : segmentScanner) : SM (segmentScanner * bool) :=
  if c_eof c || negb (bool_decide (c_err c = None)) then mret (c, false)
  else
    r ← attempt (seek (c_pos c));
    match r with
    | Ret _ => s ← get; next_loop (S (length s.2)) c
    | Fail e => mret (setErr c e, false)
    | Panic => panic
    end.
Definition seg_Advance (c : segmentScanner) : SM unit :=
  match c_err c with Some e => fail e | None => advanceTo (c_pos c) end.

Definition NewScanner : QM segmentScanner :=
  q ← get; match q_head q with None => fail ErrNotOpen | Some _ => on_seg (q_head q) newScanner end.
Definition Next (c : segmentScanner) : QM (segmentScanner * bool) := on_seg (Some (c_s c)) (seg_Next c).
(** The number of blocks passed, [n], is the result. *)
Definition Scanner_Advance (c : segmentScanner) : QM Z :=
  r ← attempt (on_seg (Some (c_s c)) (seg_Advance c));
  match r with
  | Ret _ => mret (c_n c)
  | Panic => panic
  | Fail _ =>
    r ← (if is_err r EOF then attempt (on_seg (Some (c_s c)) (seg_Advance c)) else mret r);
    match r with
    | Ret _ => mret (c_n c)
    | Panic => panic
    | Fail e =>
      trimHead (negb (String.eqb e EOF));;
      if String.eqb e EOF then mret (c_n c) else fail "dropped bad disk queue segment"
    end
  end.
End Verify.
End DQueue.
