(* ===== verification/DQueueSegs.v ===== *)
(** * pkg/durablequeue: what the operations on one segment do

    A sound segment file is a list of blocks, some of them already passed,
    and a footer with the offset of the first that is not.  Each operation is
    shown to read or extend exactly that list; opening finds it again, and
    repairing a damaged file keeps the blocks that are complete. *)
From S2P Require Import Prelude Ring WalLog DQueue.
From stdpp Require Import gmap sorting.
Import DQueue.
#[global] Open Scope Z_scope.

Lemma bind_ret {S A B} (m : M S A) (k : A -> M S B) s a s' : m s = (Ret a, s') -> (m ≫= k) s = k a s'.
Proof. intros E. cbv [mbind M_bind]. by rewrite E. Qed.
Lemma bind_fail {S A B} (m : M S A) (k : A -> M S B) s e s' : m s = (Fail e, s') -> (m ≫= k) s = (Fail e, s').
Proof. intros E. cbv [mbind M_bind]. by rewrite E. Qed.
Lemma attempt_eq {S A} (m : M S A) s r s' : m s = (r, s') -> attempt m s = (Ret r, s').
Proof. intros E. cbv [attempt]. by rewrite E. Qed.

(** Runs the first call of a sequence with a lemma about it. *)
Ltac mstep L := erewrite bind_ret; [|solve [eapply L; eauto; try lia | apply attempt_eq; eapply L; eauto; try lia]].
Ltac mnow := erewrite bind_ret; [|reflexivity]; cbn [fst snd g_size g_maxSize g_pos g_file g_path g_id].

Module DQueueSegs.

Abbreviation block := (list Z).
Abbreviation len l := (Z.of_nat (length l)).

Definition record (b : block) : list Z := be_put 8 (len b) ++ b.
Definition enc (bs : list block) : list Z := concat (record <$> bs).
(** The file of a segment: blocks passed, blocks to come, the footer. *)
Definition file (before pend : list block) : list Z := enc before ++ enc pend ++ be_put 8 (len (enc before)).

Lemma enc_app a b : enc (a ++ b) = enc a ++ enc b.
Proof. unfold enc. by rewrite fmap_app, concat_app. Qed.
Lemma enc_cons b bs : enc (b :: bs) = be_put 8 (len b) ++ b ++ enc bs.
Proof. unfold enc. rewrite fmap_cons. cbn [concat]. unfold record. by rewrite <- app_assoc. Qed.
Lemma enc_cons_app b bs c : enc (b :: bs) ++ c = be_put 8 (len b) ++ b ++ enc bs ++ c.
Proof. by rewrite enc_cons, <- !app_assoc. Qed.
Lemma record_len b : len (record b) = len b + 8.
Proof. unfold record. rewrite length_app, be_put_length. lia. Qed.
Lemma enc_len_cons b bs : len (enc (b :: bs)) = len b + 8 + len (enc bs).
Proof. rewrite enc_cons, !length_app, be_put_length. lia. Qed.
Lemma enc_len_app a b : len (enc (a ++ b)) = len (enc a) + len (enc b).
Proof. rewrite enc_app, length_app. lia. Qed.
Lemma file_len before pend : len (file before pend) = len (enc before) + len (enc pend) + 8.
Proof. unfold file. rewrite !length_app, be_put_length. lia. Qed.
Lemma enc_nil_len bs : len (enc bs) = 0 -> bs = [].
Proof. destruct bs as [|b bs]; [done|]. rewrite enc_len_cons. lia. Qed.

Section Seg.
Context (sz mx ps : Z) (pa : name) (i : Z).
Abbreviation St o f := (MkSeg sz mx ps (Some o) pa i, f).

Lemma seg_st o f : seg (St o f) = (Ret (MkSeg sz mx ps (Some o) pa i), St o f).
Proof. done. Qed.

Lemma move_to_st o f p : 0 <= p < 2 ^ 63 -> move_to p (St o f) = (Ret tt, St p f).
Proof. intros H. unfold move_to. destruct (Z.ltb_spec p 0); [lia|]. destruct (Z.leb_spec (2 ^ 63) p); [lia|]. done. Qed.

Lemma seek_st o f p : 0 <= p < 2 ^ 63 -> seek p (St o f) = (Ret tt, St p f).
Proof. intros H. unfold seek. mnow. by apply move_to_st. Qed.

Lemma seekToCurrent_st o f : 0 <= ps < 2 ^ 63 -> seekToCurrent (St o f) = (Ret tt, St ps f).
Proof. intros H. unfold seekToCurrent. mnow. by apply seek_st. Qed.

Lemma seekEnd_st o f : 8 <= len f < 2 ^ 63 -> seekEnd (- footerSize) (St o f) = (Ret tt, St (len f - 8) f).
Proof. intros H. unfold seekEnd. mnow. mnow. cbn [snd]. unfold footerSize. apply move_to_st. lia. Qed.

Lemma readBytes_st a b c o : o = len a -> readBytes (length b) (St o (a ++ b ++ c)) = (Ret b, St (o + len b) (a ++ b ++ c)).
Proof.
  intros ->. unfold readBytes. mnow. mnow. cbn [snd]. rewrite Nat2Z.id, drop_app_length, take_app_length.
  destruct b as [|x b]; [cbn; by rewrite Z.add_0_r|]. cbn [length Nat.eqb]. mnow. by rewrite Nat.eqb_refl.
Qed.

Lemma readUint64_st a v c o : is_u64 v -> o = len a -> readUint64 (St o (a ++ be_put 8 v ++ c)) = (Ret v, St (o + 8) (a ++ be_put 8 v ++ c)).
Proof.
  intros Hv Ho. unfold readUint64. pose proof (readBytes_st a (be_put 8 v) c o Ho) as E. rewrite be_put_length in E.
  erewrite bind_ret by exact E. by rewrite be64_roundtrip.
Qed.

(** Writing over the end of the file. *)
Lemma writeBytes_st a old bs o : o = len a -> (length old <= length bs)%nat -> writeBytes bs (St o (a ++ old)) = (Ret tt, St (o + len bs) (a ++ bs)).
Proof.
  intros -> H. unfold writeBytes. mnow. cbv [modify]. unfold overwrite. rewrite Nat2Z.id, take_app_length.
  replace (length a - length (a ++ old))%nat with 0%nat by (rewrite length_app; lia). cbn [replicate app].
  rewrite drop_ge by (rewrite length_app; lia). by rewrite app_nil_r.
Qed.

Lemma writeUint64_st a old v o : o = len a -> length old = 8%nat -> is_u64 v -> writeUint64 v (St o (a ++ old)) = (Ret tt, St (o + 8) (a ++ be_put 8 v)).
Proof.
  intros Ho H Hv. unfold writeUint64. rewrite u64_id by done. erewrite writeBytes_st by (try done; rewrite be_put_length; lia). by rewrite be_put_length.
Qed.

Lemma Truncate_st a c o p : p = len a -> Truncate p (St o (a ++ c)) = (Ret tt, St o a).
Proof.
  intros ->. unfold Truncate. mnow. cbv [modify]. rewrite Nat2Z.id, take_app_length.
  replace (length a - length (a ++ c))%nat with 0%nat by (rewrite length_app; lia). by rewrite app_nil_r.
Qed.
End Seg.

(** The bound on sizes under which no offset overflows. *)
Definition limit : Z := 2 ^ 62.

Lemma limit_u64 x : 0 <= x <= limit -> is_u64 x.
Proof. unfold limit. unint. lia. Qed.
Lemma limit_i64 x : 0 <= x <= limit -> i64 x = x.
Proof. intros. apply i64_id. unfold limit in *. unint. lia. Qed.

(** A segment over a sound file. *)
Definition seg_ok (s : segment) (f : list Z) (before pend : list block) : Prop :=
  exists o, g_file s = Some o /\ f = file before pend /\ g_size s = len f /\ g_pos s = len (enc before) /\
  g_size s <= limit /\ 0 <= g_maxSize s <= limit /\ Forall (fun b => len b <= g_maxSize s) pend.

Definition same (s s' : segment) : Prop := g_path s' = g_path s /\ g_id s' = g_id s.

Lemma seg_ok_elim s f before pend : seg_ok s f before pend ->
  exists o, s = MkSeg (len (file before pend)) (g_maxSize s) (len (enc before)) (Some o) (g_path s) (g_id s) /\ f = file before pend /\
    len (file before pend) <= limit /\ 0 <= g_maxSize s <= limit /\ Forall (fun b => len b <= g_maxSize s) pend.
Proof. intros (o & Hf & -> & Hs & Hp & Hl & Hm & Hb). exists o. destruct s as [sz mx ps fi pa i]. cbn in *. by subst. Qed.

Lemma seg_ok_intro mx o pa i before pend f : f = file before pend -> len f <= limit -> 0 <= mx <= limit -> Forall (fun b => len b <= mx) pend ->
  seg_ok (MkSeg (len f) mx (len (enc before)) (Some o) pa i) f before pend.
Proof. intros -> ???. by exists o. Qed.

Lemma file_last before pend : file before pend = (enc before ++ enc pend) ++ be_put 8 (len (enc before)).
Proof. unfold file. by rewrite app_assoc. Qed.
Lemma file_split before k pend : file before (k ++ pend) = enc (before ++ k) ++ enc pend ++ be_put 8 (len (enc before)).
Proof. unfold file. by rewrite !enc_app, <- !app_assoc. Qed.
Lemma file_head before b pend : file before (b :: pend) = enc before ++ be_put 8 (len b) ++ b ++ enc pend ++ be_put 8 (len (enc before)).
Proof. unfold file. by rewrite enc_cons, <- !app_assoc. Qed.

Lemma seg_empty_ok s f before pend : seg_ok s f before pend -> empty s = bool_decide (pend = []).
Proof.
  intros (o & _ & -> & Hs & Hp & _). unfold empty, footerSize. rewrite Hs, Hp, file_len. destruct pend as [|b pend].
  - rewrite bool_decide_eq_true_2 by done. apply Z.eqb_eq. cbn. lia.
  - rewrite bool_decide_eq_false_2 by done. apply Z.eqb_neq. rewrite enc_len_cons. lia.
Qed.

(** The entry is the length, the block and the new footer. *)
Lemma append_ok s f before pend b : seg_ok s f before pend -> len f + len b + 8 <= limit ->
  if g_maxSize s <? g_size s then append b (s, f) = (Fail ErrSegmentFull, (s, f))
  else exists s' f', append b (s, f) = (Ret (len b + 8), (s', f')) /\ seg_ok s' f' before (pend ++ [b]) /\ same s s' /\ g_maxSize s' = Z.max (g_maxSize s) (len b).
Proof.
  intros (o & Es & -> & Hl & Hm & Hb)%seg_ok_elim Hn. set (mx := g_maxSize s) in *. set (L := len (file before pend)) in *.
  pose proof (file_len before pend) as EL. fold L in EL. rewrite Es. cbn [g_maxSize g_size]. unfold append. destruct (Z.ltb_spec mx L) as [H|H].
  - mnow. cbn [g_file g_maxSize g_size]. by rewrite (proj2 (Z.ltb_lt mx L)).
  - mnow. cbn [g_file g_maxSize g_size g_pos]. rewrite (proj2 (Z.ltb_ge mx L)) by done.
    erewrite bind_ret; [|apply seekEnd_st; unfold limit in *; lia].
    set (mx' := Z.max mx (len b)).
    erewrite (bind_ret _ _ _ tt (MkSeg L mx' (len (enc before)) (Some (L - 8)) (g_path s) (g_id s), file before pend)).
    2: { destruct (Z.ltb_spec mx (len b)); cbv [upd modify mret M_ret set_maxSize]; cbn; unfold mx'; repeat f_equal; lia. }
    rewrite !u64_id by (apply limit_u64; unfold limit in *; lia).
    erewrite bind_ret; [|rewrite file_last; apply writeBytes_st; [rewrite length_app; lia|rewrite !length_app, !be_put_length; lia]].
    erewrite bind_ret; [|reflexivity]. eexists _, _. split; [reflexivity|].
    assert (E : (enc before ++ enc pend) ++ be_put 8 (len b) ++ b ++ be_put 8 (len (enc before)) = file before (pend ++ [b])).
    { unfold file. rewrite enc_app. by rewrite enc_cons, <- !app_assoc. }
    rewrite E. cbn [set_size g_size g_maxSize g_pos g_file g_path g_id].
    assert (E2 : L + (len b + 8) = len (file before (pend ++ [b]))) by (rewrite file_len, enc_len_app, enc_len_cons; change (len (enc [])) with 0; lia).
    cbn [g_maxSize]. rewrite E2. split; [|done]. apply seg_ok_intro; cbn [g_maxSize]; [done|lia|unfold mx'; lia|]. apply Forall_app. split; [|constructor; [unfold mx'; lia|done]].
    eapply Forall_impl; [exact Hb|]. intros x Hx. cbn in *. unfold mx'. lia.
Qed.

Lemma read_body mx ps sz pa i o a b c : o = len a ->
  readBytes (Z.to_nat (len b)) (MkSeg sz mx ps (Some (o + 8)) pa i, a ++ be_put 8 (len b) ++ b ++ c) =
    (Ret b, (MkSeg sz mx ps (Some (o + 8 + len b)) pa i, a ++ be_put 8 (len b) ++ b ++ c)).
Proof.
  intros Ho. rewrite Nat2Z.id. pose proof (readBytes_st sz mx ps pa i (a ++ be_put 8 (len b)) b c (o + 8)) as E.
  rewrite <- !app_assoc in E. apply E. rewrite length_app, be_put_length. lia.
Qed.

Lemma current_ok s f before pend : seg_ok s f before pend ->
  exists s', current (s, f) = (match pend with [] => Fail EOF | b :: _ => Ret b end, (s', f)) /\ seg_ok s' f before pend /\ same s s' /\ g_maxSize s' = g_maxSize s.
Proof.
  intros H. pose proof (seg_empty_ok _ _ _ _ H) as He. destruct (seg_ok_elim _ _ _ _ H) as (o & Es & -> & Hl & Hm & Hb).
  unfold current. mnow. rewrite He. destruct pend as [|b pend]; [by exists s|]. rewrite bool_decide_eq_false_2 by done.
  apply Forall_cons in Hb as [Hb Hp]. pose proof (file_len before (b :: pend)) as EL. rewrite enc_len_cons in EL. unfold limit in *. rewrite Es.
  erewrite bind_ret; [|apply seekToCurrent_st; unfold limit in *; lia]. rewrite file_head.
  erewrite bind_ret; [|apply readUint64_st; [apply limit_u64; unfold limit; lia|reflexivity]].
  cbn [g_maxSize]. rewrite u64_id by (apply limit_u64; unfold limit; lia). rewrite (proj2 (Z.ltb_ge _ _)) by lia. rewrite read_body by done. eexists. split; [reflexivity|].
  rewrite <- file_head. split; [|done]. apply seg_ok_intro; try done. by constructor.
Qed.

Lemma prefix_len before k rest : len (enc (before ++ k)) + len (enc rest) + 8 = len (file before (k ++ rest)).
Proof. rewrite file_len, !enc_len_app. lia. Qed.

Lemma read_next sz mx ps pa i before k rest : len (file before (k ++ rest)) <= limit ->
  exists v, readUint64 (MkSeg sz mx ps (Some (len (enc (before ++ k)))) pa i, file before (k ++ rest)) =
    (Ret v, (MkSeg sz mx ps (Some (len (enc (before ++ k)) + 8)) pa i, file before (k ++ rest))) /\ match rest with [] => True | b :: _ => v = len b end.
Proof.
  intros Hl. pose proof (prefix_len before k rest) as E. rewrite file_split. destruct rest as [|b rest].
  - exists (len (enc before)). split; [|done]. change (enc [] ++ be_put 8 (len (enc before))) with (be_put 8 (len (enc before))).
    rewrite <- (app_nil_r (be_put 8 (len (enc before)))). apply readUint64_st; [apply limit_u64; rewrite enc_len_app in E; lia|done].
  - exists (len b). split; [|done]. rewrite enc_cons, <- !app_assoc. apply readUint64_st; [apply limit_u64; rewrite enc_len_cons in E; lia|done].
Qed.

Lemma advanceTo_ok s f before k rest : seg_ok s f before (k ++ rest) ->
  exists s' f', advanceTo (len (enc (before ++ k))) (s, f) = (if bool_decide (rest = []) then Fail EOF else Ret tt, (s', f')) /\
    seg_ok s' f' (before ++ k) rest /\ same s s' /\ g_size s' = g_size s /\ g_maxSize s' = g_maxSize s.
Proof.
  intros (o & Es & -> & Hl & Hm & Hb)%seg_ok_elim. pose proof (prefix_len before k rest) as EL. pose proof (enc_len_app before k) as EK. pose proof (file_len before (k ++ rest)) as EQ.
  set (P := len (enc (before ++ k))) in *. set (L := len (file before (k ++ rest))) in *. rewrite Es. unfold advanceTo. mnow.
  rewrite (proj2 (Z.ltb_ge _ _)) by lia. mnow. rewrite (proj2 (Z.ltb_ge _ P)) by (unfold footerSize; lia).
  erewrite bind_ret; [|apply seekEnd_st; unfold limit in *; lia].
  erewrite bind_ret; [|rewrite file_last; apply writeUint64_st; [rewrite !length_app, be_put_length; lia|by rewrite be_put_length|apply limit_u64; lia]].
  assert (E : (enc before ++ enc (k ++ rest)) ++ be_put 8 P = file (before ++ k) rest) by (unfold file; fold P; by rewrite !enc_app, <- !app_assoc).
  rewrite E. erewrite bind_ret; [|apply seekToCurrent_st; cbn; unfold limit in *; lia].
  assert (EF : len (file (before ++ k) rest) = L) by (rewrite file_len; fold P; lia).
  destruct (read_next L (g_maxSize s) P (g_path s) (g_id s) (before ++ k) [] rest) as (v & Ev & _); [cbn [app]; lia|].
  rewrite app_nil_r in Ev. cbn [app] in Ev. erewrite bind_ret; [|exact Ev]. eexists _, _. split.
  - destruct rest as [|b rest].
    + rewrite bool_decide_eq_true_2 by done. rewrite (proj2 (Z.eqb_eq _ _)) by (unfold footerSize; change (len (enc [])) with 0 in EL; lia). reflexivity.
    + rewrite bool_decide_eq_false_2 by done. rewrite enc_len_cons in EL. rewrite (proj2 (Z.eqb_neq _ _)) by (unfold footerSize; lia). reflexivity.
  - split; [|done]. rewrite <- EF. apply seg_ok_intro; [done|lia|done|]. by apply Forall_app in Hb as [_ Hb].
Qed.

Lemma advance_ok s f before b rest : seg_ok s f before (b :: rest) ->
  exists s' f', advance (s, f) = (if bool_decide (rest = []) then Fail EOF else Ret tt, (s', f')) /\
    seg_ok s' f' (before ++ [b]) rest /\ same s s' /\ g_size s' = g_size s /\ g_maxSize s' = g_maxSize s.
Proof.
  intros H. destruct (seg_ok_elim _ _ _ _ H) as (o & Es & -> & Hl & Hm & Hb). pose proof (prefix_len before [b] rest) as EL.
  cbn [app] in EL. unfold advance. rewrite Es. pose proof (file_len before (b :: rest)) as EF.
  erewrite bind_ret; [|apply seekToCurrent_st; unfold limit in *; lia].
  destruct (read_next (len (file before (b :: rest))) (g_maxSize s) (len (enc before)) (g_path s) (g_id s) before [] (b :: rest)) as (v & Ev & ->); [done|].
  rewrite app_nil_r in Ev. cbn [app] in Ev. erewrite bind_ret; [|exact Ev]. mnow.
  assert (len (enc (before ++ [b])) = len (enc before) + len b + 8) as E1 by (rewrite enc_len_app, enc_len_cons; change (len (enc [])) with 0; lia).
  rewrite (limit_i64 (len b)), (limit_i64 (_ + _)) by lia. rewrite <- E1.
  destruct (advanceTo_ok (MkSeg (len (file before (b :: rest))) (g_maxSize s) (len (enc before)) (Some (len (enc before) + 8)) (g_path s) (g_id s)) (file before (b :: rest)) before [b] rest) as (s' & f' & E & H' & (S1 & S2) & S3 & S4).
  { cbn [app]. by apply seg_ok_intro. }
  rewrite E. exists s', f'. split; [done|]. split; [done|]. done.
Qed.

Definition nonempty (b : block) : Prop := b <> [].

Lemma peek_loop_ok n mx sz pa i before k rest blocks o : let f := file before (k ++ rest) in
  sz = len f -> sz <= limit -> 0 <= mx <= limit -> Forall (fun b => len b <= mx) rest -> o = len (enc (before ++ k)) ->
  exists o', peek_loop n o blocks (MkSeg sz mx (len (enc before)) (Some o) pa i, f) =
    (Ret (blocks ++ filter nonempty (take n rest)), (MkSeg sz mx (len (enc before)) (Some o') pa i, f)).
Proof.
  intros f Es Hl Hm. unfold f in *. clear f. revert k rest blocks o Es. induction n as [|n IH]; intros k rest blocks o Es Hb Ho.
  { exists o. cbn. by rewrite app_nil_r. }
  cbn [peek_loop]. mnow. pose proof (prefix_len before k rest) as EL. destruct rest as [|b rest].
  { change (len (enc [])) with 0 in EL. rewrite (proj2 (Z.eqb_eq _ _)) by (unfold footerSize; lia). exists o. change (filter nonempty (take (S n) [])) with (@nil block). by rewrite (app_nil_r blocks). }
  apply Forall_cons in Hb as [Hb Hr]. rewrite enc_len_cons in EL. rewrite (proj2 (Z.eqb_neq _ _)) by (unfold footerSize; lia).
  destruct (read_next sz mx (len (enc before)) pa i before k (b :: rest)) as (v & Ev & ->); [lia|]. rewrite Ho.
  erewrite bind_ret; [|apply attempt_eq; exact Ev]. cbn [take].
  assert (E2 : file before (k ++ b :: rest) = file before ((k ++ [b]) ++ rest)) by by rewrite <- app_assoc.
  assert (E3 : len (enc (before ++ (k ++ [b]))) = len (enc (before ++ k)) + 8 + len b).
  { rewrite app_assoc, enc_len_app, enc_len_cons. change (len (enc [])) with 0. lia. }
  destruct b as [|x b].
  - cbn [length Z.of_nat Z.eqb]. rewrite E2. rewrite filter_cons_False by (unfold nonempty; naive_solver).
    apply IH; [by rewrite <- E2|done|rewrite E3; cbn; lia].
  - rewrite (proj2 (Z.eqb_neq _ _)) by (cbn [length]; lia). rewrite u64_id by (apply limit_u64; lia). rewrite (proj2 (Z.ltb_ge _ _)) by lia.
    erewrite bind_ret; [|rewrite file_split, enc_cons, <- !app_assoc; by apply read_body].
    rewrite (limit_i64 (len _)), (limit_i64 (_ + _)) by lia. rewrite <- enc_cons_app, <- file_split, E2. rewrite filter_cons_True by done.
    destruct (IH (k ++ [x :: b]) rest (blocks ++ [x :: b]) (len (enc (before ++ k)) + 8 + len (x :: b))) as (o' & E); [by rewrite <- E2|done|by rewrite E3|].
    exists o'. rewrite E. by rewrite <- app_assoc.
Qed.

Lemma peek_ok s f before pend n : seg_ok s f before pend ->
  exists s', peek n (s, f) = (match pend with [] => Fail EOF | _ => Ret (filter nonempty (take (Z.to_nat n) pend)) end, (s', f)) /\
    seg_ok s' f before pend /\ same s s' /\ g_maxSize s' = g_maxSize s.
Proof.
  intros H. pose proof (seg_empty_ok _ _ _ _ H) as He. destruct (seg_ok_elim _ _ _ _ H) as (o & Es & -> & Hl & Hm & Hb).
  unfold peek. mnow. rewrite He. destruct pend as [|b pend]; [by exists s|]. rewrite bool_decide_eq_false_2 by done.
  pose proof (file_len before (b :: pend)) as EL. rewrite Es. erewrite bind_ret; [|apply seekToCurrent_st; unfold limit in *; lia]. cbn [g_pos].
  destruct (peek_loop_ok (Z.to_nat n) (g_maxSize s) (len (file before (b :: pend))) (g_path s) (g_id s) before [] (b :: pend) [] (len (enc before))) as (o' & E); try done.
  { by rewrite app_nil_r. }
  cbn [app] in E. rewrite E. eexists. split; [reflexivity|]. split; [by apply seg_ok_intro|done].
Qed.

Lemma newScanner_ok s f before pend : seg_ok s f before pend ->
  exists s', newScanner (s, f) = (match pend with [] => Fail EOF | _ => Ret (MkScan (g_path s) (len (enc before)) 0 [] None false) end, (s', f)) /\
    seg_ok s' f before pend /\ same s s' /\ g_maxSize s' = g_maxSize s.
Proof.
  intros H. pose proof (seg_empty_ok _ _ _ _ H) as He. destruct (seg_ok_elim _ _ _ _ H) as (o & Es & -> & Hl & Hm & Hb).
  unfold newScanner. mnow. rewrite He. destruct pend as [|b pend]; [by exists s|]. rewrite bool_decide_eq_false_2 by done.
  pose proof (file_len before (b :: pend)) as EL. rewrite Es. erewrite bind_ret; [|apply seekToCurrent_st; unfold limit in *; lia].
  eexists. split; [reflexivity|]. split; [by apply seg_ok_intro|done].
Qed.

(** The first block with bytes, and how many blocks [Next] passes to reach
    it, itself included. *)
Fixpoint found (rest : list block) : option block :=
  match rest with [] => None | [] :: rest => found rest | b :: _ => Some b end.
Fixpoint skip (rest : list block) : nat :=
  match rest with [] => 0 | [] :: rest => S (skip rest) | _ :: _ => 1 end.

Definition scanner (p : name) (pos n : Z) (buf : list Z) (eof : bool) : segmentScanner := MkScan p pos n buf None eof.

Lemma next_loop_ok fuel mx sz pa i before k rest p n buf o : let f := file before (k ++ rest) in
  sz = len f -> sz <= limit -> 0 <= mx <= limit -> Forall (fun b => len b <= mx) rest -> o = len (enc (before ++ k)) -> (length rest < fuel)%nat ->
  exists o', next_loop fuel (scanner p o n buf false) (MkSeg sz mx (len (enc before)) (Some o) pa i, f) =
    (Ret (scanner p (len (enc (before ++ k ++ take (skip rest) rest))) (n + Z.of_nat (skip rest)) (default buf (found rest)) (bool_decide (found rest = None)),
          bool_decide (is_Some (found rest))), (MkSeg sz mx (len (enc before)) (Some o') pa i, f)).
Proof.
  intros f Es Hl Hm. unfold f in *. clear f. revert k rest n o Es. induction fuel as [|fuel IH]; intros k rest n o Es Hb Ho Hf; [lia|].
  cbn [next_loop scanner c_pos c_s c_n c_buf c_err c_eof]. mnow. pose proof (prefix_len before k rest) as EL. destruct rest as [|b rest].
  { change (len (enc [])) with 0 in EL. rewrite (proj2 (Z.eqb_eq _ _)) by (unfold footerSize; lia). exists o.
    cbn [found skip take default Z.of_nat]. rewrite app_nil_r, Z.add_0_r, <- Ho. done. }
  apply Forall_cons in Hb as [Hb Hr]. rewrite enc_len_cons in EL. rewrite (proj2 (Z.eqb_neq _ _)) by (unfold footerSize; lia).
  destruct (read_next sz mx (len (enc before)) pa i before k (b :: rest)) as (v & Ev & ->); [lia|]. rewrite Ho.
  erewrite bind_ret; [|apply attempt_eq; exact Ev]. cbn [length] in Hf.
  assert (E2 : file before (k ++ b :: rest) = file before ((k ++ [b]) ++ rest)) by by rewrite <- app_assoc.
  assert (E3 : len (enc (before ++ (k ++ [b]))) = len (enc (before ++ k)) + 8 + len b).
  { rewrite app_assoc, enc_len_app, enc_len_cons. change (len (enc [])) with 0. lia. }
  cbv beta iota zeta. cbn [c_pos c_s c_n c_buf c_err c_eof]. rewrite (limit_i64 (len b)), (limit_i64 (_ + _)) by lia. destruct b as [|x b].
  - change (len []) with 0 in *. cbn [Z.eqb]. rewrite E2. destruct (IH (k ++ [[]]) rest (n + 1) (len (enc (before ++ k)) + 8)) as (o' & E); [by rewrite <- E2|done|rewrite E3; lia|lia|].
    exists o'. rewrite Z.add_0_r. unfold scanner in E. rewrite E. cbn [found skip take]. rewrite <- app_assoc. cbn [app]. replace (n + 1 + Z.of_nat (skip rest)) with (n + Z.of_nat (S (skip rest))) by lia. done.
  - rewrite (proj2 (Z.eqb_neq _ _)) by (cbn [length]; lia). rewrite u64_id by (apply limit_u64; lia). rewrite (proj2 (Z.ltb_ge _ _)) by lia.
    erewrite bind_ret; [|apply attempt_eq; rewrite file_split, enc_cons, <- !app_assoc; by apply read_body].
    eexists. rewrite <- enc_cons_app, <- file_split. cbn [found skip take]. rewrite take_0, E3. reflexivity.
Qed.

Lemma enc_count bs : (length bs <= length (enc bs))%nat.
Proof. induction bs as [|b bs IH]; [done|]. pose proof (enc_len_cons b bs). cbn [length] in *. lia. Qed.

Lemma seg_Next_ok s f before k rest p n buf : seg_ok s f before (k ++ rest) ->
  exists s', seg_Next (scanner p (len (enc (before ++ k))) n buf false) (s, f) =
    (Ret (scanner p (len (enc (before ++ k ++ take (skip rest) rest))) (n + Z.of_nat (skip rest)) (default buf (found rest)) (bool_decide (found rest = None)),
          bool_decide (is_Some (found rest))), (s', f)) /\ seg_ok s' f before (k ++ rest) /\ same s s' /\ g_maxSize s' = g_maxSize s.
Proof.
  intros H. destruct (seg_ok_elim _ _ _ _ H) as (o & Es & -> & Hl & Hm & Hb). unfold seg_Next. cbn [scanner c_eof c_err c_pos].
  rewrite bool_decide_eq_true_2 by done. cbn [orb negb]. rewrite Es. pose proof (prefix_len before k rest) as EL.
  erewrite bind_ret; [|apply attempt_eq, seek_st; unfold limit in *; lia]. cbv beta iota. mnow.
  destruct (next_loop_ok (S (length (file before (k ++ rest)))) (g_maxSize s) (len (file before (k ++ rest))) (g_path s) (g_id s) before k rest p n buf (len (enc (before ++ k)))) as (o' & E); try done.
  { by apply Forall_app in Hb as [_ Hb]. }
  { pose proof (enc_count rest). lia. }
  unfold scanner in *. rewrite E. eexists. split; [reflexivity|]. split; [by apply seg_ok_intro|done].
Qed.

(** *** Opening *)

Lemma open_new vf mx pa i : 0 <= mx <= limit ->
  exists s f, open vf (MkSeg 0 mx 0 (Some 0) pa i, []) = (Ret tt, (s, f)) /\ seg_ok s f [] [] /\ g_path s = pa /\ g_id s = i /\ g_maxSize s = mx.
Proof. intros H. eexists _, _. split; [reflexivity|]. split; [|done]. exists 8. split_and!; cbn [g_maxSize set_size set_file set_pos]; try done; lia. Qed.

Lemma open_file vf mx pa i before pend : len (file before pend) <= limit -> len (file before pend) <= mx <= limit ->
  match pend with [] => True | b :: _ => vf b = None end ->
  exists s, open vf (MkSeg (len (file before pend)) mx 0 (Some 0) pa i, file before pend) = (Ret tt, (s, file before pend)) /\
    seg_ok s (file before pend) before pend /\ g_path s = pa /\ g_id s = i /\ g_maxSize s = mx.
Proof.
  intros Hl Hm Hv. pose proof (file_len before pend) as EL. set (L := len (file before pend)) in *. unfold open. change 5%nat with (S 4). generalize 4%nat as fl. intros fl. cbn [open_fuel]. mnow.
  rewrite (proj2 (Z.eqb_neq _ _)) by lia. erewrite bind_ret; [|apply seekEnd_st; unfold limit in *; lia].
  erewrite bind_ret; [|rewrite file_last; rewrite <- (app_nil_r (be_put 8 _)); apply readUint64_st; [apply limit_u64; lia|rewrite !length_app, be_put_length; cbn; lia]].
  rewrite app_nil_r, <- file_last. fold L. mnow. unfold footerSize. rewrite u64_id by (apply limit_u64; lia). rewrite (proj2 (Z.ltb_ge _ _)) by lia.
  mnow. rewrite limit_i64 by lia. mnow. erewrite bind_ret; [|apply seekToCurrent_st; unfold limit in *; cbn; lia]. mnow.
  assert (Hok : forall o, seg_ok (MkSeg L mx (len (enc before)) (Some o) pa i) (file before pend) before pend).
  { intros o. apply seg_ok_intro; [done|done|lia|]. apply Forall_forall. intros b Hb. apply list_elem_of_split in Hb as (p1 & p2 & ->).
    rewrite enc_len_app, enc_len_cons in EL. lia. }
  destruct pend as [|b pend].
  { change (len (enc [])) with 0 in EL. rewrite (proj2 (Z.leb_le _ _)) by lia. eexists. by split. }
  rewrite enc_len_cons in EL. rewrite (proj2 (Z.leb_gt _ _)) by lia.
  destruct (read_next L mx (len (enc before)) pa i before [] (b :: pend)) as (v & Ev & ->); [done|]. rewrite app_nil_r in Ev. cbn [app] in Ev.
  erewrite bind_ret; [|exact Ev]. rewrite limit_i64 by lia. rewrite (proj2 (Z.ltb_ge _ _)) by lia. rewrite (proj2 (Z.ltb_ge _ _)) by lia. cbn [orb].
  erewrite bind_ret; [|apply attempt_eq; rewrite file_head; by apply read_body]. rewrite <- file_head.
  erewrite bind_ret; [|apply seek_st; unfold limit in *; lia]. rewrite Hv. eexists. by split.
Qed.

(** *** Repair *)

(** What follows the complete blocks of a damaged file: a footer, or at
    least eight bytes whose first eight are the length of a block that the
    file does not hold in front of its last eight bytes. *)
Definition rest_of (t : list Z) : Prop :=
  8 <= len t /\ 0 <= be_get (take 8 t) < 2 ^ 63 /\ (len t = 8 \/ len t - 16 < be_get (take 8 t)).

Lemma readUint64_raw sz mx ps pa i a t o : 8 <= len t -> o = len a ->
  readUint64 (MkSeg sz mx ps (Some o) pa i, a ++ t) = (Ret (be_get (take 8 t)), (MkSeg sz mx ps (Some (o + 8)) pa i, a ++ t)).
Proof.
  intros Ht Ho. unfold readUint64. assert (El : length (take 8 t) = 8%nat) by (rewrite length_take; lia).
  pose proof (readBytes_st sz mx ps pa i a (take 8 t) (drop 8 t) o Ho) as E. rewrite take_drop, El in E. by erewrite bind_ret by exact E.
Qed.

Lemma filePos_st sz mx ps pa i o f : filePos (MkSeg sz mx ps (Some o) pa i, f) = (Ret o, (MkSeg sz mx ps (Some o) pa i, f)).
Proof. done. Qed.

Lemma repair_loop_ok fuel mx sz ps pa i k rest t o : let f := enc (k ++ rest) ++ t in
  sz = len f -> sz <= limit -> rest_of t -> o = len (enc k) -> (length rest < fuel)%nat ->
  exists o', repair_loop fuel (MkSeg sz mx ps (Some o) pa i, f) = (Ret (len (enc (k ++ rest)), bool_decide (len t <> 8)), (MkSeg sz mx ps (Some o') pa i, f)).
Proof.
  intros f Es Hl Ht. destruct Ht as (Ht & Hv & Hc). unfold f in *. clear f. revert k rest o Es. induction fuel as [|fuel IH]; intros k rest o Es Ho Hf; [lia|].
  cbn [repair_loop]. erewrite bind_ret; [|apply filePos_st]. mnow. rewrite length_app, Nat2Z.inj_add in Es. pose proof (enc_len_app k rest) as EK. destruct rest as [|b rest].
  - rewrite app_nil_r in *. change (len (enc [])) with 0 in EK. destruct (decide (len t = 8)) as [E8|E8].
    + rewrite (proj2 (Z.eqb_eq _ _)) by (unfold footerSize; lia). rewrite bool_decide_eq_false_2 by lia. exists o. by rewrite Ho.
    + rewrite (proj2 (Z.eqb_neq _ _)) by (unfold footerSize; lia). rewrite bool_decide_eq_true_2 by lia.
      erewrite bind_ret; [|apply attempt_eq, readUint64_raw; lia]. cbv beta iota. rewrite i64_id by (unint; lia).
      set (v := be_get (take 8 t)) in *. destruct (decide (o + 8 + v < 2 ^ 63)) as [Hs|Hs].
      * erewrite bind_ret; [|apply attempt_eq; unfold seekCurrent; mnow; apply move_to_st; lia]. erewrite bind_ret; [|apply filePos_st].
        rewrite (proj2 (Z.ltb_lt _ _)) by (unfold footerSize; lia). eexists. by rewrite Ho.
      * erewrite bind_ret; [|apply attempt_eq; unfold seekCurrent; mnow; unfold move_to; rewrite (proj2 (Z.leb_le (2 ^ 63) _)), orb_true_r by lia; reflexivity].
        erewrite bind_ret; [|apply filePos_st]. eexists. by rewrite Ho.
  - rewrite enc_len_cons in EK. rewrite (proj2 (Z.eqb_neq _ _)) by (unfold footerSize; lia). cbn [length] in Hf.
    erewrite bind_ret; [|apply attempt_eq; rewrite enc_app, enc_cons, <- !app_assoc; apply readUint64_st; [apply limit_u64; lia|done]]. cbv beta iota.
    rewrite limit_i64 by lia. erewrite bind_ret; [|apply attempt_eq; unfold seekCurrent; mnow; apply move_to_st; unfold limit in *; lia].
    erewrite bind_ret; [|apply filePos_st]. rewrite (proj2 (Z.ltb_ge _ _)) by (unfold footerSize; lia).
    assert (E2 : k ++ b :: rest = (k ++ [b]) ++ rest) by by rewrite <- app_assoc.
    assert (E3 : len (enc (k ++ [b])) = o + 8 + len b) by (rewrite enc_len_app, enc_len_cons; change (len (enc [])) with 0; lia).
    destruct (IH (k ++ [b]) rest (o + 8 + len b)) as (o' & E); [rewrite <- E2, length_app; lia|lia|lia|].
    exists o'. rewrite <- E2 in E. rewrite <- E. rewrite enc_app, enc_cons, <- !app_assoc. done.
Qed.

Lemma repair_ok mx sz ps pa i o bs t : let f := enc bs ++ t in sz = len f -> sz <= limit -> rest_of t ->
  exists o', repair (MkSeg sz mx ps (Some o) pa i, f) = (Ret 0, (MkSeg (len (file [] bs)) mx ps (Some o') pa i, file [] bs)).
Proof.
  intros f Es Hl Ht. unfold repair. erewrite bind_ret; [|apply seek_st; lia]. mnow.
  destruct (repair_loop_ok (S (length f)) mx sz ps pa i [] bs t 0) as (o1 & E); try done.
  { pose proof (enc_count bs). unfold f. rewrite length_app. lia. }
  cbn [app] in E. fold f in E. erewrite bind_ret by exact E. cbv beta iota. unfold f in *. rewrite length_app, Nat2Z.inj_add in Es. destruct Ht as (Ht & _).
  assert (Ef : file [] bs = enc bs ++ be_put 8 (u64 0)) by done.
  assert (EL : len (file [] bs) = len (enc bs) + 8) by (rewrite Ef, length_app, be_put_length; lia).
  destruct (decide (len t = 8)) as [E8|E8].
  - rewrite bool_decide_eq_false_2 by lia. mnow. erewrite bind_ret; [|apply seek_st; unfold limit in *; lia].
    erewrite bind_ret; [|apply writeBytes_st; [done|rewrite be_put_length; lia]]. mnow. rewrite <- Ef, EL. eexists. reflexivity.
  - rewrite bool_decide_eq_true_2 by lia. erewrite bind_ret; [|by apply Truncate_st]. erewrite bind_ret; [|apply seek_st; unfold limit in *; lia].
    erewrite bind_ret; [|rewrite <- (app_nil_r (enc bs)) at 2; apply writeBytes_st; [done|cbn; lia]]. mnow. rewrite <- Ef, EL. eexists. reflexivity.
Qed.

(** C38. Opening a segment file that consists of complete blocks and a damaged
    tail cuts the tail off and leaves exactly those blocks to be read, from the
    first one, when: the last eight bytes of the file are no offset in it; the
    tail has at least eight bytes, which begin with the length of a block, not
    negative as an [int64], and unless that is all of the tail, the block would
    reach into the last eight bytes of the file or beyond; the file is not
    larger than a segment may be; and the first block passes the verification
    the queue was given.  A shorter tail costs the last complete block (the
    example [short_tail_cuts_block]), and a negative length can keep [repair]
    from returning. *)
Theorem damaged_segment_recovered vf mx pa i bs t : let f := enc bs ++ t in
  len f <= mx <= limit -> rest_of t -> is_u64 (be_get (drop (length f - 8) f)) -> len f - 8 < be_get (drop (length f - 8) f) ->
  match bs with [] => True | b :: _ => vf b = None end ->
  exists s f', open vf (MkSeg (len f) mx 0 (Some 0) pa i, f) = (Ret tt, (s, f')) /\ seg_ok s f' [] bs /\ g_path s = pa /\ g_id s = i.
Proof.
  intros f Hl Ht Hu Hp Hv. assert (H8 : 8 <= len t) by apply Ht. assert (Hf8 : 8 <= len f) by (unfold f; rewrite length_app; lia).
  unfold open. change 5%nat with (S 4). generalize 4%nat as fl. intros fl. cbn [open_fuel]. mnow. rewrite (proj2 (Z.eqb_neq _ _)) by lia.
  erewrite bind_ret; [|apply seekEnd_st; unfold limit in *; lia].
  pose proof (readUint64_raw (len f) mx 0 pa i (take (length f - 8) f) (drop (length f - 8) f) (len f - 8)) as R.
  rewrite take_drop in R. rewrite (take_ge (drop _ _)) in R by (rewrite length_drop; lia).
  erewrite bind_ret; [|apply R; [rewrite length_drop; lia|rewrite length_take; lia]]. mnow. set (p := be_get (drop (length f - 8) f)) in *.
  rewrite u64_id by (apply limit_u64; unfold footerSize; lia). rewrite (proj2 (Z.ltb_lt _ _)) by (unfold footerSize; lia).
  destruct (repair_ok mx (len f) 0 pa i (len f - 8 + 8) bs t) as (o' & E); [done|lia|done|]. fold f in E. erewrite bind_ret by exact E.
  mnow. change (i64 0) with 0. erewrite bind_ret; [|apply seekToCurrent_st; cbn; lia].
  assert (EL : len (file [] bs) = len (enc bs) + 8) by (rewrite file_len; change (len (enc [])) with 0; lia).
  assert (Ef : len f = len (enc bs) + len t) by (unfold f; rewrite length_app; lia).
  mnow. assert (Hok : forall o, seg_ok (MkSeg (len (file [] bs)) mx 0 (Some o) pa i) (file [] bs) [] bs).
  { intros o. change 0 with (len (enc [])). apply seg_ok_intro; [done|lia|lia|]. apply Forall_forall. intros b Hb. apply list_elem_of_split in Hb as (p1 & p2 & ->).
    rewrite enc_len_app, enc_len_cons in Ef. lia. }
  destruct bs as [|b bs].
  { rewrite (proj2 (Z.leb_le _ _)) by (unfold footerSize; change (len (enc [])) with 0 in EL; lia). eexists _, _. by split. }
  rewrite enc_len_cons in EL, Ef. rewrite (proj2 (Z.leb_gt _ _)) by (unfold footerSize; lia).
  destruct (read_next (len (file [] (b :: bs))) mx 0 pa i [] [] (b :: bs)) as (v & Ev & ->); [cbn [app]; lia|]. cbn [app] in Ev.
  erewrite bind_ret; [|exact Ev]. rewrite limit_i64 by lia. unfold footerSize. rewrite (proj2 (Z.ltb_ge _ _)) by lia. rewrite (proj2 (Z.ltb_ge _ _)) by lia. cbn [orb].
  erewrite bind_ret; [|apply attempt_eq; rewrite file_head; by apply read_body]. rewrite <- file_head.
  erewrite bind_ret; [|apply seek_st; unfold limit in *; lia]. rewrite Hv. eexists _, _. by split.
Qed.

Definition damaged : list Z := enc [[1; 2]; [3]] ++ be_put 8 5 ++ [9].
Lemma damaged_segment_recovered_witness :
  exists s f', open (fun _ => None) (MkSeg (len damaged) 100 0 (Some 0) [49] 1, damaged) = (Ret tt, (s, f')) /\ seg_ok s f' [] [[1; 2]; [3]] /\ g_path s = [49] /\ g_id s = 1.
Proof.
  apply (damaged_segment_recovered (fun _ => None) 100 [49] 1 [[1; 2]; [3]] (be_put 8 5 ++ [9])).
  - split; vm_compute; congruence.
  - split; [vm_compute; congruence|]. split; [split; vm_compute; [congruence|reflexivity]|]. right. vm_compute. reflexivity.
  - split; vm_compute; [congruence|reflexivity].
  - vm_compute. reflexivity.
  - reflexivity.
Defined.

(** A tail of two bytes costs the complete block in front of it. *)
Example short_tail_cuts_block :
  let f := enc [[1; 2]; [3]] ++ [9; 9] in
  (open (fun _ => None) (MkSeg (len f) 100 0 (Some 0) [49] 1, f)).2.2 = file [] [[1; 2]].
Proof. vm_compute. reflexivity. Qed.

(** A length of minus eight takes the walk back to where it was read. *)
Lemma repair_loop_stuck fuel sz mx ps pa i a c : let f := a ++ be_put 8 (2 ^ 64 - 8) ++ c in
  sz = len f -> sz <= limit -> len c <> 0 -> 0 <= sz ->
  repair_loop fuel (MkSeg sz mx ps (Some (len a)) pa i, f) = (Fail hang, (MkSeg sz mx ps (Some (len a)) pa i, f)).
Proof.
  intros f Es Hl Hc H0. pose proof Es as EL. unfold f in EL. rewrite !length_app, be_put_length in EL. unfold f in *. induction fuel as [|fuel IH]; [done|]. cbn [repair_loop].
  erewrite bind_ret; [|apply filePos_st]. mnow. rewrite (proj2 (Z.eqb_neq _ _)) by (unfold footerSize; lia).
  erewrite bind_ret; [|apply attempt_eq, readUint64_st; [done|done]]. cbv beta iota. change (i64 (2 ^ 64 - 8)) with (-8).
  erewrite bind_ret; [|apply attempt_eq; unfold seekCurrent; mnow; apply move_to_st; unfold limit in *; lia].
  erewrite bind_ret; [|apply filePos_st]. rewrite (proj2 (Z.ltb_ge _ _)) by (unfold footerSize; lia).
  replace (len a + 8 + -8) with (len a) by lia. exact IH.
Qed.

(** C39. A damaged length of minus eight behind any complete blocks keeps
    [repair] from returning: no number of rounds of its loop is enough. *)
Theorem repair_never_returns fuel sz mx ps pa i bs c : let f := enc bs ++ be_put 8 (2 ^ 64 - 8) ++ c in
  sz = len f -> sz <= limit -> c <> [] ->
  exists o, repair_loop fuel (MkSeg sz mx ps (Some 0) pa i, f) = (Fail hang, (MkSeg sz mx ps (Some o) pa i, f)).
Proof.
  intros f Es Hl Hc. assert (Hc0 : len c <> 0) by (destruct c; [done|cbn; lia]).
  assert (forall fuel k rest, bs = k ++ rest -> exists o, repair_loop fuel (MkSeg sz mx ps (Some (len (enc k))) pa i, f) = (Fail hang, (MkSeg sz mx ps (Some o) pa i, f))) as Hgen; [|by apply (Hgen fuel [] bs)].
  clear fuel. induction fuel as [|fuel IH]; intros k rest E; [by eexists|]. destruct rest as [|b rest].
  - rewrite app_nil_r in E. subst k. exists (len (enc bs)). apply repair_loop_stuck; [done|done|done|lia].
  - assert (EL : sz = len (enc k) + (len b + 8 + len (enc rest)) + (8 + len c)).
    { rewrite Es. unfold f. rewrite E, !length_app, be_put_length. pose proof (enc_len_app k (b :: rest)). rewrite enc_len_cons in *. lia. }
    cbn [repair_loop]. erewrite bind_ret; [|apply filePos_st]. mnow. rewrite (proj2 (Z.eqb_neq _ _)) by (unfold footerSize; lia).
    assert (Ef : f = enc k ++ be_put 8 (len b) ++ b ++ enc rest ++ be_put 8 (2 ^ 64 - 8) ++ c) by (unfold f; by rewrite E, enc_app, enc_cons, <- !app_assoc).
    erewrite bind_ret; [|apply attempt_eq; rewrite Ef; apply readUint64_st; [apply limit_u64; lia|done]]. rewrite <- Ef. cbv beta iota.
    rewrite limit_i64 by lia. erewrite bind_ret; [|apply attempt_eq; unfold seekCurrent; mnow; apply move_to_st; unfold limit in *; lia].
    erewrite bind_ret; [|apply filePos_st]. rewrite (proj2 (Z.ltb_ge _ _)) by (unfold footerSize; lia).
    replace (len (enc k) + 8 + len b) with (len (enc (k ++ [b]))) by (rewrite enc_len_app, enc_len_cons; change (len (enc [])) with 0; lia).
    apply (IH (k ++ [b]) rest). by rewrite <- app_assoc.
Qed.
Definition endless : list Z := enc [[1; 2]] ++ be_put 8 (2 ^ 64 - 8) ++ [0].
Lemma repair_never_returns_witness : exists o, repair_loop 1000 (MkSeg (len endless) 100 0 (Some 0) [49] 1, endless) = (Fail hang, (MkSeg (len endless) 100 0 (Some o) [49] 1, endless)).
Proof. apply (repair_never_returns 1000 (len endless) 100 0 [49] 1 [[1; 2]] [0]); [reflexivity|vm_compute; congruence|congruence]. Defined.
End DQueueSegs.
