(* ===== verification/DQueueSpec.v ===== *)
(** * pkg/durablequeue: the queue refines a list of blocks

    The queue over its segment files behaves as a first-in first-out list of
    byte blocks, across segment files, interleaved scanning and writing, and
    restarts.  The theorems also say what the repair of a damaged segment
    keeps, and show the misuses and damages the code does not survive. *)
From S2P Require Import Prelude Ring WalLog DQueue DQueueSegs.
From stdpp Require Import gmap sorting.
Import DQueue.
Import DQueueSegs.
#[global] Open Scope Z_scope.

Module DQueueSpec.

Lemma elem_mid {A} (x : A) l1 l2 : x ∈ l1 ++ x :: l2.
Proof. set_solver. Qed.
Lemma elem_mid_ne {A} (x y : A) l1 l2 : y ∈ l1 ++ l2 -> y ∈ l1 ++ x :: l2.
Proof. set_solver. Qed.
Lemma elem_mid_inv {A} (x y : A) l1 l2 : y ∈ l1 ++ x :: l2 -> y = x \/ y ∈ l1 ++ l2.
Proof. set_solver. Qed.

(** ** Names *)

Lemma parse_digits_snoc l acc d : 0 <= d <= 9 -> WalLog.parse_digits acc (l ++ [48 + d]) = v ← WalLog.parse_digits acc l; Some (v * 10 + d).
Proof.
  intros Hd. revert acc. induction l as [|x l IH]; intros acc; cbn [app WalLog.parse_digits].
  - rewrite (proj2 (Z.leb_le 48 _)), (proj2 (Z.leb_le _ 57)) by lia. cbn. do 2 f_equal. lia.
  - destruct ((48 <=? x) && (x <=? 57)); [apply IH|done].
Qed.

Lemma parse_decimal fuel n : 0 <= n < 10 ^ Z.of_nat fuel -> (0 < fuel)%nat -> WalLog.parse_digits 0 (WalLog.decimal fuel n) = Some n.
Proof.
  revert n. induction fuel as [|fuel IH]; intros n Hn Hf; [lia|]. cbn [WalLog.decimal]. destruct (Z.ltb_spec n 10).
  - change [48 + n] with ([] ++ [48 + n]). by rewrite parse_digits_snoc by lia.
  - rewrite Nat2Z.inj_succ, Z.pow_succ_r in Hn by lia. rewrite parse_digits_snoc by (pose proof (Z.mod_pos_bound n 10); lia).
    destruct fuel as [|fuel]; [cbn in Hn; lia|]. rewrite IH; [|split; [apply Z.div_pos; lia|apply Z.div_lt_upper_bound; lia]|lia].
    cbn. f_equal. pose proof (Z.div_mod n 10). lia.
Qed.

Lemma ParseUint_Format id : 0 <= id < 2 ^ 64 -> ParseUint (FormatUint id) = Some id.
Proof.
  intros H. unfold FormatUint. pose proof (parse_decimal 20 id ltac:(lia) ltac:(lia)) as E. unfold ParseUint.
  destruct (WalLog.decimal 20 id) as [|x l] eqn:Ed; [|rewrite E; cbn; by rewrite (proj2 (Z.ltb_lt _ _)) by lia].
  cbn [WalLog.decimal] in Ed. destruct (id <? 10); [done|]. by apply app_nil in Ed as [_ ?].
Qed.

Lemma FormatUint_inj a b : 0 <= a < 2 ^ 64 -> 0 <= b < 2 ^ 64 -> FormatUint a = FormatUint b -> a = b.
Proof. intros Ha Hb E. apply (f_equal ParseUint) in E. rewrite !ParseUint_Format in E by done. by injection E. Qed.

Lemma elem_of_ReadDir d n : n ∈ ReadDir d <-> is_Some (d !! n).
Proof.
  unfold ReadDir, Ring.Sort. rewrite merge_sort_Permutation, list_elem_of_fmap. split.
  - intros ([k v] & -> & Hk%elem_of_map_to_list). by exists v.
  - intros [v Hv]. exists (n, v). split; [done|]. by apply elem_of_map_to_list.
Qed.

Lemma ReadDir_NoDup d : NoDup (ReadDir d).
Proof. unfold ReadDir, Ring.Sort. rewrite merge_sort_Permutation. apply NoDup_fst_map_to_list. Qed.

Definition max_id (m : Z) (l : list name) : Z := foldl (fun m n => match ParseUint n with Some id => Z.max m id | None => m end) m l.

Lemma max_id_le m l B : m <= B -> (forall n id, n ∈ l -> ParseUint n = Some id -> id <= B) -> max_id m l <= B.
Proof.
  revert m. induction l as [|n l IH]; intros m Hm H; [done|]. cbn. apply IH; [|set_solver]. destruct (ParseUint n) as [id|] eqn:E; [|done].
  apply Z.max_lub; [done|]. apply (H n id); [apply elem_of_cons; by left|done].
Qed.

Lemma max_id_ge m l : m <= max_id m l.
Proof. revert m. induction l as [|n l IH]; intros m; [done|]. cbn. etrans; [|apply IH]. destruct (ParseUint n); lia. Qed.

Lemma max_id_in m l n id : n ∈ l -> ParseUint n = Some id -> id <= max_id m l.
Proof.
  revert m. induction l as [|x l IH]; intros m Hn H; [by apply not_elem_of_nil in Hn|]. apply elem_of_cons in Hn as [->|Hn].
  - cbn. rewrite H. etrans; [|apply max_id_ge]. lia.
  - by apply IH.
Qed.

(** ** The segments of a queue *)

(** A segment: its identifier, its limit, the blocks passed and to come. *)
Record gseg := G { gi : Z; gm : Z; gb : list block; gp : list block }.
Lemma G_eta g : G (gi g) (gm g) (gb g) (gp g) = g.
Proof. by destruct g. Qed.
Definition gname (g : gseg) : name := FormatUint (gi g).
Definition gsize (g : gseg) : Z := len (file (gb g) (gp g)).
Definition total (gs : list gseg) : Z := foldr (fun g n => gsize g + n) 0 gs.
Definition pending (gs : list gseg) : list block := concat (gp <$> gs).

Lemma total_cons g gs : total (g :: gs) = gsize g + total gs.
Proof. done. Qed.
Lemma total_app a b : total (a ++ b) = total a + total b.
Proof. induction a as [|g a IH]; [done|]. cbn [app]. rewrite !total_cons, IH. lia. Qed.
Lemma gsize_pos g : 8 <= gsize g.
Proof. unfold gsize. rewrite file_len. lia. Qed.
Lemma total_pos gs : 0 <= total gs.
Proof. induction gs as [|g gs IH]; [done|]. rewrite total_cons. pose proof (gsize_pos g). lia. Qed.
Lemma total_in gs g : g ∈ gs -> gsize g <= total gs.
Proof. intros (a & b & ->)%list_elem_of_split. rewrite total_app, total_cons. pose proof (total_pos a). pose proof (total_pos b). lia. Qed.

(** The bound on what a queue has seen under which no counter overflows. *)
Definition bound : Z := 2 ^ 59.

Definition rep (q : Queue) (g : gseg) : Prop :=
  exists s f, q_heap q !! gname g = Some s /\ q_dir q !! gname g = Some f /\ seg_ok s f (gb g) (gp g) /\ g_path s = gname g /\ g_id s = gi g /\ g_maxSize s = gm g.

Section Verify.
Context (vf : list Z -> option string).

Record base (N : Z) (q : Queue) (gs : list gseg) : Prop := {
  b_segs : q_segments q = gname <$> gs;
  b_sorted : StronglySorted Z.lt (gi <$> gs);
  b_ids : Forall (fun g => 0 < gi g <= N) gs;
  b_rep : Forall (rep q) gs;
  b_dir : forall n id, is_Some (q_dir q !! n) -> ParseUint n = Some id -> exists g, g ∈ gs /\ n = gname g;
  b_size : total gs <= N;
  b_bound : N <= bound;
  b_max : 8 <= q_maxSegmentSize q <= limit;
  b_verified : Forall (fun g => Forall (fun b => vf b = None) (gp g)) gs }.

Lemma base_mono N N' q gs : base N q gs -> N <= N' -> N' <= bound -> base N' q gs.
Proof.
  intros [H1 H2 H3 H4 H5 H6 H7 H8 H9] HN HB. split; try done; [|lia]. eapply Forall_impl; [exact H3|]. cbn. intros; lia.
Qed.

Lemma gname_inj N q gs g g' : base N q gs -> g ∈ gs -> 0 < gi g' < 2 ^ 64 -> gname g = gname g' -> gi g = gi g'.
Proof.
  intros H Hg Hg' E. pose proof (b_ids _ _ _ H) as Hi. rewrite Forall_forall in Hi. specialize (Hi g Hg). pose proof (b_bound _ _ _ H). unfold bound in *.
  eapply FormatUint_inj; [lia|lia|exact E].
Qed.

(** What is left of a queue besides its segments. *)
Definition core (q : Queue) := (q_head q, q_tail q, (q_maxSegmentSize q, q_maxSize q), (q_depth q, q_appendCh q)).

Lemma base_same N q q' gs : base N q gs -> q_segments q' = q_segments q -> q_heap q' = q_heap q -> q_dir q' = q_dir q -> q_maxSegmentSize q' = q_maxSegmentSize q -> base N q' gs.
Proof.
  intros [H1 H2 H3 H4 H5 H6 H7 H8 H9] E1 E2 E3 E4. split; try done; [by rewrite E1| |by rewrite E3|by rewrite E4].
  eapply Forall_impl; [exact H4|]. intros g (s & f & H). exists s, f. by rewrite E2, E3.
Qed.

Lemma sorted_mid {A} (f : A -> Z) l1 x l2 y : StronglySorted Z.lt (f <$> l1 ++ x :: l2) -> y ∈ l1 ++ l2 -> f y <> f x.
Proof.
  induction l1 as [|z l1 IH]; cbn; intros H Hy.
  - apply StronglySorted_inv in H as [_ H]. rewrite Forall_forall in H. specialize (H (f y)). intros E. apply (Z.lt_irrefl (f x)). rewrite <- E at 2. apply H. by apply list_elem_of_fmap_2.
  - apply StronglySorted_inv in H as [H1 H2]. rewrite Forall_forall in H2. apply elem_of_cons in Hy as [->|Hy]; [|by apply IH].
    intros E. apply (Z.lt_irrefl (f z)). rewrite E at 2. apply H2. apply list_elem_of_fmap_2. apply elem_of_app. right. apply elem_of_cons. by left.
Qed.

Lemma rep_update q g g' s d : rep q g -> gname g <> gname g' ->
  rep (set_heap (<[gname g' := s]> (q_heap q)) (set_dir (<[gname g' := d]> (q_dir q)) q)) g.
Proof. intros (s0 & f0 & H1 & H2 & H3) Hn. exists s0, f0. cbn. by rewrite !lookup_insert_ne. Qed.

Lemma base_names N q l1 g l2 g' : base N q (l1 ++ g :: l2) -> g' ∈ l1 ++ l2 -> gname g' <> gname g.
Proof.
  intros H Hg E. assert (Hin : g' ∈ l1 ++ g :: l2) by by apply elem_mid_ne. pose proof (b_ids _ _ _ H) as Hi. rewrite Forall_forall in Hi.
  assert (0 < gi g <= N) as Hb by (apply Hi, elem_mid). pose proof (b_bound _ _ _ H). unfold bound in *.
  assert (gi g' = gi g) as E2 by (eapply gname_inj; [exact H|exact Hin|lia|exact E]). by apply (sorted_mid gi l1 g l2 g' (b_sorted _ _ _ H) Hg).
Qed.

Lemma base_seg N q gs g : base N q gs -> g ∈ gs -> exists s f, q_heap q !! gname g = Some s /\ q_dir q !! gname g = Some f /\ seg_ok s f (gb g) (gp g) /\ g_path s = gname g /\ g_id s = gi g /\ g_maxSize s = gm g.
Proof. intros H Hg. pose proof (b_rep _ _ _ H) as Hr. rewrite Forall_forall in Hr. exact (Hr g Hg). Qed.

(** A call on a segment changes that segment. *)
Lemma on_seg_ok {A} N N' q l1 g l2 (m : M fs A) r s f s' f' m' b' p' :
  base N q (l1 ++ g :: l2) -> q_heap q !! gname g = Some s -> q_dir q !! gname g = Some f -> seg_ok s f (gb g) (gp g) -> g_path s = gname g -> g_id s = gi g -> g_maxSize s' = m' ->
  m (s, f) = (r, (s', f')) -> seg_ok s' f' b' p' -> same s s' -> N <= N' <= bound -> total (l1 ++ G (gi g) m' b' p' :: l2) <= N' -> Forall (fun b => vf b = None) p' ->
  exists q', on_seg (Some (gname g)) m q = (r, q') /\ base N' q' (l1 ++ G (gi g) m' b' p' :: l2) /\ core q' = core q /\ q_total q' = q_total q.
Proof.
  intros H Hh Hd Hs Hp Hi Hm Em Hs' [S1 S2] HN Ht Hv. unfold on_seg. cbn [mbind option_bind]. rewrite Hh, Hp, Hd. cbn [default from_option id]. rewrite Em.
  destruct Hs as (o & Ho & _). rewrite Ho. eexists. split; [reflexivity|]. split; [|done]. set (q' := set_heap _ _).
  assert (Hn : forall g', g' ∈ l1 ++ l2 -> gname g' <> gname g) by (intros; by eapply base_names).
  destruct H as [H1 H2 H3 H4 H5 H6 H7 H8 H9]. split; try done.
  - cbn. rewrite H1, !fmap_app. done.
  - rewrite fmap_app in *. done.
  - apply Forall_app in H3 as [H3 [H3' H3'']%Forall_cons_1]. cbn in H3'. apply Forall_app. split; [eapply Forall_impl; [exact H3|]; cbn; intros; lia|].
    constructor; [cbn; lia|]. eapply Forall_impl; [exact H3''|]; cbn; intros; lia.
  - rewrite Forall_forall in H4. apply Forall_forall. intros g' [->|Hin]%elem_mid_inv.
    + exists s', f'. cbn. change (gname (G (gi g) m' b' p')) with (gname g). rewrite !lookup_insert_eq. split_and!; [done|done|done|by rewrite S1|cbn; by rewrite S2|done].
    + apply rep_update; [by apply H4, elem_mid_ne|by apply Hn].
  - intros n id Hx Hpn. cbn in Hx. destruct (decide (n = gname g)) as [->|Hne]; [by exists (G (gi g) m' b' p'); split; [apply elem_mid|]|].
    rewrite lookup_insert_ne in Hx by done. destruct (H5 n id Hx Hpn) as (g' & [->|Hin]%elem_mid_inv & ->); [done|]. exists g'. split; [by apply elem_mid_ne|done].
  - lia.
  - apply Forall_app in H9 as [H9 [_ H9'']%Forall_cons_1]. apply Forall_app. split; [done|]. by constructor.
Qed.

Lemma next_id N q gs : base N q gs -> nextSegmentID (q_dir q) = u64 (default 0 (gi <$> last gs) + 1).
Proof.
  intros H. unfold nextSegmentID. do 2 f_equal. fold (max_id 0 (ReadDir (q_dir q))). pose proof (b_ids _ _ _ H) as Hi. pose proof (b_bound _ _ _ H) as Hbd. unfold bound in Hbd.
  assert (Hp : forall g, g ∈ gs -> ParseUint (gname g) = Some (gi g)).
  { intros g Hg. rewrite Forall_forall in Hi. specialize (Hi g Hg). apply ParseUint_Format. lia. }
  assert (Hin : forall g, g ∈ gs -> gname g ∈ ReadDir (q_dir q)).
  { intros g Hg. apply elem_of_ReadDir. destruct (base_seg _ _ _ _ H Hg) as (s & f & _ & Hf & _). by exists f. }
  destruct gs as [|g0 gs0 _] using rev_ind.
  - cbn. apply Z.le_antisymm; [apply max_id_le; [done|]|apply max_id_ge]. intros n id Hn Hid%(b_dir _ _ _ H); [|by apply elem_of_ReadDir]. set_solver.
  - rewrite last_snoc. cbn. apply Z.le_antisymm.
    + apply max_id_le; [rewrite Forall_forall in Hi; specialize (Hi g0 ltac:(set_solver)); lia|].
      intros n id Hn Hid. destruct (b_dir _ _ _ H n id) as (g & Hg & ->); [by apply elem_of_ReadDir|done|]. rewrite Hp in Hid by done. injection Hid as <-.
      apply elem_of_app in Hg as [Hg|Hg]; [|apply list_elem_of_singleton in Hg as ->; done]. pose proof (b_sorted _ _ _ H) as Hs. rewrite fmap_app in Hs. cbn in Hs.
      eapply StronglySorted_app_1_elem_of in Hs; [|by apply list_elem_of_fmap_2|by apply list_elem_of_singleton]. lia.
    + apply (max_id_in _ _ (gname g0)); [apply Hin|apply Hp]; set_solver.
Qed.

Definition fresh (q : Queue) (gs : list gseg) : gseg := G (default 0 (gi <$> last gs) + 1) (q_maxSegmentSize q) [] [].

Lemma fresh_gt N q gs g : base N q gs -> g ∈ gs -> 0 < gi g < gi (fresh q gs).
Proof.
  intros H Hg. pose proof (b_ids _ _ _ H) as Hi. rewrite Forall_forall in Hi. specialize (Hi g Hg). split; [lia|]. unfold fresh. cbn.
  destruct gs as [|g0 gs _] using rev_ind; [set_solver|]. rewrite last_snoc. cbn. apply elem_of_app in Hg as [Hg|Hg]; [|apply list_elem_of_singleton in Hg as ->; lia].
  pose proof (b_sorted _ _ _ H) as Hs. rewrite fmap_app in Hs. cbn in Hs.
  eapply StronglySorted_app_1_elem_of in Hs; [|by apply list_elem_of_fmap_2|by apply list_elem_of_singleton]. lia.
Qed.

Lemma fresh_id N q gs : base N q gs -> 0 < gi (fresh q gs) <= N + 1.
Proof.
  intros H. unfold fresh. cbn. pose proof (b_ids _ _ _ H) as Hi. pose proof (b_size _ _ _ H). pose proof (total_pos gs).
  destruct gs as [|g0 gs _] using rev_ind; [cbn; lia|]. rewrite last_snoc. cbn. apply Forall_app in Hi as [_ [Hi _]%Forall_cons_1]. cbn in Hi. lia.
Qed.

Lemma fresh_name N q gs : base N q gs -> FormatUint (nextSegmentID (q_dir q)) = gname (fresh q gs).
Proof.
  intros H. rewrite (next_id _ _ _ H). pose proof (fresh_id _ _ _ H) as Hf. pose proof (b_bound _ _ _ H). unfold bound, gname, fresh in *. cbn in *. rewrite u64_id; [done|]. unint. lia.
Qed.

Lemma fresh_new N q gs : base N q gs -> q_dir q !! gname (fresh q gs) = None.
Proof.
  intros H. destruct (q_dir q !! _) as [f|] eqn:E; [|done]. pose proof (fresh_id _ _ _ H) as Hf. pose proof (b_bound _ _ _ H) as Hb. unfold bound in *.
  destruct (b_dir _ _ _ H (gname (fresh q gs)) (gi (fresh q gs))) as (g & Hg & En); [by exists f|apply ParseUint_Format; lia|].
  pose proof (fresh_gt _ _ _ _ H Hg). assert (gi g = gi (fresh q gs)); [|lia]. eapply gname_inj; [exact H|exact Hg|lia|done].
Qed.

Lemma rep_fresh N q gs g s f : base N q gs -> g ∈ gs ->
  rep q g -> rep (set_heap (<[gname (fresh q gs) := s]> (q_heap q)) (set_dir (<[gname (fresh q gs) := f]> (q_dir q)) q)) g.
Proof.
  intros H Hg Hr. apply rep_update; [done|]. intros E. destruct Hr as (_ & ? & _ & Hd & _). rewrite E in Hd. by rewrite (fresh_new _ _ _ H) in Hd.
Qed.

Lemma addSegment_ok N q gs : base N q gs -> N + 8 <= bound ->
  exists q', addSegment vf q = (Ret tt, q') /\ base (N + 8) q' (gs ++ [fresh q gs]) /\
    core q' = core (set_tail (Some (gname (fresh q gs))) q) /\ q_total q' = q_total q.
Proof.
  intros H HN. pose proof (fresh_id _ _ _ H) as Hi. pose proof (b_max _ _ _ H) as Hm. pose proof (b_bound _ _ _ H) as Hb. unfold bound in *.
  unfold addSegment. mnow. rewrite (fresh_name _ _ _ H).
  destruct (open_new vf (q_maxSegmentSize q) (gname (fresh q gs)) (gi (fresh q gs)) ltac:(lia)) as (s & f & Eo & Hs & Hp & Hid & Hx).
  assert (En : newSegment vf (gname (fresh q gs)) (q_maxSegmentSize q) q = (Ret s, set_dir (<[gname (fresh q gs) := f]> (q_dir q)) q)).
  { unfold newSegment. mnow. rewrite (fresh_new _ _ _ H). cbn [default from_option id]. mnow. assert (ParseUint (gname (fresh q gs)) = Some (gi (fresh q gs))) as -> by (apply ParseUint_Format; lia).
    cbv zeta. change (len []) with 0. rewrite Z.max_l by lia. rewrite Eo. mnow. mnow. cbn [lift]. mnow. unfold set_dir. cbn. by rewrite insert_insert_eq. }
  erewrite bind_ret by exact En. mnow. mnow. eexists. split; [reflexivity|]. cbn [g_path]. rewrite Hp. split; [|done].
  assert (Hr := b_rep _ _ _ H). assert (Hr' : Forall (rep (set_heap (<[gname (fresh q gs) := s]> (q_heap q)) (set_dir (<[gname (fresh q gs) := f]> (q_dir q)) q))) gs).
  { rewrite Forall_forall in Hr. apply Forall_forall. intros g Hg. eapply rep_fresh; [exact H|done|by apply Hr]. }
  pose proof (fun g => fresh_gt _ _ _ g H) as Hgt. destruct H as [H1 H2 H3 H4 H5 H6 H7 H8 H9]. split; cbn.
  - by rewrite H1, fmap_app.
  - rewrite fmap_app. apply StronglySorted_app_2; [|done|by repeat constructor]. intros a b Ha%list_elem_of_fmap Hb2%list_elem_of_singleton. destruct Ha as (g & -> & Hg). subst b. apply Hgt in Hg. lia.
  - apply Forall_app. split; [eapply Forall_impl; [exact H3|]; cbn; intros; lia|]. constructor; [lia|apply Forall_nil_2].
  - apply Forall_app. split; [exact Hr'|]. constructor; [|apply Forall_nil_2]. exists s, f. cbn. rewrite !lookup_insert_eq. done.
  - intros n id Hx1 Hpn. destruct (decide (n = gname (fresh q gs))) as [->|Hne]; [exists (fresh q gs); split; [apply elem_mid|done]|].
    rewrite lookup_insert_ne in Hx1 by done. destruct (H5 n id Hx1 Hpn) as (g & Hg & ->). exists g. split; [|done]. apply elem_of_app. by left.
  - rewrite total_app. change (total [fresh q gs]) with 8. lia.
  - unfold bound. lia.
  - lia.
  - apply Forall_app. split; [done|]. repeat constructor.
Qed.

Lemma base_tail N q q' g gs : base N q (g :: gs) -> q_segments q' = gname <$> gs -> q_dir q' = delete (gname g) (q_dir q) ->
  (forall n, n <> gname g -> q_heap q' !! n = q_heap q !! n) -> q_maxSegmentSize q' = q_maxSegmentSize q -> base N q' gs.
Proof.
  intros H E1 E2 E3 E4. assert (Hn : forall g', g' ∈ gs -> gname g' <> gname g) by (intros g' Hg'; by eapply (base_names N q [] g gs)).
  destruct H as [H1 H2 H3 H4 H5 H6 H7 H8 H9]. apply Forall_cons_1 in H3 as [_ H3], H4 as [_ H4], H9 as [_ H9]. split; try done.
  - by apply StronglySorted_inv in H2 as [H2 _].
  - rewrite Forall_forall in H4. apply Forall_forall. intros g' Hg'. destruct (H4 g' Hg') as (s & f & R1 & R2 & R3). exists s, f. rewrite E2, E3, lookup_delete_ne by auto using not_eq_sym. done.
  - intros n id Hx Hp. rewrite E2 in Hx. destruct Hx as [f [Hne Hx]%lookup_delete_Some]. destruct (H5 n id) as (g' & [->|Hg']%elem_of_cons & ->); [by exists f|done|done|]. by exists g'.
  - rewrite total_cons in H6. pose proof (gsize_pos g). lia.
  - by rewrite E4.
Qed.

Lemma close_ok s f b p : seg_ok s f b p -> close (s, f) = (Ret tt, (set_file None s, f)).
Proof. intros (o & Ho & _). unfold close, offset. erewrite (bind_ret _ _ _ o (s, f)); [reflexivity|]. mnow. by rewrite Ho. Qed.

Lemma drop_head_ok N q g g2 gs : base N q (g :: g2 :: gs) -> q_head q = Some (gname g) ->
  exists q', drop_head q = (Ret tt, q') /\ base N q' (g2 :: gs) /\ core q' = core (set_head (Some (gname g2)) q) /\ q_total q' = i64 (q_total q - gsize g).
Proof.
  intros H Hh. destruct (base_seg _ _ _ g H) as (s & f & R1 & R2 & R3 & R4 & R5 & R6); [apply elem_of_cons; by left|].
  assert (Es := b_segs _ _ _ H). unfold drop_head. mnow. rewrite (proj2 (Nat.ltb_lt 1 _)) by (rewrite Es, length_fmap; cbn [length]; lia).
  mnow. unfold the. rewrite Hh. erewrite bind_ret; [|mnow; cbn [mbind option_bind q_heap set_segments]; rewrite R1; reflexivity].
  erewrite bind_ret.
  2: { apply attempt_eq. unfold on_seg. cbn [mbind option_bind q_heap q_dir set_segments]. rewrite R1, R4, R2. cbn [default from_option id]. rewrite (close_ok _ _ _ _ R3).
       destruct R3 as (o & Ho & _). rewrite Ho. reflexivity. }
  erewrite bind_ret; [|reflexivity]. mnow. eexists. split; [reflexivity|]. cbn [q_segments set_segments set_heap set_dir]. rewrite R4, Es.
  assert (Ed : diskUsage s = gsize g) by (unfold diskUsage, gsize; destruct R3 as (o & _ & -> & -> & _); done). split; [|split; [done|by rewrite Ed]].
  eapply base_tail; [exact H|done| | |done].
  - cbn. by rewrite delete_insert_eq.
  - intros n Hn. cbn. by rewrite lookup_insert_ne.
Qed.

Definition linked (q : Queue) (gs : list gseg) : Prop := q_head q = gname <$> head gs /\ q_tail q = gname <$> last gs.
(** The counter misses eight bytes for each segment added while open. *)
Definition counted (N : Z) (q : Queue) (gs : list gseg) : Prop := exists k, 0 <= k <= N /\ q_total q = total gs - 8 * k.
(** Only a queue of one segment has a segment with nothing to come, which
    then has room. *)
Definition live (gs : list gseg) : Prop :=
  match gs with [] => False | [g] => gp g = [] -> gsize g <= gm g | _ => Forall (fun g => gp g <> []) gs end.
Definition conf (q : Queue) := (q_maxSegmentSize q, q_maxSize q, q_depth q, q_appendCh q).

Lemma core_fields q q' : core q' = core q -> q_head q' = q_head q /\ q_tail q' = q_tail q /\ conf q' = conf q.
Proof. unfold core, conf. intros E. injection E as -> -> -> -> -> ->. done. Qed.

Lemma the_ok N q gs g : base N q gs -> g ∈ gs -> exists s, the (Some (gname g)) q = (Ret s, q) /\ g_size s = gsize g /\ g_maxSize s = gm g.
Proof.
  intros H Hg. destruct (base_seg _ _ _ _ H Hg) as (s & f & R1 & R2 & R3 & R4 & R5 & R6). exists s. unfold the. mnow. cbn [mbind option_bind]. rewrite R1. split; [done|].
  split; [|done]. unfold gsize. by destruct R3 as (o & _ & -> & -> & _).
Qed.

Lemma trimHead_ok N q g gs : base N q (g :: gs) -> linked q (g :: gs) -> counted N q (g :: gs) -> N + 8 <= bound ->
  exists q' gs', trimHead vf false q = (Ret tt, q') /\ base (N + 8) q' gs' /\ linked q' gs' /\ counted (N + 8) q' gs' /\ conf q' = conf q /\
    match gs with [] => gs' = [g] /\ gsize g < gm g \/ gs' = [fresh q [g]] | _ => gs' = gs end.
Proof.
  intros H [Hh Ht] (k & Hk & Hq) HN. cbn in Hh. assert (Es := b_segs _ _ _ H). unfold trimHead. mnow.
  assert (Hsz := b_size _ _ _ H). rewrite total_cons in Hq, Hsz. pose proof (total_pos gs). pose proof (gsize_pos g). unfold bound in *. destruct gs as [|g2 gs].
  - rewrite bool_decide_eq_true_2 by by rewrite Es. destruct (the_ok _ _ _ g H) as (s & Eh & Z1 & Z2); [apply elem_of_cons; by left|].
    erewrite bind_ret; [|rewrite Hh; erewrite bind_ret by exact Eh; reflexivity]. destruct (full s) eqn:Ef; cbn [orb].
    + destruct (addSegment_ok _ _ _ H ltac:(unfold bound; lia)) as (q1 & E1 & B1 & C1 & T1). erewrite bind_ret by exact E1. cbn [app] in B1.
      destruct (core_fields _ _ C1) as (Ch & Ct & Cc). cbn in Ch, Ct.
      destruct (drop_head_ok _ _ _ _ _ B1) as (q2 & E2 & B2 & C2 & T2); [by rewrite Ch|]. rewrite E2. destruct (core_fields _ _ C2) as (Dh & Dt & Dc). cbn in Dh, Dt.
      eexists q2, _. split; [reflexivity|]. split; [exact B2|]. split; [split; [done|by rewrite Dt, Ct]|]. split; [|split; [by transitivity (conf q1)|by right]].
      exists (k + 1). split; [lia|]. rewrite T2, T1, Hq. change (total []) with 0. change (total [fresh q [g]]) with 8. rewrite i64_id by (unint; lia). lia.
    + mnow. eexists _, [g]. split; [unfold drop_head; mnow; rewrite (proj2 (Nat.ltb_ge _ _)) by (by rewrite Es); reflexivity|].
      split; [|split; [by split|split; [|split; [done|]]]].
      * apply (base_same _ q); try done. eapply base_mono; [exact H|lia|unfold bound; lia].
      * exists k. split; [lia|]. change (i64 (q_total q + 0) = total [g] - 8 * k). rewrite Hq, total_cons. change (total []) with 0. rewrite i64_id by (unint; lia). lia.
      * left. split; [done|]. unfold full in Ef. apply Z.leb_gt in Ef. lia.
  - rewrite bool_decide_eq_false_2 by by rewrite Es. mnow. mnow. destruct (drop_head_ok _ _ _ _ _ H Hh) as (q2 & E2 & B2 & C2 & T2).
    rewrite E2. destruct (core_fields _ _ C2) as (Dh & Dt & Dc). cbn in Dh, Dt. eexists q2, _. split; [reflexivity|].
    split; [eapply base_mono; [exact B2|lia|unfold bound; lia]|]. split; [split; [done|by rewrite Dt, Ht]|]. split; [|done].
    exists k. split; [lia|]. rewrite T2, Hq, i64_id by (unint; lia). lia.
Qed.

Record ok (N : Z) (q : Queue) (gs : list gseg) : Prop := {
  o_base : base N q gs;
  o_linked : linked q gs;
  o_counted : counted N q gs;
  o_live : live gs;
  o_chan : (q_appendCh q < q_depth q)%nat }.

Lemma live_cases gs : live gs -> exists g gs', gs = g :: gs' /\ (gs' = [] /\ (gp g = [] -> gsize g <= gm g) \/ gs' <> [] /\ gp g <> [] /\ Forall (fun g => gp g <> []) gs').
Proof.
  destruct gs as [|g [|g2 gs]]; cbn; [done| |]; intros H; [exists g, []; auto|]. exists g, (g2 :: gs). split; [done|]. right. apply Forall_cons_1 in H as [H1 H2]. done.
Qed.

Lemma live_cons g gs : gp g <> [] -> Forall (fun g => gp g <> []) gs -> live (g :: gs).
Proof. intros H1 H2. destruct gs; [by intros ?|]. by constructor. Qed.

Lemma live_nonempty gs : gs <> [] -> Forall (fun g => gp g <> []) gs -> live gs.
Proof. destruct gs as [|g gs]; [done|]. intros _ [H1 H2]%Forall_cons_1. by apply live_cons. Qed.

Lemma counted_mono N N' q q' gs : counted N q gs -> q_total q' = q_total q -> N <= N' -> counted N' q' gs.
Proof. intros (k & Hk & E) Eq HN. exists k. rewrite Eq. split; [lia|done]. Qed.

Lemma pending_snoc l g : pending (l ++ [g]) = pending l ++ gp g.
Proof. unfold pending. rewrite fmap_app, concat_app. cbn. by rewrite app_nil_r. Qed.
Lemma pending_cons g l : pending (g :: l) = gp g ++ pending l.
Proof. done. Qed.

(** How a block is added: to the last segment, or in a new one. *)
Inductive ext (b : block) : list gseg -> list gseg -> Prop :=
| ext_last l g m : ext b (l ++ [g]) (l ++ [G (gi g) m (gb g) (gp g ++ [b])])
| ext_new l i m : ext b l (l ++ [G i m [] [b]]).

Lemma ext_pending b gs gs' : ext b gs gs' -> pending gs' = pending gs ++ [b].
Proof. intros [l g m|l i m]; rewrite !pending_snoc; cbn; by rewrite ?app_assoc. Qed.

Lemma gsize_snoc i m b p x : gsize (G i m b (p ++ [x])) = len (file b p) + (len x + 8).
Proof. unfold gsize. cbn [gb gp]. rewrite !file_len, enc_len_app, enc_len_cons. change (len (enc [])) with 0. lia. Qed.

(** Appending to the tail segment. *)
Lemma tail_append N q l g b : base N q (l ++ [g]) -> vf b = None -> N + len b + 8 <= bound ->
  exists q', on_seg (Some (gname g)) (append b) q = (if gm g <? gsize g then Fail ErrSegmentFull else Ret (len b + 8), q') /\ core q' = core q /\ q_total q' = q_total q /\
    (if gm g <? gsize g then base N q' (l ++ [g]) else base (N + (len b + 8)) q' (l ++ [G (gi g) (Z.max (gm g) (len b)) (gb g) (gp g ++ [b])])).
Proof.
  intros H Hv HN. destruct (base_seg _ _ _ g H (elem_mid _ _ _)) as (s & f & R1 & R2 & R3 & R4 & R5 & R6).
  assert (Es : g_size s = gsize g /\ f = file (gb g) (gp g)) by (unfold gsize; destruct R3 as (o & _ & -> & -> & _); done). destruct Es as [Es Ef].
  pose proof (total_in _ g (elem_mid _ l [])) as Hg. assert (Hsz := b_size _ _ _ H). assert (Hb := b_bound _ _ _ H). assert (Hver := b_verified _ _ _ H).
  apply Forall_app in Hver as [_ [Hver _]%Forall_cons_1].
  pose proof (append_ok s f (gb g) (gp g) b R3) as A. rewrite Es, R6 in A. unfold gsize, bound, limit in *. rewrite <- Ef in *. specialize (A ltac:(lia)).
  destruct (gm g <? len f) eqn:Efull.
  - destruct (on_seg_ok N N q l g [] (append b) _ s f s f (gm g) (gb g) (gp g) H R1 R2 R3 R4 R5 R6 A R3) as (q' & E & B & C & T).
    + done.
    + unfold bound. lia.
    + by rewrite G_eta.
    + done.
    + rewrite G_eta in B. by exists q'.
  - destruct A as (s' & f' & A & Hs' & Hsame & Hmx).
    destruct (on_seg_ok N (N + (len b + 8)) q l g [] (append b) _ s f s' f' _ (gb g) (gp g ++ [b]) H R1 R2 R3 R4 R5 Hmx A Hs' Hsame) as (q' & E & B & C & T).
    + unfold bound. lia.
    + rewrite total_app, total_cons, gsize_snoc, <- Ef in *. unfold gsize in Hsz. rewrite <- Ef in Hsz. lia.
    + apply Forall_app. split; [done|]. by constructor.
    + exists q'. done.
Qed.

Lemma live_snoc l g : live (l ++ [g]) -> (gsize g <= gm g -> False) \/ gp g <> [] -> Forall (fun g => gp g <> []) (l ++ [g]).
Proof.
  intros H Hg. destruct (live_cases _ H) as (g0 & gs' & E & [[-> H2]|(Hne & H1 & H2)]).
  - apply (f_equal (@length _)) in E as El. rewrite length_app in El. cbn in El. destruct l; [|cbn in El; lia]. injection E as ->. constructor; [|done]. intros En. destruct Hg as [Hg|Hg]; [by apply Hg, H2|done].
  - rewrite E. by constructor.
Qed.

Lemma live_ext_last l g m b : live (l ++ [g]) -> live (l ++ [G (gi g) m (gb g) (gp g ++ [b])]).
Proof.
  intros H. apply live_nonempty; [by destruct l|]. apply Forall_app. split; [|constructor; [by destruct (gp g)|done]].
  destruct (live_cases _ H) as (g0 & gs' & E & [[-> H2]|(Hne & H1 & H2)]).
  - destruct l as [|x l]; [done|]. apply (f_equal length) in E. rewrite length_app in E. cbn in E. lia.
  - assert (Forall (fun g => gp g <> []) (l ++ [g])) as [Hl _]%Forall_app by (rewrite E; by constructor). done.
Qed.

Lemma Append_ok N q gs b : ok N q gs -> vf b = None -> N + len b + 16 <= bound ->
  exists q' gs', Append vf b q = (if q_maxSize q <? q_total q + len b then Fail ErrQueueFull else Ret tt, q') /\ ok (N + len b + 16) q' gs' /\ conf q' = conf q /\
    (if q_maxSize q <? q_total q + len b then gs' = gs else ext b gs gs').
Proof.
  intros [H [Hh Ht] Hc Hl Hch] Hv HN. assert (Hb := b_bound _ _ _ H). assert (Hs := b_size _ _ _ H). destruct Hc as (k & Hk & Hq). pose proof (total_pos gs).
  assert (Hi : i64 (q_total q + len b) = q_total q + len b) by (apply i64_id; unfold bound in *; unint; lia).
  destruct gs as [|g l _] using rev_ind; [done|]. rewrite last_snoc in Ht. cbn in Ht. unfold Append. mnow.
  rewrite (proj2 (Nat.leb_gt _ _)) by done. rewrite Ht. rewrite Hi. destruct (q_maxSize q <? q_total q + len b) eqn:Ef.
  { exists q, (l ++ [g]). split; [done|]. split; [|done]. split; [eapply base_mono; [exact H|lia|lia]|split; [done|by rewrite Ht, last_snoc]| |done|done].
    exists k. split; [lia|done]. }
  destruct (tail_append _ _ _ _ b H Hv ltac:(lia)) as (q1 & E1 & C1 & T1 & B1). destruct (core_fields _ _ C1) as (D1 & D2 & D3).
  erewrite bind_ret; [|apply attempt_eq; exact E1]. destruct (gm g <? gsize g) eqn:Efull.
  - cbn [is_err]. rewrite String.eqb_refl. destruct (addSegment_ok _ _ _ B1 ltac:(lia)) as (q2 & E2 & B2 & C2 & T2). destruct (core_fields _ _ C2) as (F1 & F2 & F3).
    assert (Ec : q_maxSegmentSize q1 = q_maxSegmentSize q) by (unfold conf in D3; congruence). cbn [q_head q_tail set_tail] in F1, F2. assert (Hm := b_max _ _ _ B1).
    destruct (tail_append _ _ _ _ b B2 Hv ltac:(lia)) as (q3 & E3 & C3 & T3 & B3). destruct (core_fields _ _ C3) as (J1 & J2 & J3).
    assert (Ez : (gm (fresh q1 (l ++ [g])) <? gsize (fresh q1 (l ++ [g]))) = false) by (apply Z.ltb_ge; unfold fresh; cbn [gm]; change (gsize _) with 8; lia).
    rewrite Ez in E3, B3. erewrite bind_ret; [|erewrite bind_ret by exact E2; mnow; rewrite F2; exact E3].
    eexists _, _. split; [reflexivity|]. split; [|split; [|apply ext_new]].
    + split.
      * apply (base_same _ q3); try done. eapply base_mono; [exact B3|lia|lia].
      * split; cbn [q_head q_tail add_total]; [rewrite J1, F1, D1, Hh; by destruct l|]. rewrite J2, F2, last_snoc. done.
      * exists (k + 1). split; [lia|]. change (i64 (q_total q3 + (len b + 8)) = total ((l ++ [g]) ++ [G (gi (fresh q1 (l ++ [g]))) (Z.max (gm (fresh q1 (l ++ [g]))) (len b)) [] ([] ++ [b])]) - 8 * (k + 1)).
        rewrite T3, T2, T1, Hq. rewrite (total_app (l ++ [g])), total_cons, gsize_snoc. change (len (file [] [])) with 8. change (total []) with 0.
        rewrite i64_id by (unfold bound in *; unint; lia). lia.
      * apply live_nonempty; [by destruct l|]. apply Forall_app. split; [|by repeat constructor]. apply live_snoc; [done|]. left. apply Z.ltb_lt in Efull. lia.
      * cbn. replace (q_appendCh q3) with (q_appendCh q) by (unfold conf in *; cbn in *; congruence). replace (q_depth q3) with (q_depth q) by (unfold conf in *; cbn in *; congruence). done.
    + unfold conf in *. cbn in *. congruence.
  - cbn [is_err]. mnow. eexists _, _. split; [reflexivity|]. split; [|split; [|apply ext_last]].
    + split.
      * apply (base_same _ q1); try done. eapply base_mono; [exact B1|lia|lia].
      * split; cbn [q_head q_tail add_total]; [rewrite D1, Hh; by destruct l|]. by rewrite D2, last_snoc.
      * exists k. split; [lia|]. change (i64 (q_total q1 + (len b + 8)) = total (l ++ [G (gi g) (Z.max (gm g) (len b)) (gb g) (gp g ++ [b])]) - 8 * k).
        rewrite T1, Hq. rewrite !(total_app l), !total_cons, gsize_snoc. change (total []) with 0. fold (gsize g). rewrite i64_id by (rewrite total_app, total_cons in *; change (total []) with 0 in *; unfold bound in *; unint; lia). lia.
      * by apply live_ext_last.
      * cbn. replace (q_appendCh q1) with (q_appendCh q) by (unfold conf in *; congruence). replace (q_depth q1) with (q_depth q) by (unfold conf in *; congruence). done.
    + exact D3.
Qed.

Lemma ok_mono N N' q gs : ok N q gs -> N <= N' -> N' <= bound -> ok N' q gs.
Proof.
  intros [H1 H2 H3 H4 H5] HN HB. split; try done; [by eapply base_mono|]. by eapply counted_mono.
Qed.

Lemma chan_conf q q' : conf q' = conf q -> (q_appendCh q < q_depth q)%nat -> (q_appendCh q' < q_depth q')%nat.
Proof. unfold conf. intros E H. injection E as _ _ -> ->. done. Qed.

Lemma gsize_pass g k rest : gp g = k ++ rest -> gsize (G (gi g) (gm g) (gb g ++ k) rest) = gsize g.
Proof. intros E. unfold gsize. cbn [gb gp]. rewrite E, !file_len, !enc_len_app. lia. Qed.

(** A call that passes some blocks of the head segment, or none. *)
Lemma pass_ok {A} N q g gs (m : M fs A) r k rest : base N q (g :: gs) -> linked q (g :: gs) -> counted N q (g :: gs) -> gp g = k ++ rest ->
  (forall s f, seg_ok s f (gb g) (gp g) -> g_path s = gname g -> exists s' f', m (s, f) = (r, (s', f')) /\ seg_ok s' f' (gb g ++ k) rest /\ same s s' /\ g_maxSize s' = g_maxSize s) ->
  let g' := G (gi g) (gm g) (gb g ++ k) rest in
  exists q', on_seg (Some (gname g)) m q = (r, q') /\ base N q' (g' :: gs) /\ linked q' (g' :: gs) /\ counted N q' (g' :: gs) /\ conf q' = conf q.
Proof.
  intros H [Hh Ht] Hc Ep Hm g'. destruct (base_seg _ _ _ g H) as (s & f & R1 & R2 & R3 & R4 & R5 & R6); [apply elem_of_cons; by left|].
  destruct (Hm s f R3 R4) as (s' & f' & E & Hs' & Hsame & Hmx). rewrite R6 in Hmx. assert (Hb := b_bound _ _ _ H). assert (Hsz := b_size _ _ _ H).
  assert (Hver := b_verified _ _ _ H). apply Forall_cons_1 in Hver as [Hver _]. rewrite Ep in Hver. apply Forall_app in Hver as [_ Hver].
  assert (Et : total (g' :: gs) = total (g :: gs)) by (rewrite !total_cons; unfold g'; rewrite gsize_pass by done; done).
  destruct (on_seg_ok N N q [] g gs m r s f s' f' (gm g) (gb g ++ k) rest H R1 R2 R3 R4 R5 Hmx E Hs' Hsame) as (q' & Eq & B & C & T); [lia| |done|].
  { cbn [app]. fold g'. lia. }
  destruct (core_fields _ _ C) as (D1 & D2 & D3). exists q'. split; [done|]. split; [done|]. split; [|split; [|done]].
  - split; [by rewrite D1, Hh|]. rewrite D2, Ht. by destruct gs.
  - destruct Hc as (j & Hj & Hq). exists j. split; [done|]. by rewrite T, Et.
Qed.

Lemma head_read {A} N q g gs (m : M fs A) r : ok N q (g :: gs) ->
  (forall s f, seg_ok s f (gb g) (gp g) -> g_path s = gname g -> exists s', m (s, f) = (r, (s', f)) /\ seg_ok s' f (gb g) (gp g) /\ same s s' /\ g_maxSize s' = g_maxSize s) ->
  exists q', on_seg (Some (gname g)) m q = (r, q') /\ ok N q' (g :: gs) /\ conf q' = conf q.
Proof.
  intros [H1 H2 H3 H4 H5] Hm. destruct (pass_ok N q g gs m r [] (gp g) H1 H2 H3 eq_refl) as (q' & E & B1 & B2 & B3 & B4).
  { intros s f Hs Hp. destruct (Hm s f Hs Hp) as (s' & E & Hs' & Hr). exists s', f. rewrite app_nil_r. done. }
  rewrite app_nil_r, G_eta in B1, B2, B3. exists q'. split; [done|]. split; [|done]. split; try done. by eapply chan_conf.
Qed.

Lemma pending_head g gs : live (g :: gs) -> (gp g = [] -> pending (g :: gs) = []) /\ (forall b p, gp g = b :: p -> pending (g :: gs) = b :: p ++ pending gs).
Proof.
  intros H. rewrite pending_cons. split; [|by intros b p ->]. intros E. destruct (live_cases _ H) as (? & ? & [= <- <-] & [[-> _]|(_ & Hne & _)]); [by rewrite E|done].
Qed.

Lemma linked_head q g gs : linked q (g :: gs) -> q_head q = Some (gname g).
Proof. by intros [-> _]. Qed.

Lemma Current_ok N q gs : ok N q gs ->
  exists q', Current q = (match pending gs with [] => Fail EOF | b :: _ => Ret b end, q') /\ ok N q' gs /\ conf q' = conf q.
Proof.
  intros H. destruct (live_cases _ (o_live _ _ _ H)) as (g & gs' & -> & _). unfold Current. mnow. rewrite (linked_head _ _ _ (o_linked _ _ _ H)).
  destruct (pending_head _ _ (o_live _ _ _ H)) as [P1 P2].
  eapply head_read; [exact H|]. intros s f Hs _. destruct (current_ok _ _ _ _ Hs) as (s' & E & Hr). exists s'. split; [|done]. rewrite E.
  destruct (gp g) as [|b p]; [by rewrite P1|by rewrite (P2 b p)].
Qed.

Lemma PeekN_ok N q gs n : ok N q gs ->
  exists q' g gs', gs = g :: gs' /\ PeekN n q = (match pending gs with [] => Fail EOF | _ => Ret (filter nonempty (take (Z.to_nat n) (gp g))) end, q') /\ ok N q' gs /\ conf q' = conf q.
Proof.
  intros H. destruct (live_cases _ (o_live _ _ _ H)) as (g & gs' & -> & _). unfold PeekN. mnow. rewrite (linked_head _ _ _ (o_linked _ _ _ H)).
  destruct (pending_head _ _ (o_live _ _ _ H)) as [P1 P2].
  destruct (head_read N q g gs' (peek n) (match pending (g :: gs') with [] => Fail EOF | _ => Ret (filter nonempty (take (Z.to_nat n) (gp g))) end) H) as (q' & E & Hr).
  { intros s f Hs _. destruct (peek_ok _ _ _ _ n Hs) as (s' & E & Hr). exists s'. split; [|done]. rewrite E.
    destruct (gp g) as [|b p]; [by rewrite P1|by rewrite (P2 b p)]. }
  exists q', g, gs'. done.
Qed.

Lemma trim_done N q g gs : base N q (g :: gs) -> linked q (g :: gs) -> counted N q (g :: gs) -> (q_appendCh q < q_depth q)%nat ->
  gp g = [] -> Forall (fun g => gp g <> []) gs -> N + 8 <= bound ->
  exists q' gs', trimHead vf false q = (Ret tt, q') /\ ok (N + 8) q' gs' /\ pending gs' = pending gs /\ conf q' = conf q.
Proof.
  intros H1 H2 H3 Hch Hg Hgs HN. destruct (trimHead_ok _ _ _ _ H1 H2 H3 HN) as (q' & gs' & E & B1 & B2 & B3 & B4 & B5).
  exists q', gs'. split; [done|]. split; [|split; [|done]].
  - split; try done; [|by eapply chan_conf]. destruct gs as [|g2 gs]; [|subst; by apply live_nonempty].
    destruct B5 as [[-> Hz]| ->]; cbn; [intros; lia|]. intros _. assert (Hm := b_max _ _ _ H1). change (gsize _) with 8. lia.
  - destruct gs as [|g2 gs]; [|by subst]. destruct B5 as [[-> Hz]| ->]; rewrite pending_cons; cbn; [by rewrite Hg|done].
Qed.

Lemma Advance_ok N q gs b p : ok N q gs -> pending gs = b :: p -> N + 8 <= bound ->
  exists q' gs', Advance vf q = (Ret tt, q') /\ ok (N + 8) q' gs' /\ pending gs' = p /\ conf q' = conf q.
Proof.
  intros [H1 H2 H3 H4 H5] Hp HN. destruct (live_cases _ H4) as (g & gs' & -> & Hc). destruct (pending_head _ _ H4) as [P1 P2].
  unfold Advance. mnow. rewrite (linked_head _ _ _ H2). destruct (gp g) as [|b0 rest] eqn:Eg; [by rewrite P1 in Hp|].
  rewrite (P2 b0 rest) in Hp by done. injection Hp as -> <-.
  destruct (pass_ok N q g gs' advance (if bool_decide (rest = []) then Fail EOF else Ret tt) [b] rest H1 H2 H3 Eg) as (q1 & E1 & B1 & B2 & B3 & B4).
  { intros s f Hs _. rewrite Eg in Hs. destruct (advance_ok _ _ _ _ _ Hs) as (s' & f' & E & Hs' & Hsame & _ & Hm). by exists s', f'. }
  erewrite bind_ret; [|apply attempt_eq; exact E1].
  assert (Hne : Forall (fun g => gp g <> []) gs') by (destruct Hc as [[-> _]|(_ & _ & Hc)]; [apply Forall_nil_2|done]).
  destruct rest as [|b1 rest].
  - rewrite bool_decide_eq_true_2 by done. cbv beta iota. rewrite String.eqb_refl.
    destruct (trim_done _ _ _ _ B1 B2 B3) as (q2 & gs2 & E2 & O2 & P & C2); [by eapply chan_conf|done|done|done|].
    exists q2, gs2. split; [done|]. split; [done|]. split; [by rewrite P|]. by rewrite C2.
  - rewrite bool_decide_eq_false_2 by done. eexists q1, _. split; [reflexivity|]. split; [|split; [|exact B4]].
    + eapply ok_mono; [split; [exact B1|done|done|by apply live_cons|by eapply chan_conf]|lia|lia].
    + done.
Qed.

(** ** Scanning *)

Lemma ext_head b g gs gs' : ext b (g :: gs) gs' -> exists m t gs2, gs' = G (gi g) m (gb g) (gp g ++ t) :: gs2.
Proof.
  intros H. inversion H as [l g0 m El|l i m El]; subst gs'.
  - destruct l as [|x l]; injection El as -> El; [by exists m, [b], []|]. exists (gm g), [], (l ++ [G (gi g0) m (gb g0) (gp g0 ++ [b])]). rewrite app_nil_r, G_eta. done.
  - exists (gm g), [], (gs ++ [G i m [] [b]]). rewrite app_nil_r, G_eta. done.
Qed.

Lemma skip_found rest : filter nonempty (take (skip rest) rest) = option_list (found rest) /\ (found rest = None -> take (skip rest) rest = rest) /\ (rest <> [] -> skip rest <> 0%nat).
Proof.
  induction rest as [|[|x b] rest IH]; [done| |].
  - destruct IH as (H1 & H2 & H3). cbn [skip take found]. rewrite filter_cons_False by (unfold nonempty; naive_solver). split; [done|]. split; [|done]. intros E. by rewrite H2.
  - cbn [skip take found]. rewrite take_0. split; [|done]. rewrite filter_cons_True by done. done.
Qed.

(** A scan by a client while others append: each [None] asks for the next
    block, each [Some b] is an append.  The result is the blocks read and the
    blocks accepted. *)
Fixpoint scan_loop (l : list (option block)) (c : segmentScanner) (out acc : list block) : M Queue (segmentScanner * (list block * list block)) :=
  match l with
  | [] => mret (c, (out, acc))
  | None :: l => r ← Next c; scan_loop l r.1 (if r.2 : bool then out ++ [c_buf r.1] else out) acc
  | Some b :: l => r ← attempt (Append vf b); scan_loop l c out (match r with Ret _ => acc ++ [b] | _ => acc end)
  end.
Definition scan (l : list (option block)) : M Queue (list block * list block) :=
  c ← NewScanner; r ← scan_loop l c [] []; _ ← Scanner_Advance vf r.1; mret r.2.

Definition cost (l : list (option block)) : Z := foldr (fun o n => match o with None => 0 | Some b => len b + 16 end + n) 0 l.
Lemma cost_pos l : 0 <= cost l.
Proof. induction l as [|[b|] l IH]; [done|cbn [cost foldr]; fold (cost l); lia..]. Qed.

Lemma Next_ok N q g gs k rest n buf : ok N q (g :: gs) -> gp g = k ++ rest ->
  exists q', Next (scanner (gname g) (len (enc (gb g ++ k))) n buf false) q =
    (Ret (scanner (gname g) (len (enc (gb g ++ k ++ take (skip rest) rest))) (n + Z.of_nat (skip rest)) (default buf (found rest)) (bool_decide (found rest = None)),
          bool_decide (is_Some (found rest))), q') /\ ok N q' (g :: gs) /\ conf q' = conf q.
Proof.
  intros H E. unfold Next. cbn [c_s scanner]. eapply head_read; [exact H|]. intros s f Hs _. rewrite E in *.
  destruct (seg_Next_ok s f (gb g) k rest (gname g) n buf Hs) as (s' & Es & Hr). by exists s'.
Qed.

Lemma Next_eof N q g gs pos n buf : ok N q (g :: gs) ->
  exists q', Next (scanner (gname g) pos n buf true) q = (Ret (scanner (gname g) pos n buf true, false), q') /\ ok N q' (g :: gs) /\ conf q' = conf q.
Proof. intros H. unfold Next. cbn [c_s scanner]. eapply head_read; [exact H|]. intros s f Hs _. by exists s. Qed.

(** What a scan has done: the segment it reads, the blocks it passed. *)
Record scanned (g : gseg) (k : list block) (g' : gseg) (k' rest' : list block) : Prop := {
  sc_id : gi g' = gi g;
  sc_before : gb g' = gb g;
  sc_split : gp g' = k' ++ rest';
  sc_more : k `prefix_of` k' }.

Lemma scan_loop_ok l : forall N q g gs k rest n buf eof out acc, ok N q (g :: gs) -> gp g = k ++ rest -> Forall (fun o => forall b, o = Some b -> vf b = None) l -> N + cost l <= bound ->
  out = filter nonempty k ->
  exists q' g' gs' k' rest' n' buf' eof' added,
    scan_loop l (scanner (gname g) (len (enc (gb g ++ k))) n buf eof) out acc q =
      (Ret (scanner (gname g') (len (enc (gb g' ++ k'))) n' buf' eof', (filter nonempty k', acc ++ added)), q') /\
    ok (N + cost l) q' (g' :: gs') /\ conf q' = conf q /\ scanned g k g' k' rest' /\ pending (g' :: gs') = pending (g :: gs) ++ added /\
    sublist added (omap (fun o => o) l) /\ (eof = false -> None ∈ l -> rest <> [] -> k' <> []).
Proof.
  induction l as [|o l IH]; intros N q g gs k rest n buf eof out acc H Eg Hl HN ->.
  { exists q, g, gs, k, rest, n, buf, eof, []. cbn [scan_loop cost foldr]. rewrite Z.add_0_r, !app_nil_r. split_and!; try done. intros _ Hn. by apply not_elem_of_nil in Hn. }
  apply Forall_cons_1 in Hl as [Ho Hl]. pose proof (cost_pos l) as Hc. cbn [cost foldr] in *. fold (cost l) in *. destruct o as [b|]; cbn [scan_loop].
  - destruct (Append_ok N q (g :: gs) b H (Ho b eq_refl) ltac:(lia)) as (q1 & gs1 & E1 & O1 & C1 & X1). erewrite bind_ret; [|apply attempt_eq; exact E1].
    assert (exists m t gs2 a, gs1 = G (gi g) m (gb g) (gp g ++ t) :: gs2 /\ pending gs1 = pending (g :: gs) ++ a /\ sublist a [b] /\
      (match (if q_maxSize q <? q_total q + len b then Fail ErrQueueFull else Ret tt) with Ret _ => acc ++ [b] | _ => acc end = acc ++ a)) as (m & t & gs2 & a & -> & Hp & Ha & Hacc).
    { destruct (q_maxSize q <? q_total q + len b).
      - subst gs1. exists (gm g), [], gs, []. rewrite !app_nil_r, G_eta. split_and!; try done. apply sublist_nil_l.
      - destruct (ext_head _ _ _ _ X1) as (m & t & gs2 & E). exists m, t, gs2, [b]. split_and!; try done. by apply ext_pending. }
    rewrite Hacc. set (g1 := G (gi g) m (gb g) (gp g ++ t)) in *.
    destruct (IH (N + len b + 16) q1 g1 gs2 k (rest ++ t) n buf eof (filter nonempty k) (acc ++ a)) as (q' & g' & gs' & k' & rest' & n' & buf' & eof' & added & E & O' & C' & S' & P' & L' & Pr); [done|cbn; by rewrite Eg, app_assoc|done|lia|done|].
    exists q', g', gs', k', rest', n', buf', eof', (a ++ added). split_and!.
    + rewrite app_assoc. exact E.
    + replace (N + (len b + 16 + cost l)) with (N + len b + 16 + cost l) by lia. done.
    + by rewrite C'.
    + by destruct S'.
    + by rewrite P', Hp, app_assoc.
    + change (omap (fun o => o) (Some b :: l)) with ([b] ++ omap (fun o => o) l). by apply sublist_app.
    + intros Ee Hn Hr. apply Pr; [done|set_solver|]. by destruct rest.
  - destruct eof.
    + destruct (Next_eof N q g gs (len (enc (gb g ++ k))) n buf H) as (q1 & E1 & O1 & C1). erewrite bind_ret by exact E1. cbn [fst snd].
      destruct (IH N q1 g gs k rest n buf true (filter nonempty k) acc) as (q' & g' & gs' & k' & rest' & n' & buf' & eof' & added & E & O' & C' & S' & P' & L' & Pr); [done|done|done|lia|done|].
      exists q', g', gs', k', rest', n', buf', eof', added. split_and!; try done. by rewrite C'.
    + destruct (Next_ok N q g gs k rest n buf H Eg) as (q1 & E1 & O1 & C1). erewrite bind_ret by exact E1. cbn [fst snd]. destruct (skip_found rest) as (K1 & K2 & K3).
      destruct (IH N q1 g gs (k ++ take (skip rest) rest) (drop (skip rest) rest) (n + Z.of_nat (skip rest)) (default buf (found rest)) (bool_decide (found rest = None))
        (filter nonempty (k ++ take (skip rest) rest)) acc) as (q' & g' & gs' & k' & rest' & n' & buf' & eof' & added & E & O' & C' & S' & P' & L' & Pr); [done|by rewrite <- app_assoc, take_drop|done|lia|done|].
      exists q', g', gs', k', rest', n', buf', eof', added. split_and!; try done.
      * rewrite <- E. f_equal. rewrite filter_app, K1. cbn [scanner c_buf]. destruct (found rest) as [x|]; [by rewrite bool_decide_eq_true_2 by done|].
        rewrite bool_decide_eq_false_2 by (intros [? ?]; done). cbn. by rewrite app_nil_r.
      * by rewrite C'.
      * destruct S' as [S1 S2 S3 S4]. split; try done. etrans; [|exact S4]. by apply prefix_app_r.
      * intros _ _ Hr Ek. destruct S' as [_ _ _ [z Ez]]. rewrite Ek in Ez. symmetry in Ez. apply app_nil in Ez as [[_ Ez]%app_nil _].
        destruct rest as [|y rest]; [done|]. destruct (skip (y :: rest)) eqn:Es; [by apply K3|done].
Qed.

Lemma seg_Advance_ok g k rest n buf eof p s f : gp g = k ++ rest -> seg_ok s f (gb g) (gp g) ->
  exists s' f', seg_Advance (scanner p (len (enc (gb g ++ k))) n buf eof) (s, f) = (if bool_decide (rest = []) then Fail EOF else Ret tt, (s', f')) /\
    seg_ok s' f' (gb g ++ k) rest /\ same s s' /\ g_maxSize s' = g_maxSize s.
Proof.
  intros E Hs. rewrite E in Hs. unfold seg_Advance. cbn [scanner c_err c_pos]. destruct (advanceTo_ok _ _ _ _ _ Hs) as (s' & f' & E' & Hs' & Hsame & _ & Hm). by exists s', f'.
Qed.

Lemma live_rest g gs : live (g :: gs) -> Forall (fun g => gp g <> []) gs.
Proof. intros H. destruct (live_cases _ H) as (? & ? & [= <- <-] & [[-> _]|(_ & _ & Hc)]); [apply Forall_nil_2|done]. Qed.

Lemma Scanner_Advance_ok N q g gs k rest n buf eof : ok N q (g :: gs) -> gp g = k ++ rest -> N + 8 <= bound ->
  exists q' gs', Scanner_Advance vf (scanner (gname g) (len (enc (gb g ++ k))) n buf eof) q = (Ret n, q') /\ ok (N + 8) q' gs' /\ pending gs' = rest ++ pending gs /\ conf q' = conf q.
Proof.
  intros [H1 H2 H3 H4 H5] Eg HN. pose proof (live_rest _ _ H4) as Hgs. unfold Scanner_Advance. cbn [scanner c_s c_n].
  destruct (pass_ok N q g gs (seg_Advance (scanner (gname g) (len (enc (gb g ++ k))) n buf eof)) (if bool_decide (rest = []) then Fail EOF else Ret tt) k rest H1 H2 H3 Eg) as (q1 & E1 & B1 & B2 & B3 & B4).
  { intros s f Hs _. by apply seg_Advance_ok. }
  unfold scanner in E1. erewrite bind_ret; [|apply attempt_eq; exact E1]. destruct rest as [|b1 rest].
  - rewrite bool_decide_eq_true_2 by done. cbv beta iota. cbn [is_err]. rewrite String.eqb_refl. set (g1 := G (gi g) (gm g) (gb g ++ k) []) in *.
    destruct (pass_ok N q1 g1 gs (seg_Advance (scanner (gname g) (len (enc (gb g ++ k))) n buf eof)) (Fail EOF) [] [] B1 B2 B3 eq_refl) as (q2 & E2 & C1 & C2 & C3 & C4).
    { intros s f Hs _. pose proof (seg_Advance_ok g1 [] [] n buf eof (gname g) s f eq_refl Hs) as A. rewrite bool_decide_eq_true_2 in A by done. rewrite (app_nil_r (gb g1)) in A. rewrite app_nil_r. exact A. }
    unfold scanner in E2. erewrite bind_ret; [|apply attempt_eq; exact E2]. cbv beta iota. rewrite String.eqb_refl. cbn [negb].
    destruct (trim_done _ _ _ _ C1 C2 C3) as (q3 & gs3 & E3 & O3 & P & D3); [eapply chan_conf; [by rewrite C4|done]|done|done|done|].
    erewrite bind_ret by exact E3. exists q3, gs3. split_and!; try done. by rewrite D3, C4.
  - rewrite bool_decide_eq_false_2 by done. eexists q1, _. split; [reflexivity|]. split; [|split; [|exact B4]].
    + eapply ok_mono; [split; [exact B1|done|done|by apply live_cons|by eapply chan_conf]|lia|lia].
    + done.
Qed.

Lemma scan_ok N q gs l : ok N q gs -> Forall (fun o => forall b, o = Some b -> vf b = None) l -> N + cost l + 8 <= bound ->
  exists q' gs', ok (N + cost l + 8) q' gs' /\ conf q' = conf q /\
    (if bool_decide (pending gs = []) then scan l q = (Fail EOF, q') /\ pending gs' = [] else
     exists k rest added, scan l q = (Ret (filter nonempty k, added), q') /\ pending gs ++ added = k ++ rest /\ pending gs' = rest /\
       sublist added (omap (fun o => o) l) /\ (None ∈ l -> k <> [])).
Proof.
  intros H Hl HN. destruct (live_cases _ (o_live _ _ _ H)) as (g & gs' & -> & _). pose proof (pending_head _ _ (o_live _ _ _ H)) as [P1 P2].
  pose proof (cost_pos l). unfold scan, NewScanner.
  destruct (head_read N q g gs' newScanner (match gp g with [] => Fail EOF | _ => Ret (scanner (gname g) (len (enc (gb g))) 0 [] false) end) H) as (q1 & E1 & O1 & C1).
  { intros s f Hs Hp. destruct (newScanner_ok _ _ _ _ Hs) as (s' & E & Hr). rewrite Hp in E. by exists s'. }
  assert (En : (q ← get; match q_head q with None => fail ErrNotOpen | Some _ => on_seg (q_head q) newScanner end) q = on_seg (Some (gname g)) newScanner q).
  { mnow. by rewrite (linked_head _ _ _ (o_linked _ _ _ H)). }
  destruct (gp g) as [|b p] eqn:Eg.
  - exists q1, (g :: gs'). split; [eapply ok_mono; [exact O1|lia|lia]|]. split; [done|]. rewrite P1 by done. rewrite bool_decide_eq_true_2 by done. split; [|done].
    eapply bind_fail. by rewrite En.
  - rewrite bool_decide_eq_false_2 by by rewrite (P2 b p). erewrite bind_ret; [|rewrite En; exact E1].
    destruct (scan_loop_ok l N q1 g gs' [] (gp g) 0 [] false [] [] O1 eq_refl Hl ltac:(lia) eq_refl) as (q2 & g2 & gs2 & k2 & rest2 & n2 & buf2 & eof2 & added & E2 & O2 & C2 & S2 & Pe2 & L2 & Pr).
    rewrite app_nil_r in E2. cbn [app] in E2. destruct S2 as [_ _ S3 _].
    destruct (Scanner_Advance_ok _ _ _ _ _ _ n2 buf2 eof2 O2 S3 ltac:(lia)) as (q3 & gs3 & E3 & O3 & P3 & C3).
    exists q3, gs3. split; [done|]. split; [by rewrite C3, C2|]. exists k2, (rest2 ++ pending gs2), added. split_and!; try done.
    + erewrite bind_ret by exact E2. cbn [fst snd]. by erewrite bind_ret by exact E3.
    + rewrite <- Pe2, pending_cons, S3. by rewrite <- app_assoc.
    + intros Hn. apply Pr; [done|done|]. by rewrite Eg.
Qed.
End Verify.
End DQueueSpec.
