(* ===== verification/DQueueOpen.v ===== *)
(** * pkg/durablequeue: restarts, and the refinement theorem

    Opening a queue over the directory another one left behind finds the same
    blocks.  With the lemmas on the single operations this gives the
    refinement of a list of blocks by any sequence of operations. *)
From S2P Require Import Prelude Ring WalLog DQueue DQueueSegs DQueueSpec.
From stdpp Require Import gmap sorting.
Import DQueue.
Import DQueueSegs.
Import DQueueSpec.
#[global] Open Scope Z_scope.

Module DQueueOpen.
#[local] Existing Instance by_id_dec.

Section Verify.
Context (vf : list Z -> option string).

(** ** Closing *)

Lemma close_all_ok l q : NoDup (gname <$> l) -> Forall (rep q) l ->
  exists q', close_all (gname <$> l) q = (Ret tt, q') /\ q_dir q' = q_dir q /\ core q' = core q.
Proof.
  revert q. induction l as [|g l IH]; intros q Hn Hr; [by exists q|]. rewrite fmap_cons in *. apply NoDup_cons in Hn as [Hg Hn].
  apply Forall_cons_1 in Hr as [(s & f & R1 & R2 & R3 & R4 & R5) Hr]. cbn [close_all].
  erewrite bind_ret.
  2: { unfold on_seg. cbn [mbind option_bind]. rewrite R1, R4, R2. cbn [default from_option id]. rewrite (close_ok _ _ _ _ R3). destruct R3 as (o & -> & _). reflexivity. }
  set (q1 := set_heap _ _). destruct (IH q1) as (q' & E & D & C); [done| |].
  - rewrite Forall_forall in Hr. apply Forall_forall. intros g' Hg'. apply rep_update; [by apply Hr|]. intros En. apply Hg. rewrite <- En. by apply list_elem_of_fmap_2.
  - exists q'. split; [done|]. split; [|by rewrite C]. rewrite D. cbn. by apply insert_id.
Qed.

Lemma gnames_NoDup N q gs : base vf N q gs -> NoDup (gname <$> gs).
Proof.
  intros H. assert (Hi := b_ids _ _ _ _ H). assert (Hb := b_bound _ _ _ _ H). unfold bound in Hb. assert (Hs := b_sorted _ _ _ _ H). clear H.
  induction gs as [|g gs IH]; [apply NoDup_nil_2|]. rewrite fmap_cons in *. apply Forall_cons_1 in Hi as [Hg Hi]. apply StronglySorted_inv in Hs as [Hs Hlt]. apply NoDup_cons. split; [|by apply IH].
  intros (g' & E & Hg')%list_elem_of_fmap. rewrite Forall_forall in Hi. rewrite Forall_forall in Hlt. specialize (Hi g' Hg'). specialize (Hlt (gi g') (list_elem_of_fmap_2 _ _ _ Hg')).
  apply FormatUint_inj in E; lia.
Qed.

Lemma Close_ok N q gs : base vf N q gs -> exists q', Close q = (Ret tt, q') /\ q_dir q' = q_dir q /\ conf q' = conf q.
Proof.
  intros H. destruct (close_all_ok gs q) as (q' & E & D & C); [by eapply gnames_NoDup|by eapply b_rep|]. unfold Close. mnow. rewrite (b_segs _ _ _ _ H).
  erewrite bind_ret by exact E. eexists. split; [reflexivity|]. split; [done|]. by destruct (core_fields _ _ C) as (_ & _ & ?).
Qed.

(** ** Loading *)

(** What is known of a segment file before it is opened. *)
Definition stored (d : dir) (g : gseg) : Prop :=
  d !! gname g = Some (file (gb g) (gp g)) /\ 0 < gi g < 2 ^ 64 /\ gsize g <= bound /\ Forall (fun b => vf b = None) (gp g).
Definition reopened (mx : Z) (g : gseg) : gseg := G (gi g) (Z.max mx (gsize g)) (gb g) (gp g).
Definition loaded (mx : Z) (s : segment) (g : gseg) : Prop :=
  seg_ok s (file (gb g) (gp g)) (gb g) (gp g) /\ g_path s = gname g /\ g_id s = gi g /\ g_maxSize s = Z.max mx (gsize g).

Lemma newSegment_ok q g mx : stored (q_dir q) g -> 0 <= mx <= limit -> exists s, newSegment vf (gname g) mx q = (Ret s, q) /\ loaded mx s g.
Proof.
  intros (Hd & Hi & Hs & Hv) Hm. unfold newSegment. mnow. rewrite Hd. cbn [default from_option id]. mnow.
  assert (ParseUint (gname g) = Some (gi g)) as -> by (apply ParseUint_Format; lia). cbv zeta.
  destruct (open_file vf (Z.max mx (gsize g)) (gname g) (gi g) (gb g) (gp g)) as (s & E & Hok & H1 & H2 & H3).
  { fold (gsize g). unfold bound, limit in *. lia. }
  { fold (gsize g). unfold bound, limit in *. lia. }
  { destruct (gp g); [done|]. by apply Forall_cons_1 in Hv as [? _]. }
  exists s. split; [|done]. unfold gsize in E. rewrite E. mnow. mnow. mnow. f_equal. destruct q. unfold set_dir. cbn in *. f_equal. by rewrite insert_insert_eq, insert_id.
Qed.

Lemma load_files_ok fl : forall q ss hs, 0 <= q_maxSegmentSize q <= limit -> filter (fun n => is_Some (ParseUint n)) fl = gname <$> hs -> Forall (stored (q_dir q)) hs -> NoDup (gname <$> hs) ->
  exists q' ss', load_files vf fl ss q = (Ret (ss ++ ss'), q') /\ Forall2 (loaded (q_maxSegmentSize q)) ss' (filter (fun g => gp g <> []) hs) /\
    (forall s, s ∈ ss' -> q_heap q' !! g_path s = Some s) /\ (forall n, n ∉ gname <$> hs -> q_heap q' !! n = q_heap q !! n /\ q_dir q' !! n = q_dir q !! n) /\
    (forall g, g ∈ hs -> q_dir q' !! gname g = match gp g with [] => None | _ => Some (file (gb g) (gp g)) end) /\ core q' = core q /\ q_total q' = q_total q.
Proof.
  induction fl as [|n fl IH]; intros q ss hs Hm Ef Hst Hn.
  { destruct hs; [|done]. exists q, []. cbn [load_files]. rewrite app_nil_r. split_and!; try done; set_solver. }
  cbn [load_files]. destruct (ParseUint n) as [id|] eqn:Ep.
  2: { rewrite filter_cons_False in Ef by (rewrite Ep; by intros [? ?]). by apply IH. }
  rewrite filter_cons_True in Ef by by rewrite Ep. destruct hs as [|g hs]; [done|]. rewrite fmap_cons in *. injection Ef as -> Ef.
  apply Forall_cons_1 in Hst as [Hg Hst]. apply NoDup_cons in Hn as [Hng Hn]. mnow. destruct (newSegment_ok _ _ _ Hg Hm) as (s & E & Hl).
  erewrite bind_ret by exact E. pose proof (proj1 Hl) as Hok. rewrite (seg_empty_ok _ _ _ _ Hok). assert (Hp : g_path s = gname g) by apply Hl.
  assert (Hst' : forall d, (forall m, m <> gname g -> d !! m = q_dir q !! m) -> Forall (stored d) hs).
  { intros d Hd. rewrite Forall_forall in Hst. apply Forall_forall. intros g' Hg'. destruct (Hst g' Hg') as (S1 & S2). split; [|done]. rewrite Hd; [done|]. intros En. apply Hng. rewrite <- En. by apply list_elem_of_fmap_2. }
  destruct (gp g) as [|b p] eqn:Eg.
  - rewrite bool_decide_eq_true_2 by done. mnow. rewrite Hp.
    destruct (IH (set_dir (delete (gname g) (q_dir q)) q) ss hs Hm Ef) as (q' & ss' & E' & F1 & F2 & F3 & F4 & F5 & F6); [|done|].
    { apply Hst'. intros m Hmn. cbn. by rewrite lookup_delete_ne. }
    exists q', ss'. rewrite filter_cons_False by (rewrite Eg; naive_solver). split_and!; try done.
    + intros m Hmn. apply not_elem_of_cons in Hmn as [Hm1 Hm2]. destruct (F3 m Hm2) as [-> ->]. cbn. by rewrite lookup_delete_ne.
    + intros g' [->|Hg']%elem_of_cons; [|by apply F4]. destruct (F3 (gname g)) as [_ ->]; [done|]. cbn. by rewrite Eg, lookup_delete_eq.
  - rewrite bool_decide_eq_false_2 by done. mnow. rewrite Hp.
    destruct (IH (set_heap (<[gname g := s]> (q_heap q)) q) (ss ++ [s]) hs Hm Ef) as (q' & ss' & E' & F1 & F2 & F3 & F4 & F5 & F6); [by apply Hst'|done|].
    exists q', (s :: ss'). rewrite filter_cons_True by by rewrite Eg. split_and!; try done.
    + by rewrite E', <- app_assoc.
    + constructor; [|done]. by rewrite <- Eg in *.
    + intros s' [->|Hs']%elem_of_cons; [|by apply F2]. destruct (F3 (gname g)) as [Hx _]; [done|]. rewrite Hp, Hx. cbn. by rewrite lookup_insert_eq.
    + intros m Hmn. apply not_elem_of_cons in Hmn as [Hm1 Hm2]. destruct (F3 m Hm2) as [-> ->]. cbn. by rewrite lookup_insert_ne.
    + intros g' [->|Hg']%elem_of_cons; [|by apply F4]. destruct (F3 (gname g)) as [_ ->]; [done|]. cbn [q_dir set_heap]. rewrite Eg. destruct Hg as (Hg & _). by rewrite Hg, Eg.
Qed.

(** ** Opening *)

Lemma numeric_names N q gs : base vf N q gs -> exists hs, filter (fun n => is_Some (ParseUint n)) (ReadDir (q_dir q)) = gname <$> hs /\ hs ≡ₚ gs.
Proof.
  intros H. assert (Hp : filter (fun n => is_Some (ParseUint n)) (ReadDir (q_dir q)) ≡ₚ gname <$> gs).
  { apply NoDup_Permutation; [apply NoDup_filter, ReadDir_NoDup|by eapply gnames_NoDup|]. intros n. rewrite list_elem_of_filter, elem_of_ReadDir, list_elem_of_fmap. split.
    - intros [[id Hid] Hd]. destruct (b_dir _ _ _ _ H n id Hd Hid) as (g & Hg & ->). by exists g.
    - intros (g & -> & Hg). destruct (base_seg _ _ _ _ _ H Hg) as (s & f & _ & Hf & _). split; [|by exists f]. exists (gi g). apply ParseUint_Format.
      pose proof (b_ids _ _ _ _ H) as Hi. rewrite Forall_forall in Hi. specialize (Hi g Hg). pose proof (b_bound _ _ _ _ H). unfold bound in *. lia. }
  apply Permutation_map_inv in Hp as (hs & E & Hhs). by exists hs.
Qed.

Lemma sorted_filter gs (P : gseg -> Prop) `{!forall g, Decision (P g)} : StronglySorted Z.lt (gi <$> gs) -> StronglySorted Z.lt (gi <$> filter P gs).
Proof.
  induction gs as [|g gs IH]; [done|]. rewrite fmap_cons. intros [Hs Hf]%StronglySorted_inv. destruct (decide (P g)); [rewrite filter_cons_True by done|rewrite filter_cons_False by done; by apply IH].
  rewrite fmap_cons. constructor; [by apply IH|]. rewrite Forall_forall in Hf. apply Forall_forall. intros x (g' & -> & Hg')%list_elem_of_fmap. apply Hf, list_elem_of_fmap_2. by apply list_elem_of_filter in Hg' as [_ ?].
Qed.

Lemma total_filter gs (P : gseg -> Prop) `{!forall g, Decision (P g)} : total (filter P gs) <= total gs.
Proof.
  induction gs as [|g gs IH]; [done|]. pose proof (gsize_pos g). destruct (decide (P g)); [rewrite filter_cons_True by done|rewrite filter_cons_False by done]; rewrite ?total_cons; lia.
Qed.

Lemma pending_filter gs : pending (filter (fun g => gp g <> []) gs) = pending gs.
Proof.
  induction gs as [|g gs IH]; [done|]. destruct (decide (gp g <> [])) as [Hg|Hg]; [rewrite filter_cons_True by done; by rewrite !pending_cons, IH|].
  rewrite filter_cons_False by done. rewrite pending_cons, IH. destruct (gp g); [done|]. exfalso. by apply Hg.
Qed.

Lemma sorted_le_lt l : StronglySorted Z.lt l -> StronglySorted Z.le l.
Proof. induction 1 as [|x l H IH Hf]; [constructor|]. constructor; [done|]. eapply Forall_impl; [exact Hf|]. intros; lia. Qed.

Lemma by_id_total : Total by_id.
Proof. intros a b. unfold by_id. lia. Qed.
Lemma by_id_trans : Transitive by_id.
Proof. intros a b c. unfold by_id. lia. Qed.

Lemma fmap_id_sorted ss : StronglySorted by_id ss -> StronglySorted Z.le (g_id <$> ss).
Proof. induction 1 as [|s ss H IH Hf]; [constructor|]. rewrite fmap_cons. constructor; [done|]. by apply Forall_fmap. Qed.

Lemma sorted_unique (l1 l2 : list Z) : StronglySorted Z.le l1 -> StronglySorted Z.le l2 -> l1 ≡ₚ l2 -> l1 = l2.
Proof. apply (StronglySorted_unique Z.le). Qed.

(** The segments are found in the order of their identifiers. *)
Lemma loaded_sort mx ss hs gs : Forall2 (loaded mx) ss hs -> hs ≡ₚ gs -> StronglySorted Z.lt (gi <$> gs) ->
  g_path <$> merge_sort by_id ss = gname <$> gs.
Proof.
  intros HF Hp Hs. set (ms := merge_sort by_id ss). assert (Hms : ms ≡ₚ ss) by apply merge_sort_Permutation.
  assert (Hpath : forall s, s ∈ ss -> g_path s = FormatUint (g_id s)).
  { intros s Hin. apply list_elem_of_lookup_1 in Hin as [i Hi]. eapply Forall2_lookup_l in HF as (g & _ & _ & -> & -> & _); [done|exact Hi]. }
  assert (Eids : g_id <$> ss = gi <$> hs).
  { clear -HF. induction HF as [|s g ss hs (_ & _ & E & _) HF IH]; [done|]. rewrite !fmap_cons, IH. by rewrite E. }
  assert (E : g_id <$> ms = gi <$> gs).
  { apply sorted_unique; [|by apply sorted_le_lt|].
    - apply fmap_id_sorted. pose proof by_id_total. pose proof by_id_trans. apply StronglySorted_merge_sort; apply _.
    - by rewrite Hms, Eids, Hp. }
  transitivity (FormatUint <$> (g_id <$> ms)); [|by rewrite E, <- list_fmap_compose]. rewrite <- list_fmap_compose. apply list_fmap_ext. intros i s Hi. apply Hpath.
  rewrite <- Hms. by apply list_elem_of_lookup_2 in Hi.
Qed.

Lemma DiskUsage_ok N q gs : base vf N q gs -> DiskUsage q = total gs.
Proof.
  intros H. unfold DiskUsage, total_of. rewrite (b_segs _ _ _ _ H). assert (Hr := b_rep _ _ _ _ H). assert (Hs := b_size _ _ _ _ H). assert (Hb := b_bound _ _ _ _ H). clear H.
  assert (forall n, 0 <= n -> n + total gs <= bound -> foldl (fun n p => match q_heap q !! p with Some s => i64 (n + diskUsage s) | None => n end) n (gname <$> gs) = n + total gs) as Hgen; [|rewrite Hgen; lia].
  clear Hs Hb. induction gs as [|g gs IH]; intros n Hn HB; [cbn; lia|]. apply Forall_cons_1 in Hr as [(s & f & R1 & R2 & R3 & _) Hr]. rewrite fmap_cons. cbn [foldl]. rewrite R1.
  rewrite total_cons in *. pose proof (gsize_pos g). pose proof (total_pos gs). assert (diskUsage s = gsize g) as -> by (unfold diskUsage, gsize; destruct R3 as (o & _ & -> & -> & _); done).
  unfold bound in *. rewrite i64_id by (unint; lia). rewrite IH by (done || lia). lia.
Qed.

Definition nonempty_seg (g : gseg) : Prop := gp g <> [].

Lemma total_reopened mx gs : total (reopened mx <$> gs) = total gs.
Proof. induction gs as [|g gs IH]; [done|]. rewrite fmap_cons, !total_cons, IH. done. Qed.
Lemma pending_reopened mx gs : pending (reopened mx <$> gs) = pending gs.
Proof. induction gs as [|g gs IH]; [done|]. rewrite fmap_cons, !pending_cons, IH. done. Qed.

Lemma stored_all N q gs : base vf N q gs -> Forall (stored (q_dir q)) gs.
Proof.
  intros H. pose proof (b_ids _ _ _ _ H) as Hi. pose proof (b_verified _ _ _ _ H) as Hv. pose proof (b_bound _ _ _ _ H). pose proof (b_size _ _ _ _ H). unfold bound in *.
  rewrite Forall_forall in Hi. rewrite Forall_forall in Hv. apply Forall_forall. intros g Hg. destruct (base_seg _ _ _ _ _ H Hg) as (s & f & _ & Hf & (o & _ & -> & _) & _).
  specialize (Hi g Hg). pose proof (total_in _ _ Hg). unfold stored, bound. split_and!; [done|lia|lia|lia|by apply Hv].
Qed.

Lemma loadSegments_ok N q0 q gs : base vf N q0 gs -> q_dir q = q_dir q0 -> 8 <= q_maxSegmentSize q <= limit ->
  exists q' names, loadSegments vf q = (Ret names, q') /\ base vf N (set_segments names q') (reopened (q_maxSegmentSize q) <$> filter nonempty_seg gs) /\ core q' = core q /\ q_total q' = q_total q.
Proof.
  intros H Ed Hm. destruct (numeric_names _ _ _ H) as (hs & Ef & Hp). pose proof (gnames_NoDup _ _ _ H) as Hnd. assert (Hst := stored_all _ _ _ H).
  unfold loadSegments. mnow. rewrite Ed. destruct (load_files_ok (ReadDir (q_dir q0)) q [] hs ltac:(lia) Ef) as (q' & ss & E & F1 & F2 & F3 & F4 & F5 & F6).
  { rewrite Ed. by rewrite Hp. } { by rewrite Hp. }
  erewrite bind_ret by exact E. cbn [app]. eexists q', _. split; [reflexivity|]. split; [|done].
  assert (Hp2 : filter (fun g => gp g <> []) hs ≡ₚ filter nonempty_seg gs) by (by rewrite Hp).
  rewrite (loaded_sort _ _ _ _ F1 Hp2) by (apply sorted_filter, H). set (gs' := filter nonempty_seg gs) in *.
  assert (Hsub : forall g, g ∈ gs' <-> gp g <> [] /\ g ∈ gs) by (intros g; unfold gs'; by rewrite list_elem_of_filter).
  assert (Hids := b_ids _ _ _ _ H). assert (Hver := b_verified _ _ _ _ H). rewrite Forall_forall in Hids. rewrite Forall_forall in Hver. split.
  - cbn [q_segments set_segments]. by rewrite <- list_fmap_compose.
  - rewrite <- list_fmap_compose. apply (sorted_filter gs nonempty_seg), H.
  - apply Forall_fmap, Forall_forall. intros g [_ Hg]%Hsub. exact (Hids g Hg).
  - apply Forall_fmap, Forall_forall. intros g Hg. pose proof Hg as [Hne Hin]%Hsub. rewrite <- Hp2 in Hg. apply list_elem_of_lookup_1 in Hg as [i Hi].
    eapply Forall2_lookup_r in F1 as (s & Hs & L1 & L2 & L3 & L4); [|exact Hi]. apply list_elem_of_lookup_2 in Hs. exists s, (file (gb g) (gp g)).
    change (gname (reopened (q_maxSegmentSize q) g)) with (gname g). cbn [q_heap q_dir set_segments]. rewrite <- Hp in Hin. rewrite (F4 g Hin). split_and!; try done; [rewrite <- L2; by apply F2|by destruct (gp g)].
  - intros n id Hx Hid. cbn [q_dir set_segments] in Hx. destruct (decide (n ∈ gname <$> hs)) as [(g & -> & Hg)%list_elem_of_fmap|Hnot].
    + exists (reopened (q_maxSegmentSize q) g). split; [|done]. apply list_elem_of_fmap_2, Hsub. rewrite (F4 g Hg) in Hx. rewrite Hp in Hg. split; [|done]. intros En. rewrite En in Hx. by destruct Hx.
    + destruct (F3 n Hnot) as [_ Ex]. rewrite Ex, Ed in Hx. destruct (b_dir _ _ _ _ H n id Hx Hid) as (g & Hg & ->). exfalso. apply Hnot, list_elem_of_fmap_2. by rewrite Hp.
  - rewrite total_reopened. pose proof (total_filter gs nonempty_seg). pose proof (b_size _ _ _ _ H). unfold gs'. lia.
  - by apply H.
  - cbn [q_maxSegmentSize set_segments]. destruct (core_fields _ _ F5) as (_ & _ & C). unfold conf in C. injection C as -> _ _ _. done.
  - apply Forall_fmap, Forall_forall. intros g [_ Hg]%Hsub. exact (Hver g Hg).
Qed.

(** The last part of [Open]: blocks are there, or there are none. *)
Definition settle : M Queue unit :=
  q ← get; r ← attempt (on_seg (head (q_segments q)) current);
  if is_err r EOF then trimHead vf false else q ← get; modify (add_total (DiskUsage q)).

Lemma settle_some N q gs : base vf N q gs -> linked q gs -> gs <> [] -> Forall (fun g => gp g <> []) gs -> q_total q = 0 -> (q_appendCh q < q_depth q)%nat ->
  exists q', settle q = (Ret tt, q') /\ ok vf N q' gs /\ conf q' = conf q.
Proof.
  intros B L Hgs Hne Ht Hch. destruct gs as [|g gs]; [done|]. clear Hgs. assert (Hb := b_bound _ _ _ _ B).
  assert (Hgp : exists b p, gp g = b :: p) by (apply Forall_cons_1 in Hne as [Hg _]; destruct (gp g) as [|b p]; [done|by exists b, p]). destruct Hgp as (b & p & Hgp).
  destruct (base_seg vf _ _ _ g B) as (s & f & R1 & R2 & R3 & R4 & R5 & R6); [apply elem_of_cons; by left|].
  set (z := total (g :: gs)). assert (Hz : 0 <= z <= N) by (split; [apply total_pos|apply B]).
  set (qz := add_total z q). assert (Bz : base vf N qz (g :: gs)) by (by apply (base_same _ _ q)).
  assert (Kz : counted N qz (g :: gs)).
  { exists 0. split; [lia|]. change (i64 (q_total q + z) = z - 8 * 0). rewrite Ht. unfold bound in *. rewrite i64_id by (unint; lia). lia. }
  destruct (head_read vf N qz g gs current (Ret b)) as (q4 & E4 & O4 & C4); [split; [done|done|done|by apply live_nonempty|done]| |].
  { intros s0 f0 Hs0 _. destruct (current_ok _ _ _ _ Hs0) as (s' & Es & Hr). exists s'. rewrite Es, Hgp. split; [done|]. by rewrite <- Hgp. }
  (* the call on the queue before its size is counted *)
  assert (E4' : exists q5, on_seg (Some (gname g)) current q = (Ret b, q5) /\ add_total z q5 = q4).
  { unfold on_seg in *. cbn [mbind option_bind] in *. change (q_heap qz) with (q_heap q) in E4. change (q_dir qz) with (q_dir q) in E4. rewrite R1 in *.
    destruct (current (s, _)) as [r [s' f']]. injection E4 as -> <-. eexists. split; [reflexivity|]. by destruct (g_file s). }
  destruct E4' as (q5 & E5 & E6). unfold settle. mnow. rewrite (b_segs _ _ _ _ B). erewrite bind_ret; [|apply attempt_eq; exact E5]. cbn [is_err]. mnow.
  assert (Hdu : DiskUsage q5 = z).
  { change (DiskUsage q5) with (total_of diskUsage q5). replace (total_of diskUsage q5) with (DiskUsage q4) by (by rewrite <- E6). apply (DiskUsage_ok N). apply O4. }
  exists q4. split; [cbv [modify]; by rewrite Hdu, E6|]. done.
Qed.

Lemma settle_none N q g : base vf N q [g] -> linked q [g] -> counted N q [g] -> (q_appendCh q < q_depth q)%nat -> gp g = [] -> N + 8 <= bound ->
  exists q' gs', settle q = (Ret tt, q') /\ ok vf (N + 8) q' gs' /\ pending gs' = [] /\ conf q' = conf q.
Proof.
  intros B L K Hch Hg HN. destruct (pass_ok vf _ _ _ _ current (Fail EOF) [] [] B L K Hg) as (q4 & E4 & B4 & L4 & K4 & C4).
  { intros s f Hs _. destruct (current_ok _ _ _ _ Hs) as (s' & Es & Hr). exists s', f. rewrite Hg, app_nil_r in *. done. }
  unfold settle. mnow. rewrite (b_segs _ _ _ _ B). erewrite bind_ret; [|apply attempt_eq; exact E4]. cbn [is_err]. rewrite String.eqb_refl.
  destruct (trim_done vf _ _ _ _ B4 L4 K4) as (q5 & gs5 & E5 & O5 & P5 & C5); [by eapply chan_conf|done|apply Forall_nil_2|lia|].
  exists q5, gs5. split_and!; try done. by rewrite C5, C4.
Qed.

Lemma Open_settle q names q1 : loadSegments vf q = (Ret names, q1) ->
  Open vf q = ((match names with [] => addSegment vf | _ => mret tt end);; q ← get; modify (set_head (head (q_segments q)));; modify (set_tail (last (q_segments q)));; settle) (set_segments names q1).
Proof. intros E. unfold Open. erewrite bind_ret by exact E. mnow. cbv [mbind M_bind]. by destruct (match names with [] => addSegment vf | _ => mret tt end _) as [[]?]. Qed.

Lemma Open_ok N q0 q gs : base vf N q0 gs -> q_dir q = q_dir q0 -> 8 <= q_maxSegmentSize q <= limit -> q_total q = 0 -> (q_appendCh q < q_depth q)%nat -> N + 16 <= bound ->
  exists q' gs', Open vf q = (Ret tt, q') /\ ok vf (N + 16) q' gs' /\ pending gs' = pending gs /\ conf q' = conf q.
Proof.
  intros H Ed Hm Ht Hch HN. destruct (loadSegments_ok _ _ _ _ H Ed Hm) as (q1 & names & E1 & B1 & C1 & T1). rewrite (Open_settle _ _ _ E1).
  assert (Hb := b_bound _ _ _ _ H). assert (Hsz := b_size _ _ _ _ H). pose proof (total_pos gs). destruct (core_fields _ _ C1) as (_ & _ & Cc).
  assert (En := b_segs _ _ _ _ B1). cbn [q_segments set_segments] in En. pose proof (pending_filter gs) as Hpf. fold nonempty_seg in *.
  destruct (filter nonempty_seg gs) as [|g gs'] eqn:Egs.
  - cbn in En. subst names. destruct (addSegment_ok _ _ _ _ B1 ltac:(lia)) as (q2 & E2 & B2 & C2 & T2). erewrite bind_ret by exact E2. mnow. mnow. mnow. cbn [app] in B2.
    assert (Es2 := b_segs _ _ _ _ B2). set (g := fresh _ _) in *. set (q3 := set_tail _ _).
    assert (B3 : base vf (N + 8) q3 [g]) by (apply (base_same _ _ q2); done).
    assert (El3 : linked q3 [g]) by (split; unfold q3; cbn [q_tail q_head set_tail set_head]; by rewrite Es2).
    assert (Ec3 : counted (N + 8) q3 [g]).
    { exists 1. split; [lia|]. change (q_total q3) with (q_total q2). rewrite T2. change (q_total (set_segments [] q1)) with (q_total q1). rewrite T1, Ht. change (total [g]) with 8. lia. }
    destruct (core_fields _ _ C2) as (_ & _ & Cc2). assert (Hc3 : (q_appendCh q3 < q_depth q3)%nat) by (apply (chan_conf q); [by transitivity (conf q1)|done]).
    destruct (settle_none _ _ _ B3 El3 Ec3 Hc3 eq_refl ltac:(lia)) as (q5 & gs5 & E5 & O5 & P5 & C5).
    exists q5, gs5. split; [done|]. split; [replace (N + 16) with (N + 8 + 8) by lia; done|]. split; [by rewrite P5, <- Hpf|]. rewrite C5. by transitivity (conf q1).
  - rewrite <- Egs in *. set (gl := reopened (q_maxSegmentSize q) <$> filter nonempty_seg gs) in *.
    assert (Hgl : gl <> []) by (unfold gl; by rewrite Egs). destruct names as [|n nl]; [by destruct gl|]. mnow. mnow. mnow. mnow. set (q3 := set_tail _ _).
    destruct (settle_some N q3 gl) as (q4 & E4 & O4 & C4).
    + by eapply base_same; [exact B1|..].
    + split; unfold q3; cbn [q_tail q_head q_segments set_tail set_head set_segments]; rewrite En; [by destruct gl|by rewrite fmap_last].
    + done.
    + apply Forall_fmap, Forall_forall. intros y [Hy _]%list_elem_of_filter. exact Hy.
    + change (q_total q1 = 0). by rewrite T1.
    + by apply (chan_conf q).
    + exists q4, gl. split; [done|]. split; [eapply ok_mono; [exact O4|lia|lia]|]. split; [unfold gl; by rewrite pending_reopened|]. by rewrite C4.
Qed.

Lemma TotalBytes_ok N q gs : base vf N q gs -> TotalBytes q = len (enc (pending gs)).
Proof.
  intros H. unfold TotalBytes, total_of. rewrite (b_segs _ _ _ _ H). assert (Hr := b_rep _ _ _ _ H). assert (Hs := b_size _ _ _ _ H). assert (Hb := b_bound _ _ _ _ H). clear H.
  assert (forall n, 0 <= n -> n + total gs <= bound -> foldl (fun n p => match q_heap q !! p with Some s => i64 (n + totalBytes s) | None => n end) n (gname <$> gs) = n + len (enc (pending gs))) as Hgen; [|rewrite Hgen; lia].
  clear Hs Hb. induction gs as [|g gs IH]; intros n Hn HB; [cbn; lia|]. apply Forall_cons_1 in Hr as [(s & f & R1 & R2 & R3 & _) Hr]. rewrite fmap_cons. cbn [foldl]. rewrite R1.
  rewrite total_cons in HB. pose proof (total_pos gs). rewrite pending_cons, enc_len_app.
  assert (totalBytes s = len (enc (gp g))) as -> by (unfold totalBytes, footerSize; destruct R3 as (o & _ & -> & -> & -> & _); rewrite file_len; lia).
  unfold gsize in HB. rewrite file_len in HB. unfold bound in *. rewrite i64_id by (unint; lia). rewrite IH by (done || lia). lia.
Qed.

(** ** The refinement *)

Inductive qop :=
| OAppend (b : block)
| OCurrent
| OPeek (n : Z)
| OPop
| OScan (l : list (option block))
| ORestart (clean : bool).

Inductive obs :=
| Done (r : outcome unit)
| Block (r : outcome block)
| Blocks (r : outcome (list block))
| Scanned (r : outcome (list block * list block)).

(** The head block, and the queue moved past it. *)
Definition pop : M Queue block := b ← Current; Advance vf;; mret b.
(** A new queue over the directory; the old one is closed, or its process died
    between two calls. *)
Definition restart (clean : bool) : M Queue unit :=
  (if clean then Close else mret tt);; q ← get;
  q' ← lift (NewQueue (q_dir q) (q_maxSize q) (q_maxSegmentSize q) 0 (q_depth q));
  modify (fun _ => q');; Open vf.

Definition exec (o : qop) (q : Queue) : obs * Queue :=
  match o with
  | OAppend b => let '(r, q) := Append vf b q in (Done r, q)
  | OCurrent => let '(r, q) := Current q in (Block r, q)
  | OPeek n => let '(r, q) := PeekN n q in (Blocks r, q)
  | OPop => let '(r, q) := pop q in (Block r, q)
  | OScan l => let '(r, q) := scan vf l q in (Scanned r, q)
  | ORestart clean => let '(r, q) := restart clean q in (Done r, q)
  end.
Fixpoint execs (os : list qop) (q : Queue) : list (qop * obs) * Queue :=
  match os with
  | [] => ([], q)
  | o :: os => let '(b, q) := exec o q in let '(t, q) := execs os q in ((o, b) :: t, q)
  end.

(** The abstract queue: a list of blocks. *)
Inductive astep : list block -> qop -> obs -> list block -> Prop :=
| a_append p b : astep p (OAppend b) (Done (Ret tt)) (p ++ [b])
| a_full p b : astep p (OAppend b) (Done (Fail ErrQueueFull)) p
| a_current p b : astep (b :: p) OCurrent (Block (Ret b)) (b :: p)
| a_current_empty : astep [] OCurrent (Block (Fail EOF)) []
| a_peek p n k : p <> [] -> (k <= Z.to_nat n)%nat -> (0 < n -> (0 < k)%nat) -> astep p (OPeek n) (Blocks (Ret (filter nonempty (take k p)))) p
| a_peek_empty n : astep [] (OPeek n) (Blocks (Fail EOF)) []
| a_pop p b : astep (b :: p) OPop (Block (Ret b)) p
| a_pop_empty : astep [] OPop (Block (Fail EOF)) []
| a_scan p l k rest added : p <> [] -> p ++ added = k ++ rest -> sublist added (omap (fun o => o) l) -> (None ∈ l -> k <> []) ->
    astep p (OScan l) (Scanned (Ret (filter nonempty k, added))) rest
| a_scan_empty l : astep [] (OScan l) (Scanned (Fail EOF)) []
| a_restart p clean : astep p (ORestart clean) (Done (Ret tt)) p.

Inductive arun : list block -> list (qop * obs) -> list block -> Prop :=
| arun_nil p : arun p [] p
| arun_cons p o b p' t p'' : astep p o b p' -> arun p' t p'' -> arun p ((o, b) :: t) p''.

(** The blocks taken in and given out by a run. *)
Definition accepted (s : qop * obs) : list block :=
  match s with (OAppend b, Done (Ret _)) => [b] | (_, Scanned (Ret (_, added))) => added | _ => [] end.
Definition delivered (s : qop * obs) : list block :=
  match s with (OPop, Block (Ret b)) => [b] | (_, Scanned (Ret (k, _))) => k | _ => [] end.

Lemma filter_nonempty_idem (k : list block) : filter nonempty (filter nonempty k) = filter nonempty k.
Proof. apply list_filter_filter_l. done. Qed.

Lemma astep_conserves p o b p' : astep p o b p' -> filter nonempty (p ++ accepted (o, b)) = filter nonempty (delivered (o, b) ++ p').
Proof.
  intros []; cbn [accepted delivered app]; rewrite ?app_nil_r; try done. rewrite H0, !filter_app, filter_nonempty_idem. done.
Qed.

Lemma arun_conserves p t p' : arun p t p' -> filter nonempty (p ++ concat (accepted <$> t)) = filter nonempty (concat (delivered <$> t) ++ p').
Proof.
  induction 1 as [p|p o b p1 t p2 Hs Hr IH]; [by rewrite app_nil_r|]. apply astep_conserves in Hs. rewrite !fmap_cons. cbn [concat].
  rewrite app_assoc, filter_app, Hs, filter_app, <- app_assoc, <- filter_app, IH, <- filter_app, app_assoc. done.
Qed.

Definition op_ok (o : qop) : Prop :=
  match o with OAppend b => vf b = None | OScan l => Forall (fun o => forall b, o = Some b -> vf b = None) l | _ => True end.
Definition op_cost (o : qop) : Z := match o with OAppend b => len b + 16 | OScan l => cost l + 16 | _ => 16 end.
Definition ops_cost (os : list qop) : Z := foldr (fun o n => op_cost o + n) 0 os.

(** What opening the queue again with the same limits needs. *)
Definition limits_ok (q : Queue) : Prop := 8 <= q_maxSegmentSize q < limit /\ 2 * q_maxSegmentSize q <= q_maxSize q /\ q_appendCh q = 0%nat /\ (0 < q_depth q)%nat.
Lemma limits_conf q q' : conf q' = conf q -> limits_ok q -> limits_ok q'.
Proof. unfold conf, limits_ok. intros E. injection E as -> -> -> ->. done. Qed.

Lemma restart_ok N q gs clean : ok vf N q gs -> limits_ok q -> N + 16 <= bound ->
  exists q' gs', restart clean q = (Ret tt, q') /\ ok vf (N + 16) q' gs' /\ pending gs' = pending gs /\ conf q' = conf q.
Proof.
  intros H (L1 & L2 & L3 & L4) HN. pose proof (o_base _ _ _ _ H) as B.
  assert (exists q1, (if clean then Close else mret tt) q = (Ret tt, q1) /\ q_dir q1 = q_dir q /\ conf q1 = conf q) as (q1 & E1 & D1 & C1).
  { destruct clean; [by eapply Close_ok|by exists q]. }
  unfold restart. erewrite bind_ret by exact E1. mnow. unfold conf in C1. injection C1 as Em Ex Ed Ea. rewrite D1, Em, Ex, Ed. unfold NewQueue.
  unfold limit in *. rewrite i64_id by (unint; lia). rewrite (proj2 (Z.ltb_ge _ _)) by lia. cbn [lift]. mnow. mnow.
  destruct (Open_ok N q (MkQueue (q_dir q) ∅ None None [] (q_maxSegmentSize q) (q_maxSize q) 0 (q_depth q) 0) gs B eq_refl) as (q' & gs' & E & O & P & C); [unfold limit; cbn; lia|done|done|done|].
  exists q', gs'. split_and!; try done. rewrite C. unfold conf. cbn. by rewrite L3.
Qed.

Lemma exec_step N q gs o : ok vf N q gs -> limits_ok q -> op_ok o -> N + op_cost o <= bound ->
  exists q' gs' b, exec o q = (b, q') /\ ok vf (N + op_cost o) q' gs' /\ limits_ok q' /\ astep (pending gs) o b (pending gs').
Proof.
  intros H HL Ho HN. destruct o as [b| |n| |l|clean]; cbn [exec op_cost op_ok] in *.
  - destruct (Append_ok vf N q gs b H Ho ltac:(lia)) as (q' & gs' & E & O & C & X). rewrite E. exists q', gs'. eexists. split; [reflexivity|].
    split; [by replace (N + (len b + 16)) with (N + len b + 16) by lia|]. split; [by eapply limits_conf|]. destruct (_ <? _); [subst; apply a_full|]. rewrite (ext_pending _ _ _ X). apply a_append.
  - destruct (Current_ok vf N q gs H) as (q' & E & O & C). rewrite E. exists q', gs. eexists. split; [reflexivity|]. split; [eapply ok_mono; [exact O|lia|lia]|]. split; [by eapply limits_conf|].
    destruct (pending gs); [apply a_current_empty|apply a_current].
  - destruct (PeekN_ok vf N q gs n H) as (q' & g & gs' & -> & E & O & C). rewrite E. exists q', (g :: gs'). eexists. split; [reflexivity|]. split; [eapply ok_mono; [exact O|lia|lia]|].
    split; [by eapply limits_conf|]. destruct (pending_head _ _ (o_live _ _ _ _ H)) as [P1 P2]. destruct (gp g) as [|x p] eqn:Eg; [rewrite P1 by done; apply a_peek_empty|].
    rewrite (P2 x p) by done. replace (take (Z.to_nat n) (x :: p)) with (take (Z.to_nat n `min` length (x :: p)) (x :: p ++ pending gs')).
    + apply a_peek; [done|lia|cbn [length]; lia].
    + change (x :: p ++ pending gs') with ((x :: p) ++ pending gs'). rewrite take_app_le by lia. by rewrite <- take_take, (take_ge (x :: p) (length _)).
  - unfold pop. destruct (Current_ok vf N q gs H) as (q1 & E1 & O1 & C1). destruct (pending gs) as [|b p] eqn:Ep.
    + erewrite bind_fail by exact E1. exists q1, gs. eexists. split; [reflexivity|]. split; [eapply ok_mono; [exact O1|lia|lia]|]. split; [by eapply limits_conf|]. rewrite Ep. apply a_pop_empty.
    + erewrite bind_ret by exact E1. destruct (Advance_ok vf N q1 gs b p O1 Ep ltac:(lia)) as (q2 & gs2 & E2 & O2 & P2 & C2). erewrite bind_ret by exact E2.
      exists q2, gs2. eexists. split; [reflexivity|]. split; [eapply ok_mono; [exact O2|lia|lia]|]. split; [eapply limits_conf; [by rewrite C2|done]|]. rewrite P2. apply a_pop.
  - pose proof (cost_pos l). destruct (scan_ok vf N q gs l H Ho ltac:(lia)) as (q' & gs' & O & C & X). destruct (pending gs) as [|b p] eqn:Ep.
    + rewrite bool_decide_eq_true_2 in X by done. destruct X as [E P]. rewrite E. exists q', gs'. eexists. split; [reflexivity|]. split; [eapply ok_mono; [exact O|lia|lia]|].
      split; [by eapply limits_conf|]. rewrite P. apply a_scan_empty.
    + rewrite bool_decide_eq_false_2 in X by done. destruct X as (k & rest & added & E & P1 & P2 & P3 & P4). rewrite E. exists q', gs'. eexists. split; [reflexivity|].
      split; [eapply ok_mono; [exact O|lia|lia]|]. split; [by eapply limits_conf|]. rewrite P2. by apply a_scan.
  - destruct (restart_ok N q gs clean H HL HN) as (q' & gs' & E & O & P & C). rewrite E. exists q', gs'. eexists. split; [reflexivity|]. split; [done|]. split; [by eapply limits_conf|]. rewrite P. apply a_restart.
Qed.

Lemma op_cost_pos o : 0 <= op_cost o.
Proof. destruct o; cbn; try lia. pose proof (cost_pos l). lia. Qed.
Lemma ops_cost_pos os : 0 <= ops_cost os.
Proof. induction os as [|o os IH]; [done|]. cbn [ops_cost foldr]. fold (ops_cost os). pose proof (op_cost_pos o). lia. Qed.

Lemma qexecs_ok os : forall N q gs, ok vf N q gs -> limits_ok q -> Forall op_ok os -> N + ops_cost os <= bound ->
  exists t q' gs', execs os q = (t, q') /\ t.*1 = os /\ ok vf (N + ops_cost os) q' gs' /\ arun (pending gs) t (pending gs').
Proof.
  induction os as [|o os IH]; intros N q gs H HL Hos HN.
  { exists [], q, gs. cbn [execs ops_cost foldr]. rewrite Z.add_0_r. split_and!; try done. apply arun_nil. }
  apply Forall_cons_1 in Hos as [Ho Hos]. cbn [ops_cost foldr execs] in *. fold (ops_cost os) in *. pose proof (ops_cost_pos os).
  destruct (exec_step N q gs o H HL Ho ltac:(lia)) as (q1 & gs1 & b & E1 & O1 & L1 & S1). rewrite E1.
  destruct (IH _ _ _ O1 L1 Hos ltac:(lia)) as (t & q2 & gs2 & E2 & T2 & O2 & R2). rewrite E2. exists ((o, b) :: t), q2, gs2. split_and!; try done.
  - cbn. by rewrite T2.
  - by rewrite Z.add_assoc.
  - by eapply arun_cons.
Qed.
End Verify.

(** C3. The queue refines a list of blocks: on a new directory, any sequence of
    appends, reads, removals, scans with appends in between, and restarts
    (clean, or after the process died between two calls) behaves as that
    sequence on a list, with the same results; what was accepted is what was
    delivered followed by what is still there; and [TotalBytes] is its size.
    Blocks must pass [verifyBlockFn], segments have room for their footer, and
    less than [bound] bytes are written. *)
Theorem queue_refines_fifo vf maxSize maxSegmentSize depth os :
  8 <= maxSegmentSize < limit -> 2 * maxSegmentSize <= maxSize -> (0 < depth)%nat -> Forall (op_ok vf) os -> ops_cost os + 16 <= bound ->
  exists q0 q1 t q2 p, NewQueue ∅ maxSize maxSegmentSize 0 depth = Ret q0 /\ Open vf q0 = (Ret tt, q1) /\ execs vf os q1 = (t, q2) /\
    t.*1 = os /\ arun [] t p /\ TotalBytes q2 = len (enc p) /\
    filter nonempty (concat (accepted <$> t)) = filter nonempty (concat (delivered <$> t) ++ p).
Proof.
  intros Hm Hs Hd Hos Hc. set (q0 := MkQueue ∅ ∅ None None [] maxSegmentSize maxSize 0 depth 0). pose proof (ops_cost_pos os).
  assert (B0 : base vf 0 q0 []) by (split; try done; [constructor|by intros n id [? ?]|cbn; lia]).
  destruct (Open_ok vf 0 q0 q0 [] B0 eq_refl) as (q1 & gs & E1 & O1 & P1 & C1); [cbn; lia|done|done|unfold bound in *; lia|].
  destruct (qexecs_ok vf os _ _ _ O1) as (t & q2 & gs2 & E2 & T2 & O2 & R2); [by eapply limits_conf|done|lia|]. rewrite P1 in R2.
  exists q0, q1, t, q2, (pending gs2). split_and!; try done.
  - unfold NewQueue. unfold limit in *. rewrite i64_id by (unint; lia). by rewrite (proj2 (Z.ltb_ge _ _)) by lia.
  - eapply TotalBytes_ok, O2.
  - apply (arun_conserves _ _ _ R2).
Qed.

Definition vok (b : list Z) : option string := None.
Definition sample_qops : list qop :=
  [OAppend [1; 2; 3]; OAppend (replicate 40 7); OAppend [9]; OPop; ORestart false; OCurrent; OPeek 5; OScan [None; Some [4]; None]; OAppend []; OScan [None; None; None]; ORestart true; OCurrent].
Lemma queue_refines_fifo_witness :
  exists q0 q1 t q2 p, NewQueue ∅ 400 40 0 1 = Ret q0 /\ Open vok q0 = (Ret tt, q1) /\ execs vok sample_qops q1 = (t, q2) /\
    t.*1 = sample_qops /\ arun [] t p /\ TotalBytes q2 = len (enc p) /\
    filter nonempty (concat (accepted <$> t)) = filter nonempty (concat (delivered <$> t) ++ p).
Proof.
  apply (queue_refines_fifo vok 400 40 1 sample_qops).
  - split; [lia|vm_compute; reflexivity].
  - lia.
  - lia.
  - repeat constructor; intros b; done.
  - vm_compute. congruence.
Defined.

(** The state behind a sequence of calls. *)
Definition after (os : list qop) (q : Queue) : Queue := (execs vok os (Open vok q).2).2.
Definition small : Queue := MkQueue ∅ ∅ None None [] 40 400 0 4 0.

(** An append is refused as full only when the block does not fit the
    maximal size next to the files on disk: what the counter misses never
    makes the queue refuse a block that fits. *)
Theorem Append_room vf N q gs b : ok vf N q gs -> vf b = None -> N + len b + 16 <= bound -> DiskUsage q + len b <= q_maxSize q ->
  exists q' gs', Append vf b q = (Ret tt, q') /\ ok vf (N + len b + 16) q' gs' /\ pending gs' = pending gs ++ [b].
Proof.
  intros H Hv HN Hd. destruct (Append_ok vf N q gs b H Hv HN) as (q' & gs' & E & O & _ & X). rewrite (DiskUsage_ok vf N q gs (o_base _ _ _ _ H)) in Hd.
  destruct (o_counted _ _ _ _ H) as (k & Hk & Hq). rewrite (proj2 (Z.ltb_ge _ _)) in E, X by lia. exists q', gs'. split; [done|]. split; [done|]. by apply ext_pending.
Qed.
Lemma Append_room_witness : exists N q gs q' gs', ok vok N q gs /\ DiskUsage q + len [1; 2; 3] <= q_maxSize q /\
  Append vok [1; 2; 3] q = (Ret tt, q') /\ ok vok (N + len [1; 2; 3] + 16) q' gs' /\ pending gs' = pending gs ++ [[1; 2; 3]].
Proof.
  assert (B0 : base vok 0 small []) by (split; try done; [constructor|by intros n id [? ?]]).
  destruct (Open_ok vok 0 small small [] B0 eq_refl) as (q & gs & E & O & P & C); [vm_compute; split; congruence|reflexivity|vm_compute; lia|vm_compute; congruence|].
  assert (Eq : q = (Open vok small).2) by (by rewrite E).
  assert (Hd : DiskUsage q + len [1; 2; 3] <= q_maxSize q) by (rewrite Eq; vm_compute; congruence).
  destruct (Append_room vok (0 + 16) q gs [1; 2; 3] O eq_refl) as (q' & gs' & H); [vm_compute; congruence|exact Hd|].
  exists (0 + 16), q, gs, q', gs'. exact (conj O (conj Hd H)).
Defined.

Definition run {A} (m : M Queue A) (q : Queue) : outcome A := (m q).1.

(** The footers of added segments are not counted, but those of removed ones
    are: the counter falls below the size on disk. *)
Example counter_below_disk_usage :
  let q := after [OAppend (replicate 40 7); OAppend (replicate 40 7); OAppend [1]; OPop; OPop] small in (q_total q, DiskUsage q) = (-7, 17).
Proof. vm_compute. reflexivity. Qed.

(** [Advance] on an empty queue moves the head past the end, and the next block
    appended is not found. *)
Example advance_on_empty_loses_next : run (Open vok;; Advance vok;; Append vok [1; 2; 3];; Current) small = Fail ErrRange.
Proof. vm_compute. reflexivity. Qed.

(** A second [Advance] of a scanner at the end of a removed segment removes the
    segment after it, with the blocks in it. *)
Definition two_segments : M Queue unit := Open vok;; Append vok (replicate 40 7);; Append vok [1];; Append vok [2].
Example second_advance_drops_blocks :
  run (two_segments;; c ← NewScanner; r ← Next c; _ ← Scanner_Advance vok r.1; b ← Current; r' ← attempt (Scanner_Advance vok r.1); b' ← attempt Current; mret (b, (r', b'))) small
    = Ret ([1], (Fail "dropped bad disk queue segment", Fail EOF)).
Proof. vm_compute. reflexivity. Qed.

(** With a smaller segment size, a block of the head segment is refused as too
    large for as long as the queue is open. *)
Example smaller_segments_stick :
  run (Open vok;; Append vok (replicate 30 7);; SetMaxSegmentSize vok 20;; r ← attempt Current; s ← attempt (c ← NewScanner; Next c); mret (r, match s with Ret (c, ok) => (c_err c, ok) | _ => (None, true) end)) small
    = Ret (Fail ErrRange, (Some ErrRange, false)).
Proof. vm_compute. reflexivity. Qed.
End DQueueOpen.
