(* ===== verification/Replication.v ===== *)
(** * replications: sending queued writes to a remote server

    Models [replications/remotewrite/writer.go] (the answer to each response),
    [replications/internal/queue_management.go] (the loop that sends the
    blocks of a queue, and the manager of the queues), and the batching and
    writing of points of [replications/service.go].  The HTTP client, the
    configuration store, the local writer and the serializer are parameters:
    their answers are arguments.  Metrics and logging are left out; what the
    sender logs as an error is part of its result. *)
From S2P Require Import Prelude DQueue DQueueSegs DQueueSpec DQueueOpen.
From stdpp Require Import gmap sorting.
Import DQueue.
#[global] Open Scope Z_scope.

Module Replication.

(** ** The remote writer *)

Definition second : Z := 10 ^ 9.
Definition maximumBackoffTime : Z := 15 * 60 * second.
Definition maximumAttempts : Z := 10.

(** [0.5 * 2^(n-1)] seconds; the product is exact for the attempts made. *)
Definition backoff (numAttempts : Z) : Z :=
  if maximumAttempts <? numAttempts then maximumBackoffTime
  else if 0 <=? numAttempts then (second * 2 ^ numAttempts) / 4 else second / (4 * 2 ^ (- numAttempts)).

(** The response as the writer looks at it; [rs_retryAfter] is the header. *)
Record response := MkResponse { rs_StatusCode : Z; rs_retryAfter : list Z }.
Definition StatusBadRequest : Z := 400.
Definition StatusTooManyRequests : Z := 429.

(** [strconv.Atoi] on a sign and digits. *)
Definition Atoi (s : list Z) : option Z :=
  let digits ds := match ds with [] => None | _ => WalLog.WalLog.parse_digits 0 ds end in
  r ← match s with 45 :: ds => Z.opp <$> digits ds | 43 :: ds => digits ds | ds => digits ds end;
  if (- 2 ^ 63 <=? r) && (r <? 2 ^ 63) then Some r else None.

Definition waitTimeFromHeader (r : response) : Z :=
  match rs_retryAfter r with
  | [] => 0
  | [48] => backoff 1
  | str => match Atoi str with None => 0 | Some rtr => i64 (rtr * second) end
  end.

(** [normalizeResponse]: no response is an empty one when the error says that
    the request timed out. *)
Definition normalizeResponse (r : option response) (timeout : bool) : response * bool :=
  match r with None => (MkResponse 0 [], timeout) | Some r => (r, true) end.

(** What the services answer during one [Write]: the configuration's
    [DropNonRetryableData], the response with its error and whether that is a
    timeout, and the error of storing the response info. *)
Record answers := MkAnswers { an_conf : outcome bool; an_post : option response; an_err : option string; an_timeout : bool; an_update : option string }.

Definition Writer_Write (a : answers) (attempts : Z) : Z * option string :=
  match an_conf a with
  | Fail e => (backoff attempts, Some e)
  | Panic => (backoff attempts, Some "panic")
  | Ret drop =>
    let '(res, ok) := normalizeResponse (an_post a) (an_timeout a) in
    match an_update a with
    | Some e => (backoff attempts, Some e)
    | None =>
      if negb ok then (backoff attempts, an_err a)
      else
        match an_err a with
        | None => (0, None)
        | Some e =>
          if (rs_StatusCode res =? StatusBadRequest) && drop then (0, None)
          else
            let headerTime := if rs_StatusCode res =? StatusTooManyRequests then waitTimeFromHeader res else 0 in
            (if headerTime =? 0 then backoff attempts else headerTime, Some e)
        end
    end
  end.

(** ** Sending *)

Definition verify_any (b : list Z) : option string := None.

(** One round of the loop: the blocks others append before it, the answer of
    the remote writer, and whether the ticker has fired. *)
Record round := MkRound { rd_appends : list (list Z); rd_write : Z -> Z * option string; rd_tick : bool }.

Fixpoint append_all (bs : list (list Z)) : M Queue unit :=
  match bs with [] => mret tt | b :: bs => _ ← attempt (Append verify_any b); append_all bs end.

(** The wait and whether to retry; the blocks the remote took; the number of
    failed writes; the error of [advanceScanner], if it was reported. *)
Record sent := MkSent { st_wait : Z; st_retry : bool; st_sent : list (list Z); st_failed : Z; st_logged : option string }.

Definition advanceScanner (c : segmentScanner) : M Queue (option string) :=
  r ← attempt (Scanner_Advance verify_any c);
  match r with Ret _ => mret None | Fail e => mret (Some e) | Panic => panic end.

(** [None]: the loop is still running when the rounds end. *)
Fixpoint send_loop (rs : list round) (c : segmentScanner) (acc : list (list Z)) (failed : Z) : M Queue (option sent) :=
  match rs with
  | [] => mret None
  | rd :: rs =>
    append_all (rd_appends rd);; r ← Next c;
    let c := r.1 in
    if r.2 : bool then
      match rd_write rd failed with
      | (wait, Some _) => mret (Some (MkSent wait true acc (failed + 1) None))
      | (_, None) =>
        let acc := acc ++ [c_buf c] in
        if rd_tick rd then
          e ← advanceScanner c;
          match e with Some e => mret (Some (MkSent 0 false acc 0 (Some e))) | None => send_loop rs c acc 0 end
        else send_loop rs c acc 0
      end
    else
      e ← advanceScanner c;
      match e with Some e => mret (Some (MkSent 0 false acc failed (Some e))) | None => mret (Some (MkSent 0 true acc failed None)) end
  end.
Definition SendWrite (rs : list round) (failed : Z) : M Queue (option sent) :=
  r ← attempt NewScanner;
  match r with
  | Fail e => mret (Some (MkSent 0 false [] failed (if String.eqb e EOF then None else Some e)))
  | Panic => panic
  | Ret c => send_loop rs c [] failed
  end.

Definition MaxInt64 : Z := 2 ^ 63 - 1.

(** The closure [sendWrite] of [run]: calls until one does not ask for a retry
    or asks to wait.  Each call has its own rounds. *)
Fixpoint sendWrite (calls : list (list round)) (acc : list (list Z)) (failed : Z) : M Queue (option (Z * list (list Z) * Z)) :=
  match calls with
  | [] => mret None
  | rs :: calls =>
    o ← SendWrite rs failed;
    match o with
    | None => mret None
    | Some s =>
      let acc := acc ++ st_sent s in
      if negb (st_retry s) then mret (Some (MaxInt64, acc, st_failed s))
      else if st_wait s =? 0 then sendWrite calls acc (st_failed s)
      else mret (Some (st_wait s, acc, st_failed s))
    end
  end.

(** ** The manager of the queues *)

Definition defaultMaxAge : Z := 7 * 24 * 3600 * second.
(** [r_closed]: the channels of the queue are closed. *)
Record replicationQueue := MkRQ { r_orgID : Z; r_localBucketID : Z; r_queue : Queue; r_maxAge : Z; r_receive : nat; r_closed : bool }.
(** The queues by identifier, and the directories below [queuePath]; the
    directory of an open queue is the one it holds. *)
Record manager := MkManager { m_queues : gmap Z replicationQueue; m_disk : gmap Z (gmap name (list Z)) }.
Abbreviation MM := (M manager).

Definition set_queues (qs : gmap Z replicationQueue) (m : manager) : manager := MkManager qs (m_disk m).
Definition set_disk (d : gmap Z (gmap name (list Z))) (m : manager) : manager := MkManager (m_queues m) d.

Definition newReplicationQueue (orgID localBucketID : Z) (q : Queue) (maxAgeSeconds : Z) : replicationQueue :=
  MkRQ orgID localBucketID q (if maxAgeSeconds <? 0 then defaultMaxAge else i64 (maxAgeSeconds * second)) 0 false.

Definition not_found {A} : MM A := fail "durable queue not found for replication ID".

(** A new queue over the directory of a replication, opened. *)
Definition open_queue (d : gmap name (list Z)) (maxSize : Z) : outcome Queue :=
  let! q := NewQueue d maxSize DefaultSegmentSize 0 MaxWritesPending in
  match Open verify_any q with (Ret _, q) => Ret q | (Fail e, _) => Fail e | (Panic, _) => Panic end.

Definition InitializeQueue (id maxQueueSizeBytes orgID localBucketID maxAgeSeconds : Z) : MM unit :=
  m ← get;
  match m_queues m !! id with
  | Some _ => fail "durable queue already exists for replication ID"
  | None =>
    let d := default ∅ (m_disk m !! id) in
    modify (set_disk (<[id := d]> (m_disk m)));;
    q ← lift (open_queue d maxQueueSizeBytes);
    modify (set_queues (<[id := newReplicationQueue orgID localBucketID q maxAgeSeconds]> (m_queues m)))
  end.

(** [close] of a closed channel panics. *)
Definition rq_Close (rq : replicationQueue) : outcome unit * replicationQueue :=
  if r_closed rq then (Panic, rq)
  else let '(r, q) := Close (r_queue rq) in (r, MkRQ (r_orgID rq) (r_localBucketID rq) q (r_maxAge rq) (r_receive rq) true).

Definition put_rq (id : Z) (rq : replicationQueue) : MM unit := m ← get; modify (set_queues (<[id := rq]> (m_queues m))).

Definition DeleteQueue (id : Z) : MM unit :=
  m ← get;
  match m_queues m !! id with
  | None => not_found
  | Some rq =>
    let '(r, rq) := rq_Close rq in
    put_rq id rq;; lift r;;
    let '(r, q) := Remove (r_queue rq) in
    lift r;;
    m ← get; modify (set_disk (delete id (m_disk m)));; modify (set_queues (delete id (m_queues m)))
  end.

Definition set_q (rq : replicationQueue) (q : Queue) : replicationQueue :=
  MkRQ (r_orgID rq) (r_localBucketID rq) q (r_maxAge rq) (r_receive rq) (r_closed rq).
Definition UpdateMaxQueueSize (id maxQueueSizeBytes : Z) : MM unit :=
  m ← get;
  match m_queues m !! id with
  | None => not_found
  | Some rq => let '(r, q) := SetMaxSize maxQueueSizeBytes (r_queue rq) in put_rq id (set_q rq q);; lift r
  end.

Fixpoint queue_sizes (f : Queue -> Z) (ids : list Z) (sizes : gmap Z Z) : MM (gmap Z Z) :=
  match ids with
  | [] => mret sizes
  | id :: ids => m ← get; match m_queues m !! id with None => not_found | Some rq => queue_sizes f ids (<[id := f (r_queue rq)]> sizes) end
  end.
Definition CurrentQueueSizes (ids : list Z) : MM (gmap Z Z) := queue_sizes DiskUsage ids ∅.
Definition RemainingQueueSizes (ids : list Z) : MM (gmap Z Z) := queue_sizes TotalBytes ids ∅.

(** The receive channel holds one token. *)
Definition EnqueueData (id : Z) (data : list Z) : MM unit :=
  m ← get;
  match m_queues m !! id with
  | None => not_found
  | Some rq =>
    let '(r, q) := Append verify_any data (r_queue rq) in
    put_rq id (set_q rq q);; lift r;;
    (if r_closed rq then panic else mret tt);;
    put_rq id (MkRQ (r_orgID rq) (r_localBucketID rq) q (r_maxAge rq) 1 (r_closed rq))
  end.

Definition GetReplications (orgID localBucketID : Z) (m : manager) : list Z :=
  (filter (fun kv => r_orgID kv.2 = orgID /\ r_localBucketID kv.2 = localBucketID) (map_to_list (m_queues m))).*1.

(** [range] visits the queues in some order; a failing close is logged. *)
Fixpoint close_queues (ids : list Z) (err : bool) : MM bool :=
  match ids with
  | [] => mret err
  | id :: ids =>
    m ← get;
    match m_queues m !! id with
    | None => close_queues ids err
    | Some rq =>
      let '(r, rq) := rq_Close rq in
      put_rq id rq;; m ← get; modify (set_disk (<[id := q_dir (r_queue rq)]> (m_disk m)));;
      match r with Ret _ => close_queues ids err | Fail _ => close_queues ids true | Panic => panic end
    end
  end.
Definition errShutdown : string := "shutdown tasks for replications durable queues failed".
Definition CloseAll : MM unit :=
  m ← get; err ← close_queues (map_to_list (m_queues m)).*1 false; if err : bool then fail errShutdown else mret tt.

(** Why opening a queue failed: a path error, on a path that is missing or is
    there, or another error. *)
Inductive open_error := PathMissing | PathPresent | OtherError.
Record tracked := MkTracked { tr_MaxQueueSizeBytes : Z; tr_MaxAgeSeconds : Z; tr_OrgID : Z; tr_LocalBucketID : Z }.
Definition errStartup : string := "startup tasks for replications durable queue management failed".

(** [broken] gives the queues that cannot be opened for a reason outside the
    model, such as a file that may not be read. *)
Definition start_one (broken : Z -> option open_error) (id : Z) (t : tracked) : MM bool :=
  m ← get;
  let register q := put_rq id (newReplicationQueue (tr_OrgID t) (tr_LocalBucketID t) q (tr_MaxAgeSeconds t)) in
  if tr_MaxQueueSizeBytes t <? i64 (2 * DefaultSegmentSize) then mret true
  else
    match broken id, m_disk m !! id with
    | Some PathPresent, _ => mret false
    | Some OtherError, _ => mret true
    | Some PathMissing, _ | None, None =>
      modify (set_disk (<[id := ∅]> (m_disk m)));;
      match open_queue ∅ (tr_MaxQueueSizeBytes t) with Ret q => register q;; mret false | _ => mret true end
    | None, Some d => match open_queue d (tr_MaxQueueSizeBytes t) with Ret q => register q;; mret false | _ => mret true end
    end.
Fixpoint start_all (broken : Z -> option open_error) (ts : list (Z * tracked)) (err : bool) : MM bool :=
  match ts with [] => mret err | (id, t) :: ts => e ← start_one broken id t; start_all broken ts (err || e) end.
(** Directories of identifiers without a queue are removed. *)
Definition StartReplicationQueues (broken : Z -> option open_error) (ts : list (Z * tracked)) : MM unit :=
  err ← start_all broken ts false;
  if err : bool then fail errStartup
  else m ← get; modify (set_disk (filter (fun kv => is_Some (m_queues m !! kv.1)) (m_disk m))).

(** ** Writing points *)

Definition maxRemoteWritePointSize : Z := 5000.
Definition maxRemoteWriteBatchSize : Z := 2500000.

Definition startNewBatch (currentSize nextSize pointCount : Z) : bool :=
  (maxRemoteWriteBatchSize <? currentSize + nextSize) || ((0 <? pointCount) && (Z.rem pointCount maxRemoteWritePointSize =? 0)).

Section Batches.
Context {P : Type} (StringSize : P -> Z).
(** The points of each batch, the last one first; a batch is compressed when
    it is done. *)
Fixpoint batch_loop (points : list P) (count currentBatchSize : Z) (current : list P) (batches : list (list P)) : list (list P) :=
  match points with
  | [] => batches ++ [current]
  | p :: points =>
    let sz := StringSize p in
    if startNewBatch currentBatchSize sz count then batch_loop points (count + 1) sz [p] (batches ++ [current])
    else batch_loop points (count + 1) (currentBatchSize + sz) (current ++ [p]) batches
  end.
Definition batches (points : list P) : list (list P) := batch_loop points 0 0 [] [].

Fixpoint enqueue_batches (compress : list P -> list Z) (id : Z) (bs : list (list P)) : MM unit :=
  match bs with [] => mret tt | b :: bs => _ ← attempt (EnqueueData id (compress b)); enqueue_batches compress id bs end.
Fixpoint enqueue_all (compress : list P -> list Z) (ids : list Z) (bs : list (list P)) : MM unit :=
  match ids with [] => mret tt | id :: ids => enqueue_batches compress id bs;; enqueue_all compress ids bs end.
(** [localErr] is what the local write returns. *)
Definition WritePoints (compress : list P -> list Z) (localErr : option string) (orgID bucketID : Z) (points : list P) : MM unit :=
  m ← get;
  let replications := GetReplications orgID bucketID m in
  match localErr with
  | Some e => fail e
  | None => match replications with [] => mret tt | _ => enqueue_all compress replications (batches points) end
  end.

(** ** Batches *)

Definition batch_size (b : list P) : Z := foldr (fun p n => StringSize p + n) 0 b.
Lemma batch_size_snoc b p : batch_size (b ++ [p]) = batch_size b + StringSize p.
Proof. induction b as [|x b IH]; cbn [app batch_size foldr]; [lia|]. fold (batch_size (b ++ [p])) (batch_size b). lia. Qed.

(** A batch is small, or a single point. *)
Definition fits (b : list P) : Prop := Z.of_nat (length b) <= maxRemoteWritePointSize /\ (batch_size b <= maxRemoteWriteBatchSize \/ exists p, b = [p]).

Lemma batch_loop_ok points : forall count current bs, 0 <= count -> Z.of_nat (length current) <= count ->
  (0 < count -> Z.of_nat (length current) <= (count - 1) mod maxRemoteWritePointSize + 1) -> fits current -> Forall fits bs ->
  Forall fits (batch_loop points count (batch_size current) current bs) /\ concat (batch_loop points count (batch_size current) current bs) = concat bs ++ current ++ points.
Proof.
  unfold maxRemoteWritePointSize. induction points as [|p points IH]; intros count current bs Hc Hl Hm Hf Hb; cbn [batch_loop].
  { split; [apply Forall_app; split; [done|by constructor]|]. rewrite concat_app. cbn. by rewrite !app_nil_r. }
  unfold startNewBatch, maxRemoteWritePointSize. destruct (_ || _) eqn:E.
  - assert (Es : StringSize p = batch_size [p]) by (cbn; lia). rewrite Es. destruct (IH (count + 1) [p] (bs ++ [current])) as [I1 I2].
    + lia. + cbn; lia. + intros _. replace (count + 1 - 1) with count by lia. cbn [length]. pose proof (Z.mod_pos_bound count 5000). lia.
    + split; [cbn; unfold maxRemoteWritePointSize; lia|]. right. by exists p.
    + apply Forall_app. split; [done|]. by constructor.
    + split; [done|]. rewrite I2, concat_app. cbn. by rewrite app_nil_r, <- !app_assoc.
  - apply orb_false_iff in E as [E1 E2]. apply Z.ltb_ge in E1.
    assert (Hmod : 0 < count -> (count - 1) mod 5000 + 1 = count mod 5000).
    { intros Hp. apply andb_false_iff in E2 as [E2|E2]; [apply Z.ltb_ge in E2; lia|]. apply Z.eqb_neq in E2. rewrite Z.rem_mod_nonneg in E2 by lia.
      pose proof (Z.div_mod count 5000). pose proof (Z.mod_pos_bound count 5000). rewrite <- (Z.mod_unique_pos (count - 1) 5000 (count / 5000) (count mod 5000 - 1)); lia. }
    rewrite <- batch_size_snoc in *. destruct (IH (count + 1) (current ++ [p]) bs) as [I1 I2].
    + lia. + rewrite length_app. cbn. lia.
    + intros _. replace (count + 1 - 1) with count by lia. rewrite length_app. cbn [length]. destruct (decide (0 < count)); [specialize (Hmod ltac:(done)); specialize (Hm ltac:(done)); lia|].
      pose proof (Z.mod_pos_bound count 5000). lia.
    + split; [|by left]. unfold maxRemoteWritePointSize. rewrite length_app. cbn [length]. pose proof (Z.mod_pos_bound count 5000).
      destruct (decide (0 < count)); [specialize (Hmod ltac:(done)); specialize (Hm ltac:(done)); lia|lia].
    + done.
    + split; [done|]. rewrite I2. by rewrite <- !app_assoc.
Qed.
End Batches.

(** The batches made for replication hold all points in their order, and
    none has more than [maxRemoteWritePointSize] points or, unless it is a
    single point, more than [maxRemoteWriteBatchSize] bytes. *)
Theorem batches_partition {P} (StringSize : P -> Z) points :
  concat (batches StringSize points) = points /\ Forall (fits StringSize) (batches StringSize points).
Proof.
  unfold batches. destruct (batch_loop_ok StringSize points 0 [] []) as [H1 H2]; [done|done|lia| |apply Forall_nil_2|].
  - split; [done|]. left. done.
  - change (batch_size StringSize []) with 0 in *. split; [exact H2|done].
Qed.

(** The remote writer gives a block up exactly when the server took it, or
    rejected it as malformed and the replication is configured to drop such
    data; in both cases the response was stored.  Otherwise the block is
    tried again. *)
Theorem Write_gives_up_exactly a attempts :
  (exists w, Writer_Write a attempts = (w, None)) <->
  exists drop, an_conf a = Ret drop /\ an_update a = None /\
    (an_err a = None \/ drop = true /\ exists r, an_post a = Some r /\ rs_StatusCode r = StatusBadRequest).
Proof.
  unfold Writer_Write, normalizeResponse. split.
  - intros [w H]. destruct (an_conf a) as [drop|e|]; [|done|done]. exists drop. destruct (an_update a) as [e|]; [by destruct (an_post a)|].
    split; [done|]. split; [done|]. destruct (an_err a) as [e|]; [|by left]. right. destruct (an_post a) as [r|].
    + cbn [negb] in H. destruct (rs_StatusCode r =? StatusBadRequest) eqn:Es; cbn [andb] in H; [|by destruct drop].
      destruct drop; [|done]. split; [done|]. exists r. split; [done|]. by apply Z.eqb_eq.
    + destruct (an_timeout a); cbn [negb] in H; [|done]. by destruct drop.
  - intros (drop & -> & -> & H). destruct H as [->|(-> & r & -> & Hr)].
    + destruct (an_post a) as [r|]; cbn [negb]; [by eexists|]. destruct (an_timeout a); by eexists.
    + cbn [negb]. rewrite (proj2 (Z.eqb_eq _ _) Hr). cbn [andb]. destruct (an_err a); by eexists.
Qed.

Import DQueueSegs.
Import DQueueSpec.
Import DQueueOpen.

(** ** Sending a queue *)

Definition appends_cost (bs : list block) : Z := foldr (fun b n => len b + 16 + n) 0 bs.
Definition rounds_cost (rs : list round) : Z := foldr (fun r n => appends_cost (rd_appends r) + n) 0 rs.
Lemma appends_cost_pos bs : 0 <= appends_cost bs.
Proof. induction bs as [|b bs IH]; [done|]. cbn [appends_cost foldr]. fold (appends_cost bs). lia. Qed.
Lemma rounds_cost_pos rs : 0 <= rounds_cost rs.
Proof. induction rs as [|r rs IH]; [done|]. cbn [rounds_cost foldr]. fold (rounds_cost rs). pose proof (appends_cost_pos (rd_appends r)). lia. Qed.

Lemma append_all_ok bs : forall N q g gs, ok verify_any N q (g :: gs) -> N + appends_cost bs <= bound ->
  exists q' m t gs' added, append_all bs q = (Ret tt, q') /\ ok verify_any (N + appends_cost bs) q' (G (gi g) m (gb g) (gp g ++ t) :: gs') /\ conf q' = conf q /\
    pending (G (gi g) m (gb g) (gp g ++ t) :: gs') = pending (g :: gs) ++ added /\ sublist added bs.
Proof.
  induction bs as [|b bs IH]; intros N q g gs H HN.
  { exists q, (gm g), [], gs, []. cbn [appends_cost foldr]. rewrite Z.add_0_r, !app_nil_r, G_eta. split_and!; try done. }
  cbn [append_all appends_cost foldr] in *. fold (appends_cost bs) in *. pose proof (appends_cost_pos bs).
  destruct (Append_ok verify_any N q (g :: gs) b H eq_refl ltac:(lia)) as (q1 & gs1 & E1 & O1 & C1 & X1). erewrite bind_ret; [|apply attempt_eq; exact E1].
  assert (exists m t gs2 a, gs1 = G (gi g) m (gb g) (gp g ++ t) :: gs2 /\ pending gs1 = pending (g :: gs) ++ a /\ sublist a [b]) as (m & t & gs2 & a & -> & Hp & Ha).
  { destruct (q_maxSize q <? q_total q + len b).
    - subst gs1. exists (gm g), [], gs, []. rewrite !app_nil_r, G_eta. split_and!; try done. apply sublist_nil_l.
    - destruct (ext_head _ _ _ _ X1) as (m & t & gs2 & E). exists m, t, gs2, [b]. split_and!; try done. by apply ext_pending. }
  destruct (IH _ _ _ _ O1 ltac:(lia)) as (q' & m' & t' & gs' & added & E & O & C & P & L). cbn [gi gb gp] in *.
  exists q', m', (t ++ t'), gs', (a ++ added). rewrite app_assoc. split_and!; try done.
  - replace (N + (len b + 16 + appends_cost bs)) with (N + len b + 16 + appends_cost bs) by lia. done.
  - by rewrite C.
  - by rewrite P, Hp, app_assoc.
  - change (b :: bs) with ([b] ++ bs). by apply sublist_app.
Qed.

(** The outcome of a call without the ticker: nothing to send, a write that
    failed and left everything queued, or a segment sent and taken out. *)
Inductive send_result (p : list block) : sent -> list block -> list block -> Prop :=
| send_failed failed wait added k rest : p ++ added = k ++ rest ->
    send_result p (MkSent wait true (filter nonempty k) (failed + 1) None) added (p ++ added)
| send_done failed added k rest : p ++ added = k ++ rest -> k <> [] ->
    send_result p (MkSent 0 true (filter nonempty k) failed None) added rest.

Lemma send_loop_ok rs : forall N q g gs k rest n buf failed p0 added0, ok verify_any N q (g :: gs) -> gp g = k ++ rest -> Forall (fun r => rd_tick r = false) rs -> N + rounds_cost rs + 8 <= bound ->
  p0 ++ added0 = pending (g :: gs) -> (k <> [] \/ rest <> []) ->
  exists q', (send_loop rs (scanner (gname g) (len (enc (gb g ++ k))) n buf false) (filter nonempty k) failed q).2 = q' /\
    ((send_loop rs (scanner (gname g) (len (enc (gb g ++ k))) n buf false) (filter nonempty k) failed q).1 = Ret None \/
     exists s gs' added, (send_loop rs (scanner (gname g) (len (enc (gb g ++ k))) n buf false) (filter nonempty k) failed q).1 = Ret (Some s) /\
       ok verify_any (N + rounds_cost rs + 8) q' gs' /\ conf q' = conf q /\ send_result p0 s (added0 ++ added) (pending gs')).
Proof.
  induction rs as [|rd rs IH]; intros N q g gs k rest n buf failed p0 added0 H Eg Ht HN Hp Hk; [by eexists; split; [reflexivity|left]|].
  apply Forall_cons_1 in Ht as [Htick Ht]. cbn [rounds_cost foldr send_loop] in *. fold (rounds_cost rs) in *. pose proof (rounds_cost_pos rs). pose proof (appends_cost_pos (rd_appends rd)).
  destruct (append_all_ok (rd_appends rd) N q g gs H ltac:(lia)) as (q1 & m & t & gs1 & added & E1 & O1 & C1 & P1 & L1). erewrite bind_ret by exact E1.
  set (g1 := G (gi g) m (gb g) (gp g ++ t)) in *. assert (Eg1 : gp g1 = k ++ (rest ++ t)) by (cbn; by rewrite Eg, app_assoc).
  destruct (Next_ok verify_any _ q1 g1 gs1 k (rest ++ t) n buf O1 Eg1) as (q2 & E2 & O2 & C2). change (gname g1) with (gname g) in E2. change (gb g1) with (gb g) in E2.
  erewrite bind_ret by exact E2. cbn [fst snd]. destruct (skip_found (rest ++ t)) as (K1 & K2 & K3). set (k2 := take (skip (rest ++ t)) (rest ++ t)) in *.
  assert (Hsplit : rest ++ t = k2 ++ drop (skip (rest ++ t)) (rest ++ t)) by (unfold k2; by rewrite take_drop).
  assert (Hpend : p0 ++ (added0 ++ added) = pending (g1 :: gs1)) by (by rewrite P1, <- Hp, <- app_assoc).
  destruct (found (rest ++ t)) as [b|] eqn:Ef.
  - rewrite bool_decide_eq_true_2 by done. cbn [default from_option]. change (c_buf (scanner (gname g) (len (enc (gb g ++ k ++ k2))) (n + Z.of_nat (skip (rest ++ t))) (id b) (bool_decide (Some b = None)))) with b.
    rewrite bool_decide_eq_false_2 by done. destruct (rd_write rd failed) as [wait [e|]].
    + exists q2. split; [reflexivity|]. right. eexists _, _, added. split; [reflexivity|]. split; [eapply ok_mono; [exact O2|lia|lia]|]. split; [by rewrite C2|].
      rewrite <- Hpend. eapply send_failed. rewrite Hpend, pending_cons, Eg1, <- app_assoc. reflexivity.
    + rewrite Htick. destruct (IH (N + appends_cost (rd_appends rd)) q2 g1 gs1 (k ++ k2) (drop (skip (rest ++ t)) (rest ++ t)) (n + Z.of_nat (skip (rest ++ t))) b 0 p0 (added0 ++ added)) as (q' & E3 & R3); [done|by rewrite <- app_assoc, <- Hsplit|done|lia|done| |].
      { left. intros [-> Hk2]%app_nil. by rewrite Hk2 in K1. }
      rewrite filter_app, K1 in E3, R3. cbn [option_list] in E3, R3. exists q'. split; [exact E3|]. destruct R3 as [R3|(s & gs' & added2 & R3 & R4 & R5 & R6)]; [by left|]. right.
      exists s, gs', (added ++ added2). split; [exact R3|]. split; [by replace (N + (appends_cost (rd_appends rd) + rounds_cost rs) + 8) with (N + appends_cost (rd_appends rd) + rounds_cost rs + 8) by lia|].
      split; [by rewrite R5, C2|]. by rewrite app_assoc.
  - rewrite bool_decide_eq_false_2 by (intros [? ?]; done). cbn [default from_option]. rewrite bool_decide_eq_true_2 by done. cbn [option_list] in K1. rewrite K2 in * by done.
    destruct (Scanner_Advance_ok verify_any _ q2 g1 gs1 (k ++ (rest ++ t)) [] (n + Z.of_nat (skip (rest ++ t))) buf true O2) as (q3 & gs3 & E3 & O3 & P3 & C3); [by rewrite app_nil_r|lia|].
    change (gname g1) with (gname g) in E3. change (gb g1) with (gb g) in E3. unfold advanceScanner.
    erewrite !bind_ret; [|erewrite bind_ret; [|apply attempt_eq; exact E3]; reflexivity]. exists q3. split; [reflexivity|]. right. eexists _, gs3, added. split; [reflexivity|].
    split; [eapply ok_mono; [exact O3|lia|lia]|]. split; [by rewrite C3, C2|].
    replace (filter nonempty k) with (filter nonempty (k ++ rest ++ t)) by (by rewrite filter_app, K1, app_nil_r). rewrite P3. eapply send_done.
    + rewrite Hpend, pending_cons, Eg1. done.
    + destruct Hk as [Hk|Hk]; [by destruct k|]. intros [_ [-> _]%app_nil]%app_nil. done.
Qed.

Lemma NewScanner_ok N q g gs : ok verify_any N q (g :: gs) ->
  exists q', NewScanner q = (match gp g with [] => Fail EOF | _ => Ret (scanner (gname g) (len (enc (gb g))) 0 [] false) end, q') /\ ok verify_any N q' (g :: gs) /\ conf q' = conf q.
Proof.
  intros H. unfold NewScanner. mnow. rewrite (linked_head _ _ _ (o_linked _ _ _ _ H)). eapply head_read; [exact H|].
  intros s f Hs Hp. destruct (newScanner_ok _ _ _ _ Hs) as (s' & E & Hr). rewrite Hp in E. by exists s'.
Qed.

(** C4. Sending never loses a block, as long as the ticker does not fire: with
    any answers of the server and any appends in between, a call either finds
    the queue empty, or stops at a failed write with every block still queued,
    or takes exactly blocks out that the server took, in order. *)
Theorem send_keeps_unsent N q gs rs failed : ok verify_any N q gs -> Forall (fun r => rd_tick r = false) rs -> N + rounds_cost rs + 8 <= bound ->
  exists r q', SendWrite rs failed q = (Ret r, q') /\
    match r with
    | None => True
    | Some s => exists gs' added, ok verify_any (N + rounds_cost rs + 8) q' gs' /\
        (pending gs = [] /\ pending gs' = [] /\ s = MkSent 0 false [] failed None \/ send_result (pending gs) s added (pending gs'))
    end.
Proof.
  intros H Ht HN. pose proof (rounds_cost_pos rs). destruct (live_cases _ (o_live _ _ _ _ H)) as (g & gs' & -> & _). destruct (NewScanner_ok _ _ _ _ H) as (q1 & E1 & O1 & C1).
  unfold SendWrite. erewrite bind_ret; [|apply attempt_eq; exact E1]. destruct (pending_head _ _ (o_live _ _ _ _ H)) as [P1 P2]. destruct (gp g) as [|b p] eqn:Eg.
  - eexists _, q1. split; [reflexivity|]. exists (g :: gs'), []. split; [eapply ok_mono; [exact O1|lia|lia]|]. left. by rewrite P1.
  - destruct (send_loop_ok rs N q1 g gs' [] (b :: p) 0 [] failed (pending (g :: gs')) [] O1 Eg Ht ltac:(lia)) as (q2 & E2 & R2); [by rewrite app_nil_r|by right|].
    rewrite (app_nil_r (gb g)) in E2, R2. change (filter nonempty []) with (@nil block) in E2, R2.
    destruct (send_loop rs _ [] failed q1) as [r q3]. cbn [fst snd] in *. subst q3. destruct R2 as [->|(s & gs2 & added & -> & O2 & C2 & R2)]; [by eexists _, q2|].
    eexists _, q2. split; [reflexivity|]. exists gs2, added. split; [done|]. by right.
Qed.

Definition good : round := MkRound [] (fun _ => (0, None)) false.

Lemma send_good m : forall N q g gs k rest n buf, ok verify_any N q (g :: gs) -> gp g = k ++ rest -> (length rest < m)%nat -> N + 8 <= bound ->
  exists q' gs', send_loop (replicate m good) (scanner (gname g) (len (enc (gb g ++ k))) n buf false) (filter nonempty k) 0 q = (Ret (Some (MkSent 0 true (filter nonempty (gp g)) 0 None)), q') /\
    ok verify_any (N + 8) q' gs' /\ pending gs' = pending gs /\ conf q' = conf q.
Proof.
  induction m as [|m IH]; intros N q g gs k rest n buf H Eg Hm HN; [lia|]. cbn [replicate send_loop good rd_appends append_all rd_write rd_tick]. mnow.
  destruct (Next_ok verify_any _ q g gs k rest n buf H Eg) as (q2 & E2 & O2 & C2). erewrite bind_ret by exact E2. cbn [fst snd]. destruct (skip_found rest) as (K1 & K2 & K3).
  set (k2 := take (skip rest) rest) in *. assert (Hsplit : rest = k2 ++ drop (skip rest) rest) by (unfold k2; by rewrite take_drop). destruct (found rest) as [b|] eqn:Ef.
  - rewrite bool_decide_eq_true_2 by done. cbn [default from_option]. change (c_buf (scanner (gname g) (len (enc (gb g ++ k ++ k2))) (n + Z.of_nat (skip rest)) (id b) (bool_decide (Some b = None)))) with b.
    rewrite bool_decide_eq_false_2 by done.
    destruct (IH N q2 g gs (k ++ k2) (drop (skip rest) rest) (n + Z.of_nat (skip rest)) b O2) as (q' & gs' & E3 & R3); [by rewrite <- app_assoc, <- Hsplit| |done|].
    { rewrite length_drop. assert (skip rest <> 0%nat) by (apply K3; by intros ->). destruct rest; [done|]. cbn [length] in *. lia. }
    rewrite filter_app, K1 in E3. cbn [option_list] in E3. exists q', gs'. split; [exact E3|]. by rewrite <- C2.
  - rewrite bool_decide_eq_false_2 by (intros [? ?]; done). cbn [default from_option]. rewrite bool_decide_eq_true_2 by done. cbn [option_list] in K1. rewrite K2 in * by done.
    destruct (Scanner_Advance_ok verify_any _ q2 g gs (k ++ rest) [] (n + Z.of_nat (skip rest)) buf true O2) as (q3 & gs3 & E3 & O3 & P3 & C3); [by rewrite app_nil_r|lia|].
    unfold advanceScanner. erewrite !bind_ret; [|erewrite bind_ret; [|apply attempt_eq; exact E3]; reflexivity]. exists q3, gs3. split.
    + rewrite Eg, filter_app, K1, app_nil_r. reflexivity.
    + split_and!; try done. by rewrite C3.
Qed.

Lemma drain n m : forall N q gs acc, ok verify_any N q gs -> (length (pending gs) < n)%nat -> (length (pending gs) < m)%nat -> N + 8 * Z.of_nat n <= bound ->
  exists q' gs' N', sendWrite (replicate n (replicate m good)) acc 0 q = (Ret (Some (MaxInt64, acc ++ filter nonempty (pending gs), 0)), q') /\ ok verify_any N' q' gs' /\ pending gs' = [].
Proof.
  induction n as [|n IH]; intros N q gs acc H Hn Hm HN; [lia|]. destruct (live_cases _ (o_live _ _ _ _ H)) as (g & gs1 & -> & _). destruct (NewScanner_ok _ _ _ _ H) as (q1 & E1 & O1 & C1).
  cbn [replicate sendWrite]. unfold SendWrite. destruct (pending_head _ _ (o_live _ _ _ _ H)) as [P1 P2]. destruct (gp g) as [|b p] eqn:Eg.
  - erewrite bind_ret; [|erewrite bind_ret; [|apply attempt_eq; exact E1]; reflexivity]. rewrite P1 by done. exists q1, (g :: gs1), N. split; [reflexivity|]. split; [done|]. by apply P1.
  - rewrite (P2 b p) in Hn, Hm by done. cbn [length] in Hn, Hm. rewrite length_app in Hn, Hm.
    destruct (send_good m N q1 g gs1 [] (b :: p) 0 [] O1 Eg ltac:(cbn [length]; lia) ltac:(lia)) as (q2 & gs2 & E2 & O2 & P3 & C2).
    rewrite (app_nil_r (gb g)) in E2. change (filter nonempty []) with (@nil block) in E2.
    erewrite bind_ret; [|erewrite bind_ret; [|apply attempt_eq; exact E1]; exact E2]. cbn [st_retry negb st_wait Z.eqb st_sent st_failed].
    destruct (IH (N + 8) q2 gs2 (acc ++ filter nonempty (gp g)) O2) as (q3 & gs3 & N3 & E3 & O3 & P4); [rewrite P3; lia|rewrite P3; lia|lia|].
    rewrite P3, <- app_assoc, <- filter_app in E3. rewrite <- pending_cons in E3. by exists q3, gs3, N3.
Qed.

(** C5. Replication catches up when it is left alone: while the server takes
    every block it is sent, nothing is appended and the ticker of the sender
    does not fire (the example [periodic_advance_drops_segment] shows what it
    can do), the sender delivers all queued blocks but the empty ones, which
    it passes over, in order; then it finds the queue empty and waits for new
    data.  It needs at most one call for each queued block and one more, and
    in each call one round for each block and one more; the sizes of the queue
    stay in range. *)
Theorem replication_drains N q gs n m : ok verify_any N q gs -> (length (pending gs) < n)%nat -> (length (pending gs) < m)%nat -> N + 8 * Z.of_nat n <= bound ->
  exists q', sendWrite (replicate n (replicate m good)) [] 0 q = (Ret (Some (MaxInt64, filter nonempty (pending gs), 0)), q') /\ TotalBytes q' = 0 /\ (Current q').1 = Fail EOF.
Proof.
  intros H Hn Hm HN. destruct (drain n m N q gs [] H Hn Hm HN) as (q' & gs' & N' & E & O & P). exists q'. split; [exact E|]. split.
  - rewrite (TotalBytes_ok verify_any N' q' gs' (o_base _ _ _ _ O)), P. done.
  - destruct (Current_ok verify_any _ _ _ O) as (q2 & E2 & _). by rewrite E2, P.
Qed.

Lemma backoff_range n : 0 <= n -> 0 < backoff n <= maximumBackoffTime.
Proof.
  intros H. unfold backoff, maximumAttempts. destruct (Z.ltb_spec 10 n); [done|]. rewrite (proj2 (Z.leb_le _ _)) by done.
  assert (Hp : 2 ^ 0 <= 2 ^ n <= 2 ^ 10) by (split; apply Z.pow_le_mono_r; lia). unfold second, maximumBackoffTime, second.
  split; [apply Z.div_str_pos|apply Z.div_le_upper_bound]; lia.
Qed.

(** A queue with a few blocks in two segments. *)
Definition filled : Queue := after [OAppend [1; 2; 3]; OAppend (replicate 40 7); OAppend [9]; OAppend []] small.
Lemma filled_ok : exists gs, ok verify_any 200 filled gs /\ (length (pending gs) < 100)%nat.
Proof.
  assert (B0 : base verify_any 0 small []) by (split; try done; [constructor|by intros n id [? ?]]).
  destruct (Open_ok verify_any 0 small small [] B0 eq_refl) as (q & gs & E & O & P & C); [vm_compute; split; congruence|reflexivity|vm_compute; lia|vm_compute; congruence|].
  destruct (qexecs_ok verify_any [OAppend [1; 2; 3]; OAppend (replicate 40 7); OAppend [9]; OAppend []] _ _ _ O) as (t & q' & gs' & E' & _ & O' & _).
  - eapply limits_conf; [exact C|]. vm_compute. split; [split; congruence|]. split; [congruence|]. split; [reflexivity|lia].
  - repeat constructor.
  - vm_compute. congruence.
  - assert (Eq : q' = filled). { unfold filled, after. change DQueueOpen.vok with verify_any. rewrite E. cbn [snd]. by rewrite E'. }
    subst q'. exists gs'. split; [eapply ok_mono; [exact O'|vm_compute; congruence|vm_compute; congruence]|].
    pose proof (TotalBytes_ok verify_any _ _ _ (o_base _ _ _ _ O')) as Ht. assert (Et : TotalBytes filled = 76) by (vm_compute; reflexivity). pose proof (enc_count (pending gs')). lia.
Qed.

Definition refusing : round := MkRound [[5]] (fun n => Writer_Write (MkAnswers (Ret false) (Some (MkResponse 500 [])) (Some "err") false None) n) false.
Lemma send_keeps_unsent_witness : exists N q gs r q', ok verify_any N q gs /\ SendWrite [good; refusing] 3 q = (Ret r, q') /\
    match r with
    | None => True
    | Some s => exists gs' added, ok verify_any (N + rounds_cost [good; refusing] + 8) q' gs' /\
        (pending gs = [] /\ pending gs' = [] /\ s = MkSent 0 false [] 3 None \/ send_result (pending gs) s added (pending gs'))
    end.
Proof.
  destruct filled_ok as (gs & O & _). destruct (send_keeps_unsent 200 filled gs [good; refusing] 3 O) as (r & q' & H); [repeat constructor|vm_compute; congruence|].
  exists 200, filled, gs, r, q'. exact (conj O H).
Defined.

Lemma replication_drains_witness : exists q', sendWrite (replicate 100 (replicate 100 good)) [] 0 filled = (Ret (Some (MaxInt64, [[1; 2; 3]; replicate 40 7; [9]], 0)), q') /\ TotalBytes q' = 0 /\ (Current q').1 = Fail EOF.
Proof.
  destruct filled_ok as (gs & O & Hl). destruct (replication_drains 200 filled gs 100 100 O Hl Hl) as (q' & E & H); [vm_compute; congruence|].
  exists q'. split; [|exact H]. rewrite E. assert (Ec : (sendWrite (replicate 100 (replicate 100 good)) [] 0 filled).1 = Ret (Some (MaxInt64, [[1; 2; 3]; replicate 40 7; [9]], 0))) by (vm_compute; reflexivity).
  rewrite E in Ec. cbn [fst] in Ec. by rewrite Ec.
Defined.

(** When the ticker fires as the last block of a segment was sent, the segment
    is removed; reading on fails, and the reaction to the failure removes the
    next segment, whose blocks were never sent. *)
Example periodic_advance_drops_segment :
  let q := (two_segments small).2 in
  let tick := MkRound [] (fun _ => (0, None)) true in
  let '(r, q') := SendWrite [tick; good; good] 0 q in
  (r, TotalBytes q, TotalBytes q') =
  (Ret (Some (MkSent 0 false [replicate 40 7] 0 (Some "dropped bad disk queue segment"))), 66, 0).
Proof. vm_compute. reflexivity. Qed.

(** A server that asks to wait for three hundred years is asked again at once. *)
Example retry_after_overflows : Writer_Write (MkAnswers (Ret false) (Some (MkResponse 429 [57;50;50;51;51;55;50;48;51;55])) (Some "err") false None) 1 = (-9223372036709551616, Some "err").
Proof. vm_compute. reflexivity. Qed.

(** ** Start-up *)

Lemma put_rq_queues id rq m : put_rq id rq m = (Ret tt, set_queues (<[id := rq]> (m_queues m)) m).
Proof. done. Qed.

Lemma start_one_queues broken id t m id' : broken id' = Some PathPresent -> m_queues m !! id' = None -> m_queues (start_one broken id t m).2 !! id' = None.
Proof.
  intros Hb Hn. unfold start_one. mnow. destruct (tr_MaxQueueSizeBytes t <? _); [done|]. destruct (decide (id = id')) as [->|Hne]; [by rewrite Hb|].
  destruct (broken id) as [[]|]; [| done|done|].
  - mnow. destruct (open_queue _ _); [|done|done]. cbv [mbind M_bind]. rewrite put_rq_queues. cbn. by rewrite lookup_insert_ne.
  - destruct (m_disk m !! id).
    + destruct (open_queue _ _); [|done|done]. cbv [mbind M_bind]. rewrite put_rq_queues. cbn. by rewrite lookup_insert_ne.
    + mnow. destruct (open_queue _ _); [|done|done]. cbv [mbind M_bind]. rewrite put_rq_queues. cbn. by rewrite lookup_insert_ne.
Qed.

Lemma start_one_returns broken id t m : exists e, (start_one broken id t m).1 = Ret e.
Proof.
  unfold start_one. mnow. destruct (tr_MaxQueueSizeBytes t <? _); [by eexists|]. destruct (broken id) as [[]|]; [mnow|by eexists|by eexists|destruct (m_disk m !! id); [|mnow]]; destruct (open_queue _ _); try by eexists.
Qed.

Lemma start_all_queues broken ts id' : forall err m, broken id' = Some PathPresent -> m_queues m !! id' = None ->
  exists e m', start_all broken ts err m = (Ret e, m') /\ m_queues m' !! id' = None.
Proof.
  induction ts as [|[id t] ts IH]; intros err m Hb Hn; [by exists err, m|]. cbn [start_all]. destruct (start_one_returns broken id t m) as [e He].
  pose proof (start_one_queues broken id t m id' Hb Hn) as Hq. destruct (start_one broken id t m) as [r m1] eqn:E1. cbn [fst snd] in *. subst r. erewrite bind_ret by exact E1. by apply IH.
Qed.

(** A tracked replication whose queue is there but cannot be opened because
    of a path error (a segment file that may not be read) is passed over in
    silence, and its directory, with the blocks not yet sent, is removed as
    left over from a deletion: the start-up reports success. *)
Theorem start_removes_unreadable_queue broken ts m m' id t :
  (id, t) ∈ ts -> broken id = Some PathPresent -> m_queues m !! id = None -> StartReplicationQueues broken ts m = (Ret tt, m') ->
  m_disk m' !! id = None /\ m_queues m' !! id = None.
Proof.
  intros _ Hb Hn H. unfold StartReplicationQueues in H. destruct (start_all_queues broken ts id false m Hb Hn) as (e & m1 & E & Hq). erewrite bind_ret in H by exact E.
  destruct e; [done|]. erewrite bind_ret in H by reflexivity. injection H as <-. cbn. split; [|done]. apply map_lookup_filter_None. right. intros d _ [rq Hrq]. cbn in Hrq. by rewrite Hq in Hrq.
Qed.
Definition sample_manager : manager := MkManager ∅ {[ 5 := q_dir filled ]}.
Lemma start_removes_unreadable_queue_witness : exists m', StartReplicationQueues (fun _ => Some PathPresent) [(5, MkTracked 33554430 0 1 2)] sample_manager = (Ret tt, m') /\
  is_Some (m_disk sample_manager !! 5) /\ m_disk m' !! 5 = None /\ m_queues m' !! 5 = None.
Proof.
  exists (StartReplicationQueues (fun _ => Some PathPresent) [(5, MkTracked 33554430 0 1 2)] sample_manager).2.
  assert (E : StartReplicationQueues (fun _ => Some PathPresent) [(5, MkTracked 33554430 0 1 2)] sample_manager = (Ret tt, (StartReplicationQueues (fun _ => Some PathPresent) [(5, MkTracked 33554430 0 1 2)] sample_manager).2)) by (vm_compute; reflexivity).
  split; [exact E|]. split; [vm_compute; by eexists|]. refine (start_removes_unreadable_queue (fun _ => Some PathPresent) [(5, MkTracked 33554430 0 1 2)] sample_manager _ 5 (MkTracked 33554430 0 1 2) _ eq_refl eq_refl E). apply list_elem_of_singleton. reflexivity.
Defined.
End Replication.
