(* ===== verification/TsmIndex.v ===== *)
(** * The index of a TSM file

    Models [pkg/bytesutil/bytesutil.go] and, of [tsdb/engine/tsm1], the index
    a TSM file ends with: [IndexEntry] and [directIndex] of [writer.go], which
    build it, and [indirectIndex] of [reader.go], which answers queries from
    its bytes through a table of offsets and records deletions.

    Byte slices are lists of bytes; a slice expression outside its bounds
    panics.  Offsets are read and advanced as the [int32] values the code
    uses.  The writers below [bufio] are buffers in memory, whose writes do not
    fail.  Goroutines take the locks of the code around every operation, so
    the operations are sequential here. *)
From S2P Require Import Prelude Ring.
From stdpp Require Import gmap sorting.
#[global] Open Scope Z_scope.

Abbreviation len l := (Z.of_nat (length l)).

Definition u16 (x : Z) : Z := x mod 2 ^ 16.
Definition u32 (x : Z) : Z := x mod 2 ^ 32.
Definition i32 (x : Z) : Z := (x + 2 ^ 31) mod 2 ^ 32 - 2 ^ 31.

(** [b[lo:hi]] and [b[lo:]]. *)
Definition sub {A} (b : list A) (lo hi : Z) : outcome (list A) :=
  if (0 <=? lo) && (lo <=? hi) && (hi <=? len b) then Ret (take (Z.to_nat (hi - lo)) (drop (Z.to_nat lo) b)) else Panic.
Definition from {A} (b : list A) (lo : Z) : outcome (list A) := sub b lo (len b).
Definition at_ {A} (b : list A) (i : Z) : outcome A :=
  if i <? 0 then Panic else or_panic (b !! Z.to_nat i).

(** ** Byte slices *)

Module Bytes.
Import Ring.

Definition Less (a b : list Z) : bool := match Compare a b with Lt => true | _ => false end.
Definition Equal (a b : list Z) : bool := bool_decide (a = b).

(** [sort.IsSorted]: no element is less than the one before it. *)
Fixpoint IsSorted (a : list (list Z)) : bool :=
  match a with
  | x :: (y :: _) as a => negb (Less y x) && IsSorted a
  | _ => true
  end.

(** The loop of [SortDedup] on the sorted slice; the writes never pass the
    element read, [prev] is [a[j-1]]. *)
Fixpoint dedup (prev : list Z) (a : list (list Z)) : list (list Z) :=
  match a with
  | [] => [prev]
  | x :: a => if Equal prev x then dedup x a else prev :: dedup x a
  end.
Definition SortDedup (a : list (list Z)) : list (list Z) :=
  if (length a <? 2)%nat then a
  else match Sort a with [] => [] | x :: a => dedup x a end.

Fixpoint search_loop (fuel : nat) (a : list (list Z)) (x : list Z) (i j : nat) : outcome nat :=
  match fuel with
  | O => Panic
  | S f =>
    if (i <? j)%nat then
      let h := ((i + j) / 2)%nat in
      let! y := or_panic (a !! h) in
      if Less y x then search_loop f a x (S h) j else search_loop f a x i h
    else Ret i
  end.
Definition SearchBytes (a : list (list Z)) (x : list Z) : outcome nat := search_loop (S (length a)) a x 0 (length a).

Definition Contains (a : list (list Z)) (x : list Z) : outcome bool :=
  let! n := SearchBytes a x in
  Ret (match a !! n with Some y => Equal y x | None => false end).

(** The binary search over a packed array of elements of [sz] bytes. *)
Fixpoint fixed_loop (fuel : nat) (a : list Z) (sz : Z) (fn : list Z -> outcome bool) (i j : Z) : outcome Z :=
  match fuel with
  | O => Panic
  | S f =>
    if i <? j then
      let h := (i + j) / 2 in
      let h := h - h mod sz in
      let! x := sub a h (h + sz) in
      let! ok := fn x in
      if negb ok then fixed_loop f a sz fn (h + sz) j else fixed_loop f a sz fn i h
    else Ret i
  end.
Definition SearchBytesFixed (a : list Z) (sz : Z) (fn : list Z -> outcome bool) : outcome Z :=
  if negb (len a mod sz =? 0) then Panic else fixed_loop (S (length a)) a sz fn 0 (len a - sz).

Fixpoint union_loop (fuel : nat) (a b : list (list Z)) : list (list Z) :=
  match fuel with
  | O => []
  | S f =>
    match a, b with
    | x :: a', y :: b' =>
      match Compare x y with
      | Eq => x :: union_loop f a' b'
      | Lt => x :: union_loop f a' b
      | Gt => y :: union_loop f a b'
      end
    | x :: a', [] => x :: union_loop f a' []
    | [], y :: b' => y :: union_loop f [] b'
    | [], [] => []
    end
  end.
Definition Union (a b : list (list Z)) : list (list Z) := union_loop (length a + length b) a b.

Fixpoint intersect_loop (fuel : nat) (a b : list (list Z)) : list (list Z) :=
  match fuel with
  | O => []
  | S f =>
    match a, b with
    | x :: a', y :: b' =>
      match Compare x y with
      | Eq => x :: intersect_loop f a' b'
      | Lt => intersect_loop f a' b
      | Gt => intersect_loop f a b'
      end
    | _, _ => []
    end
  end.
Definition Intersect (a b : list (list Z)) : list (list Z) := intersect_loop (length a + length b) a b.

(** [copy(a[at:], src)]. *)
Definition copy_at (a : list Z) (p : Z) (src : list Z) : list Z :=
  take (Z.to_nat p) a ++ take (length a - Z.to_nat p) src ++ drop (Z.to_nat p + length src) a.

(** The index of the first element from [i], in steps of [width], on which
    [stop] holds of the first byte, or the first index past the end. *)
Fixpoint scan (fuel : nat) (a : list Z) (width : Z) (stop : Z -> bool) (i : Z) : Z :=
  match fuel with
  | O => i
  | S f =>
    match a !! Z.to_nat i with
    | Some v => if stop v then i else scan f a width stop (i + width)
    | None => i
    end
  end.

Fixpoint pack_loop (fuel : nat) (a : list Z) (width val : Z) (i e : Z) : outcome (list Z * Z) :=
  match fuel with
  | O => Panic
  | S f =>
    if i <? len a then
      let i := scan (length a) a width (fun v => negb (v =? val)) i in
      let jStart := i in
      let j := scan (length a) a width (fun v => v =? val) i in
      if jStart =? len a then Ret (a, e)
      else
        let! moved := sub a jStart j in
        pack_loop f (copy_at a e moved) width val j (e + (j - jStart))
    else Ret (a, e)
  end.
Definition Pack (a : list Z) (width val : Z) : outcome (list Z) :=
  let i := scan (length a) a width (fun v => v =? val) 0 in
  let! (a, e) := pack_loop (S (length a)) a width val i i in
  sub a 0 e.

End Bytes.

(** ** Index entries *)

Module TsmIndex.
Import Ring Bytes.

Definition indexEntrySize : Z := 28.
Definition indexCountSize : Z := 2.
Definition indexTypeSize : Z := 1.
Definition maxIndexEntries : Z := 2 ^ 16 - 1.
Definition maxKeyLength : Z := 2 ^ 16 - 1.
Definition fsyncEvery : Z := 25 * 1024 * 1024.

Record IndexEntry := MkEntry { MinTime : Z; MaxTime : Z; Offset : Z; Size : Z }.
#[export] Instance IndexEntry_eq_dec : EqDecision IndexEntry.
Proof. solve_decision. Defined.

Definition Entry_UnmarshalBinary (b : list Z) : outcome IndexEntry :=
  if len b <? indexEntrySize then Fail "unmarshalBinary: short buf"
  else
    let! b0 := sub b 0 8 in
    let! b1 := sub b 8 16 in
    let! b2 := sub b 16 24 in
    let! b3 := sub b 24 28 in
    Ret (MkEntry (i64 (be_get b0)) (i64 (be_get b1)) (i64 (be_get b2)) (be_get b3)).

(** The 28 bytes [AppendTo] stores at the start of the buffer it is given. *)
Definition AppendTo (e : IndexEntry) : list Z :=
  be_put 8 (u64 (MinTime e)) ++ be_put 8 (u64 (MaxTime e)) ++ be_put 8 (u64 (Offset e)) ++ be_put 4 (Size e).

Definition Entry_Contains (e : IndexEntry) (t : Z) : bool := (MinTime e <=? t) && (t <=? MaxTime e).
Definition Entry_OverlapsTimeRange (e : IndexEntry) (min max : Z) : bool := (MinTime e <=? max) && (min <=? MaxTime e).

Record indexEntries := MkEntries { Type_ : Z; entries : list IndexEntry }.

Definition Len (a : indexEntries) : Z := len (entries a).
(** [Less], the order of [sort.Sort]. *)
Definition entry_le (a b : IndexEntry) : Prop := MinTime a <= MinTime b.
#[global] Instance index_entry_le_dec : RelDecision entry_le.
Proof. intros a b. unfold entry_le. apply _. Defined.
Fixpoint entries_IsSorted (l : list IndexEntry) : bool :=
  match l with
  | x :: (y :: _) as l => negb (MinTime y <? MinTime x) && entries_IsSorted l
  | _ => true
  end.
Definition entries_Sort (a : indexEntries) : indexEntries := MkEntries (Type_ a) (merge_sort entry_le (entries a)).

(** [MarshalBinary] and the bytes [WriteTo] writes. *)
Definition entries_WriteTo (a : indexEntries) : list Z := concat (AppendTo <$> entries a).

(** ** Building the index *)

(** [buf] holds what went through the writer [w]; [disk] is whether the index
    has a temporary file of its own, [f] whether the file synced while the
    index is copied has been set. *)
Record directIndex := MkDirect {
  keyCount : Z;
  size : Z;
  lastSync : Z;
  disk : bool;
  f : bool;
  buf : list Z;
  key : list Z;
  ies : option indexEntries }.

Definition NewIndexWriter : directIndex := MkDirect 0 0 0 false false [] [] None.
Definition NewDiskIndexWriter : directIndex := MkDirect 0 0 0 true false [] [] None.

(** The number of bytes written and the index; on an error the index is
    unchanged. *)
Definition flush (d : directIndex) : outcome (Z * directIndex) :=
  if (length (key d) =? 0)%nat then Ret (0, d)
  else
    let! es := or_panic (ies d) in
    if maxIndexEntries <? Len es then Fail "key exceeds max index entries"
    else
      let es := if entries_IsSorted (entries es) then es else entries_Sort es in
      let out := be_put 2 (u16 (len (key d))) ++ key d ++ [Type_ es] ++ be_put 2 (u16 (Len es)) ++ entries_WriteTo es in
      let sync := if disk d && (fsyncEvery <? u32 (size d - lastSync d)) then size d else lastSync d in
      Ret (len out, MkDirect (keyCount d) (size d) sync (disk d) (f d) (buf d ++ out) [] (Some (MkEntries 0 []))).

(** [Add] drops the result of [flush]. *)
Definition Add (d : directIndex) (k : list Z) (blockType minTime maxTime offset sz : Z) : outcome directIndex :=
  let e := MkEntry minTime maxTime offset sz in
  let grown s := u32 (u32 (u32 (s + u32 (2 + len k)) + indexCountSize) + indexEntrySize) in
  if (length (key d) =? 0)%nat then
    let es := match ies d with Some es => es | None => MkEntries 0 [] end in
    Ret (MkDirect (keyCount d + 1) (grown (size d)) (lastSync d) (disk d) (f d) (buf d) k (Some (MkEntries blockType (entries es ++ [e]))))
  else
    match Compare (key d) k with
    | Eq =>
      let! es := or_panic (ies d) in
      Ret (MkDirect (keyCount d) (u32 (size d + indexEntrySize)) (lastSync d) (disk d) (f d) (buf d) (key d)
             (Some (MkEntries (Type_ es) (entries es ++ [e]))))
    | Lt =>
      let! d := match flush d with Ret (_, d') => Ret d' | Fail _ => Ret d | Panic => Panic end in
      let! es := or_panic (ies d) in
      Ret (MkDirect (keyCount d + 1) (grown (size d)) (lastSync d) (disk d) (f d) (buf d) k (Some (MkEntries blockType (entries es ++ [e]))))
    | Gt => Panic
    end.

Definition direct_Entries (d : directIndex) (k : list Z) : outcome (list IndexEntry) :=
  if (length (key d) =? 0)%nat then Ret []
  else if Equal (key d) k then let! es := or_panic (ies d) in Ret (entries es) else Ret [].

Definition direct_Entry (d : directIndex) (k : list Z) (t : Z) : outcome (option IndexEntry) :=
  let! es := direct_Entries d k in Ret (List.find (fun e => Entry_Contains e t) es).

Definition direct_KeyCount (d : directIndex) : Z := keyCount d.

(** [copyBuffer] syncs [d.f] once more than [fsyncEvery] bytes went through:
    a call on a nil interface when [f] was never set. *)
Definition copyBuffer (hasFile : bool) (src : list Z) : outcome (list Z) :=
  if (fsyncEvery <? len src) && negb hasFile then Panic else Ret src.

(** The bytes written to [w] and the index left behind: the buffer is read
    empty by the copy, the file of a disk index is only read. *)
Definition WriteTo (d : directIndex) : outcome (list Z * directIndex) :=
  let! (_, d) := flush d in
  if disk d then Ret (buf d, d)
  else
    let! out := copyBuffer (f d) (buf d) in
    Ret (out, MkDirect (keyCount d) (size d) (lastSync d) (disk d) (f d) [] (key d) (ies d)).

Definition direct_MarshalBinary (d : directIndex) : outcome (list Z) := let! (b, _) := WriteTo d in Ret b.
Definition direct_Size (d : directIndex) : Z := size d.

(** ** Reading the index *)

Record TimeRange := MkRange { Min : Z; Max : Z }.
#[export] Instance TimeRange_eq_dec : EqDecision TimeRange.
Proof. solve_decision. Defined.
Definition Range_Overlaps (t : TimeRange) (min max : Z) : bool := (Min t <=? max) && (min <=? Max t).

Record indirectIndex := MkIndirect {
  b : list Z;
  offsets : list Z;
  minKey : list Z;
  maxKey : list Z;
  minTime : Z;
  maxTime : Z;
  tombstones : gmap (list Z) (list TimeRange) }.

Definition NewIndirectIndex : indirectIndex := MkIndirect [] [] [] [] 0 0 ∅.
Definition set_offsets (o : list Z) (d : indirectIndex) : indirectIndex :=
  MkIndirect (b d) o (minKey d) (maxKey d) (minTime d) (maxTime d) (tombstones d).
Definition set_tombstones (t : gmap (list Z) (list TimeRange)) (d : indirectIndex) : indirectIndex :=
  MkIndirect (b d) (offsets d) (minKey d) (maxKey d) (minTime d) (maxTime d) t.

Definition offset (d : indirectIndex) (i : Z) : outcome Z :=
  if (i <? 0) || (len (offsets d) <? i + 4) then Ret (-1)
  else let! x := sub (offsets d) (i * 4) (i * 4 + 4) in Ret (be_get x).

(** The number of bytes read and the key. *)
Definition readKey (b : list Z) : outcome (Z * list Z) :=
  let! l := sub b 0 2 in
  let! k := sub b 2 (2 + be_get l) in
  Ret (2 + len k, k).

Fixpoint readEntries_loop (n : nat) (b : list Z) : outcome (list IndexEntry) :=
  match n with
  | O => Ret []
  | S n =>
    let! e := match Entry_UnmarshalBinary b with Fail _ => Fail "readEntries: unmarshal error" | r => r end in
    let! b := from b indexEntrySize in
    let! es := readEntries_loop n b in
    Ret (e :: es)
  end.
Definition readEntries (b : list Z) : outcome (Z * indexEntries) :=
  if len b <? 1 + indexCountSize then Fail "readEntries: data too short for headers"
  else
    let! t := at_ b 0 in
    let! c := sub b 1 (1 + indexCountSize) in
    let count := be_get c in
    let! rest := from b (indexCountSize + indexTypeSize) in
    let! es := readEntries_loop (Z.to_nat count) rest in
    Ret (1 + indexCountSize + count * indexEntrySize, MkEntries t es).

(** The comparison both searches hand to [SearchBytesFixed]. *)
Definition key_at_least (d : indirectIndex) (k : list Z) (x : list Z) : outcome bool :=
  let offset := i32 (be_get x) in
  let! l := sub (b d) offset (i32 (offset + 2)) in
  let keyLen := i32 (be_get l) in
  let! y := sub (b d) (i32 (offset + 2)) (i32 (i32 (offset + 2) + keyLen)) in
  Ret (match Compare y k with Lt => false | _ => true end).

Definition searchOffset (d : indirectIndex) (k : list Z) : outcome Z :=
  let! i := SearchBytesFixed (offsets d) 4 (key_at_least d k) in
  if i <? len (offsets d) then Ret (i / 4) else Ret (len (offsets d) / 4).
Definition Seek := searchOffset.

Definition ContainsKey (d : indirectIndex) (k : list Z) : bool :=
  match Compare k (minKey d) with Lt => false | _ => true end &&
  match Compare k (maxKey d) with Gt => false | _ => true end.

Definition search (d : indirectIndex) (k : list Z) : outcome Z :=
  if negb (ContainsKey d k) then Ret (len (b d))
  else
    let! i := SearchBytesFixed (offsets d) 4 (key_at_least d k) in
    if i <? len (offsets d) then
      let! x := sub (offsets d) i (i + 4) in
      let ofs := be_get x in
      let! rest := from (b d) ofs in
      let! (_, k') := readKey rest in
      if negb (Equal k k') then Ret (len (b d)) else Ret ofs
    else Ret (len (b d)).

Definition readEntriesAt (d : indirectIndex) (ofs : Z) : outcome (list Z * list IndexEntry) :=
  let! rest := from (b d) ofs in
  let! (n, k) := readKey rest in
  let! rest := from (b d) (ofs + n) in
  match readEntries rest with
  | Ret (_, ie) => Ret (k, entries ie)
  | _ => Panic
  end.

(** [nil] is the empty list of entries. *)
Definition ReadEntries (d : indirectIndex) (k : list Z) : outcome (list IndexEntry) :=
  let! ofs := search d k in
  if ofs <? len (b d) then
    let! (k', es) := readEntriesAt d ofs in
    if negb (Equal k k') then Ret [] else Ret es
  else Ret [].
Definition Entries := ReadEntries.

Definition Entry (d : indirectIndex) (k : list Z) (t : Z) : outcome (option IndexEntry) :=
  let! es := Entries d k in Ret (List.find (fun e => Entry_Contains e t) es).

Definition Key (d : indirectIndex) (idx : Z) : outcome (list Z * Z * list IndexEntry) :=
  if (idx <? 0) || (len (offsets d) <? idx * 4 + 4) then Ret ([], 0, [])
  else
    let! x := sub (offsets d) (idx * 4) (idx * 4 + 4) in
    let ofs := be_get x in
    let! rest := from (b d) ofs in
    let! (n, k) := readKey rest in
    let! typ := at_ (b d) (ofs + n) in
    let! rest := from (b d) (ofs + n) in
    match readEntries rest with
    | Ret (_, ie) => Ret (k, typ, entries ie)
    | Fail _ => Ret ([], 0, [])
    | Panic => Panic
    end.

Definition KeyAt (d : indirectIndex) (idx : Z) : outcome (list Z * Z) :=
  if (idx <? 0) || (len (offsets d) <? idx * 4 + 4) then Ret ([], 0)
  else
    let! x := sub (offsets d) (idx * 4) (idx * 4 + 4) in
    let ofs := i32 (be_get x) in
    let! rest := from (b d) ofs in
    let! (n, k) := readKey rest in
    let! typ := at_ (b d) (i32 (ofs + i32 n)) in
    Ret (k, typ).

Definition KeyCount (d : indirectIndex) : Z := len (offsets d) / 4.

(** ** Deleting *)

Definition nilOffset : list Z := [255; 255; 255; 255].

(** The keys less than [k] dropped from the front. *)
Fixpoint skip_less (keys : list (list Z)) (k : list Z) : list (list Z) :=
  match keys with
  | x :: keys' => if Less x k then skip_less keys' k else keys
  | [] => []
  end.

(** The walk over the offsets from byte [i]. *)
Fixpoint delete_loop (fuel : nat) (d : indirectIndex) (keys : list (list Z)) (i : Z) : outcome indirectIndex :=
  match fuel with
  | O => Panic
  | S f =>
    if (i + 4 <=? len (offsets d)) && negb (length keys =? 0)%nat then
      let! x := sub (offsets d) i (i + 4) in
      let! rest := from (b d) (be_get x) in
      let! (_, indexKey) := readKey rest in
      match skip_less keys indexKey with
      | k :: keys' =>
        if Equal k indexKey then delete_loop f (set_offsets (copy_at (offsets d) i nilOffset) d) keys' (i + 4)
        else delete_loop f d (k :: keys') (i + 4)
      | [] => delete_loop f d [] (i + 4)
      end
    else Ret d
  end.

(** [keys] in sorted order. *)
Definition sorted_keys (keys : list (list Z)) : list (list Z) := if IsSorted keys then keys else Sort keys.

Definition Delete (d : indirectIndex) (keys : list (list Z)) : outcome indirectIndex :=
  if (length keys =? 0)%nat then Ret d
  else
    let keys := sorted_keys keys in
    let! k0 := or_panic (head keys) in
    let! start := searchOffset d k0 in
    let! d := delete_loop (S (length (offsets d))) d keys (start * 4) in
    let! o := Pack (offsets d) 4 255 in
    Ret (set_offsets o d).

Definition TimeRange_ (d : indirectIndex) : Z * Z := (minTime d, maxTime d).
Definition KeyRange (d : indirectIndex) : list Z * list Z := (minKey d, maxKey d).

(** The order of the tombstones of a key; equal ranges are the only ties. *)
Definition range_le (a b : TimeRange) : Prop := Min a < Min b \/ Min a = Min b /\ Max a <= Max b.
#[global] Instance range_le_dec : RelDecision range_le.
Proof. intros a c. unfold range_le. apply _. Defined.
Definition sort_ranges (l : list TimeRange) : list TimeRange := merge_sort range_le l.

(** The window grown over adjacent tombstones, [prev] the one before. *)
Fixpoint window (prev : TimeRange) (l : list TimeRange) (minTs maxTs : Z) : Z * Z :=
  match l with
  | [] => (minTs, maxTs)
  | ts :: l =>
    if negb (Max prev =? i64 (Min ts - 1)) && negb (Range_Overlaps prev (Min ts) (Max ts)) then (2 ^ 63 - 1, - 2 ^ 63)
    else
      let minTs := if Min ts <? minTs then Min ts else minTs in
      let maxTs := if maxTs <? Max ts then Max ts else maxTs in
      window ts l minTs maxTs
  end.
Definition tombstone_window (l : list TimeRange) : outcome (Z * Z) :=
  match l with
  | [] => Panic
  | t :: l => Ret (window t l (Min t) (Max t))
  end.

(** The walk over the keys of the index from position [i]: the keys deleted
    in full and the tombstones of the others.  A [continue] that does not drop
    the first key leaves it for the next position, where it is skipped. *)
Fixpoint range_loop (fuel : nat) (d : indirectIndex) (keys : list (list Z)) (lo hi i : Z)
    (fullKeys : list (list Z)) (ts : gmap (list Z) (list TimeRange))
  : outcome (list (list Z) * gmap (list Z) (list TimeRange)) :=
  match fuel with
  | O => Panic
  | S f =>
    if negb (length keys =? 0)%nat && (i <? KeyCount d) then
      let! ofs := offset d i in
      let! (k, es) := readEntriesAt d ofs in
      match skip_less keys k with
      | [] => Ret (fullKeys, ts)
      | k0 :: keys' =>
        match Compare k0 k with
        | Gt => range_loop f d (k0 :: keys') lo hi (i + 1) fullKeys ts
        | _ =>
          match head es, last es with
          | Some first, Some final =>
            let min := MinTime first in
            let max := MaxTime final in
            if (max <? lo) || (hi <? min) then range_loop f d (k0 :: keys') lo hi (i + 1) fullKeys ts
            else if (lo <=? min) && (max <=? hi) then range_loop f d keys' lo hi (i + 1) (fullKeys ++ [k0]) ts
            else
              let existing := default [] (tombstones d !! k) in
              let newTs := sort_ranges (existing ++ default [] (ts !! k) ++ [MkRange lo hi]) in
              let ts := <[k := newTs]> ts in
              let! (minTs, maxTs) := tombstone_window newTs in
              if (minTs <=? min) && (max <=? maxTs) then range_loop f d keys' lo hi (i + 1) (fullKeys ++ [k0]) ts
              else range_loop f d (k0 :: keys') lo hi (i + 1) fullKeys ts
          | _, _ => range_loop f d (k0 :: keys') lo hi (i + 1) fullKeys ts
          end
        end
      end
    else Ret (fullKeys, ts)
  end.

Definition DeleteRange (d : indirectIndex) (keys : list (list Z)) (lo hi : Z) : outcome indirectIndex :=
  if (length keys =? 0)%nat then Ret d
  else
    let keys := sorted_keys keys in
    if (lo =? - 2 ^ 63) && (hi =? 2 ^ 63 - 1) then Delete d keys
    else
      let '(min, max) := TimeRange_ d in
      if (max <? lo) || (hi <? min) then Ret d
      else
        let! (fullKeys, ts) := range_loop (S (length (offsets d))) d keys lo hi 0 [] ∅ in
        let! d := if (length fullKeys =? 0)%nat then Ret d else Delete d fullKeys in
        Ret (set_tombstones (ts ∪ tombstones d) d).

(** ** Queries *)

Definition TombstoneRange (d : indirectIndex) (k : list Z) : list TimeRange := default [] (tombstones d !! k).

Definition index_Contains (d : indirectIndex) (k : list Z) : outcome bool :=
  let! es := Entries d k in Ret (negb (length es =? 0)%nat).

Definition covers (t : Z) (r : TimeRange) : bool := (Min r <=? t) && (t <=? Max r).

Definition ContainsValue (d : indirectIndex) (k : list Z) (t : Z) : outcome bool :=
  let! e := Entry d k t in
  match e with
  | None => Ret false
  | Some _ => Ret (negb (existsb (covers t) (TombstoneRange d k)))
  end.

Definition Type_of (d : indirectIndex) (k : list Z) : outcome Z :=
  let! ofs := search d k in
  if ofs <? len (b d) then
    let! rest := from (b d) ofs in
    let! (n, _) := readKey rest in
    at_ (b d) (ofs + n)
  else Fail "key does not exist".

Definition OverlapsTimeRange (d : indirectIndex) (min max : Z) : bool := (minTime d <=? max) && (min <=? maxTime d).
Definition OverlapsKeyRange (d : indirectIndex) (min max : list Z) : bool :=
  match Compare (minKey d) max with Gt => false | _ => true end &&
  match Compare (maxKey d) min with Lt => false | _ => true end.

Definition MarshalBinary (d : indirectIndex) : list Z := b d.
Definition index_Size (d : indirectIndex) : Z := u32 (len (b d)).

(** ** Opening *)

(** The scan over the bytes that finds the offsets and the time range. *)
Definition does_not_return : string := "does not return".
Fixpoint unmarshal_loop (fuel : nat) (b : list Z) (iMax i mn mx : Z) (offs : list Z) : outcome (list Z * Z * Z) :=
  match fuel with
  | O => Fail does_not_return
  | S f =>
    if i <? iMax then
      let offs := offs ++ [i] in
      if iMax <=? i32 (i + 2) then Fail "indirectIndex: not enough data for key length value"
      else
        let! l := sub b i (i32 (i + 2)) in
        let i := i32 (i + i32 (3 + be_get l)) in
        if iMax <=? i32 (i + indexCountSize) then Fail "indirectIndex: not enough data for index entries count"
        else
          let! c := sub b i (i32 (i + indexCountSize)) in
          let count := be_get c in
          let i := i32 (i + indexCountSize) in
          if iMax <=? i32 (i + 8) then Fail "indirectIndex: not enough data for min time"
          else
            let! t0 := sub b i (i32 (i + 8)) in
            let mn := if i64 (be_get t0) <? mn then i64 (be_get t0) else mn in
            let i := i32 (i + i32 (i32 (count - 1) * indexEntrySize)) in
            if iMax <=? i32 (i + 16) then Fail "indirectIndex: not enough data for max time"
            else
              let! t1 := sub b (i32 (i + 8)) (i32 (i + 16)) in
              let mx := if mx <? i64 (be_get t1) then i64 (be_get t1) else mx in
              unmarshal_loop f b iMax (i32 (i + indexEntrySize)) mn mx offs
    else Ret (offs, mn, mx)
  end.

Definition UnmarshalBinary (d : indirectIndex) (bs : list Z) : outcome indirectIndex :=
  let d := MkIndirect bs (offsets d) (minKey d) (maxKey d) (minTime d) (maxTime d) (tombstones d) in
  if (length bs =? 0)%nat then Ret d
  else
    let! ((offs, mn), mx) := unmarshal_loop (S (length bs)) bs (i32 (len bs)) 0 (2 ^ 63 - 1) 0 [] in
    let! firstOfs := or_panic (head offs) in
    let! rest := from bs firstOfs in
    let! (_, k0) := readKey rest in
    let! lastOfs := or_panic (last offs) in
    let! rest := from bs lastOfs in
    let! (_, k1) := readKey rest in
    Ret (MkIndirect bs (concat (be_put 4 ∘ u32 <$> offs)) k0 k1 mn mx (tombstones d)).

End TsmIndex.
