(* ===== verification/TsmIndexSpec.v ===== *)
(** * The index of a TSM file: queries and deletions

    The bytes of an index are the encodings of a strictly sorted list of
    series, and the offsets of an [indirectIndex] point at the ones that are
    not deleted.  Against that view: the binary searches find exactly the
    keys that are there, every query returns what was added, and [Delete] and
    [DeleteRange] remove exactly the points they name. *)
From S2P Require Import Prelude Ring WalLog TsmIndex.
From stdpp Require Import gmap sorting.
#[global] Open Scope Z_scope.

Module TsmIndexSpec.
Import Ring Bytes TsmIndex.

(** ** The order of keys *)

Definition klt (a b : list Z) : Prop := Compare a b = Lt.

Lemma Compare_Eq a : forall b, Compare a b = Eq <-> a = b.
Proof.
  induction a as [|x a IH]; intros [|y b]; cbn; try (split; congruence).
  destruct (Z.compare_spec x y) as [->|H|H]; [rewrite IH|..]; split; intros; simplify_eq; try done; lia.
Qed.
Lemma Compare_Gt a b : Compare a b = Gt <-> klt b a.
Proof. unfold klt. rewrite (WalLog.Compare_antisym a b). destruct (Compare a b); cbn; split; congruence. Qed.
Lemma Compare_Lt_le a b : klt a b <-> bytes_le a b /\ a <> b.
Proof.
  unfold klt, bytes_le. split; [intros E; split; [congruence|intros ->; by rewrite WalLog.Compare_refl in E]|].
  intros [H N]. destruct (Compare a b) eqn:E; [|done|done]. by apply Compare_Eq in E.
Qed.
Lemma bytes_le_antisym a b : bytes_le a b -> bytes_le b a -> a = b.
Proof.
  unfold bytes_le. rewrite (WalLog.Compare_antisym a b). destruct (Compare a b) eqn:E; cbn; [|done|done].
  intros _ _. by apply Compare_Eq.
Qed.
Lemma klt_le_trans a b c : klt a b -> bytes_le b c -> klt a c.
Proof.
  rewrite !Compare_Lt_le. intros [H1 N] H2. split; [by eapply bytes_le_trans|]. intros ->. by apply N, bytes_le_antisym.
Qed.
Lemma klt_trans a b c : klt a b -> klt b c -> klt a c.
Proof. intros H1 [H2 _]%Compare_Lt_le. by eapply klt_le_trans. Qed.
Lemma le_klt_trans a b c : bytes_le a b -> klt b c -> klt a c.
Proof.
  rewrite !Compare_Lt_le. intros H1 [H2 N]. split; [by eapply bytes_le_trans|]. intros ->. by apply N, bytes_le_antisym.
Qed.
Lemma klt_irrefl a : ~ klt a a.
Proof. unfold klt. by rewrite WalLog.Compare_refl. Qed.
Lemma klt_le a b : klt a b -> bytes_le a b.
Proof. by intros [? _]%Compare_Lt_le. Qed.
Lemma not_klt a b : ~ klt a b <-> bytes_le b a.
Proof.
  unfold klt, bytes_le. rewrite (WalLog.Compare_antisym a b). destruct (Compare a b); cbn; split; congruence.
Qed.
Lemma Less_spec a b : Less a b = true <-> klt a b.
Proof. unfold Less, klt. destruct (Compare a b); split; congruence. Qed.
Lemma Equal_spec a b : Equal a b = true <-> a = b.
Proof. apply bool_decide_eq_true. Qed.

Lemma IsSorted_sorted l : IsSorted l = true -> StronglySorted bytes_le l.
Proof.
  induction l as [|x l IH]; [constructor|]. intros H.
  assert (H0 : StronglySorted bytes_le l) by (apply IH; destruct l; [done|]; by apply andb_prop in H as [_ ?]).
  constructor; [done|]. destruct l as [|y l]; [constructor|]. apply andb_prop in H as [H _].
  assert (Hxy : bytes_le x y).
  { apply not_klt. rewrite <- Less_spec. by destruct (Less y x). }
  constructor; [done|]. inversion H0; subst. eapply Forall_impl; [done|]. intros z. by apply bytes_le_trans.
Qed.

Lemma sorted_keys_spec keys : sorted_keys keys ≡ₚ keys /\ StronglySorted bytes_le (sorted_keys keys).
Proof.
  unfold sorted_keys. destruct (IsSorted keys) eqn:E; [split; [done|by apply IsSorted_sorted]|].
  split; [apply merge_sort_Permutation|apply Sort_sorted].
Qed.

(** ** Slices *)

Lemma sub_mid {A} (pre mid post : list A) lo hi :
  lo = len pre -> hi = lo + len mid -> sub (pre ++ mid ++ post) lo hi = Ret mid.
Proof.
  intros -> ->. unfold sub. rewrite !length_app.
  rewrite (proj2 (Z.leb_le 0 _)), (proj2 (Z.leb_le (len pre) _)), (proj2 (Z.leb_le _ (Z.of_nat _))) by lia. cbn [andb].
  f_equal. replace (Z.to_nat (len pre)) with (length pre) by lia.
  rewrite drop_app_length. replace (Z.to_nat _) with (length mid) by lia. apply take_app_length.
Qed.
Lemma sub_head {A} (mid post : list A) hi : hi = len mid -> sub (mid ++ post) 0 hi = Ret mid.
Proof. intros ->. by apply (sub_mid [] mid post). Qed.
Lemma from_mid {A} (pre post : list A) lo : lo = len pre -> from (pre ++ post) lo = Ret post.
Proof.
  intros ->. unfold from. rewrite <- (app_nil_r post) at 1. apply sub_mid; [done|]. rewrite length_app. lia.
Qed.
Lemma at_mid {A} (pre : list A) x post i : i = len pre -> at_ (pre ++ x :: post) i = Ret x.
Proof.
  intros ->. unfold at_. rewrite (proj2 (Z.ltb_ge _ _)) by lia. rewrite Nat2Z.id, list_lookup_middle by done. done.
Qed.
Lemma i32_small x : - 2 ^ 31 <= x < 2 ^ 31 -> i32 x = x.
Proof. intros. unfold i32. rewrite Z.mod_small; lia. Qed.
Lemma be_get_put_small n v : 0 <= v < 2 ^ (8 * Z.of_nat n) -> be_get (be_put n v) = v.
Proof. intros. rewrite be_get_put. by apply Z.mod_small. Qed.

(** ** The encoding of a series *)

Record series := MkSeries { skey : list Z; stype : Z; sents : list IndexEntry }.
#[export] Instance series_eq_dec : EqDecision series.
Proof. solve_decision. Defined.

Definition wf_entry (e : IndexEntry) : Prop :=
  is_i64 (MinTime e) /\ is_i64 (MaxTime e) /\ is_i64 (Offset e) /\ 0 <= Size e < 2 ^ 32.
Definition wf_series (s : series) : Prop :=
  len (skey s) <= maxKeyLength /\ sents s <> [] /\ len (sents s) <= maxIndexEntries /\ Forall wf_entry (sents s).

Definition enc_series (s : series) : list Z :=
  be_put 2 (len (skey s)) ++ skey s ++ [stype s] ++ be_put 2 (len (sents s)) ++ concat (AppendTo <$> sents s).

Lemma AppendTo_length e : length (AppendTo e) = 28%nat.
Proof. unfold AppendTo. by rewrite !length_app, !be_put_length. Qed.

Lemma Entry_roundtrip e rest : wf_entry e -> Entry_UnmarshalBinary (AppendTo e ++ rest) = Ret e.
Proof.
  intros (H1 & H2 & H3 & H4). unfold Entry_UnmarshalBinary.
  rewrite (proj2 (Z.ltb_ge _ _)) by (rewrite length_app, AppendTo_length; unfold indexEntrySize; lia).
  unfold AppendTo. rewrite <- !app_assoc.
  rewrite (sub_head (be_put 8 _)) by (rewrite ?be_put_length; done). cbn [obind].
  rewrite (sub_mid (be_put 8 _) (be_put 8 _)) by (rewrite ?be_put_length; done). cbn [obind].
  rewrite (app_assoc (be_put 8 _) (be_put 8 _)).
  rewrite (sub_mid (be_put 8 _ ++ be_put 8 _) (be_put 8 _)) by (rewrite ?length_app, ?be_put_length; done). cbn [obind].
  rewrite (app_assoc (_ ++ _) (be_put 8 _)).
  rewrite (sub_mid ((be_put 8 _ ++ be_put 8 _) ++ be_put 8 _) (be_put 4 _)) by (rewrite ?length_app, ?be_put_length; done).
  cbn [obind]. rewrite !be64_roundtrip by apply u64_range. rewrite be_get_put_small by (cbn; lia).
  rewrite !i64_u64, !i64_id by done. by destruct e.
Qed.

Lemma concat_entries_length es : length (concat (AppendTo <$> es)) = (28 * length es)%nat.
Proof. induction es as [|e es IH]; [done|]. cbn [fmap list_fmap concat length]. rewrite length_app, AppendTo_length, IH. lia. Qed.

Lemma readEntries_loop_enc es rest :
  Forall wf_entry es -> readEntries_loop (length es) (concat (AppendTo <$> es) ++ rest) = Ret es.
Proof.
  induction 1 as [|e es He _ IH]; [done|]. cbn [length readEntries_loop fmap list_fmap concat].
  rewrite <- app_assoc, Entry_roundtrip by done. cbn [obind].
  rewrite from_mid by (rewrite AppendTo_length; done). cbn [obind]. rewrite IH. done.
Qed.

Lemma readEntries_enc t es rest :
  Forall wf_entry es -> len es <= maxIndexEntries ->
  exists n, readEntries ([t] ++ be_put 2 (len es) ++ concat (AppendTo <$> es) ++ rest) = Ret (n, MkEntries t es).
Proof.
  intros He Hl. unfold maxIndexEntries in Hl. eexists. unfold readEntries, indexCountSize, indexTypeSize.
  rewrite (proj2 (Z.ltb_ge _ _)) by (rewrite !length_app, be_put_length; cbn; lia).
  change (at_ ([t] ++ be_put 2 (len es) ++ concat (AppendTo <$> es) ++ rest) 0) with (Ret t). cbn [obind].
  rewrite (sub_mid [t] (be_put 2 _)) by (rewrite ?be_put_length; done). cbn [obind].
  rewrite be_get_put_small by (cbn; lia).
  rewrite (app_assoc [t]).
  rewrite from_mid by (rewrite length_app, be_put_length; done). cbn [obind].
  rewrite Nat2Z.id, readEntries_loop_enc by done. done.
Qed.

Lemma readKey_enc s rest : wf_series s -> readKey (enc_series s ++ rest) = Ret (2 + len (skey s), skey s).
Proof.
  intros (H & _). unfold maxKeyLength in H. unfold readKey, enc_series. rewrite <- !app_assoc.
  rewrite (sub_head (be_put 2 _)) by (rewrite ?be_put_length; done). cbn [obind].
  rewrite be_get_put_small by (cbn; lia).
  rewrite (sub_mid (be_put 2 _) (skey s)) by (rewrite ?be_put_length; done). done.
Qed.

Lemma enc_series_length s : len (enc_series s) = 5 + len (skey s) + 28 * len (sents s).
Proof. unfold enc_series. rewrite !length_app, !be_put_length, concat_entries_length. cbn [length]. lia. Qed.

(** The series stands at offset [o] of the bytes. *)
Definition located (bs : list Z) (o : Z) (s : series) : Prop :=
  exists pre post, bs = pre ++ enc_series s ++ post /\ o = len pre.

Lemma located_from bs o s : located bs o s -> exists post, from bs o = Ret (enc_series s ++ post).
Proof. intros (pre & post & -> & ->). exists post. by apply from_mid. Qed.

Lemma located_readKey bs o s rest : wf_series s -> located bs o s -> from bs o = Ret rest -> readKey rest = Ret (2 + len (skey s), skey s).
Proof. intros Hw (post & E)%located_from. rewrite E. intros [= <-]. by apply readKey_enc. Qed.

Lemma located_tail bs o s : wf_series s -> located bs o s ->
  exists post, from bs (o + (2 + len (skey s))) = Ret ([stype s] ++ be_put 2 (len (sents s)) ++ concat (AppendTo <$> sents s) ++ post).
Proof.
  intros Hw (pre & post & -> & ->). exists post. unfold enc_series. rewrite <- !app_assoc.
  rewrite (app_assoc pre), (app_assoc (pre ++ _)). rewrite from_mid; [done|]. rewrite !length_app, be_put_length. lia.
Qed.

Lemma located_type bs o s : wf_series s -> located bs o s -> at_ bs (o + (2 + len (skey s))) = Ret (stype s).
Proof.
  intros Hw (pre & post & -> & ->). unfold enc_series. rewrite <- !app_assoc.
  rewrite (app_assoc pre), (app_assoc (pre ++ _)). apply at_mid. rewrite !length_app, be_put_length. lia.
Qed.

Lemma located_bound bs o s : located bs o s -> 0 <= o /\ o + 5 + len (skey s) + 28 * len (sents s) <= len bs.
Proof. intros (pre & post & -> & ->). rewrite !length_app. pose proof (enc_series_length s). lia. Qed.

(** ** Packed offsets *)

Section Packed.
Context {A : Type} (code : A -> list Z) (w : nat) (Hw : (0 < w)%nat) (Hcode : forall x, length (code x) = w).

Lemma packed_length l : length (concat (code <$> l)) = (w * length l)%nat.
Proof. induction l as [|x l IH]; cbn [fmap list_fmap concat length]; [lia|]. rewrite length_app, Hcode, IH. lia. Qed.

Lemma packed_sub l i x : l !! i = Some x -> sub (concat (code <$> l)) (Z.of_nat (w * i)) (Z.of_nat (w * i) + Z.of_nat w) = Ret (code x).
Proof.
  intros H. rewrite <- (take_drop_middle _ _ _ H), fmap_app, concat_app. cbn [fmap list_fmap concat].
  apply sub_mid.
  - rewrite packed_length, length_take. apply lookup_lt_Some in H. lia.
  - rewrite Hcode. done.
Qed.

Context (fn : list Z -> outcome bool) (p : A -> bool).

Lemma fixed_loop_run l : forall fuel i j,
  (forall n x, l !! n = Some x -> fn (code x) = Ret (p x)) ->
  (forall n m x y, (n <= m)%nat -> l !! n = Some x -> l !! m = Some y -> p x = true -> p y = true) ->
  (j - i < fuel)%nat -> (i <= j)%nat -> (j < length l)%nat ->
  (forall n x, (n < i)%nat -> l !! n = Some x -> p x = false) ->
  (forall x, (j < length l - 1)%nat -> l !! j = Some x -> p x = true) ->
  exists r, fixed_loop fuel (concat (code <$> l)) (Z.of_nat w) fn (Z.of_nat (w * i)) (Z.of_nat (w * j)) = Ret (Z.of_nat (w * r)) /\
    (r < length l)%nat /\ (forall n x, (n < r)%nat -> l !! n = Some x -> p x = false) /\
    (forall x, (r < length l - 1)%nat -> l !! r = Some x -> p x = true).
Proof.
  intros fuel i j Hfn Hmono. revert i j. induction fuel as [|fuel IH]; intros i j Hf Hij Hj Hlow Hhigh; [lia|].
  cbn [fixed_loop]. destruct (Z.ltb_spec (Z.of_nat (w * i)) (Z.of_nat (w * j))) as [Hlt|Hge].
  2: { assert (i = j) as -> by nia. by exists j. }
  assert (i < j)%nat by nia. set (h := ((i + j) / 2)%nat).
  assert (Hh : (Z.of_nat (w * i) + Z.of_nat (w * j)) / 2 - ((Z.of_nat (w * i) + Z.of_nat (w * j)) / 2) mod Z.of_nat w = Z.of_nat (w * h)).
  { rewrite <- Nat2Z.inj_add, <- Nat.mul_add_distr_l. set (n := (i + j)%nat) in *.
    rewrite (Z.mod_eq _ (Z.of_nat w)) by lia.
    replace (Z.of_nat (w * n) / 2 / Z.of_nat w) with (Z.of_nat h); [lia|].
    rewrite Z.div_div by lia. rewrite (Z.mul_comm 2), <- Z.div_div by lia. rewrite Nat2Z.inj_mul, (Z.mul_comm (Z.of_nat w)), Z.div_mul by lia.
    unfold h. by rewrite Nat2Z.inj_div. }
  rewrite Hh. assert (i <= h < j)%nat as [Hih Hhj].
  { unfold h. split; [apply Nat.div_le_lower_bound; lia|apply Nat.Div0.div_lt_upper_bound; lia]. }
  destruct (lookup_lt_is_Some_2 l h) as [x Hx]; [lia|]. rewrite (packed_sub l h x Hx). cbn [obind]. rewrite (Hfn _ _ Hx). cbn [obind].
  destruct (p x) eqn:Ep; cbn [negb].
  - apply IH; try lia; [done|]. intros y _ Hy. by simplify_eq.
  - replace (Z.of_nat (w * h) + Z.of_nat w) with (Z.of_nat (w * S h)) by lia.
    apply IH; try lia; [|done]. intros n y Hn Hy. destruct (p y) eqn:E; [|done]. by rewrite (Hmono n h y x) in Ep by (done || lia).
Qed.

(** The search returns the first position on which the predicate holds, or
    the last position. *)
Lemma SearchBytesFixed_run l : l <> [] ->
  (forall n x, l !! n = Some x -> fn (code x) = Ret (p x)) ->
  (forall n m x y, (n <= m)%nat -> l !! n = Some x -> l !! m = Some y -> p x = true -> p y = true) ->
  exists r, SearchBytesFixed (concat (code <$> l)) (Z.of_nat w) fn = Ret (Z.of_nat (w * r)) /\
    (r < length l)%nat /\ (forall n x, (n < r)%nat -> l !! n = Some x -> p x = false) /\
    (forall x, (r < length l - 1)%nat -> l !! r = Some x -> p x = true).
Proof.
  intros Hne Hfn Hmono. unfold SearchBytesFixed. rewrite packed_length.
  assert (Z.of_nat (w * length l) mod Z.of_nat w = 0) as -> by (rewrite Nat2Z.inj_mul, Z.mul_comm; apply Z.mod_mul; lia).
  cbn [Z.eqb negb].
  destruct l as [|x0 l0] eqn:El; [done|]. rewrite <- El in *.
  assert (length l = S (length l0)) by by rewrite El.
  replace (Z.of_nat (w * length l) - Z.of_nat w) with (Z.of_nat (w * (length l - 1))) by nia.
  replace 0 with (Z.of_nat (w * 0)) by lia.
  apply fixed_loop_run; try done; try nia; try lia.
Qed.
End Packed.

(** ** Packing *)

Section Pack.
Context (w : nat) (Hw : (0 < w)%nat) (val : Z).
Definition group (g : list Z) : Prop := length g = w.
(** The first byte decides. *)
Definition starts (stop : Z -> bool) (g : list Z) : bool := match g with v :: _ => stop v | [] => false end.

Fixpoint span (stop : Z -> bool) (l : list (list Z)) : list (list Z) * list (list Z) :=
  match l with
  | [] => ([], [])
  | g :: l' => if starts stop g then ([], l) else let '(x, y) := span stop l' in (g :: x, y)
  end.
Lemma span_app stop l : (span stop l).1 ++ (span stop l).2 = l.
Proof. induction l as [|g l IH]; [done|]. cbn. destruct (starts stop g); [done|]. destruct (span stop l). cbn in *. by rewrite IH. Qed.
Lemma span_skipped stop l : Forall (fun g => starts stop g = false) (span stop l).1.
Proof.
  induction l as [|g l IH]; [constructor|]. cbn. destruct (starts stop g) eqn:E; [constructor|]. destruct (span stop l). by constructor.
Qed.
Lemma span_head stop l g l' : (span stop l).2 = g :: l' -> starts stop g = true.
Proof.
  induction l as [|g0 l IH]; [done|]. cbn. destruct (starts stop g0) eqn:E; [by intros [= <- <-]|]. by destruct (span stop l).
Qed.

Lemma groups_length l : Forall group l -> length (concat l) = (w * length l)%nat.
Proof. induction 1 as [|g l Hg _ IH]; cbn [concat length]; [lia|]. rewrite length_app, Hg, IH. lia. Qed.
Lemma span_groups stop l : Forall group l -> Forall group (span stop l).1 /\ Forall group (span stop l).2.
Proof. intros H. rewrite <- (span_app stop l) in H. by apply Forall_app in H. Qed.

Lemma scan_run stop l : forall fuel pre, Forall group l -> (length l <= fuel)%nat ->
  scan fuel (pre ++ concat l) (Z.of_nat w) stop (len pre) = len (pre ++ concat (span stop l).1).
Proof.
  induction l as [|g l IH]; intros fuel pre Hl Hf.
  - cbn [concat span fst]. destruct fuel; cbn [scan]; rewrite app_nil_r; [done|]. by rewrite Nat2Z.id, lookup_ge_None_2 by lia.
  - destruct fuel as [|fuel]; [cbn in Hf; lia|]. cbn [scan]. inversion Hl as [|? ? Hg Hl']; subst. unfold group in Hg. destruct g as [|v g]; [cbn in Hg; lia|].
    cbn [concat]. change ((v :: g) ++ concat l) with (v :: (g ++ concat l)).
    rewrite Nat2Z.id, list_lookup_middle by done. cbn [span starts].
    destruct (stop v) eqn:Es; [cbn [fst concat]; by rewrite app_nil_r|].
    specialize (IH fuel (pre ++ v :: g) Hl' ltac:(cbn in Hf; lia)). rewrite <- app_assoc in IH. cbn [app] in IH.
    replace (len pre + Z.of_nat w) with (len (pre ++ v :: g)) by (rewrite length_app, Hg; lia). rewrite IH.
    destruct (span stop l) as [x y]. cbn [fst concat]. by rewrite <- app_assoc.
Qed.

Definition kept (g : list Z) : bool := negb (starts (fun v => v =? val) g).

Lemma starts_negb g : group g -> starts (fun v => negb (v =? val)) g = kept g.
Proof. destruct g; [unfold group; cbn; lia|done]. Qed.
Lemma filter_span_gap l : Forall group l -> filter kept l = filter kept (span (fun v => negb (v =? val)) l).2.
Proof.
  intros Hl. rewrite <- (span_app (fun v => negb (v =? val)) l) at 1. rewrite filter_app.
  replace (filter kept (span _ l).1) with (@nil (list Z)); [done|]. destruct (span_groups (fun v => negb (v =? val)) l Hl) as [H _].
  pose proof (span_skipped (fun v => negb (v =? val)) l) as Hs. induction H as [|g x Hg _ IH]; [done|].
  inversion Hs; subst. rewrite filter_cons, <- starts_negb by done.
  destruct (decide _) as [Hd|]; [|by apply IH]. by rewrite H1 in Hd.
Qed.
Lemma filter_span_run l : filter kept l = (span (fun v => v =? val) l).1 ++ filter kept (span (fun v => v =? val) l).2.
Proof.
  rewrite <- (span_app (fun v => v =? val) l) at 1. rewrite filter_app. f_equal.
  pose proof (span_skipped (fun v => v =? val) l) as Hs. induction Hs as [|g x Hg _ IH]; [done|].
  rewrite filter_cons. destruct (decide _) as [|Hd]; [by rewrite IH|]. exfalso. apply Hd. unfold kept. by rewrite Hg.
Qed.

Lemma pack_loop_run : forall fuel l kp junk, Forall group l -> (length l < fuel)%nat ->
  exists a' e, pack_loop fuel (kp ++ junk ++ concat l) (Z.of_nat w) val (len (kp ++ junk)) (len kp) = Ret (a', e) /\
    e = len (kp ++ concat (filter kept l)) /\ exists post, a' = (kp ++ concat (filter kept l)) ++ post.
Proof.
  induction fuel as [|fuel IH]; intros l kp junk Hl Hf; [lia|]. cbn [pack_loop].
  destruct (Z.ltb_spec (len (kp ++ junk)) (len (kp ++ junk ++ concat l))) as [Hlt|Hge].
  2: { destruct l as [|g l]; [|exfalso; rewrite !length_app, (groups_length (g :: l)) in Hge by done; cbn [length] in Hge; nia].
       do 2 eexists. split; [done|]. cbn [concat filter list_filter]. rewrite !app_nil_r. split; [done|]. by exists junk. }
  set (stop1 := fun v => negb (v =? val)). set (stop2 := fun v => v =? val).
  destruct (span_groups stop1 l Hl) as [Hg1 Hg2].
  assert (Hlen : (length l <= length (kp ++ junk ++ concat l))%nat) by (rewrite !length_app, (groups_length l) by done; nia).
  assert (Hne : (0 < length (kp ++ junk ++ concat l))%nat) by lia.
  rewrite (app_assoc kp junk (concat l)) in *.
  rewrite (scan_run stop1) by done.
  destruct (span stop1 l) as [gap rest] eqn:Es. cbn [fst snd] in *.
  assert (El : l = gap ++ rest) by (by rewrite <- (span_app stop1 l), Es).
  assert (Hfl : filter kept l = filter kept rest) by (rewrite (filter_span_gap l Hl); fold stop1; by rewrite Es).
  rewrite El, concat_app. rewrite (app_assoc (kp ++ junk) (concat gap)). set (pre := (kp ++ junk) ++ concat gap) in *.
  rewrite (scan_run stop2) by (try done; rewrite length_app, (groups_length rest) by done; nia).
  destruct (Z.eqb_spec (len pre) (len (pre ++ concat rest))) as [He|Hn].
  { assert (rest = []) as ->. { destruct rest as [|g rest]; [done|]. exfalso. rewrite length_app, (groups_length (g :: rest)) in He by done.
      cbn [length] in He. nia. }
    do 2 eexists. split; [done|]. rewrite <- El, Hfl. cbn [concat filter list_filter]. rewrite !app_nil_r. split; [done|].
    exists (junk ++ concat gap). unfold pre. by rewrite <- app_assoc. }
  destruct (span_groups stop2 rest Hg2) as [Hr1 Hr2]. pose proof (filter_span_run rest) as Hfr. fold stop2 in Hfr.
  pose proof (span_app stop2 rest) as Hra. destruct (span stop2 rest) as [run rest'] eqn:Er. cbn [fst snd] in *.
  assert (Hrun : run <> []).
  { intros ->. cbn in Hra. subst rest'. destruct rest as [|g rest]; [cbn [concat] in Hn; rewrite app_nil_r in Hn; done|].
    pose proof (span_head stop1 l g rest ltac:(by rewrite Es)) as H1. pose proof (span_head stop2 (g :: rest) g rest ltac:(by rewrite Er)) as H2.
    unfold stop1, stop2 in *. destruct g; cbn in H1, H2; [done|]. by rewrite H2 in H1. }
  rewrite <- Hra, concat_app. rewrite (sub_mid pre (concat run)) by (rewrite ?length_app; lia). cbn [obind].
  assert (Hc : exists junk', copy_at (pre ++ concat run ++ concat rest') (len kp) (concat run) = (kp ++ concat run) ++ junk' ++ concat rest' /\
                 length junk' = length (junk ++ concat gap)).
  { exists (drop (length (concat run)) ((junk ++ concat gap) ++ concat run)). split; [|rewrite length_drop, !length_app; lia].
    unfold copy_at, pre. rewrite Nat2Z.id, <- !app_assoc, take_app_length. f_equal.
    rewrite (take_ge (concat run)) by (rewrite !length_app; lia). f_equal.
    rewrite <- drop_drop, drop_app_length. rewrite !app_assoc. rewrite drop_app_le by (rewrite !length_app; lia). done. }
  destruct Hc as (junk' & -> & Hj). rewrite Hra.
  destruct (IH rest' (kp ++ concat run) junk' Hr2) as (a' & e & E & He & post & Ha).
  { rewrite El, <- Hra, !length_app in Hf. destruct run; [done|]. cbn [length] in Hf. lia. }
  replace (len (pre ++ concat run)) with (len ((kp ++ concat run) ++ junk')) by (unfold pre; rewrite !length_app, Hj, !length_app; lia).
  replace (len kp + _) with (len (kp ++ concat run)) by (unfold pre; rewrite !length_app, Hj, !length_app; lia).
  exists a', e. split; [exact E|]. rewrite <- El, Hfl, Hfr, concat_app, app_assoc. split; [done|]. by exists post.
Qed.

Lemma Pack_run l : Forall group l -> Pack (concat l) (Z.of_nat w) val = Ret (concat (filter kept l)).
Proof.
  intros Hl. unfold Pack. set (stop2 := fun v => v =? val).
  assert (Hlen : (length l <= length (concat l))%nat) by (rewrite groups_length by done; nia).
  pose proof (scan_run stop2 l (length (concat l)) [] Hl Hlen) as Hs. cbn [app length] in Hs. change (Z.of_nat 0) with 0 in Hs. rewrite Hs.
  destruct (span_groups stop2 l Hl) as [_ Hg]. pose proof (span_app stop2 l) as Ha. pose proof (filter_span_run l) as Hfr. fold stop2 in Hfr.
  destruct (span stop2 l) as [run rest] eqn:Es. cbn [fst snd] in *.
  destruct (pack_loop_run (S (length (concat l))) rest (concat run) [] Hg) as (a' & e & E & -> & post & ->).
  { rewrite <- Ha in Hlen. rewrite length_app in Hlen. rewrite <- Ha. lia. }
  rewrite app_nil_r in E. cbn [app] in E. rewrite <- concat_app, Ha in E. rewrite E. cbn [obind].
  rewrite sub_head by done. by rewrite <- concat_app, <- Hfr.
Qed.
End Pack.

(** ** The representation of an index

    [L] lists the series that are not deleted, each with its offset. *)

Abbreviation entry_series := (Z * series)%type.
Definition skey' (x : entry_series) : list Z := skey x.2.
Definition offset_code (x : entry_series) : list Z := be_put 4 x.1.

(** The times of a series lie between the first start and the last end. *)
Definition first_time (s : series) : Z := match head (sents s) with Some e => MinTime e | None => 0 end.
Definition last_time (s : series) : Z := match last (sents s) with Some e => MaxTime e | None => 0 end.
Definition in_span (s : series) (t : Z) : Prop := first_time s <= t <= last_time s.

Record repr (d : indirectIndex) (L : list entry_series) : Prop := {
  rp_offsets : offsets d = concat (offset_code <$> L);
  rp_located : Forall (fun x => wf_series x.2 /\ located (b d) x.1 x.2) L;
  rp_small : len (b d) < 2 ^ 31;
  rp_sorted : StronglySorted (fun x y => klt (skey' x) (skey' y)) L;
  rp_keys : Forall (fun x => bytes_le (minKey d) (skey' x) /\ bytes_le (skey' x) (maxKey d)) L;
  rp_times : Forall (fun x => minTime d <= first_time x.2 /\ last_time x.2 <= maxTime d) L }.

Lemma offset_code_length x : length (offset_code x) = 4%nat.
Proof. apply be_put_length. Qed.

Section Repr.
Context (d : indirectIndex) (L : list entry_series) (H : repr d L).

Lemma repr_at n x : L !! n = Some x -> wf_series x.2 /\ located (b d) x.1 x.2 /\ 0 <= x.1 < 2 ^ 31.
Proof.
  intros Hn. pose proof (rp_located _ _ H) as Hl. rewrite Forall_lookup in Hl. destruct (Hl n x Hn) as [Hw Hx].
  split_and!; [done|done|..]; pose proof (located_bound _ _ _ Hx); pose proof (rp_small _ _ H); lia.
Qed.
Lemma repr_elem x : x ∈ L -> wf_series x.2 /\ located (b d) x.1 x.2 /\ 0 <= x.1 < 2 ^ 31.
Proof. intros [n Hn]%list_elem_of_lookup_1. by eapply repr_at. Qed.

Lemma repr_lt n m x y : L !! n = Some x -> L !! m = Some y -> (n < m)%nat -> klt (skey' x) (skey' y).
Proof.
  intros Hx Hy Hnm. pose proof (rp_sorted _ _ H) as Hs. clear H. revert n m Hx Hy Hnm.
  induction Hs as [|z L' _ IH Hz]; intros n m Hx Hy Hnm; [done|]. rewrite Forall_lookup in Hz.
  destruct m as [|m]; [lia|]. destruct n as [|n]; cbn in Hx, Hy; [simplify_eq; by eapply Hz|]. eapply IH; [done..|lia].
Qed.
Lemma repr_inj n m x y : L !! n = Some x -> L !! m = Some y -> skey' x = skey' y -> n = m.
Proof.
  intros Hx Hy E. destruct (lt_eq_lt_dec n m) as [[Hl| ->]|Hl]; [|done|].
  - pose proof (repr_lt n m x y Hx Hy Hl) as Hk. rewrite E in Hk. by apply klt_irrefl in Hk.
  - pose proof (repr_lt m n y x Hy Hx Hl) as Hk. rewrite E in Hk. by apply klt_irrefl in Hk.
Qed.

Lemma repr_get_offset n x : L !! n = Some x -> be_get (offset_code x) = x.1.
Proof. intros Hn. destruct (repr_at n x Hn) as (_ & _ & Ho). unfold offset_code. apply be_get_put_small. cbn. lia. Qed.

Lemma key_at_least_run k n x : L !! n = Some x ->
  key_at_least d k (offset_code x) = Ret (match Compare (skey' x) k with Lt => false | _ => true end).
Proof.
  intros Hn. destruct (repr_at n x Hn) as (Hw & Hl & Ho). unfold key_at_least. rewrite (repr_get_offset n x Hn).
  pose proof (located_bound _ _ _ Hl) as Hb. pose proof (rp_small _ _ H) as Hsm.
  rewrite (i32_small x.1) by lia. rewrite (i32_small (x.1 + 2)) by lia.
  destruct Hl as (pre & post & Eb & Eo). rewrite Eb. unfold enc_series. rewrite <- !app_assoc.
  rewrite (sub_mid pre (be_put 2 _)) by (rewrite ?be_put_length; lia). cbn [obind].
  destruct Hw as (Hk & _). unfold maxKeyLength in Hk. rewrite be_get_put_small by (cbn; lia).
  rewrite (i32_small (len _)) by lia. rewrite i32_small by lia.
  rewrite (app_assoc pre). rewrite (sub_mid (pre ++ be_put 2 _) (skey x.2)) by (rewrite ?length_app, ?be_put_length; lia). done.
Qed.

(** Where the searches stop: the keys before are less, and the key there is
    not unless it is the last one. *)
Lemma search_stops k : L <> [] -> exists r x,
  SearchBytesFixed (offsets d) 4 (key_at_least d k) = Ret (Z.of_nat (4 * r)) /\ L !! r = Some x /\
  (forall n y, (n < r)%nat -> L !! n = Some y -> klt (skey' y) k) /\
  ((r < length L - 1)%nat -> bytes_le k (skey' x)).
Proof.
  intros Hne. rewrite (rp_offsets _ _ H). set (p := fun x => match Compare (skey' x) k with Lt => false | _ => true end).
  destruct (SearchBytesFixed_run offset_code 4 ltac:(lia) offset_code_length (key_at_least d k) p L Hne) as (r & E & Hr & Hlow & Hhigh).
  - intros n x Hn. by rewrite (key_at_least_run k n x Hn).
  - intros n m x y Hnm Hx Hy. unfold p. destruct (decide (n = m)) as [->|]; [by simplify_eq|].
    pose proof (repr_lt n m x y Hx Hy ltac:(lia)) as Hlt. intros Hp. destruct (Compare (skey' y) k) eqn:E; [done| |done].
    pose proof (klt_trans _ _ _ Hlt E) as E'. unfold klt in E'. by rewrite E' in Hp.
  - destruct (lookup_lt_is_Some_2 L r Hr) as [x Hx]. exists r, x. split_and!; [done|done|..].
    + intros n y Hn Hy. specialize (Hlow n y Hn Hy). unfold p in Hlow. unfold klt. by destruct (Compare (skey' y) k).
    + intros Hr'. specialize (Hhigh x Hr' Hx). unfold p in Hhigh. apply not_klt. unfold klt. by destruct (Compare (skey' x) k).
Qed.

Lemma search_finds k n x : L !! n = Some x -> skey' x = k ->
  SearchBytesFixed (offsets d) 4 (key_at_least d k) = Ret (Z.of_nat (4 * n)).
Proof.
  intros Hx Ek. destruct (search_stops k) as (r & y & -> & Hy & Hlow & Hhigh); [by intros E; rewrite E in Hx|].
  replace r with n; [done|]. destruct (lt_eq_lt_dec n r) as [[Hl| ->]|Hl]; [|done|]; exfalso.
  - specialize (Hlow n x Hl Hx). rewrite Ek in Hlow. by apply klt_irrefl in Hlow.
  - pose proof (repr_lt r n y x Hy Hx Hl) as Hlt. rewrite Ek in Hlt. apply lookup_lt_Some in Hx.
    apply (not_klt (skey' y) k); [|done]. apply Hhigh. lia.
Qed.

Lemma offsets_length : length (offsets d) = (4 * length L)%nat.
Proof. rewrite (rp_offsets _ _ H). apply (packed_length offset_code 4); [lia|apply offset_code_length]. Qed.

Lemma offsets_sub n x : L !! n = Some x -> sub (offsets d) (Z.of_nat (4 * n)) (Z.of_nat (4 * n) + 4) = Ret (offset_code x).
Proof. intros Hn. rewrite (rp_offsets _ _ H). apply (packed_sub offset_code 4 ltac:(lia) offset_code_length L n x Hn). Qed.

Lemma ContainsKey_run x : x ∈ L -> ContainsKey d (skey' x) = true.
Proof.
  intros Hx. pose proof (rp_keys _ _ H) as Hk. rewrite Forall_forall in Hk. destruct (Hk x Hx) as [H1 H2].
  unfold ContainsKey. apply andb_true_intro. split.
  - apply not_klt in H1. unfold klt in H1. by destruct (Compare (skey' x) (minKey d)).
  - unfold bytes_le in H2. by destruct (Compare (skey' x) (maxKey d)).
Qed.

(** [search] on a key that is there and on one that is not. *)
Lemma search_hit x : x ∈ L -> search d (skey' x) = Ret x.1.
Proof.
  intros Hx. unfold search. rewrite (ContainsKey_run x Hx). cbn [negb].
  destruct (list_elem_of_lookup_1 _ _ Hx) as [n Hn]. rewrite (search_finds _ n x Hn eq_refl). cbn [obind].
  rewrite offsets_length. apply lookup_lt_Some in Hn as Hlt. rewrite (proj2 (Z.ltb_lt _ _)) by lia.
  rewrite (offsets_sub n x Hn). cbn [obind]. rewrite (repr_get_offset n x Hn).
  destruct (repr_at n x Hn) as (Hw & Hl & _). destruct (located_from _ _ _ Hl) as [post E]. rewrite E. cbn [obind].
  rewrite readKey_enc by done. cbn [obind]. unfold Equal. by rewrite bool_decide_eq_true_2 by done.
Qed.

Lemma search_miss k : (forall x, x ∈ L -> skey' x <> k) -> search d k = Ret (len (b d)).
Proof.
  intros Hk. unfold search. destruct (ContainsKey d k); cbn [negb]; [|done].
  destruct (decide (L = [])) as [EL|EL].
  { rewrite (rp_offsets _ _ H), EL. done. }
  destruct (search_stops k EL) as (r & x & -> & Hx & _). cbn [obind].
  rewrite offsets_length. apply lookup_lt_Some in Hx as Hlt. rewrite (proj2 (Z.ltb_lt _ _)) by lia.
  rewrite (offsets_sub r x Hx). cbn [obind]. rewrite (repr_get_offset r x Hx).
  destruct (repr_at r x Hx) as (Hw & Hl & _). destruct (located_from _ _ _ Hl) as [post E]. rewrite E. cbn [obind].
  rewrite readKey_enc by done. cbn [obind]. unfold Equal. rewrite bool_decide_eq_false_2; [done|].
  intros ->. apply (Hk x); [|done]. by apply list_elem_of_lookup_2 with r.
Qed.

Lemma readEntriesAt_run x : x ∈ L -> readEntriesAt d x.1 = Ret (skey' x, sents x.2).
Proof.
  intros Hx. destruct (repr_elem x Hx) as (Hw & Hl & _). unfold readEntriesAt.
  destruct (located_from _ _ _ Hl) as [post ->]. cbn [obind]. rewrite readKey_enc by done. cbn [obind].
  destruct (located_tail _ _ _ Hw Hl) as [post' ->]. cbn [obind]. destruct Hw as (_ & _ & Hn & He).
  destruct (readEntries_enc (stype x.2) (sents x.2) post' He Hn) as [n ->]. done.
Qed.
End Repr.
End TsmIndexSpec.
