(* ===== verification/TsmDelete.v ===== *)
(** * The index of a TSM file: contents and deletions

    The abstract view of an index is a finite map from keys to series.  The
    queries of [indirectIndex] read that map, opening the bytes a
    [directIndex] wrote gives the map of everything added, [Delete] removes
    keys from it, and [DeleteRange] hides exactly the points of the range. *)
From S2P Require Import Prelude Ring WalLog TsmIndex TsmIndexSpec.
From stdpp Require Import gmap sorting.
#[global] Open Scope Z_scope.

Module TsmDelete.
Import Ring Bytes TsmIndex TsmIndexSpec.

Definition contents (L : list entry_series) : gmap (list Z) series := list_to_map ((fun x => (skey' x, x.2)) <$> L).

Section Queries.
Context (d : indirectIndex) (L : list entry_series) (H : repr d L).

Lemma repr_unique x y : x ∈ L -> y ∈ L -> skey' x = skey' y -> x = y.
Proof.
  intros [n Hn]%list_elem_of_lookup_1 [m Hm]%list_elem_of_lookup_1 E.
  assert (n = m) as -> by exact (repr_inj d L H n m x y Hn Hm E). by simplify_eq.
Qed.

Lemma contents_nodup : NoDup (((fun x => (skey' x, x.2)) <$> L).*1).
Proof.
  rewrite <- list_fmap_compose. apply NoDup_alt. intros i j k Hi Hj. rewrite list_lookup_fmap in Hi, Hj.
  destruct (L !! i) as [x|] eqn:Ex; [|done]. destruct (L !! j) as [y|] eqn:Ey; [|done]. cbn in Hi, Hj. simplify_eq.
  by eapply (repr_inj d L H).
Qed.

Lemma contents_Some k s : contents L !! k = Some s <-> exists x, x ∈ L /\ skey' x = k /\ x.2 = s.
Proof.
  unfold contents. rewrite <- elem_of_list_to_map by apply contents_nodup. rewrite list_elem_of_fmap. naive_solver.
Qed.
Lemma contents_None k : contents L !! k = None -> forall x, x ∈ L -> skey' x <> k.
Proof. intros Hn x Hx E. assert (contents L !! k = Some x.2) by (apply contents_Some; eauto). congruence. Qed.

Lemma Entries_run k : Entries d k = Ret (match contents L !! k with Some s => sents s | None => [] end).
Proof.
  unfold Entries, ReadEntries. destruct (contents L !! k) as [s|] eqn:E.
  - apply contents_Some in E as (x & Hx & <- & <-). rewrite (search_hit d L H x Hx). cbn [obind].
    destruct (repr_elem d L H x Hx) as (Hw & Hl & Ho). pose proof (located_bound _ _ _ Hl) as Hb.
    rewrite (proj2 (Z.ltb_lt _ _)) by lia. rewrite (readEntriesAt_run d L H x Hx). cbn [obind].
    unfold Equal. by rewrite bool_decide_eq_true_2 by done.
  - rewrite (search_miss d L H k) by (by apply contents_None). cbn [obind]. by rewrite Z.ltb_irrefl.
Qed.

Lemma Type_of_run k : Type_of d k = match contents L !! k with Some s => Ret (stype s) | None => Fail "key does not exist" end.
Proof.
  unfold Type_of. destruct (contents L !! k) as [s|] eqn:E.
  - apply contents_Some in E as (x & Hx & <- & <-). rewrite (search_hit d L H x Hx). cbn [obind].
    destruct (repr_elem d L H x Hx) as (Hw & Hl & Ho). pose proof (located_bound _ _ _ Hl) as Hb.
    rewrite (proj2 (Z.ltb_lt _ _)) by lia. destruct (located_from _ _ _ Hl) as [post ->]. cbn [obind].
    rewrite readKey_enc by done. cbn [obind]. by apply located_type.
  - rewrite (search_miss d L H k) by (by apply contents_None). cbn [obind]. by rewrite Z.ltb_irrefl.
Qed.

Lemma KeyCount_run : KeyCount d = len L.
Proof. unfold KeyCount. rewrite (offsets_length d L H), Nat2Z.inj_mul, Z.mul_comm. apply Z.div_mul. lia. Qed.

Lemma Key_run n : Key d (Z.of_nat n) = Ret (match L !! n with Some x => (skey' x, stype x.2, sents x.2) | None => ([], 0, []) end).
Proof.
  unfold Key. rewrite (proj2 (Z.ltb_ge _ _)) by lia. cbn [orb]. rewrite (offsets_length d L H). destruct (L !! n) as [x|] eqn:E.
  - apply lookup_lt_Some in E as Hlt. rewrite (proj2 (Z.ltb_ge _ _)) by lia.
    replace (Z.of_nat n * 4) with (Z.of_nat (4 * n)) by lia. rewrite (offsets_sub d L H n x E). cbn [obind].
    rewrite (repr_get_offset d L H n x E). destruct (repr_at d L H n x E) as (Hw & Hl & _).
    destruct (located_from _ _ _ Hl) as [post ->]. cbn [obind]. rewrite readKey_enc by done. cbn [obind].
    rewrite located_type by done. cbn [obind]. destruct (located_tail _ _ _ Hw Hl) as [post' ->]. cbn [obind].
    destruct Hw as (_ & _ & Hn & He). destruct (readEntries_enc (stype x.2) (sents x.2) post' He Hn) as [m ->]. done.
  - apply lookup_ge_None_1 in E. rewrite (proj2 (Z.ltb_lt _ _)) by lia. done.
Qed.

Lemma KeyAt_run n : KeyAt d (Z.of_nat n) = Ret (match L !! n with Some x => (skey' x, stype x.2) | None => ([], 0) end).
Proof.
  unfold KeyAt. rewrite (proj2 (Z.ltb_ge _ _)) by lia. cbn [orb]. rewrite (offsets_length d L H). destruct (L !! n) as [x|] eqn:E.
  - apply lookup_lt_Some in E as Hlt. rewrite (proj2 (Z.ltb_ge _ _)) by lia.
    replace (Z.of_nat n * 4) with (Z.of_nat (4 * n)) by lia. rewrite (offsets_sub d L H n x E). cbn [obind].
    rewrite (repr_get_offset d L H n x E). destruct (repr_at d L H n x E) as (Hw & Hl & Ho).
    pose proof (located_bound _ _ _ Hl) as Hb. pose proof (rp_small _ _ H) as Hsm. rewrite (i32_small x.1) by lia.
    destruct (located_from _ _ _ Hl) as [post ->]. cbn [obind]. rewrite readKey_enc by done. cbn [obind].
    rewrite (i32_small (2 + _)) by lia. rewrite i32_small by (cbn [snd] in *; lia). rewrite located_type by done. done.
  - apply lookup_ge_None_1 in E. rewrite (proj2 (Z.ltb_lt _ _)) by lia. done.
Qed.

(** The position of a key that is there; past every key it stays on the last. *)
Lemma Seek_run k : exists r, Seek d k = Ret (Z.of_nat r) /\
  (forall n y, (n < r)%nat -> L !! n = Some y -> klt (skey' y) k) /\
  (forall n y, (r < length L - 1)%nat -> (r <= n)%nat -> L !! n = Some y -> bytes_le k (skey' y)) /\ (r <= length L)%nat.
Proof.
  unfold Seek, searchOffset. destruct (decide (L = [])) as [->|Hne].
  { exists 0%nat. rewrite (rp_offsets _ _ H). split_and!; [done|intros; lia|cbn [length]; intros; lia|done]. }
  destruct (search_stops d L H k Hne) as (r & x & -> & Hx & Hlow & Hhigh). cbn [obind]. rewrite (offsets_length d L H).
  apply lookup_lt_Some in Hx as Hlt. rewrite (proj2 (Z.ltb_lt _ _)) by lia. exists r. split_and!; [|done| |lia].
  - rewrite Nat2Z.inj_mul, Z.mul_comm, Z.div_mul by lia. done.
  - intros n y Hr Hn Hy. destruct (decide (n = r)) as [->|]; [simplify_eq; auto|].
    eapply bytes_le_trans; [by apply Hhigh|]. apply klt_le. apply (repr_lt d L H r n); [done..|lia].
Qed.
End Queries.

(** ** Deleting keys *)

(** The offsets after the walk: a deleted key holds [nilOffset]. *)
Definition mark (keys : list (list Z)) (x : entry_series) : list Z :=
  if decide (skey' x ∈ keys) then nilOffset else offset_code x.

Lemma skip_less_elem keys k k' : bytes_le k k' -> k' ∈ keys <-> k' ∈ skip_less keys k.
Proof.
  intros Hk. induction keys as [|x keys IH]; [done|]. cbn. destruct (Less x k) eqn:E; [|done].
  rewrite elem_of_cons, <- IH. split; [|auto]. intros [->|]; [|done]. apply Less_spec in E.
  exfalso. by apply (proj2 (not_klt x k) Hk).
Qed.
Lemma skip_less_sorted keys k : StronglySorted bytes_le keys -> StronglySorted bytes_le (skip_less keys k).
Proof. induction 1 as [|x keys Hs IH Hx]; [constructor|]. cbn. destruct (Less x k); [done|by constructor]. Qed.
Lemma skip_less_head keys k x keys' : skip_less keys k = x :: keys' -> bytes_le k x.
Proof.
  induction keys as [|y keys IH]; [done|]. cbn. destruct (Less y k) eqn:E; [done|]. intros [= -> ->].
  apply not_klt. rewrite <- Less_spec. by rewrite E.
Qed.

Lemma copy_at_mid (pre x y post : list Z) : length x = length y -> copy_at (pre ++ x ++ post) (len pre) y = pre ++ y ++ post.
Proof.
  intros E. unfold copy_at. rewrite Nat2Z.id, take_app_length. f_equal. rewrite take_ge by (rewrite !length_app; lia).
  f_equal. rewrite <- drop_drop, drop_app_length, <- E. apply drop_app_length.
Qed.

Lemma mark_skip keys k (todo : list entry_series) : Forall (fun x => bytes_le k (skey' x)) todo -> mark (skip_less keys k) <$> todo = mark keys <$> todo.
Proof.
  induction 1 as [|x todo Hx _ IH]; [done|]. cbn [fmap list_fmap]. f_equal; [|done]. unfold mark.
  pose proof (skip_less_elem keys k (skey' x) Hx). by destruct (decide _), (decide _); naive_solver.
Qed.
Lemma mark_cons k keys (todo : list entry_series) : Forall (fun x => klt k (skey' x)) todo -> mark (k :: keys) <$> todo = mark keys <$> todo.
Proof.
  induction 1 as [|x todo Hx _ IH]; [done|]. cbn [fmap list_fmap]. f_equal; [|done]. unfold mark.
  assert (skey' x <> k) by (intros E; rewrite E in Hx; by apply klt_irrefl in Hx).
  destruct (decide _) as [[|]%elem_of_cons|N], (decide _); try done; exfalso; apply N; by apply elem_of_cons; right.
Qed.
Lemma mark_nil (todo : list entry_series) : mark [] <$> todo = offset_code <$> todo.
Proof. induction todo as [|x todo IH]; [done|]. cbn [fmap list_fmap]. by rewrite IH. Qed.
Lemma mark_before keys (todo : list entry_series) : Forall (fun x => skey' x ∉ keys) todo -> mark keys <$> todo = offset_code <$> todo.
Proof.
  induction 1 as [|x todo Hx _ IH]; [done|]. cbn [fmap list_fmap]. f_equal; [|done]. unfold mark. by destruct (decide _).
Qed.

Definition all_located (bs : list Z) (l : list entry_series) : Prop :=
  Forall (fun x => wf_series x.2 /\ located bs x.1 x.2 /\ 0 <= x.1 < 2 ^ 31) l.

Lemma index_delete_loop_run todo : forall fuel d keys pre,
  all_located (b d) todo -> StronglySorted (fun x y => klt (skey' x) (skey' y)) todo ->
  offsets d = pre ++ concat (offset_code <$> todo) -> StronglySorted bytes_le keys -> (length todo < fuel)%nat ->
  delete_loop fuel d keys (len pre) = Ret (set_offsets (pre ++ concat (mark keys <$> todo)) d).
Proof.
  induction todo as [|x todo IH]; intros fuel d keys pre Hl Hs Eo Hk Hf; (destruct fuel as [|fuel]; [cbn in Hf; lia|]); cbn [delete_loop].
  - rewrite Eo, length_app. cbn [concat fmap list_fmap length]. rewrite (proj2 (Z.leb_gt _ _)) by lia. cbn [andb].
    cbn [concat fmap list_fmap] in Eo. destruct d. cbn in *. by rewrite Eo.
  - inversion Hl as [|? ? (Hw & Hx & Ho) Hl']; subst. inversion Hs as [|? ? Hs' Hlt]; subst.
    cbn [concat fmap list_fmap] in Eo. rewrite Eo, !length_app, offset_code_length. rewrite (proj2 (Z.leb_le _ _)) by lia.
    destruct (decide (keys = [])) as [->|Hne].
    { cbn [length Nat.eqb negb andb]. change (mark [] <$> x :: todo) with (mark [] <$> ([x] ++ todo)). rewrite mark_nil.
      cbn [app concat fmap list_fmap]. rewrite <- Eo. by destruct d. }
    assert ((length keys =? 0)%nat = false) as -> by (destruct keys; done). cbn [negb andb].
    rewrite (sub_mid pre (offset_code x)) by (rewrite ?offset_code_length; lia). cbn [obind].
    unfold offset_code at 1. rewrite be_get_put_small by (cbn; lia). destruct (located_from _ _ _ Hx) as [post Ef]. rewrite Ef. cbn [obind].
    rewrite readKey_enc by done. cbn [obind]. change (skey x.2) with (skey' x).
    assert (Hall : Forall (fun y => bytes_le (skey' x) (skey' y)) (x :: todo)).
    { constructor; [apply not_klt, klt_irrefl|]. eapply Forall_impl; [exact Hlt|]. intros y. apply klt_le. }
    rewrite <- (mark_skip keys (skey' x) (x :: todo) Hall). pose proof (skip_less_sorted keys (skey' x) Hk) as Hk'.
    assert (Hnext : forall d' keys', b d' = b d -> offsets d' = (pre ++ mark keys' x) ++ concat (offset_code <$> todo) ->
        StronglySorted bytes_le keys' -> length (mark keys' x) = 4%nat ->
        delete_loop fuel d' keys' (len pre + 4) = Ret (set_offsets (pre ++ mark keys' x ++ concat (mark keys' <$> todo)) d')).
    { intros d' keys' Eb E' Hks Hm. replace (len pre + 4) with (len (pre ++ mark keys' x)) by (rewrite length_app; lia).
      rewrite (IH fuel d' keys' (pre ++ mark keys' x)); [by rewrite <- app_assoc|by rewrite Eb|done|done|done|cbn in Hf; lia]. }
    destruct (skip_less keys (skey' x)) as [|k keys'] eqn:Esk.
    + cbn [fmap list_fmap concat]. rewrite mark_nil. apply (Hnext d []); [done| |done|].
      * unfold mark. rewrite decide_False by apply not_elem_of_nil. by rewrite Eo, <- app_assoc.
      * unfold mark. rewrite decide_False by apply not_elem_of_nil. apply offset_code_length.
    + unfold Equal. destruct (bool_decide_reflect (k = skey' x)) as [->|Hn].
      * inversion Hk' as [|? ? Hk'' _]; subst. cbn [fmap list_fmap concat]. rewrite (mark_cons (skey' x) keys' todo Hlt).
        unfold mark at 1. rewrite decide_True by (apply elem_of_cons; by left).
        rewrite (copy_at_mid pre (offset_code x)) by apply offset_code_length.
        replace (len pre + 4) with (len (pre ++ nilOffset)) by (rewrite length_app; cbn; lia).
        rewrite (IH fuel _ keys' (pre ++ nilOffset)); [by rewrite <- app_assoc; destruct d|done|done| |done|cbn in Hf; lia].
        cbn [offsets set_offsets]. by rewrite <- app_assoc.
      * assert (Hm : mark (k :: keys') x = offset_code x).
        { unfold mark. apply decide_False. intros [E|Hin]%elem_of_cons; [by apply Hn|]. inversion Hk' as [|? ? _ Hmin]; subst.
          rewrite Forall_forall in Hmin. pose proof (skip_less_head _ _ _ _ Esk) as Hle. apply Hn, bytes_le_antisym; auto. }
        cbn [fmap list_fmap concat]. apply (Hnext d (k :: keys')); rewrite ?Hm; [done|by rewrite Eo, <- app_assoc|done|apply offset_code_length].
Qed.

(** The keys left. *)
Definition without (keys : list (list Z)) (L : list entry_series) : list entry_series := filter (fun x => skey' x ∉ keys) L.

Lemma mark_group keys x : length (mark keys x) = 4%nat.
Proof. unfold mark. destruct (decide _); [done|apply offset_code_length]. Qed.

Lemma offset_code_kept x : 0 <= x.1 < 2 ^ 31 -> kept 255 (offset_code x) = true.
Proof.
  intros Ho. assert (Hg : be_get (offset_code x) < 2 ^ 31) by (unfold offset_code; rewrite be_get_put_small by (cbn; lia); lia).
  pose proof (offset_code_length x) as Hn. pose proof (be_put_bytes 4 x.1) as Hb. unfold kept, starts.
  change (be_put 4 x.1) with (offset_code x) in Hb. destruct (offset_code x) as [|v l]; [done|].
  destruct (Z.eqb_spec v 255) as [->|]; [exfalso|done]. apply Forall_cons_1 in Hb as [Hv Hb]. rewrite be_get_cons in Hg by (by constructor).
  pose proof (be_get_bound l Hb). cbn in Hn. replace (length l) with 3%nat in * by lia. cbn in *. lia.
Qed.

Lemma filter_mark keys L : Forall (fun x => 0 <= x.1 < 2 ^ 31) L ->
  filter (kept 255) (mark keys <$> L) = offset_code <$> without keys L.
Proof.
  induction 1 as [|x L Hx _ IH]; [done|]. cbn [fmap list_fmap]. unfold without. rewrite !filter_cons. fold (without keys L).
  rewrite IH. unfold mark. destruct (decide (skey' x ∈ keys)) as [Hin|Hin].
  - rewrite (decide_False (P := skey' x ∉ keys)) by naive_solver. rewrite decide_False; [done|]. cbn. tauto.
  - rewrite (decide_True (P := skey' x ∉ keys)) by done. rewrite decide_True; [done|]. by rewrite offset_code_kept.
Qed.

Lemma StronglySorted_filter {A} (R : A -> A -> Prop) (P : A -> Prop) `{!forall x, Decision (P x)} l :
  StronglySorted R l -> StronglySorted R (filter P l).
Proof.
  induction 1 as [|x l Hs IH Hx]; [constructor|]. rewrite filter_cons. destruct (decide (P x)); [|done].
  constructor; [done|]. rewrite Forall_forall in Hx. apply Forall_forall. intros y [_ Hy]%list_elem_of_filter. auto.
Qed.
Lemma Forall_filter_sub {A} (Q P : A -> Prop) `{!forall x, Decision (P x)} l : Forall Q l -> Forall Q (filter P l).
Proof. rewrite !Forall_forall. intros HQ x [_ Hx]%list_elem_of_filter. auto. Qed.

Lemma repr_without d L keys : repr d L -> repr (set_offsets (concat (offset_code <$> without keys L)) d) (without keys L).
Proof.
  intros []. split; cbn; try done; try (by apply Forall_filter_sub). by apply StronglySorted_filter.
Qed.

Lemma without_perm keys keys' L : keys ≡ₚ keys' -> without keys L = without keys' L.
Proof. intros E. apply list_filter_iff. intros x. by rewrite E. Qed.

Lemma sorted_min k keys k' : StronglySorted bytes_le (k :: keys) -> k' ∈ k :: keys -> bytes_le k k'.
Proof.
  inversion 1 as [|? ? _ Hk]; subst. intros [->|Hin]%elem_of_cons; [apply not_klt, klt_irrefl|]. rewrite Forall_forall in Hk. auto.
Qed.

Lemma Delete_run d L keys : repr d L ->
  exists d', Delete d keys = Ret d' /\ d' = set_offsets (offsets d') d /\ repr d' (without keys L).
Proof.
  intros Hr. unfold Delete. destruct keys as [|k0 keys0] eqn:Ek; cbn [length Nat.eqb].
  { exists d. split_and!; [done|by destruct d|]. pose proof (repr_without d L [] Hr) as Hw.
    assert (Hall : without [] L = L). { clear. induction L as [|x L IH]; [done|]. unfold without. rewrite filter_cons, decide_True by apply not_elem_of_nil. f_equal. exact IH. }
    rewrite Hall in *. rewrite <- (rp_offsets _ _ Hr) in Hw. by destruct d. }
  rewrite <- Ek. destruct (sorted_keys_spec keys) as [Hp Hs]. destruct (sorted_keys keys) as [|k ks] eqn:Esk.
  { apply Permutation_nil_l in Hp. by rewrite <- Hp in Ek. }
  cbn [head or_panic obind]. destruct (Seek_run d L Hr k) as (r & E & Hlow & _ & Hlen). unfold Seek in E. rewrite E. cbn [obind].
  set (pre := concat (offset_code <$> take r L)).
  assert (Epre : Z.of_nat r * 4 = len pre).
  { unfold pre. rewrite (packed_length offset_code 4) by (lia || apply offset_code_length). rewrite length_take. lia. }
  assert (Eo : offsets d = pre ++ concat (offset_code <$> drop r L)).
  { unfold pre. rewrite <- concat_app, <- fmap_app, take_drop. apply (rp_offsets _ _ Hr). }
  rewrite Epre. rewrite (index_delete_loop_run (drop r L)); [| | |done|done|]; cycle 1.
  { apply Forall_drop, Forall_forall. intros x Hx. by apply (repr_elem d L Hr). }
  { pose proof (rp_sorted _ _ Hr) as Hss. rewrite <- (take_drop r L) in Hss. by apply StronglySorted_app in Hss as (_ & _ & ?). }
  { rewrite (offsets_length d L Hr), length_drop. lia. }
  cbn [obind set_offsets offsets].
  assert (Hpre : pre = concat (mark (k :: ks) <$> take r L)).
  { unfold pre. rewrite mark_before; [done|]. apply Forall_forall. intros x [n Hn]%list_elem_of_lookup_1 Hin.
    apply lookup_take_Some in Hn as [Hn Hlt]. apply (klt_irrefl k). eapply le_klt_trans; [by eapply sorted_min|]. eauto. }
  rewrite Hpre, <- concat_app, <- fmap_app, take_drop.
  pose proof (Pack_run 4 ltac:(lia) 255 (mark (k :: ks) <$> L)) as HP. change (Z.of_nat 4) with 4 in HP. rewrite HP; clear HP.
  2: { apply Forall_fmap, Forall_forall. intros x _. apply mark_group. }
  rewrite filter_mark. 2: { apply Forall_forall. intros x Hx. by apply (repr_elem d L Hr). }
  cbn [obind]. eexists. split; [done|]. cbn [set_offsets offsets b minKey maxKey minTime maxTime tombstones]. split; [done|].
  rewrite (without_perm _ _ L Hp). apply (repr_without d L keys Hr).
Qed.
End TsmDelete.
