(* ===== verification/TsmDeleteRange.v ===== *)
(** * The index of a TSM file: deleting time ranges

    [DeleteRange] removes a key whose points are all deleted, by one range or
    by the ranges of several calls together, and records a tombstone
    otherwise.  Either way a point of the file is hidden exactly when some
    call named its key and a range that holds it. *)
From S2P Require Import Prelude Ring WalLog TsmIndex TsmIndexSpec TsmDelete.
From stdpp Require Import gmap sorting.
#[global] Open Scope Z_scope.

Module TsmDeleteRange.
Import Ring Bytes TsmIndex TsmIndexSpec TsmDelete.

Definition covered (t : Z) (l : list TimeRange) : bool := existsb (covers t) l.
Definition in_range (lo hi t : Z) : bool := (lo <=? t) && (t <=? hi).
Definition wf_range (r : TimeRange) : Prop := is_i64 (Min r) /\ is_i64 (Max r).
Definition wf_tombstones (m : gmap (list Z) (list TimeRange)) : Prop := map_Forall (fun _ l => Forall wf_range l) m.

Lemma covered_app t l1 l2 : covered t (l1 ++ l2) = covered t l1 || covered t l2.
Proof. apply existsb_app. Qed.
Lemma covered_perm t l1 l2 : l1 ≡ₚ l2 -> covered t l1 = covered t l2.
Proof.
  intros E. apply eq_true_iff_eq. unfold covered. rewrite !existsb_exists. split; intros (x & Hx & Hc); exists x; (split; [|done]);
  apply list_elem_of_In; apply list_elem_of_In in Hx; [by rewrite <- E|by rewrite E].
Qed.
Lemma covers_iff t r : covers t r = true <-> Min r <= t <= Max r.
Proof. unfold covers. rewrite andb_true_iff, !Z.leb_le. done. Qed.
Lemma covered_cons_true t r l : covered t (r :: l) = true <-> Min r <= t <= Max r \/ covered t l = true.
Proof. cbn. by rewrite orb_true_iff, covers_iff. Qed.

#[local] Instance range_le_total : Total range_le.
Proof. intros [a1 a2] [b1 b2]. unfold range_le. cbn. lia. Qed.
#[local] Instance range_le_trans : Transitive range_le.
Proof. intros [a1 a2] [b1 b2] [c1 c2]. unfold range_le. cbn. lia. Qed.
Lemma sort_ranges_perm l : sort_ranges l ≡ₚ l.
Proof. apply merge_sort_Permutation. Qed.
Lemma sort_ranges_sorted l : StronglySorted range_le (sort_ranges l).
Proof. apply (StronglySorted_merge_sort range_le). Qed.

(** Every point of the window lies in one of the tombstones. *)
Lemma window_covered l : forall prev mn mx seen,
  StronglySorted range_le (prev :: l) -> Forall wf_range (prev :: l) -> mn <= Min prev -> Max prev <= mx ->
  (forall t, mn <= t <= mx -> covered t seen = true) ->
  forall t, (window prev l mn mx).1 <= t <= (window prev l mn mx).2 -> covered t (seen ++ l) = true.
Proof.
  induction l as [|ts l IH]; intros prev mn mx seen Hs Hw Hmn Hmx Hc t Ht; cbn [window] in Ht.
  { rewrite app_nil_r. by apply Hc. }
  destruct (negb _ && negb _) eqn:Egap; [cbn in Ht; lia|].
  inversion Hs as [|? ? Hs' Hle]; subst. apply Forall_cons_1 in Hle as [Hle _]. apply Forall_cons_1 in Hw as [Hp Hw].
  pose proof (Forall_cons_1 _ _ _ Hw) as [Hts _]. unfold range_le in Hle.
  rewrite (proj2 (Z.ltb_ge (Min ts) mn)) in Ht by lia. rewrite cons_middle, app_assoc.
  refine (IH ts _ _ (seen ++ [ts]) Hs' Hw _ _ _ t Ht); [lia|destruct (Z.ltb_spec mx (Max ts)); lia|].
  clear t Ht. intros t Ht. rewrite covered_app, orb_true_iff, covered_cons_true.
  destruct (decide (t <= mx)) as [Hin|Hout]; [left; apply Hc; lia|]. right; left.
  destruct (Z.ltb_spec mx (Max ts)); [|lia]. split; [|lia]. unfold wf_range, Range_Overlaps in *. revert Egap.
  destruct (Z.eqb_spec (Max prev) (i64 (Min ts - 1))) as [E|]; intros Egap.
  - destruct (decide (Min ts = - 2 ^ 63)) as [E'|]; [unint; lia|]. rewrite i64_id in E by (unint; lia). lia.
  - destruct (Z.leb_spec (Min ts) (Max prev)); [lia|]. by rewrite andb_false_r in Egap.
Qed.

Lemma tombstone_window_covered l : l <> [] -> Forall wf_range l -> exists mn mx, tombstone_window (sort_ranges l) = Ret (mn, mx) /\
  forall t, mn <= t <= mx -> covered t l = true.
Proof.
  intros Hne Hw. pose proof (sort_ranges_perm l) as Hp. pose proof (sort_ranges_sorted l) as Hs.
  assert (Hw' : Forall wf_range (sort_ranges l)) by by rewrite Hp.
  destruct (sort_ranges l) as [|r l'] eqn:E; [by apply Permutation_nil_l in Hp|].
  cbn [tombstone_window]. destruct (window r l' (Min r) (Max r)) as [mn mx] eqn:Ew. exists mn, mx. split; [done|]. intros t Ht.
  rewrite <- (covered_perm t _ _ Hp). apply (window_covered l' r (Min r) (Max r) [r]); [done|done|lia|lia| |by rewrite Ew].
  intros t' Ht'. rewrite covered_cons_true. by left.
Qed.

(** ** The walk over the keys *)

(** The tombstones of a key when those of [ts] replace those of the index. *)
Definition tombs (d : indirectIndex) (ts : gmap (list Z) (list TimeRange)) (k : list Z) : list TimeRange :=
  default (TombstoneRange d k) (ts !! k).

(** What the walk owes one series: its key is given up only when nothing of it
    is left, and otherwise its tombstones gain exactly the range. *)
Definition settled (d : indirectIndex) (keys : list (list Z)) (lo hi : Z) (F : list (list Z)) ts (x : entry_series) : Prop :=
  (skey' x ∈ F -> skey' x ∈ keys /\ forall t, in_span x.2 t -> in_range lo hi t || covered t (TombstoneRange d (skey' x)) = true) /\
  (skey' x ∉ F -> forall t, in_span x.2 t ->
    covered t (tombs d ts (skey' x)) = covered t (TombstoneRange d (skey' x)) || bool_decide (skey' x ∈ keys) && in_range lo hi t).

Lemma settled_keys d keys keys' lo hi F ts x : (skey' x ∈ keys <-> skey' x ∈ keys') -> settled d keys lo hi F ts x -> settled d keys' lo hi F ts x.
Proof.
  intros Hk [H1 H2]. split; [rewrite <- Hk; exact H1|]. intros HF t Ht. rewrite (H2 HF t Ht). do 2 f_equal. by apply bool_decide_ext.
Qed.
Lemma settled_other d keys lo hi F F' ts ts' x : (skey' x ∈ F <-> skey' x ∈ F') -> ts !! skey' x = ts' !! skey' x ->
  settled d keys lo hi F ts x -> settled d keys lo hi F' ts' x.
Proof. intros HF Hts [H1 H2]. split; [rewrite <- HF; exact H1|]. unfold tombs in *. rewrite <- HF, <- Hts. exact H2. Qed.

Lemma span_head_last s : wf_series s -> exists e0 e1, head (sents s) = Some e0 /\ last (sents s) = Some e1 /\ wf_entry e0 /\ wf_entry e1 /\
  first_time s = MinTime e0 /\ last_time s = MaxTime e1.
Proof.
  intros (_ & Hne & _ & He). unfold first_time, last_time. destruct (sents s) as [|e0 es] eqn:Es; [done|].
  destruct (last (e0 :: es)) as [e1|] eqn:El; [|by apply last_None in El]. exists e0, e1. rewrite Forall_forall in He.
  split_and!; try done; apply He; [apply elem_of_cons; by left|by apply last_Some_elem_of].
Qed.

(** The walk over [todo] gave up the keys [F] and turned [ts] into [ts']. *)
Record walked (d : indirectIndex) (keys : list (list Z)) (lo hi : Z) (todo : list entry_series) (F : list (list Z))
    (ts ts' : gmap (list Z) (list TimeRange)) : Prop := {
  wk_settled : Forall (settled d keys lo hi F ts') todo;
  wk_given : forall k, k ∈ F -> exists x, x ∈ todo /\ skey' x = k;
  wk_frame : forall k, (forall x, x ∈ todo -> skey' x <> k) -> ts' !! k = ts !! k;
  wk_wf : wf_tombstones ts -> wf_tombstones ts' }.

Lemma settled_skip d keys lo hi ts x : skey' x ∉ keys -> ts !! skey' x = None -> settled d keys lo hi [] ts x.
Proof.
  intros Hk Hts. split; [by intros ?%elem_of_nil|]. intros _ t _. unfold tombs. rewrite Hts. cbn [default].
  rewrite bool_decide_eq_false_2 by done. by rewrite orb_false_r.
Qed.

Lemma walked_none d keys lo hi todo ts : Forall (fun x => skey' x ∉ keys) todo -> (forall x, x ∈ todo -> ts !! skey' x = None) ->
  walked d keys lo hi todo [] ts ts.
Proof.
  intros Hk Hts. split; [|by intros k ?%elem_of_nil|done|done]. rewrite Forall_forall in *. intros x Hx. apply settled_skip; auto.
Qed.

Lemma walked_cons d keys keys2 lo hi x todo Fx F ts ts1 ts' :
  Forall (fun y => klt (skey' x) (skey' y)) todo -> Forall (fun y => skey' y ∈ keys <-> skey' y ∈ keys2) todo ->
  settled d keys lo hi Fx ts1 x -> (forall k, k ∈ Fx -> k = skey' x) -> (forall k, k <> skey' x -> ts1 !! k = ts !! k) ->
  (wf_tombstones ts -> wf_tombstones ts1) -> walked d keys2 lo hi todo F ts1 ts' ->
  walked d keys lo hi (x :: todo) (Fx ++ F) ts ts'.
Proof.
  intros Hlt Hk Hx HFx Hts1 Hwf [W1 W2 W3 W4]. rewrite Forall_forall in Hlt, Hk, W1.
  assert (Hne : forall y, y ∈ todo -> skey' y <> skey' x).
  { intros y Hy E. specialize (Hlt y Hy). rewrite E in Hlt. by apply klt_irrefl in Hlt. }
  assert (HxF : skey' x ∉ F) by (intros (y & Hy & E)%W2; by apply (Hne y)).
  split.
  - constructor.
    + apply (settled_other d keys lo hi Fx _ ts1); [rewrite elem_of_app; tauto| |done]. by rewrite W3.
    + apply Forall_forall. intros y Hy. apply (settled_keys d keys2); [by rewrite Hk|].
      apply (settled_other d keys2 lo hi F _ ts'); [|done|auto]. rewrite elem_of_app. split; [auto|]. intros [?%HFx|]; [|done].
      by destruct (Hne y).
  - intros k [->%HFx|(y & Hy & <-)%W2]%elem_of_app; [exists x|exists y]; (split; [|done]); apply elem_of_cons; auto.
  - intros k Hkk. rewrite W3, Hts1; [done| |].
    + intros ->. apply (Hkk x); [apply elem_of_cons; by left|done].
    + intros y Hy. apply Hkk. apply elem_of_cons; by right.
  - auto.
Qed.

Lemma offset_run d L n (x : entry_series) : repr d L -> L !! n = Some x -> offset d (Z.of_nat n) = Ret x.1.
Proof.
  intros Hr Hn. apply lookup_lt_Some in Hn as Hlt. unfold offset. rewrite (offsets_length d L Hr).
  rewrite (proj2 (Z.ltb_ge (Z.of_nat n) 0)), (proj2 (Z.ltb_ge (Z.of_nat (4 * length L)) _)) by lia. cbn [orb].
  replace (Z.of_nat n * 4) with (Z.of_nat (4 * n)) by lia. rewrite (offsets_sub d L Hr n x Hn). cbn [obind].
  by rewrite (repr_get_offset d L Hr n x Hn).
Qed.

Section Walk.
Context (d : indirectIndex) (L : list entry_series) (Hr : repr d L) (Htw : wf_tombstones (tombstones d)).
Context (lo hi : Z) (Hlo : is_i64 lo) (Hhi : is_i64 hi).

Lemma TombstoneRange_wf k : Forall wf_range (TombstoneRange d k).
Proof. unfold TombstoneRange. destruct (tombstones d !! k) eqn:E; [|constructor]. by apply (Htw k). Qed.

(** The tombstone of one series. *)
Lemma settled_tombstone keys x ts : x ∈ L -> skey' x ∈ keys -> ts !! skey' x = None ->
  let newTs := sort_ranges (TombstoneRange d (skey' x) ++ [MkRange lo hi]) in
  exists mn mx, tombstone_window newTs = Ret (mn, mx) /\
    settled d keys lo hi (if (mn <=? first_time x.2) && (last_time x.2 <=? mx) then [skey' x] else []) (<[skey' x := newTs]> ts) x /\
    (wf_tombstones ts -> wf_tombstones (<[skey' x := newTs]> ts)).
Proof.
  intros Hx Hk Hts newTs. unfold newTs. clear newTs. set (l := TombstoneRange d (skey' x) ++ [MkRange lo hi]).
  assert (Hw : Forall wf_range l) by (apply Forall_app; split; [apply TombstoneRange_wf|constructor; [done|constructor]]).
  destruct (tombstone_window_covered l) as (mn & mx & E & Hc); [by unfold l; destruct (TombstoneRange d (skey' x))|done|].
  assert (Hl : forall t, covered t l = covered t (TombstoneRange d (skey' x)) || in_range lo hi t).
  { intros t. unfold l. rewrite covered_app. f_equal. cbn. by rewrite orb_false_r. }
  exists mn, mx. split_and!; [done| |].
  - split.
    + destruct (_ && _) eqn:Ew; [|by intros ?%elem_of_nil]. apply andb_prop in Ew as [E1%Z.leb_le E2%Z.leb_le]. intros _. split; [done|].
      intros t [Ht1 Ht2]. rewrite orb_comm, <- Hl. apply Hc. lia.
    + intros _ t _. unfold tombs. rewrite lookup_insert_eq. change (default _ (Some ?a)) with a. rewrite (covered_perm t _ _ (sort_ranges_perm l)), Hl.
      by rewrite bool_decide_eq_true_2 by done.
  - intros Hwt. apply map_Forall_insert_2; [|done]. by rewrite (sort_ranges_perm l).
Qed.

Lemma range_loop_run todo : forall fuel done keys full ts,
  L = done ++ todo -> StronglySorted bytes_le keys -> (length todo < fuel)%nat -> (forall x, x ∈ todo -> ts !! skey' x = None) ->
  exists F ts', range_loop fuel d keys lo hi (len done) full ts = Ret (full ++ F, ts') /\ walked d keys lo hi todo F ts ts'.
Proof.
  induction todo as [|x todo IH]; intros fuel done keys full ts EL Hk Hf Hts; (destruct fuel as [|fuel]; [cbn in Hf; lia|]); cbn [range_loop].
  { rewrite (KeyCount_run d L Hr), EL, app_nil_r, Z.ltb_irrefl, andb_false_r. exists [], ts. rewrite app_nil_r. split; [done|].
    by apply walked_none. }
  destruct (decide (keys = [])) as [->|Hne].
  { cbn [length Nat.eqb negb andb]. exists [], ts. rewrite app_nil_r. split; [done|]. apply walked_none; [|done].
    apply Forall_forall. intros y _. apply not_elem_of_nil. }
  assert ((length keys =? 0)%nat = false) as -> by (by destruct keys). cbn [negb andb].
  assert (Hn : L !! length done = Some x) by (by rewrite EL, list_lookup_middle).
  assert (Hx : x ∈ L) by (by apply list_elem_of_lookup_2 with (length done)).
  rewrite (KeyCount_run d L Hr), (proj2 (Z.ltb_lt _ _)) by (rewrite EL, length_app; cbn [length]; lia).
  rewrite (offset_run d L _ x Hr Hn). cbn [obind]. rewrite (readEntriesAt_run d L Hr x Hx). cbn [obind].
  assert (Hlt : Forall (fun y => klt (skey' x) (skey' y)) todo).
  { pose proof (rp_sorted _ _ Hr) as Hs. rewrite EL in Hs. apply StronglySorted_app in Hs as (_ & _ & Hs). by inversion Hs. }
  pose proof (fun k' => skip_less_elem keys (skey' x) k') as Hmem. pose proof (skip_less_sorted keys (skey' x) Hk) as Hk'.
  assert (Hsame : Forall (fun y => skey' y ∈ keys <-> skey' y ∈ skip_less keys (skey' x)) todo).
  { eapply Forall_impl; [exact Hlt|]. intros y Hy. apply Hmem, klt_le, Hy. }
  assert (Hself : skey' x ∈ keys <-> skey' x ∈ skip_less keys (skey' x)) by (apply Hmem, not_klt, klt_irrefl).
  assert (Hnext : forall keys2 full2 ts1, StronglySorted bytes_le keys2 -> (forall k, k <> skey' x -> ts1 !! k = ts !! k) ->
     exists F ts', range_loop fuel d keys2 lo hi (len done + 1) full2 ts1 = Ret (full2 ++ F, ts') /\ walked d keys2 lo hi todo F ts1 ts').
  { intros keys2 full2 ts1 H1 H2. replace (len done + 1) with (len (done ++ [x])) by (rewrite length_app; cbn; lia).
    apply IH; [by rewrite <- app_assoc|done|cbn in Hf; lia|]. intros y Hy. rewrite H2; [apply Hts, elem_of_cons; by right|].
    rewrite Forall_forall in Hlt. intros E. specialize (Hlt y Hy). rewrite E in Hlt. by apply klt_irrefl in Hlt. }
  assert (Htsx : ts !! skey' x = None) by (apply Hts, elem_of_cons; by left).
  destruct (skip_less keys (skey' x)) as [|k0 keys'] eqn:Esk.
  { exists [], ts. rewrite app_nil_r. split; [done|]. apply walked_none; [|done]. constructor; [rewrite Hself; apply not_elem_of_nil|].
    eapply Forall_impl; [exact Hsame|]. cbn. intros y ->. apply not_elem_of_nil. }
  pose proof (skip_less_head _ _ _ _ Esk) as Hle.
  destruct (Compare k0 (skey' x)) eqn:Ec; [|exfalso; by apply not_klt in Hle|].
  2: { destruct (Hnext (k0 :: keys') full ts Hk' ltac:(done)) as (F & ts' & E & Hwk). exists F, ts'. split; [done|].
       change F with ([] ++ F). eapply walked_cons; [done|exact Hsame| |by intros k ?%elem_of_nil|done|done|done].
       apply settled_skip; [|done]. rewrite Hself. intros Hin. apply (klt_irrefl k0). apply Compare_Gt in Ec.
       eapply le_klt_trans; [|exact Ec]. by eapply sorted_min. }
  apply Compare_Eq in Ec as ->.
  assert (Hin : skey' x ∈ keys) by (rewrite Hself; apply elem_of_cons; by left).
  assert (Hk'' : StronglySorted bytes_le keys') by (by inversion Hk').
  assert (Hsame' : Forall (fun y => skey' y ∈ keys <-> skey' y ∈ keys') todo).
  { rewrite Forall_forall in Hsame |- *. rewrite Forall_forall in Hlt. intros y Hy. rewrite (Hsame y Hy), elem_of_cons. split; [|auto].
    intros [E|]; [|done]. specialize (Hlt y Hy). rewrite E in Hlt. by apply klt_irrefl in Hlt. }
  destruct (repr_elem d L Hr x Hx) as (Hw & _). destruct (span_head_last x.2 Hw) as (e0 & e1 & -> & -> & _ & _ & E0 & E1).
  rewrite <- E0, <- E1.
  destruct ((last_time x.2 <? lo) || (hi <? first_time x.2)) eqn:Eout.
  { destruct (Hnext (skey' x :: keys') full ts Hk' ltac:(done)) as (F & ts' & E & Hwk). exists F, ts'. split; [done|].
    change F with ([] ++ F). eapply walked_cons; [done|exact Hsame| |by intros k ?%elem_of_nil|done|done|done].
    split; [by intros ?%elem_of_nil|]. intros _ t [Ht1 Ht2]. unfold tombs, in_range. rewrite Htsx. cbn [default].
    assert ((lo <=? t) && (t <=? hi) = false) as ->; [|by rewrite andb_false_r, orb_false_r].
    apply orb_prop in Eout as [H1%Z.ltb_lt|H1%Z.ltb_lt]; apply andb_false_iff; [left|right]; apply Z.leb_gt; lia. }
  destruct ((lo <=? first_time x.2) && (last_time x.2 <=? hi)) eqn:Efull.
  { destruct (Hnext keys' (full ++ [skey' x]) ts Hk'' ltac:(done)) as (F & ts' & E & Hwk). exists ([skey' x] ++ F), ts'.
    split; [by rewrite app_assoc|].
    eapply walked_cons; [done|exact Hsame'| |by intros k ->%list_elem_of_singleton|done|done|done].
    split; [intros _; split; [done|]|intros Hno; by destruct Hno; apply list_elem_of_singleton].
    intros t [Ht1 Ht2]. apply andb_prop in Efull as [H1%Z.leb_le H2%Z.leb_le]. unfold in_range.
    rewrite (proj2 (Z.leb_le lo t)), (proj2 (Z.leb_le t hi)) by lia. done. }
  destruct (settled_tombstone keys x ts Hx Hin Htsx) as (mn & mx & Ew & Hset & Hwf). rewrite Htsx.
  change (default [] (tombstones d !! skey' x) ++ default [] None ++ [MkRange lo hi]) with (TombstoneRange d (skey' x) ++ [MkRange lo hi]).
  set (newTs := sort_ranges _) in *. rewrite Ew. cbn [obind].
  assert (Hins : forall k, k <> skey' x -> <[skey' x := newTs]> ts !! k = ts !! k) by (intros k ?; by apply lookup_insert_ne).
  destruct ((mn <=? first_time x.2) && (last_time x.2 <=? mx)).
  - destruct (Hnext keys' (full ++ [skey' x]) _ Hk'' Hins) as (F & ts' & E & Hwk). exists ([skey' x] ++ F), ts'.
    split; [by rewrite app_assoc|].
    eapply walked_cons; [done|exact Hsame'|exact Hset|by intros k ->%list_elem_of_singleton|exact Hins|exact Hwf|done].
  - destruct (Hnext (skey' x :: keys') full _ Hk' Hins) as (F & ts' & E & Hwk). exists F, ts'. split; [done|].
    change F with ([] ++ F). eapply walked_cons; [done|exact Hsame|exact Hset|by intros k ?%elem_of_nil|exact Hins|exact Hwf|done].
Qed.
End Walk.

(** ** The points left *)

(** The key is in the index and no tombstone hides the time. *)
Definition alive (d : indirectIndex) (L : list entry_series) (k : list Z) (t : Z) : Prop :=
  (exists x, x ∈ L /\ skey' x = k) /\ covered t (TombstoneRange d k) = false.

(** The index after an operation, as far as the operation keeps it. *)
Record kept_index (d d' : indirectIndex) (L L' : list entry_series) : Prop := {
  ki_repr : repr d' L';
  ki_tombs : wf_tombstones (tombstones d');
  ki_bytes : b d' = b d;
  ki_sub : forall x, x ∈ L' -> x ∈ L }.

Lemma without_elem keys L x : x ∈ without keys L <-> (skey' x ∉ keys) /\ x ∈ L.
Proof. unfold without. by rewrite list_elem_of_filter. Qed.

Lemma repr_tombstones d L ts : repr d L -> repr (set_tombstones ts d) L.
Proof. intros []. by split. Qed.

Lemma without_key d L keys x : repr d L -> x ∈ L -> (exists y, y ∈ without keys L /\ skey' y = skey' x) <-> skey' x ∉ keys.
Proof.
  intros Hr Hx. split; [intros (y & [Hy _]%without_elem & E); by rewrite <- E|]. intros Hk. exists x. by rewrite without_elem.
Qed.

Lemma in_span_i64 s t : wf_series s -> in_span s t -> is_i64 t.
Proof.
  intros Hw [H1 H2]. destruct (span_head_last s Hw) as (e0 & e1 & _ & _ & (W0 & _) & (_ & W1 & _) & E0 & E1).
  rewrite E0 in H1. rewrite E1 in H2. unint. lia.
Qed.

Lemma Delete_alive d L keys : repr d L -> wf_tombstones (tombstones d) ->
  exists d', Delete d keys = Ret d' /\ kept_index d d' L (without keys L) /\ tombstones d' = tombstones d /\
    forall x t, x ∈ L -> alive d' (without keys L) (skey' x) t <-> alive d L (skey' x) t /\ skey' x ∉ keys.
Proof.
  intros Hr Ht. destruct (Delete_run d L keys Hr) as (d' & E & Ed & Hr'). exists d'.
  assert (Et : tombstones d' = tombstones d) by (by rewrite Ed). split_and!; [done| |done|].
  - split; [done|by rewrite Et|by rewrite Ed|]. intros x Hx. by apply without_elem in Hx as [_ ?].
  - intros x t Hx. unfold alive, TombstoneRange. rewrite Et, (without_key d L keys x Hr Hx). split; [|tauto].
    intros [Hk Hc]. split; [split; [by exists x|done]|done].
Qed.

Lemma tombs_union d ts d' k : tombstones d' = ts ∪ tombstones d -> TombstoneRange d' k = tombs d ts k.
Proof.
  intros E. unfold TombstoneRange, tombs. rewrite E. destruct (ts !! k) as [l|] eqn:El.
  - by rewrite (lookup_union_Some_l _ _ _ _ El).
  - rewrite lookup_union_r by done. done.
Qed.

(** A point that a deleted range holds is dead afterwards; every other point
    of the file is as it was. *)
Lemma DeleteRange_alive d L keys lo hi : repr d L -> wf_tombstones (tombstones d) -> is_i64 lo -> is_i64 hi ->
  exists d' L', DeleteRange d keys lo hi = Ret d' /\ kept_index d d' L L' /\
    forall x t, x ∈ L -> in_span x.2 t ->
      (alive d' L' (skey' x) t <-> alive d L (skey' x) t /\ ~ (skey' x ∈ keys /\ in_range lo hi t = true)).
Proof.
  intros Hr Ht Hlo Hhi. unfold DeleteRange.
  assert (Hsame : kept_index d d L L) by by split.
  destruct (decide (keys = [])) as [->|Hne].
  { exists d, L. split_and!; [done|done|]. intros x t Hx _. rewrite elem_of_nil. tauto. }
  assert ((length keys =? 0)%nat = false) as -> by (by destruct keys).
  destruct (sorted_keys_spec keys) as [Hp Hs]. set (ks := sorted_keys keys) in *.
  assert (Hks : forall k, k ∈ ks <-> k ∈ keys) by (intros k; by rewrite Hp).
  destruct ((lo =? - 2 ^ 63) && (hi =? 2 ^ 63 - 1)) eqn:Eall.
  { apply andb_prop in Eall as [->%Z.eqb_eq ->%Z.eqb_eq]. destruct (Delete_alive d L ks Hr Ht) as (d' & E & Hk & _ & Ha).
    exists d', (without ks L). split_and!; [done|done|]. intros x t Hx Hsp. rewrite (Ha x t Hx), Hks.
    destruct (repr_elem d L Hr x Hx) as (Hw & _). pose proof (in_span_i64 _ _ Hw Hsp) as Hi.
    assert (in_range (- 2 ^ 63) (2 ^ 63 - 1) t = true) as ->; [|tauto].
    unfold in_range. apply andb_true_intro. rewrite !Z.leb_le. unint. lia. }
  unfold TimeRange_. destruct ((maxTime d <? lo) || (hi <? minTime d)) eqn:Eout.
  { exists d, L. split_and!; [done|done|]. intros x t Hx [Ht1 Ht2]. pose proof (rp_times _ _ Hr) as Htm. rewrite Forall_forall in Htm.
    specialize (Htm x Hx). assert (in_range lo hi t = false) as ->; [|split; [intros; split; [done|naive_solver]|tauto]].
    unfold in_range. apply andb_false_iff. rewrite !Z.leb_gt. apply orb_prop in Eout as [H1%Z.ltb_lt|H1%Z.ltb_lt]; lia. }
  destruct (range_loop_run d L Hr Ht lo hi Hlo Hhi L (S (length (offsets d))) [] ks [] ∅) as (F & ts & E & [W1 W2 W3 W4]);
    [done|done|rewrite (offsets_length d L Hr); lia|intros; apply lookup_empty|].
  change (len []) with 0 in E. rewrite E. cbn [obind app].
  assert (Hd : exists d', (if (length F =? 0)%nat then Ret d else Delete d F) = Ret d' /\ kept_index d d' L (without F L) /\
     tombstones d' = tombstones d).
  { destruct F as [|k0 F0].
    - exists d. split_and!; [done| |done]. pose proof (Delete_alive d L [] Hr Ht) as (d1 & E1 & Hk1 & _). cbn in E1. by simplify_eq.
    - destruct (Delete_alive d L (k0 :: F0) Hr Ht) as (d1 & E1 & Hk1 & Ht1 & _). by exists d1. }
  destruct Hd as (d' & -> & [K1 K2 K3 K4] & Et). cbn [obind]. eexists _, (without F L). split; [done|]. split.
  - split; [by apply repr_tombstones| |done|done]. cbn [set_tombstones tombstones]. rewrite Et. apply map_Forall_union_2; [|done].
    apply W4. apply map_Forall_empty.
  - intros x t Hx Hsp. unfold alive. rewrite (without_key d L F x Hr Hx).
    rewrite (tombs_union d ts) by (cbn [set_tombstones tombstones]; by rewrite Et).
    rewrite Forall_forall in W1. destruct (W1 x Hx) as [S1 S2]. destruct (decide (skey' x ∈ F)) as [HF|HF].
    + split; [tauto|]. intros [[_ Hc] Hno]. destruct (S1 HF) as [Hk Hcov]. specialize (Hcov t Hsp). rewrite Hc, orb_false_r in Hcov.
      exfalso. apply Hno. by rewrite <- Hks.
    + rewrite (S2 HF t Hsp). rewrite orb_false_iff, andb_false_iff, bool_decide_eq_false, Hks. split.
      * intros (_ & Hc & Hn). split; [split; [by exists x|done]|]. intros [? Hin]. rewrite Hin in Hn. naive_solver.
      * intros ([_ Hc] & Hn). split_and!; [done|done|]. destruct (in_range lo hi t); [left; naive_solver|by right].
Qed.

(** Every block lies within the span of its series. *)
Definition spans (s : series) : Prop := Forall (fun e => first_time s <= MinTime e /\ MaxTime e <= last_time s) (sents s).

(** What [ContainsValue] answers. *)
Lemma ContainsValue_run d L k t : repr d L -> exists r, ContainsValue d k t = Ret r /\
  (r = true <-> exists x e, x ∈ L /\ skey' x = k /\ e ∈ sents x.2 /\ MinTime e <= t <= MaxTime e /\ alive d L k t).
Proof.
  intros Hr. unfold ContainsValue, Entry. rewrite (Entries_run d L Hr). cbn [obind]. destruct (contents L !! k) as [s|] eqn:E.
  - pose proof E as E'. apply (contents_Some d L Hr) in E' as (x & Hx & Hk & Hs).
    destruct (List.find (fun e => Entry_Contains e t) (sents s)) as [e|] eqn:Ef.
    + apply List.find_some in Ef as [He%list_elem_of_In Hc]. apply andb_prop in Hc as [H1%Z.leb_le H2%Z.leb_le].
      eexists. split; [done|]. fold (covered t (TombstoneRange d k)). destruct (covered t (TombstoneRange d k)) eqn:Ec; cbn [negb].
      * split; [done|]. intros (? & ? & _ & _ & _ & _ & _ & Hcov). congruence.
      * split; [intros _|done]. exists x, e. rewrite Hs. refine (conj Hx (conj Hk (conj He (conj (conj H1 H2) (conj _ Ec))))). by exists x.
    + exists false. split; [done|]. split; [done|]. intros (y & e & Hy & Hky & He & Hin & _).
      assert (y = x) as -> by (eapply (repr_unique d L Hr); congruence). rewrite Hs in He. apply list_elem_of_In in He.
      pose proof (List.find_none _ _ Ef e He) as Hc. unfold Entry_Contains in Hc. apply andb_false_iff in Hc. rewrite !Z.leb_gt in Hc. lia.
  - exists false. split; [done|]. split; [done|]. intros (y & e & Hy & Hky & _). destruct (contents_None d L Hr k E y Hy Hky).
Qed.
End TsmDeleteRange.
