(* ===== verification/TsmOpen.v ===== *)
(** * The index of a TSM file: building and opening

    The blocks of each series are added to a [directIndex] in key order; the
    bytes it marshals open as an [indirectIndex] that holds exactly those
    series.  Over the opened index, runs of deletions hide exactly the points
    they name. *)
From S2P Require Import Prelude Ring WalLog TsmIndex TsmIndexSpec TsmDelete TsmDeleteRange.
From stdpp Require Import gmap sorting.
#[global] Open Scope Z_scope.

Module TsmOpen.
Import Ring Bytes TsmIndex TsmIndexSpec TsmDelete TsmDeleteRange.

Definition encode (l : list series) : list Z := concat (enc_series <$> l).

(** The series with the offsets their encodings start at. *)
Fixpoint layout (o : Z) (l : list series) : list entry_series :=
  match l with
  | [] => []
  | s :: l => (o, s) :: layout (o + len (enc_series s)) l
  end.

(** The series a writer can put into one index. *)
Record index_ok (l : list series) : Prop := {
  io_wf : Forall wf_series l;
  io_sorted : StronglySorted (fun x y => klt (skey x) (skey y)) l;
  io_small : len (encode l) < 2 ^ 31 }.

(** ** Opening *)

Lemma time_field v : is_i64 v -> i64 (be_get (be_put 8 (u64 v))) = v.
Proof. intros. by rewrite be64_roundtrip, i64_u64, i64_id by apply u64_range || done. Qed.

Definition min_time (m : Z) (s : series) : Z := Z.min m (first_time s).
Definition max_time (m : Z) (s : series) : Z := Z.max m (last_time s).

(** The fields of an encoded series that the scan reads. *)
Lemma enc_fields (pre post : list Z) s : wf_series s ->
  let i := len pre + 5 + len (skey s) in let bs := pre ++ enc_series s ++ post in
  sub bs (len pre) (len pre + 2) = Ret (be_put 2 (len (skey s))) /\
  sub bs (len pre + 3 + len (skey s)) i = Ret (be_put 2 (len (sents s))) /\
  sub bs i (i + 8) = Ret (be_put 8 (u64 (first_time s))) /\
  sub bs (i + (len (sents s) - 1) * 28 + 8) (i + (len (sents s) - 1) * 28 + 16) = Ret (be_put 8 (u64 (last_time s))).
Proof.
  intros Hw i bs. destruct (span_head_last s Hw) as (e0 & e1 & Eh & El & _ & _ & E0 & E1). unfold bs, i, enc_series. rewrite <- !app_assoc.
  split_and!.
  - apply sub_mid; [done|by rewrite be_put_length].
  - rewrite (app_assoc pre), (app_assoc (pre ++ _)), (app_assoc ((pre ++ _) ++ _)). apply sub_mid; rewrite ?length_app, ?be_put_length; cbn [length]; lia.
  - destruct (sents s) as [|e es]; [done|]. cbn in Eh. simplify_eq. rewrite E0. cbn [fmap list_fmap concat]. unfold AppendTo at 1. rewrite <- !app_assoc.
    rewrite (app_assoc pre), (app_assoc (pre ++ _)), (app_assoc ((pre ++ _) ++ _)), (app_assoc (((pre ++ _) ++ _) ++ _)).
    apply sub_mid; rewrite ?length_app, ?be_put_length; cbn [length]; lia.
  - apply last_Some in El as [es Es]. rewrite Es, E1, fmap_app, concat_app, length_app. cbn [fmap list_fmap concat]. rewrite app_nil_r.
    unfold AppendTo at 2. rewrite <- !app_assoc.
    rewrite (app_assoc pre), (app_assoc (pre ++ _)), (app_assoc ((pre ++ _) ++ _)), (app_assoc (((pre ++ _) ++ _) ++ _)),
      (app_assoc ((((pre ++ _) ++ _) ++ _) ++ _)), (app_assoc (((((pre ++ _) ++ _) ++ _) ++ _) ++ _)).
    apply sub_mid; rewrite ?length_app, ?be_put_length, ?concat_entries_length; cbn [length]; lia.
Qed.

Lemma unmarshal_index_loop_run l : forall fuel pre mn mx offs, Forall wf_series l -> len (pre ++ encode l) < 2 ^ 31 -> (length l < fuel)%nat ->
  unmarshal_loop fuel (pre ++ encode l) (len (pre ++ encode l)) (len pre) mn mx offs
  = Ret (offs ++ (layout (len pre) l).*1, foldl min_time mn l, foldl max_time mx l).
Proof.
  induction l as [|s l IH]; intros fuel pre mn mx offs Hw Hsm Hf; (destruct fuel as [|fuel]; [cbn in Hf; lia|]); cbn [unmarshal_loop].
  { unfold encode. cbn [fmap list_fmap concat layout foldl]. rewrite !app_nil_r, Z.ltb_irrefl. done. }
  apply Forall_cons_1 in Hw as [Hs Hw]. unfold encode in *. cbn [fmap list_fmap concat] in *. fold (encode l) in *.
  pose proof (enc_series_length s) as Hlen. pose proof (enc_fields pre (encode l) s Hs) as Hfld. cbn zeta in Hfld.
  pose proof Hs as (Hk & Hne & Hn & _). unfold maxKeyLength, maxIndexEntries in *.
  destruct (span_head_last s Hs) as (e0 & e1 & _ & _ & (W0 & _) & (_ & W1 & _) & E0 & E1). rewrite <- E0 in W0. rewrite <- E1 in W1.
  assert (1 <= len (sents s)) by (destruct (sents s); [done|cbn [length]; lia]).
  set (bs := pre ++ enc_series s ++ encode l) in *. assert (Hbs : len bs = len pre + len (enc_series s) + len (encode l)) by (unfold bs; rewrite !length_app; lia).
  destruct Hfld as (F1 & F2 & F3 & F4). unfold indexCountSize, indexEntrySize.
  rewrite (proj2 (Z.ltb_lt _ _)) by lia. rewrite (i32_small (len pre + 2)) by lia. rewrite (proj2 (Z.leb_gt _ _)) by lia.
  rewrite F1. cbn [obind]. rewrite be_get_put_small by (cbn; lia). rewrite (i32_small (3 + _)) by lia.
  rewrite (i32_small (len pre + (3 + len (skey s)))) by lia.
  replace (len pre + (3 + len (skey s))) with (len pre + 3 + len (skey s)) by lia.
  rewrite (i32_small (len pre + 3 + len (skey s) + 2)) by lia. rewrite (proj2 (Z.leb_gt _ _)) by lia.
  replace (len pre + 3 + len (skey s) + 2) with (len pre + 5 + len (skey s)) by lia. rewrite F2. cbn [obind].
  rewrite be_get_put_small by (cbn; lia). rewrite (i32_small (len pre + 5 + len (skey s) + 8)) by lia. rewrite (proj2 (Z.leb_gt _ _)) by lia.
  rewrite F3. cbn [obind]. rewrite time_field by done. rewrite (i32_small (len (sents s) - 1)) by lia. rewrite (i32_small ((len (sents s) - 1) * 28)) by lia.
  set (j := len pre + 5 + len (skey s) + (len (sents s) - 1) * 28) in *. rewrite (i32_small j) by (unfold j; lia).
  rewrite (i32_small (j + 16)) by (unfold j; lia). rewrite (proj2 (Z.leb_gt _ _)) by (unfold j; lia). rewrite (i32_small (j + 8)) by (unfold j; lia).
  rewrite F4. cbn [obind]. rewrite time_field by done. rewrite (i32_small (j + 28)) by (unfold j; lia).
  replace (j + 28) with (len (pre ++ enc_series s)) by (unfold j; rewrite length_app; lia).
  replace bs with ((pre ++ enc_series s) ++ encode l) by (unfold bs; by rewrite <- app_assoc).
  rewrite IH; [|done|rewrite <- app_assoc; exact Hsm|cbn in Hf; lia]. rewrite length_app, Nat2Z.inj_add, <- app_assoc. cbn [layout fmap list_fmap fst app foldl].
  f_equal. f_equal; [f_equal|]; f_equal.
  - unfold min_time. destruct (Z.ltb_spec (first_time s) mn); lia.
  - unfold max_time. destruct (Z.ltb_spec mx (last_time s)); lia.
Qed.

Lemma layout_snd l : forall o, (layout o l).*2 = l.
Proof. induction l as [|s l IH]; intros o; [done|]. cbn. by rewrite IH. Qed.
Lemma layout_length l : forall o, length (layout o l) = length l.
Proof. induction l as [|s l IH]; intros o; [done|]. cbn. by rewrite IH. Qed.
Lemma layout_elem o l s : s ∈ l <-> exists x, x ∈ layout o l /\ x.2 = s.
Proof. rewrite <- (layout_snd l o) at 1. rewrite list_elem_of_fmap. naive_solver. Qed.
Lemma layout_snd_elem o l x : x ∈ layout o l -> x.2 ∈ l.
Proof. intros Hx. apply (layout_elem o). by exists x. Qed.

Lemma layout_located l : forall pre, Forall (fun x => located (pre ++ encode l) x.1 x.2) (layout (len pre) l).
Proof.
  induction l as [|s l IH]; intros pre; [constructor|]. unfold encode. cbn [fmap list_fmap concat layout]. fold (encode l). constructor.
  - by exists pre, (encode l).
  - specialize (IH (pre ++ enc_series s)). rewrite length_app, Nat2Z.inj_add, <- app_assoc in IH. exact IH.
Qed.

Lemma layout_sorted l : StronglySorted (fun x y => klt (skey x) (skey y)) l ->
  forall o, StronglySorted (fun x y => klt (skey' x) (skey' y)) (layout o l).
Proof.
  induction 1 as [|s l Hs IH Hlt]; intros o; cbn [layout]; constructor; [apply IH|]. rewrite Forall_forall in Hlt.
  apply Forall_forall. intros x Hx%layout_snd_elem. by apply Hlt.
Qed.

Lemma min_time_le l : forall m, foldl min_time m l <= m /\ Forall (fun s => foldl min_time m l <= first_time s) l.
Proof.
  induction l as [|s l IH]; intros m; [split; [cbn; lia|constructor]|]. cbn [foldl]. destruct (IH (min_time m s)) as [H1 H2]. unfold min_time in *.
  split; [lia|]. constructor; [lia|done].
Qed.
Lemma max_time_ge l : forall m, m <= foldl max_time m l /\ Forall (fun s => last_time s <= foldl max_time m l) l.
Proof.
  induction l as [|s l IH]; intros m; [split; [cbn; lia|constructor]|]. cbn [foldl]. destruct (IH (max_time m s)) as [H1 H2]. unfold max_time in *.
  split; [lia|]. constructor; [lia|done].
Qed.

Lemma sorted_first_last l s0 s1 : StronglySorted (fun x y => klt (skey x) (skey y)) l -> head l = Some s0 -> last l = Some s1 ->
  Forall (fun s => bytes_le (skey s0) (skey s) /\ bytes_le (skey s) (skey s1)) l.
Proof.
  intros Hs Hh Hl. apply Forall_forall. intros s Hin. split.
  - destruct l as [|s' l]; [done|]. cbn in Hh. simplify_eq. inversion Hs as [|? ? _ Hlt]; subst. rewrite Forall_forall in Hlt.
    apply elem_of_cons in Hin as [->|Hin]; [apply not_klt, klt_irrefl|]. by apply klt_le, Hlt.
  - apply last_Some in Hl as [l' ->]. apply elem_of_app in Hin as [Hin|Hin%list_elem_of_singleton]; [|rewrite Hin; apply not_klt, klt_irrefl].
    apply StronglySorted_app in Hs as (Hs & _). apply klt_le, Hs; [done|by apply list_elem_of_singleton].
Qed.

Lemma encode_length l : Forall wf_series l -> (length l <= length (encode l))%nat.
Proof.
  induction 1 as [|s l _ _ IH]; [done|]. unfold encode. cbn [fmap list_fmap concat length]. rewrite length_app. fold (encode l).
  pose proof (enc_series_length s). lia.
Qed.

(** Opening the encoding of sorted series. *)
Lemma Index_open_run l : index_ok l -> exists d, UnmarshalBinary NewIndirectIndex (encode l) = Ret d /\ repr d (layout 0 l) /\
  b d = encode l /\ tombstones d = ∅ /\ (l <> [] -> minTime d = foldl min_time (2 ^ 63 - 1) l /\ maxTime d = foldl max_time 0 l).
Proof.
  intros [Hw Hs Hsm]. unfold UnmarshalBinary. destruct (decide (l = [])) as [->|Hne].
  { eexists. split; [done|]. split; [|done]. by split; cbn; try done; constructor. }
  pose proof (encode_length l Hw) as Hle. assert (0 < length l)%nat by (destruct l; [done|cbn; lia]).
  rewrite (proj2 (Nat.eqb_neq _ _)) by lia. cbn [NewIndirectIndex offsets minKey maxKey minTime maxTime tombstones].
  rewrite i32_small by lia. pose proof (unmarshal_index_loop_run l (S (length (encode l))) [] (2 ^ 63 - 1) 0 [] Hw) as HU.
  cbn [app length] in HU. change (Z.of_nat 0) with 0 in HU. rewrite HU by lia. clear HU. cbn [obind].
  pose proof (layout_located l []) as Hloc. cbn [app length] in Hloc. change (Z.of_nat 0) with 0 in Hloc.
  destruct (head (layout 0 l)) as [x0|] eqn:Eh; [|by destruct l]. destruct (last (layout 0 l)) as [x1|] eqn:El.
  2: { apply last_None in El. by destruct l. }
  assert (Hh' : head ((layout 0 l).*1) = Some x0.1) by (destruct (layout 0 l); [done|]; by simplify_eq/=).
  rewrite Hh', fmap_last, El. cbn [or_panic obind fmap option_fmap option_map].
  assert (H0 : x0 ∈ layout 0 l) by (destruct (layout 0 l); [done|]; simplify_eq/=; apply elem_of_cons; by left).
  assert (H1 : x1 ∈ layout 0 l) by (by apply last_Some_elem_of).
  assert (Hwl : Forall (fun x : entry_series => wf_series x.2) (layout 0 l)).
  { rewrite Forall_forall in Hw. apply Forall_forall. intros x Hx%layout_snd_elem. auto. }
  pose proof Hloc as Hloc'. rewrite Forall_forall in Hloc'. pose proof Hwl as Hwl'. rewrite Forall_forall in Hwl'.
  destruct (located_from _ _ _ (Hloc' x0 H0)) as [p0 ->]. cbn [obind]. rewrite readKey_enc by auto. cbn [obind].
  destruct (located_from _ _ _ (Hloc' x1 H1)) as [p1 ->]. cbn [obind]. rewrite readKey_enc by auto. cbn [obind].
  eexists. split; [done|]. cbn [b tombstones minTime maxTime]. split; [|done]. split; cbn [offsets b minKey maxKey minTime maxTime].
  - f_equal. rewrite <- list_fmap_compose. apply list_fmap_ext. intros i x Hx. cbn. unfold offset_code, u32.
    apply list_elem_of_lookup_2 in Hx. pose proof (located_bound _ _ _ (Hloc' x Hx)) as Hb. rewrite Z.mod_small by lia. done.
  - apply Forall_forall. auto.
  - done.
  - by apply layout_sorted.
  - pose proof (sorted_first_last l x0.2 x1.2 Hs) as Hfl. rewrite <- (layout_snd l 0) in Hfl at 1 2.
    specialize (Hfl ltac:(destruct (layout 0 l); [done|]; by simplify_eq/=) ltac:(by rewrite fmap_last, El)).
    rewrite Forall_forall in Hfl. apply Forall_forall. intros x Hx%layout_snd_elem. by apply Hfl.
  - destruct (min_time_le l (2 ^ 63 - 1)) as [_ Hmn]. destruct (max_time_ge l 0) as [_ Hmx].
    rewrite Forall_forall in Hmn. rewrite Forall_forall in Hmx. apply Forall_forall. intros x Hx%layout_snd_elem. auto.
Qed.

(** ** Building *)

(** The blocks of a series, and of all series, added one after the other. *)
Fixpoint add_entries (d : directIndex) (k : list Z) (typ : Z) (es : list IndexEntry) : outcome directIndex :=
  match es with
  | [] => Ret d
  | e :: es => let! d := Add d k typ (MinTime e) (MaxTime e) (Offset e) (Size e) in add_entries d k typ es
  end.
Fixpoint add_all (d : directIndex) (l : list series) : outcome directIndex :=
  match l with
  | [] => Ret d
  | s :: l => let! d := add_entries d (skey s) (stype s) (sents s) in add_all d l
  end.

(** Series whose blocks can be added: a key that is not empty and blocks in
    the order of their start. *)
Definition writable (s : series) : Prop := wf_series s /\ skey s <> [] /\ entries_IsSorted (sents s) = true.

(** The series flushed and the one still collected. *)
Record written (d : directIndex) (flushed : list series) (cur : series) : Prop := {
  wr_key : key d = skey cur;
  wr_nonempty : skey cur <> [];
  wr_entries : ies d = Some (MkEntries (stype cur) (sents cur));
  wr_buf : buf d = encode flushed;
  wr_count : keyCount d = len flushed + 1;
  wr_size : size d = u32 (len (encode (flushed ++ [cur])) - (len flushed + 1)) }.

Lemma encode_app l1 l2 : encode (l1 ++ l2) = encode l1 ++ encode l2.
Proof. unfold encode. by rewrite fmap_app, concat_app. Qed.
Lemma encode_one s : encode [s] = enc_series s.
Proof. unfold encode. cbn [fmap list_fmap concat]. apply app_nil_r. Qed.

Lemma u32_add_l x y : u32 (u32 x + y) = u32 (x + y).
Proof. unfold u32. by rewrite Zplus_mod_idemp_l. Qed.
Lemma u32_add_r x y : u32 (x + u32 y) = u32 (x + y).
Proof. unfold u32. by rewrite Zplus_mod_idemp_r. Qed.

Lemma u32_grown s a c e : u32 (u32 (u32 (s + u32 a) + c) + e) = u32 (s + a + c + e).
Proof. rewrite u32_add_r. unfold u32. by rewrite (Zplus_mod_idemp_l (s + a)), Zplus_mod_idemp_l. Qed.

Lemma key_nonempty (k : list Z) : k <> [] -> (length k =? 0)%nat = false.
Proof. by destruct k. Qed.

Lemma flush_run d flushed cur : written d flushed cur -> writable cur ->
  exists n d', flush d = Ret (n, d') /\ buf d' = encode (flushed ++ [cur]) /\ key d' = [] /\ ies d' = Some (MkEntries 0 []) /\
    keyCount d' = keyCount d /\ size d' = size d /\ disk d' = disk d /\ f d' = f d.
Proof.
  intros [H1 H2 H3 H4 H5 H6] ((Hk & _ & Hn & _) & _ & Hs). unfold flush. rewrite H1, (key_nonempty _ H2), H3. cbn [or_panic obind].
  unfold Len. cbn [entries]. rewrite (proj2 (Z.ltb_ge _ _)) by done. rewrite Hs. unfold maxKeyLength, maxIndexEntries in *.
  assert (forall x, 0 <= x <= 2 ^ 16 - 1 -> u16 x = x) as Hu by (intros; unfold u16; apply Z.mod_small; lia). rewrite !Hu by lia.
  do 2 eexists. split; [done|]. cbn [buf key ies keyCount size disk f]. split_and!; try done.
  cbn [Type_ entries]. by rewrite Hu, H4, encode_app, encode_one by lia.
Qed.

Lemma Add_first d e k typ : key d = [] -> (ies d = None \/ exists t, ies d = Some (MkEntries t [])) -> buf d = [] -> keyCount d = 0 -> size d = 0 ->
  k <> [] -> exists d', Add d k typ (MinTime e) (MaxTime e) (Offset e) (Size e) = Ret d' /\ written d' [] (MkSeries k typ [e]).
Proof.
  intros H1 H2 H3 H4 H5 Hk. unfold Add. rewrite H1. cbn [length Nat.eqb]. eexists. split; [done|].
  split; cbn [key ies buf keyCount size skey stype sents]; try done; [destruct H2 as [->|[t ->]]; by destruct e| |].
  - by rewrite H4.
  - rewrite H5. cbn [app]. rewrite encode_one, enc_series_length. cbn [skey sents length]. rewrite u32_grown.
    unfold indexCountSize, indexEntrySize. f_equal. lia.
Qed.

Lemma Add_same d flushed cur e typ : written d flushed cur ->
  exists d', Add d (skey cur) typ (MinTime e) (MaxTime e) (Offset e) (Size e) = Ret d' /\
    written d' flushed (MkSeries (skey cur) (stype cur) (sents cur ++ [e])) /\ disk d' = disk d /\ f d' = f d.
Proof.
  intros [H1 H2 H3 H4 H5 H6]. unfold Add. rewrite H1, (key_nonempty _ H2), WalLog.Compare_refl, H3. cbn [or_panic obind].
  eexists. split; [done|]. split; [|done]. split; cbn [key ies buf keyCount size skey stype sents]; try done; [by destruct e|].
  rewrite H6, !encode_app, !encode_one, !length_app, u32_add_l. f_equal.
  pose proof (enc_series_length cur). pose proof (enc_series_length (MkSeries (skey cur) (stype cur) (sents cur ++ [e]))) as H7.
  cbn [skey sents] in H7. rewrite length_app in H7. cbn [length] in H7. unfold indexEntrySize. lia.
Qed.

Lemma Add_next d flushed cur e k typ : written d flushed cur -> writable cur -> klt (skey cur) k ->
  exists d', Add d k typ (MinTime e) (MaxTime e) (Offset e) (Size e) = Ret d' /\ written d' (flushed ++ [cur]) (MkSeries k typ [e]) /\
    disk d' = disk d /\ f d' = f d.
Proof.
  intros W Hc Hlt. destruct (flush_run d flushed cur W Hc) as (n & d1 & E & F1 & F2 & F3 & F4 & F5 & F6 & F7). destruct W as [H1 H2 H3 H4 H5 H6].
  unfold Add. rewrite H1, (key_nonempty _ H2). unfold klt in Hlt. rewrite Hlt, E. cbn [obind]. rewrite F3. cbn [or_panic obind].
  eexists. split; [done|]. split; [|done]. split; cbn [key ies buf keyCount size skey stype sents entries app]; try done.
  - intros ->. by destruct (skey cur).
  - by destruct e.
  - rewrite F4, H5, length_app. cbn [length]. lia.
  - rewrite F5, H6, u32_grown. rewrite <- (Z.add_assoc (u32 _)), <- (Z.add_assoc (u32 _)), u32_add_l. rewrite (encode_app (flushed ++ [cur])), encode_one, !length_app.
    rewrite (Nat2Z.inj_add (length (encode _))), enc_series_length. cbn [skey sents length]. unfold indexCountSize, indexEntrySize. f_equal. lia.
Qed.

Lemma add_entries_run es : forall d flushed cur, written d flushed cur ->
  exists d', add_entries d (skey cur) (stype cur) es = Ret d' /\ written d' flushed (MkSeries (skey cur) (stype cur) (sents cur ++ es)) /\
    disk d' = disk d /\ f d' = f d.
Proof.
  induction es as [|e es IH]; intros d flushed cur W; cbn [add_entries].
  { exists d. rewrite app_nil_r. by destruct cur. }
  destruct (Add_same d flushed cur e (stype cur) W) as (d1 & -> & W1 & D1 & F1). cbn [obind].
  destruct (IH d1 flushed _ W1) as (d2 & E & W2 & D2 & F2). cbn [skey stype sents] in *. exists d2. rewrite <- app_assoc in W2.
  split_and!; [done|done|congruence|congruence].
Qed.

Lemma add_all_run l : forall d flushed cur, written d flushed cur -> Forall writable (cur :: l) ->
  StronglySorted (fun x y => klt (skey x) (skey y)) (cur :: l) ->
  exists d' flushed' cur', add_all d l = Ret d' /\ written d' flushed' cur' /\ writable cur' /\ flushed' ++ [cur'] = flushed ++ cur :: l /\
    disk d' = disk d /\ f d' = f d.
Proof.
  induction l as [|s l IH]; intros d flushed cur W Hw Hs; cbn [add_all].
  { exists d, flushed, cur. apply Forall_cons_1 in Hw as [Hw _]. done. }
  apply Forall_cons_1 in Hw as [Hc Hw]. inversion Hs as [|? ? Hs' Hlt]; subst. apply Forall_cons_1 in Hlt as [Hlt _].
  pose proof (Forall_cons_1 _ _ _ Hw) as [[(_ & Hne & _) _] _].
  destruct (sents s) as [|e es] eqn:Es; [done|]. cbn [add_entries].
  destruct (Add_next d flushed cur e (skey s) (stype s) W Hc Hlt) as (d1 & -> & W1 & D1 & F1). cbn [obind].
  destruct (add_entries_run es d1 _ _ W1) as (d2 & E2 & W2 & D2 & F2). cbn [skey stype sents app] in *. rewrite E2. cbn [obind].
  rewrite <- Es in W2. replace (MkSeries (skey s) (stype s) (sents s)) with s in W2 by (by destruct s).
  destruct (IH d2 _ s W2 Hw Hs') as (d3 & fl & cu & E3 & W3 & C3 & A3 & D3 & F3). exists d3, fl, cu.
  split_and!; [done|done|done|by rewrite A3, <- app_assoc|congruence|congruence].
Qed.

(** Marshalling what was added. *)
Lemma Build_run d0 l : d0 = NewIndexWriter \/ d0 = NewDiskIndexWriter -> l <> [] -> Forall writable l ->
  StronglySorted (fun x y => klt (skey x) (skey y)) l -> len (encode l) <= fsyncEvery ->
  exists d, add_all d0 l = Ret d /\ direct_MarshalBinary d = Ret (encode l) /\ direct_KeyCount d = len l /\
    direct_Size d = len (encode l) - len l.
Proof.
  intros Hd Hne Hw Hs Hsm. destruct l as [|s l]; [done|]. cbn [add_all]. pose proof (Forall_cons_1 _ _ _ Hw) as [[(_ & Hse & _) [Hk _]] _].
  destruct (sents s) as [|e es] eqn:Es; [done|]. cbn [add_entries].
  destruct (Add_first d0 e (skey s) (stype s)) as (d1 & E1 & W1); [destruct Hd as [->| ->]; (done || by left)..|done|]. rewrite E1. cbn [obind].
  destruct (add_entries_run es d1 _ _ W1) as (d2 & E2 & W2 & _). cbn [skey stype sents app] in *. rewrite E2. cbn [obind].
  rewrite <- Es in W2. replace (MkSeries (skey s) (stype s) (sents s)) with s in W2 by (by destruct s).
  destruct (add_all_run l d2 [] s W2 Hw Hs) as (d & fl & cu & E & W & C & A & _). cbn [app] in A. exists d. split; [done|].
  destruct (flush_run d fl cu W C) as (n & d' & Ef & B & _). destruct W as [_ _ _ _ H5 H6]. rewrite A in *.
  assert (Hl : length (s :: l) = S (length fl)) by (rewrite <- A, length_app; cbn; lia).
  unfold direct_MarshalBinary, WriteTo, direct_KeyCount, direct_Size. rewrite Ef. cbn [obind]. split_and!.
  - destruct (disk d'); [by rewrite B|]. unfold copyBuffer. rewrite B, (proj2 (Z.ltb_ge _ _)) by done. done.
  - rewrite H5, Hl. lia.
  - rewrite H6, Hl. unfold u32. assert (Forall wf_series (s :: l)) as Hwf by (eapply Forall_impl; [exact Hw|]; by intros ? [? _]).
    pose proof (encode_length _ Hwf) as Hle. rewrite Hl in Hle. unfold fsyncEvery in Hsm. rewrite Z.mod_small; lia.
Qed.

(** ** The opened index holds what was added *)

Lemma layout_lookup l : forall o n s, l !! n = Some s -> exists p, layout o l !! n = Some (p, s).
Proof.
  induction l as [|x l IH]; intros o n s Hn; [done|]. destruct n as [|n]; cbn in Hn |- *; [simplify_eq; eauto|]. by apply IH.
Qed.

(** Round trip of the index: the blocks of series with increasing keys,
    added one by one to an in-memory or a disk index, marshal to bytes that
    open as an index with one entry per series, in order; a lookup by position
    or by key returns the type and the blocks that were added, and a lookup of
    any other key finds nothing. *)
Theorem index_roundtrip (d0 : directIndex) (l : list series) :
  d0 = NewIndexWriter \/ d0 = NewDiskIndexWriter -> l <> [] -> Forall writable l ->
  StronglySorted (fun x y => klt (skey x) (skey y)) l -> len (encode l) <= fsyncEvery ->
  exists d bs ix, add_all d0 l = Ret d /\ direct_MarshalBinary d = Ret bs /\ UnmarshalBinary NewIndirectIndex bs = Ret ix /\
    KeyCount ix = len l /\
    (forall n s, l !! n = Some s ->
      Key ix (Z.of_nat n) = Ret (skey s, stype s, sents s) /\ KeyAt ix (Z.of_nat n) = Ret (skey s, stype s) /\
      Entries ix (skey s) = Ret (sents s) /\ Type_of ix (skey s) = Ret (stype s)) /\
    (forall k, (forall s, s ∈ l -> skey s <> k) -> Entries ix k = Ret [] /\ Type_of ix k = Fail "key does not exist").
Proof.
  intros Hd Hne Hw Hs Hsm. destruct (Build_run d0 l Hd Hne Hw Hs Hsm) as (d & E1 & E2 & _ & _).
  assert (Hok : index_ok l). { split; [|done|unfold fsyncEvery in Hsm; lia]. eapply Forall_impl; [exact Hw|]. by intros s [? _]. }
  destruct (Index_open_run l Hok) as (ix & E3 & Hr & _). exists d, (encode l), ix. split_and!; [done|done|done| | |].
  - by rewrite (KeyCount_run ix _ Hr), layout_length.
  - intros n s Hn. destruct (layout_lookup l 0 n s Hn) as [p Hp]. rewrite (Key_run ix _ Hr), (KeyAt_run ix _ Hr), Hp.
    rewrite (Entries_run ix _ Hr), (Type_of_run ix _ Hr).
    assert (contents (layout 0 l) !! skey s = Some s) as ->; [|done].
    apply (contents_Some ix _ Hr). exists (p, s). split; [by eapply list_elem_of_lookup_2|done].
  - intros k Hk. rewrite (Entries_run ix _ Hr), (Type_of_run ix _ Hr).
    assert (contents (layout 0 l) !! k = None) as ->; [|done]. destruct (contents (layout 0 l) !! k) as [s|] eqn:E; [|done].
    apply (contents_Some ix _ Hr) in E as (x & Hx%layout_snd_elem & Hkx & _). exfalso. by apply (Hk x.2).
Qed.

(** ** Runs of deletions *)

Inductive op := ODelete (keys : list (list Z)) | ODeleteRange (keys : list (list Z)) (lo hi : Z).

Definition step (d : indirectIndex) (o : op) : outcome indirectIndex :=
  match o with ODelete keys => Delete d keys | ODeleteRange keys lo hi => DeleteRange d keys lo hi end.
Fixpoint run (d : indirectIndex) (ops : list op) : outcome indirectIndex :=
  match ops with [] => Ret d | o :: ops => let! d := step d o in run d ops end.

Definition wf_op (o : op) : Prop := match o with ODelete _ => True | ODeleteRange _ lo hi => is_i64 lo /\ is_i64 hi end.
(** The operation names the point. *)
Definition names (k : list Z) (t : Z) (o : op) : Prop :=
  match o with ODelete keys => k ∈ keys | ODeleteRange keys lo hi => k ∈ keys /\ lo <= t <= hi end.

Lemma in_range_iff lo hi t : in_range lo hi t = true <-> lo <= t <= hi.
Proof. unfold in_range. by rewrite andb_true_iff, !Z.leb_le. Qed.

Lemma step_op_run d L o : repr d L -> wf_tombstones (tombstones d) -> wf_op o -> exists d' L', step d o = Ret d' /\ kept_index d d' L L' /\
  forall x t, x ∈ L -> in_span x.2 t -> (alive d' L' (skey' x) t <-> alive d L (skey' x) t /\ ~ names (skey' x) t o).
Proof.
  intros Hr Ht. destruct o as [keys|keys lo hi]; cbn [step wf_op names].
  - intros _. destruct (Delete_alive d L keys Hr Ht) as (d' & E & K & _ & A). exists d', (without keys L). split_and!; [done|done|].
    intros x t Hx _. by apply A.
  - intros [H1 H2]. destruct (DeleteRange_alive d L keys lo hi Hr Ht H1 H2) as (d' & L' & E & K & A). exists d', L'. split_and!; [done|done|].
    intros x t Hx Hsp. rewrite (A x t Hx Hsp), in_range_iff. done.
Qed.

Lemma run_ops_run ops : forall d L, repr d L -> wf_tombstones (tombstones d) -> Forall wf_op ops -> exists d' L', run d ops = Ret d' /\
  kept_index d d' L L' /\
  forall x t, x ∈ L -> in_span x.2 t -> (alive d' L' (skey' x) t <-> alive d L (skey' x) t /\ ~ Exists (names (skey' x) t) ops).
Proof.
  induction ops as [|o ops IH]; intros d L Hr Ht Hw; cbn [run].
  { exists d, L. split_and!; [done|by split|]. intros x t _ _. rewrite Exists_nil. tauto. }
  apply Forall_cons_1 in Hw as [Ho Hw]. destruct (step_op_run d L o Hr Ht Ho) as (d1 & L1 & -> & [K1 K2 K3 K4] & A1). cbn [obind].
  destruct (IH d1 L1 K1 K2 Hw) as (d2 & L2 & -> & [J1 J2 J3 J4] & A2). exists d2, L2. split; [done|]. split.
  - split; [done|done|congruence|auto].
  - intros x t Hx Hsp. rewrite Exists_cons. destruct (decide (x ∈ L1)) as [H1|H1].
    + rewrite (A2 x t H1 Hsp), (A1 x t Hx Hsp). tauto.
    + split.
      * intros [(y & Hy & E) _]. apply J4 in Hy as Hy1. assert (y = x) as -> by (apply (repr_unique d L Hr); auto). done.
      * intros [Ha Hn]. exfalso. apply H1. assert (Ha1 : alive d1 L1 (skey' x) t) by (apply A1; [done|done|]; tauto).
        destruct Ha1 as [(y & Hy & E) _]. assert (y = x) as -> by (apply (repr_unique d L Hr); auto). done.
Qed.

(** C15. Deletions are exact: after any run of [Delete] and [DeleteRange] on an
    opened index, [ContainsValue] answers true for a key and a time exactly
    when a block of the file holds that time for the key and no operation of
    the run named the key with a range that holds the time; ranges that
    together cover a series remove it, and no point outside is ever hidden. *)
Theorem deletions_exact (l : list series) (ops : list op) :
  index_ok l -> Forall spans l -> Forall wf_op ops ->
  exists d d', UnmarshalBinary NewIndirectIndex (encode l) = Ret d /\ run d ops = Ret d' /\
    forall k t, exists r, ContainsValue d' k t = Ret r /\
      (r = true <-> (exists s e, s ∈ l /\ skey s = k /\ e ∈ sents s /\ MinTime e <= t <= MaxTime e) /\ ~ Exists (names k t) ops).
Proof.
  intros Hok Hsp Hw. destruct (Index_open_run l Hok) as (d & E & Hr & _ & Ht & _).
  destruct (run_ops_run ops d _ Hr) as (d' & L' & E' & [K1 K2 K3 K4] & A); [by rewrite Ht; apply map_Forall_empty|done|].
  exists d, d'. split_and!; [done|done|]. intros k t. destruct (ContainsValue_run d' L' k t K1) as (r & Er & Hr'). exists r. split; [done|].
  rewrite Hr'. rewrite Forall_forall in Hsp.
  assert (Hspan : forall x e, x ∈ layout 0 l -> e ∈ sents x.2 -> MinTime e <= t <= MaxTime e -> in_span x.2 t).
  { intros x e Hx%layout_snd_elem He Hin. specialize (Hsp _ Hx). unfold spans in Hsp. rewrite Forall_forall in Hsp. specialize (Hsp e He).
    unfold in_span. lia. }
  assert (Ha0 : forall x, x ∈ layout 0 l -> alive d (layout 0 l) (skey' x) t).
  { intros x Hx. split; [by exists x|]. unfold TombstoneRange. by rewrite Ht, lookup_empty. }
  split.
  - intros (x & e & Hx & <- & He & Hin & Ha). pose proof (K4 x Hx) as Hx0. split; [exists x.2, e; split_and!; try done; try lia; by eapply layout_snd_elem|].
    apply (A x t Hx0 (Hspan x e Hx0 He Hin)) in Ha. tauto.
  - intros [(s & e & Hs & <- & He & Hin) Hn]. apply (layout_elem 0) in Hs as (x & Hx & <-). change (skey x.2) with (skey' x) in *.
    assert (Ha : alive d' L' (skey' x) t) by (apply (A x t Hx (Hspan x e Hx He Hin)); auto).
    destruct Ha as [(y & Hy & Ek) Hc]. assert (y = x) as -> by (apply (repr_unique d _ Hr); auto).
    exists x, e. refine (conj Hy (conj eq_refl (conj He (conj Hin _)))). split; [by exists x|done].
Qed.

(** ** Opening damaged bytes *)

Lemma sub_bounds {A} (bs : list A) lo hi r : sub bs lo hi = Ret r -> 0 <= lo <= hi /\ hi <= len bs /\ len r = hi - lo.
Proof.
  unfold sub. destruct (Z.leb_spec 0 lo), (Z.leb_spec lo hi), (Z.leb_spec hi (len bs)); cbn; try done. intros [= <-].
  rewrite length_take, length_drop. lia.
Qed.
Lemma sub_bytes bs lo hi r : Forall is_byte bs -> sub bs lo hi = Ret r -> Forall is_byte r.
Proof. unfold sub. destruct (_ && _); [|done]. intros H [= <-]. by apply Forall_take, Forall_drop. Qed.
Lemma field16 bs lo hi r : Forall is_byte bs -> sub bs lo hi = Ret r -> hi - lo = 2 -> 0 <= be_get r < 65536.
Proof.
  intros Hb E Hl. pose proof (be_get_bound r (sub_bytes _ _ _ _ Hb E)) as H. destruct (sub_bounds _ _ _ _ E) as (_ & _ & Hlen).
  replace (length r) with 2%nat in H by lia. exact H.
Qed.
Lemma i32_range x : - 2 ^ 31 <= i32 x < 2 ^ 31.
Proof. unfold i32. pose proof (Z.mod_pos_bound (x + 2 ^ 31) (2 ^ 32)). lia. Qed.
Lemma i32_wrap x : 2 ^ 31 <= x < 2 ^ 31 + 2 ^ 32 -> i32 x = x - 2 ^ 32.
Proof. intros. unfold i32. replace (x + 2 ^ 31) with ((x + 2 ^ 31 - 2 ^ 32) + 1 * 2 ^ 32) by lia. rewrite Z.mod_add, Z.mod_small; lia. Qed.
(** A sum that stays non-negative as an [int32] did not wrap. *)
Lemma i32_nonneg x : - 2 ^ 31 <= x < 2 ^ 31 + 2 ^ 30 -> 0 <= i32 x -> i32 x = x.
Proof. intros Hx Hi. destruct (decide (x < 2 ^ 31)); [apply i32_small; lia|]. rewrite i32_wrap in Hi by lia. lia. Qed.

(** One round of the scan: it stops, or goes on at least five bytes further,
    or at a negative position. *)
Lemma unmarshal_progress fuel bs i mn mx offs : Forall is_byte bs -> len bs < 2 ^ 31 -> i < len bs -> - 2 ^ 31 <= i ->
  (exists e, unmarshal_loop (S fuel) bs (len bs) i mn mx offs = Fail e /\ e <> does_not_return) \/
  unmarshal_loop (S fuel) bs (len bs) i mn mx offs = Panic \/
  exists i' mn' mx' offs', unmarshal_loop (S fuel) bs (len bs) i mn mx offs = unmarshal_loop fuel bs (len bs) i' mn' mx' offs' /\
    0 <= i /\ - 2 ^ 31 <= i' /\ (i' < 0 \/ i + 5 <= i').
Proof.
  intros Hb Hsm Hi Hi'. cbn [unmarshal_loop]. rewrite (proj2 (Z.ltb_lt _ _)) by done. unfold indexCountSize, indexEntrySize.
  destruct (_ <=? i32 (i + 2)); [left; by eexists|].
  destruct (sub bs i (i32 (i + 2))) as [r1| |] eqn:E1; [|exfalso; revert E1; unfold sub; by destruct (_ && _)|by right; left]. cbn [obind].
  pose proof (sub_bounds _ _ _ _ E1) as (B1 & B1' & _). rewrite (i32_nonneg (i + 2)) in E1 by lia.
  pose proof (field16 _ _ _ _ Hb E1 ltac:(lia)) as G1. rewrite (i32_small (3 + _)) by lia.
  set (j := i32 (i + (3 + be_get r1))). destruct (_ <=? i32 (j + 2)); [left; by eexists|].
  destruct (sub bs j (i32 (j + 2))) as [r2| |] eqn:E2; [|exfalso; revert E2; unfold sub; by destruct (_ && _)|by right; left]. cbn [obind].
  pose proof (sub_bounds _ _ _ _ E2) as (B2 & B2' & _). assert (Ej : j = i + (3 + be_get r1)) by (apply i32_nonneg; [lia|exact (proj1 B2)]).
  assert (Ej2 : i32 (j + 2) = j + 2) by (apply i32_nonneg; lia). rewrite Ej2 in *.
  pose proof (field16 _ _ _ _ Hb E2 ltac:(lia)) as G2.
  destruct (_ <=? i32 (j + 2 + 8)); [left; by eexists|].
  destruct (sub bs (j + 2) (i32 (j + 2 + 8))) as [r3| |] eqn:E3; [|exfalso; revert E3; unfold sub; by destruct (_ && _)|by right; left]. cbn [obind].
  rewrite (i32_small (be_get r2 - 1)), (i32_small ((be_get r2 - 1) * 28)) by lia.
  set (p := i32 (j + 2 + (be_get r2 - 1) * 28)). destruct (_ <=? i32 (p + 16)); [left; by eexists|].
  destruct (sub bs (i32 (p + 8)) (i32 (p + 16))) as [r4| |] eqn:E4; [|exfalso; revert E4; unfold sub; by destruct (_ && _)|by right; left]. cbn [obind].
  right; right. do 4 eexists. split; [reflexivity|]. pose proof (sub_bounds _ _ _ _ E4) as (B4 & _ & _). pose proof (i32_range (p + 28)) as R.
  split_and!; [lia|lia|]. destruct (decide (i32 (p + 28) < 0)); [by left|right].
  assert (Hp : - 2 ^ 31 <= p < 2 ^ 31) by apply i32_range.
  rewrite (i32_nonneg (p + 28)) by lia. assert (Hp8 : i32 (p + 8) = p + 8) by (apply i32_nonneg; lia). rewrite Hp8 in B4.
  assert (p = j + 2 + (be_get r2 - 1) * 28); [|lia]. unfold p in *. destruct (decide (j + 2 + (be_get r2 - 1) * 28 < 2 ^ 31)); [apply i32_small; lia|].
  rewrite i32_wrap in * by lia. lia.
Qed.

(** Opening always ends: on any bytes of less than 2 GiB, however damaged,
    the scan of [UnmarshalBinary] returns an index, returns an error or panics
    on an index out of range; it never runs on for ever. *)
Theorem UnmarshalBinary_terminates (d : indirectIndex) (bs : list Z) :
  Forall is_byte bs -> len bs < 2 ^ 31 -> UnmarshalBinary d bs <> Fail does_not_return.
Proof.
  intros Hb Hsm. unfold UnmarshalBinary. destruct (length bs =? 0)%nat; [done|]. rewrite i32_small by lia.
  assert (Hloop : forall fuel i mn mx offs, - 2 ^ 31 <= i -> (0 <= i -> len bs - i < Z.of_nat fuel) -> (0 < fuel)%nat ->
    unmarshal_loop fuel bs (len bs) i mn mx offs <> Fail does_not_return).
  { induction fuel as [|fuel IH]; intros i mn mx offs Hi Hf H0; [lia|]. destruct (decide (i < len bs)) as [Hlt|Hge].
    - destruct (unmarshal_progress fuel bs i mn mx offs Hb Hsm Hlt Hi) as [(e & -> & He)|[->|(i' & mn' & mx' & offs' & -> & Hi0 & Hi' & Hp)]];
        [congruence|done|]. apply IH; [done|lia|]. specialize (Hf Hi0). destruct Hp; [|lia]. lia.
    - cbn [unmarshal_loop]. by rewrite (proj2 (Z.ltb_ge _ _)) by lia. }
  specialize (Hloop (S (length bs)) 0 (2 ^ 63 - 1) 0 [] ltac:(lia) ltac:(lia) ltac:(lia)).
  destruct (unmarshal_loop _ _ _ _ _ _ _) as [[[offs mn] mx]|e|]; cbn [obind]; [|by intros [= ->]|done].
  assert (Hrk : forall r, readKey r <> Fail does_not_return).
  { intros r. unfold readKey. destruct (sub r 0 2) as [x| |] eqn:E; [|revert E; unfold sub; by destruct (_ && _)|done]. cbn [obind].
    destruct (sub r 2 _) as [y| |] eqn:E'; [done|revert E'; unfold sub; by destruct (_ && _)|done]. }
  assert (Hfr : forall o, from bs o <> Fail does_not_return) by (intros o; unfold from, sub; by destruct (_ && _)).
  destruct (head offs) as [o0|]; [|done]. cbn [or_panic obind]. pose proof (Hfr o0).
  destruct (from bs o0) as [r0| |]; cbn [obind]; [|by intros [= ->]|done]. pose proof (Hrk r0). destruct (readKey r0) as [[n0 k0]| |]; cbn [obind]; [|by intros [= ->]|done].
  destruct (last offs) as [o1|]; [|done]. cbn [or_panic obind]. pose proof (Hfr o1).
  destruct (from bs o1) as [r1| |]; cbn [obind]; [|by intros [= ->]|done]. pose proof (Hrk r1). destruct (readKey r1) as [[n1 k1]| |]; [done|by intros [= ->]|done].
Qed.

(** ** A sample index *)

Definition sample_index : list series :=
  [MkSeries [97] 1 [MkEntry 10 20 5 100; MkEntry 30 40 105 50]; MkSeries [98; 98] 2 [MkEntry (-9) 25 155 60]].

Lemma sample_index_writable : Forall writable sample_index.
Proof.
  repeat constructor; cbn; try done; unfold maxKeyLength, maxIndexEntries, is_i64; cbn; try lia.
Qed.
Lemma sample_sorted : StronglySorted (fun x y => klt (skey x) (skey y)) sample_index.
Proof. repeat constructor. Qed.
Lemma sample_index_ok : index_ok sample_index.
Proof. split; [eapply Forall_impl; [exact sample_index_writable|]; by intros s [? _]|exact sample_sorted|vm_compute; done]. Qed.

Lemma index_roundtrip_witness :
  exists d bs ix, add_all NewIndexWriter sample_index = Ret d /\ direct_MarshalBinary d = Ret bs /\
    UnmarshalBinary NewIndirectIndex bs = Ret ix /\ Type_of ix [98; 98] = Ret 2.
Proof.
  destruct (index_roundtrip NewIndexWriter sample_index) as (d & bs & ix & E1 & E2 & E3 & _ & H & _);
    [by left|done|exact sample_index_writable|exact sample_sorted|vm_compute; done|].
  exists d, bs, ix. split; [exact E1|]. split; [exact E2|]. split; [exact E3|]. destruct (H 1%nat _ eq_refl) as (_ & _ & _ & Ht). exact Ht.
Defined.

(** Two ranges that together cover the first series. *)
Definition sample_ops : list op := [ODeleteRange [[98; 98]; [97]] 15 50; ODeleteRange [[97]] 5 14].

Lemma deletions_exact_witness :
  exists d d', UnmarshalBinary NewIndirectIndex (encode sample_index) = Ret d /\ run d sample_ops = Ret d' /\
    KeyCount d' = 1 /\ ContainsValue d' [98; 98] 14 = Ret true.
Proof.
  destruct (deletions_exact sample_index sample_ops) as (d & d' & E1 & E2 & H).
  - exact sample_index_ok.
  - repeat constructor; cbn; lia.
  - repeat constructor; unfold is_i64; lia.
  - exists d, d'. split; [exact E1|]. split; [exact E2|]. split.
    + assert (Hc : (let! d := UnmarshalBinary NewIndirectIndex (encode sample_index) in let! d' := run d sample_ops in Ret (KeyCount d')) = Ret 1)
        by (vm_compute; reflexivity).
      rewrite E1 in Hc. cbn [obind] in Hc. rewrite E2 in Hc. cbn [obind] in Hc. by injection Hc.
    + destruct (H [98; 98] 14) as (r & Er & Hr). rewrite Er. f_equal. apply Hr. split.
      * exists (MkSeries [98; 98] 2 [MkEntry (-9) 25 155 60]), (MkEntry (-9) 25 155 60). split_and!; cbn; try lia; repeat constructor.
      * intros [[_ Hx]|[[Hk _]|Hx]%Exists_cons]%Exists_cons; [lia|by apply list_elem_of_singleton in Hk|by apply Exists_nil in Hx].
Defined.

(** A length field that promises more blocks than there are bytes. *)
Lemma UnmarshalBinary_terminates_witness :
  UnmarshalBinary NewIndirectIndex [0; 1; 97; 1; 255; 255; 0; 0; 0; 0; 0; 0; 0; 0; 0; 0; 0] <> Fail does_not_return.
Proof. apply UnmarshalBinary_terminates; [repeat constructor; lia|cbn; lia]. Defined.

End TsmOpen.
