(* ===== verification/TsmFile.v ===== *)
(** * TSM files

    Models the writer of a TSM file ([tsmWriter] in [writer.go]) and the access
    to an opened one ([mmapAccessor] and [BlockIterator] in [reader.go]).  A
    file is a header, the blocks of every series each after its checksum, the
    index, and the position of the index.  Bytes handed to the writer below
    [bufio] arrive in order and writes do not fail; the mapped file is a list
    of bytes. *)
From S2P Require Import Prelude Values Block Ring WalLog TsmIndex DQueue.
From stdpp Require Import gmap sorting.
#[global] Open Scope Z_scope.

(** ** [crc32.ChecksumIEEE] *)

Definition crc_bit (c : Z) : Z := if Z.testbit c 0 then Z.lxor (Z.shiftr c 1) 3988292384 else Z.shiftr c 1.
Definition crc_byte (c x : Z) : Z := Nat.iter 8 crc_bit (Z.lxor c x).
Definition ChecksumIEEE (bs : list Z) : Z := Z.lxor (foldl crc_byte 4294967295 bs) 4294967295.

Example ChecksumIEEE_check : ChecksumIEEE [49; 50; 51; 52; 53; 54; 55; 56; 57] = 3421780262.
Proof. reflexivity. Qed.

(** What the file needs of the block codec: [Values.Encode] into a fresh
    buffer and [DecodeBlock], with the encoders and decoders of the pools. *)
Class BlockCodec := {
  bc_Encode : list Values.Value -> outcome (list Z);
  bc_Decode : list Z -> outcome (list Values.Value * option string) }.

Class BlockCodecOk (C : BlockCodec) := {
  bc_series : list Values.Value -> Prop;
  bc_roundtrip a : bc_series a ->
    exists blk t, bc_Encode a = Ret blk /\ bc_Decode blk = Ret (a, None) /\ Block.BlockType blk = Ret t }.

Module TsmFile.
Import Values TsmIndex.

Definition MagicNumber : Z := 382801617.
Definition Version : Z := 1.

Definition ErrNoValues : string := "no values written".
Definition ErrTSMClosed : string := "tsm file closed".
Definition ErrMaxKeyLengthExceeded : string := "max key length exceeded".
Definition ErrMaxBlocksExceeded : string := "max blocks exceeded".

Section File.
Context {C : BlockCodec}.

(** ** Writing *)

(** [w_out] is what went through the buffered writer; [w_syncer] is whether
    the wrapped writer is a file. *)
Record tsmWriter := MkWriter {
  w_out : list Z;
  w_index : directIndex;
  w_n : Z;
  w_lastSync : Z;
  w_syncer : bool }.
Abbreviation WM := (M tsmWriter).

Definition NewTSMWriter (syncer : bool) : tsmWriter := MkWriter [] NewIndexWriter 0 0 syncer.
(** The index gets a file of its own when the writer is a file. *)
Definition NewTSMWriterWithDiskBuffer (syncer : bool) : tsmWriter :=
  MkWriter [] (if syncer then NewDiskIndexWriter else NewIndexWriter) 0 0 syncer.

Definition set_n (n : Z) (t : tsmWriter) : tsmWriter := MkWriter (w_out t) (w_index t) n (w_lastSync t) (w_syncer t).
Definition set_lastSync (n : Z) (t : tsmWriter) : tsmWriter := MkWriter (w_out t) (w_index t) (w_n t) n (w_syncer t).
Definition set_index (d : directIndex) (t : tsmWriter) : tsmWriter := MkWriter (w_out t) d (w_n t) (w_lastSync t) (w_syncer t).

Definition emit (bs : list Z) : WM unit :=
  modify (fun t => MkWriter (w_out t ++ bs) (w_index t) (w_n t) (w_lastSync t) (w_syncer t)).

Definition writeHeader : WM unit :=
  emit (be_put 4 MagicNumber ++ [Version]) ;; modify (set_n 5).

(** The block and its checksum written and recorded, as both methods do. *)
Definition writeBlockBytes (key : list Z) (blockType minTime maxTime : Z) (block : list Z) : WM unit :=
  emit (be_put 4 (ChecksumIEEE block)) ;;
  emit block ;;
  t ← get;
  let n := len block + 4 in
  d ← lift (Add (w_index t) key blockType minTime maxTime (w_n t) (u32 n));
  modify (set_index d) ;;
  modify (set_n (i64 (w_n t + n))).

(** The limit is reported when it is reached, after the block was written. *)
Definition checkFull (key : list Z) : WM unit :=
  t ← get;
  es ← lift (direct_Entries (w_index t) key);
  if maxIndexEntries <=? len es then fail ErrMaxBlocksExceeded else mret tt.

Definition header_if_new : WM unit := t ← get; if w_n t =? 0 then writeHeader else mret tt.

Definition Write (key : list Z) (values : list Value) : WM unit :=
  if maxKeyLength <? len key then fail ErrMaxKeyLengthExceeded
  else if (length values =? 0)%nat then mret tt
  else
    header_if_new ;;
    block ← lift (bc_Encode values);
    blockType ← lift (Block.BlockType block);
    v0 ← lift (or_panic (head values));
    v1 ← lift (or_panic (last values));
    writeBlockBytes key blockType (UnixNano v0) (UnixNano v1) block ;;
    checkFull key.

Definition WriteBlock (key : list Z) (minTime maxTime : Z) (block : list Z) : WM unit :=
  if maxKeyLength <? len key then fail ErrMaxKeyLengthExceeded
  else if (length block =? 0)%nat then mret tt
  else
    blockType ← lift (Block.BlockType block);
    header_if_new ;;
    writeBlockBytes key blockType minTime maxTime block ;;
    t ← get;
    (if fsyncEvery <? i64 (w_n t - w_lastSync t) then modify (set_lastSync (w_n t)) else mret tt) ;;
    checkFull key.

Definition WriteIndex : WM unit :=
  t ← get;
  let indexPos := w_n t in
  if direct_KeyCount (w_index t) =? 0 then fail ErrNoValues
  else
    let d := w_index t in
    let d := MkDirect (keyCount d) (size d) (lastSync d) (disk d) (f d || w_syncer t) (buf d) (key d) (ies d) in
    r ← lift (WriteTo d);
    let '(bs, d) := r : list Z * directIndex in
    modify (set_index d) ;;
    emit bs ;;
    emit (be_put 8 (u64 indexPos)).

Definition Writer_Size (t : tsmWriter) : Z := u32 (u32 (w_n t) + direct_Size (w_index t)).

(** ** Opening *)

Definition verifyVersion (file : list Z) : outcome unit :=
  if len file <? 4 then Fail "init: error reading magic number of file"
  else if negb (be_get (take 4 file) =? MagicNumber) then Fail "can only read from tsm file"
  else
    match file !! 4%nat with
    | None => Fail "init: error reading version"
    | Some v => if negb (v =? Version) then Fail "init: unexpected file version" else Ret tt
    end.

(** The mapped bytes, [None] once closed, with the counters that decide when
    the pages may be released. *)
Record mmapAccessor := MkAccessor {
  m_b : option (list Z);
  m_index : indirectIndex;
  m_access : Z;
  m_free : Z }.

(** The bytes of a nil slice are none. *)
Definition mapped (m : mmapAccessor) : list Z := default [] (m_b m).
Definition incAccess (m : mmapAccessor) : mmapAccessor := MkAccessor (m_b m) (m_index m) (u64 (m_access m + 1)) (m_free m).

Definition init (file : list Z) : outcome mmapAccessor :=
  let! _ := verifyVersion file in
  if len file <? 8 then Fail "mmapAccessor: byte slice too small for indirectIndex"
  else
    let indexOfsPos := len file - 8 in
    let! x := sub file indexOfsPos (indexOfsPos + 8) in
    let indexStart := be_get x in
    if indexOfsPos <=? indexStart then Fail "mmapAccessor: invalid indexStart"
    else
      let! ib := sub file indexStart indexOfsPos in
      let! d := UnmarshalBinary NewIndirectIndex ib in
      Ret (MkAccessor (Some file) d 1 1).

(** Whether the pages are released, and the counters after. *)
Definition free (m : mmapAccessor) : bool * mmapAccessor :=
  if (m_free m =? 0) && (m_access m =? 0) then (false, m)
  else if negb (m_access m =? m_free m) then (false, MkAccessor (m_b m) (m_index m) (m_access m) (m_access m))
  else (true, MkAccessor (m_b m) (m_index m) 0 0).

Definition close (m : mmapAccessor) : mmapAccessor := MkAccessor None (m_index m) (m_access m) (m_free m).

(** ** Reading blocks *)

(** The bytes of an entry from [skip] on. *)
Definition block_bytes (bs : list Z) (e : IndexEntry) (skip : Z) : outcome (list Z) :=
  sub bs (i64 (Offset e + skip)) (i64 (Offset e + Size e)).

Definition decoded (r : outcome (list Value * option string)) : outcome (list Value) :=
  let! (vs, err) := r in match err with None => Ret vs | Some e => Fail e end.

Definition readBlock (m : mmapAccessor) (e : IndexEntry) : outcome (list Value) * mmapAccessor :=
  let m := incAccess m in
  (if len (mapped m) <? i64 (Offset e + Size e) then Fail ErrTSMClosed
   else let! blk := block_bytes (mapped m) e 4 in decoded (bc_Decode blk), m).

(** [nil, nil] is the empty list. *)
Definition read (m : mmapAccessor) (key : list Z) (t : Z) : outcome (list Value) * mmapAccessor :=
  match Entry (m_index m) key t with
  | Ret None => (Ret [], m)
  | Ret (Some e) => readBlock m e
  | Fail e => (Fail e, m)
  | Panic => (Panic, m)
  end.

Definition readBytes (m : mmapAccessor) (e : IndexEntry) : outcome (Z * list Z) * mmapAccessor :=
  let m := incAccess m in
  (if len (mapped m) <? i64 (Offset e + Size e) then Fail ErrTSMClosed
   else
     let! crc := sub (mapped m) (Offset e) (i64 (Offset e + 4)) in
     let! blk := block_bytes (mapped m) e 4 in
     Ret (be_get crc, blk), m).

(** The values of a block without those a tombstone covers. *)
Fixpoint exclude_all (ts : list TimeRange) (vs : list Value) : outcome (list Value) :=
  match ts with
  | [] => Ret vs
  | t :: ts => let! vs := Exclude UnixNano vs (Min t) (Max t) in exclude_all ts vs
  end.

Definition skipped (ts : list TimeRange) (e : IndexEntry) : bool :=
  existsb (fun t => (Min t <=? MinTime e) && (MaxTime e <=? Max t)) ts.

Fixpoint readAll_loop (bs : list Z) (ts : list TimeRange) (blocks : list IndexEntry) : outcome (list Value) :=
  match blocks with
  | [] => Ret []
  | e :: blocks =>
    if skipped ts e then readAll_loop bs ts blocks
    else
      let! blk := block_bytes bs e 4 in
      let! temp := decoded (bc_Decode blk) in
      let! temp := exclude_all ts temp in
      let! rest := readAll_loop bs ts blocks in
      Ret (temp ++ rest)
  end.

Definition readAll (m : mmapAccessor) (key : list Z) : outcome (list Value) * mmapAccessor :=
  let m := incAccess m in
  (let! blocks := Entries (m_index m) key in
   if (length blocks =? 0)%nat then Ret []
   else readAll_loop (mapped m) (TombstoneRange (m_index m) key) blocks, m).

(** ** Iterating over the blocks *)

Record BlockIterator := MkIter {
  it_i : Z;
  it_n : Z;
  it_key : list Z;
  it_entries : list IndexEntry;
  it_err : option string;
  it_typ : Z }.

Definition NewBlockIterator (m : mmapAccessor) : BlockIterator := MkIter 0 (KeyCount (m_index m)) [] [] None 0.

Definition PeekNext (m : mmapAccessor) (it : BlockIterator) : outcome (list Z) :=
  if (1 <? length (it_entries it))%nat then Ret (it_key it)
  else if 1 <? it_n it - it_i it then let! (k, _) := KeyAt (m_index m) (it_i it + 1) in Ret k
  else Ret [].

(** The next key of the index. *)
Definition next_key (m : mmapAccessor) (it : BlockIterator) : outcome (bool * BlockIterator) :=
  if 0 <? it_n it - it_i it then
    let! ((k, typ), es) := Key (m_index m) (it_i it) in
    let it := MkIter (it_i it + 1) (it_n it) k es (it_err it) typ in
    if negb (it_n it =? KeyCount (m_index m)) then
      Ret (false, MkIter (it_i it) (it_n it) (it_key it) (it_entries it) (Some "delete during iteration"%string) (it_typ it))
    else Ret (negb (length es =? 0)%nat, it)
  else Ret (false, it).

Definition Next (m : mmapAccessor) (it : BlockIterator) : outcome (bool * BlockIterator) :=
  match it_err it with
  | Some _ => Ret (false, it)
  | None =>
    if (it_n it - it_i it =? 0) && (length (it_entries it) =? 0)%nat then Ret (false, it)
    else
      match it_entries it with
      | _ :: es =>
        let it := MkIter (it_i it) (it_n it) (it_key it) es (it_err it) (it_typ it) in
        if negb (length es =? 0)%nat then Ret (true, it) else next_key m it
      | [] => next_key m it
      end
  end.

(** The key, the time range, the type, the checksum and the bytes of the
    current block. *)
Record block_info := MkInfo { bi_key : list Z; bi_min : Z; bi_max : Z; bi_typ : Z; bi_crc : Z; bi_buf : list Z }.

Definition Read (m : mmapAccessor) (it : BlockIterator) : outcome block_info * (BlockIterator * mmapAccessor) :=
  match it_err it with
  | Some e => (Fail e, (it, m))
  | None =>
    match it_entries it with
    | [] => (Panic, (it, m))
    | e :: _ =>
      let '(r, m) := readBytes m e in
      match r with
      | Ret (crc, blk) => (Ret (MkInfo (it_key it) (MinTime e) (MaxTime e) (it_typ it) crc blk), (it, m))
      | Fail err => (Fail err, (MkIter (it_i it) (it_n it) (it_key it) (it_entries it) (Some err) (it_typ it), m))
      | Panic => (Panic, (it, m))
      end
    end
  end.
Definition Err (it : BlockIterator) : option string := it_err it.

End File.
End TsmFile.
