(* ===== verification/TsmFileSpec.v ===== *)
(** * TSM files: what is written is read

    A file written series by series and block by block opens, and after any
    run of deletions reading a series returns the values written for it less
    those deleted. *)
From S2P Require Import Prelude Codec IntCodec TimeCodec IntStream TimeStream BoolCodec StringCodec Bits FloatCodec Values Block Ring WalLog TsmIndex TsmIndexSpec TsmDelete TsmDeleteRange TsmOpen DQueue DQueueSegs TsmFile.
From stdpp Require Import gmap sorting.
#[global] Open Scope Z_scope.

Module TsmFileSpec.
Import Values TsmIndex TsmIndexSpec TsmDelete TsmDeleteRange TsmOpen TsmFile.

Abbreviation sorted := (StronglySorted (before UnixNano)).
Abbreviation len l := (Z.of_nat (length l)).

Section Spec.
Context {C : BlockCodec} {CO : BlockCodecOk C}.

(** A series to write: its key and the values of its blocks. *)
Abbreviation plan := (list Z * list (list Value))%type.

Definition block_of (vs : list Value) : list Z := match bc_Encode vs with Ret blk => blk | _ => [] end.
Definition stored_bytes (vs : list Value) : list Z := be_put 4 (ChecksumIEEE (block_of vs)) ++ block_of vs.
Definition series_bytes (p : plan) : list Z := concat (stored_bytes <$> p.2).
Definition body (ps : list plan) : list Z := concat (series_bytes <$> ps).

Record plan_ok (p : plan) : Prop := {
  po_key : 0 < len p.1 <= maxKeyLength;
  po_blocks : p.2 <> [] /\ len p.2 < maxIndexEntries;
  po_series : Forall (fun vs => vs <> [] /\ bc_series vs) p.2;
  po_sorted : sorted (concat p.2);
  po_times : Forall (fun v => is_i64 (UnixNano v)) (concat p.2) }.

(** ** Blocks in the file *)

Definition first_of (vs : list Value) : Z := match head vs with Some v => UnixNano v | None => 0 end.
Definition last_of (vs : list Value) : Z := match last vs with Some v => UnixNano v | None => 0 end.

Definition stored (bs : list Z) (e : IndexEntry) (vs : list Value) : Prop :=
  exists pre post, bs = pre ++ stored_bytes vs ++ post /\
    e = MkEntry (first_of vs) (last_of vs) (len pre) (len (stored_bytes vs)).

Lemma stored_app bs more e vs : stored bs e vs -> stored (bs ++ more) e vs.
Proof. intros (pre & post & -> & ->). exists pre, (post ++ more). by rewrite <- !app_assoc. Qed.
Lemma stored_all_app bs more es vss : Forall2 (stored bs) es vss -> Forall2 (stored (bs ++ more)) es vss.
Proof. intros H. eapply Forall2_impl; [exact H|]. intros. by apply stored_app. Qed.

Lemma encode_block vs : bc_series vs -> exists t, bc_Encode vs = Ret (block_of vs) /\ bc_Decode (block_of vs) = Ret (vs, None) /\
  Block.BlockType (block_of vs) = Ret t.
Proof. intros H. destruct (bc_roundtrip vs H) as (blk & t & E & D & T). exists t. unfold block_of. by rewrite E. Qed.

(** ** The state of the writer *)

Definition header : list Z := be_put 4 MagicNumber ++ [Version].
Lemma header_length : len header = 5.
Proof. done. Qed.

(** The series of [flushed] are in the index, [cur] is still collected. *)
Record writing (t : tsmWriter) (flushed : list series) (cur : series) (ps : list plan) : Prop := {
  wt_index : written (w_index t) flushed cur;
  wt_n : w_n t = len (w_out t);
  wt_out : w_out t = header ++ body ps;
  wt_stored : Forall2 (fun s p => skey s = p.1 /\ Forall2 (stored (w_out t)) (sents s) p.2) (flushed ++ [cur]) ps }.

Lemma writeBlockBytes_run t key typ vs d' :
  Add (w_index t) key typ (first_of vs) (last_of vs) (w_n t) (len (stored_bytes vs)) = Ret d' ->
  w_n t = len (w_out t) -> len (w_out t) + len (stored_bytes vs) < 2 ^ 31 ->
  writeBlockBytes key typ (first_of vs) (last_of vs) (block_of vs) t
  = (Ret tt, MkWriter (w_out t ++ stored_bytes vs) d' (len (w_out t ++ stored_bytes vs)) (w_lastSync t) (w_syncer t)).
Proof.
  intros E Hn Hsm. assert (Hl : len (stored_bytes vs) = len (block_of vs) + 4) by (unfold stored_bytes; rewrite length_app, be_put_length; lia).
  unfold writeBlockBytes. do 3 mnow. erewrite bind_ret; [|unfold lift; cbn [w_index w_n]; unfold u32; rewrite Z.mod_small, <- Hl, E by lia; reflexivity].
  mnow. unfold modify, set_n, set_index. cbn [w_out w_index w_n w_lastSync w_syncer]. unfold stored_bytes. rewrite <- app_assoc. do 2 f_equal.
  rewrite i64_id by (unfold is_i64; lia). rewrite !length_app, be_put_length. lia.
Qed.

Lemma body_snoc ps p : body (ps ++ [p]) = body ps ++ series_bytes p.
Proof. unfold body. rewrite fmap_app, concat_app. cbn [fmap list_fmap concat]. by rewrite app_nil_r. Qed.
Lemma series_bytes_snoc k vss vs : series_bytes (k, vss ++ [vs]) = series_bytes (k, vss) ++ stored_bytes vs.
Proof. unfold series_bytes. cbn [snd]. rewrite fmap_app, concat_app. cbn [fmap list_fmap concat]. by rewrite app_nil_r. Qed.

Lemma head_last_Some (vs : list Value) : vs <> [] -> exists v0 v1, head vs = Some v0 /\ last vs = Some v1 /\
  first_of vs = UnixNano v0 /\ last_of vs = UnixNano v1.
Proof.
  intros Hne. unfold first_of, last_of. destruct vs as [|v0 vs]; [done|]. destruct (last (v0 :: vs)) as [v1|] eqn:E; [|by apply last_None in E].
  by exists v0, v1.
Qed.

(** [Write] past its header: the block goes to the end of the file and into
    the index. *)
Lemma Write_run t key vs t0 :
  len key <= maxKeyLength -> vs <> [] -> bc_series vs -> header_if_new t = (Ret tt, t0) -> w_n t0 = len (w_out t0) ->
  len (w_out t0) + len (stored_bytes vs) < 2 ^ 31 ->
  (forall typ, exists d', Add (w_index t0) key typ (first_of vs) (last_of vs) (w_n t0) (len (stored_bytes vs)) = Ret d' /\
    exists es, direct_Entries d' key = Ret es /\ len es < maxIndexEntries) ->
  exists typ d', Add (w_index t0) key typ (first_of vs) (last_of vs) (w_n t0) (len (stored_bytes vs)) = Ret d' /\
    Write key vs t = (Ret tt, MkWriter (w_out t0 ++ stored_bytes vs) d' (len (w_out t0 ++ stored_bytes vs)) (w_lastSync t0) (w_syncer t0)).
Proof.
  intros Hk Hne Hs Hh Hn Hsm HA. unfold Write. rewrite (proj2 (Z.ltb_ge _ _)) by done.
  assert ((length vs =? 0)%nat = false) as -> by (by destruct vs). cbv iota.
  destruct (encode_block vs Hs) as (typ & E1 & _ & E3). destruct (head_last_Some vs Hne) as (v0 & v1 & Eh & El & Ef & Eg).
  destruct (HA typ) as (d' & Ea & es & Ee & Hes). exists typ, d'. split; [done|].
  erewrite bind_ret; [|exact Hh]. erewrite bind_ret; [|unfold lift; rewrite E1; reflexivity]. erewrite bind_ret; [|unfold lift; rewrite E3; reflexivity].
  erewrite bind_ret; [|unfold lift; rewrite Eh; reflexivity]. erewrite bind_ret; [|unfold lift; rewrite El; reflexivity].
  rewrite <- Ef, <- Eg. erewrite bind_ret; [|apply (writeBlockBytes_run t0 key typ vs d'); done].
  unfold checkFull. mnow. erewrite bind_ret; [|unfold lift; cbn [w_index]; rewrite Ee; reflexivity].
  rewrite (proj2 (Z.leb_gt _ _)) by done. done.
Qed.

Lemma written_entries d flushed cur : written d flushed cur -> direct_Entries d (skey cur) = Ret (sents cur).
Proof.
  intros [H1 H2 H3 _ _ _]. unfold direct_Entries. rewrite H1, (key_nonempty _ H2). unfold Bytes.Equal. by rewrite bool_decide_eq_true_2, H3 by done.
Qed.

Lemma header_skip t : 0 < w_n t -> header_if_new t = (Ret tt, t).
Proof. intros. unfold header_if_new. mnow. by rewrite (proj2 (Z.eqb_neq _ _)) by lia. Qed.

Abbreviation entry_for vs o := (MkEntry (first_of vs) (last_of vs) o (len (stored_bytes vs))).

Lemma stored_last bs vs : stored (bs ++ stored_bytes vs) (entry_for vs (len bs)) vs.
Proof. exists bs, []. by rewrite app_nil_r. Qed.

Lemma Forall2_snoc_stored bs more es vss e vs : Forall2 (stored bs) es vss -> stored (bs ++ more) e vs -> Forall2 (stored (bs ++ more)) (es ++ [e]) (vss ++ [vs]).
Proof. intros H1 H2. apply Forall2_app; [by apply stored_all_app|by constructor]. Qed.
Lemma stored_series_app bs more (ss : list series) (ps : list plan) :
  Forall2 (fun s p => skey s = p.1 /\ Forall2 (stored bs) (sents s) p.2) ss ps ->
  Forall2 (fun s p => skey s = p.1 /\ Forall2 (stored (bs ++ more)) (sents s) p.2) ss ps.
Proof. intros H. eapply Forall2_impl; [exact H|]. intros s p [? ?]. split; [done|]. by apply stored_all_app. Qed.

(** The first block of a new key. *)
Lemma Write_first key vs sy : 0 < len key <= maxKeyLength -> vs <> [] -> bc_series vs -> 5 + len (stored_bytes vs) < 2 ^ 31 ->
  forall t0, t0 = NewTSMWriter sy \/ t0 = NewTSMWriterWithDiskBuffer sy ->
  exists t typ, Write key vs t0 = (Ret tt, t) /\ writing t [] (MkSeries key typ [entry_for vs 5]) [(key, [vs])] /\ w_syncer t = sy.
Proof.
  intros Hk Hne Hs Hsm t0 Ht0. assert (Hke : key <> []) by (destruct key; [cbn in Hk; lia|done]).
  assert (Hd : w_index t0 = NewIndexWriter \/ w_index t0 = NewDiskIndexWriter) by (destruct Ht0 as [->| ->]; cbn; destruct sy; auto).
  assert (Ho : w_out t0 = [] /\ w_n t0 = 0 /\ w_syncer t0 = sy) by (by destruct Ht0 as [->| ->]). destruct Ho as (Ho & Hn & Hy).
  set (t1 := MkWriter header (w_index t0) 5 (w_lastSync t0) (w_syncer t0)).
  assert (Hh : header_if_new t0 = (Ret tt, t1)).
  { unfold header_if_new. mnow. rewrite Hn. cbn [Z.eqb]. unfold writeHeader. mnow. unfold modify, set_n. cbn [w_out w_index w_lastSync w_syncer]. by rewrite Ho. }
  assert (HA : forall typ, exists d', Add (w_index t0) key typ (first_of vs) (last_of vs) 5 (len (stored_bytes vs)) = Ret d' /\
     written d' [] (MkSeries key typ [entry_for vs 5])).
  { intros typ. apply (Add_first (w_index t0) (entry_for vs 5) key typ); try done; destruct Hd as [->| ->]; (done || by left). }
  destruct (Write_run t0 key vs t1) as (typ & d' & Ea & Ew); [lia|done|done|exact Hh|done|unfold t1; cbn [w_out]; change (len header) with 5; lia| |].
  - intros typ. destruct (HA typ) as (d' & Ea & Wd). exists d'. split; [done|]. eexists. split; [exact (written_entries _ _ _ Wd)|].
    cbn. unfold maxIndexEntries. lia.
  - destruct (HA typ) as (d2 & Ea2 & Wd). cbn [t1 w_index w_n] in Ea. rewrite Ea in Ea2. injection Ea2 as <-. eexists _, typ. split; [exact Ew|].
    split; [|done]. split; cbn [w_index w_n w_out t1]; [done|done| |].
    + unfold body, series_bytes. cbn [fmap list_fmap concat snd]. by rewrite !app_nil_r.
    + constructor; [|constructor]. split; [done|]. cbn [sents snd]. constructor; [|constructor]. apply (stored_last header vs).
Qed.

(** Another block of the key being collected. *)
Lemma Write_same t flushed cur ps vss vs : writing t flushed cur (ps ++ [(skey cur, vss)]) ->
  len (skey cur) <= maxKeyLength -> vs <> [] -> bc_series vs -> len (sents cur) + 1 < maxIndexEntries ->
  len (w_out t) + len (stored_bytes vs) < 2 ^ 31 ->
  exists t', Write (skey cur) vs t = (Ret tt, t') /\ w_syncer t' = w_syncer t /\
    writing t' flushed (MkSeries (skey cur) (stype cur) (sents cur ++ [entry_for vs (len (w_out t))])) (ps ++ [(skey cur, vss ++ [vs])]).
Proof.
  intros [H1 H2 H3 H4] Hk Hne Hs Hc Hsm. assert (Hpos : 0 < w_n t) by (rewrite H2, H3, length_app; change (length header) with 5%nat; lia).
  pose proof (fun typ => Add_same (w_index t) flushed cur (entry_for vs (w_n t)) typ H1) as HA. cbn [MinTime MaxTime Offset Size] in HA.
  destruct (Write_run t (skey cur) vs t) as (typ & d' & Ea & Ew); [done|done|done|by apply header_skip|done|done| |].
  - intros typ. destruct (HA typ) as (d' & Ea & Wd & _). exists d'. split; [done|]. eexists. split; [exact (written_entries _ _ _ Wd)|].
    cbn [sents]. rewrite length_app. cbn [length]. lia.
  - destruct (HA typ) as (d2 & Ea2 & Wd & _). rewrite Ea in Ea2. injection Ea2 as <-. rewrite H2 in Wd. eexists. split; [exact Ew|]. split; [done|].
    split; cbn [w_index w_n w_out]; [done|done| |].
    + rewrite body_snoc, series_bytes_snoc, H3, body_snoc. by rewrite <- !app_assoc.
    + apply Forall2_app_inv in H4 as [H4 H5]; [|apply Forall2_length in H4; rewrite !length_app in H4; cbn in H4; lia].
      apply Forall2_app; [by apply stored_series_app|]. inversion H5 as [|? ? ? ? [_ Hst]]; subst. constructor; [|constructor]. split; [done|].
      cbn [sents snd] in *. apply Forall2_snoc_stored; [done|]. apply stored_last.
Qed.

(** The first block of a later key. *)
Lemma Write_block_next t flushed cur ps key vs : writing t flushed cur ps -> writable cur -> klt (skey cur) key ->
  len key <= maxKeyLength -> vs <> [] -> bc_series vs -> len (w_out t) + len (stored_bytes vs) < 2 ^ 31 ->
  exists t' typ, Write key vs t = (Ret tt, t') /\ w_syncer t' = w_syncer t /\
    writing t' (flushed ++ [cur]) (MkSeries key typ [entry_for vs (len (w_out t))]) (ps ++ [(key, [vs])]).
Proof.
  intros [H1 H2 H3 H4] Hw Hlt Hk Hne Hs Hsm. assert (Hpos : 0 < w_n t) by (rewrite H2, H3, length_app; change (length header) with 5%nat; lia).
  pose proof (fun typ => Add_next (w_index t) flushed cur (entry_for vs (w_n t)) key typ H1 Hw Hlt) as HA. cbn [MinTime MaxTime Offset Size] in HA.
  destruct (Write_run t key vs t) as (typ & d' & Ea & Ew); [done|done|done|by apply header_skip|done|done| |].
  - intros typ. destruct (HA typ) as (d' & Ea & Wd & _). exists d'. split; [done|]. eexists. split; [exact (written_entries _ _ _ Wd)|].
    cbn. unfold maxIndexEntries. lia.
  - destruct (HA typ) as (d2 & Ea2 & Wd & _). rewrite Ea in Ea2. injection Ea2 as <-. rewrite H2 in Wd. eexists _, typ. split; [exact Ew|]. split; [done|].
    split; cbn [w_index w_n w_out]; [done|done| |].
    + rewrite body_snoc, H3, <- app_assoc. do 2 f_equal. unfold series_bytes. cbn [snd fmap list_fmap concat]. by rewrite app_nil_r.
    + apply Forall2_app; [by apply stored_series_app|]. constructor; [|constructor]. split; [done|]. cbn [sents snd].
      constructor; [apply stored_last|constructor].
Qed.

(** ** The series of a plan *)

Lemma first_of_elem vs : vs <> [] -> exists v, v ∈ vs /\ first_of vs = UnixNano v.
Proof. intros H. destruct vs as [|v vs]; [done|]. exists v. split; [apply elem_of_cons; by left|done]. Qed.
Lemma last_of_elem vs : vs <> [] -> exists v, v ∈ vs /\ last_of vs = UnixNano v.
Proof.
  intros H. destruct (head_last_Some vs H) as (v0 & v1 & _ & El & _ & Eg). exists v1. split; [by apply last_Some_elem_of|done].
Qed.
Lemma elem_concat (vs : list Value) vss v : vs ∈ vss -> v ∈ vs -> v ∈ concat vss.
Proof. intros H1 H2. apply list_elem_of_In, in_concat. exists vs. split; by apply list_elem_of_In. Qed.

Lemma concat_first_last (vss : list (list Value)) vs0 vs1 : Forall (fun vs => vs <> []) vss -> head vss = Some vs0 -> last vss = Some vs1 ->
  head (concat vss) = head vs0 /\ last (concat vss) = last vs1.
Proof.
  intros Hne Hh Hl. split.
  - destruct vss as [|vs vss]; [done|]. cbn in Hh. simplify_eq. apply Forall_cons_1 in Hne as [Hne _]. by destruct vs0.
  - apply last_Some in Hl as [vss' ->]. apply Forall_app in Hne as [_ [Hne _]%Forall_cons_1]. rewrite concat_app. cbn [concat]. rewrite app_nil_r.
    destruct (last vs1) as [v|] eqn:E; [|by apply last_None in E]. apply last_Some in E as [l ->]. by rewrite app_assoc, !last_snoc.
Qed.

Section Planned.
Context (bs : list Z) (Hbs : len bs < 2 ^ 31) (p : plan) (Hp : plan_ok p).
Context (s : series) (Hkey : skey s = p.1) (Hst : Forall2 (stored bs) (sents s) p.2).

Lemma planned_bounds vs : vs ∈ p.2 -> Forall (fun v => first_time s <= UnixNano v <= last_time s) vs.
Proof.
  intros Hvs. destruct Hp as [_ [Hne _] Hser Hsort _].
  assert (Hne' : Forall (fun vs => vs <> []) p.2) by (eapply Forall_impl; [exact Hser|]; by intros ? [? _]).
  destruct (head p.2) as [vs0|] eqn:Eh; [|by destruct p.2]. destruct (last p.2) as [vs1|] eqn:El; [|by apply last_None in El].
  destruct (concat_first_last p.2 vs0 vs1 Hne' Eh El) as [Hch Hcl].
  assert (H0 : vs0 ∈ p.2) by (destruct p.2; [done|]; cbn in Eh; simplify_eq; apply elem_of_cons; by left).
  assert (H1 : vs1 ∈ p.2) by (by apply last_Some_elem_of). rewrite Forall_forall in Hne'.
  destruct (head_last_Some vs0 (Hne' _ H0)) as (v0 & _ & Ev0 & _ & Ef & _). destruct (head_last_Some vs1 (Hne' _ H1)) as (_ & v1 & _ & Ev1 & _ & Eg).
  assert (Ef' : first_time s = UnixNano v0).
  { unfold first_time. destruct (sents s) as [|e es]; [by inversion Hst; simplify_eq|].
    inversion Hst as [|? y ? ? Hs Hr E1 E2]; subst. destruct Hs as (pre & post & _ & ->). rewrite <- E2 in Eh. cbn in Eh |- *. by simplify_eq. }
  assert (Eg' : last_time s = UnixNano v1).
  { unfold last_time. apply last_Some in El as [vss' E2]. pose proof Hst as Hst'. rewrite E2 in Hst'.
    apply Forall2_app_inv_r in Hst' as (es & es' & _ & H2 & ->). inversion H2 as [|e ? l ? Hs H3]; subst.
    destruct Hs as (pre & post & _ & ->). inversion H3; subst. by rewrite last_snoc. }
  pose proof (sorted_bounds UnixNano (concat p.2) v0 v1 Hsort (eq_trans Hch Ev0) (eq_trans Hcl Ev1)) as Hb.
  rewrite Forall_forall in Hb. apply Forall_forall. intros v Hv. rewrite Ef', Eg'. apply Hb. exact (elem_concat vs p.2 v Hvs Hv).
Qed.

Lemma planned_entry e vs : vs ∈ p.2 -> stored bs e vs -> wf_entry e /\ first_time s <= MinTime e /\ MaxTime e <= last_time s.
Proof.
  intros Hvs (pre & post & E & ->). pose proof (planned_bounds vs Hvs) as Hb. rewrite Forall_forall in Hb.
  destruct Hp as [_ _ Hser _ Ht]. rewrite Forall_forall in Hser. destruct (Hser vs Hvs) as [Hne _].
  destruct (first_of_elem vs Hne) as (v0 & Hv0 & E0). destruct (last_of_elem vs Hne) as (v1 & Hv1 & E1).
  pose proof (Hb v0 Hv0). pose proof (Hb v1 Hv1). rewrite Forall_forall in Ht.
  pose proof (Ht v0 (elem_concat _ _ _ Hvs Hv0)). pose proof (Ht v1 (elem_concat _ _ _ Hvs Hv1)).
  unfold wf_entry. cbn [MinTime MaxTime Offset Size]. rewrite E0, E1. rewrite E, !length_app in Hbs. unfold is_i64 in *. split_and!; lia.
Qed.

Lemma planned_IsSorted : entries_IsSorted (sents s) = true.
Proof.
  destruct Hp as [_ _ Hser Hsort _]. clear Hkey Hbs. revert Hser Hsort. induction Hst as [|e vs es vss (pre & post & _ & ->) H2 IH]; intros Hser Hsort; [done|].
  cbn [entries_IsSorted]. destruct es as [|e' es]; [done|]. inversion H2 as [|? vs' ? vss' (pre' & post' & _ & ->) H3]; subst.
  apply Forall_cons_1 in Hser as [[Hne _] Hser]. pose proof (Forall_cons_1 _ _ _ Hser) as [[Hne' _] _]. cbn [concat] in Hsort.
  apply sorted_app in Hsort as (_ & Hsort & Hlt). rewrite IH by done. rewrite andb_true_r. cbn [MinTime].
  destruct (first_of_elem vs Hne) as (v0 & Hv0 & ->). destruct (first_of_elem vs' Hne') as (v1 & Hv1 & ->).
  rewrite Forall_forall in Hlt. specialize (Hlt v0 Hv0). rewrite Forall_forall in Hlt. specialize (Hlt v1 ltac:(apply elem_of_app; by left)).
  unfold before in Hlt. by rewrite (proj2 (Z.ltb_ge _ _)) by lia.
Qed.

Lemma planned_writable : writable s /\ spans s.
Proof.
  pose proof (Forall2_length _ _ _ Hst) as Hl. pose proof Hp as [Hk [Hne Hn] _ _ _].
  assert (He : Forall (fun e => wf_entry e /\ first_time s <= MinTime e /\ MaxTime e <= last_time s) (sents s)).
  { apply Forall_forall. intros e [i Hi]%list_elem_of_lookup_1. destruct (Forall2_lookup_l _ _ _ _ _ Hst Hi) as (vs & Hvs & Hs).
    eapply planned_entry; [by eapply list_elem_of_lookup_2|done]. }
  split; [split_and!|].
  - split_and!; [rewrite Hkey; lia| |lia|]; [intros E; rewrite E in Hl; by destruct p.2|].
    eapply Forall_impl; [exact He|]. by intros ? [? _].
  - intros E. rewrite Hkey in E. rewrite E in Hk. cbn in Hk. lia.
  - apply planned_IsSorted.
  - eapply Forall_impl; [exact He|]. by intros ? [_ ?].
Qed.
End Planned.

(** ** Writing a whole file *)

Fixpoint write_blocks (k : list Z) (vss : list (list Value)) : M tsmWriter unit :=
  match vss with [] => mret tt | vs :: vss => Write k vs ;; write_blocks k vss end.
Fixpoint write_all (ps : list plan) : M tsmWriter unit :=
  match ps with [] => mret tt | p :: ps => write_blocks p.1 p.2 ;; write_all ps end.

Lemma writing_length t flushed cur ps vss : writing t flushed cur (ps ++ [(skey cur, vss)]) -> length (sents cur) = length vss.
Proof.
  intros [_ _ _ H]. apply Forall2_app_inv in H as [_ H]; [|apply Forall2_length in H; rewrite !length_app in H; cbn in H; lia].
  inversion H as [|? ? ? ? [_ Hst]]; subst. by apply Forall2_length in Hst.
Qed.
Lemma writing_size t flushed cur ps : writing t flushed cur ps -> len (w_out t) = 5 + len (body ps).
Proof. intros [_ _ -> _]. rewrite length_app. change (length header) with 5%nat. lia. Qed.

Lemma write_blocks_run vss : forall t flushed cur ps vss0, writing t flushed cur (ps ++ [(skey cur, vss0)]) ->
  len (skey cur) <= maxKeyLength -> Forall (fun vs => vs <> [] /\ bc_series vs) vss -> len vss0 + len vss < maxIndexEntries ->
  5 + len (body (ps ++ [(skey cur, vss0 ++ vss)])) < 2 ^ 31 ->
  exists t' cur', write_blocks (skey cur) vss t = (Ret tt, t') /\ skey cur' = skey cur /\ w_syncer t' = w_syncer t /\
    writing t' flushed cur' (ps ++ [(skey cur, vss0 ++ vss)]).
Proof.
  induction vss as [|vs vss IH]; intros t flushed cur ps vss0 W Hk Hs Hn Hsm; cbn [write_blocks].
  { exists t, cur. by rewrite app_nil_r. }
  apply Forall_cons_1 in Hs as [[Hne Hser] Hs]. pose proof (writing_length _ _ _ _ _ W) as Hl. pose proof (writing_size _ _ _ _ W) as Hsz.
  assert (Hgrow : len (body (ps ++ [(skey cur, vss0)])) + len (stored_bytes vs) <= len (body (ps ++ [(skey cur, vss0 ++ vs :: vss)]))).
  { rewrite !body_snoc. unfold series_bytes. cbn [snd]. rewrite fmap_app, concat_app. cbn [fmap list_fmap concat]. rewrite !length_app. lia. }
  cbn [length] in Hn.
  destruct (Write_same t flushed cur ps vss0 vs W) as (t1 & E1 & Hy & W1); [done|done|done|lia|lia|].
  erewrite bind_ret; [|exact E1]. set (cur1 := MkSeries (skey cur) (stype cur) (sents cur ++ [entry_for vs (len (w_out t))])) in *.
  destruct (IH t1 flushed cur1 ps (vss0 ++ [vs])) as (t2 & cur2 & E & Ek & Hy2 & W2); [exact W1|done|done|rewrite length_app; cbn [length]; lia| |].
  { cbn [cur1 skey]. by rewrite <- app_assoc. }
  cbn [cur1 skey] in *. rewrite <- app_assoc in W2. exists t2, cur2. split_and!; [exact E|done|congruence|exact W2].
Qed.

Lemma body_le ps1 ps2 : len (body ps1) <= len (body (ps1 ++ ps2)).
Proof. unfold body. rewrite fmap_app, concat_app, length_app. lia. Qed.
Lemma body_first k vs vss : len (series_bytes (k, [vs])) <= len (series_bytes (k, vs :: vss)).
Proof. unfold series_bytes. cbn [snd fmap list_fmap concat]. rewrite !length_app. cbn [length]. lia. Qed.

Lemma writing_cur t flushed cur ps vss : writing t flushed cur (ps ++ [(skey cur, vss)]) -> plan_ok (skey cur, vss) -> len (w_out t) < 2 ^ 31 ->
  writable cur.
Proof.
  intros [_ _ _ H] Hp Hsm. apply Forall2_app_inv in H as [_ H]; [|apply Forall2_length in H; rewrite !length_app in H; cbn in H; lia].
  inversion H as [|? ? ? ? [_ Hst]]; subst. by apply (planned_writable (w_out t) Hsm _ Hp cur eq_refl Hst).
Qed.

Lemma write_rest ps : forall t flushed cur done vss, writing t flushed cur (done ++ [(skey cur, vss)]) ->
  Forall plan_ok ((skey cur, vss) :: ps) -> StronglySorted (fun x y => klt x.1 y.1) ((skey cur, vss) :: ps) ->
  5 + len (body (done ++ (skey cur, vss) :: ps)) < 2 ^ 31 ->
  exists t' flushed' cur', write_all ps t = (Ret tt, t') /\ w_syncer t' = w_syncer t /\ writable cur' /\
    writing t' flushed' cur' (done ++ (skey cur, vss) :: ps).
Proof.
  induction ps as [|[k vss'] ps IH]; intros t flushed cur done vss W Hok Hs Hsm; cbn [write_all].
  { exists t, flushed, cur. split_and!; [done|done| |done]. apply Forall_cons_1 in Hok as [Hp _]. eapply writing_cur; [done|done|].
    by rewrite (writing_size _ _ _ _ W). }
  apply Forall_cons_1 in Hok as [Hp Hok]. inversion Hs as [|? ? Hs' Hlt]; subst. apply Forall_cons_1 in Hlt as [Hlt _]. cbn [fst] in Hlt.
  pose proof (Forall_cons_1 _ _ _ Hok) as [Hp' _]. pose proof Hp' as [Hk [Hne Hn] Hser _ _]. cbn [fst snd] in *.
  destruct vss' as [|vs vss']; [done|]. apply Forall_cons_1 in Hser as [[Hvne Hvs] Hser]. cbn [length] in Hn. cbn [write_blocks].
  assert (Hb : len (body (done ++ [(skey cur, vss)])) + len (stored_bytes vs) <= len (body ((done ++ [(skey cur, vss)]) ++ [(k, vs :: vss')]))).
  { rewrite (body_snoc (done ++ _)), length_app. pose proof (body_first k vs vss') as Hf. unfold series_bytes at 1 in Hf.
    cbn [snd fmap list_fmap concat] in Hf. rewrite app_nil_r in Hf. lia. }
  assert (Hb' : len (body ((done ++ [(skey cur, vss)]) ++ [(k, vs :: vss')])) <= len (body (done ++ (skey cur, vss) :: (k, vs :: vss') :: ps))).
  { replace (done ++ (skey cur, vss) :: (k, vs :: vss') :: ps) with (((done ++ [(skey cur, vss)]) ++ [(k, vs :: vss')]) ++ ps)
      by (by rewrite <- !app_assoc). apply body_le. }
  pose proof (writing_size _ _ _ _ W) as Hsz.
  assert (Hcur : writable cur) by (eapply writing_cur; [done|done|lia]).
  destruct (Write_block_next t flushed cur _ k vs W Hcur Hlt) as (t1 & typ & E1 & Hy1 & W1); [lia|done|done|lia|].
  set (cur1 := MkSeries k typ [entry_for vs (len (w_out t))]) in *.
  destruct (write_blocks_run vss' t1 (flushed ++ [cur]) cur1 (done ++ [(skey cur, vss)]) [vs]) as (t2 & cur2 & E2 & Ek & Hy2 & W2);
    [exact W1|cbn [cur1 skey]; lia|done|cbn [length]; lia|cbn [cur1 skey app]; lia|]. cbn [cur1 skey app] in *.
  erewrite bind_ret. 2: { erewrite bind_ret; [exact E2|exact E1]. }
  rewrite <- Ek in *.
  destruct (IH t2 (flushed ++ [cur]) cur2 (done ++ [(skey cur, vss)]) (vs :: vss')) as (t3 & fl & cu & E3 & Hy3 & Hw3 & W3);
    [exact W2|done|done|by rewrite <- app_assoc|].
  exists t3, fl, cu. split_and!; [exact E3|congruence|done|]. by rewrite <- app_assoc in W3.
Qed.

(** What a file can hold. *)
Record file_ok (ps : list plan) : Prop := {
  fo_some : ps <> [];
  fo_plans : Forall plan_ok ps;
  fo_sorted : StronglySorted (fun x y => klt x.1 y.1) ps;
  fo_size : 5 + len (body ps) < 2 ^ 31;
  fo_index : Z.of_nat (sum_list_with (fun p => 5 + length p.1 + 28 * length p.2)%nat ps) < 2 ^ 31 }.

Lemma write_all_run sy ps t0 : t0 = NewTSMWriter sy \/ t0 = NewTSMWriterWithDiskBuffer sy -> file_ok ps ->
  exists t flushed cur, write_all ps t0 = (Ret tt, t) /\ w_syncer t = sy /\ writable cur /\ writing t flushed cur ps.
Proof.
  intros Ht0 [Hne Hok Hs Hsm _]. destruct ps as [|[k vss] ps]; [done|]. pose proof (Forall_cons_1 _ _ _ Hok) as [Hp _].
  pose proof Hp as [Hk [Hvne Hn] Hser _ _]. cbn [fst snd] in *. destruct vss as [|vs vss]; [done|].
  apply Forall_cons_1 in Hser as [[Hv Hvs] Hser]. cbn [length] in Hn.
  assert (Hb : len (stored_bytes vs) <= len (body [(k, vs :: vss)])).
  { unfold body, series_bytes. cbn [fmap list_fmap concat snd]. rewrite !length_app. lia. }
  pose proof (body_le [(k, vs :: vss)] ps) as Hb2. cbn [app] in Hb2.
  destruct (Write_first k vs sy Hk Hv Hvs ltac:(lia) t0 Ht0) as (t1 & typ & E1 & W1 & Hy1).
  set (cur1 := MkSeries k typ [entry_for vs 5]) in *. cbn [write_all write_blocks fst snd].
  destruct (write_blocks_run vss t1 [] cur1 [] [vs]) as (t2 & cur2 & E2 & Ek & Hy2 & W2);
    [exact W1|cbn [cur1 skey]; lia|done|cbn [length]; lia|cbn [cur1 skey app]; lia|]. cbn [cur1 skey app] in *.
  erewrite bind_ret. 2: { erewrite bind_ret; [exact E2|exact E1]. }
  rewrite <- Ek in *. destruct (write_rest ps t2 [] cur2 [] (vs :: vss)) as (t3 & fl & cu & E3 & Hy3 & Hw3 & W3); [exact W2|done|done|exact Hsm|].
  exists t3, fl, cu. split_and!; [exact E3|congruence|done|exact W3].
Qed.

Lemma planned_index bs ss ps : Forall2 (fun s p => skey s = p.1 /\ Forall2 (stored bs) (sents s) p.2) ss ps ->
  length (encode ss) = sum_list_with (fun p : plan => 5 + length p.1 + 28 * length p.2)%nat ps.
Proof.
  induction 1 as [|s p ss ps [Hk Hst] _ IH]; [done|]. unfold encode. cbn [fmap list_fmap concat sum_list_with]. fold (encode ss).
  rewrite length_app, IH. pose proof (enc_series_length s) as Hl. rewrite Hk, (Forall2_length _ _ _ Hst) in Hl. lia.
Qed.

Lemma planned_sorted bs (ss : list series) (ps : list plan) : Forall2 (fun s p => skey s = p.1 /\ Forall2 (stored bs) (sents s) p.2) ss ps ->
  StronglySorted (fun x y => klt x.1 y.1) ps -> StronglySorted (fun x y => klt (skey x) (skey y)) ss.
Proof.
  induction 1 as [|s p ss ps [Hk _] H2 IH]; intros Hs; [constructor|]. inversion Hs as [|? ? Hs' Hlt]; subst. constructor; [auto|].
  apply Forall_forall. intros s' [i Hi]%list_elem_of_lookup_1. destruct (Forall2_lookup_l _ _ _ _ _ H2 Hi) as (p' & Hp' & Hk' & _).
  rewrite Forall_forall in Hlt. rewrite Hk, Hk'. apply Hlt. by eapply list_elem_of_lookup_2.
Qed.

Lemma planned_ok bs ss ps : Forall2 (fun s p => skey s = p.1 /\ Forall2 (stored bs) (sents s) p.2) ss ps -> file_ok ps -> len bs < 2 ^ 31 ->
  index_ok ss /\ Forall writable ss /\ Forall spans ss.
Proof.
  intros H [_ Hp Hs _ Hi] Hsm.
  assert (Hw : Forall (fun s => writable s /\ spans s) ss).
  { apply Forall_forall. intros s [i Hl]%list_elem_of_lookup_1. destruct (Forall2_lookup_l _ _ _ _ _ H Hl) as (p & Hp' & Hk & Hst).
    rewrite Forall_forall in Hp. eapply planned_writable; [exact Hsm|apply Hp; by eapply list_elem_of_lookup_2|done|done]. }
  split_and!; [split|..].
  - eapply Forall_impl; [exact Hw|]. by intros s [[? _] _].
  - by eapply planned_sorted.
  - rewrite (planned_index bs ss ps H). done.
  - eapply Forall_impl; [exact Hw|]. by intros s [? _].
  - eapply Forall_impl; [exact Hw|]. by intros s [_ ?].
Qed.

Lemma sub_end {A} (pre mid : list A) lo hi : lo = len pre -> hi = lo + len mid -> sub (pre ++ mid) lo hi = Ret mid.
Proof. intros. rewrite <- (app_nil_r mid) at 1. by apply sub_mid. Qed.

(** The finished file. *)
Lemma WriteIndex_run t flushed cur ps : writing t flushed cur ps -> writable cur -> w_syncer t = true ->
  exists t', WriteIndex t = (Ret tt, t') /\ w_out t' = w_out t ++ encode (flushed ++ [cur]) ++ be_put 8 (u64 (w_n t)).
Proof.
  intros [W Hn _ _] Hw Hy. unfold WriteIndex. mnow. unfold direct_KeyCount. rewrite (wr_count _ _ _ W), (proj2 (Z.eqb_neq _ _)) by lia.
  set (d := MkDirect _ _ _ _ _ _ _ _).
  assert (Wd : written d flushed cur) by (destruct W; by split).
  destruct (flush_run d flushed cur Wd Hw) as (n & d1 & Ef & B & _ & _ & _ & _ & D1 & F1).
  assert (Ew : exists d2, WriteTo d = Ret (encode (flushed ++ [cur]), d2)).
  { unfold WriteTo. rewrite Ef. cbn [obind]. destruct (disk d1); [eexists; by rewrite B|]. unfold copyBuffer. rewrite F1. cbn [d f].
    rewrite Hy, orb_true_r, andb_false_r. cbn [obind]. eexists. by rewrite B. }
  destruct Ew as (d2 & Ew). erewrite bind_ret; [|unfold lift; rewrite Ew; reflexivity]. cbv beta iota. do 2 mnow. unfold emit, modify. eexists. split; [reflexivity|].
  cbn [w_out set_index]. by rewrite <- app_assoc.
Qed.

Lemma mapped_init_run t flushed cur ps file : writing t flushed cur ps -> file_ok ps -> index_ok (flushed ++ [cur]) ->
  file = w_out t ++ encode (flushed ++ [cur]) ++ be_put 8 (u64 (w_n t)) ->
  exists m, init file = Ret m /\ m_b m = Some file /\ repr (m_index m) (layout 0 (flushed ++ [cur])) /\ tombstones (m_index m) = ∅.
Proof.
  intros W Hok Hio ->. pose proof (writing_size _ _ _ _ W) as Hsz. destruct W as [_ Hn Ho Hst]. destruct Hok as [_ _ _ Hsm _].
  set (ib := encode (flushed ++ [cur])). assert (Hib : 0 < len ib).
  { unfold ib. rewrite encode_app, encode_one, length_app. pose proof (enc_series_length cur). lia. }
  assert (Hver : verifyVersion (w_out t ++ ib ++ be_put 8 (u64 (w_n t))) = Ret tt).
  { rewrite Ho. unfold header. rewrite <- !app_assoc. unfold verifyVersion. rewrite (proj2 (Z.ltb_ge _ _)) by (rewrite !length_app, be_put_length; cbn [length]; lia).
    replace (take 4 _) with (be_put 4 MagicNumber) by reflexivity. reflexivity. }
  unfold init. rewrite Hver. cbn [obind]. rewrite (proj2 (Z.ltb_ge _ _)) by (rewrite !length_app, be_put_length; lia).
  set (pos := len (w_out t ++ ib ++ be_put 8 (u64 (w_n t))) - 8).
  assert (Hpos : pos = len (w_out t ++ ib)) by (unfold pos; rewrite !length_app, be_put_length; lia).
  rewrite (app_assoc (w_out t)).
  rewrite (sub_end (w_out t ++ ib) (be_put 8 (u64 (w_n t)))) by (rewrite ?be_put_length; lia). cbn [obind].
  rewrite be64_roundtrip by apply u64_range. rewrite u64_id by (unfold is_u64; lia).
  rewrite (proj2 (Z.leb_gt _ _)) by (rewrite Hpos, length_app; lia). rewrite <- app_assoc.
  rewrite (sub_mid (w_out t) ib) by (rewrite ?Hpos, ?length_app; lia). cbn [obind].
  destruct (Index_open_run (flushed ++ [cur]) Hio) as (d & E & Hr & _ & Ht & _). fold ib in E. rewrite E. cbn [obind]. eexists. split; [done|]. done.
Qed.

(** ** Reading a series *)

(** The values no tombstone covers. *)
Definition uncovered (ts : list TimeRange) (v : Value) : bool := negb (covered (UnixNano v) ts).

Lemma filter_filter {A} (p q : A -> bool) l : List.filter p (List.filter q l) = List.filter (fun x => q x && p x) l.
Proof. induction l as [|x l IH]; [done|]. cbn. destruct (q x); cbn; [destruct (p x); by rewrite IH|done]. Qed.
Lemma filter_ext_elem {A} (p q : A -> bool) l : (forall x, x ∈ l -> p x = q x) -> List.filter p l = List.filter q l.
Proof. intros H. apply filter_ext_in. intros x Hx%list_elem_of_In. auto. Qed.

Lemma exclude_all_run ts : forall vs, sorted vs -> exclude_all ts vs = Ret (List.filter (uncovered ts) vs).
Proof.
  induction ts as [|t ts IH]; intros vs Hs; cbn [exclude_all].
  { f_equal. symmetry. apply filter_all. by apply Forall_forall. }
  rewrite Exclude_run by done. cbn [obind]. rewrite IH by (by apply filter_sorted). f_equal. rewrite filter_filter. apply filter_ext_elem. intros v _.
  unfold uncovered, covered. cbn [existsb]. unfold covers, Values.in_range. by rewrite negb_orb.
Qed.

Lemma stored_decode file e vs : bc_series vs -> stored file e vs -> len file < 2 ^ 63 ->
  (let! blk := block_bytes file e 4 in decoded (bc_Decode blk)) = Ret vs.
Proof.
  intros Hs (pre & post & -> & ->) Hsm. destruct (encode_block vs Hs) as (_ & _ & D & _). unfold block_bytes. cbn [Offset Size].
  unfold stored_bytes in *. rewrite !length_app, be_put_length in *. rewrite !i64_id by (unfold is_i64; lia).
  rewrite <- !app_assoc. rewrite (app_assoc pre). rewrite (sub_mid (pre ++ be_put 4 _) (block_of vs)) by (rewrite ?length_app, ?be_put_length; lia).
  cbn [obind]. rewrite D. done.
Qed.

Lemma skipped_uncovered ts file e vs : vs <> [] -> sorted vs -> stored file e vs -> skipped ts e = true -> List.filter (uncovered ts) vs = [].
Proof.
  intros Hne Hs (pre & post & _ & ->) Hsk. apply filter_none. unfold skipped in Hsk. apply existsb_exists in Hsk as (t & Ht & Hc). cbn [MinTime MaxTime] in Hc.
  apply andb_prop in Hc as [H1%Z.leb_le H2%Z.leb_le]. destruct (head_last_Some vs Hne) as (v0 & v1 & E0 & E1 & F0 & F1).
  eapply Forall_impl; [exact (sorted_bounds UnixNano vs v0 v1 Hs E0 E1)|]. cbn. intros v Hv. unfold uncovered, covered.
  apply negb_false_iff, existsb_exists. exists t. split; [done|]. apply covers_iff. lia.
Qed.

Lemma readAll_loop_run file ts es vss : len file < 2 ^ 63 -> Forall2 (stored file) es vss -> Forall (fun vs => vs <> [] /\ bc_series vs) vss ->
  sorted (concat vss) -> readAll_loop file ts es = Ret (List.filter (uncovered ts) (concat vss)).
Proof.
  intros Hsm H. induction H as [|e vs es vss Hst _ IH]; intros Hok Hs; [done|]. apply Forall_cons_1 in Hok as [[Hne Hser] Hok]. cbn [concat] in *.
  apply sorted_app in Hs as (Hs1 & Hs2 & _). cbn [readAll_loop]. rewrite List.filter_app, IH by done.
  destruct (skipped ts e) eqn:Esk; [by rewrite (skipped_uncovered ts file e vs)|].
  pose proof (stored_decode file e vs Hser Hst Hsm) as D. destruct (block_bytes file e 4) as [blk| |]; cbn [obind] in *; [|done..].
  rewrite D. cbn [obind]. rewrite exclude_all_run by done. done.
Qed.
End Spec.

(** ** The file as a whole *)

#[export] Instance names_dec k t o : Decision (names k t o).
Proof. destruct o; cbn; apply _. Defined.
Definition deleted (ops : list op) (k : list Z) (v : Value) : bool := bool_decide (Exists (names k (UnixNano v)) ops).
Definition with_index (d : indirectIndex) (m : mmapAccessor) : mmapAccessor := MkAccessor (m_b m) d (m_access m) (m_free m).

Section Whole.
Context {C : BlockCodec} {CO : BlockCodecOk C}.
Abbreviation plan := (list Z * list (list Value))%type.

Lemma readAll_run (ps : list plan) ss file d' L' m ops :
  m_b m = Some file -> len file < 2 ^ 63 -> repr d' L' ->
  Forall2 (fun s p => skey s = p.1 /\ Forall2 (stored file) (sents s) p.2) ss ps -> Forall plan_ok ps ->
  (forall x, x ∈ L' -> x ∈ layout 0 ss) ->
  (forall x y, x ∈ layout 0 ss -> y ∈ layout 0 ss -> skey' x = skey' y -> x = y) ->
  (forall x t, x ∈ layout 0 ss -> in_span x.2 t -> (alive d' L' (skey' x) t <-> ~ Exists (names (skey' x) t) ops)) ->
  (forall p, p ∈ ps -> (readAll (with_index d' m) p.1).1 = Ret (List.filter (fun v => negb (deleted ops p.1 v)) (concat p.2))) /\
  (forall k, (forall p, p ∈ ps -> p.1 <> k) -> (readAll (with_index d' m) k).1 = Ret []).
Proof.
  intros Hb Hsm Hr H2 Hp Hsub Huniq HA. unfold readAll, mapped. cbn [with_index incAccess m_index m_b fst]. rewrite Hb. cbn [default].
  split.
  - intros p [i Hi]%list_elem_of_lookup_1. destruct (Forall2_lookup_r _ _ _ _ _ H2 Hi) as (s & Hs & Hk & Hst).
    rewrite Forall_forall in Hp. assert (Hpi : p ∈ ps) by (by eapply list_elem_of_lookup_2). specialize (Hp p Hpi).
    destruct (layout_lookup ss 0 i s Hs) as [o Ho%list_elem_of_lookup_2]. rewrite (Entries_run d' L' Hr). cbn [obind].
    assert (Hspan : forall v, v ∈ concat p.2 -> in_span s (UnixNano v)).
    { intros v Hv. apply list_elem_of_In, in_concat in Hv as (vs & Hvs%list_elem_of_In & Hv%list_elem_of_In).
      pose proof (planned_bounds file p Hp s Hst vs Hvs) as Hbd. rewrite Forall_forall in Hbd. by apply Hbd. }
    pose proof (fun v Hv => HA (o, s) (UnixNano v) Ho (Hspan v Hv)) as HA'. unfold skey' in HA'. cbn [snd] in HA'. rewrite Hk in HA'.
    destruct (contents L' !! p.1) as [s'|] eqn:Ec.
    + apply (contents_Some d' L' Hr) in Ec as (x & Hx & Hkx & Hsx). assert (x = (o, s)) as ->.
      { apply Huniq; [by apply Hsub|done|]. unfold skey' at 2. cbn [snd]. congruence. }
      cbn [snd] in Hsx. subst s'. destruct Hp as [_ [Hne _] Hser Hsort _].
      assert ((length (sents s) =? 0)%nat = false) as -> by (rewrite (Forall2_length _ _ _ Hst); by destruct p.2).
      rewrite (readAll_loop_run file _ _ p.2) by done. f_equal. apply filter_ext_elem. intros v Hv. unfold uncovered, deleted. f_equal.
      specialize (HA' v Hv). unfold alive in HA'. destruct (covered (UnixNano v) (TombstoneRange d' p.1)) eqn:Ecov.
      * symmetry. apply bool_decide_eq_true_2. destruct (decide (Exists (names p.1 (UnixNano v)) ops)) as [|Hn]; [done|].
        apply HA' in Hn as [_ Hn]. congruence.
      * symmetry. apply bool_decide_eq_false_2. apply HA'. split; [|done]. by exists (o, s).
    + cbn [length Nat.eqb]. f_equal. symmetry. apply filter_none. apply Forall_forall. intros v Hv. apply negb_false_iff. unfold deleted.
      apply bool_decide_eq_true_2. destruct (decide (Exists (names p.1 (UnixNano v)) ops)) as [|Hn]; [done|]. exfalso.
      apply (HA' v Hv) in Hn as [(y & Hy & Hyk) _]. by apply (contents_None d' L' Hr p.1 Ec y Hy).
  - intros k Hk. rewrite (Entries_run d' L' Hr). cbn [obind]. destruct (contents L' !! k) as [s'|] eqn:Ec; [|done]. exfalso.
    apply (contents_Some d' L' Hr) in Ec as (x & Hx%Hsub & Hkx & Hsx). apply layout_snd_elem in Hx. apply list_elem_of_lookup_1 in Hx as [i Hi].
    destruct (Forall2_lookup_l _ _ _ _ _ H2 Hi) as (p & Hp' & Hkp & _). apply (Hk p); [by eapply list_elem_of_lookup_2|]. unfold skey' in Hkx. congruence.
Qed.

(** C14. A file gives back what was written less what was deleted: series
    with increasing keys, each with blocks of ordered values, written with
    [Write] and closed with [WriteIndex], give a file that opens; after any run
    of deletions on its index [readAll] returns for every series exactly the
    written values, in order, without those some deletion named, and nothing
    for a key that was not written. *)
Theorem file_roundtrip (t0 : tsmWriter) (ps : list plan) (ops : list op) :
  t0 = NewTSMWriter true \/ t0 = NewTSMWriterWithDiskBuffer true -> file_ok ps -> Forall wf_op ops ->
  exists t t' m d, write_all ps t0 = (Ret tt, t) /\ WriteIndex t = (Ret tt, t') /\ init (w_out t') = Ret m /\ run (m_index m) ops = Ret d /\
    (forall p, p ∈ ps -> (readAll (with_index d m) p.1).1 = Ret (List.filter (fun v => negb (deleted ops p.1 v)) (concat p.2))) /\
    (forall k, (forall p, p ∈ ps -> p.1 <> k) -> (readAll (with_index d m) k).1 = Ret []).
Proof.
  intros Ht0 Hok Hops. destruct (write_all_run true ps t0 Ht0 Hok) as (t & fl & cur & E1 & Hy & Hw & W).
  destruct (WriteIndex_run t fl cur ps W Hw Hy) as (t' & E2 & Eo). pose proof (writing_size _ _ _ _ W) as Hsz.
  assert (Hsm : len (w_out t) < 2 ^ 31) by (rewrite Hsz; apply Hok).
  destruct (planned_ok (w_out t) (fl ++ [cur]) ps (wt_stored _ _ _ _ W) Hok Hsm) as (Hio & _ & Hsp).
  destruct (mapped_init_run t fl cur ps (w_out t') W Hok Hio Eo) as (m & E3 & Hb & Hr & Ht).
  destruct (run_ops_run ops (m_index m) _ Hr) as (d & L' & E4 & [K1 K2 K3 K4] & A); [by rewrite Ht; apply map_Forall_empty|done|].
  destruct (readAll_run ps (fl ++ [cur]) (w_out t') d L' m ops) as [R1 R2]; [done| |done| |apply Hok|exact K4| | |].
  - pose proof (io_small _ Hio). rewrite Eo, !length_app, be_put_length. lia.
  - rewrite Eo. apply stored_series_app, W.
  - intros x y Hx Hy' E. by apply (repr_unique (m_index m) _ Hr).
  - intros x v Hx Hs. rewrite (A x v Hx Hs). split; [tauto|]. intros Hn. split; [|done]. split; [by exists x|].
    unfold TombstoneRange. by rewrite Ht, lookup_empty.
  - exists t, t', m, d. split_and!; done.
Qed.
End Whole.

(** ** The block codec of the engine *)

Section Engine.
Context `{J : JwStream} {JO : JwStreamOk J} `{J8 : JwSimple8b} {JO8 : JwSimple8bOk J8}
  `{N : Snappy} {NO : SnappyOk N} `{W : BitWriter} {WO : BitWriterOk W}.
Context (p : Block.encoders) (q : Block.decoders) (tenc0 : TimeStream.encoder).
Context (Hp : TimeStream.Reset (Block.p_time p) = Ret tenc0) (Hq : Block.decoders_ok q).

Definition engine_codec : BlockCodec := {|
  bc_Encode := fun vs => let! b := Block.Encode vs (Slice [] 0) p in Ret (s_bytes b);
  bc_Decode := fun blk => Block.DecodeBlock blk q |}.

Definition engine_codec_ok : BlockCodecOk engine_codec.
Proof.
  refine {| bc_series := Block.series : list Value -> Prop |}. intros a Ha.
  destruct (Block.Encode_decodes a (Slice [] 0) p q tenc0 Ha Hp Hq) as (b & E & D & t & T). exists (s_bytes b), t.
  cbn [bc_Encode bc_Decode engine_codec]. by rewrite E.
Defined.
End Engine.

(** A file of two series, the first with two blocks. *)
Definition sample_codec : BlockCodec :=
  engine_codec (J := pkg_stream) (J8 := pkg_simple8b) (N := store_snappy) (W := list_writer) Block.sample_encoders Block.sample_decoders.
Definition sample_codec_ok : BlockCodecOk sample_codec.
Proof.
  refine (engine_codec_ok (J := pkg_stream) (JO := pkg_stream_ok) (J8 := pkg_simple8b) (JO8 := pkg_simple8b_ok) (N := store_snappy)
    (NO := store_snappy_ok) (W := list_writer) (WO := list_writer_ok) Block.sample_encoders Block.sample_decoders TimeStream.NewTimeEncoder eq_refl _).
  split; [reflexivity|]. split; reflexivity.
Defined.
Definition sample_later : list Value := [VFloat (MkValue 30 4608308318706860032); VFloat (MkValue 44 0)].
Definition sample_plans : list (list Z * list (list Value)) := [([97], [Block.sample_values; sample_later]); ([98; 1], [Block.sample_values])].

Lemma sample_later_float :
  Block.series (J8 := pkg_simple8b) (JO8 := pkg_simple8b_ok) (NO := store_snappy_ok) (WO := list_writer_ok) sample_later.
Proof.
  left. exists [MkValue 30 4608308318706860032; MkValue 44 0]. split_and!.
  - reflexivity.
  - discriminate.
  - repeat constructor; vm_compute; congruence.
  - vm_compute. reflexivity.
  - repeat constructor; vm_compute; congruence.
Qed.

Lemma sample_file_ok : file_ok (CO := sample_codec_ok) sample_plans.
Proof.
  split.
  - discriminate.
  - constructor; [|constructor; [|constructor]]; split; cbn [fst snd].
    1, 6: vm_compute; split; congruence.
    1, 5: split; [discriminate|vm_compute; reflexivity].
    1: constructor; [|constructor; [|constructor]]; (split; [discriminate|]); [exact Block.sample_series_float|exact sample_later_float].
    3: constructor; [|constructor]; (split; [discriminate|]); exact Block.sample_series_float.
    1, 3: repeat constructor; vm_compute; reflexivity.
    1, 2: repeat constructor; vm_compute; congruence.
  - repeat constructor.
  - vm_compute. reflexivity.
  - vm_compute. reflexivity.
Qed.

Lemma file_roundtrip_witness :
  exists t t' m d, write_all (C := sample_codec) sample_plans (NewTSMWriter true) = (Ret tt, t) /\ WriteIndex t = (Ret tt, t') /\
    init (w_out t') = Ret m /\ run (m_index m) [ODeleteRange [[98; 1]; [97]] 15 35] = Ret d /\
    (readAll (C := sample_codec) (with_index d m) [97]).1 = Ret [VFloat (MkValue 10 4608308318706860032); VFloat (MkValue 44 0)].
Proof.
  destruct (file_roundtrip (C := sample_codec) (CO := sample_codec_ok) (NewTSMWriter true) sample_plans [ODeleteRange [[98; 1]; [97]] 15 35])
    as (t & t' & m & d & E1 & E2 & E3 & E4 & R & _).
  - by left.
  - exact sample_file_ok.
  - repeat constructor; unfold is_i64; lia.
  - exists t, t', m, d. split; [exact E1|]. split; [exact E2|]. split; [exact E3|]. split; [exact E4|].
    specialize (R ([97], [Block.sample_values; sample_later]) ltac:(constructor)). cbn [fst snd] in R. rewrite R. vm_compute. reflexivity.
Defined.

End TsmFileSpec.
