(* ===== verification/Tombstone.v ===== *)
(** * Tombstones

    Models [tsdb/engine/tsm1/tombstone.go]: the file beside a TSM file that
    records deletions, in the four formats it has had.  Compression is a
    parameter ([compress/gzip] as a stream of members); calls on files
    succeed, except that the temporary file must not exist already.  The state
    holds the committed file, the pending one and the tombstones in memory. *)
From S2P Require Import Prelude Ring WalLog TsmIndex DQueue.
From stdpp Require Import gmap sorting.
#[global] Open Scope Z_scope.

(** ** Compression

    What a reader finds at a position of the compressed stream: the end, a
    damaged header, or a member with its content, the error that ends it
    ([None] for a clean end) and what follows. *)
Inductive gz_result :=
| GzEOF
| GzErr (e : string)
| GzMember (content : list Z) (ended : option string) (rest : list Z).

Class Gzip := { gz_member : list Z -> list Z; gz_next : list Z -> gz_result }.
Class GzipOk (G : Gzip) := {
  gz_eof : gz_next [] = GzEOF;
  gz_roundtrip x rest : gz_next (gz_member x ++ rest) = GzMember x None rest;
  gz_magic x : exists tl, gz_member x = [31; 139; 8; 0] ++ tl }.

Module Tombstone.
Import TsmIndex.

Definition headerSize : Z := 4.
Definition v2header : Z := 5378.
Definition v3header : Z := 5379.
Definition v4header : Z := 5380.
Definition EOF : string := "EOF".
Definition ErrUnexpectedEOF : string := "unexpected EOF".
Definition errIncompatibleVersion : string := "incompatible v4 version".
Definition ErrExist : string := "file exists".

Record Tombstone := MkTomb { t_Key : list Z; t_Min : Z; t_Max : Z }.
Definition all_time (k : list Z) : Tombstone := MkTomb k (- 2 ^ 63) (2 ^ 63 - 1).

(** The bytes of a record. *)
Definition writeTombstone (ts : Tombstone) : list Z :=
  be_put 4 (u32 (len (t_Key ts))) ++ t_Key ts ++ be_put 8 (u64 (t_Min ts)) ++ be_put 8 (u64 (t_Max ts)).

(** ** Reading *)

Section Read.
Context {S : Type} (fn : Tombstone -> M S unit).

(** [io.ReadFull] on a decompressed member: the bytes and the rest, or the
    error. *)
Definition ReadFull (n : Z) (content : list Z) (ended : option string) : outcome (list Z * list Z) :=
  if n <=? len content then Ret (take (Z.to_nat n) content, drop (Z.to_nat n) content)
  else
    match ended with
    | Some e => Fail e
    | None => Fail (if (length content =? 0)%nat then EOF else ErrUnexpectedEOF)
    end.

Fixpoint each (ts : list Tombstone) : M S unit :=
  match ts with [] => mret tt | t :: ts => fn t ;; each ts end.

(** The records of one member; a read that ends at or within the length of a
    record ends the member without an error. *)
Fixpoint records (fuel : nat) (content : list Z) (ended : option string) : M S unit :=
  match fuel with
  | O => panic
  | Datatypes.S f =>
    match ReadFull 4 content ended with
    | Fail e => if String.eqb e EOF || String.eqb e ErrUnexpectedEOF then mret tt else fail e
    | Panic => panic
    | Ret (b, content) =>
      let keyLen := be_get b in
      r ← lift (ReadFull keyLen content ended);
      let '(key, content) := r : list Z * list Z in
      r ← lift (ReadFull 8 content ended);
      let '(mn, content) := r : list Z * list Z in
      r ← lift (ReadFull 8 content ended);
      let '(mx, content) := r : list Z * list Z in
      fn (MkTomb key (i64 (be_get mn)) (i64 (be_get mx))) ;;
      records f content ended
    end
  end.
Definition member (content : list Z) (ended : option string) : M S unit := records (Datatypes.S (length content)) content ended.

(** [bufio.Scanner]: the lines without their end of line. *)
Fixpoint scan_lines (fuel : nat) (f : list Z) (cur : list Z) : list (list Z) :=
  match fuel with
  | O => []
  | Datatypes.S n =>
    match f with
    | [] => if (length cur =? 0)%nat then [] else [cur]
    | x :: f => if x =? 10 then cur :: scan_lines n f [] else scan_lines n f (cur ++ [x])
    end
  end.
(** A trailing carriage return is dropped. *)
Definition dropCR (l : list Z) : list Z := match last l with Some 13 => take (length l - 1) l | _ => l end.
Definition Lines (f : list Z) : list (list Z) := scan_lines (Datatypes.S (length f)) f [].

(** A line that does not fit the buffer of the scanner ends the scan. *)
Fixpoint each_line (ls : list (list Z)) : M S unit :=
  match ls with
  | [] => mret tt
  | l :: ls =>
    if 64 * 1024 <=? len l then fail "bufio.Scanner: token too long"
    else
      let l := dropCR l in
      (if (length l =? 0)%nat then mret tt else fn (all_time l)) ;; each_line ls
  end.
Definition readTombstoneV1 (f : list Z) (mem : list Tombstone) : M S unit := each_line (Lines f) ;; each mem.

(** [f.Read] into the front of the buffer: the buffer and the rest of the
    file; a short read leaves the end of the buffer as it was. *)
Definition fileRead (n : Z) (buf f : list Z) : outcome (list Z * list Z) :=
  if (0 <? n) && (length f =? 0)%nat then Fail EOF
  else
    let got := take (Z.to_nat n) f in
    Ret (got ++ drop (length got) buf, drop (length got) f).

(** One buffer holds the key and then, over its first bytes, the two times. *)
Fixpoint v2_loop (fuel : nat) (buf f : list Z) (n size : Z) : M S unit :=
  match fuel with
  | O => panic
  | Datatypes.S k =>
    if size <=? n then mret tt
    else
      r ← lift (fileRead 4 buf f);
      let '(buf, f) := r : list Z * list Z in
      let keyLen := be_get (take 4 buf) in
      let buf := if len buf <? keyLen then replicate (Z.to_nat keyLen) 0 else buf in
      r ← lift (fileRead keyLen buf f);
      let '(buf, f) := r : list Z * list Z in
      r ← lift (fileRead 8 buf f);
      let '(buf, f) := r : list Z * list Z in
      let mn := i64 (be_get (take 8 buf)) in
      r ← lift (fileRead 8 buf f);
      let '(buf, f) := r : list Z * list Z in
      let mx := i64 (be_get (take 8 buf)) in
      fn (MkTomb (take (Z.to_nat keyLen) buf) mn mx) ;;
      v2_loop k buf f (n + 4 + keyLen + 8 + 8) size
  end.
Definition readTombstoneV2 (file : list Z) (mem : list Tombstone) : M S unit :=
  v2_loop (Datatypes.S (length file)) (replicate 4096 0) (drop 4 file) 4 (len file) ;; each mem.

Context {G : Gzip}.

(** A v3 file is one compressed stream: its members are read as one. *)
Fixpoint gz_all (fuel : nat) (f : list Z) : gz_result :=
  match fuel with
  | O => GzEOF
  | Datatypes.S n =>
    match gz_next f with
    | GzMember c None rest =>
      match gz_all n rest with
      | GzMember c' e rest => GzMember (c ++ c') e rest
      | GzEOF => GzMember c None []
      | GzErr e => GzMember c (Some e) []
      end
    | r => r
    end
  end.
Definition readTombstoneV3 (file : list Z) (mem : list Tombstone) : M S unit :=
  match gz_all (Datatypes.S (length file)) (drop 4 file) with
  | GzEOF => fail EOF
  | GzErr e => fail e
  | GzMember c e _ => member c e ;; each mem
  end.

(** A v4 file is read member by member. *)
Fixpoint v4_loop (fuel : nat) (content : list Z) (ended : option string) (rest : list Z) (mem : list Tombstone) : M S unit :=
  match fuel with
  | O => panic
  | Datatypes.S n =>
    member content ended ;;
    each mem ;;
    match gz_next rest with
    | GzEOF => mret tt
    | GzErr e => v4_loop n [] (Some e) [] mem
    | GzMember c e rest => v4_loop n c e rest mem
    end
  end.
(** From the offset applied last, or past the header. *)
Definition readTombstoneV4 (file : list Z) (lastApplied : Z) (mem : list Tombstone) : M S unit :=
  let f := drop (Z.to_nat (if lastApplied =? 0 then headerSize else lastApplied)) file in
  match gz_next f with
  | GzEOF => mret tt
  | GzErr e => fail e
  | GzMember c e rest => v4_loop (Datatypes.S (Datatypes.S (length file))) c e rest mem
  end.
End Read.

(** ** Writing *)

Section Writer.
Context {G : Gzip}.

(** The file being prepared: what is on it and the records not yet
    compressed. *)
Record pending := MkPending { p_file : list Z; p_records : list Z }.

(** [tb_path] is whether the TSM file has a path, [tb_stale] whether a
    temporary file is in the way. *)
Record Tombstoner := MkTombstoner {
  tb_path : bool;
  tb_filter : option (list Z -> bool);
  tb_mem : list Tombstone;
  tb_exists : bool;
  tb_size : Z;
  tb_statsLoaded : bool;
  tb_pending : option pending;
  tb_file : option (list Z);
  tb_stale : bool;
  tb_lastApplied : Z }.
Abbreviation TM := (M Tombstoner).

Definition NewTombstoner (path : bool) (filter : option (list Z -> bool)) (file : option (list Z)) (stale : bool) : Tombstoner :=
  MkTombstoner path filter [] false 0 false None file stale 0.

Definition set_mem (l : list Tombstone) (t : Tombstoner) : Tombstoner :=
  MkTombstoner (tb_path t) (tb_filter t) l (tb_exists t) (tb_size t) (tb_statsLoaded t) (tb_pending t) (tb_file t) (tb_stale t) (tb_lastApplied t).
Definition set_loaded (x : bool) (t : Tombstoner) : Tombstoner :=
  MkTombstoner (tb_path t) (tb_filter t) (tb_mem t) (tb_exists t) (tb_size t) x (tb_pending t) (tb_file t) (tb_stale t) (tb_lastApplied t).
Definition set_stats (x : bool) (n : Z) (t : Tombstoner) : Tombstoner :=
  MkTombstoner (tb_path t) (tb_filter t) (tb_mem t) x n (tb_statsLoaded t) (tb_pending t) (tb_file t) (tb_stale t) (tb_lastApplied t).
Definition set_pending (p : option pending) (t : Tombstoner) : Tombstoner :=
  MkTombstoner (tb_path t) (tb_filter t) (tb_mem t) (tb_exists t) (tb_size t) (tb_statsLoaded t) p (tb_file t) (tb_stale t) (tb_lastApplied t).
Definition set_file (f : option (list Z)) (t : Tombstoner) : Tombstoner :=
  MkTombstoner (tb_path t) (tb_filter t) (tb_mem t) (tb_exists t) (tb_size t) (tb_statsLoaded t) (tb_pending t) f (tb_stale t) (tb_lastApplied t).
Definition set_lastApplied (z : Z) (t : Tombstoner) : Tombstoner :=
  MkTombstoner (tb_path t) (tb_filter t) (tb_mem t) (tb_exists t) (tb_size t) (tb_statsLoaded t) (tb_pending t) (tb_file t) (tb_stale t) z.

(** The pending file compressed, synced and renamed over the old one. *)
Definition commit : TM unit :=
  t ← get;
  match tb_pending t with
  | None => mret tt
  | Some p => modify (set_file (Some (p_file p ++ gz_member (p_records p)))) ;; modify (set_pending None)
  end.
Definition rollback : TM unit := modify (set_pending None).

(** A v3 file of the tombstones in memory replaces the old file. *)
Definition writeTombstoneV3 (l : list Tombstone) : TM unit :=
  modify (set_pending (Some (MkPending (be_put 4 v3header) (concat (writeTombstone <$> l))))) ;;
  modify (set_mem []) ;;
  commit.

(** The pending v4 file: a copy of the committed one, or a fresh header.  A
    file too short for a header is neither copied nor given one. *)
Definition prepareV4 : TM unit :=
  t ← get;
  match tb_pending t with
  | Some _ => mret tt
  | None =>
    if tb_stale t then fail ErrExist
    else
      match tb_file t with
      | None => modify (set_pending (Some (MkPending (be_put 4 v4header) [])))
      | Some f =>
        if len f <? 4 then modify (set_pending (Some (MkPending [] [])))
        else if negb (be_get (take 4 f) =? v4header) then fail errIncompatibleVersion
        else modify (set_pending (Some (MkPending f [])))
      end
  end.

Definition passes (t : Tombstoner) (k : list Z) : bool := match tb_filter t with Some fn => fn k | None => true end.

Definition record_all (ks : list (list Z)) (mn mx : Z) (t : Tombstoner) : Tombstoner :=
  match tb_pending t with
  | Some p => set_pending (Some (MkPending (p_file p)
                (p_records p ++ concat ((fun k => writeTombstone (MkTomb k mn mx)) <$> List.filter (passes t) ks)))) t
  | None => t
  end.

(** The keys from the first that passes the filter. *)
Fixpoint skip_filtered (t : Tombstoner) (ks : list (list Z)) : list (list Z) :=
  match ks with
  | [] => []
  | k :: ks' => if passes t k then ks else skip_filtered t ks'
  end.

Definition AddRange (ks : list (list Z)) (mn mx : Z) : TM unit :=
  t ← get;
  let ks := skip_filtered t ks in
  if (length ks =? 0)%nat then mret tt
  else if negb (tb_path t) then mret tt
  else
    modify (set_loaded false) ;;
    r ← attempt prepareV4;
    match r : outcome unit with
    | Ret _ => modify (record_all ks mn mx)
    | Fail e =>
      if String.eqb e errIncompatibleVersion then
        t ← get;
        let l := tb_mem t ++ ((fun k => MkTomb k mn mx) <$> List.filter (passes t) ks) in
        modify (set_mem l) ;;
        writeTombstoneV3 l
      else fail e
    | Panic => panic
    end.
Definition Add_ (ks : list (list Z)) : TM unit := AddRange ks (- 2 ^ 63) (2 ^ 63 - 1).

(** Commits do not fail here, so the rollback after one is not reached. *)
Definition Flush : TM unit :=
  r ← attempt commit;
  match r : outcome unit with Ret _ => mret tt | Fail e => rollback ;; fail e | Panic => panic end.
Definition Rollback : TM unit := rollback.

Definition Delete : TM unit :=
  modify (set_file None) ;; modify (set_loaded false) ;; modify (set_lastApplied 0).

(** Whether the file exists and its size. *)
Definition TombstoneStats : TM (bool * Z) :=
  t ← get;
  if tb_statsLoaded t then mret (tb_exists t, tb_size t)
  else
    match tb_file t with
    | None => modify (set_loaded true) ;; modify (set_stats false (tb_size t)) ;; mret (false, tb_size t)
    | Some f => modify (set_stats true (u32 (len f))) ;; modify (set_loaded true) ;; mret (true, u32 (len f))
    end.

Definition HasTombstones : TM bool :=
  st ← TombstoneStats;
  let '(ex, sz) := st : bool * Z in
  if negb ex then mret false
  else if 0 <? sz then mret true
  else t ← get; mret (0 <? len (tb_mem t)).

(** [Walk]: the state of the caller and the tombstoner after the calls. *)
Definition Walk {S} (fn : Tombstone -> M S unit) (t : Tombstoner) (s : S) : outcome unit * S * Tombstoner :=
  match tb_file t with
  | None => (Ret tt, s, t)
  | Some f =>
    if (length f =? 0)%nat then (readTombstoneV1 fn f (tb_mem t) s, t)
    else
      (** A short read leaves the rest of the four bytes zero. *)
      let header := be_get (take 4 (f ++ [0; 0; 0; 0])) in
      if header =? v4header then
        let '(r, s) := readTombstoneV4 fn f (tb_lastApplied t) (tb_mem t) s in
        (r, s, match r, gz_next (drop (Z.to_nat (if tb_lastApplied t =? 0 then headerSize else tb_lastApplied t)) f) with
               | Ret _, GzMember _ _ _ => set_lastApplied (len f) t
               | _, _ => t
               end)
      else if header =? v3header then (readTombstoneV3 fn f (tb_mem t) s, t)
      else if header =? v2header then (readTombstoneV2 fn f (tb_mem t) s, t)
      else (readTombstoneV1 fn f (tb_mem t) s, t)
  end.
End Writer.
End Tombstone.
