(* ===== verification/TombstoneSpec.v ===== *)
(** * Tombstones: what is recorded is walked

    The tombstones added and flushed are those a walk visits, in order, once;
    and the cases in which the file loses or changes what it held. *)
From S2P Require Import Prelude Ring WalLog TsmIndex TsmIndexSpec DQueue DQueueSegs Tombstone.
From stdpp Require Import gmap sorting.
#[global] Open Scope Z_scope.

Module TombstoneSpec.
Import TsmIndex TsmIndexSpec Tombstone.
Abbreviation len l := (Z.of_nat (length l)).

Definition wf_tomb (ts : Tombstone) : Prop := len (t_Key ts) < 2 ^ 32 /\ is_i64 (t_Min ts) /\ is_i64 (t_Max ts).
Definition encode_all (l : list Tombstone) : list Z := concat (writeTombstone <$> l).

Section Walks.
Context {S : Type} (fn : Tombstone -> M S unit).

Lemma bind_assoc {A B D} (m : M S A) (k : A -> M S B) (h : B -> M S D) s : ((m ≫= k) ≫= h) s = (m ≫= (fun a => k a ≫= h)) s.
Proof. cbv [mbind M_bind]. destruct (m s) as [[a|e|] s']; done. Qed.
Lemma bind_ext {A B} (m : M S A) (k h : A -> M S B) s : (forall a s', k a s' = h a s') -> (m ≫= k) s = (m ≫= h) s.
Proof. intros E. cbv [mbind M_bind]. destruct (m s) as [[a|e|] s']; [apply E|done|done]. Qed.
Lemma bind_first {A B} (m m' : M S A) (k : A -> M S B) s : m s = m' s -> (m ≫= k) s = (m' ≫= k) s.
Proof. intros E. cbv [mbind M_bind]. by rewrite E. Qed.
Lemma bind_unit (m : M S unit) s : (m ;; mret tt) s = m s.
Proof. cbv [mbind M_bind mret M_ret]. by destruct (m s) as [[[]|e|] s']. Qed.

Lemma each_app l1 l2 s : each fn (l1 ++ l2) s = (each fn l1 ;; each fn l2) s.
Proof.
  revert s. induction l1 as [|t l1 IH]; intros s; cbn [each app]; [done|]. rewrite bind_assoc. apply bind_ext. intros _ s'. apply IH.
Qed.

Lemma ReadFull_app x rest n e : n = len x -> ReadFull n (x ++ rest) e = Ret (x, rest).
Proof.
  intros ->. unfold ReadFull. rewrite (proj2 (Z.leb_le _ _)) by (rewrite length_app; lia). by rewrite Nat2Z.id, take_app_length, drop_app_length.
Qed.

(** A member of records calls [fn] on each. *)
Lemma records_run l : forall fuel s, Forall wf_tomb l -> (length l < fuel)%nat -> records fn fuel (encode_all l) None s = each fn l s.
Proof.
  induction l as [|ts l IH]; intros fuel s Hw Hf; (destruct fuel as [|fuel]; [cbn in Hf; lia|]); cbn [records each].
  { done. }
  apply Forall_cons_1 in Hw as [(Hk & Hmn & Hmx) Hw]. unfold encode_all. cbn [fmap list_fmap concat]. fold (encode_all l). unfold writeTombstone. rewrite <- !app_assoc.
  rewrite ReadFull_app by (by rewrite be_put_length). rewrite be_get_put_small by (unfold u32; cbn; rewrite Z.mod_small; lia).
  unfold u32. rewrite Z.mod_small by lia.
  erewrite bind_ret; [|unfold lift; rewrite ReadFull_app by done; reflexivity]. cbv beta iota.
  erewrite bind_ret; [|unfold lift; rewrite ReadFull_app by (by rewrite be_put_length); reflexivity]. cbv beta iota.
  erewrite bind_ret; [|unfold lift; rewrite ReadFull_app by (by rewrite be_put_length); reflexivity]. cbv beta iota.
  rewrite !be64_roundtrip, !i64_u64, !i64_id by (done || apply u64_range).
  replace (MkTomb (t_Key ts) (t_Min ts) (t_Max ts)) with ts by (by destruct ts).
  apply bind_ext. intros _ s'. apply IH; [done|cbn in Hf; lia].
Qed.

Lemma encode_all_length l : (length l <= length (encode_all l))%nat.
Proof.
  induction l as [|ts l IH]; [done|]. unfold encode_all. cbn [fmap list_fmap concat length]. fold (encode_all l).
  unfold writeTombstone. rewrite !length_app, !be_put_length. lia.
Qed.
Lemma member_run l s : Forall wf_tomb l -> member fn (encode_all l) None s = each fn l s.
Proof. intros Hw. unfold member. apply records_run; [done|]. pose proof (encode_all_length l). lia. Qed.

Context {G : Gzip} {GO : GzipOk G}.

Lemma gz_member_length x : (4 <= length (gz_member x))%nat.
Proof. destruct (gz_magic x) as [tl ->]. cbn. lia. Qed.

(** Groups of tombstones, one per commit. *)
Definition members (gs : list (list Tombstone)) : list Z := concat ((fun g => gz_member (encode_all g)) <$> gs).
Definition v4file (gs : list (list Tombstone)) : list Z := be_put 4 v4header ++ members gs.

Lemma members_length gs : (length gs <= length (members gs))%nat.
Proof.
  induction gs as [|g gs IH]; [done|]. unfold members. cbn [fmap list_fmap concat length]. fold (members gs). rewrite length_app.
  pose proof (gz_member_length (encode_all g)). lia.
Qed.
Lemma members_app g1 g2 : members (g1 ++ g2) = members g1 ++ members g2.
Proof. unfold members. by rewrite fmap_app, concat_app. Qed.

Lemma v4_loop_run gs : forall fuel g s, Forall (Forall wf_tomb) (g :: gs) -> (length gs < fuel)%nat ->
  v4_loop fn fuel (encode_all g) None (members gs) [] s = each fn (concat (g :: gs)) s.
Proof.
  induction gs as [|g' gs IH]; intros fuel g s Hw Hf; (destruct fuel as [|fuel]; [cbn in Hf; lia|]); cbn [v4_loop].
  - apply Forall_cons_1 in Hw as [Hg _]. cbn [concat]. rewrite app_nil_r. unfold members. cbn [fmap list_fmap concat]. rewrite gz_eof. cbn [each].
    erewrite bind_first; [|by apply (member_run g s)].
    rewrite (bind_ext _ _ (fun _ => mret tt)); [apply bind_unit|]. done.
  - apply Forall_cons_1 in Hw as [Hg Hw]. change (concat (g :: g' :: gs)) with (g ++ concat (g' :: gs)). rewrite each_app.
    unfold members. cbn [fmap list_fmap concat]. fold (members gs). rewrite gz_roundtrip.
    erewrite bind_first; [|by apply (member_run g s)]. apply bind_ext. intros _ s'. cbn [each].
    erewrite bind_ret; [|reflexivity]. rewrite IH by (done || (cbn in Hf; lia)). done.
Qed.
End Walks.

Section Store.
Context {G : Gzip} {GO : GzipOk G}.

(** The tombstoner holds the committed groups, [done] of them applied. *)
Record holds (t : Tombstoner) (gs : list (list Tombstone)) (done : nat) : Prop := {
  hd_file : tb_file t = match gs with [] => None | _ => Some (v4file gs) end;
  hd_wf : Forall (Forall wf_tomb) gs;
  hd_idle : tb_pending t = None;
  hd_mem : tb_mem t = [];
  hd_path : tb_path t = true;
  hd_free : tb_stale t = false;
  hd_done : (done <= length gs)%nat;
  hd_applied : tb_lastApplied t = if (done =? 0)%nat then 0 else len (v4file (take done gs)) }.

Lemma v4file_header gs : take 4 (v4file gs ++ [0; 0; 0; 0]) = be_put 4 v4header.
Proof. reflexivity. Qed.
Lemma v4file_app g1 g2 : v4file (g1 ++ g2) = v4file g1 ++ members g2.
Proof. unfold v4file. by rewrite members_app, app_assoc. Qed.
Lemma v4file_length gs : len (v4file gs) = 4 + len (members gs).
Proof. unfold v4file. rewrite length_app, be_put_length. lia. Qed.

Lemma holds_rest t gs done : holds t gs done ->
  drop (Z.to_nat (if tb_lastApplied t =? 0 then headerSize else tb_lastApplied t)) (v4file gs) = members (drop done gs).
Proof.
  intros [_ _ _ _ _ _ Hd Ha]. rewrite Ha. destruct (Nat.eqb_spec done 0) as [->|Hn].
  - cbn [Z.eqb]. unfold v4file. rewrite drop_0. replace (Z.to_nat headerSize) with (length (be_put 4 v4header)) by done. apply drop_app_length.
  - rewrite (proj2 (Z.eqb_neq _ _)) by (rewrite v4file_length; lia). rewrite Nat2Z.id. rewrite <- (take_drop done gs) at 2. rewrite v4file_app.
    apply drop_app_length.
Qed.

(** A walk visits what was committed since the last one. *)
Lemma Walk_run {S} (fn : Tombstone -> M S unit) t gs done s : holds t gs done ->
  exists t', Walk fn t s = (each fn (concat (drop done gs)) s, t') /\ tb_filter t' = tb_filter t /\
    ((each fn (concat (drop done gs)) s).1 = Ret tt -> holds t' gs (length gs)).
Proof.
  intros H. pose proof (holds_rest t gs done H) as Hrest. pose proof H as [Hf Hw Hi Hm Hp Hs Hd Ha]. unfold Walk. rewrite Hf.
  destruct gs as [|g0 gs0] eqn:Eg.
  { exists t. rewrite drop_nil. split; [done|]. split; [done|]. intros _. cbn in Hd. by replace done with 0%nat in H by lia. }
  rewrite <- Eg in *. assert ((length (v4file gs) =? 0)%nat = false) as -> by reflexivity.
  rewrite v4file_header, be_get_put_small by (unfold v4header; cbn; lia). rewrite Z.eqb_refl. unfold readTombstoneV4. rewrite Hrest, Hm.
  destruct (drop done gs) as [|g gs'] eqn:Ed.
  - unfold members. cbn [fmap list_fmap concat each]. rewrite gz_eof. exists t. split; [done|]. split; [done|]. intros _.
    assert (length (drop done gs) = 0%nat) as Hl by (by rewrite Ed). rewrite length_drop in Hl. by replace (length gs) with done by lia.
  - unfold members. cbn [fmap list_fmap concat]. fold (members gs'). rewrite gz_roundtrip.
    assert (Hwg : Forall (Forall wf_tomb) (g :: gs')) by (rewrite <- Ed; by apply Forall_drop).
    assert (Hfu : (length gs' < Datatypes.S (Datatypes.S (length (v4file gs))))%nat).
    { assert (length (drop done gs) = Datatypes.S (length gs')) as Hl by (by rewrite Ed). rewrite length_drop in Hl.
      pose proof (members_length gs). unfold v4file. rewrite length_app, be_put_length. lia. }
    rewrite (v4_loop_run fn gs' _ g s Hwg Hfu).
    change (g ++ concat gs') with (concat (g :: gs')).
    destruct (each fn (concat (g :: gs')) s) as [r s'] eqn:Ee. eexists. split; [reflexivity|]. split; [by destruct r|]. cbn [fst]. intros ->.
    split; cbn [set_lastApplied tb_file tb_pending tb_mem tb_path tb_stale tb_lastApplied]; try done.
    + by rewrite Hf, Eg.
    + rewrite take_ge by lia. by rewrite Eg.
Qed.

Definition passing (t : Tombstoner) (ks : list (list Z)) : list (list Z) := List.filter (passes t) ks.

Lemma skip_filtered_passing t ks : passing t (skip_filtered t ks) = passing t ks.
Proof. induction ks as [|k ks IH]; [done|]. cbn. destruct (passes t k) eqn:E; [cbn; by rewrite E|done]. Qed.
Lemma skip_filtered_nil t ks : skip_filtered t ks = [] -> passing t ks = [].
Proof. intros E. by rewrite <- skip_filtered_passing, E. Qed.

(** One range added and flushed is one more group. *)
Lemma AddRange_Flush_run t gs done ks mn mx : holds t gs done -> Forall (fun k => len k < 2 ^ 32) ks -> is_i64 mn -> is_i64 mx ->
  exists t' g, (AddRange ks mn mx ;; Flush) t = (Ret tt, t') /\ tb_filter t' = tb_filter t /\
    g = (fun k => MkTomb k mn mx) <$> passing t ks /\
    (skip_filtered t ks = [] /\ t' = t \/ skip_filtered t ks <> [] /\ holds t' (gs ++ [g]) done).
Proof.
  intros [Hf Hw Hi Hm Hp Hs Hd Ha] Hk Hmn Hmx. unfold AddRange, Flush.
  destruct (skip_filtered t ks) as [|k0 ks0] eqn:Esk.
  { exists t, []. rewrite (skip_filtered_nil t ks Esk). split_and!; [|done|done|by left].
    erewrite bind_ret. 2: { mnow. rewrite Esk. reflexivity. }
    unfold commit, attempt. cbv [mbind M_bind get]. by rewrite Hi. }
  set (g := (fun k => MkTomb k mn mx) <$> passing t ks).
  set (f0 := match gs with [] => be_put 4 v4header | _ => v4file gs end).
  assert (Hprep : prepareV4 (set_loaded false t) = (Ret tt, set_pending (Some (MkPending f0 [])) (set_loaded false t))).
  { unfold prepareV4. mnow. cbn [set_loaded tb_pending tb_stale tb_file]. rewrite Hi, Hs, Hf. destruct gs as [|g1 gs1]; [done|].
    rewrite (proj2 (Z.ltb_ge _ _)) by (rewrite v4file_length; lia). change (take 4 (v4file (g1 :: gs1))) with (be_put 4 v4header).
    rewrite be_get_put_small by (unfold v4header; cbn; lia). rewrite Z.eqb_refl. done. }
  assert (Hadd : AddRange ks mn mx t = (Ret tt, set_pending (Some (MkPending f0 (encode_all g))) (set_loaded false t))).
  { unfold AddRange. mnow. rewrite Esk. cbn [length Nat.eqb]. rewrite Hp. cbn [negb]. mnow.
    erewrite bind_ret; [|by apply attempt_eq, Hprep]. cbv iota. unfold modify, record_all. cbn [set_pending set_loaded tb_pending p_file p_records app].
    rewrite <- Esk. change (List.filter _ (skip_filtered t ks)) with (passing t (skip_filtered t ks)). rewrite skip_filtered_passing.
    unfold encode_all, g. by rewrite <- list_fmap_compose. }
  exists (set_file (Some (f0 ++ gz_member (encode_all g))) (set_loaded false t)), g.
  split_and!; [|done|done|right; split; [done|]].
  - erewrite bind_ret; [|exact Hadd]. unfold Flush. erewrite bind_ret; [|apply attempt_eq; unfold commit; mnow; cbn [set_pending tb_pending]; mnow; reflexivity].
    cbv iota. cbn [set_pending set_file set_loaded p_file p_records tb_path tb_filter tb_mem tb_exists tb_size tb_statsLoaded tb_pending tb_file tb_stale tb_lastApplied].
    unfold mret, M_ret, set_pending, set_loaded, set_file. cbn. by rewrite Hi.
  - split; cbn [set_file set_loaded tb_file tb_pending tb_mem tb_path tb_stale tb_lastApplied]; try done.
    + assert (f0 = v4file gs) as -> by (unfold f0; destruct gs; [unfold v4file, members; cbn [fmap list_fmap concat]; by rewrite app_nil_r|done]).
      assert (gz_member (encode_all g) = members [g]) as -> by (unfold members; cbn [fmap list_fmap concat]; by rewrite app_nil_r).
      rewrite <- v4file_app. by destruct gs.
    + apply Forall_app. split; [done|]. constructor; [|constructor]. apply Forall_fmap. apply Forall_forall. intros k Hin.
      apply list_elem_of_In, filter_In in Hin as [Hin%list_elem_of_In _]. rewrite Forall_forall in Hk. split; [by apply Hk|done].
    + rewrite length_app. lia.
    + rewrite Ha. destruct (done =? 0)%nat; [done|]. rewrite take_app_le by done. done.
Qed.

(** ** Files of older versions *)

Lemma v3_run {S} (fn : Tombstone -> M S unit) l s : Forall wf_tomb l ->
  readTombstoneV3 fn (be_put 4 v3header ++ gz_member (encode_all l)) [] s = each fn l s.
Proof.
  intros Hw. unfold readTombstoneV3. replace (drop 4 (be_put 4 v3header ++ gz_member (encode_all l))) with (gz_member (encode_all l) ++ [])
    by (rewrite app_nil_r; symmetry; apply (drop_app_length (be_put 4 v3header))).
  rewrite length_app, be_put_length. cbn [Nat.add gz_all]. rewrite gz_roundtrip, gz_eof. cbn [each].
  erewrite bind_first; [|by apply (member_run fn l s)]. apply bind_unit.
Qed.

(** C40. A deletion on a file whose tombstones are in an older format replaces
    the tombstone file: whatever the file held, after [AddRange] and [Flush]
    a walk of the file on disk visits the new tombstones only, and none of
    those recorded before. *)
Theorem old_tombstones_replaced (f : list Z) (ks : list (list Z)) (mn mx : Z) :
  len f >= 4 -> be_get (take 4 f) <> v4header -> ks <> [] -> Forall (fun k => len k < 2 ^ 32) ks -> is_i64 mn -> is_i64 mx ->
  exists t', (AddRange ks mn mx ;; Flush) (NewTombstoner true None (Some f) false) = (Ret tt, t') /\
    forall S (fn : Tombstone -> M S unit) s,
      (Walk fn (NewTombstoner true None (tb_file t') false) s).1 = each fn ((fun k => MkTomb k mn mx) <$> ks) s.
Proof.
  intros Hl Hh Hne Hk Hmn Hmx. set (t := NewTombstoner true None (Some f) false).
  assert (Hprep : prepareV4 (set_loaded false t) = (Fail errIncompatibleVersion, set_loaded false t)).
  { unfold prepareV4. mnow. cbn [set_loaded t NewTombstoner tb_pending tb_stale tb_file]. rewrite (proj2 (Z.ltb_ge _ _)) by lia.
    by rewrite (proj2 (Z.eqb_neq _ _)). }
  assert (Hsk : skip_filtered t ks = ks) by (destruct ks; done).
  assert (Hall : List.filter (passes (set_loaded false t)) ks = ks).
  { clear. induction ks as [|k ks IH]; [done|]. cbn. f_equal. exact IH. }
  set (l := (fun k => MkTomb k mn mx) <$> ks).
  assert (Hadd : exists t1, AddRange ks mn mx t = (Ret tt, t1) /\ tb_pending t1 = None /\ tb_file t1 = Some (be_put 4 v3header ++ gz_member (encode_all l))).
  { eexists. split.
    - unfold AddRange. mnow. rewrite Hsk. assert ((length ks =? 0)%nat = false) as -> by (by destruct ks). cbn [t NewTombstoner tb_path negb]. mnow. fold t.
      erewrite bind_ret; [|by apply attempt_eq, Hprep]. cbv iota. rewrite (proj2 (String.eqb_eq _ _) eq_refl). mnow. rewrite Hall.
      change (tb_mem (set_loaded false t)) with (@nil Tombstone). cbn [app]. mnow. unfold writeTombstoneV3. do 2 mnow. unfold commit. mnow.
      cbn [set_mem set_pending tb_pending]. mnow. reflexivity.
    - done. }
  destruct Hadd as (t1 & E1 & Hp & Hf). exists t1. split.
  { erewrite bind_ret; [|exact E1]. unfold Flush, commit, attempt. cbv [mbind M_bind get]. by rewrite Hp. }
  intros S fn s. rewrite Hf. unfold Walk. cbn [NewTombstoner tb_file tb_mem].
  assert (Hlen : (length (be_put 4 v3header ++ gz_member (encode_all l)) =? 0)%nat = false) by reflexivity. rewrite Hlen.
  change (be_get (take 4 ((be_put 4 v3header ++ gz_member (encode_all l)) ++ [0; 0; 0; 0]))) with v3header. cbn [Z.eqb v3header v4header Pos.eqb].
  rewrite v3_run; [done|]. apply Forall_fmap. rewrite Forall_forall in Hk |- *. intros k Hin. split; [by apply Hk|done].
Qed.

(** The key a v2 record is read as: the buffer of the key is used again for
    the two times, so that its first eight bytes are those of the end. *)
Definition overwritten (ts : Tombstone) : Tombstone := MkTomb (be_put 8 (u64 (t_Max ts)) ++ drop 8 (t_Key ts)) (t_Min ts) (t_Max ts).

Lemma fileRead_app x rest bf n : n = len x -> x <> [] \/ rest <> [] \/ n = 0 -> (length x <= length bf)%nat ->
  fileRead n bf (x ++ rest) = Ret (x ++ drop (length x) bf, rest).
Proof.
  intros -> Hne Hl. unfold fileRead. destruct (_ && _) eqn:E.
  { exfalso. apply andb_prop in E as [E1%Z.ltb_lt E2%Nat.eqb_eq]. rewrite length_app in E2. lia. }
  rewrite Nat2Z.id, take_app_length, drop_app_length. done.
Qed.

Lemma v2_loop_run {S} (fn : Tombstone -> M S unit) l : forall fuel bf n s, Forall wf_tomb l -> Forall (fun ts => 8 <= len (t_Key ts)) l ->
  (8 <= length bf)%nat -> (length l < fuel)%nat ->
  v2_loop fn fuel bf (encode_all l) n (n + len (encode_all l)) s = each fn (overwritten <$> l) s.
Proof.
  induction l as [|ts l IH]; intros fuel bf n s Hw H8 Hb Hf; (destruct fuel as [|fuel]; [cbn in Hf; lia|]); cbn [v2_loop fmap list_fmap each].
  { unfold encode_all. cbn [fmap list_fmap concat length]. rewrite (proj2 (Z.leb_le _ _)) by lia. done. }
  apply Forall_cons_1 in Hw as [(Hk & Hmn & Hmx) Hw]. apply Forall_cons_1 in H8 as [Hk8 H8].
  unfold encode_all. cbn [fmap list_fmap concat]. fold (encode_all l). set (size := n + _).
  assert (Hsize : size = n + 4 + len (t_Key ts) + 8 + 8 + len (encode_all l)) by (unfold size, writeTombstone; rewrite !length_app, !be_put_length; lia).
  rewrite (proj2 (Z.leb_gt _ _)) by lia. unfold writeTombstone. rewrite <- !app_assoc. unfold u32. rewrite Z.mod_small by lia.
  erewrite bind_ret; [|unfold lift; rewrite fileRead_app by (rewrite ?be_put_length; (done || lia || by left)); reflexivity]. cbv beta iota.
  rewrite take_app_length' by (by rewrite be_put_length). rewrite be_get_put_small by (cbn; lia). rewrite be_put_length.
  set (bf1 := if _ <? _ then _ else _).
  assert (Hb1 : (length (t_Key ts) <= length bf1)%nat).
  { unfold bf1. destruct (Z.ltb_spec (len (be_put 4 (len (t_Key ts)) ++ drop 4 bf)) (len (t_Key ts))); [rewrite length_replicate; lia|lia]. }
  erewrite bind_ret; [|unfold lift; rewrite fileRead_app by (done || lia || (left; intros E; rewrite E in Hk8; cbn in Hk8; lia)); reflexivity]. cbv beta iota.
  erewrite bind_ret; [|unfold lift; rewrite fileRead_app by (rewrite ?be_put_length, ?length_app; (done || lia || by left)); reflexivity]. cbv beta iota.
  rewrite be_put_length. rewrite (drop_app_le (t_Key ts)) by lia.
  erewrite bind_ret; [|unfold lift; rewrite fileRead_app by (rewrite ?length_app, ?length_drop, ?be_put_length; (done || lia || by left)); reflexivity]. cbv beta iota.
  rewrite !(take_app_length' (be_put 8 _) _ 8) by (by rewrite be_put_length). rewrite !be_put_length.
  replace (drop 8 (be_put 8 (u64 (t_Min ts)) ++ drop 8 (t_Key ts) ++ drop (length (t_Key ts)) bf1)) with (drop 8 (t_Key ts) ++ drop (length (t_Key ts)) bf1)
    by (symmetry; apply (drop_app_length' (be_put 8 (u64 (t_Min ts)))); by rewrite be_put_length).
  rewrite !be64_roundtrip, !i64_u64, !i64_id by (done || apply u64_range).
  rewrite Nat2Z.id, app_assoc, take_app_length' by (rewrite length_app, length_drop, be_put_length; lia).
  fold (overwritten ts). apply bind_ext. intros _ s'. rewrite Hsize. apply IH; [done|done| |cbn in Hf; lia].
  rewrite !length_app, be_put_length. lia.
Qed.

(** A walk of a v2 file changes the keys: for keys of eight bytes and more
    every tombstone is visited in order with its times, but with the first
    eight bytes of its key replaced by the bytes of its end time. *)
Theorem v2_keys_overwritten {S} (fn : Tombstone -> M S unit) (l : list Tombstone) (s : S) :
  Forall wf_tomb l -> Forall (fun ts => 8 <= len (t_Key ts)) l ->
  (Walk fn (NewTombstoner true None (Some (be_put 4 v2header ++ encode_all l)) false) s).1 = each fn (overwritten <$> l) s.
Proof.
  intros Hw H8. unfold Walk. cbn [NewTombstoner tb_file tb_mem].
  assert (Hlen : (length (be_put 4 v2header ++ encode_all l) =? 0)%nat = false) by reflexivity. rewrite Hlen.
  change (be_get (take 4 ((be_put 4 v2header ++ encode_all l) ++ [0; 0; 0; 0]))) with v2header. cbn [Z.eqb v2header v3header v4header Pos.eqb fst].
  unfold readTombstoneV2. replace (drop 4 (be_put 4 v2header ++ encode_all l)) with (encode_all l) by (symmetry; apply (drop_app_length (be_put 4 v2header))).
  pose proof (encode_all_length l). rewrite length_app, be_put_length, Nat2Z.inj_add. change (Z.of_nat 4) with 4.
  erewrite bind_first; [|apply v2_loop_run; [done|done|rewrite length_replicate; lia|lia]]. cbn [each]. apply bind_unit.
Qed.

(** A file too short to hold a header gets none, and the next walk takes the
    compressed records for the lines of a v1 file. *)
Lemma short_file_loses_header (f : list Z) (ks : list (list Z)) (mn mx : Z) : len f < 4 -> ks <> [] ->
  exists t', (AddRange ks mn mx ;; Flush) (NewTombstoner true None (Some f) false) = (Ret tt, t') /\
    tb_file t' = Some (gz_member (encode_all ((fun k => MkTomb k mn mx) <$> ks))) /\
    forall S (fn : Tombstone -> M S unit) s, (Walk fn (NewTombstoner true None (tb_file t') false) s).1
      = readTombstoneV1 fn (gz_member (encode_all ((fun k => MkTomb k mn mx) <$> ks))) [] s.
Proof.
  intros Hl Hne. set (t := NewTombstoner true None (Some f) false). set (g := (fun k => MkTomb k mn mx) <$> ks).
  assert (Hprep : prepareV4 (set_loaded false t) = (Ret tt, set_pending (Some (MkPending [] [])) (set_loaded false t))).
  { unfold prepareV4. mnow. cbn [set_loaded t NewTombstoner tb_pending tb_stale tb_file]. by rewrite (proj2 (Z.ltb_lt _ _)). }
  assert (Hsk : skip_filtered t ks = ks) by (destruct ks; done).
  assert (Hall : forall t', tb_filter t' = None -> List.filter (passes t') ks = ks).
  { intros t' Ht'. clear -Ht'. induction ks as [|k ks IH]; [done|]. cbn. unfold passes at 1. rewrite Ht'. by rewrite IH. }
  eexists. split_and!.
  - erewrite bind_ret. 2: { unfold AddRange. mnow. rewrite Hsk. assert ((length ks =? 0)%nat = false) as -> by (by destruct ks).
      cbn [t NewTombstoner tb_path negb]. mnow. fold t. erewrite bind_ret; [|by apply attempt_eq, Hprep]. reflexivity. }
    unfold Flush. erewrite bind_ret; [|apply attempt_eq; unfold commit; mnow; cbn [record_all set_pending tb_pending]; mnow; reflexivity]. reflexivity.
  - cbn [set_pending set_file record_all tb_pending tb_file p_file p_records app]. rewrite Hall by done. unfold encode_all, g. by rewrite <- list_fmap_compose.
  - intros S fn s. cbn [set_pending set_file record_all tb_pending tb_file p_file p_records app]. rewrite Hall by done.
    replace (concat ((fun k => writeTombstone (MkTomb k mn mx)) <$> ks)) with (encode_all g) by (unfold encode_all, g; by rewrite <- list_fmap_compose).
    unfold Walk. cbn [NewTombstoner tb_file tb_mem]. destruct (gz_magic (encode_all g)) as [tl Em]. rewrite Em. reflexivity.
Qed.

(** Statistics taken between adding and flushing are kept: the tombstones on
    disk are then not reported. *)
Lemma stats_stale_after_flush (k : list Z) (mn mx : Z) :
  exists t', (AddRange [k] mn mx ;; HasTombstones ;; Flush ;; HasTombstones) (NewTombstoner true None None false) = (Ret false, t') /\
    tb_file t' <> None.
Proof. eexists. split; [reflexivity|done]. Qed.
End Store.

(** ** A stored format

    Members that hold their content as it is, a mark before every byte. *)
Fixpoint store_body (x : list Z) : list Z := match x with [] => [0] | v :: x => 1 :: v :: store_body x end.
Fixpoint load_body (bs : list Z) : gz_result :=
  match bs with
  | 1 :: v :: bs => match load_body bs with GzMember c e rest => GzMember (v :: c) e rest | r => r end
  | 0 :: rest => GzMember [] None rest
  | _ => GzMember [] (Some ErrUnexpectedEOF) []
  end.
Definition store_gzip : Gzip := {|
  gz_member := fun x => [31; 139; 8; 0] ++ store_body x;
  gz_next := fun bs => match bs with
                       | [] => GzEOF
                       | 31 :: 139 :: 8 :: 0 :: bs => load_body bs
                       | _ => GzErr "gzip: invalid header"
                       end |}.
Lemma load_store x rest : load_body (store_body x ++ rest) = GzMember x None rest.
Proof. induction x as [|v x IH]; [done|]. cbn [store_body app load_body]. by rewrite IH. Qed.
#[export] Instance store_gzip_ok : GzipOk store_gzip.
Proof. split; [done|intros x rest; apply load_store|intros x; by eexists]. Qed.

Lemma old_tombstones_replaced_witness :
  exists t', (AddRange (G := store_gzip) [[97]] 5 9 ;; Flush (G := store_gzip))
      (NewTombstoner true None (Some (be_put 4 v3header ++ gz_member (Gzip := store_gzip) (encode_all [MkTomb [98] 1 2]))) false) = (Ret tt, t') /\
    (Walk (G := store_gzip) (fun ts => modify (fun l => l ++ [ts])) (NewTombstoner true None (tb_file t') false) []).1 = (Ret tt, [MkTomb [97] 5 9]).
Proof.
  destruct (old_tombstones_replaced (G := store_gzip) (be_put 4 v3header ++ gz_member (Gzip := store_gzip) (encode_all [MkTomb [98] 1 2])) [[97]] 5 9)
    as (t' & E & H).
  - vm_compute. discriminate.
  - vm_compute. discriminate.
  - discriminate.
  - repeat constructor.
  - unfold is_i64. lia.
  - unfold is_i64. lia.
  - exists t'. split; [exact E|]. rewrite H. reflexivity.
Defined.

Lemma v2_keys_overwritten_witness :
  (Walk (G := store_gzip) (fun ts => modify (fun l => l ++ [ts]))
    (NewTombstoner true None (Some (be_put 4 v2header ++ encode_all [MkTomb [99; 112; 117; 44; 104; 61; 97; 32; 118] 1 513])) false) []).1
  = (Ret tt, [MkTomb [0; 0; 0; 0; 0; 0; 2; 1; 118] 1 513]).
Proof.
  rewrite (v2_keys_overwritten (G := store_gzip)); [reflexivity|repeat constructor; unfold is_i64; cbn; lia|repeat constructor; cbn; lia].
Defined.
End TombstoneSpec.
