(* ===== verification/TsmReader.v ===== *)
(** * The reader of a TSM file

    Models [TSMReader] and [batchDelete] of [tsdb/engine/tsm1/reader.go]: the
    opened file with its index and its tombstones, the deletions through both,
    and the reference count that keeps a file in use from being removed. *)
From S2P Require Import Prelude Values Ring WalLog TsmIndex DQueue Tombstone TsmFile.
From stdpp Require Import gmap sorting.
#[global] Open Scope Z_scope.

Module TsmReader.
Import Values TsmIndex TsmFile.

Definition ErrFileInUse : string := "file still in use".

Section Reader.
Context {C : BlockCodec} {G : Gzip}.

(** [r_file] is whether the file is still on disk. *)
Record TSMReader := MkReader {
  r_refs : Z;
  r_acc : mmapAccessor;
  r_tomb : Tombstone.Tombstoner;
  r_size : Z;
  r_file : bool }.
Abbreviation RM := (M TSMReader).

Definition set_acc (m : mmapAccessor) (r : TSMReader) : TSMReader := MkReader (r_refs r) m (r_tomb r) (r_size r) (r_file r).
Definition set_tomb (t : Tombstone.Tombstoner) (r : TSMReader) : TSMReader := MkReader (r_refs r) (r_acc r) t (r_size r) (r_file r).
Definition set_refs (n : Z) (r : TSMReader) : TSMReader := MkReader n (r_acc r) (r_tomb r) (r_size r) (r_file r).
Definition gone (r : TSMReader) : TSMReader := MkReader (r_refs r) (r_acc r) (r_tomb r) (r_size r) false.
Definition r_index (r : TSMReader) : indirectIndex := m_index (r_acc r).
Definition set_rindex (d : indirectIndex) (r : TSMReader) : TSMReader :=
  set_acc (MkAccessor (m_b (r_acc r)) d (m_access (r_acc r)) (m_free (r_acc r))) r.

(** A call on the index, on the tombstoner and on the accessor. *)
Definition on_index (f : indirectIndex -> outcome indirectIndex) : RM unit :=
  r ← get; d ← lift (f (r_index r)); modify (set_rindex d).
Definition on_tomb {A} (m : M Tombstone.Tombstoner A) : RM A := fun r =>
  let '(x, t) := m (r_tomb r) in (x, set_tomb t r).
Definition on_acc {A} (m : mmapAccessor -> outcome A * mmapAccessor) : RM A := fun r =>
  let '(x, a) := m (r_acc r) in (x, set_acc a r).

(** ** Applying tombstones *)

(** The index, the batch of keys and the last tombstone seen. *)
Record apply_state := MkApply { ap_index : indirectIndex; ap_batch : list (list Z); ap_prev : Tombstone.Tombstone }.
Abbreviation AM := (M apply_state).

Definition delete_batch (mn mx : Z) : AM unit :=
  s ← get;
  d ← lift (DeleteRange (ap_index s) (ap_batch s) mn mx);
  modify (fun s => MkApply d [] (ap_prev s)).

(** The function handed to [Walk].  [cur] and [prev] are equal between calls. *)
Definition apply_one (ts : Tombstone.Tombstone) : AM unit :=
  s ← get;
  (if negb (length (ap_batch s) =? 0)%nat
      && (negb (Tombstone.t_Min (ap_prev s) =? Tombstone.t_Min ts) || negb (Tombstone.t_Max (ap_prev s) =? Tombstone.t_Max ts))
   then delete_batch (Tombstone.t_Min (ap_prev s)) (Tombstone.t_Max (ap_prev s))
   else mret tt) ;;
  modify (fun s => MkApply (ap_index s) (ap_batch s ++ [Tombstone.t_Key ts]) (ap_prev s)) ;;
  s ← get;
  (if 4096 <=? len (ap_batch s) then delete_batch (Tombstone.t_Min (ap_prev s)) (Tombstone.t_Max (ap_prev s)) else mret tt) ;;
  modify (fun s => MkApply (ap_index s) (ap_batch s) ts).

Definition apply_rest : AM unit :=
  s ← get;
  if (length (ap_batch s) =? 0)%nat then mret tt
  else delete_batch (Tombstone.t_Min (ap_prev s)) (Tombstone.t_Max (ap_prev s)).

Definition applyTombstones : RM unit := fun r =>
  let '((o, s), t) := Tombstone.Walk apply_one (r_tomb r) (MkApply (r_index r) [] (Tombstone.MkTomb [] 0 0)) in
  match o with
  | Ret _ => let '(o, s) := apply_rest s in (o, set_tomb t (set_rindex (ap_index s) r))
  | Fail _ => (Fail "init: read tombstones", set_tomb t (set_rindex (ap_index s) r))
  | Panic => (Panic, set_tomb t (set_rindex (ap_index s) r))
  end.

(** ** Opening, deleting *)

(** [tomb] is the tombstone file on disk, [stale] a temporary one. *)
Definition NewTSMReader (file : list Z) (tomb : option (list Z)) (stale : bool) : outcome TSMReader :=
  let! m := init file in
  let t := Tombstone.NewTombstoner true (Some (ContainsKey (m_index m))) tomb stale in
  match applyTombstones (MkReader 0 m t (len file) true) with
  | (Ret _, r) => Ret r
  | (Fail e, _) => Fail e
  | (Panic, _) => Panic
  end.

(** [batchDelete.DeleteRange]. *)
Definition batch_DeleteRange (keys : list (list Z)) (lo hi : Z) : RM unit :=
  match head keys, last keys with
  | Some minKey, Some maxKey =>
    r ← get;
    if negb (OverlapsKeyRange (r_index r) minKey maxKey) then mret tt
    else if negb (OverlapsTimeRange (r_index r) lo hi) then mret tt
    else on_tomb (Tombstone.AddRange keys lo hi)
  | _, _ => mret tt
  end.
Definition Commit : RM unit := on_tomb Tombstone.Flush ;; applyTombstones.
Definition Rollback : RM unit := on_tomb Tombstone.Rollback.

Definition Reader_DeleteRange (keys : list (list Z)) (lo hi : Z) : RM unit :=
  if (length keys =? 0)%nat then mret tt
  else
    e ← attempt (batch_DeleteRange keys lo hi);
    match e : outcome unit with
    | Ret _ => Commit
    | Fail err => attempt Rollback ;; fail err
    | Panic => panic
    end.

Definition Reader_Delete (keys : list (list Z)) : RM unit :=
  on_tomb (Tombstone.Add_ keys) ;;
  on_tomb Tombstone.Flush ;;
  on_index (fun d => TsmIndex.Delete d keys).

(** ** Reading *)

Definition ReadAt (e : IndexEntry) : RM (list Value) := on_acc (fun m => readBlock m e).
Definition Reader_Read (k : list Z) (t : Z) : RM (list Value) := on_acc (fun m => read m k t).
Definition ReadAll (k : list Z) : RM (list Value) := on_acc (fun m => readAll m k).
Definition ReadBytes (e : IndexEntry) : RM (Z * list Z) := on_acc (fun m => readBytes m e).
Definition Free : RM bool := on_acc (fun m => let '(x, m) := free m in (Ret x, m)).
Definition Reader_Type (r : TSMReader) (k : list Z) : outcome Z := Type_of (r_index r) k.
Definition Reader_Contains (r : TSMReader) (k : list Z) : outcome bool := index_Contains (r_index r) k.
Definition Reader_ContainsValue (r : TSMReader) (k : list Z) (t : Z) : outcome bool := ContainsValue (r_index r) k t.
Definition Reader_HasTombstones : RM bool := on_tomb Tombstone.HasTombstones.
Definition Reader_Size (r : TSMReader) : Z := u32 (r_size r).
Definition IndexSize (r : TSMReader) : Z := index_Size (r_index r).

(** ** References *)

Definition Ref (r : TSMReader) : TSMReader := set_refs (i64 (r_refs r + 1)) r.
Definition Unref (r : TSMReader) : TSMReader := set_refs (i64 (r_refs r - 1)) r.
Definition InUse (r : TSMReader) : bool := 0 <? r_refs r.

(** [None]: the call waits until the last reference is dropped. *)
Definition Close (r : TSMReader) : option TSMReader :=
  if r_refs r =? 0 then Some (set_acc (close (r_acc r)) r) else None.

Definition Remove : RM unit :=
  r ← get;
  if InUse r then fail ErrFileInUse
  else modify gone ;; on_tomb Tombstone.Delete.
End Reader.
End TsmReader.
