(* ===== verification/TsmReaderSpec.v ===== *)
(** * The reader of a TSM file: deletions are durable

    The tombstones a reader records hide from its index exactly the points
    its callers deleted, and opening the file again with the tombstone file
    hides the same points. *)
From S2P Require Import Prelude Values Block Ring WalLog TsmIndex TsmIndexSpec TsmDelete TsmDeleteRange TsmOpen DQueue DQueueSegs Tombstone TombstoneSpec TsmFile TsmFileSpec TsmReader.
From stdpp Require Import gmap sorting.
#[global] Open Scope Z_scope.

Module TsmReaderSpec.
Import Values TsmIndex TsmIndexSpec TsmDelete TsmDeleteRange TsmOpen TsmFile TsmFileSpec TsmReader.
Import Tombstone (t_Key, t_Min, t_Max, MkTomb, tb_file, tb_filter).
Import TombstoneSpec (wf_tomb, holds).
Abbreviation len l := (Z.of_nat (length l)).
Abbreviation tomb := Tombstone.Tombstone.

(** The tombstone hides the point. *)
Definition hides (k : list Z) (t : Z) (ts : tomb) : Prop := t_Key ts = k /\ t_Min ts <= t <= t_Max ts.

(** ** A list of tombstones as a run of deletions *)

(** The batch not yet applied. *)
Definition held (s : apply_state) (k : list Z) (t : Z) : Prop := k ∈ ap_batch s /\ t_Min (ap_prev s) <= t <= t_Max (ap_prev s).
Definition batch_ok (s : apply_state) : Prop := ap_batch s <> [] -> is_i64 (t_Min (ap_prev s)) /\ is_i64 (t_Max (ap_prev s)).

Lemma delete_batch_run s d' : run (ap_index s) [ODeleteRange (ap_batch s) (t_Min (ap_prev s)) (t_Max (ap_prev s))] = Ret d' ->
  delete_batch (t_Min (ap_prev s)) (t_Max (ap_prev s)) s = (Ret tt, MkApply d' [] (ap_prev s)).
Proof.
  cbn [run step]. destruct (DeleteRange _ _ _ _) as [d| |] eqn:E; cbn [obind]; intros [= <-]. unfold delete_batch. mnow.
  erewrite bind_ret; [|unfold lift; rewrite E; reflexivity]. done.
Qed.

Definition differs (s : apply_state) (ts : tomb) : bool :=
  negb (length (ap_batch s) =? 0)%nat && (negb (t_Min (ap_prev s) =? t_Min ts) || negb (t_Max (ap_prev s) =? t_Max ts)).

Lemma not_differs s ts : differs s ts = false -> ap_batch s <> [] -> t_Min (ap_prev s) = t_Min ts /\ t_Max (ap_prev s) = t_Max ts.
Proof.
  unfold differs. intros E Hne. destruct (ap_batch s); [done|]. cbn in E. apply orb_false_iff in E as [E1 E2].
  apply negb_false_iff, Z.eqb_eq in E1. apply negb_false_iff, Z.eqb_eq in E2. done.
Qed.

(** The second half of the function: the key joins the batch. *)
Definition join (ts : tomb) : M apply_state unit :=
  modify (fun s => MkApply (ap_index s) (ap_batch s ++ [t_Key ts]) (ap_prev s)) ;;
  s ← get;
  (if 4096 <=? len (ap_batch s) then delete_batch (t_Min (ap_prev s)) (t_Max (ap_prev s)) else mret tt) ;;
  modify (fun s => MkApply (ap_index s) (ap_batch s) ts).

Lemma apply_one_join ts s : apply_one ts s =
  if differs s ts then (delete_batch (t_Min (ap_prev s)) (t_Max (ap_prev s)) ;; join ts) s else join ts s.
Proof. unfold apply_one. mnow. fold (differs s ts). by destruct (differs s ts). Qed.

Lemma join_few ts s : len (ap_batch s) + 1 < 4096 -> join ts s = (Ret tt, MkApply (ap_index s) (ap_batch s ++ [t_Key ts]) ts).
Proof.
  intros H. unfold join. do 2 mnow. cbn [ap_batch]. rewrite (proj2 (Z.leb_gt _ _)) by (rewrite length_app; cbn [length]; lia). done.
Qed.
Lemma join_full ts s d' : 4096 <= len (ap_batch s) + 1 ->
  run (ap_index s) [ODeleteRange (ap_batch s ++ [t_Key ts]) (t_Min (ap_prev s)) (t_Max (ap_prev s))] = Ret d' ->
  join ts s = (Ret tt, MkApply d' [] ts).
Proof.
  intros H Hr. unfold join. do 2 mnow. cbn [ap_batch ap_prev]. rewrite (proj2 (Z.leb_le _ _)) by (rewrite length_app; cbn [length]; lia).
  erewrite bind_ret; [|apply (delete_batch_run (MkApply (ap_index s) (ap_batch s ++ [t_Key ts]) (ap_prev s)) d' Hr)]. done.
Qed.

(** One tombstone: the deletions it triggers and the batch it leaves. *)
Lemma apply_one_run ts s : wf_tomb ts -> batch_ok s -> exists ops batch,
  Forall wf_op ops /\ (forall d', run (ap_index s) ops = Ret d' -> apply_one ts s = (Ret tt, MkApply d' batch ts)) /\
  forall k t, (Exists (names k t) ops \/ k ∈ batch /\ t_Min ts <= t <= t_Max ts) <-> held s k t \/ hides k t ts.
Proof.
  intros (_ & Hmn & Hmx) Hok. unfold held, hides. destruct (differs s ts) eqn:Ed.
  - (* the ranges differ: the batch is applied first *)
    assert (Hne : ap_batch s <> []) by (unfold differs in Ed; by destruct (ap_batch s)).
    exists [ODeleteRange (ap_batch s) (t_Min (ap_prev s)) (t_Max (ap_prev s))], [t_Key ts].
    split_and!; [by constructor; [apply Hok|constructor]| |].
    + intros d' Hr. rewrite apply_one_join, Ed. erewrite bind_ret; [|exact (delete_batch_run s d' Hr)]. by rewrite join_few.
    + intros k t. rewrite Exists_cons, Exists_nil, list_elem_of_singleton. cbn [names]. naive_solver.
  - assert (Hr : ap_batch s = [] \/ t_Min (ap_prev s) = t_Min ts /\ t_Max (ap_prev s) = t_Max ts).
    { destruct (decide (ap_batch s = [])) as [|Hne]; [by left|right]. by apply not_differs. }
    destruct (Z.lt_ge_cases (len (ap_batch s) + 1) 4096) as [Hf|Hf].
    + exists [], (ap_batch s ++ [t_Key ts]). split_and!; [constructor| |].
      * intros d' [= <-]. by rewrite apply_one_join, Ed, join_few.
      * intros k t. rewrite Exists_nil, elem_of_app, list_elem_of_singleton. destruct Hr as [->|[-> ->]]; rewrite ?elem_of_nil; naive_solver.
    + assert (Hne : ap_batch s <> []) by (intros E; rewrite E in Hf; cbn in Hf; lia). destruct Hr as [|[E1 E2]]; [done|].
      exists [ODeleteRange (ap_batch s ++ [t_Key ts]) (t_Min (ap_prev s)) (t_Max (ap_prev s))], [].
      split_and!; [by constructor; [apply Hok|constructor]| |].
      * intros d' Hr. rewrite apply_one_join, Ed. by apply join_full.
      * intros k t. rewrite Exists_cons, Exists_nil, elem_of_nil. cbn [names]. rewrite elem_of_app, list_elem_of_singleton, E1, E2. naive_solver.
Qed.

Lemma run_app d ops1 ops2 : run d (ops1 ++ ops2) = let! d := run d ops1 in run d ops2.
Proof. revert d. induction ops1 as [|o ops1 IH]; intros d; cbn [run app]; [done|]. destruct (step d o) as [d1| |]; cbn [obind]; [apply IH|done|done]. Qed.

(** No run of deletions fails. *)
Definition runs (d : indirectIndex) : Prop := forall ops, Forall wf_op ops -> exists d', run d ops = Ret d'.
Lemma runs_after d ops d' : runs d -> Forall wf_op ops -> run d ops = Ret d' -> runs d'.
Proof.
  intros Hr Hw E ops' Hw'. destruct (Hr (ops ++ ops')) as [d2 E2]; [by apply Forall_app|]. rewrite run_app, E in E2. by exists d2.
Qed.

(** Walking tombstones is a run of deletions that names what they hide. *)
Lemma each_apply_run l : forall s, Forall wf_tomb l -> batch_ok s -> runs (ap_index s) -> exists ops s',
  Forall wf_op ops /\ run (ap_index s) ops = Ret (ap_index s') /\ Tombstone.each apply_one l s = (Ret tt, s') /\ batch_ok s' /\
  forall k t, (Exists (names k t) ops \/ held s' k t) <-> held s k t \/ Exists (hides k t) l.
Proof.
  induction l as [|ts l IH]; intros s Hw Hok Hr; cbn [Tombstone.each].
  { exists [], s. split_and!; [constructor|done|done|done|]. intros k t. rewrite !Exists_nil. tauto. }
  apply Forall_cons_1 in Hw as [Hts Hw]. destruct (apply_one_run ts s Hts Hok) as (ops1 & batch & Hw1 & E1 & N1).
  destruct (Hr ops1 Hw1) as [d1 Hd1]. set (s1 := MkApply d1 batch ts).
  assert (Hok1 : batch_ok s1) by (intros _; apply Hts).
  destruct (IH s1 Hw Hok1 (runs_after _ _ _ Hr Hw1 Hd1)) as (ops2 & s' & Hw2 & Hd2 & E2 & Hok2 & N2).
  exists (ops1 ++ ops2), s'. split_and!; [by apply Forall_app|rewrite run_app, Hd1; exact Hd2| |done|].
  - erewrite bind_ret; [|exact (E1 d1 Hd1)]. exact E2.
  - intros k t. rewrite Exists_app, Exists_cons. specialize (N1 k t). specialize (N2 k t). unfold held in *. cbn [s1 ap_batch ap_prev] in *. tauto.
Qed.

Lemma apply_rest_run s : batch_ok s -> runs (ap_index s) -> exists ops s',
  Forall wf_op ops /\ run (ap_index s) ops = Ret (ap_index s') /\ apply_rest s = (Ret tt, s') /\
  forall k t, Exists (names k t) ops <-> held s k t.
Proof.
  intros Hok Hr. unfold apply_rest. destruct (decide (ap_batch s = [])) as [E|Hne].
  { exists [], s. split_and!; [constructor|done| |]; [mnow; by rewrite E|]. intros k t. unfold held. rewrite Exists_nil, E, elem_of_nil. tauto. }
  set (o := ODeleteRange (ap_batch s) (t_Min (ap_prev s)) (t_Max (ap_prev s))).
  assert (Hw : Forall wf_op [o]) by (by constructor; [apply Hok|constructor]). destruct (Hr [o] Hw) as [d' Hd].
  exists [o], (MkApply d' [] (ap_prev s)). split_and!; [done|done| |].
  - mnow. assert ((length (ap_batch s) =? 0)%nat = false) as -> by (by destruct (ap_batch s)). exact (delete_batch_run s d' Hd).
  - intros k t. rewrite Exists_cons, Exists_nil. cbn [names o]. unfold held. tauto.
Qed.

Section Reader.
Context {C : BlockCodec} {G : Gzip} {GO : GzipOk G}.

(** Applying the tombstones not yet applied. *)
Lemma applyTombstones_run r gs done : holds (r_tomb r) gs done -> runs (r_index r) -> exists ops r',
  Forall wf_op ops /\ run (r_index r) ops = Ret (r_index r') /\ applyTombstones r = (Ret tt, r') /\ holds (r_tomb r') gs (length gs) /\
  tb_filter (r_tomb r') = tb_filter (r_tomb r) /\ m_b (r_acc r') = m_b (r_acc r) /\
  forall k t, Exists (names k t) ops <-> Exists (hides k t) (concat (drop done gs)).
Proof.
  intros Ht Hr. set (s0 := MkApply (r_index r) [] (MkTomb [] 0 0)).
  assert (Hw : Forall wf_tomb (concat (drop done gs))).
  { apply Forall_concat, Forall_drop. apply Ht. }
  assert (Hok0 : batch_ok s0) by done.
  destruct (each_apply_run (concat (drop done gs)) s0 Hw Hok0 Hr) as (ops1 & s1 & Hw1 & Hd1 & E1 & Hok1 & N1).
  destruct (apply_rest_run s1 Hok1 (runs_after _ _ _ Hr Hw1 Hd1)) as (ops2 & s2 & Hw2 & Hd2 & E2 & N2).
  destruct (TombstoneSpec.Walk_run apply_one (r_tomb r) gs done s0 Ht) as (t' & Ew & Hfl & Ht'). rewrite E1 in *.
  exists (ops1 ++ ops2), (set_tomb t' (set_rindex (ap_index s2) r)). unfold applyTombstones. fold s0. rewrite Ew, E2.
  split_and!; [by apply Forall_app| |done|by apply Ht'|exact Hfl|done|].
  - change (r_index r) with (ap_index s0). rewrite run_app, Hd1. exact Hd2.
  - intros k t. rewrite Exists_app. specialize (N1 k t). specialize (N2 k t). unfold held in N1 at 2. cbn [s0 ap_batch] in N1.
    rewrite elem_of_nil in N1. tauto.
Qed.

(** ** The reader of a file *)

(** The series of the file, the groups of tombstones on disk and what is left
    of the index: a point of the file is alive exactly when no tombstone of
    any group hides it. *)
Record reading (l : list series) (r : TSMReader) (gs : list (list tomb)) (L : list entry_series) : Prop := {
  rd_repr : repr (r_index r) L;
  rd_tombs : wf_tombstones (tombstones (r_index r));
  rd_sub : forall x, x ∈ L -> x ∈ layout 0 l;
  rd_holds : exists done, holds (r_tomb r) gs done;
  rd_filter : exists d0, tb_filter (r_tomb r) = Some (ContainsKey d0) /\ repr d0 (layout 0 l);
  rd_alive : forall x t, x ∈ layout 0 l -> in_span x.2 t ->
    (alive (r_index r) L (skey' x) t <-> ~ Exists (hides (skey' x) t) (concat gs)) }.

Lemma repr_runs d L : repr d L -> wf_tombstones (tombstones d) -> runs d.
Proof. intros Hr Ht ops Hw. destruct (run_ops_run ops d L Hr Ht Hw) as (d' & L' & E & _). by exists d'. Qed.

(** A run on the index of a reader that names only what the tombstones hide. *)
Lemma reading_run l r gs L ops r' gs' : reading l r gs L -> Forall wf_op ops -> run (r_index r) ops = Ret (r_index r') ->
  (exists done, holds (r_tomb r') gs' done) -> tb_filter (r_tomb r') = tb_filter (r_tomb r) ->
  (forall x t, x ∈ L -> in_span x.2 t -> (~ Exists (hides (skey' x) t) (concat gs) ->
     (Exists (names (skey' x) t) ops <-> Exists (hides (skey' x) t) (concat gs')))) ->
  (forall k t, Exists (hides k t) (concat gs) -> Exists (hides k t) (concat gs')) ->
  exists L', reading l r' gs' L' /\ forall x t, x ∈ layout 0 l -> in_span x.2 t ->
    (alive (r_index r') L' (skey' x) t <-> alive (r_index r) L (skey' x) t /\ ~ Exists (names (skey' x) t) ops).
Proof.
  intros [H1 H2 H3 H4 (d0 & H5 & H5') H6] Hw Hrun Hh Hf Hn Hm.
  destruct (run_ops_run ops (r_index r) L H1 H2 Hw) as (d' & L' & E & [K1 K2 K3 K4] & A). rewrite Hrun in E. injection E as <-.
  assert (HA : forall x t, x ∈ layout 0 l -> in_span x.2 t ->
    (alive (r_index r') L' (skey' x) t <-> alive (r_index r) L (skey' x) t /\ ~ Exists (names (skey' x) t) ops)).
  { intros x t Hx Hs. assert (Hdead : forall d L2 y, (forall z, z ∈ L2 -> z ∈ layout 0 l) -> y ∈ layout 0 l -> alive d L2 (skey' y) t -> y ∈ L2).
    { intros d L2 y Hsub Hy [(z & Hz & Ez) _]. assert (z = y) as -> by (apply (repr_unique d0 _ H5'); auto). done. }
    split.
    - intros Ha. assert (Hx' : x ∈ L) by (apply K4; eapply Hdead; [|done|exact Ha]; auto). by apply A.
    - intros [Ha Hno]. assert (Hx' : x ∈ L) by (eapply Hdead; [|done|exact Ha]; auto). by apply A. }
  exists L'. split; [|exact HA]. split; [done|done|auto|done|exists d0; by rewrite Hf|]. intros x t Hx Hs. rewrite (HA x t Hx Hs), (H6 x t Hx Hs).
  destruct (decide (Exists (hides (skey' x) t) (concat gs))) as [He|He]; [split; [tauto|]; intros Hn'; destruct Hn'; by apply Hm|].
  assert (Hx' : x ∈ L).
  { apply (H6 x t Hx Hs) in He as [(z & Hz & Ez) _]. assert (z = x) as -> by (apply (repr_unique d0 _ H5'); auto). done. }
  rewrite (Hn x t Hx' Hs He). tauto.
Qed.

Lemma hides_drop k t gs new done : (done <= length gs)%nat -> ~ Exists (hides k t) (concat gs) ->
  (Exists (hides k t) (concat (drop done (gs ++ new))) <-> Exists (hides k t) (concat (gs ++ new))).
Proof.
  intros Hd Hn. rewrite drop_app_le by done. rewrite !concat_app, !Exists_app. rewrite <- (take_drop done gs) in Hn.
  rewrite concat_app, Exists_app in Hn. rewrite <- (take_drop done gs) at 2. rewrite concat_app, Exists_app. tauto.
Qed.

(** What a caller may pass: sorted keys and times of the machine. *)
Definition wf_call (o : op) : Prop :=
  wf_op o /\ match o with
             | ODelete keys => Forall (fun k => len k < 2 ^ 32) keys
             | ODeleteRange keys _ _ => Forall (fun k => len k < 2 ^ 32) keys /\ StronglySorted Ring.bytes_le keys
             end.
Definition call (o : op) : M TSMReader unit :=
  match o with ODelete keys => Reader_Delete keys | ODeleteRange keys lo hi => Reader_DeleteRange keys lo hi end.

Lemma bind_Ret_inv {S A B} (m : M S A) (k : A -> M S B) s b s' : (m ≫= k) s = (Ret b, s') -> exists a s1, m s = (Ret a, s1) /\ k a s1 = (Ret b, s').
Proof. cbv [mbind M_bind]. destruct (m s) as [[a|e|] s1]; [by exists a, s1|done|done]. Qed.

Lemma on_tomb_run {A} (m : M Tombstone.Tombstoner A) r x t : m (r_tomb r) = (x, t) -> on_tomb m r = (x, set_tomb t r).
Proof. intros E. unfold on_tomb. by rewrite E. Qed.
Lemma set_tomb_id r : set_tomb (r_tomb r) r = r.
Proof. by destruct r. Qed.
Lemma Flush_idle t gs done : holds t gs done -> Tombstone.Flush t = (Ret tt, t).
Proof. intros Ht. unfold Tombstone.Flush, Tombstone.commit, attempt. cbv [mbind M_bind get]. by rewrite (TombstoneSpec.hd_idle _ _ _ Ht). Qed.

Lemma hides_group k t keys lo hi : Exists (hides k t) ((fun k => MkTomb k lo hi) <$> keys) <-> k ∈ keys /\ lo <= t <= hi.
Proof.
  rewrite Exists_exists. split.
  - intros (ts & Hin & Hk & Ht). apply list_elem_of_fmap in Hin as (k' & -> & Hin). cbn in Hk, Ht. by subst.
  - intros [Hin Ht]. exists (MkTomb k lo hi). split; [apply list_elem_of_fmap; by exists k|]. by split.
Qed.

(** The keys of the file pass the filter of the tombstoner. *)
Lemma passing_elem l r gs L x keys : reading l r gs L -> x ∈ layout 0 l ->
  (skey' x ∈ TombstoneSpec.passing (r_tomb r) keys <-> skey' x ∈ keys).
Proof.
  intros [_ _ _ _ (d0 & Hf & Hr0) _] Hx. unfold TombstoneSpec.passing. rewrite list_elem_of_In, filter_In, <- list_elem_of_In.
  unfold Tombstone.passes. rewrite Hf, (ContainsKey_run d0 _ Hr0 x Hx). tauto.
Qed.

(** A call recorded (or skipped) and applied through the walk. *)
Lemma reading_commit l r gs L r1 gs1 : reading l r gs L -> r_acc r1 = r_acc r -> tb_filter (r_tomb r1) = tb_filter (r_tomb r) ->
  (exists new done, gs1 = gs ++ new /\ (done <= length gs)%nat /\ holds (r_tomb r1) gs1 done) ->
  exists r' L', applyTombstones r1 = (Ret tt, r') /\ reading l r' gs1 L' /\ m_b (r_acc r') = m_b (r_acc r).
Proof.
  intros H Ha Hf (new & done & -> & Hd & Ht). pose proof H as [H1 H2 _ _ _ _].
  assert (Hi : r_index r1 = r_index r) by (unfold r_index; by rewrite Ha).
  destruct (applyTombstones_run r1 (gs ++ new) done Ht) as (ops & r' & Hw & Hrun & E & Ht' & Hf' & Hb & N).
  { rewrite Hi. by eapply repr_runs. }
  rewrite Hi in Hrun. destruct (reading_run l r gs L ops r' (gs ++ new) H Hw Hrun) as (L' & R & _); [by eexists|congruence| | |].
  - intros x t Hx Hs Hn. rewrite N. by apply hides_drop.
  - intros k t. rewrite concat_app, Exists_app. by left.
  - exists r', L'. split_and!; [done|done|congruence].
Qed.

(** The tombstones of a call, or none when no key of the index is concerned. *)
Definition recorded (l : list series) (gs gs' : list (list tomb)) (o : op) (L : list entry_series) : Prop :=
  (exists new, gs' = gs ++ new) /\
  forall x t, x ∈ L -> x ∈ layout 0 l -> in_span x.2 t -> (Exists (hides (skey' x) t) (concat gs') <-> Exists (hides (skey' x) t) (concat gs) \/ names (skey' x) t o).

Lemma recorded_alive l r gs L r' gs' L' o : reading l r gs L -> reading l r' gs' L' -> recorded l gs gs' o L ->
  forall x t, x ∈ layout 0 l -> in_span x.2 t ->
    (~ Exists (hides (skey' x) t) (concat gs') <-> ~ Exists (hides (skey' x) t) (concat gs) /\ ~ names (skey' x) t o).
Proof.
  intros H H' ((new & ->) & Hrec) x t Hx Hs. destruct (decide (Exists (hides (skey' x) t) (concat gs))) as [He|He].
  { split; [|tauto]. intros Hn. destruct Hn. rewrite concat_app, Exists_app. by left. }
  assert (Hx' : x ∈ L).
  { pose proof H as [_ _ H3 _ (d0 & _ & Hr0) H6]. apply (H6 x t Hx Hs) in He as [(z & Hz & Ez) _].
    assert (z = x) as -> by (apply (repr_unique d0 _ Hr0); auto). done. }
  rewrite (Hrec x t Hx' Hx Hs). tauto.
Qed.

(** Keys outside the key range or times outside the time range of the file. *)
Lemma skipped_keys l r gs L keys k0 k1 x : reading l r gs L -> x ∈ L -> StronglySorted Ring.bytes_le keys -> head keys = Some k0 -> last keys = Some k1 ->
  OverlapsKeyRange (r_index r) k0 k1 = false -> skey' x ∉ keys.
Proof.
  intros H Hx Hs Hh Hl Ho Hin. pose proof (rp_keys _ _ (rd_repr _ _ _ _ H)) as Hk. rewrite Forall_forall in Hk. destruct (Hk x Hx) as [Hk0 Hk1].
  assert (H0 : Ring.bytes_le k0 (skey' x)) by (destruct keys as [|k keys]; [done|]; cbn in Hh; simplify_eq; by eapply sorted_min).
  assert (H1 : Ring.bytes_le (skey' x) k1).
  { apply last_Some in Hl as [ks ->]. apply elem_of_app in Hin as [Hin|Hin%list_elem_of_singleton]; [|rewrite Hin; apply not_klt, klt_irrefl].
    apply StronglySorted_app in Hs as (Hs & _). apply Hs; [done|by apply list_elem_of_singleton]. }
  unfold OverlapsKeyRange in Ho. apply andb_false_iff in Ho as [Ho|Ho].
  - assert (Hle : Ring.bytes_le (minKey (r_index r)) k1) by (by eapply Ring.bytes_le_trans). unfold Ring.bytes_le in Hle. by destruct (Ring.Compare _ _).
  - assert (Hle : Ring.bytes_le k0 (maxKey (r_index r))) by (by eapply Ring.bytes_le_trans). apply not_klt in Hle. unfold klt in Hle.
    by destruct (Ring.Compare (maxKey (r_index r)) k0).
Qed.
Lemma skipped_times l r gs L lo hi x t : reading l r gs L -> x ∈ L -> in_span x.2 t -> OverlapsTimeRange (r_index r) lo hi = false -> ~ lo <= t <= hi.
Proof.
  intros H Hx [Ht1 Ht2] Ho Hin. pose proof (rp_times _ _ (rd_repr _ _ _ _ H)) as Hk. rewrite Forall_forall in Hk. destruct (Hk x Hx) as [Hk0 Hk1].
  unfold OverlapsTimeRange in Ho. apply andb_false_iff in Ho. rewrite !Z.leb_gt in Ho. lia.
Qed.

(** Adding and flushing the tombstones of a call. *)
Lemma record_run l r gs L keys lo hi o : reading l r gs L -> Forall (fun k => len k < 2 ^ 32) keys -> is_i64 lo -> is_i64 hi ->
  (forall x t, x ∈ L -> in_span x.2 t -> (names (skey' x) t o <-> skey' x ∈ keys /\ lo <= t <= hi)) ->
  exists t1 t' gs' done, Tombstone.AddRange keys lo hi (r_tomb r) = (Ret tt, t1) /\ Tombstone.Flush t1 = (Ret tt, t') /\
    tb_filter t' = tb_filter (r_tomb r) /\ recorded l gs gs' o L /\ (done <= length gs)%nat /\ holds t' gs' done.
Proof.
  intros H Hk Hlo Hhi Hn. destruct (rd_holds _ _ _ _ H) as [done Ht].
  destruct (TombstoneSpec.AddRange_Flush_run (r_tomb r) gs done keys lo hi Ht Hk Hlo Hhi) as (t' & g & E & Hf & Eg & Hcase).
  apply bind_Ret_inv in E as ([] & t1 & E1 & E2). destruct Hcase as [[Esk ->]|[_ Ht']].
  - exists t1, (r_tomb r), gs, done. split_and!; [done|done|done| |apply Ht|done]. split; [exists []; by rewrite app_nil_r|].
    intros x t Hx Hx0 Hs. rewrite (Hn x t Hx Hs). split; [by left|]. intros [?|[Hin _]]; [done|]. exfalso.
    apply (passing_elem l r gs L x keys H Hx0) in Hin. rewrite (TombstoneSpec.skip_filtered_nil _ _ Esk) in Hin. by apply elem_of_nil in Hin.
  - exists t1, t', (gs ++ [g]), done. split_and!; [done|done|done| |apply Ht|done]. split; [by exists [g]|].
    intros x t Hx Hx0 Hs. rewrite (Hn x t Hx Hs), concat_app, Exists_app. cbn [concat]. rewrite app_nil_r, Eg, hides_group, (passing_elem l r gs L x keys H Hx0). done.
Qed.

Lemma recorded_none l gs L o : (forall x t, x ∈ L -> in_span x.2 t -> ~ names (skey' x) t o) -> recorded l gs gs o L.
Proof.
  intros Hno. split; [exists []; by rewrite app_nil_r|]. intros x t Hx _ Hs. specialize (Hno x t Hx Hs). tauto.
Qed.

(** A call done: the reader after it and the groups on disk. *)
Definition called (l : list series) (r : TSMReader) (gs : list (list tomb)) (L : list entry_series) (o : op) (res : outcome unit * TSMReader) : Prop :=
  exists r' gs' L', res = (Ret tt, r') /\ reading l r' gs' L' /\ m_b (r_acc r') = m_b (r_acc r) /\ recorded l gs gs' o L.

Lemma Delete_called l r gs L keys : reading l r gs L -> Forall (fun k => len k < 2 ^ 32) keys -> called l r gs L (ODelete keys) (Reader_Delete keys r).
Proof.
  intros H Hc.
  destruct (record_run l r gs L keys (- 2 ^ 63) (2 ^ 63 - 1) (ODelete keys) H Hc) as (t1 & t' & gs' & dn & E1 & E2 & Hf & Hrec & Hd & Ht);
    [unfold is_i64; lia|unfold is_i64; lia| |].
  { intros x t Hx Hs. cbn [names]. assert (is_i64 t) as Hi by (eapply in_span_i64; [|exact Hs]; by apply (repr_elem _ _ (rd_repr _ _ _ _ H) x Hx)).
    unfold is_i64 in Hi. split; [intros; split; [done|lia]|tauto]. }
  pose proof (rd_repr _ _ _ _ H) as Hr. pose proof (rd_tombs _ _ _ _ H) as Htw.
  destruct (Delete_alive (r_index r) L keys Hr Htw) as (d' & Ed & _). set (r' := set_rindex d' (set_tomb t' r)).
  destruct (reading_run l r gs L [ODelete keys] r' gs' H) as (L' & R & _);
    [by constructor|cbn [run step]; rewrite Ed; done|by exists dn|done| | |].
  - intros x t Hx Hs Hno. destruct Hrec as [_ Hrec]. rewrite (Hrec x t Hx (rd_sub _ _ _ _ H x Hx) Hs), Exists_cons, Exists_nil. tauto.
  - destruct Hrec as [(new & ->) _]. intros k t. rewrite concat_app, Exists_app. by left.
  - exists r', gs', L'. split_and!; [|done|done|done]. unfold Reader_Delete, Tombstone.Add_.
    erewrite bind_ret; [|by apply on_tomb_run, E1]. erewrite bind_ret; [|by apply on_tomb_run, E2].
    unfold on_index. mnow. erewrite bind_ret; [|unfold lift; change (r_index (set_tomb t' (set_tomb t1 r))) with (r_index r); rewrite Ed; reflexivity].
    done.
Qed.

(** A batch that left the tombstoner in [t1] committed. *)
Lemma Commit_called l r gs L o r1 t' gs1 dn : reading l r gs L -> r_acc r1 = r_acc r -> recorded l gs gs1 o L ->
  Tombstone.Flush (r_tomb r1) = (Ret tt, t') -> tb_filter t' = tb_filter (r_tomb r) -> (dn <= length gs)%nat -> holds t' gs1 dn ->
  called l r gs L o (Commit r1).
Proof.
  intros H Ha Hrec E2 Hf Hd Ht. pose proof Hrec as [(new & Enew) _].
  destruct (reading_commit l r gs L (set_tomb t' r1) gs1 H) as (r' & L' & E & R & Hb); [done|done|by exists new, dn|].
  exists r', gs1, L'. split_and!; [|done|done|done]. unfold Commit. erewrite bind_ret; [|by apply on_tomb_run, E2]. exact E.
Qed.

Lemma DeleteRange_called l r gs L keys lo hi : reading l r gs L -> wf_call (ODeleteRange keys lo hi) ->
  called l r gs L (ODeleteRange keys lo hi) (Reader_DeleteRange keys lo hi r).
Proof.
  intros H [[Hlo Hhi] [Hk Hs]]. destruct (rd_holds _ _ _ _ H) as [done0 Ht0]. unfold Reader_DeleteRange. destruct (decide (keys = [])) as [->|Hne].
  { cbn [length Nat.eqb]. exists r, gs, L. split_and!; [done|done|done|]. apply recorded_none. intros x t _ _ [Hin _]. by apply elem_of_nil in Hin. }
  assert ((length keys =? 0)%nat = false) as -> by (by destruct keys).
  destruct (head keys) as [k0|] eqn:Eh; [|by destruct keys]. destruct (last keys) as [k1|] eqn:El; [|by apply last_None in El].
  assert (Hskip : batch_DeleteRange keys lo hi r = (Ret tt, r) -> recorded l gs gs (ODeleteRange keys lo hi) L ->
    called l r gs L (ODeleteRange keys lo hi) ((e ← attempt (batch_DeleteRange keys lo hi);
      match e : outcome unit with Ret _ => Commit | Fail err => attempt Rollback ;; fail err | Panic => panic end) r)).
  { intros Eb Hrec. erewrite bind_ret; [|by apply attempt_eq, Eb]. cbv iota.
    eapply (Commit_called l r gs L _ r _ gs done0); [done|done|done|by eapply Flush_idle|done|apply Ht0|done]. }
  destruct (OverlapsKeyRange (r_index r) k0 k1) eqn:Eok.
  2: { apply Hskip; [unfold batch_DeleteRange; rewrite Eh, El; mnow; by rewrite Eok|]. apply recorded_none. intros x t Hx _ [Hin _].
       by eapply (skipped_keys l r gs L keys k0 k1 x). }
  destruct (OverlapsTimeRange (r_index r) lo hi) eqn:Eot.
  2: { apply Hskip; [unfold batch_DeleteRange; rewrite Eh, El; mnow; by rewrite Eok, Eot|]. apply recorded_none. intros x t Hx Hsp [_ Hin].
       by eapply (skipped_times l r gs L lo hi x t). }
  destruct (record_run l r gs L keys lo hi (ODeleteRange keys lo hi) H Hk Hlo Hhi) as (t1 & t' & gs' & dn & E1 & E2 & Hf & Hrec & Hd & Ht); [done|].
  erewrite bind_ret. 2: { apply attempt_eq. unfold batch_DeleteRange. rewrite Eh, El. mnow. rewrite Eok, Eot. cbn [negb]. apply on_tomb_run, E1. }
  cbv iota. by eapply (Commit_called l r gs L _ (set_tomb t1 r) t' gs' dn).
Qed.

(** One call of the reader. *)
Lemma call_run l r gs L o : reading l r gs L -> wf_call o -> called l r gs L o (call o r).
Proof.
  intros H Hc. destruct o as [keys|keys lo hi]; cbn [call]; [apply Delete_called; [done|]|by apply DeleteRange_called]. by destruct Hc.
Qed.

Fixpoint calls (ops : list op) : M TSMReader unit :=
  match ops with [] => mret tt | o :: ops => call o ;; calls ops end.

Lemma calls_run l ops : forall r gs L, reading l r gs L -> Forall wf_call ops -> exists r' gs' L', calls ops r = (Ret tt, r') /\ reading l r' gs' L' /\
  m_b (r_acc r') = m_b (r_acc r) /\ forall x t, x ∈ layout 0 l -> in_span x.2 t ->
    (~ Exists (hides (skey' x) t) (concat gs') <-> ~ Exists (hides (skey' x) t) (concat gs) /\ ~ Exists (names (skey' x) t) ops).
Proof.
  induction ops as [|o ops IH]; intros r gs L H Hw; cbn [calls].
  { exists r, gs, L. split_and!; [done|done|done|]. intros x t _ _. rewrite Exists_nil. tauto. }
  apply Forall_cons_1 in Hw as [Ho Hw]. destruct (call_run l r gs L o H Ho) as (r1 & gs1 & L1 & E1 & H1 & B1 & R1).
  destruct (IH r1 gs1 L1 H1 Hw) as (r2 & gs2 & L2 & E2 & H2 & B2 & R2). exists r2, gs2, L2. split_and!; [|done|congruence|].
  - erewrite bind_ret; [|exact E1]. exact E2.
  - intros x t Hx Hs. rewrite (R2 x t Hx Hs), (recorded_alive l r gs L r1 gs1 L1 o H H1 R1 x t Hx Hs), Exists_cons. tauto.
Qed.

(** Opening a file with the tombstones it has on disk. *)
Lemma NewTSMReader_run l file m gs : init file = Ret m -> repr (m_index m) (layout 0 l) -> tombstones (m_index m) = ∅ ->
  Forall (Forall wf_tomb) gs -> exists r L,
    NewTSMReader file (match gs with [] => None | _ => Some (TombstoneSpec.v4file gs) end) false = Ret r /\ reading l r gs L /\ m_b (r_acc r) = m_b m.
Proof.
  intros Ei Hr Ht Hw. unfold NewTSMReader. rewrite Ei. cbn [obind].
  set (tf := match gs with [] => None | _ => Some (TombstoneSpec.v4file gs) end).
  set (t0 := Tombstone.NewTombstoner true (Some (ContainsKey (m_index m))) tf false). set (r0 := MkReader 0 m t0 (len file) true).
  assert (H0 : holds t0 gs 0) by (split; try done; cbn; lia).
  assert (Htw : wf_tombstones (tombstones (m_index m))) by (rewrite Ht; apply map_Forall_empty).
  destruct (applyTombstones_run r0 gs 0 H0) as (ops & r' & Ho & Hrun & E & H' & Hf & Hb & N); [by eapply repr_runs|].
  set (rn := set_tomb (Tombstone.NewTombstoner true (Some (ContainsKey (m_index m))) None false) r0).
  assert (Hn : reading l rn [] (layout 0 l)).
  { split; [done|done|done| |by exists (m_index m)|].
    - exists 0%nat. by split.
    - intros x t Hx _. rewrite Exists_nil. split; [tauto|]. intros _. split; [by exists x|]. change (r_index rn) with (m_index m). unfold TombstoneRange. by rewrite Ht, lookup_empty. }
  destruct (reading_run l rn [] (layout 0 l) ops r' gs Hn Ho Hrun) as (L' & R & _); [by eexists|by rewrite Hf| |by intros k t ?%Exists_nil|].
  - intros x t _ _ _. by rewrite N.
  - exists r', L'. rewrite E. split_and!; done.
Qed.

(** ** Deletions survive reopening *)

Context {CO : BlockCodecOk C}.

Lemma ReadAll_on r k : (ReadAll k r).1 = (readAll (r_acc r) k).1.
Proof. unfold ReadAll, on_acc. by destruct (readAll (r_acc r) k). Qed.

Lemma reading_ReadAll ps ss file r gs L ops : reading ss r gs L -> m_b (r_acc r) = Some file -> len file < 2 ^ 63 ->
  Forall2 (fun s p => skey s = p.1 /\ Forall2 (stored file) (sents s) p.2) ss ps -> Forall plan_ok ps ->
  (forall x t, x ∈ layout 0 ss -> in_span x.2 t -> (~ Exists (hides (skey' x) t) (concat gs) <-> ~ Exists (names (skey' x) t) ops)) ->
  forall p, p ∈ ps -> (ReadAll p.1 r).1 = Ret (List.filter (fun v => negb (deleted ops p.1 v)) (concat p.2)).
Proof.
  intros H Hb Hsm H2 Hp Hn p Hin. pose proof H as [H1 _ H3 _ (d0 & _ & Hr0) H6].
  destruct (readAll_run ps ss file (r_index r) L (r_acc r) ops) as [R _]; try done.
  - intros x y Hx Hy E. by apply (repr_unique d0 _ Hr0).
  - intros x t Hx Hs. rewrite (H6 x t Hx Hs). by apply Hn.
  - rewrite ReadAll_on, <- (R p Hin). unfold with_index, r_index. by destruct (r_acc r).
Qed.

(** C6. Deletions survive reopening: on a file written with its index and
    opened without tombstones, any sequence of [Delete] and [DeleteRange]
    calls succeeds; afterwards [ReadAll] returns for every series exactly the
    written values that no call named, and a second reader opened on the file
    with the tombstone file the first one left behind returns the same. *)
Theorem deletes_survive_reopen (t0 : tsmWriter) (ps : list (list Z * list (list Value))) (ops : list op) :
  t0 = NewTSMWriter true \/ t0 = NewTSMWriterWithDiskBuffer true -> file_ok ps -> Forall wf_call ops ->
  exists t t' r r' r'', write_all ps t0 = (Ret tt, t) /\ WriteIndex t = (Ret tt, t') /\
    NewTSMReader (w_out t') None false = Ret r /\ calls ops r = (Ret tt, r') /\
    NewTSMReader (w_out t') (tb_file (r_tomb r')) false = Ret r'' /\
    forall p, p ∈ ps ->
      (ReadAll p.1 r').1 = Ret (List.filter (fun v => negb (deleted ops p.1 v)) (concat p.2)) /\
      (ReadAll p.1 r'').1 = Ret (List.filter (fun v => negb (deleted ops p.1 v)) (concat p.2)).
Proof.
  intros Ht0 Hok Hops. destruct (write_all_run true ps t0 Ht0 Hok) as (t & fl & cur & E1 & Hy & Hw & W).
  destruct (WriteIndex_run t fl cur ps W Hw Hy) as (t' & E2 & Eo). pose proof (writing_size _ _ _ _ W) as Hsz.
  assert (Hsm : len (w_out t) < 2 ^ 31) by (rewrite Hsz; apply Hok).
  destruct (planned_ok (w_out t) (fl ++ [cur]) ps (wt_stored _ _ _ _ W) Hok Hsm) as (Hio & _ & _).
  destruct (mapped_init_run t fl cur ps (w_out t') W Hok Hio Eo) as (m & E3 & Hb & Hr & Ht).
  assert (Hfile : len (w_out t') < 2 ^ 63) by (pose proof (io_small _ Hio); rewrite Eo, !length_app, be_put_length; lia).
  assert (Hst : Forall2 (fun s p => skey s = p.1 /\ Forall2 (stored (w_out t')) (sents s) p.2) (fl ++ [cur]) ps).
  { rewrite Eo. apply stored_series_app, W. }
  destruct (NewTSMReader_run (fl ++ [cur]) (w_out t') m [] E3 Hr Ht) as (r & L & E4 & R & B); [constructor|].
  destruct (calls_run (fl ++ [cur]) ops r [] L R Hops) as (r' & gs & L' & E5 & R' & B' & N').
  destruct (rd_holds _ _ _ _ R') as [dn Hh].
  destruct (NewTSMReader_run (fl ++ [cur]) (w_out t') m gs E3 Hr Ht) as (r'' & L'' & E6 & R'' & B''); [apply Hh|].
  rewrite <- (TombstoneSpec.hd_file _ _ _ Hh) in E6.
  exists t, t', r, r', r''. split_and!; [done|done|done|done|done|]. intros p Hp.
  assert (HN : forall x v, x ∈ layout 0 (fl ++ [cur]) -> in_span x.2 v ->
    (~ Exists (hides (skey' x) v) (concat gs) <-> ~ Exists (names (skey' x) v) ops)).
  { intros x v Hx Hs. rewrite (N' x v Hx Hs). cbn [concat]. rewrite Exists_nil. tauto. }
  split; [apply (reading_ReadAll ps (fl ++ [cur]) (w_out t') r' gs L' ops)|apply (reading_ReadAll ps (fl ++ [cur]) (w_out t') r'' gs L'' ops)];
    try done; try congruence; apply Hok.
Qed.
End Reader.

Lemma deletes_survive_reopen_witness :
  exists t t' r r' r'', write_all (C := sample_codec) sample_plans (NewTSMWriter true) = (Ret tt, t) /\ WriteIndex t = (Ret tt, t') /\
    NewTSMReader (G := TombstoneSpec.store_gzip) (w_out t') None false = Ret r /\
    calls (G := TombstoneSpec.store_gzip) [ODeleteRange [[97]; [98; 1]] 15 35; ODelete [[98; 1]]] r = (Ret tt, r') /\
    NewTSMReader (G := TombstoneSpec.store_gzip) (w_out t') (tb_file (r_tomb r')) false = Ret r'' /\
    (ReadAll (C := sample_codec) [97] r'').1 = Ret [VFloat (MkValue 10 4608308318706860032); VFloat (MkValue 44 0)].
Proof.
  destruct (deletes_survive_reopen (C := sample_codec) (CO := sample_codec_ok) (GO := TombstoneSpec.store_gzip_ok) (NewTSMWriter true) sample_plans
    [ODeleteRange [[97]; [98; 1]] 15 35; ODelete [[98; 1]]]) as (t & t' & r & r' & r'' & E1 & E2 & E3 & E4 & E5 & R).
  - by left.
  - exact sample_file_ok.
  - repeat constructor; unfold is_i64; cbn; try lia; discriminate.
  - exists t, t', r, r', r''. split; [exact E1|]. split; [exact E2|]. split; [exact E3|]. split; [exact E4|]. split; [exact E5|].
    destruct (R ([97], [Block.sample_values; sample_later]) ltac:(constructor)) as [_ R2]. cbn [fst snd] in R2. rewrite R2. vm_compute. reflexivity.
Defined.
End TsmReaderSpec.
