(* ===== verification/Points.v ===== *)
(** * Line protocol

    Models [models/points.go], [models/time.go], [models/inline_fnv.go],
    [models/inline_strconv_parse.go] and [pkg/escape]: the scanners that find
    the parts of a line, parsing and printing of points, their series keys,
    tags and fields.

    The scanners work on positions in the buffer, as the code does; reading
    outside of it panics.  Their loops take the length of the buffer as fuel
    and fail with [does_not_return] when it is used up.  A scanner that returns
    an error gives no position: no caller looks at it.  The slice of indices
    that [scanTags] grows is the list of the entries written.  Times are
    nanoseconds since 1970.  Parsing and printing of floating point numbers
    ([strconv.ParseFloat], [strconv.AppendFloat]) is the interface
    [FloatText], with floats as their bits. *)
From S2P Require Import Prelude Ring WalLog MetaData DQueue TsmIndex.
From stdpp Require Import gmap sorting.
#[global] Open Scope Z_scope.

(** [strconv.ParseFloat(_, 64)] and [strconv.AppendFloat(_, 'f', -1, _)]. *)
Class FloatText := {
  ParseFloat : list Z -> option Z;
  AppendFloat64 : Z -> list Z;
  AppendFloat32 : Z -> list Z }.

(** [time.Time.MarshalBinary] and [UnmarshalBinary]. *)
Class TimeBinary := {
  time_MarshalBinary : Z -> outcome (list Z);
  time_UnmarshalBinary : list Z -> outcome Z }.

Module Points.
Import Ring TsmIndex TsmIndex.Bytes.
#[local] Abbreviation ParseUint := DQueue.ParseUint.
#[local] Abbreviation decimal := WalLog.decimal.

Definition comma : Z := 44.
Definition space : Z := 32.
Definition equal : Z := 61.
Definition bslash : Z := 92.
Definition quote : Z := 34.
Definition newline : Z := 10.

(** ** Reserved tag keys *)

Definition FieldKeyTagKeyBytes : list Z := [255].
Definition MeasurementTagKeyBytes : list Z := [0].
Definition reservedFieldTagKey : list Z := [95; 102; 105; 101; 108; 100].
Definition reservedMeasurementTagKey : list Z := [95; 109; 101; 97; 115; 117; 114; 101; 109; 101; 110; 116].
Definition reservedTimeTagKey : list Z := [116; 105; 109; 101].
Definition reservedTagKeys : list (list Z) :=
  [FieldKeyTagKeyBytes; MeasurementTagKeyBytes; reservedFieldTagKey; reservedMeasurementTagKey; reservedTimeTagKey].

Definition MaxKeyLength : Z := 65535.
Definition maxInt64Digits : Z := 19.
Definition minInt64Digits : Z := 20.
Definition maxUint64Digits : Z := 20.
Definition maxFloat64Digits : Z := 25.
Definition minFloat64Digits : Z := 27.

Definition ErrPointMustHaveAField : string := "point without fields is unsupported".
Definition ErrInvalidNumber : string := "invalid number".
Definition ErrInvalidPoint : string := "point is invalid".
Definition ErrInvalidKevValuePairs : string := "key/value pairs is an odd length".
Definition ErrTimeOutOfRange : string := "time outside range".
Definition ErrShortBuffer : string := "short buffer".

(** ** Scanners *)

Fixpoint skip_loop (fuel : nat) (buf : list Z) (i : Z) : outcome Z :=
  match fuel with
  | O => Fail does_not_return
  | S f =>
    if i <? len buf then
      let! c := at_ buf i in
      if negb (c =? space) && negb (c =? 9) && negb (c =? 0) then Ret i else skip_loop f buf (i + 1)
    else Ret i
  end.
Definition skipWhitespace (buf : list Z) (i : Z) : outcome Z := skip_loop (S (length buf)) buf i.

Inductive state := tagKeyState | tagValueState | fieldsState.

(** The error of [scanMeasurement] is a value, since the key parsers go on
    after it; there is no next state then. *)
Fixpoint measurement_loop (fuel : nat) (buf : list Z) (i : Z) : outcome (option state * Z * option string) :=
  match fuel with
  | O => Fail does_not_return
  | S f =>
    let i := i + 1 in
    if len buf <=? i then Ret (None, i, Some "missing fields"%string)
    else
      let! p := at_ buf (i - 1) in
      if p =? bslash then measurement_loop f buf i
      else
        let! c := at_ buf i in
        if c =? comma then Ret (Some tagKeyState, i + 1, None)
        else if c =? space then Ret (Some fieldsState, i, None)
        else measurement_loop f buf i
  end.
Definition scanMeasurement (buf : list Z) (i : Z) : outcome (option state * Z * option string) :=
  if len buf <=? i then Ret (None, i, Some "missing measurement"%string)
  else
    let! c := at_ buf i in
    if c =? comma then Ret (None, i, Some "missing measurement"%string)
    else measurement_loop (S (length buf)) buf i.

Fixpoint tagsKey_loop (fuel : nat) (buf : list Z) (i : Z) : outcome Z :=
  match fuel with
  | O => Fail does_not_return
  | S f =>
    let i := i + 1 in
    if len buf <=? i then Fail "missing tag value"
    else
      let! c := at_ buf i in
      let! p := at_ buf (i - 1) in
      if ((c =? space) || (c =? comma)) && negb (p =? bslash) then Fail "missing tag value"
      else if (c =? equal) && negb (p =? bslash) then Ret (i + 1)
      else tagsKey_loop f buf i
  end.
Definition scanTagsKey (buf : list Z) (i : Z) : outcome Z :=
  if len buf <=? i then Fail "missing tag key"
  else
    let! c := at_ buf i in
    if (c =? space) || (c =? comma) || (c =? equal) then Fail "missing tag key"
    else tagsKey_loop (S (length buf)) buf i.

Fixpoint tagsValue_loop (fuel : nat) (buf : list Z) (i : Z) : outcome (state * Z) :=
  match fuel with
  | O => Fail does_not_return
  | S f =>
    let i := i + 1 in
    if len buf <=? i then Fail "missing fields"
    else
      let! c := at_ buf i in
      let! p := at_ buf (i - 1) in
      if (c =? equal) && negb (p =? bslash) then Fail "invalid tag format"
      else if (c =? comma) && negb (p =? bslash) then Ret (tagKeyState, i + 1)
      else if (c =? space) && negb (p =? bslash) then Ret (fieldsState, i)
      else tagsValue_loop f buf i
  end.
Definition scanTagsValue (buf : list Z) (i : Z) : outcome (state * Z) :=
  if len buf <=? i then Fail "missing tag value"
  else
    let! c := at_ buf i in
    if (c =? comma) || (c =? space) then Fail "missing tag value"
    else tagsValue_loop (S (length buf)) buf i.

(** Returns the end of the tags and the indices: the starts of the tags and
    one behind the last. *)
Fixpoint tags_loop (fuel : nat) (buf : list Z) (i : Z) (st : state) (indices : list Z) : outcome (Z * list Z) :=
  match fuel with
  | O => Fail does_not_return
  | S f =>
    match st with
    | tagKeyState => let! i' := scanTagsKey buf i in tags_loop f buf i' tagValueState (indices ++ [i])
    | tagValueState => let! r := scanTagsValue buf i in tags_loop f buf r.2 r.1 indices
    | fieldsState => Ret (i, indices ++ [i + 1])
    end
  end.
Definition scanTags (buf : list Z) (i : Z) : outcome (Z * list Z) := tags_loop (S (length buf)) buf i tagKeyState [].

Fixpoint scanTo_loop (fuel : nat) (buf : list Z) (i stop : Z) : outcome Z :=
  match fuel with
  | O => Fail does_not_return
  | S f =>
    if len buf <=? i then Ret i
    else
      let! c := at_ buf i in
      if c =? stop then
        if i =? 0 then Ret i
        else
          let! p := at_ buf (i - 1) in
          if negb (p =? bslash) then Ret i else scanTo_loop f buf (i + 1) stop
      else scanTo_loop f buf (i + 1) stop
  end.
Definition scanTo (buf : list Z) (start stop : Z) : outcome (Z * list Z) :=
  let! i := scanTo_loop (S (length buf)) buf start stop in
  let! s := sub buf start i in
  Ret (i, s).

Fixpoint spaceOr_loop (fuel : nat) (buf : list Z) (i stop : Z) : outcome Z :=
  match fuel with
  | O => Fail does_not_return
  | S f =>
    let i := i + 1 in
    let! p := at_ buf (i - 1) in
    if p =? bslash then spaceOr_loop f buf i stop
    else if len buf <=? i then Ret i
    else
      let! c := at_ buf i in
      if (c =? stop) || (c =? space) then Ret i else spaceOr_loop f buf i stop
  end.
Definition scanToSpaceOr (buf : list Z) (start stop : Z) : outcome (Z * list Z) :=
  let! c := at_ buf start in
  if (c =? stop) || (c =? space) then (let! s := sub buf start start in Ret (start, s))
  else
    let! i := spaceOr_loop (S (length buf)) buf start stop in
    let! s := sub buf start i in
    Ret (i, s).

Fixpoint tagValue_loop (fuel : nat) (buf : list Z) (i : Z) : outcome Z :=
  match fuel with
  | O => Fail does_not_return
  | S f =>
    if len buf <=? i then Ret i
    else
      let! c := at_ buf i in
      if c =? comma then
        let! p := at_ buf (i - 1) in
        if negb (p =? bslash) then Ret i else tagValue_loop f buf (i + 1)
      else tagValue_loop f buf (i + 1)
  end.
Definition scanTagValue (buf : list Z) (start : Z) : outcome (Z * list Z) :=
  let! i := tagValue_loop (S (length buf)) buf start in
  if len buf <? i then Ret (i, [])
  else let! s := sub buf start i in Ret (i, s).

Fixpoint fieldValue_loop (fuel : nat) (buf : list Z) (i : Z) (quoted : bool) : outcome Z :=
  match fuel with
  | O => Fail does_not_return
  | S f =>
    if i <? len buf then
      let! c := at_ buf i in
      let! esc := (if (c =? bslash) && (i + 1 <? len buf) then
                     let! n := at_ buf (i + 1) in Ret ((n =? quote) || (n =? bslash))
                   else Ret false) in
      if esc : bool then fieldValue_loop f buf (i + 2) quoted
      else if c =? quote then fieldValue_loop f buf (i + 1) (negb quoted)
      else if (c =? comma) && negb quoted then Ret i
      else fieldValue_loop f buf (i + 1) quoted
    else Ret i
  end.
(** [cap] is the capacity of [buf], which bounds [buf[start:i]]. *)
Definition scanFieldValue (buf : list Z) (cap start : Z) : outcome (Z * list Z) :=
  let! i := fieldValue_loop (S (length buf)) buf start false in
  if (start =? i) && (0 <=? start) && (start <=? cap) then Ret (i, [])
  else let! s := sub buf start i in Ret (i, s).

(** ** Series keys of lines *)

Definition tag_between (buf : list Z) (indices : list Z) (j : nat) : outcome (list Z) :=
  let! a := or_panic (indices !! j) in
  let! b := or_panic (indices !! S j) in
  sub buf a (b - 1).

(** The key of the [j]th tag, as found before the tags are sorted. *)
Definition key_of_tag (buf : list Z) (indices : list Z) (j : nat) : outcome (list Z) :=
  let! t := tag_between buf indices j in
  let! r := scanTo t 0 equal in
  Ret r.2.

(** The error for a reserved key, with the key as [%q] prints it: printable
    bytes as they are and others in hexadecimal.  Quotes, backslashes and
    whole runes, which [%q] treats in other ways, are in no reserved key. *)
Definition quoted_digit (d : Z) : Z := if d <? 10 then 48 + d else 87 + d.
Definition quoted_byte (c : Z) : list Z :=
  if (32 <=? c) && (c <? 127) then [c] else [bslash; 120; quoted_digit (c / 16); quoted_digit (c mod 16)].
Definition reserved_error (key : list Z) : string :=
  "cannot use reserved tag key " +:+ String.string_of_list_ascii ((fun c => Ascii.ascii_of_N (Z.to_N c)) <$> quote :: (key ≫= quoted_byte) ++ [quote]).

Fixpoint reserved_loop (n j : nat) (buf indices : list Z) : outcome unit :=
  match n with
  | O => Ret tt
  | S n =>
    let! key := key_of_tag buf indices j in
    if existsb (Equal key) reservedTagKeys then Fail (reserved_error key)
    else reserved_loop n (S j) buf indices
  end.

(** Whether neighbours are in order; equal neighbours are an error. *)
Fixpoint sorted_loop (n j : nat) (buf indices : list Z) : outcome bool :=
  match n with
  | O => Ret true
  | S n =>
    let! lt := key_of_tag buf indices j in
    let! rt := key_of_tag buf indices (S j) in
    match Compare lt rt with
    | Gt => Ret false
    | Eq => Fail "duplicate tags"
    | Lt => sorted_loop n (S j) buf indices
    end
  end.

Definition less (buf indices : list Z) (i j : nat) : outcome bool :=
  let! x := or_panic (indices !! i) in
  let! a := scanTo buf x equal in
  let! y := or_panic (indices !! j) in
  let! b := scanTo buf y equal in
  Ret (Less a.2 b.2).

Definition swap (indices : list Z) (i j : nat) : list Z :=
  match indices !! i, indices !! j with
  | Some x, Some y => <[i := y]> (<[j := x]> indices)
  | _, _ => indices
  end.

Fixpoint sift (l j : nat) (buf indices : list Z) : outcome (list Z) :=
  match j with
  | O => Ret indices
  | S j' =>
    if (l <? j)%nat then
      let! b := less buf indices j j' in
      if b : bool then sift l j' buf (swap indices j j') else Ret indices
    else Ret indices
  end.
Fixpoint insertion_loop (n l i : nat) (buf indices : list Z) : outcome (list Z) :=
  match n with
  | O => Ret indices
  | S n => let! indices := sift l i buf indices in insertion_loop n l (S i) buf indices
  end.
Definition insertionSort (l r : nat) (buf indices : list Z) : outcome (list Z) :=
  insertion_loop (r - (l + 1)) l (l + 1) buf indices.

(** Writes a comma and the tag at each index, from [pos] on. *)
Fixpoint rebuild (indices buf b : list Z) (pos : Z) : outcome (list Z) :=
  match indices with
  | [] => Ret b
  | i :: indices =>
    if (0 <=? pos) && (pos <? len b) then
      let b := <[Z.to_nat pos := comma]> b in
      let pos := pos + 1 in
      let! r := scanToSpaceOr buf i comma in
      let b := copy_at b pos r.2 in
      rebuild indices buf b (pos + Z.min (len b - pos) (len r.2))
    else Panic
  end.

Definition key_from (buf indices : list Z) (j : nat) : outcome (list Z) :=
  let! a := or_panic (indices !! j) in
  let! t := from buf a in
  let! r := scanTo t 0 equal in
  Ret r.2.
Fixpoint duplicate_loop (n j : nat) (buf indices : list Z) : outcome unit :=
  match n with
  | O => Ret tt
  | S n =>
    let! lt := key_from buf indices j in
    let! rt := key_from buf indices (S j) in
    if Equal lt rt then Fail "duplicate tags" else duplicate_loop n (S j) buf indices
  end.

Definition scanKey (buf : list Z) (i : Z) : outcome (Z * list Z) :=
  let! start := skipWhitespace buf i in
  let! m := scanMeasurement buf start in
  let '(st, i, err) := m in
  match err with
  | Some e => Fail e
  | None =>
    let! r := (match st with Some tagKeyState => scanTags buf i | _ => Ret (i, []) end) in
    let '(i, indices) := r : Z * list Z in
    let commas := (length indices - 1)%nat in
    let! _ := reserved_loop commas 0 buf indices in
    let! sorted := sorted_loop (commas - 1) 0 buf indices in
    if negb sorted && (0 <? commas)%nat then
      let! first := or_panic (indices !! O) in
      let! measurement := sub buf start (first - 1) in
      let indices := take commas indices in
      let! indices := insertionSort 0 commas buf indices in
      let! whole := sub buf start i in
      let b := replicate (length whole) 0 in
      let! b := rebuild indices buf (copy_at b 0 measurement) (Z.min (len b) (len measurement)) in
      let! _ := duplicate_loop (commas - 1) 0 buf indices in
      Ret (i, b)
    else
      let! key := sub buf start i in
      Ret (i, key)
  end.

(** ** Numbers and booleans *)

Definition isNumeric (b : Z) : bool := ((48 <=? b) && (b <=? 57)) || (b =? 46).

(** [strconv.ParseInt(_, 10, 64)] *)
Definition ParseInt (s : list Z) : option Z :=
  match s with
  | [] => None
  | c :: s' =>
    let neg := c =? 45 in
    un ← ParseUint (if neg || (c =? 43) then s' else s);
    if negb neg && (2 ^ 63 <=? un) then None
    else if neg && (2 ^ 63 <? un) then None
    else Some (if neg then - un else un)
  end.
(** [strconv.FormatInt(_, 10)] *)
Definition FormatInt (n : Z) : list Z := if n <? 0 then 45 :: decimal 20 (- n) else decimal 20 n.

Definition bytes_of (s : string) : list Z := (fun a => Z.of_nat (Ascii.nat_of_ascii a)) <$> String.list_ascii_of_string s.
(** [strconv.ParseBool] and [strconv.AppendBool] *)
Definition ParseBool (s : list Z) : option bool :=
  if bool_decide (s ∈ bytes_of <$> ["1"; "t"; "T"; "TRUE"; "true"; "True"]%string) then Some true
  else if bool_decide (s ∈ bytes_of <$> ["0"; "f"; "F"; "FALSE"; "false"; "False"]%string) then Some false
  else None.
Definition FormatBool (b : bool) : list Z := bytes_of (if b then "true" else "false").

Section Numbers.
Context {FT : FloatText}.

(** What the loop of [scanNumber] finds: the end, and whether it saw the two
    integer suffixes, a decimal point and an exponent. *)
Record number := MkNumber { n_end : Z; isInt : bool; isUnsigned : bool; decimal_ : bool; scientific : bool }.

Fixpoint number_loop (fuel : nat) (buf : list Z) (start i : Z) (int uns dec sci : bool) : outcome number :=
  match fuel with
  | O => Fail does_not_return
  | S f =>
    if len buf <=? i then Ret (MkNumber i int uns dec sci)
    else
      let! c := at_ buf i in
      if (c =? comma) || (c =? space) then Ret (MkNumber i int uns dec sci)
      else if (c =? 105) && (start <? i) && negb (int || uns) then number_loop f buf start (i + 1) true uns dec sci
      else if (c =? 117) && (start <? i) && negb (int || uns) then number_loop f buf start (i + 1) int true dec sci
      else if (c =? 46) && dec then Fail ErrInvalidNumber
      else
        let dec := dec || (c =? 46) in
        if (start <? i) && ((c =? 101) || (c =? 69)) then number_loop f buf start (i + 1) int uns dec true
        else
          let! exp := (if (c =? 43) || (c =? 45) then let! p := at_ buf (i - 1) in Ret ((p =? 101) || (p =? 69)) else Ret false) in
          if exp : bool then number_loop f buf start (i + 1) int uns dec sci
          else if (i + 2 <? len buf) && ((c =? 78) || (c =? 110)) then Fail ErrInvalidNumber
          else if negb (isNumeric c) then Fail ErrInvalidNumber
          else number_loop f buf start (i + 1) int uns dec sci
  end.

(** The checks of the text of an integer, an unsigned integer and a float. *)
Definition check_int (buf : list Z) (start i : Z) : outcome Z :=
  let! l := at_ buf (i - 1) in
  if negb (l =? 105) then Fail ErrInvalidNumber
  else
    let! t := sub buf start (i - 1) in
    if (maxInt64Digits <=? len t) || (minInt64Digits <=? len t) then
      match ParseInt t with Some _ => Ret i | None => Fail "unable to parse integer" end
    else Ret i.
Definition check_uint (buf : list Z) (start i : Z) : outcome Z :=
  let! l := at_ buf (i - 1) in
  if negb (l =? 117) then Fail ErrInvalidNumber
  else
    let! c := at_ buf start in
    if c =? 45 then Fail ErrInvalidNumber
    else
      let! t := sub buf start (i - 1) in
      if maxUint64Digits <=? len t then
        match ParseUint t with Some _ => Ret i | None => Fail "unable to parse unsigned" end
      else Ret i.
Definition check_float (buf : list Z) (start i : Z) (sci : bool) : outcome Z :=
  let! t := sub buf start i in
  if sci || (maxFloat64Digits <=? len t) || (minFloat64Digits <=? len t) then
    match ParseFloat t with Some _ => Ret i | None => Fail "invalid float" end
  else Ret i.

Definition scanNumber (buf : list Z) (start : Z) : outcome Z :=
  let! neg := (if start <? len buf then let! c := at_ buf start in Ret (c =? 45) else Ret false) in
  let i := if neg : bool then start + 1 else start in
  if neg && (i =? len buf) then Fail ErrInvalidNumber
  else
    let! n := number_loop (S (length buf)) buf start i false false false false in
    if (isInt n || isUnsigned n) && (decimal_ n || scientific n) then Fail ErrInvalidNumber
    else
      let! c := at_ buf start in
      let numericDigits := n_end n - start - (if isInt n then 1 else 0) - (if decimal_ n then 1 else 0) - (if c =? 45 then 1 else 0) in
      if numericDigits =? 0 then Fail ErrInvalidNumber
      else if isInt n then check_int buf start (n_end n)
      else if isUnsigned n then check_uint buf start (n_end n)
      else check_float buf start (n_end n) (scientific n).

Fixpoint boolean_loop (fuel : nat) (buf : list Z) (i : Z) : outcome Z :=
  match fuel with
  | O => Fail does_not_return
  | S f =>
    if len buf <=? i then Ret i
    else
      let! c := at_ buf i in
      if (c =? comma) || (c =? space) then Ret i else boolean_loop f buf (i + 1)
  end.
Definition scanBoolean (buf : list Z) (start : Z) : outcome (Z * list Z) :=
  let! bad := (if start <? len buf then
                 let! c := at_ buf start in Ret (negb (c =? 116) && negb (c =? 102) && negb (c =? 84) && negb (c =? 70))
               else Ret false) in
  if bad : bool then Fail "invalid boolean"
  else
    let! i := boolean_loop (S (length buf)) buf (start + 1) in
    if i - start =? 1 then let! t := sub buf start i in Ret (i, t)
    else
      let! c := at_ buf start in
      if ((c =? 116) || (c =? 84)) && negb (i - start =? 4) then Fail "invalid boolean"
      else if ((c =? 102) || (c =? 70)) && negb (i - start =? 5) then Fail "invalid boolean"
      else
        let! t := sub buf start i in
        let valid :=
          if c =? 116 then Equal t (bytes_of "true")
          else if c =? 102 then Equal t (bytes_of "false")
          else if c =? 84 then Equal t (bytes_of "TRUE") || Equal t (bytes_of "True")
          else if c =? 70 then Equal t (bytes_of "FALSE") || Equal t (bytes_of "False")
          else false in
        if valid then Ret (i, t) else Fail "invalid boolean".

(** ** Fields, timestamps and lines *)

Fixpoint fields_loop (fuel : nat) (buf : list Z) (i : Z) (quoted : bool) (equals commas : Z) : outcome (Z * bool * Z * Z) :=
  match fuel with
  | O => Fail does_not_return
  | S f =>
    if len buf <=? i then Ret (i, quoted, equals, commas)
    else
      let! c := at_ buf i in
      if (c =? bslash) && (i + 1 <? len buf) then fields_loop f buf (i + 2) quoted equals commas
      else if (c =? quote) && (commas <? equals) then fields_loop f buf (i + 1) (negb quoted) equals commas
      else if (c =? equal) && negb quoted then
        let equals := equals + 1 in
        let! p := at_ buf (i - 1) in
        let! empty := (if (p =? space) || (p =? comma) then let! q := at_ buf (i - 2) in Ret (negb (q =? bslash)) else Ret false) in
        if empty : bool then Fail "missing field key"
        else if len buf <=? i + 1 then Fail "missing field value"
        else
          let! n := at_ buf (i + 1) in
          if (n =? comma) || (n =? space) then Fail "missing field value"
          else if isNumeric n || (n =? 45) || (n =? 78) || (n =? 110) then
            let! i := scanNumber buf (i + 1) in fields_loop f buf i quoted equals commas
          else if negb (n =? quote) then
            let! r := scanBoolean buf (i + 1) in fields_loop f buf r.1 quoted equals commas
          else fields_loop f buf (i + 1) quoted equals commas
      else if (c =? space) && negb quoted then Ret (i, quoted, equals, commas)
      else fields_loop f buf (i + 1) quoted equals (if (c =? comma) && negb quoted then commas + 1 else commas)
  end.
Definition scanFields (buf : list Z) (i : Z) : outcome (Z * list Z) :=
  let! start := skipWhitespace buf i in
  let! r := fields_loop (S (length buf)) buf start false 0 0 in
  let '(i, quoted, equals, commas) := r in
  if quoted : bool then Fail "unbalanced quotes"
  else if (equals =? 0) || negb (commas =? equals - 1) then Fail "invalid field format"
  else let! s := sub buf start i in Ret (i, s).

Fixpoint time_loop (fuel : nat) (buf : list Z) (start i : Z) : outcome Z :=
  match fuel with
  | O => Fail does_not_return
  | S f =>
    if len buf <=? i then Ret i
    else
      let! c := at_ buf i in
      if (c =? newline) || (c =? space) then Ret i
      else if (i =? start) && (c =? 45) then time_loop f buf start (i + 1)
      else if (c <? 48) || (57 <? c) then Fail "bad timestamp"
      else time_loop f buf start (i + 1)
  end.
Definition scanTime (buf : list Z) (i : Z) : outcome (Z * list Z) :=
  let! start := skipWhitespace buf i in
  let! i := time_loop (S (length buf)) buf start start in
  let! s := sub buf start i in
  Ret (i, s).

Fixpoint line_loop (fuel : nat) (buf : list Z) (i : Z) (quoted fields : bool) (equals commas : Z) : outcome Z :=
  match fuel with
  | O => Fail does_not_return
  | S f =>
    if len buf <=? i then Ret i
    else
      let! c := at_ buf i in
      if (c =? bslash) && (i + 2 <? len buf) then line_loop f buf (i + 2) quoted fields equals commas
      else
        let fields := fields || (c =? space) in
        if fields && negb quoted && (c =? equal) then line_loop f buf (i + 1) quoted fields (equals + 1) commas
        else if fields && negb quoted && (c =? comma) then line_loop f buf (i + 1) quoted fields equals (commas + 1)
        else if fields && (c =? quote) && (commas <? equals) then line_loop f buf (i + 1) (negb quoted) fields equals commas
        else if (c =? newline) && negb quoted then Ret i
        else line_loop f buf (i + 1) quoted fields equals commas
  end.
Definition scanLine (buf : list Z) (start : Z) : outcome (Z * list Z) :=
  let! i := line_loop (S (length buf)) buf start false false 0 0 in
  let! s := sub buf start i in
  Ret (i, s).

Fixpoint walkFields_loop {A} (fuel : nat) (buf : list Z) (fn : list Z -> list Z -> A -> A * bool) (a : A) : outcome A :=
  match fuel with
  | O => Fail does_not_return
  | S f =>
    if (length buf =? 0)%nat then Ret a
    else
      let! r := scanTo buf 0 equal in
      let '(i, key) := r : Z * list Z in
      if len buf - 2 <? i then Fail "invalid value"
      else
        let! buf := from buf (i + 1) in
        let! r := scanFieldValue buf (len buf) 0 in
        let '(i, val) := r : Z * list Z in
        let! buf := from buf i in
        let '(a, more) := fn key val a in
        if negb more then Ret a
        else if (0 <? length buf)%nat then (let! buf := from buf 1 in walkFields_loop f buf fn a)
        else walkFields_loop f buf fn a
  end.
Definition walkFields {A} (buf : list Z) (fn : list Z -> list Z -> A -> A * bool) (a : A) : outcome A :=
  walkFields_loop (S (length buf)) buf fn a.

Definition seriesKeySize (key field : list Z) : Z := len key + 4 + len field.

(** ** Times *)

Definition MinNanoTime : Z := - 2 ^ 63 + 2.
Definition MaxNanoTime : Z := Meta.MaxNanoTime.

Definition GetPrecisionMultiplier (precision : string) : Z :=
  if String.eqb precision "us" then 1000
  else if String.eqb precision "ms" then 1000000
  else if String.eqb precision "s" then 1000000000
  else 1.
Definition ValidPrecision (precision : string) : bool := bool_decide (precision ∈ ["ns"; "us"; "ms"; "s"]%string).

(** [c/b] truncates; [b] is a multiplier and not 0 or -1. *)
Definition safeSignedMult (a b : Z) : Z * bool :=
  if (a =? 0) || (b =? 0) || (a =? 1) || (b =? 1) then (i64 (a * b), true)
  else if (a =? MinNanoTime) || (b =? MaxNanoTime) then (0, false)
  else let c := i64 (a * b) in (c, Z.quot c b =? a).
Definition CheckTime (t : Z) : outcome unit := if (t <? MinNanoTime) || (MaxNanoTime <? t) then Fail ErrTimeOutOfRange else Ret tt.
Definition SafeCalcTime (timestamp : Z) (precision : string) : outcome Z :=
  let '(t, ok) := safeSignedMult timestamp (GetPrecisionMultiplier precision) in
  if ok : bool then let! _ := CheckTime t in Ret t else Fail ErrTimeOutOfRange.

Definition truncated (t : Z) (precision : string) : Z :=
  if bool_decide (precision ∈ ["u"; "us"]%string) then Meta.Truncate t 1000
  else if String.eqb precision "ms" then Meta.Truncate t 1000000
  else if String.eqb precision "s" then Meta.Truncate t 1000000000
  else if String.eqb precision "m" then Meta.Truncate t 60000000000
  else if String.eqb precision "h" then Meta.Truncate t 3600000000000
  else t.
End Numbers.

(** ** Escaping *)

(** [bytes.Replace(in, old, new, -1)] for a pattern that is not empty. *)
Fixpoint replace_loop (fuel : nat) (l old new : list Z) : list Z :=
  match fuel, l with
  | S f, c :: l' =>
    if bool_decide (take (length old) l = old) then new ++ replace_loop f (drop (length old) l) old new
    else c :: replace_loop f l' old new
  | _, _ => l
  end.
Definition Replace (l old new : list Z) : list Z := replace_loop (length l) l old new.
(** [bytes.IndexByte(in, c) != -1] *)
Definition has (l : list Z) (c : Z) : bool := existsb (Z.eqb c) l.

Definition measurementEscapeCodes : list Z := [comma; space].
Definition tagEscapeCodes : list Z := [comma; space; equal].

Definition escape_with (codes : list Z) (l : list Z) : list Z :=
  foldl (fun l c => if has l c then Replace l [c] [bslash; c] else l) l codes.
Definition unescape_with (codes : list Z) (l : list Z) : list Z :=
  if negb (has l bslash) then l
  else foldl (fun l c => if has l c then Replace l [bslash; c] [c] else l) l codes.

Definition EscapeMeasurement : list Z -> list Z := escape_with measurementEscapeCodes.
Definition unescapeMeasurement : list Z -> list Z := unescape_with measurementEscapeCodes.
Definition escapeTag : list Z -> list Z := escape_with tagEscapeCodes.
Definition unescapeTag : list Z -> list Z := unescape_with tagEscapeCodes.

(** The one-pass replacers of [strings.NewReplacer] on single bytes. *)
Definition escapeStringFieldReplacer (l : list Z) : list Z :=
  mbind (fun c => if (c =? quote) || (c =? bslash) then [bslash; c] else [c]) l.
Definition EscapeStringField (l : list Z) : list Z := escapeStringFieldReplacer l.
Fixpoint unescapeString_loop (fuel : nat) (l : list Z) : list Z :=
  match fuel with
  | O => l
  | S f =>
    match l with
    | c :: d :: l' =>
      if (c =? bslash) && (d =? bslash) then bslash :: unescapeString_loop f l'
      else if (c =? bslash) && (d =? quote) then quote :: unescapeString_loop f l'
      else c :: unescapeString_loop f (d :: l')
    | _ => l
    end
  end.
Definition unescapeStringField (l : list Z) : list Z :=
  if negb (has l bslash) then l else unescapeString_loop (length l) l.

(** [pkg/escape] *)
Definition Codes : list Z := [comma; quote; space; equal].
Definition is_code (c : Z) : bool := existsb (Z.eqb c) Codes.
Definition escape_Bytes (l : list Z) : list Z := foldl (fun l c => Replace l [c] [bslash; c]) l Codes.
Definition escape_String (l : list Z) : list Z := mbind (fun c => if is_code c then [bslash; c] else [c]) l.
Fixpoint IsEscaped (l : list Z) : bool :=
  match l with
  | c :: l => if c =? bslash then match l with d :: _ => is_code d || IsEscaped l | [] => false end else IsEscaped l
  | [] => false
  end.
Fixpoint Unescape_loop (fuel : nat) (l : list Z) : list Z :=
  match fuel with
  | O => l
  | S f =>
    match l with
    | c :: d :: l' => if (c =? bslash) && is_code d then d :: Unescape_loop f l' else c :: Unescape_loop f (d :: l')
    | _ => l
    end
  end.
Definition Unescape (l : list Z) : list Z := if negb (has l bslash) then l else Unescape_loop (length l) l.
Definition UnescapeString (l : list Z) : list Z := if negb (has l bslash) then l else Unescape_loop (length l) l.

(** The first position of a byte, from [pos] on. *)
Fixpoint index_byte (l : list Z) (c : Z) : option nat :=
  match l with
  | [] => None
  | x :: l => if x =? c then Some O else S <$> index_byte l c
  end.
Fixpoint AppendUnescaped_loop (fuel : nat) (dst src : list Z) (pos : nat) : list Z :=
  match fuel with
  | O => dst
  | S f =>
    if (length src =? 0)%nat then dst
    else
      match index_byte (drop pos src) bslash with
      | None => dst ++ src
      | Some next =>
        match src !! (pos + next + 1)%nat with
        | None => dst ++ src
        | Some d =>
          if is_code d then AppendUnescaped_loop f (dst ++ take (pos + next) src) (drop (pos + next + 1) src) 0
          else AppendUnescaped_loop f dst src (pos + next + 1)
        end
      end
  end.
Definition AppendUnescaped (dst src : list Z) : list Z := AppendUnescaped_loop (S (length src)) dst src 0.

(** ** Tags *)

Record Tag := MkTag { t_Key : list Z; t_Value : list Z }.
Abbreviation Tags := (list Tag).
#[local] Instance Tag_eq_dec : EqDecision Tag.
Proof. solve_decision. Defined.

Definition NewTag (key value : list Z) : Tag := MkTag key value.
Definition Tag_Size (t : Tag) : Z := len (t_Key t) + len (t_Value t).
Definition Tag_String (t : Tag) : list Z := [123] ++ t_Key t ++ [space] ++ t_Value t ++ [125].

Definition tag_le (a b : Tag) : Prop := bytes_le (t_Key a) (t_Key b).
#[local] Instance tag_le_dec : RelDecision tag_le := fun a b => bytes_le_dec (t_Key a) (t_Key b).
(** [sort.Sort] by key. *)
Definition sort_tags (a : Tags) : Tags := merge_sort tag_le a.

Definition NewTags (m : gmap (list Z) (list Z)) : Tags := sort_tags ((fun kv => NewTag kv.1 kv.2) <$> map_to_list m).

(** No key is less than the one before it. *)
Fixpoint sorted (a : Tags) : bool :=
  match a with
  | x :: (y :: _) as a => negb (Less (t_Key y) (t_Key x)) && sorted a
  | _ => true
  end.

Fixpoint pairs (kv : list (list Z)) : Tags :=
  match kv with
  | k :: v :: kv => NewTag k v :: pairs kv
  | _ => []
  end.
(** The last of neighbours with the same key stays. *)
Fixpoint dedup_tags (a : Tags) : Tags :=
  match a with
  | x :: (y :: _) as a => if Equal (t_Key x) (t_Key y) then dedup_tags a else x :: dedup_tags a
  | _ => a
  end.
Definition NewTagsKeyValues (kv : list (list Z)) : outcome Tags :=
  if (length kv mod 2 =? 1)%nat then Fail ErrInvalidKevValuePairs
  else
    let a := pairs kv in
    Ret (dedup_tags (if sorted a then a else sort_tags a)).

Definition Keys (a : Tags) : list (list Z) := t_Key <$> a.
Definition Tags_Values (a : Tags) : list (list Z) := t_Value <$> a.
Fixpoint join_tags (a : Tags) : list Z :=
  match a with
  | [] => []
  | [x] => Tag_String x
  | x :: a => Tag_String x ++ [space] ++ join_tags a
  end.
Definition Tags_String (a : Tags) : list Z := [91] ++ join_tags a ++ [93].
Definition Tags_Size (a : Tags) : Z := foldl (fun n t => n + Tag_Size t) 0 a.
Definition KeyValues (a : Tags) : list (list Z) := mbind (fun t => [t_Key t; t_Value t]) a.
Definition Tags_Equal (a other : Tags) : bool := bool_decide (a = other).
Fixpoint CompareTags (a b : Tags) : comparison :=
  match a, b with
  | [], [] => Eq
  | [], _ => Lt
  | _, [] => Gt
  | x :: a, y :: b =>
    match Compare (t_Key x) (t_Key y) with
    | Eq => match Compare (t_Value x) (t_Value y) with Eq => CompareTags a b | c => c end
    | c => c
    end
  end.
Fixpoint Get (a : Tags) (key : list Z) : option (list Z) :=
  match a with
  | [] => None
  | t :: a => if Equal (t_Key t) key then Some (t_Value t) else Get a key
  end.
Definition GetString (a : Tags) (key : list Z) : list Z := default [] (Get a key).
Fixpoint set_value (a : Tags) (key value : list Z) : option Tags :=
  match a with
  | [] => None
  | t :: a => if Equal (t_Key t) key then Some (MkTag (t_Key t) value :: a) else cons t <$> set_value a key value
  end.
Definition Tags_Set (a : Tags) (key value : list Z) : Tags :=
  match set_value a key value with
  | Some a => a
  | None => sort_tags (a ++ [MkTag key value])
  end.
Fixpoint Tags_Delete (a : Tags) (key : list Z) : Tags :=
  match a with
  | [] => []
  | t :: a => if Equal (t_Key t) key then a else t :: Tags_Delete a key
  end.
Definition Tags_Map (a : Tags) : gmap (list Z) (list Z) := foldl (fun m t => <[t_Key t := t_Value t]> m) ∅ a.
Definition Tags_Merge (a : Tags) (other : gmap (list Z) (list Z)) : Tags := NewTags (other ∪ Tags_Map a).

Definition needsEscape (a : Tags) : bool :=
  existsb (fun t => existsb (fun c => has (t_Key t) c || has (t_Value t) c) tagEscapeCodes) a.
Definition hash_tag (k : Tag) : list Z :=
  if (length (t_Value k) =? 0)%nat then [] else [comma] ++ t_Key k ++ [equal] ++ t_Value k.
Definition AppendHashKey (a : Tags) (dst : list Z) : list Z :=
  let escaped := if needsEscape a then (fun t => MkTag (escapeTag (t_Key t)) (escapeTag (t_Value t))) <$> a else a in
  dst ++ mbind hash_tag escaped.
Definition HashKey (a : Tags) : list Z := AppendHashKey a [].

Definition AppendMakeKey (dst name : list Z) (tags : Tags) : list Z :=
  AppendHashKey tags (dst ++ EscapeMeasurement (unescapeMeasurement name)).
Definition MakeKey (name : list Z) (tags : Tags) : list Z := AppendMakeKey [] name tags.

(** [fn] returns whether to go on. *)
Fixpoint walkTags_loop {A} (fuel : nat) (buf : list Z) (hasEscape : bool) (i : Z) (fn : list Z -> list Z -> A -> A * bool) (a : A) : outcome A :=
  match fuel with
  | O => Fail does_not_return
  | S f =>
    if len buf <=? i then Ret a
    else
      let! r := scanTo buf i equal in
      let '(i, key) := r : Z * list Z in
      let! r := scanTagValue buf (i + 1) in
      let '(i, value) := r : Z * list Z in
      if (length value =? 0)%nat then walkTags_loop f buf hasEscape i fn a
      else
        let '(a, more) := if hasEscape then fn (unescapeTag key) (unescapeTag value) a else fn key value a in
        if negb more then Ret a else walkTags_loop f buf hasEscape (i + 1) fn a
  end.
Definition walkTags {A} (buf : list Z) (fn : list Z -> list Z -> A -> A * bool) (a : A) : outcome A :=
  if (length buf =? 0)%nat then Ret a
  else
    let! r := scanTo buf 0 comma in
    let '(pos, name) := r : Z * list Z in
    if (length name =? 0)%nat then Ret a
    else walkTags_loop (S (length buf)) buf (has buf bslash) (pos + 1) fn a.

(** As many tags fit as there are commas; [None] is a nil slice. *)
Definition parseTags (buf : list Z) : outcome (option Tags) :=
  if (length buf =? 0)%nat then Ret None
  else
    let! ts := walkTags buf (fun k v ts => (ts ++ [MkTag k v], true)) [] in
    if (length (List.filter (Z.eqb comma) buf) <? length ts)%nat then Panic else Ret (Some ts).
Definition ParseTags (buf : list Z) : outcome Tags := let! r := parseTags buf in Ret (default [] r).

Definition measurement_end (buf : list Z) : outcome (list Z * bool) :=
  let! m := scanMeasurement buf 0 in
  let '(st, i, _) := m in
  match st with
  | Some tagKeyState => let! name := sub buf 0 (i - 1) in Ret (name, true)
  | _ => let! name := sub buf 0 i in Ret (name, false)
  end.
Definition ParseKeyBytes (buf : list Z) : outcome (list Z * Tags) :=
  let! r := measurement_end buf in
  let '(name, tagged) := r : list Z * bool in
  let! tags := (if tagged then ParseTags buf else Ret []) in
  Ret (unescapeMeasurement name, tags).
Definition ParseName (buf : list Z) : outcome (list Z) :=
  let! r := measurement_end buf in Ret (unescapeMeasurement r.1).

(** ** Fields *)

Inductive FieldType := Integer | Float | Boolean | String_ | Empty | Unsigned.

(** The dynamic types [appendField] tells apart; floats are their bits, and
    any other value its text under [%v]. *)
Inductive FieldValue :=
| FFloat64 (b : Z) | FInt64 (n : Z) | FString (s : list Z) | FBool (b : bool)
| FInt32 (n : Z) | FInt16 (n : Z) | FInt8 (n : Z) | FInt (n : Z)
| FUint64 (n : Z) | FUint32 (n : Z) | FUint16 (n : Z) | FUint8 (n : Z) | FUint (n : Z)
| FFloat32 (b : Z) | FBytes (s : list Z) | FNil | FOther (s : list Z).
Abbreviation Fields := (gmap (list Z) FieldValue).

Record fieldIterator := MkIter { it_start : Z; it_end : Z; it_key : list Z; it_valueBuf : list Z; it_fieldType : FieldType }.
Definition newIterator : fieldIterator := MkIter 0 0 [] [] Empty.

(** [p_cap] is the capacity of the slice of fields. *)
Record point := MkPoint {
  p_time : Z; p_key : list Z; p_fields : list Z; p_cap : Z; p_ts : list Z;
  p_cachedFields : option Fields; p_cachedTags : option Tags; p_it : fieldIterator }.
Definition new_point (time : Z) (key fields : list Z) (cap : Z) (ts : list Z) : point := MkPoint time key fields cap ts None None newIterator.
Definition set_time (t : Z) (p : point) : point :=
  MkPoint t (p_key p) (p_fields p) (p_cap p) (p_ts p) (p_cachedFields p) (p_cachedTags p) (p_it p).
Definition set_key (k : list Z) (p : point) : point :=
  MkPoint (p_time p) k (p_fields p) (p_cap p) (p_ts p) (p_cachedFields p) (p_cachedTags p) (p_it p).
Definition set_cachedTags (ts : option Tags) (p : point) : point :=
  MkPoint (p_time p) (p_key p) (p_fields p) (p_cap p) (p_ts p) (p_cachedFields p) ts (p_it p).
Definition set_cachedFields (fs : option Fields) (p : point) : point :=
  MkPoint (p_time p) (p_key p) (p_fields p) (p_cap p) (p_ts p) fs (p_cachedTags p) (p_it p).
Definition set_it (it : fieldIterator) (p : point) : point :=
  MkPoint (p_time p) (p_key p) (p_fields p) (p_cap p) (p_ts p) (p_cachedFields p) (p_cachedTags p) it.

Section Point.
Context {FT : FloatText} {TB : TimeBinary}.

Definition parsePoint (buf : list Z) (defaultTime : Z) (precision : string) : outcome point :=
  let! r := scanKey buf 0 in
  let '(pos, key) := r : Z * list Z in
  if (length key =? 0)%nat then Fail "missing measurement"
  else if MaxKeyLength <? len key then Fail "max key length exceeded"
  else
    let! r := scanFields buf pos in
    let '(pos, fields) := r : Z * list Z in
    if (length fields =? 0)%nat then Fail "missing fields"
    else
      let! maxKeyErr := walkFields fields (fun k _ e => if MaxKeyLength <? seriesKeySize key k then (true, false) else (e, true)) false in
      if maxKeyErr : bool then Fail "max key length exceeded"
      else
        let cap := len buf - pos + len fields in
        let! r := scanTime buf pos in
        let '(pos, ts) := r : Z * list Z in
        if (length ts =? 0)%nat then Ret (new_point (truncated defaultTime precision) key fields cap ts)
        else
          match ParseInt ts with
          | None => Fail "invalid timestamp"
          | Some n =>
            let! t := SafeCalcTime n precision in
            let! rest := (if pos <? len buf then from buf pos else Ret []) in
            if forallb (Z.eqb space) rest then Ret (new_point t key fields cap ts) else Fail ErrInvalidPoint
          end.

(** The points, and the lines that failed with their errors. *)
Fixpoint points_loop (fuel : nat) (buf : list Z) (defaultTime : Z) (precision : string) (pos : Z)
    (points : list point) (failed : list (list Z * string)) : outcome (list point * list (list Z * string)) :=
  match fuel with
  | O => Fail does_not_return
  | S f =>
    if pos <? len buf then
      let! r := scanLine buf pos in
      let '(pos, block) := r : Z * list Z in
      let pos := pos + 1 in
      if (length block =? 0)%nat then points_loop f buf defaultTime precision pos points failed
      else
        let! start := skipWhitespace block 0 in
        if len block <=? start then points_loop f buf defaultTime precision pos points failed
        else
          let! c := at_ block start in
          if c =? 35 then points_loop f buf defaultTime precision pos points failed
          else
            let! e := at_ block (len block - 1) in
            let block := if e =? newline then take (length block - 1) block else block in
            let! line := from block start in
            match parsePoint line defaultTime precision with
            | Ret pt => points_loop f buf defaultTime precision pos (points ++ [pt]) failed
            | Fail e =>
              if String.eqb e does_not_return then Fail e
              else points_loop f buf defaultTime precision pos points (failed ++ [(line, e)])
            | Panic => Panic
            end
    else Ret (points, failed)
  end.
Definition ParsePointsWithPrecision (buf : list Z) (defaultTime : Z) (precision : string) : outcome (list point * list (list Z * string)) :=
  points_loop (S (length buf)) buf defaultTime precision 0 [] [].
Definition ParsePoints (now : Z) (buf : list Z) : outcome (list point * list (list Z * string)) := ParsePointsWithPrecision buf now "n".

(** *** Printing fields *)

Definition appendField (b k : list Z) (v : FieldValue) : list Z :=
  let b := b ++ escape_String k ++ [equal] in
  match v with
  | FFloat64 x => b ++ AppendFloat64 x
  | FInt64 n | FInt32 n | FInt16 n | FInt8 n | FInt n | FUint32 n | FUint16 n | FUint8 n => b ++ FormatInt n ++ [105]
  | FUint n => b ++ FormatInt (i64 n) ++ [105]
  | FUint64 n => b ++ decimal 20 n ++ [117]
  | FString s | FOther s => b ++ [quote] ++ EscapeStringField s ++ [quote]
  | FBool x => b ++ FormatBool x
  | FFloat32 x => b ++ AppendFloat32 x
  | FBytes s => b ++ s
  | FNil => b
  end.
Fixpoint marshal_loop (p : Fields) (first : bool) (keys : list (list Z)) (b : list Z) : list Z :=
  match keys with
  | [] => b
  | k :: keys =>
    let b := if first then b else b ++ [comma] in
    marshal_loop p false keys (appendField b k (default FNil (p !! k)))
  end.
Definition Fields_MarshalBinary (p : Fields) : list Z := marshal_loop p true (Ring.Sort (map_to_list p).*1) [].

Definition IsInf64 (b : Z) : bool := b mod 2 ^ 63 =? 2047 * 2 ^ 52.
Definition IsNaN64 (b : Z) : bool := 2047 * 2 ^ 52 <? b mod 2 ^ 63.
Definition IsInf32 (b : Z) : bool := b mod 2 ^ 31 =? 255 * 2 ^ 23.
Definition IsNaN32 (b : Z) : bool := 255 * 2 ^ 23 <? b mod 2 ^ 31.

(** The checks of one field; the map is visited in an order of its own. *)
Definition check_field (kv : list Z * FieldValue) : outcome unit :=
  let! _ := (match kv.2 with
             | FFloat64 b => if IsInf64 b then Fail "+/-Inf is an unsupported value" else if IsNaN64 b then Fail "NaN is an unsupported value" else Ret tt
             | FFloat32 b => if IsInf32 b then Fail "+/-Inf is an unsupported value" else if IsNaN32 b then Fail "NaN is an unsupported value" else Ret tt
             | _ => Ret tt
             end) in
  if (length kv.1 =? 0)%nat then Fail "all fields must have non-empty names" else Ret tt.
Fixpoint check_all (check : list Z * FieldValue -> outcome unit) (l : list (list Z * FieldValue)) : outcome unit :=
  match l with
  | [] => Ret tt
  | kv :: l => let! _ := check kv in check_all check l
  end.
Definition pointKey (measurement : list Z) (tags : Tags) (fields : Fields) (t : Z) : outcome (list Z) :=
  let l := map_to_list fields in
  if (length l =? 0)%nat then Fail ErrPointMustHaveAField
  else
    let! _ := (if Meta.IsZero t then Ret tt else CheckTime t) in
    let! _ := check_all check_field l in
    let key := MakeKey measurement tags in
    let! _ := check_all (fun kv => if MaxKeyLength <? seriesKeySize key kv.1 then Fail "max key length exceeded" else Ret tt) l in
    Ret key.
Definition NewPoint (name : list Z) (tags : Tags) (fields : Fields) (t : Z) : outcome point :=
  let! key := pointKey name tags fields t in
  let b := Fields_MarshalBinary fields in
  Ret (new_point t key b (len b) []).

(** *** Reading fields *)

Definition Reset (p : point) : point := set_it newIterator p.
Definition FieldIterator (p : point) : point := Reset p.

Definition number_chars : list Z := bytes_of "0123456789-.nNiIu".
Definition Next (p : point) : outcome (bool * point) :=
  let it := p_it p in
  let start := it_end it in
  if len (p_fields p) <=? start then Ret (false, set_it (MkIter start start (it_key it) (it_valueBuf it) (it_fieldType it)) p)
  else
    let! r := scanTo (p_fields p) start equal in
    let key := if IsEscaped r.2 then AppendUnescaped [] r.2 else r.2 in
    let! r := scanFieldValue (p_fields p) (p_cap p) (r.1 + 1) in
    let '(e, v) := r : Z * list Z in
    let e := e + 1 in
    match v with
    | [] => Ret (true, set_it (MkIter start e key v Empty) p)
    | c :: _ =>
      if c =? quote then Ret (true, set_it (MkIter start e key v String_) p)
      else if has number_chars c then
        let z := default 0 (last v) in
        if z =? 105 then Ret (true, set_it (MkIter start e key (take (length v - 1) v) Integer) p)
        else if z =? 117 then Ret (true, set_it (MkIter start e key (take (length v - 1) v) Unsigned) p)
        else Ret (true, set_it (MkIter start e key v Float) p)
      else Ret (true, set_it (MkIter start e key v Boolean) p)
    end.
Definition FieldKey (p : point) : list Z := it_key (p_it p).
Definition Type_ (p : point) : FieldType := it_fieldType (p_it p).
Definition StringValue (p : point) : outcome (list Z) :=
  let v := it_valueBuf (p_it p) in
  let! s := sub v 1 (len v - 1) in
  Ret (unescapeStringField s).
Definition IntegerValue (p : point) : outcome Z :=
  match ParseInt (it_valueBuf (p_it p)) with Some n => Ret n | None => Fail "unable to parse integer value" end.
Definition UnsignedValue (p : point) : outcome Z :=
  match ParseUint (it_valueBuf (p_it p)) with Some n => Ret n | None => Fail "unable to parse unsigned value" end.
Definition BooleanValue (p : point) : outcome bool :=
  match ParseBool (it_valueBuf (p_it p)) with Some b => Ret b | None => Fail "unable to parse bool value" end.
Definition FloatValue (p : point) : outcome Z :=
  match ParseFloat (it_valueBuf (p_it p)) with Some b => Ret b | None => Fail "unable to parse floating point value" end.

(** The value of the current field; [Empty] has none. *)
Definition current (p : point) : outcome (option FieldValue) :=
  match Type_ p with
  | Float => let! v := FloatValue p in Ret (Some (FFloat64 v))
  | Integer => let! v := IntegerValue p in Ret (Some (FInt64 v))
  | Unsigned => let! v := UnsignedValue p in Ret (Some (FUint64 v))
  | String_ => let! v := StringValue p in Ret (Some (FString v))
  | Boolean => let! v := BooleanValue p in Ret (Some (FBool v))
  | Empty => Ret None
  end.
Fixpoint unmarshal_fields (fuel : nat) (p : point) (fields : Fields) : outcome (Fields * point) :=
  match fuel with
  | O => Fail does_not_return
  | S f =>
    let! r := Next p in
    let '(more, p) := r : bool * point in
    if negb more then Ret (fields, p)
    else if (length (FieldKey p) =? 0)%nat then unmarshal_fields f p fields
    else
      let! v := current p in
      unmarshal_fields f p (match v with Some v => <[FieldKey p := v]> fields | None => fields end)
  end.
Definition unmarshalBinary (p : point) : outcome (Fields * point) :=
  unmarshal_fields (S (length (p_fields p))) (FieldIterator p) ∅.

(** *** The other methods of a point *)

Definition name_ (p : point) : outcome (list Z) := let! r := scanTo (p_key p) 0 comma in Ret r.2.
Definition Name (p : point) : outcome (list Z) := let! n := name_ p in Ret (Unescape n).
Definition Point_Tags (p : point) : outcome (Tags * point) :=
  match p_cachedTags p with
  | Some ts => Ret (ts, p)
  | None => let! ts := parseTags (p_key p) in Ret (default [] ts, set_cachedTags ts p)
  end.
Definition SetName (name : list Z) (p : point) : outcome point :=
  let! r := Point_Tags p in
  let '(ts, p) := r : Tags * point in
  Ret (set_key (MakeKey name ts) p).
Definition SetTime (t : Z) (p : point) : point := set_time t p.
Definition Time_Round (t d : Z) : Z :=
  if d <=? 0 then t else let r := (t - Meta.zeroTime) mod d in if r + r <? d then t - r else t + (d - r).
Definition Round (d : Z) (p : point) : point := set_time (Time_Round (p_time p) d) p.
Definition SetPrecision (precision : string) (p : point) : point := SetTime (truncated (p_time p) precision) p.
Definition HasTag (tag : list Z) (p : point) : outcome bool :=
  if (length (p_key p) =? 0)%nat then Ret false
  else walkTags (p_key p) (fun k _ found => if Equal tag k then (true, false) else (found, true)) false.
Definition SetTags (tags : Tags) (p : point) : outcome point :=
  let! n := Name p in Ret (set_cachedTags (Some tags) (set_key (MakeKey n tags) p)).
Definition AddTag (key value : list Z) (p : point) : outcome point :=
  let! r := Point_Tags p in
  let '(tags, p) := r : Tags * point in
  let tags := sort_tags (tags ++ [MkTag key value]) in
  let! n := Name p in
  Ret (set_key (MakeKey n tags) (set_cachedTags (Some tags) p)).
Definition Point_Fields (p : point) : outcome (Fields * point) :=
  match p_cachedFields p with
  | Some fs => Ret (fs, p)
  | None => let! r := unmarshalBinary p in Ret (r.1, set_cachedFields (Some r.1) r.2)
  end.

Definition UnixNano (p : point) : Z := i64 (p_time p).
Definition AppendString (buf : list Z) (p : point) : list Z :=
  let buf := buf ++ p_key p ++ [space] ++ p_fields p in
  if Meta.IsZero (p_time p) then buf else buf ++ [space] ++ FormatInt (UnixNano p).
Definition Point_String (p : point) : list Z :=
  if Meta.IsZero (p_time p) then p_key p ++ [space] ++ p_fields p
  else p_key p ++ [space] ++ p_fields p ++ [space] ++ FormatInt (UnixNano p).
Fixpoint digits_loop (fuel : nat) (t digits : Z) : Z :=
  match fuel with
  | O => digits
  | S f => if 9 <? t then digits_loop f (t / 10) (digits + 1) else digits
  end.
Definition StringSize (p : point) : Z :=
  let size := len (p_key p) + len (p_fields p) + 1 in
  if Meta.IsZero (p_time p) then size
  else
    let t := UnixNano p in
    let digits := if t <? 0 then digits_loop 64 (i64 (- t)) 2 else digits_loop 64 t 1 in
    size + (digits + 1).
Definition PrecisionString (precision : string) (p : point) : list Z :=
  if Meta.IsZero (p_time p) then p_key p ++ [space] ++ p_fields p
  else p_key p ++ [space] ++ p_fields p ++ [space] ++ FormatInt (Z.quot (UnixNano p) (GetPrecisionMultiplier precision)).
Definition RoundedString (d : Z) (p : point) : list Z :=
  if Meta.IsZero (p_time p) then p_key p ++ [space] ++ p_fields p
  else p_key p ++ [space] ++ p_fields p ++ [space] ++ FormatInt (i64 (Time_Round (p_time p) d)).

Definition MarshalBinary (p : point) : outcome (list Z) :=
  if (length (p_fields p) =? 0)%nat then Fail ErrPointMustHaveAField
  else
    let! tb := time_MarshalBinary (p_time p) in
    Ret (be_put 4 (len (p_key p)) ++ p_key p ++ be_put 4 (len (p_fields p)) ++ p_fields p ++ tb).
(** A length and that many bytes. *)
Definition read_block (b : list Z) : outcome (list Z * list Z) :=
  if len b <? 4 then Fail ErrShortBuffer
  else
    let n := be_get (take 4 b) in
    let b := drop 4 b in
    if len b <? n then Fail ErrShortBuffer else Ret (take (Z.to_nat n) b, drop (Z.to_nat n) b).
Definition UnmarshalBinary (b : list Z) : outcome point :=
  let! r := read_block b in
  let '(key, b) := r : list Z * list Z in
  let! r := read_block b in
  let '(fields, b) := r : list Z * list Z in
  let! t := time_UnmarshalBinary b in
  Ret (new_point t key fields (len fields + len b) []).

(** The fields are read for their errors only; strings are not looked at. *)
Definition check_current (p : point) : outcome unit :=
  match Type_ p with
  | String_ => Ret tt
  | _ => let! _ := current p in Ret tt
  end.
Fixpoint check_fields (fuel : nat) (p : point) (hasField : bool) : outcome (bool * point) :=
  match fuel with
  | O => Fail does_not_return
  | S f =>
    let! r := Next p in
    let '(more, p) := r : bool * point in
    if negb more then Ret (hasField, p)
    else if (length (FieldKey p) =? 0)%nat then check_fields f p hasField
    else let! _ := check_current p in check_fields f p true
  end.
Definition NewPointFromBytes (b : list Z) : outcome point :=
  let! p := UnmarshalBinary b in
  let! r := check_fields (S (length (p_fields p))) (FieldIterator p) false in
  if r.1 : bool then Ret r.2 else Fail ErrPointMustHaveAField.

(** FNV-1a *)
Definition prime64 : Z := 1099511628211.
Definition offset64 : Z := 14695981039346656037.
Definition FNV_Write (hash : Z) (data : list Z) : Z := foldl (fun h c => u64 (Z.lxor h c * prime64)) hash data.
Definition HashID (p : point) : Z := FNV_Write offset64 (p_key p).

Fixpoint split_loop (fuel : nat) (p : point) (size start cur : Z) : outcome (list (Z * Z)) :=
  match fuel with
  | O => Fail does_not_return
  | S f =>
    if cur <? len (p_fields p) then
      let! r := scanTo (p_fields p) cur equal in
      let! r := scanFieldValue (p_fields p) (p_cap p) (r.1 + 1) in
      let e := r.1 in
      if (start <? cur) && (size <? e - start) then
        let! l := split_loop f p size cur (e + 1) in Ret ((start, cur - 1) :: l)
      else split_loop f p size start (e + 1)
    else Ret [(start, len (p_fields p))]
  end.
Fixpoint cut (p : point) (l : list (Z * Z)) : outcome (list point) :=
  match l with
  | [] => Ret []
  | (a, b) :: l =>
    let! fs := sub (p_fields p) a b in
    let! r := cut p l in
    Ret (new_point (p_time p) (p_key p) fs (p_cap p - a) [] :: r)
  end.
Definition Split (size : Z) (p : point) : outcome (list point) :=
  if Meta.IsZero (p_time p) || (StringSize p <=? size) then Ret [p]
  else
    let size := size - (len (p_key p) + len (FormatInt (UnixNano p)) + 2) in
    let! l := split_loop (S (length (p_fields p))) p size 0 0 in
    cut p l.
End Point.
End Points.
