(* ===== verification/PointsScan.v ===== *)
(** * The scanners of a line

    What the scanners of [Points] do at a position of a buffer, in terms of
    the bytes behind it: they stop at the first stop byte that no backslash
    precedes.  From this follow the decomposition of a key into measurement
    and tags and what [scanKey] returns for it. *)
From S2P Require Import Prelude Ring WalLog TsmIndex TsmIndexSpec Points.
From stdpp Require Import gmap sorting.
#[global] Open Scope Z_scope.

Module PointsScan.
Import Ring TsmIndex TsmIndex.Bytes TsmIndexSpec Points.

(** ** Positions *)

(** Whether the byte before a position is a backslash. *)
Definition pb (pre : list Z) : bool := match last pre with Some c => c =? bslash | None => false end.

Lemma pb_snoc pre c : pb (pre ++ [c]) = (c =? bslash).
Proof. unfold pb. by rewrite last_snoc. Qed.

Lemma at_here (pre : list Z) c l : at_ (pre ++ c :: l) (len pre) = Ret c.
Proof. unfold at_. rewrite (proj2 (Z.ltb_ge _ _)) by lia. by rewrite Nat2Z.id, list_lookup_middle. Qed.

Lemma at_last (pre l : list Z) c : last pre = Some c -> at_ (pre ++ l) (len pre - 1) = Ret c.
Proof.
  intros (l' & ->)%last_Some. rewrite length_app. cbn [length]. replace (Z.of_nat (length l' + 1) - 1) with (len l') by lia.
  rewrite <- app_assoc. apply at_here.
Qed.

Lemma at_prev (pre l : list Z) : pre <> [] -> exists c, at_ (pre ++ l) (len pre - 1) = Ret c /\ (c =? bslash) = pb pre.
Proof.
  intros H. destruct (last pre) as [c|] eqn:E; [|by apply last_None in E]. exists c. split; [by apply at_last|]. unfold pb. by rewrite E.
Qed.

Lemma cons_snoc (pre : list Z) c l : pre ++ c :: l = (pre ++ [c]) ++ l.
Proof. by rewrite <- app_assoc. Qed.

Lemma len_snoc (pre : list Z) c : len (pre ++ [c]) = len pre + 1.
Proof. rewrite length_app. cbn. lia. Qed.

Lemma snoc_ne (pre : list Z) c : pre ++ [c] <> [].
Proof. by destruct pre. Qed.

Lemma len_app {A} (a b : list A) : len (a ++ b) = len a + len b.
Proof. rewrite length_app. lia. Qed.

Lemma sub_middle (a b c : list Z) : sub (a ++ b ++ c) (len a) (len a + len b) = Ret b.
Proof.
  unfold sub. rewrite !len_app. rewrite !(proj2 (Z.leb_le _ _)) by lia. cbn [andb].
  replace (Z.to_nat (len a + len b - len a)) with (length b) by lia. rewrite Nat2Z.id, drop_app_length. by rewrite take_app_length.
Qed.

Lemma from_middle (a b : list Z) : from (a ++ b) (len a) = Ret b.
Proof. unfold from. rewrite len_app. pose proof (sub_middle a b []) as E. by rewrite app_nil_r in E. Qed.

Lemma from_zero (b : list Z) : from b 0 = Ret b.
Proof. apply (from_middle [] b). Qed.

(** One step of a scanner: the position is in the buffer. *)
Ltac inside := rewrite (proj2 (Z.leb_gt _ _)) by (rewrite ?len_app; cbn [length]; lia).
Ltac outside := rewrite (proj2 (Z.leb_le _ _)) by (rewrite ?len_app; cbn [length]; lia).

(** Equality of concatenations. *)
Ltac app_eq := cbn [fst snd app]; repeat (rewrite <- app_assoc; cbn [app]); done.

(** ** Stopping at a byte that is not escaped *)

Fixpoint until (stop : Z -> bool) (esc : bool) (l : list Z) : nat :=
  match l with
  | [] => O
  | c :: l => if stop c && negb esc then O else S (until stop (c =? bslash) l)
  end.

Lemma until_le stop esc l : (until stop esc l <= length l)%nat.
Proof. revert esc. induction l as [|c l IH]; intros esc; cbn; [lia|]. destruct (stop c && negb esc); [lia|]. specialize (IH (c =? bslash)). lia. Qed.

(** Nothing in [l] stops the scanner, and a byte behind it is not escaped. *)
Fixpoint clean (stop : Z -> bool) (esc : bool) (l : list Z) : bool :=
  match l with
  | [] => negb esc
  | c :: l => negb (stop c && negb esc) && clean stop (c =? bslash) l
  end.

Lemma until_clean stop l : forall esc c r, clean stop esc l = true -> stop c = true -> until stop esc (l ++ c :: r) = length l.
Proof.
  induction l as [|x l IH]; intros esc c r H Hc; cbn in *; [by rewrite Hc, H|]. apply andb_prop in H as [H1 H2].
  destruct (stop x && negb esc); [done|]. by rewrite IH.
Qed.

Lemma until_clean_end stop l : forall esc, clean stop esc l = true -> until stop esc l = length l.
Proof.
  induction l as [|x l IH]; intros esc H; cbn in *; [done|]. apply andb_prop in H as [H1 H2]. destruct (stop x && negb esc); [done|]. by rewrite IH.
Qed.

Lemma clean_mono (s1 s2 : Z -> bool) l : (forall c, s2 c = true -> s1 c = true) -> forall esc, clean s1 esc l = true -> clean s2 esc l = true.
Proof.
  intros Hs. induction l as [|c l IH]; intros esc; cbn; [done|]. intros [H1 H2]%andb_prop. rewrite IH by done. rewrite andb_true_r.
  destruct (s2 c) eqn:E; [|done]. rewrite (Hs c E) in H1. done.
Qed.

Lemma clean_app stop a : forall esc b, clean stop esc a = true -> clean stop false b = true -> clean stop esc (a ++ b) = true.
Proof.
  induction a as [|c a IH]; intros esc b; cbn; [intros ->%negb_true_iff; done|]. intros [H1 H2]%andb_prop Hb. by rewrite H1, IH.
Qed.

(** Where a scanner stopped: the bytes before it are clean up to it. *)
Lemma until_split stop l : forall esc c r, drop (until stop esc l) l = c :: r -> stop c = true /\ clean stop esc (take (until stop esc l) l) = true.
Proof.
  induction l as [|x l IH]; intros esc c r; cbn; [done|]. destruct (stop x && negb esc) eqn:E.
  - cbn. intros [= <- _]. apply andb_prop in E as [-> ->]. done.
  - cbn. intros H. apply IH in H as [H1 H2]. split; [done|]. by rewrite E.
Qed.

Lemma clean_pb stop pre l : clean stop (pb pre) l = true -> pb (pre ++ l) = false.
Proof.
  revert pre. induction l as [|c l IH]; intros pre; cbn [clean]; [rewrite app_nil_r; by intros ?%negb_true_iff|].
  intros [_ H]%andb_prop. rewrite cons_snoc. apply IH. by rewrite pb_snoc.
Qed.

(** ** The loops *)

Lemma scanTo_loop_run stop l : forall pre fuel, (length l < fuel)%nat ->
  scanTo_loop fuel (pre ++ l) (len pre) stop = Ret (len pre + Z.of_nat (until (Z.eqb stop) (pb pre) l)).
Proof.
  induction l as [|c l IH]; intros pre fuel Hf; (destruct fuel as [|fuel]; [cbn in Hf; lia|]); cbn [scanTo_loop until].
  - outside. f_equal. lia.
  - inside. rewrite at_here. cbn [obind]. rewrite (Z.eqb_sym stop c).
    assert (Hgo : scanTo_loop fuel (pre ++ c :: l) (len pre + 1) stop = Ret (len pre + Z.of_nat (S (until (Z.eqb stop) (c =? bslash) l)))).
    { rewrite cons_snoc, <- len_snoc with (c := c), IH by (cbn in Hf; lia). rewrite pb_snoc, len_snoc. f_equal. lia. }
    destruct (c =? stop); cbn [andb]; [|done]. destruct (Z.eqb_spec (len pre) 0) as [E|E].
    + destruct pre; [|cbn in E; lia]. cbn. done.
    + destruct (at_prev pre (c :: l)) as (p & -> & Ep); [by intros ->|]. cbn [obind]. rewrite Ep. destruct (pb pre); cbn [negb]; [exact Hgo|]. f_equal. lia.
Qed.

Lemma scanTo_run pre l stop :
  scanTo (pre ++ l) (len pre) stop =
    Ret (len pre + Z.of_nat (until (Z.eqb stop) (pb pre) l), take (until (Z.eqb stop) (pb pre) l) l).
Proof.
  unfold scanTo. rewrite scanTo_loop_run by (rewrite length_app; lia). cbn [obind]. set (n := until _ _ _).
  assert (Hn : (n <= length l)%nat) by apply until_le. rewrite <- (take_drop n l) at 1.
  replace (Z.of_nat n) with (len (take n l)) by (rewrite length_take; lia). by rewrite sub_middle.
Qed.

Lemma tagValue_loop_run l : forall pre fuel, pre <> [] -> (length l < fuel)%nat ->
  tagValue_loop fuel (pre ++ l) (len pre) = Ret (len pre + Z.of_nat (until (Z.eqb comma) (pb pre) l)).
Proof.
  induction l as [|c l IH]; intros pre fuel Hp Hf; (destruct fuel as [|fuel]; [cbn in Hf; lia|]); cbn [tagValue_loop until].
  - outside. f_equal. lia.
  - inside. rewrite at_here. cbn [obind]. rewrite (Z.eqb_sym comma c).
    assert (Hgo : tagValue_loop fuel (pre ++ c :: l) (len pre + 1) = Ret (len pre + Z.of_nat (S (until (Z.eqb comma) (c =? bslash) l)))).
    { rewrite cons_snoc, <- len_snoc with (c := c), IH by (apply snoc_ne || (cbn in Hf; lia)). rewrite pb_snoc, len_snoc. f_equal. lia. }
    destruct (c =? comma); cbn [andb]; [|done]. destruct (at_prev pre (c :: l) Hp) as (p & -> & Ep). cbn [obind]. rewrite Ep. destruct (pb pre); cbn [negb]; [exact Hgo|]. f_equal. lia.
Qed.

(** The other loops start one byte behind their first. *)
Lemma measurement_loop_run l : forall pre fuel, pre <> [] -> (length l < fuel)%nat ->
  let n := until (fun c => (c =? comma) || (c =? space)) (pb pre) l in
  measurement_loop fuel (pre ++ l) (len pre - 1) = Ret
    match drop n l with
    | [] => (None, len pre + len l, Some "missing fields"%string)
    | c :: _ => if c =? comma then (Some tagKeyState, len pre + Z.of_nat n + 1, None) else (Some fieldsState, len pre + Z.of_nat n, None)
    end.
Proof.
  induction l as [|c l IH]; intros pre fuel Hp Hf; (destruct fuel as [|fuel]; [cbn in Hf; lia|]); cbn [measurement_loop until];
    replace (len pre - 1 + 1) with (len pre) by lia.
  - outside. cbn. do 3 f_equal. lia.
  - inside. destruct (at_prev pre (c :: l) Hp) as (p & -> & Ep). cbn [obind]. rewrite Ep, at_here.
    pose proof (IH (pre ++ [c]) fuel (snoc_ne _ _) ltac:(cbn in Hf; lia)) as E. cbv zeta in E. rewrite pb_snoc, len_snoc, <- cons_snoc in E.
    replace (len pre + 1 - 1) with (len pre) in E by lia.
    assert (Hgo : measurement_loop fuel (pre ++ c :: l) (len pre) = Ret
      match drop (S (until (fun c => (c =? comma) || (c =? space)) (c =? bslash) l)) (c :: l) with
      | [] => (None, len pre + len (c :: l), Some "missing fields"%string)
      | d :: _ => if d =? comma then (Some tagKeyState, len pre + Z.of_nat (S (until (fun c => (c =? comma) || (c =? space)) (c =? bslash) l)) + 1, None)
                  else (Some fieldsState, len pre + Z.of_nat (S (until (fun c => (c =? comma) || (c =? space)) (c =? bslash) l)), None)
      end).
    { rewrite E. cbn [drop length]. f_equal. destruct (drop _ l) as [|d r]; [do 2 f_equal; lia|]. destruct (d =? comma); do 2 f_equal; lia. }
    destruct (pb pre); cbn [negb]; [rewrite andb_false_r; exact Hgo|]. rewrite andb_true_r. cbn [obind].
    destruct (c =? comma) eqn:E1; cbn [orb]; [cbn [drop]; rewrite E1; do 3 f_equal; lia|].
    destruct (c =? space) eqn:E2; [cbn [drop]; rewrite E1; do 3 f_equal; lia|]. exact Hgo.
Qed.

Definition tagstop (c : Z) : bool := (c =? space) || (c =? comma) || (c =? equal).
Definition blockstop (c : Z) : bool := (c =? comma) || (c =? space).

Lemma drop_cons_S {A} n (c : A) l : drop (S n) (c :: l) = drop n l.
Proof. done. Qed.

(** A loop that looks at the bytes from [pre] on and goes on when it meets
    none that stops it. *)
Ltac step_on IH Hf c :=
  rewrite cons_snoc, <- len_snoc with (c := c); rewrite IH by (apply snoc_ne || (cbn in Hf; lia));
  rewrite pb_snoc, len_snoc, drop_cons_S, Nat2Z.inj_succ.

Lemma tagsKey_loop_run l : forall pre fuel, pre <> [] -> (length l < fuel)%nat ->
  tagsKey_loop fuel (pre ++ l) (len pre - 1) =
    match drop (until tagstop (pb pre) l) l with
    | c :: _ => if c =? equal then Ret (len pre + Z.of_nat (until tagstop (pb pre) l) + 1) else Fail "missing tag value"
    | [] => Fail "missing tag value"
    end.
Proof.
  induction l as [|c l IH]; intros pre fuel Hp Hf; (destruct fuel as [|fuel]; [cbn in Hf; lia|]); cbn [tagsKey_loop until];
    replace (len pre - 1 + 1) with (len pre) by lia.
  - by outside.
  - inside. destruct (at_prev pre (c :: l) Hp) as (p & Ea & Ep). rewrite at_here, Ea. cbn [obind]. rewrite Ep.
    assert (Hgo : tagsKey_loop fuel (pre ++ c :: l) (len pre) =
      match drop (S (until tagstop (c =? bslash) l)) (c :: l) with
      | d :: _ => if d =? equal then Ret (len pre + Z.of_nat (S (until tagstop (c =? bslash) l)) + 1) else Fail "missing tag value"
      | [] => Fail "missing tag value"
      end).
    { replace (len pre) with (len (pre ++ [c]) - 1) at 1 by (rewrite len_snoc; lia). rewrite cons_snoc, IH by (apply snoc_ne || (cbn in Hf; lia)).
      rewrite pb_snoc, len_snoc, drop_cons_S. destruct (drop _ l) as [|d r]; [done|]. destruct (d =? equal); [|done]. f_equal. lia. }
    destruct (pb pre); cbn [negb]; rewrite ?andb_false_r, ?andb_true_r; [exact Hgo|]. change (tagstop c) with ((c =? space) || (c =? comma) || (c =? equal)).
    destruct (Z.eqb_spec c space) as [->|H1]; [done|]. destruct (Z.eqb_spec c comma) as [->|H2]; [done|]. cbn [orb].
    destruct (Z.eqb_spec c equal) as [->|H3]; [cbn; f_equal; lia|]. exact Hgo.
Qed.

Lemma tagsValue_loop_run l : forall pre fuel, pre <> [] -> (length l < fuel)%nat ->
  tagsValue_loop fuel (pre ++ l) (len pre - 1) =
    match drop (until tagstop (pb pre) l) l with
    | c :: _ => if c =? equal then Fail "invalid tag format"
                else if c =? comma then Ret (tagKeyState, len pre + Z.of_nat (until tagstop (pb pre) l) + 1)
                else Ret (fieldsState, len pre + Z.of_nat (until tagstop (pb pre) l))
    | [] => Fail "missing fields"
    end.
Proof.
  induction l as [|c l IH]; intros pre fuel Hp Hf; (destruct fuel as [|fuel]; [cbn in Hf; lia|]); cbn [tagsValue_loop until];
    replace (len pre - 1 + 1) with (len pre) by lia.
  - by outside.
  - inside. destruct (at_prev pre (c :: l) Hp) as (p & Ea & Ep). rewrite at_here, Ea. cbn [obind]. rewrite Ep.
    assert (Hgo : tagsValue_loop fuel (pre ++ c :: l) (len pre) =
      match drop (S (until tagstop (c =? bslash) l)) (c :: l) with
      | d :: _ => if d =? equal then Fail "invalid tag format"
                  else if d =? comma then Ret (tagKeyState, len pre + Z.of_nat (S (until tagstop (c =? bslash) l)) + 1)
                  else Ret (fieldsState, len pre + Z.of_nat (S (until tagstop (c =? bslash) l)))
      | [] => Fail "missing fields"
      end).
    { replace (len pre) with (len (pre ++ [c]) - 1) at 1 by (rewrite len_snoc; lia). rewrite cons_snoc, IH by (apply snoc_ne || (cbn in Hf; lia)).
      rewrite pb_snoc, len_snoc, drop_cons_S. destruct (drop _ l) as [|d r]; [done|]. destruct (d =? equal); [done|]. destruct (d =? comma); do 2 f_equal; lia. }
    destruct (pb pre); cbn [negb]; rewrite ?andb_false_r, ?andb_true_r; [exact Hgo|].
    destruct (Z.eqb_spec c equal) as [->|H1]; [done|]. destruct (Z.eqb_spec c comma) as [->|H2]; [cbn; do 2 f_equal; lia|].
    destruct (Z.eqb_spec c space) as [->|H3]; [cbn; do 2 f_equal; lia|]. change (tagstop c) with ((c =? space) || (c =? comma) || (c =? equal)).
    rewrite !(proj2 (Z.eqb_neq c _)) by done. exact Hgo.
Qed.

Lemma spaceOr_loop_run l : forall pre fuel d r, pre <> [] -> (length l < fuel)%nat -> drop (until blockstop (pb pre) l) l = d :: r ->
  spaceOr_loop fuel (pre ++ l) (len pre - 1) comma = Ret (len pre + Z.of_nat (until blockstop (pb pre) l)).
Proof.
  induction l as [|c l IH]; intros pre fuel d r Hp Hf Hd; (destruct fuel as [|fuel]; [cbn in Hf; lia|]); [done|]; cbn [spaceOr_loop until] in *.
  replace (len pre - 1 + 1) with (len pre) by lia. destruct (at_prev pre (c :: l) Hp) as (p & Ea & Ep). rewrite Ea. cbn [obind]. rewrite Ep.
  assert (Hgo : drop (until blockstop (c =? bslash) l) l = d :: r ->
    spaceOr_loop fuel (pre ++ c :: l) (len pre) comma = Ret (len pre + Z.of_nat (S (until blockstop (c =? bslash) l)))).
  { intros H. replace (len pre) with (len (pre ++ [c]) - 1) at 1 by (rewrite len_snoc; lia).
    rewrite cons_snoc, (IH _ _ d r) by (apply snoc_ne || (cbn in Hf; lia) || by rewrite pb_snoc). rewrite pb_snoc, len_snoc. f_equal. lia. }
  destruct (pb pre); cbn [negb] in *; rewrite ?andb_false_r, ?andb_true_r in *; [by apply Hgo|]. inside. rewrite at_here. cbn [obind].
  fold (blockstop c) in *. change (if (c =? comma) || (c =? space) then ?a else ?b) with (if blockstop c then a else b).
  destruct (blockstop c); [f_equal; lia|]. by apply Hgo.
Qed.

Lemma skip_loop_run l : forall pre fuel, (length l < fuel)%nat ->
  exists n, (n <= length l)%nat /\ skip_loop fuel (pre ++ l) (len pre) = Ret (len pre + Z.of_nat n) /\
    (forall c r, drop n l = c :: r -> c <> space /\ c <> 9 /\ c <> 0) /\
    (forall c r, l = c :: r -> c = space -> (0 < n)%nat).
Proof.
  induction l as [|c l IH]; intros pre fuel Hf; (destruct fuel as [|fuel]; [cbn in Hf; lia|]); cbn [skip_loop].
  - exists O. split_and!; [done| |done|done]. rewrite (proj2 (Z.ltb_ge _ _)) by (rewrite app_nil_r; lia). f_equal. lia.
  - rewrite (proj2 (Z.ltb_lt _ _)) by (rewrite len_app; cbn [length]; lia). rewrite at_here. cbn [obind].
    destruct (negb (c =? space) && negb (c =? 9) && negb (c =? 0)) eqn:E.
    + exists O. rewrite !andb_true_iff, !negb_true_iff, !Z.eqb_neq in E. split_and!; [lia|f_equal; lia| |]; [intros d r [= <- _]; tauto|].
      intros d r [= <- _]. tauto.
    + destruct (IH (pre ++ [c]) fuel ltac:(cbn in Hf; lia)) as (n & H1 & H2 & H3 & _). exists (S n). split_and!; [cbn; lia| |done|lia].
      rewrite cons_snoc, <- len_snoc with (c := c), H2, len_snoc. f_equal. lia.
Qed.

Lemma skip_none pre c l : c <> space -> c <> 9 -> c <> 0 -> skipWhitespace (pre ++ c :: l) (len pre) = Ret (len pre).
Proof.
  intros H1 H2 H3. unfold skipWhitespace. cbn [skip_loop]. rewrite (proj2 (Z.ltb_lt _ _)) by (rewrite len_app; cbn [length]; lia). rewrite at_here. cbn [obind].
  by rewrite !(proj2 (Z.eqb_neq c _)).
Qed.

(** ** Measurements and tags *)

Definition text (t : list Z * list Z) : list Z := t.1 ++ equal :: t.2.
Definition flat (ts : list (list Z * list Z)) : list Z := ts ≫= fun t => comma :: text t.

Definition good_key (k : list Z) : bool := match k with c :: k => negb (tagstop c) && clean tagstop (c =? bslash) k | [] => false end.
Definition good_value (v : list Z) : bool := match v with c :: v => negb (blockstop c) && clean tagstop (c =? bslash) v | [] => false end.
Definition good_tag (t : list Z * list Z) : bool := good_key t.1 && good_value t.2.
Definition good_name (m : list Z) : bool := match m with c :: m => negb (c =? comma) && clean blockstop (c =? bslash) m | [] => false end.

Lemma blockstop_tagstop c : blockstop c = true -> tagstop c = true.
Proof. unfold blockstop, tagstop. destruct (c =? comma), (c =? space); done. Qed.

Lemma not_bslash c : tagstop c = true -> (c =? bslash) = false.
Proof. unfold tagstop. rewrite !orb_true_iff, !Z.eqb_eq. intros [[->| ->]| ->]; done. Qed.

(** The first byte of a key or value is read without looking at the one
    before it; the rest starts with it as the byte before. *)
Lemma scanTagsKey_cases pre l :
  (exists k r, l = k ++ equal :: r /\ good_key k = true /\ scanTagsKey (pre ++ l) (len pre) = Ret (len pre + len k + 1)) \/
  (exists e, scanTagsKey (pre ++ l) (len pre) = Fail e /\ e <> does_not_return).
Proof.
  unfold scanTagsKey. destruct l as [|c l]; [right; eexists; by outside|]. inside. rewrite at_here. cbn [obind]. fold (tagstop c).
  change (if (c =? space) || (c =? comma) || (c =? equal) then ?a else ?b) with (if tagstop c then a else b).
  destruct (tagstop c) eqn:Ec; [right; by eexists|]. replace (len pre) with (len (pre ++ [c]) - 1) by (rewrite len_snoc; lia).
  rewrite cons_snoc, tagsKey_loop_run by (apply snoc_ne || (rewrite !length_app; cbn; lia)). rewrite pb_snoc.
  destruct (drop (until tagstop (c =? bslash) l) l) as [|d r] eqn:Ed; [right; by eexists|].
  destruct (Z.eqb_spec d equal) as [->|Hd]; [|right; by eexists]. left. apply until_split in Ed as Hs. destruct Hs as [_ Hs].
  pose proof (until_le tagstop (c =? bslash) l). exists (c :: take (until tagstop (c =? bslash) l) l), r. split_and!.
  - cbn. f_equal. by rewrite <- Ed, take_drop.
  - cbn. by rewrite Ec, Hs.
  - rewrite len_snoc. cbn [length]. rewrite length_take. f_equal. lia.
Qed.

Lemma scanTagsKey_run pre k r : good_key k = true -> scanTagsKey (pre ++ k ++ equal :: r) (len pre) = Ret (len pre + len k + 1).
Proof.
  destruct k as [|c k]; [done|]. cbn [good_key]. intros [Hc Hk]%andb_prop. unfold scanTagsKey. cbn [app]. inside. rewrite at_here. cbn [obind].
  change (if (c =? space) || (c =? comma) || (c =? equal) then ?a else ?b) with (if tagstop c then a else b). rewrite (proj1 (negb_true_iff _) Hc).
  replace (len pre) with (len (pre ++ [c]) - 1) by (rewrite len_snoc; lia).
  rewrite cons_snoc, tagsKey_loop_run by (apply snoc_ne || (rewrite !length_app; cbn; lia)). rewrite pb_snoc.
  rewrite until_clean by done. rewrite drop_app_length. cbn. rewrite len_snoc. f_equal. lia.
Qed.

Lemma scanTagsValue_cases pre l :
  (exists v c r, l = v ++ c :: r /\ good_value v = true /\ blockstop c = true /\
    scanTagsValue (pre ++ l) (len pre) = Ret (if c =? comma then (tagKeyState, len pre + len v + 1) else (fieldsState, len pre + len v))) \/
  (exists e, scanTagsValue (pre ++ l) (len pre) = Fail e /\ e <> does_not_return).
Proof.
  unfold scanTagsValue. destruct l as [|c l]; [right; eexists; by outside|]. inside. rewrite at_here. cbn [obind].
  change (if (c =? comma) || (c =? space) then ?a else ?b) with (if blockstop c then a else b).
  destruct (blockstop c) eqn:Ec; [right; by eexists|]. replace (len pre) with (len (pre ++ [c]) - 1) by (rewrite len_snoc; lia).
  rewrite cons_snoc, tagsValue_loop_run by (apply snoc_ne || (rewrite !length_app; cbn; lia)). rewrite pb_snoc.
  destruct (drop (until tagstop (c =? bslash) l) l) as [|d r] eqn:Ed; [right; by eexists|].
  destruct (Z.eqb_spec d equal) as [->|Hd]; [right; by eexists|]. left. apply until_split in Ed as Hs. destruct Hs as [Hs1 Hs].
  pose proof (until_le tagstop (c =? bslash) l). exists (c :: take (until tagstop (c =? bslash) l) l), d, r. split_and!.
  - cbn. f_equal. by rewrite <- Ed, take_drop.
  - cbn. by rewrite Ec, Hs.
  - unfold tagstop in Hs1. unfold blockstop. rewrite (proj2 (Z.eqb_neq d equal) Hd) in Hs1. rewrite orb_false_r, orb_comm in Hs1. done.
  - rewrite len_snoc. cbn [length]. rewrite length_take. destruct (d =? comma); do 2 f_equal; lia.
Qed.

Lemma scanTagsValue_run pre v c r : good_value v = true -> blockstop c = true ->
  scanTagsValue (pre ++ v ++ c :: r) (len pre) = Ret (if c =? comma then (tagKeyState, len pre + len v + 1) else (fieldsState, len pre + len v)).
Proof.
  destruct v as [|d v]; [done|]. cbn [good_value]. intros [Hd Hv]%andb_prop Hc. unfold scanTagsValue. cbn [app]. inside. rewrite at_here. cbn [obind].
  change (if (d =? comma) || (d =? space) then ?a else ?b) with (if blockstop d then a else b). rewrite (proj1 (negb_true_iff _) Hd).
  replace (len pre) with (len (pre ++ [d]) - 1) by (rewrite len_snoc; lia).
  rewrite cons_snoc, tagsValue_loop_run by (apply snoc_ne || (rewrite !length_app; cbn; lia)). rewrite pb_snoc.
  rewrite until_clean by (done || by apply blockstop_tagstop). rewrite drop_app_length. rewrite len_snoc. cbn [length].
  destruct (Z.eqb_spec c equal) as [->|_]; [done|]. destruct (c =? comma); do 2 f_equal; lia.
Qed.

(** ** Tags *)

(** The positions where the tags start, when the first starts at [x]. *)
Fixpoint starts (x : Z) (ts : list (list Z * list Z)) : list Z :=
  match ts with
  | [] => []
  | t :: ts => x :: starts (x + len (text t) + 1) ts
  end.

Lemma text_length t : len (text t) = len t.1 + len t.2 + 1.
Proof. unfold text. rewrite len_app. cbn [length]. lia. Qed.

Lemma flat_cons t ts : flat (t :: ts) = comma :: text t ++ flat ts.
Proof. reflexivity. Qed.

Lemma starts_length x ts : length (starts x ts) = length ts.
Proof. revert x. induction ts as [|t ts IH]; intros x; cbn; [done|]. by rewrite IH. Qed.

Lemma scanTagsKey_text pre t r : good_tag t = true -> scanTagsKey (pre ++ text t ++ r) (len pre) = Ret (len pre + len t.1 + 1).
Proof. intros [Hk _]%andb_prop. unfold text. rewrite <- app_assoc. cbn [app]. by apply scanTagsKey_run. Qed.

Lemma scanTagsValue_text pre t c r : good_tag t = true -> blockstop c = true ->
  scanTagsValue (pre ++ text t ++ c :: r) (len pre + len t.1 + 1) =
    Ret (if c =? comma then (tagKeyState, len pre + len (text t) + 1) else (fieldsState, len pre + len (text t))).
Proof.
  intros [_ Hv]%andb_prop Hc. unfold text.
  replace (pre ++ (t.1 ++ equal :: t.2) ++ c :: r) with ((pre ++ t.1 ++ [equal]) ++ t.2 ++ c :: r) by (by rewrite <- !app_assoc; cbn [app]).
  replace (len pre + len t.1 + 1) with (len (pre ++ t.1 ++ [equal])) by (rewrite !len_app; cbn; lia).
  rewrite scanTagsValue_run by done. rewrite !len_app. cbn [length]. destruct (c =? comma); do 2 f_equal; lia.
Qed.

Lemma tags_loop_run t ts : forall pre r fuel ixs, good_tag t = true -> forallb good_tag ts = true ->
  (length (text t ++ flat ts) < fuel)%nat ->
  tags_loop fuel (pre ++ text t ++ flat ts ++ space :: r) (len pre) tagKeyState ixs =
    Ret (len pre + len (text t ++ flat ts), ixs ++ starts (len pre) (t :: ts) ++ [len pre + len (text t ++ flat ts) + 1]).
Proof.
  revert t. induction ts as [|t' ts IH]; intros t pre r fuel ixs Ht Hts Hf; pose proof (text_length t) as Hl;
    assert (Hk1 : (1 <= length t.1)%nat) by (apply andb_prop in Ht as [Hk Hv]; destruct t.1; [done|cbn; lia]);
    assert (Hv1 : (1 <= length t.2)%nat) by (apply andb_prop in Ht as [Hk Hv]; destruct t.2; [done|cbn; lia]); rewrite length_app in Hf;
    (destruct fuel as [|[|[|fuel]]]; [lia|lia|lia|]).
  - change (flat []) with (@nil Z) in *. cbn [app tags_loop]. rewrite app_nil_r, scanTagsKey_text by done. cbn [obind].
    rewrite scanTagsValue_text by done. cbn [obind fst snd Z.eqb space comma Pos.eqb starts]. by rewrite <- app_assoc.
  - rewrite flat_cons. cbn [app tags_loop]. rewrite scanTagsKey_text by done. cbn [obind]. rewrite <- app_assoc.
    rewrite scanTagsValue_text by done. cbn [obind fst snd]. rewrite Z.eqb_refl. cbn [fst snd].
    replace (pre ++ text t ++ comma :: text t' ++ flat ts ++ space :: r) with ((pre ++ text t ++ [comma]) ++ text t' ++ flat ts ++ space :: r)
      by (by rewrite <- !app_assoc).
    assert (Ex : len pre + len (text t) + 1 = len (pre ++ text t ++ [comma])) by (rewrite !len_app; cbn; lia). rewrite Ex.
    cbn [forallb] in Hts. apply andb_prop in Hts as [Ht' Hts]. pose proof (IH t' (pre ++ text t ++ [comma]) r (S fuel) (ixs ++ [len pre]) Ht' Hts) as E.
    cbn [tags_loop] in E. rewrite E by (rewrite flat_cons in Hf; cbn [length] in Hf; lia).
    rewrite <- app_assoc. cbn [app]. change (starts (len pre) (t :: t' :: ts)) with (len pre :: starts (len pre + len (text t) + 1) (t' :: ts)).
    assert (El : len (pre ++ text t ++ [comma]) + len (text t' ++ flat ts) = len pre + len (text t ++ comma :: text t' ++ flat ts))
      by (rewrite !len_app; cbn [length]; rewrite length_app; lia).
    by rewrite El, Ex.
Qed.

Lemma tags_loop_cases n : forall l pre fuel ixs, (length l <= n)%nat -> (length l < fuel)%nat ->
  (exists t ts r, l = text t ++ flat ts ++ space :: r /\ good_tag t = true /\ forallb good_tag ts = true) \/
  (exists e, tags_loop fuel (pre ++ l) (len pre) tagKeyState ixs = Fail e /\ e <> does_not_return).
Proof.
  induction n as [|n IH]; intros l pre fuel ixs Hn Hf; (destruct fuel as [|fuel]; [lia|]); cbn [tags_loop].
  { destruct l; [|cbn in Hn; lia]. right. eexists. unfold scanTagsKey. by outside. }
  destruct (scanTagsKey_cases pre l) as [(k & r & -> & Hk & ->)|(e & -> & He)]; [|right; by exists e]. cbn [obind].
  assert (Hk1 : (1 <= length k)%nat) by (destruct k; [done|cbn; lia]). rewrite length_app in Hn, Hf. cbn [length] in Hn, Hf.
  destruct fuel as [|fuel]; [lia|]. cbn [tags_loop].
  assert (Eb : pre ++ k ++ equal :: r = (pre ++ k ++ [equal]) ++ r) by (by rewrite <- !app_assoc).
  assert (Ex : len pre + len k + 1 = len (pre ++ k ++ [equal])) by (rewrite !len_app; cbn; lia). rewrite Eb, Ex.
  destruct (scanTagsValue_cases (pre ++ k ++ [equal]) r) as [(v & c & r' & -> & Hv & Hc & ->)|(e & -> & He)]; [|right; by exists e]. cbn [obind].
  assert (Ht : good_tag (k, v) = true) by (unfold good_tag; cbn; by rewrite Hk, Hv). unfold blockstop in Hc.
  destruct (Z.eqb_spec c comma) as [->|Hnc]; cbn [fst snd].
  - assert (Hv1 : (1 <= length v)%nat) by (destruct v; [done|cbn; lia]). rewrite length_app in Hn, Hf. cbn [length] in Hn, Hf.
    assert (Eb' : (pre ++ k ++ [equal]) ++ v ++ comma :: r' = (pre ++ text (k, v) ++ [comma]) ++ r') by (unfold text; app_eq).
    assert (Ex' : len (pre ++ k ++ [equal]) + len v + 1 = len (pre ++ text (k, v) ++ [comma])) by (unfold text; rewrite !len_app; cbn [length fst snd]; lia).
    rewrite Eb', Ex'. destruct (IH r' (pre ++ text (k, v) ++ [comma]) fuel (ixs ++ [len pre])) as [(t & ts & r'' & -> & H1 & H2)|H]; [lia|lia| |by right].
    left. exists (k, v), (t :: ts), r''. split_and!; [|done|cbn; by rewrite H1].
    rewrite flat_cons. unfold text. app_eq.
  - destruct (Z.eqb_spec c space) as [->|]; [|done]. left. exists (k, v), [], r'. split_and!; [|done|done]. unfold text. cbn. by rewrite <- app_assoc.
Qed.

(** ** Tags at positions *)

(** A tag starts at position [x] of the buffer. *)
Definition at_tag (buf : list Z) (x : Z) (t : list Z * list Z) : Prop :=
  exists pre c post, buf = pre ++ text t ++ c :: post /\ x = len pre /\ pb pre = false /\ blockstop c = true /\ good_tag t = true.

Lemma starts_at ts : forall pre r, forallb good_tag ts = true ->
  Forall2 (at_tag (pre ++ flat ts ++ space :: r)) (starts (len pre + 1) ts) ts.
Proof.
  induction ts as [|t ts IH]; intros pre r H; cbn [starts]; constructor; cbn in H; apply andb_prop in H as [Ht H].
  - rewrite flat_cons. exists (pre ++ [comma]). assert (Hh : exists c r', flat ts ++ space :: r = c :: r' /\ blockstop c = true).
    { destruct ts as [|t' ts]; [by exists space, r|]. rewrite flat_cons. cbn [app]. by eexists comma, _. }
    destruct Hh as (c & r' & E & Hc). exists c, r'. split_and!; [|by rewrite len_snoc|by rewrite pb_snoc|done|done].
    cbn [app]. rewrite <- !app_assoc, E. done.
  - rewrite flat_cons. specialize (IH (pre ++ comma :: text t) r H). rewrite <- !app_assoc in IH. cbn [app] in IH |- *. rewrite <- !app_assoc in *.
    replace (len (pre ++ comma :: text t) + 1) with (len pre + 1 + len (text t) + 1) in IH by (rewrite len_app; cbn [length]; lia). done.
Qed.

Lemma key_clean k : good_key k = true -> clean (Z.eqb equal) false k = true.
Proof.
  destruct k as [|c k]; [done|]. cbn [good_key clean]. intros [Hc Hk]%andb_prop. rewrite andb_true_r.
  assert (Hm : forall d, (equal =? d) = true -> tagstop d = true) by (intros d <-%Z.eqb_eq; done).
  apply andb_true_intro. split; [|by eapply clean_mono]. destruct (equal =? c) eqn:E; [|done]. by rewrite (Hm c E) in Hc.
Qed.

Lemma until_key t r : good_tag t = true -> until (Z.eqb equal) false (text t ++ r) = length t.1.
Proof. intros [Hk _]%andb_prop. unfold text. rewrite <- app_assoc. cbn [app]. apply until_clean; [by apply key_clean|done]. Qed.

Lemma take_key (t : list Z * list Z) r : take (length t.1) (text t ++ r) = t.1.
Proof. unfold text. rewrite <- app_assoc. apply take_app_length. Qed.

Lemma scanTo_zero l stop : scanTo l 0 stop = Ret (Z.of_nat (until (Z.eqb stop) false l), take (until (Z.eqb stop) false l) l).
Proof. apply (scanTo_run [] l stop). Qed.

(** The key of the tag, found from its position or in its text. *)
Lemma at_tag_key buf x t : at_tag buf x t -> exists i, scanTo buf x equal = Ret (i, t.1).
Proof.
  intros (pre & c & post & -> & -> & Hp & _ & Ht). rewrite scanTo_run, Hp, until_key by done. rewrite take_key. by eexists.
Qed.
Lemma at_tag_from buf x t : at_tag buf x t -> exists l i, from buf x = Ret l /\ scanTo l 0 equal = Ret (i, t.1).
Proof.
  intros (pre & c & post & -> & -> & Hp & _ & Ht). rewrite from_middle. eexists _, _. split; [done|].
  rewrite scanTo_zero, until_key by done. by rewrite take_key.
Qed.
Lemma text_key t : good_tag t = true -> exists i, scanTo (text t) 0 equal = Ret (i, t.1).
Proof.
  intros Ht. rewrite scanTo_zero.
  pose proof (until_key t [] Ht) as Hu. rewrite app_nil_r in Hu. rewrite Hu. pose proof (take_key t []) as Hk. rewrite app_nil_r in Hk. rewrite Hk. by eexists.
Qed.

Lemma tag_block t : good_tag t = true -> exists c l, text t = c :: l /\ blockstop c = false /\ clean blockstop (c =? bslash) l = true.
Proof.
  unfold good_tag, text. destruct t as [[|c k] v]; [done|]. cbn. intros [[Hc Hk]%andb_prop Hv]%andb_prop. exists c, (k ++ equal :: v). split_and!; [done| |].
  - apply negb_true_iff in Hc. destruct (blockstop c) eqn:E; [|done]. apply blockstop_tagstop in E. congruence.
  - apply clean_app; [by eapply clean_mono, Hk; apply blockstop_tagstop|]. destruct v as [|d v]; [done|]. cbn in Hv |- *.
    apply andb_prop in Hv as [Hd Hv]. apply negb_true_iff in Hd. rewrite Hd. cbn. by eapply clean_mono, Hv; apply blockstop_tagstop.
Qed.

Lemma at_tag_text buf x t : at_tag buf x t -> exists i, scanToSpaceOr buf x comma = Ret (i, text t).
Proof.
  intros (pre & c & post & -> & -> & _ & Hc & Ht). destruct (tag_block t Ht) as (d & l & E & Hd & Hl). unfold scanToSpaceOr. rewrite E. cbn [app].
  rewrite at_here. cbn [obind]. change (if (d =? comma) || (d =? space) then ?a else ?b) with (if blockstop d then a else b). rewrite Hd.
  assert (El : forall f, (length (l ++ c :: post) < f)%nat -> spaceOr_loop f (pre ++ d :: l ++ c :: post) (len pre) comma = Ret (len pre + len (d :: l))).
  { intros f Hf. replace (len pre) with (len (pre ++ [d]) - 1) by (rewrite len_snoc; lia). rewrite cons_snoc.
    erewrite spaceOr_loop_run; [|apply snoc_ne|done|rewrite pb_snoc, until_clean by done; apply drop_app_length].
    rewrite pb_snoc, until_clean by done. f_equal. rewrite len_snoc. cbn [length]. lia. }
  rewrite El by (rewrite !length_app; cbn [length]; rewrite length_app; cbn [length]; lia). cbn [obind].
  change (pre ++ d :: l ++ c :: post) with (pre ++ (d :: l) ++ c :: post). rewrite sub_middle. by eexists.
Qed.

(** ** The checks of the keys *)

Definition keys_of (ts : list (list Z * list Z)) : list (list Z) := ts.*1.
Definition indices_of (x : Z) (ts : list (list Z * list Z)) : list Z := starts (x + 1) ts ++ [x + len (flat ts) + 1].

Lemma tag_between_run ts : forall pre r j t, ts !! j = Some t ->
  tag_between (pre ++ flat ts ++ space :: r) (indices_of (len pre) ts) j = Ret (text t).
Proof.
  induction ts as [|t ts IH]; intros pre r [|j] u Hu; [done|done| |].
  - injection Hu as ->. unfold indices_of. cbn [starts app].
    assert (Hz : forall b x L, tag_between b (x :: L) 0 = let! y := or_panic (L !! O) in sub b x (y - 1)) by done.
    assert (Hn : (starts (len pre + 1 + len (text u) + 1) ts ++ [len pre + len (flat (u :: ts)) + 1]) !! O = Some (len pre + 1 + len (text u) + 1)).
    { destruct ts as [|v ts]; [|done]. cbn [starts app]. rewrite flat_cons. change (flat []) with (@nil Z). rewrite app_nil_r. cbn. f_equal. lia. }
    rewrite Hz, Hn. cbn [or_panic obind]. rewrite flat_cons. cbn [app].
    replace (pre ++ comma :: (text u ++ flat ts) ++ space :: r) with ((pre ++ [comma]) ++ text u ++ flat ts ++ space :: r) by app_eq.
    replace (len pre + 1) with (len (pre ++ [comma])) by apply len_snoc.
    replace (len (pre ++ [comma]) + len (text u) + 1 - 1) with (len (pre ++ [comma]) + len (text u)) by lia. apply sub_middle.
  - specialize (IH (pre ++ comma :: text t) r j u Hu). rewrite flat_cons. unfold indices_of in *. cbn [starts app].
    assert (Hz : forall b x L, tag_between b (x :: L) (S j) = tag_between b L j) by done. rewrite Hz.
    rewrite <- IH. replace (len (pre ++ comma :: text t)) with (len pre + 1 + len (text t)) by (rewrite len_app; cbn [length]; lia).
    replace ((pre ++ comma :: text t) ++ flat ts ++ space :: r) with (pre ++ comma :: (text t ++ flat ts) ++ space :: r) by app_eq.
    replace (len pre + len (flat (t :: ts)) + 1) with (len pre + 1 + len (text t) + len (flat ts) + 1) by (rewrite flat_cons; cbn [length]; rewrite length_app; lia).
    done.
Qed.

Section Keys.
Context (pre r : list Z) (ts : list (list Z * list Z)) (Hts : forallb good_tag ts = true).
Let buf := pre ++ flat ts ++ space :: r.

Lemma key_of_tag_run j t : ts !! j = Some t -> key_of_tag buf (indices_of (len pre) ts) j = Ret t.1.
Proof.
  intros Hj. unfold key_of_tag, buf. rewrite (tag_between_run ts pre r j t Hj). cbn [obind].
  apply forallb_Forall, Forall_forall with (x := t) in Hts; [|by eapply list_elem_of_lookup_2]. destruct (text_key t Hts) as [i ->]. done.
Qed.

Lemma reserved_loop_run n : forall j, (n + j = length ts)%nat ->
  reserved_loop n j buf (indices_of (len pre) ts) =
    match List.find (fun k => existsb (Equal k) reservedTagKeys) (drop j (keys_of ts)) with Some k => Fail (reserved_error k) | None => Ret tt end.
Proof.
  induction n as [|n IH]; intros j Hj; cbn [reserved_loop].
  - rewrite drop_ge by (unfold keys_of; rewrite length_fmap; lia). done.
  - destruct (lookup_lt_is_Some_2 ts j) as [t Ht]; [lia|]. rewrite (key_of_tag_run j t Ht). cbn [obind].
    rewrite (drop_S _ t.1 j) by (unfold keys_of; by rewrite list_lookup_fmap, Ht). cbn [List.find].
    destruct (existsb (Equal t.1) reservedTagKeys); [done|]. apply IH. lia.
Qed.

Fixpoint order (ks : list (list Z)) : outcome bool :=
  match ks with
  | x :: (y :: _) as l => match Compare x y with Gt => Ret false | Eq => Fail "duplicate tags" | Lt => order l end
  | _ => Ret true
  end.

Lemma sorted_loop_run n : forall j, (n + 1 + j = length ts)%nat -> sorted_loop n j buf (indices_of (len pre) ts) = order (drop j (keys_of ts)).
Proof.
  induction n as [|n IH]; intros j Hj; cbn [sorted_loop].
  - destruct (lookup_lt_is_Some_2 ts j) as [t Ht]; [lia|]. rewrite (drop_S _ t.1 j) by (unfold keys_of; by rewrite list_lookup_fmap, Ht).
    rewrite drop_ge by (unfold keys_of; rewrite length_fmap; lia). done.
  - destruct (lookup_lt_is_Some_2 ts j) as [t Ht]; [lia|]. destruct (lookup_lt_is_Some_2 ts (S j)) as [u Hu]; [lia|].
    rewrite (key_of_tag_run j t Ht), (key_of_tag_run (S j) u Hu). cbn [obind]. rewrite IH by lia.
    rewrite (drop_S _ t.1 j) by (unfold keys_of; by rewrite list_lookup_fmap, Ht).
    rewrite (drop_S _ u.1 (S j)) by (unfold keys_of; by rewrite list_lookup_fmap, Hu). done.
Qed.
End Keys.

Lemma order_true ks : order ks = Ret true -> StronglySorted klt ks.
Proof.
  induction ks as [|x ks IH]; intros H; [constructor|]. destruct ks as [|y ks]; [repeat constructor|]. cbn [order] in H.
  destruct (Compare x y) eqn:E; [done| |done]. specialize (IH H). constructor; [done|]. inversion IH; subst. constructor; [done|].
  eapply Forall_impl; [done|]. intros z Hz. by eapply klt_trans.
Qed.
Lemma order_fail ks e : order ks = Fail e -> e = "duplicate tags"%string /\ ~ NoDup ks.
Proof.
  induction ks as [|x [|y ks] IH]; intros H; [done|done|]. cbn [order] in H. destruct (Compare x y) eqn:E; [| |done].
  - injection H as <-. split; [done|]. apply Compare_Eq in E as ->. intros H. inversion H; subst. set_solver.
  - destruct (IH H) as [-> Hn]. split; [done|]. intros Hd. apply Hn. by inversion Hd.
Qed.
Lemma order_panic ks : order ks <> Panic.
Proof. induction ks as [|x [|y ks] IH]; [done|done|]. cbn [order]. by destruct (Compare x y). Qed.
Lemma order_false ks : order ks = Ret false -> (2 <= length ks)%nat.
Proof. destruct ks as [|x [|y ks]]; cbn; [done|done|lia]. Qed.

Lemma klt_NoDup ks : StronglySorted klt ks -> NoDup ks.
Proof.
  induction 1 as [|x ks Hs IH Hx]; constructor; [|done]. intros Hin. rewrite Forall_forall in Hx. by apply (klt_irrefl x), Hx.
Qed.
End PointsScan.
