(* ===== verification/PointsKey.v ===== *)
(** * The series key of a line

    [scanKey] as a function of the measurement and the tags of a line: it
    refuses reserved and repeated tag keys, and returns the measurement with
    the tags sorted by key, whatever their order in the line was. *)
From S2P Require Import Prelude Ring WalLog TsmIndex TsmIndexSpec Points PointsScan.
From stdpp Require Import gmap sorting.
#[global] Open Scope Z_scope.

Module PointsKey.
Import Ring TsmIndex TsmIndex.Bytes TsmIndexSpec Points PointsScan.

(** ** Sorting the indices *)

Section Sorting.
Context (buf : list Z).

(** The key at an index. *)
Definition kf (x : Z) : list Z := match scanTo buf x equal with Ret r => r.2 | _ => [] end.
Definition has_key (x : Z) : Prop := exists i, scanTo buf x equal = Ret (i, kf x).
Definition ile (x y : Z) : Prop := bytes_le (kf x) (kf y).

Lemma less_run ixs i j x y : ixs !! i = Some x -> ixs !! j = Some y -> has_key x -> has_key y ->
  less buf ixs i j = Ret (Less (kf x) (kf y)).
Proof. intros Hi Hj [a Ea] [b Eb]. unfold less. rewrite Hi. cbn [or_panic obind]. rewrite Ea. cbn [obind]. rewrite Hj. cbn [or_panic obind]. by rewrite Eb. Qed.

Lemma swap_run (A : list Z) y x rest : swap (A ++ y :: x :: rest) (S (length A)) (length A) = A ++ x :: y :: rest.
Proof.
  assert (E1 : (A ++ y :: x :: rest) !! S (length A) = Some x) by (by rewrite lookup_app_r, Nat.sub_succ_l, Nat.sub_diag by lia).
  assert (E0 : (A ++ y :: x :: rest) !! length A = Some y) by (by rewrite list_lookup_middle).
  unfold swap. rewrite E1, E0. rewrite (insert_app_r_alt A) by lia. rewrite Nat.sub_diag. cbn [insert list_insert].
  rewrite insert_app_r_alt by lia. by rewrite Nat.sub_succ_l, Nat.sub_diag by lia.
Qed.

(** The element behind [A] moves in front of the greater ones of [A]. *)
Lemma sift_run A : forall x rest, Forall has_key A -> has_key x ->
  exists A1 A2, A = A1 ++ A2 /\ sift 0 (length A) buf (A ++ x :: rest) = Ret (A1 ++ x :: A2 ++ rest) /\
    Forall (fun y => klt (kf x) (kf y)) A2 /\ (forall y, last A1 = Some y -> ile y x).
Proof.
  induction A as [|y A IH] using rev_ind; intros x rest HA Hx; [exists [], []; by split_and!|].
  apply Forall_app in HA as [HA Hy]. apply Forall_cons in Hy as [Hy _]. rewrite length_app, Nat.add_1_r. cbn [sift]. rewrite (proj2 (Nat.ltb_lt _ _)) by lia.
  rewrite <- app_assoc. cbn [app].
  rewrite (less_run _ _ _ x y); [|by rewrite lookup_app_r, Nat.sub_succ_l, Nat.sub_diag by lia|by rewrite list_lookup_middle|done|done]. cbn [obind].
  destruct (Less (kf x) (kf y)) eqn:E.
  - rewrite swap_run. destruct (IH x (y :: rest) HA Hx) as (A1 & A2 & -> & E' & H1 & H2). exists A1, (A2 ++ [y]). split_and!.
    + by rewrite app_assoc.
    + rewrite E'. by rewrite <- app_assoc.
    + apply Forall_app. split; [done|]. constructor; [|done]. by apply Less_spec.
    + done.
  - exists (A ++ [y]), []. split_and!; [by rewrite app_nil_r|by rewrite <- app_assoc|done|].
    intros z. rewrite last_snoc. intros [= <-]. apply not_klt. by rewrite <- Less_spec, E.
Qed.

Lemma sorted_last A y : StronglySorted ile A -> last A = Some y -> Forall (fun z => ile z y) A.
Proof.
  intros Hs [A' ->]%last_Some. induction A' as [|z A' IH]; [constructor; [unfold ile, bytes_le; by rewrite WalLog.Compare_refl|done]|]. inversion Hs as [|? ? Hs' Hz]; subst.
  constructor; [|by apply IH]. rewrite Forall_app in Hz. destruct Hz as [_ Hz]. by inversion Hz.
Qed.

Lemma insert_sorted A1 A2 x : StronglySorted ile (A1 ++ A2) -> Forall (fun y => klt (kf x) (kf y)) A2 -> (forall y, last A1 = Some y -> ile y x) ->
  StronglySorted ile (A1 ++ x :: A2).
Proof.
  intros Hs H2 H1. assert (Hx : Forall (fun z => ile z x) A1).
  { destruct (last A1) as [y|] eqn:E; [|by apply last_None in E as ->]. assert (Hs1 : StronglySorted ile A1) by (by eapply StronglySorted_app_1_l).
    eapply Forall_impl; [by apply sorted_last|]. intros z Hz. cbn in Hz. eapply bytes_le_trans; [exact Hz|by apply H1]. }
  clear H1. induction A1 as [|a A1 IH]; cbn in *.
  - constructor; [done|]. eapply Forall_impl; [exact H2|]. intros y Hy. by apply klt_le.
  - inversion Hs as [|? ? Hs' Ha]; subst. inversion Hx as [|? ? Hax Hx']; subst. constructor; [by apply IH|].
    rewrite Forall_app in Ha. destruct Ha. apply Forall_app. split; [done|]. by constructor.
Qed.

Lemma insertion_loop_run n : forall A B, length B = n -> Forall has_key (A ++ B) -> StronglySorted ile A ->
  exists L, insertion_loop n 0 (length A) buf (A ++ B) = Ret L /\ L ≡ₚ A ++ B /\ StronglySorted ile L.
Proof.
  induction n as [|n IH]; intros A B HB HA Hs; cbn [insertion_loop].
  - destruct B; [|done]. exists A. rewrite app_nil_r. done.
  - destruct B as [|x B]; [done|]. apply Forall_app in HA as [HA HxB]. inversion HxB as [|? ? Hx HB']; subst.
    destruct (sift_run A x B HA Hx) as (A1 & A2 & -> & E & H2 & H1). rewrite E. cbn [obind].
    pose proof (insert_sorted A1 A2 x Hs H2 H1) as Hs'. replace (A1 ++ x :: A2 ++ B) with ((A1 ++ x :: A2) ++ B) by app_eq.
    replace (S (length (A1 ++ A2))) with (length (A1 ++ x :: A2)) by (rewrite !length_app; cbn; lia).
    destruct (IH (A1 ++ x :: A2) B) as (L & EL & HL & HsL); [by injection HB| |done|].
    { apply Forall_app in HA as [? ?]. rewrite !Forall_app, Forall_cons. done. }
    exists L. split_and!; [done| |done]. rewrite HL. rewrite <- !app_assoc. apply Permutation_app_head. cbn [app].
    by rewrite Permutation_middle.
Qed.

Lemma insertionSort_run ixs : ixs <> [] -> Forall has_key ixs ->
  exists L, insertionSort 0 (length ixs) buf ixs = Ret L /\ L ≡ₚ ixs /\ StronglySorted ile L.
Proof.
  intros Hne Hk. destruct ixs as [|x ixs]; [done|]. unfold insertionSort. cbn [length Nat.add].
  replace (S (length ixs) - 1)%nat with (length ixs) by lia. apply (insertion_loop_run (length ixs) [x] ixs); [done|done|repeat constructor].
Qed.
End Sorting.

(** ** Rebuilding the key *)

Lemma copy_at_run (a b src : list Z) : (length src <= length b)%nat -> copy_at (a ++ b) (len a) src = a ++ src ++ drop (length src) b.
Proof.
  intros H. unfold copy_at. rewrite Nat2Z.id, take_app_length, length_app. replace (length a + length b - length a)%nat with (length b) by lia.
  rewrite (take_ge src) by lia. by rewrite drop_app_add.
Qed.

Lemma rebuild_run buf ixs ts : Forall2 (at_tag buf) ixs ts -> forall a b, length b = length (flat ts) ->
  rebuild ixs buf (a ++ b) (len a) = Ret (a ++ flat ts).
Proof.
  induction 1 as [|x t ixs ts Hx _ IH]; intros a b Hb; cbn [rebuild]; [by destruct b|]. rewrite flat_cons in Hb |- *. cbn [length] in Hb.
  destruct b as [|z b]; [done|]. injection Hb as Hb. rewrite length_app in Hb. rewrite (proj2 (Z.leb_le _ _)), (proj2 (Z.ltb_lt _ _)) by (rewrite ?len_app; cbn [length]; lia).
  cbn [andb]. destruct (at_tag_text buf x t Hx) as [i ->]. cbn [obind snd]. rewrite Nat2Z.id, insert_app_r_alt, Nat.sub_diag by lia. cbn [insert list_insert].
  rewrite cons_snoc, <- len_snoc with (c := comma). rewrite copy_at_run by lia. rewrite app_assoc.
  replace (len (a ++ [comma]) + Z.min _ _) with (len ((a ++ [comma]) ++ text t)) by (rewrite !len_app, length_drop; cbn [length]; lia).
  rewrite IH by (rewrite length_drop; lia). f_equal. app_eq.
Qed.

(** ** Repeated keys *)

Fixpoint adjacent (ks : list (list Z)) : bool :=
  match ks with
  | x :: (y :: _) as l => Equal x y || adjacent l
  | _ => false
  end.

Lemma duplicate_loop_run buf ixs ts n : Forall2 (at_tag buf) ixs ts -> forall j, (n + 1 + j = length ts)%nat ->
  duplicate_loop n j buf ixs = if adjacent (drop j (keys_of ts)) then Fail "duplicate tags" else Ret tt.
Proof.
  intros Hat. assert (Hk : forall j t, ts !! j = Some t -> key_from buf ixs j = Ret t.1).
  { intros j t Ht. destruct (Forall2_lookup_r _ _ _ _ _ Hat Ht) as (x & Hx & Hxt). unfold key_from. rewrite Hx. cbn [or_panic obind].
    destruct (at_tag_from _ _ _ Hxt) as (l & i & -> & E). cbn [obind]. by rewrite E. }
  induction n as [|n IH]; intros j Hj; cbn [duplicate_loop]; destruct (lookup_lt_is_Some_2 ts j) as [t Ht]; try lia;
    rewrite (drop_S _ t.1 j) by (unfold keys_of; by rewrite list_lookup_fmap, Ht).
  - by rewrite drop_ge by (unfold keys_of; rewrite length_fmap; lia).
  - destruct (lookup_lt_is_Some_2 ts (S j)) as [u Hu]; [lia|]. rewrite (Hk _ _ Ht), (Hk _ _ Hu). cbn [obind]. rewrite IH by lia.
    rewrite (drop_S _ u.1 (S j)) by (unfold keys_of; by rewrite list_lookup_fmap, Hu). cbn [adjacent]. by destruct (Equal t.1 u.1).
Qed.

Lemma adjacent_NoDup ks : StronglySorted bytes_le ks -> adjacent ks = bool_decide (~ NoDup ks).
Proof.
  intros Hs. destruct (adjacent ks) eqn:E; symmetry; [apply bool_decide_eq_true|apply bool_decide_eq_false].
  - clear Hs. induction ks as [|x [|y ks] IH]; [done|done|]. cbn [adjacent] in E. apply orb_prop in E as [E|E].
    + apply bool_decide_eq_true in E as ->. intros H. inversion H; subst. set_solver.
    + intros H. inversion H. by apply IH.
  - intros Hn. apply Hn. apply klt_NoDup. clear Hn. induction Hs as [|x ks Hs IH Hx]; [constructor|]. destruct ks as [|y ks]; [repeat constructor|].
    cbn [adjacent] in E. apply orb_false_iff in E as [Ee Ea]. apply bool_decide_eq_false in Ee. specialize (IH Ea).
    constructor; [done|]. assert (Hxy : klt x y) by (apply Compare_Lt_le; split; [by inversion Hx|done]). constructor; [done|].
    inversion IH; subst. eapply Forall_impl; [done|]. intros z. by apply klt_trans.
Qed.

(** ** The sorted tags *)

Definition raw_le (a b : list Z * list Z) : Prop := bytes_le a.1 b.1.
#[local] Instance raw_le_dec : RelDecision raw_le := fun a b => bytes_le_dec a.1 b.1.
#[local] Instance raw_le_total : Total raw_le.
Proof. intros a b. apply bytes_le_total. Qed.
#[local] Instance raw_le_trans : Transitive raw_le.
Proof. intros a b c. apply bytes_le_trans. Qed.
Definition sort_raw (ts : list (list Z * list Z)) : list (list Z * list Z) := merge_sort raw_le ts.

Lemma sort_raw_perm ts : sort_raw ts ≡ₚ ts.
Proof. apply merge_sort_Permutation. Qed.
Lemma sort_raw_sorted ts : StronglySorted raw_le (sort_raw ts).
Proof. apply (StronglySorted_merge_sort raw_le). Qed.

Lemma sort_raw_unique ts ts' : NoDup (keys_of ts) -> ts' ≡ₚ ts -> StronglySorted raw_le ts' -> ts' = sort_raw ts.
Proof.
  intros Hn Hp Hs. apply (StronglySorted_unique_strong raw_le); [|done|apply sort_raw_sorted|by rewrite sort_raw_perm].
  intros a b Ha Hb H1 H2. pose proof (bytes_le_antisym _ _ H1 H2) as E. rewrite Hp in Ha. rewrite sort_raw_perm in Hb.
  apply list_elem_of_lookup in Ha as [i Hi], Hb as [j Hj].
  assert (i = j) as ->; [|congruence]. eapply (NoDup_lookup (keys_of ts) i j a.1); [done|unfold keys_of; by rewrite list_lookup_fmap, Hi|].
  unfold keys_of. by rewrite list_lookup_fmap, Hj, E.
Qed.

(** The order of the tags does not matter to the sorted list. *)
Lemma sort_raw_Permutation ts ts' : NoDup (keys_of ts) -> ts ≡ₚ ts' -> sort_raw ts = sort_raw ts'.
Proof.
  intros Hn Hp. symmetry. apply sort_raw_unique; [done| |apply sort_raw_sorted]. by rewrite sort_raw_perm.
Qed.

(** ** Measurements *)

Lemma blockstop_eq c : (c =? comma) || (c =? space) = blockstop c.
Proof. done. Qed.

Lemma scanMeasurement_run pre m c r : good_name m = true -> blockstop c = true ->
  scanMeasurement (pre ++ m ++ c :: r) (len pre) =
    Ret (if c =? comma then (Some tagKeyState, len pre + len m + 1, None) else (Some fieldsState, len pre + len m, None)).
Proof.
  destruct m as [|d m]; [done|]. cbn [good_name]. intros [Hd Hm]%andb_prop Hc. apply negb_true_iff in Hd. unfold scanMeasurement. cbn [app]. inside.
  rewrite at_here. cbn [obind]. rewrite Hd. replace (len pre) with (len (pre ++ [d]) - 1) by (rewrite len_snoc; lia).
  rewrite cons_snoc, measurement_loop_run by (apply snoc_ne || (rewrite !length_app; cbn; lia)). rewrite pb_snoc. fold blockstop.
  change (fun c : Z => (c =? comma) || (c =? space)) with blockstop. rewrite until_clean by done. rewrite drop_app_length, len_snoc. cbn [length].
  destruct (c =? comma); do 3 f_equal; lia.
Qed.

Lemma scanMeasurement_cases pre l :
  (exists m c r, l = m ++ c :: r /\ good_name m = true /\ blockstop c = true) \/
  (exists i e, scanMeasurement (pre ++ l) (len pre) = Ret (None, i, Some e) /\ e <> does_not_return).
Proof.
  unfold scanMeasurement. destruct l as [|d l]; [right; eexists _, _; by outside|]. inside. rewrite at_here. cbn [obind].
  destruct (d =? comma) eqn:Ed; [right; by eexists _, _|]. replace (len pre) with (len (pre ++ [d]) - 1) by (rewrite len_snoc; lia).
  rewrite cons_snoc, measurement_loop_run by (apply snoc_ne || (rewrite !length_app; cbn; lia)). rewrite pb_snoc.
  change (fun c : Z => (c =? comma) || (c =? space)) with blockstop.
  destruct (drop (until blockstop (d =? bslash) l) l) as [|c r] eqn:E; [right; by eexists _, _|]. left. apply until_split in E as Hs. destruct Hs as [Hc Hs].
  exists (d :: take (until blockstop (d =? bslash) l) l), c, r. split_and!; [|cbn; by rewrite Ed, Hs|done].
  cbn. f_equal. by rewrite <- E, take_drop.
Qed.

(** ** The whole key *)

Definition is_reserved (k : list Z) : bool := existsb (Equal k) reservedTagKeys.

(** What [scanKey] returns for a measurement and tags that end at [i]. *)
Definition key_result (i : Z) (m : list Z) (ts : list (list Z * list Z)) : outcome (Z * list Z) :=
  match List.find is_reserved (keys_of ts) with
  | Some k => Fail (reserved_error k)
  | None => if bool_decide (NoDup (keys_of ts)) then Ret (i, m ++ flat (sort_raw ts)) else Fail "duplicate tags"
  end.
Lemma find_existsb {A} (f : A -> bool) l : List.find f l = None <-> existsb f l = false.
Proof. induction l as [|x l IH]; [done|]. cbn. by destruct (f x). Qed.

(** The part of [scanKey] behind the scan of the tags. *)
Definition finish (buf : list Z) (start i : Z) (indices : list Z) : outcome (Z * list Z) :=
  let commas := (length indices - 1)%nat in
  let! _ := reserved_loop commas 0 buf indices in
  let! sorted := sorted_loop (commas - 1) 0 buf indices in
  if negb sorted && (0 <? commas)%nat then
    let! first := or_panic (indices !! O) in
    let! measurement := sub buf start (first - 1) in
    let indices := take commas indices in
    let! indices := insertionSort 0 commas buf indices in
    let! whole := sub buf start i in
    let b := replicate (length whole) 0 in
    let! b := rebuild indices buf (copy_at b 0 measurement) (Z.min (len b) (len measurement)) in
    let! _ := duplicate_loop (commas - 1) 0 buf indices in
    Ret (i, b)
  else
    let! key := sub buf start i in
    Ret (i, key).

Lemma scanKey_finish buf (ws : list Z) m i indices st : skipWhitespace buf 0 = Ret (len ws) ->
  scanMeasurement buf (len ws) = Ret (Some st, m, None) ->
  match st with tagKeyState => scanTags buf m | _ => Ret (m, []) end = Ret (i, indices) ->
  scanKey buf 0 = finish buf (len ws) i indices.
Proof. intros H1 H2 H3. unfold scanKey. rewrite H1. cbn [obind]. rewrite H2. cbn [obind]. by destruct st; rewrite H3. Qed.

Section Whole.
Context (ws m r : list Z) (ts : list (list Z * list Z)).
Context (Hm : good_name m = true) (Hts : forallb good_tag ts = true) (Hne : ts <> []).
Let buf := ws ++ m ++ flat ts ++ space :: r.
Let ixs := indices_of (len (ws ++ m)) ts.
Let stop := len ws + len m + len (flat ts).

Lemma buf_eq : buf = (ws ++ m) ++ flat ts ++ space :: r.
Proof. unfold buf. by rewrite <- app_assoc. Qed.

Lemma whole_eq : sub buf (len ws) stop = Ret (m ++ flat ts).
Proof.
  unfold buf, stop. rewrite (app_assoc m), <- Z.add_assoc, <- len_app. apply sub_middle.
Qed.

Lemma starts_tags : Forall2 (at_tag buf) (starts (len (ws ++ m) + 1) ts) ts.
Proof. rewrite buf_eq. by apply starts_at. Qed.

Lemma at_tag_kf x t : at_tag buf x t -> has_key buf x /\ kf buf x = t.1.
Proof. intros H. destruct (at_tag_key _ _ _ H) as [i E]. unfold has_key, kf. rewrite E. split; [by exists i|done]. Qed.

Lemma sorted_tags L ts' : Forall2 (at_tag buf) L ts' -> StronglySorted (ile buf) L -> StronglySorted raw_le ts'.
Proof.
  induction 1 as [|x t L ts' Hx HL IH]; intros Hs; [constructor|]. inversion Hs as [|? ? Hs' Hf]; subst. constructor; [by apply IH|].
  clear IH Hs Hs'. induction HL as [|y u L ts' Hy HL IH]; [constructor|]. inversion Hf as [|? ? Hxy Hf']; subst. constructor; [|by apply IH].
  unfold ile in Hxy. by rewrite (proj2 (at_tag_kf _ _ Hx)), (proj2 (at_tag_kf _ _ Hy)) in Hxy.
Qed.

Lemma keys_sorted ts' : StronglySorted raw_le ts' -> StronglySorted bytes_le (keys_of ts').
Proof. induction 1 as [|t ts' Hs IH Hf]; [constructor|]. constructor; [done|]. apply Forall_fmap. eapply Forall_impl; [exact Hf|]. by intros u Hu. Qed.

Lemma finish_run : finish buf (len ws) stop ixs = key_result stop m ts.
Proof.
  unfold finish, key_result. assert (Hl : (length ixs - 1)%nat = length ts) by (unfold ixs, indices_of; rewrite length_app, starts_length; cbn; lia). rewrite Hl.
  assert (H1 : (1 <= length ts)%nat) by (destruct ts; [done|cbn; lia]).
  assert (Er : reserved_loop (length ts) 0 buf ixs = match List.find is_reserved (keys_of ts) with Some k => Fail (reserved_error k) | None => Ret tt end).
  { rewrite buf_eq. apply (reserved_loop_run (ws ++ m) r ts Hts (length ts) 0). lia. }
  assert (Eq : sorted_loop (length ts - 1) 0 buf ixs = order (keys_of ts)).
  { rewrite buf_eq. apply (sorted_loop_run (ws ++ m) r ts Hts (length ts - 1) 0). lia. }
  rewrite Er. destruct (List.find is_reserved (keys_of ts)); [done|]. cbn [obind]. rewrite Eq.
  destruct (order (keys_of ts)) as [[]|e|] eqn:Eo; cbn [obind negb andb].
  - apply order_true in Eo. rewrite bool_decide_eq_true_2 by (by apply klt_NoDup). rewrite whole_eq. cbn [obind]. do 4 f_equal.
    apply sort_raw_unique; [by apply klt_NoDup|done|]. revert Eo. unfold keys_of. clear. induction ts as [|t l IH]; cbn; intros H; [constructor|].
    inversion H as [|? ? Hs Hf]; subst. constructor; [by apply IH|]. rewrite (Forall_fmap fst) in Hf. eapply Forall_impl; [exact Hf|]. intros u. apply klt_le.
  - rewrite (proj2 (Nat.ltb_lt _ _)) by lia.
    assert (Hi : ixs !! O = Some (len (ws ++ m) + 1)) by (unfold ixs, indices_of; by destruct ts). rewrite Hi. cbn [or_panic obind].
    replace (len (ws ++ m) + 1 - 1) with (len ws + len m) by (rewrite len_app; lia).
    assert (Es : sub buf (len ws) (len ws + len m) = Ret m) by apply sub_middle. rewrite Es. cbn [obind].
    assert (Et : take (length ts) ixs = starts (len (ws ++ m) + 1) ts) by (unfold ixs, indices_of; rewrite <- (starts_length (len (ws ++ m) + 1) ts) at 1; apply take_app_length).
    rewrite Et, <- (starts_length (len (ws ++ m) + 1) ts) at 1.
    destruct (insertionSort_run buf (starts (len (ws ++ m) + 1) ts)) as (L & EL & HL & HsL).
    { by destruct ts. }
    { eapply Forall2_Forall_l; [apply starts_tags|]. apply Forall_true. intros t x Hx. by destruct (at_tag_kf x t Hx). }
    rewrite EL. cbn [obind]. rewrite whole_eq. cbn [obind]. rewrite length_replicate.
    destruct (Permutation_Forall2 (symmetry HL) starts_tags) as (ts' & Hp & Hat). pose proof (sorted_tags _ _ Hat HsL) as Hst.
    assert (Ec : copy_at (replicate (length (m ++ flat ts)) 0) 0 m = m ++ drop (length m) (replicate (length (m ++ flat ts)) 0))
      by (apply (copy_at_run [] _ m); rewrite length_replicate, length_app; lia).
    rewrite Ec.
    replace (Z.min (len (m ++ flat ts)) (len m)) with (len m) by (rewrite len_app; lia).
    assert (Hfl : length (flat ts') = length (flat ts)) by (unfold flat; by rewrite Hp).
    rewrite (rebuild_run buf L ts') by (done || (rewrite length_drop, length_replicate, length_app; lia)). cbn [obind].
    rewrite (duplicate_loop_run buf L ts') by (done || (rewrite <- (Permutation_length Hp); lia)). cbn [drop].
    rewrite adjacent_NoDup by (by apply keys_sorted). assert (Hd : NoDup (keys_of ts') <-> NoDup (keys_of ts)) by (unfold keys_of; by rewrite Hp).
    destruct (decide (NoDup (keys_of ts))) as [Hn|Hn].
    + rewrite bool_decide_eq_false_2, bool_decide_eq_true_2 by tauto. cbn [obind]. do 4 f_equal. by apply sort_raw_unique.
    + by rewrite bool_decide_eq_true_2, bool_decide_eq_false_2 by tauto.
  - apply order_fail in Eo as [-> Hn]. by rewrite bool_decide_eq_false_2.
  - by apply order_panic in Eo.
Qed.
End Whole.

Lemma scanKey_run ws m ts r : skipWhitespace (ws ++ m ++ flat ts ++ space :: r) 0 = Ret (len ws) -> good_name m = true -> forallb good_tag ts = true ->
  scanKey (ws ++ m ++ flat ts ++ space :: r) 0 = key_result (len ws + len m + len (flat ts)) m ts.
Proof.
  intros Hws Hm Hts. destruct ts as [|t ts].
  - change (flat []) with (@nil Z) in *. cbn [app] in *. pose proof (scanMeasurement_run ws m space r Hm eq_refl) as E.
    rewrite (scanKey_finish _ ws _ (len ws + len m) [] fieldsState Hws E eq_refl). unfold finish. cbn [length Nat.sub reserved_loop sorted_loop obind negb andb].
    rewrite sub_middle. cbn [obind]. unfold key_result. cbn [length keys_of fmap list_fmap List.find].
    rewrite bool_decide_eq_true_2 by constructor. change (flat (sort_raw [])) with (@nil Z). rewrite app_nil_r. do 2 f_equal. lia.
  - assert (E : scanMeasurement (ws ++ m ++ flat (t :: ts) ++ space :: r) (len ws) = Ret (Some tagKeyState, len ws + len m + 1, None)).
    { rewrite flat_cons. cbn [app]. rewrite scanMeasurement_run by done. by rewrite Z.eqb_refl. }
    pose proof (finish_run ws m r (t :: ts) Hts ltac:(done)) as Ef. cbv zeta in Ef. rewrite <- Ef.
    apply (scanKey_finish _ ws _ _ _ tagKeyState Hws E). unfold scanTags. cbn [forallb] in Hts. apply andb_prop in Hts as [Ht Hts].
    assert (Eb : ws ++ m ++ flat (t :: ts) ++ space :: r = (ws ++ m ++ [comma]) ++ text t ++ flat ts ++ space :: r) by (rewrite flat_cons; app_eq). rewrite Eb.
    replace (len ws + len m + 1) with (len (ws ++ m ++ [comma])) by (rewrite !len_app; cbn; lia).
    rewrite tags_loop_run by (done || (rewrite !length_app; lia)). cbn [app].
    assert (Ex : len (ws ++ m ++ [comma]) = len (ws ++ m) + 1) by (rewrite !len_app; cbn; lia). rewrite Ex. unfold indices_of.
    rewrite flat_cons. f_equal. f_equal; [rewrite !len_app; cbn [length]; rewrite length_app; lia|]. do 2 f_equal. cbn [length]. lia.
Qed.

Lemma scanKey_cases buf :
  (exists ws m ts r, buf = ws ++ m ++ flat ts ++ space :: r /\ skipWhitespace buf 0 = Ret (len ws) /\ good_name m = true /\ forallb good_tag ts = true) \/
  (exists e, scanKey buf 0 = Fail e /\ e <> does_not_return).
Proof.
  destruct (skip_loop_run buf [] (S (length buf)) ltac:(lia)) as (n & Hn & Es & _). cbn [app length] in Es. change (Z.of_nat 0) with 0 in Es. rewrite Z.add_0_l in Es.
  assert (Hws : skipWhitespace buf 0 = Ret (len (take n buf))) by (rewrite length_take_le by lia; exact Es). set (ws := take n buf) in *.
  assert (Eb : buf = ws ++ drop n buf) by (symmetry; apply take_drop). set (l := drop n buf) in *. clearbody ws l. subst buf.
  destruct (scanMeasurement_cases ws l) as [(m & c & r & -> & Hm & Hc)|(i & e & E & He)].
  2: { right. exists e. split; [|done]. unfold scanKey. rewrite Hws. cbn [obind]. by rewrite E. }
  pose proof (scanMeasurement_run ws m c r Hm Hc) as E. destruct (Z.eqb_spec c comma) as [->|Hn'].
  - assert (Eb : ws ++ m ++ comma :: r = (ws ++ m ++ [comma]) ++ r) by app_eq.
    destruct (tags_loop_cases (length r) r (ws ++ m ++ [comma]) (S (length ((ws ++ m ++ [comma]) ++ r))) []) as [(t & ts & r' & -> & Ht & Hts)|(e & Ee & He)];
      [lia|rewrite length_app; lia| |].
    + left. exists ws, m, (t :: ts), r'. split_and!; [rewrite flat_cons; app_eq|done|done|cbn; by rewrite Ht].
    + right. exists e. split; [|done]. unfold scanKey. rewrite Hws. cbn [obind]. rewrite E. cbn [obind]. unfold scanTags. rewrite Eb.
      replace (len ws + len m + 1) with (len (ws ++ m ++ [comma])) by (rewrite !len_app; cbn; lia). by rewrite Ee.
  - left. exists ws, m, [], r. unfold blockstop in Hc. apply orb_prop in Hc as [Hc|Hc]; apply Z.eqb_eq in Hc as ->; [done|]. by split_and!.
Qed.
End PointsKey.
