(* ===== verification/PointsSafe.v ===== *)
(** * Parsing any bytes

    [ParsePointsWithPrecision] returns for every input: no scanner reads
    outside its buffer or runs on for ever.  The points it returns have a key
    whose tags are in order, and a time in range. *)
From S2P Require Import Prelude Ring WalLog MetaData TsmIndex TsmIndexSpec Points PointsScan PointsKey.
From stdpp Require Import gmap sorting.
#[global] Open Scope Z_scope.

Module PointsSafe.
Import Ring TsmIndex TsmIndex.Bytes TsmIndexSpec Points PointsScan PointsKey.

(** A call returns a value with [P], or an error of the code. *)
Definition returns {A} (P : A -> Prop) (o : outcome A) : Prop :=
  match o with Ret a => P a | Fail e => e <> does_not_return | Panic => False end.

Lemma returns_bind {A B} (P : A -> Prop) (Q : B -> Prop) m k : returns P m -> (forall a, P a -> returns Q (k a)) -> returns Q (obind m k).
Proof. destruct m as [a|e|]; cbn; [auto|done|done]. Qed.
Lemma returns_impl {A} (P Q : A -> Prop) m : returns P m -> (forall a, P a -> Q a) -> returns Q m.
Proof. destruct m; cbn; auto. Qed.

Lemma at_in {A} (buf : list A) i : 0 <= i < len buf -> exists c, at_ buf i = Ret c /\ buf !! Z.to_nat i = Some c.
Proof.
  intros H. unfold at_. rewrite (proj2 (Z.ltb_ge _ _)) by lia. destruct (lookup_lt_is_Some_2 buf (Z.to_nat i)) as [c Hc]; [lia|]. rewrite Hc. by exists c.
Qed.
Lemma sub_in {A} (buf : list A) a b : 0 <= a <= b -> b <= len buf -> sub buf a b = Ret (take (Z.to_nat (b - a)) (drop (Z.to_nat a) buf)).
Proof. intros H1 H2. unfold sub. by rewrite !(proj2 (Z.leb_le _ _)) by lia. Qed.
Lemma from_in {A} (buf : list A) a : 0 <= a <= len buf -> from buf a = Ret (drop (Z.to_nat a) buf).
Proof. intros H. unfold from. rewrite sub_in by lia. by rewrite take_ge by (rewrite length_drop; lia). Qed.
Lemma sub_in_length {A} (buf : list A) a b s : sub buf a b = Ret s -> len s = b - a /\ 0 <= a <= b /\ b <= len buf.
Proof.
  unfold sub. destruct ((0 <=? a) && (a <=? b) && (b <=? len buf)) eqn:E; [|done]. rewrite !andb_true_iff, !Z.leb_le in E. intros [= <-].
  rewrite length_take, length_drop. lia.
Qed.

(** Go through the code: read inside the buffer, split on every test. *)
Ltac reading i :=
  let c := fresh "c" in let Ec := fresh "Ec" in let Hc := fresh "Hc" in
  lazymatch goal with |- context [at_ ?buf i] => destruct (at_in buf i) as (c & Ec & Hc); [lia|rewrite Ec; cbn [obind]] end.

(** Split on the test the code makes next. *)
Ltac branch := match goal with |- returns _ (if ?b then _ else _) => destruct b eqn:? end.

(** The branches of a loop that stops at [i] or goes on by [Hgo]. *)
Ltac branches i Hgo :=
  repeat match goal with |- exists j, (if ?b then _ else _) = _ /\ _ => destruct b; [first [apply Hgo; lia|exists i; split; [done|lia]]|] end; apply Hgo; lia.

Lemma skip_returns buf i : 0 <= i <= len buf -> exists j, skipWhitespace buf i = Ret j /\ i <= j <= len buf /\ (buf !! Z.to_nat i = Some space -> i < j).
Proof.
  intros Hi. set (pre := take (Z.to_nat i) buf). set (l := drop (Z.to_nat i) buf).
  assert (Eb : buf = pre ++ l) by (symmetry; apply take_drop). assert (Ei : i = len pre) by (unfold pre; rewrite length_take; lia).
  destruct (skip_loop_run l pre (S (length buf))) as (n & Hn & E & _ & H0); [unfold l; rewrite length_drop; lia|].
  exists (len pre + Z.of_nat n). split_and!; [unfold skipWhitespace; rewrite Eb at 2; rewrite Ei at 1; exact E|lia| |].
  - rewrite Eb, len_app. lia.
  - intros Hs. rewrite Ei. destruct l as [|c l'] eqn:El; [unfold l in El; apply (f_equal length) in El; rewrite length_drop in El; apply lookup_lt_Some in Hs; cbn in El; lia|].
    assert (c = space). { rewrite Eb in Hs. rewrite Ei, Nat2Z.id, list_lookup_middle in Hs by done. by injection Hs. }
    specialize (H0 c l' eq_refl H). lia.
Qed.

(** ** Numbers and booleans *)

Section Numbers.
Context {FT : FloatText}.

Lemma number_loop_returns buf start fuel : forall i int uns dec sci, 1 <= start <= i -> i <= len buf -> len buf - i < Z.of_nat fuel ->
  (int || uns = true -> start < i) ->
  returns (fun n => i <= n_end n <= len buf /\ (isInt n || isUnsigned n = true -> start < n_end n)) (number_loop fuel buf start i int uns dec sci).
Proof.
  induction fuel as [|fuel IH]; intros i int uns dec sci Hs Hi Hf Hu; [lia|]. cbn [number_loop].
  destruct (Z.leb_spec (len buf) i); [by cbn; split; [lia|]|]. reading i.
  assert (Hgo : forall int' uns' dec' sci', (int' || uns' = true -> start < i + 1) ->
    returns (fun n => i <= n_end n <= len buf /\ (isInt n || isUnsigned n = true -> start < n_end n)) (number_loop fuel buf start (i + 1) int' uns' dec' sci')).
  { intros. eapply returns_impl; [apply IH; first [assumption|lia]|]. intros n [H1 H2]. split; [lia|done]. }
  destruct ((c =? comma) || (c =? space)); [by cbn; split; [lia|]|].
  destruct ((c =? 105) && (start <? i) && negb (int || uns)) eqn:E1; [apply Hgo; lia|].
  destruct ((c =? 117) && (start <? i) && negb (int || uns)) eqn:E2; [apply Hgo; lia|].
  destruct ((c =? 46) && dec); [done|]. cbv zeta. destruct ((start <? i) && ((c =? 101) || (c =? 69))); [apply Hgo; intros H'; specialize (Hu H'); lia|].
  eapply (returns_bind (fun _ => True)).
  { destruct ((c =? 43) || (c =? 45)); [|done]. reading (i - 1). done. }
  intros exp _. destruct exp; [apply Hgo; intros H'; specialize (Hu H'); lia|]. destruct ((i + 2 <? len buf) && ((c =? 78) || (c =? 110))); [done|].
  destruct (negb (isNumeric c)); [done|]. apply Hgo. intros H'. specialize (Hu H'). lia.
Qed.

Lemma scanNumber_returns buf start : 1 <= start < len buf -> returns (fun j => start <= j <= len buf) (scanNumber buf start).
Proof.
  intros H. unfold scanNumber. rewrite (proj2 (Z.ltb_lt _ _)) by lia. reading start. cbv zeta.
  set (i := if c =? 45 then start + 1 else start). destruct ((c =? 45) && (i =? len buf)); [done|].
  assert (Hi : start <= i <= len buf) by (unfold i; destruct (c =? 45); lia).
  eapply returns_bind; [apply (number_loop_returns buf start (S (length buf)) i false false false false); lia || done|].
  intros n [Hn Hu]. destruct (_ && _); [done|]. destruct (_ =? 0); [done|].
  destruct (isInt n) eqn:Ei; [|destruct (isUnsigned n) eqn:Eu].
  - specialize (Hu eq_refl). unfold check_int. reading (n_end n - 1). destruct (negb _); [done|]. rewrite sub_in by lia. cbn [obind].
    destruct (_ || _); [|cbn; lia]. destruct (ParseInt _); cbn; [lia|done].
  - specialize (Hu eq_refl). unfold check_uint. reading (n_end n - 1). destruct (negb _); [done|]. rewrite Ec. cbn [obind]. destruct (c =? 45); [done|].
    rewrite sub_in by lia. cbn [obind]. destruct (_ <=? _); [|cbn; lia]. destruct (DQueue.DQueue.ParseUint _); cbn; [lia|done].
  - unfold check_float. rewrite sub_in by lia. cbn [obind]. branch; [|cbn; lia].
    destruct (ParseFloat _); cbn; [lia|done].
Qed.

Lemma boolean_loop_returns buf fuel : forall i, 0 <= i <= len buf -> len buf - i < Z.of_nat fuel -> returns (fun j => i <= j <= len buf) (boolean_loop fuel buf i).
Proof.
  induction fuel as [|fuel IH]; intros i Hi Hf; [lia|]. cbn [boolean_loop]. destruct (Z.leb_spec (len buf) i); [cbn; lia|]. reading i.
  destruct (_ || _); [cbn; lia|]. eapply returns_impl; [apply IH; lia|]. cbn. lia.
Qed.

Lemma scanBoolean_returns buf start : 0 <= start < len buf -> returns (fun r => start < r.1 <= len buf) (scanBoolean buf start).
Proof.
  intros H. unfold scanBoolean. rewrite (proj2 (Z.ltb_lt _ _)) by lia. reading start. destruct (_ && _); [done|].
  eapply returns_bind; [apply boolean_loop_returns; lia|]. intros i Hi. cbn in Hi. destruct (i - start =? 1); [rewrite sub_in by lia; cbn; lia|].
  rewrite ?Ec. cbn [obind]. destruct (_ && _); [done|]. destruct (_ && _); [done|]. rewrite sub_in by lia. cbn [obind]. cbv zeta.
  branch; cbn; [lia|done].
Qed.

(** ** Fields, times and lines *)

Lemma fields_loop_returns buf fuel : forall i quoted equals commas, 2 <= i <= len buf -> len buf - i < Z.of_nat fuel ->
  returns (fun r => i <= r.1.1.1 <= len buf) (fields_loop fuel buf i quoted equals commas).
Proof.
  induction fuel as [|fuel IH]; intros i quoted equals commas Hi Hf; [lia|]. cbn [fields_loop]. destruct (Z.leb_spec (len buf) i); [cbn; lia|]. reading i.
  assert (Hgo : forall j q e m, i < j <= len buf -> returns (fun r => i <= r.1.1.1 <= len buf) (fields_loop fuel buf j q e m)).
  { intros. eapply returns_impl; [apply IH; lia|]. cbn. lia. }
  branch; [apply Hgo; lia|]. branch; [apply Hgo; lia|]. branch.
  - cbv zeta. reading (i - 1). eapply (returns_bind (fun _ => True)).
    { branch; [|done]. reading (i - 2). done. }
    intros empty _. branch; [done|]. branch; [done|]. reading (i + 1). branch; [done|]. branch.
    { eapply returns_bind; [apply scanNumber_returns; lia|]. intros j Hj. cbn in Hj. apply Hgo. lia. }
    branch; [|apply Hgo; lia]. eapply returns_bind; [apply scanBoolean_returns; lia|]. intros r Hr. cbn in Hr. apply Hgo. lia.
  - branch; [cbn; lia|]. apply Hgo. lia.
Qed.

Lemma scanFields_returns buf pos : 1 <= pos < len buf -> buf !! Z.to_nat pos = Some space -> returns (fun r => pos <= r.1 <= len buf) (scanFields buf pos).
Proof.
  intros Hp Hs. unfold scanFields. destruct (skip_returns buf pos) as (start & -> & H1 & H2); [lia|]. specialize (H2 Hs). cbn [obind].
  eapply returns_bind; [apply fields_loop_returns; lia|]. intros [[[i q] e] c] Hi. cbn in Hi. branch; [done|]. branch; [done|]. rewrite sub_in by lia. cbn. lia.
Qed.

Lemma fieldValue_loop_returns buf fuel : forall i quoted, 0 <= i <= len buf -> len buf - i < Z.of_nat fuel ->
  exists j, fieldValue_loop fuel buf i quoted = Ret j /\ i <= j <= len buf.
Proof.
  induction fuel as [|fuel IH]; intros i quoted Hi Hf; [lia|]. cbn [fieldValue_loop]. destruct (Z.ltb_spec i (len buf)) as [Hl|Hl]; [|exists i; split; [done|lia]].
  reading i. assert (Hgo : forall j q, i < j <= len buf -> exists k, fieldValue_loop fuel buf j q = Ret k /\ i <= k <= len buf).
  { intros j q Hj. destruct (IH j q ltac:(lia) ltac:(lia)) as (k & E & Hk). exists k. split; [done|lia]. }
  destruct ((c =? bslash) && (i + 1 <? len buf)) eqn:E.
  - apply andb_prop in E as [_ E%Z.ltb_lt]. reading (i + 1). branches i Hgo.
  - cbn [obind]. branches i Hgo.
Qed.

Lemma scanFieldValue_zero buf : exists i, scanFieldValue buf (len buf) 0 = Ret (i, take (Z.to_nat i) buf) /\ 0 <= i <= len buf.
Proof.
  unfold scanFieldValue. destruct (fieldValue_loop_returns buf (S (length buf)) 0 false) as (i & -> & Hi); [lia|lia|]. cbn [obind]. exists i. split; [|done].
  destruct (Z.eqb_spec 0 i) as [<-|Hn]; [rewrite (proj2 (Z.leb_le 0 (len buf))) by lia; done|]. cbn [andb]. rewrite sub_in by lia. cbn [obind]. by rewrite drop_0, Z.sub_0_r.
Qed.

Lemma walkFields_returns {A} (fn : list Z -> list Z -> A -> A * bool) fuel : forall buf a, (length buf < fuel)%nat ->
  returns (fun _ => True) (walkFields_loop fuel buf fn a).
Proof.
  induction fuel as [|fuel IH]; intros buf a Hf; [lia|]. cbn [walkFields_loop]. branch; [done|]. rewrite scanTo_zero. cbn [obind].
  set (n := until (Z.eqb equal) false buf). branch; [done|]. assert (Hn : Z.of_nat n <= len buf - 2) by lia.
  rewrite (from_in buf) by lia. cbn [obind]. set (buf1 := drop (Z.to_nat (Z.of_nat n + 1)) buf).
  assert (Hl : len buf1 = len buf - Z.of_nat n - 1) by (unfold buf1; rewrite length_drop; lia).
  destruct (scanFieldValue_zero buf1) as (i & -> & Hi). cbn [obind]. rewrite (from_in buf1) by lia. cbn [obind]. set (buf2 := drop (Z.to_nat i) buf1).
  assert (Hl2 : len buf2 = len buf1 - i) by (unfold buf2; rewrite length_drop; lia).
  destruct (fn _ _ _) as [a' more]. branch; [done|]. destruct (Nat.ltb_spec 0 (length buf2)); [|apply IH; lia]. rewrite (from_in buf2) by lia. cbn [obind]. apply IH. rewrite length_drop. lia.
Qed.

Lemma time_loop_returns buf start fuel : forall i, 0 <= i <= len buf -> len buf - i < Z.of_nat fuel -> returns (fun j => i <= j <= len buf) (time_loop fuel buf start i).
Proof.
  induction fuel as [|fuel IH]; intros i Hi Hf; [lia|]. cbn [time_loop]. destruct (Z.leb_spec (len buf) i); [cbn; lia|]. reading i.
  assert (Hgo : returns (fun j => i <= j <= len buf) (time_loop fuel buf start (i + 1))) by (eapply returns_impl; [apply IH; lia|]; cbn; lia).
  branch; [cbn; lia|]. branch; [done|]. by branch.
Qed.

Lemma scanTime_returns buf pos : 0 <= pos <= len buf -> returns (fun r => pos <= r.1 <= len buf) (scanTime buf pos).
Proof.
  intros Hp. unfold scanTime. destruct (skip_returns buf pos Hp) as (start & -> & H1 & _). cbn [obind].
  eapply returns_bind; [apply time_loop_returns; lia|]. intros i Hi. cbn in Hi. rewrite sub_in by lia. cbn. lia.
Qed.

Lemma line_loop_returns buf fuel : forall i q f e m, 0 <= i <= len buf -> len buf - i < Z.of_nat fuel ->
  exists j, line_loop fuel buf i q f e m = Ret j /\ i <= j <= len buf.
Proof.
  induction fuel as [|fuel IH]; intros i q f e m Hi Hf; [lia|]. cbn [line_loop]. destruct (Z.leb_spec (len buf) i); [exists i; split; [done|lia]|]. reading i.
  assert (Hgo : forall j q' f' e' m', i < j <= len buf -> exists k, line_loop fuel buf j q' f' e' m' = Ret k /\ i <= k <= len buf).
  { intros j q' f' e' m' Hj. destruct (IH j q' f' e' m' ltac:(lia) ltac:(lia)) as (k & E & Hk). exists k. split; [done|lia]. }
  destruct ((c =? bslash) && (i + 2 <? len buf)) eqn:E; [apply Hgo; lia|]. cbv zeta.
  branches i Hgo.
Qed.

Lemma scanLine_returns buf pos : 0 <= pos <= len buf -> exists i s, scanLine buf pos = Ret (i, s) /\ pos <= i <= len buf.
Proof.
  intros Hp. unfold scanLine. destruct (line_loop_returns buf (S (length buf)) pos false false 0 0) as (i & -> & Hi); [lia|lia|]. cbn [obind].
  rewrite sub_in by lia. cbn [obind]. by eexists _, _.
Qed.

(** ** Points *)

(** A measurement and tags with increasing keys, none of them reserved. *)
Definition canonical_key (key : list Z) : Prop :=
  exists m ts, key = m ++ flat ts /\ good_name m = true /\ forallb good_tag ts = true /\
    StronglySorted klt (keys_of ts) /\ existsb is_reserved (keys_of ts) = false.

Definition collect_keys (k _ : list Z) (ks : list (list Z)) : list (list Z) * bool := (ks ++ [k], true).

Record accepted (defaultTime : Z) (precision : string) (p : point) : Prop := {
  ac_key : canonical_key (p_key p);
  ac_length : len (p_key p) <= MaxKeyLength;
  ac_fields : p_fields p <> [];
  ac_sizes : exists ks, walkFields (p_fields p) collect_keys [] = Ret ks /\ Forall (fun k => seriesKeySize (p_key p) k <= MaxKeyLength) ks;
  ac_time : p_ts p = [] /\ p_time p = truncated defaultTime precision \/ MinNanoTime <= p_time p <= MaxNanoTime }.

Lemma sorted_keys_lt ts : StronglySorted raw_le ts -> NoDup (keys_of ts) -> StronglySorted klt (keys_of ts).
Proof.
  induction 1 as [|t ts Hs IH Hf]; intros Hn; [constructor|]. inversion Hn as [|? ? Hin Hn']; subst. constructor; [by apply IH|].
  apply Forall_forall. intros k Hk. apply Compare_Lt_le. split; [|intros <-; done]. apply list_elem_of_fmap in Hk as (u & -> & Hu).
  rewrite Forall_forall in Hf. by apply Hf.
Qed.

Lemma existsb_perm {A} (f : A -> bool) l l' : l ≡ₚ l' -> existsb f l = existsb f l'.
Proof. induction 1; cbn; [done|by f_equal|by destruct (f x), (f y)|congruence]. Qed.
Lemma forallb_perm {A} (f : A -> bool) l l' : l ≡ₚ l' -> forallb f l = forallb f l'.
Proof. induction 1; cbn; [done|by f_equal|by destruct (f x), (f y)|congruence]. Qed.

(** A key that is returned is canonical, and ends at a space. *)
Lemma scanKey_returns buf :
  returns (fun r => canonical_key r.2 /\ 1 <= r.1 < len buf /\ buf !! Z.to_nat r.1 = Some space) (scanKey buf 0).
Proof.
  destruct (scanKey_cases buf) as [(ws & m & ts & r & -> & Hws & Hm & Hts)|(e & -> & He)]; [|done]. rewrite scanKey_run by done. unfold key_result.
  destruct (List.find is_reserved (keys_of ts)) eqn:Er; [by cbn|]. apply find_existsb in Er. case_bool_decide as Hn; [|done]. cbn. split_and!.
  - exists m, (sort_raw ts). split_and!; [done|done|by rewrite (forallb_perm _ _ _ (sort_raw_perm ts))| |].
    + apply sorted_keys_lt; [apply sort_raw_sorted|]. unfold keys_of. by rewrite sort_raw_perm.
    + unfold keys_of. by rewrite (existsb_perm _ _ ts.*1) by (by rewrite sort_raw_perm).
  - destruct m; [done|]. cbn [length]. lia.
  - rewrite !len_app. cbn [length]. lia.
  - replace (ws ++ m ++ flat ts ++ space :: r) with ((ws ++ m ++ flat ts) ++ space :: r) by app_eq. rewrite list_lookup_middle; [done|]. rewrite !length_app. lia.
Qed.

(** The check of the sizes passes when all keys are short. *)
Lemma walk_sizes key fuel : forall buf ks,
  walkFields_loop fuel buf (fun k _ e => if MaxKeyLength <? seriesKeySize key k then (true, false) else (e, true)) false = Ret false ->
  exists ks', walkFields_loop fuel buf collect_keys ks = Ret (ks ++ ks') /\ Forall (fun k => seriesKeySize key k <= MaxKeyLength) ks'.
Proof.
  induction fuel as [|fuel IH]; intros buf ks; cbn [walkFields_loop]; [done|]. destruct (length buf =? 0)%nat; [exists []; by rewrite app_nil_r|].
  destruct (scanTo buf 0 equal) as [[i key']| |]; cbn [obind]; [|done|done]. destruct (len buf - 2 <? i); [done|].
  destruct (from buf (i + 1)) as [b1| |]; cbn [obind]; [|done|done]. destruct (scanFieldValue b1 (len b1) 0) as [[j v]| |]; cbn [obind]; [|done|done].
  destruct (from b1 j) as [b2| |]; cbn [obind]; [|done|done]. destruct (Z.ltb_spec MaxKeyLength (seriesKeySize key key')); cbn [negb]; [done|].
  unfold collect_keys at 1 2. cbn [negb]. assert (Hgo : forall b, walkFields_loop fuel b (fun k _ e => if MaxKeyLength <? seriesKeySize key k then (true, false) else (e, true)) false = Ret false ->
    exists ks', walkFields_loop fuel b collect_keys (ks ++ [key']) = Ret (ks ++ ks') /\ Forall (fun k => seriesKeySize key k <= MaxKeyLength) ks').
  { intros b Hb. destruct (IH b (ks ++ [key']) Hb) as (ks' & E & Hf). exists (key' :: ks'). split; [by rewrite E, <- app_assoc|by constructor]. }
  destruct (0 <? length b2)%nat; [|apply Hgo]. destruct (from b2 1) as [b3| |]; cbn [obind]; [apply Hgo|done|done].
Qed.

Lemma SafeCalcTime_range n precision t : SafeCalcTime n precision = Ret t -> MinNanoTime <= t <= MaxNanoTime.
Proof.
  unfold SafeCalcTime, CheckTime. destruct (safeSignedMult _ _) as [x []]; [|done]. destruct (_ || _) eqn:E; [done|]. cbn [obind]. intros [= <-].
  apply orb_false_iff in E as [?%Z.ltb_ge ?%Z.ltb_ge]. lia.
Qed.

Lemma parsePoint_returns buf defaultTime precision : returns (accepted defaultTime precision) (parsePoint buf defaultTime precision).
Proof.
  unfold parsePoint. eapply returns_bind; [apply scanKey_returns|]. intros [pos key] (Hkey & Hpos & Hsp). cbn [fst snd] in *.
  branch; [done|]. branch; [done|]. eapply returns_bind; [by apply scanFields_returns|]. intros [pos' fields] Hpos'. cbn [fst] in Hpos'. branch; [done|].
  pose proof (walkFields_returns (fun k _ e => if MaxKeyLength <? seriesKeySize key k then (true, false) else (e, true)) (S (length fields)) fields false ltac:(lia)) as Hw.
  unfold walkFields. destruct (walkFields_loop _ _ _ _) as [maxKeyErr|e|] eqn:Ew; cbn [obind]; [|done|done]. destruct maxKeyErr; [done|].
  apply (walk_sizes key _ _ []) in Ew as (ks & Ek & Hks). cbv zeta.
  assert (Hacc : forall t ts, ts = [] /\ t = truncated defaultTime precision \/ MinNanoTime <= t <= MaxNanoTime ->
    accepted defaultTime precision (new_point t key fields (len buf - pos' + len fields) ts)).
  { intros t ts Ht. split; cbn [p_key p_fields p_ts p_time new_point]; [done|lia|by intros ->|by exists ks|done]. }
  eapply returns_bind; [apply scanTime_returns; lia|]. intros [pos'' ts] Hpos''. cbn [fst] in Hpos''. branch.
  { apply Hacc. left. split; [|done]. by destruct ts. }
  destruct (ParseInt ts) as [n|]; [|done]. destruct (SafeCalcTime n precision) as [t|e|] eqn:Et; cbn [obind].
  - apply SafeCalcTime_range in Et. destruct (pos'' <? len buf); [rewrite from_in by lia|]; cbn [obind]; branch; [apply Hacc; by right|done|apply Hacc; by right|done].
  - revert Et. unfold SafeCalcTime, CheckTime. destruct (safeSignedMult _ _) as [x []]; [|by intros [= <-]]. destruct (_ || _); [by intros [= <-]|done].
  - revert Et. unfold SafeCalcTime, CheckTime. destruct (safeSignedMult _ _) as [x []]; [|done]. by destruct (_ || _).
Qed.

Lemma points_loop_returns buf defaultTime precision fuel : forall pos ps fs, 0 <= pos -> len buf - pos < Z.of_nat fuel -> (0 < fuel)%nat ->
  Forall (accepted defaultTime precision) ps ->
  exists ps' fs', points_loop fuel buf defaultTime precision pos ps fs = Ret (ps', fs') /\ Forall (accepted defaultTime precision) ps'.
Proof.
  induction fuel as [|fuel IH]; intros pos ps fs Hp Hf H0 Hps; [lia|]. cbn [points_loop]. destruct (Z.ltb_spec pos (len buf)); [|by exists ps, fs]. destruct (scanLine_returns buf pos) as (i & block & -> & Hi); [lia|]. cbn [obind]. cbv zeta.
  assert (Hgo : forall ps fs, Forall (accepted defaultTime precision) ps -> exists ps' fs',
    points_loop fuel buf defaultTime precision (i + 1) ps fs = Ret (ps', fs') /\ Forall (accepted defaultTime precision) ps') by (intros; apply IH; [lia|lia|lia|done]).
  destruct (length block =? 0)%nat eqn:El; [by apply Hgo|]. apply Nat.eqb_neq in El. destruct (skip_returns block 0) as (start & -> & Hs & _); [lia|]. cbn [obind].
  destruct (Z.leb_spec (len block) start); [by apply Hgo|]. reading start. destruct (c =? 35); [by apply Hgo|]. reading (len block - 1).
  set (block' := if c0 =? newline then take (length block - 1) block else block).
  assert (Hb : len block - 1 <= len block' <= len block) by (unfold block'; destruct (c0 =? newline); rewrite ?length_take; lia).
  rewrite (from_in block') by lia. cbn [obind]. pose proof (parsePoint_returns (drop (Z.to_nat start) block') defaultTime precision) as Hpp.
  destruct (parsePoint _ _ _) as [pt|e|]; cbn in Hpp; [|destruct (String.eqb_spec e does_not_return); [done|by apply Hgo]|done].
  apply Hgo, Forall_app. split; [done|]. by apply Forall_singleton.
Qed.

(** C8. Parsing never fails on its own account: for any bytes, default time
    and precision, [ParsePointsWithPrecision] returns points and the lines it
    refused; it neither panics nor runs on for ever.  Every point it returns
    has a key made of a measurement and tags with strictly increasing keys,
    none of them reserved; no series key, also with a field, is longer than
    the limit; there is a field, and a time that was given is in the range of
    the storage engine. *)
Theorem ParsePoints_sound (buf : list Z) (defaultTime : Z) (precision : string) :
  exists points failed, ParsePointsWithPrecision buf defaultTime precision = Ret (points, failed) /\
    Forall (accepted defaultTime precision) points.
Proof. apply points_loop_returns; [lia|lia|lia|constructor]. Qed.
End Numbers.
End PointsSafe.
