(* ===== verification/PointsOrder.v ===== *)
(** * The order of tags in a line

    Two lines that list the same tags in different orders are parsed to the
    same point: the scanners behind the key only read bytes that both lines
    have in the same places, and the key itself is sorted. *)
From S2P Require Import Prelude Ring WalLog TsmIndex TsmIndexSpec Points PointsScan PointsKey PointsSafe.
From stdpp Require Import gmap sorting.
#[global] Open Scope Z_scope.

Module PointsOrder.
Import Ring TsmIndex TsmIndex.Bytes TsmIndexSpec Points PointsScan PointsKey PointsSafe.

Lemma obind_ext {A B} (m m' : outcome A) (k k' : A -> outcome B) : m = m' -> (forall a, m = Ret a -> k a = k' a) -> obind m k = obind m' k'.
Proof. intros <- H. destruct m; cbn; [by apply H|done|done]. Qed.

(** ** Buffers that differ in front of a position *)

Section Local.
Context {FT : FloatText} (a a' l : list Z) (Ha : length a = length a').
Let b := a ++ l.
Let b' := a' ++ l.

Lemma lens : length b' = length b.
Proof. unfold b, b'. rewrite !length_app. lia. Qed.

Lemma at_eq i : len a <= i -> at_ b' i = at_ b i.
Proof.
  intros H. unfold at_. destruct (Z.ltb_spec i 0); [done|]. f_equal. unfold b, b'. rewrite !lookup_app_r by lia. by rewrite Ha.
Qed.

Lemma sub_eq lo hi : len a <= lo -> sub b' lo hi = sub b lo hi.
Proof.
  intros H. unfold sub. rewrite lens. destruct ((0 <=? lo) && (lo <=? hi) && (hi <=? len b)); [|done]. do 2 f_equal. unfold b, b'. rewrite !drop_app_ge by lia. by rewrite Ha.
Qed.

(** The same test on both sides. *)
Ltac both := match goal with |- (if ?c then _ else _) = (if ?c then _ else _) => destruct c eqn:? end.

Lemma skip_eq i : forall fuel, len a <= i -> skip_loop fuel b' i = skip_loop fuel b i.
Proof.
  intros fuel. revert i. induction fuel as [|fuel IH]; intros i Hi; cbn [skip_loop]; [done|]. rewrite lens, at_eq by lia. both; [|done].
  apply obind_ext; [done|]. intros c _. both; [done|]. apply IH. lia.
Qed.

Lemma number_eq start fuel : forall i int uns dec sci, len a + 1 <= start <= i ->
  number_loop fuel b' start i int uns dec sci = number_loop fuel b start i int uns dec sci.
Proof.
  induction fuel as [|fuel IH]; intros i int uns dec sci Hi; cbn [number_loop]; [done|]. rewrite lens, !at_eq by lia. both; [done|].
  apply obind_ext; [done|]. intros c _. both; [done|]. both; [apply IH; lia|]. both; [apply IH; lia|]. both; [done|]. cbv zeta. both; [apply IH; lia|].
  apply obind_ext; [done|]. intros exp _. both; [apply IH; lia|]. both; [done|]. both; [done|]. apply IH. lia.
Qed.

Lemma scanNumber_eq start : len a + 1 <= start < len b -> scanNumber b' start = scanNumber b start.
Proof.
  intros Hs. unfold scanNumber. rewrite lens, !at_eq by lia. apply obind_ext; [done|]. intros neg Hneg. cbv zeta. both; [done|].
  apply obind_ext; [apply number_eq; destruct neg; lia|]. intros n Hn. rewrite number_eq in Hn by (destruct neg; lia).
  assert (Hend : start <= n_end n).
  { pose proof (number_loop_returns b start (S (length b)) (if neg then start + 1 else start) false false false false) as H. rewrite Hn in H. cbn in H.
    destruct neg; lia. }
  both; [done|]. apply obind_ext; [done|]. intros c _. both; [done|]. unfold check_int, check_uint, check_float. by rewrite !sub_eq, !at_eq by lia.
Qed.

Lemma boolean_eq fuel : forall i, len a <= i -> boolean_loop fuel b' i = boolean_loop fuel b i.
Proof.
  induction fuel as [|fuel IH]; intros i Hi; cbn [boolean_loop]; [done|]. rewrite lens, at_eq by lia. both; [done|]. apply obind_ext; [done|]. intros c _. both; [done|]. apply IH. lia.
Qed.
Lemma scanBoolean_eq start : len a <= start -> scanBoolean b' start = scanBoolean b start.
Proof.
  intros Hs. unfold scanBoolean. rewrite lens, !at_eq by lia. apply obind_ext; [done|]. intros bad _. both; [done|].
  apply obind_ext; [apply boolean_eq; lia|]. intros i _. rewrite !sub_eq by lia. done.
Qed.

(** The byte in front of the common part is no backslash on both sides. *)
Context (Hp : pb a = false) (Hp' : pb a' = false) (Hne : a <> []).

Lemma at_front : exists x y, at_ b (len a - 1) = Ret x /\ at_ b' (len a - 1) = Ret y /\ (x =? bslash) = false /\ (y =? bslash) = false.
Proof.
  destruct (at_prev a l Hne) as (x & E1 & H1). destruct (at_prev a' l) as (y & E2 & H2); [intros ->; by destruct a|].
  exists x, y. rewrite <- Ha in E2. split_and!; [done|done|congruence|congruence].
Qed.

Lemma fields_eq fuel : forall i q e m, len a + 1 <= i -> fields_loop fuel b' i q e m = fields_loop fuel b i q e m.
Proof.
  induction fuel as [|fuel IH]; intros i q e m Hi; cbn [fields_loop]; [done|]. rewrite lens, !at_eq by lia. both; [done|]. apply obind_ext; [done|]. intros c _.
  both; [apply IH; lia|]. both; [apply IH; lia|]. both.
  - cbv zeta. apply obind_ext; [done|]. intros p _. apply obind_ext.
    { both; [|done]. destruct (Z.eq_dec i (len a + 1)) as [->|Hn]; [|by rewrite at_eq by lia].
      destruct at_front as (x & y & E1 & E2 & H1 & H2). replace (len a + 1 - 2) with (len a - 1) by lia. rewrite E1, E2. cbn [obind]. by rewrite H1, H2. }
    intros empty _. both; [done|]. both; [done|]. apply obind_ext; [apply at_eq; lia|]. intros n _. both; [done|]. both.
    { apply obind_ext; [apply scanNumber_eq; lia|]. intros j Hj. rewrite scanNumber_eq in Hj by lia. apply IH.
      assert (H : 1 <= i + 1 < len b) by lia. apply scanNumber_returns in H. rewrite Hj in H. cbn in H. lia. }
    both; [|apply IH; lia]. apply obind_ext; [apply scanBoolean_eq; lia|]. intros r Hr. rewrite scanBoolean_eq in Hr by lia. apply IH.
    assert (H : 0 <= i + 1 < len b) by lia. apply scanBoolean_returns in H. rewrite Hr in H. cbn in H. lia.
  - both; [done|]. apply IH. lia.
Qed.

Lemma scanFields_eq c : l !! O = Some c -> c = space -> scanFields b' (len a) = scanFields b (len a).
Proof.
  intros Hc ->. assert (Hs : b !! length a = Some space) by (unfold b; rewrite lookup_app_r by lia; by rewrite Nat.sub_diag).
  assert (Hl : len a < len b) by (apply lookup_lt_Some in Hs; lia).
  unfold scanFields, skipWhitespace. rewrite lens, skip_eq by lia. apply obind_ext; [done|]. intros start Hst.
  destruct (skip_returns b (len a)) as (j & E & H1 & H2); [lia|]. unfold skipWhitespace in E. rewrite E in Hst. injection Hst as <-.
  rewrite Nat2Z.id in H2. specialize (H2 Hs). rewrite fields_eq by lia. apply obind_ext; [done|]. intros [[[i q] e] m] _. by rewrite sub_eq by lia.
Qed.

Lemma time_eq start fuel : forall i, len a <= i -> time_loop fuel b' start i = time_loop fuel b start i.
Proof.
  induction fuel as [|fuel IH]; intros i Hi; cbn [time_loop]; [done|]. rewrite lens, at_eq by lia. both; [done|]. apply obind_ext; [done|]. intros c _.
  both; [done|]. both; [apply IH; lia|]. both; [done|]. apply IH. lia.
Qed.
Lemma scanTime_eq pos : len a <= pos <= len b -> scanTime b' pos = scanTime b pos.
Proof.
  intros Hpos. unfold scanTime, skipWhitespace. rewrite lens, skip_eq by lia. apply obind_ext; [done|]. intros start Hst.
  destruct (skip_returns b pos) as (j & E & H1 & _); [lia|]. unfold skipWhitespace in E. rewrite E in Hst. injection Hst as <-.
  apply obind_ext; [apply time_eq; lia|]. intros i _. by rewrite sub_eq by lia.
Qed.
End Local.

(** ** Whole lines *)

(** The end of a key is not escaped. *)
Lemma good_name_pb m : good_name m = true -> pb m = false /\ m <> [].
Proof. destruct m as [|c m]; [done|]. cbn [good_name]. intros [_ H]%andb_prop. split; [|done]. apply (clean_pb blockstop [c] m). by rewrite <- (pb_snoc [] c) in H. Qed.

Lemma good_value_pb pre v : good_value v = true -> pb (pre ++ v) = false.
Proof.
  destruct v as [|c v]; [done|]. cbn [good_value]. intros [_ H]%andb_prop. rewrite cons_snoc. apply (clean_pb tagstop). by rewrite pb_snoc.
Qed.

Lemma key_pb ts : forall pre, pb pre = false -> forallb good_tag ts = true -> pb (pre ++ flat ts) = false.
Proof.
  induction ts as [|t ts IH]; intros pre Hp H; [change (flat []) with (@nil Z); by rewrite app_nil_r|]. cbn in H. apply andb_prop in H as [Ht H].
  rewrite flat_cons. change (comma :: text t ++ flat ts) with ((comma :: text t) ++ flat ts). rewrite app_assoc. apply IH; [|done].
  apply andb_prop in Ht as [_ Hv]. unfold text. replace (pre ++ comma :: t.1 ++ equal :: t.2) with ((pre ++ comma :: t.1 ++ [equal]) ++ t.2) by app_eq.
  by apply good_value_pb.
Qed.

Lemma find_reserved ts k : List.find is_reserved (keys_of ts) = Some k -> k ∈ keys_of ts /\ is_reserved k = true.
Proof. intros [H1 H2]%List.find_some. split; [by apply list_elem_of_In|done]. Qed.

(** C9. The order of the tags in a line does not matter: lines with the same
    measurement, the same tags in any order and the same fields and timestamp
    are parsed to the same point, or refused with the same error, except that
    when several of the tags have reserved keys, either line is refused with
    the error that names the one that comes first in it.  Measurement, tag
    keys and tag values are given as they are written in the line: not empty,
    with their delimiters escaped and no open escape at the end, the
    measurement without leading blanks.  Numbers and
    text in the other errors come from what the lines have in common, and are
    left out. *)
Theorem tag_order_irrelevant {FT : FloatText} (m r : list Z) (ts ts' : list (list Z * list Z)) (defaultTime : Z) (precision : string) :
  good_name m = true -> Forall (fun c => c <> space /\ c <> 9 /\ c <> 0) (take 1 m) -> forallb good_tag ts = true -> ts ≡ₚ ts' ->
  let line := m ++ flat ts ++ space :: r in
  let line' := m ++ flat ts' ++ space :: r in
  parsePoint line defaultTime precision = parsePoint line' defaultTime precision \/
  exists k k', k ∈ keys_of ts /\ k' ∈ keys_of ts /\ is_reserved k = true /\ is_reserved k' = true /\ k <> k' /\
    parsePoint line defaultTime precision = Fail (reserved_error k) /\ parsePoint line' defaultTime precision = Fail (reserved_error k').
Proof.
  intros Hm Hw Hts Hperm. assert (Hskip : forall l, skipWhitespace (m ++ l) 0 = Ret 0).
  { intros l. destruct m as [|c m']; [done|]. inversion Hw as [|? ? (H1 & H2 & H3) _]; subst. by apply (skip_none [] c (m' ++ l)). }
  pose proof (forallb_perm good_tag _ _ Hperm) as Hts'. rewrite Hts in Hts'. symmetry in Hts'.
  pose proof (scanKey_run [] m ts r (Hskip _) Hm Hts) as E1. pose proof (scanKey_run [] m ts' r (Hskip _) Hm Hts') as E2. cbn [app length] in E1, E2.
  assert (Hfl : length (flat ts') = length (flat ts)) by (unfold flat; by rewrite Hperm). rewrite Hfl in E2.
  assert (Hk : keys_of ts' ≡ₚ keys_of ts) by (unfold keys_of; by rewrite Hperm). cbv zeta.
  destruct (List.find is_reserved (keys_of ts)) as [k|] eqn:F1.
  { assert (exists k', List.find is_reserved (keys_of ts') = Some k') as [k' F2].
    { destruct (List.find is_reserved (keys_of ts')) as [k'|] eqn:F2; [by exists k'|]. apply find_existsb in F2. rewrite (existsb_perm _ _ _ Hk) in F2.
      apply find_existsb in F2. congruence. }
    unfold parsePoint. rewrite E1, E2. unfold key_result. rewrite F1, F2. cbn [obind]. destruct (decide (k = k')) as [->|Hkk]; [by left|]. right. exists k, k'.
    apply find_reserved in F1 as [? ?], F2 as [H2 ?]. rewrite Hk in H2. done. }
  left. assert (F2 : List.find is_reserved (keys_of ts') = None) by (apply find_existsb; rewrite (existsb_perm _ _ _ Hk); by apply find_existsb).
  assert (Ek : key_result (Z.of_nat 0 + len m + len (flat ts)) m ts' = key_result (Z.of_nat 0 + len m + len (flat ts)) m ts).
  { unfold key_result. rewrite F1, F2. rewrite (bool_decide_ext (NoDup (keys_of ts')) (NoDup (keys_of ts))) by (by rewrite Hk). case_bool_decide as Hn; [|done]. do 4 f_equal. symmetry. by apply sort_raw_Permutation. }
  unfold parsePoint. rewrite E1, E2, Ek. apply obind_ext; [done|]. intros [pos key] Hkey.
  assert (Epos : pos = len (m ++ flat ts)).
  { unfold key_result in Hkey. rewrite F1 in Hkey. destruct (bool_decide _); [|done]. injection Hkey as <- _. rewrite len_app. lia. }
  cbn [fst snd]. destruct (length key =? 0)%nat; [done|]. destruct (_ <? _); [done|].
  destruct (good_name_pb m Hm) as [Hpm Hmne]. assert (Hne : m ++ flat ts <> []) by (by destruct m).
  assert (Ha : length (m ++ flat ts) = length (m ++ flat ts')) by (rewrite !length_app; lia). rewrite !app_assoc, Epos.
  pose proof (key_pb ts m Hpm Hts) as Hp1. pose proof (key_pb ts' m Hpm Hts') as Hp2.
  assert (Ef : scanFields ((m ++ flat ts') ++ space :: r) (len (m ++ flat ts)) = scanFields ((m ++ flat ts) ++ space :: r) (len (m ++ flat ts))) by (by apply (scanFields_eq _ _ _ Ha Hp1 Hp2 Hne space)).
  rewrite Ef. apply obind_ext; [done|]. intros [pos' fields] Hf. cbn [fst snd]. destruct (length fields =? 0)%nat; [done|]. apply obind_ext; [done|]. intros err _.
  destruct err; [done|]. cbv zeta. assert (Hl : len ((m ++ flat ts') ++ space :: r) = len ((m ++ flat ts) ++ space :: r)) by (rewrite !len_app; lia). rewrite Hl.
  assert (Hpos' : len (m ++ flat ts) <= pos' <= len ((m ++ flat ts) ++ space :: r)).
  { pose proof (scanFields_returns ((m ++ flat ts) ++ space :: r) (len (m ++ flat ts))) as H. rewrite Hf in H. cbn in H. apply H; [|by rewrite Nat2Z.id, list_lookup_middle].
    rewrite !len_app. cbn [length]. destruct m; [done|cbn; lia]. }
  rewrite <- (scanTime_eq _ _ (space :: r) Ha pos' Hpos') at 1. apply obind_ext; [done|]. intros [pos'' ts0] Ht. destruct (length ts0 =? 0)%nat; [done|].
  destruct (ParseInt ts0) as [n|]; [|done]. apply obind_ext; [done|]. intros t _. apply obind_ext; [|done]. destruct (_ <? _) eqn:El; [|done]. unfold from. rewrite Hl.
  symmetry. apply (sub_eq _ _ _ Ha). pose proof (scanTime_returns ((m ++ flat ts) ++ space :: r) pos') as H. rewrite <- (scanTime_eq _ _ (space :: r) Ha pos' Hpos'), Ht in H. cbn in H. lia.
Qed.

(** Floats as the decimal of their bits, to run the functions on. *)
Definition bit_floats : FloatText :=
  {| ParseFloat := DQueue.DQueue.ParseUint; AppendFloat64 := WalLog.WalLog.decimal 20; AppendFloat32 := WalLog.WalLog.decimal 20 |}.

Lemma tag_order_irrelevant_witness :
  exists p, @parsePoint bit_floats (bytes_of "cpu,host=a,az=b v=1i 5") 0 "n" = Ret p /\ p_key p = bytes_of "cpu,az=b,host=a" /\
    @parsePoint bit_floats (bytes_of "cpu,az=b,host=a v=1i 5") 0 "n" = Ret p.
Proof.
  pose proof (@tag_order_irrelevant bit_floats (bytes_of "cpu") (bytes_of "v=1i 5") [(bytes_of "host", bytes_of "a"); (bytes_of "az", bytes_of "b")]
    [(bytes_of "az", bytes_of "b"); (bytes_of "host", bytes_of "a")] 0 "n" ltac:(reflexivity) ltac:(repeat constructor; vm_compute; congruence) ltac:(reflexivity) ltac:(constructor)) as E. cbv zeta in E.
  change (bytes_of "cpu" ++ flat [(bytes_of "host", bytes_of "a"); (bytes_of "az", bytes_of "b")] ++ space :: bytes_of "v=1i 5") with (bytes_of "cpu,host=a,az=b v=1i 5") in E.
  change (bytes_of "cpu" ++ flat [(bytes_of "az", bytes_of "b"); (bytes_of "host", bytes_of "a")] ++ space :: bytes_of "v=1i 5") with (bytes_of "cpu,az=b,host=a v=1i 5") in E.
  destruct E as [E|(k & k' & _ & _ & _ & _ & _ & E & _)]; [|vm_compute in E; discriminate E]. rewrite E. eexists. split; [vm_compute; reflexivity|]. split; vm_compute; reflexivity.
Defined.

(** Either order of two reserved keys has its own error. *)
Example reserved_keys_in_order :
  @parsePoint bit_floats (bytes_of "cpu,time=a,_field=b v=1i") 0 "n" = Fail (reserved_error reservedTimeTagKey) /\
  @parsePoint bit_floats (bytes_of "cpu,_field=b,time=a v=1i") 0 "n" = Fail (reserved_error reservedFieldTagKey).
Proof. by vm_compute. Qed.
End PointsOrder.
