(* ===== verification/PointsText.v ===== *)
(** * The text of points

    Escaping and unescaping, and what the scanners do on escaped text: lemmas
    for the round trip of points through their text. *)
From S2P Require Import Prelude Ring WalLog TsmIndex TsmIndexSpec Points PointsScan PointsKey PointsSafe.
From stdpp Require Import gmap sorting.
#[global] Open Scope Z_scope.

Module PointsText.
Import Ring TsmIndex TsmIndex.Bytes TsmIndexSpec Points PointsScan PointsKey PointsSafe.

(** ** Escaping *)

(** Puts a backslash in front of the bytes in [s]. *)
Definition esc (s : Z -> bool) (l : list Z) : list Z := l ≫= fun c => if s c then [bslash; c] else [c].

Lemma esc_nil s : esc s [] = [].
Proof. done. Qed.
Lemma esc_cons s c l : esc s (c :: l) = (if s c then [bslash; c] else [c]) ++ esc s l.
Proof. done. Qed.
Lemma esc_none s l : Forall (fun c => s c = false) l -> esc s l = l.
Proof. induction 1 as [|c l Hc _ IH]; [done|]. rewrite esc_cons, Hc, IH. done. Qed.
Lemma esc_ext s s' l : (forall c, s c = s' c) -> esc s l = esc s' l.
Proof. intros H. induction l as [|c l IH]; [done|]. by rewrite !esc_cons, H, IH. Qed.
Lemma esc_ne s l : l <> [] -> esc s l <> [].
Proof. destruct l as [|c l]; [done|]. rewrite esc_cons. by destruct (s c). Qed.
Lemma esc_esc s1 s2 l : s2 bslash = false -> (forall c, s1 c = true -> s2 c = false) -> esc s2 (esc s1 l) = esc (fun c => s1 c || s2 c) l.
Proof.
  intros Hb Hd. induction l as [|c l IH]; [done|]. rewrite !esc_cons. destruct (s1 c) eqn:E; cbn [orb].
  - cbn [app]. rewrite !esc_cons, Hb, (Hd c E). cbn [app]. by rewrite IH.
  - cbn [app]. by rewrite esc_cons, IH.
Qed.

Lemma Replace_one c : forall l, Replace l [c] [bslash; c] = esc (Z.eqb c) l.
Proof.
  intros l. unfold Replace. induction l as [|x l IH]; [done|]. cbn [length replace_loop take drop]. rewrite esc_cons, <- IH.
  destruct (Z.eqb_spec c x) as [->|Hn]; [by rewrite bool_decide_eq_true_2|]. rewrite bool_decide_eq_false_2 by congruence. done.
Qed.

Lemma has_spec l c : has l c = true <-> c ∈ l.
Proof.
  unfold has. rewrite existsb_exists. split; [intros (x & Hx & ->%Z.eqb_eq); by apply list_elem_of_In|]. intros H. exists c. split; [by apply list_elem_of_In|apply Z.eqb_refl].
Qed.

Lemma escape_step s l c : (if has (esc s l) c then Replace (esc s l) [c] [bslash; c] else esc s l) = esc (Z.eqb c) (esc s l).
Proof.
  rewrite Replace_one. destruct (has (esc s l) c) eqn:E; [done|]. symmetry. apply esc_none, Forall_forall. intros x Hx. apply Z.eqb_neq. intros <-.
  apply has_spec in Hx. congruence.
Qed.

Lemma escape_with_step codes s l c : escape_with (c :: codes) (esc s l) = escape_with codes (esc (Z.eqb c) (esc s l)).
Proof. unfold escape_with. cbn [foldl]. by rewrite escape_step. Qed.

Lemma esc_false l : esc (fun _ => false) l = l.
Proof. apply esc_none, Forall_true. done. Qed.

Lemma esc_distinct c d l : c <> bslash -> c <> d -> esc (Z.eqb c) (esc (Z.eqb d) l) = esc (fun x => (d =? x) || (c =? x)) l.
Proof. intros Hb Hd. apply esc_esc; [by apply Z.eqb_neq|]. intros x <-%Z.eqb_eq. by apply Z.eqb_neq. Qed.

Lemma EscapeMeasurement_esc l : EscapeMeasurement l = esc blockstop l.
Proof.
  unfold EscapeMeasurement, measurementEscapeCodes. rewrite <- (esc_false l) at 1. rewrite !escape_with_step, esc_false, esc_distinct by done.
  apply esc_ext. intros x. unfold blockstop. by rewrite (Z.eqb_sym x comma), (Z.eqb_sym x space).
Qed.

Lemma escapeTag_esc l : escapeTag l = esc tagstop l.
Proof.
  unfold escapeTag, tagEscapeCodes. rewrite <- (esc_false l) at 1. rewrite !escape_with_step, esc_false, esc_distinct by done.
  rewrite esc_esc; [|done|by intros x <-%Z.eqb_eq].
  apply esc_ext. intros x. unfold tagstop. rewrite (Z.eqb_sym x comma), (Z.eqb_sym x space), (Z.eqb_sym x equal). by destruct (comma =? x), (space =? x).
Qed.

(** ** Unescaping *)

Definition no_bslash (l : list Z) : Prop := Forall (fun c => c <> bslash) l.

Lemma replace_loop_two f x y l c : replace_loop (S f) (x :: y :: l) [bslash; c] [c] =
  if bool_decide ([x; y] = [bslash; c]) then c :: replace_loop f l [bslash; c] [c] else x :: replace_loop f (y :: l) [bslash; c] [c].
Proof. done. Qed.
Lemma replace_loop_other f x l c : x <> bslash -> replace_loop (S f) (x :: l) [bslash; c] [c] = x :: replace_loop f l [bslash; c] [c].
Proof. intros H. cbn [replace_loop]. rewrite bool_decide_eq_false_2; [done|]. destruct l; cbn; congruence. Qed.

(** Replacing the escaped form of one of the bytes leaves the others. *)
Lemma replace_esc s c l : s c = true -> no_bslash l -> forall f, (length (esc s l) <= f)%nat ->
  replace_loop f (esc s l) [bslash; c] [c] = esc (fun x => s x && negb (c =? x)) l.
Proof.
  intros Hs Hl. induction Hl as [|x l Hx Hl IH]; intros f Hf; [by destruct f|]. rewrite !esc_cons in *. destruct (s x) eqn:E; cbn [andb].
  - destruct f as [|[|f]]; [cbn in Hf; lia|cbn in Hf; lia|]. cbn [app length] in *. rewrite replace_loop_two. destruct (Z.eqb_spec c x) as [->|Hn]; cbn [negb].
    + rewrite bool_decide_eq_true_2 by done. by rewrite IH by lia.
    + rewrite bool_decide_eq_false_2 by congruence. rewrite replace_loop_other by done. by rewrite IH by lia.
  - destruct f as [|f]; [cbn in Hf; lia|]. cbn [app length] in *. rewrite replace_loop_other by done. by rewrite IH by lia.
Qed.

Lemma has_esc s c l : c <> bslash -> has (esc s l) c = has l c.
Proof.
  intros Hc. induction l as [|x l IH]; [done|]. rewrite esc_cons. unfold has in *. destruct (s x); cbn [app existsb]; rewrite IH; [|done].
  by rewrite (proj2 (Z.eqb_neq c bslash) Hc).
Qed.

Lemma unescape_step s c l : s c = true -> c <> bslash -> no_bslash l ->
  (if has (esc s l) c then Replace (esc s l) [bslash; c] [c] else esc s l) = esc (fun x => s x && negb (c =? x)) l.
Proof.
  intros Hs Hc Hl. unfold Replace. rewrite replace_esc by (done || lia). rewrite has_esc by done. destruct (has l c) eqn:E; [done|].
  assert (Hn : Forall (fun x => x <> c) l) by (apply Forall_forall; intros x Hx ->; apply has_spec in Hx; congruence).
  clear E Hl. induction Hn as [|x l Hx _ IH]; [done|]. rewrite !esc_cons, IH, (proj2 (Z.eqb_neq c x)) by done. by rewrite andb_true_r.
Qed.

Lemma has_bslash_esc s l : no_bslash l -> has (esc s l) bslash = false -> esc s l = l.
Proof.
  intros Hl. induction Hl as [|x l Hx Hl IH]; [done|]. rewrite esc_cons. destruct (s x); cbn [app]; unfold has; cbn [existsb]; [done|].
  intros [_ H]%orb_false_iff. by rewrite IH.
Qed.

Lemma unescapeTag_esc l : no_bslash l -> unescapeTag (esc tagstop l) = l.
Proof.
  intros Hl. unfold unescapeTag, unescape_with. destruct (has (esc tagstop l) bslash) eqn:E; cbn [negb]; [|by apply has_bslash_esc].
  unfold tagEscapeCodes. cbn [foldl]. rewrite unescape_step by done. rewrite (unescape_step _ space) by done. rewrite (unescape_step _ equal) by done.
  apply esc_none, Forall_true. intros x. unfold tagstop. rewrite (Z.eqb_sym comma), (Z.eqb_sym space), (Z.eqb_sym equal).
  destruct (x =? space), (x =? comma), (x =? equal); done.
Qed.

Lemma has_none l : no_bslash l -> has l bslash = false.
Proof. intros H. destruct (has l bslash) eqn:E; [|done]. apply has_spec in E. by apply (proj1 (Forall_forall _ _) H) in E. Qed.

Lemma unescapeMeasurement_none l : no_bslash l -> unescapeMeasurement l = l.
Proof. intros H. unfold unescapeMeasurement, unescape_with. by rewrite has_none. Qed.

(** [escape.Unescape], when only codes are escaped. *)
Lemma Unescape_loop_esc s l : (forall c, s c = true -> is_code c = true) -> no_bslash l -> forall f, (length (esc s l) <= f)%nat -> Unescape_loop f (esc s l) = l.
Proof.
  intros Hs Hl. induction Hl as [|x l Hx Hl IH]; intros f Hf; [by destruct f|]. rewrite esc_cons in *. destruct (s x) eqn:E; cbn [app length] in *.
  - destruct f as [|f]; [lia|]. cbn [Unescape_loop]. rewrite Z.eqb_refl, (Hs x E). cbn [andb]. by rewrite IH by lia.
  - destruct f as [|f]; [lia|]. cbn [Unescape_loop]. destruct (esc s l) as [|d l'] eqn:El; [|rewrite (proj2 (Z.eqb_neq x bslash) Hx); cbn [andb]; by rewrite IH by (cbn in *; lia)].
    destruct l as [|y l]; [done|]. rewrite esc_cons in El. by destruct (s y).
Qed.

Lemma Unescape_esc s l : (forall c, s c = true -> is_code c = true) -> no_bslash l -> Unescape (esc s l) = l.
Proof.
  intros Hs Hl. unfold Unescape. destruct (has (esc s l) bslash) eqn:E; cbn [negb]; [by apply Unescape_loop_esc|by apply has_bslash_esc].
Qed.

(** [escape.AppendUnescaped] drops the backslashes [escape.String] wrote. *)
Lemma index_byte_none l : no_bslash l -> index_byte l bslash = None.
Proof. induction 1 as [|c l Hc _ IH]; [done|]. cbn [index_byte]. by rewrite (proj2 (Z.eqb_neq c bslash) Hc), IH. Qed.
Lemma index_byte_first l r : no_bslash l -> index_byte (l ++ bslash :: r) bslash = Some (length l).
Proof. induction 1 as [|c l Hc _ IH]; [done|]. cbn [app index_byte]. by rewrite (proj2 (Z.eqb_neq c bslash) Hc), IH. Qed.

Lemma esc_first (s : Z -> bool) (l : list Z) : (exists l1 d l2, l = l1 ++ d :: l2 /\ s d = true /\ Forall (fun c => s c = false) l1) \/ Forall (fun c => s c = false) l.
Proof.
  induction l as [|c l IH]; [by right|]. destruct (s c) eqn:E; [left; by exists [], c, l|]. destruct IH as [(l1 & d & l2 & -> & Hd & Hl)|Hl]; [|right; by constructor].
  left. exists (c :: l1), d, l2. split_and!; [done|done|by constructor].
Qed.
Lemma esc_app s a b : esc s (a ++ b) = esc s a ++ esc s b.
Proof. unfold esc. by rewrite bind_app. Qed.

Lemma AppendUnescaped_loop_esc f : forall dst u l, no_bslash u -> no_bslash l -> (length (u ++ esc is_code l) < f)%nat ->
  AppendUnescaped_loop f dst (u ++ esc is_code l) 0 = dst ++ u ++ l.
Proof.
  induction f as [|f IH]; intros dst u l Hu Hl Hf; [lia|]. cbn [AppendUnescaped_loop]. destruct (Nat.eqb_spec (length (u ++ esc is_code l)) 0) as [E|E].
  { apply nil_length_inv in E. apply app_nil in E as [-> E]. destruct l; [by rewrite !app_nil_r|]. by apply esc_ne with (s := is_code) in E. }
  rewrite drop_0. cbn [Nat.add]. destruct (esc_first is_code l) as [(l1 & d & l2 & -> & Hd & Hl1)|Hn].
  - apply Forall_app in Hl as [Hn1 Hl]. inversion Hl as [|? ? Hdb Hl2]; subst. rewrite esc_app, (esc_none _ l1), esc_cons, Hd in * by done. cbn [app] in *.
    replace (u ++ l1 ++ bslash :: d :: esc is_code l2) with ((u ++ l1) ++ bslash :: d :: esc is_code l2) in * by app_eq.
    rewrite index_byte_first by (by apply Forall_app). replace (length (u ++ l1) + 1)%nat with (S (length (u ++ l1))) by lia.
    rewrite lookup_app_r by lia. replace (S (length (u ++ l1)) - length (u ++ l1))%nat with 1%nat by lia. cbn [lookup list_lookup]. rewrite Hd.
    rewrite take_app_length. replace (drop (S (length (u ++ l1))) ((u ++ l1) ++ bslash :: d :: esc is_code l2)) with ([d] ++ esc is_code l2)
      by (rewrite drop_app_ge by lia; by replace (S (length (u ++ l1)) - length (u ++ l1))%nat with 1%nat by lia).
    rewrite IH; [|by constructor|done|]. { rewrite <- !app_assoc. done. } rewrite !length_app in Hf. cbn in *. lia.
  - rewrite (esc_none _ l) by done. rewrite index_byte_none by (by apply Forall_app). done.
Qed.

Lemma IsEscaped_esc l : no_bslash l -> IsEscaped (esc is_code l) = false -> esc is_code l = l.
Proof.
  intros Hl. induction Hl as [|x l Hx Hl IH]; [done|]. rewrite esc_cons. destruct (is_code x) eqn:E; cbn [app IsEscaped].
  - rewrite Z.eqb_refl, E. done.
  - rewrite (proj2 (Z.eqb_neq x bslash) Hx). intros H. by rewrite IH.
Qed.

Lemma field_key_unescaped k : no_bslash k -> (if IsEscaped (esc is_code k) then AppendUnescaped [] (esc is_code k) else esc is_code k) = k.
Proof.
  intros Hk. destruct (IsEscaped (esc is_code k)) eqn:E; [|by apply IsEscaped_esc]. unfold AppendUnescaped.
  pose proof (AppendUnescaped_loop_esc (S (length (esc is_code k))) [] [] k (Forall_nil_2 _) Hk) as H. cbn [app] in H. apply H. lia.
Qed.

(** Strings: quotes and backslashes are escaped, whatever the string is. *)
Definition strq (c : Z) : bool := (c =? quote) || (c =? bslash).
Lemma EscapeStringField_esc l : EscapeStringField l = esc strq l.
Proof. done. Qed.

Lemma unescapeString_esc l : forall f, (length (esc strq l) <= f)%nat -> unescapeString_loop f (esc strq l) = l.
Proof.
  induction l as [|x l IH]; intros f Hf; [by destruct f|]. rewrite esc_cons in *. change (strq x) with ((x =? quote) || (x =? bslash)) in *. destruct f as [|f]; [by destruct (_ || _); cbn in Hf; lia|].
  destruct (Z.eqb_spec x quote) as [->|Hq]; [|destruct (Z.eqb_spec x bslash) as [->|Hb]]; cbn [orb app length] in *.
  - cbn [unescapeString_loop]. rewrite Z.eqb_refl. cbn [andb Z.eqb bslash quote Pos.eqb]. by rewrite IH by lia.
  - cbn [unescapeString_loop]. rewrite Z.eqb_refl. cbn [andb]. by rewrite IH by lia.
  - cbn [unescapeString_loop]. destruct (esc strq l) as [|d l'] eqn:El.
    + destruct l as [|y l]; [done|]. rewrite esc_cons in El. by destruct (strq y).
    + rewrite (proj2 (Z.eqb_neq x bslash) Hb). cbn [andb]. by rewrite IH by (cbn in *; lia).
Qed.

Lemma esc_strq_none l : has (esc strq l) bslash = false -> esc strq l = l.
Proof.
  induction l as [|x l IH]; [done|]. rewrite esc_cons. change (strq x) with ((x =? quote) || (x =? bslash)). unfold has in *. intros E.
  destruct (Z.eqb_spec x quote) as [->|Hq]; [done|]. destruct (Z.eqb_spec x bslash) as [->|Hb]; [done|]. cbn [orb app existsb] in *.
  apply orb_false_iff in E as [_ E]. by rewrite IH.
Qed.

(** Escaping a string field and unescaping it gives the string back,
    whatever bytes it holds. *)
Lemma string_field_roundtrip (l : list Z) : unescapeStringField (EscapeStringField l) = l.
Proof.
  rewrite EscapeStringField_esc. unfold unescapeStringField. destruct (has (esc strq l) bslash) eqn:E; cbn [negb]; [by apply unescapeString_esc|by apply esc_strq_none].
Qed.

(** ** Escaped text has no byte that stops a scanner *)

Lemma clean_esc (s s' : Z -> bool) l : (forall c, s c = true -> s' c = true) -> s bslash = false -> no_bslash l -> clean s false (esc s' l) = true.
Proof.
  intros Hs Hb Hl. induction Hl as [|x l Hx Hl IH]; [done|]. rewrite esc_cons. destruct (s' x) eqn:E; cbn [app clean].
  - rewrite Hb, Z.eqb_refl, (proj2 (Z.eqb_neq x bslash) Hx), IH. cbn. by rewrite andb_false_r.
  - rewrite (proj2 (Z.eqb_neq x bslash) Hx), IH. destruct (s x) eqn:Ex; [|done]. by rewrite (Hs x Ex) in E.
Qed.

Lemma clean_good_name m : m <> [] -> clean blockstop false m = true -> good_name m = true.
Proof.
  destruct m as [|c m]; [done|]. cbn. rewrite andb_true_r. intros _ [H1 H2]%andb_prop. rewrite H2, andb_true_r. unfold blockstop in H1. by destruct (c =? comma).
Qed.
Lemma clean_good_key k : k <> [] -> clean tagstop false k = true -> good_key k = true.
Proof. destruct k as [|c k]; [done|]. cbn. by rewrite andb_true_r. Qed.
Lemma clean_good_value v : v <> [] -> clean tagstop false v = true -> good_value v = true.
Proof.
  destruct v as [|c v]; [done|]. cbn. rewrite andb_true_r. intros _ [H1 H2]%andb_prop. rewrite H2, andb_true_r. destruct (blockstop c) eqn:E; [|done].
  by rewrite (blockstop_tagstop _ E) in H1.
Qed.

Lemma escaped_name m : m <> [] -> no_bslash m -> good_name (esc blockstop m) = true.
Proof. intros Hm Hb. apply clean_good_name; [by apply esc_ne|]. by apply clean_esc. Qed.
Lemma escaped_tag k v : k <> [] -> v <> [] -> no_bslash k -> no_bslash v -> good_tag (esc tagstop k, esc tagstop v) = true.
Proof.
  intros Hk Hv Hbk Hbv. unfold good_tag. cbn [fst snd]. rewrite clean_good_key, clean_good_value; [done|by apply esc_ne|by apply clean_esc|by apply esc_ne|by apply clean_esc].
Qed.
End PointsText.
