(* ===== verification/PointsWalk.v ===== *)
(** * The loops of the parser on printed fields

    [scanLine], [scanFields] and [scanFieldValue] go over the text of a point
    byte by byte with some state.  These lemmas say how the state changes over
    the parts that printing a point writes. *)
From S2P Require Import Prelude Ring WalLog DQueue DQueueSpec TsmIndex TsmIndexSpec Points PointsScan PointsKey PointsSafe PointsText.
From stdpp Require Import gmap sorting.
#[global] Open Scope Z_scope.

Module PointsWalk.
Import Ring TsmIndex TsmIndex.Bytes TsmIndexSpec Points PointsScan PointsKey PointsSafe PointsText.

(** ** Loops with enough fuel *)

Section Go.
Context {St R : Type} (loop : nat -> list Z -> Z -> St -> outcome R).

(** The loop at position [i] goes on at [j], whatever fuel it has. *)
Definition goes (buf : list Z) (i : Z) (st : St) (j : Z) (st' : St) : Prop :=
  forall fuel, len buf - i < Z.of_nat fuel -> exists fuel', len buf - j < Z.of_nat fuel' /\ loop fuel buf i st = loop fuel' buf j st'.

Lemma goes_refl buf i st : goes buf i st i st.
Proof. intros fuel H. by exists fuel. Qed.
Lemma goes_trans buf i st j st' k st'' : goes buf i st j st' -> goes buf j st' k st'' -> goes buf i st k st''.
Proof. intros H1 H2 fuel Hf. destruct (H1 fuel Hf) as (f & Hf' & ->). by apply H2. Qed.

Context (quiet : St -> Z -> bool) (pair : Z -> bool).
Context (Hquiet : forall pre c post st, quiet st c = true -> goes (pre ++ c :: post) (len pre) st (len pre + 1) st).
Context (Hpair : forall pre c d post st, pair c = true -> goes (pre ++ bslash :: c :: d :: post) (len pre) st (len pre + 2) st).

Lemma goes_quiet l st : Forall (fun c => quiet st c = true) l -> forall pre post, goes (pre ++ l ++ post) (len pre) st (len pre + len l) st.
Proof.
  induction 1 as [|c l Hc _ IH]; intros pre post; [rewrite Z.add_0_r; apply goes_refl|]. eapply goes_trans; [by apply Hquiet|].
  specialize (IH (pre ++ [c]) post). rewrite len_snoc in IH. cbn [app length]. rewrite cons_snoc. by replace (len pre + Z.of_nat (S (length l))) with (len pre + 1 + len l) by lia.
Qed.

Lemma goes_esc s l st : Forall (fun c => s c = true /\ pair c = true \/ s c = false /\ quiet st c = true) l ->
  forall pre d post, goes (pre ++ esc s l ++ d :: post) (len pre) st (len pre + len (esc s l)) st.
Proof.
  induction 1 as [|c l Hc _ IH]; intros pre d post; [rewrite Z.add_0_r; apply goes_refl|]. rewrite esc_cons. destruct Hc as [[-> Hp]|[-> Hq]].
  - assert (Hn : exists d' post', esc s l ++ d :: post = d' :: post') by (destruct (esc s l); by eexists _, _). destruct Hn as (d' & post' & E).
    specialize (IH (pre ++ [bslash; c]) d post). rewrite <- app_assoc in IH |- *. rewrite E in *. cbn [app] in *. eapply goes_trans; [by apply Hpair|].
    replace (len (pre ++ [bslash; c])) with (len pre + 2) in IH by (rewrite len_app; cbn; lia).
    by replace (len pre + len (bslash :: c :: esc s l)) with (len pre + 2 + len (esc s l)) by (cbn [length]; lia).
  - specialize (IH (pre ++ [c]) d post). rewrite <- app_assoc in IH. cbn [app] in *. eapply goes_trans; [by apply Hquiet|]. rewrite len_snoc in IH.
    by replace (len pre + len (c :: esc s l)) with (len pre + 1 + len (esc s l)) by (cbn [length]; lia).
Qed.
End Go.

(** ** Lines *)

Definition lloop (fuel : nat) (buf : list Z) (i : Z) (st : bool * bool * Z * Z) : outcome Z :=
  let '(q, f, e, m) := st in line_loop fuel buf i q f e m.
Definition lquiet (st : bool * bool * Z * Z) (c : Z) : bool :=
  let '(q, f, _, _) := st in
  negb (c =? bslash) &&
  (if q then f && negb (c =? quote)
   else negb (c =? newline) && (if f then negb (c =? equal) && negb (c =? comma) && negb (c =? quote) else negb (c =? space))).

Ltac lgo pre := 
  intros fuel Hf; destruct fuel as [|fuel]; [rewrite len_app in Hf; cbn [length] in Hf; lia|]; exists fuel;
  split; [rewrite ?len_app in *; cbn [length] in *; lia|]; cbn [lloop line_loop]; inside; rewrite at_here; cbn [obind].

Lemma lquiet_step pre c post st : lquiet st c = true -> goes lloop (pre ++ c :: post) (len pre) st (len pre + 1) st.
Proof.
  destruct st as [[[q f] e] m]. unfold lquiet. intros [Hb H]%andb_prop. apply negb_true_iff in Hb. lgo pre. rewrite Hb. cbn [andb]. cbv zeta. destruct q.
  - apply andb_prop in H as [-> Hq%negb_true_iff]. cbn [orb negb andb]. rewrite Hq. cbn [andb]. by rewrite andb_false_r.
  - apply andb_prop in H as [Hn%negb_true_iff H]. rewrite Hn. cbn [negb]. destruct f; cbn [orb andb].
    + rewrite !andb_true_iff, !negb_true_iff in H. destruct H as [[-> ->] ->]. done.
    + apply negb_true_iff in H as ->. done.
Qed.

Lemma lpair_step pre c d post st : goes lloop (pre ++ bslash :: c :: d :: post) (len pre) st (len pre + 2) st.
Proof.
  destruct st as [[[q f] e] m]. lgo pre. rewrite Z.eqb_refl. rewrite (proj2 (Z.ltb_lt _ _)) by (rewrite len_app; cbn [length]; lia). done.
Qed.

Lemma line_space pre post e m : goes lloop (pre ++ space :: post) (len pre) (false, false, e, m) (len pre + 1) (false, true, e, m).
Proof. lgo pre. done. Qed.
Lemma line_space' pre post e m : goes lloop (pre ++ space :: post) (len pre) (false, true, e, m) (len pre + 1) (false, true, e, m).
Proof. lgo pre. done. Qed.
Lemma line_equal pre post e m : goes lloop (pre ++ equal :: post) (len pre) (false, true, e, m) (len pre + 1) (false, true, e + 1, m).
Proof. lgo pre. done. Qed.
Lemma line_comma pre post e m : goes lloop (pre ++ comma :: post) (len pre) (false, true, e, m) (len pre + 1) (false, true, e, m + 1).
Proof. lgo pre. done. Qed.
Lemma line_quote pre post q e m : m < e -> goes lloop (pre ++ quote :: post) (len pre) (q, true, e, m) (len pre + 1) (negb q, true, e, m).
Proof. intros H. lgo pre. rewrite (proj2 (Z.ltb_lt m e)) by done. by destruct q. Qed.

(** ** Fields *)

Section Fields.
Context {FT : FloatText}.

Definition floop (fuel : nat) (buf : list Z) (i : Z) (st : bool * Z * Z) : outcome (Z * bool * Z * Z) :=
  let '(q, e, m) := st in fields_loop fuel buf i q e m.
Definition fquiet (st : bool * Z * Z) (c : Z) : bool :=
  let '(q, _, _) := st in
  negb (c =? bslash) && negb (c =? quote) && (q || (negb (c =? equal) && negb (c =? comma) && negb (c =? space))).

Ltac fgo pre :=
  intros fuel Hf; destruct fuel as [|fuel]; [rewrite len_app in Hf; cbn [length] in Hf; lia|]; exists fuel;
  split; [rewrite ?len_app in *; cbn [length] in *; lia|]; cbn [floop fields_loop]; inside; rewrite at_here; cbn [obind].

Lemma fquiet_step pre c post st : fquiet st c = true -> goes floop (pre ++ c :: post) (len pre) st (len pre + 1) st.
Proof.
  destruct st as [[q e] m]. unfold fquiet. rewrite !andb_true_iff, !negb_true_iff. intros [[Hb Hq] H]. fgo pre. rewrite Hb, Hq. cbn [andb]. destruct q; cbn [negb].
  - by rewrite !andb_false_r.
  - cbn [orb] in H. rewrite !andb_true_iff, !negb_true_iff in H. destruct H as [[-> ->] ->]. done.
Qed.
Lemma fpair_step pre c d post st : goes floop (pre ++ bslash :: c :: d :: post) (len pre) st (len pre + 2) st.
Proof. destruct st as [[q e] m]. fgo pre. rewrite Z.eqb_refl. rewrite (proj2 (Z.ltb_lt _ _)) by (rewrite len_app; cbn [length]; lia). done. Qed.
Lemma fields_comma pre post e m : goes floop (pre ++ comma :: post) (len pre) (false, e, m) (len pre + 1) (false, e, m + 1).
Proof. fgo pre. done. Qed.
Lemma fields_quote pre post q e m : m < e -> goes floop (pre ++ quote :: post) (len pre) (q, e, m) (len pre + 1) (negb q, e, m).
Proof. intros H. fgo pre. cbn [Z.eqb quote bslash Pos.eqb andb]. by rewrite (proj2 (Z.ltb_lt m e)) by done. Qed.
End Fields.

(** ** Field values *)

Definition vloop (fuel : nat) (buf : list Z) (i : Z) (q : bool) : outcome Z := fieldValue_loop fuel buf i q.
Definition vquiet (q : bool) (c : Z) : bool := negb (c =? bslash) && negb (c =? quote) && (q || negb (c =? comma)).

Ltac vgo pre :=
  intros fuel Hf; destruct fuel as [|fuel]; [rewrite len_app in Hf; cbn [length] in Hf; lia|]; exists fuel;
  split; [rewrite ?len_app in *; cbn [length] in *; lia|]; unfold vloop; cbn [fieldValue_loop];
  rewrite (proj2 (Z.ltb_lt _ _)) by (rewrite len_app; cbn [length]; lia); rewrite at_here; cbn [obind].

Lemma vquiet_step pre c post q : vquiet q c = true -> goes vloop (pre ++ c :: post) (len pre) q (len pre + 1) q.
Proof.
  unfold vquiet. rewrite !andb_true_iff, !negb_true_iff. intros [[Hb Hq] H]. vgo pre. rewrite Hb. cbn [andb obind]. rewrite Hq. destruct q; cbn [negb orb] in *.
  - by rewrite andb_false_r.
  - apply negb_true_iff in H as ->. done.
Qed.
Lemma vpair_step pre c d post q : strq c = true -> goes vloop (pre ++ bslash :: c :: d :: post) (len pre) q (len pre + 2) q.
Proof.
  intros Hc. vgo pre. rewrite Z.eqb_refl. rewrite (proj2 (Z.ltb_lt _ _)) by (rewrite len_app; cbn [length]; lia). cbn [andb].
  rewrite cons_snoc, <- (len_snoc pre bslash), at_here. cbn [obind]. unfold strq in Hc. by rewrite Hc.
Qed.
Lemma value_quote pre post q : goes vloop (pre ++ quote :: post) (len pre) q (len pre + 1) (negb q).
Proof. vgo pre. done. Qed.

(** ** Numbers *)

Definition is_digit (c : Z) : Prop := 48 <= c <= 57.
(** The text behind a value: the end of the buffer, a comma or a space. *)
Definition ends (rest : list Z) : Prop := match rest with [] => True | c :: _ => blockstop c = true end.

Lemma decimal_digits f n : 0 <= n -> Forall is_digit (WalLog.WalLog.decimal f n).
Proof.
  revert n. induction f as [|f IH]; intros n Hn; cbn [WalLog.WalLog.decimal]; [constructor|]. destruct (Z.ltb_spec n 10).
  - apply Forall_singleton. unfold is_digit. lia.
  - apply Forall_app. split; [apply IH, Z.div_pos; lia|]. apply Forall_singleton. unfold is_digit. pose proof (Z.mod_pos_bound n 10). lia.
Qed.
Lemma decimal_ne n : WalLog.WalLog.decimal 20 n <> [].
Proof. cbn [WalLog.WalLog.decimal]. destruct (n <? 10); [done|]. apply snoc_ne. Qed.

Lemma ParseUint_decimal n : is_u64 n -> DQueue.DQueue.ParseUint (WalLog.WalLog.decimal 20 n) = Some n.
Proof. apply DQueueSpec.ParseUint_Format. Qed.

Lemma ParseInt_FormatInt n : is_i64 n -> ParseInt (FormatInt n) = Some n.
Proof.
  intros Hn. unfold FormatInt, is_i64 in *. destruct (Z.ltb_spec n 0).
  - cbn [ParseInt]. rewrite Z.eqb_refl. cbn [orb]. rewrite ParseUint_decimal by (unfold is_u64; lia). cbn [mbind option_bind negb andb].
    rewrite (proj2 (Z.ltb_ge _ _)) by lia. f_equal. lia.
  - pose proof (ParseUint_decimal n ltac:(unfold is_u64; lia)) as E. pose proof (decimal_digits 20 n H) as Hd. destruct (WalLog.WalLog.decimal 20 n) as [|c l] eqn:El; [by apply decimal_ne in El|].
    inversion Hd as [|? ? Hc _]; subst. unfold is_digit in Hc. unfold ParseInt. rewrite !(proj2 (Z.eqb_neq c _)) by lia. cbn [orb]. rewrite E. cbn [mbind option_bind negb andb].
    by rewrite (proj2 (Z.leb_gt _ _)) by lia.
Qed.

Section Numbers.
Context {FT : FloatText} (start : Z).

Definition nloop (fuel : nat) (buf : list Z) (i : Z) (st : bool * bool * bool) : outcome number :=
  let '(int, uns, dec) := st in number_loop fuel buf start i int uns dec false.
Definition nquiet (st : bool * bool * bool) (c : Z) : bool := (48 <=? c) && (c <=? 57).

Ltac ngo pre :=
  intros fuel Hf; destruct fuel as [|fuel]; [rewrite len_app in Hf; cbn [length] in Hf; lia|]; exists fuel;
  split; [rewrite ?len_app in *; cbn [length] in *; lia|]; cbn [nloop number_loop]; inside; rewrite at_here; cbn [obind].

Lemma nquiet_step pre c post st : nquiet st c = true -> goes nloop (pre ++ c :: post) (len pre) st (len pre + 1) st.
Proof.
  destruct st as [[int uns] dec]. unfold nquiet. intros Hc. assert (Hn : isNumeric c = true) by (unfold isNumeric; by rewrite Hc).
  apply andb_prop in Hc as [H1%Z.leb_le H2%Z.leb_le]. ngo pre. unfold comma, space. rewrite !(proj2 (Z.eqb_neq c _)) by lia. cbn [orb andb]. rewrite !andb_false_r. cbn [obind].
  rewrite Hn. cbn [negb]. by rewrite orb_false_r.
Qed.
Lemma number_dot pre post int uns : goes nloop (pre ++ 46 :: post) (len pre) (int, uns, false) (len pre + 1) (int, uns, true).
Proof. ngo pre. cbn [Z.eqb comma space Pos.eqb orb andb]. rewrite andb_false_r. cbn [obind]. by rewrite andb_false_r. Qed.
Lemma number_int pre post dec : start < len pre -> goes nloop (pre ++ 105 :: post) (len pre) (false, false, dec) (len pre + 1) (true, false, dec).
Proof. intros H. ngo pre. by rewrite (proj2 (Z.ltb_lt _ _)) by done. Qed.
Lemma number_uint pre post dec : start < len pre -> goes nloop (pre ++ 117 :: post) (len pre) (false, false, dec) (len pre + 1) (false, true, dec).
Proof. intros H. ngo pre. by rewrite (proj2 (Z.ltb_lt _ _)) by done. Qed.
Lemma number_end pre rest st fuel : ends rest -> (0 < fuel)%nat ->
  nloop fuel (pre ++ rest) (len pre) st = Ret (MkNumber (len pre) st.1.1 st.1.2 st.2 false).
Proof.
  intros He Hf. destruct st as [[int uns] dec]. destruct fuel as [|fuel]; [lia|]. cbn [nloop number_loop fst snd]. destruct rest as [|c rest].
  - by outside.
  - inside. rewrite at_here. cbn [obind]. cbn in He. unfold blockstop in He. by rewrite He.
Qed.

Lemma number_digits ds pre post st : Forall is_digit ds -> goes nloop (pre ++ ds ++ post) (len pre) st (len pre + len ds) st.
Proof.
  intros H. apply (goes_quiet nloop nquiet nquiet_step). eapply Forall_impl; [exact H|]. intros c [H1 H2]. unfold nquiet. by rewrite (proj2 (Z.leb_le 48 c)), (proj2 (Z.leb_le c 57)).
Qed.

(** Moves the part that was read to the front. *)
Lemma goes_at buf pre post i st j st' : buf = pre ++ post -> i = len pre -> goes nloop (pre ++ post) (len pre) st j st' -> goes nloop buf i st j st'.
Proof. by intros -> ->. Qed.

(** The digits, fraction and suffix of a number. *)
Lemma number_loop_text pre ip fp sfx rest : Forall is_digit ip -> ip <> [] -> (fp = [] \/ exists ds, fp = 46 :: ds /\ Forall is_digit ds) ->
  (sfx = [] \/ sfx = [105] \/ sfx = [117]) -> ends rest -> start <= len pre ->
  forall fuel, len (ip ++ fp ++ sfx ++ rest) < Z.of_nat fuel ->
  number_loop fuel (pre ++ ip ++ fp ++ sfx ++ rest) start (len pre) false false false false =
    Ret (MkNumber (len pre + len (ip ++ fp ++ sfx)) (bool_decide (sfx = [105])) (bool_decide (sfx = [117])) (bool_decide (fp <> [])) false).
Proof.
  intros Hip Hne Hfp Hsfx He Hst fuel Hf.
  assert (H1 : goes nloop (pre ++ ip ++ fp ++ sfx ++ rest) (len pre) (false, false, false) (len (pre ++ ip)) (false, false, false)) by (rewrite len_app; by apply number_digits).
  assert (H2 : goes nloop (pre ++ ip ++ fp ++ sfx ++ rest) (len (pre ++ ip)) (false, false, false) (len (pre ++ ip ++ fp)) (false, false, bool_decide (fp <> []))).
  { rewrite (app_assoc pre). destruct Hfp as [->|(ds & -> & Hds)].
    - rewrite bool_decide_eq_false_2 by (by intros []). rewrite app_nil_r. apply goes_refl.
    - rewrite bool_decide_eq_true_2 by done. eapply goes_trans; [apply number_dot|]. cbn [app]. rewrite cons_snoc. eapply goes_at; [done|by rewrite len_snoc|].
      replace (len (pre ++ ip ++ 46 :: ds)) with (len ((pre ++ ip) ++ [46]) + len ds) by (rewrite !len_app; cbn [length]; lia). by apply number_digits. }
  assert (H3 : goes nloop (pre ++ ip ++ fp ++ sfx ++ rest) (len (pre ++ ip ++ fp)) (false, false, bool_decide (fp <> [])) (len (pre ++ ip ++ fp ++ sfx))
    (bool_decide (sfx = [105]), bool_decide (sfx = [117]), bool_decide (fp <> []))).
  { assert (Hlt : start < len (pre ++ ip ++ fp)) by (rewrite !len_app; destruct ip; [done|cbn [length]; lia]).
    replace (pre ++ ip ++ fp ++ sfx ++ rest) with ((pre ++ ip ++ fp) ++ sfx ++ rest) by app_eq. destruct Hsfx as [->|[->| ->]].
    - change (bool_decide ([] = [105])) with false. change (bool_decide ([] = [117])) with false. rewrite app_nil_r. apply goes_refl.
    - change (bool_decide ([105] = [105])) with true. change (bool_decide ([105] = [117])) with false. replace (len (pre ++ ip ++ fp ++ [105])) with (len (pre ++ ip ++ fp) + 1) by (rewrite !len_app; cbn; lia). by apply number_int.
    - change (bool_decide ([117] = [105])) with false. change (bool_decide ([117] = [117])) with true. replace (len (pre ++ ip ++ fp ++ [117])) with (len (pre ++ ip ++ fp) + 1) by (rewrite !len_app; cbn; lia). by apply number_uint. }
  destruct (goes_trans nloop _ _ _ _ _ _ _ H1 (goes_trans nloop _ _ _ _ _ _ _ H2 H3) fuel) as (fuel' & Hf' & E); [rewrite len_app; lia|].
  change (nloop fuel (pre ++ ip ++ fp ++ sfx ++ rest) (len pre) (false, false, false)) with (number_loop fuel (pre ++ ip ++ fp ++ sfx ++ rest) start (len pre) false false false false) in E.
  rewrite E. replace (pre ++ ip ++ fp ++ sfx ++ rest) with ((pre ++ ip ++ fp ++ sfx) ++ rest) in * by app_eq.
  rewrite number_end; [|done|rewrite !len_app in Hf'; lia]. cbn [fst snd]. do 2 f_equal. by rewrite !len_app; lia.
Qed.
End Numbers.

Section NumberText.
Context {FT : FloatText}.

Definition sign (l : list Z) : Prop := l = [] \/ l = [45].
Definition fraction (l : list Z) : Prop := l = [] \/ exists ds, l = 46 :: ds /\ Forall is_digit ds.

(** The text of an integer, an unsigned integer and a float. *)
Inductive number_text : list Z -> Prop :=
| nt_int sgn ip n : sign sgn -> Forall is_digit ip -> ip <> [] -> ParseInt (sgn ++ ip) = Some n -> number_text (sgn ++ ip ++ [105])
| nt_uint ip n : Forall is_digit ip -> ip <> [] -> DQueue.DQueue.ParseUint ip = Some n -> number_text (ip ++ [117])
| nt_float sgn ip fp b : sign sgn -> Forall is_digit ip -> ip <> [] -> fraction fp -> ParseFloat (sgn ++ ip ++ fp) = Some b -> number_text (sgn ++ ip ++ fp).

Lemma scanNumber_parts pre sgn ip fp sfx rest : sign sgn -> Forall is_digit ip -> ip <> [] -> fraction fp ->
  (sfx = [] \/ fp = [] /\ (sfx = [105] \/ sfx = [117])) -> ends rest ->
  let buf := pre ++ sgn ++ ip ++ fp ++ sfx ++ rest in
  let stop := len pre + len (sgn ++ ip ++ fp ++ sfx) in
  scanNumber buf (len pre) =
    if bool_decide (sfx = [105]) then check_int buf (len pre) stop
    else if bool_decide (sfx = [117]) then check_uint buf (len pre) stop
    else check_float buf (len pre) stop false.
Proof.
  intros Hs Hip Hne Hfp Hsfx He buf stop. assert (Hsfx' : sfx = [] \/ sfx = [105] \/ sfx = [117]) by tauto.
  assert (Hc : exists c r, ip = c :: r /\ is_digit c) by (destruct Hip as [|c r Hc _]; [done|by exists c, r]). destruct Hc as (c & r & Eip & Hc). unfold is_digit in Hc.
  assert (Hloop : forall fuel, len buf < Z.of_nat fuel -> number_loop fuel buf (len pre) (len (pre ++ sgn)) false false false false =
    Ret (MkNumber stop (bool_decide (sfx = [105])) (bool_decide (sfx = [117])) (bool_decide (fp <> [])) false)).
  { intros fuel Hf. unfold buf in *. rewrite (app_assoc pre) in *. rewrite number_loop_text; [|done|done|done|done|done|rewrite len_app; lia|rewrite len_app in Hf; lia].
    do 2 f_equal. unfold stop. rewrite !len_app. lia. }
  assert (Hlen : len pre < len buf) by (unfold buf; rewrite !len_app, Eip; cbn [length]; lia).
  assert (Hst : exists d, at_ buf (len pre) = Ret d /\ (d =? 45) = bool_decide (sgn = [45])).
  { unfold buf. destruct Hs as [->| ->]; [rewrite Eip; exists c; cbn [app]; split; [apply at_here|]; rewrite bool_decide_eq_false_2 by done; apply Z.eqb_neq; lia|].
    exists 45. split; [apply at_here|by rewrite bool_decide_eq_true_2]. }
  destruct Hst as (d & Ed & Hd). unfold scanNumber. rewrite (proj2 (Z.ltb_lt _ _)) by done. rewrite Ed. cbn [obind]. rewrite Hd. cbv zeta.
  assert (Ei : (if bool_decide (sgn = [45]) then len pre + 1 else len pre) = len (pre ++ sgn)).
  { rewrite len_app. destruct Hs as [->| ->]; [rewrite bool_decide_eq_false_2 by done; cbn; lia|rewrite bool_decide_eq_true_2 by done; cbn; lia]. }
  rewrite Ei. assert (Hlt : len (pre ++ sgn) < len buf) by (unfold buf; rewrite !len_app, Eip; cbn [length]; lia).
  rewrite (proj2 (Z.eqb_neq _ _)), andb_false_r by lia. rewrite Hloop by lia. cbn [obind isInt isUnsigned decimal_ scientific n_end].
  assert (Hcond : (bool_decide (sfx = [105]) || bool_decide (sfx = [117])) && (bool_decide (fp <> []) || false) = false).
  { destruct Hsfx as [->|[-> _]]; [done|]. rewrite (bool_decide_eq_false_2 (_ <> [])) by (by intros []). by rewrite andb_false_r. }
  rewrite Hcond. cbn [obind]. match goal with |- (if ?x =? 0 then _ else _) = _ => assert (Hx : x <> 0) end.
  { unfold stop. rewrite !len_app, Eip. cbn [length]. destruct Hs as [->| ->], Hfp as [->|(ds & -> & _)], Hsfx' as [->|[->| ->]]; repeat case_bool_decide; try done; cbn [length]; lia. }
  by rewrite (proj2 (Z.eqb_neq _ _) Hx).
Qed.

Lemma scanNumber_text pre t rest : number_text t -> ends rest -> scanNumber (pre ++ t ++ rest) (len pre) = Ret (len pre + len t).
Proof.
  intros [sgn ip n Hs Hip Hne Hp|ip n Hip Hne Hp|sgn ip fp b Hs Hip Hne Hfp Hp] He.
  - pose proof (scanNumber_parts pre sgn ip [] [105] rest Hs Hip Hne (or_introl eq_refl) (or_intror (conj eq_refl (or_introl eq_refl))) He) as E. cbn [app] in E. cbv zeta in E.
    replace ((sgn ++ ip ++ [105]) ++ rest) with (sgn ++ ip ++ 105 :: rest) by app_eq. rewrite E. change (bool_decide ([105] = [105])) with true. cbv iota. unfold check_int.
    replace (pre ++ sgn ++ ip ++ 105 :: rest) with ((pre ++ sgn ++ ip) ++ 105 :: rest) by app_eq.
    replace (len pre + len (sgn ++ ip ++ [105]) - 1) with (len (pre ++ sgn ++ ip)) by (rewrite !len_app; cbn; lia). rewrite at_here. cbn [obind Z.eqb Pos.eqb negb].
    replace (len (pre ++ sgn ++ ip)) with (len pre + len (sgn ++ ip)) by (rewrite !len_app; lia). rewrite <- app_assoc, sub_middle. cbn [obind]. rewrite Hp. by destruct (_ || _).
  - pose proof (scanNumber_parts pre [] ip [] [117] rest (or_introl eq_refl) Hip Hne (or_introl eq_refl) (or_intror (conj eq_refl (or_intror eq_refl))) He) as E. cbn [app] in E. cbv zeta in E.
    replace ((ip ++ [117]) ++ rest) with (ip ++ 117 :: rest) by app_eq. rewrite E. change (bool_decide ([117] = [105])) with false. change (bool_decide ([117] = [117])) with true. cbv iota. unfold check_uint.
    replace (pre ++ ip ++ 117 :: rest) with ((pre ++ ip) ++ 117 :: rest) by app_eq.
    replace (len pre + len (ip ++ [117]) - 1) with (len (pre ++ ip)) by (rewrite !len_app; cbn; lia). rewrite at_here. cbn [obind Z.eqb Pos.eqb negb].
    rewrite <- app_assoc. destruct Hip as [|c r Hc Hr]; [done|]. cbn [app]. rewrite at_here. cbn [obind]. unfold is_digit in Hc. rewrite (proj2 (Z.eqb_neq c 45)) by lia.
    change (pre ++ c :: r ++ 117 :: rest) with (pre ++ (c :: r) ++ 117 :: rest). rewrite len_app, sub_middle. cbn [obind]. rewrite Hp. by destruct (_ <=? _).
  - pose proof (scanNumber_parts pre sgn ip fp [] rest Hs Hip Hne Hfp (or_introl eq_refl) He) as E. cbn [app] in E. cbv zeta in E. rewrite app_nil_r in E.
    replace ((sgn ++ ip ++ fp) ++ rest) with (sgn ++ ip ++ fp ++ rest) by app_eq. rewrite E. change (bool_decide ([] = [105])) with false. change (bool_decide ([] = [117])) with false. cbv iota. unfold check_float.
    replace (pre ++ sgn ++ ip ++ fp ++ rest) with (pre ++ (sgn ++ ip ++ fp) ++ rest) by app_eq. rewrite sub_middle. cbn [obind]. rewrite Hp. by destruct (_ || _).
Qed.

Lemma boolean_loop_text pre t rest fuel : Forall (fun c => blockstop c = false) t -> ends rest -> len (t ++ rest) < Z.of_nat fuel -> boolean_loop fuel (pre ++ t ++ rest) (len pre) = Ret (len pre + len t).
Proof.
  revert pre fuel. induction t as [|c t IH]; intros pre fuel Ht He Hf; (destruct fuel as [|fuel]; [lia|]); cbn [boolean_loop app].
  - destruct rest as [|c rest]; [outside; f_equal; cbn; lia|]. inside. rewrite at_here. cbn [obind]. cbn in He. unfold blockstop in He. rewrite He. f_equal. cbn. lia.
  - inversion Ht as [|? ? Hc Ht']; subst. unfold blockstop in Hc. inside. rewrite at_here. cbn [obind]. rewrite Hc. rewrite cons_snoc, <- (len_snoc pre c), IH by (done || (cbn in Hf; lia)).
    rewrite len_snoc. cbn [length]. f_equal. lia.
Qed.

Lemma scanBoolean_text pre b rest : ends rest -> scanBoolean (pre ++ FormatBool b ++ rest) (len pre) = Ret (len pre + len (FormatBool b), FormatBool b).
Proof.
  intros He. assert (Hc : exists c r, FormatBool b = c :: r /\ Forall (fun c => blockstop c = false) r /\ c = (if b then 116 else 102)) by (destruct b; (eexists _, _; split_and!; [reflexivity|repeat (apply Forall_cons_2; [done|]); apply Forall_nil_2|done])).
  destruct Hc as (c & r & E & Hr & Ec). unfold scanBoolean. rewrite E. cbn [app]. rewrite (proj2 (Z.ltb_lt _ _)) by (rewrite len_app; cbn [length]; lia). rewrite at_here. cbn [obind].
  assert (Hbad : negb (c =? 116) && negb (c =? 102) && negb (c =? 84) && negb (c =? 70) = false) by (subst c; by destruct b). rewrite Hbad.
  rewrite cons_snoc, <- (len_snoc pre c), boolean_loop_text by (done || (rewrite !len_app, !length_app; cbn [length]; lia)). cbn [obind].
  rewrite <- cons_snoc. replace (len (pre ++ [c]) + len r - len pre) with (len (FormatBool b)) by (rewrite E, len_snoc; cbn [length]; lia).
  replace (len (pre ++ [c]) + len r) with (len pre + len (c :: r)) by (rewrite len_snoc; cbn [length]; lia). cbn [obind].
  change (pre ++ c :: r ++ rest) with (pre ++ (c :: r) ++ rest). rewrite sub_middle, <- E. cbn [obind]. subst c. by destruct b.
Qed.
End NumberText.
End PointsWalk.
