(* ===== verification/PointsPrint.v ===== *)
(** * Points and their text

    A point made by [NewPoint] and printed with [String] is parsed back: the
    key, the fields and the time are those of the point, and [Name], [Tags]
    and [Fields] of the parsed point return what the point was made of. *)
From S2P Require Import Prelude Ring WalLog MetaData DQueue DQueueSpec TsmIndex TsmIndexSpec Points PointsScan PointsKey PointsSafe PointsOrder PointsText PointsWalk.
From stdpp Require Import gmap sorting.
#[global] Open Scope Z_scope.

(** What is documented of [strconv]: the format 'f' with the smallest number
    of digits that [ParseFloat] needs to return the same number. *)
Class FloatTextOk (FT : FloatText) := {
  float_text b : is_u64 b -> Points.Points.IsInf64 b = false -> Points.Points.IsNaN64 b = false ->
    exists sgn ip fp, AppendFloat64 b = sgn ++ ip ++ fp /\ PointsWalk.PointsWalk.sign sgn /\
      Forall PointsWalk.PointsWalk.is_digit ip /\ ip <> [] /\ PointsWalk.PointsWalk.fraction fp;
  float_parse b : is_u64 b -> Points.Points.IsInf64 b = false -> Points.Points.IsNaN64 b = false -> ParseFloat (AppendFloat64 b) = Some b }.

Module PointsPrint.
Import Ring TsmIndex TsmIndex.Bytes TsmIndexSpec Points PointsScan PointsKey PointsSafe PointsText PointsWalk.

(** ** Values *)

Section Values.
Context {FT : FloatText} {FTOk : FloatTextOk FT}.

Definition vtext (v : FieldValue) : list Z :=
  match v with
  | FFloat64 b => AppendFloat64 b
  | FInt64 n => FormatInt n ++ [105]
  | FUint64 n => WalLog.WalLog.decimal 20 n ++ [117]
  | FString s => quote :: esc strq s ++ [quote]
  | FBool b => FormatBool b
  | _ => []
  end.
(** The types a line can hold, with values in their range. *)
Definition good_fvalue (v : FieldValue) : Prop :=
  match v with
  | FFloat64 b => is_u64 b /\ IsInf64 b = false /\ IsNaN64 b = false
  | FInt64 n => is_i64 n
  | FUint64 n => is_u64 n
  | FString _ | FBool _ => True
  | _ => False
  end.

Lemma FormatInt_parts n : is_i64 n -> exists sgn ip, FormatInt n = sgn ++ ip /\ sign sgn /\ Forall is_digit ip /\ ip <> [].
Proof.
  intros Hn. unfold FormatInt. destruct (Z.ltb_spec n 0).
  - exists [45], (WalLog.WalLog.decimal 20 (- n)). split_and!; [done|by right|apply decimal_digits; lia|apply decimal_ne].
  - exists [], (WalLog.WalLog.decimal 20 n). split_and!; [done|by left|apply decimal_digits; lia|apply decimal_ne].
Qed.

Definition is_number (v : FieldValue) : Prop := match v with FFloat64 _ | FInt64 _ | FUint64 _ => True | _ => False end.

Lemma number_value v : good_fvalue v -> is_number v -> number_text (vtext v).
Proof.
  destruct v as [x|n|l|x|n|n|n|n|n|n|n|n|n|x|l| |l]; cbn [good_fvalue vtext is_number]; try done; intros H _.
  - destruct H as (H1 & H2 & H3). destruct (float_text x H1 H2 H3) as (sgn & ip & fp & E & Hs & Hi & Hn & Hf). pose proof (float_parse x H1 H2 H3) as Hp.
    rewrite E in *. by eapply nt_float.
  - pose proof (ParseInt_FormatInt n H) as Hp. destruct (FormatInt_parts n H) as (sgn & ip & E & Hs & Hi & Hn). rewrite E, <- app_assoc in *. by eapply nt_int.
  - eapply nt_uint; [apply decimal_digits; unfold is_u64 in H; lia|apply decimal_ne|by apply ParseUint_decimal].
Qed.

Lemma vtext_cases v : good_fvalue v -> number_text (vtext v) \/ (exists b, vtext v = FormatBool b) \/ (exists s, vtext v = quote :: esc strq s ++ [quote]).
Proof.
  intros Hv. pose proof (number_value v Hv) as Hn. destruct v; try done; cbn [is_number vtext] in *; eauto.
Qed.

(** The bytes of numbers and booleans are none that a scanner looks for. *)
Definition plain_byte (c : Z) : bool :=
  negb (existsb (Z.eqb c) [comma; space; equal; quote; bslash; newline]).

Lemma digit_plain c : is_digit c -> plain_byte c = true.
Proof. unfold is_digit, plain_byte. intros H. cbn. by rewrite !(proj2 (Z.eqb_neq c _)) by (unfold comma, space, equal, quote, bslash, newline; lia). Qed.
Lemma digits_plain l : Forall is_digit l -> Forall (fun c => plain_byte c = true) l.
Proof. intros H. eapply Forall_impl; [exact H|]. apply digit_plain. Qed.
Lemma sign_plain l : sign l -> Forall (fun c => plain_byte c = true) l.
Proof. intros [->| ->]; [constructor|]. by apply Forall_singleton. Qed.
Lemma number_plain t : number_text t -> Forall (fun c => plain_byte c = true) t.
Proof.
  intros [sgn ip n Hs Hi _ _|ip n Hi _ _|sgn ip fp b Hs Hi _ Hf _]; rewrite ?Forall_app; split_and?; auto using digits_plain, sign_plain; try by apply Forall_singleton.
  destruct Hf as [->|(ds & -> & Hd)]; [constructor|]. constructor; [done|by apply digits_plain].
Qed.
Lemma bool_plain b : Forall (fun c => plain_byte c = true) (FormatBool b).
Proof. destruct b; repeat (apply Forall_cons_2; [done|]); apply Forall_nil_2. Qed.

Lemma plain_quiet c : plain_byte c = true -> vquiet false c = true /\ (forall e m, fquiet (false, e, m) c = true) /\ (forall f e m, lquiet (false, f, e, m) c = true) /\ blockstop c = false.
Proof.
  unfold plain_byte, vquiet, fquiet, lquiet, blockstop. cbn. rewrite negb_true_iff, !orb_false_iff. intros (-> & -> & -> & -> & -> & -> & _). split; [done|]. split; [done|]. split; [by intros []|done].
Qed.

(** A value ends where its text ends. *)
Lemma value_end pre t rest q : goes vloop (pre ++ t ++ rest) (len pre) false (len pre + len t) q -> q = false ->
  match rest with [] => True | c :: _ => c = comma end ->
  forall fuel, len (t ++ rest) < Z.of_nat fuel -> fieldValue_loop fuel (pre ++ t ++ rest) (len pre) false = Ret (len pre + len t).
Proof.
  intros Hg -> Hr fuel Hf. destruct (Hg fuel) as (fuel' & Hf' & E); [rewrite len_app; lia|]. unfold vloop in E. rewrite E. destruct fuel' as [|fuel']; [rewrite !len_app in Hf'; lia|].
  cbn [fieldValue_loop]. destruct rest as [|c rest].
  - rewrite (proj2 (Z.ltb_ge _ _)) by (rewrite !len_app; cbn; lia). done.
  - subst c. rewrite (proj2 (Z.ltb_lt _ _)) by (rewrite !len_app; cbn [length]; lia). rewrite (app_assoc pre), <- len_app, at_here. done.
Qed.

Lemma value_goes v pre rest : good_fvalue v -> goes vloop (pre ++ vtext v ++ rest) (len pre) false (len pre + len (vtext v)) false.
Proof.
  intros Hv. destruct (vtext_cases v Hv) as [Hn|[(b & E)|(s & E)]].
  - apply (goes_quiet vloop vquiet vquiet_step). eapply Forall_impl; [by apply number_plain|]. intros c Hc. by apply plain_quiet.
  - rewrite E. apply (goes_quiet vloop vquiet vquiet_step). eapply Forall_impl; [apply bool_plain|]. intros c Hc. by apply plain_quiet.
  - rewrite E. cbn [app]. eapply goes_trans; [apply value_quote|]. cbn [negb]. rewrite <- app_assoc. cbn [app].
    assert (H1 : goes vloop ((pre ++ [quote]) ++ esc strq s ++ quote :: rest) (len (pre ++ [quote])) true (len (pre ++ [quote]) + len (esc strq s)) true).
    { apply (goes_esc vloop vquiet strq vquiet_step vpair_step). apply Forall_true. intros c. unfold vquiet. change (strq c) with ((c =? quote) || (c =? bslash)). destruct (c =? quote), (c =? bslash); auto. }
    pose proof (value_quote (pre ++ quote :: esc strq s) rest true) as H2. rewrite len_snoc in H1.
    replace ((pre ++ [quote]) ++ esc strq s ++ quote :: rest) with (pre ++ quote :: esc strq s ++ quote :: rest) in H1 by app_eq.
    replace ((pre ++ quote :: esc strq s) ++ quote :: rest) with (pre ++ quote :: esc strq s ++ quote :: rest) in H2 by app_eq.
    replace (len (pre ++ quote :: esc strq s)) with (len pre + 1 + len (esc strq s)) in H2 by (rewrite len_app; cbn [length]; lia).
    replace (len pre + len (quote :: esc strq s ++ [quote])) with (len pre + 1 + len (esc strq s) + 1) by (cbn [length]; rewrite length_app; cbn; lia).
    eapply goes_trans; [exact H1|exact H2].
Qed.

(** ** Fields *)

Definition good_fkey (k : list Z) : Prop := k <> [] /\ Forall (fun c => c <> bslash /\ c <> newline) k /\ Forall (fun c => c <> 9 /\ c <> 0) (take 1 k).
Definition ftext (kv : list Z * FieldValue) : list Z := esc is_code kv.1 ++ equal :: vtext kv.2.
Definition fjoin (l : list (list Z * FieldValue)) : list Z :=
  match l with [] => [] | kv :: l => ftext kv ++ (l ≫= fun kv => comma :: ftext kv) end.
Definition good_field (kv : list Z * FieldValue) : Prop := good_fkey kv.1 /\ good_fvalue kv.2.

Lemma good_fkey_no_bslash k : good_fkey k -> no_bslash k.
Proof. intros (_ & H & _). eapply Forall_impl; [exact H|]. by intros c []. Qed.

Lemma is_code_cases c : c <> bslash -> is_code c = false -> (c =? quote) = false /\ (c =? equal) = false /\ (c =? comma) = false /\ (c =? space) = false.
Proof. unfold is_code, Codes. cbn. rewrite !orb_false_iff. tauto. Qed.

Lemma key_bytes (P : Z -> Prop) k : good_fkey k -> (forall c, c <> bslash -> c <> newline -> is_code c = false -> P c) ->
  Forall (fun c => is_code c = true /\ True \/ is_code c = false /\ P c) k.
Proof. intros (_ & H & _) HP. eapply Forall_impl; [exact H|]. intros c [H1 H2]. destruct (is_code c) eqn:E; [by left|right; auto]. Qed.

Lemma key_goes_fields k pre d rest e m : good_fkey k -> goes floop (pre ++ esc is_code k ++ d :: rest) (len pre) (false, e, m) (len pre + len (esc is_code k)) (false, e, m).
Proof.
  intros Hk. apply (goes_esc floop fquiet (fun _ => true) fquiet_step); [intros; apply fpair_step|].
  eapply Forall_impl; [apply (key_bytes (fun c => fquiet (false, e, m) c = true) k Hk)|by intros c [[? _]|?]; [left|right]]. intros c Hb _ Hc.
  destruct (is_code_cases c Hb Hc) as (H1 & H2 & H3 & H4). unfold fquiet. by rewrite (proj2 (Z.eqb_neq c bslash) Hb), H1, H2, H3, H4.
Qed.
Lemma key_goes_line k pre d rest e m : good_fkey k -> goes lloop (pre ++ esc is_code k ++ d :: rest) (len pre) (false, true, e, m) (len pre + len (esc is_code k)) (false, true, e, m).
Proof.
  intros Hk. apply (goes_esc lloop lquiet (fun _ => true) lquiet_step); [intros; apply lpair_step|].
  eapply Forall_impl; [apply (key_bytes (fun c => lquiet (false, true, e, m) c = true) k Hk)|by intros c [[? _]|?]; [left|right]]. intros c Hb Hn Hc.
  destruct (is_code_cases c Hb Hc) as (H1 & H2 & H3 & H4). unfold lquiet. by rewrite (proj2 (Z.eqb_neq c bslash) Hb), (proj2 (Z.eqb_neq c newline) Hn), H1, H2, H3.
Qed.

(** The end of a key does not look like a missing key. *)
Lemma key_last k pre : good_fkey k -> exists p, last (pre ++ esc is_code k) = Some p /\
  ((p =? space) || (p =? comma) = true -> exists a, pre ++ esc is_code k = a ++ [bslash; p]).
Proof.
  intros Hk. pose proof (good_fkey_no_bslash k Hk) as Hb. destruct Hk as (Hne & _). destruct (last k) as [c|] eqn:E; [|by apply last_None in E].
  apply last_Some in E as [k' ->]. apply Forall_app in Hb as [_ Hb]. apply Forall_cons in Hb as [Hb _].
  assert (El : esc is_code [c] = if is_code c then [bslash; c] else [c]) by (by rewrite esc_cons, esc_nil, app_nil_r). rewrite esc_app, El. destruct (is_code c) eqn:Ec.
  - exists c. split; [by rewrite app_assoc, last_app_cons|]. intros _. exists (pre ++ esc is_code k'). app_eq.
  - exists c. split; [rewrite app_assoc; by apply last_snoc|]. destruct (is_code_cases c Hb Ec) as (_ & _ & -> & ->). done.
Qed.

(** The equals sign in front of a value. *)
Lemma floop_equal pre k n post e m (fuel : nat) : good_fkey k -> n <> comma -> n <> space ->
  len ((pre ++ esc is_code k) ++ equal :: n :: post) - len (pre ++ esc is_code k) < Z.of_nat (S fuel) ->
  floop (S fuel) ((pre ++ esc is_code k) ++ equal :: n :: post) (len (pre ++ esc is_code k)) (false, e, m) =
    let buf := (pre ++ esc is_code k) ++ equal :: n :: post in
    let i := len (pre ++ esc is_code k) in
    if isNumeric n || (n =? 45) || (n =? 78) || (n =? 110) then let! i := scanNumber buf (i + 1) in fields_loop fuel buf i false (e + 1) m
    else if negb (n =? quote) then let! r := scanBoolean buf (i + 1) in fields_loop fuel buf r.1 false (e + 1) m
    else fields_loop fuel buf (i + 1) false (e + 1) m.
Proof.
  intros Hk Hn1 Hn2 Hf. cbv zeta. destruct (key_last k pre Hk) as (p & Hp & Hpp). set (a := pre ++ esc is_code k) in *. cbn [floop fields_loop]. inside. rewrite at_here. cbn [obind].
  cbn [Z.eqb equal bslash quote Pos.eqb andb negb]. rewrite (at_last a _ p Hp). cbn [obind].
  assert (He : (if (p =? space) || (p =? comma) then let! q := at_ (a ++ equal :: n :: post) (len a - 2) in Ret (negb (q =? bslash)) else Ret false) = Ret false).
  { destruct ((p =? space) || (p =? comma)); [|done]. destruct (Hpp eq_refl) as [a' ->]. replace (len (a' ++ [bslash; p]) - 2) with (len a') by (rewrite len_app; cbn; lia).
    rewrite <- app_assoc. cbn [app]. by rewrite at_here. }
  rewrite He. cbn [obind]. rewrite (proj2 (Z.leb_gt _ _)) by (rewrite len_app; cbn [length]; lia).
  rewrite cons_snoc, <- (len_snoc a equal), at_here. cbn [obind]. by rewrite (proj2 (Z.eqb_neq n comma)), (proj2 (Z.eqb_neq n space)).
Qed.

Lemma number_head t : number_text t -> exists n l, t = n :: l /\ (isNumeric n || (n =? 45) || (n =? 78) || (n =? 110)) = true /\ n <> comma /\ n <> space.
Proof.
  assert (Hd : forall ip l, Forall is_digit ip -> ip <> [] -> exists n l', ip ++ l = n :: l' /\ (isNumeric n || (n =? 45) || (n =? 78) || (n =? 110)) = true /\ n <> comma /\ n <> space).
  { intros [|c r] l H Hn; [done|]. inversion H as [|? ? Hc _]; subst. exists c, (r ++ l). unfold is_digit, comma, space in *. split_and!; [done| |lia|lia].
    unfold isNumeric. by rewrite (proj2 (Z.leb_le 48 c)), (proj2 (Z.leb_le c 57)) by lia. }
  intros [sgn ip n [->| ->] Hi Hn _|ip n Hi Hn _|sgn ip fp x [->| ->] Hi Hn _ _]; cbn [app]; [by apply Hd|by eexists 45, _|by apply Hd|by apply Hd|by eexists 45, _].
Qed.

Lemma field_goes kv pre rest e : good_field kv -> ends rest ->
  goes floop (pre ++ ftext kv ++ rest) (len pre) (false, e, e) (len pre + len (ftext kv)) (false, e + 1, e).
Proof.
  destruct kv as [k v]. intros [Hk Hv] He. cbn [fst snd] in *. unfold ftext. cbn [fst snd].
  replace (pre ++ (esc is_code k ++ equal :: vtext v) ++ rest) with (pre ++ esc is_code k ++ equal :: vtext v ++ rest) by app_eq.
  eapply goes_trans; [by apply key_goes_fields|]. set (a := pre ++ esc is_code k).
  replace (pre ++ esc is_code k ++ equal :: vtext v ++ rest) with (a ++ equal :: vtext v ++ rest) by (unfold a; app_eq).
  replace (len pre + len (esc is_code k)) with (len a) by (unfold a; rewrite len_app; lia).
  replace (len pre + len (esc is_code k ++ equal :: vtext v)) with (len a + 1 + len (vtext v)) by (unfold a; rewrite !len_app; cbn [length]; lia).
  destruct (vtext_cases v Hv) as [Hn|[(b & E)|(s & E)]].
  - destruct (number_head _ Hn) as (n & l & E & Hnum & Hn1 & Hn2). intros [|fuel] Hf; [rewrite len_app in Hf; cbn [length] in Hf; lia|].
    exists fuel. split; [rewrite len_app in *; cbn [length] in *; rewrite E in *; cbn in *; lia|].
    pose proof (scanNumber_text (a ++ [equal]) (vtext v) rest Hn He) as En. rewrite <- cons_snoc, len_snoc in En. rewrite E in *. cbn [app] in *. unfold a in *.
    rewrite floop_equal by done. cbv zeta. rewrite Hnum, En. done.
  - rewrite E. assert (Hb : exists n l, FormatBool b = n :: l /\ (isNumeric n || (n =? 45) || (n =? 78) || (n =? 110)) = false /\ n <> comma /\ n <> space /\ (n =? quote) = false) by (destruct b; by eexists _, _).
    destruct Hb as (n & l & Eb & Hnum & Hn1 & Hn2 & Hq). intros [|fuel] Hf; [rewrite len_app in Hf; cbn [length] in Hf; lia|].
    exists fuel. split; [rewrite len_app in *; cbn [length] in *; rewrite Eb in *; cbn in *; lia|].
    pose proof (scanBoolean_text (a ++ [equal]) b rest He) as En. rewrite <- cons_snoc, len_snoc in En. rewrite Eb in *. cbn [app] in *. unfold a in *.
    rewrite floop_equal by done. cbv zeta. rewrite Hnum, Hq. cbn [negb]. rewrite En. done.
  - assert (H0 : goes floop (a ++ equal :: vtext v ++ rest) (len a) (false, e, e) (len a + 1) (false, e + 1, e)).
    { rewrite E. cbn [app]. intros [|fuel] Hf; [rewrite len_app in Hf; cbn [length] in Hf; lia|]. exists fuel. split; [rewrite len_app in *; cbn [length] in *; lia|].
      unfold a in *. rewrite floop_equal by done. done. }
    eapply goes_trans; [exact H0|]. rewrite E. cbn [app]. rewrite cons_snoc, <- (len_snoc a equal). set (a1 := a ++ [equal]).
    eapply goes_trans; [apply fields_quote; lia|]. cbn [negb]. rewrite <- app_assoc. cbn [app].
    pose proof (goes_esc floop fquiet (fun _ => true) fquiet_step ltac:(intros; apply fpair_step) strq s (true, e + 1, e)) as H1.
    specialize (H1 ltac:(apply Forall_true; intros c; unfold fquiet; change (strq c) with ((c =? quote) || (c =? bslash)); destruct (c =? quote), (c =? bslash); auto) (a1 ++ [quote]) quote rest).
    pose proof (fields_quote (a1 ++ quote :: esc strq s) rest true (e + 1) e ltac:(lia)) as H2. rewrite len_snoc in H1.
    replace ((a1 ++ [quote]) ++ esc strq s ++ quote :: rest) with (a1 ++ quote :: esc strq s ++ quote :: rest) in H1 by app_eq.
    replace ((a1 ++ quote :: esc strq s) ++ quote :: rest) with (a1 ++ quote :: esc strq s ++ quote :: rest) in H2 by app_eq.
    replace (len (a1 ++ quote :: esc strq s)) with (len a1 + 1 + len (esc strq s)) in H2 by (rewrite len_app; cbn [length]; lia).
    replace (len a1 + len (quote :: esc strq s ++ [quote])) with (len a1 + 1 + len (esc strq s) + 1) by (cbn [length]; rewrite length_app; cbn; lia).
    eapply goes_trans; [exact H1|exact H2].
Qed.

Lemma field_goes_line kv pre rest e : good_field kv ->
  goes lloop (pre ++ ftext kv ++ rest) (len pre) (false, true, e, e) (len pre + len (ftext kv)) (false, true, e + 1, e).
Proof.
  destruct kv as [k v]. intros [Hk Hv]. cbn [fst snd] in *. unfold ftext. cbn [fst snd].
  replace (pre ++ (esc is_code k ++ equal :: vtext v) ++ rest) with (pre ++ esc is_code k ++ equal :: vtext v ++ rest) by app_eq.
  eapply goes_trans; [by apply key_goes_line|]. set (a := pre ++ esc is_code k).
  replace (pre ++ esc is_code k ++ equal :: vtext v ++ rest) with (a ++ equal :: vtext v ++ rest) by (unfold a; app_eq).
  replace (len pre + len (esc is_code k)) with (len a) by (unfold a; rewrite len_app; lia).
  replace (len pre + len (esc is_code k ++ equal :: vtext v)) with (len a + 1 + len (vtext v)) by (unfold a; rewrite !len_app; cbn [length]; lia).
  eapply goes_trans; [apply line_equal|]. rewrite cons_snoc, <- (len_snoc a equal). set (a1 := a ++ [equal]).
  assert (Hq : forall t, Forall (fun c => plain_byte c = true) t -> goes lloop (a1 ++ t ++ rest) (len a1) (false, true, e + 1, e) (len a1 + len t) (false, true, e + 1, e)).
  { intros t Ht. apply (goes_quiet lloop lquiet lquiet_step). eapply Forall_impl; [exact Ht|]. intros c Hc. by apply plain_quiet. }
  destruct (vtext_cases v Hv) as [Hn|[(x & ->)|(s & ->)]]; [apply Hq; by apply number_plain|apply Hq, bool_plain|]. cbn [app].
  eapply goes_trans; [apply line_quote; lia|]. cbn [negb]. rewrite <- app_assoc. cbn [app].
  pose proof (goes_esc lloop lquiet (fun _ => true) lquiet_step ltac:(intros; apply lpair_step) strq s (true, true, e + 1, e)) as H1.
  specialize (H1 ltac:(apply Forall_true; intros c; unfold lquiet; change (strq c) with ((c =? quote) || (c =? bslash)); destruct (c =? quote), (c =? bslash); auto) (a1 ++ [quote]) quote rest).
  pose proof (line_quote (a1 ++ quote :: esc strq s) rest true (e + 1) e ltac:(lia)) as H2. rewrite len_snoc in H1.
  replace ((a1 ++ [quote]) ++ esc strq s ++ quote :: rest) with (a1 ++ quote :: esc strq s ++ quote :: rest) in H1 by app_eq.
  replace ((a1 ++ quote :: esc strq s) ++ quote :: rest) with (a1 ++ quote :: esc strq s ++ quote :: rest) in H2 by app_eq.
  replace (len (a1 ++ quote :: esc strq s)) with (len a1 + 1 + len (esc strq s)) in H2 by (rewrite len_app; cbn [length]; lia).
  replace (len a1 + len (quote :: esc strq s ++ [quote])) with (len a1 + 1 + len (esc strq s) + 1) by (cbn [length]; rewrite length_app; cbn; lia).
  eapply goes_trans; [exact H1|exact H2].
Qed.

(** *** All fields of a point *)

Definition ftail (l : list (list Z * FieldValue)) : list Z := l ≫= fun kv => comma :: ftext kv.
Lemma ftail_cons kv l : ftail (kv :: l) = comma :: ftext kv ++ ftail l.
Proof. done. Qed.
Lemma fjoin_cons kv l : fjoin (kv :: l) = ftext kv ++ ftail l.
Proof. done. Qed.
Lemma ftail_ends l rest : ends rest -> ends (ftail l ++ rest).
Proof. destruct l; [done|]. by rewrite ftail_cons. Qed.

Lemma fjoin_goes l : forall kv pre rest e, Forall good_field (kv :: l) -> ends rest ->
  goes floop (pre ++ fjoin (kv :: l) ++ rest) (len pre) (false, e, e) (len pre + len (fjoin (kv :: l))) (false, e + 1 + len l, e + len l).
Proof.
  induction l as [|kv' l IH]; intros kv pre rest e Hg He; inversion Hg as [|? ? H1 H2]; subst; rewrite fjoin_cons.
  - change (ftail []) with (@nil Z). rewrite app_nil_r, !Z.add_0_r. by apply field_goes.
  - replace (pre ++ (ftext kv ++ ftail (kv' :: l)) ++ rest) with (pre ++ ftext kv ++ ftail (kv' :: l) ++ rest) by app_eq.
    eapply goes_trans; [apply field_goes; [done|by apply ftail_ends]|]. rewrite ftail_cons. set (a := pre ++ ftext kv).
    replace (pre ++ ftext kv ++ (comma :: ftext kv' ++ ftail l) ++ rest) with (a ++ comma :: fjoin (kv' :: l) ++ rest) by (unfold a; rewrite fjoin_cons; app_eq).
    replace (len pre + len (ftext kv)) with (len a) by (unfold a; rewrite len_app; lia). eapply goes_trans; [apply fields_comma|].
    specialize (IH kv' (a ++ [comma]) rest (e + 1) H2 He). rewrite len_snoc, <- app_assoc in IH. cbn [app] in IH.
    replace (len pre + len (ftext kv ++ comma :: ftext kv' ++ ftail l)) with (len a + 1 + len (fjoin (kv' :: l)))
      by (unfold a; rewrite fjoin_cons, !len_app; cbn [length]; rewrite length_app; lia).
    cbn [length]. replace (e + 1 + Z.of_nat (S (length l))) with (e + 1 + 1 + len l) by lia. replace (e + Z.of_nat (S (length l))) with (e + 1 + len l) by lia. done.
Qed.

Lemma fjoin_goes_line l : forall kv pre rest e, Forall good_field (kv :: l) ->
  goes lloop (pre ++ fjoin (kv :: l) ++ rest) (len pre) (false, true, e, e) (len pre + len (fjoin (kv :: l))) (false, true, e + 1 + len l, e + len l).
Proof.
  induction l as [|kv' l IH]; intros kv pre rest e Hg; inversion Hg as [|? ? H1 H2]; subst; rewrite fjoin_cons.
  - change (ftail []) with (@nil Z). rewrite app_nil_r, !Z.add_0_r. by apply field_goes_line.
  - replace (pre ++ (ftext kv ++ ftail (kv' :: l)) ++ rest) with (pre ++ ftext kv ++ ftail (kv' :: l) ++ rest) by app_eq.
    eapply goes_trans; [by apply field_goes_line|]. rewrite ftail_cons. set (a := pre ++ ftext kv).
    replace (pre ++ ftext kv ++ (comma :: ftext kv' ++ ftail l) ++ rest) with (a ++ comma :: fjoin (kv' :: l) ++ rest) by (unfold a; rewrite fjoin_cons; app_eq).
    replace (len pre + len (ftext kv)) with (len a) by (unfold a; rewrite len_app; lia). eapply goes_trans; [apply line_comma|].
    specialize (IH kv' (a ++ [comma]) rest (e + 1) H2). rewrite len_snoc, <- app_assoc in IH. cbn [app] in IH.
    replace (len pre + len (ftext kv ++ comma :: ftext kv' ++ ftail l)) with (len a + 1 + len (fjoin (kv' :: l)))
      by (unfold a; rewrite fjoin_cons, !len_app; cbn [length]; rewrite length_app; lia).
    cbn [length]. replace (e + 1 + Z.of_nat (S (length l))) with (e + 1 + 1 + len l) by lia. replace (e + Z.of_nat (S (length l))) with (e + 1 + len l) by lia. done.
Qed.

(** The first byte of the fields is no white space. *)
Lemma fjoin_head kv l : good_field kv -> exists c r, fjoin (kv :: l) = c :: r /\ c <> space /\ c <> 9 /\ c <> 0.
Proof.
  destruct kv as [[|c k] v]; [by intros [(? & _) _]|]. intros [(_ & _ & Hh) _]. inversion Hh as [|? ? [H1 H2] _]; subst. unfold fjoin, ftext. cbn [fst snd]. rewrite esc_cons.
  destruct (is_code c) eqn:E; cbn [app]; eexists _, _; split_and!; try done. intros ->. done.
Qed.

Lemma skip_one pre c r : c <> space -> c <> 9 -> c <> 0 -> skipWhitespace (pre ++ space :: c :: r) (len pre) = Ret (len pre + 1).
Proof.
  intros H1 H2 H3. unfold skipWhitespace. rewrite length_app. cbn [length]. rewrite !Nat.add_succ_r. cbn [skip_loop].
  rewrite !(proj2 (Z.ltb_lt _ _)) by (rewrite len_app; cbn [length]; lia). rewrite at_here. cbn [obind Z.eqb space Pos.eqb negb andb].
  rewrite cons_snoc, <- (len_snoc pre space), at_here. cbn [obind]. by rewrite !(proj2 (Z.eqb_neq c _)).
Qed.

Lemma scanFields_text pre kv l rest : Forall good_field (kv :: l) ->
  scanFields (pre ++ space :: fjoin (kv :: l) ++ space :: rest) (len pre) = Ret (len pre + 1 + len (fjoin (kv :: l)), fjoin (kv :: l)).
Proof.
  intros Hg. unfold scanFields. assert (Hs : skipWhitespace (pre ++ space :: fjoin (kv :: l) ++ space :: rest) (len pre) = Ret (len pre + 1)).
  { destruct (fjoin_head kv l) as (c & r & -> & H1 & H2 & H3); [by inversion Hg|]. by apply skip_one. }
  rewrite Hs. cbn [obind]. rewrite cons_snoc, <- (len_snoc pre space). set (a := pre ++ [space]).
  destruct (fjoin_goes l kv a (space :: rest) 0 Hg eq_refl (S (length (a ++ fjoin (kv :: l) ++ space :: rest)))) as (fuel & Hf & E); [lia|].
  cbn [floop] in E. rewrite E. destruct fuel as [|fuel]; [rewrite !len_app in Hf; cbn [length] in Hf; lia|]. cbn [floop fields_loop].
  rewrite (proj2 (Z.leb_gt _ _)) by (rewrite !len_app; cbn [length]; lia). rewrite app_assoc, <- len_app, at_here. cbn [obind Z.eqb space bslash quote equal Pos.eqb andb negb].
  rewrite (proj2 (Z.eqb_neq (0 + 1 + len l) 0)) by lia. rewrite (proj2 (Z.eqb_eq (0 + len l) (0 + 1 + len l - 1))) by lia. cbn [orb negb].
  rewrite <- app_assoc, len_app, sub_middle. done.
Qed.

(** ** Reading the fields *)

Definition value_ends (rest : list Z) : Prop := match rest with [] => True | c :: _ => c = comma end.
Lemma ftail_value_ends l : value_ends (ftail l).
Proof. by destruct l. Qed.

Lemma vtext_ne v : good_fvalue v -> vtext v <> [].
Proof.
  intros Hv. destruct (vtext_cases v Hv) as [Hn|[([] & ->)|(s & ->)]]; [|done|done|done]. by destruct (number_head _ Hn) as (n & l & -> & _).
Qed.

Lemma scanFieldValue_text pre v rest cap : good_fvalue v -> value_ends rest ->
  scanFieldValue (pre ++ vtext v ++ rest) cap (len pre) = Ret (len pre + len (vtext v), vtext v).
Proof.
  intros Hv Hr. unfold scanFieldValue. rewrite (value_end pre (vtext v) rest false) by (done || (by apply value_goes) || (rewrite !len_app, !length_app; lia)). cbn [obind].
  assert (Hl : 0 < len (vtext v)) by (pose proof (vtext_ne v Hv); destruct (vtext v); [done|cbn; lia]). rewrite (proj2 (Z.eqb_neq _ _)) by lia. cbn [andb]. by rewrite sub_middle.
Qed.

Lemma until_fkey k post : good_fkey k -> until (Z.eqb equal) false (esc is_code k ++ equal :: post) = length (esc is_code k).
Proof.
  intros Hk. apply until_clean; [|done]. apply clean_esc; [by intros c <-%Z.eqb_eq|done|by apply good_fkey_no_bslash].
Qed.

Lemma walk_small key l fuel : Forall good_field l -> Forall (fun kv => seriesKeySize key (esc is_code kv.1) <= MaxKeyLength) l -> (length (fjoin l) < fuel)%nat ->
  walkFields_loop fuel (fjoin l) (fun k _ e => if MaxKeyLength <? seriesKeySize key k then (true, false) else (e, true)) false = Ret false.
Proof.
  revert fuel. induction l as [|[k v] l IH]; intros fuel Hg Hs Hf; (destruct fuel as [|fuel]; [lia|]); cbn [walkFields_loop]; [done|].
  inversion Hg as [|? ? [Hk Hv] Hg']; subst. inversion Hs as [|? ? Hs1 Hs']; subst. cbn [fst snd] in *. rewrite fjoin_cons in *. unfold ftext in *. cbn [fst snd] in *.
  set (b := vtext v ++ ftail l) in *. assert (Eb : (esc is_code k ++ equal :: vtext v) ++ ftail l = esc is_code k ++ equal :: b) by (unfold b; app_eq). rewrite Eb in *.
  rewrite length_app in *. cbn [length] in *. rewrite (proj2 (Nat.eqb_neq _ _)) by lia. rewrite scanTo_zero, until_fkey by done. cbn [obind]. rewrite take_app_length.
  assert (Hb : (0 < length b)%nat) by (unfold b; rewrite length_app; pose proof (vtext_ne v Hv); destruct (vtext v); [done|cbn; lia]).
  rewrite ?length_app. cbn [length]. rewrite (proj2 (Z.ltb_ge _ _)) by lia. rewrite cons_snoc. replace (len (esc is_code k) + 1) with (len (esc is_code k ++ [equal])) by apply len_snoc.
  rewrite from_middle. cbn [obind]. pose proof (scanFieldValue_text [] v (ftail l) (len b) Hv (ftail_value_ends l)) as E. cbn [app length] in E. change (Z.of_nat 0) with 0 in E. fold b in E. rewrite E. cbn [obind].
  rewrite Z.add_0_l. unfold b at 1. rewrite from_middle. cbn [obind]. rewrite (proj2 (Z.ltb_ge _ _)) by done. cbn [negb]. destruct l as [|kv' l].
  - change (ftail []) with (@nil Z). cbn [length Nat.ltb Nat.leb]. destruct fuel as [|fuel]; [lia|]. done.
  - rewrite ftail_cons. cbn [length Nat.ltb Nat.leb]. pose proof (from_middle [comma] (ftext kv' ++ ftail l)) as E1. cbn [app length] in E1. change (Z.of_nat 1) with 1 in E1. rewrite E1. cbn [obind].
    rewrite <- fjoin_cons. apply IH; [done|done|]. unfold b in Hf. rewrite length_app, ftail_cons in Hf. cbn [length] in Hf. rewrite fjoin_cons. lia.
Qed.

(** The iterator at the start of a field. *)
Lemma number_first t : number_text t -> exists c r, t = c :: r /\ has number_chars c = true /\ (c =? quote) = false.
Proof.
  assert (Hd : forall ip l, Forall is_digit ip -> ip <> [] -> exists c r, ip ++ l = c :: r /\ has number_chars c = true /\ (c =? quote) = false).
  { intros [|c r] l H Hn; [done|]. inversion H as [|? ? Hc _]; subst. exists c, (r ++ l). unfold is_digit in Hc. split_and!; [done| |apply Z.eqb_neq; unfold quote; lia].
    assert (c = 48 \/ c = 49 \/ c = 50 \/ c = 51 \/ c = 52 \/ c = 53 \/ c = 54 \/ c = 55 \/ c = 56 \/ c = 57) as Hcs by lia. by destruct Hcs as [->|[->|[->|[->|[->|[->|[->|[->|[->| ->]]]]]]]]]. }
  intros [sgn ip n [->| ->] Hi Hn _|ip n Hi Hn _|sgn ip fp x [->| ->] Hi Hn _ _]; cbn [app]; [by apply Hd|by eexists 45, _|by apply Hd|by apply Hd|by eexists 45, _].
Qed.

Lemma float_last b : is_u64 b -> IsInf64 b = false -> IsNaN64 b = false -> exists z, last (AppendFloat64 b) = Some z /\ (z =? 105) = false /\ (z =? 117) = false.
Proof.
  intros H1 H2 H3. destruct (float_text b H1 H2 H3) as (sgn & ip & fp & -> & Hs & Hi & Hn & Hf).
  assert (Hall : Forall (fun c => is_digit c \/ c = 45 \/ c = 46) (sgn ++ ip ++ fp)).
  { rewrite !Forall_app. split_and!; [|eapply Forall_impl; [exact Hi|]; by left|].
    - destruct Hs as [->| ->]; [constructor|]. apply Forall_singleton. lia.
    - destruct Hf as [->|(ds & -> & Hd)]; [constructor|]. constructor; [lia|]. eapply Forall_impl; [exact Hd|]. by left. }
  destruct (last (sgn ++ ip ++ fp)) as [z|] eqn:E; [|apply last_None in E; apply app_nil in E as [_ E]; apply app_nil in E as [-> _]; done].
  exists z. split; [done|]. apply last_Some in E as [l E]. rewrite E in Hall. apply Forall_app in Hall as [_ Hz]. inversion Hz as [|? ? Hzz _]; subst. unfold is_digit in Hzz.
  rewrite !Z.eqb_neq. lia.
Qed.

(** The type the iterator finds for a value, and the value it reads. *)
Definition typed (v : FieldValue) : FieldType * list Z :=
  match v with
  | FFloat64 b => (Float, AppendFloat64 b)
  | FInt64 n => (Integer, FormatInt n)
  | FUint64 n => (Unsigned, WalLog.WalLog.decimal 20 n)
  | FString s => (String_, vtext v)
  | FBool b => (Boolean, FormatBool b)
  | _ => (Empty, [])
  end.

Lemma current_typed v p : good_fvalue v -> Type_ p = (typed v).1 -> it_valueBuf (p_it p) = (typed v).2 -> current p = Ret (Some v).
Proof.
  intros Hv Ht Hb. unfold current. rewrite Ht. destruct v as [x|n|l|x|n|n|n|n|n|n|n|n|n|x|l| |l]; try done; cbn [typed fst snd good_fvalue] in *.
  - unfold FloatValue. rewrite Hb. destruct Hv as (H1 & H2 & H3). by rewrite float_parse.
  - unfold IntegerValue. rewrite Hb. by rewrite ParseInt_FormatInt.
  - unfold StringValue. rewrite Hb. cbn [vtext]. replace (len (quote :: esc strq l ++ [quote]) - 1) with (len [quote] + len (esc strq l)) by (cbn [length]; rewrite length_app; cbn; lia).
    change (quote :: esc strq l ++ [quote]) with ([quote] ++ esc strq l ++ [quote]). change 1 with (len [quote]) at 1. rewrite sub_middle. cbn [obind]. do 3 f_equal.
    apply string_field_roundtrip.
  - unfold BooleanValue. rewrite Hb. by destruct x.
  - unfold UnsignedValue. rewrite Hb. by rewrite ParseUint_decimal.
Qed.

Lemma last_take (l : list Z) z : take (length (l ++ [z]) - 1) (l ++ [z]) = l.
Proof. rewrite length_app. cbn. replace (length l + 1 - 1)%nat with (length l) by lia. apply take_app_length. Qed.

Lemma Next_field p pre kv rest : p_fields p = pre ++ ftext kv ++ rest -> it_end (p_it p) = len pre -> pb pre = false -> good_field kv -> value_ends rest ->
  exists it, Next p = Ret (true, set_it it p) /\ it_key it = kv.1 /\ it_fieldType it = (typed kv.2).1 /\ it_valueBuf it = (typed kv.2).2 /\
    it_end it = len pre + len (ftext kv) + 1.
Proof.
  intros Hf Hi Hp [Hk Hv] Hr. destruct kv as [k v]. cbn [fst snd] in *. unfold ftext in *. cbn [fst snd] in *. unfold Next. rewrite Hi, Hf.
  replace (pre ++ (esc is_code k ++ equal :: vtext v) ++ rest) with (pre ++ esc is_code k ++ equal :: vtext v ++ rest) by app_eq.
  rewrite (proj2 (Z.leb_gt _ _)) by (rewrite !len_app; cbn [length]; lia). rewrite scanTo_run, Hp, until_fkey by done. cbn [obind fst snd]. rewrite take_app_length, field_key_unescaped by (by apply good_fkey_no_bslash).
  set (a := pre ++ esc is_code k ++ [equal]). replace (pre ++ esc is_code k ++ equal :: vtext v ++ rest) with (a ++ vtext v ++ rest) by (unfold a; app_eq).
  replace (len pre + len (esc is_code k) + 1) with (len a) by (unfold a; rewrite !len_app; cbn; lia). rewrite scanFieldValue_text by done. cbn [obind].
  assert (Hend : len a + len (vtext v) + 1 = len pre + len (esc is_code k ++ equal :: vtext v) + 1) by (unfold a; rewrite !len_app; cbn [length]; lia).
  assert (Hnum : is_number v -> exists c r, vtext v = c :: r /\ has number_chars c = true /\ (c =? quote) = false) by (intros H; by apply number_first, number_value).
  assert (Hgo : exists it, (match vtext v with
    | [] => Ret (true, set_it (MkIter (len pre) (len a + len (vtext v) + 1) k (vtext v) Empty) p)
    | c :: _ =>
      if c =? quote then Ret (true, set_it (MkIter (len pre) (len a + len (vtext v) + 1) k (vtext v) String_) p)
      else if has number_chars c then
        if default 0 (last (vtext v)) =? 105 then Ret (true, set_it (MkIter (len pre) (len a + len (vtext v) + 1) k (take (length (vtext v) - 1) (vtext v)) Integer) p)
        else if default 0 (last (vtext v)) =? 117 then Ret (true, set_it (MkIter (len pre) (len a + len (vtext v) + 1) k (take (length (vtext v) - 1) (vtext v)) Unsigned) p)
        else Ret (true, set_it (MkIter (len pre) (len a + len (vtext v) + 1) k (vtext v) Float) p)
      else Ret (true, set_it (MkIter (len pre) (len a + len (vtext v) + 1) k (vtext v) Boolean) p)
    end) = Ret (true, set_it it p) /\ it = MkIter (len pre) (len a + len (vtext v) + 1) k (typed v).2 (typed v).1).
  { destruct v as [x|n|l|x|n|n|n|n|n|n|n|n|n|x|l| |l]; try done.
    - destruct (Hnum I) as (c & r & E & H1 & H2). destruct Hv as (V1 & V2 & V3). destruct (float_last x V1 V2 V3) as (z & Ez & Z1 & Z2). cbn [vtext typed fst snd] in *. rewrite Ez. cbn [from_option id]. rewrite Z1, Z2.
      rewrite E. rewrite H2, H1. by eexists.
    - destruct (Hnum I) as (c & r & E & H1 & H2). cbn [vtext typed fst snd] in *. rewrite last_take, last_snoc. cbn [from_option id Z.eqb Pos.eqb]. rewrite E. rewrite H2, H1. by eexists.
    - by eexists.
    - cbn [vtext typed fst snd]. destruct x; by eexists.
    - destruct (Hnum I) as (c & r & E & H1 & H2). cbn [vtext typed fst snd] in *. rewrite last_take, last_snoc. cbn [from_option id Z.eqb Pos.eqb]. rewrite E. rewrite H2, H1. by eexists. }
  destruct Hgo as (it & E & Eit). exists it. split; [exact E|]. subst it. by rewrite <- Hend.
Qed.
(** Reading all fields: the values, in the order of the text, by their keys. *)
Definition read_all (m : Fields) (l : list (list Z * FieldValue)) : Fields := foldl (fun m kv => <[kv.1 := kv.2]> m) m l.

Lemma unmarshal_text l : forall kv pre p m fuel, p_fields p = pre ++ fjoin (kv :: l) -> it_end (p_it p) = len pre -> pb pre = false ->
  Forall good_field (kv :: l) -> (length l + 1 < fuel)%nat -> exists p', unmarshal_fields fuel p m = Ret (read_all m (kv :: l), p').
Proof.
  induction l as [|kv' l IH]; intros kv pre p m fuel Hf Hi Hp Hg Hfu; (destruct fuel as [|fuel]; [lia|]); inversion Hg as [|? ? H1 H2]; subst; rewrite fjoin_cons in Hf;
    (destruct (Next_field p pre kv (ftail _) Hf Hi Hp H1 (ftail_value_ends _)) as (it & E & Ek & Et & Eb & Ee));
    cbn [unmarshal_fields]; rewrite E; cbn [obind negb]; unfold FieldKey; cbn [set_it p_it]; rewrite Ek, (proj2 (Nat.eqb_neq _ _))
      by (destruct H1 as [(Hne & _) _]; by destruct kv.1); rewrite (current_typed kv.2) by (done || apply H1); cbn [obind].
  - destruct fuel as [|fuel]; [cbn in Hfu; lia|]. cbn [unmarshal_fields]. unfold Next. cbn [set_it p_it p_fields]. rewrite Ee, Hf.
    change (ftail []) with (@nil Z). rewrite (proj2 (Z.leb_le _ _)) by (rewrite !len_app; cbn [length]; lia). cbn [obind negb]. by eexists.
  - destruct (IH kv' (pre ++ ftext kv ++ [comma]) (set_it it p) (<[kv.1 := kv.2]> m) fuel) as [p' E']; [|cbn [set_it p_it]; rewrite Ee, !len_app; cbn; lia| |done|cbn in Hfu; lia|].
    + cbn [set_it p_fields]. rewrite Hf, ftail_cons, fjoin_cons. app_eq.
    + rewrite app_assoc, pb_snoc. done.
    + rewrite E'. by eexists.
Qed.

(** ** Printing the fields *)

Definition kvs (m : Fields) : list (list Z * FieldValue) := (fun k => (k, default FNil (m !! k))) <$> Ring.Sort (map_to_list m).*1.

Lemma kvs_perm m : kvs m ≡ₚ map_to_list m.
Proof.
  unfold kvs. assert (Hs : Ring.Sort (map_to_list m).*1 ≡ₚ (map_to_list m).*1) by apply merge_sort_Permutation. rewrite Hs, <- list_fmap_compose.
  apply reflexive_eq. rewrite <- (list_fmap_id (map_to_list m)) at 2. apply list_fmap_ext. intros i [k v] Hk. apply list_elem_of_lookup_2, elem_of_map_to_list in Hk. cbn. by rewrite Hk.
Qed.

Lemma read_all_app m l1 l2 : read_all m (l1 ++ l2) = read_all (read_all m l1) l2.
Proof. apply foldl_app. Qed.
Lemma read_all_reverse l : read_all ∅ l = list_to_map (reverse l).
Proof.
  induction l as [|kv l IH] using rev_ind; [done|]. rewrite read_all_app, IH, reverse_snoc. by destruct kv.
Qed.
Lemma read_all_kvs m : read_all ∅ (kvs m) = m.
Proof.
  rewrite read_all_reverse. assert (Hp : reverse (kvs m) ≡ₚ map_to_list m) by (by rewrite reverse_Permutation, kvs_perm).
  rewrite (list_to_map_proper (reverse (kvs m)) (map_to_list m)); [apply list_to_map_to_list| |done]. rewrite Hp. apply NoDup_fst_map_to_list.
Qed.

Definition good_fields (m : Fields) : Prop := map_Forall (fun k v => good_field (k, v)) m.

Lemma kvs_good m : good_fields m -> Forall good_field (kvs m).
Proof. intros H. rewrite kvs_perm. apply Forall_forall. intros [k v] Hk. apply elem_of_map_to_list in Hk. by apply H. Qed.
Lemma kvs_ne m : m <> ∅ -> exists kv l, kvs m = kv :: l.
Proof.
  intros H. destruct (kvs m) as [|kv l] eqn:E; [|by eexists _, _]. pose proof (kvs_perm m) as Hp. rewrite E in Hp. apply Permutation_nil_l in Hp. symmetry in Hp.
  by apply map_to_list_empty_iff in Hp.
Qed.

Lemma appendField_text b k v : good_fvalue v -> appendField b k v = b ++ ftext (k, v).
Proof.
  unfold appendField, ftext. cbn [fst snd]. change (escape_String k) with (esc is_code k). destruct v; try done; intros _; cbn [vtext]; rewrite <- ?app_assoc; done.
Qed.

Lemma marshal_tail m ks : forall b, Forall (fun k => good_fvalue (default FNil (m !! k))) ks ->
  marshal_loop m false ks b = b ++ ftail ((fun k => (k, default FNil (m !! k))) <$> ks).
Proof.
  induction ks as [|k ks IH]; intros b H; cbn [marshal_loop fmap list_fmap]; [by rewrite app_nil_r|]. inversion H; subst. rewrite ftail_cons, IH, appendField_text by done. app_eq.
Qed.

Lemma Fields_MarshalBinary_text m : good_fields m -> Fields_MarshalBinary m = fjoin (kvs m).
Proof.
  intros Hm. assert (H : Forall (fun k => good_fvalue (default FNil (m !! k))) (Ring.Sort (map_to_list m).*1)).
  { apply kvs_good in Hm. unfold kvs in Hm. rewrite Forall_fmap in Hm. eapply Forall_impl; [exact Hm|]. intros k [_ Hv]. exact Hv. }
  unfold Fields_MarshalBinary, kvs. destruct (Ring.Sort _) as [|k ks]; [done|]. inversion H; subst. cbn [marshal_loop fmap list_fmap].
  rewrite marshal_tail, appendField_text, fjoin_cons by done. app_eq.
Qed.

Lemma length_kvs l : Forall good_field l -> (length l <= length (fjoin l))%nat.
Proof.
  destruct l as [|kv l]; [done|]. intros H. rewrite fjoin_cons, length_app. cbn [length]. assert (H1 : (1 <= length (ftext kv))%nat) by (unfold ftext; rewrite length_app; cbn; lia).
  assert (Ht : (length l <= length (ftail l))%nat); [|lia]. clear. induction l as [|kv l IH]; [done|]. rewrite ftail_cons. cbn [length]. rewrite length_app. lia.
Qed.

(** [Fields] of a point that holds the text of [m]. *)
Lemma Point_Fields_text p m : good_fields m -> m <> ∅ -> p_fields p = fjoin (kvs m) -> p_cachedFields p = None -> exists p', Point_Fields p = Ret (m, p').
Proof.
  intros Hm Hne Hf Hc. unfold Point_Fields. rewrite Hc. unfold unmarshalBinary. pose proof (kvs_good m Hm) as Hg. destruct (kvs_ne m Hne) as (kv & l & E).
  pose proof (length_kvs _ Hg) as Hl. rewrite E in *. destruct (unmarshal_text l kv [] (FieldIterator p) ∅ (S (length (p_fields p)))) as [p' ->]; [done|done|done|done|rewrite Hf; cbn [length] in Hl; lia|].
  cbn [obind fst snd]. rewrite <- E, read_all_kvs. by eexists.
Qed.
End Values.
End PointsPrint.
