(* ===== verification/PointsRound.v ===== *)
(** * Points are read back from their text

    The series key of a point is read back by [Name] and [Tags], its line by
    the scanners of the parser; the theorem puts these together with the
    lemmas on fields. *)
From S2P Require Import Prelude Ring WalLog MetaData DQueue DQueueSpec TsmIndex TsmIndexSpec Points PointsScan PointsKey PointsSafe PointsOrder PointsText PointsWalk PointsPrint.
From stdpp Require Import gmap sorting.
#[global] Open Scope Z_scope.

Module PointsRound.
Import Ring TsmIndex TsmIndex.Bytes TsmIndexSpec Points PointsScan PointsKey PointsSafe PointsText PointsWalk PointsPrint.

(** ** Series keys *)

Definition plain (l : list Z) : Prop := l <> [] /\ Forall (fun c => c <> bslash /\ c <> newline) l.
Definition plain_tag (t : Tag) : Prop := plain (t_Key t) /\ plain (t_Value t).
Definition etag (t : Tag) : list Z * list Z := (esc tagstop (t_Key t), esc tagstop (t_Value t)).

Lemma plain_no_bslash l : plain l -> no_bslash l.
Proof. intros [_ H]. eapply Forall_impl; [exact H|]. by intros c []. Qed.
Lemma etag_good t : plain_tag t -> good_tag (etag t) = true.
Proof. intros [Hk Hv]. apply escaped_tag; [apply Hk|apply Hv|by apply plain_no_bslash|by apply plain_no_bslash]. Qed.
Lemma etags_good ts : Forall plain_tag ts -> forallb good_tag (etag <$> ts) = true.
Proof. induction 1 as [|t ts Ht _ IH]; [done|]. cbn [fmap list_fmap forallb]. by rewrite etag_good. Qed.

Lemma no_code_esc l : existsb (has l) tagEscapeCodes = false -> esc tagstop l = l.
Proof.
  unfold tagEscapeCodes. cbn. rewrite !orb_false_iff. intros (H1 & H2 & H3 & _). apply esc_none, Forall_forall. intros c Hc. unfold tagstop.
  assert (Hn : forall d, has l d = false -> (c =? d) = false) by (intros d Hd; apply Z.eqb_neq; intros ->; apply has_spec in Hc; congruence). by rewrite !Hn.
Qed.

Lemma needsEscape_false ts : needsEscape ts = false -> (fun t => (t_Key t, t_Value t)) <$> ts = etag <$> ts.
Proof.
  induction ts as [|t ts IH]; [done|]. unfold needsEscape. cbn [existsb]. intros [H1 H2]%orb_false_iff. cbn [fmap list_fmap]. rewrite <- IH by done. f_equal. unfold etag.
  assert (Hk : existsb (has (t_Key t)) tagEscapeCodes = false /\ existsb (has (t_Value t)) tagEscapeCodes = false)
    by (cbn in H1 |- *; rewrite !orb_false_iff in *; tauto). by rewrite !no_code_esc by apply Hk.
Qed.

Lemma hash_flat (f : Tag -> list Z * list Z) ts : Forall (fun t => (f t).2 <> []) ts -> mbind hash_tag ((fun t => MkTag (f t).1 (f t).2) <$> ts) = flat (f <$> ts).
Proof.
  induction 1 as [|t ts Ht _ IH]; [done|]. cbn [fmap list_fmap]. rewrite flat_cons. cbn [mbind list_bind] in *. rewrite IH. unfold hash_tag, text. cbn [t_Key t_Value].
  rewrite (proj2 (Nat.eqb_neq _ _)) by (by destruct (f t).2). app_eq.
Qed.

Lemma MakeKey_text name ts : no_bslash name -> Forall plain_tag ts -> MakeKey name ts = esc blockstop name ++ flat (etag <$> ts).
Proof.
  intros Hn Hts. unfold MakeKey, AppendMakeKey, AppendHashKey. rewrite unescapeMeasurement_none, EscapeMeasurement_esc by done. cbn [app]. f_equal.
  assert (Hv : Forall (fun t => (etag t).2 <> []) ts) by (eapply Forall_impl; [exact Hts|]; intros t [_ [Hv _]]; by apply esc_ne).
  destruct (needsEscape ts) eqn:E.
  - rewrite <- (hash_flat etag) by done. f_equal. apply list_fmap_ext. intros i t _. by rewrite !escapeTag_esc.
  - rewrite <- needsEscape_false, <- (hash_flat (fun t => (t_Key t, t_Value t))); [|eapply Forall_impl; [exact Hts|]; by intros t [_ [Hx _]]|done].
    f_equal. rewrite <- (list_fmap_id ts) at 1. apply list_fmap_ext. by intros i [] _.
Qed.

(** ** Reading the series key *)

Lemma escaped_pb s l pre : s bslash = false -> no_bslash l -> pb pre = false -> pb (pre ++ esc s l) = false.
Proof. intros Hs Hl Hp. apply (clean_pb s). rewrite Hp. by apply clean_esc. Qed.

Lemma until_value v r : no_bslash v -> match r with [] => True | c :: _ => c = comma end -> until (Z.eqb comma) false (esc tagstop v ++ r) = length (esc tagstop v).
Proof.
  intros Hv Hr. assert (Hc : clean (Z.eqb comma) false (esc tagstop v) = true) by (apply clean_esc; [by intros c <-%Z.eqb_eq|done|done]).
  destruct r as [|c r]; [rewrite app_nil_r; by apply until_clean_end|]. subst c. by apply until_clean.
Qed.

Lemma scanTagValue_text pre v r : pre <> [] -> pb pre = false -> no_bslash v -> match r with [] => True | c :: _ => c = comma end ->
  scanTagValue (pre ++ esc tagstop v ++ r) (len pre) = Ret (len pre + len (esc tagstop v), esc tagstop v).
Proof.
  intros Hne Hp Hv Hr. unfold scanTagValue. rewrite tagValue_loop_run by (done || (rewrite !length_app; lia)). rewrite Hp, until_value by done. cbn [obind].
  rewrite (proj2 (Z.ltb_ge _ _)) by (rewrite !len_app; lia). by rewrite sub_middle.
Qed.

Lemma flat_comma ts : match flat ts with [] => True | c :: _ => c = comma end.
Proof. destruct ts; [done|]. by rewrite flat_cons. Qed.

(** What [walkTags] hands out, with or without backslashes in the key. *)
Definition decoded (hasEscape : bool) (l : list Z) : list Z := if hasEscape then unescapeTag l else l.
Lemma decoded_esc e l : no_bslash l -> (e = false -> has (esc tagstop l) bslash = false) -> decoded e (esc tagstop l) = l.
Proof. intros Hl He. destruct e; cbn; [by apply unescapeTag_esc|]. apply has_bslash_esc; auto. Qed.

Lemma has_app a b c : has (a ++ b) c = has a c || has b c.
Proof. apply existsb_app. Qed.
Lemma has_cons x l c : has (x :: l) c = (c =? x) || has l c.
Proof. done. Qed.

Definition collect (k v : list Z) (ts : Tags) : Tags * bool := (ts ++ [MkTag k v], true).

Lemma walk_step e pre t r acc fuel : plain_tag t -> pre <> [] -> pb pre = false -> match r with [] => True | c :: _ => c = comma end ->
  (e = false -> has (text (etag t)) bslash = false) ->
  walkTags_loop (S fuel) (pre ++ text (etag t) ++ r) e (len pre) collect acc =
    walkTags_loop fuel (pre ++ text (etag t) ++ r) e (len pre + len (text (etag t)) + 1) collect (acc ++ [t]).
Proof.
  intros Ht Hne Hp Hr He. pose proof Ht as [Hk Hv]. cbn [walkTags_loop]. rewrite (proj2 (Z.leb_gt _ _)) by (unfold text; rewrite !len_app; cbn [length]; lia).
  rewrite scanTo_run, Hp, until_key by (by apply etag_good). rewrite take_key. cbn [obind]. set (a := pre ++ (etag t).1 ++ [equal]).
  replace (pre ++ text (etag t) ++ r) with (a ++ esc tagstop (t_Value t) ++ r) by (unfold a, text, etag; cbn [fst snd]; app_eq).
  replace (len pre + Z.of_nat (length (etag t).1) + 1) with (len a) by (unfold a; rewrite !len_app; cbn; lia).
  rewrite scanTagValue_text; [|unfold a; by destruct pre|unfold a; by rewrite app_assoc, pb_snoc|by apply plain_no_bslash|done]. cbn [obind].
  rewrite (proj2 (Nat.eqb_neq _ _)) by (destruct Hv as [Hv _]; apply (esc_ne tagstop) in Hv; by destruct (esc tagstop (t_Value t))).
  assert (Hek : e = false -> has (etag t).1 bslash = false /\ has (etag t).2 bslash = false)
    by (intros E; specialize (He E); unfold text in He; rewrite has_app, has_cons, !orb_false_iff in He; tauto).
  assert (Ek : decoded e (etag t).1 = t_Key t) by (apply decoded_esc; [by apply plain_no_bslash|apply Hek]).
  assert (Ev : decoded e (esc tagstop (t_Value t)) = t_Value t) by (apply decoded_esc; [by apply plain_no_bslash|apply Hek]).
  assert (Ec : (if e then collect (unescapeTag (etag t).1) (unescapeTag (esc tagstop (t_Value t))) acc else collect (etag t).1 (esc tagstop (t_Value t)) acc) = (acc ++ [t], true))
    by (unfold collect; destruct e; cbn [decoded] in Ek, Ev; rewrite Ek, Ev; by destruct t).
  rewrite Ec. cbn [negb]. f_equal. unfold a. rewrite text_length, !len_app. cbn [length etag fst snd]. lia.
Qed.

Lemma walk_text e ts : forall pre acc fuel t, Forall plain_tag (t :: ts) -> pre <> [] -> pb pre = false ->
  (e = false -> has (flat (etag <$> t :: ts)) bslash = false) -> (length ts + 1 < fuel)%nat ->
  walkTags_loop fuel (pre ++ text (etag t) ++ flat (etag <$> ts)) e (len pre) collect acc = Ret (acc ++ t :: ts).
Proof.
  induction ts as [|t' ts IH]; intros pre acc fuel t Hg Hne Hp He Hf; (destruct fuel as [|fuel]; [lia|]); inversion Hg as [|? ? Ht Hg']; subst;
    cbn [fmap list_fmap] in He; rewrite flat_cons in He;
    (rewrite walk_step by (done || apply flat_comma || (intros E; specialize (He E); rewrite has_cons, has_app, !orb_false_iff in He; tauto))).
  - destruct fuel as [|fuel]; [cbn in Hf; lia|]. cbn [walkTags_loop fmap list_fmap]. rewrite (proj2 (Z.leb_le _ _)); [done|].
    change (flat []) with (@nil Z). rewrite !len_app. cbn [length]. lia.
  - cbn [fmap list_fmap]. rewrite flat_cons. set (a := pre ++ text (etag t) ++ [comma]).
    replace (pre ++ text (etag t) ++ comma :: text (etag t') ++ flat (etag <$> ts)) with (a ++ text (etag t') ++ flat (etag <$> ts)) by (unfold a; app_eq).
    replace (len pre + len (text (etag t)) + 1) with (len a) by (unfold a; rewrite !len_app; cbn; lia).
    rewrite IH; [by rewrite <- app_assoc|done|unfold a; by destruct pre|unfold a; by rewrite app_assoc, pb_snoc| |cbn in Hf; lia].
    intros E. specialize (He E). rewrite has_cons, has_app, !orb_false_iff in He. tauto.
Qed.

Lemma until_name name ts : no_bslash name -> until (Z.eqb comma) false (esc blockstop name ++ flat ts) = length (esc blockstop name).
Proof.
  intros Hn. assert (Hc : clean (Z.eqb comma) false (esc blockstop name) = true) by (apply clean_esc; [by intros c <-%Z.eqb_eq|done|done]).
  destruct ts as [|t ts]; [change (flat []) with (@nil Z); rewrite app_nil_r; by apply until_clean_end|]. rewrite flat_cons. by apply until_clean.
Qed.

Lemma commas_flat ts : (length ts <= length (List.filter (Z.eqb comma) (flat ts)))%nat.
Proof.
  induction ts as [|t ts IH]; [done|]. rewrite flat_cons. cbn [List.filter]. rewrite Z.eqb_refl, List.filter_app. cbn [length]. rewrite length_app. lia.
Qed.

Lemma parseTags_text name ts : plain name -> Forall plain_tag ts -> parseTags (esc blockstop name ++ flat (etag <$> ts)) = Ret (Some ts).
Proof.
  intros Hn Hts. pose proof (plain_no_bslash _ Hn) as Hb. assert (Hl : (0 < length (esc blockstop name))%nat).
  { destruct Hn as [Hn _]. apply (esc_ne blockstop) in Hn. destruct (esc blockstop name); [done|cbn; lia]. }
  unfold parseTags. rewrite (proj2 (Nat.eqb_neq _ _)) by (rewrite length_app; lia). set (buf := esc blockstop name ++ flat (etag <$> ts)).
  assert (Hw : walkTags buf collect [] = Ret ts).
  { unfold walkTags. rewrite (proj2 (Nat.eqb_neq _ _)) by (unfold buf; rewrite length_app; lia). unfold buf at 1. rewrite scanTo_zero, until_name, take_app_length by done. cbn [obind].
    rewrite (proj2 (Nat.eqb_neq _ _)) by lia. unfold buf. destruct ts as [|t ts].
    - cbn [fmap list_fmap]. change (flat []) with (@nil Z). rewrite app_nil_r. cbn [walkTags_loop]. by rewrite (proj2 (Z.leb_le _ _)) by lia.
    - cbn [fmap list_fmap]. rewrite flat_cons, cons_snoc, <- (len_snoc _ comma). apply (walk_text _ ts _ []); [done|apply snoc_ne|by rewrite pb_snoc| |].
      + intros E. cbn [fmap list_fmap]. rewrite flat_cons, has_cons. rewrite <- cons_snoc, has_app, has_cons, !orb_false_iff in E. rewrite !orb_false_iff. tauto.
      + rewrite !length_app. pose proof (commas_flat (etag <$> ts)) as Hc. rewrite length_fmap in Hc. pose proof (List.filter_length_le (Z.eqb comma) (flat (etag <$> ts))). cbn [length]. lia. }
  change (fun k v ts0 => (ts0 ++ [MkTag k v], true)) with collect. rewrite Hw. cbn [obind].
  rewrite (proj2 (Nat.ltb_ge _ _)); [done|]. unfold buf. rewrite List.filter_app, length_app. pose proof (commas_flat (etag <$> ts)) as Hc. rewrite length_fmap in Hc. lia.
Qed.

Lemma Name_text p name ts : plain name -> p_key p = esc blockstop name ++ flat (etag <$> ts) -> Name p = Ret name.
Proof.
  intros Hn Hk. unfold Name, name_. rewrite Hk, scanTo_zero, until_name, take_app_length by (by apply plain_no_bslash). cbn [obind snd]. f_equal.
  apply Unescape_esc; [|by apply plain_no_bslash]. intros c. unfold blockstop, is_code, Codes. cbn. destruct (c =? comma), (c =? space); cbn; try done; by rewrite ?orb_true_r.
Qed.

(** ** The printed line *)

Lemma goes_eq {St R} (loop : nat -> list Z -> Z -> St -> outcome R) buf i st j st' buf' i' j' : goes loop buf i st j st' -> buf = buf' -> i = i' -> j = j' -> goes loop buf' i' st j' st'.
Proof. by intros H <- <- <-. Qed.

Lemma escaped_goes s l pre d post e m : s space = true -> plain l ->
  goes lloop (pre ++ esc s l ++ d :: post) (len pre) (false, false, e, m) (len pre + len (esc s l)) (false, false, e, m).
Proof.
  intros Hs [_ Hl]. apply (goes_esc lloop lquiet (fun _ => true) lquiet_step); [intros; apply lpair_step|]. eapply Forall_impl; [exact Hl|]. intros c [H1 H2].
  destruct (s c) eqn:E; [by left|right]. split; [done|]. unfold lquiet. rewrite (proj2 (Z.eqb_neq c bslash)), (proj2 (Z.eqb_neq c newline)), (proj2 (Z.eqb_neq c space)); [done|congruence|done|done].
Qed.

Lemma tags_go ts : forall pre rest e m, Forall plain_tag ts ->
  goes lloop (pre ++ flat (etag <$> ts) ++ space :: rest) (len pre) (false, false, e, m) (len pre + len (flat (etag <$> ts))) (false, false, e, m).
Proof.
  induction ts as [|t ts IH]; intros pre rest e m Hg; [change (flat (etag <$> [])) with (@nil Z); rewrite Z.add_0_r; apply goes_refl|].
  inversion Hg as [|? ? [Hk Hv] Hg']; subst. cbn [fmap list_fmap]. rewrite flat_cons. set (r := flat (etag <$> ts)) in *.
  set (k := esc tagstop (t_Key t)). set (v := esc tagstop (t_Value t)). change (text (etag t)) with (k ++ equal :: v).
  assert (Hr : exists d post, r ++ space :: rest = d :: post) by (destruct r; by eexists _, _). destruct Hr as (d & post & Er).
  set (a := pre ++ comma :: k ++ equal :: v).
  assert (Hk1 : len (pre ++ comma :: k) = len pre + 1 + len k) by (rewrite len_app; cbn [length]; lia).
  assert (Ha : len a = len pre + 1 + len k + 1 + len v) by (unfold a; rewrite len_app; cbn [length]; rewrite length_app; cbn [length]; lia).
  eapply goes_eq with (buf := a ++ r ++ space :: rest) (i := len pre) (j := len a + len r); [|unfold a; app_eq|done|rewrite Ha; cbn [length]; rewrite !length_app; cbn [length]; lia].
  eapply goes_trans; [|by apply IH]. eapply goes_trans; [eapply goes_eq; [apply (lquiet_step pre comma (k ++ equal :: v ++ r ++ space :: rest)); done|unfold a; app_eq|done|done]|].
  eapply goes_trans; [eapply goes_eq; [apply (escaped_goes tagstop (t_Key t) (pre ++ [comma]) equal (v ++ r ++ space :: rest)); done|unfold a, k; app_eq|apply len_snoc|by rewrite len_snoc]|].
  eapply goes_trans; [eapply goes_eq; [apply (lquiet_step (pre ++ comma :: k) equal (v ++ r ++ space :: rest)); done|unfold a; app_eq|rewrite Hk1; done|done]|].
  eapply goes_eq; [apply (escaped_goes tagstop (t_Value t) (pre ++ comma :: k ++ [equal]) d post); done|rewrite <- Er; unfold a, v; app_eq| |];
    rewrite ?Ha, ?Hk1, ?len_app; cbn [length]; rewrite length_app; cbn [length]; fold v; lia.
Qed.

Lemma FormatInt_digits n : is_i64 n -> exists c r, FormatInt n = c :: r /\ (is_digit c \/ c = 45) /\ Forall is_digit r /\ (c = 45 -> r <> []).
Proof.
  intros H. destruct (FormatInt_parts n H) as (sgn & ip & -> & [->| ->] & Hi & Hn); cbn [app].
  - destruct ip as [|c r]; [done|]. inversion Hi; subst. exists c, r. split_and!; [done|by left|done|]. unfold is_digit in *. lia.
  - exists 45, ip. split_and!; [done|by right|done|done].
Qed.

Lemma digits_time ds : forall pre start fuel, Forall is_digit ds -> (length ds < fuel)%nat -> time_loop fuel (pre ++ ds) start (len pre) = Ret (len pre + len ds).
Proof.
  induction ds as [|c ds IH]; intros pre start fuel Hd Hf; (destruct fuel as [|fuel]; [cbn in Hf; lia|]); cbn [time_loop].
  - rewrite app_nil_r, (proj2 (Z.leb_le _ _)) by lia. f_equal. cbn. lia.
  - inversion Hd as [|? ? Hc Hd']; subst. unfold is_digit in Hc. rewrite (proj2 (Z.leb_gt _ _)) by (rewrite len_app; cbn [length]; lia). rewrite at_here. cbn [obind].
    rewrite !(proj2 (Z.eqb_neq c _)) by (unfold newline, space; lia). rewrite andb_false_r. cbn [orb]. rewrite !(proj2 (Z.ltb_ge _ _)) by lia. cbn [orb].
    rewrite cons_snoc, <- (len_snoc pre c), IH by (done || (cbn in Hf; lia)). f_equal. rewrite len_snoc. cbn [length]. lia.
Qed.

Lemma scanTime_text pre n : is_i64 n -> scanTime (pre ++ space :: FormatInt n) (len pre) = Ret (len pre + 1 + len (FormatInt n), FormatInt n).
Proof.
  intros Hn. destruct (FormatInt_digits n Hn) as (c & r & E & Hc & Hr & _). rewrite E. unfold scanTime.
  rewrite skip_one by (destruct Hc as [Hc| ->]; unfold is_digit, space in *; lia). cbn [obind]. rewrite cons_snoc, <- (len_snoc pre space). set (a := pre ++ [space]).
  assert (Ht : time_loop (S (length (a ++ c :: r))) (a ++ c :: r) (len a) (len a) = Ret (len a + len (c :: r))).
  { destruct Hc as [Hc| ->]; [apply digits_time; [by constructor|rewrite length_app; cbn; lia]|]. cbn [time_loop]. rewrite (proj2 (Z.leb_gt _ _)) by (rewrite len_app; cbn [length]; lia).
    rewrite at_here. cbn [obind]. rewrite Z.eqb_refl. cbn [Z.eqb newline space Pos.eqb orb andb]. rewrite cons_snoc, <- (len_snoc a 45), digits_time; [|done|].
    - rewrite len_snoc. cbn [length]. f_equal. lia.
    - rewrite !length_app. cbn. lia. }
  rewrite Ht. cbn [obind]. pose proof (sub_middle a (c :: r) []) as Es. rewrite app_nil_r in Es. by rewrite Es.
Qed.

Section Line.
Context {FT : FloatText} {FTOk : FloatTextOk FT}.
Context (name : list Z) (tags : Tags) (fields : Fields) (t now : Z).
Context (Hname : plain name) (Hhead : Forall (fun c => c <> 9 /\ c <> 0 /\ c <> 35) (take 1 name)).
Context (Htags : Forall plain_tag tags) (Hsorted : StronglySorted klt ((fun t => escapeTag (t_Key t)) <$> tags))
  (Hreserved : Forall (fun t => is_reserved (escapeTag (t_Key t)) = false) tags).
Context (Hfields : good_fields fields) (Hne : fields <> ∅) (Ht : MinNanoTime <= t <= MaxNanoTime).
Let key := esc blockstop name ++ flat (etag <$> tags).
Context (Hsize : map_Forall (fun k _ => seriesKeySize key (escape_String k) <= MaxKeyLength) fields).
Let fs := fjoin (kvs fields).
Let line := key ++ space :: fs ++ space :: FormatInt t.

Lemma t_i64 : is_i64 t.
Proof. unfold is_i64, MinNanoTime, MaxNanoTime, Meta.MaxNanoTime in *. lia. Qed.

Lemma t_not_zero : Meta.IsZero t = false.
Proof. apply Z.eqb_neq. unfold Meta.zeroTime, MinNanoTime in *. assert (Meta.Second = 1000000000) by done. lia. Qed.

Lemma key_head : exists c r, key = c :: r /\ c <> space /\ c <> 9 /\ c <> 0 /\ c <> 35.
Proof.
  unfold key. destruct Hname as [Hn Hb]. destruct name as [|c l]; [done|]. inversion Hhead as [|? ? (H1 & H2 & H3) _]; subst. inversion Hb as [|? ? [H4 _] _]; subst.
  rewrite esc_cons. destruct (blockstop c) eqn:E; cbn [app]; eexists _, _; split_and!; try done. intros ->. done.
Qed.

Lemma sizes : Forall (fun kv => seriesKeySize key (esc is_code kv.1) <= MaxKeyLength) (kvs fields).
Proof. rewrite kvs_perm. apply Forall_forall. intros [k v] Hk. apply elem_of_map_to_list in Hk. by apply Hsize in Hk. Qed.

(** The whole line is one block. *)
Lemma scanLine_text : scanLine line 0 = Ret (len line, line).
Proof.
  unfold scanLine. pose proof (kvs_good fields Hfields) as Hg. destruct (kvs_ne fields Hne) as (kv & l & Ek).
  destruct (FormatInt_digits t t_i64) as (c & r & Et & Hc & Hr & _).
  assert (G : exists st, goes lloop line 0 (false, false, 0, 0) (len line) st).
  { unfold line, fs. rewrite Ek in *. eexists. unfold key.
    eapply goes_trans; [eapply goes_eq; [apply (escaped_goes blockstop name []); done| |done|done]|].
    { instantiate (2 := hd space (flat (etag <$> tags) ++ space :: fjoin (kv :: l) ++ space :: FormatInt t)).
      instantiate (1 := tl (flat (etag <$> tags) ++ space :: fjoin (kv :: l) ++ space :: FormatInt t)). destruct (flat (etag <$> tags)); cbn [hd tl app]; app_eq. }
    eapply goes_trans; [eapply goes_eq; [apply (tags_go tags (esc blockstop name)); done|app_eq|done|done]|].
    eapply goes_trans; [eapply goes_eq; [apply (line_space key)|unfold key; reflexivity|unfold key; rewrite len_app; done|done]|].
    eapply goes_trans; [eapply goes_eq; [apply (fjoin_goes_line l kv (key ++ [space]) (space :: FormatInt t) 0); done|unfold key; app_eq|unfold key; rewrite !len_app; cbn; lia|done]|].
    eapply goes_trans; [eapply goes_eq; [apply (line_space' (key ++ space :: fjoin (kv :: l)) (FormatInt t))|unfold key; app_eq|rewrite !len_app; cbn [length]; lia|done]|].
    eapply goes_eq; [apply (goes_quiet lloop lquiet lquiet_step (FormatInt t)) with (pre := key ++ space :: fjoin (kv :: l) ++ [space]) (post := [])|unfold key; rewrite app_nil_r; app_eq| |].
    - rewrite Et. constructor; [destruct Hc as [Hc| ->]; [|done]|eapply Forall_impl; [exact Hr|intros d Hd]]; apply plain_quiet, digit_plain; done.
    - rewrite !len_app. cbn [length]. rewrite length_app. cbn. lia.
    - unfold key. rewrite !len_app. cbn [length]. rewrite !length_app. cbn [length]. lia. }
  destruct G as [[[[q f] e] m] G]. destruct (G (S (length line))) as (fuel & Hf & E); [lia|]. unfold lloop in E. rewrite E. destruct fuel as [|fuel]; [lia|]. cbn [line_loop].
  rewrite (proj2 (Z.leb_le _ _)) by lia. cbn [obind]. pose proof (sub_middle [] line []) as Es. rewrite app_nil_r in Es. cbn [app length] in Es. change (Z.of_nat 0) with 0 in Es.
  rewrite Z.add_0_l in Es. by rewrite Es.
Qed.

Lemma skip_key r : skipWhitespace (key ++ r) 0 = Ret 0.
Proof. destruct key_head as (c & l & -> & H1 & H2 & H3 & _). by apply (skip_none [] c (l ++ r)). Qed.

(** The tags are in the order [scanKey] puts them in. *)
Lemma keys_etag : keys_of (etag <$> tags) = (fun t => escapeTag (t_Key t)) <$> tags.
Proof. unfold keys_of. rewrite <- list_fmap_compose. apply list_fmap_ext. intros i x _. symmetry. apply escapeTag_esc. Qed.

Lemma sorted_etag : sort_raw (etag <$> tags) = etag <$> tags.
Proof.
  symmetry. apply sort_raw_unique; [|done|].
  - rewrite keys_etag. by apply klt_NoDup.
  - clear - Hsorted. induction tags as [|x l IH]; [constructor|]. cbn [fmap list_fmap] in Hsorted. inversion Hsorted as [|? ? H1 H2]; subst. constructor; [by apply IH|].
    rewrite Forall_fmap in H2. change (Forall (raw_le (etag x)) (etag <$> l)). rewrite Forall_fmap. eapply Forall_impl; [exact H2|]. intros y Hy. change (klt (escapeTag (t_Key x)) (escapeTag (t_Key y))) in Hy. unfold raw_le. change (bytes_le (esc tagstop (t_Key x)) (esc tagstop (t_Key y))). rewrite !escapeTag_esc in Hy. by apply Compare_Lt_le in Hy as [? _].
Qed.

Lemma scanKey_text r : scanKey (key ++ space :: r) 0 = Ret (len key, key).
Proof.
  unfold key. rewrite <- app_assoc. pose proof (scanKey_run [] (esc blockstop name) (etag <$> tags) r) as E. cbn [app length] in E. rewrite E; clear E.
  - unfold key_result. rewrite sorted_etag, bool_decide_eq_true_2 by (rewrite keys_etag; by apply klt_NoDup).
    assert (Er : existsb is_reserved (keys_of (etag <$> tags)) = false).
    { rewrite keys_etag. clear - Hreserved. induction Hreserved as [|x l Hx Hl IH]; [done|]. cbn [fmap list_fmap existsb]. rewrite Hx. exact (IH Hl). }
    apply find_existsb in Er. rewrite Er. do 2 f_equal. rewrite len_app. lia.
  - pose proof (skip_key (space :: r)) as E. unfold key in E. by rewrite <- app_assoc in E.
  - destruct Hname as [Hn _]. apply escaped_name; [done|by apply plain_no_bslash].
  - by apply etags_good.
Qed.

Lemma key_size : (0 < length key)%nat /\ len key <= MaxKeyLength.
Proof.
  destruct key_head as (c & r & E & _). split; [rewrite E; cbn; lia|]. destruct (kvs_ne fields Hne) as (kv & l & Ek). pose proof sizes as Hs. rewrite Ek in Hs.
  inversion Hs as [|? ? H1 _]; subst. unfold seriesKeySize in H1. lia.
Qed.

Lemma SafeCalcTime_text : SafeCalcTime t "n" = Ret t.
Proof.
  unfold SafeCalcTime, safeSignedMult. change (GetPrecisionMultiplier "n") with 1. cbn [Z.eqb Pos.eqb]. rewrite !orb_true_r, Z.mul_1_r, i64_id by apply t_i64.
  unfold CheckTime. by rewrite !(proj2 (Z.ltb_ge _ _)) by lia.
Qed.

Lemma parsePoint_text : parsePoint line now "n" = Ret (new_point t key fs (len (space :: FormatInt t) + len fs) (FormatInt t)).
Proof.
  pose proof (kvs_good fields Hfields) as Hg. destruct (kvs_ne fields Hne) as (kv & l & Ek). pose proof key_size as [Hk1 Hk2]. unfold parsePoint, line.
  rewrite scanKey_text. cbn [obind]. rewrite (proj2 (Nat.eqb_neq _ _)), (proj2 (Z.ltb_ge _ _)) by lia. unfold fs. pose proof sizes as Hs. rewrite Ek in *.
  rewrite scanFields_text by done. cbn [obind]. assert (Hf : (0 < length (fjoin (kv :: l)))%nat) by (pose proof (length_kvs _ Hg); cbn [length] in *; lia).
  rewrite (proj2 (Nat.eqb_neq _ _)) by lia. unfold walkFields. rewrite walk_small by (done || lia). cbn [obind]. set (a := key ++ space :: fjoin (kv :: l)).
  replace (key ++ space :: fjoin (kv :: l) ++ space :: FormatInt t) with (a ++ space :: FormatInt t) by (unfold a; app_eq).
  replace (len key + 1 + len (fjoin (kv :: l))) with (len a) by (unfold a; rewrite len_app; cbn [length]; lia).
  rewrite scanTime_text by apply t_i64. cbn [obind]. destruct (FormatInt_digits t t_i64) as (c & r & Et & _). rewrite (proj2 (Nat.eqb_neq _ _)) by (by rewrite Et).
  rewrite ParseInt_FormatInt by apply t_i64. rewrite SafeCalcTime_text. cbn [obind]. rewrite (proj2 (Z.ltb_ge (len a + 1 + len (FormatInt t)) _)) by (rewrite len_app; cbn [length]; lia).
  cbn [obind forallb]. do 2 f_equal. rewrite len_app. lia.
Qed.

Lemma ParsePoints_text : ParsePoints now line = Ret ([new_point t key fs (len (space :: FormatInt t) + len fs) (FormatInt t)], []).
Proof.
  unfold ParsePoints, ParsePointsWithPrecision. assert (Hl : (0 < length line)%nat) by (unfold line; rewrite length_app; cbn; lia).
  destruct (length line) as [|n] eqn:En; [lia|]. cbn [points_loop]. rewrite (proj2 (Z.ltb_lt _ _)) by lia. rewrite scanLine_text. cbn [obind]. rewrite En. cbn [Nat.eqb].
  assert (Hs : skipWhitespace line 0 = Ret 0) by apply skip_key. rewrite Hs. cbn [obind]. rewrite (proj2 (Z.leb_gt _ _)) by lia.
  destruct key_head as (c & r & Ek & _ & _ & _ & Hc). assert (Ea : at_ line 0 = Ret c) by (unfold line; rewrite Ek; apply (at_here [])). rewrite Ea. cbn [obind].
  rewrite (proj2 (Z.eqb_neq c 35)) by done. destruct (FormatInt_digits t t_i64) as (d & ds & Ed & Hd & Hds & _).
  assert (El : exists z, at_ line (len line - 1) = Ret z /\ z <> newline).
  { assert (Hz : Forall (fun x => x <> newline) (d :: ds)) by (constructor; [destruct Hd as [Hd| ->]; [unfold is_digit, newline in *; lia|done]|eapply Forall_impl; [exact Hds|]; unfold is_digit, newline; lia]).
    destruct (last (d :: ds)) as [z|] eqn:Ez; [|by apply last_None in Ez]. exists z. split; [|apply last_Some in Ez as [x Ex]; rewrite Ex in Hz; apply Forall_app in Hz as [_ Hz]; by inversion Hz].
    pose proof (at_last line [] z) as H. rewrite app_nil_r in H. apply H. unfold line. rewrite Ed. change (key ++ space :: fs ++ space :: d :: ds) with (key ++ (space :: fs) ++ [space] ++ d :: ds).
    rewrite !app_assoc, last_app, Ez. done. }
  destruct El as (z & Ez & Hz). rewrite En in Ez. rewrite Ez. cbn [obind]. rewrite (proj2 (Z.eqb_neq z newline)) by done. rewrite from_zero. cbn [obind]. rewrite parsePoint_text.
  destruct n as [|n]; cbn [points_loop]; rewrite (proj2 (Z.ltb_ge _ _)) by lia; done.
Qed.

(** ** Making the point *)

Lemma esc_length s l : (length l <= length (esc s l))%nat.
Proof. induction l as [|c l IH]; [done|]. rewrite esc_cons, length_app. destruct (s c); cbn; lia. Qed.

Lemma check_all_ok (f : list Z * FieldValue -> outcome unit) l : Forall (fun kv => f kv = Ret tt) l -> check_all f l = Ret tt.
Proof. induction 1 as [|kv l E _ IH]; [done|]. cbn [check_all]. by rewrite E. Qed.

Lemma check_field_ok kv : good_field kv -> check_field kv = Ret tt.
Proof.
  intros [(Hk & _) Hv]. unfold check_field. rewrite (proj2 (Nat.eqb_neq _ _)) by (by destruct kv.1). destruct kv.2; try done. destruct Hv as (_ & H1 & H2). by rewrite H1, H2.
Qed.

Lemma NewPoint_text : NewPoint name tags fields t = Ret (new_point t key fs (len fs) []).
Proof.
  unfold NewPoint, pointKey. pose proof t_not_zero as Hz.
  rewrite (proj2 (Nat.eqb_neq _ _)) by (intros E; apply length_zero_iff_nil, map_to_list_empty_iff in E; done). rewrite Hz. unfold CheckTime.
  rewrite !(proj2 (Z.ltb_ge _ _)) by lia. cbn [orb obind]. pose proof (kvs_good fields Hfields) as Hg. rewrite kvs_perm in Hg.
  rewrite check_all_ok by (eapply Forall_impl; [exact Hg|apply check_field_ok]). cbn [obind]. rewrite MakeKey_text by (done || by apply plain_no_bslash). fold key.
  rewrite check_all_ok; [cbn [obind]; by rewrite Fields_MarshalBinary_text|]. apply Forall_forall. intros [k v] Hk. apply elem_of_map_to_list, Hsize in Hk. cbn [fst].
  rewrite (proj2 (Z.ltb_ge _ _)); [done|]. unfold seriesKeySize in *. change (escape_String k) with (esc is_code k) in Hk. pose proof (esc_length is_code k). lia.
Qed.

Lemma String_text cap ts : Point_String (new_point t key fs cap ts) = line.
Proof.
  unfold Point_String, UnixNano. cbn [new_point p_time p_key p_fields]. rewrite t_not_zero, i64_id by apply t_i64. done.
Qed.
End Line.

(** What a line can hold: a name, tag keys, tag values and field keys that are
    not empty and have no backslash or newline, a name that does not begin with
    a tab, a zero byte or the sign of a comment, field keys that do not begin
    with a tab or a zero byte, tags in the strict order of their escaped keys,
    none of them reserved, at least one field, field values of the five types
    of the protocol with finite floats, series keys within the limit, and a
    nanosecond time in range. *)
Record printable (name : list Z) (tags : Tags) (fields : Fields) (t : Z) : Prop := {
  pr_name : plain name;
  pr_head : Forall (fun c => c <> 9 /\ c <> 0 /\ c <> 35) (take 1 name);
  pr_tags : Forall plain_tag tags;
  pr_sorted : StronglySorted klt ((fun t => escapeTag (t_Key t)) <$> tags);
  pr_reserved : Forall (fun t => is_reserved (escapeTag (t_Key t)) = false) tags;
  pr_fields : good_fields fields;
  pr_ne : fields <> ∅;
  pr_size : map_Forall (fun k _ => seriesKeySize (MakeKey name tags) (escape_String k) <= MaxKeyLength) fields;
  pr_time : MinNanoTime <= t <= MaxNanoTime }.

(** C7. A point made by [NewPoint] and printed by [String] is parsed back by
    [ParsePoints]: one point, no failed line, with the key, the fields and the
    time of the point that was printed, and [Name], [Tags] and [Fields] of it
    return the name, the tags and the field map the point was made of.  The
    point is [printable]: its name, tag keys, tag values and field keys are not
    empty and have no backslash or newline, and neither name nor field keys
    begin with a tab or a zero byte, nor the name with the sign of a comment;
    its tags are strictly sorted by their escaped keys (which [NewPoint] does
    not see to: [raw_order_changes_key]) and none of these is reserved; there
    is a field, its values have the five types of the protocol, and floats are
    finite; no series key is longer than the limit; and the time is in the
    range of the storage engine.  Floats are printed and parsed back as
    [strconv] documents. *)
Theorem print_parse_roundtrip {FT : FloatText} {FTOk : FloatTextOk FT} (name : list Z) (tags : Tags) (fields : Fields) (t now : Z) :
  printable name tags fields t ->
  exists p q, NewPoint name tags fields t = Ret p /\ ParsePoints now (Point_String p) = Ret ([q], []) /\
    p_key q = p_key p /\ p_fields q = p_fields p /\ p_time q = t /\
    Name q = Ret name /\ (exists q', Point_Tags q = Ret (tags, q')) /\ (exists q', Point_Fields q = Ret (fields, q')).
Proof.
  intros [H1 H2 H3 H4 H5 H6 H7 H8 H9]. rewrite MakeKey_text in H8 by (done || by apply plain_no_bslash). eexists _, _. split; [by apply NewPoint_text|].
  rewrite String_text by done. split; [by apply ParsePoints_text|]. cbn [new_point p_key p_fields p_time]. do 3 (split; [done|]). split; [by apply (Name_text _ name tags)|]. split.
  - unfold Point_Tags. cbn [new_point p_cachedTags p_key]. rewrite parseTags_text by done. by eexists.
  - by apply Point_Fields_text.
Qed.

Lemma bit_floats_ok : FloatTextOk PointsOrder.PointsOrder.bit_floats.
Proof.
  split; intros x Hx _ _; cbn [AppendFloat64 ParseFloat PointsOrder.PointsOrder.bit_floats]; [|by apply ParseUint_decimal].
  exists [], (WalLog.WalLog.decimal 20 x), []. split_and!; [by rewrite app_nil_r|by left|apply decimal_digits; unfold is_u64 in Hx; lia|apply decimal_ne|by left].
Qed.

(** Both sides evaluate to the same, compared without being printed out. *)
Ltac evaluate := match goal with |- ?a = ?b => exact (eq_refl b <: a = b) end.

(** A point with everything that is escaped somewhere. *)
Definition sample_tags : Tags := [MkTag (bytes_of "a b") (bytes_of "x,y"); MkTag (bytes_of "host") (bytes_of "k=1")].
Definition sample_fields : Fields := <[bytes_of "s t" := FString [104; quote; bslash; comma; newline]]> (<[bytes_of "n" := FInt64 (-5)]> {[bytes_of "f" := FFloat64 7]}).

Ltac all_bytes := repeat first [apply Forall_nil_2|apply Forall_cons_2; [vm_compute; split_and?; congruence|]].

Lemma sample_printable : printable (bytes_of "my m") sample_tags sample_fields 5.
Proof.
  assert (Hp : forall s, bytes_of s <> [] -> Forall (fun c => c <> bslash /\ c <> newline) (bytes_of s) -> plain (bytes_of s)) by (by intros s H1 H2).
  split.
  - apply Hp; [done|all_bytes].
  - cbn [take]. all_bytes.
  - repeat (apply Forall_cons_2; [split; (apply Hp; [done|all_bytes])|]). apply Forall_nil_2.
  - repeat constructor.
  - repeat constructor.
  - repeat (apply map_Forall_insert_2; [split; [split_and!; [done|all_bytes|all_bytes]|by vm_compute]|]). apply map_Forall_empty.
  - intros H. apply (f_equal (fun m => m !! bytes_of "n")) in H. by vm_compute in H.
  - repeat (apply map_Forall_insert_2; [by vm_compute|]). apply map_Forall_empty.
  - by vm_compute.
Qed.

Lemma print_parse_roundtrip_witness :
  exists p q, @NewPoint PointsOrder.PointsOrder.bit_floats (bytes_of "my m") sample_tags sample_fields 5 = Ret p /\
    @ParsePoints PointsOrder.PointsOrder.bit_floats 0 (Point_String p) = Ret ([q], []) /\
    p_key q = p_key p /\ p_fields q = p_fields p /\ p_time q = 5 /\
    Name q = Ret (bytes_of "my m") /\ (exists q', Point_Tags q = Ret (sample_tags, q')) /\ (exists q', @Point_Fields PointsOrder.PointsOrder.bit_floats q = Ret (sample_fields, q')).
Proof. exact (@print_parse_roundtrip PointsOrder.PointsOrder.bit_floats bit_floats_ok (bytes_of "my m") sample_tags sample_fields 5 0 sample_printable). Defined.

(** The parser accepts a line whose point cannot be read: an escaped comma
    behind a closing quote is skipped by the scanner of the line, but ends the
    value for the iterator, which then takes a lone quote for a string and
    slices it out of range. *)
Example accepted_string_panics :
  exists p, @ParsePoints PointsOrder.PointsOrder.bit_floats 5 (bytes_of "m a=" ++ [quote] ++ bytes_of "x" ++ [quote; bslash; comma; quote] ++ bytes_of "b=" ++ [quote]) = Ret ([p], []) /\
    @Point_Fields PointsOrder.PointsOrder.bit_floats p = Panic.
Proof.
  exists (new_point 5 (bytes_of "m") (bytes_of "a=" ++ [quote] ++ bytes_of "x" ++ [quote; bslash; comma; quote] ++ bytes_of "b=" ++ [quote]) 11 []).
  split; evaluate.
Qed.

(** Tags sorted by their keys, as [NewTags] sorts them, are not sorted by
    their escaped keys: the point is printed with one series key and parsed
    back with another. *)
Theorem raw_order_changes_key :
  let tags := NewTags {[ bytes_of "a b" := bytes_of "1"; bytes_of "a!" := bytes_of "2" ]} in
  exists p q, @NewPoint PointsOrder.PointsOrder.bit_floats (bytes_of "m") tags {[bytes_of "f" := FInt64 1]} 5 = Ret p /\
    @ParsePoints PointsOrder.PointsOrder.bit_floats 0 (Point_String p) = Ret ([q], []) /\
    p_key p = bytes_of "m,a\ b=1,a!=2" /\ p_key q = bytes_of "m,a!=2,a\ b=1".
Proof.
  exists (new_point 5 (bytes_of "m,a\ b=1,a!=2") (bytes_of "f=1i") 4 []), (new_point 5 (bytes_of "m,a!=2,a\ b=1") (bytes_of "f=1i") 6 (bytes_of "5")).
  split_and!; [evaluate|evaluate|done|done].
Qed.
End PointsRound.
